(* ===== verification/_CoqProject ===== *)
-Q . S2P
Prelude.v
DtList.v
Regset.v
Str.v
Htab.v
HtabUniq.v
Symtab.v
Strtab.v
Bpf.v
As.v
Cg.v
CgSim.v
CgAgg.v
Int128.v
BpfMap.v
Dvar.v
AggBin.v
Aggregate.v
AggCmp.v
AggOrder.v
AggWalk.v
AggJoin.v
Ring.v
Spec.v
Consume.v
Fold.v
Dof.v
DofSafe.v
Probe.v
Usdt.v
Notes.v
NotesBytes.v
NotesParse.v
NotesLoop.v
NotesMove.v
NotesRound.v
Printf.v
Ident.v
IdentInv.v
IdentSafe.v
Node.v
PrintfCheck.v
PrintfType.v
