(* ===== verification/Prelude.v ===== *)
(** * Verification of DTrace for Linux

    DTrace compiles programs in the D language to BPF, lets the kernel run them
    at probes, and consumes the trace data, speculations and aggregations that
    they produce.  This library models parts of the C code under src/ and proves
    what makes them correct.  This first file is also the prelude.

    ** The program and the files

    The compiler (libdtrace/dt_parser.c, dt_cg.c, dt_as.c) folds constants and
    types integer expressions, generates labelled BPF code in registers that an
    allocator hands out, and assembles it.
    - [Fold]: dt_node_int, dt_node_op1/op2/op3 and the integer part of the cook
      functions (dt_parser.c).
    - [Regset]: dt_regset.c with the bitmaps of sys/bitmap.h; the spill callbacks
      are functions on the client's state.
    - [Bpf]: the instruction macros of bpf_asm.h, and the machine that runs them.
    - [Cg]: dt_cg_node on integer expressions, with variables of 1, 2, 4 and 8 bytes and
      their promotion, and its emitters; [CgSim]: that the emitted code computes the
      value of the expression.
    - [CgAgg]: the code of the aggregating functions (dt_cg.c).
    - [As]: dt_as and the label, variable, relocation and string tables.
    - [Node]: the predicates on the types of nodes (dt_parser.c); libctf, which
      holds the types, is a class of functions with its laws.
    - [Ident]: the tables of identifiers (dt_ident.c) with the control block of a
      pass (dt_pcb.c), deferred pragmas (dt_pragma.c), what the parser does to the
      tables and what cooking does to identifiers; identifiers and tables are objects on a heap.  [IdentInv]: the invariant
      and a triple for each operation; [IdentSafe]: whole compilations.

    Formatted output (dt_printf.c):
    - [Printf]: the conversions and their dictionary, reading a format string, and
      writing it for DOF; [PrintfCheck]: checking it against the arguments on [Node],
      and the compilation of printf() with its records (dt_cg.c, dt_map.c);
      [PrintfType]: printing the records.

    Libraries shared by the other parts:
    - [DtList] (libcommon/dt_list.c) on a heap of cells, [Htab]
      (libcommon/dt_htab.c, dt_htab.h) with its link functions on a heap, [Str]
      (dt_string.c, strlcpy.c, strlcat.c), [Strtab] (dt_strtab.c), [Symtab]
      (dt_symtab.c, on [Htab]).  [HtabUniq]: hash tables whose comparison is not
      an equivalence, as the parser of ELF notes uses them.

    The runtime that is linked to the BPF programs (bpf/):
    - [BpfMap]: the interface of the kernel's maps, as a class with its laws and
      an instance that has them; the kernel is not part of the program.
    - [Dvar] (get_dvar.c), [AggBin] (agg_qbin.c, agg_lqbin.c, get_agg.c), and the
      first part of [Spec] (speculation.c).

    The consumer (dt_consume.c, dt_aggregate.c, dt_peb.c):
    - [Ring]: the ring buffers and dt_consume_cpu.
    - [Spec]: the table of speculative data, and the transition system of BPF
      programs, buffers and consumer.
    - [Consume]: dt_consume_one_probe, dt_consume_begin and dtrace_consume, on
      [Ring] and [Spec].
    - [Aggregate]: snapshots, clearing, walking and removing of aggregations;
      [AggCmp]: the comparisons by which they are sorted; [AggOrder]: the order that
      the documentation gives, independent of the code; [AggWalk]: the sorted walks; [AggJoin]: the joined walk of printa(); [Int128]: the 128-bit
      arithmetic of stddev().

    Probes and their definitions:
    - [Probe]: the array and the hash tables of probes (dt_probe.c, on [Htab]),
      lookup and iteration.
    - [Dof]: the parser of DOF (libcommon/usdt_parser_dof.c) over the bytes of the
      data, which comes from the traced program and is not trusted; [DofSafe]: when
      it stays within the data.
    - [Usdt]: the pipes between dtprobed and that parser (usdt_parser.c,
      usdt_parser_host.c).
    - [Notes]: the ELF notes that dtrace -G (libdtrace/dt_link.c) and the macros of
      sys/usdt_gennote.h write, their parser (libcommon/usdt_parser_notes.c, on
      [Htab]), and the loops of process_dof() of dtprobed that read the messages.  Its proof:
      [NotesBytes] (reads at an offset), [NotesParse] (one note), [NotesLoop] (all
      notes), [NotesMove] (the tracepoints move to their probes), [NotesRound] (the
      messages).

    ** How the code is modelled

    Integers are [Z] with the wrap-around of their width written out ([wrapu],
    [wraps]); bytes and C strings are lists of [Z]; structs are records; pointers
    are identities into a store or a heap where aliasing matters ([DtList],
    [Htab], [Symtab], [Aggregate], [Ident]) and values otherwise.  Errors are values of
    [result] or [option]; failed assertions, accesses outside an object and
    stores through null pointers are the outcome [None] (or [Crash]), and the
    theorems say when they cannot happen.  Allocation takes its outcomes from a
    list ([allocs]), so that every pattern of failures is covered.  Code that is
    not under src/ (qsort, fnmatch, the kernel's maps, what epoll_wait returns) is an
    argument with the documented behaviour as hypothesis, and each theorem with
    hypotheses has a witness that meets them.

    Loops whose recursion is not structural have fuel.  The theorems show that
    the fuel given is enough: 65 and 129 rounds for the 128-bit division and 129
    for the square root (one per bit), three rounds per symbol for the ranges of
    a symbol table, one round per event for a ring buffer, one round per key for
    a snapshot, the number of instructions for the machine of [Bpf], the length of
    a format string, the number of types of a CTF container, the length of a section
    and the number of structures for the notes, the length of a chain for the deferred
    pragmas of a name and two levels for the filling of a table from a template.

    ** What is shown

    - Compiler: expressions compile to code with their value, the live registers
      untouched ([CgSim]); the assembled code simulates the labelled code and
      the assembler never fails an assertion ([As]); registers handed out are
      restored ([Regset]); folding agrees with the generated code, up to the
      listed exceptions ([Fold]); aggregation code updates its words and nothing
      else ([CgAgg]); whatever a program makes the parser do, and whether
      compilations succeed or fail, the variables of a table have ids of their own and
      storage that does not overlap, and a compilation that fails leaves in the tables
      the identifiers that were there, but for flags and what cooking them gave
      ([IdentSafe]).
    - Libraries: each implements an abstract list, finite map, string list or
      map from addresses and names, under any pattern of allocation failures and within
      the sizes that their integers can hold.
    - Runtime: variables are kept apart ([Dvar]), bins contain their values and
      aggregations start afresh after a clear ([AggBin]).
    - Consumer: events are delivered once and in order, BEGIN first and END last
      ([Ring], [Consume]); ids of speculations are not reused while data is
      under way, all data is accounted for, and draining outputs what was committed,
      drops what was discarded and frees the id ([Spec]);
      a snapshot holds the merged data of all CPUs ([Aggregate]); sorted walks
      visit each entry once and in the order of [AggOrder] ([AggWalk]), joined walks are
      a full outer join in that order, for functions other than stddev() ([AggJoin]); stddev() reports the integer square root it should
      ([Int128]).
    - Formatted output: a format that was checked against its arguments never gives
      printf(3) an argument of another type than it expects, and printing takes
      exactly the records that were compiled, up to the listed exceptions
      ([PrintfType]); a format that is written for DOF is read back as it was
      ([Printf]).
    - Probes: the tables hold the probes that were inserted and not deleted,
      whatever happens in between, and every way to search them finds exactly the
      probes that match ([Probe]).
    - DOF: what the parser checks is enough for all its later accesses, for data of
      a sane layout that is spelled out; for each part of that layout which it does
      not check there is data that makes it leave the buffer ([DofSafe]).
    - Pipes: however read() and write() divide the data, it arrives as it was
      written, and messages are kept apart ([Usdt]).
    - ELF notes: from the notes as they are written to what dtprobed keeps, every
      tracepoint of a program arrives once, with its probe and the declared types, in
      messages that dtprobed reads to their end ([NotesRound]); the same probe may be
      sent twice there, since its hash depends on the offset, which its stash refuses.

    ** Not modelled

    The scanner and grammar (lex and yacc input), declarations and translators (CTF
    types of libctf), the contents of signatures and nested compilations, strings and the
    other non-integer parts of code generation, providers and the arguments of probes, the
    generation of DOF, the ELF object around the notes, processes (libproc, the rest of
    dtprobed with its stash), the output of print(), stacks and quantizations, options, and
    the command.  System calls and files are left out
    throughout.  BPF
    functions are single steps in [Spec]; the races inside them are listed as
    findings.

    ** Plan

    Next: clear() and trunc(); the signatures of functions and arrays (dt_idcook_sign in
    dt_ident.c); the files in which dtprobed keeps the messages (dtprobed/dof_stash.c). *)

From Stdlib Require Import ZArith Lia.
From stdpp Require Import base gmap list numbers sorting.

(** ** Scope and notations for C integers *)

#[global] Open Scope Z_scope.

(** [wrapu w z] is the value of [z] stored in an unsigned integer of [w] bits;
    [wraps w z] the value stored in a two's complement signed one. *)
Definition wrapu (w z : Z) : Z := z `mod` 2 ^ w.
Definition wraps (w z : Z) : Z :=
  if wrapu w z <? 2 ^ (w - 1) then wrapu w z else wrapu w z - 2 ^ w.

Abbreviation u8 z := (wrapu 8 z).
Abbreviation u16 z := (wrapu 16 z).
Abbreviation u32 z := (wrapu 32 z).
Abbreviation u64 z := (wrapu 64 z).
Abbreviation s16 z := (wraps 16 z).
Abbreviation s32 z := (wraps 32 z).
Abbreviation s64 z := (wraps 64 z).

Abbreviation in64 z := (0 <= z < 2 ^ 64).

(** C truth values: [b ? 1 : 0], and the test of a scalar in a condition. *)
Definition c_bool (b : bool) : Z := if b then 1 else 0.
Definition c_true (z : Z) : bool := negb (z =? 0).
(** The test [f & mask]. *)
Definition flag (f mask : Z) : bool := c_true (Z.land f mask).


(** ** Tactics *)

(** Case analysis on the first boolean comparison of the goal, with the
    comparison turned into the proposition it decides. *)
Ltac case_cmp :=
  match goal with
  | |- context [?a <? ?b] => destruct (Z.ltb_spec a b)
  | |- context [?a <=? ?b] => destruct (Z.leb_spec a b)
  | |- context [?a =? ?b] => destruct (Z.eqb_spec a b)
  | |- context [?a >? ?b] => rewrite (Z.gtb_ltb a b); destruct (Z.ltb_spec b a)
  | |- context [?a >=? ?b] => rewrite (Z.geb_leb a b); destruct (Z.leb_spec b a)
  end.

(** The same in a hypothesis. *)
Ltac case_cmp_in H :=
  match type of H with
  | context [?a <? ?b] => destruct (Z.ltb_spec a b)
  | context [?a <=? ?b] => destruct (Z.leb_spec a b)
  | context [?a =? ?b] => destruct (Z.eqb_spec a b)
  | context [?a >? ?b] => rewrite (Z.gtb_ltb a b) in H; destruct (Z.ltb_spec b a)
  | context [?a >=? ?b] => rewrite (Z.geb_leb a b) in H; destruct (Z.leb_spec b a)
  end.

(** Turn every boolean comparison hypothesis into a proposition. *)
Ltac b2p :=
  repeat match goal with
  | H : (_ <? _) = true |- _ => apply Z.ltb_lt in H
  | H : (_ <? _) = false |- _ => apply Z.ltb_ge in H
  | H : (_ <=? _) = true |- _ => apply Z.leb_le in H
  | H : (_ <=? _) = false |- _ => apply Z.leb_gt in H
  | H : (_ =? _) = true |- _ => apply Z.eqb_eq in H
  | H : (_ =? _) = false |- _ => apply Z.eqb_neq in H
  | H : (_ && _) = true |- _ => apply andb_prop in H; destruct H
  | H : negb _ = true |- _ => apply negb_true_iff in H
  | H : negb _ = false |- _ => apply negb_false_iff in H
  end.

(** ** Machine integers *)

Lemma pow2_pos w : 0 <= w -> 0 < 2 ^ w.
Proof. intros. apply Z.pow_pos_nonneg; lia. Qed.

Lemma wrapu_range w z : 0 <= w -> 0 <= wrapu w z < 2 ^ w.
Proof. intros. apply Z.mod_pos_bound, pow2_pos; lia. Qed.

Lemma wrapu_small w z : 0 <= z < 2 ^ w -> wrapu w z = z.
Proof. apply Z.mod_small. Qed.

Lemma wrapu_idem w z : 0 <= w -> wrapu w (wrapu w z) = wrapu w z.
Proof. intros. apply wrapu_small, wrapu_range; lia. Qed.

Lemma wrapu_add_l w a b : wrapu w (wrapu w a + b) = wrapu w (a + b).
Proof. unfold wrapu. apply Zplus_mod_idemp_l. Qed.

Lemma wrapu_add_r w a b : wrapu w (a + wrapu w b) = wrapu w (a + b).
Proof. unfold wrapu. apply Zplus_mod_idemp_r. Qed.

Lemma wraps_range w z : 0 < w -> - 2 ^ (w - 1) <= wraps w z < 2 ^ (w - 1).
Proof.
  intros. unfold wraps. pose proof (wrapu_range w z ltac:(lia)).
  assert (2 ^ w = 2 * 2 ^ (w - 1))
    by (rewrite <- Z.pow_succ_r by lia; f_equal; lia).
  case_cmp; lia.
Qed.

Lemma wraps_small w z :
  0 < w -> - 2 ^ (w - 1) <= z < 2 ^ (w - 1) -> wraps w z = z.
Proof.
  intros Hw Hz. unfold wraps, wrapu.
  assert (2 ^ w = 2 * 2 ^ (w - 1))
    by (rewrite <- Z.pow_succ_r by lia; f_equal; lia).
  destruct (Z.le_gt_cases 0 z).
  - rewrite Z.mod_small by lia. case_cmp; lia.
  - replace (z `mod` 2 ^ w) with (z + 2 ^ w); [case_cmp; lia|].
    symmetry. rewrite <- (Z.mod_add _ 1) by lia.
    rewrite Z.mul_1_l. apply Z.mod_small. lia.
Qed.

(** A signed value and its unsigned reading are congruent. *)
Lemma wrapu_wraps w z : 0 <= w -> wrapu w (wraps w z) = wrapu w z.
Proof.
  intros. unfold wraps. case_cmp; [by apply wrapu_idem|].
  unfold wrapu. rewrite Zminus_mod, Z_mod_same_full, Z.sub_0_r by lia.
  by rewrite !Z.mod_mod by (pose proof (pow2_pos w); lia).
Qed.

Lemma testbit_high w z i : 0 <= z < 2 ^ w -> w <= i -> Z.testbit z i = false.
Proof.
  intros Hz Hi. destruct (Z.eq_dec z 0) as [->|]; [apply Z.testbit_0_l|].
  apply Z.bits_above_log2; [lia|].
  apply Z.lt_le_trans with w; [|lia]. apply Z.log2_lt_pow2; lia.
Qed.

Lemma shl_u64 a n : 0 <= n < 64 -> u64 (Z.shiftl a n) = wrapu (64 - n) a * 2 ^ n.
Proof.
  intros Hn. rewrite Z.shiftl_mul_pow2 by lia. unfold wrapu.
  replace (2 ^ 64) with (2 ^ (64 - n) * 2 ^ n) by (rewrite <- Z.pow_add_r by lia; f_equal; lia).
  apply Zmult_mod_distr_r.
Qed.

(** Shifting a value up and down again takes its low bits. *)
Lemma shift_zext a n : 0 <= n < 64 -> Z.shiftr (u64 (Z.shiftl a n)) n = wrapu (64 - n) a.
Proof.
  intros Hn. rewrite shl_u64, Z.shiftr_div_pow2 by lia. apply Z.div_mul. pose proof (pow2_pos n). lia.
Qed.

Lemma shift_sext a n : 0 <= n < 64 -> Z.shiftr (s64 (u64 (Z.shiftl a n))) n = wraps (64 - n) a.
Proof.
  intros Hn. rewrite shl_u64, Z.shiftr_div_pow2 by lia. pose proof (pow2_pos n ltac:(lia)).
  pose proof (wrapu_range (64 - n) a ltac:(lia)) as Hr.
  assert (2 ^ 64 = 2 ^ (64 - n) * 2 ^ n) as E by (rewrite <- Z.pow_add_r by lia; f_equal; lia).
  assert (2 ^ (64 - 1) = 2 ^ (64 - n - 1) * 2 ^ n) as E' by (rewrite <- Z.pow_add_r by lia; f_equal; lia).
  assert (u64 (wrapu (64 - n) a * 2 ^ n) = wrapu (64 - n) a * 2 ^ n) as Eu
    by (apply wrapu_small; rewrite E; nia).
  assert (s64 (wrapu (64 - n) a * 2 ^ n) = wraps (64 - n) a * 2 ^ n) as ->; [|apply Z.div_mul; lia].
  unfold wraps. rewrite Eu, E', E.
  destruct (Z.ltb_spec (wrapu (64 - n) a * 2 ^ n) (2 ^ (64 - n - 1) * 2 ^ n)),
    (Z.ltb_spec (wrapu (64 - n) a) (2 ^ (64 - n - 1))); nia.
Qed.

(** Bitwise operations stay within the width. *)
Lemma bits_range w f : 0 <= w -> (forall i, w <= i -> Z.testbit f i = false) -> 0 <= f -> 0 <= f < 2 ^ w.
Proof.
  intros Hw Hf Hf0. split; [done|]. destruct (Z.eq_dec f 0) as [-> |]; [by apply pow2_pos|].
  apply Z.log2_lt_pow2; [lia|]. destruct (Z.lt_ge_cases (Z.log2 f) w) as [|Hge]; [done|].
  pose proof (Z.bit_log2 f ltac:(lia)) as H. by rewrite Hf in H.
Qed.

Section BitsRange.
Variables (a b : Z).
Hypothesis Ha : in64 a.
Hypothesis Hb : in64 b.

Lemma lor_range : in64 (Z.lor a b).
Proof.
  apply (bits_range 64); [lia| |apply Z.lor_nonneg; lia]. intros i Hi.
  by rewrite Z.lor_spec, (testbit_high 64 a), (testbit_high 64 b).
Qed.
Lemma land_range : in64 (Z.land a b).
Proof.
  apply (bits_range 64); [lia| |apply Z.land_nonneg; lia]. intros i Hi.
  by rewrite Z.land_spec, (testbit_high 64 a), (testbit_high 64 b).
Qed.
Lemma lxor_range : in64 (Z.lxor a b).
Proof.
  apply (bits_range 64); [lia| |apply Z.lxor_nonneg; lia]. intros i Hi.
  by rewrite Z.lxor_spec, (testbit_high 64 a), (testbit_high 64 b).
Qed.
End BitsRange.

(** The ranges of the integer operations. *)
Create HintDb cint.
#[export] Hint Resolve pow2_pos wrapu_range wraps_range lor_range land_range lxor_range : cint.
#[export] Hint Extern 2 (_ < _) => lia : cint.
#[export] Hint Extern 2 (_ <= _) => lia : cint.

(** ** Lists *)

Section Lists.
Context {A : Type} `{EqDecision A}.
Implicit Types l : list A.

(** Remove the first occurrence of an element. *)
Fixpoint remove_one (x : A) l : list A :=
  match l with
  | [] => []
  | y :: l => if decide (x = y) then l else y :: remove_one x l
  end.

Lemma remove_one_perm x l : x ∈ l -> l ≡ₚ x :: remove_one x l.
Proof.
  induction l as [|y l IH]; simpl; [by intros ?%not_elem_of_nil|].
  case_decide as Hx; [by subst|]. intros [->|Hl]%elem_of_cons; [done|].
  rewrite (IH Hl) at 1. apply Permutation_swap.
Qed.

Lemma remove_one_mid x l1 l2 : x ∉ l1 -> remove_one x (l1 ++ x :: l2) = l1 ++ l2.
Proof.
  induction l1 as [|y l1 IH]; simpl; intros Hx.
  - by rewrite decide_True.
  - apply not_elem_of_cons in Hx as [Hne Hx]. rewrite decide_False by done. by rewrite IH.
Qed.
End Lists.

Lemma filter_none {A} (P : A -> Prop) `{forall x, Decision (P x)} l : (forall x, x ∈ l -> ~ P x) -> filter P l = [].
Proof.
  induction l as [|x l IH]; intros Hn; [done|]. rewrite filter_cons, decide_False by (apply Hn; by left).
  apply IH. intros y Hy. apply Hn. by right.
Qed.

Lemma filter_all {A} (P : A -> Prop) `{forall x, Decision (P x)} (l : list A) : (forall x, x ∈ l -> P x) -> filter P l = l.
Proof.
  induction l as [|x l IH]; intros Hn; [done|]. rewrite filter_cons, decide_True by (apply Hn; by left).
  f_equal. apply IH. intros y Hy. apply Hn. by right.
Qed.

Lemma filter_ext {A} (P Q : A -> Prop) `{forall x, Decision (P x)} `{forall x, Decision (Q x)} (l : list A) :
  (forall x, x ∈ l -> P x <-> Q x) -> filter P l = filter Q l.
Proof.
  induction l as [|x l IH]; intros Hn; [done|]. rewrite !filter_cons, IH by (intros y Hy; apply Hn; by right).
  pose proof (Hn x ltac:(by left)). by destruct (decide (P x)), (decide (Q x)); try tauto.
Qed.

Lemma filter_comm {A} (P Q : A -> Prop) `{forall x, Decision (P x)} `{forall x, Decision (Q x)} (l : list A) :
  filter P (filter Q l) = filter Q (filter P l).
Proof. rewrite !list_filter_filter. apply list_filter_iff. tauto. Qed.

Lemma remove_one_filter {A} `{EqDecision A} (x : A) l : NoDup l -> remove_one x l = filter (λ y, y <> x) l.
Proof.
  induction 1 as [|y l Hy _ IH]; [done|]. cbn [remove_one]. rewrite filter_cons. case_decide as Hx.
  - subst y. rewrite decide_False by tauto. symmetry. apply filter_all. by intros z Hz ->.
  - rewrite decide_True by congruence. by rewrite IH.
Qed.

(** ** Bytes *)

(** The number that little-endian bytes hold. *)
Fixpoint le (l : list Z) : Z :=
  match l with [] => 0 | b :: l => b + 256 * le l end.

(** [n] bytes at offset [i]: the value of an unaligned load. *)
Definition load (n i : nat) (l : list Z) : Z := le (take n (drop i l)).

(** The bytes of a number. *)
Fixpoint le_bytes (n : nat) (v : Z) : list Z :=
  match n with O => [] | S n => v `mod` 256 :: le_bytes n (v `div` 256) end.

Lemma length_le_bytes n v : length (le_bytes n v) = n.
Proof. revert v. induction n; intros v; simpl; auto. Qed.

Lemma le_le_bytes n v : 0 <= v < 256 ^ Z.of_nat n -> le (le_bytes n v) = v.
Proof.
  revert v. induction n as [|n IH]; intros v Hv; cbn [le_bytes le].
  - change (256 ^ Z.of_nat 0) with 1 in Hv. lia.
  - rewrite Nat2Z.inj_succ, Z.pow_succ_r in Hv by lia. rewrite IH; [pose proof (Z.div_mod v 256); lia|]. split; [apply Z.div_pos; lia|].
    apply Z.div_lt_upper_bound; lia.
Qed.

Definition is_byte (b : Z) : Prop := 0 <= b < 256.

Lemma load_prefix k i ev r : take (length r) ev = r -> (i + k <= length r)%nat -> load k i ev = load k i r.
Proof.
  intros E Hi. unfold load. f_equal. rewrite <- E at 1. rewrite skipn_firstn_comm, firstn_firstn. f_equal. lia.
Qed.

Lemma le_range l : Forall is_byte l -> 0 <= le l < 256 ^ Z.of_nat (length l).
Proof.
  induction 1 as [|b l Hb _ IH]; simpl le; [done|]. cbn [length]. rewrite Nat2Z.inj_succ, Z.pow_succ_r by lia.
  unfold is_byte in Hb. lia.
Qed.

Lemma load_range k i l : Forall is_byte l -> 0 <= load k i l < 256 ^ Z.of_nat k.
Proof.
  intros Hl. unfold load. pose proof (le_range (take k (drop i l)) ltac:(by apply Forall_take, Forall_drop)) as [H1 H2].
  split; [done|]. eapply Z.lt_le_trans; [exact H2|]. apply Z.pow_le_mono_r; [lia|]. rewrite length_take. lia.
Qed.

(** ** Sorting *)

(** A comparison function in the sense of qsort(), a total preorder, on the elements with [P]. *)
Record compares {A} (P : A -> Prop) (cmp : A -> A -> Z) : Prop := {
  cmp_flip_on x y : P x -> P y -> cmp x y <= 0 <-> 0 <= cmp y x;
  cmp_le_trans_on x y z : P x -> P y -> P z -> cmp x y <= 0 -> cmp y z <= 0 -> cmp x z <= 0;
}.

(** On all of them. *)
Class Comparison {A} (cmp : A -> A -> Z) : Prop := {
  cmp_flip x y : cmp x y <= 0 <-> 0 <= cmp y x;
  cmp_le_trans x y z : cmp x y <= 0 -> cmp y z <= 0 -> cmp x z <= 0;
}.

(** qsort() sorts, if the comparison is a preorder on the elements of the array; in which
    order equal elements come out is not specified. *)
Class Qsort (qsort : forall A, (A -> A -> Z) -> list A -> list A) : Prop := {
  qsort_perm A cmp (l : list A) : qsort A cmp l ≡ₚ l;
  qsort_sorted_on A P cmp (l : list A) : Forall P l -> compares P cmp -> StronglySorted (λ x y, cmp x y <= 0) (qsort A cmp l);
}.

Lemma qsort_sorted qsort `{Qsort qsort} A cmp (l : list A) : Comparison cmp -> StronglySorted (λ x y, cmp x y <= 0) (qsort A cmp l).
Proof.
  intros [F T]. apply (qsort_sorted_on A (λ _, True)); [by apply Forall_true|]. split; [intros; apply F|intros x y z _ _ _; apply T].
Qed.

(** An implementation, for the examples. *)
Fixpoint insert_sorted {A} (cmp : A -> A -> Z) (x : A) (l : list A) : list A :=
  match l with [] => [x] | y :: l => if cmp x y <=? 0 then x :: y :: l else y :: insert_sorted cmp x l end.
Definition insertion_qsort (A : Type) (cmp : A -> A -> Z) (l : list A) : list A := foldr (insert_sorted cmp) [] l.

Lemma insert_sorted_perm {A} cmp (x : A) l : insert_sorted cmp x l ≡ₚ x :: l.
Proof. induction l as [|y l IH]; simpl; [done|]. destruct (_ <=? 0); [done|]. rewrite IH. apply perm_swap. Qed.

Lemma insert_sorted_sorted {A} P cmp (x : A) l : compares P cmp -> P x -> Forall P l ->
  StronglySorted (λ x y, cmp x y <= 0) l -> StronglySorted (λ x y, cmp x y <= 0) (insert_sorted cmp x l).
Proof.
  intros [F T] Hx HP S. induction S as [|y l S IH Hy]; simpl; [by repeat constructor|].
  apply Forall_cons_1 in HP as [Py HP]. destruct (Z.leb_spec (cmp x y) 0) as [Hle|Hgt].
  - constructor; [by constructor|]. constructor; [done|]. rewrite Forall_forall in *. intros z Hz.
    apply (T x y z); [done|done|by apply HP|done|by apply Hy].
  - constructor; [by apply IH|]. rewrite insert_sorted_perm. constructor; [|done]. pose proof (F y x Py Hx). lia.
Qed.

#[export] Instance insertion_qsort_ok : Qsort insertion_qsort.
Proof.
  assert (forall A cmp (l : list A), insertion_qsort A cmp l ≡ₚ l) as Perm.
  { intros A cmp l. induction l as [|x l IH]; simpl; [done|]. by rewrite insert_sorted_perm, IH. }
  split; [done|]. intros A P cmp l HP C. induction l as [|x l IH]; simpl; [constructor|].
  apply Forall_cons_1 in HP as [Px HP]. apply (insert_sorted_sorted P); [done|done| |by apply IH].
  change (Forall P (insertion_qsort A cmp l)). by rewrite Perm.
Qed.

(** ** Memory allocation *)

(** The outcomes of the coming allocations: each takes the next one. *)
Abbreviation allocs := (list bool).
Definition malloc (m : allocs) : bool * allocs :=
  match m with [] => (false, []) | ok :: m => (ok, m) end.

(** The next [n] allocations succeed. *)
Definition plenty (m : allocs) (n : nat) : Prop := exists m0, m = replicate n true ++ m0.

Lemma plenty_malloc m n : plenty m (S n) -> exists m', malloc m = (true, m') /\ plenty m' n.
Proof. intros [m0 ->]. simpl. eexists. split; [done|]. by exists m0. Qed.

Lemma plenty_le m n k : plenty m n -> (k <= n)%nat -> plenty m k.
Proof.
  intros [m0 ->] Hk. exists (replicate (n - k) true ++ m0). rewrite app_assoc, <- replicate_add. do 2 f_equal. lia.
Qed.

(** ** Results with an error *)

(** [longjmp] and [xyerror] abandon the operation with an error value. *)
Inductive result (E A : Type) := Ok (a : A) | Err (e : E).
Arguments Ok {E A}.
Arguments Err {E A}.

#[export] Instance result_ret E : MRet (result E) := λ A a, Ok a.
#[export] Instance result_bind E : MBind (result E) := λ A B f r,
  match r with Ok a => f a | Err e => Err e end.

Definition of_option {E A} (e : E) (o : option A) : result E A :=
  match o with Some a => Ok a | None => Err e end.
Definition guard_err {E} (b : bool) (e : E) : result E () := if b then Ok () else Err e.

Lemma result_bind_Ok {E A B} (f : A -> result E B) r b :
  r ≫= f = Ok b -> exists a, r = Ok a /\ f a = Ok b.
Proof. destruct r; [by eexists|done]. Qed.

Lemma of_option_Ok {E A} (e : E) (o : option A) a : of_option e o = Ok a -> o = Some a.
Proof. destruct o; [by intros [= ->]|done]. Qed.

Lemma guard_err_Ok {E} b (e : E) u : guard_err b e = Ok u -> b = true.
Proof. by destruct b. Qed.

(** Take a successful bind apart. *)
Ltac inv_bind H :=
  let a := fresh "r" in let Ha := fresh "Hr" in
  apply result_bind_Ok in H as (a & Ha & H).
