(* ===== verification/DtList.v ===== *)
(** * Doubly-linked lists (libcommon/dt_list.c)

    The lists of the program are intrusive: an element embeds a [dt_list_t] and
    a further [dt_list_t] holds the head and the tail.  The operations are
    translated on a heap of such cells, with a missing cell or a failed
    [assert] as [None]; the representation predicate [dt_list_rep] relates a
    heap to the list of the elements' addresses, and each operation is shown to
    compute the corresponding operation on lists. *)

From stdpp Require Import base gmap list.
From S2P Require Import Prelude.

(** An address; [NULL] is [None : option loc]. *)
Abbreviation loc := positive.

Record dt_list_t := DtList { dl_prev : option loc; dl_next : option loc }.

Abbreviation heap := (gmap loc dt_list_t).

(** Stores through a pointer: [p->dl_prev = v], [p->dl_next = v]. *)
Definition set_prev (h : heap) (p : loc) (v : option loc) : option heap :=
  n ← h !! p; Some (<[p := DtList v (dl_next n)]> h).
Definition set_next (h : heap) (p : loc) (v : option loc) : option heap :=
  n ← h !! p; Some (<[p := DtList (dl_prev n) v]> h).

(** ** Operations *)

Definition dt_list_append (h : heap) (dlp new : loc) : option heap :=
  d ← h !! dlp;
  let p := dl_prev d in
  h ← set_prev h dlp (Some new);
  h ← set_prev h new p;
  h ← set_next h new None;
  match p with
  | Some p =>
      pn ← h !! p;
      guard (dl_next pn = None);;
      set_next h p (Some new)
  | None =>
      d ← h !! dlp;
      guard (dl_next d = None);;
      set_next h dlp (Some new)
  end.

Definition dt_list_prepend (h : heap) (dlp new : loc) : option heap :=
  d ← h !! dlp;
  let q := dl_next d in
  h ← set_next h dlp (Some new);
  h ← set_prev h new None;
  h ← set_next h new q;
  match q with
  | Some q =>
      qn ← h !! q;
      guard (dl_prev qn = None);;
      set_prev h q (Some new)
  | None =>
      d ← h !! dlp;
      guard (dl_prev d = None);;
      set_prev h dlp (Some new)
  end.

Definition dt_list_insert (h : heap) (dlp : loc) (after_me : option loc) (new : loc)
  : option heap :=
  match after_me with
  | None => dt_list_append h dlp new
  | Some p =>
      pn ← h !! p;
      match dl_next pn with
      | None => dt_list_append h dlp new
      | Some nx =>
          h ← set_next h new (Some nx);
          h ← set_prev h new (Some p);
          h ← set_next h p (Some new);
          q ← h !! new;
          match dl_next q with
          | Some nx => set_prev h nx (Some new)
          | None => None
          end
      end
  end.

Definition dt_list_delete (h : heap) (dlp existing : loc) : option heap :=
  p ← h !! existing;
  h ← match dl_prev p with
      | Some pp => set_next h pp (dl_next p)
      | None => set_next h dlp (dl_next p)
      end;
  p ← h !! existing;
  match dl_next p with
  | Some pn => set_prev h pn (dl_prev p)
  | None => set_prev h dlp (dl_prev p)
  end.

(** The [for] loop of [dt_list_length]; [None] when the fuel is exhausted. *)
Fixpoint dt_list_length_loop (fuel : nat) (h : heap) (p : option loc) (len : nat)
  : option nat :=
  match fuel with
  | O => None
  | S fuel =>
      match p with
      | None => Some len
      | Some p => n ← h !! p; dt_list_length_loop fuel h (dl_next n) (S len)
      end
  end.

(** A heap of [size h] cells holds no list of more elements. *)
Definition dt_list_length (h : heap) (dlp : loc) : option nat :=
  d ← h !! dlp; dt_list_length_loop (S (size h)) h (dl_next d) 0.

(** ** Representation *)

(** The cells of [xs] are chained, entered from [prev] and left to [nxt]. *)
Fixpoint dseg (h : heap) (prev : option loc) (xs : list loc) (nxt : option loc) : Prop :=
  match xs with
  | [] => True
  | x :: xs' =>
      h !! x = Some (DtList prev (default nxt (Some <$> head xs')))
      ∧ dseg h (Some x) xs' nxt
  end.

Definition dt_list_rep (h : heap) (dlp : loc) (xs : list loc) : Prop :=
  NoDup (dlp :: xs) ∧ h !! dlp = Some (DtList (last xs) (head xs)) ∧ dseg h None xs None.

Lemma dseg_app h p l1 l2 n :
  dseg h p (l1 ++ l2) n <->
  dseg h p l1 (default n (Some <$> head l2)) ∧
  dseg h (default p (Some <$> last l1)) l2 n.
Proof.
  revert p; induction l1 as [|x l1 IH]; intros p; simpl; [tauto|].
  rewrite IH. destruct l1 as [|y l1]; simpl.
  - destruct (head l2); simpl; tauto.
  - destruct (proj2 (last_is_Some (y :: l1)) ltac:(done)) as [z Hz].
    simpl in Hz. rewrite Hz. simpl. tauto.
Qed.

Lemma dseg_frame h h' p xs n :
  (forall x, x ∈ xs -> h' !! x = h !! x) -> dseg h p xs n -> dseg h' p xs n.
Proof.
  revert p; induction xs as [|x xs IH]; intros p Hf; simpl; [done|].
  intros [Hx Hs]. split; [rewrite Hf; [done|set_solver]|].
  apply IH; [|done]. intros; apply Hf; set_solver.
Qed.

Lemma dseg_insert_ne h p xs n y v :
  y ∉ xs -> dseg h p xs n -> dseg (<[y:=v]> h) p xs n.
Proof.
  intros Hy. apply dseg_frame. intros x Hx. apply lookup_insert_ne. by intros ->.
Qed.

Lemma dseg_insert_ne_iff h p xs n y v :
  y ∉ xs -> dseg (<[y:=v]> h) p xs n <-> dseg h p xs n.
Proof.
  intros Hy; split; [|by apply dseg_insert_ne].
  apply dseg_frame. intros x Hx. rewrite lookup_insert_ne; [done|]. by intros ->.
Qed.

(** The head of a chain, entered from elsewhere. *)
Lemma dseg_cons_set_prev h p p' x xs n v :
  x ∉ xs -> dseg h p (x :: xs) n -> v = DtList p' (default n (Some <$> head xs)) ->
  dseg (<[x:=v]> h) p' (x :: xs) n.
Proof.
  simpl. intros Hx [_ Hs] ->. split; [by rewrite lookup_insert_eq|].
  by apply dseg_insert_ne.
Qed.

(** The last cell of a chain, left to elsewhere. *)
Lemma dseg_snoc_set_next h p l x n n' v :
  x ∉ l -> dseg h p (l ++ [x]) n -> v = DtList (default p (Some <$> last l)) n' ->
  dseg (<[x:=v]> h) p (l ++ [x]) n'.
Proof.
  intros Hx Hs ->. apply dseg_app in Hs as [H1 _]. apply dseg_app. simpl in *.
  split; [by apply dseg_insert_ne|]. by rewrite lookup_insert_eq.
Qed.

Lemma dseg_lookup_mid h p l1 x l2 n :
  dseg h p (l1 ++ x :: l2) n ->
  h !! x = Some (DtList (default p (Some <$> last l1)) (default n (Some <$> head l2))).
Proof. rewrite dseg_app. simpl. tauto. Qed.

Lemma default_map_Some {A} (o : option A) : default None (Some <$> o) = o.
Proof. by destruct o. Qed.

(** ** Each operation computes its counterpart on lists *)

(** Uniqueness of the addresses of a list with one more or one less element. *)
Lemma NoDup_mid {A} (d x : A) l1 l2 :
  NoDup (d :: l1 ++ x :: l2) <-> NoDup (d :: l1 ++ l2) ∧ x ∉ d :: l1 ++ l2.
Proof.
  assert (d :: l1 ++ x :: l2 ≡ₚ x :: d :: l1 ++ l2) as -> by solve_Permutation.
  rewrite (NoDup_cons x). tauto.
Qed.

Lemma NoDup_end {A} (d x : A) l :
  NoDup (d :: l ++ [x]) <-> NoDup (d :: l) ∧ x ∉ d :: l.
Proof. rewrite NoDup_mid, app_nil_r. done. Qed.

Lemma NoDup_first {A} (d : A) l : NoDup (d :: l) -> d ∉ l.
Proof. rewrite NoDup_cons. tauto. Qed.

(** Symbolic execution of the heap operations: every lookup is decided by the
    map equations and the known disequalities of addresses. *)
Ltac heap_exec :=
  repeat first
    [ progress simplify_map_eq
    | progress simpl
    | progress simplify_option_eq
    | progress rewrite ?default_map_Some ].

(** Break the non-membership hypotheses into disequalities of addresses and
    non-membership in the remaining list variables, and close such goals. *)
Ltac addr_facts :=
  repeat match goal with
  | H : _ ∉ _ :: _ |- _ => apply not_elem_of_cons in H as [??]
  | H : _ ∉ _ ++ _ |- _ => apply not_elem_of_app in H as [??]
  | H : _ ∉ [] |- _ => clear H
  end.
Ltac addr :=
  repeat first [rewrite not_elem_of_app | rewrite not_elem_of_cons]; repeat split;
  first [assumption | apply not_elem_of_nil | congruence].

(** A chain is not affected by a store outside of it. *)
Ltac dseg_step := repeat (apply dseg_insert_ne; [addr|]).

(** A cell that is none of those stored to is unchanged. *)
Ltac heap_frame :=
  intros ??; addr_facts; rewrite ?lookup_insert_ne by congruence; done.

Lemma dt_list_append_rep h dlp xs new :
  dt_list_rep h dlp xs -> new ∉ dlp :: xs -> is_Some (h !! new) ->
  exists h', dt_list_append h dlp new = Some h' ∧ dt_list_rep h' dlp (xs ++ [new]) ∧
    forall l, l ∉ dlp :: new :: xs -> h' !! l = h !! l.
Proof.
  intros (Hnd & Hd & Hs) Hn [c Hc].
  assert (NoDup (dlp :: xs ++ [new])) as Hnd' by (by apply NoDup_end).
  pose proof (NoDup_first _ _ Hnd') as Hdx.
  unfold dt_list_append, set_prev, set_next.
  destruct xs as [|y l _] using rev_ind.
  - clear Hs. addr_facts. heap_exec. eexists; split; [done|]. split; [|heap_frame].
    unfold dt_list_rep. simpl. by heap_exec.
  - rewrite last_snoc in *. apply NoDup_end in Hnd as [Hnd Hy].
    pose proof (dseg_lookup_mid _ _ _ _ _ _ Hs) as Hly. addr_facts.
    heap_exec. eexists; split; [done|]. split; [split; [done|split]|heap_frame].
    + rewrite last_snoc. heap_exec. by destruct l.
    + apply dseg_app. rewrite last_snoc. simpl. split; [|by heap_exec].
      eapply dseg_snoc_set_next; [addr| |by rewrite default_map_Some].
      dseg_step. exact Hs.
Qed.

Lemma dt_list_prepend_rep h dlp xs new :
  dt_list_rep h dlp xs -> new ∉ dlp :: xs -> is_Some (h !! new) ->
  exists h', dt_list_prepend h dlp new = Some h' ∧ dt_list_rep h' dlp (new :: xs) ∧
    forall l, l ∉ dlp :: new :: xs -> h' !! l = h !! l.
Proof.
  intros (Hnd & Hd & Hs) Hn [c Hc].
  assert (NoDup (dlp :: new :: xs)) as Hnd' by (by apply (NoDup_mid dlp new [] xs)).
  pose proof (NoDup_first _ _ Hnd') as Hdx.
  unfold dt_list_prepend, set_prev, set_next.
  destruct xs as [|y l].
  - clear Hs. addr_facts. heap_exec. eexists; split; [done|]. split; [|heap_frame].
    unfold dt_list_rep. simpl. by heap_exec.
  - simpl in Hd. apply (NoDup_mid dlp y [] l) in Hnd as [Hnd Hy].
    destruct Hs as [Hly Hs]. addr_facts. heap_exec.
    eexists; split; [done|]. split; [split; [done|split]|heap_frame].
    + by heap_exec.
    + split; [by heap_exec|].
      eapply (dseg_cons_set_prev _ None); [addr| |by rewrite default_map_Some].
      simpl. split; [by heap_exec|]. dseg_step. exact Hs.
Qed.

Lemma dt_list_insert_rep h dlp l1 x l2 new :
  dt_list_rep h dlp (l1 ++ x :: l2) -> new ∉ dlp :: l1 ++ x :: l2 -> is_Some (h !! new) ->
  exists h', dt_list_insert h dlp (Some x) new = Some h' ∧
    dt_list_rep h' dlp (l1 ++ x :: new :: l2) ∧
    forall l, l ∉ dlp :: new :: l1 ++ x :: l2 -> h' !! l = h !! l.
Proof.
  intros Hr Hn Hc. pose proof Hr as (Hnd & Hd & Hs).
  pose proof (dseg_lookup_mid _ _ _ _ _ _ Hs) as Hlx.
  unfold dt_list_insert. rewrite Hlx. simpl.
  destruct l2 as [|y l2]; simpl.
  { replace (l1 ++ [x; new]) with ((l1 ++ [x]) ++ [new]) by (by rewrite <- app_assoc).
    by apply dt_list_append_rep. }
  assert (NoDup (dlp :: l1 ++ x :: new :: y :: l2)) as Hnd'.
  { replace (l1 ++ x :: new :: y :: l2) with ((l1 ++ [x]) ++ new :: y :: l2)
      by (by rewrite <- app_assoc).
    apply NoDup_mid. rewrite <- app_assoc. done. }
  pose proof (NoDup_first _ _ Hnd') as Hdx.
  destruct Hc as [c Hc]. unfold set_prev, set_next.
  apply NoDup_mid in Hnd as [Hnd Hx]. apply NoDup_mid in Hnd as [Hnd Hy].
  apply dseg_app in Hs as [Hs1 [_ [Hly Hs2]]]. addr_facts.
  heap_exec. eexists; split; [done|]. split; [split; [done|split]|heap_frame].
  - heap_exec. rewrite !last_app. simpl. by destruct l1.
  - apply dseg_app. split; [dseg_step; exact Hs1|].
    simpl. heap_exec. repeat (split; [done|]). dseg_step. exact Hs2.
Qed.

Lemma dt_list_delete_rep h dlp l1 x l2 :
  dt_list_rep h dlp (l1 ++ x :: l2) ->
  exists h', dt_list_delete h dlp x = Some h' ∧ dt_list_rep h' dlp (l1 ++ l2) ∧
    h' !! x = h !! x ∧ forall l, l ∉ dlp :: l1 ++ x :: l2 -> h' !! l = h !! l.
Proof.
  intros (Hnd & Hd & Hs). apply NoDup_mid in Hnd as [Hnd Hx].
  pose proof (NoDup_first _ _ Hnd) as Hdx.
  apply dseg_app in Hs as [Hs1 [Hlx Hs2]].
  unfold dt_list_delete, set_prev, set_next.
  destruct l1 as [|p l1 _] using rev_ind; destruct l2 as [|n l2].
  - addr_facts. heap_exec. eexists; split; [done|].
    split; [|split; [by heap_exec|heap_frame]]. unfold dt_list_rep. by heap_exec.
  - destruct Hs2 as [Hln Hs2]. pose proof Hnd as Hn2.
    apply (NoDup_mid dlp n [] l2) in Hn2 as [_ Hn2]. addr_facts. heap_exec.
    eexists; split; [done|]. split; [split; [done|split]|split; [by heap_exec|heap_frame]].
    + heap_exec. by destruct l2.
    + simpl. heap_exec. split; [done|]. dseg_step. exact Hs2.
  - rewrite last_snoc in *. pose proof Hnd as Hn1. rewrite app_nil_r in *.
    apply NoDup_end in Hn1 as [_ Hn1]. addr_facts.
    pose proof (dseg_lookup_mid _ _ _ _ _ _ Hs1) as Hlp. simpl in Hlx.
    heap_exec.
    eexists; split; [done|]. split; [split; [done|split]|split; [by heap_exec|heap_frame]].
    + rewrite last_snoc. heap_exec. rewrite <- app_assoc. by destruct l1.
    + dseg_step. eapply dseg_snoc_set_next; [addr|exact Hs1|by rewrite default_map_Some].
  - rewrite last_snoc in *. destruct Hs2 as [Hln Hs2].
    pose proof Hnd as Hn1. apply NoDup_mid in Hn1 as [Hn1 Hn2].
    rewrite <- app_assoc in Hn1. apply NoDup_mid in Hn1 as [_ Hn1].
    pose proof (dseg_lookup_mid _ _ _ _ _ _ Hs1) as Hlp. addr_facts. simpl in Hlx.
    heap_exec.
    eexists; split; [done|]. split; [split; [done|split]|split; [by heap_exec|heap_frame]].
    + heap_exec. rewrite !last_app, <- !app_assoc. simpl. by destruct l1.
    + apply dseg_app. rewrite last_snoc. simpl. heap_exec. split.
      * dseg_step. eapply dseg_snoc_set_next; [addr|exact Hs1|by rewrite default_map_Some].
      * split; [done|]. dseg_step. exact Hs2.
Qed.

Lemma dt_list_length_loop_rep h p xs n fuel :
  dseg h p xs None -> (length xs < fuel)%nat ->
  dt_list_length_loop fuel h (head xs) n = Some (n + length xs)%nat.
Proof.
  revert p n fuel; induction xs as [|x xs IH]; intros p n [|fuel] Hs Hf; simpl in *;
    try lia; [f_equal; lia|].
  destruct Hs as [-> Hs]. simpl. rewrite default_map_Some.
  rewrite (IH (Some x)) by (done || lia). f_equal. lia.
Qed.

Lemma dt_list_rep_size h dlp xs : dt_list_rep h dlp xs -> (length xs < size h)%nat.
Proof.
  intros (Hnd & Hd & Hs). rewrite <- size_dom.
  assert (list_to_set (dlp :: xs) ⊆ dom h) as Hsub.
  { intros x. rewrite elem_of_list_to_set, elem_of_cons, elem_of_dom.
    intros [->|Hx]; [by eexists|].
    apply list_elem_of_split in Hx as (l1 & l2 & ->).
    rewrite (dseg_lookup_mid _ _ _ _ _ _ Hs). by eexists. }
  apply subseteq_size in Hsub. rewrite size_list_to_set in Hsub by done.
  simpl in Hsub. lia.
Qed.

(** ** Operation sequences *)

(** An abstract list operation, on the list of addresses.  [None] is a call
    outside the contract of the operation: a new element that is already in
    the list or has no cell, or an existing one that is not in the list. *)
Inductive list_op :=
  | OpAppend (new : loc)
  | OpPrepend (new : loc)
  | OpInsert (after_me : option loc) (new : loc)
  | OpDelete (existing : loc).

Fixpoint insert_after (x new : loc) (xs : list loc) : option (list loc) :=
  match xs with
  | [] => None
  | y :: ys =>
      if decide (x = y) then Some (y :: new :: ys) else cons y <$> insert_after x new ys
  end.

Fixpoint remove_elem (x : loc) (xs : list loc) : option (list loc) :=
  match xs with
  | [] => None
  | y :: ys => if decide (x = y) then Some ys else cons y <$> remove_elem x ys
  end.

Definition fresh_elem (cells : gset loc) (dlp new : loc) (xs : list loc) : Prop :=
  new ∉ dlp :: xs ∧ new ∈ cells.
#[export] Instance fresh_elem_dec cells dlp new xs : Decision (fresh_elem cells dlp new xs).
Proof. unfold fresh_elem. apply _. Defined.

Definition spec_op (cells : gset loc) (dlp : loc) (xs : list loc) (op : list_op)
  : option (list loc) :=
  match op with
  | OpAppend new => guard (fresh_elem cells dlp new xs);; Some (xs ++ [new])
  | OpPrepend new => guard (fresh_elem cells dlp new xs);; Some (new :: xs)
  | OpInsert None new => guard (fresh_elem cells dlp new xs);; Some (xs ++ [new])
  | OpInsert (Some x) new => guard (fresh_elem cells dlp new xs);; insert_after x new xs
  | OpDelete x => remove_elem x xs
  end.

Definition run_op (dlp : loc) (h : heap) (op : list_op) : option heap :=
  match op with
  | OpAppend new => dt_list_append h dlp new
  | OpPrepend new => dt_list_prepend h dlp new
  | OpInsert after_me new => dt_list_insert h dlp after_me new
  | OpDelete existing => dt_list_delete h dlp existing
  end.

Fixpoint spec_ops (cells : gset loc) (dlp : loc) (xs : list loc) (ops : list list_op)
  : option (list loc) :=
  match ops with
  | [] => Some xs
  | op :: ops => xs ← spec_op cells dlp xs op; spec_ops cells dlp xs ops
  end.

Fixpoint run_ops (dlp : loc) (h : heap) (ops : list list_op) : option heap :=
  match ops with
  | [] => Some h
  | op :: ops => h ← run_op dlp h op; run_ops dlp h ops
  end.

Lemma insert_after_split x new xs xs' :
  insert_after x new xs = Some xs' ->
  exists l1 l2, xs = l1 ++ x :: l2 ∧ xs' = l1 ++ x :: new :: l2.
Proof.
  revert xs'; induction xs as [|y ys IH]; intros xs'; simpl; [done|].
  case_decide; subst; intros; simplify_eq; [by exists [], ys|].
  destruct (insert_after x new ys) as [zs|]; simplify_eq/=.
  destruct (IH zs) as (l1 & l2 & -> & ->); [done|]. by exists (y :: l1), l2.
Qed.

Lemma remove_elem_split x xs xs' :
  remove_elem x xs = Some xs' -> exists l1 l2, xs = l1 ++ x :: l2 ∧ xs' = l1 ++ l2.
Proof.
  revert xs'; induction xs as [|y ys IH]; intros xs'; simpl; [done|].
  case_decide; subst; intros; simplify_eq; [by exists [], xs'|].
  destruct (remove_elem x ys) as [zs|]; simplify_eq/=.
  destruct (IH zs) as (l1 & l2 & -> & ->); [done|]. by exists (y :: l1), l2.
Qed.

Lemma set_prev_dom h p v h' : set_prev h p v = Some h' -> dom h' = dom h.
Proof. unfold set_prev. intros; simplify_option_eq. by apply dom_insert_lookup_L. Qed.

Lemma set_next_dom h p v h' : set_next h p v = Some h' -> dom h' = dom h.
Proof. unfold set_next. intros; simplify_option_eq. by apply dom_insert_lookup_L. Qed.

(** The operations store to existing cells only. *)
Lemma run_op_dom dlp h op h' : run_op dlp h op = Some h' -> dom h' = dom h.
Proof.
  destruct op as [?|?|[?|] ?|?]; simpl; unfold dt_list_insert, dt_list_append,
    dt_list_prepend, dt_list_delete; intros;
  repeat (case_match || simplify_option_eq);
  repeat match goal with
  | H : set_prev _ _ _ = Some _ |- _ => apply set_prev_dom in H
  | H : set_next _ _ _ = Some _ |- _ => apply set_next_dom in H
  end; congruence.
Qed.

Lemma run_op_rep h dlp xs op xs' :
  dt_list_rep h dlp xs -> spec_op (dom h) dlp xs op = Some xs' ->
  exists h', run_op dlp h op = Some h' ∧ dt_list_rep h' dlp xs'.
Proof.
  intros Hr Hsp.
  destruct op as [n|n|[x|] n|x]; simpl in *; simplify_option_eq.
  all: repeat match goal with
    | H : fresh_elem _ _ _ _ |- _ => destruct H as [? ?%elem_of_dom] end.
  - destruct (dt_list_append_rep h dlp xs n) as (h' & ? & ? & _); naive_solver.
  - destruct (dt_list_prepend_rep h dlp xs n) as (h' & ? & ? & _); naive_solver.
  - apply insert_after_split in Hsp as (l1 & l2 & -> & ->).
    destruct (dt_list_insert_rep h dlp l1 x l2 n) as (h' & ? & ? & _); naive_solver.
  - destruct (dt_list_append_rep h dlp xs n) as (h' & ? & ? & _); naive_solver.
  - apply remove_elem_split in Hsp as (l1 & l2 & -> & ->).
    destruct (dt_list_delete_rep h dlp l1 x l2) as (h' & ? & ? & _); naive_solver.
Qed.

Lemma run_ops_rep ops h dlp xs xs' :
  dt_list_rep h dlp xs -> spec_ops (dom h) dlp xs ops = Some xs' ->
  exists h', run_ops dlp h ops = Some h' ∧ dt_list_rep h' dlp xs'.
Proof.
  revert h xs; induction ops as [|op ops IH]; intros h xs Hr Hsp; simpl in *.
  - simplify_eq. eauto.
  - destruct (spec_op _ _ _ op) as [ys|] eqn:Hop; simpl in *; [|done].
    destruct (run_op_rep h dlp xs op ys) as (h' & Hrun & Hr'); [done..|].
    rewrite Hrun. simpl. apply (IH h' ys); [done|].
    by rewrite (run_op_dom _ _ _ _ Hrun).
Qed.

(** The macro [dt_in_list(l, e)]. *)
Definition dt_in_list (h : heap) (l e : loc) : option bool :=
  d ← h !! l;
  if decide (dl_next d = Some e) then Some true
  else c ← h !! e; Some (bool_decide (dl_prev c ≠ None)).

Lemma dt_in_list_mem h dlp xs e :
  dt_list_rep h dlp xs -> e ∈ xs -> dt_in_list h dlp e = Some true.
Proof.
  intros (Hnd & Hd & Hs) He. unfold dt_in_list. rewrite Hd. simpl.
  apply list_elem_of_split in He as (l1 & l2 & ->).
  case_decide as Hh; [done|]. rewrite (dseg_lookup_mid _ _ _ _ _ _ Hs). simpl.
  rewrite default_map_Some. destruct (last l1) as [z|] eqn:Hz; [done|].
  apply last_None in Hz as ->. done.
Qed.

(** ** Properties *)

(** every sequence of [dt_list_append], [dt_list_prepend],
    [dt_list_insert] and [dt_list_delete] calls that respects their contract
    runs without a failed assertion or a dereference of a missing cell, the
    resulting heap is a well-formed doubly-linked list of exactly the elements
    the abstract list operations give, in their order, and
    [dt_list_length] terminates with their number. *)
Theorem dt_list_ops_refine h dlp xs ops xs' :
  dt_list_rep h dlp xs -> spec_ops (dom h) dlp xs ops = Some xs' ->
  exists h', run_ops dlp h ops = Some h' ∧ dt_list_rep h' dlp xs' ∧
    dt_list_length h' dlp = Some (length xs') ∧
    (forall e, e ∈ xs' -> dt_in_list h' dlp e = Some true).
Proof.
  intros Hr Hsp. destruct (run_ops_rep _ _ _ _ _ Hr Hsp) as (h' & Hrun & Hr').
  exists h'. split_and!; [done..| |intros; by eapply dt_in_list_mem].
  pose proof (dt_list_rep_size _ _ _ Hr'). destruct Hr' as (_ & Hd & Hs).
  unfold dt_list_length. rewrite Hd. cbn -[dt_list_length_loop].
  by rewrite (dt_list_length_loop_rep h' None xs') by (done || lia).
Qed.

Definition ex_cells : heap :=
  list_to_map ((λ l, (l, DtList None None)) <$> [1; 2; 3; 4; 5]%positive).

Definition ex_ops : list list_op :=
  [OpAppend 2; OpAppend 3; OpPrepend 4; OpInsert (Some 2) 5; OpDelete 3; OpInsert None 3]%positive.

Lemma dt_list_ops_refine_witness :
  exists h', run_ops 1%positive ex_cells ex_ops = Some h' ∧
    dt_list_rep h' 1%positive [4; 2; 5; 3]%positive ∧
    dt_list_length h' 1%positive = Some 4%nat ∧
    (forall e, e ∈ [4; 2; 5; 3]%positive -> dt_in_list h' 1%positive e = Some true).
Proof.
  apply (dt_list_ops_refine ex_cells 1%positive [] ex_ops [4; 2; 5; 3]%positive).
  - split_and!; [by repeat constructor; set_solver|reflexivity|done].
  - vm_compute. reflexivity.
Defined.
