(* ===== verification/Regset.v ===== *)
(** * BPF register allocation (libdtrace/dt_regset.c, include/sys/bitmap.h)

    The register set of the code generator: two bitmaps of 64-bit words, one of
    the registers in use, one of those whose previous contents are spilled to
    the stack.  The spill callbacks are functions on a client state [S] (for
    the code generator, the instruction list it appends to), so that the order
    and the number of spills is part of the model. *)

From stdpp Require Import base list numbers sets.
From S2P Require Import Prelude.

(** ** Bitmaps (include/sys/bitmap.h, LP64) *)

Definition BT_ULSHIFT : Z := 6.
Definition BT_NBIPUL : Z := Z.shiftl 1 BT_ULSHIFT.
Definition BT_ULMASK : Z := BT_NBIPUL - 1.

Abbreviation bitmap := (list Z).

Definition BT_WIM (bm : bitmap) (i : Z) : Z := default 0 (bm !! Z.to_nat (Z.shiftr i BT_ULSHIFT)).
Definition BT_BIW (i : Z) : Z := Z.shiftl 1 (Z.land i BT_ULMASK).
Definition BT_BITOUL (nbits : Z) : Z := (nbits + BT_NBIPUL - 1) `div` BT_NBIPUL.
Definition BT_TEST (bm : bitmap) (i : Z) : bool := c_true (Z.land (BT_WIM bm i) (BT_BIW i)).
Definition BT_SET (bm : bitmap) (i : Z) : bitmap :=
  <[Z.to_nat (Z.shiftr i BT_ULSHIFT) := Z.lor (BT_WIM bm i) (BT_BIW i)]> bm.
Definition BT_CLEAR (bm : bitmap) (i : Z) : bitmap :=
  <[Z.to_nat (Z.shiftr i BT_ULSHIFT) := Z.land (BT_WIM bm i) (u64 (Z.lnot (BT_BIW i)))]> bm.

(** A zero-filled map of [BT_SIZEOFMAP(nbits)] bytes. *)
Definition BT_zero (nbits : Z) : bitmap := replicate (Z.to_nat (BT_BITOUL nbits)) 0.

(** Indices the words of a map cover. *)
Definition in_map (bm : bitmap) (i : Z) : Prop := 0 <= i < 64 * Z.of_nat (length bm).

Lemma BT_word i : Z.shiftr i BT_ULSHIFT = i `div` 64.
Proof. unfold BT_ULSHIFT. by rewrite Z.shiftr_div_pow2. Qed.

Lemma BT_bit i : Z.land i BT_ULMASK = i `mod` 64.
Proof. change BT_ULMASK with (Z.ones 6). by rewrite Z.land_ones. Qed.

Lemma BT_TEST_testbit bm i : BT_TEST bm i = Z.testbit (BT_WIM bm i) (i `mod` 64).
Proof.
  unfold BT_TEST, c_true, BT_BIW. rewrite BT_bit.
  pose proof (Z.mod_pos_bound i 64 ltac:(lia)) as Hk.
  generalize dependent (i `mod` 64). generalize (BT_WIM bm i). intros w k Hk.
  destruct (Z.testbit w k) eqn:Hw.
  - apply negb_true_iff, Z.eqb_neq. intros H0.
    assert (Z.testbit (Z.land w (Z.shiftl 1 k)) k = false) as Hb by (rewrite H0; apply Z.bits_0).
    rewrite Z.land_spec, Hw, Z.shiftl_spec, Z.sub_diag in Hb by lia. done.
  - apply negb_false_iff, Z.eqb_eq. apply Z.bits_inj'. intros n Hn.
    rewrite Z.land_spec, Z.shiftl_1_l, Z.pow2_bits_eqb, Z.bits_0 by lia.
    destruct (Z.eqb_spec k n); [subst; by rewrite Hw|by rewrite andb_false_r].
Qed.

Lemma BT_WIM_insert bm i v j :
  in_map bm i -> 0 <= j ->
  BT_WIM (<[Z.to_nat (Z.shiftr i BT_ULSHIFT) := v]> bm) j =
  if i `div` 64 =? j `div` 64 then v else BT_WIM bm j.
Proof.
  unfold in_map, BT_WIM. intros Hi Hj. rewrite !BT_word.
  pose proof (Z.div_lt_upper_bound i 64 (Z.of_nat (length bm)) ltac:(lia) ltac:(lia)).
  pose proof (Z.div_pos i 64). pose proof (Z.div_pos j 64).
  destruct (Z.eqb_spec (i `div` 64) (j `div` 64)) as [He|He].
  - rewrite <- He, list_lookup_insert_eq by lia. done.
  - rewrite list_lookup_insert_ne by lia. done.
Qed.

Lemma div_mod_64_eqb i j :
  (i =? j) = (i `div` 64 =? j `div` 64) && (i `mod` 64 =? j `mod` 64).
Proof.
  pose proof (Z.div_mod i 64 ltac:(lia)). pose proof (Z.div_mod j 64 ltac:(lia)).
  destruct (Z.eqb_spec i j) as [->|Hne]; [by rewrite !Z.eqb_refl|].
  symmetry. apply andb_false_iff. destruct (Z.eqb_spec (i `div` 64) (j `div` 64)); [|tauto].
  right. apply Z.eqb_neq. intros ?. lia.
Qed.

Lemma BT_TEST_SET bm i j :
  in_map bm i -> 0 <= j -> BT_TEST (BT_SET bm i) j = (i =? j) || BT_TEST bm j.
Proof.
  intros Hi Hj. rewrite !BT_TEST_testbit. unfold BT_SET.
  rewrite BT_WIM_insert, (div_mod_64_eqb i j) by done.
  pose proof (Z.mod_pos_bound i 64). pose proof (Z.mod_pos_bound j 64).
  destruct (Z.eqb_spec (i `div` 64) (j `div` 64)) as [He|]; simpl; [|done].
  unfold BT_BIW. rewrite BT_bit, Z.lor_spec, Z.shiftl_1_l, Z.pow2_bits_eqb by lia.
  unfold BT_WIM. rewrite !BT_word, He. apply orb_comm.
Qed.

Lemma BT_TEST_CLEAR bm i j :
  in_map bm i -> 0 <= j -> BT_TEST (BT_CLEAR bm i) j = negb (i =? j) && BT_TEST bm j.
Proof.
  intros Hi Hj. rewrite !BT_TEST_testbit. unfold BT_CLEAR.
  rewrite BT_WIM_insert, (div_mod_64_eqb i j) by done.
  pose proof (Z.mod_pos_bound i 64). pose proof (Z.mod_pos_bound j 64).
  destruct (Z.eqb_spec (i `div` 64) (j `div` 64)) as [He|]; simpl; [|done].
  unfold BT_BIW, wrapu. rewrite BT_bit, Z.land_spec, Z.mod_pow2_bits_low by lia.
  rewrite Z.lnot_spec, Z.shiftl_1_l, Z.pow2_bits_eqb by lia.
  unfold BT_WIM. rewrite !BT_word, He. apply andb_comm.
Qed.

Lemma BT_TEST_zero n i : BT_TEST (BT_zero n) i = false.
Proof.
  rewrite BT_TEST_testbit. unfold BT_WIM, BT_zero.
  destruct (replicate _ _ !! _) eqn:E; simpl; [|apply Z.bits_0].
  apply lookup_replicate in E as [-> _]. apply Z.bits_0.
Qed.

Lemma in_map_SET bm i j : in_map (BT_SET bm i) j <-> in_map bm j.
Proof. unfold in_map, BT_SET. by rewrite length_insert. Qed.
Lemma in_map_CLEAR bm i j : in_map (BT_CLEAR bm i) j <-> in_map bm j.
Proof. unfold in_map, BT_CLEAR. by rewrite length_insert. Qed.

Create Rewrite HintDb bits.
#[export] Hint Rewrite BT_TEST_zero : bits.

(** ** The register set *)

Record dt_regset (S : Type) := Regset {
  dr_size : Z;
  dr_spill_store : Z -> S -> S;
  dr_spill_load : Z -> S -> S;
  dr_active : bitmap;
  dr_spilled : bitmap;
}.
Arguments Regset {S}.
Arguments dr_size {S}.
Arguments dr_spill_store {S}.
Arguments dr_spill_load {S}.
Arguments dr_active {S}.
Arguments dr_spilled {S}.

Definition set_active {S} (drp : dt_regset S) (bm : bitmap) : dt_regset S :=
  Regset (dr_size drp) (dr_spill_store drp) (dr_spill_load drp) bm (dr_spilled drp).
Definition set_spilled {S} (drp : dt_regset S) (bm : bitmap) : dt_regset S :=
  Regset (dr_size drp) (dr_spill_store drp) (dr_spill_load drp) (dr_active drp) bm.

Definition dt_regset_reset {S} (drp : dt_regset S) : dt_regset S :=
  set_spilled (set_active drp (BT_zero (dr_size drp))) (BT_zero (dr_size drp)).

(** The booleans are the success of the three [malloc] calls, in order; the
    contents of the fresh maps are whatever [malloc] returned. *)
Definition dt_regset_create {S} (ok_set ok_active ok_spilled : bool) (junk_a junk_s : bitmap)
    (size : Z) (stf ldf : Z -> S -> S) : option (dt_regset S) :=
  if negb ok_set then None
  else
    let size := u64 (size + 1) in
    if negb ok_active || negb ok_spilled then None
    else Some (dt_regset_reset (Regset size stf ldf junk_a junk_s)).

(** The loops [for (reg = drp->dr_size - 1; reg > 0; reg--)] that look for a
    clear bit, from register [n] down to 1. *)
Fixpoint find_clear (bm : bitmap) (n : nat) : option Z :=
  match n with
  | O => None
  | S n' => if BT_TEST bm (Z.of_nat n) then find_clear bm n' else Some (Z.of_nat n)
  end.

Definition dt_regset_alloc {S} (drp : dt_regset S) (s : S) : dt_regset S * S * Z :=
  match find_clear (dr_active drp) (Z.to_nat (dr_size drp - 1)) with
  | Some reg => (set_active drp (BT_SET (dr_active drp) reg), s, reg)
  | None =>
      match find_clear (dr_spilled drp) (Z.to_nat (dr_size drp - 1)) with
      | Some reg =>
          let s := dr_spill_store drp reg s in
          (set_spilled drp (BT_SET (dr_spilled drp) reg), s, reg)
      | None => (drp, s, -1)
      end
  end.

(** [None] is a failed [assert]. *)
Definition dt_regset_xalloc {S} (drp : dt_regset S) (s : S) (reg : Z)
  : option (dt_regset S * S * Z) :=
  if negb ((0 <=? reg) && (reg <? dr_size drp)) then None
  else if BT_TEST (dr_active drp) reg then
    if BT_TEST (dr_spilled drp) reg then Some (drp, s, -1)
    else
      let s := dr_spill_store drp reg s in
      let drp := set_spilled drp (BT_SET (dr_spilled drp) reg) in
      Some (set_active drp (BT_SET (dr_active drp) reg), s, 0)
  else Some (set_active drp (BT_SET (dr_active drp) reg), s, 0).

Definition dt_regset_free {S} (drp : dt_regset S) (s : S) (reg : Z)
  : option (dt_regset S * S) :=
  if negb ((0 <=? reg) && (reg <? dr_size drp)) then None
  else if negb (BT_TEST (dr_active drp) reg) then None
  else if BT_TEST (dr_spilled drp) reg then
    let s := dr_spill_load drp reg s in
    Some (set_spilled drp (BT_CLEAR (dr_spilled drp) reg), s)
  else Some (set_active drp (BT_CLEAR (dr_active drp) reg), s).

(** [while (--reg > 0) dt_regset_free(drp, reg)], entered with [reg = n + 1]. *)
Fixpoint free_down {S} (drp : dt_regset S) (s : S) (n : nat) : option (dt_regset S * S) :=
  match n with
  | O => Some (drp, s)
  | Datatypes.S n' =>
      '(drp, s) ← dt_regset_free drp s (Z.of_nat n); free_down drp s n'
  end.

(** The [for] loop of [dt_regset_xalloc_args] with [todo] registers left, the
    next one being [reg]. *)
Fixpoint xalloc_args_loop {S} (drp : dt_regset S) (s : S) (todo reg : nat)
  : option (dt_regset S * S * Z) :=
  match todo with
  | O => Some (drp, s, 0)
  | Datatypes.S todo =>
      '(drp, s, rc) ← dt_regset_xalloc drp s (Z.of_nat reg);
      if rc =? -1 then
        '(drp, s) ← free_down drp s (reg - 1); Some (drp, s, -1)
      else xalloc_args_loop drp s todo (Datatypes.S reg)
  end.

Definition dt_regset_xalloc_args {S} (drp : dt_regset S) (s : S) := xalloc_args_loop drp s 5 1.

Fixpoint free_args_loop {S} (drp : dt_regset S) (s : S) (todo reg : nat)
  : option (dt_regset S * S) :=
  match todo with
  | O => Some (drp, s)
  | Datatypes.S todo =>
      '(drp, s) ← dt_regset_free drp s (Z.of_nat reg);
      free_args_loop drp s todo (Datatypes.S reg)
  end.

Definition dt_regset_free_args {S} (drp : dt_regset S) (s : S) := free_args_loop drp s 5 1.

(** ** Abstract view: how many allocations of a register are outstanding *)

(** 0: free; 1: in use; 2: in use, with an earlier use spilled. *)
Definition level {S} (drp : dt_regset S) (r : Z) : Z :=
  c_bool (BT_TEST (dr_active drp) r) + c_bool (BT_TEST (dr_spilled drp) r).

Record regset_wf {S} (drp : dt_regset S) : Prop := {
  wf_size : 1 <= dr_size drp;
  wf_active : dr_size drp <= 64 * Z.of_nat (length (dr_active drp));
  wf_spilled : dr_size drp <= 64 * Z.of_nat (length (dr_spilled drp));
  wf_sub r : 0 <= r -> BT_TEST (dr_spilled drp) r = true -> BT_TEST (dr_active drp) r = true;
}.

Lemma find_clear_Some bm n r :
  find_clear bm n = Some r <->
  1 <= r <= Z.of_nat n /\ BT_TEST bm r = false /\
  (forall r', r < r' <= Z.of_nat n -> BT_TEST bm r' = true).
Proof.
  induction n as [|n IH]; cbn [find_clear]; [split; [done|lia]|].
  destruct (BT_TEST bm (Z.of_nat (S n))) eqn:E.
  - rewrite IH. split.
    + intros (Hr & Ht & Ha). split; [lia|split; [done|]]. intros r' Hr'.
      destruct (decide (r' = Z.of_nat (S n))) as [->|]; [done|]. apply Ha. lia.
    + intros (Hr & Ht & Ha). split; [|split; [done|intros; apply Ha; lia]].
      destruct (decide (r = Z.of_nat (S n))) as [->|]; [congruence|lia].
  - split.
    + intros [= <-]. split; [lia|split; [done|lia]].
    + intros (Hr & Ht & Ha). f_equal.
      destruct (decide (r = Z.of_nat (S n))) as [->|]; [done|].
      rewrite (Ha (Z.of_nat (S n))) in E by lia. done.
Qed.

Lemma find_clear_None bm n :
  find_clear bm n = None <-> forall r, 1 <= r <= Z.of_nat n -> BT_TEST bm r = true.
Proof.
  induction n as [|n IH]; cbn [find_clear]; [split; [lia|done]|].
  destruct (BT_TEST bm (Z.of_nat (S n))) eqn:E.
  - rewrite IH. split; intros H r Hr; [|apply H; lia].
    destruct (decide (r = Z.of_nat (S n))) as [->|]; [done|]. apply H. lia.
  - split; [done|]. intros H. rewrite H in E by lia. done.
Qed.

Section Ops.
Context {S : Type}.
Implicit Types drp : dt_regset S.

Lemma wf_in_active drp r : regset_wf drp -> 0 <= r < dr_size drp -> in_map (dr_active drp) r.
Proof. intros [] ?. unfold in_map. lia. Qed.
Lemma wf_in_spilled drp r : regset_wf drp -> 0 <= r < dr_size drp -> in_map (dr_spilled drp) r.
Proof. intros [] ?. unfold in_map. lia. Qed.

Lemma level_range drp r : 0 <= level drp r <= 2.
Proof. unfold level, c_bool. repeat case_match; lia. Qed.

(** The level of a well-formed set determines both bits. *)
Lemma level_active drp r :
  regset_wf drp -> 0 <= r -> BT_TEST (dr_active drp) r = (0 <? level drp r).
Proof.
  intros Hwf Hr. unfold level, c_bool. pose proof (wf_sub _ Hwf r Hr).
  destruct (BT_TEST (dr_active drp) r), (BT_TEST (dr_spilled drp) r); naive_solver.
Qed.
Lemma level_spilled drp r :
  regset_wf drp -> 0 <= r -> BT_TEST (dr_spilled drp) r = (1 <? level drp r).
Proof.
  intros Hwf Hr. unfold level, c_bool. pose proof (wf_sub _ Hwf r Hr).
  destruct (BT_TEST (dr_active drp) r), (BT_TEST (dr_spilled drp) r); naive_solver.
Qed.

(** The four map updates, as updates of the level of one register. *)
Lemma set_active_SET drp r :
  regset_wf drp -> 0 <= r < dr_size drp -> level drp r = 0 ->
  let drp' := set_active drp (BT_SET (dr_active drp) r) in
  regset_wf drp' /\ forall r', 0 <= r' -> level drp' r' = level drp r' + c_bool (r =? r').
Proof.
  intros Hwf Hr H0. pose proof (wf_in_active _ _ Hwf Hr) as Hi.
  pose proof (level_active _ r Hwf ltac:(lia)) as Ha. rewrite H0 in Ha. cbn in Ha.
  split.
  - destruct Hwf as [? Ha' ? Hs]. split; simpl; try done.
    + unfold BT_SET. by rewrite length_insert.
    + intros r' Hr' Ht. rewrite BT_TEST_SET by done. rewrite (Hs r') by done. apply orb_true_r.
  - intros r' Hr'. unfold level, c_bool. simpl. rewrite BT_TEST_SET by done.
    destruct (Z.eqb_spec r r'); subst; simpl; repeat case_match; congruence || lia.
Qed.

Lemma set_spilled_SET drp r :
  regset_wf drp -> 0 <= r < dr_size drp -> level drp r = 1 ->
  let drp' := set_spilled drp (BT_SET (dr_spilled drp) r) in
  regset_wf drp' /\ forall r', 0 <= r' -> level drp' r' = level drp r' + c_bool (r =? r').
Proof.
  intros Hwf Hr H0. pose proof (wf_in_spilled _ _ Hwf Hr) as Hi.
  pose proof (level_active _ r Hwf ltac:(lia)) as Ha.
  pose proof (level_spilled _ r Hwf ltac:(lia)) as Hl. rewrite H0 in Ha, Hl. cbn in Ha, Hl.
  split.
  - destruct Hwf as [? ? Ha' Hs]. split; simpl; try done.
    + unfold BT_SET. by rewrite length_insert.
    + intros r' Hr'. rewrite BT_TEST_SET by done.
      destruct (Z.eqb_spec r r'); subst; simpl; auto.
  - intros r' Hr'. unfold level, c_bool. simpl. rewrite BT_TEST_SET by done.
    destruct (Z.eqb_spec r r'); subst; simpl; repeat case_match; congruence || lia.
Qed.

Lemma set_active_CLEAR drp r :
  regset_wf drp -> 0 <= r < dr_size drp -> level drp r = 1 ->
  let drp' := set_active drp (BT_CLEAR (dr_active drp) r) in
  regset_wf drp' /\ forall r', 0 <= r' -> level drp' r' = level drp r' - c_bool (r =? r').
Proof.
  intros Hwf Hr H0. pose proof (wf_in_active _ _ Hwf Hr) as Hi.
  pose proof (level_active _ r Hwf ltac:(lia)) as Ha.
  pose proof (level_spilled _ r Hwf ltac:(lia)) as Hl. rewrite H0 in Ha, Hl. cbn in Ha, Hl.
  split.
  - destruct Hwf as [? Ha' ? Hs]. split; simpl; try done.
    + unfold BT_CLEAR. by rewrite length_insert.
    + intros r' Hr' Ht. rewrite BT_TEST_CLEAR, (Hs r') by done.
      destruct (Z.eqb_spec r r'); subst; [congruence|done].
  - intros r' Hr'. unfold level, c_bool. simpl. rewrite BT_TEST_CLEAR by done.
    destruct (Z.eqb_spec r r'); subst; simpl; repeat case_match; congruence || lia.
Qed.

Lemma set_spilled_CLEAR drp r :
  regset_wf drp -> 0 <= r < dr_size drp -> level drp r = 2 ->
  let drp' := set_spilled drp (BT_CLEAR (dr_spilled drp) r) in
  regset_wf drp' /\ forall r', 0 <= r' -> level drp' r' = level drp r' - c_bool (r =? r').
Proof.
  intros Hwf Hr H0. pose proof (wf_in_spilled _ _ Hwf Hr) as Hi.
  pose proof (level_spilled _ r Hwf ltac:(lia)) as Hl. rewrite H0 in Hl. cbn in Hl.
  split.
  - destruct Hwf as [? ? Ha' Hs]. split; simpl; try done.
    + unfold BT_CLEAR. by rewrite length_insert.
    + intros r' Hr'. rewrite BT_TEST_CLEAR by done. intros [_ ?]%andb_prop. auto.
  - intros r' Hr'. unfold level, c_bool. simpl. rewrite BT_TEST_CLEAR by done.
    destruct (Z.eqb_spec r r'); subst; simpl; repeat case_match; congruence || lia.
Qed.

(** [drp'] is [drp] with [d] more uses of the registers [lo <= r < hi]. *)
Record bumped (drp drp' : dt_regset S) (lo hi d : Z) : Prop := {
  bm_wf : regset_wf drp';
  bm_size : dr_size drp' = dr_size drp;
  bm_store : dr_spill_store drp' = dr_spill_store drp;
  bm_load : dr_spill_load drp' = dr_spill_load drp;
  bm_level r : 0 <= r -> level drp' r = level drp r + if (lo <=? r) && (r <? hi) then d else 0;
}.

Lemma bumped_refl drp r d : regset_wf drp -> bumped drp drp r r d.
Proof.
  intros; split; try done. intros r' _. destruct ((r <=? r') && (r' <? r)) eqn:E; b2p; lia.
Qed.

Lemma bumped_one drp drp' r d :
  regset_wf drp' -> dr_size drp' = dr_size drp ->
  dr_spill_store drp' = dr_spill_store drp -> dr_spill_load drp' = dr_spill_load drp ->
  (forall r', 0 <= r' -> level drp' r' = level drp r' + d * c_bool (r =? r')) ->
  bumped drp drp' r (r + 1) d.
Proof.
  intros Hwf ??? Hl. split; try done. intros r' Hr'. rewrite Hl by done.
  unfold c_bool. repeat case_cmp; simpl; lia.
Qed.

Lemma dt_regset_xalloc_spec drp s r :
  regset_wf drp -> 0 <= r < dr_size drp ->
  if level drp r =? 2 then dt_regset_xalloc drp s r = Some (drp, s, -1)
  else exists drp', dt_regset_xalloc drp s r =
         Some (drp', if level drp r =? 1 then dr_spill_store drp r s else s, 0)
       /\ bumped drp drp' r (r + 1) 1.
Proof.
  intros Hwf Hr. unfold dt_regset_xalloc.
  assert ((0 <=? r) && (r <? dr_size drp) = true) as -> by lia. simpl.
  rewrite (level_active _ r), (level_spilled _ r) by (done || lia).
  pose proof (level_range drp r). 
  assert (level drp r = 0 \/ level drp r = 1 \/ level drp r = 2) as [E|[E|E]] by lia;
    rewrite E; cbn; [..|done].
  - eexists; split; [done|]. destruct (set_active_SET drp r) as [??]; [done..|].
    apply bumped_one; try done. intros. rewrite H1 by done. lia.
  - eexists; split; [done|]. destruct (set_spilled_SET drp r) as [Hw Hl]; [done..|].
    pose proof (level_active _ r Hwf ltac:(lia)) as Ha. rewrite E in Ha. cbn in Ha.
    assert (forall r', 0 <= r' ->
      BT_TEST (BT_SET (dr_active drp) r) r' = BT_TEST (dr_active drp) r') as Hsame.
    { intros r' Hr'. rewrite BT_TEST_SET by (done || by apply wf_in_active).
      destruct (Z.eqb_spec r r'); subst; [by rewrite Ha|done]. }
    apply bumped_one; try done.
    + destruct Hw as [? ? ? Hs]. split; simpl in *; try done.
      * unfold BT_SET. by rewrite length_insert.
      * intros r' Hr' Ht. rewrite Hsame by done. by apply Hs.
    + intros r' Hr'. rewrite Z.mul_1_l, <- Hl by done.
      unfold level. simpl. by rewrite Hsame.
Qed.

Lemma dt_regset_free_spec drp s r :
  regset_wf drp -> 0 <= r < dr_size drp ->
  if level drp r =? 0 then dt_regset_free drp s r = None
  else exists drp', dt_regset_free drp s r =
         Some (drp', if level drp r =? 2 then dr_spill_load drp r s else s)
       /\ bumped drp drp' r (r + 1) (-1).
Proof.
  intros Hwf Hr. unfold dt_regset_free.
  assert ((0 <=? r) && (r <? dr_size drp) = true) as -> by lia. simpl.
  rewrite (level_active _ r), (level_spilled _ r) by (done || lia).
  pose proof (level_range drp r).
  assert (level drp r = 0 \/ level drp r = 1 \/ level drp r = 2) as [E|[E|E]] by lia;
    rewrite E; cbn; [done|..]; (eexists; split; [done|]).
  - destruct (set_active_CLEAR drp r) as [? Hl]; [done..|].
    apply bumped_one; try done; intros; rewrite Hl by done; lia.
  - destruct (set_spilled_CLEAR drp r) as [? Hl]; [done..|].
    apply bumped_one; try done; intros; rewrite Hl by done; lia.
Qed.

Lemma bumped_trans drp1 drp2 drp3 lo mid hi d :
  lo <= mid <= hi -> bumped drp1 drp2 lo mid d -> bumped drp2 drp3 mid hi d ->
  bumped drp1 drp3 lo hi d.
Proof.
  intros Hm [] []. split; try done; try congruence. intros r Hr.
  rewrite bm_level1, bm_level0 by done. repeat case_cmp; simpl; lia.
Qed.
End Ops.

(** Registers [reg], ..., [reg + todo - 1]. *)
Fixpoint regs_from (reg : Z) (todo : nat) : list Z :=
  match todo with O => [] | S todo => reg :: regs_from (reg + 1) todo end.

Section Args.
Context {S : Type}.
Implicit Types drp : dt_regset S.

(** The spills and reloads of a range of argument registers, as seen by the
    client: the registers that are in use exactly once. *)
Definition store_range drp (s : S) (rs : list Z) : S :=
  foldl (λ s r, if level drp r =? 1 then dr_spill_store drp r s else s) s rs.
Definition load_range drp (s : S) (rs : list Z) : S :=
  foldl (λ s r, if level drp r =? 1 then dr_spill_load drp r s else s) s rs.

Lemma free_down_spec drp0 n drp s :
  bumped drp0 drp 1 (Z.of_nat n + 1) 1 -> Z.of_nat n < dr_size drp0 ->
  exists drp' s', free_down drp s n = Some (drp', s') /\ bumped drp0 drp' 1 1 1.
Proof.
  revert drp s; induction n as [|n IH]; intros drp s Hb Hn.
  - by exists drp, s.
  - cbn [free_down]. set (r := Z.of_nat (Datatypes.S n)) in *.
    pose proof (dt_regset_free_spec drp s r (bm_wf _ _ _ _ _ Hb)) as Hf.
    rewrite (bm_size _ _ _ _ _ Hb) in Hf. specialize (Hf ltac:(lia)).
    pose proof (bm_level _ _ _ _ _ Hb r ltac:(lia)) as Hl.
    assert ((1 <=? r) && (r <? r + 1) = true) as E by lia. rewrite E in Hl.
    pose proof (level_range drp0 r).
    destruct (Z.eqb_spec (level drp r) 0); [lia|].
    destruct Hf as (drp' & -> & Hb'). cbn [mbind option_bind].
    apply IH; [|lia]. destruct Hb as [? Hsz ? ? Hlv], Hb' as [? Hsz' ? ? Hlv'].
    split; try done; try congruence. intros r' Hr'. rewrite Hlv', Hlv by done.
    repeat case_cmp; simpl; lia.
Qed.

Lemma xalloc_args_loop_spec drp0 todo reg drp s :
  bumped drp0 drp 1 (Z.of_nat reg) 1 -> (1 <= reg)%nat ->
  Z.of_nat reg + Z.of_nat todo <= dr_size drp0 ->
  exists drp' s' rc, xalloc_args_loop drp s todo reg = Some (drp', s', rc) /\
  ((rc = -1 /\ bumped drp0 drp' 1 1 1 /\
    exists r, Z.of_nat reg <= r < Z.of_nat reg + Z.of_nat todo /\ level drp0 r = 2) \/
   (rc = 0 /\ bumped drp0 drp' 1 (Z.of_nat reg + Z.of_nat todo) 1 /\
    s' = store_range drp0 s (regs_from (Z.of_nat reg) todo) /\
    (forall r, Z.of_nat reg <= r < Z.of_nat reg + Z.of_nat todo -> level drp0 r < 2))).
Proof.
  revert reg drp s; induction todo as [|todo IH]; intros reg drp s Hb H1 Hn.
  - exists drp, s, 0. split; [done|right]. rewrite Z.add_0_r. split_and!; try done; lia.
  - cbn [xalloc_args_loop regs_from].
    pose proof (dt_regset_xalloc_spec drp s (Z.of_nat reg) (bm_wf _ _ _ _ _ Hb)) as Hx.
    rewrite (bm_size _ _ _ _ _ Hb) in Hx. specialize (Hx ltac:(lia)).
    pose proof (bm_level _ _ _ _ _ Hb (Z.of_nat reg) ltac:(lia)) as Hl.
    assert ((1 <=? Z.of_nat reg) && (Z.of_nat reg <? Z.of_nat reg) = false) as E by lia.
    rewrite E, Z.add_0_r in Hl. rewrite Hl in Hx. pose proof (level_range drp0 (Z.of_nat reg)).
    destruct (Z.eqb_spec (level drp0 (Z.of_nat reg)) 2).
    + rewrite Hx. cbn.
      destruct (free_down_spec drp0 (reg - 1) drp s) as (drp' & s' & -> & Hb'); [|lia|].
      { by replace (Z.of_nat (reg - 1) + 1) with (Z.of_nat reg) by lia. }
      cbn. exists drp', s', (-1). split; [done|left]. split_and!; try done.
      exists (Z.of_nat reg). split; [lia|done].
    + destruct Hx as (drp1 & -> & Hb1). cbn [mbind option_bind Z.eqb].
      rewrite (bm_store _ _ _ _ _ Hb).
      destruct (IH (Datatypes.S reg) drp1
        (if level drp0 (Z.of_nat reg) =? 1 then dr_spill_store drp0 (Z.of_nat reg) s else s))
        as (drp' & s' & rc & -> & Hcase); [|lia|lia|].
      { rewrite Nat2Z.inj_succ. eapply bumped_trans; [|done|done]. lia. }
      exists drp', s', rc. split; [done|].
      rewrite Nat2Z.inj_succ in *. destruct Hcase as [(-> & ? & r & ? & ?)|(-> & Hb' & -> & Hlt)].
      * left. split_and!; try done. exists r. split; [lia|done].
      * right. split; [done|]. split.
        { by replace (Z.of_nat reg + Z.succ (Z.of_nat todo))
            with (Z.succ (Z.of_nat reg) + Z.of_nat todo) by lia. }
        split; [done|]. intros r Hr.
        destruct (decide (r = Z.of_nat reg)) as [->|]; [lia|apply Hlt; lia].
Qed.

Lemma free_args_loop_spec drp0 todo reg drp s :
  bumped drp0 drp (Z.of_nat reg) (Z.of_nat reg + Z.of_nat todo) 1 ->
  Z.of_nat reg + Z.of_nat todo <= dr_size drp0 ->
  exists drp', free_args_loop drp s todo reg =
      Some (drp', load_range drp0 s (regs_from (Z.of_nat reg) todo)) /\
    bumped drp0 drp' 1 1 1.
Proof.
  revert reg drp s; induction todo as [|todo IH]; intros reg drp s Hb Hn.
  - exists drp. split; [done|]. destruct Hb as [? ? ? ? Hlv]. split; try done.
    intros r Hr. rewrite Hlv by done. repeat case_cmp; simpl; lia.
  - cbn [free_args_loop regs_from].
    pose proof (dt_regset_free_spec drp s (Z.of_nat reg) (bm_wf _ _ _ _ _ Hb)) as Hf.
    rewrite (bm_size _ _ _ _ _ Hb) in Hf. specialize (Hf ltac:(lia)).
    pose proof (bm_level _ _ _ _ _ Hb (Z.of_nat reg) ltac:(lia)) as Hl.
    assert ((Z.of_nat reg <=? Z.of_nat reg) &&
      (Z.of_nat reg <? Z.of_nat reg + Z.of_nat (Datatypes.S todo)) = true) as E
      by (rewrite andb_true_iff, Z.leb_le, Z.ltb_lt; lia).
    rewrite E in Hl.
    pose proof (level_range drp0 (Z.of_nat reg)).
    destruct (Z.eqb_spec (level drp (Z.of_nat reg)) 0); [lia|].
    destruct Hf as (drp1 & -> & Hb1). cbn [mbind option_bind].
    destruct (IH (Datatypes.S reg) drp1
      (if level drp (Z.of_nat reg) =? 2 then dr_spill_load drp (Z.of_nat reg) s else s))
      as (drp' & Heq & Hb'); [|lia|].
    { destruct Hb as [? Hsz ? ? Hlv], Hb1 as [? Hsz' ? ? Hlv'].
      split; try done; try congruence. intros r' Hr'. rewrite Hlv', Hlv by done.
      repeat case_cmp; simpl; lia. }
    exists drp'. rewrite Nat2Z.inj_succ in Heq. split; [|done].
    rewrite Heq. unfold load_range. simpl. rewrite Hl, (bm_load _ _ _ _ _ Hb).
    replace (level drp0 (Z.of_nat reg) + 1 =? 2) with (level drp0 (Z.of_nat reg) =? 1) by lia.
    done.
Qed.
End Args.

(** ** What the generated code sees: registers and stack slots *)

Definition DT_STK_SLOT_SZ : Z := 8.
Definition DT_STK_SPILL_BASE : Z := 0 - DT_STK_SLOT_SZ - DT_STK_SLOT_SZ - DT_STK_SLOT_SZ.
Definition DT_STK_SPILL (n : Z) : Z := DT_STK_SPILL_BASE - n * DT_STK_SLOT_SZ.

Record bpf_state := BpfState { bs_reg : Z -> Z; bs_stack : Z -> Z }.

Definition upd (f : Z -> Z) (k v : Z) : Z -> Z := λ x, if x =? k then v else f x.

(** The effect of the instruction [dt_cg_spill_store] emits,
    [BPF_STORE(BPF_DW, BPF_REG_FP, DT_STK_SPILL(reg), reg)]. *)
Definition dt_cg_spill_store (reg : Z) (m : bpf_state) : bpf_state :=
  BpfState (bs_reg m) (upd (bs_stack m) (DT_STK_SPILL reg) (bs_reg m reg)).

(** The effect of [BPF_LOAD(BPF_DW, reg, BPF_REG_FP, DT_STK_SPILL(reg))]. *)
Definition dt_cg_spill_load (reg : Z) (m : bpf_state) : bpf_state :=
  BpfState (upd (bs_reg m) reg (bs_stack m (DT_STK_SPILL reg))) (bs_stack m).

(** A register set of the code generator. *)
Definition cg_regset (drp : dt_regset bpf_state) : Prop :=
  dr_spill_store drp = dt_cg_spill_store /\ dr_spill_load drp = dt_cg_spill_load.

Lemma DT_STK_SPILL_inj a b : (DT_STK_SPILL a =? DT_STK_SPILL b) = (a =? b).
Proof. unfold DT_STK_SPILL, DT_STK_SPILL_BASE, DT_STK_SLOT_SZ. repeat case_cmp; lia. Qed.

Lemma elem_of_regs_from r reg todo :
  r ∈ regs_from reg todo <-> reg <= r < reg + Z.of_nat todo.
Proof.
  revert reg; induction todo as [|todo IH]; intros reg; cbn [regs_from].
  - rewrite list_elem_of_In. simpl. lia.
  - rewrite elem_of_cons, IH. lia.
Qed.

Lemma store_range_reg drp m rs :
  cg_regset drp -> bs_reg (store_range drp m rs) = bs_reg m.
Proof.
  intros [Hs _]. unfold store_range. revert m.
  induction rs as [|r rs IH]; intros m; simpl; [done|]. rewrite IH, Hs. by case_match.
Qed.

Lemma store_range_slot drp m rs r :
  cg_regset drp ->
  bs_stack (store_range drp m rs) (DT_STK_SPILL r) =
  if bool_decide (r ∈ rs) && (level drp r =? 1) then bs_reg m r
  else bs_stack m (DT_STK_SPILL r).
Proof.
  intros Hc. pose proof Hc as [Hs _]. unfold store_range. revert m.
  induction rs as [|x rs IH]; intros m; simpl; [done|].
  rewrite IH, Hs. destruct (Z.eqb_spec (level drp x) 1) as [Hx|Hx]; simpl.
  - unfold upd. rewrite DT_STK_SPILL_inj. destruct (Z.eqb_spec r x) as [->|Hne].
    + rewrite Hx, (bool_decide_true (x ∈ x :: rs)) by set_solver. simpl.
      by destruct (bool_decide (x ∈ rs) && true).
    + assert (r ∈ x :: rs <-> r ∈ rs) as Hi by set_solver.
      by rewrite (bool_decide_ext _ _ Hi).
  - destruct (decide (r = x)) as [->|Hne].
    + apply Z.eqb_neq in Hx. by rewrite Hx, !andb_false_r.
    + assert (r ∈ x :: rs <-> r ∈ rs) as Hi by set_solver.
      by rewrite (bool_decide_ext _ _ Hi).
Qed.

Lemma load_range_stack drp m rs :
  cg_regset drp -> bs_stack (load_range drp m rs) = bs_stack m.
Proof.
  intros [_ Hs]. unfold load_range. revert m.
  induction rs as [|r rs IH]; intros m; simpl; [done|]. rewrite IH, Hs. by case_match.
Qed.

Lemma load_range_reg drp m rs r :
  cg_regset drp ->
  bs_reg (load_range drp m rs) r =
  if bool_decide (r ∈ rs) && (level drp r =? 1) then bs_stack m (DT_STK_SPILL r)
  else bs_reg m r.
Proof.
  intros Hc. pose proof Hc as [_ Hs]. unfold load_range. revert m.
  induction rs as [|x rs IH]; intros m; simpl; [done|].
  rewrite IH, Hs. destruct (decide (r = x)) as [->|Hne].
  - rewrite (bool_decide_true (x ∈ x :: rs)) by set_solver. simpl.
    destruct (level drp x =? 1); rewrite ?andb_true_r, ?andb_false_r; simpl; [|done].
    unfold upd. rewrite Z.eqb_refl. by destruct (bool_decide (x ∈ rs)).
  - assert (r ∈ x :: rs <-> r ∈ rs) as Hi by set_solver.
    rewrite (bool_decide_ext _ _ Hi). destruct (level drp x =? 1); simpl; [|done].
    unfold upd. apply Z.eqb_neq in Hne. by rewrite Hne.
Qed.

Lemma dt_regset_alloc_spec S (drp : dt_regset S) s :
  regset_wf drp ->
  let '(drp', s', r) := dt_regset_alloc drp s in
  (r = -1 /\ drp' = drp /\ s' = s /\ forall r', 1 <= r' < dr_size drp -> level drp r' = 2) \/
  (1 <= r < dr_size drp /\ bumped drp drp' r (r + 1) 1 /\
   ((level drp r = 0 /\ s' = s /\ forall r', r < r' < dr_size drp -> 1 <= level drp r') \/
    (level drp r = 1 /\ s' = dr_spill_store drp r s /\
     (forall r', 1 <= r' < dr_size drp -> 1 <= level drp r') /\
     (forall r', r < r' < dr_size drp -> level drp r' = 2)))).
Proof.
  intros Hwf. unfold dt_regset_alloc. pose proof (wf_size _ Hwf).
  assert (Z.of_nat (Z.to_nat (dr_size drp - 1)) = dr_size drp - 1) as Hn by lia.
  destruct (find_clear (dr_active drp) _) as [r|] eqn:Ha; [|destruct (find_clear (dr_spilled drp) _) as [r|] eqn:Hs].
  - apply find_clear_Some in Ha as (Hr & Ht & Hall). rewrite Hn in *.
    rewrite level_active in Ht by (done || lia). pose proof (level_range drp r). b2p.
    assert (level drp r = 0) as Hlv by lia.
    destruct (set_active_SET drp r) as [? Hl]; [done|lia|done|].
    right. split; [lia|]. split.
    { apply bumped_one; try done; intros; rewrite Hl by done; lia. }
    left. split_and!; try done. intros r' Hr'. specialize (Hall r' ltac:(lia)).
    rewrite level_active in Hall by (done || lia). b2p. lia.
  - apply find_clear_Some in Hs as (Hr & Ht & Hall).
    pose proof (proj1 (find_clear_None _ _) Ha) as Hact. rewrite Hn in *.
    assert (forall r', 1 <= r' < dr_size drp -> 1 <= level drp r') as Hge.
    { intros r' Hr'. specialize (Hact r' ltac:(lia)).
      rewrite level_active in Hact by (done || lia). b2p. lia. }
    rewrite level_spilled in Ht by (done || lia). b2p.
    assert (level drp r = 1) as Hlv by (specialize (Hge r); lia).
    destruct (set_spilled_SET drp r) as [? Hl]; [done|lia|done|].
    right. split; [lia|]. split.
    { apply bumped_one; try done; intros; rewrite Hl by done; lia. }
    right. split_and!; try done. intros r' Hr'. specialize (Hall r' ltac:(lia)).
    rewrite level_spilled in Hall by (done || lia). b2p.
    pose proof (level_range drp r'). lia.
  - left. split_and!; try done. intros r' Hr'.
    pose proof (proj1 (find_clear_None _ _) Hs r' ltac:(lia)) as Hall.
    rewrite level_spilled in Hall by (done || lia). b2p.
    pose proof (level_range drp r'). lia.
Qed.

(** ** Properties *)

(** on a well-formed set [dt_regset_alloc] never hands out %r0 and fails
    only when every other register is both in use and spilled.  Otherwise it
    returns the highest-numbered free register without spilling, or, when none
    is free, spills exactly the highest-numbered register whose previous
    contents are not on the stack yet; only the use count of the returned
    register changes, and the set stays well-formed. *)
Theorem dt_regset_alloc_correct S (drp : dt_regset S) s :
  regset_wf drp ->
  let '(drp', s', r) := dt_regset_alloc drp s in
  (r = -1 /\ drp' = drp /\ s' = s /\ forall r', 1 <= r' < dr_size drp -> level drp r' = 2) \/
  (1 <= r < dr_size drp /\ bumped drp drp' r (r + 1) 1 /\
   ((level drp r = 0 /\ s' = s /\ forall r', r < r' < dr_size drp -> 1 <= level drp r') \/
    (level drp r = 1 /\ s' = dr_spill_store drp r s /\
     (forall r', 1 <= r' < dr_size drp -> 1 <= level drp r') /\
     (forall r', r < r' < dr_size drp -> level drp r' = 2)))).
Proof. exact (dt_regset_alloc_spec S drp s). Qed.

(** C33: acquiring the five argument registers is all-or-nothing.  When
    [dt_regset_xalloc_args] fails, one of %r1-%r5 was already spilled and every
    use count is back to what it was.  When it succeeds, code that clobbers
    %r1-%r5 but neither the other registers nor the spill slots, followed by
    [dt_regset_free_args], gives back every use count and the contents of every
    register that was in use before. *)
Theorem dt_regset_args_restore (drp : dt_regset bpf_state) (m : bpf_state) :
  regset_wf drp -> cg_regset drp -> 5 < dr_size drp ->
  exists drp1 m1 rc, dt_regset_xalloc_args drp m = Some (drp1, m1, rc) /\
  ((rc = -1 /\ (forall r, 0 <= r -> level drp1 r = level drp r) /\
    exists r, 1 <= r <= 5 /\ level drp r = 2) \/
   (rc = 0 /\
    forall m2,
      (forall r, 1 <= r <= 5 -> bs_stack m2 (DT_STK_SPILL r) = bs_stack m1 (DT_STK_SPILL r)) ->
      (forall r, ~ 1 <= r <= 5 -> bs_reg m2 r = bs_reg m1 r) ->
      exists drp2 m3, dt_regset_free_args drp1 m2 = Some (drp2, m3) /\
        (forall r, 0 <= r -> level drp2 r = level drp r) /\
        (forall r, 0 <= r -> 1 <= level drp r -> bs_reg m3 r = bs_reg m r))).
Proof.
  intros Hwf Hc H5.
  destruct (xalloc_args_loop_spec drp 5 1 drp m) as (drp1 & m1 & rc & He & Hcase);
    [by apply bumped_refl|lia|lia|].
  exists drp1, m1, rc. split; [exact He|].
  assert (forall drp', bumped drp drp' 1 1 1 -> forall r, 0 <= r -> level drp' r = level drp r)
    as Hsame.
  { intros drp' Hb r Hr. rewrite (bm_level _ _ _ _ _ Hb) by done. repeat case_cmp; simpl; lia. }
  destruct Hcase as [(-> & Hb & r & Hr & Hl)|(-> & Hb & -> & Hlt)].
  { left. split_and!; [done|by apply Hsame|]. exists r. split; [lia|done]. }
  right. split; [done|]. intros m2 Hst Hrg.
  destruct (free_args_loop_spec drp 5 1 drp1 m2) as (drp2 & He2 & Hb2); [done|lia|].
  eexists drp2, _. split; [exact He2|]. split; [by apply Hsame|].
  intros r Hr Hl. rewrite load_range_reg by done.
  destruct (bool_decide_reflect (r ∈ regs_from (Z.of_nat 1) 5)) as [Hin|Hin].
  - pose proof Hin as Hin'. apply elem_of_regs_from in Hin'.
    specialize (Hlt r ltac:(lia)). destruct (Z.eqb_spec (level drp r) 1); [|lia]. cbn [andb].
    rewrite Hst by lia. rewrite store_range_slot by done.
    rewrite bool_decide_true by done. by destruct (Z.eqb_spec (level drp r) 1).
  - cbn [andb]. rewrite elem_of_regs_from in Hin. rewrite Hrg, store_range_reg by (done || lia).
    done.
Qed.

(** Creation gives a well-formed set in which every register is free. *)
Lemma dt_regset_create_wf {S} ja js size (stf ldf : Z -> S -> S) :
  0 <= size < 2 ^ 64 - 1 ->
  exists drp, dt_regset_create true true true ja js size stf ldf = Some drp /\
    regset_wf drp /\ dr_size drp = size + 1 /\ forall r, level drp r = 0.
Proof.
  intros Hs. eexists. split; [reflexivity|]. unfold dt_regset_reset. simpl.
  rewrite (wrapu_small 64) by lia.
  assert (size + 1 <= 64 * Z.of_nat (length (BT_zero (size + 1)))).
  { unfold BT_zero. rewrite length_replicate. unfold BT_BITOUL. change BT_NBIPUL with 64.
    pose proof (Z.div_mod (size + 1 + 64 - 1) 64 ltac:(lia)).
    pose proof (Z.mod_pos_bound (size + 1 + 64 - 1) 64 ltac:(lia)). lia. }
  split; [split; simpl; try lia|].
  - intros r _. by rewrite BT_TEST_zero.
  - split; [done|]. intros r. unfold level. simpl. by rewrite BT_TEST_zero.
Qed.

(** A set of nine registers with %r1 in use. *)
Definition ex_regset : dt_regset bpf_state :=
  Regset 9 dt_cg_spill_store dt_cg_spill_load [2] [0].
Definition ex_state : bpf_state := BpfState (λ r, 100 + r) (λ _, 0).

Lemma ex_regset_wf : regset_wf ex_regset.
Proof.
  split; simpl; try lia. intros r Hr. rewrite BT_TEST_testbit.
  unfold BT_WIM. destruct (Z.to_nat _) as [|[|?]]; simpl; by rewrite Z.bits_0.
Qed.

Lemma dt_regset_alloc_witness :
  let '(drp', s', r) := dt_regset_alloc ex_regset ex_state in
  (r = -1 /\ drp' = ex_regset /\ s' = ex_state /\
   forall r', 1 <= r' < 9 -> level ex_regset r' = 2) \/
  (1 <= r < 9 /\ bumped ex_regset drp' r (r + 1) 1 /\
   ((level ex_regset r = 0 /\ s' = ex_state /\
     forall r', r < r' < 9 -> 1 <= level ex_regset r') \/
    (level ex_regset r = 1 /\ s' = dt_cg_spill_store r ex_state /\
     (forall r', 1 <= r' < 9 -> 1 <= level ex_regset r') /\
     (forall r', r < r' < 9 -> level ex_regset r' = 2)))).
Proof. exact (dt_regset_alloc_correct _ ex_regset ex_state ex_regset_wf). Defined.

Lemma dt_regset_args_restore_witness :
  exists drp1 m1 rc, dt_regset_xalloc_args ex_regset ex_state = Some (drp1, m1, rc) /\
  ((rc = -1 /\ (forall r, 0 <= r -> level drp1 r = level ex_regset r) /\
    exists r, 1 <= r <= 5 /\ level ex_regset r = 2) \/
   (rc = 0 /\
    forall m2,
      (forall r, 1 <= r <= 5 -> bs_stack m2 (DT_STK_SPILL r) = bs_stack m1 (DT_STK_SPILL r)) ->
      (forall r, ~ 1 <= r <= 5 -> bs_reg m2 r = bs_reg m1 r) ->
      exists drp2 m3, dt_regset_free_args drp1 m2 = Some (drp2, m3) /\
        (forall r, 0 <= r -> level drp2 r = level ex_regset r) /\
        (forall r, 0 <= r -> 1 <= level ex_regset r -> bs_reg m3 r = bs_reg ex_state r))).
Proof.
  apply (dt_regset_args_restore ex_regset ex_state ex_regset_wf);
    [split; reflexivity|vm_compute; reflexivity].
Defined.
