(* ===== verification/Str.v ===== *)
(** * String utilities (libdtrace/dt_string.c, libport/strlcpy.c, strlcat.c)

    A C string is the list of its bytes (0 to 255) before the terminating NUL.
    Bytes are kept unsigned; the comparisons of the source against ASCII
    constants and the masks applied to a shifted [char] give the same results
    for a signed and for an unsigned [char]. *)

From stdpp Require Import base list numbers sets.
From S2P Require Import Prelude.

Abbreviation bytes := (list Z).

(** ** Character constants *)

Abbreviation chr_NUL := 0.
Abbreviation chr_a := 97.
Abbreviation chr_b := 98.
Abbreviation chr_f := 102.
Abbreviation chr_n := 110.
Abbreviation chr_r := 114.
Abbreviation chr_t := 116.
Abbreviation chr_v := 118.
Abbreviation chr_x := 120.
Abbreviation chr_0 := 48.
Abbreviation chr_7 := 55.
Abbreviation chr_9 := 57.
Abbreviation chr_A := 65.
Abbreviation chr_F := 70.
Abbreviation chr_quote := 34.
Abbreviation chr_bslash := 92.
Abbreviation chr_slash := 47.
Abbreviation chr_uscore := 95.
Abbreviation chr_hyphen := 45.
Abbreviation chr_bang := 33.
Abbreviation chr_tilde := 126.
Abbreviation chr_space := 32.
Abbreviation chr_BEL := 7.
Abbreviation chr_BS := 8.
Abbreviation chr_TAB := 9.
Abbreviation chr_LF := 10.
Abbreviation chr_VT := 11.
Abbreviation chr_FF := 12.
Abbreviation chr_CR := 13.

Definition is_octal (c : Z) : bool := (chr_0 <=? c) && (c <=? chr_7).

(** ** stresc2chr *)

(** The hexadecimal loop of [case 'x']: the value and what is left to read.
    [x] is an [int], of which only the low byte is stored. *)
Fixpoint hex_loop (p : bytes) (x : Z) : Z * bytes :=
  match p with
  | [] => (x, [])
  | c :: p' =>
      if (chr_0 <=? c) && (c <=? chr_9) then hex_loop p' (s32 (x * 16 + c - chr_0))
      else if (chr_a <=? c) && (c <=? chr_f) then hex_loop p' (s32 (x * 16 + c - chr_a + 10))
      else if (chr_A <=? c) && (c <=? chr_F) then hex_loop p' (s32 (x * 16 + c - chr_A + 10))
      else (x, p)
  end.

(** One iteration of the main loop, in mode [esc], on the byte [c] with [p]
    left after it: the bytes stored through [q], the new mode, and what is left. *)
Definition stresc2chr_step (esc : bool) (c : Z) (p : bytes) : bytes * bool * bytes :=
  if esc then
    if is_octal c then
      let c := c - chr_0 in
      match p with
      | d1 :: p1 =>
          if is_octal d1 then
            let c := u8 (c * 8 + d1 - chr_0) in
            match p1 with
            | d2 :: p2 =>
                if is_octal d2 then ([u8 (c * 8 + d2 - chr_0)], false, p2)
                else ([c], false, p1)
            | [] => ([c], false, p1)
            end
          else ([c], false, p)
      | [] => ([c], false, p)
      end
    else if c =? chr_a then ([chr_BEL], false, p)
    else if c =? chr_b then ([chr_BS], false, p)
    else if c =? chr_f then ([chr_FF], false, p)
    else if c =? chr_n then ([chr_LF], false, p)
    else if c =? chr_r then ([chr_CR], false, p)
    else if c =? chr_t then ([chr_TAB], false, p)
    else if c =? chr_v then ([chr_VT], false, p)
    else if c =? chr_x then
      let '(x, p) := hex_loop p 0 in ([u8 x], false, p)
    else if (c =? chr_quote) || (c =? chr_bslash) then ([c], false, p)
    else ([chr_bslash; c], false, p)
  else if c =? chr_bslash then ([], true, p)
  else ([c], false, p).

(** [None] when the fuel is exhausted. *)
Fixpoint stresc2chr_loop (fuel : nat) (esc : bool) (p : bytes) : option bytes :=
  match fuel with
  | O => None
  | S fuel =>
      match p with
      | [] => Some []
      | c :: p =>
          let '(w, esc, p) := stresc2chr_step esc c p in
          app w <$> stresc2chr_loop fuel esc p
      end
  end.

(** Every iteration consumes a byte. *)
Definition stresc2chr (s : bytes) : option bytes := stresc2chr_loop (S (length s)) false s.

(** ** strchr2esc *)

(** The characters that are written as a backslash and one more. *)
Definition esc_simple (c : Z) : option Z :=
  if c =? chr_NUL then Some chr_0
  else if c =? chr_BEL then Some chr_a
  else if c =? chr_BS then Some chr_b
  else if c =? chr_FF then Some chr_f
  else if c =? chr_LF then Some chr_n
  else if c =? chr_CR then Some chr_r
  else if c =? chr_TAB then Some chr_t
  else if c =? chr_VT then Some chr_v
  else if c =? chr_quote then Some chr_quote
  else if c =? chr_bslash then Some chr_bslash
  else None.

(** First pass: the number of additional bytes to allocate. *)
Fixpoint esc_addl (s : bytes) : Z :=
  match s with
  | [] => 0
  | c :: s =>
      (match esc_simple c with
       | Some _ => 1
       | None =>
           if c =? chr_space then 0
           else if (c <? chr_bang) || (chr_tilde <? c) then 3 else 0
       end) + esc_addl s
  end.

(** Second pass: what is stored through [q]. *)
Fixpoint esc_loop (s : bytes) : bytes :=
  match s with
  | [] => []
  | c :: s =>
      (match esc_simple c with
       | Some e => [chr_bslash; e]
       | None =>
           if c =? chr_space then [c]
           else if (c <? chr_bang) || (chr_tilde <? c) then
             [chr_bslash; Z.land (Z.shiftr c 6) 3 + chr_0;
              Z.land (Z.shiftr c 3) 7 + chr_0; Z.land c 7 + chr_0]
           else [c]
       end) ++ (if c =? chr_NUL then [] else esc_loop s)
  end.

(** [malloc_ok size]: whether the allocation of the copy succeeds. *)
Definition strchr2esc (malloc_ok : Z -> bool) (s : bytes) : option bytes :=
  if malloc_ok (Z.of_nat (length s) + esc_addl s + 1) then Some (esc_loop s) else None.

(** ** strbasename, strisglob, strhyphenate, strrstr *)

(** [strrchr]: the suffix that starts at the last occurrence of [c]. *)
Fixpoint strrchr (s : bytes) (c : Z) : option bytes :=
  match s with
  | [] => if c =? chr_NUL then Some [] else None
  | d :: s' =>
      match strrchr s' c with
      | Some r => Some r
      | None => if d =? c then Some s else None
      end
  end.

Definition strbasename (s : bytes) : bytes :=
  match strrchr s chr_slash with
  | None => s
  | Some p => tail p
  end.

Fixpoint strisglob (s : bytes) : Z :=
  match s with
  | [] => 0
  | c :: s => if (c =? 91) || (c =? 63) || (c =? 42) || (c =? chr_bslash) then 1 else strisglob s
  end.

(** [memmove(buf + dst, buf + src, n)] within one buffer. *)
Definition memmove (buf : bytes) (dst src n : nat) : bytes :=
  take dst buf ++ take n (drop src buf) ++ drop (dst + n) buf.

(** The loop of [strhyphenate] at offset [p] of the buffer, whose terminating
    NUL is at offset [q = p + todo]. *)
Fixpoint strhyphenate_loop (todo p : nat) (buf : bytes) : bytes :=
  match todo with
  | O => buf
  | S todo' =>
      let buf :=
        if bool_decide (buf !! p = Some chr_uscore) && bool_decide (buf !! S p = Some chr_uscore)
        then memmove (<[p := chr_hyphen]> buf) (p + 1) (p + 2) (todo - 1)
        else buf in
      strhyphenate_loop todo' (S p) buf
  end.

(** The bytes before the first NUL of a buffer. *)
Fixpoint cstr (buf : bytes) : bytes :=
  match buf with
  | [] => []
  | c :: buf => if c =? chr_NUL then [] else c :: cstr buf
  end.

(** The buffer holds the string and its NUL. *)
Definition strhyphenate (s : bytes) : bytes :=
  cstr (strhyphenate_loop (length s) 0 (s ++ [chr_NUL])).

Fixpoint has_prefix (s needle : bytes) : bool :=
  match needle, s with
  | [], _ => true
  | c :: needle, d :: s => (c =? d) && has_prefix s needle
  | _ :: _, [] => false
  end.

(** [strstr]: the offset of the first occurrence, searching from [off]. *)
Fixpoint strstr_from (s needle : bytes) (off : nat) : option nat :=
  if has_prefix s needle then Some off
  else match s with [] => None | _ :: s => strstr_from s needle (S off) end.

(** The loop of [strrstr]: [s] is the offset to search from. *)
Fixpoint strrstr_loop (fuel : nat) (h needle : bytes) (s : nat) (prev : option nat)
  : option (option nat) :=
  match fuel with
  | O => None
  | S fuel =>
      match strstr_from (drop s h) needle s with
      | Some s => strrstr_loop fuel h needle (S s) (Some s)
      | None => Some prev
      end
  end.

Definition strrstr (h needle : bytes) : option (option nat) :=
  strrstr_loop (S (S (length h))) h needle 0 None.

(** ** strlcpy, strlcat *)

(** [memcpy(buf + off, src, n)] of the first [n] bytes of [src]. *)
Definition memcpy_at (buf : bytes) (off : nat) (src : bytes) (n : nat) : bytes :=
  take off buf ++ take n src ++ drop (off + n) buf.

Definition strlcpy (dst src : bytes) (len : nat) : bytes * nat :=
  let slen := length src in
  if (len =? 0)%nat then (dst, slen)
  else
    let copied := if (len <=? slen)%nat then (len - 1)%nat else slen in
    (<[copied := chr_NUL]> (memcpy_at dst 0 src copied), slen).

(** [while (left-- != 0 && *df != '\0') df++]: the offset of [df]. *)
Fixpoint strlcat_scan (dst : bytes) (lft : nat) : nat :=
  match lft, dst with
  | S lft, c :: dst => if c =? chr_NUL then O else S (strlcat_scan dst lft)
  | _, _ => O
  end.

Definition strlcat (dst src : bytes) (dstsize : nat) : bytes * nat :=
  let l2 := length src in
  let l1 := strlcat_scan dst dstsize in
  if (dstsize =? l1)%nat then (dst, (l1 + l2)%nat)
  else
    let copied := if (dstsize <=? l1 + l2)%nat then (dstsize - l1 - 1)%nat else l2 in
    (<[(l1 + copied)%nat := chr_NUL]> (memcpy_at dst l1 src copied), (l1 + l2)%nat).

(** ** Escapes: termination, bounds and round trip *)

Lemma hex_loop_length p x : (length (snd (hex_loop p x)) <= length p)%nat.
Proof.
  revert x; induction p as [|c p IH]; intros x; simpl; [lia|].
  repeat case_match; simpl; try lia; (etransitivity; [apply IH|lia]).
Qed.

Lemma stresc2chr_step_length esc c p :
  let '(w, esc', p') := stresc2chr_step esc c p in
  (length p' <= length p)%nat /\
  (length w + length p' + (if esc' then 1 else 0) <= S (length p) + (if esc then 1 else 0))%nat.
Proof.
  unfold stresc2chr_step.
  pose proof (hex_loop_length p 0) as Hh. destruct (hex_loop p 0) as [x p2].
  simpl in Hh. destruct esc.
  - destruct p as [|d1 [|d2 p]]; repeat case_match; simplify_eq; simpl in *; lia.
  - repeat case_match; simplify_eq; simpl; lia.
Qed.

(** With more fuel than bytes left the loop terminates, and it never stores
    more than it has read: [q] stays behind [p]. *)
Lemma stresc2chr_loop_total fuel esc p :
  (length p < fuel)%nat ->
  exists o, stresc2chr_loop fuel esc p = Some o /\
    (length o <= length p + if esc then 1 else 0)%nat.
Proof.
  revert esc p; induction fuel as [|fuel IH]; intros esc [|c p] Hf; simpl in *; try lia.
  - exists []. split; [done|simpl; lia].
  - pose proof (stresc2chr_step_length esc c p) as Hs.
    destruct (stresc2chr_step esc c p) as [[w esc'] p']. destruct Hs as [Hp Hw].
    destruct (IH esc' p') as (o & -> & Ho); [lia|]. simpl.
    eexists; split; [done|]. rewrite length_app. destruct esc'; lia.
Qed.

Lemma stresc2chr_loop_mono fuel fuel' esc p o :
  (fuel <= fuel')%nat -> stresc2chr_loop fuel esc p = Some o ->
  stresc2chr_loop fuel' esc p = Some o.
Proof.
  revert fuel' esc p o; induction fuel as [|fuel IH]; intros [|fuel'] esc [|c p] o Hle;
    simpl; try done; try lia.
  destruct (stresc2chr_step esc c p) as [[w esc'] p'].
  destruct (stresc2chr_loop fuel esc' p') as [o'|] eqn:E; [|done]. simpl. intros [= <-].
  rewrite (IH fuel' _ _ _ ltac:(lia) E). done.
Qed.

Lemma stresc2chr_by_loop fuel p o :
  stresc2chr_loop fuel false p = Some o -> stresc2chr p = Some o.
Proof.
  intros H. unfold stresc2chr.
  destruct (stresc2chr_loop_total (S (length p)) false p) as (o' & Ho & _); [lia|].
  rewrite Ho. f_equal.
  apply (stresc2chr_loop_mono _ (fuel + S (length p))) in H; [|lia].
  apply (stresc2chr_loop_mono _ (fuel + S (length p))) in Ho; [|lia]. congruence.
Qed.

Definition is_byte (c : Z) : Prop := 0 <= c < 256.

(** The escaped form of one byte. *)
Definition esc_char (c : Z) : bytes :=
  match esc_simple c with
  | Some e => [chr_bslash; e]
  | None =>
      if c =? chr_space then [c]
      else if (c <? chr_bang) || (chr_tilde <? c) then
        [chr_bslash; Z.land (Z.shiftr c 6) 3 + chr_0;
         Z.land (Z.shiftr c 3) 7 + chr_0; Z.land c 7 + chr_0]
      else [c]
  end.

(** The bytes of [s] up to and including the first NUL. *)
Fixpoint upto_nul (s : bytes) : bytes :=
  match s with
  | [] => []
  | c :: s => c :: if c =? chr_NUL then [] else upto_nul s
  end.

Lemma esc_loop_cons c s :
  esc_loop (c :: s) = esc_char c ++ if c =? chr_NUL then [] else esc_loop s.
Proof. reflexivity. Qed.

(** Reading one escaped byte back, whatever follows it. *)
Definition reads_back (c : Z) : Prop :=
  forall p, match esc_char c with
    | [x] => x = c /\ (c =? chr_bslash) = false
    | b :: e :: r => b = chr_bslash /\ stresc2chr_step true e (r ++ p) = ([c], false, p)
    | [] => False
    end.

Lemma reads_back_all : Forall reads_back (Z.of_nat <$> seq 1 255).
Proof. cbn [fmap list_fmap seq]. repeat (constructor; [intros p; split; reflexivity|]). constructor. Qed.

Lemma reads_back_byte c : is_byte c -> c <> chr_NUL -> reads_back c.
Proof.
  intros Hb Hc. pose proof reads_back_all as Ha. rewrite Forall_forall in Ha. apply Ha.
  apply list_elem_of_fmap. exists (Z.to_nat c). unfold is_byte in Hb.
  split; [lia|]. apply elem_of_seq. lia.
Qed.

Lemma esc_loop_back s :
  Forall is_byte s -> exists fuel, stresc2chr_loop fuel false (esc_loop s) = Some (upto_nul s).
Proof.
  induction 1 as [|c s Hb Hs [fuel IH]]; [by exists 1%nat|].
  rewrite esc_loop_cons. cbn [upto_nul]. destruct (Z.eqb_spec c chr_NUL) as [->|Hc].
  { exists 3%nat. reflexivity. }
  pose proof (reads_back_byte c Hb Hc (esc_loop s)) as Hr.
  destruct (esc_char c) as [|b [|e r]]; [done|..].
  - destruct Hr as [-> Hbs]. exists (S fuel). cbn. rewrite Hbs, IH. done.
  - destruct Hr as [-> Hst]. exists (S (S fuel)). cbn [app stresc2chr_loop].
    cbn [stresc2chr_step]. cbn -[stresc2chr_step stresc2chr_loop].
    change (stresc2chr_step false chr_bslash (e :: r ++ esc_loop s))
      with ([] : bytes, true, e :: r ++ esc_loop s). cbn -[stresc2chr_step].
    rewrite Hst, IH. done.
Qed.

Lemma esc_loop_length s :
  Z.of_nat (length (esc_loop s)) <= Z.of_nat (length s) + esc_addl s.
Proof.
  induction s as [|c s IH]; [done|]. rewrite esc_loop_cons. unfold esc_char.
  cbn [esc_addl]. rewrite length_app. cbn [length].
  assert (0 <= esc_addl s) by
    (clear; induction s as [|c s IH]; cbn [esc_addl]; [lia|]; repeat case_match; lia).
  destruct (esc_simple c); repeat case_match; cbn [length]; lia.
Qed.

(** ** strhyphenate against its description *)

(** "converting any instances of __ to -". *)
Fixpoint hyphenated (s : bytes) : bytes :=
  match s with
  | c :: s' =>
      if c =? chr_uscore then
        match s' with
        | d :: s'' => if d =? chr_uscore then chr_hyphen :: hyphenated s'' else c :: hyphenated s'
        | [] => [c]
        end
      else c :: hyphenated s'
  | [] => []
  end.

Lemma memmove_shift pre (x : Z) t n :
  n = length t ->
  memmove (pre ++ x :: t) (length pre) (S (length pre)) n = pre ++ t ++ drop n (x :: t).
Proof.
  intros ->. unfold memmove. rewrite take_app_length.
  replace (S (length pre)) with (length pre + 1)%nat by lia.
  rewrite drop_app_add, drop_app_add. simpl. by rewrite drop_0, take_ge by lia.
Qed.

Lemma cstr_app_nonul a b : Forall (λ c, c <> chr_NUL) a -> cstr (a ++ b) = a ++ cstr b.
Proof.
  induction 1 as [|c a Hc Ha IH]; [done|]. simpl.
  destruct (Z.eqb_spec c chr_NUL); [done|]. by rewrite IH.
Qed.

Lemma lookup_mid pre (x : Z) t : (pre ++ x :: t) !! length pre = Some x.
Proof. by rewrite lookup_app_r, Nat.sub_diag by lia. Qed.

Lemma lookup_mid_S pre (x : Z) t : (pre ++ x :: t) !! S (length pre) = head t.
Proof.
  rewrite lookup_app_r by lia. replace (S (length pre) - length pre)%nat with 1%nat by lia.
  by destruct t.
Qed.

(** The memmove of one iteration, on a buffer of the string and its NULs. *)
Lemma hyphen_shift pre t k n :
  n = (length t + k + 1)%nat ->
  memmove (<[length pre := chr_hyphen]>
             (pre ++ chr_uscore :: chr_uscore :: t ++ replicate (S k) chr_NUL))
    (length pre + 1) (length pre + 2) n =
  (pre ++ [chr_hyphen]) ++ t ++ replicate (S (S k)) chr_NUL.
Proof.
  intros ->. rewrite insert_app_r_alt, Nat.sub_diag by lia. cbn [insert list_insert].
  pose proof (memmove_shift (pre ++ [chr_hyphen]) chr_uscore (t ++ replicate (S k) chr_NUL)
    (length t + k + 1)) as Hm.
  rewrite <- !app_assoc, !length_app, length_replicate in Hm. cbn [app length] in Hm.
  replace (S (length pre + 1)) with (length pre + 2)%nat in Hm by lia.
  rewrite Hm by lia. rewrite <- !app_assoc. do 2 f_equal. cbn [app]. f_equal.
  replace (length t + k + 1)%nat with (S (length t + k)) by lia. cbn [drop].
  rewrite drop_app_add, drop_replicate. replace (S k - k)%nat with 1%nat by lia.
  change (replicate (S (S k)) chr_NUL) with (replicate (1 + S k) chr_NUL).
  by rewrite Nat.add_comm, replicate_add.
Qed.

Lemma strhyphenate_loop_eq todo pre s k :
  Forall (λ c, c <> chr_NUL) s -> todo = (length s + k)%nat ->
  exists k', strhyphenate_loop todo (length pre) (pre ++ s ++ replicate (S k) chr_NUL) =
    pre ++ hyphenated s ++ replicate (S k') chr_NUL.
Proof.
  revert pre s k; induction todo as [|todo IH]; intros pre s k Hs Ht.
  { destruct s, k; simpl in Ht; try lia. by exists O. }
  cbn [strhyphenate_loop].
  assert (forall c t, Forall (λ c, c <> chr_NUL) t -> todo = (length t + k)%nat -> exists k',
    strhyphenate_loop todo (S (length pre)) (pre ++ (c :: t) ++ replicate (S k) chr_NUL) =
      pre ++ (c :: hyphenated t) ++ replicate (S k') chr_NUL) as Hkeep.
  { intros c t Hf Hl. destruct (IH (pre ++ [c]) t k Hf Hl) as [k' Hk].
    rewrite <- !app_assoc, length_app, Nat.add_1_r in Hk. exists k'. exact Hk. }
  destruct s as [|c [|d t]].
  - destruct k as [|k]; [simpl in Ht; lia|]. cbn [app].
    change (replicate (S (S k)) chr_NUL) with (chr_NUL :: replicate (S k) chr_NUL).
    rewrite lookup_mid. cbn [bool_decide andb].
    destruct (IH (pre ++ [chr_NUL]) [] k) as [k' Hk]; [done|simpl in *; lia|].
    rewrite <- !app_assoc, length_app, Nat.add_1_r in Hk. exists (S k').
    rewrite bool_decide_false by done. exact Hk.
  - cbn [app]. rewrite lookup_mid, lookup_mid_S. cbn [replicate head].
    rewrite (bool_decide_false (Some chr_NUL = _)), andb_false_r by done.
    destruct (Hkeep c []) as [k' Hk]; [done|simpl in *; lia|]. exists k'.
    cbn [hyphenated]. destruct (c =? chr_uscore); exact Hk.
  - apply Forall_cons in Hs as [Hc Hs]. pose proof Hs as Hs2. apply Forall_cons in Hs2 as [Hd Hs2].
    cbn [app]. rewrite lookup_mid, lookup_mid_S. cbn [head hyphenated].
    destruct (Z.eqb_spec c chr_uscore) as [->|Hcu]; [destruct (Z.eqb_spec d chr_uscore) as [->|Hdu]|].
    + rewrite !bool_decide_true by done. cbn [andb].
      rewrite (hyphen_shift pre t k) by (simpl in Ht; lia).
      destruct (IH (pre ++ [chr_hyphen]) t (S k)) as [k' Hk]; [done|simpl in Ht; lia|].
      rewrite length_app, Nat.add_1_r in Hk. exists k'. rewrite Hk. by rewrite <- app_assoc.
    + rewrite (bool_decide_false (Some d = _)), andb_false_r by congruence.
      destruct (Hkeep chr_uscore (d :: t)) as [k' Hk]; [done|simpl in *; lia|].
      exists k'. cbn [hyphenated] in Hk. apply Z.eqb_neq in Hdu. rewrite Hdu in Hk. exact Hk.
    + rewrite (bool_decide_false (Some c = _)) by congruence. cbn [andb].
      apply (Hkeep c (d :: t)); [done|simpl in *; lia].
Qed.

Lemma hyphenated_nonul s :
  Forall (λ c, c <> chr_NUL) s -> Forall (λ c, c <> chr_NUL) (hyphenated s).
Proof.
  enough ((Forall (λ c, c <> chr_NUL) s -> Forall (λ c, c <> chr_NUL) (hyphenated s)) /\
    forall c, Forall (λ c, c <> chr_NUL) (c :: s) ->
      Forall (λ c, c <> chr_NUL) (hyphenated (c :: s))) by tauto.
  induction s as [|d s [IH1 IH2]].
  - split; [done|]. intros c. cbn. by destruct (c =? chr_uscore).
  - split; [apply IH2|]. intros c [Hc Hs]%Forall_cons. specialize (IH2 d Hs).
    apply Forall_cons in Hs as [Hd Hs].
    remember (hyphenated (d :: s)) as hd eqn:Hhd. cbn [hyphenated]. cbn [hyphenated] in Hhd.
    rewrite <- Hhd. repeat case_match; constructor; auto; done.
Qed.

(** ** strrchr and strrstr *)

Lemma strrchr_None s c : c <> chr_NUL -> strrchr s c = None <-> c ∉ s.
Proof.
  intros Hc. induction s as [|d s IH]; simpl.
  - apply Z.eqb_neq in Hc. rewrite Hc. split; [set_solver|done].
  - destruct (strrchr s c) as [r|].
    + split; [done|]. intros Hn. exfalso. assert (Some r = None); [|done]. apply IH. set_solver.
    + rewrite not_elem_of_cons. destruct (Z.eqb_spec d c) as [->|Hd]; [naive_solver|].
      split; [|done]. intros _. split; [congruence|]. by apply IH.
Qed.

Lemma strrchr_Some s c r :
  c <> chr_NUL -> strrchr s c = Some r -> exists pre t, s = pre ++ r /\ r = c :: t /\ c ∉ t.
Proof.
  intros Hc. revert r; induction s as [|d s IH]; simpl; intros r.
  - apply Z.eqb_neq in Hc. by rewrite Hc.
  - destruct (strrchr s c) as [r'|] eqn:E.
    + intros [= <-]. destruct (IH r' eq_refl) as (pre & t & -> & -> & Ht).
      by exists (d :: pre), t.
    + destruct (Z.eqb_spec d c) as [->|]; [|done]. intros [= <-].
      exists [], s. split_and!; try done. by apply strrchr_None.
Qed.

Definition occurs_at (h needle : bytes) (i : nat) : Prop := has_prefix (drop i h) needle = true.

Lemma strstr_from_spec s needle off :
  match strstr_from s needle off with
  | Some j => exists i, j = (off + i)%nat /\ (i <= length s)%nat /\ occurs_at s needle i /\
                forall i', (i' < i)%nat -> ~ occurs_at s needle i'
  | None => forall i, ~ occurs_at s needle i
  end.
Proof.
  unfold occurs_at. revert off; induction s as [|c s IH]; intros off; cbn [strstr_from length].
  - destruct (has_prefix [] needle) eqn:E.
    + exists O. split; [lia|]. split; [lia|]. split; [done|lia].
    + intros i. by rewrite drop_nil, E.
  - destruct (has_prefix (c :: s) needle) eqn:E.
    + exists O. split; [lia|]. split; [lia|]. split; [done|lia].
    + specialize (IH (S off)). destruct (strstr_from s needle (S off)) as [j|].
      * destruct IH as (i & -> & Hi & Ho & Hmin). exists (S i).
        split; [lia|]. split; [lia|]. split; [done|]. intros [|i'] Hi'; cbn [drop]; [congruence|].
        apply Hmin. lia.
      * intros [|i]; cbn [drop]; [congruence|apply IH].
Qed.

Lemma has_prefix_nonempty needle : needle <> [] -> has_prefix [] needle = false.
Proof. by destruct needle. Qed.

Lemma occurs_at_bound h needle i : needle <> [] -> occurs_at h needle i -> (i < length h)%nat.
Proof.
  unfold occurs_at. intros Hn Ho. destruct (decide (i < length h)%nat); [done|].
  rewrite drop_ge, has_prefix_nonempty in Ho by (done || lia). done.
Qed.

(** The loop finds the last occurrence at or after [s], [prev] when there is none. *)
Lemma strrstr_loop_spec fuel h needle s prev :
  needle <> [] -> (length h + 1 < fuel + s)%nat -> (s <= length h)%nat ->
  (strrstr_loop fuel h needle s prev = Some prev /\
   forall i, (s <= i)%nat -> ~ occurs_at h needle i) \/
  exists i, strrstr_loop fuel h needle s prev = Some (Some i) /\ (s <= i)%nat /\
    occurs_at h needle i /\ forall i', (i < i')%nat -> ~ occurs_at h needle i'.
Proof.
  intros Hn. revert s prev; induction fuel as [|fuel IH]; intros s prev Hf Hs; [lia|].
  cbn [strrstr_loop]. pose proof (strstr_from_spec (drop s h) needle s) as Hst.
  unfold occurs_at in *.
  destruct (strstr_from (drop s h) needle s) as [j|].
  - destruct Hst as (i & -> & _ & Ho & Hmin). rewrite drop_drop in Ho.
    pose proof (occurs_at_bound h needle _ Hn Ho) as Hb.
    destruct (IH (S (s + i)) (Some (s + i)%nat)) as [[-> Hnone]|(i' & -> & Hge & Ho' & Hmax)];
      [lia..| |].
    + right. exists (s + i)%nat. split; [done|]. split; [lia|]. split; [done|].
      intros i' Hi'. apply Hnone. lia.
    + right. exists i'. split; [done|]. split; [lia|]. by split.
  - left. split; [done|]. intros i Hi. specialize (Hst (i - s)%nat).
    rewrite drop_drop in Hst. by replace (s + (i - s))%nat with i in Hst by lia.
Qed.

(** ** Properties *)

(** C39: unescaping what [strchr2esc] produced gives the original bytes back,
    up to and including the first NUL, for every byte value. *)
Theorem esc_roundtrip malloc_ok s e :
  Forall is_byte s -> strchr2esc malloc_ok s = Some e -> stresc2chr e = Some (upto_nul s).
Proof.
  intros Hs. unfold strchr2esc. case_match; [|done]. intros [= <-].
  destruct (esc_loop_back s Hs) as [fuel Hf]. by apply stresc2chr_by_loop in Hf.
Qed.

Lemma esc_roundtrip_witness :
  stresc2chr [92; 110; 92; 51; 55; 55; 120; 92; 48] = Some (upto_nul [10; 255; 120; 0; 65]).
Proof.
  apply (esc_roundtrip (λ _, true) [10; 255; 120; 0; 65]);
    [repeat constructor; done|vm_compute; reflexivity].
Defined.

(** [strchr2esc] never writes past the block it allocates (the escaped
    bytes and the NUL fit in [n + addl + 1] bytes), and [stresc2chr] terminates
    on every string and never stores more bytes than it has read, so that its
    in-place transformation does not overtake the bytes still to be read. *)
Theorem esc_buffers_suffice s :
  Z.of_nat (length (esc_loop s)) + 1 <= Z.of_nat (length s) + esc_addl s + 1 /\
  exists o, stresc2chr s = Some o /\ (length o <= length s)%nat.
Proof.
  split; [pose proof (esc_loop_length s); lia|].
  destruct (stresc2chr_loop_total (S (length s)) false s) as (o & Ho & Hl); [lia|].
  exists o. split; [exact Ho|lia].
Qed.

(** The in-place [strhyphenate] computes the replacement of every
    non-overlapping [__] by [-], from left to right. *)
Theorem strhyphenate_eq s :
  Forall (λ c, c <> chr_NUL) s -> strhyphenate s = hyphenated s.
Proof.
  intros Hs. unfold strhyphenate.
  destruct (strhyphenate_loop_eq (length s) [] s 0 Hs) as [k' Hk]; [lia|].
  cbn [app length replicate] in Hk. rewrite Hk, cstr_app_nonul by (by apply hyphenated_nonul).
  cbn. by rewrite app_nil_r.
Qed.

Lemma strhyphenate_witness : strhyphenate [97; 95; 95; 95; 98; 95; 95] = [97; 45; 95; 98; 45].
Proof. rewrite strhyphenate_eq; [reflexivity|repeat constructor; done]. Defined.

(** For a non-empty needle [strrstr] terminates and returns the offset of
    its last occurrence, NULL when there is none; [strbasename] returns what
    follows the last slash. *)
Theorem strrstr_last h needle :
  needle <> [] ->
  exists r, strrstr h needle = Some r /\
  match r with
  | Some i => occurs_at h needle i /\ forall i', (i < i')%nat -> ~ occurs_at h needle i'
  | None => forall i, ~ occurs_at h needle i
  end /\
  exists pre, h = pre ++ strbasename h /\ chr_slash ∉ strbasename h /\
    (pre = [] \/ last pre = Some chr_slash).
Proof.
  intros Hn.
  assert (exists pre, h = pre ++ strbasename h /\ chr_slash ∉ strbasename h /\
    (pre = [] \/ last pre = Some chr_slash)) as Hb.
  { unfold strbasename. destruct (strrchr h chr_slash) as [p|] eqn:E.
    - apply strrchr_Some in E as (pre & t & -> & -> & Ht); [|done].
      exists (pre ++ [chr_slash]). rewrite last_snoc. cbn [tail].
      rewrite <- app_assoc. split_and!; [done..|by right].
    - apply strrchr_None in E; [|done]. exists []. split_and!; [done..|by left]. }
  unfold strrstr.
  destruct (strrstr_loop_spec (S (S (length h))) h needle 0 None Hn) as [[Hr Ho]|(i & Hr & _ & Ho & Hm)];
    [lia..| |]; rewrite Hr; eexists; split; try reflexivity; split; try done.
  intros i. apply Ho. lia.
Qed.

Lemma strrstr_witness :
  exists r, strrstr [97; 47; 98; 47; 99] [47] = Some r /\
  match r with
  | Some i => occurs_at [97; 47; 98; 47; 99] [47] i /\
              forall i', (i < i')%nat -> ~ occurs_at [97; 47; 98; 47; 99] [47] i'
  | None => forall i, ~ occurs_at [97; 47; 98; 47; 99] [47] i
  end /\
  exists pre, [97; 47; 98; 47; 99] = pre ++ strbasename [97; 47; 98; 47; 99] /\
    chr_slash ∉ strbasename [97; 47; 98; 47; 99] /\ (pre = [] \/ last pre = Some chr_slash).
Proof. apply (strrstr_last [97; 47; 98; 47; 99] [47]). discriminate. Defined.

(** ** strlcpy and strlcat *)

Lemma length_memcpy_at buf off src n :
  (off + n <= length buf)%nat -> (n <= length src)%nat ->
  length (memcpy_at buf off src n) = length buf.
Proof.
  intros. unfold memcpy_at. rewrite !length_app, !length_take, length_drop. lia.
Qed.

Lemma cstr_terminated a b :
  Forall (λ c, c <> chr_NUL) a -> cstr (a ++ chr_NUL :: b) = a.
Proof. intros. rewrite cstr_app_nonul by done. simpl. by rewrite app_nil_r. Qed.

(** A copy of [n] bytes at [off], terminated. *)
Lemma memcpy_at_terminated buf off src n :
  (off + n < length buf)%nat -> (n <= length src)%nat ->
  exists b, length b = (length buf - off - n - 1)%nat /\
    b = drop (off + n + 1) buf /\
    <[(off + n)%nat := chr_NUL]> (memcpy_at buf off src n) =
      take off buf ++ take n src ++ chr_NUL :: b.
Proof.
  intros Hl Hn. exists (drop (off + n + 1) buf).
  split; [rewrite length_drop; lia|]. split; [done|]. unfold memcpy_at.
  destruct (drop (off + n) buf) as [|x b] eqn:E.
  { apply (f_equal length) in E. rewrite length_drop in E. simpl in E. lia. }
  assert (drop (off + n + 1) buf = b) as ->.
  { rewrite <- drop_drop, E. simpl. apply drop_0. }
  rewrite app_assoc, insert_app_r_alt; rewrite length_app, !length_take; [|lia].
  replace (off + n - (off `min` length buf + n `min` length src))%nat with O by lia.
  simpl. by rewrite <- app_assoc.
Qed.

Lemma strlcat_scan_eq dst n : strlcat_scan dst n = (length (cstr (take n dst)))%nat.
Proof.
  revert n; induction dst as [|c dst IH]; intros [|n]; simpl; try done.
  destruct (c =? chr_NUL); simpl; [done|]. by rewrite IH.
Qed.

Lemma cstr_take_prefix dst n :
  (length (cstr (take n dst)) < n)%nat -> (n <= length dst)%nat ->
  exists b, dst = cstr (take n dst) ++ chr_NUL :: b /\ Forall (λ c, c <> chr_NUL) (cstr (take n dst)).
Proof.
  revert n; induction dst as [|c dst IH]; intros [|n] Hl Hn; simpl in *; try lia.
  destruct (Z.eqb_spec c chr_NUL) as [->|Hc]; simpl in *; [by exists dst|].
  destruct (IH n) as (b & Hb & Hf); [lia..|]. exists b. split; [by rewrite <- Hb|].
  by constructor.
Qed.

(** [strlcpy] and [strlcat] never write at or past the given size, always
    leave a terminated string when there is room for the NUL, store the longest
    prefix that fits, and return the length of the string they tried to create;
    [strlcat] leaves a destination without NUL in its first [dstsize] bytes
    alone. *)
Theorem strl_bounded dst src size :
  (0 < size <= length dst)%nat -> Forall (λ c, c <> chr_NUL) src ->
  (let '(dst', r) := strlcpy dst src size in
   cstr dst' = take (size - 1) src /\ r = length src /\
   drop size dst' = drop size dst /\ length dst' = length dst) /\
  (let old := cstr (take size dst) in
   let '(dst', r) := strlcat dst src size in
   r = (length old + length src)%nat /\
   drop size dst' = drop size dst /\ length dst' = length dst /\
   if (length old =? size)%nat then dst' = dst
   else cstr dst' = take (size - 1) (old ++ src)).
Proof.
  intros Hsz Hsrc. split.
  - unfold strlcpy. destruct (Nat.eqb_spec size 0); [lia|].
    set (copied := if (size <=? length src)%nat then (size - 1)%nat else length src).
    assert (copied = (size - 1) `min` length src)%nat as Hc
      by (unfold copied; destruct (Nat.leb_spec size (length src)); lia).
    destruct (memcpy_at_terminated dst 0 src copied) as (b & Hb & Hbd & Heq); [lia..|].
    cbn [Nat.add] in Heq. rewrite Heq. rewrite take_0, app_nil_l.
    assert (take copied src = take (size - 1) src) as Ht.
    { destruct (decide (length src <= size - 1)%nat).
      - rewrite !take_ge by lia. done.
      - f_equal. lia. }
    rewrite cstr_terminated by (by apply Forall_take).
    split; [done|]. split; [done|]. split.
    + replace size with (length (take copied src) + (S (size - 1 - copied)))%nat at 1
        by (rewrite length_take; lia).
      rewrite drop_app_add. cbn [drop]. rewrite Hbd, drop_drop. f_equal. lia.
    + rewrite length_app, length_take. simpl. lia.
  - cbn zeta. unfold strlcat. rewrite strlcat_scan_eq.
    set (old := cstr (take size dst)). set (l1 := length old).
    assert (l1 <= size)%nat as Hl1.
    { unfold l1, old. rewrite <- strlcat_scan_eq. generalize dst.
      clear. induction size as [|n IH]; intros [|c d]; simpl; try lia.
      destruct (c =? chr_NUL); [lia|]. specialize (IH d). lia. }
    rewrite (Nat.eqb_sym l1 size). destruct (Nat.eqb_spec size l1) as [|Hne]; [done|].
    destruct (cstr_take_prefix dst size) as (b0 & Hdst & Hold); [fold old l1; lia|lia|].
    fold old in Hdst, Hold.
    set (copied := if (size <=? l1 + length src)%nat then _ else _).
    assert (copied = (size - l1 - 1) `min` length src)%nat as Hc
      by (unfold copied; destruct (Nat.leb_spec size (l1 + length src)); lia).
    destruct (memcpy_at_terminated dst l1 src copied) as (b & Hb & Hbd & Heq); [lia..|].
    rewrite Heq.
    assert (take l1 dst = old) as Hto by (rewrite Hdst at 1; apply take_app_length).
    rewrite Hto, app_assoc.
    rewrite cstr_terminated by (apply Forall_app; split; [done|by apply Forall_take]).
    split; [done|]. split; [|split].
    + replace size with (length (old ++ take copied src) + (S (size - 1 - l1 - copied)))%nat at 1
        by (rewrite length_app, length_take; fold l1; lia).
      rewrite drop_app_add. cbn [drop]. rewrite Hbd, drop_drop. f_equal. lia.
    + rewrite !length_app, length_take. fold l1. simpl. lia.
    + rewrite take_app_ge by (fold l1; lia). fold l1. f_equal.
      destruct (decide (length src <= size - 1 - l1)%nat).
      * rewrite !take_ge by lia. done.
      * f_equal. lia.
Qed.

Lemma strl_bounded_witness :
  (let '(dst', r) := strlcpy [97; 0; 7; 8; 9] [98; 99; 100; 101] 4 in
   cstr dst' = [98; 99; 100] /\ r = 4%nat /\ drop 4 dst' = [9] /\ length dst' = 5%nat) /\
  (let '(dst', r) := strlcat [97; 0; 7; 8; 9] [98; 99; 100; 101] 4 in
   r = 5%nat /\ drop 4 dst' = [9] /\ length dst' = 5%nat /\ cstr dst' = [97; 98; 99]).
Proof.
  apply (strl_bounded [97; 0; 7; 8; 9] [98; 99; 100; 101] 4);
    [simpl; lia|repeat constructor; done].
Defined.

(** ** strcmp() of the C library *)

(** The sign of the difference of the first bytes that differ. *)
Fixpoint strcmp (s1 s2 : bytes) : Z :=
  match s1, s2 with
  | [], [] => 0
  | [], _ :: _ => -1
  | _ :: _, [] => 1
  | c1 :: s1, c2 :: s2 => if c1 <? c2 then -1 else if c2 <? c1 then 1 else strcmp s1 s2
  end.

#[export] Instance strcmp_ok : Comparison strcmp.
Proof.
  split.
  - induction x as [|a x IH]; intros [|b y]; simpl; try lia. repeat case_cmp; try lia. apply IH.
  - induction x as [|a x IH]; intros [|b y] [|c z]; simpl; try lia. repeat case_cmp; try lia; apply IH.
Qed.

Lemma strcmp_eq s1 s2 : strcmp s1 s2 = 0 <-> s1 = s2.
Proof.
  revert s2; induction s1 as [|a s1 IH]; intros [|b s2]; simpl; try (split; [lia|done]); [done|].
  repeat case_cmp; try (split; [lia|intros [= -> _]; lia]). assert (a = b) as -> by lia.
  rewrite IH. split; congruence.
Qed.

Lemma strcmp_sym s1 s2 : strcmp s1 s2 = 0 -> strcmp s2 s1 = 0.
Proof. rewrite !strcmp_eq. congruence. Qed.
