(* ===== verification/Htab.v ===== *)
(** * Generic hash tables (libcommon/dt_htab.c, libcommon/dt_htab.h)

    A slot of the table is a list of buckets, a bucket the list of the entries
    that are equal under [cmp], linked through the entries themselves.  A
    pointer to the head of such a list is the list reachable from it ([NULL] is
    the empty list); that the link functions of DEFINE_HE_STD_LINK_FUNCS
    implement the list operations on the heap is shown at the end. *)

From stdpp Require Import base gmap list numbers sets.
From S2P Require Import Prelude DtList.

(** ** str2hval *)

(** [chr c] is the value of a byte read through a [char *]: the byte itself
    where [char] is unsigned, its two's complement reading where it is signed. *)
Fixpoint str2hval (chr : Z -> Z) (p : list Z) (hval : Z) : Z :=
  match p with
  | [] => hval
  | c :: p =>
      let hval := u32 (u32 (Z.shiftl hval 4) + chr c) in
      let g := Z.land hval 4026531840 (* 0xf0000000 *) in
      let hval :=
        if negb (g =? 0) then Z.lxor (Z.lxor hval (Z.shiftr g 24)) g else hval in
      str2hval chr p hval
  end.

Definition char_unsigned (c : Z) : Z := c.
Definition char_signed (c : Z) : Z := if c <? 128 then c else c - 256.

(** ** The operations a client provides *)

(** [dt_htab_ops_t], with the link functions on the list a head pointer stands for. *)
Record htab_ops (E : Type) := HtabOps {
  op_hval : E -> Z;
  op_cmp : E -> E -> Z;
  op_add : list E -> E -> list E;
  op_del : list E -> E -> list E;
}.
Arguments HtabOps {E}.
Arguments op_hval {E}.
Arguments op_cmp {E}.
Arguments op_add {E}.
Arguments op_del {E}.

(** What the table relies on: [cmp] decides an equivalence that [hval]
    respects, [add] adds the entry and nothing else, [del] removes one entry
    of the list. *)
Class HtabOpsOk {E} `{EqDecision E} (ops : htab_ops E) : Prop := {
  hval_range e : 0 <= op_hval ops e < 2 ^ 32;
  cmp_refl e : op_cmp ops e e = 0;
  cmp_sym e1 e2 : op_cmp ops e1 e2 = 0 -> op_cmp ops e2 e1 = 0;
  cmp_trans e1 e2 e3 : op_cmp ops e1 e2 = 0 -> op_cmp ops e2 e3 = 0 -> op_cmp ops e1 e3 = 0;
  cmp_hval e1 e2 : op_cmp ops e1 e2 = 0 -> op_hval ops e1 = op_hval ops e2;
  add_perm l e : op_add ops l e ≡ₚ e :: l;
  del_perm l e : e ∈ l -> l ≡ₚ e :: op_del ops l e;
}.

Record dt_hbucket (E : Type) := HBucket {
  hb_hval : Z;
  hb_head : list E;
  hb_nentries : Z;
}.
Arguments HBucket {E}.
Arguments hb_hval {E}.
Arguments hb_head {E}.
Arguments hb_nentries {E}.

(** [size], [mask], [nbuckets] and the [nentries] of a bucket are ints, which the
    code does not check for overflow, and the [nentries] of the table a size_t.
    The fields are their values; [ints_fit] says that they are in range, and is
    part of what is shown of sequences of operations. *)
Record dt_htab (E : Type) := Htab {
  ht_tab : list (list (dt_hbucket E));
  ht_size : Z;
  ht_mask : Z;
  ht_nbuckets : Z;
  ht_nentries : Z;
}.
Arguments Htab {E}.
Arguments ht_tab {E}.
Arguments ht_size {E}.
Arguments ht_mask {E}.
Arguments ht_nbuckets {E}.
Arguments ht_nentries {E}.

Definition ENOMEM : Z := 12.
Definition ENOENT : Z := 2.

Section Ops.
Context {E : Type}.
Variable ops : htab_ops E.
Implicit Types htab : dt_htab E.

(** [ok_htab], [ok_tab]: success of the two allocations. *)
Definition dt_htab_create (ok_htab ok_tab : bool) : option (dt_htab E) :=
  if negb ok_htab then None
  else
    let size := 1 in
    if negb ok_tab then None
    else Some (Htab (replicate (Z.to_nat size) []) size (size - 1) 0 0).

(** The inner loop of [resize]: move the buckets of one slot, each to the
    front of its new slot. *)
Fixpoint rehash_slot (ntab : list (list (dt_hbucket E))) (nmask : Z)
    (bs : list (dt_hbucket E)) : list (list (dt_hbucket E)) :=
  match bs with
  | [] => ntab
  | b :: next =>
      let idx := Z.to_nat (Z.land (hb_hval b) nmask) in
      rehash_slot (<[idx := b :: default [] (ntab !! idx)]> ntab) nmask next
  end.

Definition resize (ok_calloc : bool) htab : Z * dt_htab E :=
  let nsize := Z.shiftl (ht_size htab) 1 in
  let nmask := nsize - 1 in
  if negb ok_calloc then (- ENOMEM, htab)
  else
    let ntab := foldl (λ ntab bs, rehash_slot ntab nmask bs)
                      (replicate (Z.to_nat nsize) []) (ht_tab htab) in
    (0, Htab ntab nsize nmask (ht_nbuckets htab) (ht_nentries htab)).

Definition bucket_matches (entry : E) (b : dt_hbucket E) : bool :=
  match hb_head b with
  | [] => false
  | h :: _ => op_cmp ops h entry =? 0
  end.

(** [for (bucket = htab->tab[idx]; bucket; bucket = bucket->next)
      if (cmp(bucket->head, entry) == 0)]: the buckets before the first match,
    the match and those after it. *)
Fixpoint find_bucket (entry : E) (bs : list (dt_hbucket E))
  : option (list (dt_hbucket E) * dt_hbucket E * list (dt_hbucket E)) :=
  match bs with
  | [] => None
  | b :: next =>
      if bucket_matches entry b then Some ([], b, next)
      else '(pre, m, post) ← find_bucket entry next; Some (b :: pre, m, post)
  end.

Definition slot_of htab (entry : E) : nat :=
  Z.to_nat (Z.land (op_hval ops entry) (ht_mask htab)).

(** The label [add]. *)
Definition bucket_add (entry : E) (b : dt_hbucket E) : dt_hbucket E :=
  HBucket (hb_hval b) (op_add ops (hb_head b) entry) (hb_nentries b + 1).

(** [oom n]: whether the allocation succeeds at the [n]th retry, of a larger
    table or of the bucket.  The result is [None] when the retries exceed the
    fuel. *)
Fixpoint dt_htab_insert_retry (fuel : nat) (ok_resize : nat -> bool) (ok_bucket : bool)
    htab (entry : E) : option (Z * dt_htab E) :=
  match fuel with
  | O => None
  | S fuel =>
      let idx := slot_of htab entry in
      let slot := default [] (ht_tab htab !! idx) in
      match find_bucket entry slot with
      | Some (pre, b, post) =>
          Some (0, Htab (<[idx := pre ++ bucket_add entry b :: post]> (ht_tab htab))
                     (ht_size htab) (ht_mask htab) (ht_nbuckets htab) (ht_nentries htab + 1))
      | None =>
          if ht_size htab <? Z.shiftr (ht_nbuckets htab) 1 then
            let '(err, htab) := resize (ok_resize fuel) htab in
            if negb (err =? 0) then Some (err, htab)
            else dt_htab_insert_retry fuel ok_resize ok_bucket htab entry
          else if negb ok_bucket then Some (- ENOMEM, htab)
          else
            let b := HBucket (op_hval ops entry) [] 0 in
            Some (0, Htab (<[idx := bucket_add entry b :: slot]> (ht_tab htab))
                       (ht_size htab) (ht_mask htab) (ht_nbuckets htab + 1)
                       (ht_nentries htab + 1))
      end
  end.

(** Two rounds are enough (see [dt_htab_insert_spec]). *)
Definition dt_htab_insert (ok_resize : nat -> bool) (ok_bucket : bool) htab (entry : E) :=
  dt_htab_insert_retry 2 ok_resize ok_bucket htab entry.

(** The head pointer of the matching bucket. *)
Definition dt_htab_lookup htab (entry : E) : list E :=
  let slot := default [] (ht_tab htab !! slot_of htab entry) in
  match find_bucket entry slot with
  | Some (_, b, _) => hb_head b
  | None => []
  end.

(** [cmpf] is the secondary comparison; the walk follows [next]. *)
Fixpoint htab_find_walk (cmpf : E -> bool) (ent : list E) : option E :=
  match ent with
  | [] => None
  | e :: next => if cmpf e then Some e else htab_find_walk cmpf next
  end.

Definition dt_htab_find htab (entry : E) (cmpf : E -> bool) : option E :=
  htab_find_walk cmpf (dt_htab_lookup htab entry).

Definition dt_htab_delete htab (entry : E) : Z * dt_htab E :=
  let idx := slot_of htab entry in
  let slot := default [] (ht_tab htab !! idx) in
  match find_bucket entry slot with
  | None => (- ENOENT, htab)
  | Some (pre, b, post) =>
      let head := op_del ops (hb_head b) entry in
      match head with
      | [] =>
          (0, Htab (<[idx := pre ++ post]> (ht_tab htab)) (ht_size htab) (ht_mask htab)
                (ht_nbuckets htab - 1) (ht_nentries htab - 1))
      | _ =>
          let b := HBucket (hb_hval b) head (hb_nentries b - 1) in
          (0, Htab (<[idx := pre ++ b :: post]> (ht_tab htab)) (ht_size htab) (ht_mask htab)
                (ht_nbuckets htab) (ht_nentries htab - 1))
      end
  end.

Definition dt_htab_entries htab : Z := ht_nentries htab.

(** ** Iteration *)

(** [dt_htab_next_t]: the slot, what is left of its buckets from the current
    one on, and what is left of that bucket's entries from the one to be
    returned next on. *)
Record dt_htab_next_t := HtabNext {
  it_idx : nat;
  it_bucket : list (dt_hbucket E);
  it_ent : list E;
  it_exhausted : bool;
}.

(** The loop over the buckets of one slot. *)
Fixpoint next_bucket (bs : list (dt_hbucket E)) (ent : list E)
  : option (list (dt_hbucket E) * list E) :=
  match bs with
  | [] => None
  | b :: next =>
      let ent := match ent with [] => hb_head b | _ :: r => r end in
      match ent with
      | [] => next_bucket next []
      | _ => Some (bs, ent)
      end
  end.

(** The loop over the slots, [todo] of which are left. *)
Fixpoint next_slot (todo : nat) (tab : list (list (dt_hbucket E))) (i : dt_htab_next_t)
  : dt_htab_next_t :=
  match todo with
  | O => HtabNext (it_idx i) (it_bucket i) (it_ent i) true
  | S todo =>
      let slot := default [] (tab !! it_idx i) in
      match slot with
      | [] => next_slot todo tab (HtabNext (S (it_idx i)) [] [] (it_exhausted i))
      | _ =>
          let bucket := match it_bucket i with [] => slot | bs => bs end in
          match next_bucket bucket (it_ent i) with
          | Some (bs, ent) => HtabNext (it_idx i) bs ent (it_exhausted i)
          | None => next_slot todo tab (HtabNext (S (it_idx i)) [] [] (it_exhausted i))
          end
      end
  end.

(** One cycle on an existing iterator: the entry to return (the head of
    [it_ent], [NULL] when there is none) and the iterator, [None] once freed. *)
Definition htab_next_cycle htab (i : dt_htab_next_t) : option E * option dt_htab_next_t :=
  if it_exhausted i then (None, None)
  else (head (it_ent i),
        Some (next_slot (Z.to_nat (ht_size htab) - it_idx i) (ht_tab htab) i)).

(** [dt_htab_next]: a fresh iterator first goes through one cycle, whose
    result is ignored. *)
Definition dt_htab_next (ok_calloc : bool) htab (it : option dt_htab_next_t)
  : option E * option dt_htab_next_t :=
  match it with
  | Some i => htab_next_cycle htab i
  | None =>
      if negb ok_calloc then (None, None)
      else match snd (htab_next_cycle htab (HtabNext 0 [] [] false)) with
           | Some i => htab_next_cycle htab i
           | None => (None, None)
           end
  end.
End Ops.

(** ** Well-formed tables *)

Section Spec.
Context {E : Type} `{EqDecision E} (ops : htab_ops E) `{!HtabOpsOk ops}.
Implicit Types (htab : dt_htab E) (b : dt_hbucket E) (bs : list (dt_hbucket E)) (e x : E).

Record bucket_good b : Prop := {
  bg_nonempty : hb_head b <> [];
  bg_hval e : e ∈ hb_head b -> op_hval ops e = hb_hval b;
  bg_cmp e e' : e ∈ hb_head b -> e' ∈ hb_head b -> op_cmp ops e e' = 0;
  bg_nentries : hb_nentries b = Z.of_nat (length (hb_head b));
}.

(** No entry of one bucket is equal to an entry of the other. *)
Definition buckets_sep b1 b2 : Prop :=
  forall e1 e2, e1 ∈ hb_head b1 -> e2 ∈ hb_head b2 -> op_cmp ops e1 e2 <> 0.

Definition all_buckets htab : list (dt_hbucket E) := concat (ht_tab htab).
Definition entries_of bs : list E := concat (hb_head <$> bs).
Definition entries htab : list E := entries_of (all_buckets htab).

Record buckets_wf bs : Prop := {
  bw_good : Forall bucket_good bs;
  bw_sep : ForallOrdPairs buckets_sep bs;
}.

Record htab_wf htab : Prop := {
  hw_size : exists k, 0 <= k /\ ht_size htab = 2 ^ k;
  hw_mask : ht_mask htab = ht_size htab - 1;
  hw_length : Z.of_nat (length (ht_tab htab)) = ht_size htab;
  hw_slot idx slot b : ht_tab htab !! idx = Some slot -> b ∈ slot ->
    Z.to_nat (Z.land (hb_hval b) (ht_mask htab)) = idx;
  hw_buckets : buckets_wf (all_buckets htab);
  hw_nbuckets : ht_nbuckets htab = Z.of_nat (length (all_buckets htab));
  hw_nentries : ht_nentries htab = Z.of_nat (length (entries htab));
  hw_load : Z.shiftr (ht_nbuckets htab) 1 <= ht_size htab + 1;
}.

Lemma buckets_sep_sym b1 b2 : buckets_sep b1 b2 -> buckets_sep b2 b1.
Proof. intros Hs e1 e2 H1 H2 Hc. apply (Hs e2 e1 H2 H1). by apply cmp_sym. Qed.

Lemma bw_sep_perm bs bs' :
  bs ≡ₚ bs' -> ForallOrdPairs buckets_sep bs -> ForallOrdPairs buckets_sep bs'.
Proof.
  induction 1 as [|b l l' HP IH|b1 b2 l|l1 l2 l3 _ IH1 _ IH2]; intros Hf.
  - done.
  - inversion_clear Hf as [|?? Hb Hl]. constructor; [|by apply IH].
    by rewrite <- HP.
  - inversion_clear Hf as [|?? Hb Hl]. inversion_clear Hl as [|?? Hb2 Hl2].
    apply Forall_cons in Hb as [H12 Hb]. constructor; [|by constructor].
    constructor; [by apply buckets_sep_sym|done].
  - auto.
Qed.

Lemma buckets_wf_perm bs bs' : bs ≡ₚ bs' -> buckets_wf bs -> buckets_wf bs'.
Proof.
  intros HP [Hg Hs]. split; [by rewrite <- HP|by eapply bw_sep_perm].
Qed.

#[export] Instance buckets_wf_proper : Proper (Permutation ==> iff) buckets_wf.
Proof. intros bs bs' HP. split; by apply buckets_wf_perm. Qed.

#[export] Instance entries_of_proper : Proper (Permutation ==> Permutation) entries_of.
Proof. intros bs bs' HP. unfold entries_of. by rewrite HP. Qed.

Lemma buckets_wf_cons b bs :
  buckets_wf (b :: bs) <-> bucket_good b /\ buckets_wf bs /\ Forall (buckets_sep b) bs.
Proof.
  split.
  - intros [Hg Hs]. apply Forall_cons in Hg as [Hb Hg]. inversion_clear Hs.
    split; [done|]. by split.
  - intros (Hb & [Hg Hs] & Hf). split; by constructor.
Qed.

Lemma entries_of_cons b bs : entries_of (b :: bs) = hb_head b ++ entries_of bs.
Proof. reflexivity. Qed.

(** ** Looking an entry up among buckets *)

Definition in_class b x : Prop := exists e, e ∈ hb_head b /\ op_cmp ops e x = 0.

Lemma bucket_matches_class b x :
  bucket_good b -> bucket_matches ops x b = true <-> in_class b x.
Proof.
  intros Hb. unfold bucket_matches, in_class.
  destruct (hb_head b) as [|h t] eqn:Hh; [split; [done|]; intros (e & He & _); set_solver|].
  rewrite Z.eqb_eq. split.
  - intros Hc. exists h. split; [set_solver|done].
  - intros (e & He & Hc). eapply cmp_trans; [|exact Hc].
    apply (bg_cmp _ Hb); rewrite Hh; set_solver.
Qed.

(** The list of entries equal to [x] among [bs]. *)
Definition chain_is bs x (c : list E) : Prop :=
  (exists b, b ∈ bs /\ in_class b x /\ c = hb_head b) \/
  ((forall b, b ∈ bs -> ~ in_class b x) /\ c = []).

#[export] Instance chain_is_proper : Proper (Permutation ==> eq ==> eq ==> iff) chain_is.
Proof.
  intros bs bs' HP x ? <- c ? <-. unfold chain_is. by setoid_rewrite HP.
Qed.

Lemma in_class_sep b1 b2 x : buckets_sep b1 b2 -> in_class b1 x -> ~ in_class b2 x.
Proof.
  intros Hs (e1 & H1 & C1) (e2 & H2 & C2). apply (Hs e1 e2 H1 H2).
  eapply cmp_trans; [exact C1|]. by apply cmp_sym.
Qed.

Lemma chain_is_cons b bs x c :
  buckets_wf (b :: bs) ->
  chain_is (b :: bs) x c <-> (in_class b x /\ c = hb_head b) \/ (~ in_class b x /\ chain_is bs x c).
Proof.
  intros (Hb & Hw & Hs)%buckets_wf_cons. rewrite Forall_forall in Hs.
  assert (in_class b x -> forall b', b' ∈ bs -> ~ in_class b' x) as Hex.
  { intros Hc b' Hb'. by apply (in_class_sep b); [apply Hs|]. }
  assert (in_class b x \/ ~ in_class b x) as Hdec.
  { destruct (bucket_matches ops x b) eqn:Hm.
    - left. by apply bucket_matches_class.
    - right. intros Hc. apply bucket_matches_class in Hc; [congruence|done]. }
  unfold chain_is. setoid_rewrite elem_of_cons. split.
  - intros [(b' & [->|Hb'] & Hc & ->)|[Hn ->]]; [by left| |].
    + right. split; [intros Hc'; by apply (Hex Hc' b')|]. left. eauto.
    + right. split; [by apply Hn; left|]. right. split; [|done]. intros; apply Hn; auto.
  - intros [[Hc ->]|(Hn & [(b' & Hb' & Hc & ->)|[Hn' ->]])].
    + left. exists b. auto.
    + left. exists b'. auto.
    + right. split; [|done]. intros b' [->|Hb']; auto.
Qed.

Lemma chain_is_fun bs x c c' : buckets_wf bs -> chain_is bs x c -> chain_is bs x c' -> c = c'.
Proof.
  revert c c'; induction bs as [|b bs IH]; intros c c' Hw H1 H2.
  - destruct H1 as [(b & Hb & _)|[_ ->]]; [set_solver|].
    destruct H2 as [(b & Hb & _)|[_ ->]]; [set_solver|done].
  - rewrite chain_is_cons in H1, H2 by done. apply buckets_wf_cons in Hw as (_ & Hw & _).
    naive_solver.
Qed.

Lemma find_bucket_Some x bs pre b post :
  find_bucket ops x bs = Some (pre, b, post) ->
  bs = pre ++ b :: post /\ bucket_matches ops x b = true.
Proof.
  revert pre; induction bs as [|a bs IH]; intros pre; simpl; [done|].
  destruct (bucket_matches ops x a) eqn:Hm; intros; simplify_eq; [done|].
  destruct (find_bucket ops x bs) as [[[pre' m] post']|]; simplify_eq/=.
  destruct (IH pre' eq_refl) as [-> ?]. done.
Qed.

Lemma find_bucket_None x bs :
  find_bucket ops x bs = None -> forall b, b ∈ bs -> bucket_matches ops x b = false.
Proof.
  induction bs as [|a bs IH]; simpl; [set_solver|].
  destruct (bucket_matches ops x a) eqn:Hm; [done|].
  destruct (find_bucket ops x bs) as [[[??]?]|]; [done|]. intros _ b [->|Hb]%elem_of_cons; auto.
Qed.

(** ** One bucket changes *)

Lemma bucket_add_good e b :
  (hb_head b = [] /\ hb_hval b = op_hval ops e /\ hb_nentries b = 0) \/
  (bucket_good b /\ in_class b e) ->
  bucket_good (bucket_add ops e b) /\
  (forall x, in_class (bucket_add ops e b) x <-> op_cmp ops e x = 0).
Proof.
  intros Hb. unfold bucket_add.
  assert (hb_hval b = op_hval ops e /\ hb_nentries b = Z.of_nat (length (hb_head b)) /\
    forall e', e' ∈ hb_head b -> op_cmp ops e e' = 0) as (Hh & Hn & Hc).
  { destruct Hb as [(Hh & -> & ->)|[Hg (y & Hy & Hc)]].
    - rewrite Hh. split_and!; [done..|set_solver].
    - split_and!.
      + rewrite <- (bg_hval _ Hg y Hy). by apply cmp_hval.
      + apply Hg.
      + intros e' He'. eapply cmp_trans; [apply cmp_sym; exact Hc|]. by apply Hg. }
  assert (forall e', e' ∈ op_add ops (hb_head b) e <-> e' = e \/ e' ∈ hb_head b) as Hel.
  { intros e'. by rewrite add_perm, elem_of_cons. }
  assert (forall e', e' ∈ op_add ops (hb_head b) e -> op_cmp ops e e' = 0) as Hall.
  { intros e' [->|He']%Hel; [apply cmp_refl|by apply Hc]. }
  split; [split|]; simpl.
  - intros Hnil. pose proof (add_perm (ops:=ops) (hb_head b) e) as HP. rewrite Hnil in HP.
    by apply Permutation_nil_cons in HP.
  - intros e' He'. rewrite Hh. symmetry. by apply cmp_hval, Hall.
  - intros e1 e2 H1 H2. eapply cmp_trans; [apply cmp_sym|]; by apply Hall.
  - rewrite (add_perm (ops:=ops)). simpl. lia.
  - intros x. unfold in_class. simpl. split.
    + intros (y & Hy & Hyx). eapply cmp_trans; [by apply Hall|done].
    + intros Hx. exists e. split; [apply Hel; by left|done].
Qed.

Lemma buckets_sep_class b b' bs :
  (forall x, in_class b' x -> in_class b x) -> buckets_wf (b :: bs) -> Forall (buckets_sep b') bs.
Proof.
  intros Hsub (Hb & _ & Hs)%buckets_wf_cons. rewrite Forall_forall in *.
  intros b2 Hb2 e1 e2 H1 H2 Hc.
  assert (in_class b e1) as Hi by (apply Hsub; exists e1; split; [done|apply cmp_refl]).
  assert (in_class b e2) as Hi2.
  { destruct Hi as (y & Hy & Hyc). exists y. split; [done|]. by eapply cmp_trans. }
  apply (in_class_sep b b2 e2 (Hs _ Hb2) Hi2). exists e2. split; [done|apply cmp_refl].
Qed.

Lemma chain_add e b bs x c :
  buckets_wf (b :: bs) -> in_class b e ->
  buckets_wf (bucket_add ops e b :: bs) /\
  (chain_is (b :: bs) x c ->
   chain_is (bucket_add ops e b :: bs) x (if op_cmp ops e x =? 0 then op_add ops c e else c)).
Proof.
  intros Hw Hce. pose proof Hw as (Hb & Hw' & _)%buckets_wf_cons.
  destruct (bucket_add_good e b) as [Hg Hcl]; [by right|].
  assert (forall y, in_class (bucket_add ops e b) y <-> in_class b y) as Hsame.
  { intros y. rewrite Hcl. destruct Hce as (z & Hz & Hze). split.
    - intros. exists z. split; [done|]. by eapply cmp_trans.
    - intros (w & Hwb & Hwy). eapply cmp_trans; [apply cmp_sym, Hze|].
      eapply cmp_trans; [by apply (bg_cmp _ Hb z w)|done]. }
  assert (buckets_wf (bucket_add ops e b :: bs)) as Hwf.
  { apply buckets_wf_cons. split_and!; [done..|]. eapply buckets_sep_class; [|exact Hw].
    intros y. apply Hsame. }
  split; [done|]. rewrite !chain_is_cons by done. rewrite Hcl.
  destruct (Z.eqb_spec (op_cmp ops e x) 0) as [Hex|Hex].
  - intros [[_ ->]|[Hn _]]; [by left|]. exfalso. apply Hn, Hsame. by apply Hcl.
  - intros [[Hi _]|[Hn Hc]]; [exfalso; apply Hex, Hcl; by apply Hsame|]. by right.
Qed.

Lemma chain_new e bs x c :
  buckets_wf bs -> (forall b, b ∈ bs -> ~ in_class b e) ->
  let nb := bucket_add ops e (HBucket (op_hval ops e) [] 0) in
  buckets_wf (nb :: bs) /\
  (chain_is bs x c ->
   chain_is (nb :: bs) x (if op_cmp ops e x =? 0 then op_add ops c e else c)).
Proof.
  intros Hw Hnone nb.
  destruct (bucket_add_good e (HBucket (op_hval ops e) [] 0)) as [Hg Hcl]; [by left|].
  fold nb in Hg, Hcl.
  assert (buckets_wf (nb :: bs)) as Hwf.
  { apply buckets_wf_cons. split_and!; [done..|]. rewrite Forall_forall.
    intros b Hb e1 e2 H1 H2 Hc. apply (Hnone b Hb). exists e2. split; [done|].
    apply cmp_sym. eapply cmp_trans; [|exact Hc].
    apply Hcl. exists e1. split; [done|apply cmp_refl]. }
  split; [done|]. rewrite chain_is_cons, Hcl by done.
  destruct (Z.eqb_spec (op_cmp ops e x) 0) as [Hex|Hex]; [|by right].
  intros [(b & Hb & (y & Hy & Hyx) & _)|[_ ->]]; [|by left].
  exfalso. apply (Hnone b Hb). exists y. split; [done|].
  eapply cmp_trans; [exact Hyx|]. by apply cmp_sym.
Qed.

(** Removing [e] from its bucket, which disappears with its last entry. *)
Lemma chain_del e b bs x c :
  buckets_wf (b :: bs) -> e ∈ hb_head b ->
  let bs' := match op_del ops (hb_head b) e with
             | [] => bs
             | hd => HBucket (hb_hval b) hd (hb_nentries b - 1) :: bs
             end in
  buckets_wf bs' /\
  (chain_is (b :: bs) x c ->
   chain_is bs' x (if op_cmp ops e x =? 0 then op_del ops c e else c)).
Proof.
  intros Hw He. pose proof Hw as (Hb & Hw' & Hs)%buckets_wf_cons. rewrite Forall_forall in Hs.
  pose proof (del_perm (ops:=ops) _ _ He) as HP.
  assert (forall y, in_class b y <-> op_cmp ops e y = 0) as Hcl.
  { intros y. split.
    - intros (z & Hz & Hzy). eapply cmp_trans; [by apply (bg_cmp _ Hb e z)|done].
    - intros Hy. by exists e. }
  destruct (op_del ops (hb_head b) e) as [|h t] eqn:Hd; cbn zeta.
  { split; [done|]. rewrite chain_is_cons, Hcl by done.
    destruct (Z.eqb_spec (op_cmp ops e x) 0) as [Hex|Hex]; [|naive_solver].
    intros [[_ ->]|]; [|naive_solver]. rewrite Hd. right. split; [|done].
    intros b' Hb'. apply (in_class_sep b); [by apply Hs|by apply Hcl]. }
  set (nb := HBucket (hb_hval b) (h :: t) (hb_nentries b - 1)).
  assert (forall y, y ∈ hb_head nb -> y ∈ hb_head b) as Hsub.
  { intros y Hy. rewrite HP. simpl in *. set_solver. }
  assert (forall y, in_class nb y <-> in_class b y) as Hsame.
  { intros y. split; [intros (z & Hz & Hzy); exists z; auto|].
    intros Hy%Hcl. exists h. split; [simpl; set_solver|].
    eapply cmp_trans; [|exact Hy]. apply (bg_cmp _ Hb); [|done]. apply Hsub. simpl. set_solver. }
  assert (buckets_wf (nb :: bs)) as Hwf.
  { apply buckets_wf_cons. split_and!; [|done|eapply buckets_sep_class; [|exact Hw]; apply Hsame].
    split; simpl; [done|..].
    - intros y Hy. by apply (bg_hval _ Hb), Hsub.
    - intros y z Hy Hz. apply (bg_cmp _ Hb); by apply Hsub.
    - rewrite (bg_nentries _ Hb). apply Permutation_length in HP. rewrite HP. simpl. lia. }
  split; [done|]. rewrite !chain_is_cons, Hsame, Hcl by done.
  destruct (Z.eqb_spec (op_cmp ops e x) 0) as [Hex|Hex]; [|naive_solver].
  intros [[_ ->]|]; [|naive_solver]. left. split; [done|]. by rewrite Hd.
Qed.

(** ** Slots *)

Lemma concat_slot {A} (tab : list (list A)) idx slot :
  tab !! idx = Some slot ->
  exists rest, concat tab ≡ₚ slot ++ rest /\
    forall slot', concat (<[idx := slot']> tab) ≡ₚ slot' ++ rest.
Proof.
  intros Hi. exists (concat (take idx tab) ++ concat (drop (S idx) tab)).
  pose proof (lookup_lt_Some _ _ _ Hi) as Hl. split.
  - rewrite <- (take_drop_middle tab idx slot Hi) at 1. rewrite concat_app. cbn [concat].
    solve_Permutation.
  - intros slot'. rewrite insert_take_drop by done. rewrite concat_app. cbn [concat].
    solve_Permutation.
Qed.

Lemma land_mask_range k z : 0 <= k -> 0 <= z -> 0 <= Z.land z (2 ^ k - 1) < 2 ^ k.
Proof.
  intros. replace (2 ^ k - 1) with (Z.ones k) by (rewrite Z.ones_equiv; lia).
  rewrite Z.land_ones by lia. apply Z.mod_pos_bound, pow2_pos; lia.
Qed.

Lemma slot_of_lookup htab e :
  htab_wf htab -> exists slot, ht_tab htab !! slot_of ops htab e = Some slot.
Proof.
  intros [(k & Hk & Hsz) Hm Hl _ _ _ _ _]. apply lookup_lt_is_Some_2. unfold slot_of.
  pose proof (hval_range (ops:=ops) e). rewrite Hm, Hsz.
  pose proof (land_mask_range k (op_hval ops e)). lia.
Qed.

(** A bucket that holds an entry equal to [x] is in the slot of [x]. *)
Lemma in_class_slot htab x b slot :
  htab_wf htab -> ht_tab htab !! slot_of ops htab x = Some slot ->
  b ∈ all_buckets htab -> in_class b x -> b ∈ slot.
Proof.
  intros Hwf Hs Hb (e & He & Hc). unfold all_buckets in Hb.
  apply list_elem_of_In, in_concat in Hb as (slot' & Hs' & Hb).
  apply list_elem_of_In in Hs', Hb. apply list_elem_of_lookup in Hs' as [i Hi].
  pose proof (hw_slot _ Hwf i slot' b Hi Hb) as Hidx.
  assert (b ∈ all_buckets htab) as Hall.
  { apply list_elem_of_In, in_concat. exists slot'. split; apply list_elem_of_In; [|done].
    by eapply list_elem_of_lookup_2. }
  pose proof (bw_good _ (hw_buckets _ Hwf)) as Hg. rewrite Forall_forall in Hg.
  rewrite <- (bg_hval _ (Hg b Hall) e He), (cmp_hval _ _ Hc) in Hidx.
  unfold slot_of in Hs. rewrite Hidx in Hs. congruence.
Qed.

(** Lookup finds the bucket of the entry, if there is one. *)
Lemma dt_htab_lookup_chain htab x :
  htab_wf htab -> chain_is (all_buckets htab) x (dt_htab_lookup ops htab x).
Proof.
  intros Hwf. unfold dt_htab_lookup.
  destruct (slot_of_lookup htab x Hwf) as [slot Hs]. rewrite Hs. simpl.
  destruct (concat_slot _ _ _ Hs) as (rest & HP & _).
  pose proof (bw_good _ (hw_buckets _ Hwf)) as Hg. rewrite Forall_forall in Hg.
  assert (forall b, b ∈ slot -> b ∈ all_buckets htab) as Hin.
  { intros b Hb. unfold all_buckets. rewrite HP. set_solver. }
  destruct (find_bucket ops x slot) as [[[pre b] post]|] eqn:Hf.
  - apply find_bucket_Some in Hf as [-> Hm].
    left. exists b. assert (b ∈ all_buckets htab) by (apply Hin; set_solver).
    split_and!; [done|apply bucket_matches_class; auto|done].
  - right. split; [|done]. intros b Hb Hc.
    pose proof (in_class_slot _ _ _ _ Hwf Hs Hb Hc) as Hbs.
    pose proof (find_bucket_None _ _ Hf b Hbs). apply bucket_matches_class in Hc; [congruence|auto].
Qed.

(** The buckets of a table around the slot of an entry. *)
Lemma find_bucket_view htab x slot :
  htab_wf htab -> ht_tab htab !! slot_of ops htab x = Some slot ->
  match find_bucket ops x slot with
  | Some (pre, b, post) =>
      exists rest, slot = pre ++ b :: post /\ in_class b x /\
        all_buckets htab ≡ₚ b :: pre ++ post ++ rest /\
        forall slot', concat (<[slot_of ops htab x := slot']> (ht_tab htab)) ≡ₚ slot' ++ rest
  | None =>
      exists rest, (forall b, b ∈ all_buckets htab -> ~ in_class b x) /\
        all_buckets htab ≡ₚ slot ++ rest /\
        forall slot', concat (<[slot_of ops htab x := slot']> (ht_tab htab)) ≡ₚ slot' ++ rest
  end.
Proof.
  intros Hwf Hs. destruct (concat_slot _ _ _ Hs) as (rest & HP & Hins).
  pose proof (bw_good _ (hw_buckets _ Hwf)) as Hg. rewrite Forall_forall in Hg.
  destruct (find_bucket ops x slot) as [[[pre b] post]|] eqn:Hf.
  - apply find_bucket_Some in Hf as [-> Hm]. exists rest. split; [done|].
    assert (b ∈ all_buckets htab) by (unfold all_buckets; rewrite HP; set_solver).
    split; [apply bucket_matches_class; auto|]. split; [|done].
    unfold all_buckets. rewrite HP. solve_Permutation.
  - exists rest. split; [|done]. intros b Hb Hc.
    pose proof (in_class_slot _ _ _ _ Hwf Hs Hb Hc) as Hbs.
    pose proof (find_bucket_None _ _ Hf b Hbs). apply bucket_matches_class in Hc; [congruence|auto].
Qed.

(** Storing to the slot of [e] a list whose buckets hash there. *)
Lemma slot_store_ok htab e slot slot' idx s b :
  htab_wf htab -> ht_tab htab !! slot_of ops htab e = Some slot ->
  (forall b, b ∈ slot' -> b ∈ slot \/ hb_hval b = op_hval ops e) ->
  <[slot_of ops htab e := slot']> (ht_tab htab) !! idx = Some s -> b ∈ s ->
  Z.to_nat (Z.land (hb_hval b) (ht_mask htab)) = idx.
Proof.
  intros Hwf Hs Hsub Hl Hb. destruct (decide (idx = slot_of ops htab e)) as [->|Hne].
  - rewrite list_lookup_insert_eq in Hl by (by eapply lookup_lt_Some). simplify_eq.
    destruct (Hsub b Hb) as [Hin| ->]; [by eapply hw_slot|done].
  - rewrite list_lookup_insert_ne in Hl by done. by eapply hw_slot.
Qed.

(** ** Resizing *)

Definition slots_ok (mask : Z) (tab : list (list (dt_hbucket E))) : Prop :=
  forall idx slot b, tab !! idx = Some slot -> b ∈ slot ->
    Z.to_nat (Z.land (hb_hval b) mask) = idx.

Lemma rehash_slot_spec k bs ntab :
  0 <= k -> Z.of_nat (length ntab) = 2 ^ k ->
  Forall (λ b, 0 <= hb_hval b) bs -> slots_ok (2 ^ k - 1) ntab ->
  let ntab' := rehash_slot ntab (2 ^ k - 1) bs in
  length ntab' = length ntab /\ slots_ok (2 ^ k - 1) ntab' /\
  concat ntab' ≡ₚ bs ++ concat ntab.
Proof.
  intros Hk. revert ntab; induction bs as [|b bs IH]; intros ntab Hl Hh Hok; simpl; [done|].
  apply Forall_cons in Hh as [Hb Hh].
  set (idx := Z.to_nat (Z.land (hb_hval b) (2 ^ k - 1))).
  assert (exists slot, ntab !! idx = Some slot) as [slot Hs].
  { apply lookup_lt_is_Some_2. pose proof (land_mask_range k (hb_hval b)). unfold idx. lia. }
  rewrite Hs. simpl. destruct (IH (<[idx:=b :: slot]> ntab)) as (Hl' & Hok' & HP).
  - by rewrite length_insert.
  - done.
  - intros i s' b' Hi Hb'. destruct (decide (i = idx)) as [->|Hne].
    + rewrite list_lookup_insert_eq in Hi by (by eapply lookup_lt_Some). simplify_eq.
      apply elem_of_cons in Hb' as [->|Hb']; [done|]. by eapply Hok.
    + rewrite list_lookup_insert_ne in Hi by done. by eapply Hok.
  - rewrite length_insert in Hl'. split_and!; [done..|].
    destruct (concat_slot _ _ _ Hs) as (rest & HP1 & HP2).
    rewrite HP, HP2, HP1. solve_Permutation.
Qed.

Lemma rehash_table_spec k tab ntab :
  0 <= k -> Z.of_nat (length ntab) = 2 ^ k ->
  Forall (λ b, 0 <= hb_hval b) (concat tab) -> slots_ok (2 ^ k - 1) ntab ->
  let ntab' := foldl (λ ntab bs, rehash_slot ntab (2 ^ k - 1) bs) ntab tab in
  length ntab' = length ntab /\ slots_ok (2 ^ k - 1) ntab' /\
  concat ntab' ≡ₚ concat tab ++ concat ntab.
Proof.
  intros Hk. revert ntab; induction tab as [|bs tab IH]; intros ntab Hl Hh Hok; simpl; [done|].
  cbn [concat] in Hh. apply Forall_app in Hh as [Hb Hh].
  destruct (rehash_slot_spec k bs ntab) as (Hl1 & Hok1 & HP1); [done..|].
  destruct (IH (rehash_slot ntab (2 ^ k - 1) bs)) as (Hl2 & Hok2 & HP2); [lia|done..|].
  split_and!; [lia|done|]. rewrite HP2, HP1. solve_Permutation.
Qed.

Lemma concat_replicate_nil {A} n : concat (replicate n ([] : list A)) = [].
Proof. induction n; simpl; auto. Qed.

Lemma resize_spec htab :
  htab_wf htab ->
  exists htab', resize true htab = (0, htab') /\ htab_wf htab' /\
    all_buckets htab' ≡ₚ all_buckets htab /\ ht_size htab' = 2 * ht_size htab /\
    ht_nbuckets htab' = ht_nbuckets htab.
Proof.
  intros Hwf. pose proof Hwf as [(k & Hk & Hsz) Hm Hl Hslot Hb Hnb Hne Hld].
  unfold resize. cbn [negb]. rewrite Z.shiftl_mul_pow2, Hsz by lia.
  assert (2 ^ k * 2 ^ 1 = 2 ^ (k + 1)) as Hp by (rewrite <- Z.pow_add_r; lia).
  rewrite Hp. pose proof (pow2_pos (k + 1)).
  destruct (rehash_table_spec (k + 1) (ht_tab htab)
    (replicate (Z.to_nat (2 ^ (k + 1))) [])) as (Hl' & Hok' & HP).
  { lia. }
  { rewrite length_replicate. lia. }
  { pose proof (bw_good _ Hb) as Hg. eapply Forall_impl; [exact Hg|].
    intros b Hgb. destruct (hb_head b) as [|h t] eqn:Hh; [by destruct (bg_nonempty _ Hgb)|].
    rewrite <- (bg_hval _ Hgb h) by (rewrite Hh; set_solver). apply hval_range. }
  { intros i s b Hi Hbs. apply lookup_replicate in Hi as [-> _]. set_solver. }
  rewrite concat_replicate_nil, app_nil_r in HP.
  eexists. split; [reflexivity|]. split_and!.
  - split; simpl.
    + exists (k + 1). split; [lia|done].
    + done.
    + rewrite Hl', length_replicate. lia.
    + exact Hok'.
    + unfold all_buckets in *. simpl. by rewrite HP.
    + unfold all_buckets in *. simpl. by rewrite HP.
    + unfold entries, all_buckets in *. simpl. by rewrite HP.
    + rewrite <- Hp. rewrite Hsz in Hld. pose proof (pow2_pos k). lia.
  - exact HP.
  - simpl. lia.
  - done.
Qed.

Lemma resize_fail htab : resize false htab = (- ENOMEM, htab).
Proof. done. Qed.

(** ** Insertion and deletion *)

(** What the chains of [htab'] are, given those of [htab]. *)
Lemma lookup_from_chain htab htab' (f : E -> list E -> list E) :
  htab_wf htab -> htab_wf htab' ->
  (forall x c, chain_is (all_buckets htab) x c -> chain_is (all_buckets htab') x (f x c)) ->
  forall x, dt_htab_lookup ops htab' x = f x (dt_htab_lookup ops htab x).
Proof.
  intros Hwf Hwf' Hc x. eapply chain_is_fun; [apply Hwf'|by apply dt_htab_lookup_chain|].
  by apply Hc, dt_htab_lookup_chain.
Qed.

Definition inserted e htab htab' : Prop :=
  htab_wf htab' /\ entries htab' ≡ₚ e :: entries htab /\
  forall x, dt_htab_lookup ops htab' x =
    if op_cmp ops e x =? 0 then op_add ops (dt_htab_lookup ops htab x) e
    else dt_htab_lookup ops htab x.

Lemma insert_found htab e slot pre b post :
  htab_wf htab -> ht_tab htab !! slot_of ops htab e = Some slot ->
  find_bucket ops e slot = Some (pre, b, post) ->
  inserted e htab
    (Htab (<[slot_of ops htab e := pre ++ bucket_add ops e b :: post]> (ht_tab htab))
       (ht_size htab) (ht_mask htab) (ht_nbuckets htab) (ht_nentries htab + 1)).
Proof.
  intros Hwf Hs Hf. pose proof (find_bucket_view _ _ _ Hwf Hs) as Hv. rewrite Hf in Hv.
  destruct Hv as (rest & -> & Hc & HP & Hins).
  set (htab' := Htab _ _ _ _ _).
  assert (all_buckets htab' ≡ₚ bucket_add ops e b :: pre ++ post ++ rest) as HP'.
  { unfold all_buckets, htab'. simpl. rewrite Hins. solve_Permutation. }
  pose proof (hw_buckets _ Hwf) as Hb. rewrite HP in Hb.
  destruct (chain_add e b _ e [] Hb Hc) as [Hb' _]. 
  assert (entries htab' ≡ₚ e :: entries htab) as Hent.
  { unfold entries. rewrite HP', HP, !entries_of_cons. simpl.
    rewrite (add_perm (ops:=ops)). done. }
  assert (htab_wf htab') as Hwf'.
  { destruct Hwf as [? ? Hlen ? ? Hnb Hne ?]. split; simpl; try done.
    - by rewrite length_insert.
    - intros i s' b' Hi Hb2. eapply slot_store_ok; [|done| |exact Hi|done]; [by split|].
      intros b1. rewrite elem_of_app, !elem_of_cons. intros [?|[->|?]]; [set_solver| |set_solver].
      right. simpl. destruct Hc as (y & Hy & Hyc). rewrite <- (cmp_hval _ _ Hyc). symmetry.
      pose proof (bw_good _ Hb) as Hg. apply Forall_cons in Hg as [Hg _]. by apply Hg.
    - by rewrite HP'.
    - rewrite HP', Hnb, HP. simpl. done.
    - rewrite Hent. simpl. lia. }
  split_and!; [done..|]. apply (lookup_from_chain htab htab' (λ x c, if op_cmp ops e x =? 0
    then op_add ops c e else c)); [done..|].
  intros x c. rewrite HP, HP'. by apply chain_add.
Qed.

Lemma insert_fresh htab e slot :
  htab_wf htab -> ht_tab htab !! slot_of ops htab e = Some slot ->
  find_bucket ops e slot = None -> Z.shiftr (ht_nbuckets htab) 1 <= ht_size htab ->
  inserted e htab
    (Htab (<[slot_of ops htab e := bucket_add ops e (HBucket (op_hval ops e) [] 0) :: slot]>
             (ht_tab htab))
       (ht_size htab) (ht_mask htab) (ht_nbuckets htab + 1) (ht_nentries htab + 1)).
Proof.
  intros Hwf Hs Hf Hld. pose proof (find_bucket_view _ _ _ Hwf Hs) as Hv. rewrite Hf in Hv.
  destruct Hv as (rest & Hnone & HP & Hins).
  set (nb := bucket_add ops e _). set (htab' := Htab _ _ _ _ _).
  assert (all_buckets htab' ≡ₚ nb :: all_buckets htab) as HP'.
  { unfold htab', all_buckets at 1. simpl. rewrite Hins, HP. done. }
  pose proof (hw_buckets _ Hwf) as Hb.
  destruct (chain_new e _ e [] Hb Hnone) as [Hb' _]. fold nb in Hb'.
  assert (entries htab' ≡ₚ e :: entries htab) as Hent.
  { unfold entries. rewrite HP', entries_of_cons. unfold nb. simpl.
    rewrite (add_perm (ops:=ops)). done. }
  assert (htab_wf htab') as Hwf'.
  { destruct Hwf as [? ? Hlen ? ? Hnb Hne ?]. split; simpl; try done.
    - by rewrite length_insert.
    - intros i s' b' Hi Hb2. eapply slot_store_ok; [|done| |exact Hi|done]; [by split|].
      intros b1. rewrite elem_of_cons. intros [->|?]; [by right|by left].
    - by rewrite HP'.
    - rewrite HP', Hnb. simpl. lia.
    - rewrite Hent. simpl. lia.
    - rewrite Z.shiftr_div_pow2 in * by lia. change (2 ^ 1) with 2 in *.
      pose proof (Z.div_mod (ht_nbuckets htab) 2). pose proof (Z.div_mod (ht_nbuckets htab + 1) 2).
      pose proof (Z.mod_pos_bound (ht_nbuckets htab) 2).
      pose proof (Z.mod_pos_bound (ht_nbuckets htab + 1) 2). lia. }
  split_and!; [done..|]. apply (lookup_from_chain htab htab' (λ x c, if op_cmp ops e x =? 0
    then op_add ops c e else c)); [done..|].
  intros x c. rewrite HP'. by apply chain_new.
Qed.

Lemma resized_same htab htab' :
  htab_wf htab -> htab_wf htab' -> all_buckets htab' ≡ₚ all_buckets htab ->
  entries htab' ≡ₚ entries htab /\
  forall x, dt_htab_lookup ops htab' x = dt_htab_lookup ops htab x.
Proof.
  intros Hwf Hwf' HP. split; [unfold entries; by rewrite HP|].
  apply (lookup_from_chain htab htab' (λ _ c, c)); [done..|]. intros x c. by rewrite HP.
Qed.

(** The retry loop runs at most twice: a table that was just resized is not
    overloaded. *)
Lemma dt_htab_insert_spec ok_resize ok_bucket htab e :
  htab_wf htab ->
  exists rc htab', dt_htab_insert ops ok_resize ok_bucket htab e = Some (rc, htab') /\
    ((rc = 0 /\ inserted e htab htab') \/
     (rc = - ENOMEM /\ (ok_bucket = false \/ exists n, ok_resize n = false) /\
      htab_wf htab' /\ entries htab' ≡ₚ entries htab /\
      forall x, dt_htab_lookup ops htab' x = dt_htab_lookup ops htab x)).
Proof.
  intros Hwf. unfold dt_htab_insert. change 2%nat with (S 1).
  assert (forall h fuel, htab_wf h -> Z.shiftr (ht_nbuckets h) 1 <= ht_size h ->
    exists rc h', dt_htab_insert_retry ops (S fuel) ok_resize ok_bucket h e = Some (rc, h') /\
    ((rc = 0 /\ inserted e h h') \/ (rc = - ENOMEM /\ ok_bucket = false /\ h' = h))) as Hround.
  { intros h fuel Hw Hld. cbn [dt_htab_insert_retry].
    destruct (slot_of_lookup h e Hw) as [slot Hs]. rewrite Hs. change (default [] (Some slot)) with slot.
    destruct (find_bucket ops e slot) as [[[pre b] post]|] eqn:Hf.
    - do 2 eexists. split; [reflexivity|]. left. split; [done|]. by eapply insert_found.
    - destruct (Z.ltb_spec (ht_size h) (Z.shiftr (ht_nbuckets h) 1)); [lia|].
      destruct ok_bucket; simpl; do 2 eexists; (split; [reflexivity|]).
      + left. split; [done|]. by apply insert_fresh.
      + by right. }
  destruct (decide (Z.shiftr (ht_nbuckets htab) 1 <= ht_size htab)) as [Hle|Hgt].
  { destruct (Hround htab 1%nat Hwf Hle) as (rc & h' & -> & [?|(-> & ? & ->)]);
      do 2 eexists; (split; [reflexivity|]); [by left|]. right. auto 10. }
  remember 1%nat as f eqn:Ef. cbn [dt_htab_insert_retry].
  destruct (slot_of_lookup htab e Hwf) as [slot Hs]. rewrite Hs. change (default [] (Some slot)) with slot.
  destruct (find_bucket ops e slot) as [[[pre b] post]|] eqn:Hf.
  { do 2 eexists. split; [reflexivity|]. left. split; [done|]. by eapply insert_found. }
  destruct (Z.ltb_spec (ht_size htab) (Z.shiftr (ht_nbuckets htab) 1)); [|lia].
  destruct (ok_resize f) eqn:Hok.
  - destruct (resize_spec htab Hwf) as (h1 & -> & Hw1 & HP1 & Hsz1 & Hnb1). cbn [negb Z.eqb].
    destruct (resized_same _ _ Hwf Hw1 HP1) as [Hent Hlk].
    destruct (Hround h1 O Hw1) as (rc & h' & Heq & Hcase).
    { rewrite Hnb1, Hsz1. pose proof (hw_load _ Hwf). destruct (hw_size _ Hwf) as (k & ? & Hk).
      pose proof (pow2_pos k). lia. }
    rewrite Ef, Heq. exists rc, h'. split; [done|].
    destruct Hcase as [(-> & Hw' & He' & Hl')|(-> & Hb & ->)].
    + left. split; [done|]. split_and!; [done|by rewrite He', Hent|].
      intros x. by rewrite Hl', Hlk.
    + right. split_and!; [done|by left|done..].
  - rewrite resize_fail. cbn [negb Z.eqb ENOMEM Z.opp]. do 2 eexists. split; [reflexivity|].
    right. split_and!; [done|right; by exists f|done..].
Qed.

Lemma dt_htab_delete_spec htab e :
  htab_wf htab ->
  (dt_htab_lookup ops htab e = [] /\ dt_htab_delete ops htab e = (- ENOENT, htab)) \/
  (e ∈ dt_htab_lookup ops htab e ->
   exists htab', dt_htab_delete ops htab e = (0, htab') /\ htab_wf htab' /\
     entries htab ≡ₚ e :: entries htab' /\
     forall x, dt_htab_lookup ops htab' x =
       if op_cmp ops e x =? 0 then op_del ops (dt_htab_lookup ops htab x) e
       else dt_htab_lookup ops htab x).
Proof.
  intros Hwf. unfold dt_htab_delete. unfold dt_htab_lookup at 1 2.
  destruct (slot_of_lookup htab e Hwf) as [slot Hs]. rewrite Hs. simpl.
  pose proof (find_bucket_view _ _ _ Hwf Hs) as Hv.
  destruct (find_bucket ops e slot) as [[[pre b] post]|] eqn:Hf; [|by left].
  right. intros He. destruct Hv as (rest & -> & Hc & HP & Hins).
  pose proof (hw_buckets _ Hwf) as Hb. rewrite HP in Hb.
  pose proof (del_perm (ops:=ops) _ _ He) as Hdp.
  pose proof (chain_del e b (pre ++ post ++ rest)) as Hcd.
  assert (hb_hval b = op_hval ops e) as Hhv.
  { symmetry. pose proof (bw_good _ Hb) as Hg. apply Forall_cons in Hg as [Hg _]. by apply Hg. }
  set (res := match op_del ops (hb_head b) e with [] => _ | _ => _ end).
  assert (exists htab', res = (0, htab') /\
    ht_size htab' = ht_size htab /\ ht_mask htab' = ht_mask htab /\
    ht_nentries htab' = ht_nentries htab - 1 /\
    ht_nbuckets htab' = ht_nbuckets htab - (match op_del ops (hb_head b) e with [] => 1 | _ => 0 end) /\
    length (ht_tab htab') = length (ht_tab htab) /\
    slots_ok (ht_mask htab) (ht_tab htab') /\
    all_buckets htab' ≡ₚ match op_del ops (hb_head b) e with
      | [] => pre ++ post ++ rest
      | hd => HBucket (hb_hval b) hd (hb_nentries b - 1) :: pre ++ post ++ rest end)
    as (htab' & Hres & Hsz & Hmk & Hne' & Hnb' & Hlen' & Hok' & HP').
  { unfold res. destruct (op_del ops (hb_head b) e) as [|h t];
      eexists; (split; [reflexivity|]); simpl; unfold all_buckets; simpl;
      rewrite length_insert, Hins; split_and!; try done; try lia.
    2, 4: solve_Permutation.
    all: intros i s' b' Hi Hb2; eapply slot_store_ok; [done|done| |exact Hi|done];
      intros b1; rewrite ?elem_of_app, ?elem_of_cons; naive_solver. }
  exists htab'. split; [exact Hres|].
  assert (entries htab ≡ₚ e :: entries htab') as Hent.
  { unfold entries. rewrite HP, HP', entries_of_cons, Hdp at 1.
    destruct (op_del ops (hb_head b) e); [done|]. rewrite entries_of_cons. done. }
  assert (htab_wf htab') as Hwf'.
  { destruct (Hcd e [] Hb He) as [Hb' _]. cbn zeta in Hb'.
    destruct Hwf as [Hk Hm Hlen _ _ Hnb Hne Hld]. split.
    - by rewrite Hsz.
    - by rewrite Hsz, Hmk.
    - by rewrite Hlen', Hsz.
    - by rewrite Hmk.
    - by rewrite HP'.
    - rewrite Hnb', Hnb, HP', HP. destruct (op_del ops (hb_head b) e); simpl; lia.
    - rewrite Hne', Hne, Hent. simpl. lia.
    - rewrite Hsz, Hnb'. etransitivity; [|exact Hld].
      rewrite !Z.shiftr_div_pow2 by lia. apply Z.div_le_mono; [lia|].
      destruct (op_del ops (hb_head b) e); lia. }
  split_and!; [done..|]. apply (lookup_from_chain htab htab' (λ x c, if op_cmp ops e x =? 0
    then op_del ops c e else c)); [done..|].
  intros x c. rewrite HP, HP'. by apply Hcd.
Qed.

(** ** Iteration visits every entry once *)

Implicit Types (i : @dt_htab_next_t E) (tab : list (list (dt_hbucket E))).

(** The entries an iterator has yet to return. *)
Definition it_remaining tab i : list E :=
  it_ent i ++ entries_of (tail (it_bucket i)) ++ entries_of (concat (drop (S (it_idx i)) tab)).

Record it_positioned tab i : Prop := {
  ip_running : it_exhausted i = false;
  ip_idx : exists b s, tab !! it_idx i = Some (b :: s);
  ip_ent : it_ent i <> [];
  ip_bucket : it_bucket i <> [];
  ip_good : Forall bucket_good (tail (it_bucket i));
}.

Lemma entries_of_app bs bs' : entries_of (bs ++ bs') = entries_of bs ++ entries_of bs'.
Proof. unfold entries_of. by rewrite fmap_app, concat_app. Qed.

Lemma next_bucket_fresh bs :
  Forall bucket_good bs ->
  next_bucket bs [] = match bs with [] => None | b :: _ => Some (bs, hb_head b) end.
Proof.
  intros Hg. destruct bs as [|b bs]; simpl; [done|]. apply Forall_cons in Hg as [Hb _].
  destruct (hb_head b) eqn:Hh; [|done]. by destruct (bg_nonempty _ Hb).
Qed.

Lemma next_slot_fresh todo tab idx :
  Forall bucket_good (concat tab) -> (idx + todo)%nat = length tab ->
  let i' := next_slot todo tab (HtabNext idx [] [] false) in
  if decide (entries_of (concat (drop idx tab)) = []) then it_exhausted i' = true
  else it_positioned tab i' /\ it_remaining tab i' = entries_of (concat (drop idx tab)).
Proof.
  intros Hg. revert idx; induction todo as [|todo IH]; intros idx Hl; cbn [next_slot].
  - rewrite drop_ge by lia. done.
  - destruct (lookup_lt_is_Some_2 tab idx) as [slot Hs]; [lia|].
    cbn [it_idx it_bucket it_ent it_exhausted]. rewrite Hs. change (default [] (Some slot)) with slot.
    rewrite (drop_S tab slot idx Hs). cbn [concat].
    assert (Forall bucket_good slot) as Hgs.
    { rewrite Forall_forall in *. intros b Hb. apply Hg. apply list_elem_of_In, in_concat.
      exists slot. split; apply list_elem_of_In; [by eapply list_elem_of_lookup_2|done]. }
    destruct slot as [|b s]; [cbn [app]; apply IH; lia|].
    rewrite next_bucket_fresh by done. cbn [app]. rewrite entries_of_cons, entries_of_app.
    apply Forall_cons in Hgs as [Hb Hgs]. pose proof (bg_nonempty _ Hb).
    rewrite decide_False by (destruct (hb_head b); [done|discriminate]).
    split; [|done]. split; simpl; try done. by exists b, s.
Qed.

Lemma next_cycle_positioned htab i :
  Forall bucket_good (all_buckets htab) -> Z.of_nat (length (ht_tab htab)) = ht_size htab ->
  it_positioned (ht_tab htab) i ->
  exists e r i', it_remaining (ht_tab htab) i = e :: r /\
    htab_next_cycle htab i = (Some e, Some i') /\
    if decide (r = []) then it_exhausted i' = true
    else it_positioned (ht_tab htab) i' /\ it_remaining (ht_tab htab) i' = r.
Proof.
  intros Hg Hl [Hx (b0 & s0 & Hs) He Hb Hgt]. unfold htab_next_cycle. rewrite Hx.
  destruct i as [idx bs ent x]. simpl in *. subst x.
  destruct ent as [|e ent]; [done|]. destruct bs as [|b bs]; [done|]. simpl in Hgt.
  exists e. eexists _, _. split; [reflexivity|]. split; [reflexivity|].
  pose proof (lookup_lt_Some _ _ _ Hs).
  replace (Z.to_nat (ht_size htab) - idx)%nat with (S (length (ht_tab htab) - S idx)) by lia.
  cbn [next_slot it_idx it_bucket it_ent it_exhausted]. rewrite Hs.
  change (default [] (Some (b0 :: s0))) with (b0 :: s0). cbn [next_bucket tail app].
  destruct ent as [|e' ent].
  - rewrite next_bucket_fresh by done. destruct bs as [|b' bs].
    + cbn [tail app entries_of].
      apply (next_slot_fresh _ (ht_tab htab) (S idx)); [done|lia].
    + cbn [tail app]. rewrite entries_of_cons. apply Forall_cons in Hgt as [Hgb Hgt].
      pose proof (bg_nonempty _ Hgb).
      rewrite decide_False by (destruct (hb_head b'); [done|discriminate]).
      split; [|by unfold it_remaining; simpl; rewrite <- app_assoc].
      split; simpl; try done. by exists b0, s0.
  - rewrite decide_False by done. split; [|done]. split; simpl; try done. by exists b0, s0.
Qed.

(** The results of calling [dt_htab_next] until it returns [NULL]. *)
Fixpoint htab_iterate (fuel : nat) htab (it : option dt_htab_next_t) : option (list E) :=
  match fuel with
  | O => None
  | S fuel =>
      match dt_htab_next true htab it with
      | (None, _) => Some []
      | (Some e, it) => cons e <$> htab_iterate fuel htab it
      end
  end.

Lemma htab_iterate_positioned htab fuel i :
  htab_wf htab -> it_positioned (ht_tab htab) i ->
  (length (it_remaining (ht_tab htab) i) < fuel)%nat ->
  htab_iterate fuel htab (Some i) = Some (it_remaining (ht_tab htab) i).
Proof.
  intros Hwf. revert i; induction fuel as [|fuel IH]; intros i Hp Hf; [lia|].
  destruct (next_cycle_positioned htab i) as (e & r & i' & Hr & Hc & Hcase);
    [apply Hwf|apply Hwf|done|].
  cbn [htab_iterate dt_htab_next]. rewrite Hc, Hr. rewrite Hr in Hf. simpl in Hf.
  destruct (decide (r = [])) as [->|].
  - destruct fuel; [lia|]. cbn [htab_iterate dt_htab_next]. unfold htab_next_cycle.
    by rewrite Hcase.
  - destruct Hcase as [Hp' <-]. rewrite IH by (done || lia). done.
Qed.

Lemma htab_iterate_all htab :
  htab_wf htab -> htab_iterate (S (length (entries htab))) htab None = Some (entries htab).
Proof.
  intros Hwf. pose proof (hw_length _ Hwf) as Hl.
  pose proof (next_slot_fresh (length (ht_tab htab)) (ht_tab htab) 0
    (bw_good _ (hw_buckets _ Hwf)) eq_refl) as Hn. cbn zeta in Hn.
  set (i0 := next_slot (length (ht_tab htab)) (ht_tab htab) (HtabNext 0 [] [] false)) in *.
  assert (dt_htab_next true htab None = htab_next_cycle htab i0) as Hfirst.
  { unfold dt_htab_next. cbn [negb].
    assert (snd (htab_next_cycle htab (HtabNext 0 [] [] false)) = Some i0) as ->; [|done].
    unfold htab_next_cycle. cbn [it_exhausted snd it_idx].
    replace (Z.to_nat (ht_size htab) - 0)%nat with (length (ht_tab htab)) by lia. done. }
  rewrite drop_0 in Hn. fold (all_buckets htab) in Hn. fold (entries htab) in Hn.
  assert (forall fuel, htab_iterate (S fuel) htab None = htab_iterate (S fuel) htab (Some i0)) as Heq.
  { intros fuel. cbn [htab_iterate]. by rewrite Hfirst. }
  rewrite Heq. destruct (decide (entries htab = [])) as [He|He].
  - rewrite He. simpl. unfold htab_next_cycle. by rewrite Hn.
  - destruct Hn as [Hp Hr]. rewrite <- Hr. apply htab_iterate_positioned; [done..|lia].
Qed.

Lemma dt_htab_create_wf htab :
  dt_htab_create true true = Some htab -> htab_wf htab /\ entries htab = [] /\
  forall x, dt_htab_lookup ops htab x = [].
Proof.
  intros [= <-].
  assert (htab_wf (Htab [[]] 1 0 0 0)) as Hwf.
  { split; simpl; try done; try lia.
    - by exists 0.
    - intros [|idx] slot b; simpl; intros; simplify_eq. set_solver.
    - by repeat constructor. }
  split_and!; [done..|]. intros x.
  pose proof (dt_htab_lookup_chain _ x Hwf) as [(b & Hb & _)|[_ ?]]; [|done].
  unfold all_buckets in Hb. simpl in Hb. set_solver.
Qed.
End Spec.

(** ** Sequences of operations against an abstract table *)

Inductive htab_op (E : Type) := HInsert (e : E) | HDelete (e : E).
Arguments HInsert {E}.
Arguments HDelete {E}.

Section Refinement.
Context {E : Type} `{EqDecision E} (ops : htab_ops E) `{!HtabOpsOk ops}.

(** The abstract table: the list of entries equal to an entry, and all the
    entries.  [None]: an entry that is not in the table is deleted. *)
Definition spec_hop (m : (E -> list E) * list E) (op : htab_op E)
  : option ((E -> list E) * list E) :=
  let '(chain, es) := m in
  match op with
  | HInsert e =>
      Some (λ x, if op_cmp ops e x =? 0 then op_add ops (chain x) e else chain x, e :: es)
  | HDelete e =>
      guard (e ∈ chain e);;
      Some (λ x, if op_cmp ops e x =? 0 then op_del ops (chain x) e else chain x,
            remove_one e es)
  end.

(** The table itself, when no allocation fails; [None] is an error return. *)
Definition run_hop (htab : dt_htab E) (op : htab_op E) : option (dt_htab E) :=
  match op with
  | HInsert e =>
      '(rc, htab) ← dt_htab_insert ops (λ _, true) true htab e;
      guard (rc = 0);; Some htab
  | HDelete e => let '(rc, htab) := dt_htab_delete ops htab e in guard (rc = 0);; Some htab
  end.

Fixpoint spec_hops m (l : list (htab_op E)) :=
  match l with [] => Some m | op :: l => m ← spec_hop m op; spec_hops m l end.
Fixpoint run_hops htab (l : list (htab_op E)) :=
  match l with [] => Some htab | op :: l => htab ← run_hop htab op; run_hops htab l end.

(** What relates a table to an abstract one. *)
Definition htab_refines (htab : dt_htab E) (m : (E -> list E) * list E) : Prop :=
  htab_wf ops htab /\ (forall x, dt_htab_lookup ops htab x = fst m x) /\
  entries htab ≡ₚ snd m.

Lemma run_hop_refines htab m op m' :
  htab_refines htab m -> spec_hop m op = Some m' ->
  exists htab', run_hop htab op = Some htab' /\ htab_refines htab' m'.
Proof.
  intros (Hwf & Hl & He) Hs. destruct m as [chain es]. simpl in Hl, He.
  destruct op as [e|e]; simpl in *; simplify_option_eq.
  - destruct (dt_htab_insert_spec ops (λ _, true) true htab e Hwf)
      as (rc & htab' & -> & [(-> & Hw' & He' & Hl')|(_ & [?|[]] & _)]); [|done..].
    exists htab'. split; [by simplify_option_eq|].
    split_and!; [done| |by rewrite He', He]. intros x. simpl. by rewrite Hl', Hl.
  - rewrite <- Hl in H.
    destruct (dt_htab_delete_spec ops htab e Hwf) as [[Hnil _]|Hd]; [rewrite Hnil in H; set_solver|].
    destruct (Hd H) as (htab' & -> & Hw' & He' & Hl').
    exists htab'. split; [by simplify_option_eq|]. split_and!; [done|intros x; simpl; by rewrite Hl', Hl|].
    simpl. apply (Permutation_cons_inv (a:=e)). rewrite <- He', He.
    apply remove_one_perm. rewrite <- He, He'. set_solver.
Qed.

Lemma run_hops_refines l htab m m' :
  htab_refines htab m -> spec_hops m l = Some m' ->
  exists htab', run_hops htab l = Some htab' /\ htab_refines htab' m'.
Proof.
  revert htab m; induction l as [|op l IH]; intros htab m Hr Hs; simpl in *.
  - simplify_eq. eauto.
  - destruct (spec_hop m op) as [m1|] eqn:Hm; simpl in *; [|done].
    destruct (run_hop_refines _ _ _ _ Hr Hm) as (htab1 & -> & Hr1). simpl. eauto.
Qed.

Lemma run_hops_app l1 l2 htab : run_hops htab (l1 ++ l2) = (h ← run_hops htab l1; run_hops h l2).
Proof.
  revert htab. induction l1 as [|op l1 IH]; intros htab; [done|]. cbn [app run_hops].
  destruct (run_hop htab op); [apply IH|done].
Qed.

(** ** The widths of the fields *)

Definition ints_fit (htab : dt_htab E) : Prop :=
  0 < ht_size htab < 2 ^ 31 /\ 0 <= ht_mask htab < 2 ^ 31 /\ 0 <= ht_nbuckets htab < 2 ^ 31 /\
  0 <= ht_nentries htab < 2 ^ 64 /\ Forall (λ b, 0 <= hb_nentries b < 2 ^ 31) (all_buckets htab).

(** The table is doubled only when there are more than twice as many buckets as
    slots. *)
Lemma insert_size ok_resize ok_bucket htab e rc htab' :
  dt_htab_insert ops ok_resize ok_bucket htab e = Some (rc, htab') ->
  ht_size htab' <= Z.max (ht_size htab) (ht_nbuckets htab).
Proof.
  unfold dt_htab_insert. generalize 2%nat as fuel. intros fuel. revert htab.
  induction fuel as [|fuel IH]; intros htab; cbn [dt_htab_insert_retry]; [done|].
  destruct (find_bucket _ _ _) as [[[pre b] post]|]; [intros [= <- <-]; simpl; lia|].
  destruct (Z.ltb_spec (ht_size htab) (Z.shiftr (ht_nbuckets htab) 1)) as [Hlt|Hge].
  - unfold resize. destruct (ok_resize fuel); simpl.
    + intros ->%IH. simpl. rewrite Z.shiftr_div_pow2 in Hlt by lia. rewrite Z.shiftl_mul_pow2 by lia.
      pose proof (Z.mul_div_le (ht_nbuckets htab) (2 ^ 1)). lia.
    + intros [= <- <-]. lia.
  - destruct ok_bucket; intros [= <- <-]; simpl; lia.
Qed.

Lemma delete_size htab e : ht_size (dt_htab_delete ops htab e).2 = ht_size htab.
Proof. unfold dt_htab_delete. by repeat case_match. Qed.

Lemma nbuckets_le htab : htab_wf ops htab -> ht_nbuckets htab <= Z.of_nat (length (entries htab)).
Proof.
  intros Hw. rewrite (hw_nbuckets _ _ Hw). unfold entries, entries_of.
  pose proof (bw_good _ _ (hw_buckets _ _ Hw)) as Hg. induction Hg as [|b bs [Hne _ _ _] _ IH]; [done|].
  cbn. rewrite length_app. destruct (hb_head b); [done|]. cbn. lia.
Qed.

Lemma wf_ints_fit htab n : htab_wf ops htab -> ht_size htab <= Z.max 1 n -> n < 2 ^ 30 ->
  Z.of_nat (length (entries htab)) <= n -> ints_fit htab.
Proof.
  intros Hw Hs Hn He. pose proof (nbuckets_le htab Hw) as Hb. destruct (hw_size _ _ Hw) as (k & Hk & Ek).
  assert (0 < 2 ^ k) by (apply Z.pow_pos_nonneg; lia). pose proof (hw_mask _ _ Hw). pose proof (hw_nbuckets _ _ Hw).
  pose proof (hw_nentries _ _ Hw). unfold ints_fit. split_and!; try lia.
  apply Forall_forall. intros b Hin. pose proof (bw_good _ _ (hw_buckets _ _ Hw)) as Hg. rewrite Forall_forall in Hg.
  rewrite (bg_nentries _ _ (Hg b Hin)). assert (length (hb_head b) <= length (entries htab))%nat; [|lia].
  apply list_elem_of_split in Hin as (l1 & l2 & E'). unfold entries, entries_of. rewrite E', fmap_app, concat_app. cbn.
  rewrite !length_app. lia.
Qed.

(** Every table on the way through a sequence. *)
Lemma run_hops_fit l : forall htab m n m1, htab_refines htab m -> spec_hops m l = Some m1 ->
  ht_size htab <= Z.max 1 n -> Z.of_nat (length (snd m)) <= n -> n + Z.of_nat (length l) < 2 ^ 30 ->
  forall l1 l2 h, l = l1 ++ l2 -> run_hops htab l1 = Some h -> ints_fit h.
Proof.
  induction l as [|op l IH]; intros htab m n m1 Hr Hs Hsz He Hn l1 l2 h El Hrun.
  - destruct l1; [|done]. injection Hrun as <-. destruct Hr as (Hw & _ & Hp).
    apply (wf_ints_fit htab n); [done|done|cbn in Hn; lia|by rewrite Hp].
  - destruct l1 as [|op' l1].
    + injection Hrun as <-. destruct Hr as (Hw & _ & Hp). apply (wf_ints_fit htab n); [done|done|lia|by rewrite Hp].
    + injection El as <- El. cbn [spec_hops] in Hs. destruct (spec_hop m op) as [m2|] eqn:Hm; [|done]. cbn [mbind option_bind] in Hs.
      destruct (run_hop_refines _ _ _ _ Hr Hm) as (htab1 & E1 & Hr1). cbn [run_hops] in Hrun. rewrite E1 in Hrun.
      destruct Hr as (Hw & _ & Hp). pose proof (nbuckets_le htab Hw) as Hb. rewrite Hp in Hb.
      apply (IH htab1 m2 (n + 1) m1 Hr1 Hs) with (l2 := l2) (l1 := l1); [| |cbn in Hn; lia|done|done].
      * destruct op as [e|e]; simpl in E1; simplify_option_eq.
        -- destruct (dt_htab_insert ops _ _ htab e) as [[rc h1]|] eqn:Ei; [|done]. simpl in E1. simplify_option_eq.
           apply insert_size in Ei. lia.
        -- pose proof (delete_size htab e) as Ed. destruct (dt_htab_delete ops htab e) as [rc h1]. simplify_option_eq. lia.
      * destruct m as [chain es]. destruct op as [e|e]; simpl in Hm; simplify_option_eq; simpl in *; [lia|].
        assert (length (remove_one e es) <= length es)%nat; [|lia]. clear. induction es as [|x es IH]; cbn; [lia|].
        case_decide; cbn; lia.
Qed.

(** C32: any sequence of fewer than 2^30 insertions and deletions of present
    entries on a fresh table, through its resizes and with every allocation
    succeeding, ends in a well-formed table in which [dt_htab_lookup] returns
    exactly the chain of entries the client's [add] and [del] build for each key,
    [dt_htab_entries] is the number of entries, and a [dt_htab_next] walk returns
    every entry exactly once and then ends; and in no table on the way does a
    counter, the size or the mask leave the range of its int.  The client keeps
    its contract: [cmp] decides an equivalence, equal entries have equal [hval],
    [add] adds just the entry and [del] removes just the entry. *)
Theorem dt_htab_ops_refine l chain es :
  Z.of_nat (length l) < 2 ^ 30 -> spec_hops (λ _, [], []) l = Some (chain, es) ->
  exists htab0 htab, dt_htab_create true true = Some htab0 /\
    run_hops htab0 l = Some htab /\ htab_wf ops htab /\
    (forall x, dt_htab_lookup ops htab x = chain x) /\
    dt_htab_entries htab = Z.of_nat (length es) /\
    (exists seen, htab_iterate (S (length es)) htab None = Some seen /\ seen ≡ₚ es) /\
    forall l1 l2, l = l1 ++ l2 -> exists h1, run_hops htab0 l1 = Some h1 /\ ints_fit h1.
Proof.
  intros Hn Hs. eexists. pose proof (dt_htab_create_wf ops _ eq_refl) as (Hw0 & He0 & Hl0).
  assert (htab_refines (Htab [[]] 1 0 0 0) (λ _, [], [])) as Hr0 by exact (conj Hw0 (conj Hl0 (Permutation_refl' He0))).
  destruct (run_hops_refines l _ (λ _, [], []) _ Hr0 Hs) as (htab & Hrun & Hw & Hl & He).
  exists htab. simpl in *. split_and!; try done.
  - unfold dt_htab_entries. by rewrite (hw_nentries _ _ Hw), He.
  - exists (entries htab). rewrite <- (Permutation_length He). split; [|done].
    by apply (htab_iterate_all ops).
  - intros l1 l2 El. destruct (run_hops (Htab [[]] 1 0 0 0) l1) as [h1|] eqn:E1.
    + exists h1. split; [done|]. apply (run_hops_fit l (Htab [[]] 1 0 0 0) (λ _, [], []) 0 _ Hr0 Hs) with (l1 := l1) (l2 := l2); simpl; done || lia.
    + exfalso. rewrite El, run_hops_app, E1 in Hrun. done.
Qed.
End Refinement.

(** ** The standard link functions *)

(** DEFINE_HE_STD_LINK_FUNCS, on the lists. *)
Definition he_add {E} (head : list E) (new : E) : list E := new :: head.
Definition he_del {E} `{EqDecision E} (head : list E) (ent : E) : list E := remove_one ent head.

(** A client that compares a key of its entries and links them in the standard
    way: what it can expect of a table, given the entries in it in the order of
    their insertion. *)
Section Keyed.
Context {E K : Type} `{EqDecision E, EqDecision K} (ops : htab_ops E) `{!HtabOpsOk ops} (key : E -> K).

Class KeyedOps : Prop := {
  keyed_cmp x y : op_cmp ops x y = 0 <-> key x = key y;
  keyed_add : op_add ops = he_add;
  keyed_del : op_del ops = he_del;
}.
Context `{!KeyedOps}.

Definition holds (htab : dt_htab E) (es : list E) : Prop :=
  htab_wf ops htab /\ forall x, dt_htab_lookup ops htab x = reverse (filter (λ e, key e = key x) es).

Lemma holds_create htab : dt_htab_create true true = Some htab -> holds htab [].
Proof. intros Hc. destruct (dt_htab_create_wf ops htab Hc) as (Hw & _ & Hl). split; [done|]. intros x. by rewrite Hl. Qed.

(** An insertion adds the entry, or fails for lack of memory and changes nothing. *)
Lemma holds_insert ok_resize ok_bucket htab es e : holds htab es ->
  exists rc htab', dt_htab_insert ops ok_resize ok_bucket htab e = Some (rc, htab') /\
    ((rc = 0 /\ holds htab' (es ++ [e])) \/ (rc = - ENOMEM /\ (ok_bucket = false \/ exists n, ok_resize n = false) /\ holds htab' es)).
Proof.
  intros [Hw Hl]. destruct (dt_htab_insert_spec ops ok_resize ok_bucket htab e Hw) as (rc & h' & E' & [(-> & Hw' & _ & Hl')|(-> & Hok & Hw' & _ & Hl')]);
    eexists _, h'; (split; [exact E'|]).
  - left. split; [done|]. split; [done|]. intros x. rewrite Hl', keyed_add. rewrite filter_app. cbn [filter list_filter].
    destruct (Z.eqb_spec (op_cmp ops e x) 0) as [Hc|Hc]; rewrite keyed_cmp in Hc.
    + rewrite decide_True by done. by rewrite reverse_app, Hl.
    + rewrite decide_False by done. by rewrite app_nil_r, Hl.
  - right. split; [done|]. split; [done|]. split; [done|]. intros x. by rewrite Hl', Hl.
Qed.

(** A deletion removes the entry. *)
Lemma holds_delete htab es e : holds htab es -> NoDup es -> e ∈ es ->
  exists htab', dt_htab_delete ops htab e = (0, htab') /\ holds htab' (filter (λ x, x <> e) es).
Proof.
  intros [Hw Hl] Hnd He.
  assert (e ∈ dt_htab_lookup ops htab e) as Hin by (rewrite Hl; rewrite reverse_Permutation; apply list_elem_of_filter; done).
  destruct (dt_htab_delete_spec ops htab e Hw) as [[H0 _]|Hd]; [rewrite H0 in Hin; by apply not_elem_of_nil in Hin|].
  destruct (Hd Hin) as (h' & Eh & Hw' & _ & Hl'). exists h'. split; [done|]. split; [done|]. intros x. rewrite Hl', keyed_del, Hl. unfold he_del.
  destruct (Z.eqb_spec (op_cmp ops e x) 0) as [Hc|Hc]; rewrite keyed_cmp in Hc.
  - rewrite remove_one_filter by (rewrite reverse_Permutation; by apply NoDup_filter). rewrite filter_reverse. f_equal. apply filter_comm.
  - f_equal. symmetry. rewrite filter_comm. apply filter_all. intros y [Hy _]%list_elem_of_filter ->. done.
Qed.
End Keyed.

(** A client whose entries have a key to compare and to hash. *)
Section StdOps.
Context {E : Type} `{EqDecision E} (key : E -> Z) (hash : Z -> Z).

Definition std_ops : htab_ops E :=
  HtabOps (λ e, u32 (hash (key e))) (λ e1 e2, if key e1 =? key e2 then 0 else 1) he_add he_del.

#[export] Instance std_ops_ok : HtabOpsOk std_ops.
Proof.
  split; simpl; intros.
  - by auto with cint.
  - by rewrite Z.eqb_refl.
  - by rewrite Z.eqb_sym.
  - destruct (Z.eqb_spec (key e1) (key e2)), (Z.eqb_spec (key e2) (key e3)),
      (Z.eqb_spec (key e1) (key e3)); congruence.
  - destruct (Z.eqb_spec (key e1) (key e2)); congruence.
  - done.
  - by apply remove_one_perm.
Qed.
End StdOps.

(** Entries are numbers, the key their last digit; all hash to two values. *)
Definition ex_htab_ops : htab_ops Z := std_ops (λ e, e `mod` 10) (λ k, k `mod` 2).
Definition ex_hops : list (htab_op Z) :=
  (HInsert <$> [1; 2; 3; 4; 5; 6; 7; 8; 11; 21]) ++ [HDelete 11; HDelete 4].

Lemma dt_htab_ops_refine_witness :
  exists htab0 htab, dt_htab_create true true = Some htab0 /\
    run_hops ex_htab_ops htab0 ex_hops = Some htab /\ htab_wf ex_htab_ops htab /\
    (forall x, dt_htab_lookup ex_htab_ops htab x =
       default (λ _, []) (fst <$> spec_hops ex_htab_ops (λ _, [], []) ex_hops) x) /\
    dt_htab_entries htab = 8 /\
    (exists seen, htab_iterate 9 htab None = Some seen /\ seen ≡ₚ [21; 8; 7; 6; 5; 3; 2; 1]) /\
    forall l1 l2, ex_hops = l1 ++ l2 -> exists h1, run_hops ex_htab_ops htab0 l1 = Some h1 /\ ints_fit h1.
Proof.
  apply (dt_htab_ops_refine ex_htab_ops ex_hops
    (default (λ _, []) (fst <$> spec_hops ex_htab_ops (λ _, [], []) ex_hops))
    [21; 8; 7; 6; 5; 3; 2; 1]).
  - vm_compute. reflexivity.
  - reflexivity.
Defined.

(** The same functions on the heap, a cell holding [HE.prev] and [HE.next];
    [None]: a missing cell is dereferenced. *)
Definition he_heap_add (h : heap) (head : option loc) (new : loc) : option (heap * option loc) :=
  match head with
  | None => Some (h, Some new)
  | Some head =>
      h ← set_next h new (Some head);
      h ← set_prev h head (Some new);
      Some (h, Some new)
  end.

Definition he_heap_del (h : heap) (head : loc) (ent : loc) : option (heap * option loc) :=
  e ← h !! ent;
  let prev := dl_prev e in
  let next := dl_next e in
  if decide (head = ent) then
    match next with
    | None => Some (h, None)
    | Some next =>
        h ← set_prev h next None;
        h ← set_next h ent None;
        Some (h, Some next)
    end
  else
    match prev, next with
    | Some prev, None =>
        h ← set_next h prev None;
        h ← set_prev h ent None;
        Some (h, Some head)
    | Some prev, Some next =>
        h ← set_next h prev (Some next);
        h ← set_prev h next (Some prev);
        h ← set_next h ent None;
        h ← set_prev h ent None;
        Some (h, Some head)
    | None, _ => None
    end.

Definition he_heap_next (h : heap) (ent : loc) : option (option loc) := dl_next <$> h !! ent.

Definition he_rep (h : heap) (hd : option loc) (xs : list loc) : Prop :=
  NoDup xs /\ hd = head xs /\ dseg h None xs None.

Lemma he_heap_add_rep h hd xs new :
  he_rep h hd xs -> h !! new = Some (DtList None None) -> new ∉ xs ->
  exists h', he_heap_add h hd new = Some (h', Some new) /\ he_rep h' (Some new) (he_add xs new).
Proof.
  intros (Hnd & -> & Hs) Hc Hn. unfold he_heap_add, set_next, set_prev, he_add.
  destruct xs as [|x xs]; simpl.
  - exists h. split; [done|]. split_and!; [by repeat constructor; set_solver|done|by simpl].
  - destruct Hs as [Hx Hs]. apply NoDup_cons in Hnd as [Hxs Hnd].
    apply not_elem_of_cons in Hn as [Hne Hn]. heap_exec.
    eexists. split; [done|]. split_and!; [|done|].
    + repeat (constructor; [set_solver|]). done.
    + simpl. heap_exec. split; [done|]. split; [done|]. dseg_step. exact Hs.
Qed.

Lemma he_heap_del_rep h l1 ent l2 :
  NoDup (l1 ++ ent :: l2) -> dseg h None (l1 ++ ent :: l2) None ->
  forall hd, head (l1 ++ ent :: l2) = Some hd ->
  exists h' hd', he_heap_del h hd ent = Some (h', hd') /\
    he_rep h' hd' (l1 ++ l2) /\ h' !! ent = Some (DtList None None).
Proof.
  intros Hnd Hs hd Hhd.
  assert (NoDup (l1 ++ l2) /\ ent ∉ l1 ++ l2) as [Hnd' Hent].
  { assert (l1 ++ ent :: l2 ≡ₚ ent :: l1 ++ l2) as HP by solve_Permutation.
    rewrite HP in Hnd. apply NoDup_cons in Hnd. tauto. }
  apply dseg_app in Hs as [Hs1 [He Hs2]]. unfold he_heap_del, set_next, set_prev. rewrite He.
  destruct l1 as [|p l1 _] using rev_ind.
  - simpl in Hhd. simplify_eq. simpl. rewrite decide_True by done.
    destruct l2 as [|n l2]; simpl.
    + do 2 eexists. split; [done|]. split; [|done]. by split_and!.
    + destruct Hs2 as [Hn Hs2]. addr_facts. heap_exec. do 2 eexists. split; [done|].
      apply NoDup_cons in Hnd' as [Hnl Hnd'].
      split; [|by heap_exec]. split_and!; [by constructor|done|].
      simpl. heap_exec. split; [done|]. dseg_step. exact Hs2.
  - rewrite last_snoc in *. simpl in *.
    assert (hd <> ent) as Hne.
    { intros ->. destruct l1; simpl in Hhd; simplify_eq; set_solver. }
    rewrite decide_False by done.
    pose proof (dseg_lookup_mid _ _ _ _ _ _ Hs1) as Hp.
    rewrite <- app_assoc in Hnd', Hent. simpl in Hnd', Hent.
    assert (p ∉ l1 /\ p ∉ l2) as [Hp1 Hp2].
    { assert (l1 ++ p :: l2 ≡ₚ p :: l1 ++ l2) as HP by solve_Permutation.
      rewrite HP in Hnd'. apply NoDup_cons in Hnd'. set_solver. }
    destruct l2 as [|n l2]; simpl in *.
    + addr_facts. heap_exec. do 2 eexists. split; [done|]. split; [|by heap_exec].
      split_and!; [by rewrite app_nil_r|by destruct l1|].
      rewrite app_nil_r. dseg_step.
      eapply dseg_snoc_set_next; [addr|exact Hs1|by rewrite default_map_Some].
    + destruct Hs2 as [Hn Hs2].
      assert (n ∉ l1 /\ n ∉ l2 /\ n <> p) as (Hn1 & Hn2 & Hn3).
      { assert (l1 ++ p :: n :: l2 ≡ₚ n :: p :: l1 ++ l2) as HP by solve_Permutation.
        rewrite HP in Hnd'. apply NoDup_cons in Hnd'. set_solver. }
      addr_facts. heap_exec. do 2 eexists. split; [done|]. split; [|by heap_exec].
      rewrite <- app_assoc. split_and!; [done|by destruct l1|].
      change ([p] ++ n :: l2) with ([p] ++ (n :: l2)). rewrite app_assoc.
      apply dseg_app. rewrite last_snoc. simpl. heap_exec. split.
      * dseg_step. eapply dseg_snoc_set_next; [addr|exact Hs1|by rewrite default_map_Some].
      * split; [done|]. dseg_step. exact Hs2.
Qed.

(** on the heap, the link functions of DEFINE_HE_STD_LINK_FUNCS compute
    the list operations the table is verified against: [add] prepends an entry
    whose links are NULL, [del] unlinks any entry of the chain and leaves its
    links NULL (so that it can be added again), and [next] is the successor. *)
Theorem he_links_refine h hd xs :
  he_rep h hd xs ->
  (forall new, h !! new = Some (DtList None None) -> new ∉ xs ->
     exists h', he_heap_add h hd new = Some (h', Some new) /\
       he_rep h' (Some new) (he_add xs new)) /\
  (forall ent hd0, ent ∈ xs -> hd = Some hd0 ->
     exists h' hd', he_heap_del h hd0 ent = Some (h', hd') /\
       he_rep h' hd' (he_del xs ent) /\ h' !! ent = Some (DtList None None)) /\
  (forall i ent, xs !! i = Some ent -> he_heap_next h ent = Some (xs !! S i)).
Proof.
  intros Hr. split; [intros; by apply he_heap_add_rep|]. destruct Hr as (Hnd & -> & Hs). split.
  - intros ent hd0 He Hhd. apply list_elem_of_split in He as (l1 & l2 & ->).
    assert (ent ∉ l1) as Hn.
    { apply NoDup_app in Hnd as (_ & Hd & _). intros Hl. apply (Hd _ Hl). set_solver. }
    unfold he_del. rewrite remove_one_mid by done. by apply he_heap_del_rep.
  - intros i ent Hi. unfold he_heap_next.
    rewrite <- (take_drop_middle _ _ _ Hi) in Hs.
    rewrite (dseg_lookup_mid _ _ _ _ _ _ Hs). simpl. rewrite default_map_Some.
    by rewrite head_lookup, lookup_drop, Nat.add_0_r.
Qed.

Definition ex_he_heap : heap :=
  list_to_map [(1%positive, DtList None (Some 2)); (2%positive, DtList (Some 1) None);
               (3%positive, DtList None None)]%positive.

Lemma he_links_refine_witness :
  (exists h', he_heap_add ex_he_heap (Some 1%positive) 3 = Some (h', Some 3%positive) /\
     he_rep h' (Some 3%positive) [3; 1; 2]%positive) /\
  (exists h' hd', he_heap_del ex_he_heap 1 2 = Some (h', hd') /\
     he_rep h' hd' [1%positive] /\ h' !! 2%positive = Some (DtList None None)) /\
  he_heap_next ex_he_heap 1 = Some (Some 2%positive).
Proof.
  destruct (he_links_refine ex_he_heap (Some 1%positive) [1; 2]%positive) as (Ha & Hd & Hn).
  - split_and!; [repeat constructor; set_solver|done|]. split_and!; reflexivity || done.
  - split_and!.
    + apply Ha; [reflexivity|set_solver].
    + apply (Hd 2%positive); [set_solver|done].
    + by apply (Hn O).
Defined.

(** ** The string hash *)

Lemma str2hval_step_range hval c :
  let hval := u32 (u32 (Z.shiftl hval 4) + c) in
  let g := Z.land hval 4026531840 in
  0 <= (if negb (g =? 0) then Z.lxor (Z.lxor hval (Z.shiftr g 24)) g else hval) < 2 ^ 28.
Proof.
  cbn zeta. pose proof (wrapu_range 32 (u32 (Z.shiftl hval 4) + c) ltac:(lia)) as Hr.
  generalize dependent (u32 (u32 (Z.shiftl hval 4) + c)). clear. intros h Hr.
  assert (4026531840 = Z.shiftl (Z.ones 4) 28) as Hm by reflexivity.
  assert (forall n, 0 <= n -> Z.testbit (Z.land h 4026531840) n = (28 <=? n) && Z.testbit h n) as Hg.
  { intros n Hn. rewrite Z.land_spec, Hm, Z.shiftl_spec by lia.
    destruct (Z.leb_spec 28 n).
    - rewrite Z.testbit_ones_nonneg by lia. destruct (Z.ltb_spec (n - 28) 4).
      + by rewrite andb_true_r.
      + rewrite (testbit_high 32 h n) by lia. done.
    - rewrite (Z.testbit_neg_r _ (n - 28)), andb_false_r by lia. done. }
  assert (0 <= Z.land h 4026531840) as Hgn by (apply Z.land_nonneg; lia).
  set (g := Z.land h 4026531840) in *.
  enough (forall v, 0 <= v -> (forall n, 28 <= n -> Z.testbit v n = false) -> 0 <= v < 2 ^ 28) as Hen.
  { destruct (Z.eqb_spec g 0) as [Hg0|Hg0]; simpl; apply Hen; try lia.
    - intros n Hn. assert (Z.testbit g n = false) as Ht by (rewrite Hg0; apply Z.bits_0).
      rewrite Hg in Ht by lia. by destruct (Z.leb_spec 28 n); [|lia].
    - pose proof (proj2 (Z.shiftr_nonneg g 24) Hgn).
      apply Z.lxor_nonneg. rewrite Z.lxor_nonneg. lia.
    - intros n Hn. rewrite !Z.lxor_spec, Z.shiftr_spec, !Hg by lia.
      rewrite (testbit_high 32 h (n + 24)) by lia.
      destruct (Z.leb_spec 28 n), (Z.leb_spec 28 (n + 24)); try lia. cbn.
      by destruct (Z.testbit h n). }
  intros v Hv Hb. split; [done|]. destruct (Z.eq_dec v 0) as [->|]; [lia|].
  apply Z.log2_lt_pow2; [lia|]. apply Z.nle_gt. intros Hl.
  pose proof (Z.bit_log2 v ltac:(lia)) as Hbit.
  rewrite Hb in Hbit by done. done.
Qed.

Lemma str2hval_range chr p h : 0 <= h < 2 ^ 32 -> 0 <= str2hval chr p h < 2 ^ 32.
Proof.
  revert h. induction p as [|c p IH]; intros h Hh; [done|]. apply IH.
  pose proof (str2hval_step_range h (chr c)). cbv zeta in *. lia.
Qed.

(** [str2hval] of a non-empty string fits in 28 bits whatever the initial
    value and the signedness of [char]; for 7-bit strings its value does not
    depend on that signedness; and hashing a concatenation is hashing its
    parts in turn, which is how compound keys are hashed. *)
Theorem str2hval_props chr c p q h :
  0 <= str2hval chr (c :: p) h < 2 ^ 28 /\
  (Forall (λ c, 0 <= c < 128) p ->
     str2hval char_signed p h = str2hval char_unsigned p h) /\
  str2hval chr (p ++ q) h = str2hval chr q (str2hval chr p h).
Proof.
  split; [|split].
  - revert c h. induction p as [|d p IH]; intros c h.
    + apply (str2hval_step_range h (chr c)).
    + apply (IH d).
  - intros Hp. revert h. induction Hp as [|d p Hd Hp IH]; intros h; [done|].
    assert (char_signed d = char_unsigned d) as Hc.
    { unfold char_signed, char_unsigned. by destruct (Z.ltb_spec d 128); [|lia]. }
    cbn [str2hval]. by rewrite IH, !Hc.
  - revert h. induction p as [|d p IH]; intros h; [done|]. cbn [app str2hval]. apply IH.
Qed.

Lemma str2hval_props_witness :
  0 <= str2hval char_signed [100; 116; 200] 3 < 2 ^ 28 /\
  str2hval char_signed [116; 100] 3 = str2hval char_unsigned [116; 100] 3 /\
  str2hval char_signed ([116; 100] ++ [97]) 3 =
    str2hval char_signed [97] (str2hval char_signed [116; 100] 3).
Proof.
  split; [apply (str2hval_props char_signed 100 [116; 200] [] 3)|].
  destruct (str2hval_props char_signed 100 [116; 100] [97] 3) as (_ & H & H').
  split; [apply H; repeat constructor; lia|exact H'].
Defined.
