(* ===== verification/HtabUniq.v ===== *)
(** * Tables whose comparison is not an equivalence (libcommon/dt_htab.c)

    The theorems of Htab.v need a comparison that is an equivalence and a hash
    that respects it.  The parser of ELF notes has neither: an offset of zero
    is equal to every offset, and the offset is part of the hash.  What is left
    is enough for a client that looks for an entry before it inserts it: every
    bucket has one entry, and no two entries of a slot are equal.  Such a table
    can also be emptied while it is walked. *)

From stdpp Require Import base list numbers option sets.
From S2P Require Import Prelude DtList Htab.

(** What is still required of the operations. *)
Class SoloOps {E} `{EqDecision E} (ops : htab_ops E) : Prop := {
  solo_hval e : 0 <= op_hval ops e < 2 ^ 32;
  solo_refl e : op_cmp ops e e = 0;
  solo_sym e1 e2 : op_cmp ops e1 e2 = 0 -> op_cmp ops e2 e1 = 0;
  solo_add : op_add ops = he_add;
  solo_del : op_del ops = he_del;
}.

Lemma half_succ n : (n + 1) `div` 2 <= n `div` 2 + 1.
Proof. replace (n `div` 2 + 1) with ((n + 1 * 2) `div` 2) by (by rewrite Z.div_add). apply Z.div_le_mono; lia. Qed.

Section Solo.
Context {E : Type} `{EqDecision E} (ops : htab_ops E) `{!SoloOps ops}.
Implicit Types (htab : dt_htab E) (b : dt_hbucket E) (bs : list (dt_hbucket E)) (e x : E) (es : list E).

Definition solo_bucket e : dt_hbucket E := HBucket (op_hval ops e) [e] 1.
Definition solo b : Prop := exists e, b = solo_bucket e.

Record uniq htab es : Prop := {
  u_size : exists k, 0 <= k /\ ht_size htab = 2 ^ k;
  u_mask : ht_mask htab = ht_size htab - 1;
  u_length : Z.of_nat (length (ht_tab htab)) = ht_size htab;
  u_slots : slots_ok (ht_mask htab) (ht_tab htab);
  u_solo : Forall solo (all_buckets htab);
  u_entries : entries htab ≡ₚ es;
  u_nodup : NoDup es;
  u_sep e e' : e ∈ es -> e' ∈ es -> slot_of ops htab e = slot_of ops htab e' -> op_cmp ops e e' = 0 -> e = e';
  u_nbuckets : ht_nbuckets htab = Z.of_nat (length es);
  u_load : Z.shiftr (ht_nbuckets htab) 1 <= ht_size htab + 1;
}.

Lemma uniq_perm htab es es' : es ≡ₚ es' -> uniq htab es -> uniq htab es'.
Proof.
  intros P [? ? ? ? ? He Hn Hs Hb ?]. split; try done.
  - by rewrite He.
  - by rewrite <- P.
  - intros e e'. rewrite <- !P. apply Hs.
  - by rewrite Hb, P.
Qed.

Lemma entries_solo es : entries_of (solo_bucket <$> es) = es.
Proof. induction es as [|e es IH]; [done|]. cbn. by f_equal. Qed.

Lemma solo_fmap bs : Forall solo bs -> bs = solo_bucket <$> entries_of bs.
Proof. induction 1 as [|b bs [e ->] _ IH]; [done|]. cbn. by f_equal. Qed.

Lemma elem_of_entries_of bs e : Forall solo bs -> e ∈ entries_of bs <-> solo_bucket e ∈ bs.
Proof.
  intros ->%solo_fmap. rewrite entries_solo. rewrite list_elem_of_fmap. split; [by exists e|].
  intros (e' & H & ?). by simplify_eq.
Qed.

Lemma uniq_buckets htab es : uniq htab es -> all_buckets htab ≡ₚ solo_bucket <$> es.
Proof.
  intros U. rewrite (solo_fmap _ (u_solo _ _ U)). apply fmap_Permutation. apply (u_entries _ _ U).
Qed.

Lemma uniq_slot htab es x : uniq htab es -> exists slot, ht_tab htab !! slot_of ops htab x = Some slot.
Proof.
  intros U. destruct (u_size _ _ U) as (k & Hk & Hsz). apply lookup_lt_is_Some_2. unfold slot_of.
  pose proof (solo_hval (ops:=ops) x). pose proof (u_length _ _ U). rewrite (u_mask _ _ U), Hsz.
  pose proof (land_mask_range k (op_hval ops x)). lia.
Qed.

(** The entries of a slot. *)
Lemma uniq_in_slot htab es x slot e : uniq htab es -> ht_tab htab !! slot_of ops htab x = Some slot ->
  solo_bucket e ∈ slot <-> e ∈ es /\ slot_of ops htab e = slot_of ops htab x.
Proof.
  intros U Hs. split.
  - intros He. split.
    + rewrite <- (u_entries _ _ U). apply elem_of_entries_of; [apply U|]. unfold all_buckets.
      apply list_elem_of_In, in_concat. exists slot. split; apply list_elem_of_In; [by eapply list_elem_of_lookup_2|done].
    + by apply (u_slots _ _ U _ _ _ Hs) in He.
  - intros [He Hsl]. rewrite <- (u_entries _ _ U) in He. apply elem_of_entries_of in He; [|apply U].
    apply list_elem_of_In, in_concat in He as (s & Hs1 & Hb). apply list_elem_of_In in Hs1, Hb.
    apply list_elem_of_lookup in Hs1 as [i Hi]. pose proof (u_slots _ _ U _ _ _ Hi Hb) as Hi2. cbn in Hi2.
    unfold slot_of in Hsl at 1. rewrite Hi2 in Hsl. subst i. congruence.
Qed.

Lemma uniq_slot_solo htab es idx slot : uniq htab es -> ht_tab htab !! idx = Some slot -> Forall solo slot.
Proof.
  intros U Hs. destruct (concat_slot _ _ _ Hs) as (rest & P & _). pose proof (u_solo _ _ U) as F.
  unfold all_buckets in F. rewrite P in F. by apply Forall_app in F as [? _].
Qed.

Lemma find_solo_Some x bs pre b post : Forall solo bs -> find_bucket ops x bs = Some (pre, b, post) ->
  exists e, b = solo_bucket e /\ bs = pre ++ solo_bucket e :: post /\ op_cmp ops e x = 0.
Proof.
  intros F Hf. apply find_bucket_Some in Hf as [-> Hm]. apply Forall_app in F as [_ F]. apply Forall_cons_1 in F as [[e ->] _].
  exists e. unfold bucket_matches in Hm. cbn in Hm. split_and!; [done..|lia].
Qed.

Lemma find_solo_None x bs e : find_bucket ops x bs = None -> solo_bucket e ∈ bs -> op_cmp ops e x <> 0.
Proof.
  induction bs as [|b bs IH]; cbn [find_bucket]; [by rewrite elem_of_nil|]. intros Hf Hb.
  destruct (bucket_matches ops x b) eqn:Hm; [done|]. destruct (find_bucket ops x bs) as [[[? ?] ?]|]; [done|].
  apply elem_of_cons in Hb as [<-|Hb]; [|by apply IH]. unfold bucket_matches in Hm. cbn in Hm. lia.
Qed.

(** *** Lookups *)

Lemma uniq_lookup htab es x : uniq htab es ->
  match dt_htab_lookup ops htab x with
  | [] => forall e, e ∈ es -> slot_of ops htab e = slot_of ops htab x -> op_cmp ops e x <> 0
  | e :: l => l = [] /\ e ∈ es /\ slot_of ops htab e = slot_of ops htab x /\ op_cmp ops e x = 0
  end.
Proof.
  intros U. destruct (uniq_slot _ _ x U) as [slot Hs]. unfold dt_htab_lookup. rewrite Hs. cbn [default from_option id].
  destruct (find_bucket ops x slot) as [[[pre b] post]|] eqn:Hf.
  - destruct (find_solo_Some x slot pre b post) as (e & -> & Hsl & Hc); [by eapply uniq_slot_solo|done|]. cbn [solo_bucket hb_head].
    split; [done|]. destruct (proj1 (uniq_in_slot htab es x slot e U Hs)) as [H1 H2]; [|done]. rewrite Hsl.
    apply elem_of_app. right. left.
  - intros e He Hsl. eapply find_solo_None; [done|]. by apply (uniq_in_slot htab es x slot e U Hs).
Qed.

(** *** Insertion *)

Lemma uniq_create htab : dt_htab_create true true = Some htab -> uniq htab [].
Proof.
  intros [= <-]. split; cbn; try done.
  - by exists 0.
  - intros [|idx] slot b; cbn; intros; simplify_eq. by apply elem_of_nil in H0.
  - constructor.
  - by intros e e' H%elem_of_nil.
Qed.

Lemma slot_of_Z htab es e e' : uniq htab es ->
  slot_of ops htab e = slot_of ops htab e' <-> Z.land (op_hval ops e) (ht_mask htab) = Z.land (op_hval ops e') (ht_mask htab).
Proof.
  intros U. destruct (u_size _ _ U) as (k & Hk & Hsz). unfold slot_of.
  pose proof (solo_hval (ops:=ops) e). pose proof (solo_hval (ops:=ops) e'). rewrite (u_mask _ _ U), Hsz.
  pose proof (land_mask_range k (op_hval ops e)). pose proof (land_mask_range k (op_hval ops e')). split; [lia|by intros ->].
Qed.

Lemma uniq_resize htab es : uniq htab es -> exists htab', resize true htab = (0, htab') /\ uniq htab' es /\
  ht_size htab' = 2 * ht_size htab /\ ht_nbuckets htab' = ht_nbuckets htab /\
  (forall e x, slot_of ops htab' e = slot_of ops htab' x -> slot_of ops htab e = slot_of ops htab x).
Proof.
  intros U. pose proof U as [(k & Hk & Hsz) Hm Hl Hslot Hb He Hn Hsep Hnb Hld].
  unfold resize. cbn [negb]. rewrite Z.shiftl_mul_pow2, Hsz by lia.
  assert (2 ^ k * 2 ^ 1 = 2 ^ (k + 1)) as Hp by (rewrite <- Z.pow_add_r; lia).
  rewrite Hp. pose proof (pow2_pos (k + 1)).
  destruct (rehash_table_spec (k + 1) (ht_tab htab) (replicate (Z.to_nat (2 ^ (k + 1))) [])) as (Hl' & Hok' & HP).
  { lia. }
  { rewrite length_replicate. lia. }
  { eapply Forall_impl; [exact Hb|]. intros b [e ->]. apply solo_hval. }
  { intros i s b Hi Hbs. apply lookup_replicate in Hi as [-> _]. by apply elem_of_nil in Hbs. }
  rewrite concat_replicate_nil, app_nil_r in HP.
  set (htab' := Htab _ _ _ _ _). assert (forall e x, slot_of ops htab' e = slot_of ops htab' x -> slot_of ops htab e = slot_of ops htab x) as Hsl.
  { intros e x Hs. apply (slot_of_Z htab es); [done|]. unfold slot_of, htab' in Hs. cbn [ht_mask] in Hs.
    pose proof (solo_hval (ops:=ops) e). pose proof (solo_hval (ops:=ops) x).
    pose proof (land_mask_range (k + 1) (op_hval ops e)). pose proof (land_mask_range (k + 1) (op_hval ops x)).
    assert (Z.land (op_hval ops e) (2 ^ (k + 1) - 1) = Z.land (op_hval ops x) (2 ^ (k + 1) - 1)) as Heq by lia.
    rewrite Hm, Hsz. replace (2 ^ k - 1) with (Z.land (2 ^ (k + 1) - 1) (2 ^ k - 1)).
    2: { replace (2 ^ k - 1) with (Z.ones k) at 1 by (rewrite Z.ones_equiv; lia). rewrite Z.land_ones by lia. rewrite <- Hp.
         symmetry. apply (Z.mod_unique _ _ 1); [left|]; pose proof (pow2_pos k); lia. }
    by rewrite !Z.land_assoc, Heq. }
  exists htab'. split_and!; [done| |cbn; lia|done|exact Hsl].
  assert (all_buckets htab' ≡ₚ all_buckets htab) as HP' by exact HP. split; cbn [htab' ht_size ht_mask ht_tab ht_nbuckets]; try done.
  - exists (k + 1). split; [lia|done].
  - rewrite Hl', length_replicate. lia.
  - by rewrite HP'.
  - unfold entries. by rewrite HP'.
  - intros e e' H1 H2 Hs. apply Hsep; [done..|]. by apply Hsl.
  - rewrite <- Hp. rewrite Hsz in Hld. pose proof (pow2_pos k). lia.
Qed.

(** A new entry that is equal to none of its slot. *)
Lemma uniq_insert_round fuel ok_resize htab es x : uniq htab es -> x ∉ es ->
  (forall e, e ∈ es -> slot_of ops htab e = slot_of ops htab x -> op_cmp ops e x <> 0) ->
  Z.shiftr (ht_nbuckets htab) 1 <= ht_size htab ->
  exists htab', dt_htab_insert_retry ops (S fuel) ok_resize true htab x = Some (0, htab') /\ uniq htab' (x :: es).
Proof.
  intros U Hx Hne Hld. destruct (uniq_slot _ _ x U) as [slot Hs]. cbn [dt_htab_insert_retry]. rewrite Hs. cbn [default from_option id].
  destruct (find_bucket ops x slot) as [[[pre b] post]|] eqn:Hf.
  { destruct (find_solo_Some x slot pre b post) as (e & -> & Hsl & Hc); [by eapply uniq_slot_solo|done|].
    destruct (proj1 (uniq_in_slot htab es x slot e U Hs)) as [H1 H2]; [rewrite Hsl; apply elem_of_app; right; left|].
    by destruct (Hne e H1 H2). }
  destruct (Z.ltb_spec (ht_size htab) (Z.shiftr (ht_nbuckets htab) 1)); [lia|]. cbn [negb]. eexists. split; [reflexivity|].
  assert (bucket_add ops x (HBucket (op_hval ops x) [] 0) = solo_bucket x) as -> by (unfold bucket_add; cbn; by rewrite solo_add).
  destruct (concat_slot _ _ _ Hs) as (rest & P1 & P2). pose proof (u_buckets := uniq_buckets _ _ U).
  destruct U as [Hsz Hm Hl Hslot Hb He Hn Hsep Hnb Hld'].
  assert (concat (<[slot_of ops htab x := solo_bucket x :: slot]> (ht_tab htab)) ≡ₚ solo_bucket x :: all_buckets htab) as P.
  { rewrite P2. cbn. by rewrite <- P1. }
  split; unfold entries, all_buckets; cbn [ht_size ht_mask ht_tab ht_nbuckets]; try done.
  - by rewrite length_insert.
  - intros i s b Hi Hb'. destruct (decide (i = slot_of ops htab x)) as [->|Hni].
    + rewrite list_lookup_insert_eq in Hi by (by eapply lookup_lt_Some). simplify_eq.
      apply elem_of_cons in Hb' as [->|Hb']; [done|]. by eapply Hslot.
    + rewrite list_lookup_insert_ne in Hi by done. by eapply Hslot.
  - rewrite P. constructor; [by exists x|done].
  - rewrite P. cbn. by rewrite <- He.
  - by constructor.
  - intros e e' He1 He2 Hsl Hc. change (slot_of ops htab e = slot_of ops htab e') in Hsl.
    apply elem_of_cons in He1 as [->|He1]; apply elem_of_cons in He2 as [->|He2]; [done| | |by apply Hsep].
    + destruct (Hne e' He2 (eq_sym Hsl)). by apply solo_sym.
    + by destruct (Hne e He1 Hsl).
  - cbn [length]. lia.
  - rewrite Hnb in Hld |- *. rewrite !Z.shiftr_div_pow2 in * by lia. change (2 ^ 1) with 2 in *.
    pose proof (half_succ (Z.of_nat (length es))). lia.
Qed.

Lemma uniq_insert ok_resize htab es x : uniq htab es -> x ∉ es -> dt_htab_lookup ops htab x = [] -> (forall n, ok_resize n = true) ->
  exists htab', dt_htab_insert ops ok_resize true htab x = Some (0, htab') /\ uniq htab' (x :: es).
Proof.
  intros U Hx Hl Hok. pose proof (uniq_lookup htab es x U) as Hne. rewrite Hl in Hne. unfold dt_htab_insert. change 2%nat with (S 1).
  destruct (decide (Z.shiftr (ht_nbuckets htab) 1 <= ht_size htab)) as [Hle|Hgt]; [by apply uniq_insert_round|].
  destruct (uniq_slot _ _ x U) as [slot Hs]. remember 1%nat as f. cbn [dt_htab_insert_retry]. rewrite Hs. cbn [default from_option id].
  destruct (find_bucket ops x slot) as [[[pre b] post]|] eqn:Hf.
  { destruct (find_solo_Some x slot pre b post) as (e & -> & Hsl & Hc); [by eapply uniq_slot_solo|done|].
    destruct (proj1 (uniq_in_slot htab es x slot e U Hs)) as [H1 H2]; [rewrite Hsl; apply elem_of_app; right; left|].
    by destruct (Hne e H1 H2). }
  destruct (Z.ltb_spec (ht_size htab) (Z.shiftr (ht_nbuckets htab) 1)); [|lia]. rewrite Hok.
  destruct (uniq_resize htab es U) as (h1 & -> & U1 & Hsz & Hnb & Hsl). cbn [negb Z.eqb]. subst f.
  apply uniq_insert_round; [done|done| |].
  - intros e He Hs1. apply Hne; [done|]. by apply Hsl.
  - rewrite Hsz, Hnb. pose proof (u_load _ _ U). destruct (u_size _ _ U) as (k & ? & Hk). pose proof (pow2_pos k). lia.
Qed.

(** *** Deletion *)

Lemma uniq_delete htab es1 x es2 : uniq htab (es1 ++ x :: es2) ->
  exists htab' pre post, dt_htab_delete ops htab x = (0, htab') /\ uniq htab' (es1 ++ es2) /\
    ht_tab htab !! slot_of ops htab x = Some (pre ++ solo_bucket x :: post) /\
    ht_tab htab' = <[slot_of ops htab x := pre ++ post]> (ht_tab htab).
Proof.
  intros U%(uniq_perm _ _ (x :: es1 ++ es2)); [|by rewrite Permutation_middle]. set (es := es1 ++ es2) in *. clearbody es. clear es1 es2.
  destruct (uniq_slot _ _ x U) as [slot Hs]. unfold dt_htab_delete. rewrite Hs. cbn [default from_option id].
  destruct (find_bucket ops x slot) as [[[pre b] post]|] eqn:Hf.
  2: { destruct (find_solo_None x slot x Hf); [|apply solo_refl]. apply (uniq_in_slot htab (x :: es) x slot x U Hs). split; [left|done]. }
  destruct (find_solo_Some x slot pre b post) as (e & -> & -> & Hc); [by eapply uniq_slot_solo|done|].
  destruct (proj1 (uniq_in_slot htab _ x _ e U Hs)) as [H1 H2]; [apply elem_of_app; right; left|].
  assert (e = x) as -> by (apply (u_sep _ _ U); [done|left|done..]). cbn [solo_bucket hb_head]. rewrite solo_del. unfold he_del.
  cbn [remove_one]. rewrite decide_True by done. eexists _, pre, post. split; [reflexivity|]. split; [|done].
  destruct (concat_slot _ _ _ Hs) as (rest & P1 & P2).
  destruct U as [Hsz Hm Hl Hslot Hb He Hn Hsep Hnb Hld]. unfold entries, all_buckets in *.
  assert (concat (ht_tab htab) ≡ₚ solo_bucket x :: concat (<[slot_of ops htab x := pre ++ post]> (ht_tab htab))) as P.
  { rewrite P2, P1. solve_Permutation. }
  apply NoDup_cons in Hn as [Hx Hn]. split; unfold entries, all_buckets; cbn [ht_size ht_mask ht_tab ht_nbuckets]; try done.
  - by rewrite length_insert.
  - intros i s b Hi Hb'. destruct (decide (i = slot_of ops htab x)) as [->|Hni].
    + rewrite list_lookup_insert_eq in Hi by (by eapply lookup_lt_Some). simplify_eq.
      eapply Hslot; [exact Hs|]. apply elem_of_app in Hb' as [?|?]; apply elem_of_app; [by left|right; by right].
    + rewrite list_lookup_insert_ne in Hi by done. by eapply Hslot.
  - rewrite P in Hb. by apply Forall_cons_1 in Hb as [_ ?].
  - rewrite P in He. cbn in He. by apply Permutation_cons_inv in He.
  - intros e e' He1 He2. apply Hsep; by right.
  - rewrite Hnb. cbn [length]. lia.
  - rewrite Hnb in Hld |- *. cbn [length] in Hld |- *. rewrite !Z.shiftr_div_pow2 in * by lia. change (2 ^ 1) with 2 in *.
    etransitivity; [|exact Hld]. apply Z.div_le_mono; lia.
Qed.

(** *** Walks that delete what they return *)

Implicit Types (i : @dt_htab_next_t E) (tab : list (list (dt_hbucket E))).

(** An iterator that is about to return the head of [rem] and then the rest. *)
Inductive at_ tab i : list E -> Prop :=
  | at_end : it_exhausted i = true -> at_ tab i []
  | at_bucket pre e bs : it_exhausted i = false -> tab !! it_idx i = Some (pre ++ solo_bucket e :: bs) ->
      it_bucket i = solo_bucket e :: bs -> it_ent i = [e] ->
      at_ tab i (e :: entries_of bs ++ entries_of (concat (drop (S (it_idx i)) tab))).

Lemma next_slot_at todo tab idx : Forall solo (concat tab) -> (idx + todo)%nat = length tab ->
  at_ tab (next_slot todo tab (HtabNext idx [] [] false)) (entries_of (concat (drop idx tab))).
Proof.
  intros Hg. revert idx; induction todo as [|todo IH]; intros idx Hl; cbn [next_slot].
  - rewrite drop_ge by lia. by constructor.
  - destruct (lookup_lt_is_Some_2 tab idx) as [slot Hs]; [lia|].
    cbn [it_idx it_bucket it_ent it_exhausted]. rewrite Hs. cbn [default from_option id].
    rewrite (drop_S tab slot idx Hs). cbn [concat].
    assert (Forall solo slot) as Hgs.
    { destruct (concat_slot _ _ _ Hs) as (rest & P & _). rewrite P in Hg. by apply Forall_app in Hg as [? _]. }
    destruct Hgs as [|b s [e ->] Hgs]; [cbn [app]; apply IH; lia|]. cbn [next_bucket solo_bucket hb_head].
    change (at_ tab (HtabNext idx (solo_bucket e :: s) [e] false) (entries_of ((solo_bucket e :: s) ++ concat (drop (S idx) tab)))).
    cbn [app]. rewrite entries_of_cons, entries_of_app. cbn [solo_bucket hb_head app].
    exact (at_bucket tab (HtabNext idx (solo_bucket e :: s) [e] false) [] e s eq_refl Hs eq_refl eq_refl).
Qed.

Lemma next_at htab es i rem : uniq htab es -> at_ (ht_tab htab) i rem ->
  match rem with
  | [] => htab_next_cycle htab i = (None, None)
  | e :: r => exists i', htab_next_cycle htab i = (Some e, Some i') /\ at_ (ht_tab htab) i' r
  end.
Proof.
  intros U [Hx|pre e bs Hx Hs Hb He]; unfold htab_next_cycle; rewrite Hx; [done|]. rewrite He. cbn [head].
  eexists. split; [reflexivity|]. destruct i as [idx bs' ent x]. cbn in *. subst.
  pose proof (lookup_lt_Some _ _ _ Hs). pose proof (u_length _ _ U).
  replace (Z.to_nat (ht_size htab) - idx)%nat with (S (length (ht_tab htab) - S idx)) by lia.
  cbn [next_slot it_idx it_bucket it_ent it_exhausted]. rewrite Hs. cbn [default from_option id].
  assert (Forall solo bs) as Hbs.
  { pose proof (uniq_slot_solo _ _ _ _ U Hs) as F. apply Forall_app in F as [_ F]. by apply Forall_cons_1 in F as [_ ?]. }
  destruct (pre ++ solo_bucket e :: bs) as [|b0 s0] eqn:Ep; [by destruct pre|]. cbn [next_bucket].
  destruct Hbs as [|b bs [e' ->] Hbs].
  - cbn [next_bucket entries_of concat app fmap list_fmap]. apply (next_slot_at _ (ht_tab htab) (S idx)); [apply U|lia].
  - cbn [next_bucket solo_bucket hb_head]. rewrite entries_of_cons. cbn [solo_bucket hb_head app].
    change (at_ (ht_tab htab) (HtabNext idx (solo_bucket e' :: bs) [e'] false)
      (e' :: entries_of bs ++ entries_of (concat (drop (S idx) (ht_tab htab))))).
    apply (at_bucket (ht_tab htab) (HtabNext idx (solo_bucket e' :: bs) [e'] false) (pre ++ [solo_bucket e]) e' bs); [done| |done..].
    cbn [it_idx]. rewrite Hs. f_equal. by rewrite <- app_assoc, <- Ep.
Qed.

(** The first call. *)
Lemma first_at htab es : uniq htab es -> exists i, dt_htab_next true htab None = htab_next_cycle htab i /\ at_ (ht_tab htab) i (entries htab).
Proof.
  intros U. exists (next_slot (length (ht_tab htab)) (ht_tab htab) (HtabNext 0 [] [] false)). split.
  - unfold dt_htab_next. cbn [negb]. pose proof (u_length _ _ U). unfold htab_next_cycle at 1. cbn [it_exhausted snd it_idx].
    by replace (Z.to_nat (ht_size htab) - 0)%nat with (length (ht_tab htab)) by lia.
  - pose proof (next_slot_at (length (ht_tab htab)) (ht_tab htab) 0 (u_solo _ _ U) eq_refl) as A. by rewrite drop_0 in A.
Qed.

(** A state of the iteration: before the first call, or between calls. *)
Definition walk htab (it : option dt_htab_next_t) (rem : list E) : Prop :=
  match it with None => rem = entries htab | Some i => at_ (ht_tab htab) i rem end.

Lemma walk_next htab es it rem : uniq htab es -> walk htab it rem ->
  match rem with
  | [] => exists it', dt_htab_next true htab it = (None, it')
  | e :: r => exists i', dt_htab_next true htab it = (Some e, Some i') /\ walk htab (Some i') r
  end.
Proof.
  intros U W. destruct it as [i|]; cbn in W.
  - cbn [dt_htab_next]. pose proof (next_at _ _ _ _ U W) as N. destruct rem; [by eexists|done].
  - subst rem. destruct (first_at _ _ U) as (i & -> & A). pose proof (next_at _ _ _ _ U A) as N. destruct (entries htab); [by eexists|done].
Qed.

(** The deletion of an entry that was returned does not disturb the walk. *)
Lemma walk_delete htab es1 x es2 i rem htab' : uniq htab (es1 ++ x :: es2) -> walk htab (Some i) rem -> x ∉ rem ->
  dt_htab_delete ops htab x = (0, htab') -> walk htab' (Some i) rem.
Proof.
  intros U W Hx Hd. destruct (uniq_delete _ _ _ _ U) as (h' & pre & post & Hd' & _ & Hs & Ht). rewrite Hd in Hd'. simplify_eq.
  cbn [walk] in *. rewrite Ht. destruct W as [Hx'|pre' e bs Hx' Hs' Hb He]; [by constructor|].
  apply not_elem_of_cons in Hx as [Hne Hx]. apply not_elem_of_app in Hx as [Hx1 Hx2].
  set (k := slot_of ops htab x) in *. pose proof (lookup_lt_Some _ _ _ Hs) as Hlt.
  destruct (decide (k <= it_idx i)%nat) as [Hle|Hgt].
  2: { destruct Hx2. apply elem_of_entries_of.
       - pose proof (u_solo _ _ U) as F. unfold all_buckets in F. rewrite <- (take_drop (S (it_idx i)) (ht_tab htab)), concat_app in F.
         by apply Forall_app in F as [_ ?].
       - apply list_elem_of_In, in_concat. eexists. split; apply list_elem_of_In.
         + apply list_elem_of_lookup. exists (k - S (it_idx i))%nat. rewrite lookup_drop. replace (S (it_idx i) + _)%nat with k by lia. exact Hs.
         + apply elem_of_app. right. left. }
  assert (drop (S (it_idx i)) (ht_tab htab) = drop (S (it_idx i)) (<[k:=pre ++ post]> (ht_tab htab))) as Hdr
    by (rewrite drop_insert_lt by lia; done).
  rewrite Hdr. destruct (decide (k = it_idx i)) as [Heq|Hni].
  - rewrite Heq, Hs' in Hs. injection Hs as Hsplit. rewrite Heq in *.
    assert (solo_bucket x ∉ solo_bucket e :: bs) as Hnb.
    { rewrite not_elem_of_cons. split; [by intros [= _ ->]|]. intros Hin. destruct Hx1. apply elem_of_entries_of; [|done].
      pose proof (uniq_slot_solo _ _ _ _ U Hs') as F. apply Forall_app in F as [_ F]. by apply Forall_cons_1 in F as [_ ?]. }
    assert (exists pre2, pre ++ post = pre2 ++ solo_bucket e :: bs) as [pre2 E2].
    { apply app_eq_inv in Hsplit as [(k0 & Hk1 & Hk2)|(k0 & Hk1 & Hk2)].
      - destruct k0 as [|b k0]; cbn in Hk2; [by rewrite <- Hk2 in Hnb; destruct Hnb; left|].
        injection Hk2 as <- ->. exists (pre ++ k0). by rewrite <- app_assoc.
      - exfalso. apply Hnb. rewrite Hk2. apply elem_of_app. right. left. }
    apply (at_bucket _ i pre2 e bs); [done| |done..]. rewrite list_lookup_insert_eq by done. by rewrite E2.
  - apply (at_bucket _ i pre' e bs); [done| |done..]. by rewrite list_lookup_insert_ne by done.
Qed.
End Solo.
