(* ===== verification/Symtab.v ===== *)
(** * Kernel symbol tables (libdtrace/dt_symtab.c)

    The symbols live in a store, addressed by their number; a symbol table keeps
    the list of its symbols and an array of address ranges that point to
    symbols, and all tables share one hash table of the symbols by name.  The
    theorems say which symbol an address is mapped to after the ranges have been
    formed, that forming them ends, and what a name is mapped to. *)

From stdpp Require Import base gmap list numbers sorting sets.
From S2P Require Import Prelude Str Htab.

(** ** Data *)

Record dt_symbol := Symbol {
  dts_name : bytes;
  dts_addr : Z;
  dts_size : Z;
  dts_info : Z;
  dts_hval : Z;
  dts_dmp : Z;
}.

Record dt_symrange := SymRange {
  dtsr_lo : Z;
  dtsr_hi : Z;
  dtsr_sym : nat;
}.

Definition DT_ST_SORTED : Z := 1.
Definition DT_ST_PACKED : Z := 2.
Definition DT_ST_TRACEABLE : Z := 4.
Definition DT_STB_TRACE : Z := 8.

(** [dtst_ranges] holds the first [dtst_num_range] elements of the array, which
    has room for [dtst_num_range_alloc]. *)
Record dt_symtab := Symtab {
  dtst_symlist : list nat;
  dtst_strtab : option bytes;
  dtst_ranges : list dt_symrange;
  dtst_num_range_alloc : Z;
  dtst_flags : Z;
}.

Definition dtst_num_range (t : dt_symtab) : Z := Z.of_nat (length (dtst_ranges t)).

Definition no_symbol : dt_symbol := Symbol [] 0 0 0 0 0.
Abbreviation store := (list dt_symbol).
Definition sym_at (st : store) (s : nat) : dt_symbol := default no_symbol (st !! s).

Definition GELF_ST_TYPE (i : Z) : Z := Z.land i 15.
Definition GELF_ST_BIND (i : Z) : Z := Z.shiftr i 4.
Definition GELF_ST_INFO (b t : Z) : Z := u8 (Z.shiftl b 4 + Z.land t 15).
Definition STT_NOTYPE : Z := 0.
Definition STB_WEAK : Z := 2.

(** ** The C library *)

(** bsearch() on the elements [l .. u - 1], halving the interval; [None] is
    [NULL]. *)
Fixpoint bsearch_loop {A} (fuel : nat) (cmp : A -> Z) (base : list A) (l u : nat) : option A :=
  match fuel with
  | O => None
  | S fuel =>
      if (l <? u)%nat then
        let idx := ((l + u) / 2)%nat in
        p ← base !! idx;
        let comparison := cmp p in
        if comparison <? 0 then bsearch_loop fuel cmp base l idx
        else if 0 <? comparison then bsearch_loop fuel cmp base (S idx) u
        else Some p
      else None
  end.
Definition bsearch {A} (cmp : A -> Z) (base : list A) : option A :=
  bsearch_loop (S (length base)) cmp base 0 (length base).

(** ** Symbols by name *)

(** What the hash table reads of a symbol: its address (a template on the stack
    has none), and the name.  The cached hash value of a symbol is the hash of
    its name, that of a template 0. *)
Record symkey := SymKey { sk_sym : option nat; sk_name : bytes }.

#[export] Instance symkey_eq_dec : EqDecision symkey.
Proof. solve_decision. Defined.

Section Names.
(** How a byte of a string reads as a [char]. *)
Variable chr : Z -> Z.

Definition sk_hval (k : symkey) : Z :=
  match sk_sym k with Some _ => str2hval chr (sk_name k) 0 | None => 0 end.

Definition dt_symtab_hval (sym : symkey) : Z :=
  if c_true (sk_hval sym) then sk_hval sym else str2hval chr (sk_name sym) 0.

Definition dt_symtab_cmp (p q : symkey) : Z := strcmp (sk_name p) (sk_name q).

(** DEFINE_HTAB_STD_OPS(dt_symtab) *)
Definition dt_symtab_htab_ops : htab_ops symkey :=
  HtabOps dt_symtab_hval dt_symtab_cmp he_add he_del.

(** The state: the store of symbols and [dtp->dt_kernsyms]. *)
Record world := World { w_store : store; w_kernsyms : option (dt_htab symkey) }.

Definition dt_symtab_create (w : world) (m : allocs) : option dt_symtab * world * allocs :=
  let '(ok, w, m) :=
    match w_kernsyms w with
    | Some _ => (true, w, m)
    | None =>
        let '(ok1, m) := malloc m in
        let '(ok2, m) := if ok1 then malloc m else (false, m) in
        match dt_htab_create ok1 ok2 with
        | Some h => (true, World (w_store w) (Some h), m)
        | None => (false, w, m)
        end
    end in
  if negb ok then (None, w, m)
  else
    let '(ok, m) := malloc m in
    if negb ok then (None, w, m) else (Some (Symtab [] None [] 0 0), w, m).

Definition dt_symtab_grow_ranges (symtab : dt_symtab) (m : allocs) : option dt_symtab * allocs :=
  let num_alloc := u32 ((dtst_num_range_alloc symtab + 1) * 2) in
  let '(ok, m) := malloc m in
  if negb ok then (None, m)
  else (Some (Symtab (dtst_symlist symtab) (dtst_strtab symtab) (dtst_ranges symtab)
                num_alloc (dtst_flags symtab)), m).

(** The element [dtst_num_range] of the array is written: undefined ([None]) when
    there is no room. *)
Definition push_range (t : dt_symtab) (r : dt_symrange) : option dt_symtab :=
  if dtst_num_range t <? dtst_num_range_alloc t
  then Some (Symtab (dtst_symlist t) (dtst_strtab t) (dtst_ranges t ++ [r])
               (dtst_num_range_alloc t) (dtst_flags t))
  else None.

Definition set_flags (t : dt_symtab) (f : Z) : dt_symtab :=
  Symtab (dtst_symlist t) (dtst_strtab t) (dtst_ranges t) (dtst_num_range_alloc t) f.

(** The result is the new symbol; its range is a new element of the array whose
    bounds are what the memory held ([junk]). *)
Definition dt_symbol_insert (junk : Z * Z) (w : world) (symtab : dt_symtab) (m : allocs)
    (dmp : Z) (name : bytes) (addr size info : Z)
    : option (option nat * world * dt_symtab * allocs) :=
  if flag (dtst_flags symtab) DT_ST_PACKED then Some (None, w, symtab, m)
  else
    let '(ok, m) := malloc m in
    if negb ok then Some (None, w, symtab, m)
    else
      let '(grown, m) :=
        if dtst_num_range_alloc symtab <=? dtst_num_range symtab
        then dt_symtab_grow_ranges symtab m else (Some symtab, m) in
      match grown with
      | None => Some (None, w, symtab, m)
      | Some symtab =>
          let dtsp := Symbol name addr size info (str2hval chr name 0) dmp in
          let '(ok, m) := malloc m in
          if negb ok then Some (None, w, symtab, m)
          else
            let s := length (w_store w) in
            h ← w_kernsyms w;
            let '(ok_resize, m) := malloc m in
            let '(ok_bucket, m) := malloc m in
            '(rc, h) ← dt_htab_insert dt_symtab_htab_ops (λ _, ok_resize) ok_bucket h (SymKey (Some s) name);
            if rc <? 0 then Some (None, World (w_store w) (Some h), symtab, m)
            else
              let w := World (w_store w ++ [dtsp]) (Some h) in
              let symtab := Symtab (dtst_symlist symtab ++ [s]) (dtst_strtab symtab) (dtst_ranges symtab)
                              (dtst_num_range_alloc symtab) (dtst_flags symtab) in
              symtab ← (if 0 <? size then push_range symtab (SymRange junk.1 junk.2 s) else Some symtab);
              Some (Some s, w, set_flags symtab (Z.ldiff (dtst_flags symtab) DT_ST_SORTED), m)
      end.

(** The chain of the symbols with that name: the first is the result, the others
    follow through [dt_symbol_by_name_next]. *)
Definition dt_symbol_by_name (w : world) (name : bytes) : list symkey :=
  match w_kernsyms w with
  | Some h => dt_htab_lookup dt_symtab_htab_ops h (SymKey None name)
  | None => []
  end.

Definition dt_symbol_by_name_next (symbol : list symkey) : list symkey := tail symbol.

Fixpoint module_walk (st : store) (dmp : Z) (symbol : list symkey) : option nat :=
  match symbol with
  | [] => None
  | k :: next =>
      match sk_sym k with
      | Some s => if dts_dmp (sym_at st s) =? dmp then Some s else module_walk st dmp next
      | None => module_walk st dmp next
      end
  end.
Definition dt_module_symbol_by_name (w : world) (dmp : Z) (name : bytes) : option nat :=
  module_walk (w_store w) dmp (dt_symbol_by_name w name).
End Names.

(** ** Symbols by address *)

Definition cleanup_module : bytes := [99; 108; 101; 97; 110; 117; 112; 95; 109; 111; 100; 117; 108; 101].

Definition dt_symrange_sort_cmp (st : store) (lp rp : dt_symrange) : Z :=
  let lhs := sym_at st (dtsr_sym lp) in
  let rhs := sym_at st (dtsr_sym rp) in
  if dts_addr lhs <? dts_addr rhs then -1
  else if dts_addr rhs <? dts_addr lhs then 1
  else if dts_size rhs <? dts_size lhs then -1
  else if dts_size lhs <? dts_size rhs then 1
  else
    let ln := GELF_ST_TYPE (dts_info lhs) =? STT_NOTYPE in
    let rn := GELF_ST_TYPE (dts_info rhs) =? STT_NOTYPE in
    if negb (eqb ln rn) then (if ln then 1 else -1)
    else
      let lw := GELF_ST_BIND (dts_info lhs) =? STB_WEAK in
      let rw := GELF_ST_BIND (dts_info rhs) =? STB_WEAK in
      if negb (eqb lw rw) then (if lw then 1 else -1)
      else
        let lc := strcmp (dts_name lhs) cleanup_module in
        let rc := strcmp (dts_name rhs) cleanup_module in
        if c_true lc && (rc =? 0) then -1
        else if c_true rc && (lc =? 0) then 1
        else strcmp (dts_name lhs) (dts_name rhs).

Definition dt_symbol_search_cmp (lhs : Z) (rhs : dt_symrange) : Z :=
  if lhs <? dtsr_lo rhs then -1 else if dtsr_hi rhs <=? lhs then 1 else 0.

Definition dt_symbol_by_addr (symtab : dt_symtab) (addr : Z) : option nat :=
  if negb (flag (dtst_flags symtab) DT_ST_SORTED) then None
  else dtsr_sym <$> bsearch (dt_symbol_search_cmp addr) (dtst_ranges symtab).

Definition sym_end (s : dt_symbol) : Z := u64 (dts_addr s + dts_size s).

(** The loop over the other candidates for the range [lo .. hi - 1]. *)
Fixpoint other_candidates (st : store) (rest : list dt_symrange) (lo hi : Z) (sym : nat) : Z * nat :=
  match rest with
  | [] => (hi, sym)
  | r :: rest =>
      let sym2 := sym_at st (dtsr_sym r) in
      if hi <=? dts_addr sym2 then (hi, sym)
      else if lo <? dts_addr sym2 then (dts_addr sym2, sym)
      else
        let hi2 := sym_end sym2 in
        if hi2 <=? lo then other_candidates st rest lo hi sym
        else
          let hi := if hi2 <? hi then hi2 else hi in
          let cur := sym_at st sym in
          let sym :=
            if (dts_addr cur <? dts_addr sym2) ||
               ((dts_addr sym2 =? dts_addr cur) && (dts_size sym2 <? dts_size cur))
            then dtsr_sym r else sym in
          other_candidates st rest lo hi sym
  end.

(** Append to the new ranges, for which there is room for [num_alloc].  The inner
    result is [None] when memory runs out, the outer one when an element is
    written for which there is no room. *)
Definition new_range (new : list dt_symrange) (num_alloc : Z) (r : dt_symrange) (m : allocs)
    : option (option (list dt_symrange * Z) * allocs) :=
  let num_range := Z.of_nat (length new) in
  let '(room, m) :=
    if num_alloc <=? num_range then
      let '(ok, m) := malloc m in (if ok then Some (u32 (num_alloc + 1024)) else None, m)
    else (Some num_alloc, m) in
  match room with
  | None => Some (None, m)
  | Some n => if num_range <? n then Some (Some (new ++ [r], n), m) else None
  end.

(** The new range is joined with the last one if that ends where it starts and
    has the same symbol. *)
Definition add_range (new : list dt_symrange) (num_alloc lo hi : Z) (sym : nat) (m : allocs)
    : option (option (list dt_symrange * Z) * allocs) :=
  match last new with
  | Some r =>
      if (dtsr_hi r =? lo) && (dtsr_sym r =? sym)%nat
      then Some (Some (<[pred (length new) := SymRange (dtsr_lo r) hi (dtsr_sym r)]> new, num_alloc), m)
      else new_range new num_alloc (SymRange lo hi sym) m
  | None => new_range new num_alloc (SymRange lo hi sym) m
  end.

(** The loop over the symbols: [rest] are the elements from index [i] on, [hi]
    the end of the ranges so far. *)
Fixpoint form_loop (fuel : nat) (st : store) (rest : list dt_symrange) (hi : Z)
    (new : list dt_symrange) (num_alloc : Z) (m : allocs)
    : option (option (list dt_symrange * Z) * allocs) :=
  match fuel with
  | O => None
  | S fuel =>
      match rest with
      | [] => Some (Some (new, num_alloc), m)
      | r :: tl =>
          let sym := sym_at st (dtsr_sym r) in
          if dts_size sym =? 0 then form_loop fuel st tl hi new num_alloc m
          else
            let lo := dts_addr sym in
            if (lo <? hi) && (sym_end sym <=? hi) then form_loop fuel st tl hi new num_alloc m
            else
              let lo := if lo <? hi then hi else lo in
              let '(hi, s) := other_candidates st tl lo (sym_end sym) (dtsr_sym r) in
              '(res, m) ← add_range new num_alloc lo hi s m;
              match res with
              | None => Some (None, m)
              | Some (new, num_alloc) => form_loop fuel st rest hi new num_alloc m
              end
      end
  end.

(** At most three rounds per symbol ([form_loop_total]). *)
Definition form_fuel (ranges : list dt_symrange) : nat := S (3 * length ranges).

Definition dt_symtab_form_ranges (st : store) (symtab : dt_symtab) (m : allocs)
    : option (Z * dt_symtab * allocs) :=
  if dtst_num_range symtab =? 0 then Some (0, symtab, m)
  else
    let '(ok, m) := malloc m in
    if negb ok then Some (-1, symtab, m)
    else
      '(res, m) ← form_loop (form_fuel (dtst_ranges symtab)) st (dtst_ranges symtab) 0 []
                    (dtst_num_range_alloc symtab) m;
      match res with
      | None => Some (-1, symtab, m)
      | Some (new, num_alloc) =>
          Some (0, Symtab (dtst_symlist symtab) (dtst_strtab symtab) new num_alloc (dtst_flags symtab), m)
      end.

Definition set_size (s : dt_symbol) (size : Z) : dt_symbol :=
  Symbol (dts_name s) (dts_addr s) size (dts_info s) (dts_hval s) (dts_dmp s).

(** Each symbol but the last ends where the next one starts. *)
Fixpoint set_sizes (st : store) (sym : nat) (ranges : list dt_symrange) : store :=
  match ranges with
  | [] => st
  | r :: ranges =>
      let nsym := dtsr_sym r in
      let st := alter (λ s, set_size s (u64 (dts_addr (sym_at st nsym) - dts_addr s))) sym st in
      set_sizes st nsym ranges
  end.

Section Sort.
Variable qsort : forall A, (A -> A -> Z) -> list A -> list A.

Definition dt_symtab_sort (st : store) (symtab : dt_symtab) (flg : Z) (m : allocs)
    : option (store * dt_symtab * allocs) :=
  if flag (dtst_flags symtab) DT_ST_SORTED then Some (st, symtab, m)
  else
    let ranges := qsort _ (dt_symrange_sort_cmp st) (dtst_ranges symtab) in
    let symtab := Symtab (dtst_symlist symtab) (dtst_strtab symtab) ranges
                    (dtst_num_range_alloc symtab) (dtst_flags symtab) in
    let st :=
      if c_true flg then
        match ranges with
        | [] => st
        | r :: ranges => set_sizes st (dtsr_sym r) ranges
        end
      else st in
    '(rc, symtab, m) ← dt_symtab_form_ranges st symtab m;
    if c_true rc then Some (st, symtab, m)
    else Some (st, set_flags symtab (Z.lor (dtst_flags symtab) DT_ST_SORTED), m).

(** The names are copied into one string table, each with its NUL.  The text a
    symbol's name points to stays the same. *)
Definition dt_symtab_pack (st : store) (symtab : dt_symtab) (m : allocs)
    : option (store * dt_symtab * allocs) :=
  if flag (dtst_flags symtab) DT_ST_PACKED then Some (st, symtab, m)
  else
    '(st, symtab, m) ← dt_symtab_sort st symtab 0 m;
    let '(ok, m) := malloc m in
    if negb ok then Some (st, symtab, m)
    else
      let strtab := concat ((λ s, dts_name (sym_at st s) ++ [0]) <$> dtst_symlist symtab) in
      Some (st, Symtab (dtst_symlist symtab) (Some strtab) (dtst_ranges symtab)
                  (dtst_num_range_alloc symtab) (Z.lor (dtst_flags symtab) DT_ST_PACKED), m).
End Sort.

(** ** Flags *)

Definition dt_symtab_set_traceable (symtab : dt_symtab) : dt_symtab :=
  set_flags symtab (Z.lor (dtst_flags symtab) DT_ST_TRACEABLE).
Definition dt_symtab_traceable (symtab : dt_symtab) : Z := Z.land (dtst_flags symtab) DT_ST_TRACEABLE.

Definition dt_symbol_set_traceable (s : dt_symbol) : dt_symbol :=
  Symbol (dts_name s) (dts_addr s) (dts_size s) (u8 (Z.lor (dts_info s) (GELF_ST_INFO DT_STB_TRACE 0)))
    (dts_hval s) (dts_dmp s).
Definition dt_symbol_traceable (s : dt_symbol) : Z := Z.land (GELF_ST_BIND (dts_info s)) DT_STB_TRACE.

Record Elf64_Sym := ElfSym { st_info : Z; st_value : Z; st_size : Z; st_shndx : Z }.
Definition dt_symbol_to_elfsym64 (s : dt_symbol) : Elf64_Sym :=
  ElfSym (u8 (Z.ldiff (dts_info s) (GELF_ST_INFO DT_STB_TRACE 0))) (dts_addr s) (dts_size s) 1.

(** ** Comparison functions *)

(** Compare by [c1], and by [c2] where that does not decide. *)
Definition cmp_lex {A} (c1 c2 : A -> A -> Z) (x y : A) : Z := if c1 x y =? 0 then c2 x y else c1 x y.

(** Compare by a number, the smaller first. *)
Definition cmp_key {A} (f : A -> Z) (x y : A) : Z := if f x <? f y then -1 else if f y <? f x then 1 else 0.

#[export] Instance cmp_lex_ok {A} (c1 c2 : A -> A -> Z) : Comparison c1 -> Comparison c2 -> Comparison (cmp_lex c1 c2).
Proof.
  intros [F1 T1] [F2 T2]. unfold cmp_lex. split.
  - intros x y. pose proof (F1 x y). pose proof (F1 y x). pose proof (F2 x y). repeat case_cmp; lia.
  - intros x y z. pose proof (F1 x y). pose proof (F1 y x). pose proof (F1 y z). pose proof (F1 z y).
    pose proof (F1 x z). pose proof (F1 z x).
    pose proof (T1 x y z). pose proof (T1 y z x). pose proof (T1 z x y). pose proof (T2 x y z).
    repeat case_cmp; lia.
Qed.

#[export] Instance cmp_key_ok {A} (f : A -> Z) : Comparison (cmp_key f).
Proof. unfold cmp_key. split; [intros x y|intros x y z]; repeat case_cmp; lia. Qed.

(** The order of [dt_symrange_sort_cmp], one criterion after the other. *)
Definition symrange_order (st : store) : dt_symrange -> dt_symrange -> Z :=
  let sym r := sym_at st (dtsr_sym r) in
  cmp_lex (cmp_key (λ r, dts_addr (sym r)))
  (cmp_lex (cmp_key (λ r, - dts_size (sym r)))
  (cmp_lex (cmp_key (λ r, c_bool (GELF_ST_TYPE (dts_info (sym r)) =? STT_NOTYPE)))
  (cmp_lex (cmp_key (λ r, c_bool (GELF_ST_BIND (dts_info (sym r)) =? STB_WEAK)))
  (cmp_lex (cmp_key (λ r, c_bool (strcmp (dts_name (sym r)) cleanup_module =? 0)))
     (λ l r, strcmp (dts_name (sym l)) (dts_name (sym r))))))).

Lemma dt_symrange_sort_cmp_eq st l r : dt_symrange_sort_cmp st l r = symrange_order st l r.
Proof.
  unfold dt_symrange_sort_cmp, symrange_order, cmp_lex, cmp_key.
  set (a := sym_at st (dtsr_sym l)). set (b := sym_at st (dtsr_sym r)).
  destruct (Z.ltb_spec (dts_addr a) (dts_addr b)), (Z.ltb_spec (dts_addr b) (dts_addr a)); try done.
  destruct (Z.ltb_spec (dts_size b) (dts_size a)), (Z.ltb_spec (dts_size a) (dts_size b));
    destruct (Z.ltb_spec (- dts_size a) (- dts_size b)), (Z.ltb_spec (- dts_size b) (- dts_size a)); try lia; try done.
  destruct (GELF_ST_TYPE (dts_info a) =? STT_NOTYPE), (GELF_ST_TYPE (dts_info b) =? STT_NOTYPE); try done;
    destruct (GELF_ST_BIND (dts_info a) =? STB_WEAK), (GELF_ST_BIND (dts_info b) =? STB_WEAK); try done;
    unfold c_true; by destruct (strcmp (dts_name a) cleanup_module =? 0), (strcmp (dts_name b) cleanup_module =? 0).
Qed.

#[export] Instance strcmp_names_ok {A} (f : A -> bytes) : Comparison (λ x y, strcmp (f x) (f y)).
Proof. split; intros; [apply cmp_flip|]. by eapply cmp_le_trans. Qed.

#[export] Instance sort_cmp_ok st : Comparison (dt_symrange_sort_cmp st).
Proof.
  assert (Comparison (symrange_order st)) as [F T] by (unfold symrange_order; apply _).
  split; intros *; rewrite !dt_symrange_sort_cmp_eq; [apply F|apply T].
Qed.

Lemma sort_cmp_addr st l r :
  dt_symrange_sort_cmp st l r <= 0 -> dts_addr (sym_at st (dtsr_sym l)) <= dts_addr (sym_at st (dtsr_sym r)).
Proof.
  unfold dt_symrange_sort_cmp. set (a := sym_at st (dtsr_sym l)). set (b := sym_at st (dtsr_sym r)).
  destruct (Z.ltb_spec (dts_addr a) (dts_addr b)), (Z.ltb_spec (dts_addr b) (dts_addr a)); lia.
Qed.

(** ** Which symbol an address belongs to *)

Definition spans (s : dt_symbol) (a : Z) : bool := (dts_addr s <=? a) && (a <? dts_addr s + dts_size s).

(** [s] is nested in [c]: it starts later, or at the same address and is
    smaller. *)
Definition nested (s c : dt_symbol) : bool :=
  (dts_addr c <? dts_addr s) || ((dts_addr s =? dts_addr c) && (dts_size s <? dts_size c)).

(** The innermost of the symbols that span [a], the first of several. *)
Definition winner_step (st : store) (a : Z) (cur : option nat) (s : nat) : option nat :=
  if spans (sym_at st s) a then
    match cur with
    | None => Some s
    | Some c => if nested (sym_at st s) (sym_at st c) then Some s else cur
    end
  else cur.
Definition winner (st : store) (l : list nat) (a : Z) : option nat := foldl (winner_step st a) None l.

(** What that means: the result spans [a], every other symbol that does encloses
    it or has the same bounds and comes later. *)
Definition innermost (st : store) (l : list nat) (a : Z) (s : nat) : Prop :=
  exists l1 l2, l = l1 ++ s :: l2 /\ spans (sym_at st s) a = true /\
    (forall s', s' ∈ l1 -> spans (sym_at st s') a = true -> nested (sym_at st s) (sym_at st s') = true) /\
    (forall s', s' ∈ l2 -> spans (sym_at st s') a = true -> nested (sym_at st s') (sym_at st s) = false).

Lemma nested_trans s1 s2 s3 : nested s1 s2 = true -> nested s2 s3 = true -> nested s1 s3 = true.
Proof.
  unfold nested. rewrite !orb_true_iff, !andb_true_iff, !Z.ltb_lt, !Z.eqb_eq. lia.
Qed.
Lemma nested_trans_r s1 s2 s3 : nested s1 s2 = true -> nested s3 s2 = false -> nested s1 s3 = true.
Proof.
  unfold nested. rewrite !orb_true_iff, !orb_false_iff, !andb_true_iff, !andb_false_iff, !Z.ltb_lt, !Z.ltb_ge,
    !Z.eqb_eq, !Z.eqb_neq. lia.
Qed.

Lemma winner_snoc st l s a : winner st (l ++ [s]) a = winner_step st a (winner st l a) s.
Proof. unfold winner. by rewrite foldl_snoc. Qed.

Lemma winner_spec st l a :
  match winner st l a with
  | Some s => innermost st l a s
  | None => forall s, s ∈ l -> spans (sym_at st s) a = false
  end.
Proof.
  induction l as [|s l IH] using rev_ind; [by intros s ?%not_elem_of_nil|].
  rewrite winner_snoc. unfold winner_step. destruct (winner st l a) as [c|].
  - destruct IH as (l1 & l2 & -> & Hc & H1 & H2). destruct (spans (sym_at st s) a) eqn:Hs.
    + destruct (nested (sym_at st s) (sym_at st c)) eqn:Hn.
      * exists (l1 ++ c :: l2), []. split; [done|]. split; [done|]. split; [|by intros ? ?%not_elem_of_nil].
        intros s' [Hs'|[-> |Hs']%elem_of_cons]%elem_of_app Ha; [|done|].
        -- eapply nested_trans; [exact Hn|by apply H1].
        -- eapply nested_trans_r; [exact Hn|by apply H2].
      * exists l1, (l2 ++ [s]). rewrite <- app_assoc. split; [done|]. split; [done|]. split; [done|].
        intros s' [Hs'| ->%list_elem_of_singleton]%elem_of_app Ha; [by apply H2|done].
    + exists l1, (l2 ++ [s]). rewrite <- app_assoc. split; [done|]. split; [done|]. split; [done|].
      intros s' [Hs'| ->%list_elem_of_singleton]%elem_of_app Ha; [by apply H2|congruence].
  - destruct (spans (sym_at st s) a) eqn:Hs.
    + exists l, []. split; [done|]. split; [done|]. split; [|by intros ? ?%not_elem_of_nil].
      intros s' Hs' Ha. rewrite IH in Ha by done. done.
    + intros s' [Hs'| ->%list_elem_of_singleton]%elem_of_app; [by apply IH|done].
Qed.

(** ** Forming the ranges *)

Section Form.
Context (st : store).

Abbreviation addr r := (dts_addr (sym_at st (dtsr_sym r))).
Abbreviation endr r := (sym_end (sym_at st (dtsr_sym r))).

(** No symbol goes beyond the address space. *)
Definition no_wrap (s : dt_symbol) : Prop :=
  0 <= dts_addr s /\ 0 <= dts_size s /\ dts_addr s + dts_size s < 2 ^ 64.

Definition by_addr (l : list dt_symrange) : Prop := StronglySorted (λ r r', addr r <= addr r') l.

Lemma sym_end_eq s : no_wrap s -> sym_end s = dts_addr s + dts_size s.
Proof. intros (H1 & H2 & H3). apply wrapu_small. lia. Qed.

Lemma spans_false s a : a < dts_addr s \/ dts_addr s + dts_size s <= a -> spans s a = false.
Proof. unfold spans. intros H. destruct (Z.leb_spec (dts_addr s) a), (Z.ltb_spec a (dts_addr s + dts_size s)); simpl; lia || done. Qed.
Lemma spans_true s a : dts_addr s <= a -> a < dts_addr s + dts_size s -> spans s a = true.
Proof. unfold spans. intros H1 H2. rewrite (proj2 (Z.leb_le _ _) H1), (proj2 (Z.ltb_lt _ _) H2). done. Qed.

(** Symbols that do not span [a] do not count. *)
Lemma winner_none l a cur :
  (forall r, r ∈ l -> spans (sym_at st (dtsr_sym r)) a = false) ->
  foldl (winner_step st a) cur (dtsr_sym <$> l) = cur.
Proof.
  revert cur; induction l as [|r l IH]; intros cur H; [done|]. simpl. unfold winner_step at 2.
  rewrite H by set_solver. apply IH. set_solver.
Qed.

Definition bounds (l : list dt_symrange) : list Z := ((λ r, addr r) <$> l) ++ ((λ r, endr r) <$> l).

Lemma other_candidates_spec rest : forall lo hi sym,
  by_addr rest -> Forall (λ r, no_wrap (sym_at st (dtsr_sym r))) rest -> lo < hi ->
  let '(hi', s) := other_candidates st rest lo hi sym in
  lo < hi' <= hi /\ (hi' = hi \/ hi' ∈ bounds rest) /\
  forall a, lo <= a < hi' -> foldl (winner_step st a) (Some sym) (dtsr_sym <$> rest) = Some s.
Proof.
  induction rest as [|r rest IH]; intros lo hi sym Hs Hw Hlt; simpl; [split; [lia|]; by split; [left|]|].
  apply Forall_cons in Hw as [Hr Hw]. pose proof Hr as (R1 & R2 & R3). pose proof (sym_end_eq _ Hr) as Er.
  pose proof Hs as Hs0. apply StronglySorted_cons in Hs as [Hle Hs]. rewrite Forall_forall in Hle.
  assert (forall a, a < addr r -> foldl (winner_step st a) (Some sym) (dtsr_sym <$> r :: rest) = Some sym) as Hout.
  { intros a Ha. apply winner_none. intros r' [-> |Hr']%elem_of_cons; apply spans_false; [lia|].
    pose proof (Hle _ Hr'). lia. }
  destruct (Z.leb_spec hi (addr r)).
  { split; [lia|]. split; [by left|]. intros a Ha. apply Hout. lia. }
  destruct (Z.ltb_spec lo (addr r)).
  { split; [lia|]. split; [right; unfold bounds; set_solver|]. intros a Ha. apply Hout. lia. }
  set (hi2 := endr r) in *. assert (forall x, x ∈ bounds rest -> x ∈ bounds (r :: rest)) as Hsub.
  { unfold bounds. simpl. set_solver. }
  destruct (Z.leb_spec hi2 lo).
  { specialize (IH lo hi sym Hs Hw Hlt). destruct (other_candidates st rest lo hi sym) as [hi' s].
    destruct IH as (I1 & I2 & I3). split; [done|]. split; [naive_solver|]. intros a Ha.
    unfold winner_step at 2. rewrite spans_false by lia. by apply I3. }
  set (hi1 := if hi2 <? hi then hi2 else hi) in *. assert (lo < hi1 <= hi /\ hi1 <= hi2) as [Hhi1 Hhi2] by (subst hi1; case_cmp; lia).
  set (sym1 := if _ || _ then dtsr_sym r else sym).
  specialize (IH lo hi1 sym1 Hs Hw ltac:(lia)). destruct (other_candidates st rest lo hi1 sym1) as [hi' s].
  destruct IH as (I1 & I2 & I3). split; [lia|]. split.
  - destruct I2 as [-> |]; [|by right; apply Hsub]. subst hi1. case_cmp; [right|by left].
    unfold bounds. set_solver.
  - intros a Ha. unfold winner_step at 2. rewrite spans_true by lia.
    rewrite <- (I3 a Ha). subst sym1. unfold nested.
    by destruct (_ || _).
Qed.

(** The ranges map [a] to [s]. *)
Definition maps (new : list dt_symrange) (a : Z) (s : nat) : Prop :=
  exists r, r ∈ new /\ dtsr_lo r <= a < dtsr_hi r /\ dtsr_sym r = s.

(** Ranges are not empty, disjoint, in order, and end at [hi]. *)
Definition ranges_ok (new : list dt_symrange) (hi : Z) : Prop :=
  StronglySorted (λ r r', dtsr_hi r <= dtsr_lo r') new /\ Forall (λ r, dtsr_lo r < dtsr_hi r <= hi) new.

Lemma maps_snoc new r a s : maps (new ++ [r]) a s <-> maps new a s \/ (dtsr_lo r <= a < dtsr_hi r /\ s = dtsr_sym r).
Proof.
  unfold maps. split.
  - intros (r' & [Hr| ->%list_elem_of_singleton]%elem_of_app & Ha & Hs); [left; eauto|right; eauto].
  - intros [(r' & Hr & H)|[Ha ->]]; [exists r'; set_solver|exists r; set_solver].
Qed.

Lemma ranges_ok_snoc new hi r :
  ranges_ok new hi -> hi <= dtsr_lo r -> dtsr_lo r < dtsr_hi r -> ranges_ok (new ++ [r]) (dtsr_hi r).
Proof.
  intros [Hs Hf] Hlo Hr. rewrite Forall_forall in Hf. split.
  - apply StronglySorted_app. split; [|split; [done|by repeat constructor]].
    intros x y Hx ->%list_elem_of_singleton. pose proof (Hf _ Hx). lia.
  - apply Forall_app. split; [|by repeat constructor; lia]. apply Forall_forall. intros x Hx. pose proof (Hf _ Hx). simpl. lia.
Qed.

Section AddRange.
Context (new : list dt_symrange) (num_alloc old lo hi : Z) (sym : nat) (m : allocs).
Hypothesis Hok : ranges_ok new old.
Hypothesis Hlo : old <= lo < hi.
Hypothesis Hroom : Z.of_nat (length new) <= num_alloc < 2 ^ 32.
Hypothesis Hsmall : Z.of_nat (length new) + 1024 < 2 ^ 32.

Definition added (new' : list dt_symrange) (num_alloc' : Z) : Prop :=
  ranges_ok new' hi /\ (forall a s, maps new' a s <-> maps new a s \/ (lo <= a < hi /\ s = sym)) /\
  (length new' <= S (length new))%nat /\ Z.of_nat (length new') <= num_alloc' < 2 ^ 32.

(** Room is made when there is none; out of memory is an error, not undefined. *)
Lemma new_range_spec :
  exists res m', new_range new num_alloc (SymRange lo hi sym) m = Some (res, m') /\
  match res with
  | Some (new', num_alloc') => added new' num_alloc'
  | None => ~ plenty m 1
  end /\ forall n, plenty m (S n) -> plenty m' n.
Proof.
  assert (forall n, Z.of_nat (length new) < n < 2 ^ 32 -> added (new ++ [SymRange lo hi sym]) n) as Hadd.
  { intros n Hn. split; [apply (ranges_ok_snoc new old (SymRange lo hi sym)); simpl; [done|lia|lia]|]. split; [intros; apply maps_snoc|].
    rewrite length_app. simpl. lia. }
  unfold new_range. destruct (Z.leb_spec num_alloc (Z.of_nat (length new))).
  - destruct m as [|ok m0]; simpl; [|destruct ok].
    + do 2 eexists. split; [done|]. split; [by intros (? & [=])|by intros n (? & [=])].
    + rewrite wrapu_small by lia. rewrite (proj2 (Z.ltb_lt _ _)) by lia. do 2 eexists. split; [done|].
      split; [apply Hadd; lia|]. intros n [m1 [= ->]]. by exists m1.
    + do 2 eexists. split; [done|]. split; [by intros (? & [=])|by intros n (? & [=])].
  - rewrite (proj2 (Z.ltb_lt _ _)) by lia. do 2 eexists. split; [done|]. split; [apply Hadd; lia|].
    intros n Hp. by apply (plenty_le m (S n)); [|lia].
Qed.

Lemma add_range_spec :
  exists res m', add_range new num_alloc lo hi sym m = Some (res, m') /\
  match res with
  | Some (new', num_alloc') => added new' num_alloc'
  | None => ~ plenty m 1
  end /\ forall n, plenty m (S n) -> plenty m' n.
Proof.
  unfold add_range. destruct (last new) as [r|] eqn:Hl; [|apply new_range_spec].
  destruct ((dtsr_hi r =? lo) && (dtsr_sym r =? sym)%nat) eqn:Hj; [|apply new_range_spec].
  apply andb_prop in Hj as [Hj%Z.eqb_eq Hs%Nat.eqb_eq].
  apply last_Some in Hl as [new0 Hnew]. rewrite Hnew in Hok, Hroom |- *.
  do 2 eexists. split; [done|]. split; [|intros n Hp; by apply (plenty_le m (S n)); [|lia]].
  rewrite length_app. simpl. replace (pred (length new0 + 1)) with (length new0) by lia.
  rewrite insert_app_r_alt, Nat.sub_diag by done. simpl.
  destruct Hok as [Hst Hf]. apply StronglySorted_app in Hst as (Hx & Hst & _).
  apply Forall_app in Hf as [Hf Hr]. apply Forall_cons in Hr as [Hr _].
  split; [|split; [|rewrite ?Hnew, !length_app in *; simpl in *; lia]].
  - apply (ranges_ok_snoc new0 (dtsr_lo r) (SymRange (dtsr_lo r) hi (dtsr_sym r))); simpl; [|lia|lia].
    split; [done|]. apply Forall_forall. intros x Hx'. pose proof (proj1 (Forall_forall _ _) Hf _ Hx'). simpl in *.
    pose proof (Hx x r Hx' ltac:(set_solver)). lia.
  - intros a s. rewrite maps_snoc. rewrite Hnew, maps_snoc. simpl. split.
    + intros [?|[Ha ->]]; [by left; left|]. destruct (Z.lt_ge_cases a lo); [left; right; split; [lia|done]|right].
      split; [lia|done].
    + intros [[?|[Ha ->]]|[Ha ->]]; [by left|right..]; (split; [lia|done]).
Qed.
End AddRange.

Section Loop.
Context (L : list dt_symrange).
Hypothesis Hsorted : by_addr L.
Hypothesis Hwrap : Forall (λ r, no_wrap (sym_at st (dtsr_sym r))) L.
Hypothesis Hcount : 2 * Z.of_nat (length L) + 1024 < 2 ^ 32.

(** The bounds beyond [hi]: each new range uses up one of them. *)
Definition beyond (hi : Z) : nat := length (filter (λ x, hi < x) (bounds L)).

Lemma beyond_lt hi hi' : hi < hi' -> hi' ∈ bounds L -> (beyond hi' < beyond hi)%nat.
Proof.
  intros Hlt Hin. unfold beyond. apply list_elem_of_split in Hin as (l1 & l2 & ->).
  assert (forall l, (length (filter (λ x, hi' < x)%Z l) <= length (filter (λ x, hi < x)%Z l))%nat) as Hle.
  { intros l. induction l as [|x l IH]; [done|]. rewrite !filter_cons. repeat case_decide; simpl; lia. }
  rewrite !filter_app, !length_app, !filter_cons. rewrite decide_False by lia. rewrite decide_True by lia.
  simpl. pose proof (Hle l1). pose proof (Hle l2). lia.
Qed.

Lemma beyond_le hi : (beyond hi <= 2 * length L)%nat.
Proof.
  unfold beyond. etrans; [apply length_filter|]. unfold bounds. rewrite length_app, !length_fmap. lia.
Qed.

Definition right_below (new : list dt_symrange) (hi : Z) : Prop :=
  forall a s, a < hi -> maps new a s <-> winner st (dtsr_sym <$> L) a = Some s.

(** The symbols before [rest] are done with: they are empty or end before [hi]. *)
Definition passed (dn : list dt_symrange) (hi : Z) : Prop :=
  forall r, r ∈ dn -> dts_size (sym_at st (dtsr_sym r)) = 0 \/ endr r <= hi.

Lemma passed_winner dn hi a l : (forall r, r ∈ dn -> r ∈ L) -> passed dn hi -> hi <= a ->
  foldl (winner_step st a) None (dtsr_sym <$> (dn ++ l)) = foldl (winner_step st a) None (dtsr_sym <$> l).
Proof.
  intros Hsub Hp Ha. rewrite fmap_app, foldl_app. f_equal. apply winner_none. intros r Hr.
  pose proof (proj1 (Forall_forall _ _) Hwrap r (Hsub r Hr)) as Hw. simpl in Hw.
  destruct (Hp r Hr) as [E|E]; apply spans_false; [rewrite E; lia|rewrite sym_end_eq in E by done; lia].
Qed.

(** What the next range maps its addresses to. *)
Lemma round_right dn r tl hi hi' s new new' :
  L = dn ++ r :: tl -> passed dn hi -> ranges_ok new hi -> right_below new hi ->
  let lo := if addr r <? hi then hi else addr r in
  lo < endr r -> other_candidates st tl lo (endr r) (dtsr_sym r) = (hi', s) ->
  (forall a s', maps new' a s' <-> maps new a s' \/ (lo <= a < hi' /\ s' = s)) ->
  right_below new' hi' /\ lo < hi' /\ hi' ∈ bounds L.
Proof.
  intros HL Hp [_ Hok] Hr lo Hlo Hoc Hmaps. rewrite Forall_forall in Hok.
  pose proof Hwrap as Hw. pose proof Hsorted as Hs. unfold by_addr in Hs. rewrite HL in Hw, Hs.
  apply Forall_app in Hw as [_ Hw]. apply Forall_cons in Hw as [Hwr Hwt]. pose proof (sym_end_eq _ Hwr) as Er.
  apply StronglySorted_app in Hs as (_ & _ & Hs). apply StronglySorted_cons in Hs as [Hrt Hst].
  rewrite Forall_forall in Hrt.
  pose proof (other_candidates_spec tl lo (endr r) (dtsr_sym r) Hst Hwt Hlo) as Hspec. rewrite Hoc in Hspec.
  destruct Hspec as (H1 & H2 & H3). split; [|split; [lia|]].
  - intros a s' Ha. rewrite Hmaps. destruct (Z.lt_ge_cases a hi) as [Hah|Hah].
    { rewrite <- (Hr a s' Hah). split; [|by left]. intros [?|[? _]]; [done|]. subst lo. case_cmp_in H; lia. }
    unfold winner. rewrite HL, (passed_winner dn hi); [|rewrite HL; set_solver|done|done].
    assert (~ maps new a s') as Hno by (intros (r' & Hin & Hra & _); pose proof (Hok r' Hin); simpl in *; lia).
    destruct (Z.lt_ge_cases a lo) as [Hal|Hal].
    + rewrite winner_none; [split; [intros [?|[? _]]; [done|lia]|done]|].
      assert (lo = addr r) as Elo by (subst lo; case_cmp; lia).
      intros r' [-> |Hr']%elem_of_cons; apply spans_false; [lia|]. pose proof (Hrt _ Hr'). simpl in *. lia.
    + rewrite fmap_cons. simpl. unfold winner_step at 2.
      rewrite spans_true; [|subst lo; case_cmp_in Hal; lia|lia]. rewrite H3 by lia.
      split; [intros [?|[_ ->]]; [done|done]|intros [= ->]; right; by split].
  - rewrite HL. unfold bounds. rewrite !fmap_app, !fmap_cons.
    destruct H2 as [-> |H2]; [set_solver|]. unfold bounds in H2. set_solver.
Qed.

Definition formed (m : allocs) (n : nat) (res : option (list dt_symrange * Z)) : Prop :=
  match res with
  | Some (new, alloc) => (exists hi, ranges_ok new hi) /\
      (forall a s, maps new a s <-> winner st (dtsr_sym <$> L) a = Some s) /\
      Z.of_nat (length new) <= alloc < 2 ^ 32 /\ (length new <= 2 * length L)%nat
  | None => ~ plenty m n
  end.

Lemma form_loop_spec fuel : forall dn rest hi new alloc m,
  L = dn ++ rest -> passed dn hi -> ranges_ok new hi -> right_below new hi ->
  (length new + beyond hi <= 2 * length L)%nat -> Z.of_nat (length new) <= alloc < 2 ^ 32 ->
  (length rest + beyond hi < fuel)%nat ->
  exists res m', form_loop fuel st rest hi new alloc m = Some (res, m') /\ formed m (beyond hi) res.
Proof.
  induction fuel as [|fuel IH]; intros dn rest hi new alloc m HL Hp Hok Hr Hn Ha Hf; [lia|]. simpl.
  destruct rest as [|r tl].
  { do 2 eexists. split; [done|]. split; [by exists hi|]. split; [|lia]. intros a s.
    destruct (Z.lt_ge_cases a hi); [by apply Hr|]. unfold winner. rewrite app_nil_r in HL. rewrite HL.
    rewrite <- (app_nil_r dn), (passed_winner dn hi); [|intros; by rewrite HL|done|done].
    split; [|done]. intros (r & Hin & Hra & _). pose proof (proj1 (Forall_forall _ _) (proj2 Hok) r Hin). simpl in *. lia. }
  assert (no_wrap (sym_at st (dtsr_sym r))) as Hwr by (apply (proj1 (Forall_forall _ _) Hwrap); rewrite HL; set_solver).
  pose proof Hwr as (W1 & W2 & W3). pose proof (sym_end_eq _ Hwr) as Er.
  assert (dts_size (sym_at st (dtsr_sym r)) = 0 \/ endr r <= hi ->
    exists res m', form_loop fuel st tl hi new alloc m = Some (res, m') /\ formed m (beyond hi) res) as Hskip.
  { intros Hd. apply (IH (dn ++ [r])); try done; [by rewrite <- app_assoc| |simpl in Hf; lia].
    intros r' [Hr'| ->%list_elem_of_singleton]%elem_of_app; [by apply Hp|done]. }
  destruct (Z.eqb_spec (dts_size (sym_at st (dtsr_sym r))) 0) as [E0|E0]; [by apply Hskip; left|].
  destruct ((addr r <? hi) && (endr r <=? hi)) eqn:Hd; [apply Hskip; right; b2p; lia|]. clear Hskip.
  set (lo := if addr r <? hi then hi else addr r).
  assert (hi <= lo < endr r) as Hlo.
  { subst lo. destruct (Z.ltb_spec (addr r) hi); simpl in Hd; b2p; lia. }
  destruct (other_candidates st tl lo (endr r) (dtsr_sym r)) as [hi' s] eqn:Hoc.
  destruct (round_right dn r tl hi hi' s new (new ++ [SymRange lo hi' s]) HL Hp Hok Hr ltac:(fold lo; lia) Hoc)
    as (_ & Hlt & Hin); [intros; apply maps_snoc|].
  pose proof (beyond_lt hi hi' ltac:(lia) Hin) as Hb.
  destruct (add_range_spec new alloc hi lo hi' s m Hok ltac:(lia) Ha ltac:(lia)) as (res & m' & Eadd & Hres & Hpl).
  rewrite Eadd. simpl. destruct res as [[new' alloc']|].
  - destruct Hres as (Hok' & Hmaps & Hlen & Ha').
    destruct (round_right dn r tl hi hi' s new new' HL Hp Hok Hr ltac:(fold lo; lia) Hoc Hmaps) as (Hr' & _).
    destruct (IH dn (r :: tl) hi' new' alloc' m') as (res & m'' & E & Hfm); try done; [|lia|lia|].
    { intros r' Hr1. destruct (Hp r' Hr1); [by left|right; lia]. }
    exists res, m''. split; [done|]. destruct res as [[new2 alloc2]|]; [done|].
    intros Hp2. apply Hfm, Hpl. by apply (plenty_le m (beyond hi)); [|lia].
  - do 2 eexists. split; [done|]. intros Hp2. apply Hres. by apply (plenty_le m (beyond hi)); [|lia].
Qed.
End Loop.
End Form.

(** ** The binary search *)

Section Bsearch.
Context {A : Type} (cmp : A -> Z) (base : list A).
(** Elements before one that is too small are too small, after one that is too
    large too large. *)
Hypothesis Hmono : forall i j x y, base !! i = Some x -> base !! j = Some y -> (i <= j)%nat ->
  (cmp x < 0 -> cmp y < 0) /\ (0 < cmp y -> 0 < cmp x).

Lemma bsearch_loop_spec fuel : forall l u, (u - l < fuel)%nat -> (u <= length base)%nat ->
  match bsearch_loop fuel cmp base l u with
  | Some x => x ∈ base /\ cmp x = 0
  | None => forall i x, (l <= i < u)%nat -> base !! i = Some x -> cmp x <> 0
  end.
Proof.
  induction fuel as [|fuel IH]; intros l u Hf Hu; [lia|]. cbn [bsearch_loop].
  destruct (Nat.ltb_spec l u) as [Hlt|]; [|intros i x Hi; lia].
  assert (l <= (l + u) / 2 < u)%nat as Hmid.
  { split; [apply Nat.div_le_lower_bound; lia|apply Nat.Div0.div_lt_upper_bound; lia]. }
  set (mid := ((l + u) / 2)%nat) in *. destruct (lookup_lt_is_Some_2 base mid ltac:(lia)) as [p Hp].
  rewrite Hp. simpl. destruct (Z.ltb_spec (cmp p) 0).
  - specialize (IH l mid ltac:(lia) ltac:(lia)). destruct (bsearch_loop fuel cmp base l mid); [done|].
    intros i x Hi Hx. destruct (Nat.lt_ge_cases i mid); [apply (IH i x); [lia|done]|].
    destruct (Hmono mid i p x Hp Hx ltac:(lia)) as [Hc _]. pose proof (Hc ltac:(lia)). lia.
  - destruct (Z.ltb_spec 0 (cmp p)).
    + specialize (IH (S mid) u ltac:(lia) ltac:(lia)). destruct (bsearch_loop fuel cmp base (S mid) u); [done|].
      intros i x Hi Hx. destruct (Nat.lt_ge_cases mid i); [apply (IH i x); [lia|done]|].
      destruct (Hmono i mid x p Hx Hp ltac:(lia)) as [_ Hc]. pose proof (Hc ltac:(lia)). lia.
    + split; [by eapply list_elem_of_lookup_2|lia].
Qed.

Lemma bsearch_spec :
  match bsearch cmp base with
  | Some x => x ∈ base /\ cmp x = 0
  | None => forall x, x ∈ base -> cmp x <> 0
  end.
Proof.
  unfold bsearch. pose proof (bsearch_loop_spec (S (length base)) 0 (length base) ltac:(lia) ltac:(lia)) as H.
  destruct (bsearch_loop _ _ _ _ _); [done|]. intros x [i Hi]%list_elem_of_lookup. apply (H i); [|done].
  apply lookup_lt_Some in Hi. lia.
Qed.
End Bsearch.

Lemma ranges_ok_lookup new hi i j r r' : ranges_ok new hi -> new !! i = Some r -> new !! j = Some r' -> (i < j)%nat ->
  dtsr_hi r <= dtsr_lo r'.
Proof.
  intros [Hs _] Hi Hj Hij. rewrite <- (take_drop_middle _ _ _ Hi) in Hs.
  apply StronglySorted_app in Hs as (_ & _ & Hs). apply StronglySorted_cons in Hs as [Hs _].
  rewrite Forall_forall in Hs. apply Hs. apply (list_elem_of_lookup_2 _ (j - S i)). rewrite lookup_drop.
  by replace (S i + (j - S i))%nat with j by lia.
Qed.

(** A search finds the range that contains the address. *)
Lemma by_addr_maps symtab a hi : ranges_ok (dtst_ranges symtab) hi ->
  flag (dtst_flags symtab) DT_ST_SORTED = true ->
  forall s, dt_symbol_by_addr symtab a = Some s <-> maps (dtst_ranges symtab) a s.
Proof.
  intros Hok Hf. unfold dt_symbol_by_addr. rewrite Hf. simpl. set (new := dtst_ranges symtab) in *.
  assert (forall r, r ∈ new -> dtsr_lo r < dtsr_hi r) as Hne
    by (intros r Hr; pose proof (proj1 (Forall_forall _ _) (proj2 Hok) r Hr); simpl in *; lia).
  assert (forall r, r ∈ new -> dt_symbol_search_cmp a r = 0 <-> dtsr_lo r <= a < dtsr_hi r) as Hc.
  { intros r Hr. pose proof (Hne r Hr). unfold dt_symbol_search_cmp. repeat case_cmp; lia. }
  pose proof (bsearch_spec (dt_symbol_search_cmp a) new) as Hb.
  assert (forall i j x y, new !! i = Some x -> new !! j = Some y -> (i <= j)%nat ->
    (dt_symbol_search_cmp a x < 0 -> dt_symbol_search_cmp a y < 0) /\
    (0 < dt_symbol_search_cmp a y -> 0 < dt_symbol_search_cmp a x)) as Hmono.
  { intros i j x y Hi Hj Hij. pose proof (Hne x ltac:(by eapply list_elem_of_lookup_2)).
    pose proof (Hne y ltac:(by eapply list_elem_of_lookup_2)).
    destruct (decide (i = j)) as [-> |]; [by simplify_eq|].
    pose proof (ranges_ok_lookup new hi i j x y Hok Hi Hj ltac:(lia)).
    unfold dt_symbol_search_cmp. repeat case_cmp; lia. }
  specialize (Hb Hmono). intros s. destruct (bsearch _ new) as [r|]; simpl.
  - destruct Hb as [Hr H0]. apply Hc in H0; [|done]. split.
    + intros [= <-]. by exists r.
    + intros (r' & Hr' & Ha & <-). f_equal. apply list_elem_of_lookup in Hr as [i Hi].
      apply list_elem_of_lookup in Hr' as [j Hj]. destruct (Nat.lt_trichotomy i j) as [Hlt|[-> |Hlt]].
      * pose proof (ranges_ok_lookup new hi i j _ _ Hok Hi Hj Hlt). lia.
      * by simplify_eq.
      * pose proof (ranges_ok_lookup new hi j i _ _ Hok Hj Hi Hlt). lia.
  - split; [done|]. intros (r & Hr & Ha & _). exfalso. by apply (Hb r Hr), Hc.
Qed.

(** ** Sorting *)

Lemma sym_at_alter st f s x : sym_at (alter f s st) x =
  if decide (x = s /\ (s < length st)%nat) then f (sym_at st s) else sym_at st x.
Proof.
  unfold sym_at. destruct (decide (x = s)) as [-> |Hne].
  - rewrite list_lookup_alter_eq. destruct (decide (s < length st)%nat) as [Hs|Hs].
    + rewrite decide_True by done. by destruct (lookup_lt_is_Some_2 st s Hs) as [y ->].
    + rewrite decide_False by tauto. by rewrite lookup_ge_None_2 by lia.
  - rewrite decide_False by tauto. by rewrite list_lookup_alter_ne.
Qed.

Lemma set_sizes_addr l : forall st s x, dts_addr (sym_at (set_sizes st s l) x) = dts_addr (sym_at st x).
Proof.
  induction l as [|r l IH]; intros st s x; simpl; [done|]. rewrite IH, sym_at_alter. by case_decide as E; [destruct E as [-> _]|].
Qed.

Lemma set_sizes_no_wrap l : forall st s, (forall x, no_wrap (sym_at st x)) ->
  by_addr st (SymRange 0 0 s :: l) -> forall x, no_wrap (sym_at (set_sizes st s l) x).
Proof.
  induction l as [|r l IH]; intros st s Hw Hs x; simpl; [done|].
  apply StronglySorted_cons in Hs as [Hsr Hs]. apply Forall_cons in Hsr as [Hr _]. simpl in Hr.
  set (f := λ s0, set_size s0 _).
  assert (forall y, dts_addr (sym_at (alter f s st) y) = dts_addr (sym_at st y)) as Ha.
  { intros y. rewrite sym_at_alter. by case_decide as E; [destruct E as [-> _]|]. }
  apply IH.
  - intros y. rewrite sym_at_alter. case_decide; [|apply Hw]. subst f. unfold no_wrap. simpl.
    destruct (Hw s) as (? & ? & ?), (Hw (dtsr_sym r)) as (? & ? & ?). rewrite wrapu_small by lia. lia.
  - apply StronglySorted_cons in Hs as [Hsl Hs]. apply StronglySorted_cons. simpl. split.
    + eapply Forall_impl; [exact Hsl|]. intros r' Hr'. simpl in *. by rewrite !Ha.
    + eapply StronglySorted_ind with (P := λ l, StronglySorted _ l); [constructor| |exact Hs].
      intros a l' _ Hl' Hf. constructor; [done|]. eapply Forall_impl; [exact Hf|]. intros r' Hr'. simpl in *. by rewrite !Ha.
Qed.

(** Only the symbols of two ranges are compared. *)
Definition symbol_cmp (st : store) (s s' : nat) : Z :=
  dt_symrange_sort_cmp st (SymRange 0 0 s) (SymRange 0 0 s').

Lemma by_addr_same st st' l :
  (forall x, dts_addr (sym_at st' x) = dts_addr (sym_at st x)) -> by_addr st l -> by_addr st' l.
Proof.
  intros Ha Hs. induction Hs as [|r l _ IH Hf]; constructor; [done|].
  eapply Forall_impl; [exact Hf|]. intros r' Hr'. simpl in *. by rewrite !Ha.
Qed.

Lemma sorted_by_addr st l : StronglySorted (λ x y, dt_symrange_sort_cmp st x y <= 0) l -> by_addr st l.
Proof.
  induction 1 as [|r l _ IH Hf]; constructor; [done|]. eapply Forall_impl; [exact Hf|]. intros r'. apply sort_cmp_addr.
Qed.

(** [s] is the symbol for [a] among [ids]: it spans [a], no symbol that does is
    nested in it, and it comes first of those with the same bounds. *)
Definition symbol_for (st0 st : store) (ids : list nat) (a : Z) (s : nat) : Prop :=
  s ∈ ids /\ spans (sym_at st s) a = true /\
  forall s', s' ∈ ids -> spans (sym_at st s') a = true ->
    nested (sym_at st s) (sym_at st s') = true \/
    (nested (sym_at st s') (sym_at st s) = false /\ symbol_cmp st0 s s' <= 0).

Lemma cmp_self {A} (cmp : A -> A -> Z) x : Comparison cmp -> cmp x x <= 0.
Proof. intros [F _]. pose proof (F x x). lia. Qed.

Lemma sorted_ids st0 L : StronglySorted (λ x y, dt_symrange_sort_cmp st0 x y <= 0) L ->
  StronglySorted (λ s s', symbol_cmp st0 s s' <= 0) (dtsr_sym <$> L).
Proof.
  induction 1 as [|r l _ IH Hf]; simpl; constructor; [done|]. apply Forall_fmap.
  eapply Forall_impl; [exact Hf|]. done.
Qed.

Lemma winner_symbol_for st0 st L ids a :
  (dtsr_sym <$> L) ≡ₚ ids -> StronglySorted (λ x y, dt_symrange_sort_cmp st0 x y <= 0) L ->
  match winner st (dtsr_sym <$> L) a with
  | Some s => symbol_for st0 st ids a s
  | None => forall s, s ∈ ids -> spans (sym_at st s) a = false
  end.
Proof.
  intros HP Hs%sorted_ids. pose proof (winner_spec st (dtsr_sym <$> L) a) as H. destruct (winner st _ a) as [s|].
  - destruct H as (l1 & l2 & HL & Ha & H1 & H2). rewrite HL in HP, Hs. split; [by rewrite <- HP; set_solver|].
    split; [done|]. apply StronglySorted_app in Hs as (_ & _ & Hs). apply StronglySorted_cons in Hs as [Hs _].
    intros s' Hin Hsp. rewrite <- HP in Hin. apply elem_of_app in Hin as [Hin|[-> |Hin]%elem_of_cons].
    + left. by apply H1.
    + right. split; [unfold nested; repeat case_cmp; done || lia|]. apply (cmp_self (dt_symrange_sort_cmp st0)), _.
    + right. split; [by apply H2|]. by apply (proj1 (Forall_forall _ _) Hs).
  - intros s Hin. apply H. by rewrite HP.
Qed.

Section SortSpec.
Context (qsort : forall A, (A -> A -> Z) -> list A -> list A) `{Hq : Qsort qsort}.

Lemma flag_or f mask : 0 < mask -> flag (Z.lor f mask) mask = true.
Proof.
  intros Hm. unfold flag, c_true. apply negb_true_iff, Z.eqb_neq. rewrite Z.land_lor_distr_l, Z.land_diag.
  intros [_ H]%Z.lor_eq_0_iff. lia.
Qed.

Lemma sort_spec st symtab flg m :
  (forall s, no_wrap (sym_at st s)) -> flag (dtst_flags symtab) DT_ST_SORTED = false ->
  dtst_num_range symtab <= dtst_num_range_alloc symtab < 2 ^ 32 -> 2 * dtst_num_range symtab + 1024 < 2 ^ 32 ->
  let ids := dtsr_sym <$> dtst_ranges symtab in
  exists st' symtab' m', dt_symtab_sort qsort st symtab flg m = Some (st', symtab', m') /\
    (flg = 0 -> st' = st) /\ dtst_symlist symtab' = dtst_symlist symtab /\
    (plenty m (S (2 * length ids)) -> flag (dtst_flags symtab') DT_ST_SORTED = true) /\
    (flag (dtst_flags symtab') DT_ST_SORTED = true -> forall a,
       match dt_symbol_by_addr symtab' a with
       | Some s => symbol_for st st' ids a s
       | None => forall s, s ∈ ids -> spans (sym_at st' s) a = false
       end).
Proof.
  intros Hw Hf Hal Hn ids. unfold dt_symtab_sort. rewrite Hf.
  set (L := qsort _ (dt_symrange_sort_cmp st) (dtst_ranges symtab)).
  assert (L ≡ₚ dtst_ranges symtab) as HP by apply qsort_perm.
  assert (StronglySorted (λ x y, dt_symrange_sort_cmp st x y <= 0) L) as HL by (apply (qsort_sorted qsort); apply _).
  assert (dtsr_sym <$> L ≡ₚ ids) as HPi by (subst ids; by rewrite HP).
  pose proof (sorted_by_addr st L HL) as Hby. pose proof (Permutation_length HP) as Hlen.
  set (st' := if c_true flg then _ else st).
  assert ((flg = 0 -> st' = st) /\ (forall x, no_wrap (sym_at st' x)) /\ by_addr st' L) as (Hst0 & Hw' & Hby').
  { subst st'. destruct (c_true flg) eqn:Ef; [|done].
    split; [intros ->; done|]. destruct L as [|r l]; [done|]. split.
    - apply set_sizes_no_wrap; [done|]. by inversion Hby; constructor.
    - apply (by_addr_same st); [|done]. intros x. apply set_sizes_addr. }
  clearbody st'. unfold dt_symtab_form_ranges, dtst_num_range in *. cbn [dtst_ranges dtst_symlist dtst_flags dtst_num_range_alloc].
  destruct (Z.eqb_spec (Z.of_nat (length L)) 0) as [E0|E0].
  { destruct L; [|simpl in E0; lia]. simpl. do 3 eexists. split; [done|]. split; [done|]. split; [done|].
    split; [intros _; by apply flag_or|]. intros _ a. unfold dt_symbol_by_addr. simpl.
    assert (ids = []) as -> by (by apply Permutation_nil).
    destruct (negb _); by intros s ?%not_elem_of_nil. }
  assert (length ids = length L) as Hli by (subst ids; rewrite length_fmap; lia).
  destruct (malloc m) as [ok m0] eqn:Em. destruct ok; cbn [negb]; last first.
  { do 3 eexists. split; [done|]. split; [done|]. split; [done|]. simpl. rewrite Hf. split; [|done].
    intros (m' & E & _)%plenty_malloc. congruence. }
  destruct (form_loop_spec st' L Hby' ltac:(apply Forall_forall; intros; apply Hw') ltac:(lia) (form_fuel L)
    [] L 0 [] (dtst_num_range_alloc symtab) m0) as (res & m1 & -> & Hres); try done.
  - intros r Hr%not_elem_of_nil. done.
  - by repeat constructor.
  - intros a s Ha. unfold winner. rewrite winner_none.
    + split; [|done]. by intros (r & ?%not_elem_of_nil & _).
    + intros r Hr. apply spans_false. destruct (Hw' (dtsr_sym r)) as (? & _). lia.
  - apply (beyond_le st' L).
  - simpl. lia.
  - unfold form_fuel. pose proof (beyond_le st' L 0). lia.
  - simpl. destruct res as [[new alloc]|]; simpl.
    + destruct Hres as ((hi & Hok) & Hmaps & _). do 3 eexists. split; [done|]. split; [done|]. split; [done|].
      split; [intros _; by apply flag_or|]. intros Hfl a.
      pose proof (winner_symbol_for st st' L ids a HPi HL) as Hwin.
      set (symtab' := set_flags _ _) in *. pose proof (by_addr_maps symtab' a hi Hok Hfl) as Hm.
      assert (dt_symbol_by_addr symtab' a = winner st' (dtsr_sym <$> L) a) as ->; [|done].
      apply option_eq. intros s. rewrite Hm. apply Hmaps.
    + do 3 eexists. split; [done|]. split; [done|]. split; [done|]. simpl. rewrite Hf. split; [|done].
      intros Hp. exfalso. apply plenty_malloc in Hp as (m' & E & Hp). rewrite Em in E. simplify_eq.
      apply Hres. apply (plenty_le _ _ _ Hp). pose proof (beyond_le st' L 0). lia.
Qed.
End SortSpec.

(** ** Names *)

Section NamesSpec.
Variable chr : Z -> Z.
Abbreviation ops := (dt_symtab_htab_ops chr).

Lemma dt_symtab_hval_eq k : dt_symtab_hval chr k = str2hval chr (sk_name k) 0.
Proof. unfold dt_symtab_hval, sk_hval. destruct (sk_sym k); [|done]. by destruct (c_true _). Qed.

#[export] Instance symtab_ops_ok : HtabOpsOk ops.
Proof.
  split; simpl; unfold dt_symtab_cmp; intros.
  - rewrite dt_symtab_hval_eq. apply str2hval_range. lia.
  - by apply strcmp_eq.
  - by apply strcmp_sym.
  - rewrite strcmp_eq in *. congruence.
  - rewrite strcmp_eq in H. by rewrite !dt_symtab_hval_eq, H.
  - done.
  - by apply remove_one_perm.
Qed.

(** The symbols of a store, as the hash table sees them. *)
Definition keys (st : store) : list symkey := imap (λ i s, SymKey (Some i) (dts_name s)) st.

(** The hash table holds all symbols; those of one name, the last one first. *)
Definition world_ok (w : world) : Prop :=
  exists h, w_kernsyms w = Some h /\ htab_wf ops h /\
    forall x, dt_htab_lookup ops h x = reverse (filter (λ k, sk_name k = sk_name x) (keys (w_store w))).

Lemma world_ok_by_name w name : world_ok w ->
  dt_symbol_by_name chr w name = reverse (filter (λ k, sk_name k = name) (keys (w_store w))).
Proof. intros (h & Eh & _ & Hl). unfold dt_symbol_by_name. rewrite Eh. apply Hl. Qed.

Definition tab_ok (t : dt_symtab) : Prop :=
  dtst_num_range t <= dtst_num_range_alloc t <= 2 * dtst_num_range t + 2.

Lemma keys_snoc st s : keys (st ++ [s]) = keys st ++ [SymKey (Some (length st)) (dts_name s)].
Proof. unfold keys. rewrite imap_app. simpl. by rewrite Nat.add_0_r. Qed.

Lemma dt_symtab_create_spec w m :
  (w_kernsyms w = None -> w_store w = []) -> (forall h, w_kernsyms w = Some h -> world_ok w) -> plenty m 3 ->
  exists t w' m', dt_symtab_create w m = (Some t, w', m') /\ t = Symtab [] None [] 0 0 /\
    world_ok w' /\ w_store w' = w_store w /\ forall n, plenty m (3 + n) -> plenty m' n.
Proof.
  intros Hn Hs Hp. unfold dt_symtab_create. destruct (w_kernsyms w) as [h|] eqn:Eh.
  - apply plenty_malloc in Hp as (m1 & E1 & Hp). rewrite E1. cbn [negb]. do 3 eexists. split; [done|]. split; [done|].
    split; [by apply (Hs h)|]. split; [done|]. intros n (m1' & E1' & H)%plenty_malloc.
    rewrite E1 in E1'. simplify_eq. by apply (plenty_le _ (2 + n)); [|lia].
  - destruct m as [|[] [|[] [|[] m]]]; try by destruct Hp. cbn [malloc dt_htab_create negb].
    do 3 eexists. split; [done|]. split; [done|]. split; [|split; [done|]].
    + destruct (dt_htab_create_wf ops _ eq_refl) as (H1 & H2 & H3). eexists. split; [done|]. split; [exact H1|].
      intros x. rewrite H3. simpl. by rewrite Hn.
    + intros n [m0 E]. simplify_eq/=. by exists m0.
Qed.

(** An insertion that fails leaves the tables as they were. *)
Definition insert_result (w : world) (t : dt_symtab) (sym : dt_symbol) (res : option nat) (w' : world) (t' : dt_symtab) : Prop :=
  match res with
  | Some s => s = length (w_store w) /\ w_store w' = w_store w ++ [sym] /\
      dtst_symlist t' = dtst_symlist t ++ [s] /\
      dtsr_sym <$> dtst_ranges t' = (dtsr_sym <$> dtst_ranges t) ++ (if 0 <? dts_size sym then [s] else []) /\
      flag (dtst_flags t') DT_ST_SORTED = false /\ flag (dtst_flags t') DT_ST_PACKED = flag (dtst_flags t) DT_ST_PACKED
  | None => w_store w' = w_store w /\ dtst_symlist t' = dtst_symlist t /\
      dtst_ranges t' = dtst_ranges t /\ dtst_flags t' = dtst_flags t
  end.

Lemma flag_ldiff f mask mask' : 0 <= mask' -> Z.land mask mask' = 0 -> 
  flag (Z.ldiff f mask) mask' = flag f mask' /\ flag (Z.ldiff f mask) mask = false.
Proof.
  intros H0 Hm. unfold flag, c_true. split.
  - do 2 f_equal. apply Z.bits_inj'. intros n Hn. rewrite !Z.land_spec, Z.ldiff_spec.
    pose proof (f_equal (λ z, Z.testbit z n) Hm) as Hb. cbv beta in Hb. rewrite Z.land_spec, Z.bits_0 in Hb.
    destruct (Z.testbit f n), (Z.testbit mask n), (Z.testbit mask' n); done.
  - apply negb_false_iff, Z.eqb_eq. apply Z.bits_inj'. intros n Hn. rewrite Z.land_spec, Z.ldiff_spec, Z.bits_0.
    by destruct (Z.testbit f n), (Z.testbit mask n).
Qed.

Lemma hash_insert_ok w h s ok_resize ok_bucket :
  w_kernsyms w = Some h -> htab_wf ops h ->
  (forall x, dt_htab_lookup ops h x = reverse (filter (λ k, sk_name k = sk_name x) (keys (w_store w)))) ->
  exists rc h', dt_htab_insert ops (λ _, ok_resize) ok_bucket h (SymKey (Some (length (w_store w))) (dts_name s)) = Some (rc, h') /\
    ((rc = 0 /\ world_ok (World (w_store w ++ [s]) (Some h'))) \/
     (rc < 0 /\ world_ok (World (w_store w) (Some h')) /\ (ok_resize = false \/ ok_bucket = false))).
Proof.
  intros Eh Hwf Hl. destruct (dt_htab_insert_spec ops (λ _, ok_resize) ok_bucket h
    (SymKey (Some (length (w_store w))) (dts_name s)) Hwf) as (rc & h' & E & Hc).
  exists rc, h'. split; [exact E|]. destruct Hc as [(-> & Hw' & _ & Hl')|(-> & Hf & Hw' & _ & Hl')].
  - left. split; [done|]. exists h'. split; [done|]. split; [done|]. intros x. rewrite Hl'. simpl.
    unfold dt_symtab_cmp. simpl. rewrite keys_snoc, filter_app, reverse_app, filter_cons. simpl.
    destruct (Z.eqb_spec (strcmp (dts_name s) (sk_name x)) 0) as [Ec|Ec].
    + apply strcmp_eq in Ec. rewrite decide_True by done. rewrite Hl. done.
    + rewrite decide_False; [by rewrite Hl|]. intros Ed. by apply Ec, strcmp_eq.
  - right. split; [done|]. split; [|destruct Hf as [?|[_ ?]]; auto]. exists h'. split; [done|]. split; [done|].
    intros x. by rewrite Hl', Hl.
Qed.

Lemma dt_symbol_insert_spec junk w t m dmp name addr size info :
  world_ok w -> tab_ok t -> dtst_num_range t < 2 ^ 30 ->
  let sym := Symbol name addr size info (str2hval chr name 0) dmp in
  exists res w' t' m', dt_symbol_insert chr junk w t m dmp name addr size info = Some (res, w', t', m') /\
    world_ok w' /\ dtst_num_range t' <= dtst_num_range_alloc t' <= 2 * dtst_num_range t + 2 /\
    insert_result w t sym res w' t' /\
    (flag (dtst_flags t) DT_ST_PACKED = false -> forall n, plenty m (5 + n) -> res <> None /\ plenty m' n).
Proof.
  intros Hw Ht Hn sym. assert (0 <= dtst_num_range t) by (unfold dtst_num_range; lia).
  unfold dt_symbol_insert. destruct (flag (dtst_flags t) DT_ST_PACKED) eqn:Hpk.
  { do 4 eexists. split; [done|]. split; [done|]. split; [done|]. done. }
  destruct (malloc m) as [ok1 m1] eqn:E1. destruct ok1; cbn [negb]; last first.
  { do 4 eexists. split; [done|]. split; [done|]. split; [done|]. split; [done|]. intros _ n (m' & E & _)%plenty_malloc. congruence. }
  set (grow := if _ <=? _ then _ else _).
  assert (exists g m2, grow = (g, m2) /\ (forall n, plenty m1 (S n) -> g <> None /\ plenty m2 n) /\
    match g with
    | Some t2 => dtst_symlist t2 = dtst_symlist t /\ dtst_ranges t2 = dtst_ranges t /\ dtst_flags t2 = dtst_flags t /\
        dtst_num_range t < dtst_num_range_alloc t2 <= 2 * dtst_num_range t + 2
    | None => True
    end) as (g & m2 & Eg & Hg2 & Hg).
  { subst grow. unfold tab_ok in Ht. destruct (Z.leb_spec (dtst_num_range_alloc t) (dtst_num_range t)).
    - unfold dt_symtab_grow_ranges. destruct (malloc m1) as [ok2 m2] eqn:E2. destruct ok2; cbn [negb].
      + do 2 eexists. split; [done|]. split.
        * intros n (m2' & E & Hp)%plenty_malloc. rewrite E2 in E. simplify_eq. done.
        * simpl. rewrite wrapu_small by lia. repeat split; lia.
      + do 2 eexists. split; [done|]. split; [|done]. intros n (m2' & E & Hp)%plenty_malloc. congruence.
    - do 2 eexists. split; [done|]. split; [|repeat split; lia]. intros n Hp. split; [done|].
      by apply (plenty_le _ (S n)); [|lia]. }
  rewrite Eg. clear grow Eg.
  assert (forall n, plenty m (5 + n) -> plenty m1 (4 + n)) as Hp1.
  { intros n (m1' & E & Hp)%plenty_malloc. rewrite E1 in E. by simplify_eq. }
  destruct g as [t2|]; last first.
  { do 4 eexists. split; [done|]. split; [done|]. split; [unfold tab_ok in Ht; lia|]. split; [done|].
    intros _ n Hp. by destruct (Hg2 (3 + n)%nat (Hp1 n Hp)). }
  destruct Hg as (Gl & Gr & Gf & Ga). destruct (malloc m2) as [ok3 m3] eqn:E3. destruct ok3; cbn [negb]; last first.
  { do 4 eexists. split; [done|]. split; [done|]. unfold dtst_num_range in *. rewrite Gr. split; [lia|]. split; [done|].
    intros _ n Hp. destruct (Hg2 (3 + n)%nat (Hp1 n Hp)) as [_ (m3' & E & _)%plenty_malloc]. congruence. }
  destruct Hw as (h & Eh & Hwf & Hl). rewrite Eh. simpl.
  destruct (malloc m3) as [ok4 m4] eqn:E4. destruct (malloc m4) as [ok5 m5] eqn:E5.
  assert (forall n, plenty m (5 + n) -> ok4 = true /\ ok5 = true /\ plenty m5 n) as Hpl.
  { intros n Hp. destruct (Hg2 (3 + n)%nat (Hp1 n Hp)) as [_ (m3' & E & H3)%plenty_malloc]. rewrite E3 in E. simplify_eq.
    apply plenty_malloc in H3 as (m4' & E & H4). rewrite E4 in E. simplify_eq.
    apply plenty_malloc in H4 as (m5' & E & H5). rewrite E5 in E. by simplify_eq. }
  destruct (hash_insert_ok w h sym ok4 ok5 Eh Hwf Hl) as (rc & h' & E & Hc). simpl in E. rewrite E. simpl.
  destruct Hc as [(-> & Hw')|(Hrc & Hw' & Hfl)].
  - set (t3 := Symtab _ _ _ _ _).
    assert (exists t4, (if 0 <? size then push_range t3 (SymRange junk.1 junk.2 (length (w_store w))) else Some t3) = Some t4 /\
      dtst_symlist t4 = dtst_symlist t3 /\ dtst_flags t4 = dtst_flags t3 /\
      dtst_num_range_alloc t4 = dtst_num_range_alloc t3 /\
      dtsr_sym <$> dtst_ranges t4 = (dtsr_sym <$> dtst_ranges t3) ++ (if 0 <? size then [length (w_store w)] else []))
      as (t4 & E4' & H4l & H4f & H4a & H4r).
    { destruct (0 <? size); [|exists t3; by rewrite app_nil_r]. unfold push_range.
      assert ((dtst_num_range t3 <? dtst_num_range_alloc t3) = true) as ->.
      { subst t3. unfold dtst_num_range in *. simpl. rewrite Gr. apply Z.ltb_lt. lia. }
      eexists. split; [done|]. simpl. by rewrite fmap_app. }
    change (0 <? 0) with false. cbv iota. subst t3. simpl in *. rewrite E4'. simpl.
    assert (length (dtst_ranges t4) = length (dtst_ranges t2) + (if (0 <? size)%Z then 1 else 0))%nat as Hlen.
    { rewrite <- (length_fmap dtsr_sym), H4r, length_app, length_fmap. by destruct (0 <? size). }
    do 4 eexists. split; [done|]. split; [exact Hw'|]. unfold dtst_num_range in *. simpl. rewrite Hlen, Gr, H4a.
    split; [destruct (0 <? size); lia|]. split; [|intros _ n Hp; split; [done|]; by apply Hpl].
    pose proof (flag_ldiff (dtst_flags t) DT_ST_SORTED DT_ST_PACKED ltac:(done) eq_refl) as [F1 F2].
    rewrite H4l, H4f, Gf, Gl, H4r, Gr, F1, F2. done.
  - rewrite (proj2 (Z.ltb_lt _ _) Hrc). do 4 eexists. split; [done|]. split; [exact Hw'|].
    unfold dtst_num_range in *. rewrite Gr. split; [lia|]. split; [done|].
    intros _ n Hp. destruct (Hpl n Hp) as (-> & -> & _). by destruct Hfl.
Qed.

(** A sequence of insertions: [None] once one of them fails. *)
Fixpoint insert_all (junk : Z * Z) (w : world) (t : dt_symtab) (m : allocs)
    (l : list (Z * bytes * Z * Z * Z)) : option (world * dt_symtab * allocs) :=
  match l with
  | [] => Some (w, t, m)
  | (dmp, name, addr, size, info) :: l =>
      '(res, w, t, m) ← dt_symbol_insert chr junk w t m dmp name addr size info;
      guard (res <> None);; insert_all junk w t m l
  end.

Definition symbol_of (x : Z * bytes * Z * Z * Z) : dt_symbol :=
  let '(dmp, name, addr, size, info) := x in Symbol name addr size info (str2hval chr name 0) dmp.

(** The numbers of the symbols that are not empty, the first of which is [k]. *)
Fixpoint nonempty (k : nat) (l : list dt_symbol) : list nat :=
  match l with
  | [] => []
  | s :: l => (if 0 <? dts_size s then [k] else []) ++ nonempty (S k) l
  end.

Lemma insert_all_spec junk l : forall w t m,
  world_ok w -> tab_ok t -> flag (dtst_flags t) DT_ST_PACKED = false ->
  dtst_num_range t + Z.of_nat (length l) < 2 ^ 30 -> plenty m (5 * length l) ->
  exists w' t' m', insert_all junk w t m l = Some (w', t', m') /\ world_ok w' /\ tab_ok t' /\
    w_store w' = w_store w ++ (symbol_of <$> l) /\
    dtsr_sym <$> dtst_ranges t' = (dtsr_sym <$> dtst_ranges t) ++ nonempty (length (w_store w)) (symbol_of <$> l) /\
    (flag (dtst_flags t) DT_ST_SORTED = false -> flag (dtst_flags t') DT_ST_SORTED = false) /\
    dtst_num_range t' <= dtst_num_range t + Z.of_nat (length l) /\
    forall n, plenty m (5 * length l + n) -> plenty m' n.
Proof.
  induction l as [|[[[[dmp name] addr] size] info] l IH]; intros w t m Hw Ht Hpk Hn Hp.
  { do 3 eexists. split; [done|]. rewrite !app_nil_r. repeat split; try done; unfold tab_ok in Ht; simpl; lia. }
  cbn [insert_all length] in *.
  destruct (dt_symbol_insert_spec junk w t m dmp name addr size info Hw Ht ltac:(lia))
    as (res & w1 & t1 & m1 & E & Hw1 & Ha1 & Hres & Hpl). rewrite E. simpl.
  destruct (Hpl Hpk (5 * length l)%nat) as [Hsome Hp1]; [apply (plenty_le _ _ _ Hp); lia|].
  destruct res as [s|]; [|done]. destruct Hres as (-> & Hst & Hsl & Hrg & Hs1 & Hp1k). rewrite option_guard_True by done.
  assert (dtst_num_range t1 = dtst_num_range t + (if 0 <? size then 1 else 0)) as Hn1.
  { unfold dtst_num_range. rewrite <- (length_fmap dtsr_sym (dtst_ranges t1)), Hrg, length_app, length_fmap. simpl.
    destruct (0 <? size); simpl; lia. }
  destruct (IH w1 t1 m1) as (w' & t' & m' & -> & Hw' & Ht' & Hst' & Hrg' & Hfl & Hn' & Hpl');
    [done|unfold tab_ok; destruct (0 <? size); lia|by rewrite Hp1k|destruct (0 <? size); lia|done|].
  exists w', t', m'. split; [done|]. split; [done|]. split; [done|]. split; [|split; [|split; [|split]]].
  - rewrite Hst', Hst, <- app_assoc. done.
  - rewrite Hrg', Hrg, Hst, <- app_assoc, length_app, Nat.add_1_r. done.
  - intros _. by apply Hfl.
  - destruct (0 <? size); lia.
  - intros n Hpn. apply Hpl'. apply (Hpl Hpk). apply (plenty_le _ _ _ Hpn). lia.
Qed.

Lemma elem_of_nonempty k l i : i ∈ nonempty k l <-> exists s, l !! (i - k)%nat = Some s /\ (k <= i)%nat /\ 0 < dts_size s.
Proof.
  revert k; induction l as [|s l IH]; intros k; simpl; [by setoid_rewrite lookup_nil; split; [intros ?%not_elem_of_nil|naive_solver]|].
  rewrite elem_of_app, IH. split.
  - intros [Hi|(s' & Hs & Hk & H0)].
    + destruct (Z.ltb_spec 0 (dts_size s)); [|by apply not_elem_of_nil in Hi]. apply list_elem_of_singleton in Hi as ->.
      exists s. by rewrite Nat.sub_diag.
    + exists s'. replace (i - k)%nat with (S (i - S k)) by lia. split; [done|]. split; [lia|done].
  - intros (s' & Hs & Hk & H0). destruct (decide (i = k)) as [-> |].
    + rewrite Nat.sub_diag in Hs. simplify_eq/=. left. rewrite (proj2 (Z.ltb_lt _ _)) by done. set_solver.
    + right. exists s'. replace (i - k)%nat with (S (i - S k)) in Hs by lia. split; [done|]. split; [lia|done].
Qed.
End NamesSpec.

Lemma nonempty_length k l : (length (nonempty k l) <= length l)%nat.
Proof.
  revert k; induction l as [|s l IH]; intros k; simpl; [done|]. rewrite length_app. specialize (IH (S k)).
  destruct (0 <? dts_size s); simpl; lia.
Qed.

Lemma spans_nonempty st s a : spans (sym_at st s) a = true -> s ∈ nonempty 0 st.
Proof.
  unfold spans, sym_at. intros Hs. destruct (st !! s) as [x|] eqn:Ex; simpl in Hs; b2p; [|lia].
  apply elem_of_nonempty. exists x. rewrite Nat.sub_0_r. split; [done|]. lia.
Qed.

(** Empty symbols do not matter. *)
Lemma nonempty_enough st n a res : length st = n ->
  match res with
  | Some s => symbol_for st st (nonempty 0 st) a s
  | None => forall s, s ∈ nonempty 0 st -> spans (sym_at st s) a = false
  end ->
  match res with
  | Some s => symbol_for st st (seq 0 n) a s
  | None => forall s, spans (sym_at st s) a = false
  end.
Proof.
  intros Hlen Hr. destruct res as [s|].
  - destruct Hr as (Hs & Hsp & Hall). split.
    + apply elem_of_nonempty in Hs as (x & Hx & _). apply lookup_lt_Some in Hx. apply elem_of_seq. lia.
    + split; [done|]. intros s' _ Hsp'. apply Hall; [by eapply spans_nonempty|done].
  - intros s. destruct (spans (sym_at st s) a) eqn:Hsp; [|done]. rewrite <- Hsp. by apply Hr, (spans_nonempty st s a).
Qed.

(** ** Use after free in [dt_symtab_destroy] *)

(** The names are freed, one by one or with the string table they were packed
    into, before [dt_htab_delete] is called, which compares the name of the
    symbol with that of the first entry of each bucket it looks at.  [None]: a
    freed name is read. *)
Fixpoint destroy_loop (chr : Z -> Z) (w : world) (syms : list nat) : option world :=
  match syms with
  | [] => Some w
  | s :: syms =>
      match w_kernsyms w with
      | None => destroy_loop chr w syms
      | Some h =>
          match default [] (ht_tab h !! slot_of (dt_symtab_htab_ops chr) h (SymKey (Some s) (dts_name (sym_at (w_store w) s)))) with
          | [] => destroy_loop chr w syms
          | _ :: _ => None
          end
      end
  end.
Definition dt_symtab_destroy (chr : Z -> Z) (w : world) (symtab : option dt_symtab) : option world :=
  match symtab with
  | None => Some w
  | Some t => destroy_loop chr w (dtst_symlist t)
  end.

(** While the hash table exists, destroying a table that has a symbol reads freed
    memory. *)
Lemma dt_symtab_destroy_reads_freed chr w t s syms :
  world_ok chr w -> dtst_symlist t = s :: syms -> (s < length (w_store w))%nat ->
  dt_symtab_destroy chr w (Some t) = None.
Proof.
  intros (h & Eh & Hwf & Hl) Ht Hs. unfold dt_symtab_destroy. rewrite Ht. cbn [destroy_loop]. rewrite Eh.
  set (k := SymKey (Some s) _). specialize (Hl k). unfold dt_htab_lookup in Hl.
  destruct (default [] _) as [|b bs]; [|done]. exfalso. cbn [find_bucket] in Hl.
  destruct (lookup_lt_is_Some_2 _ _ Hs) as [x Hx].
  assert (k ∈ reverse (filter (λ k0, sk_name k0 = sk_name k) (keys (w_store w)))) as Hin.
  { apply elem_of_reverse, list_elem_of_filter. split; [done|]. apply (list_elem_of_lookup_2 _ s). unfold keys.
    rewrite list_lookup_imap, Hx. simpl. subst k. unfold sym_at. by rewrite Hx. }
  rewrite <- Hl in Hin. by apply not_elem_of_nil in Hin.
Qed.

(** ** The theorems *)

(** C23: Fill a fresh symbol table with fewer than 2^30 symbols, none of which ends
    at or beyond 2^64, and sort it, with every allocation succeeding and a qsort()
    that sorts.  Then the symbol of an address is, of the symbols that span it, the
    one that starts last, of these the one that ends first, and of several with the
    same bounds the first in the order of [dt_symrange_sort_cmp]; there is none
    exactly if no symbol spans it.  (Where symbols nest this is the narrowest one,
    as the comment in the code promises; where they overlap in part it need not be.)
    A name is mapped to the symbols with that name, the one inserted last first. *)
Theorem dt_symtab_correct (qsort : forall A, (A -> A -> Z) -> list A -> list A) `{Hq : !Qsort qsort} chr junk m l :
  Forall (λ x, no_wrap (symbol_of chr x)) l -> Z.of_nat (length l) < 2 ^ 30 -> plenty m (4 + 7 * length l) ->
  exists t w m0 w1 t1 m1 t2 m2,
    dt_symtab_create (World [] None) m = (Some t, w, m0) /\
    insert_all chr junk w t m0 l = Some (w1, t1, m1) /\
    dt_symtab_sort qsort (w_store w1) t1 0 m1 = Some (w_store w1, t2, m2) /\
    w_store w1 = symbol_of chr <$> l /\
    (forall a, match dt_symbol_by_addr t2 a with
     | Some s => symbol_for (w_store w1) (w_store w1) (seq 0 (length l)) a s
     | None => forall s, spans (sym_at (w_store w1) s) a = false
     end) /\
    forall name, dt_symbol_by_name chr w1 name = reverse (filter (λ k, sk_name k = name) (keys (w_store w1))).
Proof.
  intros Hl Hn Hp. destruct (dt_symtab_create_spec chr (World [] None) m) as (t & w & m0 & E0 & Et & Hw & Hst & Hpl); [done|done| |].
  { apply (plenty_le _ _ _ Hp). lia. }
  simpl in Hst. destruct (insert_all_spec chr junk l w t m0) as (w1 & t1 & m1 & E1 & Hw1 & Ht1 & Hst1 & Hr1 & Hf1 & Hn1 & Hp1);
    [done|subst t; done|subst t; done|subst t; unfold dtst_num_range; simpl; lia
    |apply Hpl; apply (plenty_le _ _ _ Hp); lia|].
  rewrite Hst in Hst1, Hr1. subst t. cbn [dtst_num_range dtst_ranges length] in Hn1. simpl in Hst1, Hr1.
  assert (forall s, no_wrap (sym_at (w_store w1) s)) as Hwrap.
  { intros s. unfold sym_at. destruct (w_store w1 !! s) as [x|] eqn:Ex; [|done]. simpl. rewrite Hst1 in Ex.
    apply list_lookup_fmap_Some in Ex as (y & -> & Hy). by apply (proj1 (Forall_forall _ _) Hl), list_elem_of_lookup_2 with s. }
  destruct (sort_spec qsort (w_store w1) t1 0 m1 Hwrap (Hf1 eq_refl)) as (st' & t2 & m2 & E2 & Est & _ & Hok & Hres).
  { unfold tab_ok in Ht1. change (dtst_num_range (Symtab [] None [] 0 0)) with 0 in Hn1. lia. }
  { change (dtst_num_range (Symtab [] None [] 0 0)) with 0 in Hn1. lia. }
  rewrite (Est eq_refl) in *. do 8 eexists. split; [exact E0|]. split; [exact E1|]. split; [exact E2|].
  split; [exact Hst1|]. split; [|intros name; by apply world_ok_by_name].
  rewrite Hr1, <- Hst1 in Hok, Hres.
  assert (length (w_store w1) = length l) as Hlen by (by rewrite Hst1, length_fmap).
  pose proof (nonempty_length 0 (w_store w1)). intros a. apply nonempty_enough; [done|].
  apply Hres, Hok, Hp1, Hpl. apply (plenty_le _ _ _ Hp). lia.
Qed.

(** Sorting a symbol table ends and never writes beyond the array of ranges,
    with the sizes recomputed first or not; if it could allocate what it needs the
    table is marked sorted, and if it is marked sorted every address is mapped to
    the innermost symbol of the table that spans it, or to none. *)
Theorem dt_symtab_sort_correct (qsort : forall A, (A -> A -> Z) -> list A -> list A) `{Hq : !Qsort qsort} st symtab flg m :
  (forall s, no_wrap (sym_at st s)) -> flag (dtst_flags symtab) DT_ST_SORTED = false ->
  dtst_num_range symtab <= dtst_num_range_alloc symtab < 2 ^ 32 -> 2 * dtst_num_range symtab + 1024 < 2 ^ 32 ->
  let ids := dtsr_sym <$> dtst_ranges symtab in
  exists st' symtab' m', dt_symtab_sort qsort st symtab flg m = Some (st', symtab', m') /\
    (plenty m (S (2 * length ids)) -> flag (dtst_flags symtab') DT_ST_SORTED = true) /\
    (flag (dtst_flags symtab') DT_ST_SORTED = true -> forall a,
       match dt_symbol_by_addr symtab' a with
       | Some s => symbol_for st st' ids a s
       | None => forall s, s ∈ ids -> spans (sym_at st' s) a = false
       end).
Proof.
  intros Hw Hf Ha Hn ids.
  destruct (sort_spec qsort st symtab flg m Hw Hf Ha Hn) as (st' & t' & m' & E & _ & _ & H1 & H2). eauto 10.
Qed.

(** C36: For ranges sorted by the address of their symbol, of which none ends at or
    beyond 2^64, and numbers of ranges that leave the counters below 2^32, the loop
    that forms the ranges ends within three rounds per symbol, whatever allocations
    fail, and produces at most two ranges per symbol, for which there is space.  (A
    symbol that ends at 2^64 makes the loop add the same range for ever:
    [ends_at_top_loops].) *)
Theorem form_ranges_terminates st L alloc m :
  by_addr st L -> Forall (λ r, no_wrap (sym_at st (dtsr_sym r))) L ->
  2 * Z.of_nat (length L) + 1024 < 2 ^ 32 -> 0 <= alloc < 2 ^ 32 ->
  exists res m', form_loop (S (3 * length L)) st L 0 [] alloc m = Some (res, m') /\
    forall new alloc', res = Some (new, alloc') -> (length new <= 2 * length L)%nat /\ Z.of_nat (length new) <= alloc'.
Proof.
  intros Hs Hw Hn Ha. destruct (form_loop_spec st L Hs Hw Hn (S (3 * length L)) [] L 0 [] alloc m) as (res & m' & E & Hf);
    try done.
  - intros r Hr%not_elem_of_nil. done.
  - by repeat constructor.
  - intros a s H0. unfold winner. rewrite winner_none.
    + split; [|done]. by intros (r & ?%not_elem_of_nil & _).
    + intros r Hr. apply spans_false. destruct (proj1 (Forall_forall _ _) Hw r Hr) as (? & _). lia.
  - apply (beyond_le st L).
  - pose proof (beyond_le st L 0). lia.
  - exists res, m'. split; [done|]. intros new alloc' ->. destruct Hf as (_ & _ & ? & ?). lia.
Qed.

(** Inserting a symbol never writes beyond the array of ranges; an insertion
    that fails (the table is packed, or memory ran out at any of the allocations)
    returns no symbol and leaves the symbols, the ranges, the flags and all lookups
    by name as they were. *)
Theorem dt_symbol_insert_errors chr junk w t m dmp name addr size info :
  world_ok chr w -> tab_ok t -> dtst_num_range t < 2 ^ 30 ->
  let sym := Symbol name addr size info (str2hval chr name 0) dmp in
  exists res w' t' m', dt_symbol_insert chr junk w t m dmp name addr size info = Some (res, w', t', m') /\
    world_ok chr w' /\ insert_result w t sym res w' t' /\
    (res = None -> forall name, dt_symbol_by_name chr w' name = dt_symbol_by_name chr w name) /\
    (flag (dtst_flags t) DT_ST_PACKED = true -> res = None) /\
    (flag (dtst_flags t) DT_ST_PACKED = false -> plenty m 5 -> res <> None).
Proof.
  intros Hw Ht Hn sym. destruct (dt_symbol_insert_spec chr junk w t m dmp name addr size info Hw Ht Hn)
    as (res & w' & t' & m' & E & Hw' & _ & Hr & Hp).
  exists res, w', t', m'. split; [done|]. split; [done|]. split; [done|]. split; [|split].
  - intros -> nm. destruct Hr as (Hst & _). by rewrite !world_ok_by_name, Hst.
  - intros Hpk. unfold dt_symbol_insert in E. rewrite Hpk in E. by simplify_eq.
  - intros Hpk Hm. by apply (Hp Hpk 0%nat).
Qed.

(** ** Instances *)

(** The example of the comment in [dt_symtab_form_ranges]: A spans all, B and C
    the middle, D a part of B and C. *)
Definition ex_symbols : list (Z * bytes * Z * Z * Z) :=
  [(0, [68], 32, 4, 0); (0, [67], 25, 16, 0); (0, [65], 12, 35, 0); (0, [66], 25, 16, 0); (0, [90], 70, 0, 0)].

Lemma dt_symtab_correct_witness :
  exists t w m0 w1 t1 m1 t2 m2,
    dt_symtab_create (World [] None) (replicate 39 true) = (Some t, w, m0) /\
    insert_all char_signed (0, 0) w t m0 ex_symbols = Some (w1, t1, m1) /\
    dt_symtab_sort insertion_qsort (w_store w1) t1 0 m1 = Some (w_store w1, t2, m2) /\
    w_store w1 = symbol_of char_signed <$> ex_symbols /\
    (forall a, match dt_symbol_by_addr t2 a with
     | Some s => symbol_for (w_store w1) (w_store w1) (seq 0 5) a s
     | None => forall s, spans (sym_at (w_store w1) s) a = false
     end) /\
    forall name, dt_symbol_by_name char_signed w1 name = reverse (filter (λ k, sk_name k = name) (keys (w_store w1))).
Proof.
  apply (dt_symtab_correct insertion_qsort char_signed (0, 0) (replicate 39 true) ex_symbols).
  - repeat constructor; simpl; lia.
  - reflexivity.
  - exists []. reflexivity.
Defined.

Definition ex_symtab : dt_symtab :=
  Symtab (seq 0 5) None ((λ s, SymRange 0 0 s) <$> [0; 1; 2; 3]%nat) 6 0.

Lemma ex_store_ok s : no_wrap (sym_at (symbol_of char_signed <$> ex_symbols) s).
Proof. do 5 (destruct s as [|s]; [unfold no_wrap; simpl; lia|]). done. Qed.

Lemma dt_symtab_sort_correct_witness :
  exists st' symtab' m',
    dt_symtab_sort insertion_qsort (symbol_of char_signed <$> ex_symbols) ex_symtab 0 (replicate 9 true) = Some (st', symtab', m') /\
    flag (dtst_flags symtab') DT_ST_SORTED = true /\
    (dt_symbol_by_addr symtab' <$> [11; 12; 26; 33; 36; 40; 41; 46; 47]) =
    [None; Some 2; Some 3; Some 0; Some 3; Some 3; Some 2; Some 2; None]%nat.
Proof.
  destruct (dt_symtab_sort_correct insertion_qsort (symbol_of char_signed <$> ex_symbols) ex_symtab 0 (replicate 9 true))
    as (st' & t' & m' & E & Hs & _); [apply ex_store_ok|reflexivity|vm_compute; split; [discriminate|reflexivity]|reflexivity|].
  exists st', t', m'. split; [exact E|]. split; [apply Hs; exists []; reflexivity|].
  vm_compute in E. injection E as <- <- <-. reflexivity.
Defined.

Definition ex_ranges : list dt_symrange := [SymRange 0 0 2; SymRange 0 0 3; SymRange 0 0 1; SymRange 0 0 0].

Lemma form_ranges_terminates_witness :
  exists res m', form_loop (S (3 * length ex_ranges)) (symbol_of char_signed <$> ex_symbols) ex_ranges 0 [] 6 [] = Some (res, m') /\
    forall new alloc', res = Some (new, alloc') -> (length new <= 2 * length ex_ranges)%nat /\ Z.of_nat (length new) <= alloc'.
Proof.
  apply (form_ranges_terminates (symbol_of char_signed <$> ex_symbols) ex_ranges 6 []).
  - repeat constructor; simpl; lia.
  - apply Forall_forall. intros r _. apply ex_store_ok.
  - reflexivity.
  - lia.
Defined.

Lemma dt_symbol_insert_errors_witness :
  match dt_symtab_create (World [] None) [true; true; true] with
  | (Some t, w, _) => exists res w' t' m',
      dt_symbol_insert char_signed (0, 0) w t [true; true; false] 0 [65] 12 35 0 = Some (res, w', t', m') /\
      res = None /\ world_ok char_signed w' /\ dtst_ranges t' = []
  | _ => False
  end.
Proof.
  destruct (dt_symtab_create_spec char_signed (World [] None) [true; true; true]) as (t & w & m & E & -> & Hw & Hst & _);
    [done|done|by exists []|].
  rewrite E. destruct (dt_symbol_insert_errors char_signed (0, 0) w (Symtab [] None [] 0 0) [true; true; false] 0 [65] 12 35 0)
    as (res & w' & t' & m' & E' & Hw' & Hr & _); [exact Hw|split; [reflexivity|discriminate]|reflexivity|].
  exists res, w', t', m'. split; [exact E'|]. vm_compute in E'. injection E' as <- <- <- <-. split; [reflexivity|].
  split; [exact Hw'|reflexivity].
Defined.

(** Ranges of a symbol that ends at 2^64, where the end wraps to 0: every round
    adds the same range again, and the loop goes on as long as there is memory. *)
Example ends_at_top_loops :
  form_loop 200 [Symbol [65] (2 ^ 64 - 4096) 4096 0 0 0] [SymRange 0 0 0] 0 [] 0 (replicate 300 true) = None.
Proof. vm_compute. reflexivity. Qed.

(** Of two symbols that overlap in part, the one that starts last is taken and
    not the narrower one: [0, 100) and [50, 1050) both span 60. *)
Example overlap_not_narrowest :
  match form_loop 10 [Symbol [65] 0 100 0 0 0; Symbol [66] 50 1000 0 0 0] [SymRange 0 0 0; SymRange 0 0 1] 0 [] 0 (replicate 9 true) with
  | Some (Some (new, _), _) => new = [SymRange 0 50 0; SymRange 50 1050 1]
  | _ => False
  end.
Proof. vm_compute. reflexivity. Qed.
