(* ===== verification/Strtab.v ===== *)
(** * The D string table (libdtrace/dt_strtab.c)

    Strings are packed, NUL terminated, into a growing array of buffers of a
    fixed size and found again through a hash table of their positions.  A
    pointer into the table is a buffer number and an offset into that buffer;
    a byte that was allocated but never written is [None]. *)

From stdpp Require Import base gmap list numbers sets.
From S2P Require Import Prelude Str Htab.

Abbreviation cell := (option Z).
Abbreviation ptr := (nat * nat)%type.

(** ** Data *)

Record dt_strhash := StrHash {
  str_data : ptr;
  str_buf : nat;
  str_off : Z;
  str_len : Z;
}.

Record dt_strtab := Strtab {
  str_hash : list (list dt_strhash);
  str_hashsz : Z;
  str_bufs : list (list cell);
  str_ptr : ptr;
  str_nbufs : nat;
  str_bufsz : nat;
  str_nstrs : Z;
  str_size : Z;
}.

Definition set_bufs sp bufs p n :=
  Strtab (str_hash sp) (str_hashsz sp) bufs p n (str_bufsz sp) (str_nstrs sp) (str_size sp).

(** ** Operations *)

Section Strtab.
(** How a byte of a string reads as a [char]. *)
Variable chr : Z -> Z.

Definition dt_strtab_grow (sp : dt_strtab) (m : allocs) : Z * dt_strtab * allocs :=
  let '(ok, m) := malloc m in
  if negb ok then (-1, sp, m)
  else
    let '(ok, m) := malloc m in
    if negb ok then (-1, sp, m)
    else
      (0, set_bufs sp (take (str_nbufs sp) (str_bufs sp) ++ [replicate (str_bufsz sp) None])
            (str_nbufs sp, O) (S (str_nbufs sp)), m).

(** A byte is stored through [p]; a pointer that is out of bounds makes the
    operation undefined ([None]). *)
Definition store_bytes (bufs : list (list cell)) (p : ptr) (bs : bytes) : option (list (list cell)) :=
  buf ← bufs !! p.1;
  if decide (p.2 + length bs <= length buf)%nat
  then Some (<[p.1 := take p.2 buf ++ (Some <$> bs) ++ drop (p.2 + length bs) buf]> bufs)
  else None.

(** [dt_strtab_destroy] frees; only its effect on the caller's pointer shows. *)
Definition dt_strtab_create (nbuckets : nat) (bufsz : nat) (m : allocs)
    : option dt_strtab * allocs :=
  let '(ok, m) := malloc m in
  if negb ok then (None, m)
  else
    let '(ok, m) := malloc m in
    if negb ok then (None, m)
    else
      let sp := Strtab (replicate nbuckets []) (Z.of_nat nbuckets) [] (O, O) O bufsz 1 1 in
      let '(rc, sp, m) := dt_strtab_grow sp m in
      if rc =? -1 then (None, m)
      else
        (bufs ← store_bytes (str_bufs sp) (str_ptr sp) [0];
         Some (Strtab (str_hash sp) (str_hashsz sp) bufs
                 ((str_ptr sp).1, S (str_ptr sp).2) (str_nbufs sp) (str_bufsz sp) 1 1), m).

(** [strncmp] of stored bytes with a string; reading a byte that was never
    written is undefined. *)
Fixpoint strncmp (buf : list cell) (str : bytes) (n : nat) {struct n} : option Z :=
  match n with
  | O => Some 0
  | S n =>
      match buf, str with
      | Some a :: buf, b :: str =>
          if negb (a =? b) then Some (a - b)
          else if a =? 0 then Some 0
          else strncmp buf str n
      | _, _ => None
      end
  end.

(** [str] holds the [len] bytes to compare. *)
Fixpoint compare_loop (fuel : nat) (sp : dt_strtab) (b : nat) (buf : ptr) (str : bytes)
    : option Z :=
  match fuel with
  | O => None
  | S fuel =>
      if decide (length str = O) then Some 0
      else
        let '(b, buf) :=
          if decide (buf = (b, str_bufsz sp)) then (S b, (S b, O)) else (b, buf) in
        let resid := (str_bufsz sp - buf.2)%nat in
        let n := Nat.min resid (length str) in
        data ← str_bufs sp !! buf.1;
        rv ← strncmp (drop buf.2 data) str n;
        if negb (rv =? 0) then Some rv
        else compare_loop fuel sp b (buf.1, buf.2 + n)%nat (drop n str)
  end.
Definition dt_strtab_compare (sp : dt_strtab) (hp : dt_strhash) (str : bytes) : option Z :=
  compare_loop (S (length str)) sp (str_buf hp) (str_data hp) str.

(** Release the buffers above the first [old_n]. *)
Fixpoint copyin_undo (fuel : nat) (sp : dt_strtab) (old_n : nat) : dt_strtab :=
  match fuel with
  | O => sp
  | S fuel =>
      if decide (str_nbufs sp = old_n) then sp
      else
        let n := pred (str_nbufs sp) in
        copyin_undo fuel (set_bufs sp (take n (str_bufs sp)) (str_ptr sp) n) old_n
  end.

Fixpoint copyin_loop (fuel : nat) (old_p : ptr) (old_n : nat) (sp : dt_strtab) (m : allocs)
    (b : nat) (str : bytes) : option (Z * dt_strtab * allocs) :=
  match fuel with
  | O => None
  | S fuel =>
      if decide (length str = O) then Some (0, sp, m)
      else
        let '(rc, sp, m, b) :=
          if decide (str_ptr sp = (b, str_bufsz sp)) then
            let '(rc, sp, m) := dt_strtab_grow sp m in (rc, sp, m, S b)
          else (0, sp, m, b) in
        if rc =? -1 then
          let sp := copyin_undo (str_nbufs sp) sp old_n in
          Some (-1, set_bufs sp (str_bufs sp) old_p (str_nbufs sp), m)
        else
          let resid := (str_bufsz sp - (str_ptr sp).2)%nat in
          let n := Nat.min resid (length str) in
          bufs ← store_bytes (str_bufs sp) (str_ptr sp) (take n str);
          copyin_loop fuel old_p old_n
            (set_bufs sp bufs ((str_ptr sp).1, (str_ptr sp).2 + n)%nat (str_nbufs sp))
            m b (drop n str)
  end.
Definition dt_strtab_copyin (sp : dt_strtab) (m : allocs) (str : bytes) :=
  copyin_loop (S (length str)) (str_ptr sp) (str_nbufs sp) sp m (pred (str_nbufs sp)) str.

Fixpoint xindex_walk (sp : dt_strtab) (str : bytes) (chain : list dt_strhash) : option Z :=
  match chain with
  | [] => Some (-1)
  | hp :: chain =>
      rv ← dt_strtab_compare sp hp (str ++ [0]);
      if rv =? 0 then Some (str_off hp) else xindex_walk sp str chain
  end.
Definition dt_strtab_xindex (sp : dt_strtab) (str : bytes) (h : nat) : option Z :=
  chain ← str_hash sp !! h; xindex_walk sp str chain.

Definition strtab_hash (sp : dt_strtab) (str : bytes) : nat :=
  Z.to_nat (str2hval chr str (u32 (Z.of_nat (length str))) `mod` str_hashsz sp).

(** [None] is the null pointer. *)
Definition dt_strtab_index (sp : dt_strtab) (str : option bytes) : option Z :=
  match str with
  | None | Some [] => Some 0
  | Some str => dt_strtab_xindex sp str (strtab_hash sp str)
  end.

Definition dt_strtab_insert (sp : dt_strtab) (m : allocs) (str : option bytes)
    : option (Z * dt_strtab * allocs) :=
  match str with
  | None | Some [] => Some (0, sp, m)
  | Some str =>
      let h := strtab_hash sp str in
      off ← dt_strtab_xindex sp str h;
      if negb (off =? -1) then Some (off, sp, m)
      else
        let '(ok, m) := malloc m in
        if negb ok then Some (-1, sp, m)
        else
          let hp := StrHash (str_ptr sp) (pred (str_nbufs sp)) (str_size sp)
                      (Z.of_nat (length str)) in
          '(rc, sp, m) ← dt_strtab_copyin sp m (str ++ [0]);
          if rc =? -1 then Some (-1, sp, m)
          else
            chain ← str_hash sp !! h;
            Some (str_off hp,
                  Strtab (<[h := hp :: chain]> (str_hash sp)) (str_hashsz sp) (str_bufs sp)
                    (str_ptr sp) (str_nbufs sp) (str_bufsz sp) (str_nstrs sp + 1)
                    (str_size sp + Z.of_nat (length str) + 1), m)
  end.

Definition dt_strtab_size (sp : dt_strtab) : Z := str_size sp.

(** The write callback takes the data, the running total and its private state. *)
Fixpoint write_loop {P} (func : list cell -> Z -> P -> Z * P) (sp : dt_strtab) (todo i : nat)
    (total : Z) (priv : P) : option (Z * P) :=
  match todo with
  | O => Some (total, priv)
  | S todo =>
      buf ← str_bufs sp !! i;
      let n := if decide (i = pred (str_nbufs sp)) then (str_ptr sp).2 else str_bufsz sp in
      let '(res, priv) := func (take n buf) total priv in
      if res <=? 0 then Some (total, priv)
      else write_loop func sp todo (S i) (total + res) priv
  end.
Definition dt_strtab_write {P} (func : list cell -> Z -> P -> Z * P) (sp : dt_strtab) (priv : P)
    : option (Z * P) :=
  '(total, priv) ← write_loop func sp (str_nbufs sp) O 0 priv;
  if (total =? 0) && negb (str_size sp =? 0) then Some (-1, priv) else Some (total, priv).

(** The callback that fills a DIFO's string table; [buf] is the destination. *)
Definition dt_strtab_copystr (s : list cell) (off : Z) (buf : list cell) : Z * list cell :=
  (Z.of_nat (length s),
   take (Z.to_nat off) buf ++ s ++ drop (Z.to_nat off + length s) buf).
End Strtab.

(** ** The bytes of the table *)

(** The strings of the table one after the other, from the empty string on. *)
Definition image (l : list bytes) : bytes := [0] ++ concat ((λ s, s ++ [0]) <$> l).
Definition str_ok (s : bytes) : Prop := s <> [] /\ 0 ∉ s.

Lemma image_app l1 l2 : image (l1 ++ l2) = image l1 ++ concat ((λ s, s ++ [0]) <$> l2).
Proof. unfold image. by rewrite fmap_app, concat_app, app_assoc. Qed.

(** [F] is what has been written to the buffers of [sp] so far. *)
Record layout_ok (sp : dt_strtab) (F : bytes) : Prop := {
  lo_bufsz : (0 < str_bufsz sp)%nat;
  lo_nbufs : length (str_bufs sp) = str_nbufs sp;
  lo_bufs : Forall (λ b, length b = str_bufsz sp) (str_bufs sp);
  lo_last : str_nbufs sp = S (str_ptr sp).1;
  lo_ptr : ((str_ptr sp).2 <= str_bufsz sp)%nat;
  lo_data : take ((str_ptr sp).1 * str_bufsz sp + (str_ptr sp).2) (concat (str_bufs sp)) = Some <$> F;
}.

Lemma concat_const_length {A} n (ls : list (list A)) :
  Forall (λ b, length b = n) ls -> length (concat ls) = (length ls * n)%nat.
Proof. induction 1 as [|b ls Hb _ IH]; simpl; [done|]. rewrite length_app, Hb, IH. lia. Qed.

Lemma concat_split {A} n (ls : list (list A)) b buf :
  Forall (λ b, length b = n) ls -> ls !! b = Some buf ->
  exists c1 c2, length c1 = (b * n)%nat /\ concat ls = c1 ++ buf ++ c2 /\
    forall x, concat (<[b := x]> ls) = c1 ++ x ++ c2.
Proof.
  intros Hl Hb. exists (concat (take b ls)), (concat (drop (S b) ls)).
  pose proof (lookup_lt_Some _ _ _ Hb). split_and!.
  - rewrite (concat_const_length n) by by apply Forall_take.
    rewrite length_take. f_equal. lia.
  - rewrite <- (take_drop_middle ls b buf Hb) at 1. by rewrite concat_app.
  - intros x. rewrite insert_take_drop by done. by rewrite concat_app.
Qed.

Lemma layout_length sp F :
  layout_ok sp F -> length F = ((str_ptr sp).1 * str_bufsz sp + (str_ptr sp).2)%nat.
Proof.
  intros []. apply (f_equal length) in lo_data0.
  rewrite length_fmap, length_take, (concat_const_length (str_bufsz sp)) in lo_data0 by done.
  rewrite <- lo_data0, lo_nbufs0, lo_last0. nia.
Qed.

(** A written byte, read through its buffer. *)
Lemma layout_lookup sp F b d data :
  layout_ok sp F -> str_bufs sp !! b = Some data -> (d < str_bufsz sp)%nat ->
  (b * str_bufsz sp + d < length F)%nat ->
  data !! d = Some <$> F !! (b * str_bufsz sp + d)%nat.
Proof.
  intros Hok Hb Hd Hlt. pose proof (layout_length sp F Hok) as HF. destruct Hok.
  destruct (concat_split _ _ _ _ lo_bufs0 Hb) as (c1 & c2 & Hc1 & Hc & _).
  pose proof (Forall_lookup_1 _ _ _ _ lo_bufs0 Hb) as Hdl. simpl in Hdl.
  rewrite <- list_lookup_fmap, <- lo_data0, lookup_take, Hc.
  rewrite decide_True by lia.
  rewrite lookup_app_r by lia. rewrite lookup_app_l by lia. f_equal. lia.
Qed.

(** ** Comparing with a stored string *)

Lemma strncmp_spec n : forall mem s t,
  0 ∉ s -> 0 ∉ t -> (n <= S (length s))%nat ->
  (forall i, (i < n)%nat -> (i <= length t)%nat -> mem !! i = Some <$> (t ++ [0]) !! i) ->
  exists rv, strncmp mem (s ++ [0]) n = Some rv /\
    (rv = 0 <-> take n (s ++ [0]) = take n (t ++ [0])).
Proof.
  induction n as [|n IH]; intros mem s t Hs Ht Hn Hm.
  { exists 0. split; [done|]. by split. }
  pose proof (Hm O ltac:(lia) ltac:(lia)) as H0.
  destruct mem as [|a mem]; [by destruct t|]. simpl in H0.
  destruct s as [|c s], t as [|c' t]; simplify_eq/=; apply not_elem_of_cons in Hs || clear Hs;
    apply not_elem_of_cons in Ht || clear Ht.
  - exists 0. split; [done|]. by split.
  - exists c'. rewrite (proj2 (Z.eqb_neq c' 0)) by naive_solver. simpl.
    split; [by rewrite Z.sub_0_r|]. split; naive_solver.
  - exists (0 - c). destruct Hs as [Hc _].
    split; [by destruct c|]. split; [lia|naive_solver].
  - destruct (Z.eqb_spec c' c) as [->|Hne]; simpl.
    + rewrite (proj2 (Z.eqb_neq c 0)) by naive_solver.
      destruct (IH mem s t) as (rv & Hrv & Hiff); [naive_solver|naive_solver|lia| |].
      { intros i Hi Hit. apply (Hm (S i)); simpl; lia. }
      exists rv. split; [done|]. rewrite Hiff. split; congruence.
    + exists (c' - c). split; [done|]. split; [lia|naive_solver].
Qed.

Lemma take_app_nul s t n :
  0 ∉ s -> 0 ∉ t -> (n <= length s)%nat ->
  take n (s ++ [0]) = take n (t ++ [0]) <-> take n s = take n t /\ (n <= length t)%nat.
Proof.
  intros Hs Ht Hn. rewrite take_app_le by done. split.
  - intros Heq. assert (n <= length t)%nat as Hnt.
    { destruct (Nat.le_gt_cases n (length t)) as [|Hgt]; [done|]. destruct Hs.
      apply (list_elem_of_lookup_2 _ (length t)).
      rewrite <- (take_drop n s), Heq, lookup_app_l.
      - rewrite lookup_take, decide_True by done. by apply list_lookup_middle.
      - rewrite length_take, length_app. simpl. lia. }
    by rewrite take_app_le in Heq by done.
  - intros [Heq Hnt]. by rewrite Heq, take_app_le.
Qed.

Lemma compare_loop_spec fuel : forall sp F b d s t rest,
  layout_ok sp F -> (d <= str_bufsz sp)%nat -> (S (length s) < fuel)%nat ->
  0 ∉ s -> 0 ∉ t -> drop (b * str_bufsz sp + d) F = t ++ 0 :: rest ->
  exists rv, compare_loop fuel sp b (b, d) (s ++ [0]) = Some rv /\ (rv = 0 <-> s = t).
Proof.
  induction fuel as [|fuel IH]; intros sp F b d s t rest Hok Hd Hf Hs Ht HF; [lia|].
  cbn [compare_loop]. rewrite decide_False by (rewrite length_app; simpl; lia).
  assert (exists b' d', (if decide ((b, d) = (b, str_bufsz sp)) then (S b, (S b, O)) else (b, (b, d)))
            = (b', (b', d')) /\ (d' < str_bufsz sp)%nat /\
            (b' * str_bufsz sp + d' = b * str_bufsz sp + d)%nat) as (b' & d' & -> & Hd' & Hpos).
  { pose proof (lo_bufsz _ _ Hok). case_decide as Hbd; simplify_eq.
    - exists (S b), O. split; [done|]. split; [done|]. lia.
    - exists b, d. split; [done|]. split; [|done].
      assert (d <> str_bufsz sp) by congruence. lia. }
  cbn [fst snd]. rewrite <- Hpos in HF. clear b d Hd Hpos.
  assert (b' * str_bufsz sp + d' + length t < length F)%nat as Hlt.
  { apply (f_equal length) in HF. rewrite length_drop, length_app in HF. simpl in HF. lia. }
  destruct (lookup_lt_is_Some_2 (str_bufs sp) b') as [data Hdata].
  { pose proof (layout_length _ _ Hok). destruct Hok. rewrite lo_nbufs0, lo_last0. nia. }
  rewrite Hdata. cbn [mbind option_bind].
  set (n := Nat.min (str_bufsz sp - d') (length (s ++ [0]))).
  assert (n <= S (length s))%nat as Hns by (subst n; rewrite length_app; simpl; lia).
  destruct (strncmp_spec n (drop d' data) s t) as (rv & -> & Hrv); [done..| |].
  { intros i Hi Hit. rewrite lookup_drop, (layout_lookup sp F b') by (done || lia).
    f_equal. rewrite Nat.add_assoc, <- lookup_drop, HF.
    destruct (decide (i = length t)) as [->|].
    - by rewrite !list_lookup_middle.
    - rewrite !lookup_app_l by lia. done. }
  cbn [mbind option_bind]. destruct (Z.eqb_spec rv 0) as [->|Hne]; simpl.
  2:{ exists rv. split; [done|]. split; [done|]. intros ->. tauto. }
  assert (take n (s ++ [0]) = take n (t ++ [0])) as Heq by tauto. clear Hrv.
  destruct (decide (n = S (length s))) as [Hn|Hn].
  - rewrite Hn in *. rewrite drop_ge by (rewrite length_app; simpl; lia).
    exists 0. split; [by destruct fuel; [lia|]|]. split; [intros _|done].
    rewrite take_ge in Heq by (rewrite length_app; simpl; lia).
    assert (length s <= length t)%nat as Hle.
    { apply (f_equal length) in Heq. rewrite length_take, !length_app in Heq. cbn [length] in Heq. lia. }
    destruct (decide (length s = length t)) as [Hl|Hl].
    + rewrite take_ge in Heq by (rewrite length_app; simpl; lia). by apply app_inv_tail in Heq.
    + destruct Ht. rewrite take_app_le in Heq by lia.
      rewrite <- (take_drop (S (length s)) t), <- Heq. set_solver.
  - destruct (take_app_nul s t n) as [[Heq' Hnt] _]; [done..|lia|done|].
    rewrite drop_app_le by lia.
    destruct (IH sp F b' (d' + n)%nat (drop n s) (drop n t) rest) as (rv & Hrv & Hiff).
    + done.
    + subst n. lia.
    + rewrite length_drop. pose proof (lo_bufsz _ _ Hok).
      assert (0 < n)%nat by (subst n; rewrite length_app; simpl; lia). lia.
    + intros Hin. by apply subseteq_drop in Hin.
    + intros Hin. by apply subseteq_drop in Hin.
    + by rewrite Nat.add_assoc, <- drop_drop, HF, drop_app_le.
    + exists rv. split; [done|]. rewrite Hiff. split; [|by intros ->].
      intros Hd. by rewrite <- (take_drop n s), Heq', Hd, take_drop.
Qed.

(** ** Appending bytes *)

Lemma grow_spec sp F m :
  layout_ok sp F -> str_ptr sp = (pred (str_nbufs sp), str_bufsz sp) ->
  exists rc sp' m', dt_strtab_grow sp m = (rc, sp', m') /\
    ((rc = -1 /\ sp' = sp /\ ~ (exists k, m = true :: true :: k)) \/
     (rc = 0 /\ layout_ok sp' F /\ m = true :: true :: m' /\ str_ptr sp' = (str_nbufs sp, O) /\
      sp' = set_bufs sp (str_bufs sp') (str_ptr sp') (S (str_nbufs sp)) /\
      str_nbufs sp' = S (str_nbufs sp))).
Proof.
  intros [] Hp. unfold dt_strtab_grow.
  destruct m as [|[] [|[] m]]; cbn -[set_bufs]; eexists _, _, _; (split; [done|]).
  1-2,4-7: left; split; [done|]; split; [done|]; naive_solver.
  right. split; [done|]. split; [|done]. rewrite Hp in *. simpl in *.
  rewrite (take_ge (str_bufs sp)) by lia. split; simpl; try done.
  - rewrite length_app. simpl. lia.
  - apply Forall_app. split; [done|]. repeat constructor. by rewrite length_replicate.
  - lia.
  - rewrite <- lo_data0, concat_app, take_app_le.
    + f_equal. nia.
    + rewrite (concat_const_length (str_bufsz sp)) by done. nia.
Qed.

Lemma store_spec sp F bs :
  layout_ok sp F -> ((str_ptr sp).2 + length bs <= str_bufsz sp)%nat ->
  exists bufs, store_bytes (str_bufs sp) (str_ptr sp) bs = Some bufs /\
    layout_ok (set_bufs sp bufs ((str_ptr sp).1, (str_ptr sp).2 + length bs)%nat (str_nbufs sp))
      (F ++ bs).
Proof.
  intros [] Hbs. unfold store_bytes.
  destruct (lookup_lt_is_Some_2 (str_bufs sp) (str_ptr sp).1) as [buf Hbuf]; [lia|].
  pose proof (Forall_lookup_1 _ _ _ _ lo_bufs0 Hbuf) as Hlen. simpl in Hlen.
  destruct (concat_split _ _ _ _ lo_bufs0 Hbuf) as (c1 & c2 & Hc1 & Hc & Hins).
  rewrite Hbuf. cbn [mbind option_bind]. rewrite decide_True by lia.
  eexists. split; [done|]. split; simpl; try done.
  - by rewrite length_insert.
  - apply Forall_insert; [done|].
    rewrite !length_app, length_fmap, length_take, length_drop. lia.
  - rewrite Hins, fmap_app, <- lo_data0, Hc, <- Hc1.
    rewrite !take_app_add, <- !app_assoc. f_equal. rewrite (take_app_le buf) by lia.
    rewrite (take_app_add' (take _ buf)) by (rewrite length_take; lia). f_equal.
    by rewrite <- (length_fmap Some bs), take_app_length.
Qed.

Lemma copyin_undo_spec fuel : forall sp old_n,
  (old_n <= str_nbufs sp <= fuel + old_n)%nat -> length (str_bufs sp) = str_nbufs sp ->
  copyin_undo fuel sp old_n = set_bufs sp (take old_n (str_bufs sp)) (str_ptr sp) old_n.
Proof.
  induction fuel as [|fuel IH]; intros sp old_n Hn Hl; cbn [copyin_undo].
  - rewrite take_ge by lia. destruct sp; simpl in *. unfold set_bufs. simpl. f_equal. lia.
  - case_decide as Hd.
    + rewrite take_ge by lia. destruct sp; simpl in *. unfold set_bufs. simpl. f_equal. lia.
    + rewrite IH; simpl.
      * rewrite take_take, Nat.min_l by lia. done.
      * lia.
      * rewrite length_take. lia.
Qed.

(** Room for [n] more bytes can be found: two allocations for each buffer. *)
Definition allocs_ok (m : allocs) (n : nat) : Prop := exists k, m = replicate (2 * n) true ++ k.

Lemma allocs_ok_S m n :
  allocs_ok m (S n) -> exists k, m = true :: true :: k /\ allocs_ok k n.
Proof.
  intros [k ->]. exists (replicate (2 * n) true ++ k). split; [|by exists k].
  by replace (2 * S n)%nat with (S (S (2 * n))) by lia.
Qed.

Lemma allocs_ok_le m n n' : (n' <= n)%nat -> allocs_ok m n -> allocs_ok m n'.
Proof.
  intros Hle [k ->]. exists (replicate (2 * (n - n')) true ++ k).
  rewrite app_assoc, <- replicate_add. do 2 f_equal. lia.
Qed.

Lemma copyin_loop_spec fuel : forall old_p old_n sp m str F F0 X,
  layout_ok sp F -> (length str < fuel)%nat -> F = F0 ++ X ->
  (old_n <= str_nbufs sp)%nat -> old_n = S old_p.1 -> (old_p.2 <= str_bufsz sp)%nat ->
  length F0 = (old_p.1 * str_bufsz sp + old_p.2)%nat ->
  exists rc sp' m', copyin_loop fuel old_p old_n sp m (pred (str_nbufs sp)) str = Some (rc, sp', m') /\
    sp' = set_bufs sp (str_bufs sp') (str_ptr sp') (str_nbufs sp') /\
    ((rc = 0 /\ layout_ok sp' (F ++ str)) \/
     (rc = -1 /\ layout_ok sp' F0 /\ ~ allocs_ok m (length str))).
Proof.
  induction fuel as [|fuel IH]; intros old_p old_n sp m str F F0 X Hok Hf HX Hn Hold Hop HF0; [lia|].
  cbn [copyin_loop]. case_decide as Hstr.
  { destruct str; [|done]. eexists _, _, _. split; [done|]. split; [by destruct sp|].
    left. by rewrite app_nil_r. }
  assert (forall sp1 m1, layout_ok sp1 F -> ((str_ptr sp1).2 < str_bufsz sp1)%nat ->
    sp1 = set_bufs sp (str_bufs sp1) (str_ptr sp1) (str_nbufs sp1) -> (old_n <= str_nbufs sp1)%nat ->
    (allocs_ok m (length str) -> allocs_ok m1 (pred (length str))) ->
    exists rc sp' m',
      (let n := Nat.min (str_bufsz sp1 - (str_ptr sp1).2) (length str) in
       bufs ← store_bytes (str_bufs sp1) (str_ptr sp1) (take n str);
       copyin_loop fuel old_p old_n
         (set_bufs sp1 bufs ((str_ptr sp1).1, (str_ptr sp1).2 + n)%nat (str_nbufs sp1))
         m1 (pred (str_nbufs sp1)) (drop n str)) = Some (rc, sp', m') /\
      sp' = set_bufs sp (str_bufs sp') (str_ptr sp') (str_nbufs sp') /\
      ((rc = 0 /\ layout_ok sp' (F ++ str)) \/
       (rc = -1 /\ layout_ok sp' F0 /\ ~ allocs_ok m (length str)))) as Hcopy.
  { intros sp1 m1 Hok1 Hlt Hsp1 Hn1 Hm1. cbn zeta.
    assert (str_bufsz sp1 = str_bufsz sp) as Hbz by (rewrite Hsp1; done).
    set (n := Nat.min _ _). assert (length (take n str) = n) as Hlt' by (rewrite length_take; lia).
    destruct (store_spec sp1 F (take n str) Hok1) as (bufs & -> & Hok2); [rewrite Hlt'; lia|].
    rewrite Hlt' in Hok2. cbn [mbind option_bind].
    destruct (IH old_p old_n _ m1 (drop n str) _ F0 (X ++ take n str) Hok2)
      as (rc & sp' & m' & Hrun & Hsp' & Hres).
    - rewrite length_drop. lia.
    - subst F. by rewrite app_assoc.
    - done.
    - done.
    - simpl. lia.
    - simpl. by rewrite Hbz.
    - exists rc, sp', m'. split; [exact Hrun|]. split; [rewrite Hsp' at 1; rewrite Hsp1; done|].
      rewrite <- app_assoc, take_drop in Hres. destruct Hres as [?|(? & ? & Hno)]; [by left|right].
      split; [done|]. split; [done|]. intros Ha. apply Hno, (allocs_ok_le _ (pred (length str))); [|auto].
      rewrite length_drop. lia. }
  case_decide as Hp.
  - destruct (grow_spec sp F m Hok Hp) as (rc & sp' & m' & Hg & Hcase). rewrite Hg.
    destruct Hcase as [(-> & -> & Hm)|(-> & Hok' & -> & Hp' & Hsp' & Hn')].
    + cbn -[set_bufs]. eexists _, _, _. split; [done|].
      rewrite copyin_undo_spec by (destruct Hok; lia). split; [done|]. right. split; [done|].
      split; [|intros (k & -> & _)%(allocs_ok_le _ _ 1)%allocs_ok_S; [naive_solver|lia]].
      destruct Hok. split; simpl; try done.
      * rewrite length_take. lia.
      * by apply Forall_take.
      * subst F. rewrite fmap_app in lo_data0.
        assert (take (length F0) (concat (str_bufs sp)) = Some <$> F0) as HF.
        { rewrite <- (take_app_length (Some <$> F0) (Some <$> X)), <- lo_data0, take_take.
          rewrite length_fmap. f_equal. apply (f_equal length) in lo_data0.
          rewrite length_app, !length_fmap, length_take in lo_data0. lia. }
        rewrite <- HF, <- HF0. rewrite <- (take_drop old_n (str_bufs sp)) at 2.
        rewrite concat_app, take_app_le; [done|].
        rewrite (concat_const_length (str_bufsz sp)) by by apply Forall_take.
        rewrite length_take. nia.
    + assert (S (pred (str_nbufs sp)) = pred (str_nbufs sp')) as ->
        by (rewrite Hn'; destruct Hok; lia).
      apply (Hcopy sp' m'); rewrite ?Hp', ?Hn'; simpl; try (done || lia).
      * apply lo_bufsz in Hok'. lia.
      * by rewrite <- Hp'.
      * destruct str as [|c str]; [done|]. intros (k & ? & ?)%allocs_ok_S. by simplify_eq.
  - apply (Hcopy sp m); try done.
    + destruct Hok. destruct (str_ptr sp) as [b o] eqn:Hptr. simpl in *.
      assert (o <> str_bufsz sp); [|lia]. intros ->. apply Hp. f_equal. lia.
    + by destruct sp.
    + apply allocs_ok_le. lia.
Qed.

(** ** The abstract table: the distinct strings, in insertion order *)

Section Rep.
#[local] Opaque image.
Variable chr : Z -> Z.
Local Abbreviation hash := (strtab_hash chr).

Definition str_offset (l : list bytes) (i : nat) : nat := length (image (take i l)).

(** A position record of the [i]th string. *)
Definition hp_ok (sp : dt_strtab) (l : list bytes) (h : nat) (hp : dt_strhash) : Prop :=
  exists i s, l !! i = Some s /\ hash sp s = h /\ str_off hp = Z.of_nat (str_offset l i) /\
    (str_data hp).1 = str_buf hp /\ ((str_data hp).2 <= str_bufsz sp)%nat /\
    (str_buf hp * str_bufsz sp + (str_data hp).2 = str_offset l i)%nat.

Record strtab_rep (sp : dt_strtab) (l : list bytes) : Prop := {
  sr_layout : layout_ok sp (image l);
  sr_size : str_size sp = Z.of_nat (length (image l));
  sr_nstrs : str_nstrs sp = 1 + Z.of_nat (length l);
  sr_ok : Forall str_ok l;
  sr_nodup : NoDup l;
  sr_hashsz : str_hashsz sp = Z.of_nat (length (str_hash sp)) /\ 0 < str_hashsz sp;
  sr_sound h chain : str_hash sp !! h = Some chain -> Forall (hp_ok sp l h) chain;
  sr_complete i s : l !! i = Some s -> exists chain hp,
    str_hash sp !! hash sp s = Some chain /\ hp ∈ chain /\ str_off hp = Z.of_nat (str_offset l i);
}.

Lemma hash_chain sp l s :
  strtab_rep sp l -> exists chain, str_hash sp !! hash sp s = Some chain.
Proof.
  intros Hr. destruct (sr_hashsz _ _ Hr) as [Hsz Hpos]. apply lookup_lt_is_Some_2.
  unfold strtab_hash. pose proof (Z.mod_pos_bound (str2hval chr s (u32 (Z.of_nat (length s)))) _ Hpos).
  lia.
Qed.

Lemma image_at l i s :
  l !! i = Some s -> exists rest, drop (str_offset l i) (image l) = s ++ 0 :: rest.
Proof.
  intros Hi. exists (concat ((λ s, s ++ [0]) <$> drop (S i) l)). unfold str_offset.
  rewrite <- (take_drop_middle l i s Hi) at 2. rewrite image_app, drop_app_length. simpl.
  by rewrite <- app_assoc.
Qed.

Lemma str_offset_inj l i j s t :
  Forall str_ok l -> l !! i = Some s -> l !! j = Some t -> str_offset l i = str_offset l j -> s = t.
Proof.
  intros Hok Hi Hj Ho. destruct (image_at _ _ _ Hi) as [r Hr], (image_at _ _ _ Hj) as [r' Hr'].
  rewrite Ho, Hr' in Hr. clear Hr'. apply (Forall_lookup_1 _ _ _ _ Hok) in Hi as [_ Hs], Hj as [_ Ht].
  clear -Hr Hs Ht. revert t Ht Hr.
  induction s as [|c s IH]; intros [|c' t] Ht Hr; simplify_eq/=; [done|set_solver|set_solver|].
  f_equal. apply IH; [set_solver..|done].
Qed.

Lemma compare_spec sp l h hp s :
  strtab_rep sp l -> hp_ok sp l h hp -> 0 ∉ s ->
  exists rv t i, dt_strtab_compare sp hp (s ++ [0]) = Some rv /\ (rv = 0 <-> s = t) /\
    l !! i = Some t /\ str_off hp = Z.of_nat (str_offset l i).
Proof.
  intros Hr (i & t & Hi & Hh & Ho & Hb & Hd & Hpos) Hs.
  destruct (image_at _ _ _ Hi) as [rest Hrest].
  pose proof (Forall_lookup_1 _ _ _ _ (sr_ok _ _ Hr) Hi) as [_ Ht].
  destruct (compare_loop_spec (S (length (s ++ [0]))) sp (image l) (str_buf hp) (str_data hp).2
              s t rest) as (rv & Hrv & Hiff); try done.
  - apply Hr.
  - rewrite length_app. simpl. lia.
  - by rewrite Hpos.
  - exists rv, t, i. split; [|done]. unfold dt_strtab_compare. rewrite <- Hrv. f_equal.
    by destruct (str_data hp); simpl in *; subst.
Qed.

Lemma xindex_walk_spec sp l h chain s :
  strtab_rep sp l -> Forall (hp_ok sp l h) chain -> 0 ∉ s ->
  (exists i, l !! i = Some s /\ xindex_walk sp s chain = Some (Z.of_nat (str_offset l i))) \/
  (xindex_walk sp s chain = Some (-1) /\
   forall hp i, hp ∈ chain -> l !! i = Some s -> str_off hp <> Z.of_nat (str_offset l i)).
Proof.
  intros Hr Hc Hs. induction Hc as [|hp chain Hhp _ IH]; cbn [xindex_walk].
  { right. split; [done|]. by intros ? ? ?%not_elem_of_nil. }
  destruct (compare_spec _ _ _ _ s Hr Hhp Hs) as (rv & t & j & -> & Hiff & Hj & Ho).
  cbn [mbind option_bind]. destruct (Z.eqb_spec rv 0) as [->|Hne].
  { left. exists j. rewrite Ho. destruct Hiff as [Hst _]. by rewrite Hst. }
  destruct IH as [?|[? Hno]]; [by left|right]. split; [done|].
  intros hp' i [->|Hin]%elem_of_cons Hi; [|eauto].
  rewrite Ho. intros Heq. apply Hne, Hiff.
  eapply (str_offset_inj l i j); [apply Hr|done..|lia].
Qed.

Lemma xindex_spec sp l s :
  strtab_rep sp l -> 0 ∉ s ->
  (exists i, l !! i = Some s /\ dt_strtab_xindex sp s (hash sp s) = Some (Z.of_nat (str_offset l i))) \/
  (s ∉ l /\ dt_strtab_xindex sp s (hash sp s) = Some (-1)).
Proof.
  intros Hr Hs. destruct (hash_chain sp l s Hr) as [chain Hc]. unfold dt_strtab_xindex.
  rewrite Hc. cbn [mbind option_bind].
  destruct (xindex_walk_spec sp l _ _ s Hr (sr_sound _ _ Hr _ _ Hc) Hs) as [?|[Hw Hno]]; [by left|].
  right. split; [|done]. intros [i Hi]%list_elem_of_lookup_1.
  destruct (sr_complete _ _ Hr i s Hi) as (chain' & hp & Hc' & Hin & Ho).
  rewrite Hc in Hc'. simplify_eq. by apply (Hno hp i).
Qed.

Lemma str_offset_app l k i :
  (i < length l)%nat -> str_offset (l ++ k) i = str_offset l i.
Proof. intros. unfold str_offset. by rewrite take_app_le by lia. Qed.

Lemma str_offset_last l s : str_offset (l ++ [s]) (length l) = length (image l).
Proof. unfold str_offset. by rewrite take_app_length. Qed.

(** Only the buffers change: the table still represents the same strings. *)
Lemma rep_set_bufs sp sp' l :
  strtab_rep sp l -> layout_ok sp' (image l) ->
  sp' = set_bufs sp (str_bufs sp') (str_ptr sp') (str_nbufs sp') -> strtab_rep sp' l.
Proof.
  intros Hr Hok Hsp. assert (str_hash sp' = str_hash sp /\ str_hashsz sp' = str_hashsz sp /\
    str_bufsz sp' = str_bufsz sp /\ str_nstrs sp' = str_nstrs sp /\ str_size sp' = str_size sp)
    as (E1 & E2 & E3 & E4 & E5) by (rewrite Hsp; done).
  destruct Hr. split; unfold hp_ok, strtab_hash in *; rewrite ?E1, ?E2, ?E3, ?E4, ?E5; done.
Qed.

Lemma rep_insert sp sp' l s chain :
  strtab_rep sp l -> s ∉ l -> str_ok s -> layout_ok sp' (image l ++ s ++ [0]) ->
  sp' = set_bufs sp (str_bufs sp') (str_ptr sp') (str_nbufs sp') ->
  str_hash sp' !! hash sp s = Some chain ->
  strtab_rep
    (Strtab (<[hash sp s := StrHash (str_ptr sp) (pred (str_nbufs sp)) (str_size sp)
                              (Z.of_nat (length s)) :: chain]> (str_hash sp'))
       (str_hashsz sp') (str_bufs sp') (str_ptr sp') (str_nbufs sp') (str_bufsz sp')
       (str_nstrs sp' + 1) (str_size sp' + Z.of_nat (length s) + 1)) (l ++ [s]).
Proof.
  intros Hr Hs Hok Hlay Hsp Hch. assert (str_hash sp' = str_hash sp /\ str_hashsz sp' = str_hashsz sp /\
    str_bufsz sp' = str_bufsz sp /\ str_nstrs sp' = str_nstrs sp /\ str_size sp' = str_size sp)
    as (E1 & E2 & E3 & E4 & E5) by (rewrite Hsp; done).
  assert (image (l ++ [s]) = image l ++ s ++ [0]) as Him by (by rewrite image_app; simpl; rewrite app_nil_r).
  pose proof (lookup_lt_Some _ _ _ Hch) as Hlt. rewrite E1 in Hlt, Hch.
  pose proof (layout_length _ _ (sr_layout _ _ Hr)) as Hlen.
  pose proof (sr_layout _ _ Hr) as Hlay0. destruct Hr.
  split; simpl; unfold strtab_hash; simpl; rewrite ?E1, ?E2, ?E4, ?E5.
  - rewrite Him. destruct Hlay. by split.
  - rewrite Him, sr_size0, !length_app. simpl. lia.
  - rewrite sr_nstrs0, length_app. simpl. lia.
  - apply Forall_app. by split; [|constructor].
  - rewrite (Permutation_app_comm l [s]). by constructor.
  - by rewrite length_insert.
  - assert (forall h hp, hp_ok sp l h hp -> hp_ok sp (l ++ [s]) h hp) as Hmono.
    { intros h hp (i & t & Hi & Hrest). pose proof (lookup_lt_Some _ _ _ Hi).
      exists i, t. rewrite str_offset_app by done. by rewrite lookup_app_l. }
    intros h chain' Hc. unfold hp_ok. simpl. rewrite E3.
    assert (Forall (hp_ok sp (l ++ [s]) h) chain') as Hf; [|exact Hf].
    destruct (decide (h = hash sp s)) as [->|Hne].
    + rewrite list_lookup_insert_eq in Hc by done. simplify_eq. constructor.
      * exists (length l), s. rewrite str_offset_last. simpl. rewrite list_lookup_middle by done.
        destruct Hlay0. rewrite sr_size0, lo_last0. simpl. rewrite <- Hlen. done.
      * eapply Forall_impl; [by eapply sr_sound0|apply Hmono].
    + rewrite list_lookup_insert_ne in Hc by done.
      eapply Forall_impl; [by eapply sr_sound0|apply Hmono].
  - intros i t Hi. fold (hash sp s). fold (hash sp t).
    apply lookup_app_Some in Hi as [Hi|[Hge Hi]].
    + pose proof (lookup_lt_Some _ _ _ Hi). rewrite str_offset_app by done.
      destruct (sr_complete0 i t Hi) as (chain0 & hp & Hc0 & Hin & Ho).
      destruct (decide (hash sp t = hash sp s)) as [Heq|Hne].
      * rewrite Heq, list_lookup_insert_eq in * by done. rewrite Hch in Hc0. simplify_eq.
        eexists _, hp. split; [done|]. split; [by right|done].
      * rewrite list_lookup_insert_ne by done. eauto.
    + apply list_lookup_singleton_Some in Hi as [Hi ->].
      replace i with (length l) by lia. rewrite str_offset_last, list_lookup_insert_eq by done.
      eexists _, _. split; [done|]. split; [by left|]. done.
Qed.

Lemma index_spec sp l s :
  strtab_rep sp l -> str_ok s ->
  (exists i, l !! i = Some s /\ dt_strtab_index chr sp (Some s) = Some (Z.of_nat (str_offset l i))) \/
  (s ∉ l /\ dt_strtab_index chr sp (Some s) = Some (-1)).
Proof. intros Hr [Hne Hs]. destruct s; [done|]. by apply xindex_spec. Qed.

(** Storing [n] bytes cannot fail: the record and the buffers are available. *)
Definition insert_allocs_ok (m : allocs) (n : nat) : Prop :=
  exists k, m = true :: k /\ allocs_ok k (S n).

Lemma insert_spec sp l m s :
  strtab_rep sp l -> str_ok s ->
  exists rc sp' m', dt_strtab_insert chr sp m (Some s) = Some (rc, sp', m') /\
    ((exists i, l !! i = Some s /\ rc = Z.of_nat (str_offset l i) /\ sp' = sp /\ m' = m) \/
     (s ∉ l /\ rc = -1 /\ strtab_rep sp' l /\ ~ insert_allocs_ok m (length s)) \/
     (s ∉ l /\ rc = Z.of_nat (length (image l)) /\ strtab_rep sp' (l ++ [s]))).
Proof.
  intros Hr [Hne Hs].
  assert (dt_strtab_insert chr sp m (Some s) =
    let h := hash sp s in
    off ← dt_strtab_xindex sp s h;
    if negb (off =? -1) then Some (off, sp, m)
    else
      let '(ok, m) := malloc m in
      if negb ok then Some (-1, sp, m)
      else
        let hp := StrHash (str_ptr sp) (pred (str_nbufs sp)) (str_size sp) (Z.of_nat (length s)) in
        '(rc, sp, m) ← dt_strtab_copyin sp m (s ++ [0]);
        if rc =? -1 then Some (-1, sp, m)
        else
          chain ← str_hash sp !! h;
          Some (str_off hp,
                Strtab (<[h := hp :: chain]> (str_hash sp)) (str_hashsz sp) (str_bufs sp)
                  (str_ptr sp) (str_nbufs sp) (str_bufsz sp) (str_nstrs sp + 1)
                  (str_size sp + Z.of_nat (length s) + 1), m)) as -> by (by destruct s).
  cbn zeta. destruct (xindex_spec sp l s Hr Hs) as [(i & Hi & ->)|[Hni ->]]; cbn [mbind option_bind].
  { rewrite (proj2 (Z.eqb_neq _ (-1))) by lia. eexists _, _, _. split; [done|]. left. by exists i. }
  cbn [negb Z.eqb Pos.eqb]. destruct (malloc m) as [ok m1] eqn:Hm. destruct ok; simpl negb; cbn iota.
  2:{ eexists _, _, _. split; [done|]. right; left. do 3 (split; [done|]).
      intros (k & -> & _). by inversion Hm. }
  destruct (copyin_loop_spec (S (length (s ++ [0]))) (str_ptr sp) (str_nbufs sp) sp m1 (s ++ [0])
              (image l) (image l) []) as (rc & sp' & m' & Hrun & Hsp' & Hres).
  { apply Hr. } { lia. } { by rewrite app_nil_r. } { lia. } { apply Hr. } { apply Hr. }
  { apply layout_length, Hr. }
  unfold dt_strtab_copyin. rewrite Hrun. cbn [mbind option_bind].
  destruct Hres as [[-> Hlay]|(-> & Hlay & Hna)]; cbn [Z.eqb Pos.eqb].
  - assert (str_hash sp' = str_hash sp) as Hh by (rewrite Hsp'; done).
    destruct (hash_chain sp l s Hr) as [chain Hch]. rewrite Hh, Hch. cbn [mbind option_bind].
    eexists _, _, _. split; [done|]. right; right. split; [done|].
    split; [apply Hr|]. rewrite <- Hh. by apply rep_insert; [..|rewrite Hh].
  - eexists _, _, _. split; [done|]. right; left. split; [done|]. split; [done|].
    split; [by eapply rep_set_bufs|]. intros (k & -> & Hk). simplify_eq/=. apply Hna.
    rewrite length_app. simpl. by rewrite Nat.add_1_r.
Qed.

Lemma create_spec nbuckets bufsz m sp m' :
  (0 < nbuckets)%nat -> (0 < bufsz)%nat ->
  dt_strtab_create nbuckets bufsz m = (Some sp, m') -> strtab_rep sp [].
Proof.
  intros Hnb Hbs. unfold dt_strtab_create, dt_strtab_grow.
  destruct (malloc m) as [[] m1], (malloc m1) as [[] m2]; try done. cbn -[image].
  destruct (malloc m2) as [[] m3]; try done. destruct (malloc m3) as [[] m4]; try done.
  cbn -[image replicate]. rewrite decide_True by (rewrite length_replicate; lia).
  intros H. destruct bufsz as [|bufsz]; [lia|]. cbn [mbind option_bind] in H. simplify_eq.
  split; simpl; try done.
  - split; simpl; try done; try lia.
    apply Forall_singleton. simpl. by rewrite drop_0, length_replicate.
  - constructor.
  - rewrite length_replicate. split; [done|lia].
  - intros h chain Hc. apply lookup_replicate in Hc as [-> _]. constructor.
Qed.

(** Whatever an insertion does, it leaves a table of at least the same strings. *)
Lemma insert_rep sp l m s :
  strtab_rep sp l -> 0 ∉ s ->
  exists rc sp' m' l', dt_strtab_insert chr sp m (Some s) = Some (rc, sp', m') /\
    strtab_rep sp' l' /\ l `prefix_of` l'.
Proof.
  intros Hr Hs. destruct (decide (s = [])) as [->|Hne]; [by exists 0, sp, m, l|].
  destruct (insert_spec sp l m s Hr) as (rc & sp' & m' & Hi & Hcase); [done|].
  destruct Hcase as [(i & _ & _ & -> & _)|[(_ & _ & Hr' & _)|(_ & _ & Hr')]].
  - by exists rc, sp, m', l.
  - by exists rc, sp', m', l.
  - exists rc, sp', m', (l ++ [s]). split; [done|]. split; [done|]. by eexists.
Qed.

(** ** Writing the table out *)

Lemma write_loop_copystr sp l dst todo : forall i,
  strtab_rep sp l -> (length (image l) <= length dst)%nat -> (todo + i = str_nbufs sp)%nat ->
  (0 < todo)%nat ->
  write_loop dt_strtab_copystr sp todo i (Z.of_nat (i * str_bufsz sp))
    (take (i * str_bufsz sp) (Some <$> image l) ++ drop (i * str_bufsz sp) dst) =
  Some (Z.of_nat (length (image l)), (Some <$> image l) ++ drop (length (image l)) dst).
Proof.
  induction todo as [|todo IH]; intros i Hr Hdst Hi Htodo; [lia|].
  pose proof (layout_length _ _ (sr_layout _ _ Hr)) as Hlen.
  destruct (sr_layout _ _ Hr) as [Hbz Hnb Hbufs Hlast Hptr Hdata].
  cbn [write_loop]. destruct (lookup_lt_is_Some_2 (str_bufs sp) i) as [buf Hbuf]; [lia|].
  pose proof (Forall_lookup_1 _ _ _ _ Hbufs Hbuf) as Hbl. simpl in Hbl.
  rewrite Hbuf. cbn [mbind option_bind].
  set (n := if decide _ then _ else _).
  assert (n <= str_bufsz sp /\ i * str_bufsz sp + n <= length (image l))%nat as [Hn Hin].
  { subst n. case_decide; [subst i|]; rewrite Hlast in *; simpl in *; nia. }
  assert (take n buf = take n (drop (i * str_bufsz sp) (Some <$> image l))) as Htn.
  { destruct (concat_split _ _ _ _ Hbufs Hbuf) as (c1 & c2 & Hc1 & Hc & _).
    rewrite <- Hdata, <- Hlen, skipn_firstn_comm, take_take, Nat.min_l, Hc, <- Hc1, drop_app_length by lia.
    by rewrite take_app_le by lia. }
  unfold dt_strtab_copystr at 1. rewrite length_take, Nat.min_l, Nat2Z.id by lia.
  set (p := (i * str_bufsz sp)%nat) in *.
  assert (length (take p (Some <$> image l)) = p) as Hp by (rewrite length_take, length_fmap; lia).
  rewrite take_app_length' by done. rewrite drop_app_add' by done.
  rewrite Htn, drop_drop, app_assoc, take_take_drop.
  assert (Z.of_nat p + Z.of_nat n = Z.of_nat (p + n)) as -> by lia.
  destruct (decide (todo = O)) as [->|Ht].
  - assert (p + n = length (image l))%nat as Hpn.
    { subst n p. rewrite decide_True by lia. rewrite Hlen. f_equal. f_equal. lia. }
    rewrite Hpn, (take_ge (Some <$> image l)) by (rewrite length_fmap; lia).
    destruct (Z.leb_spec (Z.of_nat n) 0); [|done]. by replace p with (length (image l)) by lia.
  - assert (n = str_bufsz sp) as Hnb' by (subst n; rewrite decide_False by lia; done).
    rewrite (proj2 (Z.leb_gt _ _)) by lia.
    replace (p + n)%nat with (S i * str_bufsz sp)%nat by (subst p; lia). apply IH; (done || lia).
Qed.

#[local] Transparent image.

Lemma write_spec sp l dst :
  strtab_rep sp l -> (length (image l) <= length dst)%nat ->
  dt_strtab_write dt_strtab_copystr sp dst =
    Some (Z.of_nat (length (image l)), (Some <$> image l) ++ drop (length (image l)) dst).
Proof.
  intros Hr Hd. unfold dt_strtab_write.
  pose proof (write_loop_copystr sp l dst (str_nbufs sp) 0 Hr Hd) as Hw.
  rewrite Nat.mul_0_l, take_0, drop_0 in Hw. change (Z.of_nat 0) with 0 in Hw. cbn [app] in Hw. rewrite Hw; [|lia|by destruct (sr_layout _ _ Hr); lia].
  cbn [mbind option_bind]. rewrite (proj2 (Z.eqb_neq _ 0)); [done|].
  unfold image. simpl. lia.
Qed.

(** ** Any sequence of insertions *)

Fixpoint run_inserts (sp : dt_strtab) (m : allocs) (strs : list (option bytes))
    : option (list Z * dt_strtab * allocs) :=
  match strs with
  | [] => Some ([], sp, m)
  | s :: strs =>
      '(rc, sp, m) ← dt_strtab_insert chr sp m s;
      '(rcs, sp, m) ← run_inserts sp m strs;
      Some (rc :: rcs, sp, m)
  end.

(** [rc] is the place of [s] in a table of the strings [l]. *)
Definition placed (sp : dt_strtab) (l : list bytes) (s : option bytes) (rc : Z) : Prop :=
  dt_strtab_index chr sp s = Some rc /\ 0 <= rc /\
  exists rest, drop (Z.to_nat rc) (image l) = default [] s ++ 0 :: rest.

Lemma placed_rep sp l i s :
  strtab_rep sp l -> l !! i = Some s -> placed sp l (Some s) (Z.of_nat (str_offset l i)).
Proof.
  intros Hr Hi. pose proof (Forall_lookup_1 _ _ _ _ (sr_ok _ _ Hr) Hi) as Hok.
  split; [|split; [lia|]].
  - destruct (index_spec sp l s Hr Hok) as [(j & Hj & ->)|[Hn _]].
    + by rewrite (NoDup_lookup l i j s (sr_nodup _ _ Hr)).
    + destruct Hn. by eapply list_elem_of_lookup_2.
  - rewrite Nat2Z.id. by apply image_at.
Qed.

Lemma run_inserts_spec strs : forall sp l m,
  strtab_rep sp l -> Forall (λ s, 0 ∉ default [] s) strs ->
  exists rcs sp' m' l', run_inserts sp m strs = Some (rcs, sp', m') /\
    strtab_rep sp' l' /\ l `prefix_of` l' /\ (forall s, s ∈ l' -> s ∈ l \/ Some s ∈ strs) /\
    Forall2 (λ s rc, rc = -1 \/ placed sp' l' s rc) strs rcs.
Proof.
  induction strs as [|s strs IH]; intros sp l m Hr Hok.
  { exists [], sp, m, l. split; [done|]. split; [done|]. split; [done|]. split; [auto|done]. }
  apply Forall_cons in Hok as [Hs Hok]. cbn [run_inserts].
  destruct (decide (default [] s = [])) as [He|He].
  - assert (dt_strtab_insert chr sp m s = Some (0, sp, m)) as -> by (by destruct s as [[]|]).
    cbn [mbind option_bind].
    destruct (IH sp l m Hr Hok) as (rcs & sp' & m' & l' & -> & Hr' & Hp & Hin & Hall).
    cbn [mbind option_bind]. eexists _, _, _, l'. split; [done|]. split; [done|]. split; [done|].
    split; [intros t Ht; destruct (Hin t Ht); [by left|right; by right]|]. constructor; [right|done].
    split; [by destruct s as [[]|]|]. split; [done|]. rewrite He. by eexists.
  - destruct s as [s|]; [|done]. simpl in Hs, He.
    destruct (insert_spec sp l m s Hr) as (rc & sp1 & m1 & -> & Hcase); [done|]. cbn [mbind option_bind].
    assert (exists l1, strtab_rep sp1 l1 /\ l `prefix_of` l1 /\ (forall t, t ∈ l1 -> t ∈ l \/ t = s) /\
      (rc = -1 \/ exists i, l1 !! i = Some s /\ rc = Z.of_nat (str_offset l1 i)))
      as (l1 & Hr1 & Hp1 & Hin1 & Hrc).
    { destruct Hcase as [(i & Hi & -> & -> & ->)|[(Hn & -> & Hr1 & _)|(Hn & -> & Hr1)]].
      - exists l. do 3 (split; [auto|]). right. by exists i.
      - exists l. do 3 (split; [auto|]). by left.
      - exists (l ++ [s]). split; [done|]. split; [by eexists|]. split; [set_solver|].
        right. exists (length l). rewrite str_offset_last. by rewrite list_lookup_middle. }
    destruct (IH sp1 l1 m1 Hr1 Hok) as (rcs & sp' & m' & l' & -> & Hr' & Hp & Hin & Hall).
    cbn [mbind option_bind]. eexists _, _, _, l'. split; [done|]. split; [done|].
    split; [by transitivity l1|]. split.
    { intros t Ht. destruct (Hin t Ht) as [H|H]; [|right; by right].
      destruct (Hin1 t H) as [?| ->]; [by left|right; by left]. }
    constructor; [|done]. destruct Hrc as [->|(i & Hi & ->)]; [by left|right].
    destruct Hp as [k ->]. rewrite <- (str_offset_app l1 k) by (by eapply lookup_lt_Some).
    apply placed_rep; [done|]. by apply lookup_app_l_Some.
Qed.
End Rep.

(** C31: a string table created with buffers of any positive size, then given any
    sequence of insertions under any pattern of allocation failures, holds a
    list [l] of distinct non-empty strings taken from the inserted ones.  Every
    insertion that did not fail returned the offset at which [dt_strtab_index]
    finds the string ever after and at which the table's image holds its NUL
    terminated bytes; a string that is not in the table is not found;
    [dt_strtab_size] is the size of the image, and [dt_strtab_write] with
    [dt_strtab_copystr] fills a large enough block with exactly the image.  An
    insertion fails only when memory is short. *)
Theorem dt_strtab_refines chr nbuckets bufsz m sp0 m0 strs :
  (0 < nbuckets)%nat -> (0 < bufsz)%nat -> Forall (λ s, 0 ∉ default [] s) strs ->
  dt_strtab_create nbuckets bufsz m = (Some sp0, m0) ->
  exists rcs sp m' l,
    run_inserts chr sp0 m0 strs = Some (rcs, sp, m') /\
    NoDup l /\ (forall s, s ∈ l -> s <> [] /\ Some s ∈ strs) /\
    Forall2 (λ s rc, rc = -1 \/ placed chr sp l s rc) strs rcs /\
    (forall s, s <> [] -> 0 ∉ s -> s ∉ l -> dt_strtab_index chr sp (Some s) = Some (-1)) /\
    dt_strtab_size sp = Z.of_nat (length (image l)) /\
    (forall dst, (length (image l) <= length dst)%nat ->
       dt_strtab_write dt_strtab_copystr sp dst =
         Some (dt_strtab_size sp, (Some <$> image l) ++ drop (length (image l)) dst)) /\
    (forall s m1, 0 ∉ s -> insert_allocs_ok m1 (length s) ->
       exists rc sp1 m2, dt_strtab_insert chr sp m1 (Some s) = Some (rc, sp1, m2) /\ rc <> -1).
Proof.
  intros Hn Hb Hok Hc. apply (create_spec chr) in Hc; [|done..].
  destruct (run_inserts_spec chr strs sp0 [] m0 Hc Hok) as (rcs & sp & m' & l & Hrun & Hr & _ & Hin & Hall).
  exists rcs, sp, m', l. split; [done|]. split; [apply Hr|]. split; [|split; [done|split; [|split; [apply Hr|split]]]].
  - intros s Hs. split; [by apply (proj1 (Forall_forall _ _) (sr_ok _ _ _ Hr) s)|].
    destruct (Hin s Hs) as [H|]; [by apply not_elem_of_nil in H|done].
  - intros s Hne Hs Hnl. destruct (index_spec chr sp l s Hr) as [(i & Hi & _)|[_ ?]]; [done| |done].
    destruct Hnl. by eapply list_elem_of_lookup_2.
  - intros dst Hd. unfold dt_strtab_size. rewrite (sr_size _ _ _ Hr). by eapply write_spec.
  - intros s m1 Hs Hm. destruct (decide (s = [])) as [->|Hne]; [by eexists 0, _, _|].
    destruct (insert_spec chr sp l m1 s Hr) as (rc & sp1 & m2 & Hi & Hcase); [done|].
    exists rc, sp1, m2. split; [done|]. destruct Hcase as [(? & _ & -> & _)|[(_ & _ & _ & ?)|(_ & -> & _)]]; [lia|done|lia].
Qed.

Definition ex_strs : list (option bytes) := [Some [97; 98]; None; Some [98]; Some [97; 98]; Some [99; 100; 101]].

Lemma dt_strtab_refines_witness :
  (exists sp0 m0, dt_strtab_create 3 2 (replicate 20 true) = (Some sp0, m0) /\
   exists rcs sp m' l, run_inserts char_signed sp0 m0 ex_strs = Some (rcs, sp, m') /\ NoDup l /\
     dt_strtab_size sp = Z.of_nat (length (image l))) /\
  (exists sp0 m0 sp m', dt_strtab_create 3 2 (replicate 10 true) = (Some sp0, m0) /\
   run_inserts char_signed sp0 m0 ex_strs = Some ([1; 0; 4; 1; -1], sp, m')).
Proof.
  split; [|eexists _, _, _, _; split; vm_compute; reflexivity].
  destruct (dt_strtab_create 3 2 (replicate 20 true)) as [[sp0|] m0] eqn:E; [|vm_compute in E; discriminate].
  exists sp0, m0. split; [reflexivity|].
  destruct (dt_strtab_refines char_signed 3 2 (replicate 20 true) sp0 m0 ex_strs)
    as (rcs & sp & m' & l & H & Hnd & _ & _ & _ & Hs & _).
  - lia.
  - lia.
  - apply (bool_decide_unpack _). vm_compute. exact I.
  - exact E.
  - exists rcs, sp, m', l. split; [exact H|]. split; [exact Hnd|exact Hs].
Defined.
