(* ===== verification/Bpf.v ===== *)
(** * BPF instructions (include/bpf_asm.h) and the machine that runs them

    The instruction macros of bpf_asm.h with the widths of [struct bpf_insn]
    (a signed 16-bit [off], a signed 32-bit [imm]), and the documented meaning
    of the instructions the code generator emits: 64-bit ALU operations, jumps,
    calls, aligned double-word memory accesses and aligned loads of 1, 2 and 4
    bytes (in the little-endian order of the machines dtrace runs on).  The machine is
    parameterised by how a jump finds its target, so that labelled intermediate
    code and assembled code run on the same machine. *)

From stdpp Require Import base list numbers relations sets.
From S2P Require Import Prelude.

(** ** Instructions *)

Record bpf_insn := Insn {
  i_code : Z;
  i_dst : Z;
  i_src : Z;
  i_off : Z;
  i_imm : Z;
}.

#[export] Instance bpf_insn_eq_dec : EqDecision bpf_insn.
Proof. solve_decision. Defined.

(** Instruction classes, sizes, modes and operations of the kernel's ABI. *)
Abbreviation BPF_LD := 0.
Abbreviation BPF_LDX := 1.
Abbreviation BPF_ST := 2.
Abbreviation BPF_STX := 3.
Abbreviation BPF_ALU := 4.
Abbreviation BPF_JMP := 5.
Abbreviation BPF_ALU64 := 7.
Abbreviation BPF_W := 0.
Abbreviation BPF_H := 8.
Abbreviation BPF_B := 16.
Abbreviation BPF_DW := 24.
Abbreviation BPF_IMM := 0.
Abbreviation BPF_MEM := 96.
Abbreviation BPF_XADD := 192.
Abbreviation BPF_K := 0.
Abbreviation BPF_X := 8.
Abbreviation BPF_ADD := 0.
Abbreviation BPF_SUB := 16.
Abbreviation BPF_MUL := 32.
Abbreviation BPF_DIV := 48.
Abbreviation BPF_OR := 64.
Abbreviation BPF_AND := 80.
Abbreviation BPF_LSH := 96.
Abbreviation BPF_RSH := 112.
Abbreviation BPF_NEG := 128.
Abbreviation BPF_MOD := 144.
Abbreviation BPF_XOR := 160.
Abbreviation BPF_MOV := 176.
Abbreviation BPF_ARSH := 192.
Abbreviation BPF_END := 208.
Abbreviation BPF_JA := 0.
Abbreviation BPF_JEQ := 16.
Abbreviation BPF_JGT := 32.
Abbreviation BPF_JGE := 48.
Abbreviation BPF_JNE := 80.
Abbreviation BPF_JSGT := 96.
Abbreviation BPF_JSGE := 112.
Abbreviation BPF_CALL := 128.
Abbreviation BPF_EXIT := 144.
Abbreviation BPF_JLT := 160.
Abbreviation BPF_JLE := 176.
Abbreviation BPF_JSLT := 192.
Abbreviation BPF_JSLE := 208.
Abbreviation BPF_PSEUDO_CALL := 1.
Abbreviation BPF_REG_0 := 0.
Abbreviation BPF_REG_1 := 1.
Abbreviation BPF_REG_2 := 2.
Abbreviation BPF_REG_3 := 3.
Abbreviation BPF_REG_4 := 4.
Abbreviation BPF_REG_5 := 5.
Abbreviation BPF_REG_FP := 10.

Definition BPF_CLASS (code : Z) : Z := Z.land code 7.
Definition BPF_OP (code : Z) : Z := Z.land code 240.
Definition BPF_SRC (code : Z) : Z := Z.land code 8.

(** The macros of bpf_asm.h. *)
Definition BPF_ALU64_REG (op dst src : Z) : bpf_insn := Insn (BPF_ALU64 + op + BPF_X) dst src 0 0.
Definition BPF_ALU32_REG (op dst src : Z) : bpf_insn := Insn (BPF_ALU + op + BPF_X) dst src 0 0.
Definition BPF_END_REG (sz dst dir : Z) : bpf_insn :=
  Insn (BPF_ALU + BPF_END + dir) dst 0 0
    (if sz =? BPF_DW then 64 else if sz =? BPF_W then 32 else if sz =? BPF_H then 16 else 0).
Definition BPF_NEG_REG (dst : Z) : bpf_insn := Insn (BPF_ALU64 + BPF_NEG) dst 0 0 0.
Definition BPF_ALU64_IMM (op dst val : Z) : bpf_insn :=
  Insn (BPF_ALU64 + op + BPF_K) dst 0 0 (s32 val).
Definition BPF_MOV_REG (dst src : Z) : bpf_insn := BPF_ALU64_REG BPF_MOV dst src.
Definition BPF_MOV_IMM (dst val : Z) : bpf_insn := BPF_ALU64_IMM BPF_MOV dst val.
Definition BPF_MOV32_REG (dst src : Z) : bpf_insn := BPF_ALU32_REG BPF_MOV dst src.
Definition BPF_LOAD (sz dst src ofs : Z) : bpf_insn :=
  Insn (BPF_LDX + BPF_MEM + sz) dst src (s16 ofs) 0.
(** A pair of instructions: the low and the high half of the constant. *)
Definition BPF_LDDW (dst val : Z) : bpf_insn * bpf_insn :=
  (Insn (BPF_LD + BPF_IMM + BPF_DW) dst 0 0 (s32 (u32 val)),
   Insn 0 0 0 0 (s32 (u32 (Z.shiftr (u64 val) 32)))).
Definition BPF_STORE (sz dst ofs src : Z) : bpf_insn :=
  Insn (BPF_STX + BPF_MEM + sz) dst src (s16 ofs) 0.
Definition BPF_XADD_REG (sz dst ofs src : Z) : bpf_insn :=
  Insn (BPF_STX + BPF_XADD + sz) dst src (s16 ofs) 0.
Definition BPF_STORE_IMM (sz dst ofs val : Z) : bpf_insn :=
  Insn (BPF_ST + BPF_MEM + sz) dst 0 (s16 ofs) (s32 val).
Definition BPF_CALL_HELPER (id : Z) : bpf_insn := Insn (BPF_JMP + BPF_CALL) 0 0 0 (s32 id).
Definition BPF_CALL_FUNC (val : Z) : bpf_insn :=
  Insn (BPF_JMP + BPF_CALL) 0 BPF_PSEUDO_CALL 0 (s32 val).
Definition BPF_RETURN : bpf_insn := Insn (BPF_JMP + BPF_EXIT) 0 0 0 0.
Definition BPF_BRANCH_REG (op r1 r2 ofs : Z) : bpf_insn :=
  Insn (BPF_JMP + op + BPF_X) r1 r2 (s16 ofs) 0.
Definition BPF_BRANCH_IMM (op r1 val ofs : Z) : bpf_insn :=
  Insn (BPF_JMP + op + BPF_K) r1 0 (s16 ofs) (s32 val).
Definition BPF_JUMP (ofs : Z) : bpf_insn := Insn (BPF_JMP + BPF_JA) 0 0 (s16 ofs) 0.
Definition BPF_NOP : bpf_insn := BPF_JUMP 0.
Definition BPF_IS_CALL (x : bpf_insn) : bool := i_code x =? BPF_JMP + BPF_CALL.
Definition BPF_IS_NOP (x : bpf_insn) : bool :=
  (i_code x =? BPF_JMP + BPF_JA) && (i_off x =? 0).
Definition BPF_EQUAL (x y : bpf_insn) : bool :=
  (i_code x =? i_code y) && (i_dst x =? i_dst y) && (i_src x =? i_src y) &&
  (i_off x =? i_off y) && (i_imm x =? i_imm y).

(** ** The machine *)

(** Registers hold unsigned 64-bit values; memory is a store of 64-bit words at
    addresses that are multiples of 8. *)
Record mstate := MState { m_reg : Z -> Z; m_mem : Z -> Z }.

Definition upd (f : Z -> Z) (k v : Z) : Z -> Z := λ x, if x =? k then v else f x.
Definition set_reg (m : mstate) (r v : Z) : mstate := MState (upd (m_reg m) r v) (m_mem m).
Definition set_mem (m : mstate) (a v : Z) : mstate := MState (m_reg m) (upd (m_mem m) a v).

(** The ALU: division by zero gives 0 and a remainder by zero the dividend;
    shift counts are taken modulo 64. *)
Definition alu (op a b : Z) : option Z :=
  if op =? BPF_ADD then Some (u64 (a + b))
  else if op =? BPF_SUB then Some (u64 (a - b))
  else if op =? BPF_MUL then Some (u64 (a * b))
  else if op =? BPF_DIV then Some (if b =? 0 then 0 else a `div` b)
  else if op =? BPF_OR then Some (Z.lor a b)
  else if op =? BPF_AND then Some (Z.land a b)
  else if op =? BPF_LSH then Some (u64 (Z.shiftl a (b `mod` 64)))
  else if op =? BPF_RSH then Some (Z.shiftr a (b `mod` 64))
  else if op =? BPF_NEG then Some (u64 (- a))
  else if op =? BPF_MOD then Some (if b =? 0 then a else a `mod` b)
  else if op =? BPF_XOR then Some (Z.lxor a b)
  else if op =? BPF_MOV then Some b
  else if op =? BPF_ARSH then Some (u64 (Z.shiftr (s64 a) (b `mod` 64)))
  else None.

Definition jcond (op a b : Z) : option bool :=
  if op =? BPF_JA then Some true
  else if op =? BPF_JEQ then Some (a =? b)
  else if op =? BPF_JGT then Some (b <? a)
  else if op =? BPF_JGE then Some (b <=? a)
  else if op =? BPF_JNE then Some (negb (a =? b))
  else if op =? BPF_JSGT then Some (s64 b <? s64 a)
  else if op =? BPF_JSGE then Some (s64 b <=? s64 a)
  else if op =? BPF_JLT then Some (a <? b)
  else if op =? BPF_JLE then Some (a <=? b)
  else if op =? BPF_JSLT then Some (s64 a <? s64 b)
  else if op =? BPF_JSLE then Some (s64 a <=? s64 b)
  else None.

(** The second operand: a register, or the sign extended immediate. *)
Definition src_val (m : mstate) (i : bpf_insn) : Z :=
  if BPF_SRC (i_code i) =? BPF_X then m_reg m (i_src i) else u64 (i_imm i).

Definition addr_of (m : mstate) (r o : Z) : Z := u64 (m_reg m r + o).
Definition aligned (a : Z) : bool := a `mod` 8 =? 0.

(** The [w] bytes at [a], a multiple of [w], out of the word that holds them. *)
Definition load_bytes (mem : Z -> Z) (w a : Z) : Z :=
  wrapu (8 * w) (Z.shiftr (mem (a - a `mod` 8)) (8 * (a `mod` 8))).
(** The number of bytes of a load that is narrower than a word. *)
Definition ldx_width (code : Z) : option Z :=
  if code =? BPF_LDX + BPF_MEM + BPF_B then Some 1
  else if code =? BPF_LDX + BPF_MEM + BPF_H then Some 2
  else if code =? BPF_LDX + BPF_MEM + BPF_W then Some 4
  else None.

Inductive outcome :=
  | Next (pc : nat) (m : mstate)
  | Exited (m : mstate)
  | Stuck.

Section Machine.
(** The program, where a jump with offset field [o] at [pc] lands, and what a
    call instruction does. *)
Variable fetch : nat -> option bpf_insn.
Variable target : nat -> Z -> option nat.
Variable call : bpf_insn -> mstate -> option mstate.

Definition step_jmp (pc : nat) (m : mstate) (i : bpf_insn) : outcome :=
  let op := BPF_OP (i_code i) in
  if op =? BPF_EXIT then Exited m
  else if op =? BPF_CALL then
    match call i m with Some m' => Next (S pc) m' | None => Stuck end
  else
    match jcond op (m_reg m (i_dst i)) (src_val m i) with
    | None => Stuck
    | Some false => Next (S pc) m
    | Some true =>
        if i_off i =? 0 then Next (S pc) m
        else match target pc (i_off i) with Some pc' => Next pc' m | None => Stuck end
    end.

Definition step_mem (pc : nat) (m : mstate) (i : bpf_insn) : outcome :=
  if i_code i =? BPF_LDX + BPF_MEM + BPF_DW then
    let a := addr_of m (i_src i) (i_off i) in
    if aligned a then Next (S pc) (set_reg m (i_dst i) (m_mem m a)) else Stuck
  else if ldx_width (i_code i) is Some w then
    let a := addr_of m (i_src i) (i_off i) in
    if a `mod` w =? 0 then Next (S pc) (set_reg m (i_dst i) (load_bytes (m_mem m) w a)) else Stuck
  else
    let a := addr_of m (i_dst i) (i_off i) in
    if negb (aligned a) then Stuck
    else if i_code i =? BPF_STX + BPF_MEM + BPF_DW then
      Next (S pc) (set_mem m a (m_reg m (i_src i)))
    else if i_code i =? BPF_STX + BPF_XADD + BPF_DW then
      Next (S pc) (set_mem m a (u64 (m_mem m a + m_reg m (i_src i))))
    else if i_code i =? BPF_ST + BPF_MEM + BPF_DW then
      Next (S pc) (set_mem m a (u64 (i_imm i)))
    else Stuck.

Definition step (pc : nat) (m : mstate) : outcome :=
  match fetch pc with
  | None => Stuck
  | Some i =>
      if BPF_CLASS (i_code i) =? BPF_ALU64 then
        match alu (BPF_OP (i_code i)) (m_reg m (i_dst i)) (src_val m i) with
        | Some v => Next (S pc) (set_reg m (i_dst i) v)
        | None => Stuck
        end
      else if BPF_CLASS (i_code i) =? BPF_JMP then step_jmp pc m i
      else if i_code i =? BPF_LD + BPF_IMM + BPF_DW then
        match fetch (S pc) with
        | Some j =>
            if i_code j =? 0 then
              Next (S (S pc)) (set_reg m (i_dst i) (u32 (i_imm i) + 2 ^ 32 * u32 (i_imm j)))
            else Stuck
        | None => Stuck
        end
      else step_mem pc m i
  end.

Definition bstep (x y : nat * mstate) : Prop := step x.1 x.2 = Next y.1 y.2.

(** A run that ends with the exit instruction. *)
Definition runs_to_exit (x : nat * mstate) (m : mstate) : Prop :=
  exists y, rtc bstep x y /\ step y.1 y.2 = Exited m.

(** The machine as a program: [n] steps at most. *)
Fixpoint exec (n : nat) (pc : nat) (m : mstate) : option mstate :=
  match n with
  | O => None
  | S n =>
      match step pc m with
      | Next pc m => exec n pc m
      | Exited m => Some m
      | Stuck => None
      end
  end.

Lemma exec_runs_to_exit n pc m m' : exec n pc m = Some m' -> runs_to_exit (pc, m) m'.
Proof.
  revert pc m. induction n as [|n IH]; intros pc m; simpl; [done|].
  destruct (step pc m) as [pc1 m1|m1|] eqn:Hs; [|intros; simplify_eq; exists (pc, m); by split|done].
  intros (y & Hr & Hy)%IH. exists y. split; [|done]. eapply rtc_l; [|done]. exact Hs.
Qed.

Lemma runs_to_exit_exec x m : runs_to_exit x m -> exists n, exec n x.1 x.2 = Some m.
Proof.
  intros (y & Hr & Hy). induction Hr as [x|x z y Hx _ IH].
  - exists 1%nat. simpl. by rewrite Hy.
  - destruct IH as [n Hn]; [done|]. exists (S n). simpl. unfold bstep in Hx. by rewrite Hx.
Qed.
End Machine.

(** ** What each instruction does *)

Section Steps.
Variable fetch : nat -> option bpf_insn.
Variable target : nat -> Z -> option nat.
Variable call : bpf_insn -> mstate -> option mstate.
Abbreviation st := (step fetch target call).

(** The ALU operations, as a bool so that membership is decided by computation. *)
Definition is_alu_op (op : Z) : bool := bool_decide (op ∈ [BPF_ADD; BPF_SUB; BPF_MUL; BPF_DIV; BPF_OR;
  BPF_AND; BPF_LSH; BPF_RSH; BPF_NEG; BPF_MOD; BPF_XOR; BPF_MOV; BPF_ARSH]).
Definition is_branch_op (op : Z) : bool := bool_decide (op ∈ [BPF_JEQ; BPF_JGT; BPF_JGE; BPF_JNE;
  BPF_JSGT; BPF_JSGE; BPF_JLT; BPF_JLE; BPF_JSLT; BPF_JSLE]).

Ltac ops H := apply bool_decide_eq_true_1 in H; rewrite !elem_of_cons in H;
  repeat destruct H as [-> | H]; [..|by apply not_elem_of_nil in H].

Lemma alu_total op a b : is_alu_op op = true -> exists v, alu op a b = Some v.
Proof. intros H. ops H; by eexists. Qed.

(** The decoding of a concrete opcode is a computation. *)
Ltac by_alu Hv :=
  lazymatch type of Hv with
  | alu ?o ?a ?b = Some ?v =>
      lazymatch goal with
      | |- _ = Next ?pc (set_reg ?m ?d _) =>
          change (match alu o a b with Some v => Next pc (set_reg m d v) | None => Stuck end
                  = Next pc (set_reg m d v)); by rewrite Hv
      end
  end.
Ltac by_jcond Hb l :=
  lazymatch type of Hb with
  | jcond ?o ?a ?b = Some _ =>
      lazymatch goal with
      | |- _ = (if _ then match target ?pc _ with _ => _ end else Next _ ?m) =>
          change (match jcond o a b with
                  | None => Stuck
                  | Some false => Next (S pc) m
                  | Some true => if s16 l =? 0 then Next (S pc) m
                      else match target pc (s16 l) with Some pc' => Next pc' m | None => Stuck end
                  end = (if ltac:(match type of Hb with _ = Some ?x => exact x end)
                         then match target pc l with Some pc' => Next pc' m | None => Stuck end
                         else Next (S pc) m)); rewrite Hb
      end
  end.

Lemma step_alu_reg pc m op dst src v :
  fetch pc = Some (BPF_ALU64_REG op dst src) -> is_alu_op op = true ->
  alu op (m_reg m dst) (m_reg m src) = Some v -> st pc m = Next (S pc) (set_reg m dst v).
Proof. intros Hf H Hv. unfold step. rewrite Hf. ops H; by_alu Hv. Qed.

Lemma step_alu_imm pc m op dst val v :
  fetch pc = Some (BPF_ALU64_IMM op dst val) -> is_alu_op op = true ->
  alu op (m_reg m dst) (u64 (s32 val)) = Some v -> st pc m = Next (S pc) (set_reg m dst v).
Proof. intros Hf H Hv. unfold step. rewrite Hf. ops H; by_alu Hv. Qed.

Lemma step_neg pc m dst :
  fetch pc = Some (BPF_NEG_REG dst) -> st pc m = Next (S pc) (set_reg m dst (u64 (- m_reg m dst))).
Proof. intros Hf. unfold step. by rewrite Hf. Qed.

Lemma step_branch_imm pc m op r val l b :
  fetch pc = Some (BPF_BRANCH_IMM op r val l) -> is_branch_op op = true ->
  jcond op (m_reg m r) (u64 (s32 val)) = Some b -> 0 < l < 2 ^ 15 ->
  st pc m = if b then match target pc l with Some pc' => Next pc' m | None => Stuck end
            else Next (S pc) m.
Proof.
  intros Hf H Hb Hl. assert (s16 l = l) as Hs by (apply wraps_small; lia).
  unfold step. rewrite Hf. ops H; by_jcond Hb l; rewrite Hs, (proj2 (Z.eqb_neq l 0)) by lia; done.
Qed.

Lemma step_branch_reg pc m op r1 r2 l b :
  fetch pc = Some (BPF_BRANCH_REG op r1 r2 l) -> is_branch_op op = true ->
  jcond op (m_reg m r1) (m_reg m r2) = Some b -> 0 < l < 2 ^ 15 ->
  st pc m = if b then match target pc l with Some pc' => Next pc' m | None => Stuck end
            else Next (S pc) m.
Proof.
  intros Hf H Hb Hl. assert (s16 l = l) as Hs by (apply wraps_small; lia).
  unfold step. rewrite Hf. ops H; by_jcond Hb l; rewrite Hs, (proj2 (Z.eqb_neq l 0)) by lia; done.
Qed.

Lemma step_jump pc m l :
  fetch pc = Some (BPF_JUMP l) -> 0 < l < 2 ^ 15 ->
  st pc m = match target pc l with Some pc' => Next pc' m | None => Stuck end.
Proof.
  intros Hf Hl. unfold step. rewrite Hf.
  change ((if s16 l =? 0 then Next (S pc) m
           else match target pc (s16 l) with Some pc' => Next pc' m | None => Stuck end) =
          match target pc l with Some pc' => Next pc' m | None => Stuck end).
  rewrite (wraps_small 16 l) by lia. by rewrite (proj2 (Z.eqb_neq l 0)) by lia.
Qed.

Lemma step_nop pc m : fetch pc = Some BPF_NOP -> st pc m = Next (S pc) m.
Proof. intros Hf. unfold step. by rewrite Hf. Qed.

Lemma step_is_nop pc m ins :
  fetch pc = Some ins -> BPF_IS_NOP ins = true -> st pc m = Next (S pc) m.
Proof.
  intros Hf Hn. unfold BPF_IS_NOP in Hn. destruct ins; simpl in Hn. b2p. subst.
  unfold step. by rewrite Hf.
Qed.

Lemma step_lddw pc m dst val :
  fetch pc = Some (BPF_LDDW dst val).1 -> fetch (S pc) = Some (BPF_LDDW dst val).2 ->
  st pc m = Next (S (S pc)) (set_reg m dst (u64 val)).
Proof.
  intros Hf Hf'. unfold step. rewrite Hf, Hf'. cbn -[wraps wrapu Z.pow Z.mul Z.add Z.shiftr].
  do 2 f_equal. rewrite !wrapu_wraps, !wrapu_idem by lia.
  assert (u32 val = u64 val `mod` 2 ^ 32) as ->.
  { unfold wrapu. symmetry. apply Z.mod_mod_divide. by exists (2 ^ 32). }
  rewrite (wrapu_small 32 (Z.shiftr _ _)).
  - rewrite Z.shiftr_div_pow2 by lia. pose proof (Z.div_mod (u64 val) (2 ^ 32)). lia.
  - rewrite Z.shiftr_div_pow2 by lia. pose proof (wrapu_range 64 val ltac:(lia)) as Hr.
    split; [apply Z.div_pos; lia|]. apply Z.div_lt_upper_bound; lia.
Qed.

Lemma step_load pc m dst src o :
  fetch pc = Some (BPF_LOAD BPF_DW dst src o) -> aligned (addr_of m src (s16 o)) = true ->
  st pc m = Next (S pc) (set_reg m dst (m_mem m (addr_of m src (s16 o)))).
Proof. intros Hf Ha. unfold step. rewrite Hf. cbn -[wraps wrapu aligned addr_of]. unfold step_mem.
  cbn -[wraps wrapu aligned addr_of]. by rewrite Ha. Qed.

Lemma step_load_narrow pc m sz w dst src o :
  (sz = BPF_B /\ w = 1) \/ (sz = BPF_H /\ w = 2) \/ (sz = BPF_W /\ w = 4) ->
  fetch pc = Some (BPF_LOAD sz dst src o) -> addr_of m src (s16 o) `mod` w = 0 ->
  st pc m = Next (S pc) (set_reg m dst (load_bytes (m_mem m) w (addr_of m src (s16 o)))).
Proof.
  intros Hsz Hf Ha. apply Z.eqb_eq in Ha. unfold step. rewrite Hf.
  destruct Hsz as [[-> ->]|[[-> ->]|[-> ->]]];
    lazymatch goal with |- _ = Next (S pc) (set_reg _ _ (load_bytes _ ?w ?a)) =>
      change ((if a `mod` w =? 0 then Next (S pc) (set_reg m dst (load_bytes (m_mem m) w a)) else Stuck) =
              Next (S pc) (set_reg m dst (load_bytes (m_mem m) w a))) end; by rewrite Ha.
Qed.

Lemma step_store pc m dst o src :
  fetch pc = Some (BPF_STORE BPF_DW dst o src) -> aligned (addr_of m dst (s16 o)) = true ->
  st pc m = Next (S pc) (set_mem m (addr_of m dst (s16 o)) (m_reg m src)).
Proof. intros Hf Ha. unfold step. rewrite Hf. cbn -[wraps wrapu aligned addr_of]. unfold step_mem.
  cbn -[wraps wrapu aligned addr_of]. by rewrite Ha. Qed.

Lemma step_xadd pc m dst o src :
  fetch pc = Some (BPF_XADD_REG BPF_DW dst o src) -> aligned (addr_of m dst (s16 o)) = true ->
  st pc m = Next (S pc) (set_mem m (addr_of m dst (s16 o))
                           (u64 (m_mem m (addr_of m dst (s16 o)) + m_reg m src))).
Proof. intros Hf Ha. unfold step. rewrite Hf. cbn -[wraps wrapu aligned addr_of]. unfold step_mem.
  cbn -[wraps wrapu aligned addr_of]. by rewrite Ha. Qed.

Lemma step_call pc m m' v :
  fetch pc = Some (BPF_CALL_FUNC v) -> call (BPF_CALL_FUNC v) m = Some m' -> st pc m = Next (S pc) m'.
Proof.
  intros Hf Hc. unfold step. rewrite Hf.
  change (match call (BPF_CALL_FUNC v) m with Some m' => Next (S pc) m' | None => Stuck end = Next (S pc) m').
  by rewrite Hc.
Qed.

Lemma step_exit pc m : fetch pc = Some BPF_RETURN -> st pc m = Exited m.
Proof. intros Hf. unfold step. by rewrite Hf. Qed.
End Steps.
