(* ===== verification/As.v ===== *)
(** * The assembler (libdtrace/dt_as.c, libdtrace/dt_as.h)

    The code generator emits a list of instructions in which a jump names a
    label; [dt_as] lays the instructions out, turns labels into relative
    offsets, and builds the variable, relocation and string tables of the DIF
    object. *)

From stdpp Require Import base gmap list numbers relations sets.
From S2P Require Import Prelude Bpf Str Htab Strtab.

(** ** Identifiers, as far as the assembler reads them *)

Abbreviation DT_IDENT_ARRAY := 0.
Abbreviation DT_IDENT_AGG := 4.
Abbreviation DT_IDFLG_TLS := 1.
Abbreviation DT_IDFLG_LOCAL := 2.
Abbreviation DT_IDFLG_DIFR := 64.
Abbreviation DT_IDFLG_DIFW := 128.
Abbreviation DT_IDFLG_USER := 512.
Abbreviation DT_IDFLG_BPF := 4096.

Record dt_ident := Ident {
  di_name : bytes;
  di_kind : Z;
  di_flags : Z;
  di_id : Z;
  di_offset : Z;
  di_type : Z;          (* the CTF container and type of the variable *)
  di_symid : option Z;  (* the id of the dtrace_syminfo_t in di_data *)
}.
#[export] Instance dt_ident_eq_dec : EqDecision dt_ident.
Proof. solve_decision. Defined.


(** ** Instruction lists *)

Abbreviation DT_LBL_NONE := 0.

Record dt_irnode := IrNode {
  di_label : Z;
  di_instr : bpf_insn;
  di_extern : option dt_ident;
}.

(** [dl_last] is the last element of [dl_list]. *)
Record dt_irlist := IrList {
  dl_list : list dt_irnode;
  dl_len : Z;
  dl_label : Z;
}.

Definition dt_irlist_create : dt_irlist := IrList [] 0 1.

(** A node that only places a label emits no instruction. *)
Definition is_label_decl (dip : dt_irnode) : bool :=
  negb (di_label dip =? DT_LBL_NONE) && BPF_IS_NOP (di_instr dip).

Definition dt_irlist_append (dlp : dt_irlist) (dip : dt_irnode) : dt_irlist :=
  IrList (dl_list dlp ++ [dip])
    (if (di_label dip =? DT_LBL_NONE) || negb (BPF_IS_NOP (di_instr dip))
     then u32 (dl_len dlp + 1) else dl_len dlp)
    (dl_label dlp).

Definition dt_irlist_label (dlp : dt_irlist) : Z * dt_irlist :=
  (dl_label dlp, IrList (dl_list dlp) (dl_len dlp) (u32 (dl_label dlp + 1))).

Definition emitle (dlp : dt_irlist) (lbl : Z) (instr : bpf_insn) (idp : option dt_ident) : dt_irlist :=
  dt_irlist_append dlp (IrNode lbl instr idp).
Definition emite dlp instr idp := emitle dlp DT_LBL_NONE instr idp.
Definition emitl dlp lbl instr := emitle dlp lbl instr None.
Definition emit dlp instr := emitle dlp DT_LBL_NONE instr None.

(** ** DIF objects *)

Record dtrace_difv := Difv {
  dtdv_name : Z;
  dtdv_id : Z;
  dtdv_offset : Z;
  dtdv_kind : Z;
  dtdv_scope : Z;
  dtdv_insn_from : Z;
  dtdv_insn_to : Z;
  dtdv_flags : Z;
  dtdv_type : Z;
}.

Record dof_relodesc := Relodesc {
  dofr_name : Z;
  dofr_type : Z;
  dofr_offset : Z;
  dofr_data : Z;
}.

Record dtrace_difo := Difo {
  dtdo_buf : list bpf_insn;
  dtdo_strtab : list cell;
  dtdo_vartab : list dtrace_difv;
  dtdo_breltab : list dof_relodesc;
  dtdo_kreltab : list dof_relodesc;
  dtdo_ureltab : list dof_relodesc;
  dtdo_flags : Z;
  dtdo_reclen : Z;
}.

Inductive as_err :=
  | EDT_NOMEM | EDT_STR2BIG
  | D_UNKNOWN (* internal error or unexpected relocation *)
  | D_ASRELO  (* a relocation remains against an undefined symbol *)
  | AS_ASSERT (* a failed assertion *)
  | AS_UNDEF. (* an access out of the bounds of an array *)
Abbreviation as_res := (result as_err).

(** ** First pass: lay out the instructions, record the labels, count relocations *)

Abbreviation DT_LINK_KERNEL := 0.
Abbreviation DT_LINK_DYNAMIC := 1.
Abbreviation DT_LINK_STATIC := 2.
Abbreviation UINT_ALL := 4294967295. (* -1u *)

(** [kmask, kbits, umask, ubits] *)
Definition link_masks (dt_linkmode : Z) : option (Z * Z * Z * Z) :=
  if dt_linkmode =? DT_LINK_KERNEL then Some (0, UINT_ALL, DT_IDFLG_USER, DT_IDFLG_USER)
  else if dt_linkmode =? DT_LINK_DYNAMIC then Some (DT_IDFLG_USER, 0, DT_IDFLG_USER, DT_IDFLG_USER)
  else if dt_linkmode =? DT_LINK_STATIC then Some (0, UINT_ALL, 0, UINT_ALL)
  else None.

Inductive rel_kind := RelB | RelK | RelU.

Section Passes.
Variables kmask kbits umask ubits : Z.

Abbreviation code_stw := (BPF_ST + BPF_MEM + BPF_W).
Abbreviation code_stdw := (BPF_ST + BPF_MEM + BPF_DW).
Abbreviation code_movk := (BPF_ALU64 + BPF_MOV + BPF_K).
Abbreviation code_addk := (BPF_ALU64 + BPF_ADD + BPF_K).
Abbreviation code_lddw := (BPF_LD + BPF_IMM + BPF_DW).
Abbreviation code_call := (BPF_JMP + BPF_CALL).

Definition is_abs32 (code : Z) : bool :=
  (code =? code_stw) || (code =? code_stdw) || (code =? code_movk) || (code =? code_addk).

(** The relocation a reference to [idp] by [instr] counts for, if any. *)
Definition count_rel (instr : bpf_insn) (idp : dt_ident) : as_res (option rel_kind) :=
  if is_abs32 (i_code instr) then
    if flag (di_flags idp) DT_IDFLG_BPF then Ok (Some RelB) else Err D_UNKNOWN
  else if i_code instr =? code_lddw then
    if flag (di_flags idp) DT_IDFLG_BPF then Ok (Some RelB)
    else if Z.land (di_flags idp) kmask =? kbits then Ok (Some RelK)
    else if Z.land (di_flags idp) umask =? ubits then Ok (Some RelU)
    else Ok None
  else if i_code instr =? code_call then
    if (i_src instr =? BPF_PSEUDO_CALL) && flag (di_flags idp) DT_IDFLG_BPF
    then Ok (Some RelB) else Err D_UNKNOWN
  else Err D_UNKNOWN.

Record pass1 := Pass1 {
  p_buf : list bpf_insn;   (* dtdo_buf[0 .. i-1] *)
  p_labels : list nat;     (* labels[] *)
  p_brel : nat;
  p_krel : nat;
  p_urel : nat;
}.

Definition pass1_node (len : Z) (s : pass1) (dip : dt_irnode) : as_res pass1 :=
  let i := length (p_buf s) in
  labels ← (if negb (di_label dip =? DT_LBL_NONE) then
              if bool_decide (0 <= di_label dip < Z.of_nat (length (p_labels s)))
              then Ok (<[Z.to_nat (di_label dip) := i]> (p_labels s)) else Err AS_UNDEF
            else Ok (p_labels s));
  buf ← (if (di_label dip =? DT_LBL_NONE) || negb (BPF_IS_NOP (di_instr dip)) then
           if bool_decide (Z.of_nat i < len) then Ok (p_buf s ++ [di_instr dip]) else Err AS_UNDEF
         else Ok (p_buf s));
  match di_extern dip with
  | None => Ok (Pass1 buf labels (p_brel s) (p_krel s) (p_urel s))
  | Some idp =>
      k ← count_rel (di_instr dip) idp;
      Ok (match k with
          | Some RelB => Pass1 buf labels (S (p_brel s)) (p_krel s) (p_urel s)
          | Some RelK => Pass1 buf labels (p_brel s) (S (p_krel s)) (p_urel s)
          | Some RelU => Pass1 buf labels (p_brel s) (p_krel s) (S (p_urel s))
          | None => Pass1 buf labels (p_brel s) (p_krel s) (p_urel s)
          end)
  end.

Fixpoint pass1_loop (len : Z) (s : pass1) (l : list dt_irnode) : as_res pass1 :=
  match l with
  | [] => Ok s
  | dip :: l => s ← pass1_node len s dip; pass1_loop len s l
  end.

(** ** Second pass: a branch target becomes a relative offset *)

Definition is_branch (instr : bpf_insn) : bool :=
  (BPF_CLASS (i_code instr) =? BPF_JMP) && negb (BPF_IS_NOP instr) &&
  negb ((BPF_OP (i_code instr) =? BPF_CALL) || (BPF_OP (i_code instr) =? BPF_EXIT)).

(** [instr.off] is promoted to [int] and compared with an unsigned label
    number, so a negative one is a huge index. *)
Definition resolve (labels : list nat) (dl_label : Z) (i : nat) (instr : bpf_insn) : as_res bpf_insn :=
  if negb (is_branch instr) then Ok instr
  else if negb (u32 (i_off instr) <? dl_label) then Err AS_ASSERT
  else
    target ← of_option AS_UNDEF (labels !! Z.to_nat (i_off instr));
    Ok (Insn (i_code instr) (i_dst instr) (i_src instr)
          (s16 (Z.of_nat target - Z.of_nat i - 1)) (i_imm instr)).

Fixpoint resolve_loop (labels : list nat) (dl_label : Z) (i : nat) (buf : list bpf_insn)
    : as_res (list bpf_insn) :=
  match buf with
  | [] => Ok []
  | instr :: buf =>
      instr ← resolve labels dl_label i instr;
      buf ← resolve_loop labels dl_label (S i) buf;
      Ok (instr :: buf)
  end.

(** ** The relocation tables *)

Abbreviation R_BPF_64_64 := 1.
Abbreviation R_BPF_64_ABS32 := 3.
Abbreviation R_BPF_64_32 := 10.
Abbreviation DIF_STROFF_MAX := 9223372036854775807. (* SSIZE_MAX *)

Definition rel_type (instr : bpf_insn) : as_res Z :=
  if is_abs32 (i_code instr) then Ok R_BPF_64_ABS32
  else if i_code instr =? code_lddw then Ok R_BPF_64_64
  else if (i_code instr =? code_call) && (i_src instr =? BPF_PSEUDO_CALL) then Ok R_BPF_64_32
  else Err D_UNKNOWN.

(** How a byte of a name reads as a [char] (see [str2hval]). *)
Variable chr : Z -> Z.

Record tables := Tables {
  t_strtab : dt_strtab;
  t_mem : allocs;
}.

(** The offset of a name in the string table of the compilation. *)
Definition strtab_name (t : tables) (name : bytes) : as_res (Z * tables) :=
  '(off, sp, m) ← of_option AS_UNDEF (dt_strtab_insert chr (t_strtab t) (t_mem t) (Some name));
  if off =? -1 then Err EDT_NOMEM
  else if DIF_STROFF_MAX <? off then Err EDT_STR2BIG
  else Ok (off, Tables sp m).

Record rels := Rels {
  r_brel : list dof_relodesc;
  r_krel : list dof_relodesc;
  r_urel : list dof_relodesc;
}.

(** Which table a reference to [idp] goes to. *)
Definition rel_class (idp : dt_ident) : option rel_kind :=
  if flag (di_flags idp) DT_IDFLG_BPF then Some RelB
  else if Z.land (di_flags idp) kmask =? kbits then Some RelK
  else if Z.land (di_flags idp) umask =? ubits then Some RelU
  else None.

Definition rel_data (idp : dt_ident) : as_res Z :=
  if flag (di_flags idp) DT_IDFLG_BPF then Ok (di_id idp)
  else of_option AS_ASSERT (di_symid idp).

Definition rel_add (r : rels) (k : rel_kind) (d : dof_relodesc) : rels :=
  match k with
  | RelB => Rels (r_brel r ++ [d]) (r_krel r) (r_urel r)
  | RelK => Rels (r_brel r) (r_krel r ++ [d]) (r_urel r)
  | RelU => Rels (r_brel r) (r_krel r) (r_urel r ++ [d])
  end.

(** One node of the relocation pass; [i] counts the instructions so far. *)
Definition rel_node (knodef unodef : bool) (i : nat) (r : rels) (t : tables) (dip : dt_irnode)
    : as_res (nat * rels * tables) :=
  if negb (di_label dip =? DT_LBL_NONE) && BPF_IS_NOP (di_instr dip) then Ok (i, r, t)
  else
    let i := S i in
    match di_extern dip with
    | None => Ok (i, r, t)
    | Some idp =>
        match rel_class idp with
        | None => Ok (i, r, t)
        | Some k =>
            let nodef := match k with RelB => true | RelK => knodef | RelU => unodef end in
            if negb nodef then Err D_ASRELO
            else
              ty ← rel_type (di_instr dip);
              '(soff, t) ← strtab_name t (di_name idp);
              data ← rel_data idp;
              Ok (i, rel_add r k (Relodesc (u32 soff) ty ((Z.of_nat i - 1) * 8) data), t)
        end
    end.

Fixpoint rel_loop (knodef unodef : bool) (i : nat) (r : rels) (t : tables) (l : list dt_irnode)
    : as_res (nat * rels * tables) :=
  match l with
  | [] => Ok (i, r, t)
  | dip :: l => '(i, r, t) ← rel_node knodef unodef i r t dip; rel_loop knodef unodef i r t l
  end.

(** ** The variable table *)

(** The DIF type of a variable, computed from its CTF type by libctf. *)
Variable diftype : Z -> Z.

Definition dt_countvar (idp : dt_ident) (n : nat) : nat :=
  if flag (di_flags idp) (Z.lor DT_IDFLG_DIFR DT_IDFLG_DIFW) then S n
  else if di_kind idp =? DT_IDENT_AGG then S n
  else n.

Abbreviation DIFV_KIND_ARRAY := 0.
Abbreviation DIFV_KIND_SCALAR := 1.
Abbreviation DIFV_KIND_AGGREGATE := 2.
Abbreviation DIFV_SCOPE_GLOBAL := 0.
Abbreviation DIFV_SCOPE_THREAD := 1.
Abbreviation DIFV_SCOPE_LOCAL := 2.
Abbreviation DIFV_F_REF := 1.
Abbreviation DIFV_F_MOD := 2.

(** The variable record appended for [idp] and what becomes of [idp]. *)
Definition dt_copyvar (dl_len : Z) (t : tables) (idp : dt_ident)
    : as_res (option dtrace_difv * dt_ident * tables) :=
  if negb (flag (di_flags idp) (Z.lor DT_IDFLG_DIFR DT_IDFLG_DIFW)) &&
     negb (di_kind idp =? DT_IDENT_AGG)
  then Ok (None, idp, t)
  else
    '(stroff, t) ← strtab_name t (di_name idp);
    let kind := if di_kind idp =? DT_IDENT_AGG then DIFV_KIND_AGGREGATE
                else if di_kind idp =? DT_IDENT_ARRAY then DIFV_KIND_ARRAY
                else DIFV_KIND_SCALAR in
    let scope := if flag (di_flags idp) DT_IDFLG_LOCAL then DIFV_SCOPE_LOCAL
                 else if flag (di_flags idp) DT_IDFLG_TLS then DIFV_SCOPE_THREAD
                 else DIFV_SCOPE_GLOBAL in
    let flags := Z.lor (if flag (di_flags idp) DT_IDFLG_DIFR then DIFV_F_REF else 0)
                       (if flag (di_flags idp) DT_IDFLG_DIFW then DIFV_F_MOD else 0) in
    Ok (Some (Difv (u32 stroff) (di_id idp) (u32 (di_offset idp)) kind scope 0 (u32 (dl_len - 1))
                flags (diftype (di_type idp))),
        Ident (di_name idp) (di_kind idp)
          (Z.land (di_flags idp) (u16 (Z.lnot (Z.lor DT_IDFLG_DIFR DT_IDFLG_DIFW))))
          (di_id idp) (di_offset idp) (di_type idp) (di_symid idp), t).

(** [dt_idhash_iter(dhp, dt_copyvar, dtp)] over the identifiers of a hash. *)
Fixpoint copyvars (dl_len : Z) (t : tables) (ids : list dt_ident)
    : as_res (list dtrace_difv * list dt_ident * tables) :=
  match ids with
  | [] => Ok ([], [], t)
  | idp :: ids =>
      '(dv, idp, t) ← dt_copyvar dl_len t idp;
      '(dvs, ids, t) ← copyvars dl_len t ids;
      Ok (option_list dv ++ dvs, idp :: ids, t)
  end.

(** An allocation whose failure is [EDT_NOMEM]; [want] is whether it is made. *)
Definition need (want : bool) (t : tables) : as_res tables :=
  if negb want then Ok t
  else let '(ok, m) := malloc (t_mem t) in
       if ok then Ok (Tables (t_strtab t) m) else Err EDT_NOMEM.
End Passes.

(** ** dt_as *)

(** What [dt_as] reads and updates: the identifiers are those of [dt_tls],
    [dt_aggs], [dt_globals] and [pcb_locals] in iteration order. *)
Record as_state := AsState {
  as_linkmode : Z;
  as_ids : list dt_ident;
  as_tables : tables;
  as_destruct : bool;     (* the clause is destructive *)
  as_knodef : bool;       (* DTRACE_C_KNODEF *)
  as_unodef : bool;       (* DTRACE_C_UNODEF *)
  as_bufoff : Z;
  as_maxreclen : Z;
}.

Definition dt_as (chr : Z -> Z) (diftype : Z -> Z) (s : as_state) (dlp : dt_irlist)
    : as_res (dtrace_difo * as_state) :=
  '(kmask, kbits, umask, ubits) ← of_option D_UNKNOWN (link_masks (as_linkmode s));
  t ← need true (as_tables s);
  t ← need true t;
  t ← need true t;
  p ← pass1_loop kmask kbits umask ubits (dl_len dlp)
        (Pass1 [] (replicate (Z.to_nat (dl_label dlp)) O) O O O) (dl_list dlp);
  _ ← guard_err (Z.of_nat (length (p_buf p)) =? dl_len dlp) AS_ASSERT;
  buf ← resolve_loop (p_labels p) (dl_label dlp) O (p_buf p);
  let n := foldr dt_countvar O (as_ids s) in
  t ← need (negb (n =? O)%nat) t;
  '(vartab, ids, t) ← (if (n =? O)%nat then Ok ([], as_ids s, t)
                       else copyvars chr diftype (dl_len dlp) t (as_ids s));
  t ← need (negb (p_brel p =? O)%nat) t;
  t ← need (negb (p_krel p =? O)%nat) t;
  t ← need (negb (p_urel p =? O)%nat) t;
  '(r, t) ←
    (if (p_brel p + p_krel p + p_urel p =? O)%nat then Ok (Rels [] [] [], t)
     else
       '(i, r, t) ← rel_loop kmask kbits umask ubits chr (as_knodef s) (as_unodef s)
                      O (Rels [] [] []) t (dl_list dlp);
       _ ← guard_err (bool_decide (length (r_brel r) = p_brel p)) AS_ASSERT;
       _ ← guard_err (bool_decide (length (r_krel r) = p_krel p)) AS_ASSERT;
       _ ← guard_err (bool_decide (length (r_urel r) = p_urel p)) AS_ASSERT;
       _ ← guard_err (bool_decide (i = length buf)) AS_ASSERT;
       Ok (r, t));
  let strlen := dt_strtab_size (t_strtab t) in
  '(strtab, t) ←
    (if 0 <? strlen then
       t ← need true t;
       '(_, st) ← of_option AS_UNDEF
         (dt_strtab_write dt_strtab_copystr (t_strtab t) (replicate (Z.to_nat strlen) (Some 0)));
       Ok (st, t)
     else Ok ([], t));
  let reclen := as_bufoff s in
  Ok (Difo buf strtab vartab (r_brel r) (r_krel r) (r_urel r)
        (if as_destruct s then 1 else 0) reclen,
      AsState (as_linkmode s) ids t (as_destruct s) (as_knodef s) (as_unodef s) (as_bufoff s)
        (Z.max reclen (as_maxreclen s))).

(** ** Where the instructions go *)

Definition emitted (l : list dt_irnode) : list bpf_insn :=
  di_instr <$> filter (λ d, is_label_decl d = false) l.

(** The place in the instruction buffer of the [i]th node of a list. *)
Definition place (l : list dt_irnode) (i : nat) : nat := length (emitted (take i l)).

Lemma emitted_app l1 l2 : emitted (l1 ++ l2) = emitted l1 ++ emitted l2.
Proof. unfold emitted. by rewrite filter_app, fmap_app. Qed.

Lemma emitted_cons d l :
  emitted (d :: l) = (if is_label_decl d then [] else [di_instr d]) ++ emitted l.
Proof.
  unfold emitted. rewrite filter_cons. destruct (is_label_decl d).
  - by rewrite decide_False.
  - by rewrite decide_True.
Qed.

Lemma is_label_decl_alt d :
  (di_label d =? DT_LBL_NONE) || negb (BPF_IS_NOP (di_instr d)) = negb (is_label_decl d).
Proof. unfold is_label_decl. by destruct (di_label d =? 0), (BPF_IS_NOP _). Qed.

(** [dl_len] is the number of instructions that will be emitted. *)
Lemma dt_irlist_append_len dlp dip :
  Z.of_nat (S (length (emitted (dl_list dlp)))) < 2 ^ 32 ->
  dl_len dlp = Z.of_nat (length (emitted (dl_list dlp))) ->
  dl_len (dt_irlist_append dlp dip) = Z.of_nat (length (emitted (dl_list (dt_irlist_append dlp dip)))).
Proof.
  intros Hb Hl. simpl. rewrite is_label_decl_alt, emitted_app, length_app, Hl, emitted_cons.
  destruct (is_label_decl dip); simpl; [lia|]. rewrite wrapu_small by lia. lia.
Qed.

Lemma place_S l i d : l !! i = Some d ->
  place l (S i) = if is_label_decl d then place l i else S (place l i).
Proof.
  intros Hi. unfold place. rewrite (take_S_r _ _ _ Hi), emitted_app, length_app, emitted_cons.
  destruct (is_label_decl d); simpl; lia.
Qed.

Lemma emitted_lookup l i d : l !! i = Some d -> is_label_decl d = false ->
  emitted l !! place l i = Some (di_instr d).
Proof.
  intros Hi Hd.
  replace (emitted l) with (emitted (take i l ++ d :: drop (S i) l)) by (by rewrite take_drop_middle).
  rewrite emitted_app, emitted_cons, Hd. unfold place. cbn [app]. by rewrite list_lookup_middle.
Qed.

(** The node a label names: the first one that carries it. *)
Fixpoint find_label (l : list dt_irnode) (lbl : Z) : option nat :=
  match l with
  | [] => None
  | d :: l => if di_label d =? lbl then Some O else S <$> find_label l lbl
  end.

Lemma find_label_app l1 l2 lbl :
  find_label (l1 ++ l2) lbl =
  match find_label l1 lbl with
  | Some i => Some i
  | None => Nat.add (length l1) <$> find_label l2 lbl
  end.
Proof.
  induction l1 as [|d l1 IH]; simpl; [by destruct (find_label l2 lbl)|].
  destruct (di_label d =? lbl); [done|]. rewrite IH.
  destruct (find_label l1 lbl); simpl; [done|]. by destruct (find_label l2 lbl).
Qed.

Lemma find_label_Some l lbl i :
  find_label l lbl = Some i -> exists d, l !! i = Some d /\ di_label d = lbl.
Proof.
  revert i. induction l as [|d l IH]; intros i; simpl; [done|].
  destruct (Z.eqb_spec (di_label d) lbl); [by intros [= <-]; exists d|].
  intros (j & Hj & ->)%fmap_Some. by apply IH.
Qed.

Lemma find_label_None l lbl : find_label l lbl = None <-> forall d, d ∈ l -> di_label d <> lbl.
Proof.
  induction l as [|d l IH]; simpl; [set_solver|].
  destruct (Z.eqb_spec (di_label d) lbl); [split; [done|]; intros H; by destruct (H d); [left|]|].
  rewrite fmap_None, IH. set_solver.
Qed.

(** Every label of the list is placed once. *)
Definition labels_unique (l : list dt_irnode) : Prop :=
  NoDup (filter (λ x, x <> DT_LBL_NONE) (di_label <$> l)).

Section Passes_facts.
Variables kmask kbits umask ubits : Z.
Abbreviation loop := (pass1_loop kmask kbits umask ubits).

Lemma pass1_node_Ok len s dip s' :
  pass1_node kmask kbits umask ubits len s dip = Ok s' ->
  p_buf s' = p_buf s ++ emitted [dip] /\
  length (p_labels s') = length (p_labels s) /\
  p_labels s' = (if di_label dip =? DT_LBL_NONE then p_labels s
                 else <[Z.to_nat (di_label dip) := length (p_buf s)]> (p_labels s)) /\
  (di_label dip <> DT_LBL_NONE -> 0 <= di_label dip < Z.of_nat (length (p_labels s))).
Proof.
  unfold pass1_node. intros H. inv_bind H. inv_bind H.
  assert (p_buf s' = r0 /\ p_labels s' = r) as [-> ->].
  { destruct (di_extern dip); [|by injection H as <-]. inv_bind H. injection H as <-.
    by destruct r1 as [[]|]. }
  clear H. rewrite emitted_cons, app_nil_r.
  rewrite is_label_decl_alt in Hr0.
  split; [|destruct (Z.eqb_spec (di_label dip) 0); simpl in Hr; [by injection Hr as <-|]].
  - destruct (is_label_decl dip); simpl in Hr0; [injection Hr0 as <-; by rewrite app_nil_r|].
    case_bool_decide; [by injection Hr0 as <-|done].
  - destruct (bool_decide (0 <= di_label dip < Z.of_nat (length (p_labels s)))) eqn:Hd; [|done].
    apply bool_decide_eq_true_1 in Hd. injection Hr as <-. by rewrite length_insert.
Qed.

Lemma pass1_loop_Ok len l : forall s s',
  loop len s l = Ok s' ->
  p_buf s' = p_buf s ++ emitted l /\ length (p_labels s') = length (p_labels s).
Proof.
  induction l as [|d l IH]; intros s s' H; cbn [pass1_loop] in H.
  - injection H as <-. by rewrite app_nil_r.
  - inv_bind H. apply pass1_node_Ok in Hr as (Hb & Hl & _). apply IH in H as [-> ->].
    rewrite Hb, <- app_assoc, <- emitted_app. done.
Qed.

Lemma pass1_loop_labels len l : forall s s' lbl i,
  loop len s l = Ok s' -> labels_unique l -> 0 < lbl -> find_label l lbl = Some i ->
  p_labels s' !! Z.to_nat lbl = Some (length (p_buf s) + place l i)%nat.
Proof.
  assert (forall l s s' lbl, loop len s l = Ok s' -> 0 < lbl -> find_label l lbl = None ->
    p_labels s' !! Z.to_nat lbl = p_labels s !! Z.to_nat lbl) as Hnone.
  { clear l. induction l as [|d l IH]; intros s s' lbl H Hl Hf; cbn [pass1_loop] in H; [by injection H as <-|].
    inv_bind H. apply pass1_node_Ok in Hr as (_ & _ & Hls & Hrange). simpl in Hf.
    destruct (Z.eqb_spec (di_label d) lbl) as [|Hne]; [done|]. apply fmap_None in Hf.
    rewrite (IH _ _ _ H Hl Hf), Hls. destruct (Z.eqb_spec (di_label d) 0); [done|].
    apply list_lookup_insert_ne. lia. }
  induction l as [|d l IH]; intros s s' lbl i H Hu Hlbl Hf; cbn [pass1_loop] in H; [done|].
  inv_bind H. pose proof Hr as Hr'. apply pass1_node_Ok in Hr' as (Hb & _ & Hls & Hrange). simpl in Hf.
  unfold labels_unique in Hu. rewrite fmap_cons, filter_cons in Hu.
  destruct (Z.eqb_spec (di_label d) lbl) as [Heq|Hne].
  - injection Hf as <-. rewrite decide_True in Hu by lia. apply NoDup_cons in Hu as [Hni _].
    rewrite (Hnone _ _ _ _ H Hlbl), Hls.
    + rewrite (proj2 (Z.eqb_neq _ 0)), Heq by lia. rewrite list_lookup_insert_eq by lia.
      by rewrite Nat.add_0_r.
    + apply find_label_None. intros d' Hd' Hd. apply Hni. apply list_elem_of_filter.
      split; [lia|]. rewrite Heq, <- Hd. by apply list_elem_of_fmap_2.
  - apply fmap_Some in Hf as (j & Hj & ->).
    erewrite (IH _ _ lbl j H); [|by case_decide; [apply NoDup_cons in Hu as [_ Hu]|]|done|done].
    f_equal. rewrite Hb, length_app. unfold place. simpl. rewrite (emitted_cons d (take j l)).
    rewrite emitted_cons, !length_app. simpl. lia.
Qed.
End Passes_facts.

Lemma resolve_loop_Ok labels n buf : forall i buf' k ins,
  resolve_loop labels n i buf = Ok buf' -> buf !! k = Some ins ->
  exists ins', resolve labels n (i + k) ins = Ok ins' /\ buf' !! k = Some ins'.
Proof.
  induction buf as [|x buf IH]; intros i buf' k ins H Hk; cbn [resolve_loop] in H; [done|].
  inv_bind H. inv_bind H. injection H as <-. destruct k as [|k]; simpl in *.
  - injection Hk as ->. exists r. by rewrite Nat.add_0_r.
  - rewrite <- Nat.add_succ_comm. by eapply IH.
Qed.

Lemma resolve_loop_length labels n buf : forall i buf',
  resolve_loop labels n i buf = Ok buf' -> length buf' = length buf.
Proof.
  induction buf as [|x buf IH]; intros i buf' H; cbn [resolve_loop] in H; [by injection H as <-|].
  inv_bind H. inv_bind H. injection H as <-. simpl. f_equal. by eapply IH.
Qed.

(** ** Labelled code and assembled code run alike *)

Definition ir_fetch (l : list dt_irnode) (pc : nat) : option bpf_insn := di_instr <$> l !! pc.
Definition ir_target (l : list dt_irnode) (pc : nat) (lbl : Z) : option nat := find_label l lbl.
Definition asm_fetch (buf : list bpf_insn) (pc : nat) : option bpf_insn := buf !! pc.
(** A jump offset is relative to the following instruction. *)
Definition asm_target (pc : nat) (o : Z) : option nat :=
  let t := Z.of_nat pc + 1 + o in if 0 <=? t then Some (Z.to_nat t) else None.

(** Branches name labels. *)
Definition branches_ok (l : list dt_irnode) : Prop :=
  Forall (λ d, is_branch (di_instr d) = true -> 0 < i_off (di_instr d)) l.

Lemma asm_target_rel (i j : nat) :
  asm_target i (Z.of_nat j - Z.of_nat i - 1) = Some j.
Proof.
  unfold asm_target. replace (Z.of_nat i + 1 + (Z.of_nat j - Z.of_nat i - 1)) with (Z.of_nat j) by lia.
  rewrite (proj2 (Z.leb_le _ _)) by lia. by rewrite Nat2Z.id.
Qed.

(** An instruction that is not a branch does the same whatever finds the
    targets, if the second half of a constant load is at hand. *)
Lemma step_same f t f' t' call i k ins m :
  f i = Some ins -> f' k = Some ins -> is_branch ins = false ->
  (forall j, f (S i) = Some j -> i_code j = 0 -> f' (S k) = Some j) ->
  match step f t call i m with
  | Next j m' => exists n, step f' t' call k m = Next (k + n)%nat m' /\ (j = i + n)%nat /\
                   (n = 1%nat \/ (n = 2%nat /\ exists x, f (S i) = Some x /\ i_code x = 0))
  | Exited m' => step f' t' call k m = Exited m'
  | Stuck => True
  end.
Proof.
  intros Hi Hk Hb Hnext. unfold step. rewrite Hi, Hk.
  assert (forall m', exists n, Next (S k) m' = Next (k + n)%nat m' /\ S i = (i + n)%nat /\
    (n = 1%nat \/ (n = 2%nat /\ exists x, f (S i) = Some x /\ i_code x = 0))) as H1.
  { intros m'. exists 1%nat. rewrite !Nat.add_1_r. auto. }
  destruct (BPF_CLASS (i_code ins) =? BPF_ALU64).
  { destruct (alu _ _ _); [apply H1|done]. }
  destruct (BPF_CLASS (i_code ins) =? BPF_JMP) eqn:Hcls.
  - unfold step_jmp. unfold is_branch in Hb. rewrite Hcls in Hb.
    destruct (BPF_OP (i_code ins) =? BPF_EXIT); [done|].
    destruct (BPF_OP (i_code ins) =? BPF_CALL); [destruct (call ins m); [apply H1|done]|].
    simpl in Hb. rewrite andb_true_r in Hb. apply negb_false_iff in Hb.
    unfold BPF_IS_NOP in Hb. apply andb_prop in Hb as [_ Ho]. rewrite Ho.
    destruct (jcond _ _ _) as [[]|]; [apply H1..|done].
  - destruct (i_code ins =? BPF_LD + BPF_IMM + BPF_DW).
    + destruct (f (S i)) as [j|] eqn:Hj; [|done]. destruct (Z.eqb_spec (i_code j) 0) as [H0|]; [|done].
      rewrite (Hnext j) by done. rewrite H0. simpl. exists 2%nat.
      split; [do 2 f_equal; lia|]. split; [lia|]. right. split; [done|]. eauto.
    + unfold step_mem. repeat case_match; simplify_eq; try done; apply H1.
Qed.

Section Sim.
Variable call : bpf_insn -> mstate -> option mstate.
Variables (l : list dt_irnode) (labels : list nat) (n : Z) (buf : list bpf_insn).
Hypothesis Hres : resolve_loop labels n O (emitted l) = Ok buf.
Hypothesis Hlab : forall lbl i, 0 < lbl -> find_label l lbl = Some i ->
  labels !! Z.to_nat lbl = Some (place l i).
Hypothesis Hbr : branches_ok l.
Hypothesis Hlen : Z.of_nat (length (emitted l)) < 2 ^ 15.

Abbreviation irs := (step (ir_fetch l) (ir_target l) call).
Abbreviation asms := (step (asm_fetch buf) asm_target call).

Lemma place_le i : (place l i <= length (emitted l))%nat.
Proof.
  unfold place. rewrite <- (take_drop i l) at 2. rewrite emitted_app, length_app. lia.
Qed.

Lemma emitted_buf i d :
  l !! i = Some d -> is_label_decl d = false ->
  exists ins', resolve labels n (place l i) (di_instr d) = Ok ins' /\ buf !! place l i = Some ins'.
Proof.
  intros Hi Hd. pose proof (emitted_lookup _ _ _ Hi Hd) as He.
  exact (resolve_loop_Ok _ _ _ _ _ _ _ Hres He).
Qed.

Lemma branch_sim i d m ins' :
  l !! i = Some d -> is_branch (di_instr d) = true -> 0 < i_off (di_instr d) ->
  buf !! place l i = Some ins' -> resolve labels n (place l i) (di_instr d) = Ok ins' ->
  place l (S i) = S (place l i) ->
  match irs i m with
  | Next j m' => asms (place l i) m = Next (place l j) m'
  | Exited m' => False
  | Stuck => True
  end.
Proof.
  intros Hi Hb Ho Hk Hr HS. unfold step. unfold ir_fetch at 1, asm_fetch at 1.
  rewrite Hi, Hk. cbn [fmap option_fmap option_map].
  unfold resolve in Hr. rewrite Hb in Hr. cbn [negb] in Hr.
  destruct (u32 (i_off (di_instr d)) <? n); [|done]. cbn [negb] in Hr. inv_bind Hr.
  injection Hr as <-. apply of_option_Ok in Hr0. cbn [i_code].
  unfold is_branch in Hb. apply andb_prop in Hb as [[Hcls Hnop]%andb_prop Hop].
  apply Z.eqb_eq in Hcls. rewrite Hcls. cbn [Z.eqb Pos.eqb].
  apply negb_true_iff, orb_false_iff in Hop as [Hcall Hexit].
  unfold step_jmp. cbn [i_code i_dst i_off]. rewrite Hexit, Hcall.
  assert (src_val m (Insn (i_code (di_instr d)) (i_dst (di_instr d)) (i_src (di_instr d))
            (s16 (Z.of_nat r - Z.of_nat (place l i) - 1)) (i_imm (di_instr d))) =
          src_val m (di_instr d)) as -> by done.
  destruct (jcond _ _ _) as [[]|]; [|by rewrite HS|done].
  rewrite (proj2 (Z.eqb_neq _ 0)) by lia. unfold ir_target.
  destruct (find_label l (i_off (di_instr d))) as [j|] eqn:Hf; [|done].
  rewrite (Hlab _ _ Ho Hf) in Hr0. injection Hr0 as <-.
  pose proof (place_le i). pose proof (place_le j).
  rewrite wraps_small by lia.
  destruct (Z.eqb_spec (Z.of_nat (place l j) - Z.of_nat (place l i) - 1) 0) as [Hz|_].
  - f_equal. lia.
  - by rewrite asm_target_rel.
Qed.

(** The second half of a constant load is emitted as it is. *)
Lemma second_half i x :
  ir_fetch l i = Some x -> i_code x = 0 ->
  buf !! place l i = Some x /\ place l (S i) = S (place l i).
Proof.
  intros (d & Hi & ->)%fmap_Some Hx.
  assert (BPF_IS_NOP (di_instr d) = false) as Hn by (unfold BPF_IS_NOP; by rewrite Hx).
  assert (is_label_decl d = false) as Hd by (unfold is_label_decl; by rewrite Hn, andb_false_r).
  assert (is_branch (di_instr d) = false) as Hb by (unfold is_branch; by rewrite Hx).
  rewrite (place_S l i d Hi), Hd. split; [|done].
  destruct (emitted_buf i d Hi Hd) as (ins' & Hr & Hk).
  unfold resolve in Hr. rewrite Hb in Hr. by injection Hr as <-.
Qed.

(** One step of the labelled code is at most one step of the assembled code. *)
Lemma step_sim i m :
  match irs i m with
  | Next j m' => rtc (bstep (asm_fetch buf) asm_target call) (place l i, m) (place l j, m')
  | Exited m' => asms (place l i) m = Exited m'
  | Stuck => True
  end.
Proof.
  destruct (l !! i) as [d|] eqn:Hi; [|unfold step, ir_fetch at 1; by rewrite Hi].
  pose proof (place_S l i d Hi) as HS.
  destruct (is_label_decl d) eqn:Hd.
  { apply andb_prop in Hd as [_ Hn].
    rewrite (step_is_nop _ _ _ i m (di_instr d)); [by rewrite HS| |done].
    unfold ir_fetch. by rewrite Hi. }
  destruct (emitted_buf i d Hi Hd) as (ins' & Hr & Hk).
  destruct (is_branch (di_instr d)) eqn:Hb.
  - pose proof (Forall_lookup_1 _ _ _ _ Hbr Hi Hb) as Ho.
    pose proof (branch_sim i d m ins' Hi Hb Ho Hk Hr HS) as Hsim.
    destruct (irs i m); [|done..]. by apply rtc_once.
  - assert (ins' = di_instr d) as -> by (unfold resolve in Hr; rewrite Hb in Hr; by injection Hr).
    assert (ir_fetch l i = Some (di_instr d)) as Hfi by (unfold ir_fetch; by rewrite Hi).
    assert (forall x, ir_fetch l (S i) = Some x -> i_code x = 0 ->
              asm_fetch buf (S (place l i)) = Some x) as Hnext.
    { intros x Hx Hx0. unfold asm_fetch. rewrite <- HS. by apply second_half. }
    pose proof (step_same (ir_fetch l) (ir_target l) (asm_fetch buf) asm_target call i (place l i)
                  (di_instr d) m Hfi Hk Hb Hnext) as Hsim.
    destruct (irs i m) as [j m'|m'|]; [|apply Hsim|done].
    destruct Hsim as (k & Hst & -> & Hk12).
    apply rtc_once. unfold bstep. simpl. rewrite Hst. f_equal.
    destruct Hk12 as [->|(-> & x & Hx & Hx0)]; [rewrite !Nat.add_1_r; by rewrite HS|].
    destruct (second_half (S i) x Hx Hx0) as [_ H2].
    replace (i + 2)%nat with (S (S i)) by lia. rewrite H2, HS. lia.
Qed.

Lemma run_sim x y :
  rtc (bstep (ir_fetch l) (ir_target l) call) x y ->
  rtc (bstep (asm_fetch buf) asm_target call) (place l x.1, x.2) (place l y.1, y.2).
Proof.
  induction 1 as [x|x y z Hxy _ IH]; [done|]. transitivity (place l y.1, y.2); [|done].
  pose proof (step_sim x.1 x.2) as Hs. unfold bstep in Hxy. by rewrite Hxy in Hs.
Qed.

Lemma exit_sim x m :
  runs_to_exit (ir_fetch l) (ir_target l) call x m ->
  runs_to_exit (asm_fetch buf) asm_target call (place l x.1, x.2) m.
Proof.
  intros (y & Hr & Hy). exists (place l y.1, y.2). split; [by apply run_sim|].
  pose proof (step_sim y.1 y.2) as Hs. by rewrite Hy in Hs.
Qed.
End Sim.

Lemma dt_as_runs chr diftype s dlp dp s' call m m' :
  dt_as chr diftype s dlp = Ok (dp, s') ->
  labels_unique (dl_list dlp) -> branches_ok (dl_list dlp) ->
  Z.of_nat (length (emitted (dl_list dlp))) < 2 ^ 15 ->
  runs_to_exit (ir_fetch (dl_list dlp)) (ir_target (dl_list dlp)) call (O, m) m' ->
  runs_to_exit (asm_fetch (dtdo_buf dp)) asm_target call (O, m) m'.
Proof.
  intros H Hu Hb Hlen Hrun. unfold dt_as in H.
  inv_bind H. destruct r as [[[kmask kbits] umask] ubits].
  do 3 inv_bind H. inv_bind H. rename r2 into p.
  inv_bind H. inv_bind H. rename r3 into buf.
  assert (dtdo_buf dp = buf) as ->.
  { cbn zeta in H. inv_bind H. inv_bind H. destruct r4 as [[vartab ids] t].
    do 3 inv_bind H. inv_bind H. destruct r7 as [rr t'].
    inv_bind H. destruct r7 as [st t'']. by injection H as <- _. }
  pose proof (pass1_loop_Ok _ _ _ _ _ _ _ _ Hr3) as [Hbuf _]. simpl in Hbuf.
  rewrite Hbuf in Hr5. change O with (place (dl_list dlp) (O, m).1).
  apply (exit_sim call (dl_list dlp) (p_labels p) (dl_label dlp) buf); try done.
  intros lbl i Hl Hf. exact (pass1_loop_labels _ _ _ _ _ _ _ _ _ _ Hr3 Hu Hl Hf).
Qed.

(** C12: the object code computes what the labelled code does.  When [dt_as]
    succeeds on a list of fewer than 2^15 instructions in which every label is
    placed once and every branch names a label, each run of the list (jumps
    going to the node that carries the label) that reaches an exit is matched
    by a run of the assembled instruction buffer (jumps going to their relative
    offset) that exits in the same machine state, whatever calls do. *)
Theorem dt_as_simulates chr diftype s dlp dp s' call m m' :
  dt_as chr diftype s dlp = Ok (dp, s') ->
  labels_unique (dl_list dlp) -> branches_ok (dl_list dlp) ->
  Z.of_nat (length (emitted (dl_list dlp))) < 2 ^ 15 ->
  runs_to_exit (ir_fetch (dl_list dlp)) (ir_target (dl_list dlp)) call (O, m) m' ->
  runs_to_exit (asm_fetch (dtdo_buf dp)) asm_target call (O, m) m'.
Proof. apply dt_as_runs. Qed.

(** ** The assembler's own checks never fail *)

(** The list was built by [dt_irlist_append] with labels from [dt_irlist_label]. *)
Record ir_wf (dlp : dt_irlist) : Prop := {
  iw_len : dl_len dlp = Z.of_nat (length (emitted (dl_list dlp)));
  iw_labels : Forall (λ d, 0 <= di_label d < dl_label dlp) (dl_list dlp);
  iw_branches : Forall (λ d, is_branch (di_instr d) = true ->
                          0 <= i_off (di_instr d) < dl_label dlp) (dl_list dlp);
}.

(** The identifiers have C strings for names; external symbols have their data. *)
Definition ident_ok (idp : dt_ident) : Prop :=
  0 ∉ di_name idp /\ (flag (di_flags idp) DT_IDFLG_BPF = false -> is_Some (di_symid idp)).
Definition externs_ok (dlp : dt_irlist) : Prop :=
  Forall (λ d, forall idp, di_extern d = Some idp -> ident_ok idp) (dl_list dlp).

(** No assertion fails, no array is accessed out of bounds, and [Q] holds of
    the result. *)
Definition safe {A} (r : as_res A) (Q : A -> Prop) : Prop :=
  match r with Ok a => Q a | Err e => e <> AS_ASSERT /\ e <> AS_UNDEF end.

Lemma safe_bind {A B} (r : as_res A) (f : A -> as_res B) P Q :
  safe r P -> (forall a, P a -> safe (f a) Q) -> safe (r ≫= f) Q.
Proof. destruct r; simpl; auto. Qed.

Lemma safe_mono {A} (r : as_res A) (P Q : A -> Prop) :
  safe r P -> (forall a, P a -> Q a) -> safe r Q.
Proof. destruct r; simpl; auto. Qed.

Definition tables_rep (chr : Z -> Z) (t : tables) (l : list bytes) : Prop :=
  strtab_rep chr (t_strtab t) l.
(** The string table of [t] has grown from [l]. *)
Definition tables_ext (chr : Z -> Z) (l : list bytes) (t : tables) : Prop :=
  exists l', tables_rep chr t l' /\ l `prefix_of` l'.

Lemma need_safe chr l want t : tables_ext chr l t -> safe (need want t) (tables_ext chr l).
Proof. intros H. unfold need. destruct want; simpl; [|done]. by destruct (malloc _) as [[] m]. Qed.

Lemma strtab_name_safe chr l t name :
  tables_ext chr l t -> 0 ∉ name -> safe (strtab_name chr t name) (λ r, tables_ext chr l r.2).
Proof.
  intros (l1 & Hr & Hp) Hn. unfold strtab_name.
  destruct (insert_rep chr _ _ (t_mem t) name Hr Hn) as (rc & sp & m & l2 & -> & Hr2 & Hp2).
  cbn [of_option mbind result_bind]. destruct (rc =? -1); [done|].
  destruct (_ <? rc); [done|]. exists l2. split; [done|]. by transitivity l1.
Qed.

Section Safe.
Variables kmask kbits umask ubits : Z.
Variables (chr diftype : Z -> Z).

Lemma count_rel_safe instr idp : safe (count_rel kmask kbits umask ubits instr idp) (λ _, True).
Proof. unfold count_rel. repeat case_match; done. Qed.

Lemma pass1_loop_safe len l : forall s,
  Forall (λ d, 0 <= di_label d < Z.of_nat (length (p_labels s))) l ->
  Z.of_nat (length (p_buf s) + length (emitted l)) <= len ->
  safe (pass1_loop kmask kbits umask ubits len s l) (λ _, True).
Proof.
  induction l as [|d l IH]; intros s Hl Hlen; cbn [pass1_loop]; [done|].
  apply Forall_cons in Hl as [Hd Hl].
  assert (safe (pass1_node kmask kbits umask ubits len s d) (λ _, True)) as Hsafe.
  { unfold pass1_node. rewrite is_label_decl_alt. eapply (safe_bind _ _ (λ _, True)).
    { destruct (_ =? 0); simpl; [done|]. by rewrite bool_decide_true. }
    intros labels _. rewrite emitted_cons, length_app in Hlen.
    eapply (safe_bind _ _ (λ _, True)).
    { destruct (is_label_decl d); simpl in *; [done|]. by rewrite bool_decide_true by lia. }
    intros buf _. destruct (di_extern d) as [idp|]; [|done].
    eapply safe_bind; [apply count_rel_safe|]. by intros k _. }
  destruct (pass1_node _ _ _ _ len s d) as [s'|e] eqn:Hs; cbn [mbind result_bind]; [|done].
  apply pass1_node_Ok in Hs as (Hb & Hls & _).
  apply IH; rewrite ?Hls; [done|]. rewrite Hb, length_app. rewrite emitted_cons, length_app in Hlen.
  rewrite emitted_cons, app_nil_r. lia.
Qed.

Lemma resolve_loop_safe labels n buf : forall i,
  Z.of_nat (length labels) = n -> n < 2 ^ 32 ->
  Forall (λ ins, is_branch ins = true -> 0 <= i_off ins < n) buf ->
  safe (resolve_loop labels n i buf) (λ _, True).
Proof.
  induction buf as [|ins buf IH]; intros i Hl Hn Hb; cbn [resolve_loop]; [done|].
  apply Forall_cons in Hb as [Hi Hb]. eapply (safe_bind _ _ (λ _, True)).
  - unfold resolve. destruct (is_branch ins); simpl; [|done]. specialize (Hi eq_refl).
    rewrite wrapu_small by lia. rewrite (proj2 (Z.ltb_lt _ _)) by lia. simpl.
    destruct (lookup_lt_is_Some_2 labels (Z.to_nat (i_off ins))) as [t ->]; [lia|done].
  - intros ins' _. eapply safe_bind; [by apply IH|]. done.
Qed.

(** What was counted is what is recorded. *)
Lemma count_rel_class instr idp k :
  count_rel kmask kbits umask ubits instr idp = Ok k ->
  rel_class kmask kbits umask ubits idp = k /\ (exists ty, rel_type instr = Ok ty) /\
  BPF_IS_NOP instr = false.
Proof.
  unfold count_rel, rel_class, rel_type, BPF_IS_NOP. intros H.
  destruct (is_abs32 (i_code instr)) eqn:Ha.
  { assert ((i_code instr =? 5 + 0) = false) as ->.
    { unfold is_abs32 in Ha. destruct (Z.eqb_spec (i_code instr) (5 + 0)) as [He|]; [|done].
      by rewrite He in Ha. }
    destruct (flag _ _); [|done]. injection H as <-. eauto. }
  destruct (Z.eqb_spec (i_code instr) (0 + 0 + 24)) as [He|].
  { rewrite He. split; [|by eauto]. destruct (flag _ _); [by injection H|].
    destruct (_ =? kbits); [by injection H|]. destruct (_ =? ubits); by injection H. }
  destruct (Z.eqb_spec (i_code instr) (5 + 128)) as [He|]; [|done]. rewrite He. simpl.
  destruct (i_src instr =? 1), (flag _ _); simpl in *; try done. injection H as <-. eauto.
Qed.

Definition rel_counts (r : rels) : nat * nat * nat :=
  (length (r_brel r), length (r_krel r), length (r_urel r)).
Definition pass1_counts (p : pass1) : nat * nat * nat := (p_brel p, p_krel p, p_urel p).
Definition count_add (c : nat * nat * nat) (k : option rel_kind) : nat * nat * nat :=
  let '(b, kk, u) := c in
  match k with
  | Some RelB => (S b, kk, u) | Some RelK => (b, S kk, u) | Some RelU => (b, kk, S u)
  | None => c
  end.

Lemma pass1_node_counts len s d s' :
  pass1_node kmask kbits umask ubits len s d = Ok s' ->
  exists k, pass1_counts s' = count_add (pass1_counts s) k /\
    match di_extern d with
    | None => k = None
    | Some idp => count_rel kmask kbits umask ubits (di_instr d) idp = Ok k
    end.
Proof.
  unfold pass1_node. intros H. do 2 inv_bind H.
  destruct (di_extern d) as [idp|]; [|by injection H as <-; exists None].
  inv_bind H. injection H as <-. exists r1. split; [|done]. by destruct r1 as [[]|].
Qed.

Lemma rel_node_safe kn un i r t d l k :
  tables_ext chr l t -> (forall idp, di_extern d = Some idp -> ident_ok idp) ->
  match di_extern d with
  | None => k = None
  | Some idp => count_rel kmask kbits umask ubits (di_instr d) idp = Ok k
  end ->
  safe (rel_node kmask kbits umask ubits chr kn un i r t d)
    (λ '(i', r', t'), i' = (i + length (emitted [d]))%nat /\
       rel_counts r' = count_add (rel_counts r) k /\ tables_ext chr l t').
Proof.
  intros Ht Hid Hk. unfold rel_node. rewrite emitted_cons, app_nil_r.
  fold (is_label_decl d). destruct (is_label_decl d) eqn:Hd.
  { destruct (di_extern d) as [idp|]; [|subst k; simpl; by rewrite Nat.add_0_r].
    apply count_rel_class in Hk as (_ & _ & Hn). unfold is_label_decl in Hd.
    by rewrite Hn, andb_false_r in Hd. }
  cbn [length]. rewrite Nat.add_1_r. destruct (di_extern d) as [idp|]; [|by subst k].
  apply count_rel_class in Hk as (-> & [ty Hty] & _). destruct k as [k|]; [|done].
  cbn zeta. destruct (match k with RelB => true | RelK => kn | RelU => un end); [|done].
  cbn [negb]. rewrite Hty. cbn [mbind result_bind]. destruct (Hid idp eq_refl) as [Hn Hs].
  eapply safe_bind; [by apply strtab_name_safe|]. intros [soff t'] Ht'.
  eapply (safe_bind _ _ (λ _, True)).
  { unfold rel_data. destruct (flag _ _); [done|]. by destruct (Hs eq_refl) as [x ->]. }
  intros data _. simpl. split; [done|]. split; [|done].
  destruct k; unfold rel_counts; simpl; by rewrite length_app, Nat.add_1_r.
Qed.

Lemma rel_loop_safe kn un len l nodes : forall s s' i r t,
  pass1_loop kmask kbits umask ubits len s nodes = Ok s' ->
  Forall (λ d, forall idp, di_extern d = Some idp -> ident_ok idp) nodes ->
  tables_ext chr l t -> rel_counts r = pass1_counts s ->
  safe (rel_loop kmask kbits umask ubits chr kn un i r t nodes)
    (λ '(i', r', t'), i' = (i + length (emitted nodes))%nat /\
       rel_counts r' = pass1_counts s' /\ tables_ext chr l t').
Proof.
  induction nodes as [|d nodes IH]; intros s s' i r t Hp Hid Ht Hc; cbn [pass1_loop rel_loop] in *.
  { injection Hp as <-. simpl. by rewrite Nat.add_0_r. }
  apply Forall_cons in Hid as [Hd Hid]. inv_bind Hp.
  apply pass1_node_counts in Hr as (k & Hk & Hx).
  eapply safe_bind; [by apply (rel_node_safe kn un i r t d l k)|].
  intros [[i1 r1] t1] (-> & Hc1 & Ht1).
  eapply safe_mono; [apply (IH _ _ _ _ _ Hp Hid Ht1); by rewrite Hc1, Hk, Hc|].
  intros [[i2 r2] t2] (-> & Hc2 & Ht2). split; [|done].
  rewrite (emitted_cons d nodes), emitted_cons, !length_app. simpl. lia.
Qed.

(** An identifier whose record has been written is no longer marked. *)
Definition unmarked (idp : dt_ident) : Prop :=
  flag (di_flags idp) (Z.lor DT_IDFLG_DIFR DT_IDFLG_DIFW) = false.

Lemma clear_marks f : 0 <= f < 2 ^ 16 ->
  flag (Z.land f (u16 (Z.lnot (Z.lor DT_IDFLG_DIFR DT_IDFLG_DIFW))))
    (Z.lor DT_IDFLG_DIFR DT_IDFLG_DIFW) = false.
Proof.
  intros Hf. unfold flag. change (u16 (Z.lnot (Z.lor 64 128))) with 65343.
  change (Z.lor 64 128) with 192. by rewrite <- Z.land_assoc, Z.land_0_r.
Qed.

Lemma copyvars_safe dl l ids : forall t,
  tables_ext chr l t -> Forall (λ i, 0 ∉ di_name i /\ 0 <= di_flags i < 2 ^ 16) ids ->
  safe (copyvars chr diftype dl t ids)
    (λ '(dvs, ids', t'), length dvs = foldr dt_countvar O ids /\ Forall unmarked ids' /\
       tables_ext chr l t').
Proof.
  induction ids as [|idp ids IH]; intros t Ht Hid; cbn [copyvars]; [done|].
  apply Forall_cons in Hid as [[Hn Hf] Hid].
  eapply (safe_bind _ _ (λ '(dv, idp', t'), length (option_list dv) = dt_countvar idp O /\
            unmarked idp' /\ tables_ext chr l t')).
  - unfold dt_copyvar, dt_countvar.
    destruct (flag (di_flags idp) _) eqn:Hfl, (di_kind idp =? 4) eqn:Hk; simpl;
      try (by rewrite ?Hfl); (eapply safe_bind; [by apply strtab_name_safe|]);
      intros [off t1] Ht1; (split; [done|]); (split; [by apply clear_marks|done]).
  - intros [[dv idp'] t1] (Hl & Hu & Ht1). eapply safe_bind; [by apply IH|].
    intros [[dvs ids'] t2] (Hl2 & Hu2 & Ht2). simpl. split; [|split; [by constructor|done]].
    rewrite length_app, Hl, Hl2. unfold dt_countvar.
    destruct (flag (di_flags idp) _); [done|]. by destruct (di_kind idp =? 4).
Qed.
End Safe.

(** The two passes over the instructions of a well-formed list. *)
Lemma passes_safe km kb um ub dlp :
  ir_wf dlp -> 0 < dl_label dlp < 2 ^ 32 ->
  safe (p ← pass1_loop km kb um ub (dl_len dlp)
              (Pass1 [] (replicate (Z.to_nat (dl_label dlp)) O) O O O) (dl_list dlp);
        _ ← guard_err (Z.of_nat (length (p_buf p)) =? dl_len dlp) AS_ASSERT;
        buf ← resolve_loop (p_labels p) (dl_label dlp) O (p_buf p);
        Ok (p, buf))
    (λ '(p, buf), length buf = length (emitted (dl_list dlp)) /\
       pass1_loop km kb um ub (dl_len dlp)
         (Pass1 [] (replicate (Z.to_nat (dl_label dlp)) O) O O O) (dl_list dlp) = Ok p).
Proof.
  intros Hwf Hlbl.
  assert (safe (pass1_loop km kb um ub (dl_len dlp)
            (Pass1 [] (replicate (Z.to_nat (dl_label dlp)) O) O O O) (dl_list dlp)) (λ _, True)) as Hp1.
  { apply pass1_loop_safe; simpl; rewrite ?length_replicate, ?(iw_len _ Hwf); [|lia].
    eapply Forall_impl; [apply (iw_labels _ Hwf)|]. simpl. lia. }
  destruct (pass1_loop _ _ _ _ _ _ _) as [p|] eqn:Hp; [|exact Hp1]. cbn [mbind result_bind].
  destruct (pass1_loop_Ok _ _ _ _ _ _ _ _ Hp) as [Hbuf Hlabs]. simpl in Hbuf, Hlabs.
  rewrite length_replicate in Hlabs. rewrite Hbuf, <- (iw_len _ Hwf), Z.eqb_refl.
  cbn [guard_err mbind result_bind].
  assert (safe (resolve_loop (p_labels p) (dl_label dlp) O (emitted (dl_list dlp)))
            (λ _, True)) as Hrs.
  { apply resolve_loop_safe; [lia|lia|]. unfold emitted. apply Forall_fmap, Forall_forall.
    intros d [_ Hd]%list_elem_of_filter. exact (proj1 (Forall_forall _ _) (iw_branches _ Hwf) d Hd). }
  destruct (resolve_loop _ _ _ _) as [buf|] eqn:Hres; [|exact Hrs].
  simpl. split; [by eapply resolve_loop_length|done].
Qed.

(** The relocation pass, with the comparisons of its counts. *)
Lemma relocs_safe km kb um ub chr dlp l t kn un p (buf : list bpf_insn) :
  externs_ok dlp -> tables_ext chr l t -> length buf = length (emitted (dl_list dlp)) ->
  pass1_loop km kb um ub (dl_len dlp)
    (Pass1 [] (replicate (Z.to_nat (dl_label dlp)) O) O O O) (dl_list dlp) = Ok p ->
  safe (if (p_brel p + p_krel p + p_urel p =? O)%nat then Ok (Rels [] [] [], t)
        else
          '(i, r, t) ← rel_loop km kb um ub chr kn un O (Rels [] [] []) t (dl_list dlp);
          _ ← guard_err (bool_decide (length (r_brel r) = p_brel p)) AS_ASSERT;
          _ ← guard_err (bool_decide (length (r_krel r) = p_krel p)) AS_ASSERT;
          _ ← guard_err (bool_decide (length (r_urel r) = p_urel p)) AS_ASSERT;
          _ ← guard_err (bool_decide (i = length buf)) AS_ASSERT;
          Ok (r, t))
    (λ '(r, t), tables_ext chr l t /\ length (r_brel r) = p_brel p /\
                length (r_krel r) = p_krel p /\ length (r_urel r) = p_urel p).
Proof.
  intros Hext Ht Hbuf Hp. destruct (Nat.eqb_spec (p_brel p + p_krel p + p_urel p) O).
  { simpl. split; [done|]. lia. }
  eapply safe_bind; [by apply (rel_loop_safe km kb um ub chr kn un (dl_len dlp) l _ _ p _ _ _ Hp)|].
  intros [[i r] t'] (-> & Hc & Ht'). unfold rel_counts, pass1_counts in Hc.
  injection Hc as Hb Hk Hu. rewrite Hb, Hk, Hu, Hbuf, !bool_decide_true by done. done.
Qed.

(** Writing the string table out. *)
Lemma strtab_out_safe chr l t :
  tables_ext chr l t ->
  safe (if 0 <? dt_strtab_size (t_strtab t) then
          t' ← need true t;
          '(_, st) ← of_option AS_UNDEF
            (dt_strtab_write dt_strtab_copystr (t_strtab t')
               (replicate (Z.to_nat (dt_strtab_size (t_strtab t))) (Some 0)));
          Ok (st, t')
        else Ok ([], t))
    (λ '(st, t), exists l', strtab_rep chr (t_strtab t) l' /\ l `prefix_of` l' /\ st = Some <$> image l').
Proof.
  intros (l3 & Hr3 & Hp3). unfold tables_rep in Hr3.
  unfold dt_strtab_size. rewrite (sr_size _ _ _ Hr3).
  assert (0 < length (image l3))%nat as Hpos by (unfold image; simpl; lia).
  rewrite (proj2 (Z.ltb_lt 0 _)) by lia.
  unfold need. cbn [negb]. destruct (malloc (t_mem t)) as [[] m]; [|done].
  cbn [mbind result_bind t_strtab]. erewrite write_spec; [|done|by rewrite length_replicate; lia].
  cbn [of_option mbind result_bind safe]. rewrite Nat2Z.id, drop_ge by (rewrite length_replicate; lia).
  rewrite app_nil_r. by exists l3.
Qed.

(** C16: on an instruction list built by the emitters, with a well-formed string
    table and a valid link mode, [dt_as] never fails one of its assertions and
    never accesses an array out of bounds: it succeeds or reports one of its
    errors.  When it succeeds the object has exactly [dl_len] instructions, one
    variable record for each marked variable or aggregation, whose marks are
    then cleared, relocation tables of the counted sizes, and the image of a
    string table that extends the one before; [dt_maxreclen] covers the record. *)
Theorem dt_as_safe chr diftype s dlp l :
  ir_wf dlp -> externs_ok dlp -> 0 < dl_label dlp < 2 ^ 32 ->
  Forall (λ i, 0 ∉ di_name i /\ 0 <= di_flags i < 2 ^ 16) (as_ids s) ->
  strtab_rep chr (t_strtab (as_tables s)) l -> 0 <= as_linkmode s <= 2 ->
  match dt_as chr diftype s dlp with
  | Err e => e <> AS_ASSERT /\ e <> AS_UNDEF
  | Ok (dp, s') =>
      Z.of_nat (length (dtdo_buf dp)) = dl_len dlp /\
      length (dtdo_vartab dp) = foldr dt_countvar O (as_ids s) /\
      (exists km kb um ub p, link_masks (as_linkmode s) = Some (km, kb, um, ub) /\
         pass1_loop km kb um ub (dl_len dlp)
           (Pass1 [] (replicate (Z.to_nat (dl_label dlp)) O) O O O) (dl_list dlp) = Ok p /\
         length (dtdo_breltab dp) = p_brel p /\ length (dtdo_kreltab dp) = p_krel p /\
         length (dtdo_ureltab dp) = p_urel p) /\
      (length (dtdo_vartab dp) <> O -> Forall unmarked (as_ids s')) /\
      (exists l', strtab_rep chr (t_strtab (as_tables s')) l' /\ l `prefix_of` l' /\
                  dtdo_strtab dp = Some <$> image l') /\
      dtdo_reclen dp <= as_maxreclen s' /\ as_maxreclen s <= as_maxreclen s'
  end.
Proof.
  intros Hwf Hext Hlbl Hids Hrep Hmode.
  change (safe (dt_as chr diftype s dlp) (λ '(dp, s'),
      Z.of_nat (length (dtdo_buf dp)) = dl_len dlp /\
      length (dtdo_vartab dp) = foldr dt_countvar O (as_ids s) /\
      (exists km kb um ub p, link_masks (as_linkmode s) = Some (km, kb, um, ub) /\
         pass1_loop km kb um ub (dl_len dlp)
           (Pass1 [] (replicate (Z.to_nat (dl_label dlp)) O) O O O) (dl_list dlp) = Ok p /\
         length (dtdo_breltab dp) = p_brel p /\ length (dtdo_kreltab dp) = p_krel p /\
         length (dtdo_ureltab dp) = p_urel p) /\
      (length (dtdo_vartab dp) <> O -> Forall unmarked (as_ids s')) /\
      (exists l', strtab_rep chr (t_strtab (as_tables s')) l' /\ l `prefix_of` l' /\
                  dtdo_strtab dp = Some <$> image l') /\
      dtdo_reclen dp <= as_maxreclen s' /\ as_maxreclen s <= as_maxreclen s')).
  assert (exists km kb um ub, link_masks (as_linkmode s) = Some (km, kb, um, ub))
    as (km & kb & um & ub & Hm).
  { assert (as_linkmode s = 0 \/ as_linkmode s = 1 \/ as_linkmode s = 2) as [-> |[-> | ->]] by lia;
      by eexists _, _, _, _. }
  unfold dt_as. rewrite Hm. cbn [of_option mbind result_bind].
  assert (tables_ext chr l (as_tables s)) as Ht by (by exists l).
  do 3 (eapply safe_bind; [by apply need_safe|]; intros ? ?).
  pose proof (passes_safe km kb um ub dlp Hwf Hlbl) as Hps.
  destruct (pass1_loop _ _ _ _ _ _ _) as [p|] eqn:Hp; [|exact Hps]. cbn [mbind result_bind] in *.
  destruct (guard_err _ _); [|exact Hps]. cbn [mbind result_bind] in *.
  destruct (resolve_loop _ _ _ _) as [buf|]; [|exact Hps]. cbn [mbind result_bind] in *.
  destruct Hps as [Hbuf _]. cbn zeta.
  eapply safe_bind; [by apply need_safe|]. intros t1 Ht1.
  eapply (safe_bind _ _ (λ '(vt, ids', t), length vt = foldr dt_countvar O (as_ids s) /\
    (length vt <> O -> Forall unmarked ids') /\ tables_ext chr l t)).
  { destruct (Nat.eqb_spec (foldr dt_countvar O (as_ids s)) O) as [->|]; [done|].
    eapply safe_mono; [by apply copyvars_safe|]. intros [[vt ids'] t] (? & ? & ?). auto. }
  intros [[vt ids'] t2] (Hvt & Hun & Ht2).
  do 3 (eapply safe_bind; [by apply need_safe|]; intros ? ?).
  eapply safe_bind; [by eapply relocs_safe|]. intros [r t3] (Ht3 & Hb & Hk & Hu).
  eapply safe_bind; [by apply (strtab_out_safe chr l)|]. intros [st t4] Hst. simpl.
  split; [by rewrite Hbuf, (iw_len _ Hwf)|]. split; [done|].
  split; [by exists km, kb, um, ub, p|]. split; [done|]. split; [done|]. lia.
Qed.

(** ** An example program *)

Definition ex_ident : dt_ident := Ident [80; 67] 1 (DT_IDFLG_BPF + DT_IDFLG_DIFR) 3 0 0 None.

(** [if (5 == 5) return 7 else return 0], with a reference to a BPF variable. *)
Definition ex_dlp : dt_irlist :=
  let '(lbl, dlp) := dt_irlist_label dt_irlist_create in
  let dlp := emite dlp (BPF_MOV_IMM 1 5) (Some ex_ident) in
  let dlp := emit dlp (BPF_BRANCH_IMM BPF_JEQ 1 5 lbl) in
  let dlp := emit dlp (BPF_MOV_IMM 0 0) in
  let dlp := emit dlp BPF_RETURN in
  let dlp := emitl dlp lbl BPF_NOP in
  let dlp := emit dlp (BPF_MOV_IMM 0 7) in
  emit dlp BPF_RETURN.

Definition ex_strtab : dt_strtab :=
  default (Strtab [] 0 [] (O, O) O O 0 0) (dt_strtab_create 3 8 (replicate 4 true)).1.
Definition ex_as : as_state :=
  AsState DT_LINK_KERNEL [ex_ident] (Tables ex_strtab (replicate 20 true)) true false false 24 16.
Definition no_call : bpf_insn -> mstate -> option mstate := λ _ _, None.
Definition ex_m0 : mstate := MState (λ _, 0) (λ _, 0).

Lemma ex_strtab_rep : strtab_rep char_signed ex_strtab [].
Proof.
  apply (create_spec char_signed 3 8 (replicate 4 true) ex_strtab []); [lia|lia|].
  vm_compute. reflexivity.
Qed.

Lemma ex_dlp_ok : labels_unique (dl_list ex_dlp) /\ branches_ok (dl_list ex_dlp) /\ ir_wf ex_dlp.
Proof.
  split; [|split].
  - apply (bool_decide_unpack _). vm_compute. exact I.
  - unfold branches_ok. apply Forall_forall. intros d Hd.
    assert (bool_decide (is_branch (di_instr d) = true) && bool_decide (i_off (di_instr d) <= 0) = false).
    { revert d Hd. apply Forall_forall. repeat constructor. }
    intros Hb. rewrite bool_decide_true in H by done. simpl in H.
    apply bool_decide_eq_false_1 in H. lia.
  - split; [vm_compute; reflexivity| |].
    + repeat constructor; vm_compute; congruence.
    + repeat constructor; vm_compute; congruence.
Qed.

Lemma dt_as_simulates_witness :
  exists dp s' m', dt_as char_signed id ex_as ex_dlp = Ok (dp, s') /\
    runs_to_exit (asm_fetch (dtdo_buf dp)) asm_target no_call (O, ex_m0) m' /\ m_reg m' 0 = 7.
Proof.
  destruct (dt_as char_signed id ex_as ex_dlp) as [[dp s']|] eqn:E; [|vm_compute in E; discriminate].
  destruct (exec (ir_fetch (dl_list ex_dlp)) (ir_target (dl_list ex_dlp)) no_call 10 O ex_m0)
    as [m'|] eqn:Em; [|vm_compute in Em; discriminate].
  exists dp, s', m'. split; [reflexivity|]. split.
  - apply (dt_as_simulates char_signed id ex_as ex_dlp dp s' no_call ex_m0 m' E);
      [apply ex_dlp_ok|apply ex_dlp_ok|vm_compute; reflexivity|].
    exact (exec_runs_to_exit _ _ _ 10 _ _ _ Em).
  - vm_compute in Em. injection Em as <-. reflexivity.
Defined.

Lemma ex_externs_ok : externs_ok ex_dlp.
Proof.
  apply Forall_forall. intros d Hd idp He.
  assert (Forall (λ d, default ex_ident (di_extern d) = ex_ident) (dl_list ex_dlp)) as Hall
    by (apply (bool_decide_unpack _); vm_compute; exact I).
  pose proof (proj1 (Forall_forall _ _) Hall d Hd) as Hx. cbn beta in Hx. rewrite He in Hx. simpl in Hx. subst idp.
  split; [apply (bool_decide_unpack _); vm_compute; exact I|done].
Qed.

Lemma dt_as_safe_witness :
  match dt_as char_signed id ex_as ex_dlp with
  | Err _ => False
  | Ok (dp, s') => Z.of_nat (length (dtdo_buf dp)) = dl_len ex_dlp /\ length (dtdo_breltab dp) = 1%nat
  end.
Proof.
  assert (0 < dl_label ex_dlp < 2 ^ 32) as Hl by (vm_compute; split; reflexivity).
  assert (0 <= as_linkmode ex_as <= 2) as Hm by (vm_compute; split; congruence).
  assert (Forall (λ i, 0 ∉ di_name i /\ 0 <= di_flags i < 2 ^ 16) (as_ids ex_as)) as Hi.
  { repeat constructor; [apply (bool_decide_unpack _); vm_compute; exact I|vm_compute; congruence..]. }
  pose proof (dt_as_safe char_signed id ex_as ex_dlp [] (proj2 (proj2 ex_dlp_ok)) ex_externs_ok
                Hl Hi ex_strtab_rep Hm) as H.
  destruct (dt_as char_signed id ex_as ex_dlp) as [[dp s']|] eqn:E; [|vm_compute in E; discriminate].
  split; [exact (proj1 H)|]. clear H. vm_compute in E. injection E as <- _. reflexivity.
Defined.
