(* ===== verification/Cg.v ===== *)
(** * Code generation for D expressions (libdtrace/dt_cg.c)

    [dt_cg_node] on the integer expressions of D: constants, scalar variables,
    unary and binary arithmetic, comparisons, the logical operators, casts, the
    comma operator and the ternary operator, together with the emitters it
    uses.  Registers come from the register set of dt_regset.c, whose spill
    callbacks emit the stores and loads of the spill slots. *)

From stdpp Require Import base gmap list numbers relations sets.
From S2P Require Import Prelude Regset Bpf Str As.

(** ** Expression trees *)

(** An integer type as CTF describes it: its width in bits, whether it is
    signed, and its type id. *)
Record ity := Ity { ty_bits : Z; ty_signed : bool; ty_id : Z }.
Definition ty_size (t : ity) : Z := ty_bits t `div` 8.

Inductive op1 := DT_TOK_LNEG | DT_TOK_BNEG | DT_TOK_IPOS | DT_TOK_INEG.
Inductive op2 :=
  | DT_TOK_COMMA | DT_TOK_LOR | DT_TOK_LXOR | DT_TOK_LAND
  | DT_TOK_BOR | DT_TOK_XOR | DT_TOK_BAND
  | DT_TOK_EQU | DT_TOK_NEQ | DT_TOK_LT | DT_TOK_LE | DT_TOK_GT | DT_TOK_GE
  | DT_TOK_LSH | DT_TOK_RSH | DT_TOK_ADD | DT_TOK_SUB | DT_TOK_MUL | DT_TOK_DIV | DT_TOK_MOD.

#[export] Instance op2_eq_dec : EqDecision op2.
Proof. solve_decision. Defined.

(** The nodes carry their type; a variable its scope and its offset into the
    storage of local or of global variables; [NCast] is [DT_TOK_LPAR]. *)
Inductive dt_node :=
  | NInt (t : ity) (dn_value : Z)
  | NVar (t : ity) (is_local : bool) (di_offset : Z)
  | NOp1 (op : op1) (t : ity) (dn_child : dt_node)
  | NOp2 (op : op2) (t : ity) (dn_left dn_right : dt_node)
  | NOp3 (t : ity) (dn_expr dn_left dn_right : dt_node)
  | NCast (t : ity) (dn_right : dt_node).

Definition dn_type (dnp : dt_node) : ity :=
  match dnp with
  | NInt t _ | NVar t _ _ | NOp1 _ t _ | NOp2 _ t _ _ | NOp3 t _ _ _ | NCast t _ => t
  end.

(** The usual arithmetic conversions, for two integer types. *)
Definition type_rank (t : ity) : Z := ty_bits t + c_bool (negb (ty_signed t)).
Definition dt_type_promote (l r : ity) : ity :=
  if type_rank l =? type_rank r then (if ty_id l - ty_id r <? 0 then r else l)
  else if type_rank r <? type_rank l then l else r.

Definition dt_cg_compare_signed (l r : dt_node) : bool :=
  ty_signed (dt_type_promote (dn_type l) (dn_type r)).

(** ** The state of the code generator *)

Record cgs := Cgs { cg_ir : dt_irlist; cg_regs : dt_regset dt_irlist }.
Inductive cg_err := EDT_NOREG | CG_UNKNOWN | CG_ASSERT.
Abbreviation cg_res := (result cg_err).

Definition cg_emitle (s : cgs) (lbl : Z) (i : bpf_insn) (idp : option dt_ident) : cgs :=
  Cgs (emitle (cg_ir s) lbl i idp) (cg_regs s).
Definition cg_emit (s : cgs) (i : bpf_insn) : cgs := cg_emitle s DT_LBL_NONE i None.
Definition cg_emitl (s : cgs) (lbl : Z) (i : bpf_insn) : cgs := cg_emitle s lbl i None.
Definition cg_emite (s : cgs) (i : bpf_insn) (idp : dt_ident) : cgs :=
  cg_emitle s DT_LBL_NONE i (Some idp).
Definition cg_label (s : cgs) : Z * cgs :=
  let '(l, dlp) := dt_irlist_label (cg_ir s) in (l, Cgs dlp (cg_regs s)).

(** The spill callbacks emit into the current instruction list. *)
Definition dt_cg_spill_store (reg : Z) (dlp : dt_irlist) : dt_irlist :=
  emit dlp (BPF_STORE BPF_DW BPF_REG_FP (DT_STK_SPILL reg) reg).
Definition dt_cg_spill_load (reg : Z) (dlp : dt_irlist) : dt_irlist :=
  emit dlp (BPF_LOAD BPF_DW reg BPF_REG_FP (DT_STK_SPILL reg)).

Definition cg_alloc (s : cgs) : cg_res (Z * cgs) :=
  let '(drp, dlp, reg) := dt_regset_alloc (cg_regs s) (cg_ir s) in
  if reg =? -1 then Err EDT_NOREG else Ok (reg, Cgs dlp drp).
Definition cg_free (s : cgs) (reg : Z) : cg_res cgs :=
  '(drp, dlp) ← of_option CG_ASSERT (dt_regset_free (cg_regs s) (cg_ir s) reg);
  Ok (Cgs dlp drp).

(** ** Emitters *)

Definition dt_cg_xsetx (s : cgs) (idp : option dt_ident) (lbl reg x : Z) : cgs :=
  let '(i0, i1) := BPF_LDDW reg x in
  cg_emit (cg_emitle s lbl i0 idp) i1.
Definition dt_cg_setx (s : cgs) (reg x : Z) : cgs := dt_cg_xsetx s None DT_LBL_NONE reg x.

Definition bpf_ldst_size (size : Z) : cg_res Z :=
  if size =? 1 then Ok BPF_B
  else if size =? 2 then Ok BPF_H
  else if size =? 4 then Ok BPF_W
  else if size =? 8 then Ok BPF_DW
  else Err CG_UNKNOWN.

Definition DT_STK_DCTX : Z := 0 - DT_STK_SLOT_SZ.
Definition DT_STK_SP : Z := DT_STK_DCTX - DT_STK_SLOT_SZ.
(** Offsets of members of [dt_dctx_t], a sequence of pointers. *)
Abbreviation DCTX_GVARS := 72.
Abbreviation DCTX_LVARS := 80.

(** In a clause (not a trampoline) the context is reached through the stack. *)
Definition dt_cg_access_dctx (s : cgs) (reg member : Z) : cgs :=
  let s := cg_emit s (BPF_LOAD BPF_DW reg BPF_REG_FP DT_STK_DCTX) in
  if member =? -1 then s else cg_emit s (BPF_LOAD BPF_DW reg reg member).

Definition dt_cg_promote (s : cgs) (t : ity) (reg size : Z) : cgs :=
  if ty_signed t && (size <? 8) then
    let n := (8 - size) * 8 in
    cg_emit (cg_emit s (BPF_ALU64_IMM BPF_LSH reg n)) (BPF_ALU64_IMM BPF_ARSH reg n)
  else s.

Abbreviation DTRACEFLT_DIVZERO := 4.

Section Cg.
(** The identifiers of the BPF library: the PC variable and [dt_probe_error]. *)
Variables (id_PC id_probe_error : dt_ident).

Definition dt_cg_probe_error (s : cgs) (fault : Z) (illisreg : bool) (ill : Z) : cgs :=
  let s := if illisreg && negb (ill =? 4)
           then cg_emit s (BPF_MOV_REG BPF_REG_4 ill)
           else cg_emit s (BPF_MOV_IMM BPF_REG_4 ill) in
  let s := dt_cg_access_dctx s BPF_REG_1 (-1) in
  let s := cg_emite s (BPF_MOV_IMM BPF_REG_2 (-1)) id_PC in
  let s := cg_emit s (BPF_ALU64_IMM BPF_ADD BPF_REG_2 3) in
  let s := cg_emit s (BPF_MOV_IMM BPF_REG_3 fault) in
  let s := cg_emite s (BPF_CALL_FUNC (di_id id_probe_error)) id_probe_error in
  cg_emit s BPF_RETURN.

(** Scalar local and global variables, by value. *)
Definition dt_cg_load_var (s : cgs) (t : ity) (is_local : bool) (off : Z) : cg_res (Z * cgs) :=
  '(reg, s) ← cg_alloc s;
  let s := dt_cg_access_dctx s reg (if is_local then DCTX_LVARS else DCTX_GVARS) in
  let size := ty_size t in
  op ← bpf_ldst_size size;
  let s := cg_emit s (BPF_LOAD op reg reg off) in
  Ok (reg, dt_cg_promote s t reg size).

(** Integer source and destination; the value stays in its register. *)
Definition dt_cg_typecast (s : cgs) (src dst : ity) (reg : Z) : cgs :=
  let n := (8 - ty_size dst) * 8 in
  let cast :=
    if n =? 0 then false
    else if ty_size src <? ty_size dst then negb (ty_signed dst || negb (ty_signed src))
    else if ty_size dst =? ty_size src then negb (eqb (ty_signed dst) (ty_signed src))
    else true in
  if cast then
    cg_emit (cg_emit s (BPF_ALU64_IMM BPF_LSH reg n))
      (BPF_ALU64_IMM (if ty_signed dst then BPF_ARSH else BPF_RSH) reg n)
  else s.

(** ** Operators

    [left], [right], [expr], [child] generate code for the operands
    ([dt_cg_node] of the subtree). *)
Abbreviation gen := (cgs -> cg_res (Z * cgs)).

Definition signed_divmod (s : cgs) (op l r : Z) : cgs :=
  let '(lbl_L1, s) := cg_label s in
  let '(lbl_L2, s) := cg_label s in
  let '(lbl_L3, s) := cg_label s in
  let '(lbl_L4, s) := cg_label s in
  let '(lbl_L5, s) := cg_label s in
  let '(lbl_valid, s) := cg_label s in
  let s := cg_emit s (BPF_BRANCH_IMM BPF_JNE r 0 lbl_valid) in
  let s := dt_cg_probe_error s DTRACEFLT_DIVZERO false 0 in
  let s := cg_emitl s lbl_valid BPF_NOP in
  let s := cg_emit s (BPF_BRANCH_IMM BPF_JSLT l 0 lbl_L3) in
  let s := cg_emit s (BPF_BRANCH_IMM BPF_JSLT r 0 lbl_L1) in
  let s := cg_emit s (BPF_JUMP lbl_L4) in
  let s := cg_emitl s lbl_L1 (BPF_NEG_REG r) in
  let s := cg_emitl s lbl_L2 (BPF_ALU64_REG op l r) in
  let s := cg_emit s (BPF_NEG_REG l) in
  let s := cg_emit s (BPF_JUMP lbl_L5) in
  let s := cg_emitl s lbl_L3 (BPF_NEG_REG l) in
  let s := cg_emit s (BPF_BRANCH_IMM BPF_JSGE r 0 lbl_L2) in
  let s := cg_emit s (BPF_NEG_REG r) in
  let s := cg_emitl s lbl_L4 (BPF_ALU64_REG op l r) in
  cg_emitl s lbl_L5 BPF_NOP.

Definition dt_cg_arithmetic_op (t : ity) (left right : gen) (op : Z) (s : cgs) : cg_res (Z * cgs) :=
  '(l, s) ← left s;
  '(r, s) ← right s;
  let s := if ((op =? BPF_MOD) || (op =? BPF_DIV)) && ty_signed t
           then signed_divmod s op l r
           else cg_emit s (BPF_ALU64_REG op l r) in
  s ← cg_free s r;
  Ok (l, s).

Definition dt_cg_compare_op (left right : gen) (op : Z) (s : cgs) : cg_res (Z * cgs) :=
  let '(lbl_true, s) := cg_label s in
  let '(lbl_post, s) := cg_label s in
  '(l, s) ← left s;
  '(r, s) ← right s;
  let s := cg_emit s (BPF_BRANCH_REG op l r lbl_true) in
  s ← cg_free s r;
  let s := cg_emit s (BPF_MOV_IMM l 0) in
  let s := cg_emit s (BPF_JUMP lbl_post) in
  let s := cg_emitl s lbl_true (BPF_MOV_IMM l 1) in
  Ok (l, cg_emitl s lbl_post BPF_NOP).

(** The instruction of an earlier node is replaced in place. *)
Definition cg_patch (s : cgs) (dip : nat) (i : bpf_insn) : cgs :=
  let dlp := cg_ir s in
  Cgs (IrList (alter (λ d, IrNode (di_label d) i (di_extern d)) dip (dl_list dlp))
         (dl_len dlp) (dl_label dlp)) (cg_regs s).

Definition dt_cg_ternary_op (expr left right : gen) (s : cgs) : cg_res (Z * cgs) :=
  let '(lbl_false, s) := cg_label s in
  let '(lbl_post, s) := cg_label s in
  '(e, s) ← expr s;
  let s := cg_emit s (BPF_BRANCH_IMM BPF_JEQ e 0 lbl_false) in
  s ← cg_free s e;
  '(l, s) ← left s;
  let dip := length (dl_list (cg_ir s)) in
  let s := cg_emit s (BPF_MOV_IMM l 0) in
  s ← cg_free s l;
  let s := cg_emit s (BPF_JUMP lbl_post) in
  let s := cg_emitl s lbl_false BPF_NOP in
  '(r, s) ← right s;
  let s := cg_patch s dip (BPF_MOV_REG r l) in
  Ok (r, cg_emitl s lbl_post BPF_NOP).

Definition dt_cg_logical_and (left right : gen) (s : cgs) : cg_res (Z * cgs) :=
  let '(lbl_false, s) := cg_label s in
  let '(lbl_post, s) := cg_label s in
  '(l, s) ← left s;
  let s := cg_emit s (BPF_BRANCH_IMM BPF_JEQ l 0 lbl_false) in
  s ← cg_free s l;
  '(r, s) ← right s;
  let s := cg_emit s (BPF_BRANCH_IMM BPF_JEQ r 0 lbl_false) in
  let s := dt_cg_setx s r 1 in
  let s := cg_emit s (BPF_JUMP lbl_post) in
  let s := cg_emitl s lbl_false (BPF_MOV_IMM r 0) in
  Ok (r, cg_emitl s lbl_post BPF_NOP).

Definition dt_cg_logical_xor (left right : gen) (s : cgs) : cg_res (Z * cgs) :=
  let '(lbl_next, s) := cg_label s in
  let '(lbl_tail, s) := cg_label s in
  '(l, s) ← left s;
  let s := cg_emit s (BPF_BRANCH_IMM BPF_JEQ l 0 lbl_next) in
  let s := dt_cg_setx s l 1 in
  let s := cg_emitl s lbl_next BPF_NOP in
  '(r, s) ← right s;
  let s := cg_emit s (BPF_BRANCH_IMM BPF_JEQ r 0 lbl_tail) in
  let s := dt_cg_setx s r 1 in
  let s := cg_emitl s lbl_tail (BPF_ALU64_REG BPF_XOR l r) in
  s ← cg_free s r;
  Ok (l, s).

Definition dt_cg_logical_or (left right : gen) (s : cgs) : cg_res (Z * cgs) :=
  let '(lbl_true, s) := cg_label s in
  let '(lbl_false, s) := cg_label s in
  let '(lbl_post, s) := cg_label s in
  '(l, s) ← left s;
  let s := cg_emit s (BPF_BRANCH_IMM BPF_JNE l 0 lbl_true) in
  s ← cg_free s l;
  '(r, s) ← right s;
  let s := cg_emit s (BPF_BRANCH_IMM BPF_JEQ r 0 lbl_false) in
  let s := cg_emitl s lbl_true (BPF_MOV_IMM r 1) in
  let s := cg_emit s (BPF_JUMP lbl_post) in
  let s := cg_emitl s lbl_false (BPF_MOV_IMM r 0) in
  Ok (r, cg_emitl s lbl_post BPF_NOP).

Definition dt_cg_logical_neg (child : gen) (s : cgs) : cg_res (Z * cgs) :=
  let '(lbl_zero, s) := cg_label s in
  let '(lbl_post, s) := cg_label s in
  '(c, s) ← child s;
  let s := cg_emit s (BPF_BRANCH_IMM BPF_JEQ c 0 lbl_zero) in
  let s := cg_emit s (BPF_MOV_IMM c 0) in
  let s := cg_emit s (BPF_JUMP lbl_post) in
  let s := cg_emitl s lbl_zero (BPF_MOV_IMM c 1) in
  Ok (c, cg_emitl s lbl_post BPF_NOP).

Abbreviation INT32_MAX := 2147483647.

(** The cases of [dt_cg_node] for constants, the comma operator and casts. *)
Definition cg_int (v : Z) (s : cgs) : cg_res (Z * cgs) :=
  '(reg, s) ← cg_alloc s;
  if INT32_MAX <? v then Ok (reg, dt_cg_setx s reg v)
  else Ok (reg, cg_emit s (BPF_MOV_IMM reg v)).
Definition cg_comma (left right : gen) (s : cgs) : cg_res (Z * cgs) :=
  '(a, s) ← left s; s ← cg_free s a; right s.
Definition cg_cast (src dst : ity) (right : gen) (s : cgs) : cg_res (Z * cgs) :=
  '(reg, s) ← right s; Ok (reg, dt_cg_typecast s src dst reg).

(** The register that will hold the value of the expression. *)
Fixpoint dt_cg_node (dnp : dt_node) (s : cgs) : cg_res (Z * cgs) :=
  match dnp with
  | NInt _ v => cg_int v s
  | NVar t is_local off => dt_cg_load_var s t is_local off
  | NOp1 op _ c =>
      match op with
      | DT_TOK_LNEG => dt_cg_logical_neg (dt_cg_node c) s
      | DT_TOK_BNEG =>
          '(c, s) ← dt_cg_node c s; Ok (c, cg_emit s (BPF_ALU64_IMM BPF_XOR c (-1)))
      | DT_TOK_IPOS => dt_cg_node c s
      | DT_TOK_INEG => '(c, s) ← dt_cg_node c s; Ok (c, cg_emit s (BPF_NEG_REG c))
      end
  | NOp2 op t l r =>
      let arith := dt_cg_arithmetic_op t (dt_cg_node l) (dt_cg_node r) in
      let cmp := dt_cg_compare_op (dt_cg_node l) (dt_cg_node r) in
      match op with
      | DT_TOK_COMMA => cg_comma (dt_cg_node l) (dt_cg_node r) s
      | DT_TOK_LOR => dt_cg_logical_or (dt_cg_node l) (dt_cg_node r) s
      | DT_TOK_LXOR => dt_cg_logical_xor (dt_cg_node l) (dt_cg_node r) s
      | DT_TOK_LAND => dt_cg_logical_and (dt_cg_node l) (dt_cg_node r) s
      | DT_TOK_BOR => arith BPF_OR s
      | DT_TOK_XOR => arith BPF_XOR s
      | DT_TOK_BAND => arith BPF_AND s
      | DT_TOK_EQU => cmp BPF_JEQ s
      | DT_TOK_NEQ => cmp BPF_JNE s
      | DT_TOK_LT => cmp (if dt_cg_compare_signed l r then BPF_JSLT else BPF_JLT) s
      | DT_TOK_LE => cmp (if dt_cg_compare_signed l r then BPF_JSLE else BPF_JLE) s
      | DT_TOK_GT => cmp (if dt_cg_compare_signed l r then BPF_JSGT else BPF_JGT) s
      | DT_TOK_GE => cmp (if dt_cg_compare_signed l r then BPF_JSGE else BPF_JGE) s
      | DT_TOK_LSH => arith BPF_LSH s
      | DT_TOK_RSH => arith (if ty_signed t then BPF_ARSH else BPF_RSH) s
      | DT_TOK_ADD => arith BPF_ADD s
      | DT_TOK_SUB => arith BPF_SUB s
      | DT_TOK_MUL => arith BPF_MUL s
      | DT_TOK_DIV => arith BPF_DIV s
      | DT_TOK_MOD => arith BPF_MOD s
      end
  | NOp3 _ e l r => dt_cg_ternary_op (dt_cg_node e) (dt_cg_node l) (dt_cg_node r) s
  | NCast t r => cg_cast (dn_type r) t (dt_cg_node r) s
  end.

(** [dt_cg] on an expression: an empty register set and an empty instruction
    list, of which two labels are taken for the exits of the clause.  [N] is
    [dtc_difintregs]; [jr] and [js] what the maps held before the reset. *)
Definition dt_cg_init (N : nat) (jr js : bitmap) : cgs :=
  let drp := dt_regset_reset (Regset (u64 (Z.of_nat N + 1)) dt_cg_spill_store dt_cg_spill_load jr js) in
  let '(_, s) := cg_label (Cgs dt_irlist_create drp) in
  let '(_, s) := cg_label s in s.
Definition dt_cg (N : nat) (jr js : bitmap) (dnp : dt_node) : cg_res (Z * cgs) :=
  dt_cg_node dnp (dt_cg_init N jr js).
End Cg.

(** ** The value of an expression *)

(** Division truncates towards zero; a remainder is negated when exactly one
    of the operands is negative, which is what the emitted code does. *)
Definition signed_mod (a b : Z) : Z :=
  if eqb (a <? 0) (b <? 0) then Z.abs a `mod` Z.abs b else - (Z.abs a `mod` Z.abs b).

Definition eval_arith (t : ity) (op : Z) (a b : Z) : option Z :=
  if ((op =? BPF_MOD) || (op =? BPF_DIV)) && ty_signed t then
    if b =? 0 then None
    else if op =? BPF_DIV then Some (u64 (Z.quot (s64 a) (s64 b)))
    else Some (u64 (signed_mod (s64 a) (s64 b)))
  else alu op a b.

Definition eval_cast (src dst : ity) (a : Z) : Z :=
  let n := (8 - ty_size dst) * 8 in
  let cast :=
    if n =? 0 then false
    else if ty_size src <? ty_size dst then negb (ty_signed dst || negb (ty_signed src))
    else if ty_size dst =? ty_size src then negb (eqb (ty_signed dst) (ty_signed src))
    else true in
  if cast then (if ty_signed dst then u64 (wraps (64 - n) a) else wrapu (64 - n) a) else a.

(** The BPF operation an arithmetic operator is compiled to. *)
Definition arith_op (op : op2) (t : ity) : option Z :=
  match op with
  | DT_TOK_BOR => Some BPF_OR
  | DT_TOK_XOR => Some BPF_XOR
  | DT_TOK_BAND => Some BPF_AND
  | DT_TOK_LSH => Some BPF_LSH
  | DT_TOK_RSH => Some (if ty_signed t then BPF_ARSH else BPF_RSH)
  | DT_TOK_ADD => Some BPF_ADD
  | DT_TOK_SUB => Some BPF_SUB
  | DT_TOK_MUL => Some BPF_MUL
  | DT_TOK_DIV => Some BPF_DIV
  | DT_TOK_MOD => Some BPF_MOD
  | _ => None
  end.

Definition eval_cmp (op : op2) (sgn : bool) (a b : Z) : bool :=
  let x := if sgn then s64 a else a in
  let y := if sgn then s64 b else b in
  match op with
  | DT_TOK_EQU => a =? b
  | DT_TOK_NEQ => negb (a =? b)
  | DT_TOK_LT => x <? y
  | DT_TOK_LE => x <=? y
  | DT_TOK_GT => y <? x
  | _ => y <=? x
  end.

Definition u64_of_bool (b : bool) : Z := if b then 1 else 0.

(** The value of a variable of type [t] whose bytes, as an unsigned number, are
    [raw]: the register holds it sign or zero extended to 64 bits. *)
Definition var_value (t : ity) (raw : Z) : Z :=
  u64 (if ty_signed t then wraps (ty_bits t) raw else wrapu (ty_bits t) raw).

(** [env] gives the bytes of a variable: its scope, offset and size; [None] is a
    division by zero. *)
Fixpoint eval (env : bool -> Z -> Z -> Z) (dnp : dt_node) : option Z :=
  match dnp with
  | NInt _ v => Some (u64 v)
  | NVar t is_local off => Some (var_value t (env is_local off (ty_size t)))
  | NOp1 op _ c =>
      a ← eval env c;
      Some (match op with
            | DT_TOK_LNEG => u64_of_bool (a =? 0)
            | DT_TOK_BNEG => Z.lxor a (2 ^ 64 - 1)
            | DT_TOK_IPOS => a
            | DT_TOK_INEG => u64 (- a)
            end)
  | NOp2 op t l r =>
      a ← eval env l;
      match op with
      | DT_TOK_COMMA => eval env r
      | DT_TOK_LOR => if negb (a =? 0) then Some 1 else b ← eval env r; Some (u64_of_bool (negb (b =? 0)))
      | DT_TOK_LAND => if a =? 0 then Some 0 else b ← eval env r; Some (u64_of_bool (negb (b =? 0)))
      | DT_TOK_LXOR =>
          b ← eval env r; Some (u64_of_bool (xorb (negb (a =? 0)) (negb (b =? 0))))
      | _ =>
          b ← eval env r;
          match arith_op op t with
          | Some o => eval_arith t o a b
          | None => Some (u64_of_bool (eval_cmp op (dt_cg_compare_signed l r) a b))
          end
      end
  | NOp3 _ e l r => a ← eval env e; if negb (a =? 0) then eval env l else eval env r
  | NCast t r => a ← eval env r; Some (eval_cast (dn_type r) t a)
  end.

(** ** The registers and spill slots as a stack of values *)

(** In the order of allocation the registers are N, N-1, ..., 1 and, once they
    are all in use, N, N-1, ..., 1 again with the previous contents spilled. *)
Definition rg (N n : nat) : Z := Z.of_nat N - Z.of_nat (n `mod` N).

(** [n] allocations are outstanding, made and freed in stack order. *)
Record canon (N : nat) {S} (drp : dt_regset S) (n : nat) : Prop := {
  cn_wf : regset_wf drp;
  cn_size : dr_size drp = Z.of_nat N + 1;
  cn_bound : (n <= 2 * N)%nat;
  cn_level r : 1 <= r <= Z.of_nat N ->
    level drp r = c_bool (Z.of_nat N - r <? Z.of_nat n) + c_bool (2 * Z.of_nat N - r <? Z.of_nat n);
}.

Section Stack.
Context (N : nat) (HN : (2 <= N < 10)%nat).
Variable fp : Z.
Hypothesis Hfp : fp `mod` 8 = 0 /\ 0 <= fp < 2 ^ 64.

Lemma mod_cases n : (n < 2 * N)%nat -> (n < N /\ n `mod` N = n)%nat \/ (N <= n /\ n `mod` N = n - N)%nat.
Proof.
  intros Hn. destruct (Nat.lt_ge_cases n N) as [H|H]; [left|right]; (split; [done|]).
  - by apply Nat.mod_small.
  - replace n with ((n - N) + 1 * N)%nat at 1 by lia. rewrite Nat.Div0.mod_add.
    apply Nat.mod_small. lia.
Qed.

Lemma rg_range n : 1 <= rg N n <= Z.of_nat N.
Proof. unfold rg. pose proof (Nat.mod_upper_bound n N ltac:(lia)). lia. Qed.

Lemma rg_eq i j : (i < 2 * N)%nat -> (j < 2 * N)%nat -> rg N i = rg N j ->
  i = j \/ (i = j + N)%nat \/ (j = i + N)%nat.
Proof.
  unfold rg. intros Hi Hj H.
  destruct (mod_cases i Hi) as [[? Ei]|[? Ei]], (mod_cases j Hj) as [[? Ej]|[? Ej]];
    rewrite Ei, Ej in H; lia.
Qed.

(** The address of a spill slot. *)
Definition slot (r : Z) : Z := u64 (fp + s16 (DT_STK_SPILL r)).
Definition is_slot (a : Z) : Prop := exists r, 1 <= r <= Z.of_nat N /\ a = slot r.

Lemma spill_off r : 1 <= r <= Z.of_nat N -> s16 (DT_STK_SPILL r) = - 24 - 8 * r.
Proof.
  intros Hr. rewrite wraps_small; unfold DT_STK_SPILL, DT_STK_SPILL_BASE, DT_STK_SLOT_SZ; lia.
Qed.

Lemma aligned_off (b o : Z) : b `mod` 8 = 0 -> o `mod` 8 = 0 -> aligned (u64 (b + o)) = true.
Proof.
  intros Hb Ho. unfold aligned. apply Z.eqb_eq. unfold wrapu.
  rewrite Z.mod_mod_divide by (by exists (2 ^ 61)). rewrite Z.add_mod, Hb, Ho by lia. done.
Qed.

Lemma slot_aligned r : 1 <= r <= Z.of_nat N -> aligned (slot r) = true.
Proof.
  intros Hr. apply aligned_off; [apply Hfp|]. rewrite spill_off by done.
  replace (-24 - 8 * r) with ((-3 - r) * 8) by lia. apply Z_mod_mult.
Qed.

Lemma slot_inj r r' : 1 <= r <= Z.of_nat N -> 1 <= r' <= Z.of_nat N -> slot r = slot r' -> r = r'.
Proof.
  intros Hr Hr'. unfold slot. rewrite !spill_off by done. unfold wrapu. intros H.
  assert ((fp + (-24 - 8 * r)) `mod` 2 ^ 64 - (fp + (-24 - 8 * r')) `mod` 2 ^ 64 = 0) as H0 by lia.
  pose proof (Z.div_mod (fp + (-24 - 8 * r)) (2 ^ 64)).
  pose proof (Z.div_mod (fp + (-24 - 8 * r')) (2 ^ 64)). lia.
Qed.

(** The values [vs], with [k] allocations outstanding: the [N] youngest are in
    their registers, the older ones in the spill slots of theirs. *)
Definition stk (k : nat) (vs : list Z) (m : mstate) : Prop :=
  forall i v, vs !! i = Some v ->
    ((k <= i + N)%nat -> m_reg m (rg N i) = v) /\
    ((i + N < k)%nat -> m_mem m (slot (rg N i)) = v).

Lemma stk_push n vs m v :
  (n < 2 * N)%nat -> length vs = n -> stk (S n) vs m ->
  stk (S n) (vs ++ [v]) (set_reg m (rg N n) v).
Proof.
  intros Hn Hl Hs i w Hi. simpl. unfold upd.
  apply lookup_app_Some in Hi as [Hi|[Hge Hi]].
  - destruct (Hs i w Hi) as [H1 H2]. pose proof (lookup_lt_Some _ _ _ Hi).
    split; [|done]. intros Hk. destruct (Z.eqb_spec (rg N i) (rg N n)) as [He|]; [|auto].
    apply rg_eq in He; lia.
  - apply list_lookup_singleton_Some in Hi as [Hi <-]. assert (i = n) as -> by lia.
    rewrite Z.eqb_refl. split; [done|lia].
Qed.

Lemma stk_update k vs m i v :
  (k <= 2 * N)%nat -> (length vs <= k)%nat -> (i < length vs)%nat -> (k <= i + N)%nat ->
  stk k vs m -> stk k (<[i := v]> vs) (set_reg m (rg N i) v).
Proof.
  intros Hk Hl Hi Hr Hs j w Hj. simpl. unfold upd.
  destruct (decide (i = j)) as [->|Hne].
  - rewrite list_lookup_insert_eq in Hj by done. injection Hj as ->. rewrite Z.eqb_refl. split; [done|lia].
  - rewrite list_lookup_insert_ne in Hj by done. destruct (Hs j w Hj) as [H1 H2].
    pose proof (lookup_lt_Some _ _ _ Hj). split; [|done]. intros Hkj.
    destruct (Z.eqb_spec (rg N j) (rg N i)) as [He|]; [|auto]. apply rg_eq in He; lia.
Qed.

Lemma stk_prefix k vs vs' m : vs `prefix_of` vs' -> stk k vs' m -> stk k vs m.
Proof. intros [w ->] Hs i v Hi. apply Hs. by apply lookup_app_l_Some. Qed.

(** The register of an allocation that is not spilled. *)
Lemma stk_reg k vs m i v : stk k vs m -> vs !! i = Some v -> (k <= i + N)%nat -> m_reg m (rg N i) = v.
Proof. intros Hs Hi Hk. by apply (Hs i v Hi). Qed.

(** While no register is spilled, a free register may hold anything. *)
Lemma stk_grow n vs m : (n < N)%nat -> length vs = n -> stk n vs m -> stk (S n) vs m.
Proof.
  intros Hn Hl Hs i v Hi. destruct (Hs i v Hi) as [H1 H2]. pose proof (lookup_lt_Some _ _ _ Hi).
  split; intros; [apply H1; lia|lia].
Qed.

Lemma stk_shrink n vs m : (n < N)%nat -> length vs = n -> stk (S n) vs m -> stk n vs m.
Proof.
  intros Hn Hl Hs i v Hi. destruct (Hs i v Hi) as [H1 H2]. pose proof (lookup_lt_Some _ _ _ Hi).
  split; intros; [apply H1; lia|lia].
Qed.

Lemma rg_wrap n : (N <= n < 2 * N)%nat -> rg N n = rg N (n - N).
Proof.
  intros Hn. unfold rg. destruct (mod_cases n) as [[? E]|[? E]]; [lia|lia|].
  rewrite E. rewrite (Nat.mod_small (n - N)) by lia. done.
Qed.

(** Spilling and reloading move the value between the register and its slot. *)
Lemma stk_spill n vs m :
  (N <= n < 2 * N)%nat -> length vs = n -> stk n vs m ->
  stk (S n) vs (set_mem m (slot (rg N n)) (m_reg m (rg N n))).
Proof.
  intros Hn Hl Hs i v Hi. destruct (Hs i v Hi) as [H1 H2]. pose proof (lookup_lt_Some _ _ _ Hi).
  simpl. unfold upd. split; [intros; apply H1; lia|]. intros Hk.
  destruct (Z.eqb_spec (slot (rg N i)) (slot (rg N n))) as [He|Hne].
  - apply slot_inj in He; [|apply rg_range..]. rewrite <- He. apply H1.
    apply rg_eq in He; lia.
  - apply H2. destruct (decide (i + N = n)%nat) as [<-|]; [|lia].
    destruct Hne. rewrite (rg_wrap (i + N)) by lia. by replace (i + N - N)%nat with i by lia.
Qed.

Lemma stk_reload n vs m :
  (N <= n < 2 * N)%nat -> length vs = n -> stk (S n) vs m ->
  stk n vs (set_reg m (rg N n) (m_mem m (slot (rg N n)))).
Proof.
  intros Hn Hl Hs i v Hi. destruct (Hs i v Hi) as [H1 H2]. pose proof (lookup_lt_Some _ _ _ Hi).
  simpl. unfold upd. split; [|intros; apply H2; lia]. intros Hk.
  destruct (Z.eqb_spec (rg N i) (rg N n)) as [He|Hne].
  - rewrite <- He. apply H2. apply rg_eq in He; lia.
  - apply H1. destruct (decide (i + N = n)%nat) as [<-|]; [|lia].
    destruct Hne. rewrite (rg_wrap (i + N)) by lia. by replace (i + N - N)%nat with i by lia.
Qed.
End Stack.

(** ** Allocation and release keep the stack order *)

Section Canon.
Context (N : nat) (HN : (2 <= N < 10)%nat) {S : Type}.
Implicit Types drp : dt_regset S.

Lemma canon_level_rg drp n :
  canon N drp n -> (n < 2 * N)%nat -> level drp (rg N n) = c_bool (N <=? n)%nat.
Proof.
  intros Hc Hn. rewrite (cn_level _ _ _ Hc) by (apply rg_range; lia). unfold rg, c_bool.
  destruct (mod_cases N HN n Hn) as [[? E]|[? E]]; rewrite E;
    destruct (Nat.leb_spec N n); repeat case_cmp; lia.
Qed.

Lemma dt_regset_alloc_canon drp s n drp' s' r :
  canon N drp n -> dt_regset_alloc drp s = (drp', s', r) ->
  (r = -1 /\ n = (2 * N)%nat) \/
  (n < 2 * N)%nat /\ r <> -1 /\ r = rg N n /\ canon N drp' (Datatypes.S n) /\
  s' = (if (N <=? n)%nat then dr_spill_store drp r s else s) /\
  dr_spill_store drp' = dr_spill_store drp /\ dr_spill_load drp' = dr_spill_load drp.
Proof.
  intros Hc Ha. pose proof (dt_regset_alloc_spec _ drp s (cn_wf _ _ _ Hc)) as Hsp.
  rewrite Ha in Hsp. destruct Hsp as [(-> & _ & _ & Hall)|(Hrange & Hb & Hcase)]; [left|right].
  { split; [done|]. pose proof (cn_bound _ _ _ Hc). rewrite (cn_size _ _ _ Hc) in Hall.
    specialize (Hall 1 ltac:(lia)). rewrite (cn_level _ _ _ Hc) in Hall by lia.
    unfold c_bool in Hall. repeat case_cmp_in Hall; lia. }
  destruct Hb as [Hwf Hsz Hst Hld Hlv].
  rewrite (cn_size _ _ _ Hc) in *. pose proof (cn_bound _ _ _ Hc).
  assert (forall r', 1 <= r' <= Z.of_nat N -> level drp r' =
    c_bool (Z.of_nat N - r' <? Z.of_nat n) + c_bool (2 * Z.of_nat N - r' <? Z.of_nat n)) as Hl
    by apply (cn_level _ _ _ Hc).
  assert ((n < 2 * N)%nat /\ r = rg N n /\ (s' = (if (N <=? n)%nat then dr_spill_store drp r s else s)))
    as (Hn & Hrg & Hs').
  { destruct Hcase as [(H0 & -> & Hgt)|(H1 & -> & Hall & Hgt)].
    - rewrite Hl in H0 by lia. unfold c_bool in H0.
      assert (n <= Z.to_nat (Z.of_nat N - r))%nat by (repeat case_cmp_in H0; lia).
      assert (Z.of_nat n = Z.of_nat N - r).
      { destruct (Z.lt_ge_cases (Z.of_nat n) (Z.of_nat N - r)); [|lia].
        specialize (Hgt (r + 1) ltac:(lia)). rewrite Hl in Hgt by lia. unfold c_bool in Hgt.
        repeat case_cmp_in Hgt; lia. }
      split; [lia|]. unfold rg. rewrite Nat.mod_small by lia. split; [lia|].
      by rewrite (proj2 (Nat.leb_gt _ _)) by lia.
    - rewrite Hl in H1 by lia. unfold c_bool in H1.
      assert (Z.of_nat n <= 2 * Z.of_nat N - r) by (repeat case_cmp_in H1; lia).
      specialize (Hall 1 ltac:(lia)). rewrite Hl in Hall by lia. unfold c_bool in Hall.
      assert (N <= n)%nat by (repeat case_cmp_in Hall; lia).
      assert (Z.of_nat n = 2 * Z.of_nat N - r).
      { destruct (decide (r = Z.of_nat N)) as [->|]; [lia|].
        specialize (Hgt (r + 1) ltac:(lia)). rewrite Hl in Hgt by lia. unfold c_bool in Hgt.
        repeat case_cmp_in Hgt; lia. }
      split; [lia|]. split; [|by rewrite (proj2 (Nat.leb_le _ _))].
      unfold rg. destruct (mod_cases N HN n ltac:(lia)) as [[? E]|[? E]]; rewrite E; lia. }
  split; [done|]. split; [lia|]. split; [done|]. split; [|by auto].
  split; [done|lia|lia|]. intros r' Hr'. rewrite Hlv by lia. rewrite Hl by done.
  unfold rg in Hrg. unfold c_bool.
  destruct (mod_cases N HN n Hn) as [[? E]|[? E]]; rewrite E in Hrg; repeat case_cmp; simpl; lia.
Qed.

Lemma dt_regset_free_canon drp s n :
  canon N drp (Datatypes.S n) ->
  exists drp', dt_regset_free drp s (rg N n) =
      Some (drp', if (N <=? n)%nat then dr_spill_load drp (rg N n) s else s) /\
    canon N drp' n /\
    dr_spill_store drp' = dr_spill_store drp /\ dr_spill_load drp' = dr_spill_load drp.
Proof.
  intros Hc. pose proof (rg_range N HN n) as Hr. pose proof (cn_bound _ _ _ Hc) as Hb.
  assert (level drp (rg N n) = 1 + c_bool (N <=? n)%nat) as Hlv.
  { rewrite (cn_level _ _ _ Hc) by done. unfold rg, c_bool.
    destruct (mod_cases N HN n ltac:(lia)) as [[? E]|[? E]]; rewrite E;
      destruct (Nat.leb_spec N n); repeat case_cmp; lia. }
  pose proof (dt_regset_free_spec drp s (rg N n) (cn_wf _ _ _ Hc)) as Hsp.
  rewrite (cn_size _ _ _ Hc) in Hsp. specialize (Hsp ltac:(lia)).
  assert (level drp (rg N n) <> 0) as Hne by (rewrite Hlv; unfold c_bool; by destruct (N <=? n)%nat).
  rewrite (proj2 (Z.eqb_neq _ _) Hne) in Hsp.
  destruct Hsp as (drp1 & Hf1 & [Hwf Hsz Hst Hld Hl]). exists drp1.
  split; [|split; [|done]].
  - rewrite Hf1, Hlv. unfold c_bool. by destruct (N <=? n)%nat.
  - split; [done|by rewrite Hsz, (cn_size _ _ _ Hc)|lia|]. intros r' Hr'.
    rewrite Hl by lia. rewrite (cn_level _ _ _ Hc) by done. unfold rg, c_bool.
    destruct (mod_cases N HN n ltac:(lia)) as [[? E]|[? E]]; rewrite E; repeat case_cmp; simpl; lia.
Qed.
End Canon.
