(* ===== verification/CgSim.v ===== *)
(** * Correctness of the code generated for D expressions

    The code [dt_cg_node] emits for an expression, run from any state of the
    registers and spill slots, leaves the value of the expression in the
    register it returns and everything that was live untouched. *)

From stdpp Require Import base gmap list numbers relations sets.
From S2P Require Import Prelude Regset Bpf Str Htab Strtab As Cg.

Abbreviation code s := (dl_list (cg_ir s)).
Abbreviation lab s := (dl_label (cg_ir s)).
Definition pc (s : cgs) : nat := length (code s).

(** ** Code fragments *)

Definition labs (l : list dt_irnode) : list Z := filter (λ x, x <> DT_LBL_NONE) (di_label <$> l).

Lemma labs_app l1 l2 : labs (l1 ++ l2) = labs l1 ++ labs l2.
Proof. unfold labs. by rewrite fmap_app, filter_app. Qed.

Definition branch_in (lo hi : Z) (i : bpf_insn) : Prop :=
  is_branch i = true -> exists l, lo <= l < hi /\ i_off i = s16 l.

(** From [s] to [s'] code was appended whose labels were handed out in between
    and are placed once; the labels [L] were handed out and not placed. *)
Definition frag (L : list Z) (s s' : cgs) : Prop :=
  lab s <= lab s' /\
  exists c, code s' = code s ++ c /\ NoDup (L ++ labs c) /\
    Forall (λ x, lab s <= x < lab s') (L ++ labs c) /\
    Forall (λ d, branch_in (lab s) (lab s') (di_instr d)) c.

Lemma branch_in_mono lo hi lo' hi' i :
  lo' <= lo -> hi <= hi' -> branch_in lo hi i -> branch_in lo' hi' i.
Proof. intros ?? H Hi. destruct (H Hi) as (l & ? & ?). exists l. split; [lia|done]. Qed.

Lemma frag_refl s : frag [] s s.
Proof. split; [lia|]. exists []. rewrite app_nil_r. repeat split; constructor. Qed.

(** The state after a label was handed out. *)
Definition labelled (s : cgs) : cgs := (cg_label s).2.

Lemma cg_label_eq s : cg_label s = (lab s, labelled s).
Proof. done. Qed.

Lemma lab_label s : 0 < lab s < 2 ^ 15 -> lab (labelled s) = lab s + 1.
Proof. intros H. simpl. apply wrapu_small. lia. Qed.

Lemma frag_label L s s1 : 0 < lab s1 < 2 ^ 15 -> frag L s s1 -> frag (lab s1 :: L) s (labelled s1).
Proof.
  intros H1 (Hl & c & Hc & Hn & Hr & Hb). unfold frag. rewrite lab_label by done.
  split; [lia|]. exists c. split; [done|].
  split; [|split].
  - simpl. constructor; [|done]. intros Hin.
    pose proof (proj1 (Forall_forall _ _) Hr _ Hin). simpl in *. lia.
  - simpl. constructor; [lia|]. eapply Forall_impl; [exact Hr|]. simpl; lia.
  - eapply Forall_impl; [exact Hb|]. intros d. apply branch_in_mono; lia.
Qed.

Lemma frag_emit L s s1 i e :
  frag L s s1 -> branch_in (lab s) (lab s1) i -> frag L s (cg_emitle s1 DT_LBL_NONE i e).
Proof.
  intros (Hl & c & Hc & Hn & Hr & Hb) Hi. split; [done|]. exists (c ++ [IrNode 0 i e]). simpl.
  rewrite Hc, app_assoc. split; [done|]. rewrite labs_app, app_nil_r. split; [done|]. split; [done|].
  apply Forall_app. split; [done|]. by repeat constructor.
Qed.

Lemma frag_emitl L L' s s1 l i e :
  frag L s s1 -> L ≡ₚ l :: L' -> 0 < lab s -> branch_in (lab s) (lab s1) i ->
  frag L' s (cg_emitle s1 l i e).
Proof.
  intros (Hl & c & Hc & Hn & Hr & Hb) HL H0 Hi. split; [done|]. exists (c ++ [IrNode l i e]). simpl.
  rewrite Hc, app_assoc. split; [done|]. rewrite labs_app.
  assert (L ++ labs c ≡ₚ L' ++ labs c ++ labs [IrNode l i e]) as HP.
  { assert (l ≠ 0).
    { assert (l ∈ L ++ labs c) as Hin by (rewrite HL; set_solver).
      pose proof (proj1 (Forall_forall _ _) Hr _ Hin). simpl in *. lia. }
    unfold labs at 3. simpl. rewrite filter_cons_True by done. rewrite HL, filter_nil. solve_Permutation. }
  split; [by rewrite <- HP|]. split; [by rewrite <- HP|].
  apply Forall_app. split; [done|]. by repeat constructor.
Qed.

Lemma frag_trans L s s1 s2 : frag L s s1 -> frag [] s1 s2 -> frag L s s2.
Proof.
  intros (Hl & c & Hc & Hn & Hr & Hb) (Hl' & c' & Hc' & Hn' & Hr' & Hb'). simpl in *.
  split; [lia|]. exists (c ++ c'). rewrite Hc', Hc, app_assoc. split; [done|]. rewrite labs_app, app_assoc.
  split; [|split].
  - apply NoDup_app. split; [done|]. split; [|done]. intros x Hx Hx'.
    pose proof (proj1 (Forall_forall _ _) Hr _ Hx). pose proof (proj1 (Forall_forall _ _) Hr' _ Hx').
    simpl in *. lia.
  - apply Forall_app. split; (eapply Forall_impl; [eassumption|]); simpl; lia.
  - apply Forall_app. split; (eapply Forall_impl; [eassumption|]); intros d; apply branch_in_mono; lia.
Qed.

Lemma frag_drop L s s' : frag L s s' -> frag [] s s'.
Proof.
  intros (Hl & c & Hc & Hn & Hr & Hb). split; [done|]. exists c. split; [done|].
  apply NoDup_app in Hn as (_ & _ & Hn). apply Forall_app in Hr as [_ Hr]. done.
Qed.

Lemma frag_regs L s s1 drp : frag L s s1 -> frag L s (Cgs (cg_ir s1) drp).
Proof. done. Qed.

Lemma frag_patch L s s1 k i :
  frag L s s1 -> (pc s <= k)%nat -> is_branch i = false ->
  frag L s (cg_patch s1 k i).
Proof.
  intros (Hl & c & Hc & Hn & Hr & Hb) Hk Hi. unfold pc in *. split; [done|].
  set (f := λ d, IrNode (di_label d) i (di_extern d)).
  exists (alter f (k - length (code s))%nat c). simpl. rewrite Hc in *.
  assert (labs (alter f (k - length (code s))%nat c) = labs c) as ->.
  { unfold labs. f_equal. rewrite (list_fmap_alter _ _ id) by (by apply Forall_true).
    by apply list_alter_id. }
  rewrite alter_app_r_alt by done.
  split; [done|]. split; [done|]. split; [done|].
  apply Forall_alter; [done|]. intros x _ _. unfold branch_in. simpl. by rewrite Hi.
Qed.

(** Later states extend earlier ones. *)
Definition pre (s s' : cgs) : Prop := code s `prefix_of` code s'.

#[export] Instance pre_preorder : PreOrder pre.
Proof. split; [by intros s; unfold pre|intros s1 s2 s3; unfold pre; apply transitivity]. Qed.

Lemma frag_pre L s s' : frag L s s' -> pre s s'.
Proof. intros (_ & c & Hc & _). exists c. exact Hc. Qed.

Lemma frag_lab L s s' : frag L s s' -> lab s <= lab s'.
Proof. by intros [? _]. Qed.

(** ** Programs that contain a fragment *)

(** [P] contains the code appended from [s] on, and its labels name it. *)
Definition hosts (P : list dt_irnode) (s s' : cgs) : Prop :=
  forall i d, (pc s <= i)%nat -> code s' !! i = Some d ->
    P !! i = Some d /\ (di_label d <> 0 -> find_label P (di_label d) = Some i).

(** Instruction [i] is at [k], and [l], if it is a label, names it. *)
Definition at_ (P : list dt_irnode) (k : nat) (l : Z) (i : bpf_insn) : Prop :=
  ir_fetch P k = Some i /\ (l <> 0 -> find_label P l = Some k).

Lemma target_at P (k : nat) (m : mstate) l i t : at_ P t l i -> 0 < l ->
  match ir_target P k l with Some pc' => Next pc' m | None => Stuck end = Next t m.
Proof. intros [_ Ht] Hl. unfold ir_target. by rewrite Ht by lia. Qed.

Lemma hosts_split P s s1 s2 : pre s s1 -> pre s1 s2 -> hosts P s s2 -> hosts P s s1 /\ hosts P s1 s2.
Proof.
  intros H1 H2 H. pose proof (prefix_length _ _ H1). unfold hosts, pc, pre in *. split.
  - intros i d Hi Hd. apply H; [done|]. by eapply prefix_lookup_Some.
  - intros i d Hi Hd. apply H; [lia|done].
Qed.

Lemma pre_emitle s s1 l i e : pre s s1 -> pre s (cg_emitle s1 l i e).
Proof. intros H. etrans; [exact H|]. by eexists. Qed.

Lemma pc_emitle s l i e : pc (cg_emitle s l i e) = S (pc s).
Proof. unfold pc. simpl. rewrite length_app. simpl. lia. Qed.

Lemma pre_labelled s s1 : pre s s1 -> pre s (labelled s1).
Proof. done. Qed.

Lemma pc_labelled s : pc (labelled s) = pc s.
Proof. done. Qed.

Lemma pre_frag L s s1 s2 : frag L s1 s2 -> pre s s1 -> pre s s2.
Proof. intros Hf Hp. etrans; [exact Hp|by eapply frag_pre]. Qed.

Lemma pc_emit_ir s i drp : pc (Cgs (emit (cg_ir s) i) drp) = S (pc s).
Proof. exact (pc_emitle s 0 i None). Qed.

Lemma hosts_emitle P s s1 l i e :
  pre s s1 -> hosts P s (cg_emitle s1 l i e) -> hosts P s s1 /\ at_ P (pc s1) l i.
Proof.
  intros Hp H.
  split; [apply (hosts_split _ _ s1 (cg_emitle s1 l i e)); [done|by apply pre_emitle|done]|].
  destruct (H (pc s1) (IrNode l i e)) as [Hn Hl].
  - by apply prefix_length.
  - simpl. unfold pc. by rewrite list_lookup_middle.
  - split; [|done]. unfold ir_fetch. by rewrite Hn.
Qed.

Lemma lab_emitle s l i e : lab (cg_emitle s l i e) = lab s.
Proof. done. Qed.

Lemma frag_perm L L' s s' : L ≡ₚ L' -> frag L s s' -> frag L' s s'.
Proof. intros HP (Hl & c & Hc & Hn & Hr & Hb). split; [done|]. exists c. by rewrite <- HP. Qed.

(** Show that a state extends another by a fragment. *)
Ltac solve_branch :=
  rewrite ?lab_emitle; first
    [ by intros ?
    | intros _; eexists; split; [|reflexivity]; lia ].
Ltac solve_frag :=
  lazymatch goal with
  | |- frag _ ?s ?s => apply frag_refl
  | |- frag _ _ (cg_emitle _ DT_LBL_NONE _ _) => eapply frag_emit; [solve_frag|solve_branch]
  | |- frag ?L _ (cg_emitle _ ?l _ _) =>
      eapply (frag_emitl (l :: L)); [solve_frag|reflexivity|lia|solve_branch]
  | H : frag ?L' ?s ?s2 |- frag ?L ?s ?s2 => apply (frag_perm L' L); [solve_Permutation|exact H]
  | H : frag [] ?s1 ?s2 |- frag _ _ ?s2 => apply (frag_trans _ _ s1 s2); [solve_frag|exact H]
  end.
Ltac norm := rewrite ?pc_emitle, ?pc_labelled in *.
Ltac emits := unfold cg_emit, cg_emitl, cg_emite in *.

Ltac solve_pre :=
  lazymatch goal with
  | H : pre ?s ?s2 |- pre ?s ?s2 => exact H
  | |- pre ?s ?s => reflexivity
  | |- pre _ (cg_emitle _ _ _ _) => apply pre_emitle; solve_pre
  | |- pre _ (labelled _) => apply pre_labelled; solve_pre
  | H : frag _ ?s1 ?s2 |- pre _ ?s2 => apply (pre_frag _ _ s1 s2 H); solve_pre
  end.

(** Take the end of a fragment apart, or split it at a state. *)
Ltac peel H := repeat (apply hosts_emitle in H as [H ?]; [|solve_pre]).
Ltac split_at s1 H H' :=
  apply (hosts_split _ _ s1) in H as [H H']; [|solve_pre|solve_pre].

(** A program that contains a patched fragment contains the parts before and
    after the patched instruction. *)
Lemma hosts_patch P s s8 k i d :
  hosts P s (cg_patch s8 k i) -> code s8 !! k = Some d -> (pc s <= k)%nat ->
  at_ P k (di_label d) i /\
  forall s1 s2, (pc s <= pc s1)%nat -> pre s2 s8 -> (pc s2 <= k \/ k < pc s1)%nat -> hosts P s1 s2.
Proof.
  intros Hh Hd Hk. split.
  - destruct (Hh k (IrNode (di_label d) i (di_extern d)) Hk) as [Hp Hl].
    + simpl. rewrite list_lookup_alter_eq, Hd. done.
    + split; [|done]. unfold ir_fetch. by rewrite Hp.
  - intros s1 s2 H1 H2 Hor j e Hj He. apply Hh; [lia|]. simpl.
    pose proof (lookup_lt_Some _ _ _ He). unfold pc in *.
    rewrite list_lookup_alter_ne by lia. by eapply prefix_lookup_Some.
Qed.

Lemma pc_patch s k i : pc (cg_patch s k i) = pc s.
Proof. unfold pc. simpl. by rewrite length_alter. Qed.

(** Split off the last sub-fragment. *)
Ltac split_last H H' :=
  lazymatch type of H with
  | hosts _ _ ?s2 => lazymatch goal with F : frag _ ?s1 s2 |- _ => split_at s1 H H' end
  end.

(** ** Resources *)

(** Does an operator free the register of its left operand before the right
    operand is generated? *)
Definition frees_left (op : op2) : bool :=
  match op with DT_TOK_COMMA | DT_TOK_LOR | DT_TOK_LAND => true | _ => false end.

(** How many registers and spill slots the code of an expression needs. *)
Fixpoint regs_needed (e : dt_node) : nat :=
  match e with
  | NInt _ _ | NVar _ _ _ => 1
  | NOp1 _ _ c | NCast _ c => regs_needed c
  | NOp2 op _ l r => regs_needed l `max` (if frees_left op then regs_needed r else S (regs_needed r))
  | NOp3 _ e l r => regs_needed e `max` regs_needed l `max` regs_needed r
  end.

Definition op2_labels (op : op2) (t : ity) : Z :=
  match op with
  | DT_TOK_LOR => 3
  | DT_TOK_LAND | DT_TOK_LXOR | DT_TOK_EQU | DT_TOK_NEQ
  | DT_TOK_LT | DT_TOK_LE | DT_TOK_GT | DT_TOK_GE => 2
  | DT_TOK_DIV | DT_TOK_MOD => if ty_signed t then 6 else 0
  | _ => 0
  end.

Fixpoint labels_needed (e : dt_node) : Z :=
  match e with
  | NInt _ _ | NVar _ _ _ => 0
  | NOp1 op _ c => (match op with DT_TOK_LNEG => 2 | _ => 0 end) + labels_needed c
  | NCast _ c => labels_needed c
  | NOp2 op t l r => op2_labels op t + labels_needed l + labels_needed r
  | NOp3 _ e l r => 2 + labels_needed e + labels_needed l + labels_needed r
  end.

Lemma labels_needed_pos e : 0 <= labels_needed e.
Proof.
  induction e as [| |[]|[] t|t|]; simpl; try lia; destruct (ty_signed t); lia.
Qed.

Definition is_cmp (op : op2) : bool :=
  match op with
  | DT_TOK_EQU | DT_TOK_NEQ | DT_TOK_LT | DT_TOK_LE | DT_TOK_GT | DT_TOK_GE => true
  | _ => false
  end.

(** With [n] registers outstanding, no comparison and no ternary operator has
    to spill a register: the code for these releases a register between the
    branch and its target, so a reload is skipped when the branch is taken. *)
Fixpoint spill_safe (N n : nat) (e : dt_node) : Prop :=
  match e with
  | NInt _ _ | NVar _ _ _ => True
  | NOp1 _ _ c | NCast _ c => spill_safe N n c
  | NOp2 op _ l r =>
      spill_safe N n l /\ spill_safe N (if frees_left op then n else S n) r /\
      (is_cmp op = true -> (S n < N)%nat)
  | NOp3 _ e l r => spill_safe N n e /\ spill_safe N n l /\ spill_safe N n r /\ (n < N)%nat
  end.

(** ** Signed division in unsigned arithmetic *)

Lemma abs_s64 a : in64 a -> Z.abs (s64 a) = if s64 a <? 0 then u64 (- a) else a.
Proof.
  intros Ha. unfold wraps. rewrite (wrapu_small 64 a) by lia.
  destruct (Z.ltb_spec a (2 ^ (64 - 1))); case_cmp; try lia.
  unfold wrapu. rewrite <- (Z.mod_add _ 1), Z.mod_small; lia.
Qed.

(** The quotient or remainder of the absolute values. *)
Definition absop (op a b : Z) : Z :=
  if op =? BPF_DIV then Z.abs (s64 a) `div` Z.abs (s64 b) else Z.abs (s64 a) `mod` Z.abs (s64 b).

Lemma eval_signed t op a b :
  (op = BPF_DIV \/ op = BPF_MOD) -> ty_signed t = true -> in64 a -> in64 b -> b <> 0 ->
  eval_arith t op a b =
    Some (if eqb (s64 a <? 0) (s64 b <? 0) then absop op a b else u64 (- absop op a b)) /\
  alu op (Z.abs (s64 a)) (Z.abs (s64 b)) = Some (absop op a b).
Proof.
  intros Hop Ht Ha Hb Hb0. pose proof (wraps_range 64 a ltac:(lia)) as Ra.
  pose proof (wraps_range 64 b ltac:(lia)) as Rb. change (2 ^ (64 - 1)) with 9223372036854775808 in *.
  assert (s64 b <> 0) as Hs.
  { intros E. apply Hb0. rewrite <- (wrapu_small 64 b), <- wrapu_wraps, E by lia. done. }
  assert (0 <= Z.abs (s64 a) `div` Z.abs (s64 b) <= Z.abs (s64 a)).
  { split; [apply Z.div_pos; lia|]. apply Z.div_le_upper_bound; nia. }
  pose proof (Z.mod_pos_bound (Z.abs (s64 a)) (Z.abs (s64 b)) ltac:(lia)).
  unfold eval_arith, absop, alu, signed_mod. rewrite Ht, (proj2 (Z.eqb_neq b 0) Hb0).
  rewrite (proj2 (Z.eqb_neq (Z.abs (s64 b)) 0)) by lia.
  destruct Hop as [-> | ->]; simpl; (split; [|done]); f_equal.
  - rewrite Z.quot_div by done.
    destruct (Z.ltb_spec (s64 a) 0), (Z.ltb_spec (s64 b) 0); simpl;
      first [rewrite (Z.sgn_neg (s64 b)) by lia|rewrite (Z.sgn_pos (s64 b)) by lia].
    + rewrite Z.sgn_neg by lia. rewrite wrapu_small; lia.
    + rewrite Z.sgn_neg by lia. f_equal; lia.
    + destruct (Z.eq_dec (s64 a) 0) as [-> |]; [done|]. rewrite Z.sgn_pos by lia. f_equal; lia.
    + destruct (Z.eq_dec (s64 a) 0) as [-> |]; [done|]. rewrite Z.sgn_pos by lia.
      rewrite wrapu_small; lia.
  - destruct (eqb _ _); [|done]. apply wrapu_small. lia.
Qed.

Lemma alu_range op a b v : in64 a -> in64 b -> alu op a b = Some v -> in64 v.
Proof.
  intros Ha Hb. unfold alu.
  repeat (case_match; [intros [= <-]|]); try done; try (by auto with cint).
  - destruct (b =? 0) eqn:E; b2p; [lia|]. split; [apply Z.div_pos; lia|]. apply Z.div_lt_upper_bound; nia.
  - pose proof (Z.mod_pos_bound b 64). rewrite Z.shiftr_div_pow2 by lia.
    pose proof (pow2_pos (b `mod` 64)). split; [apply Z.div_pos; lia|]. apply Z.div_lt_upper_bound; nia.
  - destruct (b =? 0) eqn:E; b2p; [lia|]. pose proof (Z.mod_pos_bound a b). lia.
Qed.

(** ** Running generated code *)

Section Sim.
Context (N : nat) (HN : (2 <= N < 10)%nat).
Variable fp : Z.
Hypothesis Hfp : fp `mod` 8 = 0 /\ 0 <= fp < 2 ^ 64.
(** The memory outside the spill slots, and what calls do. *)
Variable mem0 : Z -> Z.
Variable call : bpf_insn -> mstate -> option mstate.
Variables id_PC id_probe_error : dt_ident.

Abbreviation rg := (Cg.rg N).
Abbreviation stk := (Cg.stk N fp).
Abbreviation is_slot := (Cg.is_slot N fp).

Definition base (m : mstate) : Prop :=
  m_reg m BPF_REG_FP = fp /\ forall a, ~ is_slot a -> m_mem m a = mem0 a.
Definition inv (k : nat) (vs : list Z) (m : mstate) : Prop := stk k vs m /\ base m.

Definition runs (P : list dt_irnode) (x y : nat * mstate) : Prop :=
  rtc (bstep (ir_fetch P) (ir_target P) call) x y.

#[export] Instance runs_preorder P : PreOrder (runs P).
Proof. split; [intros x; apply rtc_refl|intros x y z; unfold runs; apply transitivity]. Qed.

Lemma runs_step P k m y k' m' :
  step (ir_fetch P) (ir_target P) call k m = Next k' m' -> runs P (k', m') y -> runs P (k, m) y.
Proof. intros Hs Hr. apply (rtc_l _ _ (k', m')); [exact Hs|exact Hr]. Qed.

(** The probe ends with a call that reports fault [DTRACEFLT_DIVZERO]. *)
Definition faults (P : list dt_irnode) (x : nat * mstate) : Prop :=
  exists k m, runs P x (k, m) /\
    ir_fetch P k = Some (BPF_CALL_FUNC (di_id id_probe_error)) /\
    m_reg m 1 = mem0 (u64 (fp - 8)) /\ m_reg m 3 = DTRACEFLT_DIVZERO /\ m_reg m 4 = 0 /\
    ir_fetch P (S k) = Some BPF_RETURN.

Lemma faults_after P x y : runs P x y -> faults P y -> faults P x.
Proof. intros Hr (k & m & Hy & H). exists k, m. split; [by etrans|done]. Qed.

Lemma rg_lt10 i : rg i <> BPF_REG_FP.
Proof. pose proof (rg_range N HN i). lia. Qed.

Lemma base_set_reg m r v : r <> BPF_REG_FP -> base m -> base (set_reg m r v).
Proof.
  intros Hr [Hf Hm]. split; [|done]. simpl. unfold upd. by rewrite (proj2 (Z.eqb_neq _ _)) by congruence.
Qed.

Lemma base_set_slot m i v : base m -> base (set_mem m (slot fp (rg i)) v).
Proof.
  intros [Hf Hm]. split; [done|]. intros a Ha. simpl. unfold upd.
  destruct (Z.eqb_spec a (slot fp (rg i))) as [->|]; [|auto].
  destruct Ha. exists (rg i). split; [|done]. by apply rg_range.
Qed.

(** The top values of the stack are in their registers, and may be changed. *)
Lemma inv_get k vs m i v : inv k vs m -> vs !! i = Some v -> (k <= i + N)%nat -> m_reg m (rg i) = v.
Proof. intros [Hs _]. by apply (stk_reg N fp). Qed.

Lemma inv_set k vs m i v :
  inv k vs m -> (k <= 2 * N)%nat -> (length vs <= k)%nat -> (i < length vs)%nat -> (k <= i + N)%nat ->
  inv k (<[i := v]> vs) (set_reg m (rg i) v).
Proof.
  intros [Hs Hb] ????. split; [by apply (stk_update N HN fp)|]. apply base_set_reg; [apply rg_lt10|done].
Qed.

Lemma inv_drop k vs w m : inv k (vs ++ w) m -> inv k vs m.
Proof. intros [Hs Hb]. split; [|done]. eapply stk_prefix; [|done]. by eexists. Qed.

Lemma inv_shrink n vs m : (n < N)%nat -> length vs = n -> inv (S n) vs m -> inv n vs m.
Proof. intros ?? [Hs Hb]. split; [by apply (stk_shrink N HN fp)|done]. Qed.

Section Top.
Variables (n : nat) (vs : list Z) (m : mstate) (a b : Z).
Hypothesis Hlen : length vs = n.

Lemma inv_top : inv (S n) (vs ++ [a]) m -> m_reg m (rg n) = a.
Proof. intros H. eapply inv_get; [done| |lia]. subst n. by rewrite list_lookup_middle. Qed.

Lemma inv_top_l : inv (S (S n)) (vs ++ [a; b]) m -> m_reg m (rg n) = a.
Proof. intros H. eapply inv_get; [done| |lia]. subst n. by rewrite list_lookup_middle. Qed.

Lemma inv_top_r : inv (S (S n)) (vs ++ [a; b]) m -> m_reg m (rg (S n)) = b.
Proof.
  intros H. eapply inv_get; [done| |lia]. subst n.
  rewrite lookup_app_r by lia. by replace (S (length vs) - length vs)%nat with 1%nat by lia.
Qed.

Lemma inv_set_top v : (n < 2 * N)%nat -> inv (S n) (vs ++ [a]) m -> inv (S n) (vs ++ [v]) (set_reg m (rg n) v).
Proof.
  intros Hn H. replace (vs ++ [v]) with (<[n := v]> (vs ++ [a]))
    by (subst n; by rewrite insert_app_r_alt, Nat.sub_diag).
  apply inv_set; [done|lia|rewrite length_app; simpl; lia..|lia].
Qed.

Lemma inv_set_l v : (S n < 2 * N)%nat ->
  inv (S (S n)) (vs ++ [a; b]) m -> inv (S (S n)) (vs ++ [v; b]) (set_reg m (rg n) v).
Proof.
  intros Hn H. replace (vs ++ [v; b]) with (<[n := v]> (vs ++ [a; b]))
    by (subst n; by rewrite insert_app_r_alt, Nat.sub_diag).
  apply inv_set; [done|lia|rewrite length_app; simpl; lia..|lia].
Qed.

Lemma inv_set_r v : (S n < 2 * N)%nat ->
  inv (S (S n)) (vs ++ [a; b]) m -> inv (S (S n)) (vs ++ [a; v]) (set_reg m (rg (S n)) v).
Proof.
  intros Hn H. replace (vs ++ [a; v]) with (<[S n := v]> (vs ++ [a; b])).
  2: { subst n. rewrite insert_app_r_alt by lia.
       by replace (S (length vs) - length vs)%nat with 1%nat by lia. }
  apply inv_set; [done|lia|rewrite length_app; simpl; lia..|lia].
Qed.

Lemma inv_push v : (n < 2 * N)%nat -> inv (S n) vs m -> inv (S n) (vs ++ [v]) (set_reg m (rg n) v).
Proof.
  intros Hn [Hs Hb]. split; [by apply (stk_push N HN fp)|]. apply base_set_reg; [apply rg_lt10|done].
Qed.
End Top.

(** ** Allocation and release *)

(** [n] registers are outstanding, in stack order. *)
Record ok (s : cgs) (n : nat) : Prop := {
  ok_canon : canon N (cg_regs s) n;
  ok_store : dr_spill_store (cg_regs s) = dt_cg_spill_store;
  ok_load : dr_spill_load (cg_regs s) = dt_cg_spill_load;
  ok_lab : 0 < lab s;
}.

Lemma ok_emitle s n l i e : ok s n -> ok (cg_emitle s l i e) n.
Proof. by intros []. Qed.

Lemma ok_patch s n k i : ok s n -> ok (cg_patch s k i) n.
Proof. by intros []. Qed.

(** Between [s] and [s'] the code runs straight through, [f] relates the values. *)
Definition moves (s s' : cgs) (k k' : nat) (vs vs' : list Z) : Prop :=
  forall P m, hosts P s s' -> inv k vs m ->
    exists m', runs P (pc s, m) (pc s', m') /\ inv k' vs' m'.

Lemma moves_refl s drp k k' vs :
  (forall m, inv k vs m -> inv k' vs m) -> moves s (Cgs (cg_ir s) drp) k k' vs vs.
Proof. intros H P m _ Hi. exists m. split; [reflexivity|auto]. Qed.

Lemma slot_addr m i : base m -> addr_of m BPF_REG_FP (s16 (DT_STK_SPILL (rg i))) = slot fp (rg i).
Proof. intros [Hf _]. unfold addr_of. by rewrite Hf. Qed.

Lemma cg_alloc_ok s n : ok s n ->
  match cg_alloc s with
  | Err e => e = EDT_NOREG /\ (2 * N < n + 1)%nat
  | Ok (reg, s') => (n + 1 <= 2 * N)%nat /\ reg = rg n /\ ok s' (S n) /\ frag [] s s' /\ lab s' = lab s /\
      forall vs, length vs = n -> moves s s' n (S n) vs vs
  end.
Proof.
  intros [Hc Hst Hld Hl]. unfold cg_alloc.
  destruct (dt_regset_alloc (cg_regs s) (cg_ir s)) as [[drp dlp] reg] eqn:Ha.
  destruct (dt_regset_alloc_canon N HN _ _ _ _ _ _ Hc Ha) as [[-> ->]|(Hn & Hr & -> & Hc' & -> & Hst' & Hld')].
  { simpl. split; [done|lia]. }
  rewrite (proj2 (Z.eqb_neq _ _) Hr), Hst. split; [lia|]. split; [done|].
  destruct (Nat.leb_spec N n) as [Hge|Hlt].
  - split; [by split; simpl; congruence|]. split; [by apply frag_emit; [apply frag_refl|]|]. split; [done|].
    intros vs Hlen P m Hh [Hs Hb].
    apply (hosts_emitle P s s 0 (BPF_STORE BPF_DW BPF_REG_FP (DT_STK_SPILL (rg n)) (rg n)) None) in Hh as [_ [Hf _]];
      [|reflexivity].
    exists (set_mem m (slot fp (rg n)) (m_reg m (rg n))). split.
    + eapply runs_step; [|unfold dt_cg_spill_store, dt_cg_spill_load; rewrite pc_emit_ir; reflexivity].
      rewrite <- (slot_addr m n Hb). apply step_store; [done|].
      rewrite slot_addr by done. by apply (slot_aligned N HN fp Hfp), rg_range.
    + split; [by apply (stk_spill N HN fp)|by apply base_set_slot].
  - split; [by split; simpl; congruence|]. split; [apply (frag_regs [] s s), frag_refl|]. split; [done|].
    intros vs Hlen. apply moves_refl. intros m [Hs Hb]. split; [by apply (stk_grow N HN fp)|done].
Qed.

Lemma cg_free_ok s n : ok s (S n) ->
  exists s', cg_free s (rg n) = Ok s' /\ ok s' n /\ frag [] s s' /\ lab s' = lab s /\
    ((n < N)%nat -> code s' = code s) /\
    forall vs, length vs = n -> moves s s' (S n) n vs vs.
Proof.
  intros [Hc Hst Hld Hl]. unfold cg_free.
  destruct (dt_regset_free_canon N HN (cg_regs s) (cg_ir s) n Hc) as (drp & -> & Hc' & Hst' & Hld').
  eexists. split; [done|]. rewrite Hld. pose proof (cn_bound _ _ _ Hc).
  destruct (Nat.leb_spec N n) as [Hge|Hlt].
  - split; [by split; simpl; congruence|]. split; [by apply frag_emit; [apply frag_refl|]|]. split; [done|].
    split; [lia|]. intros vs Hlen P m Hh [Hs Hb].
    apply (hosts_emitle P s s 0 (BPF_LOAD BPF_DW (rg n) BPF_REG_FP (DT_STK_SPILL (rg n))) None) in Hh as [_ [Hf _]];
      [|reflexivity].
    exists (set_reg m (rg n) (m_mem m (slot fp (rg n)))). split.
    + eapply runs_step; [|unfold dt_cg_spill_store, dt_cg_spill_load; rewrite pc_emit_ir; reflexivity].
      rewrite <- (slot_addr m n Hb). apply step_load; [done|].
      rewrite slot_addr by done. by apply (slot_aligned N HN fp Hfp), rg_range.
    + split; [apply (stk_reload N HN fp); [lia|done..]|apply base_set_reg; [apply rg_lt10|done]].
  - split; [by split; simpl; congruence|]. split; [apply (frag_regs [] s s), frag_refl|]. split; [done|]. split; [done|].
    intros vs Hlen. apply moves_refl. intros m [Hs Hb]. split; [by apply (stk_shrink N HN fp)|done].
Qed.

(** ** What it is to generate code for a value *)

Definition ends (P : list dt_irnode) (k : nat) (m : mstate) (k' n : nat) (vs : list Z)
    (sem : option Z) : Prop :=
  match sem with
  | Some v => exists m', runs P (k, m) (k', m') /\ inv (S n) (vs ++ [v]) m'
  | None => faults P (k, m)
  end.

(** With [n] registers outstanding, [g] generates code for the value [sem]: it
    fails exactly when it needs more than the [2 * N] registers and slots there
    are, and uses [nl] labels; the code is right if [safe]. *)
Definition gen_ok (n need : nat) (nl : Z) (safe : Prop) (g : cgs -> cg_res (Z * cgs))
    (sem : option Z) : Prop :=
  forall s, ok s n -> lab s + nl <= 2 ^ 15 ->
  match g s with
  | Err e => e = EDT_NOREG /\ (2 * N < n + need)%nat
  | Ok (reg, s') =>
      (n + need <= 2 * N)%nat /\ reg = rg n /\ ok s' (S n) /\ frag [] s s' /\ lab s' = lab s + nl /\
      (safe -> forall P vs m, hosts P s s' -> length vs = n -> inv n vs m ->
         ends P (pc s) m (pc s') n vs sem)
  end.

Lemma ok_labelled s n : ok s n -> 0 < lab s < 2 ^ 15 -> ok (labelled s) n.
Proof. intros [] H. split; try done. rewrite lab_label by done. lia. Qed.

Lemma ends_after P k m k1 m1 k' n vs sem :
  runs P (k, m) (k1, m1) -> ends P k1 m1 k' n vs sem -> ends P k m k' n vs sem.
Proof.
  destruct sem as [v|]; simpl; [|by apply faults_after].
  intros Hr (m' & Hr' & Hi). exists m'. split; [by etrans|done].
Qed.

Lemma jcond_total op a b : is_branch_op op = true -> exists c, jcond op a b = Some c.
Proof.
  intros H. apply bool_decide_eq_true_1 in H. rewrite !elem_of_cons in H.
  repeat destruct H as [-> |H]; [by eexists..|by apply not_elem_of_nil in H].
Qed.

(** *** One instruction at a time *)

Section Steps.
Variables (P : list dt_irnode) (k : nat) (m : mstate) (k' n : nat) (vs : list Z) (sem : option Z).
Abbreviation E k m := (ends P k m k' n vs sem).

Lemma ends_step k1 m1 : step (ir_fetch P) (ir_target P) call k m = Next k1 m1 -> E k1 m1 -> E k m.
Proof. intros Hs. apply ends_after. eapply runs_step; [exact Hs|reflexivity]. Qed.

Lemma ends_alu_reg l op d r v :
  at_ P k l (BPF_ALU64_REG op d r) -> is_alu_op op = true ->
  alu op (m_reg m d) (m_reg m r) = Some v -> E (S k) (set_reg m d v) -> E k m.
Proof. intros [Hf _] Ho Hv. apply ends_step. by eapply step_alu_reg. Qed.

Lemma ends_alu_imm l op d x v :
  at_ P k l (BPF_ALU64_IMM op d x) -> is_alu_op op = true ->
  alu op (m_reg m d) (u64 (s32 x)) = Some v -> E (S k) (set_reg m d v) -> E k m.
Proof. intros [Hf _] Ho Hv. apply ends_step. by eapply step_alu_imm. Qed.

Lemma ends_mov_imm l d x :
  at_ P k l (BPF_MOV_IMM d x) -> E (S k) (set_reg m d (u64 (s32 x))) -> E k m.
Proof. intros H. by eapply ends_alu_imm. Qed.

Lemma ends_neg l d :
  at_ P k l (BPF_NEG_REG d) -> E (S k) (set_reg m d (u64 (- m_reg m d))) -> E k m.
Proof. intros [Hf _]. apply ends_step. by apply step_neg. Qed.

Lemma ends_nop l : at_ P k l BPF_NOP -> E (S k) m -> E k m.
Proof. intros [Hf _]. apply ends_step. by apply step_nop. Qed.

Lemma ends_setx l l' d x :
  at_ P k l (BPF_LDDW d x).1 -> at_ P (S k) l' (BPF_LDDW d x).2 ->
  E (S (S k)) (set_reg m d (u64 x)) -> E k m.
Proof. intros [Hf _] [Hf' _]. apply ends_step. by apply step_lddw. Qed.

Lemma ends_load l d r o :
  at_ P k l (BPF_LOAD BPF_DW d r o) -> aligned (addr_of m r (s16 o)) = true ->
  E (S k) (set_reg m d (m_mem m (addr_of m r (s16 o)))) -> E k m.
Proof. intros [Hf _] Ha. apply ends_step. by apply step_load. Qed.

Lemma ends_jump l lbl i t :
  at_ P k l (BPF_JUMP lbl) -> at_ P t lbl i -> 0 < lbl < 2 ^ 15 -> E t m -> E k m.
Proof.
  intros [Hf _] Ht Hl. apply ends_step. erewrite step_jump by done. eapply target_at; [done|lia].
Qed.

Lemma ends_branch_imm l op r x lbl b i t :
  at_ P k l (BPF_BRANCH_IMM op r x lbl) -> at_ P t lbl i -> 0 < lbl < 2 ^ 15 ->
  is_branch_op op = true -> jcond op (m_reg m r) (u64 (s32 x)) = Some b ->
  E (if b then t else S k) m -> E k m.
Proof.
  intros [Hf _] Ht Hl Ho Hj. apply ends_step. erewrite step_branch_imm by done.
  destruct b; [eapply target_at; [done|lia]|done].
Qed.

Lemma ends_branch_reg l op r1 r2 lbl b i t :
  at_ P k l (BPF_BRANCH_REG op r1 r2 lbl) -> at_ P t lbl i -> 0 < lbl < 2 ^ 15 ->
  is_branch_op op = true -> jcond op (m_reg m r1) (m_reg m r2) = Some b ->
  E (if b then t else S k) m -> E k m.
Proof.
  intros [Hf _] Ht Hl Ho Hj. apply ends_step. erewrite step_branch_reg by done.
  destruct b; [eapply target_at; [done|lia]|done].
Qed.
End Steps.

Lemma ends_done P k m n vs v : inv (S n) (vs ++ [v]) m -> ends P k m k n vs (Some v).
Proof. intros H. exists m. split; [reflexivity|done]. Qed.

(** Generate the code of an operand. *)
Ltac gen_step H s' :=
  lazymatch goal with
  | |- context [mbind _ (?g ?s)] =>
      specialize (H s ltac:(assumption) ltac:(rewrite ?lab_emitle; lia));
      destruct (g s) as [[? s']|?]; [|destruct H as [-> H]; split; [done|lia]];
      let E := fresh "E" in
      destruct H as (? & -> & ? & ? & E & H); rewrite ?lab_emitle in E; cbn [mbind result_bind];
      lazymatch goal with
      | K : ok s' _ |- _ => let B := fresh "Hbd" in pose proof (cn_bound _ _ _ (ok_canon _ _ K)) as B
      end
  end.
(** Hand out a label. *)
Ltac label_step s :=
  lazymatch goal with
  | Hok : ok s ?n |- _ =>
      rewrite (cg_label_eq s);
      let E := fresh "E" in let K := fresh "Hok" in
      pose proof (lab_label s ltac:(pose proof (ok_lab _ _ Hok); lia)) as E;
      pose proof (ok_labelled s n Hok ltac:(pose proof (ok_lab _ _ Hok); lia)) as K;
      lazymatch goal with
      | H : frag _ _ s |- _ => apply frag_label in H; [|lia]
      | _ => pose proof (frag_label [] s s ltac:(pose proof (ok_lab _ _ Hok); lia) (frag_refl s))
      end
  end.
Ltac free_step s s' :=
  lazymatch goal with
  | |- context [cg_free ?t (Cg.rg N ?n)] =>
      let E := fresh "E" in let F := fresh "Hfree" in let C := fresh "Hsame" in
      destruct (cg_free_ok t n) as (s' & -> & ? & ? & E & C & F);
      [repeat apply ok_emitle; assumption|]; rewrite ?lab_emitle in E; cbn [mbind result_bind]
  end.
(** Run the code of an operand. *)
Ltac run_operand H Hsafe Hi :=
  lazymatch type of Hi with
  | inv ?n ?vs ?m =>
      let a := fresh "a" in let Hr := fresh "Hrun" in let Hi' := fresh "Hi" in let m' := fresh "m" in
      specialize (H Hsafe _ vs m ltac:(eassumption) ltac:(rewrite ?length_app; simpl; lia) Hi);
      lazymatch type of H with
      | ends _ _ _ _ _ _ ?sem => destruct sem as [a|]; [|exact H]
      end;
      destruct H as (m' & Hr & Hi'); rewrite ?pc_labelled, ?pc_emitle in Hr; eapply ends_after; [exact Hr|];
      cbn [mbind option_bind]
  end.
Ltac run_free H Hi :=
  lazymatch type of Hi with
  | inv ?n ?vs ?m =>
      let Hr := fresh "Hrun" in let Hi' := fresh "Hi" in let m' := fresh "m" in
      destruct (H vs ltac:(rewrite ?length_app; simpl; lia) _ m ltac:(eassumption) Hi) as (m' & Hr & Hi');
      rewrite ?pc_labelled, ?pc_emitle in Hr; eapply ends_after; [exact Hr|]
  end.

Lemma dt_cg_compare_op_ok n needl needr nl nr safel safer left right op sl sr :
  is_branch_op op = true -> 0 <= nl -> 0 <= nr ->
  gen_ok n needl nl safel left sl -> gen_ok (S n) needr nr safer right sr ->
  gen_ok n (needl `max` S needr) (2 + nl + nr) (safel /\ safer /\ (S n < N)%nat)
    (dt_cg_compare_op left right op)
    (a ← sl; b ← sr; c ← jcond op a b; Some (u64_of_bool c)).
Proof.
  intros Hop Hnl Hnr Hl Hr s Hok Hlab. pose proof (ok_lab _ _ Hok) as H0.
  unfold dt_cg_compare_op. label_step s. label_step (labelled s). emits.
  set (s2 := labelled (labelled s)) in *.
  gen_step Hl s3. gen_step Hr s4. free_step s4 s5.
  split; [lia|]. split; [done|]. split; [by repeat apply ok_emitle|]. split; [|split; [rewrite !lab_emitle; lia|]].
  { solve_frag. }
  intros (Hsl & Hsr & Hd) P vs m Hh Hlen Hi. peel Hh.
  split_at (cg_emitle s4 0 (BPF_BRANCH_REG op (rg n) (rg (S n)) (lab s)) None) Hh Hh5. peel Hh.
  split_at s3 Hh Hh4. split_at s2 Hh Hh3.
  norm. run_operand Hl Hsl Hi. run_operand Hr Hsr Hi0. rewrite <- app_assoc in Hi1. simpl in Hi1.
  destruct (jcond_total op a a0 Hop) as [c Hc]. rewrite Hc.
  eapply ends_branch_reg; [eassumption|exact H10|lia|done| |].
  { rewrite (inv_top_l n vs m1 a a0), (inv_top_r n vs m1 a a0) by done. exact Hc. }
  assert (inv (S (S n)) (vs ++ [a]) m1) as Hi2 by (by apply (inv_drop _ _ [a0]); rewrite <- app_assoc).
  destruct c.
  - eapply ends_mov_imm; [eassumption|]. eapply ends_nop; [eassumption|]. apply ends_done.
    apply (inv_set_top n vs m1 a Hlen 1); [lia|]. apply inv_shrink; [done|rewrite length_app; simpl; lia|done].
  - run_free Hfree Hi2.
    eapply ends_mov_imm; [eassumption|]. eapply ends_jump; [eassumption..|lia|].
    eapply ends_nop; [eassumption|]. apply ends_done. apply (inv_set_top n vs _ a Hlen 0); [lia|done].
Qed.

(** ** Faults *)

Lemma addr_dctx m : base m -> addr_of m BPF_REG_FP (s16 DT_STK_DCTX) = u64 (fp - 8).
Proof. intros [Hf _]. unfold addr_of. by rewrite Hf. Qed.

Lemma dctx_aligned : aligned (u64 (fp - 8)) = true.
Proof. apply (aligned_off N HN fp (-8)); [apply Hfp|done]. Qed.

Lemma dctx_not_slot : ~ is_slot (u64 (fp - 8)).
Proof.
  intros (r & Hr & He). unfold slot in He. rewrite (spill_off N HN) in He by done.
  unfold wrapu in He.
  pose proof (Z.div_mod (fp - 8) (2 ^ 64)). pose proof (Z.div_mod (fp + (-24 - 8 * r)) (2 ^ 64)). lia.
Qed.

Lemma probe_error_static s n :
  ok s n ->
  let s' := dt_cg_probe_error id_PC id_probe_error s DTRACEFLT_DIVZERO false 0 in
  ok s' n /\ frag [] s s' /\ lab s' = lab s /\ pc s' = (7 + pc s)%nat.
Proof.
  intros Hok. cbn zeta. unfold dt_cg_probe_error, dt_cg_access_dctx. emits.
  change (-1 =? -1) with true. cbn [andb]. cbv iota.
  split; [by repeat apply ok_emitle|]. split; [solve_frag|]. split; [done|]. by rewrite !pc_emitle.
Qed.

Lemma probe_error_faults P s s1 m :
  pre s1 s -> hosts P s1 (dt_cg_probe_error id_PC id_probe_error s DTRACEFLT_DIVZERO false 0) -> base m ->
  hosts P s1 s /\ faults P (pc s, m).
Proof.
  intros Hp Hh Hb. unfold dt_cg_probe_error, dt_cg_access_dctx in Hh. emits.
  change (-1 =? -1) with true in Hh. cbn [andb] in Hh. cbv iota in Hh. peel Hh. norm. split; [done|].
  assert (forall m', m_mem m' = m_mem m -> m_reg m' BPF_REG_FP = fp ->
    m_mem m' (addr_of m' BPF_REG_FP (s16 DT_STK_DCTX)) = mem0 (u64 (fp - 8)) /\
    aligned (addr_of m' BPF_REG_FP (s16 DT_STK_DCTX)) = true) as Hd.
  { intros m' Hm' Hf'. assert (base m') as Hb' by (split; [done|rewrite Hm'; apply Hb]).
    rewrite addr_dctx by done. split; [apply Hb', dctx_not_slot|apply dctx_aligned]. }
  assert (m_reg m BPF_REG_FP = fp) as Hf by apply Hb.
  set (m1 := set_reg m BPF_REG_4 (u64 (s32 0))).
  destruct (Hd m1 eq_refl Hf) as [Hv Ha].
  set (m2 := set_reg m1 BPF_REG_1 (m_mem m1 (addr_of m1 BPF_REG_FP (s16 DT_STK_DCTX)))).
  set (m3 := set_reg m2 BPF_REG_2 (u64 (s32 (-1)))).
  set (m4 := set_reg m3 BPF_REG_2 (u64 (u64 (s32 (-1)) + u64 (s32 3)))).
  exists (5 + pc s)%nat, (set_reg m4 BPF_REG_3 (u64 (s32 DTRACEFLT_DIVZERO))).
  split; [|split; [|split; [|split; [|split]]]]; [|apply H0|exact Hv|done|done|apply H].
  eapply runs_step; [eapply step_alu_imm; [apply H5|done|done]|].
  eapply runs_step; [eapply step_load; [apply H4|done]|].
  eapply runs_step; [eapply step_alu_imm; [apply H3|done|done]|].
  eapply runs_step; [eapply step_alu_imm; [apply H2|done|done]|].
  eapply runs_step; [eapply step_alu_imm; [apply H1|done|done]|]. reflexivity.
Qed.

(** The instructions of [signed_divmod] after the test for zero, at [q]. *)
Section Divmod.
Variables (P : list dt_irnode) (q n : nat) (op L1 L2 L3 L4 L5 : Z) (vs : list Z).
Hypothesis Hlen : length vs = n.
Hypothesis Hn : (S n < 2 * N)%nat.
Hypothesis HL : 0 < L1 < 2 ^ 15 /\ 0 < L2 < 2 ^ 15 /\ 0 < L3 < 2 ^ 15 /\ 0 < L4 < 2 ^ 15 /\ 0 < L5 < 2 ^ 15.
Abbreviation l := (rg n).
Abbreviation r := (rg (S n)).
Hypothesis A1 : at_ P (1 + q) 0 (BPF_BRANCH_IMM BPF_JSLT l 0 L3).
Hypothesis A2 : at_ P (2 + q) 0 (BPF_BRANCH_IMM BPF_JSLT r 0 L1).
Hypothesis A3 : at_ P (3 + q) 0 (BPF_JUMP L4).
Hypothesis A4 : at_ P (4 + q) L1 (BPF_NEG_REG r).
Hypothesis A5 : at_ P (5 + q) L2 (BPF_ALU64_REG op l r).
Hypothesis A6 : at_ P (6 + q) 0 (BPF_NEG_REG l).
Hypothesis A7 : at_ P (7 + q) 0 (BPF_JUMP L5).
Hypothesis A8 : at_ P (8 + q) L3 (BPF_NEG_REG l).
Hypothesis A9 : at_ P (9 + q) 0 (BPF_BRANCH_IMM BPF_JSGE r 0 L2).
Hypothesis A10 : at_ P (10 + q) 0 (BPF_NEG_REG r).
Hypothesis A11 : at_ P (11 + q) L4 (BPF_ALU64_REG op l r).
Hypothesis A12 : at_ P (12 + q) L5 BPF_NOP.
Hypothesis Hop : is_alu_op op = true.

Variables (x y v : Z).
Hypothesis Hv : alu op x y = Some v.
Abbreviation two m a b := (inv (S (S n)) (vs ++ [a; b]) m).
Abbreviation E k m v := (ends P (k + q) m (13 + q) (S n) (vs ++ [v]) (Some y)).

Lemma two_l m a b : two m a b -> m_reg m l = a.
Proof. by apply inv_top_l. Qed.
Lemma two_r m a b : two m a b -> m_reg m r = b.
Proof. by apply inv_top_r. Qed.
Lemma ends_two m w : two m w y -> E 13 m w.
Proof. intros H. apply ends_done. by rewrite <- app_assoc. Qed.
Lemma ends_neg_l k L m a b w : at_ P (k + q) L (BPF_NEG_REG l) -> two m a b ->
  (forall m', two m' (u64 (- a)) b -> E (S k) m' w) -> E k m w.
Proof.
  intros Ha Hi H. eapply ends_neg; [exact Ha|]. apply H. rewrite (two_l m a b) by done.
  eapply inv_set_l; [done|lia|exact Hi].
Qed.
Lemma ends_neg_r k L m a b w : at_ P (k + q) L (BPF_NEG_REG r) -> two m a b ->
  (forall m', two m' a (u64 (- b)) -> E (S k) m' w) -> E k m w.
Proof.
  intros Ha Hi H. eapply ends_neg; [exact Ha|]. apply H. rewrite (two_r m a b) by done.
  eapply inv_set_r; [done|lia|exact Hi].
Qed.
Lemma ends_op k L m w : at_ P (k + q) L (BPF_ALU64_REG op l r) -> two m x y ->
  (forall m', two m' v y -> E (S k) m' w) -> E k m w.
Proof.
  intros Ha Hi H. eapply ends_alu_reg; [exact Ha|done| |].
  - rewrite (two_l m x y), (two_r m x y) by done. exact Hv.
  - apply H. eapply inv_set_l; [done|lia|exact Hi].
Qed.

Lemma divmod_negated m : two m x y -> E 5 m (u64 (- v)).
Proof.
  intros Hi. eapply ends_op; [exact A5|exact Hi|]. intros m1 Hi1.
  eapply (ends_neg_l 6); [exact A6|exact Hi1|]. intros m2 Hi2.
  eapply ends_jump; [exact A7|exact A12|lia|]. eapply ends_nop; [exact A12|]. by apply ends_two.
Qed.

Lemma divmod_plain m : two m x y -> E 11 m v.
Proof.
  intros Hi. eapply ends_op; [exact A11|exact Hi|]. intros m1 Hi1.
  eapply ends_nop; [exact A12|]. by apply ends_two.
Qed.

Lemma divmod_run m a b :
  in64 a -> in64 b -> x = Z.abs (s64 a) -> y = Z.abs (s64 b) -> two m a b ->
  E 1 m (if eqb (s64 a <? 0) (s64 b <? 0) then v else u64 (- v)).
Proof.
  intros Ha Hb Hx Hy Hi. rewrite abs_s64 in Hx, Hy by done.
  eapply (ends_branch_imm _ _ _ _ _ _ _ _ _ _ _ _ (s64 a <? 0)); [exact A1|exact A8|lia|done| |].
  { by rewrite (two_l m a b). }
  destruct (Z.ltb_spec (s64 a) 0).
  - eapply (ends_neg_l 8); [exact A8|exact Hi|]. intros m1 Hi1.
    eapply (ends_branch_imm _ _ _ _ _ _ _ _ _ _ _ _ (0 <=? s64 b)); [exact A9|exact A5|lia|done| |].
    { by rewrite (two_r m1 (u64 (- a)) b). }
    destruct (Z.leb_spec 0 (s64 b)), (Z.ltb_spec (s64 b) 0); try lia; rewrite <- ?Hx, <- ?Hy in *.
    + apply divmod_negated. by subst.
    + eapply (ends_neg_r 10); [exact A10|exact Hi1|]. intros m2 Hi2. apply divmod_plain. by subst.
  - eapply (ends_branch_imm _ _ _ _ _ _ _ _ _ _ _ _ (s64 b <? 0)); [exact A2|exact A4|lia|done| |].
    { by rewrite (two_r m a b). }
    destruct (Z.ltb_spec (s64 b) 0).
    + eapply (ends_neg_r 4); [exact A4|exact Hi|]. intros m2 Hi2. apply divmod_negated. by subst.
    + eapply ends_jump; [exact A3|exact A11|lia|]. apply divmod_plain. by subst.
Qed.
End Divmod.

Lemma signed_divmod_ok s n op t :
  (op = BPF_DIV \/ op = BPF_MOD) -> ty_signed t = true ->
  ok s (S (S n)) -> lab s + 6 <= 2 ^ 15 ->
  let s' := signed_divmod id_PC id_probe_error s op (rg n) (rg (S n)) in
  ok s' (S (S n)) /\ frag [] s s' /\ lab s' = lab s + 6 /\
  forall P vs m a b, hosts P s s' -> length vs = n -> in64 a -> in64 b ->
    inv (S (S n)) (vs ++ [a; b]) m ->
    match eval_arith t op a b with
    | None => faults P (pc s, m)
    | Some v => exists b', ends P (pc s) m (pc s') (S n) (vs ++ [v]) (Some b')
    end.
Proof.
  intros Hop Ht Hok Hlab. pose proof (ok_lab _ _ Hok) as H0. cbn zeta. unfold signed_divmod.
  pose proof (cn_bound _ _ _ (ok_canon _ _ Hok)) as Hn.
  label_step s. label_step (labelled s). label_step (labelled (labelled s)).
  label_step (labelled (labelled (labelled s))). label_step (labelled (labelled (labelled (labelled s)))).
  label_step (labelled (labelled (labelled (labelled (labelled s))))). emits.
  set (s1 := labelled s) in *. set (s2 := labelled s1) in *. set (s3 := labelled s2) in *.
  set (s4 := labelled s3) in *. set (s5 := labelled s4) in *. set (s6 := labelled s5) in *.
  assert (pc s6 = pc s) as Hpc6 by done. clearbody s6 s5 s4 s3 s2 s1.
  set (s7 := cg_emitle s6 _ _ _).
  destruct (probe_error_static s7 (S (S n)) ltac:(by apply ok_emitle)) as (Hok8 & Hf8 & E8 & Hpc8).
  assert (forall P m, hosts P s (dt_cg_probe_error id_PC id_probe_error s7 DTRACEFLT_DIVZERO false 0) ->
    base m -> hosts P s s7 /\ faults P (pc s7, m)) as Hpe.
  { intros P m. apply probe_error_faults. subst s7. solve_pre. }
  set (s8 := dt_cg_probe_error _ _ _ _ _ _) in *. clearbody s8. change (lab s7) with (lab s6) in E8.
  split; [by repeat apply ok_emitle|]. split; [|split; [rewrite !lab_emitle; lia|]].
  { subst s7. destruct Hop as [-> | ->]; solve_frag. }
  intros P vs m a b Hh Hlen Ha Hb Hi. subst s7. peel Hh.
  destruct (Hpe P m Hh (proj2 Hi)) as [Hh' Hfault]. clear Hpe Hh. peel Hh'. norm.
  rewrite Hpc6 in *. rewrite Hpc8 in *. clear Hok Hok0 Hok1 Hok2 Hok3 Hok4 Hok5 Hok8 Hf8 H Hpc8.
  destruct (Z.eqb_spec b 0) as [-> |Hb0].
  { replace (eval_arith t op a 0) with (@None Z)
      by (unfold eval_arith; rewrite Ht; by destruct Hop as [-> | ->]).
    change (ends P (pc s) m O n [] None).
    eapply (ends_branch_imm _ _ _ _ _ _ _ _ _ _ _ _ false); [eassumption|exact H13|lia|done| |exact Hfault].
    by rewrite (inv_top_r n vs m a 0). }
  destruct (eval_signed t op a b Hop Ht Ha Hb Hb0) as [-> Halu]. exists (Z.abs (s64 b)).
  eapply (ends_branch_imm _ _ _ _ _ _ _ _ _ _ _ _ true); [eassumption|exact H13|lia|done| |].
  { rewrite (inv_top_r n vs m a b) by done. change (Some (negb (b =? 0)) = Some true). by rewrite (proj2 (Z.eqb_neq b 0)). }
  eapply ends_nop; [exact H13|].
  eapply (divmod_run P (7 + S (pc s)) n op (lab s) (lab s1) (lab s2) (lab s3) (lab s4) vs Hlen ltac:(lia) ltac:(lia));
    try eassumption; [|done..]. by destruct Hop as [-> | ->].
Qed.

(** ** The operators *)

Abbreviation divmod t op := (((op =? BPF_MOD) || (op =? BPF_DIV)) && ty_signed t).
Abbreviation in64o o := (forall v, o = Some v -> in64 v).

Lemma alu_not_branch op a b : is_alu_op op = true ->
  is_branch (BPF_ALU64_REG op a b) = false /\ is_branch (BPF_ALU64_IMM op a b) = false.
Proof.
  intros H. apply bool_decide_eq_true_1 in H. rewrite !elem_of_cons in H.
  repeat destruct H as [-> |H]; [done..|by apply not_elem_of_nil in H].
Qed.

Lemma dt_cg_arithmetic_op_ok n needl needr nl nr safel safer left right t op sl sr :
  is_alu_op op = true -> 0 <= nl -> 0 <= nr -> in64o sl -> in64o sr ->
  gen_ok n needl nl safel left sl -> gen_ok (S n) needr nr safer right sr ->
  gen_ok n (needl `max` S needr) (nl + nr + if divmod t op then 6 else 0) (safel /\ safer)
    (dt_cg_arithmetic_op id_PC id_probe_error t left right op)
    (a ← sl; b ← sr; eval_arith t op a b).
Proof.
  intros Hop Hnl Hnr Hal Hbr Hl Hr s Hok Hlab. unfold dt_cg_arithmetic_op. pose proof (ok_lab _ _ Hok) as H0.
  assert (0 <= (if divmod t op then 6 else 0)) as H6 by (by destruct (divmod t op)).
  gen_step Hl s1. gen_step Hr s2.
  assert (exists s3, s3 = (if divmod t op then signed_divmod id_PC id_probe_error s2 op (rg n) (rg (S n))
    else cg_emit s2 (BPF_ALU64_REG op (rg n) (rg (S n)))) /\
    ok s3 (S (S n)) /\ frag [] s2 s3 /\ lab s3 = lab s2 + (if divmod t op then 6 else 0) /\
    forall P vs m a b, hosts P s2 s3 -> length vs = n -> in64 a -> in64 b ->
      inv (S (S n)) (vs ++ [a; b]) m ->
      match eval_arith t op a b with
      | None => faults P (pc s2, m)
      | Some v => exists b', ends P (pc s2) m (pc s3) (S n) (vs ++ [v]) (Some b')
      end) as (s3 & <- & Hok3 & Hf3 & E3 & Hs3).
  { eexists. split; [reflexivity|].
    assert (lab s2 + (if divmod t op then 6 else 0) <= 2 ^ 15) as Hlab2 by lia.
    destruct (divmod t op) eqn:Hd.
    - apply andb_true_iff in Hd as [Ho Ht].
      apply signed_divmod_ok; [|done..|lia]. apply orb_true_iff in Ho as [Ho|Ho]; b2p; auto.
    - emits. split; [by apply ok_emitle|]. split; [|split; [rewrite lab_emitle; lia|]].
      { apply frag_emit; [apply frag_refl|]. unfold branch_in. by rewrite (proj1 (alu_not_branch op _ _ Hop)). }
      intros P vs m a b Hh Hlen Ha Hb Hi. peel Hh. unfold eval_arith. rewrite Hd.
      destruct (alu_total op a b Hop) as [v Hv]. rewrite Hv. exists b. norm.
      eapply ends_alu_reg; [eassumption|done| |].
      { rewrite (inv_top_l n vs m a b), (inv_top_r n vs m a b) by done. exact Hv. }
      apply ends_done. rewrite <- app_assoc. eapply inv_set_l; [done|lia|exact Hi]. }
  free_step s3 s4. split; [lia|]. split; [done|]. split; [done|]. split; [solve_frag|]. split; [lia|].
  intros (Hsl & Hsr) P vs m Hh Hlen Hi. split_at s3 Hh Hh4. split_at s2 Hh Hh3. split_at s1 Hh Hh2.
  specialize (Hs3 P vs). run_operand Hl Hsl Hi. run_operand Hr Hsr Hi0. rewrite <- app_assoc in Hi1.
  specialize (Hs3 m1 a a0 Hh3 Hlen (Hal _ eq_refl) (Hbr _ eq_refl) Hi1).
  destruct (eval_arith t op a a0) as [v|]; [|exact Hs3].
  destruct Hs3 as (b' & m2 & Hrun2 & Hi2). eapply ends_after; [exact Hrun2|].
  apply inv_drop in Hi2. run_free Hfree Hi2. by apply ends_done.
Qed.

Lemma dt_cg_logical_neg_ok n need nl safe child sc :
  0 <= nl -> gen_ok n need nl safe child sc ->
  gen_ok n need (2 + nl) safe (dt_cg_logical_neg child) (a ← sc; Some (u64_of_bool (a =? 0))).
Proof.
  intros Hnl Hc s Hok Hlab. unfold dt_cg_logical_neg. pose proof (ok_lab _ _ Hok) as H0.
  label_step s. label_step (labelled s). emits. set (s2 := labelled (labelled s)) in *.
  gen_step Hc s3. split; [lia|]. split; [done|]. split; [by repeat apply ok_emitle|].
  split; [solve_frag|]. split; [rewrite !lab_emitle; lia|].
  intros Hs P vs m Hh Hlen Hi. peel Hh. split_at s2 Hh Hh3. norm. run_operand Hc Hs Hi.
  eapply (ends_branch_imm _ _ _ _ _ _ _ _ _ _ _ _ (a =? 0)); [eassumption..|lia|done|by rewrite (inv_top n vs m0 a)|].
  destruct (a =? 0).
  - eapply ends_mov_imm; [eassumption|]. eapply ends_nop; [eassumption|]. apply ends_done.
    apply (inv_set_top n vs m0 a Hlen 1); [lia|done].
  - eapply ends_mov_imm; [eassumption|]. eapply ends_jump; [eassumption..|lia|].
    eapply ends_nop; [eassumption|]. apply ends_done. apply (inv_set_top n vs m0 a Hlen 0); [lia|done].
Qed.

Lemma dt_cg_setx_eq s r x : dt_cg_setx s r x =
  cg_emitle (cg_emitle s DT_LBL_NONE (BPF_LDDW r x).1 None) DT_LBL_NONE (BPF_LDDW r x).2 None.
Proof. done. Qed.

(** The next instruction is a conditional branch, with condition [c]. *)
Ltac branch c :=
  lazymatch goal with
  | A : at_ ?P ?k _ (BPF_BRANCH_IMM _ _ _ ?lbl), T : at_ ?P _ ?lbl _ |- ends ?P ?k _ _ _ _ _ =>
      eapply (ends_branch_imm _ _ _ _ _ _ _ _ _ _ _ _ c); [exact A|exact T|lia|done| |]
  end.
Ltac set_top H v := apply (inv_set_top _ _ _ _ ltac:(eassumption) v) in H; [|lia].

Lemma dt_cg_logical_and_ok n needl needr nl nr safel safer left right sl sr :
  0 <= nl -> 0 <= nr -> gen_ok n needl nl safel left sl -> gen_ok n needr nr safer right sr ->
  gen_ok n (needl `max` needr) (2 + nl + nr) (safel /\ safer) (dt_cg_logical_and left right)
    (a ← sl; if a =? 0 then Some 0 else b ← sr; Some (u64_of_bool (negb (b =? 0)))).
Proof.
  intros Hnl Hnr Hl Hr s Hok Hlab. unfold dt_cg_logical_and.
  pose proof (ok_lab _ _ Hok) as H0. label_step s. label_step (labelled s). emits.
  set (s2 := labelled (labelled s)) in *. gen_step Hl s3. free_step s3 s4. gen_step Hr s5. rewrite dt_cg_setx_eq.
  split; [lia|]. split; [done|]. split; [by repeat apply ok_emitle|].
  split; [solve_frag|]. split; [rewrite !lab_emitle; lia|].
  intros (Hsl & Hsr) P vs m Hh Hlen Hi. peel Hh. split_at s4 Hh Hh5.
  split_at (cg_emitle s3 0 (BPF_BRANCH_IMM BPF_JEQ (rg n) 0 (lab s)) None) Hh Hh4. peel Hh.
  split_at s2 Hh Hh3. norm. run_operand Hl Hsl Hi.
  assert (forall m' w v, v = 0 -> inv (S n) (vs ++ [w]) m' ->
    ends P (S (S (S (S (pc s5))))) m' (S (S (S (S (S (S (pc s5))))))) n vs (Some v)) as Hfalse.
  { intros m' w v -> Hi'. eapply ends_mov_imm; [eassumption|]. eapply ends_nop; [eassumption|].
    apply ends_done. by set_top Hi' 0. }
  branch (a =? 0); [by rewrite (inv_top n vs m0 a)|].
  destruct (a =? 0); [by eapply Hfalse|]. apply inv_drop in Hi0 as Hi1.
  run_free Hfree Hi1. run_operand Hr Hsr Hi2.
  branch (a0 =? 0); [by rewrite (inv_top n vs m2 a0)|]. destruct (a0 =? 0); [by eapply Hfalse|].
  eapply ends_setx; [eassumption..|]. eapply ends_jump; [eassumption..|lia|].
  eapply ends_nop; [eassumption|]. apply ends_done. by set_top Hi3 1.
Qed.

Lemma dt_cg_logical_or_ok n needl needr nl nr safel safer left right sl sr :
  0 <= nl -> 0 <= nr -> gen_ok n needl nl safel left sl -> gen_ok n needr nr safer right sr ->
  gen_ok n (needl `max` needr) (3 + nl + nr) (safel /\ safer) (dt_cg_logical_or left right)
    (a ← sl; if negb (a =? 0) then Some 1 else b ← sr; Some (u64_of_bool (negb (b =? 0)))).
Proof.
  intros Hnl Hnr Hl Hr s Hok Hlab. unfold dt_cg_logical_or.
  pose proof (ok_lab _ _ Hok) as H0. label_step s. label_step (labelled s). label_step (labelled (labelled s)).
  emits. set (s2 := labelled (labelled (labelled s))) in *. gen_step Hl s3. free_step s3 s4. gen_step Hr s5.
  split; [lia|]. split; [done|]. split; [by repeat apply ok_emitle|].
  split; [solve_frag|]. split; [rewrite !lab_emitle; lia|].
  intros (Hsl & Hsr) P vs m Hh Hlen Hi. peel Hh. split_at s4 Hh Hh5.
  split_at (cg_emitle s3 0 (BPF_BRANCH_IMM BPF_JNE (rg n) 0 (lab s)) None) Hh Hh4. peel Hh.
  split_at s2 Hh Hh3. norm. run_operand Hl Hsl Hi.
  assert (forall m' w v, v = 1 -> inv (S n) (vs ++ [w]) m' ->
    ends P (S (pc s5)) m' (S (S (S (S (S (pc s5)))))) n vs (Some v)) as Htrue.
  { intros m' w v -> Hi'. eapply ends_mov_imm; [eassumption|]. eapply ends_jump; [eassumption..|lia|].
    eapply ends_nop; [eassumption|]. apply ends_done. by set_top Hi' 1. }
  branch (negb (a =? 0)); [by rewrite (inv_top n vs m0 a)|].
  destruct (negb (a =? 0)); [by eapply Htrue|]. apply inv_drop in Hi0 as Hi1.
  run_free Hfree Hi1. run_operand Hr Hsr Hi2.
  branch (a0 =? 0); [by rewrite (inv_top n vs m2 a0)|]. destruct (a0 =? 0); [|by eapply Htrue].
  eapply ends_mov_imm; [eassumption|]. eapply ends_nop; [eassumption|]. apply ends_done. by set_top Hi3 0.
Qed.

Lemma dt_cg_logical_xor_ok n needl needr nl nr safel safer left right sl sr :
  0 <= nl -> 0 <= nr -> gen_ok n needl nl safel left sl -> gen_ok (S n) needr nr safer right sr ->
  gen_ok n (needl `max` S needr) (2 + nl + nr) (safel /\ safer) (dt_cg_logical_xor left right)
    (a ← sl; b ← sr; Some (u64_of_bool (xorb (negb (a =? 0)) (negb (b =? 0))))).
Proof.
  intros Hnl Hnr Hl Hr s Hok Hlab. unfold dt_cg_logical_xor.
  pose proof (ok_lab _ _ Hok) as H0. label_step s. label_step (labelled s).
  emits. set (s2 := labelled (labelled s)) in *. gen_step Hl s3. rewrite dt_cg_setx_eq.
  set (s4 := cg_emitle (cg_emitle _ _ _ None) (lab s) BPF_NOP None).
  assert (ok s4 (S n)) as Hok4 by (by repeat apply ok_emitle).
  assert (lab s4 = lab s3) as E4 by done.
  gen_step Hr s5. rewrite dt_cg_setx_eq. free_step s5 s6.
  split; [lia|]. split; [done|]. split; [done|]. subst s4. split; [solve_frag|]. split; [lia|].
  intros (Hsl & Hsr) P vs m Hh Hlen Hi. split_last Hh Hh6. peel Hh. split_last Hh Hh5. peel Hh.
  split_last Hh Hh3. norm. run_operand Hl Hsl Hi.
  assert (ends P (pc s3) m0 (S (S (S (S (pc s3))))) n vs (Some (u64_of_bool (negb (a =? 0)))))
    as (m1 & Hrun1 & Hi1).
  { branch (a =? 0); [by rewrite (inv_top n vs m0 a)|]. destruct (Z.eqb_spec a 0) as [-> |].
    - eapply ends_nop; [eassumption|]. by apply ends_done.
    - eapply ends_setx; [eassumption..|]. eapply ends_nop; [eassumption|]. apply ends_done. by set_top Hi0 1. }
  eapply ends_after; [exact Hrun1|]. run_operand Hr Hsr Hi1. rewrite <- app_assoc in Hi2. cbn [app] in Hi2.
  set (x := u64_of_bool (negb (a =? 0))) in *.
  assert (forall m' w v, v = Z.lxor x w -> inv (S (S n)) (vs ++ [x; w]) m' ->
    ends P (S (S (S (pc s5)))) m' (pc s6) n vs (Some v)) as Htail.
  { intros m' w v -> Hi'. eapply ends_alu_reg; [eassumption|done..|].
    rewrite (inv_top_l n vs m' x w), (inv_top_r n vs m' x w) by done.
    apply (inv_set_l n vs m' x w Hlen (Z.lxor x w)) in Hi'; [|lia].
    change (vs ++ [Z.lxor x w; w]) with (vs ++ [Z.lxor x w] ++ [w]) in Hi'. rewrite app_assoc in Hi'.
    apply inv_drop in Hi'. run_free Hfree Hi'. by apply ends_done. }
  branch (a0 =? 0); [by rewrite (inv_top_r n vs m2 x a0)|]. destruct (Z.eqb_spec a0 0) as [-> |].
  - eapply Htail; [|exact Hi2]. subst x. by destruct (a =? 0).
  - eapply ends_setx; [eassumption..|]. eapply (Htail _ 1); [subst x; by destruct (a =? 0)|].
    by apply (inv_set_r n vs m2 x a0 Hlen 1) in Hi2; [|lia].
Qed.

Lemma dt_cg_ternary_op_ok n neede needl needr ne nl nr safee safel safer expr left right se sl sr :
  0 <= ne -> 0 <= nl -> 0 <= nr ->
  gen_ok n neede ne safee expr se -> gen_ok n needl nl safel left sl -> gen_ok n needr nr safer right sr ->
  gen_ok n (neede `max` needl `max` needr) (2 + ne + nl + nr)
    (safee /\ safel /\ safer /\ (n < N)%nat) (dt_cg_ternary_op expr left right)
    (a ← se; if negb (a =? 0) then sl else sr).
Proof.
  intros Hne Hnl Hnr He Hl Hr s Hok Hlab. unfold dt_cg_ternary_op.
  pose proof (ok_lab _ _ Hok) as H0. label_step s. label_step (labelled s). emits.
  set (s2 := labelled (labelled s)) in *. gen_step He s3. free_step s3 s4. gen_step Hl s5.
  free_step s5 s6.
  set (s7 := cg_emitle (cg_emitle s6 _ _ None) (lab s) BPF_NOP None).
  assert (ok s7 n) as Hok7 by (by repeat apply ok_emitle).
  assert (lab s7 = lab s6) as E7 by done.
  gen_step Hr s8. subst s7. change (length (code s5)) with (pc s5).
  set (k := pc s5). set (i := BPF_MOV_REG (rg n) (rg n)).
  assert (pre s s5) as Hp5 by solve_pre.
  assert (pre (cg_emitle s5 DT_LBL_NONE (BPF_MOV_IMM (rg n) 0) None) s8) as Hp8 by solve_pre.
  assert (frag [lab (labelled s)] s s8) as Hf8 by solve_frag.
  assert (pc s <= k)%nat as Hk by (by apply prefix_length).
  assert (frag [lab (labelled s)] s (cg_patch s8 k i)) as Hf9 by (by apply frag_patch).
  split; [lia|]. split; [done|]. split; [by apply ok_emitle, ok_patch|].
  split; [apply (frag_emitl [lab (labelled s)]); [done|done|lia|by intros ?]|].
  split; [rewrite lab_emitle; simpl; lia|].
  intros (Hse & Hsl & Hsr & Hd) P vs m Hh Hlen Hi. peel Hh. rewrite pc_patch in *.
  destruct (hosts_patch _ _ _ _ _ (IrNode DT_LBL_NONE (BPF_MOV_IMM (rg n) 0) None) Hh) as [Hat Hsub]; [|done|].
  { eapply prefix_lookup_Some; [|exact Hp8]. simpl. subst k. unfold pc. by rewrite list_lookup_middle. }
  assert (hosts P s s5) as Hh5.
  { apply Hsub; [lia| |lia]. etrans; [|exact Hp8]. by apply pre_emitle. }
  assert (hosts P (cg_emitle s5 DT_LBL_NONE (BPF_MOV_IMM (rg n) 0) None) s8) as Hh8.
  { apply Hsub; [rewrite pc_emitle; lia|done|right; rewrite pc_emitle; lia]. }
  clear Hsub Hh Hf8 Hf9 Hp8. split_last Hh8 Hh8'. peel Hh8.
  split_last Hh5 Hh5'. split_last Hh5 Hh4. peel Hh5. split_last Hh5 Hh3. clear Hp5.
  assert (pc s6 = S k) as Hpc6 by (unfold pc; rewrite Hsame0 by done; apply pc_emitle).
  subst k i. norm. rewrite pc_patch, Hpc6 in *. run_operand He Hse Hi.
  assert (inv n vs m0) as Hi1 by (apply inv_shrink; [done..|by eapply inv_drop]).
  branch (a =? 0); [by rewrite (inv_top n vs m0 a)|]. destruct (a =? 0); cbn [negb].
  - eapply ends_nop; [eassumption|]. run_operand Hr Hsr Hi1.
    eapply ends_nop; [eassumption|]. by apply ends_done.
  - assert (inv (S n) vs m0) as Hi2 by (by eapply inv_drop). run_free Hfree Hi2. run_operand Hl Hsl Hi3.
    eapply ends_alu_reg; [exact Hat|done..|]. eapply ends_jump; [eassumption|eassumption|lia|].
    eapply ends_nop; [eassumption|]. apply ends_done. rewrite (inv_top n vs m2 a0) by done.
    by set_top Hi4 a0.
Qed.

(** ** Constants, variables and conversions *)

Lemma gen_int_ok n t v : in64 v ->
  gen_ok n 1 0 True (dt_cg_node id_PC id_probe_error (NInt t v)) (Some (u64 v)).
Proof.
  intros Hv s Hok Hlab. cbn [dt_cg_node]. unfold cg_int. pose proof (cg_alloc_ok s n Hok) as Ha.
  destruct (cg_alloc s) as [[reg s1]|e]; [|exact Ha]. cbn [mbind result_bind].
  destruct Ha as (Hn & -> & Hok1 & Hf1 & E1 & Ha).
  assert (forall P vs m s', hosts P s s1 -> length vs = n -> inv n vs m ->
    (forall m', inv (S n) vs m' -> ends P (pc s1) m' (pc s') n vs (Some (u64 v))) ->
    ends P (pc s) m (pc s') n vs (Some (u64 v))) as Hrun.
  { intros P vs m s' Hh Hlen Hi H. destruct (Ha vs Hlen P m Hh Hi) as (m' & Hr & Hi').
    eapply ends_after; [exact Hr|]. by apply H. }
  destruct (Z.ltb_spec 2147483647 v); rewrite ?dt_cg_setx_eq; emits;
    (split; [lia|]; split; [done|]; split; [by repeat apply ok_emitle|]; split; [solve_frag|];
     split; [rewrite !lab_emitle; lia|]; intros _ P vs m Hh Hlen Hi; peel Hh; eapply Hrun; [done..|];
     intros m' Hi'; norm).
  - eapply ends_setx; [eassumption..|]. apply ends_done. apply inv_push; [done|lia|done].
  - eapply ends_mov_imm; [eassumption|]. apply ends_done. rewrite (wraps_small 32 v) by lia.
    apply inv_push; [done|lia|done].
Qed.

(** Where the variables of a clause are. *)
Definition dctx_ptr : Z := mem0 (u64 (fp - 8)).
Definition vars_slot (is_local : bool) : Z := u64 (dctx_ptr + if is_local then DCTX_LVARS else DCTX_GVARS).
Definition var_addr (is_local : bool) (off : Z) : Z := u64 (mem0 (vars_slot is_local) + s16 off).
Definition env (is_local : bool) (off size : Z) : Z := load_bytes mem0 size (var_addr is_local off).

(** A variable of [size] bytes lies at a multiple of its size, in a word that is
    not a spill slot. *)
Definition var_ok (is_local : bool) (off size : Z) : Prop :=
  aligned (vars_slot is_local) = true /\ ~ is_slot (vars_slot is_local) /\
  var_addr is_local off `mod` size = 0 /\ ~ is_slot (var_addr is_local off - var_addr is_local off `mod` 8).

(** The integer types of variables. *)
Definition int_bits (t : ity) : Prop := ty_bits t ∈ [8; 16; 32; 64].

Lemma load_bytes_ext f g w a : f (a - a `mod` 8) = g (a - a `mod` 8) -> load_bytes f w a = load_bytes g w a.
Proof. intros H. unfold load_bytes. by rewrite H. Qed.

Lemma load_bytes_word f a : aligned a = true -> in64 (f a) -> load_bytes f 8 a = f a.
Proof.
  unfold aligned, load_bytes. intros H%Z.eqb_eq Hf. rewrite H, Z.sub_0_r, Z.shiftr_0_r. by apply wrapu_small.
Qed.

(** A left shift and a right shift by [sh] sign or zero extend the top value. *)
Lemma ends_shifts P q m n vs sgn a sh l l' :
  0 < sh < 64 -> length vs = n -> (n < 2 * N)%nat ->
  at_ P q l (BPF_ALU64_IMM BPF_LSH (rg n) sh) ->
  at_ P (S q) l' (BPF_ALU64_IMM (if sgn : bool then BPF_ARSH else BPF_RSH) (rg n) sh) ->
  inv (S n) (vs ++ [a]) m ->
  ends P q m (S (S q)) n vs (Some (if sgn then u64 (wraps (64 - sh) a) else wrapu (64 - sh) a)).
Proof.
  intros Hsh Hlen Hn H1 H2 Hi. assert (u64 (s32 sh) `mod` 64 = sh) as Ek.
  { rewrite (wraps_small 32 sh), wrapu_small by lia. apply Z.mod_small. lia. }
  eapply ends_alu_imm; [exact H1|done|done|].
  rewrite (inv_top n vs m a), Ek by done. set_top Hi (u64 (Z.shiftl a sh)).
  set (v := if sgn then _ else _).
  eapply (ends_alu_imm _ _ _ _ _ _ _ _ _ _ _ v); [exact H2|by destruct sgn| |apply ends_done; by set_top Hi v].
  rewrite (inv_top n vs _ (u64 (Z.shiftl a sh)) Hlen Hi). subst v. destruct sgn.
  - change (Some (u64 (Z.shiftr (s64 (u64 (Z.shiftl a sh))) (u64 (s32 sh) `mod` 64))) = Some (u64 (wraps (64 - sh) a))).
    by rewrite Ek, shift_sext by lia.
  - change (Some (Z.shiftr (u64 (Z.shiftl a sh)) (u64 (s32 sh) `mod` 64)) = Some (wrapu (64 - sh) a)).
    by rewrite Ek, shift_zext by lia.
Qed.

(** Loading [size] bytes, at a multiple of [size], into the register of their
    address. *)
Lemma ends_load_size P q k' n vs m size op l o a sem :
  bpf_ldst_size size = Ok op -> length vs = n -> (n < 2 * N)%nat -> (forall a, in64 (mem0 a)) ->
  at_ P q l (BPF_LOAD op (rg n) (rg n) o) -> addr_of m (rg n) (s16 o) `mod` size = 0 ->
  ~ is_slot (addr_of m (rg n) (s16 o) - addr_of m (rg n) (s16 o) `mod` 8) ->
  inv (S n) (vs ++ [a]) m ->
  (forall m', inv (S n) (vs ++ [load_bytes mem0 size (addr_of m (rg n) (s16 o))]) m' ->
     ends P (S q) m' k' n vs sem) ->
  ends P q m k' n vs sem.
Proof.
  intros Hsz Hlen Hn Hm Hat Ha Hs Hi Hk. pose proof (proj2 Hi) as [_ Hb].
  set (ad := addr_of m (rg n) (s16 o)) in *.
  assert (load_bytes (m_mem m) size ad = load_bytes mem0 size ad) as El by (by apply load_bytes_ext, Hb).
  unfold bpf_ldst_size in Hsz.
  destruct (Z.eqb_spec size 8) as [->|].
  - simpl in Hsz. injection Hsz as <-. apply Z.eqb_eq in Ha. fold (aligned ad) in Ha.
    eapply ends_load; [exact Hat|exact Ha|]. apply Hk. fold ad.
    assert (ad - ad `mod` 8 = ad) as E8 by (apply Z.eqb_eq in Ha; lia). rewrite E8 in Hs.
    rewrite (load_bytes_word mem0 ad Ha (Hm ad)). rewrite (Hb ad Hs). by set_top Hi (mem0 ad).
  - eapply ends_step; [eapply (step_load_narrow _ _ _ q m op size (rg n) (rg n) o); [|apply Hat|exact Ha]|].
    + destruct (Z.eqb_spec size 1) as [->|]; [injection Hsz as <-; by left|].
      destruct (Z.eqb_spec size 2) as [->|]; [injection Hsz as <-; right; by left|].
      destruct (Z.eqb_spec size 4) as [->|]; [injection Hsz as <-; right; by right|done].
    + fold ad. rewrite El. apply Hk. by set_top Hi (load_bytes mem0 size ad).
Qed.

Lemma load_bytes_range f w a : 0 < w -> 0 <= load_bytes f w a < 2 ^ (8 * w).
Proof. intros Hw. apply wrapu_range. lia. Qed.

Lemma dt_cg_load_var_ok n t is_local off :
  (forall a, in64 (mem0 a)) -> int_bits t -> var_ok is_local off (ty_size t) ->
  gen_ok n 1 0 True (λ s, dt_cg_load_var s t is_local off)
    (Some (var_value t (env is_local off (ty_size t)))).
Proof.
  intros Hm0 Ht (Hv1 & Hv2 & Hv3 & Hv4) s Hok Hlab. unfold dt_cg_load_var.
  pose proof (cg_alloc_ok s n Hok) as Ha.
  destruct (cg_alloc s) as [[reg s1]|e]; [|exact Ha]. cbn [mbind result_bind].
  destruct Ha as (Hn & -> & Hok1 & Hf1 & E1 & Ha).
  assert (exists op, bpf_ldst_size (ty_size t) = Ok op /\ 1 <= ty_size t <= 8 /\ ty_bits t = 8 * ty_size t /\
    is_branch (BPF_LOAD op (rg n) (rg n) off) = false) as (op & Hop & Hsz & Hbits & Hnb).
  { unfold int_bits in Ht. rewrite !elem_of_cons in Ht. unfold ty_size.
    repeat destruct Ht as [-> |Ht]; [eexists; split; [done|]; split; [vm_compute; split; discriminate|done]..|
      by apply not_elem_of_nil in Ht]. }
  rewrite Hop. cbn [mbind result_bind]. unfold dt_cg_access_dctx, dt_cg_promote.
  set (member := if is_local then DCTX_LVARS else DCTX_GVARS).
  assert (member =? -1 = false) as -> by (by destruct is_local).
  set (size := ty_size t) in *. emits.
  set (s4 := cg_emitle (cg_emitle (cg_emitle s1 _ _ _) _ _ _) _ _ _).
  assert (ok s4 (S n)) as Hok4 by (by repeat apply ok_emitle).
  assert (frag [] s s4) as Hf4.
  { subst s4. apply frag_emit; [solve_frag|]. unfold branch_in. by rewrite Hnb. }
  assert (lab s4 = lab s) as El by (subst s4; by rewrite !lab_emitle).
  assert (forall P vs m s' sem, hosts P s s4 -> length vs = n -> inv n vs m ->
    (forall m', inv (S n) (vs ++ [env is_local off size]) m' -> ends P (pc s4) m' (pc s') n vs sem) ->
    ends P (pc s) m (pc s') n vs sem) as Hrun.
  { intros P vs m s' sem Hh Hlen Hi Hk. subst s4. peel Hh. norm.
    destruct (Ha vs Hlen P m Hh Hi) as (m1 & Hr & Hi1). eapply ends_after; [exact Hr|].
    assert (s16 member = member) as Hmem by (by destruct is_local).
    assert (base m1) as Hb by apply Hi1.
    eapply ends_load; [eassumption|rewrite addr_dctx by done; apply dctx_aligned|].
    rewrite addr_dctx by done. rewrite (proj2 Hb _ dctx_not_slot). fold dctx_ptr.
    apply (inv_push n vs m1 Hlen dctx_ptr) in Hi1; [|lia]. set (m2 := set_reg m1 _ _) in *.
    assert (addr_of m2 (rg n) (s16 member) = vars_slot is_local) as Ea
      by (unfold addr_of; rewrite (inv_top n vs m2 dctx_ptr), Hmem by done; by destruct is_local).
    eapply ends_load; [eassumption|by rewrite Ea|]. rewrite Ea, (proj2 (proj2 Hi1) _ Hv2).
    set_top Hi1 (mem0 (vars_slot is_local)). set (m3 := set_reg m2 _ _) in *.
    assert (addr_of m3 (rg n) (s16 off) = var_addr is_local off) as Eb
      by (unfold addr_of; by rewrite (inv_top n vs m3 (mem0 (vars_slot is_local)))).
    eapply (ends_load_size _ _ _ n vs m3 size op);
      [done|done|lia|done|eassumption|by rewrite Eb..|exact Hi1|].
    rewrite Eb. exact Hk. }
  clearbody s4. pose proof (load_bytes_range mem0 size (var_addr is_local off) ltac:(lia)) as Hrg.
  fold (env is_local off size) in Hrg. rewrite <- Hbits in Hrg.
  unfold var_value. split; [lia|]. split; [done|].
  destruct (ty_signed t && (size <? 8)) eqn:Hp.
  - apply andb_true_iff in Hp as [Hsg Hlt%Z.ltb_lt]. rewrite Hsg.
    split; [by repeat apply ok_emitle|]. split; [by repeat (apply frag_emit; [|solve_branch])|].
    split; [rewrite !lab_emitle; lia|]. intros _ P vs m Hh Hlen Hi. peel Hh.
    eapply Hrun; [done..|]. intros m' Hi'. norm.
    replace (ty_bits t) with (64 - (8 - size) * 8) by lia.
    eapply (ends_shifts P _ m' n vs true); [lia|done|lia|eassumption..].
  - split; [done|]. split; [done|]. split; [lia|]. intros _ P vs m Hh Hlen Hi.
    eapply Hrun; [done..|]. intros m' Hi'.
    assert (u64 (if ty_signed t then wraps (ty_bits t) (env is_local off size)
       else wrapu (ty_bits t) (env is_local off size)) = env is_local off size) as ->; [|by apply ends_done].
    assert (in64 (env is_local off size)) as H64.
    { pose proof (Z.pow_le_mono_r 2 (ty_bits t) 64). lia. }
    destruct (ty_signed t); simpl in Hp.
    + apply Z.ltb_ge in Hp. assert (ty_bits t = 64) as -> by lia. rewrite wrapu_wraps by lia. by apply wrapu_small.
    + rewrite wrapu_small by (rewrite wrapu_small; lia). by apply wrapu_small.
Qed.

Lemma gen_alu_imm_ok n need nl safe g sem op x (f : Z -> Z) :
  is_alu_op op = true -> (forall a, alu op a (u64 (s32 x)) = Some (f a)) ->
  gen_ok n need nl safe g sem ->
  gen_ok n need nl safe (λ s, '(r, s) ← g s; Ok (r, cg_emit s (BPF_ALU64_IMM op r x))) (a ← sem; Some (f a)).
Proof.
  intros Hop Hf Hg s Hok Hlab. emits. gen_step Hg s1.
  split; [lia|]. split; [done|]. split; [by apply ok_emitle|].
  split; [apply frag_emit; [done|]|].
  { unfold branch_in. by rewrite (proj2 (alu_not_branch op (rg n) x Hop)). }
  split; [rewrite lab_emitle; lia|]. intros Hs P vs m Hh Hlen Hi. peel Hh. norm. run_operand Hg Hs Hi.
  eapply ends_alu_imm; [eassumption|done|by rewrite (inv_top n vs m0 a)|].
  apply ends_done. by set_top Hi0 (f a).
Qed.

Lemma gen_neg_ok n need nl safe g sem :
  gen_ok n need nl safe g sem ->
  gen_ok n need nl safe (λ s, '(r, s) ← g s; Ok (r, cg_emit s (BPF_NEG_REG r))) (a ← sem; Some (u64 (- a))).
Proof.
  intros Hg s Hok Hlab. emits. gen_step Hg s1.
  split; [lia|]. split; [done|]. split; [by apply ok_emitle|].
  split; [solve_frag|]. split; [rewrite lab_emitle; lia|].
  intros Hs P vs m Hh Hlen Hi. peel Hh. norm. run_operand Hg Hs Hi.
  eapply ends_neg; [eassumption|]. rewrite (inv_top n vs m0 a) by done.
  apply ends_done. by set_top Hi0 (u64 (- a)).
Qed.

Lemma gen_comma_ok n needl needr nl nr safel safer left right sl sr :
  0 <= nl -> 0 <= nr -> gen_ok n needl nl safel left sl -> gen_ok n needr nr safer right sr ->
  gen_ok n (needl `max` needr) (nl + nr) (safel /\ safer)
    (cg_comma left right) (a ← sl; sr).
Proof.
  intros Hnl Hnr Hl Hr s Hok Hlab. unfold cg_comma. gen_step Hl s1. free_step s1 s2.
  specialize (Hr s2 ltac:(done) ltac:(lia)). destruct (right s2) as [[r s3]|e].
  2: { destruct Hr as [-> Hr]. split; [done|lia]. }
  destruct Hr as (Hn & -> & Hok3 & Hf3 & E3 & Hr).
  split; [lia|]. split; [done|]. split; [done|]. split; [solve_frag|]. split; [lia|].
  intros [Hsl Hsr] P vs m Hh Hlen Hi. split_last Hh Hh3. split_last Hh Hh2.
  run_operand Hl Hsl Hi. apply inv_drop in Hi0. run_free Hfree Hi0. by apply Hr.
Qed.

Lemma gen_cast_ok n need nl safe g sem src dst :
  0 < ty_size dst <= 8 ->
  gen_ok n need nl safe g sem ->
  gen_ok n need nl safe (cg_cast src dst g)
    (a ← sem; Some (eval_cast src dst a)).
Proof.
  intros Hd Hg s Hok Hlab. unfold cg_cast. gen_step Hg s1. unfold dt_cg_typecast, eval_cast.
  set (k := (8 - ty_size dst) * 8). set (c := if k =? 0 then _ else _).
  assert (c = true -> 0 < k < 64) as Hk by (subst c; destruct (Z.eqb_spec k 0); subst k; [done|lia]).
  split; [lia|]. split; [done|].
  destruct c; [specialize (Hk eq_refl)|].
  - set (sh := if ty_signed dst then BPF_ARSH else BPF_RSH).
    assert (is_alu_op sh = true) as Hsh by (by subst sh; destruct (ty_signed dst)).
    emits. split; [by repeat apply ok_emitle|]. split.
    { apply frag_emit; [solve_frag|]. unfold branch_in. by rewrite (proj2 (alu_not_branch sh (rg n) k Hsh)). }
    split; [rewrite !lab_emitle; lia|]. intros Hs P vs m Hh Hlen Hi. peel Hh. norm. run_operand Hg Hs Hi.
    eapply ends_shifts; [lia|done|lia|eassumption..].
  - split; [done|]. split; [done|]. split; [lia|]. intros Hs P vs m Hh Hlen Hi.
    run_operand Hg Hs Hi. by apply ends_done.
Qed.

(** ** Expressions *)

(** Constants are 64-bit, variables are integers of 1, 2, 4 or 8 bytes in memory
    that is not a spill slot, types have a size. *)
Fixpoint node_ok (e : dt_node) : Prop :=
  match e with
  | NInt _ v => in64 v
  | NVar t is_local off => int_bits t /\ var_ok is_local off (ty_size t)
  | NOp1 _ _ c => node_ok c
  | NOp2 _ _ l r => node_ok l /\ node_ok r
  | NOp3 _ e l r => node_ok e /\ node_ok l /\ node_ok r
  | NCast t c => 0 < ty_size t <= 8 /\ node_ok c
  end.

Hypothesis Hmem : forall a, in64 (mem0 a).

Lemma u64_of_bool_range b : in64 (u64_of_bool b).
Proof. by destruct b. Qed.

Lemma eval_arith_range t op a b v : in64 a -> in64 b -> eval_arith t op a b = Some v -> in64 v.
Proof.
  intros Ha Hb. unfold eval_arith. destruct (_ && _); [|by apply alu_range].
  destruct (b =? 0); [done|]. destruct (op =? BPF_DIV); intros [= <-]; by auto with cint.
Qed.

Lemma eval_cast_range src dst a : 0 < ty_size dst <= 8 -> in64 a -> in64 (eval_cast src dst a).
Proof.
  intros Hd Ha. unfold eval_cast. set (k := (8 - ty_size dst) * 8).
  assert (0 <= k < 64) as Hk by (subst k; lia).
  destruct (if k =? 0 then _ else _); [|done]. destruct (ty_signed dst); [by auto with cint|].
  pose proof (wrapu_range (64 - k) a ltac:(lia)). pose proof (Z.pow_le_mono_r 2 (64 - k) 64). lia.
Qed.

Lemma eval_range e : node_ok e -> in64o (eval env e).
Proof.
  induction e as [t v|t b o|op t c IH|op t l IHl r IHr|t e IHe l IHl r IHr|t c IH]; cbn [node_ok eval].
  - intros Hv ? [= <-]. by auto with cint.
  - intros _ ? [= <-]. unfold var_value. by auto with cint.
  - intros Hc v (a & Ha & [= <-])%bind_Some. specialize (IH Hc a Ha).
    destruct op; [apply u64_of_bool_range| |done|by auto with cint].
    apply (alu_range BPF_XOR a (2 ^ 64 - 1)); [done|lia|done].
  - intros [Hl Hr] v (a & Ha & Hv)%bind_Some. specialize (IHl Hl a Ha). specialize (IHr Hr).
    destruct op; try (by apply IHr);
      try (lazymatch type of Hv with (if _ then _ else _) = _ =>
             destruct (a =? 0); cbn [negb] in Hv; try (injection Hv as <-; lia) end);
      apply bind_Some in Hv as (b & Hb & Hv); specialize (IHr b Hb); cbn [arith_op] in Hv;
      first [by eapply eval_arith_range; [| |exact Hv] | injection Hv as <-; apply u64_of_bool_range].
  - intros (He & Hl & Hr) v (a & Ha & Hv)%bind_Some. destruct (negb _); auto.
  - intros [Ht Hc] v (a & Ha & [= <-])%bind_Some. apply eval_cast_range; [done|by apply IH].
Qed.

Lemma gen_ok_conv n need need' nl nl' (safe safe' : Prop) g g' sem sem' :
  need = need' -> nl = nl' -> (safe' -> safe) -> (forall s, g' s = g s) -> sem = sem' ->
  gen_ok n need nl safe g sem -> gen_ok n need' nl' safe' g' sem'.
Proof.
  intros -> -> Hs Hg -> H s Hok Hlab. rewrite Hg. specialize (H s Hok Hlab).
  destruct (g s) as [[r s']|e]; [|done]. destruct H as (? & ? & ? & ? & ? & H). by repeat (split; [done|]); auto.
Qed.

Lemma bind_ext {A B} (o : option A) (f g : A -> option B) : (forall a, f a = g a) -> o ≫= f = o ≫= g.
Proof. intros H. destruct o; [apply H|done]. Qed.

Abbreviation node := (dt_cg_node id_PC id_probe_error).

Lemma arith_node_ok n l r t op o :
  (forall s, node (NOp2 op t l r) s = dt_cg_arithmetic_op id_PC id_probe_error t (node l) (node r) o s) ->
  arith_op op t = Some o -> op2_labels op t = (if divmod t o then 6 else 0) -> frees_left op = false ->
  eval env (NOp2 op t l r) = (a ← eval env l; b ← eval env r; eval_arith t o a b) ->
  is_alu_op o = true -> node_ok l -> node_ok r ->
  gen_ok n (regs_needed l) (labels_needed l) (spill_safe N n l) (node l) (eval env l) ->
  gen_ok (S n) (regs_needed r) (labels_needed r) (spill_safe N (S n) r) (node r) (eval env r) ->
  gen_ok n (regs_needed (NOp2 op t l r)) (labels_needed (NOp2 op t l r)) (spill_safe N n (NOp2 op t l r))
    (node (NOp2 op t l r)) (eval env (NOp2 op t l r)).
Proof.
  intros Hg Ho Hlb Hfl He Hal Hl Hr IHl IHr.
  eapply gen_ok_conv; [| | |exact Hg|symmetry; exact He|apply dt_cg_arithmetic_op_ok;
    [done|apply labels_needed_pos|apply labels_needed_pos|by apply eval_range|by apply eval_range|exact IHl|exact IHr]].
  - simpl. by rewrite Hfl.
  - cbn [labels_needed]. rewrite Hlb. lia.
  - cbn [spill_safe]. rewrite Hfl. tauto.
Qed.

Lemma cmp_node_ok n l r t op o :
  (forall s, node (NOp2 op t l r) s = dt_cg_compare_op (node l) (node r) o s) ->
  is_cmp op = true -> is_branch_op o = true ->
  (forall a b, jcond o a b = Some (eval_cmp op (dt_cg_compare_signed l r) a b)) ->
  gen_ok n (regs_needed l) (labels_needed l) (spill_safe N n l) (node l) (eval env l) ->
  gen_ok (S n) (regs_needed r) (labels_needed r) (spill_safe N (S n) r) (node r) (eval env r) ->
  gen_ok n (regs_needed (NOp2 op t l r)) (labels_needed (NOp2 op t l r)) (spill_safe N n (NOp2 op t l r))
    (node (NOp2 op t l r)) (eval env (NOp2 op t l r)).
Proof.
  intros Hg Hc Ho Hj IHl IHr.
  eapply gen_ok_conv; [| | |exact Hg| |eapply dt_cg_compare_op_ok;
    [exact Ho|apply labels_needed_pos|apply labels_needed_pos|exact IHl|exact IHr]].
  - by destruct op.
  - by destruct op.
  - destruct op; try done; cbn [spill_safe frees_left is_cmp]; tauto.
  - transitivity (a ← eval env l; b ← eval env r;
      Some (u64_of_bool (eval_cmp op (dt_cg_compare_signed l r) a b))).
    + apply bind_ext. intros a. apply bind_ext. intros b. by rewrite Hj.
    + by destruct op.
Qed.

Lemma dt_cg_node_gen e : node_ok e -> forall n,
  gen_ok n (regs_needed e) (labels_needed e) (spill_safe N n e) (node e) (eval env e).
Proof.
  induction e as [t v|t b o|op t c IH|op t l IHl r IHr|t e IHe l IHl r IHr|t c IH]; intros Hok n.
  - by apply gen_int_ok.
  - destruct Hok. by apply dt_cg_load_var_ok.
  - specialize (IH Hok n). destruct op.
    + apply dt_cg_logical_neg_ok; [apply labels_needed_pos|done].
    + by apply (gen_alu_imm_ok n _ _ _ _ _ BPF_XOR (-1) (λ a, Z.lxor a (2 ^ 64 - 1))).
    + eapply gen_ok_conv; [| | | | |exact IH]; try done. simpl. by destruct (eval env c).
    + by apply gen_neg_ok.
  - destruct Hok as [Hl Hr]. specialize (IHl Hl). specialize (IHr Hr).
    pose proof (labels_needed_pos l). pose proof (labels_needed_pos r).
    destruct op; try (by eapply arith_node_ok);
      try (eapply cmp_node_ok; [by intros|done|..|by apply IHl|by apply IHr];
           [by destruct (dt_cg_compare_signed l r)|intros a b; by destruct (dt_cg_compare_signed l r)]).
    + eapply gen_ok_conv; [..|eapply gen_comma_ok; [| |apply IHl|apply IHr]]; try done. by cbn; tauto.
    + eapply gen_ok_conv; [..|eapply dt_cg_logical_or_ok; [| |apply IHl|apply IHr]]; try done. by cbn; tauto.
    + eapply gen_ok_conv; [..|eapply dt_cg_logical_xor_ok; [| |apply IHl|apply IHr]]; try done. by cbn; tauto.
    + eapply gen_ok_conv; [..|eapply dt_cg_logical_and_ok; [| |apply IHl|apply IHr]]; try done. by cbn; tauto.
    + eapply arith_node_ok; try done; by cbn [op2_labels]; destruct (ty_signed t).
  - destruct Hok as (He & Hl & Hr). apply dt_cg_ternary_op_ok; auto using labels_needed_pos.
  - destruct Hok as [Ht Hc]. by apply gen_cast_ok; [|apply IH].
Qed.
End Sim.

(** ** The generated code as a program *)

Lemma find_label_unique l i d :
  labels_unique l -> l !! i = Some d -> di_label d <> 0 -> find_label l (di_label d) = Some i.
Proof.
  unfold labels_unique. revert i. induction l as [|x l IH]; intros i Hu Hi Hd; [done|]. simpl.
  assert (labels_unique l) as Hu'.
  { unfold labels_unique. rewrite fmap_cons, filter_cons in Hu. case_decide; [by apply NoDup_cons in Hu as [_ ?]|done]. }
  destruct i as [|i]; simpl in Hi.
  - injection Hi as ->. by rewrite Z.eqb_refl.
  - destruct (Z.eqb_spec (di_label x) (di_label d)) as [E|_]; [|by rewrite (IH i)].
    exfalso. rewrite fmap_cons, filter_cons_True in Hu by (by rewrite E).
    apply NoDup_cons in Hu as [Hn _]. apply Hn. rewrite E. apply list_elem_of_filter. split; [done|].
    apply list_elem_of_fmap. exists d. split; [done|]. by eapply list_elem_of_lookup_2.
Qed.

Lemma frag_program s s' : frag [] s s' -> code s = [] -> 0 < lab s -> lab s' <= 2 ^ 15 ->
  labels_unique (code s') /\ branches_ok (code s') /\ hosts (code s') s s'.
Proof.
  intros (Hl & c & Hc & Hn & Hr & Hb) Hs H0 Hlab. rewrite Hs in Hc. simpl in *. subst c.
  assert (labels_unique (code s')) as Hu by exact Hn. split; [done|]. split.
  - eapply Forall_impl; [exact Hb|]. intros d Hd Hbr. destruct (Hd Hbr) as (l & Hl' & ->).
    rewrite wraps_small; lia.
  - intros i d _ Hi. split; [done|]. intros Hd. by apply find_label_unique.
Qed.

(** The code of an expression, with its value returned. *)
Definition return_reg (reg : Z) (s : cgs) : cgs := cg_emit (cg_emit s (BPF_MOV_REG BPF_REG_0 reg)) BPF_RETURN.

Lemma dt_cg_init_ok N jr js : (2 <= N < 10)%nat ->
  ok N (dt_cg_init N jr js) 0 /\ code (dt_cg_init N jr js) = [] /\ lab (dt_cg_init N jr js) = 3.
Proof.
  intros HN. split; [|done].
  destruct (dt_regset_create_wf jr js (Z.of_nat N) dt_cg_spill_store dt_cg_spill_load) as (drp & Hd & Hwf & Hsz & Hlv).
  { lia. }
  injection Hd as <-. split; [|done..]. simpl. split; [exact Hwf|exact Hsz|lia|].
  intros r Hr. etransitivity; [apply Hlv|]. unfold c_bool. repeat case_cmp; lia.
Qed.

(** The code of [dt_cg] followed by a return, run from its first instruction. *)
Lemma dt_cg_runs N fp mem0 call id_PC id_err jr js e reg s' m :
  (2 <= N < 10)%nat -> (fp `mod` 8 = 0 /\ in64 fp) -> (forall a, in64 (mem0 a)) ->
  node_ok N fp mem0 e -> spill_safe N 0 e -> 3 + labels_needed e <= 2 ^ 15 ->
  dt_cg id_PC id_err N jr js e = Ok (reg, s') -> base N fp mem0 m ->
  let P := code (return_reg reg s') in
  labels_unique P /\ branches_ok P /\
  match eval (env fp mem0) e with
  | Some v => exists m', runs_to_exit (ir_fetch P) (ir_target P) call (O, m) m' /\
      m_reg m' BPF_REG_0 = v /\ forall a, ~ is_slot N fp a -> m_mem m' a = mem0 a
  | None => faults fp mem0 call id_err P (O, m)
  end.
Proof.
  intros HN Hfp Hmem Hok Hsafe Hlab Hg Hb P.
  destruct (dt_cg_init_ok N jr js HN) as (Hok0 & Hc0 & Hl0).
  pose proof (dt_cg_node_gen N HN fp Hfp mem0 call id_PC id_err Hmem e Hok O _ Hok0) as H.
  unfold dt_cg in Hg. rewrite Hg, Hl0 in H. specialize (H ltac:(lia)).
  destruct H as (_ & -> & Hok' & Hf & El & Hrun).
  set (s0 := dt_cg_init N jr js) in *.
  assert (frag [] s0 (return_reg (rg N 0) s')) as Hf' by (unfold return_reg; emits; solve_frag).
  destruct (frag_program _ _ Hf' Hc0) as (Hu & Hbr & Hh); [lia|cbn; lia|].
  split; [done|]. split; [done|]. unfold return_reg in Hh. emits. peel Hh. fold P in Hh, H, H0.
  specialize (Hrun Hsafe P [] m Hh eq_refl). assert (pc s0 = O) as E0 by (unfold pc; by rewrite Hc0).
  rewrite E0 in Hrun. destruct (eval (env fp mem0) e) as [v|].
  - destruct Hrun as (m1 & Hr1 & Hs1 & Hb1); [split; [by intros i v' Hv'|done]|].
    eexists. split; [|split].
    + exists (S (pc s'), set_reg m1 BPF_REG_0 (m_reg m1 (rg N 0))). split.
      * eapply rtc_r; [exact Hr1|]. eapply step_alu_reg; [apply H0|done|done].
      * apply step_exit. norm. apply H.
    + simpl. unfold upd. rewrite Z.eqb_refl. eapply stk_reg; [exact Hs1|done|lia].
    + simpl. apply Hb1.
  - apply Hrun. split; [by intros i v' Hv'|done].
Qed.



(** ** Examples *)

Definition int64 : ity := Ity 64 true 1.
Definition ex_fp : Z := 4096.
(** A global variable of 8 bytes at offset 8 that holds 42, and a short at offset
    18 that holds -6. *)
Definition ex_mem : Z -> Z := λ a, if a =? 8 then 42 else if a =? 16 then 65530 * 2 ^ 16 else 0.
Definition ex_err : dt_ident := Ident [101] 1 (DT_IDFLG_BPF + DT_IDFLG_DIFR) 7 0 0 None.
Definition ex_state : mstate := MState (λ r, if r =? 10 then ex_fp else 0) ex_mem.
#[export] Instance labels_unique_dec l : Decision (labels_unique l).
Proof. unfold labels_unique. apply _. Defined.

Abbreviation num v := (NInt int64 v).
Abbreviation x := (NVar int64 false 8).
Abbreviation y := (NVar (Ity 16 true 3) false 18).

(** [(-x / 5 + y) + ((x == 42 && !0) ? (char)300 : 1 / 0)] *)
Definition ex_node : dt_node :=
  NOp2 DT_TOK_ADD int64
    (NOp2 DT_TOK_ADD int64 (NOp2 DT_TOK_DIV int64 (NOp1 DT_TOK_INEG int64 x) (num 5)) y)
    (NOp3 int64 (NOp2 DT_TOK_LAND int64 (NOp2 DT_TOK_EQU int64 x (num 42)) (NOp1 DT_TOK_LNEG int64 (num 0)))
       (NCast (Ity 8 true 2) (num 300)) (NOp2 DT_TOK_DIV int64 (num 1) (num 0))).

Lemma ex_fp_ok : ex_fp `mod` 8 = 0 /\ in64 ex_fp.
Proof. split; [done|]. unfold ex_fp. lia. Qed.

Lemma ex_mem_ok a : in64 (ex_mem a).
Proof. unfold ex_mem. repeat case_cmp; lia. Qed.

Lemma ex_not_slot a : 0 <= a < 4000 -> ~ is_slot 8 ex_fp a.
Proof.
  intros Ha (r & Hr & He). unfold slot in He. rewrite (spill_off 8 ltac:(lia)) in He by done.
  unfold ex_fp in He. rewrite wrapu_small in He; lia.
Qed.

Lemma ex_node_ok : node_ok 8 ex_fp ex_mem ex_node.
Proof.
  assert (forall t, ty_bits t = 64 -> var_ok 8 ex_fp ex_mem false 8 (ty_size t)) as Hx.
  { intros t Ht. unfold ty_size. rewrite Ht.
    split; [done|]. split; [|split; [done|]]; apply ex_not_slot; by vm_compute. }
  assert (var_ok 8 ex_fp ex_mem false 18 (ty_size (Ity 16 true 3))) as Hy.
  { split; [done|]. split; [|split; [done|]]; apply ex_not_slot; by vm_compute. }
  assert (ty_size (Ity 8 true 2) = 1) as Hc by done.
  assert (int_bits int64 /\ int_bits (Ity 16 true 3)) as [H64 H16].
  { unfold int_bits. cbn [ty_bits int64]. rewrite !elem_of_cons. tauto. }
  cbn [ex_node node_ok]. rewrite Hc. pose proof (Hx int64 eq_refl). repeat split; try done; try lia; try apply H; apply Hy.
Qed.

Lemma ex_safe : spill_safe 8 0 ex_node.
Proof. simpl. repeat split; intros; lia. Qed.

Definition res_code (r : cg_res (Z * cgs)) : list dt_irnode :=
  match r with Ok (_, s) => code s | Err _ => [] end.
Definition res_ok {A} (r : cg_res A) : bool := match r with Ok _ => true | Err _ => false end.



(** ** Why comparisons and ternary operators must not spill *)

(** With eight registers, [1 + (2 + ... (8 + e))]: the operand [e] is generated
    when all registers are in use. *)
Definition nest (e : dt_node) : dt_node :=
  foldr (λ v acc, NOp2 DT_TOK_ADD int64 (num v) acc) e [1; 2; 3; 4; 5; 6; 7; 8].

Definition run_node (e : dt_node) : option Z :=
  match dt_cg ex_ident ex_err 8 [] [] e with
  | Ok (reg, s') =>
      let P := code (return_reg reg s') in
      m ← exec (ir_fetch P) (ir_target P) no_call 1000 O ex_state; Some (m_reg m BPF_REG_0)
  | Err _ => None
  end.

(** a comparison or a ternary operator whose registers are spilled is
    miscompiled: the reload of the spilled register is emitted between the
    branch and its target and is skipped when the branch is taken (or, for the
    ternary operator, overwrites the selected value).  With eight values live,
    a sum that adds [x == 42] or [1 ? 10 : 20] or [0 ? 10 : 20] comes out
    wrong. *)
Example spilled_branches_miscompiled :
  run_node (nest (NOp2 DT_TOK_EQU int64 x (num 42))) <> eval (env ex_fp ex_mem) (nest (NOp2 DT_TOK_EQU int64 x (num 42))) /\
  run_node (nest (NOp3 int64 (num 1) (num 10) (num 20))) <> eval (env ex_fp ex_mem) (nest (NOp3 int64 (num 1) (num 10) (num 20))) /\
  run_node (nest (NOp3 int64 (num 0) (num 10) (num 20))) <> eval (env ex_fp ex_mem) (nest (NOp3 int64 (num 0) (num 10) (num 20))).
Proof. vm_compute. repeat split; discriminate. Qed.
