(* ===== verification/CgAgg.v ===== *)
(** * Aggregation code (libdtrace/dt_cg.c)

    The code that updates the data of an aggregation: count(), sum(), avg(),
    min(), max(), stddev(), the bin increment of the quantize() family and the
    bin number of llquantize().  The theorems give the memory and the registers
    after the emitted code has run. *)

From stdpp Require Import base gmap list numbers relations sets.
From S2P Require Import Prelude Regset Bpf Str As Cg CgSim.

(** ** The emitters *)

Definition cg_xalloc (s : cgs) (reg : Z) : cg_res cgs :=
  '(drp, dlp, _) ← of_option CG_ASSERT (dt_regset_xalloc (cg_regs s) (cg_ir s) reg);
  Ok (Cgs dlp drp).

Definition dt_cg_agg_count_impl (s : cgs) (dreg : Z) : cg_res cgs :=
  s ← cg_xalloc s BPF_REG_0;
  let s := cg_emit s (BPF_MOV_IMM BPF_REG_0 1) in
  let s := cg_emit s (BPF_XADD_REG BPF_DW dreg 0 BPF_REG_0) in
  cg_free s BPF_REG_0.

Definition dt_cg_agg_avg_impl (s : cgs) (dreg vreg : Z) : cg_res cgs :=
  s ← cg_xalloc s BPF_REG_0;
  let s := cg_emit s (BPF_MOV_IMM BPF_REG_0 1) in
  let s := cg_emit s (BPF_XADD_REG BPF_DW dreg 0 BPF_REG_0) in
  s ← cg_free s BPF_REG_0;
  Ok (cg_emit s (BPF_XADD_REG BPF_DW dreg 8 vreg)).

Definition dt_cg_agg_sum_impl (s : cgs) (dreg vreg : Z) : cg_res cgs :=
  Ok (cg_emit s (BPF_XADD_REG BPF_DW dreg 0 vreg)).

Definition dt_cg_agg_max_impl (s : cgs) (dreg vreg : Z) : cg_res cgs :=
  let '(Lmax, s) := cg_label s in
  '(treg, s) ← cg_alloc s;
  let s := cg_emit s (BPF_LOAD BPF_DW treg dreg 0) in
  let s := cg_emit s (BPF_BRANCH_REG BPF_JSGE treg vreg Lmax) in
  let s := cg_emit s (BPF_STORE BPF_DW dreg 0 vreg) in
  let s := cg_emitl s Lmax BPF_NOP in
  cg_free s treg.

Definition dt_cg_agg_min_impl (s : cgs) (dreg vreg : Z) : cg_res cgs :=
  let '(Lmin, s) := cg_label s in
  '(treg, s) ← cg_alloc s;
  let s := cg_emit s (BPF_LOAD BPF_DW treg dreg 0) in
  let s := cg_emit s (BPF_BRANCH_REG BPF_JSLE treg vreg Lmin) in
  let s := cg_emit s (BPF_STORE BPF_DW dreg 0 vreg) in
  let s := cg_emitl s Lmin BPF_NOP in
  cg_free s treg.

Definition dt_cg_agg_quantize_impl (s : cgs) (dreg vreg ireg maxbin : Z) : cg_res cgs :=
  let '(L, s) := cg_label s in
  '(offreg, s) ← cg_alloc s;
  let s := cg_emit s (BPF_BRANCH_IMM BPF_JGT vreg maxbin L) in
  let s := cg_emit s (BPF_BRANCH_IMM BPF_JLT vreg 0 L) in
  let s := cg_emit s (BPF_MOV_REG offreg vreg) in
  let s := cg_emit s (BPF_ALU64_IMM BPF_MUL offreg 8) in
  let s := cg_emit s (BPF_ALU64_REG BPF_ADD offreg dreg) in
  let s := cg_emit s (BPF_XADD_REG BPF_DW offreg 0 ireg) in
  let s := cg_emitl s L BPF_NOP in
  cg_free s offreg.

Definition dt_cg_agg_stddev_impl (s : cgs) (dreg vreg hreg lreg : Z) : cg_res cgs :=
  let '(Lncr, s) := cg_label s in
  '(onereg, s) ← cg_alloc s;
  '(lowreg, s) ← cg_alloc s;
  let s := cg_emit s (BPF_MOV_IMM onereg 1) in
  let s := cg_emit s (BPF_XADD_REG BPF_DW dreg 0 onereg) in
  let s := cg_emit s (BPF_XADD_REG BPF_DW dreg 8 vreg) in
  let s := cg_emit s (BPF_LOAD BPF_DW lowreg dreg 16) in
  let s := cg_emit s (BPF_ALU64_REG BPF_ADD lowreg lreg) in
  let s := cg_emit s (BPF_BRANCH_REG BPF_JLE lreg lowreg Lncr) in
  let s := cg_emit s (BPF_XADD_REG BPF_DW dreg 24 onereg) in
  let s := cg_emitl s Lncr (BPF_STORE BPF_DW dreg 16 lowreg) in
  let s := cg_emit s (BPF_XADD_REG BPF_DW dreg 24 hreg) in
  s ← cg_free s onereg;
  cg_free s lowreg.

(** The part of [dt_cg_agg_stddev] that squares the value in [vreg]: it returns
    the registers of the high and of the low half.  The labels are handed out
    before the value is generated, so they are arguments. *)
Definition stddev_square (s : cgs) (Lpos Lncy vreg : Z) : cg_res (Z * Z * cgs) :=
  '(hi_reg, s) ← cg_alloc s;
  '(lowreg, s) ← cg_alloc s;
  '(midreg, s) ← cg_alloc s;
  '(lmdreg, s) ← cg_alloc s;
  let s := cg_emit s (BPF_MOV_REG lowreg vreg) in
  let s := cg_emit s (BPF_BRANCH_IMM BPF_JSGE lowreg 0 Lpos) in
  let s := cg_emit s (BPF_NEG_REG lowreg) in
  let s := cg_emitl s Lpos (BPF_MOV_REG hi_reg lowreg) in
  let s := cg_emit s (BPF_ALU64_IMM BPF_LSH lowreg 32) in
  let s := cg_emit s (BPF_ALU64_IMM BPF_RSH lowreg 32) in
  let s := cg_emit s (BPF_ALU64_IMM BPF_RSH hi_reg 32) in
  let s := cg_emit s (BPF_MOV_REG midreg lowreg) in
  let s := cg_emit s (BPF_ALU64_REG BPF_MUL midreg hi_reg) in
  let s := cg_emit s (BPF_ALU64_REG BPF_MUL lowreg lowreg) in
  let s := cg_emit s (BPF_ALU64_REG BPF_MUL hi_reg hi_reg) in
  let s := cg_emit s (BPF_MOV_REG lmdreg midreg) in
  let s := cg_emit s (BPF_ALU64_IMM BPF_LSH lmdreg 33) in
  let s := cg_emit s (BPF_ALU64_IMM BPF_RSH midreg 31) in
  let s := cg_emit s (BPF_ALU64_REG BPF_ADD lowreg lmdreg) in
  let s := cg_emit s (BPF_BRANCH_REG BPF_JLE lmdreg lowreg Lncy) in
  let s := cg_emit s (BPF_ALU64_IMM BPF_ADD hi_reg 1) in
  let s := cg_emitl s Lncy (BPF_ALU64_REG BPF_ADD hi_reg midreg) in
  s ← cg_free s lmdreg;
  s ← cg_free s midreg;
  Ok (hi_reg, lowreg, s).

(** ** llquantize() *)

(** The checks of [dt_cg_agg_llquantize] on its four constant arguments, 64-bit
    values; [powl] is exact on the results it is compared with. *)
Definition llquantize_args_ok (factor lmag hmag steps : Z) : bool :=
  negb ((65535 <? factor) || (factor <? 2)) &&
  negb (65535 <? lmag) && negb (65535 <? hmag) && negb (hmag <? lmag) &&
  negb (2 ^ 64 - 1 <? factor ^ (hmag + 1)) &&
  (0 <? steps) && negb (65535 <? steps) &&
  negb ((steps <? factor) && negb (factor `mod` steps =? 0)) &&
  negb ((factor <? steps) &&
        (negb (steps `mod` factor =? 0) ||
         (if lmag =? 0 then negb ((factor * factor) `mod` steps =? 0)
          else negb ((factor ^ (lmag + 1)) `mod` steps =? 0)))).

Definition dt_cg_agg_llquantize_bin (s : cgs) (valreg factor lmag hmag steps : Z) : cg_res cgs :=
  let steps_factor := Z.quot steps factor in
  let underflow_bin := 1 + (hmag - lmag + 1) * (steps - steps_factor) in
  let bucket_max0 := factor ^ lmag in
  let '(L1, s) := cg_label s in
  let '(L2, s) := cg_label s in
  let '(L3, s) := cg_label s in
  let '(L4, s) := cg_label s in
  let '(Lloop, s) := cg_label s in
  let '(Lbin, s) := cg_label s in
  let '(Lshift, s) := cg_label s in
  let '(Lend, s) := cg_label s in
  '(indreg, s) ← cg_alloc s;
  '(magreg, s) ← cg_alloc s;
  '(tmpreg, s) ← cg_alloc s;
  '(maxreg, s) ← cg_alloc s;
  let s := cg_emit s (BPF_MOV_REG tmpreg valreg) in
  let s := cg_emit s (BPF_BRANCH_IMM BPF_JSGE valreg 0 L1) in
  let s := cg_emit s (BPF_ALU64_IMM BPF_MUL tmpreg (-1)) in
  let s := cg_emitl s L1 (BPF_MOV_IMM magreg underflow_bin) in
  let s := dt_cg_xsetx s None DT_LBL_NONE maxreg bucket_max0 in
  let s := cg_emit s (BPF_BRANCH_REG BPF_JLT tmpreg maxreg Lend) in
  let s := cg_emit s (BPF_MOV_IMM magreg lmag) in
  let s := cg_emit s (BPF_MOV_IMM indreg 0) in
  let s := cg_emitl s Lloop (BPF_ALU64_IMM BPF_MUL maxreg factor) in
  let s := cg_emit s (BPF_BRANCH_REG BPF_JLT tmpreg maxreg Lbin) in
  let s := cg_emit s (BPF_ALU64_IMM BPF_ADD magreg 1) in
  let s := cg_emit s (BPF_BRANCH_IMM BPF_JGT magreg hmag Lshift) in
  let s := cg_emit s (BPF_JUMP Lloop) in
  let s := cg_emitl s Lbin (BPF_MOV_REG indreg tmpreg) in
  let s := cg_emit s (BPF_BRANCH_IMM BPF_JEQ magreg 0 L2) in
  let s := cg_emit s (BPF_ALU64_IMM BPF_DIV maxreg steps) in
  let s := cg_emit s (BPF_JUMP L3) in
  let s := cg_emitl s L2 (BPF_ALU64_IMM BPF_MUL indreg steps) in
  let s := cg_emitl s L3 (BPF_ALU64_REG BPF_DIV indreg maxreg) in
  let s := cg_emit s (BPF_ALU64_IMM BPF_SUB indreg steps_factor) in
  let s := cg_emitl s Lshift (BPF_ALU64_IMM BPF_SUB magreg lmag) in
  let s := cg_emit s (BPF_ALU64_IMM BPF_MUL magreg (steps - steps_factor)) in
  let s := cg_emit s (BPF_ALU64_REG BPF_ADD magreg indreg) in
  let s := cg_emit s (BPF_ALU64_IMM BPF_ADD magreg 1) in
  let s := cg_emit s (BPF_BRANCH_IMM BPF_JSGE valreg 0 L4) in
  let s := cg_emit s (BPF_ALU64_IMM BPF_MUL magreg (-1)) in
  let s := cg_emitl s L4 (BPF_ALU64_IMM BPF_ADD magreg underflow_bin) in
  let s := cg_emitl s Lend (BPF_MOV_REG valreg magreg) in
  s ← cg_free s indreg;
  s ← cg_free s magreg;
  s ← cg_free s tmpreg;
  cg_free s maxreg.

(** ** Registers taken and given back without spilling *)

Section Levels.
Context (N : nat) (HN : (2 <= N < 10)%nat).

(** [f] is the use of the registers: 0 for a free one, 1 for one in use. *)
Record lev (s : cgs) (f : Z -> Z) : Prop := {
  lv_wf : regset_wf (cg_regs s);
  lv_size : dr_size (cg_regs s) = Z.of_nat N + 1;
  lv_store : dr_spill_store (cg_regs s) = dt_cg_spill_store;
  lv_load : dr_spill_load (cg_regs s) = dt_cg_spill_load;
  lv_level r : 1 <= r <= Z.of_nat N -> level (cg_regs s) r = f r;
}.

Definition used (n : nat) (r : Z) : Z := c_bool (Z.of_nat N - r <? Z.of_nat n).

Lemma ok_lev s n : ok N s n -> (n <= N)%nat -> lev s (used n).
Proof.
  intros [[Hwf Hsz Hb Hl] Hst Hld _] Hn. split; try done. intros r Hr. rewrite Hl by done. unfold used.
  destruct (Z.ltb_spec (2 * Z.of_nat N - r) (Z.of_nat n)); [lia|]. unfold c_bool at 2. lia.
Qed.

Lemma lev_ok s n f : lev s f -> (n <= N)%nat -> 0 < lab s ->
  (forall r, 1 <= r <= Z.of_nat N -> f r = used n r) -> ok N s n.
Proof.
  intros [Hwf Hsz Hst Hld Hl] Hn H0 Hf. split; try done. split; [done|done|lia|].
  intros r Hr. rewrite Hl, Hf by done. unfold used.
  destruct (Z.ltb_spec (2 * Z.of_nat N - r) (Z.of_nat n)); [lia|]. unfold c_bool at 3. lia.
Qed.

Lemma rg_small n : (n < N)%nat -> rg N n = Z.of_nat N - Z.of_nat n.
Proof. intros Hn. unfold rg. by rewrite Nat.mod_small. Qed.

Lemma alloc_nospill s n : ok N s n -> (n < N)%nat ->
  exists s', cg_alloc s = Ok (Z.of_nat N - Z.of_nat n, s') /\ cg_ir s' = cg_ir s /\ ok N s' (S n).
Proof.
  intros [Hc Hst Hld Hl] Hn. unfold cg_alloc.
  destruct (dt_regset_alloc (cg_regs s) (cg_ir s)) as [[drp dlp] reg] eqn:Ha.
  destruct (dt_regset_alloc_canon N HN _ _ _ _ _ _ Hc Ha) as [[-> ->]|(_ & Hr & -> & Hc' & -> & Hst' & Hld')]; [lia|].
  rewrite (proj2 (Z.eqb_neq _ _) Hr), (proj2 (Nat.leb_gt N n)), rg_small in * by done.
  eexists. split; [done|]. split; [done|]. split; simpl; congruence.
Qed.

Lemma free_nospill s f r : lev s f -> 1 <= r <= Z.of_nat N -> f r = 1 ->
  exists s', cg_free s r = Ok s' /\ cg_ir s' = cg_ir s /\ lev s' (λ x, if x =? r then 0 else f x).
Proof.
  intros [Hwf Hsz Hst Hld Hl] Hr Hf. unfold cg_free.
  pose proof (dt_regset_free_spec (cg_regs s) (cg_ir s) r Hwf ltac:(lia)) as Hsp.
  rewrite (Hl r Hr), Hf in Hsp. simpl in Hsp. destruct Hsp as (drp & -> & [Hwf' Hsz' Hst' Hld' Hl']).
  eexists. split; [done|]. split; [done|]. split; simpl; try congruence.
  intros x Hx. rewrite Hl' by lia. rewrite Hl by lia.
  destruct (Z.eqb_spec x r) as [-> |].
  - rewrite Hf. destruct (Z.leb_spec r r), (Z.ltb_spec r (r + 1)); simpl; lia.
  - destruct (Z.leb_spec r x), (Z.ltb_spec x (r + 1)); simpl; lia.
Qed.

(** Register 0 is reserved explicitly. *)
Lemma xalloc_r0 s f : lev s f -> level (cg_regs s) 0 = 0 ->
  exists s', cg_xalloc s BPF_REG_0 = Ok s' /\ cg_ir s' = cg_ir s /\ lev s' f /\ level (cg_regs s') 0 = 1.
Proof.
  intros [Hwf Hsz Hst Hld Hl] H0. unfold cg_xalloc.
  pose proof (dt_regset_xalloc_spec (cg_regs s) (cg_ir s) 0 Hwf ltac:(lia)) as Hsp.
  rewrite H0 in Hsp. simpl in Hsp. destruct Hsp as (drp & -> & [Hwf' Hsz' Hst' Hld' Hl']).
  eexists. split; [done|]. split; [done|]. split; [|simpl; rewrite Hl', H0 by lia; done].
  split; simpl; try congruence. intros x Hx. rewrite Hl' by lia. rewrite Hl by lia.
  destruct (Z.leb_spec 0 x), (Z.ltb_spec x (0 + 1)); simpl; lia.
Qed.

Lemma free_r0 s f : lev s f -> level (cg_regs s) 0 = 1 ->
  exists s', cg_free s BPF_REG_0 = Ok s' /\ cg_ir s' = cg_ir s /\ lev s' f /\ level (cg_regs s') 0 = 0.
Proof.
  intros [Hwf Hsz Hst Hld Hl] H0. unfold cg_free.
  pose proof (dt_regset_free_spec (cg_regs s) (cg_ir s) 0 Hwf ltac:(lia)) as Hsp.
  rewrite H0 in Hsp. simpl in Hsp. destruct Hsp as (drp & -> & [Hwf' Hsz' Hst' Hld' Hl']).
  eexists. split; [done|]. split; [done|]. split; [|simpl; rewrite Hl', H0 by lia; done].
  split; simpl; try congruence. intros x Hx. rewrite Hl' by lia. rewrite Hl by lia.
  destruct (Z.leb_spec 0 x), (Z.ltb_spec x (0 + 1)); simpl; lia.
Qed.

Lemma lev_emitle s f l i e : lev s f -> lev (cg_emitle s l i e) f.
Proof. by intros []. Qed.
Lemma ok_eq_ir s s' n : cg_ir s' = cg_ir s -> canon N (cg_regs s') n ->
  dr_spill_store (cg_regs s') = dt_cg_spill_store -> dr_spill_load (cg_regs s') = dt_cg_spill_load ->
  0 < lab s -> ok N s' n.
Proof. intros E. split; try done. by rewrite E. Qed.
End Levels.

(** Labels handed out by two fragments in sequence. *)
Lemma frag_app L L' s s1 s2 : frag L s s1 -> frag L' s1 s2 -> frag (L' ++ L) s s2.
Proof.
  intros (Hl & c & Hc & Hn & Hr & Hb) (Hl' & c' & Hc' & Hn' & Hr' & Hb').
  split; [lia|]. exists (c ++ c'). rewrite Hc', Hc, app_assoc. split; [done|]. rewrite labs_app.
  assert ((L' ++ L) ++ labs c ++ labs c' ≡ₚ (L ++ labs c) ++ (L' ++ labs c')) as HP by solve_Permutation.
  split; [|split].
  - rewrite HP. apply NoDup_app. split; [done|]. split; [|done]. intros x Hx Hx'.
    pose proof (proj1 (Forall_forall _ _) Hr _ Hx). pose proof (proj1 (Forall_forall _ _) Hr' _ Hx').
    simpl in *. lia.
  - rewrite HP. apply Forall_app. split; (eapply Forall_impl; [eassumption|]); simpl; lia.
  - apply Forall_app. split; (eapply Forall_impl; [eassumption|]); intros d; apply branch_in_mono; lia.
Qed.

(** ** Reading the machine state *)

Lemma reg_same m r v : m_reg (set_reg m r v) r = v.
Proof. simpl. unfold upd. by rewrite Z.eqb_refl. Qed.
Lemma reg_other m r r' v : r' <> r -> m_reg (set_reg m r v) r' = m_reg m r'.
Proof. intros H. simpl. unfold upd. by rewrite (proj2 (Z.eqb_neq _ _) H). Qed.
Lemma reg_mem m a v r : m_reg (set_mem m a v) r = m_reg m r.
Proof. done. Qed.
Lemma mem_reg m r v : m_mem (set_reg m r v) = m_mem m.
Proof. done. Qed.
Lemma mem_same m a v : m_mem (set_mem m a v) a = v.
Proof. simpl. unfold upd. by rewrite Z.eqb_refl. Qed.
Lemma mem_other m a a' v : a' <> a -> m_mem (set_mem m a v) a' = m_mem m a'.
Proof. intros H. simpl. unfold upd. by rewrite (proj2 (Z.eqb_neq _ _) H). Qed.

Ltac regs := repeat first
  [ rewrite reg_same | rewrite reg_mem | rewrite mem_reg
  | rewrite reg_other by (assumption || congruence || lia) ].

(** Membership in a list of registers, one inequality for each. *)
Ltac notin :=
  repeat match goal with H : _ ∉ _ :: _ |- _ => apply not_elem_of_cons in H as [? H] end;
  repeat lazymatch goal with
  | |- _ ∉ _ :: _ => apply not_elem_of_cons; split; [congruence|]
  | |- _ ∉ [] => apply not_elem_of_nil
  end.

(** Execute the next instruction. *)
Ltac ex :=
  lazymatch goal with
  | A : at_ ?P ?k _ (BPF_MOV_REG _ _) |- runs _ ?P (?k, _) _ =>
      eapply runs_step; [eapply step_alu_reg; [exact (proj1 A)|reflexivity|reflexivity]|]
  | A : at_ ?P ?k _ (BPF_ALU64_REG _ _ _) |- runs _ ?P (?k, _) _ =>
      eapply runs_step; [eapply step_alu_reg; [exact (proj1 A)|reflexivity|reflexivity]|]
  | A : at_ ?P ?k _ (BPF_MOV_IMM _ _) |- runs _ ?P (?k, _) _ =>
      eapply runs_step; [eapply step_alu_imm; [exact (proj1 A)|reflexivity|reflexivity]|]
  | A : at_ ?P ?k _ (BPF_ALU64_IMM _ _ _) |- runs _ ?P (?k, _) _ =>
      eapply runs_step; [eapply step_alu_imm; [exact (proj1 A)|reflexivity|reflexivity]|]
  | A : at_ ?P ?k _ (BPF_NEG_REG _) |- runs _ ?P (?k, _) _ =>
      eapply runs_step; [eapply step_neg; exact (proj1 A)|]
  | A : at_ ?P ?k _ BPF_NOP |- runs _ ?P (?k, _) _ =>
      eapply runs_step; [eapply step_nop; exact (proj1 A)|]
  | A : at_ ?P ?k _ (BPF_XADD_REG _ _ _ _) |- runs _ ?P (?k, _) _ =>
      eapply runs_step; [eapply step_xadd; [exact (proj1 A)|]|]
  | A : at_ ?P ?k _ (BPF_STORE _ _ _ _) |- runs _ ?P (?k, _) _ =>
      eapply runs_step; [eapply step_store; [exact (proj1 A)|]|]
  | A : at_ ?P ?k _ (BPF_LOAD _ _ _ _) |- runs _ ?P (?k, _) _ =>
      eapply runs_step; [eapply step_load; [exact (proj1 A)|]|]
  end.

(** ** The words of an aggregation *)

(** The [i]th 64-bit word of the data at [d]. *)
Definition word (d i : Z) : Z := u64 (d + 8 * i).

Lemma word_0 d : in64 d -> word d 0 = d.
Proof. intros Hd. unfold word. rewrite Z.add_0_r. by apply wrapu_small. Qed.

Lemma word_aligned d i : aligned d = true -> aligned (word d i) = true.
Proof.
  unfold aligned, word. intros Hd. apply Z.eqb_eq in Hd. apply Z.eqb_eq. unfold wrapu.
  rewrite Z.mod_mod_divide by (by exists (2 ^ 61)). rewrite Z.add_mod, Hd by lia.
  rewrite (Z.mul_comm 8 i), Z_mod_mult. done.
Qed.

Lemma word_inj d i j : 0 <= i < 16 -> 0 <= j < 16 -> word d i = word d j -> i = j.
Proof.
  intros Hi Hj. unfold word, wrapu. intros H.
  pose proof (Z.div_mod (d + 8 * i) (2 ^ 64)). pose proof (Z.div_mod (d + 8 * j) (2 ^ 64)). lia.
Qed.

Lemma addr_word m dreg i o : o = 8 * i -> 0 <= i < 16 -> addr_of m dreg (s16 o) = word (m_reg m dreg) i.
Proof. intros -> Hi. unfold addr_of, word. by rewrite (wraps_small 16) by lia. Qed.

(** ** 128-bit sums and squares *)

Lemma add128 lo x h hi : in64 lo -> in64 x ->
  (h + (if x <=? u64 (lo + x) then 0 else 1) + hi) * 2 ^ 64 + u64 (lo + x) =
  (h * 2 ^ 64 + lo) + (hi * 2 ^ 64 + x).
Proof.
  intros Hlo Hx. unfold wrapu. destruct (Z.lt_ge_cases (lo + x) (2 ^ 64)).
  - rewrite Z.mod_small by lia. case_cmp; lia.
  - rewrite <- (Z.mod_add (lo + x) (-1)), Z.mod_small by lia. case_cmp; lia.
Qed.

Lemma add128_mod lo x h hi : in64 lo -> in64 x -> in64 h -> in64 hi ->
  u64 (h + (if x <=? u64 (lo + x) then 0 else 1) + hi) * 2 ^ 64 + u64 (lo + x) =
  ((h * 2 ^ 64 + lo) + (hi * 2 ^ 64 + x)) `mod` 2 ^ 128.
Proof.
  intros Hlo Hx Hh Hhi. rewrite <- add128 by done.
  pose proof (wrapu_range 64 (lo + x) ltac:(lia)) as Hr. set (l := u64 (lo + x)) in *.
  set (k := h + _ + hi). change (2 ^ 128) with (2 ^ 64 * 2 ^ 64).
  rewrite Z.rem_mul_r, Z.div_add_l, (Z.div_small l), (Z.add_comm (k * _)), Z.mod_add, (Z.mod_small l) by lia.
  unfold wrapu. rewrite Z.add_0_r. lia.
Qed.

(** Squaring by halves: [2 * low * high] is added 32 bits up. *)
Lemma square_halves x : 0 <= x <= 2 ^ 63 ->
  let low := u64 (x * 2 ^ 32) `div` 2 ^ 32 in let high := x `div` 2 ^ 32 in
  let mid := u64 (low * high) in let lmd := u64 (mid * 2 ^ 33) in
  let lo := u64 (u64 (low * low) + lmd) in
  let hi := u64 (u64 (u64 (high * high) + (if lmd <=? lo then 0 else 1)) + mid `div` 2 ^ 31) in
  hi * 2 ^ 64 + lo = x * x.
Proof.
  intros Hx low high mid lmd lo hi.
  assert (low = x `mod` 2 ^ 32) as El.
  { subst low. unfold wrapu. change (2 ^ 64) with (2 ^ 32 * 2 ^ 32).
    rewrite Z.mul_mod_distr_r by lia. by rewrite Z.div_mul. }
  pose proof (Z.mod_pos_bound x (2 ^ 32)). pose proof (Z.div_mod x (2 ^ 32)).
  assert (0 <= high <= 2 ^ 31) by (subst high; split; [apply Z.div_pos; lia|apply Z.div_le_upper_bound; lia]).
  fold high in H0. rewrite <- El in *.
  assert (mid = low * high) as Em by (subst mid; apply wrapu_small; nia).
  assert (u64 (low * low) = low * low) as E1 by (apply wrapu_small; nia).
  assert (u64 (high * high) = high * high) as E2 by (apply wrapu_small; nia).
  set (q := mid `div` 2 ^ 31) in *.
  assert (mid * 2 ^ 33 = q * 2 ^ 64 + lmd) as Eq.
  { subst q lmd. unfold wrapu. change (2 ^ 64) with (2 ^ 31 * 2 ^ 33) at 2. rewrite Z.mul_mod_distr_r by lia.
    pose proof (Z.div_mod mid (2 ^ 31)). lia. }
  assert (in64 lmd) by (subst lmd; auto with cint).
  assert (in64 (low * low)) by nia.
  pose proof (add128 (low * low) lmd (high * high) q ltac:(done) ltac:(done)) as Ha.
  assert (u64 (low * low + lmd) = lo) as Elo by (subst lo; by rewrite E1). rewrite Elo in Ha.
  assert (in64 lo) by (subst lo; auto with cint).
  assert (x * x = (high * high * 2 ^ 64 + low * low) + (q * 2 ^ 64 + lmd)) as Ex.
  { rewrite <- Eq, Em, (H0 ltac:(lia)) at 1. change (2 ^ 64) with (2 ^ 32 * 2 ^ 32). lia. }
  assert (0 <= q) by (subst q; apply Z.div_pos; nia).
  assert (x * x <= 2 ^ 126) by nia.
  set (b := if lmd <=? lo then 0 else 1) in *. assert (0 <= b <= 1) by (subst b; case_cmp; lia).
  subst hi. rewrite E2. rewrite wrapu_add_l by lia. rewrite wrapu_small; lia.
Qed.

Section Run.
Context (N : nat) (HN : (2 <= N < 10)%nat).
Variable call : bpf_insn -> mstate -> option mstate.

Lemma runs_branch_imm P k m l op r x lbl b i t y :
  at_ P k l (BPF_BRANCH_IMM op r x lbl) -> at_ P t lbl i -> 0 < lbl < 2 ^ 15 ->
  is_branch_op op = true -> jcond op (m_reg m r) (u64 (s32 x)) = Some b ->
  runs call P (if b then t else S k, m) y -> runs call P (k, m) y.
Proof.
  intros [Hf _] Ht Hl Ho Hj Hr. eapply runs_step; [|exact Hr]. erewrite step_branch_imm by done.
  destruct b; [eapply target_at; [exact Ht|lia]|done].
Qed.

Lemma runs_branch_reg P k m l op r1 r2 lbl b i t y :
  at_ P k l (BPF_BRANCH_REG op r1 r2 lbl) -> at_ P t lbl i -> 0 < lbl < 2 ^ 15 ->
  is_branch_op op = true -> jcond op (m_reg m r1) (m_reg m r2) = Some b ->
  runs call P (if b then t else S k, m) y -> runs call P (k, m) y.
Proof.
  intros [Hf _] Ht Hl Ho Hj Hr. eapply runs_step; [|exact Hr]. erewrite step_branch_reg by done.
  destruct b; [eapply target_at; [exact Ht|lia]|done].
Qed.

Lemma runs_jump P k m l lbl i t y :
  at_ P k l (BPF_JUMP lbl) -> at_ P t lbl i -> 0 < lbl < 2 ^ 15 -> runs call P (t, m) y -> runs call P (k, m) y.
Proof.
  intros [Hf _] Ht Hl Hr. eapply runs_step; [|exact Hr]. erewrite step_jump by done. eapply target_at; [exact Ht|lia].
Qed.

(** The code from [s] to [s'] changes only the registers [scratch], and memory
    as [f] says. *)
Definition updates (s s' : cgs) (scratch : list Z) (dreg : Z) (f : mstate -> Z -> Z) : Prop :=
  forall P m, hosts P s s' -> (forall r, in64 (m_reg m r)) -> aligned (m_reg m dreg) = true ->
    exists m', runs call P (pc s, m) (pc s', m') /\
      (forall r, r ∉ scratch -> m_reg m' r = m_reg m r) /\ forall a, m_mem m' a = f m a.

Lemma frag_same s s' : cg_ir s' = cg_ir s -> frag [] s s'.
Proof. destruct s' as [ir regs]. simpl. intros ->. apply (frag_regs [] s s regs), frag_refl. Qed.

Lemma pc_same s s' : cg_ir s' = cg_ir s -> pc s' = pc s.
Proof. unfold pc. by intros ->. Qed.

(** Take a register: the state changes, the code does not. *)
Ltac alloc_step s s' :=
  lazymatch goal with
  | K : ok N s ?n |- _ =>
      let E := fresh "Eir" in let K' := fresh "Hok" in let F := fresh "Hfr" in let p := fresh "Hpc" in
      destruct (alloc_nospill N HN s n K ltac:(lia)) as (s' & -> & E & K');
      pose proof (frag_same s s' E) as F; pose proof (pc_same s s' E) as p;
      pose proof (f_equal dl_label E);
      cbn [mbind result_bind]
  end.
(** Give a register back. *)
Ltac free_reg s' :=
  lazymatch goal with
  | L : lev N ?s ?f |- context [cg_free ?t ?r] =>
      let E := fresh "Eir" in let L' := fresh "Hlev" in let F := fresh "Hfr" in let p := fresh "Hpc" in
      destruct (free_nospill N HN t f r) as (s' & -> & E & L');
      [by repeat apply lev_emitle|lia|unfold used, c_bool; repeat case_cmp; lia|];
      pose proof (frag_same t s' E) as F; pose proof (pc_same t s' E) as p; clear L;
      pose proof (f_equal dl_label E);
      cbn [mbind result_bind]
  end.

(** Hand out the first label. *)
Ltac first_label s s1 :=
  lazymatch goal with
  | Hok : ok N s ?n, Hlab : lab s < 2 ^ 15 |- _ =>
      let H0 := fresh "H0" in let El := fresh "El" in let K := fresh "Hok" in let F := fresh "Hfl" in
      let p := fresh "Hpcl" in
      pose proof (ok_lab _ _ _ Hok) as H0; rewrite (cg_label_eq s);
      pose proof (lab_label s ltac:(lia)) as El; pose proof (ok_labelled N HN s n Hok ltac:(lia)) as K;
      pose proof (frag_label [] s s ltac:(lia) (frag_refl s)) as F; set (s1 := labelled s) in *;
      assert (pc s1 = pc s) as p by done; clearbody s1
  end.

Lemma addr_0 m dreg : in64 (m_reg m dreg) -> addr_of m dreg (s16 0) = m_reg m dreg.
Proof. intros Hm. rewrite (addr_word m dreg 0) by lia. by apply word_0. Qed.

Lemma minmax_ok s n dreg vreg op (pick : Z -> Z -> bool) :
  is_branch_op op = true -> (forall a b, jcond op a b = Some (pick a b)) ->
  ok N s n -> (n < N)%nat -> lab s < 2 ^ 15 ->
  let treg := Z.of_nat N - Z.of_nat n in
  dreg <> treg -> vreg <> treg ->
  exists s', (let '(L, s) := cg_label s in
    '(treg, s) ← cg_alloc s;
    let s := cg_emit s (BPF_LOAD BPF_DW treg dreg 0) in
    let s := cg_emit s (BPF_BRANCH_REG op treg vreg L) in
    let s := cg_emit s (BPF_STORE BPF_DW dreg 0 vreg) in
    let s := cg_emitl s L BPF_NOP in
    cg_free s treg) = Ok s' /\ ok N s' n /\ frag [] s s' /\
  updates s s' [treg] dreg (λ m a,
    let d := m_reg m dreg in
    if a =? d then (if pick (m_mem m d) (m_reg m vreg) then m_mem m d else m_reg m vreg) else m_mem m a).
Proof.
  intros Hop Hj Hok Hn Hlab treg Hd Hv. first_label s s1. alloc_step s1 s2. emits.
  pose proof (ok_lev N HN s2 (S n) Hok1 ltac:(lia)) as Hlev.
  fold treg. free_reg s3. exists s3. split; [done|].
  assert (lab s3 = lab s + 1) as E3 by (rewrite Eir0; cbn; by rewrite Eir).
  split; [eapply (lev_ok N HN s3 n); [done|lia|lia|]|].
  { intros r Hr. unfold used, c_bool. subst treg. repeat case_cmp; lia. }
  split; [solve_frag|]. intros P m Hh H64 Hal. pose proof (H64 dreg) as Hd64. split_last Hh Hh3. peel Hh. norm. rewrite Hpc0, Hpc, Hpcl in *.
  exists (if pick (m_mem m (m_reg m dreg)) (m_reg m vreg)
     then set_reg m treg (m_mem m (m_reg m dreg))
     else set_mem (set_reg m treg (m_mem m (m_reg m dreg))) (m_reg m dreg) (m_reg m vreg)).
  pose proof (λ m, addr_0 m dreg) as Ha.
  set (d := m_reg m dreg) in *. set (v := m_mem m d). split; [|split].
  - ex; [by rewrite Ha|]. rewrite Ha by done. fold d v.
    eapply runs_branch_reg; [eassumption..|lia|done|apply Hj|]. regs. fold v.
    destruct (pick v (m_reg m vreg)); [by ex|].
    assert (m_reg (set_reg m treg v) dreg = d) as Ed by (by regs).
    ex; [by rewrite Ha; rewrite Ed|]. rewrite Ha, Ed by (by rewrite Ed). regs. by ex.
  - intros r Hr%not_elem_of_cons. destruct Hr as [Hr _]. by destruct (pick _ _); regs.
  - intros a. destruct (pick v (m_reg m vreg)); regs; [by case_cmp; subst|]. simpl. unfold upd. done.
Qed.

Lemma addr_same m r v o : addr_of (set_reg m r v) r o = u64 (v + o).
Proof. unfold addr_of. by rewrite reg_same. Qed.

Lemma word_calc v d : u64 (u64 (u64 (v * u64 (s32 8)) + d) + s16 0) = word d v.
Proof.
  change (u64 (s32 8)) with 8. change (s16 0) with 0. unfold word.
  rewrite Z.add_0_r, wrapu_idem, wrapu_add_l by lia. f_equal. lia.
Qed.

Lemma quantize_impl_ok s n dreg vreg ireg maxbin :
  ok N s n -> (n < N)%nat -> lab s < 2 ^ 15 -> 0 <= maxbin < 2 ^ 31 ->
  let offreg := Z.of_nat N - Z.of_nat n in
  dreg <> offreg -> vreg <> offreg -> ireg <> offreg ->
  exists s', dt_cg_agg_quantize_impl s dreg vreg ireg maxbin = Ok s' /\ ok N s' n /\ frag [] s s' /\
  updates s s' [offreg] dreg (λ m a,
    if (m_reg m vreg <=? maxbin) && (a =? word (m_reg m dreg) (m_reg m vreg))
    then u64 (m_mem m a + m_reg m ireg) else m_mem m a).
Proof.
  intros Hok Hn Hlab Hmax offreg Hd Hv Hi. unfold dt_cg_agg_quantize_impl. first_label s s1.
  alloc_step s1 s2. emits. pose proof (ok_lev N HN s2 (S n) Hok1 ltac:(lia)) as Hlev.
  fold offreg. free_reg s3. exists s3. split; [done|].
  assert (lab s3 = lab s + 1) as E3 by (rewrite Eir0; cbn; by rewrite Eir).
  split; [eapply (lev_ok N HN s3 n); [done|lia|lia|]|].
  { intros r Hr. unfold used, c_bool. subst offreg. repeat case_cmp; lia. }
  split; [solve_frag|]. intros P m Hh H64 Hal. pose proof (H64 dreg) as Hd64. split_last Hh Hh3. peel Hh. norm. rewrite Hpc0, Hpc, Hpcl in *.
  set (d := m_reg m dreg) in *. set (v := m_reg m vreg).
  pose proof (H64 vreg) as Hv64. fold v in Hv64.
  assert (u64 (s32 maxbin) = maxbin) as Em by (rewrite wraps_small, wrapu_small; lia).
  destruct (Z.leb_spec v maxbin) as [Hle|Hgt].
  - eexists. split; [|split].
    + eapply (runs_branch_imm _ _ _ _ _ _ _ _ false); [eassumption..|lia|done| |].
      { change (Some (u64 (s32 maxbin) <? v) = Some false). rewrite Em. f_equal. apply Z.ltb_ge. lia. }
      eapply (runs_branch_imm _ _ _ _ _ _ _ _ false); [eassumption..|lia|done| |].
      { change (Some (v <? 0) = Some false). f_equal. apply Z.ltb_ge. lia. }
      do 3 ex. ex; [|ex; reflexivity]. regs. rewrite addr_same, word_calc. by apply word_aligned.
    + intros r Hr%not_elem_of_cons. destruct Hr as [Hr _]. by regs.
    + intros a. regs. fold v d. cbn [andb]. rewrite addr_same, word_calc.
      destruct (Z.eqb_spec a (word d v)) as [-> |Hne]; [by rewrite mem_same|].
      by rewrite mem_other.
  - exists m. split; [|split; [done|]].
    + eapply (runs_branch_imm _ _ _ _ _ _ _ _ true); [eassumption..|lia|done| |by ex].
      change (Some (u64 (s32 maxbin) <? v) = Some true). rewrite Em. f_equal. apply Z.ltb_lt. lia.
    + intros a. done.
Qed.

Lemma count_impl_ok s n dreg :
  ok N s n -> (n <= N)%nat -> level (cg_regs s) 0 = 0 -> dreg <> 0 ->
  exists s', dt_cg_agg_count_impl s dreg = Ok s' /\ ok N s' n /\ level (cg_regs s') 0 = 0 /\ frag [] s s' /\
  updates s s' [BPF_REG_0] dreg (λ m a,
    if a =? m_reg m dreg then u64 (m_mem m a + 1) else m_mem m a).
Proof.
  intros Hok Hn Hl0 Hd. unfold dt_cg_agg_count_impl. pose proof (ok_lab _ _ _ Hok) as H0.
  destruct (xalloc_r0 N HN s _ (ok_lev N HN s n Hok Hn) Hl0) as (s1 & -> & E1 & Hlev1 & Hl1).
  pose proof (frag_same s s1 E1) as F1. pose proof (pc_same s s1 E1) as Hpc1. cbn [mbind result_bind]. emits.
  set (s2 := cg_emitle (cg_emitle _ _ _ _) _ _ _).
  destruct (free_r0 N HN s2 (used N n)) as (s3 & -> & E3 & Hlev3 & Hl3); [by repeat apply lev_emitle|done|].
  pose proof (frag_same s2 s3 E3) as F3. pose proof (pc_same s2 s3 E3) as Hpc3. subst s2.
  exists s3. split; [done|]. split; [eapply (lev_ok N HN); [done|done| |done]|].
  { rewrite E3. cbn. by rewrite E1. }
  split; [done|]. split; [solve_frag|].
  intros P m Hh H64 Hal. pose proof (H64 dreg) as Hd64. split_last Hh Hh3. peel Hh. norm. rewrite Hpc3, Hpc1 in *.
  eexists. split; [|split].
  - do 1 ex. ex; [|reflexivity]. rewrite addr_0 by (by regs). by regs.
  - intros r Hr%not_elem_of_cons. destruct Hr as [Hr _]. by regs.
  - intros a. rewrite addr_0 by (by regs). regs. simpl. unfold upd.
    destruct (Z.eqb_spec a (m_reg m dreg)) as [-> |]; [done|done].
Qed.

(** A final atomic add to word [i]. *)
Lemma xadd_ok s dreg i vreg o :
  o = 8 * i -> 0 <= i < 16 ->
  frag [] s (cg_emit s (BPF_XADD_REG BPF_DW dreg o vreg)) /\
  updates s (cg_emit s (BPF_XADD_REG BPF_DW dreg o vreg)) [] dreg (λ m a,
    if a =? word (m_reg m dreg) i then u64 (m_mem m a + m_reg m vreg) else m_mem m a).
Proof.
  intros Ho Hi. emits. split; [solve_frag|]. intros P m Hh H64 Hal. peel Hh. norm. eexists. split; [|split].
  - ex; [|reflexivity]. rewrite (addr_word m dreg i o) by done. by apply word_aligned.
  - done.
  - intros a. rewrite (addr_word m dreg i o) by done. simpl. unfold upd.
    by destruct (Z.eqb_spec a (word (m_reg m dreg) i)) as [-> |].
Qed.

Lemma avg_impl_ok s n dreg vreg :
  ok N s n -> (n <= N)%nat -> level (cg_regs s) 0 = 0 -> dreg <> 0 -> vreg <> 0 ->
  exists s', dt_cg_agg_avg_impl s dreg vreg = Ok s' /\ ok N s' n /\ level (cg_regs s') 0 = 0 /\ frag [] s s' /\
  updates s s' [BPF_REG_0] dreg (λ m a,
    if a =? m_reg m dreg then u64 (m_mem m a + 1)
    else if a =? word (m_reg m dreg) 1 then u64 (m_mem m a + m_reg m vreg) else m_mem m a).
Proof.
  intros Hok Hn Hl0 Hd Hv. unfold dt_cg_agg_avg_impl. pose proof (ok_lab _ _ _ Hok) as H0.
  destruct (xalloc_r0 N HN s _ (ok_lev N HN s n Hok Hn) Hl0) as (s1 & -> & E1 & Hlev1 & Hl1).
  pose proof (frag_same s s1 E1) as F1. pose proof (pc_same s s1 E1) as Hpc1. cbn [mbind result_bind]. emits.
  set (s2 := cg_emitle (cg_emitle _ _ _ _) _ _ _).
  destruct (free_r0 N HN s2 (used N n)) as (s3 & -> & E3 & Hlev3 & Hl3); [by repeat apply lev_emitle|done|].
  pose proof (frag_same s2 s3 E3) as F3. pose proof (pc_same s2 s3 E3) as Hpc3. subst s2. cbn [mbind result_bind].
  eexists. split; [done|]. split; [eapply (lev_ok N HN); [by apply lev_emitle|done| |done]|].
  { cbn. rewrite E3. cbn. by rewrite E1. }
  split; [done|]. split; [solve_frag|].
  intros P m Hh H64 Hal. pose proof (H64 dreg) as Hd64. peel Hh. split_last Hh Hh3. peel Hh. norm. rewrite Hpc3, Hpc1 in *.
  assert (word (m_reg m dreg) 1 <> m_reg m dreg) as Hne.
  { rewrite <- (word_0 (m_reg m dreg)) at 2 by done. intros E%word_inj; lia. }
  eexists. split; [|split].
  - ex. ex; [rewrite addr_0 by (by regs); by regs|]. ex; [|reflexivity].
    rewrite (addr_word _ dreg 1 8) by lia. apply word_aligned. by regs.
  - intros r Hr%not_elem_of_cons. destruct Hr as [Hr _]. by regs.
  - intros a. rewrite (addr_word _ dreg 1 8) by lia. regs. rewrite addr_0 by (by regs). regs. simpl. unfold upd.
    destruct (Z.eqb_spec a (m_reg m dreg)) as [-> |]; [by rewrite (proj2 (Z.eqb_neq _ _)) by congruence|].
    destruct (Z.eqb_spec a (word (m_reg m dreg) 1)) as [-> |]; [|done].
    by rewrite (proj2 (Z.eqb_neq _ _) Hne).
Qed.

(** *** stddev() *)

Section Words.
Variables (P : list dt_irnode) (k : nat) (m : mstate) (y : nat * mstate) (dreg d i o : Z).
Hypothesis Hd : m_reg m dreg = d.
Hypothesis Ho : o = 8 * i.
Hypothesis Hi : 0 <= i < 16.
Hypothesis Hal : aligned d = true.

Lemma run_xadd l r : at_ P k l (BPF_XADD_REG BPF_DW dreg o r) ->
  runs call P (S k, set_mem m (word d i) (u64 (m_mem m (word d i) + m_reg m r))) y -> runs call P (k, m) y.
Proof.
  intros [Hf _] H. assert (addr_of m dreg (s16 o) = word d i) as Ea by (rewrite <- Hd; by apply addr_word).
  eapply runs_step; [eapply step_xadd; [exact Hf|rewrite Ea; by apply word_aligned]|]. by rewrite Ea.
Qed.
Lemma run_store l r : at_ P k l (BPF_STORE BPF_DW dreg o r) ->
  runs call P (S k, set_mem m (word d i) (m_reg m r)) y -> runs call P (k, m) y.
Proof.
  intros [Hf _] H. assert (addr_of m dreg (s16 o) = word d i) as Ea by (rewrite <- Hd; by apply addr_word).
  eapply runs_step; [eapply step_store; [exact Hf|rewrite Ea; by apply word_aligned]|]. by rewrite Ea.
Qed.
Lemma run_load l r : at_ P k l (BPF_LOAD BPF_DW r dreg o) ->
  runs call P (S k, set_reg m r (m_mem m (word d i))) y -> runs call P (k, m) y.
Proof.
  intros [Hf _] H. assert (addr_of m dreg (s16 o) = word d i) as Ea by (rewrite <- Hd; by apply addr_word).
  eapply runs_step; [eapply step_load; [exact Hf|rewrite Ea; by apply word_aligned]|]. by rewrite Ea.
Qed.
End Words.

(** The end of [dt_cg_agg_stddev_impl]: the carry, the low and the high half. *)
Lemma stddev_tail P q m dreg onereg lowreg hreg lbl d lo h (b : bool) :
  m_reg m dreg = d -> m_reg m onereg = 1 -> m_reg m lowreg = lo -> m_reg m hreg = h -> aligned d = true ->
  at_ P (6 + q) 0 (BPF_XADD_REG BPF_DW dreg 24 onereg) ->
  at_ P (7 + q) lbl (BPF_STORE BPF_DW dreg 16 lowreg) ->
  at_ P (8 + q) 0 (BPF_XADD_REG BPF_DW dreg 24 hreg) ->
  exists m', runs call P (if b then 7 + q else 6 + q, m)%nat (9 + q, m')%nat /\
    (forall r, m_reg m' r = m_reg m r) /\
    forall a, m_mem m' a =
      if a =? word d 2 then lo
      else if a =? word d 3 then u64 (m_mem m a + (if b then 0 else 1) + h)
      else m_mem m a.
Proof.
  intros Hd Ho Hl Hh Hal A1 A2 A3.
  assert (word d 2 <> word d 3) as Hne by (intros E%word_inj; lia).
  destruct b; eexists; (split; [|split]).
  - eapply (run_store _ _ _ _ dreg d 2); [done|done|lia|done|exact A2|].
    eapply (run_xadd _ _ _ _ dreg d 3); [done|done|lia|done|exact A3|reflexivity].
  - done.
  - intros a. regs. rewrite (mem_other _ (word d 2) (word d 3)), Hl, Hh by congruence. simpl. unfold upd.
    destruct (Z.eqb_spec a (word d 2)) as [-> |]; [by rewrite (proj2 (Z.eqb_neq _ _))|].
    destruct (Z.eqb_spec a (word d 3)) as [-> |]; [|done]. by rewrite Z.add_0_r.
  - eapply (run_xadd _ _ _ _ dreg d 3); [done|done|lia|done|exact A1|].
    eapply (run_store _ _ _ _ dreg d 2); [done|done|lia|done|exact A2|].
    eapply (run_xadd _ _ _ _ dreg d 3); [done|done|lia|done|exact A3|reflexivity].
  - done.
  - intros a. regs. rewrite (mem_other _ (word d 2) (word d 3)), mem_same, Hl, Hh, Ho by congruence.
    simpl. unfold upd.
    destruct (Z.eqb_spec a (word d 2)) as [-> |]; [by rewrite (proj2 (Z.eqb_neq _ _))|].
    destruct (Z.eqb_spec a (word d 3)) as [-> |]; [|done]. by rewrite wrapu_add_l.
Qed.

Lemma stddev_impl_ok s n dreg vreg hreg lreg :
  ok N s n -> (S n < N)%nat -> lab s < 2 ^ 15 ->
  let onereg := Z.of_nat N - Z.of_nat n in let lowreg := Z.of_nat N - Z.of_nat (S n) in
  Forall (λ r, r <> onereg /\ r <> lowreg) [dreg; vreg; hreg; lreg] ->
  exists s', dt_cg_agg_stddev_impl s dreg vreg hreg lreg = Ok s' /\ ok N s' n /\ frag [] s s' /\
  updates s s' [onereg; lowreg] dreg (λ m a,
    let d := m_reg m dreg in
    let lo := u64 (m_mem m (word d 2) + m_reg m lreg) in
    if a =? word d 0 then u64 (m_mem m a + 1)
    else if a =? word d 1 then u64 (m_mem m a + m_reg m vreg)
    else if a =? word d 2 then lo
    else if a =? word d 3 then
      u64 (m_mem m a + (if m_reg m lreg <=? lo then 0 else 1) + m_reg m hreg)
    else m_mem m a).
Proof.
  intros Hok Hn Hlab onereg lowreg Hdist. unfold dt_cg_agg_stddev_impl. first_label s s1.
  alloc_step s1 s2. alloc_step s2 s3. emits. fold onereg lowreg.
  apply Forall_cons in Hdist as [[D1 D2] Hdist]. apply Forall_cons in Hdist as [[V1 V2] Hdist].
  apply Forall_cons in Hdist as [[R1 R2] Hdist]. apply Forall_cons in Hdist as [[L1 L2] _].
  assert (onereg <> lowreg) as Hol by lia.
  pose proof (ok_lev N HN s3 (S (S n)) Hok2 ltac:(lia)) as Hlev.
  free_reg s4. free_reg s5. exists s5. split; [done|].
  assert (lab s5 = lab s + 1) as E5 by (rewrite Eir2, Eir1; cbn; by rewrite Eir0, Eir).
  split; [eapply (lev_ok N HN s5 n); [done|lia|lia|]|].
  { intros r Hr. unfold used, c_bool. subst onereg lowreg. repeat case_cmp; lia. }
  split; [solve_frag|].
  intros P m Hh H64 Hal. split_last Hh Hh5. split_last Hh Hh4. peel Hh. norm.
  rewrite Hpc2, Hpc1, Hpc0, Hpc, Hpcl in *. set (d := m_reg m dreg) in *.
  set (lo := u64 (m_mem m (word d 2) + m_reg m lreg)).
  assert (forall i j, 0 <= i < 16 -> 0 <= j < 16 -> i <> j -> word d i <> word d j) as Hw
    by (intros i j Hi Hj Hij E; by apply word_inj in E).
  set (m0 := set_reg (set_reg (set_mem (set_mem (set_reg m onereg 1) (word d 0)
      (u64 (m_mem m (word d 0) + 1))) (word d 1) (u64 (m_mem m (word d 1) + m_reg m vreg)))
      lowreg (m_mem m (word d 2))) lowreg lo).
  destruct (stddev_tail P (pc s) m0 dreg onereg lowreg hreg (lab s) d lo (m_reg m hreg) (m_reg m lreg <=? lo))
    as (m' & Hrun & Hregs & Hmem); [subst m0; by regs..|done|eassumption|eassumption|eassumption|].
  exists m'. split; [|split].
  - ex. eapply (run_xadd _ _ _ _ dreg d 0); [by regs|done|lia|done|eassumption|]. regs.
    eapply (run_xadd _ _ _ _ dreg d 1); [by regs|done|lia|done|eassumption|]. regs.
    eapply (run_load _ _ _ _ dreg d 2); [by regs|done|lia|done|eassumption|].
    rewrite !mem_other by (apply Hw; lia). ex. regs.
    eapply (runs_branch_reg _ _ _ _ _ _ _ _ (m_reg m lreg <=? lo)); [eassumption..|lia|done| |].
    { by regs. }
    exact Hrun.
  - intros r Hr. rewrite Hregs. apply not_elem_of_cons in Hr as [? Hr]. apply not_elem_of_cons in Hr as [? _].
    subst m0. by regs.
  - intros a. rewrite Hmem. subst m0. regs.
    destruct (Z.eqb_spec a (word d 0)) as [-> |H0'].
    { rewrite !(proj2 (Z.eqb_neq (word d 0) _)) by (apply Hw; lia). rewrite mem_other by (apply Hw; lia). by rewrite mem_same. }
    destruct (Z.eqb_spec a (word d 1)) as [-> |H1'].
    { rewrite !(proj2 (Z.eqb_neq (word d 1) _)) by (apply Hw; lia). by rewrite mem_same. }
    by rewrite !mem_other by done.
Qed.

Lemma alu_lsh a n : 0 <= n < 64 -> u64 (Z.shiftl a (u64 (s32 n) `mod` 64)) = u64 (a * 2 ^ n).
Proof.
  intros Hn. rewrite wraps_small, (wrapu_small 64 n), Z.mod_small by lia. by rewrite Z.shiftl_mul_pow2 by lia.
Qed.
Lemma alu_rsh a n : 0 <= n < 64 -> Z.shiftr a (u64 (s32 n) `mod` 64) = a `div` 2 ^ n.
Proof.
  intros Hn. rewrite wraps_small, (wrapu_small 64 n), Z.mod_small by lia. by rewrite Z.shiftr_div_pow2 by lia.
Qed.

Lemma s64_0_le a : (s64 (u64 (s32 0)) <=? s64 a) = negb (s64 a <? 0).
Proof. change (s64 (u64 (s32 0))) with 0. by rewrite Z.leb_antisym. Qed.

(** The absolute value of [vreg] goes to [r]. *)
Lemma run_abs P q m r vreg L i : 0 < L < 2 ^ 15 -> in64 (m_reg m vreg) ->
  at_ P q 0 (BPF_MOV_REG r vreg) -> at_ P (S q) 0 (BPF_BRANCH_IMM BPF_JSGE r 0 L) ->
  at_ P (S (S q)) 0 (BPF_NEG_REG r) -> at_ P (S (S (S q))) L i ->
  exists m', runs call P (q, m) (S (S (S q)), m') /\ m_mem m' = m_mem m /\
    m_reg m' r = Z.abs (s64 (m_reg m vreg)) /\ forall r', r' <> r -> m_reg m' r' = m_reg m r'.
Proof.
  intros HL Hv A1 A2 A3 A4. rewrite abs_s64 by done. set (v := m_reg m vreg) in *.
  destruct (s64 v <? 0) eqn:Es; [exists (set_reg (set_reg m r v) r (u64 (- v)))|exists (set_reg m r v)];
    (split; [|split; [done|split; [by regs|intros r' Hr; by regs]]]).
  - ex. eapply (runs_branch_imm _ _ _ _ _ _ _ _ false); [eassumption..|done| |].
    { regs. change (Some (s64 (u64 (s32 0)) <=? s64 v) = Some false). by rewrite s64_0_le, Es. }
    ex. by regs.
  - ex. eapply (runs_branch_imm _ _ _ _ _ _ _ _ true); [eassumption..|done| |reflexivity].
    regs. change (Some (s64 (u64 (s32 0)) <=? s64 v) = Some true). by rewrite s64_0_le, Es.
Qed.

Lemma stddev_square_ok s0 s n Lpos Lncy vreg :
  frag [Lncy; Lpos] s0 s -> 0 < lab s0 -> lab s <= 2 ^ 15 ->
  ok N s n -> (n + 3 < N)%nat ->
  let hi_reg := Z.of_nat N - Z.of_nat n in let lowreg := Z.of_nat N - Z.of_nat (S n) in
  let midreg := Z.of_nat N - Z.of_nat (S (S n)) in let lmdreg := Z.of_nat N - Z.of_nat (S (S (S n))) in
  exists s', stddev_square s Lpos Lncy vreg = Ok (hi_reg, lowreg, s') /\ ok N s' (S (S n)) /\ frag [] s0 s' /\
  forall P m, hosts P s s' -> (forall r, in64 (m_reg m r)) ->
    exists m', runs call P (pc s, m) (pc s', m') /\ m_mem m' = m_mem m /\
      (forall r, r ∉ [hi_reg; lowreg; midreg; lmdreg] -> m_reg m' r = m_reg m r) /\
      in64 (m_reg m' hi_reg) /\ in64 (m_reg m' lowreg) /\
      m_reg m' hi_reg * 2 ^ 64 + m_reg m' lowreg = s64 (m_reg m vreg) * s64 (m_reg m vreg).
Proof.
  intros Hf H0 Hlab Hok Hn hi_reg lowreg midreg lmdreg. unfold stddev_square.
  alloc_step s s1. alloc_step s1 s2. alloc_step s2 s3. alloc_step s3 s4. emits.
  fold hi_reg lowreg midreg lmdreg.
  assert (lab s0 <= Lpos < lab s /\ lab s0 <= Lncy < lab s) as [HLp HLn].
  { destruct Hf as (_ & c & _ & _ & Hr & _). apply Forall_app in Hr as [Hr _].
    apply Forall_cons in Hr as [? Hr]. by apply Forall_cons in Hr as [? _]. }
  pose proof (ok_lev N HN s4 _ Hok3 ltac:(lia)) as Hlev. 
  free_reg s5. free_reg s6. exists s6. split; [done|].
  assert (lab s6 = lab s) as E6 by (rewrite Eir4, Eir3; cbn; by rewrite Eir2, Eir1, Eir0, Eir).
  pose proof (ok_lab _ _ _ Hok).
  split; [eapply (lev_ok N HN s6 (S (S n))); [done|lia|lia|]|].
  { intros r Hr. unfold used, c_bool. subst hi_reg lowreg midreg lmdreg. repeat case_cmp; lia. }
  split; [solve_frag|].
  intros P m Hh H64. split_last Hh Hh5. split_last Hh Hh4. peel Hh. norm.
  rewrite Hpc4, Hpc3, Hpc2, Hpc1, Hpc0, Hpc in *.
  assert (hi_reg <> lowreg /\ hi_reg <> midreg /\ hi_reg <> lmdreg /\ lowreg <> midreg /\ lowreg <> lmdreg /\
    midreg <> lmdreg) as (D1 & D2 & D3 & D4 & D5 & D6) by lia.
  clear Hh Hh4 Hh5. clearbody hi_reg lowreg midreg lmdreg.
  set (v := m_reg m vreg). set (x := Z.abs (s64 v)). set (q := pc s) in *.
  pose proof (wraps_range 64 v ltac:(lia)) as Rv. change (2 ^ (64 - 1)) with (2 ^ 63) in Rv.
  pose proof (square_halves x ltac:(lia)) as Hsq. cbv zeta in Hsq.
  set (lo32 := u64 (x * 2 ^ 32) `div` 2 ^ 32) in Hsq. set (hi32 := x `div` 2 ^ 32) in Hsq.
  set (mid := u64 (lo32 * hi32)) in Hsq. set (lmd := u64 (mid * 2 ^ 33)) in Hsq.
  set (lo := u64 (u64 (lo32 * lo32) + lmd)) in Hsq.
  destruct (run_abs P q m lowreg vreg Lpos (BPF_MOV_REG hi_reg lowreg) ltac:(lia) (H64 vreg))
    as (m2 & Hr2 & Hm2 & Hx & Ho); [eassumption..|]. fold v x in Hx.
  set (m3 := set_reg (set_reg (set_reg (set_reg (set_reg (set_reg (set_reg (set_reg (set_reg (set_reg (set_reg (set_reg
    m2 hi_reg x) lowreg (u64 (x * 2 ^ 32))) lowreg lo32) hi_reg hi32) midreg lo32) midreg mid)
    lowreg (u64 (lo32 * lo32))) hi_reg (u64 (hi32 * hi32))) lmdreg mid) lmdreg lmd)
    midreg (mid `div` 2 ^ 31)) lowreg lo).
  assert (runs call P (q, m) (15 + q, m3)%nat) as Hr3.
  { etrans; [exact Hr2|]. do 12 (ex; regs; rewrite ?Hx, ?alu_lsh, ?alu_rsh by lia). reflexivity. }
  exists (set_reg (if lmd <=? lo then m3 else set_reg m3 hi_reg (u64 (u64 (hi32 * hi32) + 1))) hi_reg
    (u64 (u64 (u64 (hi32 * hi32) + (if lmd <=? lo then 0 else 1)) + mid `div` 2 ^ 31))).
  split; [|split; [|split; [|split; [|split]]]].
  - etrans; [exact Hr3|]. eapply (runs_branch_reg _ _ _ _ _ _ _ _ (lmd <=? lo)); [eassumption..|lia|done| |].
    { subst m3. by regs. }
    destruct (lmd <=? lo).
    + ex. subst m3. regs. rewrite Z.add_0_r, (wrapu_idem 64) by lia. reflexivity.
    + ex. subst m3. regs. ex. regs. reflexivity.
  - subst m3. by destruct (lmd <=? lo).
  - intros r Hr. apply not_elem_of_cons in Hr as [? Hr]. apply not_elem_of_cons in Hr as [? Hr].
    apply not_elem_of_cons in Hr as [? Hr]. apply not_elem_of_cons in Hr as [? _].
    rewrite reg_other by done. subst m3. destruct (lmd <=? lo); regs; by apply Ho.
  - regs. auto with cint.
  - subst m3. destruct (lmd <=? lo); regs; apply wrapu_range; lia.
  - assert (forall b : bool, m_reg (if b then m3 else set_reg m3 hi_reg (u64 (u64 (hi32 * hi32) + 1))) lowreg = lo)
      as El by (intros []; subst m3; by regs).
    regs. rewrite El, Hsq. subst x. lia.
Qed.

(** *** llquantize() *)

(** What the bin of a value is: below the smallest magnitude the middle bin,
    beyond the largest the first or the last, and in between bin
    [x * steps / factor ^ (mag + 1)] of magnitude [mag], less the bins that
    belong to lower magnitudes, counted from the middle. *)
Definition llq_underflow (factor lmag hmag steps : Z) : Z :=
  1 + (hmag - lmag + 1) * (steps - steps `div` factor).

Definition llq_bin (factor lmag hmag steps v b : Z) : Prop :=
  let x := Z.abs v in
  let u := llq_underflow factor lmag hmag steps in
  let away k := if v <? 0 then u - k else u + k in
  (x < factor ^ lmag -> b = u) /\
  (factor ^ (hmag + 1) <= x -> b = if v <? 0 then 0 else 2 * u) /\
  (forall mag, lmag <= mag <= hmag -> factor ^ mag <= x < factor ^ (mag + 1) ->
    b = away ((mag - lmag) * (steps - steps `div` factor) +
              ((x * steps) `div` factor ^ (mag + 1) - steps `div` factor) + 1)) /\
  0 <= b <= 2 * u.

Section Llquantize.
Context (factor lmag hmag steps : Z) (Hlm : 0 <= lmag) (Hhm : 0 <= hmag).
Context (Hargs : llquantize_args_ok factor lmag hmag steps = true).

Lemma llq_args : 2 <= factor <= 65535 /\ lmag <= hmag /\ factor ^ (hmag + 1) < 2 ^ 64 /\ 1 <= steps <= 65535.
Proof. unfold llquantize_args_ok in Hargs. b2p. lia. Qed.

Lemma llq_pow a b : 0 <= a <= b -> 1 <= factor ^ a <= factor ^ b.
Proof.
  pose proof llq_args. intros Hab. split; [|apply Z.pow_le_mono_r; lia].
  pose proof (Z.pow_pos_nonneg factor a). lia.
Qed.

Lemma llq_hmag : hmag <= 62.
Proof.
  pose proof llq_args. destruct (Z.le_gt_cases hmag 62); [done|].
  pose proof (Z.pow_le_mono_l 2 factor (hmag + 1) ltac:(lia)).
  pose proof (Z.pow_le_mono_r 2 64 (hmag + 1)). lia.
Qed.

Lemma llq_divide mag : lmag <= mag -> 1 <= mag -> (steps | factor ^ (mag + 1)).
Proof.
  pose proof llq_args. intros Hm H1.
  assert (forall k, 0 <= k <= mag + 1 -> (factor ^ k | factor ^ (mag + 1))) as Hk.
  { intros k Hk. exists (factor ^ (mag + 1 - k)). rewrite <- Z.pow_add_r by lia. f_equal. lia. }
  unfold llquantize_args_ok in Hargs. destruct (Z.lt_trichotomy steps factor) as [Hlt|[-> |Hgt]].
  - transitivity (factor ^ 1); [|apply Hk; lia]. rewrite Z.pow_1_r. apply Z.mod_divide; [lia|]. b2p. lia.
  - transitivity (factor ^ 1); [by rewrite Z.pow_1_r|apply Hk; lia].
  - destruct (Z.eqb_spec lmag 0).
    + transitivity (factor ^ 2); [|apply Hk; lia]. rewrite Z.pow_2_r. apply Z.mod_divide; [lia|]. b2p. lia.
    + transitivity (factor ^ (lmag + 1)); [|apply Hk; lia]. apply Z.mod_divide; [lia|]. b2p. lia.
Qed.

Lemma llq_ind mag x : lmag <= mag <= hmag -> factor ^ mag <= x < factor ^ (mag + 1) ->
  steps `div` factor <= (x * steps) `div` factor ^ (mag + 1) < steps.
Proof.
  pose proof llq_args. intros Hm Hx. pose proof (llq_pow mag mag ltac:(lia)).
  pose proof (llq_pow (mag + 1) (mag + 1) ltac:(lia)). split.
  - rewrite <- (Z.div_mul_cancel_l steps factor (factor ^ mag)) by lia.
    replace (factor ^ mag * factor) with (factor ^ (mag + 1)) by (rewrite Z.pow_add_r; lia).
    apply Z.div_le_mono; nia.
  - apply Z.div_lt_upper_bound; nia.
Qed.

Abbreviation sf := (steps `div` factor).
Abbreviation ub := (llq_underflow factor lmag hmag steps).

Lemma llq_sf : 0 <= sf <= steps.
Proof.
  pose proof llq_args. split; [apply Z.div_pos; lia|]. apply Z.div_le_upper_bound; nia.
Qed.

Lemma llq_ub : 1 <= ub < 2 ^ 31 /\ 1 + (hmag - lmag + 1) * (steps - Z.quot steps factor) = ub.
Proof.
  pose proof llq_args. pose proof llq_sf. pose proof llq_hmag. unfold llq_underflow.
  rewrite Z.quot_div_nonneg by lia. nia.
Qed.

Lemma imm_small c : 0 <= c < 2 ^ 31 -> u64 (s32 c) = c.
Proof. intros Hc. rewrite wraps_small, wrapu_small; lia. Qed.

Lemma mul_m1 a : u64 (a * u64 (s32 (-1))) = u64 (- a).
Proof.
  change (u64 (s32 (-1))) with (u64 (-1)). unfold wrapu. rewrite Z.mul_mod_idemp_r by lia. f_equal. lia.
Qed.

(** *** The parts of the code, run *)

Variables (P : list dt_irnode) (q : nat) (valreg indreg magreg tmpreg maxreg : Z).
Variables (L1 L2 L3 L4 Lloop Lbin Lshift Lend : Z).
Hypothesis Hlabs : Forall (λ l, 0 < l < 2 ^ 15) [L1; L2; L3; L4; Lloop; Lbin; Lshift; Lend].
Hypothesis Hdist : NoDup [valreg; indreg; magreg; tmpreg; maxreg].

Definition llq_code : Prop :=
  (at_ P (0 + q) 0 (BPF_MOV_REG tmpreg valreg) /\
   at_ P (1 + q) 0 (BPF_BRANCH_IMM BPF_JSGE valreg 0 L1) /\
   at_ P (2 + q) 0 (BPF_ALU64_IMM BPF_MUL tmpreg (-1)) /\
   at_ P (3 + q) L1 (BPF_MOV_IMM magreg ub) /\
   at_ P (4 + q) 0 (BPF_LDDW maxreg (factor ^ lmag)).1 /\
   at_ P (5 + q) 0 (BPF_LDDW maxreg (factor ^ lmag)).2 /\
   at_ P (6 + q) 0 (BPF_BRANCH_REG BPF_JLT tmpreg maxreg Lend) /\
   at_ P (7 + q) 0 (BPF_MOV_IMM magreg lmag) /\
   at_ P (8 + q) 0 (BPF_MOV_IMM indreg 0)) /\
  (at_ P (9 + q) Lloop (BPF_ALU64_IMM BPF_MUL maxreg factor) /\
   at_ P (10 + q) 0 (BPF_BRANCH_REG BPF_JLT tmpreg maxreg Lbin) /\
   at_ P (11 + q) 0 (BPF_ALU64_IMM BPF_ADD magreg 1) /\
   at_ P (12 + q) 0 (BPF_BRANCH_IMM BPF_JGT magreg hmag Lshift) /\
   at_ P (13 + q) 0 (BPF_JUMP Lloop)) /\
  (at_ P (14 + q) Lbin (BPF_MOV_REG indreg tmpreg) /\
   at_ P (15 + q) 0 (BPF_BRANCH_IMM BPF_JEQ magreg 0 L2) /\
   at_ P (16 + q) 0 (BPF_ALU64_IMM BPF_DIV maxreg steps) /\
   at_ P (17 + q) 0 (BPF_JUMP L3) /\
   at_ P (18 + q) L2 (BPF_ALU64_IMM BPF_MUL indreg steps) /\
   at_ P (19 + q) L3 (BPF_ALU64_REG BPF_DIV indreg maxreg) /\
   at_ P (20 + q) 0 (BPF_ALU64_IMM BPF_SUB indreg sf)) /\
  (at_ P (21 + q) Lshift (BPF_ALU64_IMM BPF_SUB magreg lmag) /\
   at_ P (22 + q) 0 (BPF_ALU64_IMM BPF_MUL magreg (steps - sf)) /\
   at_ P (23 + q) 0 (BPF_ALU64_REG BPF_ADD magreg indreg) /\
   at_ P (24 + q) 0 (BPF_ALU64_IMM BPF_ADD magreg 1) /\
   at_ P (25 + q) 0 (BPF_BRANCH_IMM BPF_JSGE valreg 0 L4) /\
   at_ P (26 + q) 0 (BPF_ALU64_IMM BPF_MUL magreg (-1)) /\
   at_ P (27 + q) L4 (BPF_ALU64_IMM BPF_ADD magreg ub) /\
   at_ P (28 + q) Lend (BPF_MOV_REG valreg magreg)).
Hypothesis Hcode : llq_code.

Lemma llq_dist :
  (valreg <> indreg /\ valreg <> magreg /\ valreg <> tmpreg /\ valreg <> maxreg) /\
  (indreg <> magreg /\ indreg <> tmpreg /\ indreg <> maxreg) /\
  (magreg <> tmpreg /\ magreg <> maxreg) /\ tmpreg <> maxreg.
Proof.
  clear - Hdist. repeat (apply NoDup_cons in Hdist as [? Hdist]).
  repeat match goal with H : _ ∉ _ :: _ |- _ => apply not_elem_of_cons in H as [? H] end. done.
Qed.

Ltac llq_start :=
  destruct llq_dist as ((? & ? & ? & ?) & (? & ? & ?) & (? & ?) & ?);
  pose proof llq_args; pose proof llq_sf; pose proof llq_hmag; pose proof (proj1 llq_ub);
  destruct Hcode as (Hc1 & Hc2 & Hc3 & Hc4); clear Hcode Hargs Hdist;
  pose proof Hlabs as Hls; repeat (apply Forall_cons in Hls as [? Hls]); clear Hls Hlabs.

(** From [Lshift] to the end. *)
Lemma llq_run_shift m mag ind :
  m_reg m magreg = mag -> m_reg m indreg = ind -> in64 (m_reg m valreg) -> lmag <= mag <= hmag + 1 ->
  0 <= ind -> let k := (mag - lmag) * (steps - sf) + ind + 1 in k <= ub ->
  exists m', runs call P (21 + q, m)%nat (29 + q, m')%nat /\ m_mem m' = m_mem m /\
    (forall r, r ∉ [valreg; magreg] -> m_reg m' r = m_reg m r) /\
    m_reg m' valreg = if s64 (m_reg m valreg) <? 0 then ub - k else ub + k.
Proof.
  intros Hm Hi Hv Hr H0 k Hk. llq_start. destruct Hc4 as (A1 & A2 & A3 & A4 & A5 & A6 & A7 & A8).
  assert (0 <= (mag - lmag) * (steps - sf)) by (apply Z.mul_nonneg_nonneg; lia).
  assert ((mag - lmag) * (steps - sf) = k - ind - 1) as Ek by lia.
  set (m4 := set_reg (set_reg (set_reg (set_reg m magreg (mag - lmag)) magreg (k - ind - 1))
    magreg (k - 1)) magreg k).
  assert (runs call P (21 + q, m)%nat (25 + q, m4)%nat) as Hr4.
  { ex. rewrite Hm, imm_small, wrapu_small by lia.
    ex. regs. rewrite imm_small, Ek, wrapu_small by lia.
    ex. regs. rewrite Hi. replace (k - ind - 1 + ind) with (k - 1) by lia. rewrite wrapu_small by lia.
    ex. regs. rewrite imm_small by lia. replace (k - 1 + 1) with k by lia. rewrite wrapu_small by lia.
    reflexivity. }
  assert (1 <= k) by lia. clearbody k. set (v := m_reg m valreg) in *.
  destruct (s64 v <? 0) eqn:Es.
  - exists (set_reg (set_reg (set_reg m4 magreg (u64 (- k))) magreg (ub - k)) valreg (ub - k)).
    split; [|split; [done|split; [|by regs]]].
    + etrans; [exact Hr4|].
      eapply (runs_branch_imm _ _ _ _ _ _ _ _ false); [eassumption..|done| |].
      { subst m4. regs. change (Some (s64 (u64 (s32 0)) <=? s64 v) = Some false). by rewrite s64_0_le, Es. }
      subst m4. ex. regs. rewrite mul_m1. ex. regs. rewrite imm_small, wrapu_add_l by lia.
      replace (- k + ub) with (ub - k) by lia. rewrite (wrapu_small 64 (ub - k)) by lia. ex. by regs.
    + intros r Hr'. apply not_elem_of_cons in Hr' as [? Hr']. apply not_elem_of_cons in Hr' as [? _].
      subst m4. by regs.
  - exists (set_reg (set_reg m4 magreg (ub + k)) valreg (ub + k)).
    split; [|split; [done|split; [|by regs]]].
    + etrans; [exact Hr4|].
      eapply (runs_branch_imm _ _ _ _ _ _ _ _ true); [eassumption..|done| |].
      { subst m4. regs. change (Some (s64 (u64 (s32 0)) <=? s64 v) = Some true). by rewrite s64_0_le, Es. }
      subst m4. ex. regs. rewrite imm_small by lia.
      replace (k + ub) with (ub + k) by lia. rewrite (wrapu_small 64 (ub + k)) by lia. ex. by regs.
    + intros r Hr'. apply not_elem_of_cons in Hr' as [? Hr']. apply not_elem_of_cons in Hr' as [? _].
      subst m4. by regs.
Qed.

(** From [Lbin]: the bin within the magnitude. *)
Lemma llq_run_bin m mag x :
  m_reg m magreg = mag -> m_reg m tmpreg = x -> m_reg m maxreg = factor ^ (mag + 1) ->
  lmag <= mag <= hmag -> factor ^ mag <= x < factor ^ (mag + 1) ->
  exists m', runs call P (14 + q, m)%nat (21 + q, m')%nat /\ m_mem m' = m_mem m /\
    (forall r, r ∉ [indreg; maxreg] -> m_reg m' r = m_reg m r) /\
    m_reg m' indreg = (x * steps) `div` factor ^ (mag + 1) - sf.
Proof.
  intros Hm Hx Hmax Hr Hxr.
  pose proof (llq_ind mag x Hr Hxr) as Hind. pose proof (llq_divide mag ltac:(lia)) as Hdiv.
  pose proof (llq_pow (mag + 1) (hmag + 1) ltac:(lia)) as Hp. pose proof (proj1 (llq_pow mag mag ltac:(lia))).
  llq_start. destruct Hc3 as (A1 & A2 & A3 & A4 & A5 & A6 & A7).
  set (F := factor ^ (mag + 1)) in *. set (I := (x * steps) `div` F) in *.
  assert (exists m', runs call P (14 + q, m)%nat (20 + q, m')%nat /\ m_mem m' = m_mem m /\
    (forall r, r ∉ [indreg; maxreg] -> m_reg m' r = m_reg m r) /\ m_reg m' indreg = I)
    as (m1 & Hr1 & Hm1 & Ho1 & Hi1).
  { destruct (Z.eqb_spec mag 0) as [E0|E0].
    - exists (set_reg (set_reg (set_reg m indreg x) indreg (x * steps)) indreg I).
      split; [|split; [done|split; [|by regs]]].
      + ex. rewrite Hx. eapply (runs_branch_imm _ _ _ _ _ _ _ _ true); [eassumption..|done| |].
        { regs. rewrite Hm, E0. done. }
        assert (F = factor) as EF by (subst F; rewrite E0; apply Z.pow_1_r).
        assert (0 <= x * steps <= 65535 * 65535).
        { split; [apply Z.mul_nonneg_nonneg; lia|].
          apply Z.mul_le_mono_nonneg; lia. }
        ex. regs. rewrite imm_small, (wrapu_small 64 (x * steps)) by lia.
        ex. regs. rewrite Hmax, (proj2 (Z.eqb_neq F 0)) by lia. reflexivity.
      + intros r Hr'. apply not_elem_of_cons in Hr' as [? Hr']. by regs.
    - exists (set_reg (set_reg (set_reg m indreg x) maxreg (F `div` steps)) indreg I).
      split; [|split; [done|split; [|by regs]]].
      + ex. rewrite Hx. eapply (runs_branch_imm _ _ _ _ _ _ _ _ false); [eassumption..|done| |].
        { regs. rewrite Hm. change (Some (mag =? 0) = Some false). by rewrite (proj2 (Z.eqb_neq mag 0)). }
        destruct (Hdiv ltac:(lia)) as [c Ec].
        assert (F `div` steps = c) as EF by (rewrite Ec; apply Z.div_mul; lia).
        assert (c <> 0) by (intros ->; lia).
        assert (x `div` c = I) as EI by (subst I; rewrite Ec; symmetry; apply Z.div_mul_cancel_r; lia).
        ex. regs. rewrite Hmax, imm_small, (proj2 (Z.eqb_neq steps 0)) by lia.
        eapply runs_jump; [eassumption..|done|]. ex. regs.
        rewrite EF, (proj2 (Z.eqb_neq c 0)), EI by done. reflexivity.
      + intros r Hr'. apply not_elem_of_cons in Hr' as [? Hr']. apply not_elem_of_cons in Hr' as [? _]. by regs. }
  exists (set_reg m1 indreg (I - sf)). split; [|split; [done|split; [|by regs]]].
  - etrans; [exact Hr1|]. ex. rewrite Hi1, imm_small, wrapu_small by lia. reflexivity.
  - intros r Hr'. rewrite reg_other by (apply not_elem_of_cons in Hr' as [? _]; done). by apply Ho1.
Qed.

(** One round of the search for the magnitude. *)
Lemma llq_run_round m mag x :
  m_reg m magreg = mag -> m_reg m tmpreg = x -> m_reg m maxreg = factor ^ mag -> lmag <= mag <= hmag ->
  let F := factor ^ (mag + 1) in
  runs call P (9 + q, m)%nat
    (if x <? F then ((14 + q)%nat, set_reg m maxreg F)
     else ((if hmag <? mag + 1 then (21 + q)%nat else (9 + q)%nat), set_reg (set_reg m maxreg F) magreg (mag + 1))).
Proof.
  intros Hm Hx Hmax Hr F. pose proof (llq_pow (mag + 1) (hmag + 1) ltac:(lia)) as Hp.
  assert (factor ^ mag * factor = F) as Ep by (subst F; rewrite Z.pow_add_r; lia). fold F in Hp.
  llq_start. destruct Hc2 as (A1 & A2 & A3 & A4 & A5), Hc3 as (A6 & _), Hc4 as (A7 & _).
  ex. rewrite Hmax, imm_small, Ep, (wrapu_small 64 F) by lia.
  eapply (runs_branch_reg _ _ _ _ _ _ _ _ (x <? F)); [eassumption..|done|by regs; rewrite Hx|].
  destruct (x <? F); [reflexivity|]. ex. regs. rewrite Hm, imm_small, (wrapu_small 64 (mag + 1)) by lia.
  eapply (runs_branch_imm _ _ _ _ _ _ _ _ (hmag <? mag + 1)); [eassumption..|done| |].
  { regs. change (Some (u64 (s32 hmag) <? mag + 1) = Some (hmag <? mag + 1)). by rewrite imm_small by lia. }
  destruct (hmag <? mag + 1); [reflexivity|]. eapply runs_jump; [eassumption..|done|reflexivity].
Qed.

(** The search for the magnitude ends: with the magnitude of [x], or beyond the
    last one. *)
Lemma llq_run_loop m mag x :
  m_reg m magreg = mag -> m_reg m tmpreg = x -> m_reg m maxreg = factor ^ mag ->
  lmag <= mag <= hmag -> factor ^ mag <= x ->
  exists m', m_mem m' = m_mem m /\ (forall r, r ∉ [magreg; maxreg] -> m_reg m' r = m_reg m r) /\
    ((exists mag', lmag <= mag' <= hmag /\ factor ^ mag' <= x < factor ^ (mag' + 1) /\
        runs call P (9 + q, m)%nat (14 + q, m')%nat /\
        m_reg m' magreg = mag' /\ m_reg m' maxreg = factor ^ (mag' + 1)) \/
     (factor ^ (hmag + 1) <= x /\ runs call P (9 + q, m)%nat (21 + q, m')%nat /\ m_reg m' magreg = hmag + 1)).
Proof.
  remember (Z.to_nat (hmag - mag)) as k eqn:Hk. revert m mag Hk.
  induction k as [|k IH]; intros m mag Hk Hm Hx Hmax Hr Hge;
    pose proof (llq_run_round m mag x Hm Hx Hmax Hr) as R; simpl in R;
    destruct llq_dist as (_ & _ & (D1 & D2) & D3); set (F := factor ^ (mag + 1)) in *;
    (destruct (Z.ltb_spec x F) as [Hlt|Hge']; [
      exists (set_reg m maxreg F); split; [done|];
      split; [intros r [_ [? _]%not_elem_of_cons]%not_elem_of_cons; by regs|];
      left; exists mag; split; [lia|]; split; [done|]; split; [exact R|]; split; by regs|]).
  - rewrite (proj2 (Z.ltb_lt _ _)) in R by lia. eexists. split; [|split; [|right; split; [|split; [exact R|]]]].
    + done.
    + intros r [? [? _]%not_elem_of_cons]%not_elem_of_cons. by regs.
    + by replace (hmag + 1) with (mag + 1) by lia.
    + regs. lia.
  - rewrite (proj2 (Z.ltb_ge _ _)) in R by lia. set (m1 := set_reg (set_reg m maxreg F) magreg (mag + 1)) in *.
    destruct (IH m1 (mag + 1)) as (m' & Hmem & Hreg & Hout); [lia|subst m1; by regs..|lia|done|].
    exists m'. split; [done|]. split.
    + intros r Hr'. rewrite Hreg by done. apply not_elem_of_cons in Hr' as [? [? _]%not_elem_of_cons]. subst m1. by regs.
    + destruct Hout as [(g & Hg1 & Hg2 & Hrun & Hg3)|(Hg1 & Hrun & Hg2)]; [left|right].
      * exists g. split; [done|]. split; [done|]. split; [|done]. etrans; [exact R|exact Hrun].
      * split; [done|]. split; [|done]. etrans; [exact R|exact Hrun].
Qed.

(** Up to the check for underflow. *)
Lemma llq_run_start m : in64 (m_reg m valreg) -> let x := Z.abs (s64 (m_reg m valreg)) in
  exists m', runs call P (q, m) (if x <? factor ^ lmag then (28 + q)%nat else (7 + q)%nat, m') /\
    m_mem m' = m_mem m /\ (forall r, r ∉ [magreg; tmpreg; maxreg] -> m_reg m' r = m_reg m r) /\
    m_reg m' magreg = ub /\ m_reg m' tmpreg = x /\ m_reg m' maxreg = factor ^ lmag.
Proof.
  intros Hv x. pose proof (llq_pow lmag (hmag + 1)) as Hp. pose proof (abs_s64 _ Hv) as Ex. fold x in Ex.
  llq_start. specialize (Hp ltac:(lia)).
  destruct Hc1 as (A1 & A2 & A3 & A4 & A5 & A6 & A7 & _), Hc4 as (_ & _ & _ & _ & _ & _ & _ & A8).
  set (v := m_reg m valreg) in *.
  assert (exists m1, runs call P (q, m) (3 + q, m1)%nat /\ m_mem m1 = m_mem m /\
    (forall r, r ∉ [magreg; tmpreg; maxreg] -> m_reg m1 r = m_reg m r) /\ m_reg m1 tmpreg = x)
    as (m1 & R1 & Hm1 & Ho1 & Ht1).
  { rewrite Ex. destruct (s64 v <? 0) eqn:Es;
      [exists (set_reg (set_reg m tmpreg v) tmpreg (u64 (- v)))|exists (set_reg m tmpreg v)];
      (split; [|split; [done|split; [|by regs]]];
       [|intros r [_ [? _]%not_elem_of_cons]%not_elem_of_cons; by regs]).
    - ex. eapply (runs_branch_imm _ _ _ _ _ _ _ _ false); [eassumption..|done| |].
      { regs. change (Some (s64 (u64 (s32 0)) <=? s64 v) = Some false). by rewrite s64_0_le, Es. }
      ex. regs. rewrite mul_m1. reflexivity.
    - ex. eapply (runs_branch_imm _ _ _ _ _ _ _ _ true); [eassumption..|done| |reflexivity].
      regs. change (Some (s64 (u64 (s32 0)) <=? s64 v) = Some true). by rewrite s64_0_le, Es. }
  exists (set_reg (set_reg m1 magreg ub) maxreg (factor ^ lmag)). split; [|split; [done|split; [|split; [|split]]]].
  - etrans; [exact R1|]. ex. rewrite imm_small by lia.
    eapply runs_step; [eapply step_lddw; [exact (proj1 A5)|exact (proj1 A6)]|].
    rewrite (wrapu_small 64 (factor ^ lmag)) by lia.
    eapply (runs_branch_reg _ _ _ _ _ _ _ _ (x <? factor ^ lmag)); [eassumption..|done| |].
    { regs. by rewrite Ht1. }
    destruct (x <? factor ^ lmag); reflexivity.
  - intros r Hr. rewrite <- Ho1 by done. 
    apply not_elem_of_cons in Hr as [? [_ [? _]%not_elem_of_cons]%not_elem_of_cons]. by regs.
  - by regs.
  - by regs.
  - by regs.
Qed.

(** The bins of the branches of the code satisfy the specification. *)
Lemma llq_bin_under v : Z.abs v < factor ^ lmag -> llq_bin factor lmag hmag steps v ub.
Proof.
  pose proof llq_args. intros Hx. pose proof (proj1 llq_ub). split; [done|].
  split; [intros Hy; pose proof (llq_pow lmag (hmag + 1) ltac:(lia)); lia|]. split; [|lia].
  intros mag Hm Hy. pose proof (llq_pow lmag mag ltac:(lia)). lia.
Qed.
Lemma llq_bin_over v : factor ^ (hmag + 1) <= Z.abs v ->
  llq_bin factor lmag hmag steps v (if v <? 0 then ub - ub else ub + ub).
Proof.
  pose proof llq_args. intros Hx. pose proof (proj1 llq_ub).
  split; [intros Hy; pose proof (llq_pow lmag (hmag + 1) ltac:(lia)); lia|].
  split; [intros _; destruct (v <? 0); lia|]. split; [|destruct (v <? 0); lia].
  intros mag Hm Hy. pose proof (llq_pow (mag + 1) (hmag + 1) ltac:(lia)). lia.
Qed.
Lemma llq_bin_in v mag : lmag <= mag <= hmag -> factor ^ mag <= Z.abs v < factor ^ (mag + 1) ->
  let k := (mag - lmag) * (steps - sf) + ((Z.abs v * steps) `div` factor ^ (mag + 1) - sf) + 1 in
  1 <= k <= ub /\ llq_bin factor lmag hmag steps v (if v <? 0 then ub - k else ub + k).
Proof.
  intros Hm Hx k. pose proof llq_args as Ha. pose proof (llq_ind mag _ Hm Hx) as Hi. pose proof llq_sf as Hs.
  assert (1 <= k <= ub) as Hk.
  { subst k. unfold llq_underflow.
    assert (0 <= (mag - lmag) * (steps - sf)) by (apply Z.mul_nonneg_nonneg; lia).
    assert (0 <= (hmag - mag) * (steps - sf)) by (apply Z.mul_nonneg_nonneg; lia). lia. }
  split; [done|]. split; [intros Hy; pose proof (llq_pow lmag mag ltac:(lia)); lia|].
  split; [intros Hy; pose proof (llq_pow (mag + 1) (hmag + 1) ltac:(lia)); lia|].
  split; [|destruct (v <? 0); lia]. intros mag' Hm' Hx'.
  assert (mag' = mag) as ->; [|done].
  destruct (Z.lt_trichotomy mag' mag) as [Hl|[?|Hl]]; [|done|].
  - pose proof (llq_pow (mag' + 1) mag ltac:(lia)). lia.
  - pose proof (llq_pow (mag + 1) mag' ltac:(lia)). lia.
Qed.

Lemma llq_run m : in64 (m_reg m valreg) ->
  exists m', runs call P (q, m) (29 + q, m')%nat /\ m_mem m' = m_mem m /\
    (forall r, r ∉ [valreg; indreg; magreg; tmpreg; maxreg] -> m_reg m' r = m_reg m r) /\
    llq_bin factor lmag hmag steps (s64 (m_reg m valreg)) (m_reg m' valreg).
Proof.
  intros Hv. destruct (llq_run_start m Hv) as (m1 & R1 & Hm1 & Ho1 & Hg & Ht & Hx).
  set (v := m_reg m valreg) in *. set (x := Z.abs (s64 v)) in *.
  destruct llq_dist as ((D1 & D2 & D3 & D4) & (D5 & D6 & D7) & (D8 & D9) & D10).
  destruct Hcode as ((_ & _ & _ & _ & _ & _ & _ & A7 & A8) & _ & _ & (_ & _ & _ & _ & _ & _ & _ & A28)).
  pose proof (proj1 llq_ub) as Hub. pose proof llq_args as Ha. pose proof llq_hmag as Hh.
  destruct (Z.ltb_spec x (factor ^ lmag)) as [Hlt|Hge].
  { exists (set_reg m1 valreg ub). split; [|split; [done|split]].
    - etrans; [exact R1|]. ex. by rewrite Hg.
    - intros r Hr. notin. rewrite reg_other by done. apply Ho1. by notin.
    - regs. by apply llq_bin_under. }
  set (m2 := set_reg (set_reg m1 magreg lmag) indreg 0).
  assert (runs call P (q, m) (9 + q, m2)%nat) as R2.
  { etrans; [exact R1|]. do 2 ex. rewrite !imm_small by lia. reflexivity. }
  assert (m_reg m2 valreg = v) as Hv2 by (subst m2; regs; apply Ho1; by notin).
  destruct (llq_run_loop m2 lmag x) as (m3 & Hm3 & Ho3 & Hout); [subst m2; by regs..|lia|done|].
  assert (m_reg m3 valreg = v) as Hv3 by (rewrite Ho3; [done|by notin]).
  assert (forall r, r ∉ [valreg; indreg; magreg; tmpreg; maxreg] -> m_reg m3 r = m_reg m r) as Hsame.
  { intros r Hr. notin. rewrite Ho3 by (by notin). subst m2. regs. apply Ho1. by notin. }
  destruct Hout as [(g & Hg1 & Hg2 & R3 & Hg3 & Hx3)|(Hg1 & R3 & Hg3)].
  - destruct (llq_run_bin m3 g x) as (m4 & R4 & Hm4 & Ho4 & Hi4); [done|rewrite Ho3 by (by notin); subst m2; by regs|done..|].
    pose proof (llq_ind g x Hg1 Hg2) as Hind. destruct (llq_bin_in (s64 v) g Hg1 Hg2) as [Hk Hb]. fold x in Hk, Hb.
    assert (m_reg m4 valreg = v) as Hv4 by (rewrite Ho4 by (by notin); done).
    destruct (llq_run_shift m4 g ((x * steps) `div` factor ^ (g + 1) - sf)) as (m5 & R5 & Hm5 & Ho5 & Hv5);
      [by rewrite Ho4 by (by notin)|done|by rewrite Hv4|lia..|].
    exists m5. split; [etrans; [exact R2|etrans; [exact R3|etrans; [exact R4|exact R5]]]|].
    split; [by rewrite Hm5, Hm4, Hm3|]. split; [|by rewrite Hv5, Hv4].
    intros r Hr. rewrite <- Hsame by done. notin. rewrite Ho5, Ho4 by (by notin). done.
  - destruct (llq_run_shift m3 (hmag + 1) 0) as (m5 & R5 & Hm5 & Ho5 & Hv5);
      [done|rewrite Ho3 by (by notin); subst m2; by regs|by rewrite Hv3|lia|lia|unfold llq_underflow; lia|].
    exists m5. split; [etrans; [exact R2|etrans; [exact R3|exact R5]]|].
    split; [by rewrite Hm5, Hm3|]. split.
    + intros r Hr. rewrite <- Hsame by done. notin. by rewrite Ho5 by (by notin).
    + rewrite Hv5, Hv3.
      replace ((hmag + 1 - lmag) * (steps - sf) + 0 + 1) with ub by (unfold llq_underflow; lia).
      by apply llq_bin_over.
Qed.
End Llquantize.

(** Hand out the next label. *)
Ltac next_label s s1 s2 :=
  assert (lab s1 < 2 ^ 15) by lia; first_label s1 s2;
  lazymatch goal with
  | F : frag ?L s s1, F' : frag ?L' s1 s2 |- _ =>
      let F2 := fresh "Hfl" in pose proof (frag_app L L' s s1 s2 F F') as F2; simpl in F2; clear F F'
  end.

Lemma llquantize_bin_ok s n valreg factor lmag hmag steps :
  0 <= lmag -> 0 <= hmag -> llquantize_args_ok factor lmag hmag steps = true ->
  ok N s n -> (n + 4 <= N)%nat -> lab s + 8 <= 2 ^ 15 ->
  let regs := [Z.of_nat N - Z.of_nat n; Z.of_nat N - Z.of_nat (S n);
               Z.of_nat N - Z.of_nat (S (S n)); Z.of_nat N - Z.of_nat (S (S (S n)))] in
  valreg ∉ regs ->
  exists s', dt_cg_agg_llquantize_bin s valreg factor lmag hmag steps = Ok s' /\ ok N s' n /\ frag [] s s' /\
  forall P m, hosts P s s' -> in64 (m_reg m valreg) ->
    exists m', runs call P (pc s, m) (pc s', m') /\ m_mem m' = m_mem m /\
      (forall r, r ∉ valreg :: regs -> m_reg m' r = m_reg m r) /\
      llq_bin factor lmag hmag steps (s64 (m_reg m valreg)) (m_reg m' valreg).
Proof.
  intros Hlm Hhm Hargs Hok Hn Hlab rl Hval. unfold dt_cg_agg_llquantize_bin.
  rewrite (proj2 (llq_ub _ _ _ _ Hlm Hhm Hargs)).
  rewrite Z.quot_div_nonneg by (pose proof (llq_args _ _ _ _ Hargs); lia).
  assert (lab s < 2 ^ 15) by lia.
  first_label s s1. next_label s s1 s2. next_label s s2 s3. next_label s s3 s4.
  next_label s s4 s5. next_label s s5 s6. next_label s s6 s7. next_label s s7 s8.
  alloc_step s8 s9. alloc_step s9 s10. alloc_step s10 s11. alloc_step s11 s12.
  fold (dt_cg_setx (cg_emitl (cg_emit (cg_emit (cg_emit s12
    (BPF_MOV_REG (Z.of_nat N - Z.of_nat (S (S n))) valreg)) (BPF_BRANCH_IMM BPF_JSGE valreg 0 (lab s)))
    (BPF_ALU64_IMM BPF_MUL (Z.of_nat N - Z.of_nat (S (S n))) (-1))) (lab s)
    (BPF_MOV_IMM (Z.of_nat N - Z.of_nat (S n)) (llq_underflow factor lmag hmag steps)))
    (Z.of_nat N - Z.of_nat (S (S (S n)))) (factor ^ lmag)).
  rewrite dt_cg_setx_eq. emits.
  set (indreg := Z.of_nat N - Z.of_nat n) in *. set (magreg := Z.of_nat N - Z.of_nat (S n)) in *.
  set (tmpreg := Z.of_nat N - Z.of_nat (S (S n))) in *. set (maxreg := Z.of_nat N - Z.of_nat (S (S (S n)))) in *.
  pose proof (ok_lev N HN s12 _ Hok11 ltac:(lia)) as Hlev.
  free_reg t1. free_reg t2. free_reg t3. free_reg t4. exists t4. split; [done|].
  assert (lab t4 = lab s + 8) as E4 by (rewrite Eir6, Eir5, Eir4, Eir3; cbn; lia).
  split; [eapply (lev_ok N HN t4 n); [done|lia|lia|]|].
  { intros r Hr. unfold used, c_bool. subst indreg magreg tmpreg maxreg. repeat case_cmp; lia. }
  split; [solve_frag|]. intros P m Hh Hv.
  split_last Hh Hh4. split_last Hh Hh3. split_last Hh Hh2. split_last Hh Hh1. peel Hh. norm.
  rewrite Hpc6, Hpc5, Hpc4, Hpc3, Hpc2, Hpc1, Hpc0, Hpc, Hpcl6, Hpcl5, Hpcl4, Hpcl3, Hpcl2, Hpcl1, Hpcl0, Hpcl in *.
  eapply (llq_run factor lmag hmag steps Hlm Hhm Hargs P (pc s) valreg indreg magreg tmpreg maxreg
    (lab s) (lab s1) (lab s2) (lab s3) (lab s4) (lab s5) (lab s6) (lab s7)).
  - repeat (apply Forall_cons; split; [lia|]). done.
  - assert (indreg <> magreg /\ indreg <> tmpreg /\ indreg <> maxreg /\ magreg <> tmpreg /\ magreg <> maxreg /\
      tmpreg <> maxreg) as (? & ? & ? & ? & ? & ?) by lia.
    apply NoDup_cons; split; [done|]. repeat (apply NoDup_cons; split; [by notin|]). constructor.
  - unfold llq_code. repeat lazymatch goal with |- _ /\ _ => split | |- _ => assumption end.
  - done.
Qed.
End Run.

(** ** The theorems *)

(** The code of max() and min() leaves the larger, or the smaller, of the
    stored and the new value, compared as signed 64-bit numbers, and changes
    nothing else but its scratch register. *)
Theorem dt_cg_agg_minmax_correct (N : nat) call s n dreg vreg (HN : (2 <= N < 10)%nat) :
  ok N s n -> (n < N)%nat -> lab s < 2 ^ 15 ->
  dreg <> Z.of_nat N - Z.of_nat n -> vreg <> Z.of_nat N - Z.of_nat n ->
  let result (pick : Z -> Z -> Z) s' := ok N s' n /\ frag [] s s' /\
    forall P m, hosts P s s' -> (forall r, in64 (m_reg m r)) -> aligned (m_reg m dreg) = true ->
      exists m', runs call P (pc s, m) (pc s', m') /\
        s64 (m_mem m' (m_reg m dreg)) = pick (s64 (m_mem m (m_reg m dreg))) (s64 (m_reg m vreg)) /\
        (forall a, a <> m_reg m dreg -> m_mem m' a = m_mem m a) /\
        forall r, r <> Z.of_nat N - Z.of_nat n -> m_reg m' r = m_reg m r in
  (exists s', dt_cg_agg_max_impl s dreg vreg = Ok s' /\ result Z.max s') /\
  (exists s', dt_cg_agg_min_impl s dreg vreg = Ok s' /\ result Z.min s').
Proof.
  intros Hok Hn Hl Hd Hv result.
  destruct (minmax_ok N HN call s n dreg vreg BPF_JSGE (λ a b, s64 b <=? s64 a))
    as (s1 & E1 & Hok1 & Hf1 & H1); [done..|].
  destruct (minmax_ok N HN call s n dreg vreg BPF_JSLE (λ a b, s64 a <=? s64 b))
    as (s2 & E2 & Hok2 & Hf2 & H2); [done..|].
  split; [exists s1; split; [exact E1|]|exists s2; split; [exact E2|]]; (split; [done|]); (split; [done|]);
    intros P m Hh Hr Ha; [destruct (H1 P m Hh Hr Ha) as (m' & R & Hreg & Hmem)
                         |destruct (H2 P m Hh Hr Ha) as (m' & R & Hreg & Hmem)]; cbv zeta in Hmem;
    (exists m'; split; [done|]; split; [rewrite Hmem, Z.eqb_refl; case_cmp; lia|]; split;
     [intros a Hne; by rewrite Hmem, (proj2 (Z.eqb_neq _ _) Hne)|intros r Hne; apply Hreg; by notin]).
Qed.

(** The code of count(), sum() and avg() adds one, the value, or both, to
    the 64-bit words of the aggregation, modulo [2 ^ 64], and changes nothing
    else but %r0. *)
Theorem dt_cg_agg_accumulate_correct (N : nat) call s n dreg vreg (HN : (2 <= N < 10)%nat) :
  ok N s n -> (n <= N)%nat -> level (cg_regs s) 0 = 0 -> dreg <> 0 -> vreg <> 0 ->
  let add m a i v z := if a =? word (m_reg m dreg) i then u64 (m_mem m a + v) else z in
  (exists s', dt_cg_agg_count_impl s dreg = Ok s' /\ ok N s' n /\ frag [] s s' /\
    updates call s s' [BPF_REG_0] dreg (λ m a, add m a 0 1 (m_mem m a))) /\
  (exists s', dt_cg_agg_sum_impl s dreg vreg = Ok s' /\ ok N s' n /\ frag [] s s' /\
    updates call s s' [] dreg (λ m a, add m a 0 (m_reg m vreg) (m_mem m a))) /\
  (exists s', dt_cg_agg_avg_impl s dreg vreg = Ok s' /\ ok N s' n /\ frag [] s s' /\
    updates call s s' [BPF_REG_0] dreg (λ m a, add m a 0 1 (add m a 1 (m_reg m vreg) (m_mem m a)))).
Proof.
  intros Hok Hn H0 Hd Hv add. split; [|split].
  - destruct (count_impl_ok N HN call s n dreg Hok Hn H0 Hd) as (s' & E & Hok' & _ & Hf & Hu).
    exists s'. do 3 (split; [done|]). intros P m Hh Hr Ha. destruct (Hu P m Hh Hr Ha) as (m' & R & Hreg & Hm).
    exists m'. do 2 (split; [done|]). intros a. rewrite Hm. subst add. simpl. by rewrite word_0.
  - destruct (xadd_ok call s dreg 0 vreg 0 eq_refl ltac:(lia)) as [Hf Hu].
    eexists. split; [reflexivity|]. split; [by apply ok_emitle|]. split; [exact Hf|exact Hu].
  - destruct (avg_impl_ok N HN call s n dreg vreg Hok Hn H0 Hd Hv) as (s' & E & Hok' & _ & Hf & Hu).
    exists s'. do 3 (split; [done|]). intros P m Hh Hr Ha. destruct (Hu P m Hh Hr Ha) as (m' & R & Hreg & Hm).
    exists m'. do 2 (split; [done|]). intros a. rewrite Hm. subst add. simpl. by rewrite word_0.
Qed.

(** The code that adds to a bin of a quantize(), lquantize() or llquantize()
    aggregation adds the increment to the word of the bin, if the bin number is
    at most [maxbin], and to nothing otherwise: a bin number out of range,
    a negative one included, leaves memory as it is. *)
Theorem dt_cg_agg_quantize_correct (N : nat) call s n dreg vreg ireg maxbin (HN : (2 <= N < 10)%nat) :
  ok N s n -> (n < N)%nat -> lab s < 2 ^ 15 -> 0 <= maxbin < 2 ^ 31 ->
  let offreg := Z.of_nat N - Z.of_nat n in
  dreg <> offreg -> vreg <> offreg -> ireg <> offreg ->
  exists s', dt_cg_agg_quantize_impl s dreg vreg ireg maxbin = Ok s' /\ ok N s' n /\ frag [] s s' /\
  updates call s s' [offreg] dreg (λ m a,
    if (m_reg m vreg <=? maxbin) && (a =? word (m_reg m dreg) (m_reg m vreg))
    then u64 (m_mem m a + m_reg m ireg) else m_mem m a).
Proof. exact (quantize_impl_ok N HN call s n dreg vreg ireg maxbin). Qed.

(** The code of stddev() that squares the value leaves the 128-bit square of
    the signed value in two registers, and changes nothing but the four
    registers it takes. *)
Theorem stddev_square_correct (N : nat) call s0 s n Lpos Lncy vreg (HN : (2 <= N < 10)%nat) :
  frag [Lncy; Lpos] s0 s -> 0 < lab s0 -> lab s <= 2 ^ 15 -> ok N s n -> (n + 3 < N)%nat ->
  let r i := Z.of_nat N - Z.of_nat (i + n) in
  exists s', stddev_square s Lpos Lncy vreg = Ok (r 0%nat, r 1%nat, s') /\ ok N s' (S (S n)) /\ frag [] s0 s' /\
  forall P m, hosts P s s' -> (forall r, in64 (m_reg m r)) ->
    exists m', runs call P (pc s, m) (pc s', m') /\ m_mem m' = m_mem m /\
      (forall x, x ∉ [r 0%nat; r 1%nat; r 2%nat; r 3%nat] -> m_reg m' x = m_reg m x) /\
      in64 (m_reg m' (r 0%nat)) /\ in64 (m_reg m' (r 1%nat)) /\
      m_reg m' (r 0%nat) * 2 ^ 64 + m_reg m' (r 1%nat) = s64 (m_reg m vreg) * s64 (m_reg m vreg).
Proof. exact (stddev_square_ok N HN call s0 s n Lpos Lncy vreg). Qed.

(** The 128-bit sum of squares of a stddev() aggregation. *)
Definition sum_of_squares (m : mstate) (d : Z) : Z := m_mem m (word d 3) * 2 ^ 64 + m_mem m (word d 2).

(** C28: The code of stddev() counts the value, adds it to the sum, and adds the
    128-bit square in [hreg] and [lreg] to the 128-bit sum of squares, modulo
    [2 ^ 128], the carry included. *)
Theorem dt_cg_agg_stddev_correct (N : nat) call s n dreg vreg hreg lreg (HN : (2 <= N < 10)%nat) :
  ok N s n -> (S n < N)%nat -> lab s < 2 ^ 15 ->
  Forall (λ r, r <> Z.of_nat N - Z.of_nat n /\ r <> Z.of_nat N - Z.of_nat (S n)) [dreg; vreg; hreg; lreg] ->
  exists s', dt_cg_agg_stddev_impl s dreg vreg hreg lreg = Ok s' /\ ok N s' n /\ frag [] s s' /\
  forall P m, hosts P s s' -> (forall r, in64 (m_reg m r)) -> (forall a, in64 (m_mem m a)) ->
    aligned (m_reg m dreg) = true ->
    let d := m_reg m dreg in
    exists m', runs call P (pc s, m) (pc s', m') /\
      m_mem m' (word d 0) = u64 (m_mem m (word d 0) + 1) /\
      m_mem m' (word d 1) = u64 (m_mem m (word d 1) + m_reg m vreg) /\
      sum_of_squares m' d =
        (sum_of_squares m d + (m_reg m hreg * 2 ^ 64 + m_reg m lreg)) `mod` 2 ^ 128 /\
      forall a, (forall i, 0 <= i < 4 -> a <> word d i) -> m_mem m' a = m_mem m a.
Proof.
  intros Hok Hn Hl Hd. destruct (stddev_impl_ok N HN call s n dreg vreg hreg lreg Hok Hn Hl Hd)
    as (s' & E & Hok' & Hf & Hu).
  exists s'. do 3 (split; [done|]). intros P m Hh Hr Hm Ha d. destruct (Hu P m Hh Hr Ha) as (m' & R & Hreg & Hmem).
  cbv zeta in Hmem. fold d in Hmem.
  assert (forall i j, 0 <= i < 16 -> 0 <= j < 16 -> i <> j -> (word d i =? word d j) = false) as Hw
    by (intros i j Hi Hj Hij; apply Z.eqb_neq; intros Ew%word_inj; lia).
  exists m'. split; [done|]. split; [|split; [|split]].
  - by rewrite Hmem, Z.eqb_refl.
  - by rewrite Hmem, (Hw 1 0), Z.eqb_refl by lia.
  - unfold sum_of_squares. rewrite !Hmem, !(Hw 3), !(Hw 2), !Z.eqb_refl by lia.
    apply add128_mod; [apply Hm|apply Hr|apply Hm|apply Hr].
  - intros a Hne. rewrite Hmem. by rewrite !(proj2 (Z.eqb_neq a _)) by (apply Hne; lia).
Qed.

(** C26: The code of llquantize() replaces the value by the number of its bin, as
    [llq_bin] defines it, for every combination of factor, magnitudes and steps
    that the compiler accepts and every 64-bit value; the bin is one of the
    [2 * underflow_bin + 1] bins of the aggregation. *)
Theorem dt_cg_agg_llquantize_correct (N : nat) call s n valreg factor lmag hmag steps (HN : (2 <= N < 10)%nat) :
  0 <= lmag -> 0 <= hmag -> llquantize_args_ok factor lmag hmag steps = true ->
  ok N s n -> (n + 4 <= N)%nat -> lab s + 8 <= 2 ^ 15 ->
  let regs := [Z.of_nat N - Z.of_nat n; Z.of_nat N - Z.of_nat (S n);
               Z.of_nat N - Z.of_nat (S (S n)); Z.of_nat N - Z.of_nat (S (S (S n)))] in
  valreg ∉ regs ->
  exists s', dt_cg_agg_llquantize_bin s valreg factor lmag hmag steps = Ok s' /\ ok N s' n /\ frag [] s s' /\
  forall P m, hosts P s s' -> in64 (m_reg m valreg) ->
    exists m', runs call P (pc s, m) (pc s', m') /\ m_mem m' = m_mem m /\
      (forall r, r ∉ valreg :: regs -> m_reg m' r = m_reg m r) /\
      llq_bin factor lmag hmag steps (s64 (m_reg m valreg)) (m_reg m' valreg).
Proof. exact (llquantize_bin_ok N HN call s n valreg factor lmag hmag steps). Qed.

(** ** Instances *)

Abbreviation ex_cg := (dt_cg_init 8 [] []).
(** %r6 points to the data, %r7 and %r3 hold a value. *)
Definition ex_agg (v stored : Z) : mstate :=
  MState (λ r, if r =? 6 then 1024 else if (r =? 7) || (r =? 3) then u64 v else 0)
         (λ a, if a =? 1024 then u64 stored else 0).

Lemma ex_agg_regs v w r : in64 (m_reg (ex_agg v w) r).
Proof.
  unfold ex_agg. simpl. destruct (r =? 6); [lia|]. destruct (_ || _); [|lia]. auto with cint.
Qed.
Lemma ex_agg_mem v w a : in64 (m_mem (ex_agg v w) a).
Proof. unfold ex_agg. simpl. case_cmp; [|lia]. auto with cint. Qed.

(** A fragment that starts the program is hosted by it. *)
Lemma ex_hosts (r : cg_res cgs) s' :
  r = Ok s' -> frag [] ex_cg s' ->
  match r with Ok s => lab s <=? 2 ^ 15 | Err _ => false end = true -> hosts (code s') ex_cg s'.
Proof.
  intros -> Hf Hl. apply Z.leb_le in Hl.
  destruct (dt_cg_init_ok 8 [] [] ltac:(lia)) as (_ & Hc & H3).
  by apply (frag_program _ _ Hf Hc ltac:(lia) Hl).
Qed.

Lemma dt_cg_agg_minmax_correct_witness :
  exists s' m', dt_cg_agg_max_impl ex_cg 6 7 = Ok s' /\
    runs no_call (code s') (O, ex_agg 5 (-10)) (pc s', m') /\ s64 (m_mem m' 1024) = 5.
Proof.
  destruct (dt_cg_init_ok 8 [] [] ltac:(lia)) as (Hok & Hc & Hl).
  destruct (dt_cg_agg_minmax_correct 8 no_call ex_cg 0 6 7 ltac:(lia) Hok ltac:(lia) ltac:(lia) ltac:(lia) ltac:(lia))
    as [(s' & E & _ & Hf & H) _].
  destruct (H (code s') (ex_agg 5 (-10))) as (m' & R & Hv & _).
  - apply (ex_hosts (dt_cg_agg_max_impl ex_cg 6 7)); [exact E|exact Hf|vm_compute; reflexivity].
  - apply ex_agg_regs.
  - reflexivity.
  - exists s', m'. split; [exact E|]. split; [exact R|exact Hv].
Defined.

Lemma dt_cg_agg_accumulate_correct_witness :
  exists s' m', dt_cg_agg_avg_impl ex_cg 6 7 = Ok s' /\
    runs no_call (code s') (O, ex_agg 5 10) (pc s', m') /\ m_mem m' 1024 = 11 /\ m_mem m' 1032 = 5.
Proof.
  destruct (dt_cg_init_ok 8 [] [] ltac:(lia)) as (Hok & Hc & Hl).
  destruct (dt_cg_agg_accumulate_correct 8 no_call ex_cg 0 6 7 ltac:(lia) Hok ltac:(lia) eq_refl ltac:(lia) ltac:(lia))
    as (_ & _ & (s' & E & _ & Hf & H)).
  destruct (H (code s') (ex_agg 5 10)) as (m' & R & _ & Hv).
  - apply (ex_hosts (dt_cg_agg_avg_impl ex_cg 6 7)); [exact E|exact Hf|vm_compute; reflexivity].
  - apply ex_agg_regs.
  - reflexivity.
  - exists s', m'. split; [exact E|]. split; [exact R|]. split; [exact (Hv 1024)|exact (Hv 1032)].
Defined.

Lemma dt_cg_agg_quantize_correct_witness :
  exists s' m', dt_cg_agg_quantize_impl ex_cg 6 7 3 126 = Ok s' /\
    runs no_call (code s') (O, ex_agg 5 10) (pc s', m') /\ m_mem m' 1064 = 5 /\ m_mem m' 1024 = 10.
Proof.
  destruct (dt_cg_init_ok 8 [] [] ltac:(lia)) as (Hok & Hc & Hl).
  destruct (dt_cg_agg_quantize_correct 8 no_call ex_cg 0 6 7 3 126 ltac:(lia) Hok ltac:(lia) ltac:(lia) ltac:(lia)
    ltac:(lia) ltac:(lia) ltac:(lia)) as (s' & E & _ & Hf & H).
  destruct (H (code s') (ex_agg 5 10)) as (m' & R & _ & Hv).
  - apply (ex_hosts (dt_cg_agg_quantize_impl ex_cg 6 7 3 126)); [exact E|exact Hf|vm_compute; reflexivity].
  - apply ex_agg_regs.
  - reflexivity.
  - exists s', m'. split; [exact E|]. split; [exact R|]. split; [exact (Hv 1064)|exact (Hv 1024)].
Defined.

Lemma stddev_square_correct_witness :
  let s := labelled (labelled ex_cg) in
  exists s' m', stddev_square s 3 4 7 = Ok (8, 7, s') /\
    runs no_call (code s') (O, ex_agg (-5000000000) 10) (pc s', m') /\
    m_reg m' 8 * 2 ^ 64 + m_reg m' 7 = 25000000000000000000.
Proof.
  intros s. destruct (dt_cg_init_ok 8 [] [] ltac:(lia)) as (Hok & Hc & Hl).
  assert (frag [4; 3] ex_cg s) as Hf0.
  { apply (frag_label [3] ex_cg (labelled ex_cg)); [vm_compute; split; reflexivity|].
    apply (frag_label [] ex_cg ex_cg); [vm_compute; split; reflexivity|apply frag_refl]. }
  assert (ok 8 s 0) as Hok2 by (apply (ok_labelled 8 ltac:(lia)); [apply (ok_labelled 8 ltac:(lia)); [exact Hok|]|];
    vm_compute; split; reflexivity).
  destruct (stddev_square_correct 8 no_call ex_cg s 0 3 4 7 ltac:(lia) Hf0 ltac:(lia)
    ltac:(vm_compute; discriminate) Hok2 ltac:(lia)) as (s' & E & _ & Hf & H).
  destruct (H (code s') (ex_agg (-5000000000) 10)) as (m' & R & _ & _ & _ & _ & Hv).
  - intros i d Hi Hd. apply (ex_hosts (r ← stddev_square s 3 4 7; Ok r.2));
      [by rewrite E|exact Hf|vm_compute; reflexivity|exact Hi|exact Hd].
  - apply ex_agg_regs.
  - exists s', m'. split; [exact E|]. split; [exact R|exact Hv].
Defined.

Lemma dt_cg_agg_stddev_correct_witness :
  exists s' m', dt_cg_agg_stddev_impl ex_cg 6 5 5 3 = Ok s' /\
    runs no_call (code s') (O, ex_agg 25 7) (pc s', m') /\ m_mem m' 1024 = 8 /\ sum_of_squares m' 1024 = 25.
Proof.
  destruct (dt_cg_init_ok 8 [] [] ltac:(lia)) as (Hok & Hc & Hl).
  destruct (dt_cg_agg_stddev_correct 8 no_call ex_cg 0 6 5 5 3 ltac:(lia) Hok ltac:(lia) ltac:(lia)
    ltac:(repeat constructor; lia)) as (s' & E & _ & Hf & H).
  destruct (H (code s') (ex_agg 25 7)) as (m' & R & Hv & _ & Hs & _).
  - apply (ex_hosts (dt_cg_agg_stddev_impl ex_cg 6 5 5 3)); [exact E|exact Hf|vm_compute; reflexivity].
  - apply ex_agg_regs.
  - apply ex_agg_mem.
  - reflexivity.
  - exists s', m'. split; [exact E|]. split; [exact R|]. split; [exact Hv|exact Hs].
Defined.

(** llquantize(value, 10, 0, 2, 20): 18 bins per magnitude, the middle is bin 55;
    -250 is in the third magnitude. *)
Lemma dt_cg_agg_llquantize_correct_witness :
  exists s' m', dt_cg_agg_llquantize_bin ex_cg 3 10 0 2 20 = Ok s' /\
    runs no_call (code s') (O, ex_agg (-250) 0) (pc s', m') /\ m_reg m' 3 = 15.
Proof.
  destruct (dt_cg_init_ok 8 [] [] ltac:(lia)) as (Hok & Hc & Hl).
  destruct (dt_cg_agg_llquantize_correct 8 no_call ex_cg 0 3 10 0 2 20 ltac:(lia) ltac:(lia) ltac:(lia)
    eq_refl Hok ltac:(lia) ltac:(lia) ltac:(apply (bool_decide_unpack _); vm_compute; exact I)) as (s' & E & _ & Hf & H).
  destruct (H (code s') (ex_agg (-250) 0)) as (m' & R & _ & _ & _ & _ & Hv & _).
  - apply (ex_hosts (dt_cg_agg_llquantize_bin ex_cg 3 10 0 2 20)); [exact E|exact Hf|vm_compute; reflexivity].
  - apply ex_agg_regs.
  - exists s', m'. split; [exact E|]. split; [exact R|].
    apply (Hv 2); [lia|]. vm_compute. split; [discriminate|reflexivity].
Defined.
