(* ===== verification/Int128.v ===== *)
(** * 128-bit arithmetic and stddev() (libdtrace/dt_consume.c)

    The consumer of an aggregation computes the standard deviation with its own
    128-bit arithmetic: values of two 64-bit words, shifted, added, subtracted,
    multiplied, divided by long division and rooted digit by digit.  [val] reads
    a pair of words as a number; the theorems say that every routine computes
    the operation of its name on these numbers, that its loops terminate, and
    what dt_stddev returns for the data of an aggregation. *)

From stdpp Require Import base list numbers.
From S2P Require Import Prelude.

(** ** Loops *)

(** [while (c) s = f(s)], with fuel: [None] is a loop that has not ended. *)
Fixpoint c_while {St} (n : nat) (c : St -> bool) (f : St -> St) (s : St) : option St :=
  match n with
  | O => None
  | S n => if c s then c_while n c f (f s) else Some s
  end.

(** A loop that keeps an invariant and decreases a measure ends, with the
    invariant and the condition false. *)
Lemma c_while_spec {St} (Inv : St -> Prop) (mu : St -> nat) c f :
  (forall s, Inv s -> c s = true -> Inv (f s) /\ (mu (f s) < mu s)%nat) ->
  forall n s, Inv s -> (mu s < n)%nat -> exists s', c_while n c f s = Some s' /\ Inv s' /\ c s' = false.
Proof.
  intros Hstep n. induction n as [|n IH]; intros s HI Hn; [lia|]. simpl.
  destruct (c s) eqn:E; [|by exists s]. destruct (Hstep s HI E). apply IH; [done|lia].
Qed.

(** ** The routines *)

(** [uint64_t a[2]]: the low and the high word. *)
Abbreviation u128 := (Z * Z)%type.

Definition dt_gt_128 (a b : u128) : bool := (b.2 <? a.2) || ((a.2 =? b.2) && (b.1 <? a.1)).
Definition dt_ge_128 (a b : u128) : bool := (b.2 <? a.2) || ((a.2 =? b.2) && (b.1 <=? a.1)).
Definition dt_le_128 (a b : u128) : bool := (a.2 <? b.2) || ((a.2 =? b.2) && (a.1 <=? b.1)).

Definition dt_shift_128 (a : u128) (b : Z) : u128 :=
  if b =? 0 then a
  else if b <? 0 then
    let b := - b in
    if 64 <=? b then (Z.shiftr a.2 (b - 64), 0)
    else
      let a0 := Z.shiftr a.1 b in
      let mask := u64 (u64 (Z.shiftl 1 (64 - b)) - 1) in
      let a0 := Z.lor a0 (u64 (Z.shiftl (Z.land a.2 mask) (64 - b))) in
      (a0, Z.shiftr a.2 b)
  else if 64 <=? b then (0, u64 (Z.shiftl a.1 (b - 64)))
  else
    let a1 := u64 (Z.shiftl a.2 b) in
    let mask := Z.shiftr a.1 (64 - b) in
    (u64 (Z.shiftl a.1 b), Z.lor a1 mask).

Definition dt_nbits_128 (a : u128) : option Z :=
  '(_, nbits) ← c_while 129 (λ '(tmp, _), dt_gt_128 tmp (0, 0))
    (λ '(tmp, nbits), (dt_shift_128 tmp (-1), nbits + 1)) (dt_shift_128 a (-1), 0);
  Some nbits.

Definition dt_subtract_128 (m s : u128) : u128 :=
  (u64 (m.1 - s.1), u64 (u64 (m.2 - s.2) - c_bool (m.1 <? s.1))).

Definition dt_add_128 (a b : u128) : u128 :=
  let r0 := u64 (a.1 + b.1) in
  (r0, u64 (u64 (a.2 + b.2) + c_bool ((r0 <? a.1) || (r0 <? b.1)))).

Definition DT_MASK_LO : Z := 0xffffffff.

Definition dt_multiply_128 (factor1 factor2 : Z) : u128 :=
  let hi1 := Z.shiftr factor1 32 in
  let hi2 := Z.shiftr factor2 32 in
  let lo1 := Z.land factor1 DT_MASK_LO in
  let lo2 := Z.land factor2 DT_MASK_LO in
  let product := (u64 (lo1 * lo2), u64 (hi1 * hi2)) in
  let tmp := dt_shift_128 (u64 (hi1 * lo2), 0) 32 in
  let product := dt_add_128 product tmp in
  let tmp := dt_shift_128 (u64 (hi2 * lo1), 0) 32 in
  dt_add_128 product tmp.

Record divide_state := Div { v_result : u128; v_remainder : u128; v_subtrahend : u128; v_mask : u128 }.

(** The body of the loop of the division. *)
Definition divide_step (s : divide_state) : divide_state :=
  let '(res, rem) :=
    if dt_ge_128 (v_remainder s) (v_subtrahend s)
    then ((Z.lor (v_result s).1 (v_mask s).1, Z.lor (v_result s).2 (v_mask s).2),
          dt_subtract_128 (v_remainder s) (v_subtrahend s))
    else (v_result s, v_remainder s) in
  Div res rem (dt_shift_128 (v_subtrahend s) (-1)) (dt_shift_128 (v_mask s) (-1)).

(** [None]: the assertion that the divisor is not 0 fails. *)
Definition dt_divide_128 (dividend : u128) (divisor : Z) : option u128 :=
  if divisor =? 0 then None
  else
    '(_, log) ← c_while 65 (λ '(d, _), 0 <? d) (λ '(d, log), (Z.shiftr d 1, log + 1)) (divisor, 0);
    s ← c_while 129 (λ s, dt_ge_128 (v_remainder s) (divisor, 0)) divide_step
          (Div (0, 0) dividend (dt_shift_128 (divisor, 0) (128 - log)) (dt_shift_128 (1, 0) (128 - log)));
    Some (v_result s).

Record sqrt_state := Sqrt { q_result : u128; q_diff : u128; q_pair_shift : Z }.

(** The body of the loop of the square root. *)
Definition sqrt_step (square : u128) (s : sqrt_state) : sqrt_state :=
  let next_pair := dt_shift_128 square (s32 (- q_pair_shift s)) in
  let next_pair := (Z.land next_pair.1 3, 0) in
  let diff := dt_add_128 (dt_shift_128 (q_diff s) 2) next_pair in
  let next_try := dt_add_128 (dt_shift_128 (q_result s) 2) (1, 0) in
  let '(res, diff) :=
    if dt_le_128 next_try diff
    then (dt_add_128 (dt_shift_128 (q_result s) 1) (1, 0), dt_subtract_128 diff next_try)
    else (dt_shift_128 (q_result s) 1, diff) in
  Sqrt res diff (u64 (q_pair_shift s - 2)).

Definition dt_sqrt_128 (square : u128) : option Z :=
  nbits ← dt_nbits_128 square;
  let bit_pairs := nbits `quot` 2 in
  let s := Nat.iter (S (Z.to_nat bit_pairs)) (sqrt_step square) (Sqrt (0, 0) (0, 0) (u64 (bit_pairs * 2))) in
  if (q_result s).2 =? 0 then Some (q_result s).1 else None.

(** [int64_t] division; the machine traps on a zero divisor and on the one
    quotient that does not fit. *)
Definition s64_div (a b : Z) : option Z :=
  if b =? 0 then None
  else if (a =? - 2 ^ 63) && (b =? -1) then None else Some (a `quot` b).

Definition dt_stddev (data : list Z) (normal : Z) : option Z :=
  '(count, sum, lo, hi) ← match data with [c; s; l; h] => Some (c, s, l, h) | _ => None end;
  avg_of_squares ← dt_divide_128 (lo, hi) normal;
  avg_of_squares ← dt_divide_128 avg_of_squares count;
  norm_avg ← s64_div (s64 sum) (s64 normal);
  norm_avg ← s64_div norm_avg (s64 count);
  let norm_avg := if norm_avg <? 0 then s64 (- norm_avg) else norm_avg in
  let square_of_avg := dt_multiply_128 (u64 norm_avg) (u64 norm_avg) in
  dt_sqrt_128 (dt_subtract_128 avg_of_squares square_of_avg).

(** The count, the sum and the sum of squares that the aggregation keeps of the
    values added to it. *)
Definition sum_list (xs : list Z) : Z := foldr Z.add 0 xs.
Definition stddev_data (xs : list Z) : list Z :=
  let sq := sum_list (map (λ x, x * x) xs) in
  [u64 (Z.of_nat (length xs)); u64 (sum_list xs); u64 sq; u64 (Z.shiftr sq 64)].

Example stddev_ex : dt_stddev (stddev_data [1; -5; 100; 17]) 1 = Some 42.
Proof. vm_compute. reflexivity. Qed.
Example mul_ex : dt_multiply_128 (2 ^ 64 - 1) (2 ^ 64 - 1) = (1, 2 ^ 64 - 2).
Proof. vm_compute. reflexivity. Qed.

(** ** The words represent numbers *)

Definition val (a : u128) : Z := a.1 + 2 ^ 64 * a.2.

(** [rep a v]: the words [a] hold the number [v]. *)
Definition rep (a : u128) (v : Z) : Prop := in64 a.1 /\ in64 a.2 /\ val a = v.

Create HintDb u128.

Lemma rep_range a v : rep a v -> 0 <= v < 2 ^ 128.
Proof. unfold rep, val. intros (? & ? & <-). lia. Qed.

Lemma rep_small x : in64 x -> rep (x, 0) x.
Proof. unfold rep, val. simpl. lia. Qed.

Lemma rep_words x y : in64 x -> in64 y -> rep (x, y) (x + 2 ^ 64 * y).
Proof. done. Qed.

Lemma rep_lo a v : rep a v -> a.1 = v `mod` 2 ^ 64.
Proof.
  unfold rep, val. intros (? & ? & <-). rewrite Z.mul_comm, Z.mod_add by lia. by rewrite Z.mod_small.
Qed.

Lemma rep_hi a v : rep a v -> a.2 = v `div` 2 ^ 64.
Proof.
  unfold rep, val. intros (? & ? & <-). rewrite Z.mul_comm, Z.div_add by lia. rewrite Z.div_small by done. lia.
Qed.

Section Compare.
Context (a b : u128) (v w : Z) (Ha : rep a v) (Hb : rep b w).

Ltac compare :=
  destruct Ha as (? & ? & <-), Hb as (? & ? & <-); unfold val;
  repeat case_cmp; simpl; try reflexivity; lia.

Lemma gt_rep : dt_gt_128 a b = (w <? v).
Proof. unfold dt_gt_128. compare. Qed.
Lemma ge_rep : dt_ge_128 a b = (w <=? v).
Proof. unfold dt_ge_128. compare. Qed.
Lemma le_rep : dt_le_128 a b = (v <=? w).
Proof. unfold dt_le_128. compare. Qed.
End Compare.

(** An or of numbers that share no bit is their sum. *)
Lemma lor_add_disjoint x y k : 0 <= x < 2 ^ k -> 0 <= k -> Z.lor x (y * 2 ^ k) = x + y * 2 ^ k.
Proof.
  intros Hx Hk. symmetry. apply Z.add_nocarry_lor. rewrite <- Z.shiftl_mul_pow2 by done.
  apply Z.bits_inj'. intros i Hi. rewrite Z.land_spec, Z.bits_0. destruct (Z.lt_ge_cases i k).
  - rewrite Z.shiftl_spec_low by lia. apply andb_false_r.
  - by rewrite (testbit_high k x) by lia.
Qed.

Lemma pow2_split n k : 0 <= k <= n -> 2 ^ n = 2 ^ k * 2 ^ (n - k).
Proof. intros. rewrite <- Z.pow_add_r by lia. f_equal. lia. Qed.

(** The parts of a word around bit [k]. *)
Lemma split_word x n k : 0 <= k <= n -> 0 <= x < 2 ^ n ->
  0 <= x `div` 2 ^ k < 2 ^ (n - k) /\ 0 <= x `mod` 2 ^ k < 2 ^ k /\ x = x `div` 2 ^ k * 2 ^ k + x `mod` 2 ^ k.
Proof.
  intros Hk Hx. pose proof (pow2_pos k ltac:(lia)). rewrite (pow2_split n k) in Hx by done.
  split; [|split; [by apply Z.mod_pos_bound|rewrite Z.mul_comm; apply Z.div_mod; lia]].
  split; [apply Z.div_pos; lia|apply Z.div_lt_upper_bound; lia].
Qed.

(** A right shift by less than a word: the low word of the result. *)
Lemma shiftr_low a b : 0 < b < 64 -> in64 a.1 -> in64 a.2 ->
  (dt_shift_128 a (- b)).1 = a.1 `div` 2 ^ b + a.2 `mod` 2 ^ Z.min b (64 - b) * 2 ^ (64 - b).
Proof.
  intros Hb H0 H1. unfold dt_shift_128. rewrite (proj2 (Z.eqb_neq (- b) 0)), (proj2 (Z.ltb_lt (- b) 0)) by lia.
  rewrite Z.opp_involutive, (proj2 (Z.leb_gt 64 b)) by lia. cbn [fst].
  pose proof (pow2_pos (64 - b) ltac:(lia)). pose proof (Z.pow_lt_mono_r 2 (64 - b) 64 ltac:(lia) ltac:(lia) ltac:(lia)).
  rewrite Z.shiftl_1_l, (wrapu_small 64 (2 ^ (64 - b))), (wrapu_small 64 (2 ^ (64 - b) - 1)) by lia.
  replace (2 ^ (64 - b) - 1) with (Z.ones (64 - b)) by (rewrite Z.ones_equiv; lia).
  rewrite Z.land_ones, shl_u64, Z.shiftr_div_pow2 by lia. replace (64 - (64 - b)) with b by lia.
  destruct (split_word a.1 64 b ltac:(lia) H0) as (? & _ & _).
  rewrite lor_add_disjoint by lia. f_equal. f_equal. unfold wrapu.
  destruct (Z.le_ge_cases b (64 - b)).
  - rewrite Z.min_l, (pow2_split (64 - b) b) by lia. pose proof (pow2_pos b ltac:(lia)).
    pose proof (pow2_pos (64 - b - b) ltac:(lia)). rewrite Z.rem_mul_r, (Z.mul_comm (2 ^ b)) by lia.
    rewrite Z.mod_add by lia. apply Z.mod_mod. lia.
  - rewrite Z.min_r by lia. apply Z.mod_small. pose proof (Z.mod_pos_bound a.2 (2 ^ (64 - b)) ltac:(lia)).
    pose proof (Z.pow_le_mono_r 2 (64 - b) b ltac:(lia) ltac:(lia)). lia.
Qed.

(** Shifts to the right by at most half a word or by at least a word divide. *)
Lemma shiftr_rep a v b : rep a v -> 0 <= b <= 32 \/ 64 <= b < 128 -> rep (dt_shift_128 a (- b)) (v `div` 2 ^ b).
Proof.
  intros (H0 & H1 & <-) Hb. destruct (Z.eq_dec b 0) as [-> |]; [by rewrite Z.div_1_r|].
  destruct (Z.le_gt_cases 64 b).
  - unfold dt_shift_128. rewrite (proj2 (Z.eqb_neq (- b) 0)), (proj2 (Z.ltb_lt (- b) 0)) by lia.
    rewrite Z.opp_involutive, (proj2 (Z.leb_le 64 b)), Z.shiftr_div_pow2 by lia.
    destruct (split_word a.2 64 (b - 64) ltac:(lia) H1) as (? & _ & _).
    assert (val a `div` 2 ^ b = a.2 `div` 2 ^ (b - 64)) as ->; [|apply rep_small].
    + rewrite (pow2_split b 64), <- Z.div_div by (try apply pow2_pos; lia). unfold val.
      rewrite Z.add_comm, (Z.mul_comm (2 ^ 64)), Z.div_add_l, (Z.div_small a.1) by lia. by rewrite Z.add_0_r.
    + pose proof (Z.pow_le_mono_r 2 (64 - (b - 64)) 64 ltac:(lia) ltac:(lia)). lia.
  - assert ((dt_shift_128 a (- b)).2 = a.2 `div` 2 ^ b) as E2.
    { unfold dt_shift_128. rewrite (proj2 (Z.eqb_neq (- b) 0)), (proj2 (Z.ltb_lt (- b) 0)) by lia.
      rewrite Z.opp_involutive, (proj2 (Z.leb_gt 64 b)) by lia. apply Z.shiftr_div_pow2. lia. }
    pose proof (shiftr_low a b ltac:(lia) H0 H1) as E1. rewrite Z.min_l in E1 by lia.
    destruct (split_word a.1 64 b ltac:(lia) H0) as (Hd0 & Hm0 & _).
    destruct (split_word a.2 64 b ltac:(lia) H1) as (Hd1 & Hm1 & Hs1).
    pose proof (pow2_split 64 b ltac:(lia)) as E64. pose proof (pow2_pos b ltac:(lia)).
    pose proof (pow2_pos (64 - b) ltac:(lia)).
    assert (2 ^ (64 - b) <= 2 ^ 64) by (apply Z.pow_le_mono_r; lia).
    unfold rep, val. rewrite E1, E2. split; [|split; [lia|]].
    + split; [apply Z.add_nonneg_nonneg; [lia|apply Z.mul_nonneg_nonneg; lia]|].
      assert (a.2 `mod` 2 ^ b * 2 ^ (64 - b) <= (2 ^ b - 1) * 2 ^ (64 - b)) by (apply Z.mul_le_mono_nonneg_r; lia). lia.
    + apply Z.div_unique_pos with (a.1 `mod` 2 ^ b); [done|].
      destruct (split_word a.1 64 b ltac:(lia) H0) as (_ & _ & Hs0). rewrite Hs0 at 1. rewrite Hs1 at 1. rewrite E64. ring.
Qed.

(** The shift to the right loses bits in between: the high word is cut off by
    a mask of [64 - b] bits where [b] are needed. *)
Lemma shiftr_loses_bits : rep (0, 2 ^ 30) (2 ^ 94) /\ ~ rep (dt_shift_128 (0, 2 ^ 30) (-40)) (2 ^ 94 `div` 2 ^ 40).
Proof. split; [vm_compute; intuition congruence|]. unfold rep. vm_compute. intuition congruence. Qed.

(** Shifts to the left multiply. *)
Lemma shiftl_rep a v b : rep a v -> 0 <= b < 128 -> v * 2 ^ b < 2 ^ 128 -> rep (dt_shift_128 a b) (v * 2 ^ b).
Proof.
  intros Ha Hb Hv. pose proof (rep_range a v Ha) as Hr. destruct Ha as (H0 & H1 & Ev).
  destruct (Z.eq_dec b 0) as [-> |]; [by rewrite Z.mul_1_r|].
  pose proof (pow2_pos b ltac:(lia)). unfold dt_shift_128.
  rewrite (proj2 (Z.eqb_neq b 0)), (proj2 (Z.ltb_ge b 0)) by lia. destruct (Z.leb_spec 64 b).
  - rewrite Z.shiftl_mul_pow2 by lia. pose proof (pow2_split b 64 ltac:(lia)) as E.
    pose proof (pow2_pos (b - 64) ltac:(lia)).
    assert (a.2 = 0) as E2.
    { unfold val in Ev. destruct (Z.eq_dec a.2 0); [done|].
      assert (2 ^ 64 * 1 <= v) by lia. assert (2 ^ 64 * 2 ^ 64 <= v * 2 ^ b); [|lia].
      apply Z.mul_le_mono_nonneg; [lia..|]. apply Z.pow_le_mono_r; lia. }
    unfold val in Ev. rewrite E2, Z.mul_0_r, Z.add_0_r in Ev. subst v.
    rewrite E in Hv |- *. assert (a.1 * 2 ^ (b - 64) < 2 ^ 64) by lia.
    unfold rep, val. simpl. rewrite wrapu_small by (split; [apply Z.mul_nonneg_nonneg; lia|done]). lia.
  - destruct (split_word a.1 64 (64 - b) ltac:(lia) H0) as (Hd & Hm & Hs).
    replace (64 - (64 - b)) with b in Hd by lia. pose proof (pow2_split 64 b ltac:(lia)) as E.
    pose proof (pow2_pos (64 - b) ltac:(lia)).
    rewrite !shl_u64, Z.shiftr_div_pow2, Z.lor_comm, lor_add_disjoint by lia.
    unfold val in Ev. assert (a.2 < 2 ^ (64 - b)) as Hlt.
    { assert (2 ^ 64 * a.2 * 2 ^ b < 2 ^ 64 * 2 ^ 64).
      { apply Z.le_lt_trans with (v * 2 ^ b); [|lia]. apply Z.mul_le_mono_nonneg_r; lia. }
      apply (Z.mul_lt_mono_pos_r (2 ^ b)); [done|]. rewrite (Z.mul_comm (2 ^ (64 - b))), <- E. lia. }
    unfold wrapu. rewrite (Z.mod_small a.2) by lia. unfold rep, val. cbn [fst snd].
    assert (a.2 * 2 ^ b <= (2 ^ (64 - b) - 1) * 2 ^ b) by (apply Z.mul_le_mono_nonneg_r; lia).
    assert (a.1 `mod` 2 ^ (64 - b) * 2 ^ b <= (2 ^ (64 - b) - 1) * 2 ^ b) by (apply Z.mul_le_mono_nonneg_r; lia).
    assert (0 <= a.2 * 2 ^ b) by (apply Z.mul_nonneg_nonneg; lia).
    assert (0 <= a.1 `mod` 2 ^ (64 - b) * 2 ^ b) by (apply Z.mul_nonneg_nonneg; lia).
    split; [lia|]. split; [lia|]. rewrite <- Ev. rewrite Hs at 3. rewrite E. ring.
Qed.

Lemma add_rep a b v w : rep a v -> rep b w -> v + w < 2 ^ 128 -> rep (dt_add_128 a b) (v + w).
Proof.
  intros (H0 & H1 & <-) (H2 & H3 & <-). unfold val, rep, dt_add_128, val. cbn [fst snd]. intros Hlt.
  rewrite wrapu_add_l. destruct (Z.lt_ge_cases (a.1 + b.1) (2 ^ 64)).
  - rewrite (wrapu_small 64 (a.1 + b.1)) by lia. rewrite !(proj2 (Z.ltb_ge (a.1 + b.1) _)) by lia.
    cbn [orb c_bool]. rewrite wrapu_small by lia. lia.
  - assert (u64 (a.1 + b.1) = a.1 + b.1 - 2 ^ 64) as -> by (symmetry; apply Z.mod_unique_pos with 1; lia).
    rewrite (proj2 (Z.ltb_lt (a.1 + b.1 - 2 ^ 64) a.1)) by lia. cbn [orb c_bool]. rewrite wrapu_small by lia. lia.
Qed.

Lemma sub_rep a b v w : rep a v -> rep b w -> w <= v -> rep (dt_subtract_128 a b) (v - w).
Proof.
  intros (H0 & H1 & <-) (H2 & H3 & <-). unfold val, rep, dt_subtract_128, val. cbn [fst snd]. intros Hle.
  assert (u64 (u64 (a.2 - b.2) - c_bool (a.1 <? b.1)) = a.2 - b.2 - c_bool (a.1 <? b.1)) as ->.
  { unfold wrapu. rewrite Zminus_mod_idemp_l. apply Z.mod_small. unfold c_bool. case_cmp; lia. }
  unfold c_bool. case_cmp.
  - assert (u64 (a.1 - b.1) = a.1 - b.1 + 2 ^ 64) as -> by (symmetry; apply Z.mod_unique_pos with (-1); lia). lia.
  - rewrite wrapu_small by lia. lia.
Qed.

Lemma mul_rep x y : in64 x -> in64 y -> rep (dt_multiply_128 x y) (x * y).
Proof.
  intros Hx Hy. unfold dt_multiply_128. rewrite !Z.shiftr_div_pow2 by lia.
  change DT_MASK_LO with (Z.ones 32). rewrite !Z.land_ones by lia.
  destruct (split_word x 64 32 ltac:(lia) Hx) as (Hh1 & Hl1 & E1), (split_word y 64 32 ltac:(lia) Hy) as (Hh2 & Hl2 & E2).
  set (h1 := x `div` 2 ^ 32) in *. set (l1 := x `mod` 2 ^ 32) in *.
  set (h2 := y `div` 2 ^ 32) in *. set (l2 := y `mod` 2 ^ 32) in *.
  assert (forall p q, 0 <= p < 2 ^ 32 -> 0 <= q < 2 ^ 32 -> 0 <= p * q <= (2 ^ 32 - 1) * (2 ^ 32 - 1)) as Hpq.
  { intros p q Hp Hq. split; [apply Z.mul_nonneg_nonneg; lia|apply Z.mul_le_mono_nonneg; lia]. }
  pose proof (Hpq h1 h2 Hh1 Hh2). pose proof (Hpq h1 l2 Hh1 Hl2). pose proof (Hpq h2 l1 Hh2 Hl1).
  pose proof (Hpq l1 l2 Hl1 Hl2). rewrite !wrapu_small by lia.
  replace (x * y) with (l1 * l2 + 2 ^ 64 * (h1 * h2) + h1 * l2 * 2 ^ 32 + h2 * l1 * 2 ^ 32)
    by (rewrite E1, E2; ring).
  apply add_rep; [apply add_rep; [apply rep_words; lia| |]| |]; try (apply shiftl_rep; [apply rep_small; lia|lia..]); lia.
Qed.
#[export] Hint Resolve rep_small rep_words shiftl_rep shiftr_rep add_rep sub_rep mul_rep : u128.

Lemma div_pow2_S v k : 0 <= k -> (v `div` 2 ^ k) `div` 2 ^ 1 = v `div` 2 ^ (k + 1).
Proof. intros. pose proof (pow2_pos k). rewrite Z.div_div, <- Z.pow_add_r by lia. done. Qed.

(** Halving a number below [2 ^ n] reaches 0 in [n] steps. *)
Lemma div2_log2 v : 1 < v -> Z.log2 v = Z.log2 (v `div` 2 ^ 1) + 1.
Proof. intros. rewrite <- (Z.shiftr_div_pow2 v 1), Z.log2_shiftr by lia. pose proof (Z.log2_pos v). lia. Qed.

Lemma nbits_rep a v : rep a v -> dt_nbits_128 a = Some (Z.log2 v).
Proof.
  intros Ha. pose proof (rep_range a v Ha). unfold dt_nbits_128.
  pose (Inv := λ s : u128 * Z, exists w, rep s.1 w /\ s.2 + (if w =? 0 then 0 else Z.log2 w + 1) = Z.log2 v).
  pose (mu := λ s : u128 * Z, Z.to_nat (Z.log2 v - s.2)).
  destruct (c_while_spec Inv mu (λ '(tmp, _), dt_gt_128 tmp (0, 0))
    (λ '(tmp, nbits), (dt_shift_128 tmp (-1), nbits + 1))) with (n := 129%nat) (s := (dt_shift_128 a (-1), 0))
    as ([tmp nb] & -> & (w & Hw & E) & Hc).
  - intros [tmp nb] (w & Hw & E) Hc. cbn [fst snd] in *. rewrite (gt_rep tmp (0, 0) w 0 Hw) in Hc by (by apply rep_small).
    apply Z.ltb_lt in Hc. rewrite (proj2 (Z.eqb_neq w 0)) in E by lia. pose proof (Z.log2_nonneg w).
    split; [|unfold mu; cbn [snd]; lia].
    exists (w `div` 2 ^ 1). split; [apply (shiftr_rep _ _ 1); [done|lia]|]. cbn [snd].
    destruct (Z.eq_dec w 1) as [-> |]; [simpl in *; lia|]. rewrite div2_log2 in E by lia.
    rewrite (proj2 (Z.eqb_neq (w `div` 2 ^ 1) 0)); [lia|]. pose proof (Z.div_le_lower_bound w (2 ^ 1) 1). lia.
  - exists (v `div` 2 ^ 1). split; [apply (shiftr_rep _ _ 1); [done|lia]|]. cbn [snd].
    destruct (Z.le_gt_cases v 1).
    + assert (v = 0 \/ v = 1) as [-> | ->] by lia; done.
    + rewrite (proj2 (Z.eqb_neq (v `div` 2 ^ 1) 0)), (div2_log2 v) by (try lia; pose proof (Z.div_le_lower_bound v (2 ^ 1) 1); lia). lia.
  - unfold mu. simpl. destruct (Z.eq_dec v 0) as [-> |]; [simpl; lia|].
    pose proof (proj1 (Z.log2_lt_pow2 v 128 ltac:(lia))). lia.
  - cbn [fst snd] in *. rewrite (gt_rep tmp (0, 0) w 0 Hw) in Hc by (by apply rep_small). apply Z.ltb_ge in Hc.
    pose proof (rep_range _ _ Hw). replace w with 0 in E by lia. simpl in E. simpl. f_equal. lia.
Qed.

(** *** Division *)

(** The loop that counts the bits of the divisor. *)
Lemma divisor_log d : 0 < d < 2 ^ 64 ->
  exists d', c_while 65 (λ '(d, _), 0 <? d) (λ '(d, log), (Z.shiftr d 1, log + 1)) (d, 0) = Some (d', Z.log2 d + 1).
Proof.
  intros Hd. pose (Inv := λ s : Z * Z, 0 <= s.1 /\ s.2 + (if s.1 =? 0 then 0 else Z.log2 s.1 + 1) = Z.log2 d + 1).
  destruct (c_while_spec Inv (λ s, Z.to_nat (Z.log2 d + 1 - s.2)) (λ '(d, _), 0 <? d)
    (λ '(d, log), (Z.shiftr d 1, log + 1))) with (n := 65%nat) (s := (d, 0)) as ([d' l] & -> & [H0 E] & Hc).
  - intros [x l] [H0 E] Hc%Z.ltb_lt. cbn [fst snd] in *. rewrite (proj2 (Z.eqb_neq x 0)) in E by lia.
    pose proof (Z.log2_nonneg x). split; [|lia]. unfold Inv. cbn [fst snd]. rewrite Z.shiftr_div_pow2 by lia.
    split; [apply Z.div_pos; lia|]. destruct (Z.eq_dec x 1) as [-> |]; [simpl in *; lia|].
    rewrite div2_log2 in E by lia. pose proof (Z.div_le_lower_bound x (2 ^ 1) 1).
    rewrite (proj2 (Z.eqb_neq (x `div` 2 ^ 1) 0)); lia.
  - unfold Inv. cbn [fst snd]. rewrite (proj2 (Z.eqb_neq d 0)) by lia. lia.
  - pose proof (proj1 (Z.log2_lt_pow2 d 64 ltac:(lia))). pose proof (Z.log2_nonneg d). cbn [snd]. lia.
  - exists d'. cbn [fst snd] in *. apply Z.ltb_ge in Hc. rewrite (proj2 (Z.eqb_eq d' 0)) in E by lia.
    do 2 f_equal. lia.
Qed.

(** The long division of [n] by [d], about to try the bit [k] of the quotient,
    or done. *)
Definition dividing (n d : Z) (s : divide_state) : Prop :=
  exists q r, rep (v_result s) q /\ rep (v_remainder s) r /\ n = q * d + r /\
    ((exists k, 0 <= k < 128 /\ rep (v_subtrahend s) (d * 2 ^ k) /\ rep (v_mask s) (2 ^ k) /\
                r < d * 2 ^ (k + 1) /\ (2 ^ (k + 1) | q)) \/
     r < d /\ rep (v_mask s) 0).

(** Setting a bit that is not set. *)
Lemma lor_rep a b v k : rep a v -> rep b (2 ^ k) -> 0 <= k < 128 -> (2 ^ (k + 1) | v) ->
  rep (Z.lor a.1 b.1, Z.lor a.2 b.2) (v + 2 ^ k).
Proof.
  intros Ha Hb Hk Hv. pose proof Ha as (? & ? & _). pose proof Hb as (? & ? & _).
  split; [by apply lor_range|]. split; [by apply lor_range|].
  rewrite (rep_lo _ _ Ha), (rep_lo _ _ Hb), (rep_hi _ _ Ha), (rep_hi _ _ Hb).
  assert (Z.lor v (2 ^ k) = v + 2 ^ k) as <-.
  { symmetry. apply Z.add_nocarry_lor. apply Z.bits_inj'. intros i Hi.
    rewrite Z.land_spec, Z.bits_0, Z.pow2_bits_eqb by lia. destruct (Z.eqb_spec k i) as [<- |]; [|by rewrite andb_false_r].
    destruct Hv as [z ->]. by rewrite Z.mul_pow2_bits_low by lia. }
  unfold val. cbn [fst snd].
  rewrite <- !Z.shiftr_div_pow2, <- !Z.land_ones, <- Z.shiftr_lor, <- Z.land_lor_distr_l by lia.
  rewrite Z.shiftr_div_pow2, Z.land_ones, Z.add_comm by lia. symmetry. apply Z.div_mod. lia.
Qed.

(** One step decides the bit [k] of the quotient. *)
Lemma divide_step_bit n d s q r k : 0 <= k < 128 ->
  rep (v_result s) q -> rep (v_remainder s) r -> n = q * d + r ->
  rep (v_subtrahend s) (d * 2 ^ k) -> rep (v_mask s) (2 ^ k) -> r < d * 2 ^ (k + 1) -> (2 ^ (k + 1) | q) ->
  exists q' r', rep (v_result (divide_step s)) q' /\ rep (v_remainder (divide_step s)) r' /\
    n = q' * d + r' /\ r' < d * 2 ^ k /\ (2 ^ k | q').
Proof.
  intros Hk Hq Hr En Hs Hm Hlt Hd. assert (2 ^ (k + 1) = 2 * 2 ^ k) as Ek by (rewrite Z.pow_add_r; lia).
  assert (2 ^ k | q) as Hd' by (apply Z.divide_trans with (2 ^ (k + 1)); [exists 2; lia|done]).
  unfold divide_step. rewrite (ge_rep _ _ _ _ Hr Hs).
  destruct (Z.leb_spec (d * 2 ^ k) r); cbn [v_result v_remainder].
  - exists (q + 2 ^ k), (r - d * 2 ^ k). split; [by apply lor_rep|]. split; [by apply sub_rep|].
    split; [lia|]. split; [lia|]. apply Z.divide_add_r; [done|apply Z.divide_refl].
  - by exists q, r.
Qed.

Lemma half_rep a v k : rep a (v * 2 ^ k) -> 0 < k -> rep (dt_shift_128 a (-1)) (v * 2 ^ (k - 1)).
Proof.
  intros Ha Hk. replace (v * 2 ^ (k - 1)) with ((v * 2 ^ k) `div` 2 ^ 1).
  - apply (shiftr_rep a _ 1); [done|lia].
  - replace (2 ^ k) with (2 ^ (k - 1) * 2 ^ 1) by (rewrite <- Z.pow_add_r by lia; f_equal; lia).
    rewrite Z.mul_assoc. apply Z.div_mul. lia.
Qed.

Definition divide_left (s : divide_state) : nat :=
  if val (v_mask s) =? 0 then 0%nat else S (Z.to_nat (Z.log2 (val (v_mask s)))).

Lemma divide_step_ok n d s : 0 < d < 2 ^ 64 -> dividing n d s -> dt_ge_128 (v_remainder s) (d, 0) = true ->
  dividing n d (divide_step s) /\ (divide_left (divide_step s) < divide_left s)%nat.
Proof.
  intros Hd (q & r & Hq & Hr & En & Hk) Hc. rewrite (ge_rep _ _ _ d Hr) in Hc by (apply rep_small; lia).
  apply Z.leb_le in Hc. destruct Hk as [(k & Hk & Hs & Hm & Hlt & Hq0)|[? _]]; [|lia].
  destruct (divide_step_bit n d s q r k) as (q' & r' & Hq' & Hr' & En' & Hlt' & Hq0'); [done..|].
  assert (v_subtrahend (divide_step s) = dt_shift_128 (v_subtrahend s) (-1) /\
          v_mask (divide_step s) = dt_shift_128 (v_mask s) (-1)) as [Es Em]
    by (unfold divide_step; by destruct (dt_ge_128 _ _)).
  assert (divide_left s = S (Z.to_nat k)) as El.
  { unfold divide_left. destruct Hm as (_ & _ & ->). pose proof (pow2_pos k ltac:(lia)).
    rewrite (proj2 (Z.eqb_neq (2 ^ k) 0)), Z.log2_pow2 by lia. done. }
  destruct (Z.eq_dec k 0) as [-> |].
  - assert (rep (v_mask (divide_step s)) 0) as Hm0 by (rewrite Em; apply (shiftr_rep _ 1 1); [exact Hm|lia]).
    split; [|unfold divide_left at 1; destruct Hm0 as (_ & _ & ->); simpl; lia].
    exists q', r'. do 3 (split; [done|]). right. split; [lia|done].
  - assert (rep (v_mask (divide_step s)) (2 ^ (k - 1))) as Hm1.
    { rewrite Em. rewrite <- (Z.mul_1_l (2 ^ (k - 1))). apply half_rep; [by rewrite Z.mul_1_l|lia]. }
    split.
    + exists q', r'. do 3 (split; [done|]). left. exists (k - 1). rewrite Z.sub_add. split; [lia|].
      split; [rewrite Es; apply half_rep; [done|lia]|done].
    + rewrite El. unfold divide_left. destruct Hm1 as (_ & _ & ->). pose proof (pow2_pos (k - 1) ltac:(lia)).
      rewrite (proj2 (Z.eqb_neq (2 ^ (k - 1)) 0)), Z.log2_pow2 by lia. lia.
Qed.

(** The division ends and is the floor of the quotient. *)
Lemma divide_rep a n d : rep a n -> 0 < d < 2 ^ 64 ->
  exists r, dt_divide_128 a d = Some r /\ rep r (n `div` d).
Proof.
  intros Ha Hd. unfold dt_divide_128. rewrite (proj2 (Z.eqb_neq d 0)) by lia.
  destruct (divisor_log d Hd) as [d' ->]. cbn [mbind option_bind]. pose proof (Z.log2_nonneg d).
  pose proof (proj1 (Z.log2_lt_pow2 d 64 ltac:(lia)) ltac:(lia)). pose proof (Z.log2_spec d ltac:(lia)) as [Hl1 Hl2].
  pose proof (rep_range a n Ha). set (k := 127 - Z.log2 d). replace (128 - (Z.log2 d + 1)) with k by lia.
  assert (2 ^ 128 = 2 ^ (Z.log2 d + 1) * 2 ^ k) as E128 by (rewrite <- Z.pow_add_r by lia; f_equal; lia).
  assert (2 ^ 128 = 2 ^ Z.log2 d * 2 ^ (k + 1)) as E128' by (rewrite <- Z.pow_add_r by lia; f_equal; lia).
  pose proof (pow2_pos k ltac:(lia)). pose proof (pow2_pos (k + 1) ltac:(lia)).
  rewrite <- Z.add_1_r in Hl2.
  assert (d * 2 ^ k < 2 ^ 128) by (rewrite E128; apply Z.mul_lt_mono_pos_r; lia).
  assert (2 ^ 128 <= d * 2 ^ (k + 1)) by (rewrite E128'; apply Z.mul_le_mono_nonneg_r; lia).
  set (s0 := Div _ _ _ _).
  assert (rep (v_mask s0) (2 ^ k)) as Hm.
  { rewrite <- (Z.mul_1_l (2 ^ k)). apply shiftl_rep; [by apply rep_small|lia|].
    rewrite Z.mul_1_l. apply Z.pow_lt_mono_r; lia. }
  destruct (c_while_spec (dividing n d) divide_left (λ s, dt_ge_128 (v_remainder s) (d, 0)) divide_step
    (λ s HI Hc, divide_step_ok n d s Hd HI Hc) 129 s0) as (s & -> & (q & r & Hq & Hr & En & _) & Hc).
  - exists 0, n. split; [by apply rep_small|]. split; [done|]. split; [lia|]. left. exists k.
    split; [lia|]. split; [|split; [done|split; [lia|apply Z.divide_0_r]]].
    apply shiftl_rep; [apply rep_small; lia|lia|done].
  - unfold divide_left. destruct Hm as (_ & _ & ->). rewrite (proj2 (Z.eqb_neq (2 ^ k) 0)), Z.log2_pow2 by lia. lia.
  - exists (v_result s). split; [done|]. cbn beta in Hc. rewrite (ge_rep _ _ _ d Hr) in Hc by (apply rep_small; lia).
    apply Z.leb_gt in Hc. pose proof (rep_range _ _ Hr).
    replace (n `div` d) with q; [done|]. apply Z.div_unique_pos with r; lia.
Qed.

(** *** Square root *)

(** The pair of bits that the square root brings down is right for every even
    shift, those that lose bits included: the bits lost are higher. *)
Lemma next_pair_bits a v t : rep a v -> 0 <= t <= 63 ->
  Z.land (dt_shift_128 a (- (2 * t))).1 3 = (v `div` 2 ^ (2 * t)) `mod` 4.
Proof.
  intros Ha Ht. change 3 with (Z.ones 2). rewrite Z.land_ones by lia. change (2 ^ 2) with 4.
  destruct (decide (2 * t <= 32 \/ 64 <= 2 * t)).
  - rewrite (rep_lo _ _ (shiftr_rep a v (2 * t) Ha ltac:(lia))).
    apply Z.mod_mod_divide. by exists (2 ^ 62).
  - destruct Ha as (H0 & H1 & <-). rewrite shiftr_low by (done || lia). set (b := 2 * t) in *.
    assert (val a `div` 2 ^ b = a.1 `div` 2 ^ b + a.2 * 2 ^ (64 - b)) as ->.
    { unfold val. rewrite (pow2_split 64 b) by lia. replace (a.1 + 2 ^ b * 2 ^ (64 - b) * a.2)
        with (a.1 + a.2 * 2 ^ (64 - b) * 2 ^ b) by ring. apply Z.div_add. pose proof (pow2_pos b). lia. }
    replace (2 ^ (64 - b)) with (2 ^ (62 - b) * 4) by (change 4 with (2 ^ 2); rewrite <- Z.pow_add_r by lia; f_equal; lia).
    by rewrite !Z.mul_assoc, !Z.mod_add by lia.
Qed.

(** The digit of the square root: with [R] the root of [N], the root of
    [4 * N + p] is [2 * R + 1] or [2 * R]. *)
Lemma sqrt_digit N p : 0 <= N -> 0 <= p < 4 ->
  let R := Z.sqrt N in
  Z.sqrt (4 * N + p) = if 4 * R + 1 <=? 4 * (N - R * R) + p then 2 * R + 1 else 2 * R.
Proof.
  intros HN Hp R. pose proof (Z.sqrt_spec N HN) as Hs. fold R in Hs. pose proof (Z.sqrt_nonneg N). fold R in H.
  case_cmp; apply Z.sqrt_unique; unfold Z.succ in *; lia.
Qed.

(** The square root of the bits of [v] above [2 * t]. *)
Definition rooting (v t : Z) (s : sqrt_state) : Prop :=
  let n := v `div` 2 ^ (2 * (t + 1)) in
  rep (q_result s) (Z.sqrt n) /\ rep (q_diff s) (n - Z.sqrt n * Z.sqrt n) /\ q_pair_shift s = u64 (2 * t).

Lemma sqrt_bound n k : 0 <= n < 2 ^ (2 * k) -> 0 <= k ->
  0 <= Z.sqrt n < 2 ^ k /\ 0 <= n - Z.sqrt n * Z.sqrt n <= 2 * Z.sqrt n.
Proof.
  intros Hn Hk. pose proof (Z.sqrt_spec n ltac:(lia)) as Hs. pose proof (Z.sqrt_nonneg n). unfold Z.succ in Hs.
  split; [|lia]. split; [done|]. apply Z.sqrt_lt_square; [lia|apply Z.pow_nonneg; done|].
  rewrite <- Z.pow_add_r by lia. replace (k + k) with (2 * k) by lia. lia.
Qed.

Lemma sqrt_step_ok a v t s : rep a v -> 0 <= t <= 63 -> rooting v t s -> rooting v (t - 1) (sqrt_step a s).
Proof.
  intros Ha Ht (Hr & Hd & Hp). pose proof (rep_range a v Ha) as Hv.
  set (n := v `div` 2 ^ (2 * (t + 1))) in *. set (p := (v `div` 2 ^ (2 * t)) `mod` 4).
  assert (v `div` 2 ^ (2 * t) = 4 * n + p) as En.
  { subst n p. replace (2 * (t + 1)) with (2 * t + 2) by lia. rewrite Z.pow_add_r by lia.
    rewrite <- Z.div_div by (try apply pow2_pos; lia). apply Z.div_mod. lia. }
  assert (0 <= p < 4) as Hp4 by (apply Z.mod_pos_bound; lia).
  assert (0 <= n < 2 ^ (2 * (63 - t))) as Hn.
  { subst n. replace (2 * (63 - t)) with (128 - 2 * (t + 1)) by lia.
    destruct (split_word v 128 (2 * (t + 1)) ltac:(lia) Hv) as (? & _). done. }
  destruct (sqrt_bound n (63 - t) Hn ltac:(lia)) as [HR HD].
  assert (2 ^ (63 - t) <= 2 ^ 63) by (apply Z.pow_le_mono_r; lia).
  pose proof (sqrt_digit n p ltac:(lia) Hp4) as Hdig. cbv zeta in Hdig.
  unfold rooting, sqrt_step. rewrite Hp. replace (t - 1 + 1) with t by lia. rewrite En, Hdig.
  rewrite wrapu_small, wraps_small, next_pair_bits with (v := v) by (done || lia). fold p.
  set (R := Z.sqrt n) in *. set (D := n - R * R) in *.
  assert (rep (dt_add_128 (dt_shift_128 (q_diff s) 2) (p, 0)) (4 * D + p)) as Hd'.
  { rewrite (Z.mul_comm 4). apply add_rep; [apply (shiftl_rep _ _ 2); [done|lia..]|apply rep_small; lia|lia]. }
  assert (rep (dt_add_128 (dt_shift_128 (q_result s) 2) (1, 0)) (4 * R + 1)) as Ht'.
  { rewrite (Z.mul_comm 4). apply add_rep; [apply (shiftl_rep _ _ 2); [done|lia..]|by apply rep_small|lia]. }
  assert (rep (dt_shift_128 (q_result s) 1) (2 * R)) as Hr'.
  { rewrite Z.mul_comm. apply (shiftl_rep _ _ 1); [done|lia..]. }
  rewrite (le_rep _ _ _ _ Ht' Hd'). destruct (Z.leb_spec (4 * R + 1) (4 * D + p)); cbn [q_result q_diff q_pair_shift].
  - split; [apply add_rep; [done|by apply rep_small|lia]|]. split; [|f_equal; lia].
    replace (4 * n + p - (2 * R + 1) * (2 * R + 1)) with (4 * D + p - (4 * R + 1)) by (subst D; ring). by apply sub_rep.
  - split; [done|]. split; [|f_equal; lia].
    by replace (4 * n + p - 2 * R * (2 * R)) with (4 * D + p) by (subst D; ring).
Qed.

Lemma sqrt_rep a v : rep a v -> dt_sqrt_128 a = Some (Z.sqrt v).
Proof.
  intros Ha. pose proof (rep_range a v Ha) as Hv. unfold dt_sqrt_128. rewrite (nbits_rep a v Ha).
  cbn [mbind option_bind]. pose proof (Z.log2_nonneg v). rewrite Z.quot_div_nonneg by lia.
  set (bp := Z.log2 v `div` 2).
  assert (v < 2 ^ (2 * (bp + 1))) as Hlt.
  { destruct (Z.eq_dec v 0) as [-> |]; [done|]. apply Z.log2_lt_pow2; [lia|].
    pose proof (Z.div_mod (Z.log2 v) 2). pose proof (Z.mod_pos_bound (Z.log2 v) 2). lia. }
  assert (0 <= bp <= 63) as Hbp.
  { split; [apply Z.div_pos; lia|]. assert (Z.log2 v <= 127); [|pose proof (Z.div_lt_upper_bound (Z.log2 v) 2 64); unfold bp; lia].
    destruct (Z.eq_dec v 0) as [-> |]; [done|]. pose proof (proj1 (Z.log2_lt_pow2 v 128 ltac:(lia)) ltac:(lia)). lia. }
  assert (forall j, (j <= S (Z.to_nat bp))%nat -> rooting v (bp - Z.of_nat j)
    (Nat.iter j (sqrt_step a) (Sqrt (0, 0) (0, 0) (u64 (bp * 2))))) as Hit.
  { induction j as [|j IH]; intros Hj.
    - unfold rooting. rewrite Z.sub_0_r, Z.div_small by lia.
      split; [by apply rep_small|]. split; [by apply rep_small|]. simpl. f_equal. lia.
    - rewrite Nat.iter_succ. replace (bp - Z.of_nat (S j)) with (bp - Z.of_nat j - 1) by lia.
      apply sqrt_step_ok; [done|lia|apply IH; lia]. }
  destruct (Hit (S (Z.to_nat bp)) ltac:(lia)) as (Hr & _ & _).
  replace (2 * (bp - Z.of_nat (S (Z.to_nat bp)) + 1)) with 0 in Hr by lia. rewrite Z.div_1_r in Hr.
  destruct (sqrt_bound v 64 ltac:(lia) ltac:(lia)) as [HR _].
  pose proof (rep_hi _ _ Hr) as E2. rewrite Z.div_small in E2 by lia.
  pose proof (rep_lo _ _ Hr) as E1. rewrite Z.mod_small in E1 by lia.
  by rewrite E2, E1.
Qed.

(** *** Standard deviation *)

Lemma s64_div_pos a b : 0 < b -> s64_div a b = Some (a `quot` b).
Proof.
  intros. unfold s64_div. rewrite (proj2 (Z.eqb_neq b 0)), (proj2 (Z.eqb_neq b (-1))) by lia. by rewrite andb_false_r.
Qed.

Lemma u64_abs x : - 2 ^ 63 <= x < 2 ^ 63 -> u64 (if x <? 0 then s64 (- x) else x) = Z.abs x.
Proof.
  intros Hx. case_cmp; [rewrite wrapu_wraps by lia|]; rewrite wrapu_small by lia; lia.
Qed.

Section Stddev.
Context (count sum lo hi normal : Z).
Context (Hlo : in64 lo) (Hhi : in64 hi) (Hsum : in64 sum).
Context (Hcount : 0 < count < 2 ^ 63) (Hnormal : 0 < normal < 2 ^ 63).

Let squares := val (lo, hi).
Let avg := (s64 sum `quot` normal) `quot` count.

Lemma avg_range : - 2 ^ 63 <= avg < 2 ^ 63.
Proof.
  assert (forall x d, 0 < d -> - 2 ^ 63 <= x < 2 ^ 63 -> - 2 ^ 63 <= x `quot` d < 2 ^ 63) as Hq.
  { intros x d Hd Hx. pose proof (Z.quot_abs x d ltac:(lia)) as E. rewrite (Z.abs_eq d), Z.quot_div_nonneg in E by lia.
    pose proof (Z.div_le_upper_bound (Z.abs x) d (Z.abs x) ltac:(lia) ltac:(nia)).
    destruct (Z.le_gt_cases 0 x).
    - pose proof (Z.quot_pos x d ltac:(lia) ltac:(lia)). lia.
    - pose proof (Z.quot_opp_l x d ltac:(lia)). pose proof (Z.quot_pos (- x) d ltac:(lia) ltac:(lia)). lia. }
  apply Hq; [lia|]. apply Hq; [lia|]. apply (wraps_range 64); lia.
Qed.

Lemma stddev_ok : avg * avg <= (squares `div` normal) `div` count ->
  dt_stddev [count; sum; lo; hi] normal = Some (Z.sqrt ((squares `div` normal) `div` count - avg * avg)).
Proof.
  intros Hle. unfold dt_stddev. cbn [mbind option_bind].
  destruct (divide_rep (lo, hi) squares normal ltac:(by apply rep_words) ltac:(lia)) as (a1 & -> & H1).
  cbn [mbind option_bind]. destruct (divide_rep a1 _ count H1 ltac:(lia)) as (a2 & -> & H2). cbn [mbind option_bind].
  rewrite (wraps_small 64 normal), (wraps_small 64 count), s64_div_pos by lia. cbn [mbind option_bind].
  rewrite s64_div_pos by lia. cbn [mbind option_bind]. fold avg. pose proof avg_range.
  rewrite u64_abs by done. apply sqrt_rep. rewrite <- (Z.abs_square avg) in Hle |- *.
  apply sub_rep; [done|apply mul_rep; lia|done].
Qed.
End Stddev.

(** Cauchy-Schwarz: the average of the squares is at least the square of the
    average. *)
Abbreviation squares xs := (sum_list (map (λ x, x * x) xs)).

Lemma sum_dist (xs : list Z) c : 2 * c * sum_list xs <= squares xs + Z.of_nat (length xs) * (c * c).
Proof. induction xs as [|x xs IH]; simpl; [lia|]. pose proof (Z.square_nonneg (x - c)). lia. Qed.

Lemma sum_square_le (xs : list Z) : sum_list xs * sum_list xs <= Z.of_nat (length xs) * squares xs.
Proof.
  induction xs as [|x xs IH]; [done|]. cbn [length map sum_list foldr]. fold (sum_list xs) (squares xs).
  pose proof (sum_dist xs x). lia.
Qed.

Lemma squares_nonneg (xs : list Z) : 0 <= squares xs.
Proof. induction xs; simpl; [lia|]. pose proof (Z.square_nonneg a). lia. Qed.

Lemma avg_square_le (xs : list Z) normal : xs <> [] -> 0 < normal ->
  let d := normal * Z.of_nat (length xs) in
  let avg := sum_list xs `quot` d in
  avg * avg <= squares xs `div` d.
Proof.
  intros Hne Hn d avg. assert (0 < Z.of_nat (length xs)) by (destruct xs; [done|simpl; lia]).
  pose proof (sum_square_le xs) as Hcs. pose proof (squares_nonneg xs).
  assert (Z.abs avg * d <= Z.abs (sum_list xs)) as Ha.
  { unfold avg. rewrite <- Z.quot_abs by (subst d; nia). rewrite (Z.abs_eq d), Z.quot_div_nonneg by (subst d; nia).
    rewrite Z.mul_comm. apply Z.mul_div_le. subst d. nia. }
  apply Z.div_le_lower_bound; [subst d; nia|]. rewrite <- Z.abs_square. set (n := Z.of_nat (length xs)) in *.
  assert ((Z.abs avg * d) * (Z.abs avg * d) <= n * squares xs) as Hsq.
  { rewrite <- Z.abs_square in Hcs. apply Z.le_trans with (Z.abs (sum_list xs) * Z.abs (sum_list xs)); [|done].
    apply Z.mul_le_mono_nonneg; subst d; nia. }
  assert (n * (d * (Z.abs avg * Z.abs avg)) <= n * squares xs); [|by apply Z.mul_le_mono_pos_l in H1].
  apply Z.le_trans with ((Z.abs avg * d) * (Z.abs avg * d)); [|done].
  replace (Z.abs avg * d * (Z.abs avg * d)) with (normal * (n * (d * (Z.abs avg * Z.abs avg)))) by (subst d; ring).
  assert (0 <= n * (d * (Z.abs avg * Z.abs avg))); [|nia].
  apply Z.mul_nonneg_nonneg; [lia|]. apply Z.mul_nonneg_nonneg; subst d; nia.
Qed.

(** The data that the values leave, as numbers. *)
Lemma stddev_of_values xs normal : xs <> [] -> Z.of_nat (length xs) < 2 ^ 63 ->
  - 2 ^ 63 <= sum_list xs < 2 ^ 63 -> squares xs < 2 ^ 128 -> 0 < normal < 2 ^ 63 ->
  let d := normal * Z.of_nat (length xs) in
  dt_stddev (stddev_data xs) normal =
    Some (Z.sqrt (squares xs `div` d - (sum_list xs `quot` d) * (sum_list xs `quot` d))).
Proof.
  intros Hne Hlen Hsum Hsq Hn d. assert (0 < Z.of_nat (length xs)) by (destruct xs; [done|simpl; lia]).
  pose proof (squares_nonneg xs). pose proof (avg_square_le xs normal Hne ltac:(lia)) as Hle. cbv zeta in Hle. fold d in Hle.
  assert (u64 (squares xs) + 2 ^ 64 * u64 (Z.shiftr (squares xs) 64) = squares xs) as Ev.
  { rewrite Z.shiftr_div_pow2 by lia. destruct (split_word (squares xs) 128 64 ltac:(lia) ltac:(lia)) as (? & _ & E).
    rewrite (wrapu_small 64 (_ `div` _)) by lia. unfold wrapu. lia. }
  unfold stddev_data. rewrite (wrapu_small 64 (Z.of_nat (length xs))) by lia.
  assert (s64 (u64 (sum_list xs)) = sum_list xs) as Es
    by (unfold wraps; rewrite wrapu_idem by lia; apply (wraps_small 64); lia).
  rewrite stddev_ok; try (auto with cint); try lia;
    unfold val; cbn [fst snd]; by rewrite Ev, Es, Z.quot_quot, Z.div_div by lia.
Qed.

(** The data follows the updates that the code of stddev() makes for a value:
    one more, the sum and the 128-bit sum of squares. *)
Lemma stddev_data_step xs x : exists c s l h l' h',
  stddev_data xs = [c; s; l; h] /\ stddev_data (x :: xs) = [u64 (c + 1); u64 (s + x); l'; h'] /\
  val (l', h') = (val (l, h) + x * x) `mod` 2 ^ 128.
Proof.
  assert (forall z, u64 z + 2 ^ 64 * u64 (Z.shiftr z 64) = z `mod` 2 ^ 128) as Hv.
  { intros z. rewrite Z.shiftr_div_pow2 by lia. change (2 ^ 128) with (2 ^ 64 * 2 ^ 64).
    by rewrite Z.rem_mul_r by lia. }
  unfold stddev_data. do 6 eexists. split; [reflexivity|]. split.
  - rewrite !wrapu_add_l. cbn [length map]. rewrite Nat2Z.inj_succ, <- Z.add_1_r, (Z.add_comm (sum_list xs)). done.
  - unfold val. cbn [fst snd]. rewrite !Hv, Zplus_mod_idemp_l. f_equal. simpl. lia.
Qed.

(** ** The theorems *)

(** The 128-bit routines compute what they are named after on the numbers
    their words hold: comparison, addition and subtraction without wrap-around,
    the full 128-bit product of two 64-bit factors, multiplication by powers of
    two, and division by them for the distances up to 32 and from 64. *)
Theorem dt_arith_128_correct a b v w (Ha : rep a v) (Hb : rep b w) :
  dt_gt_128 a b = (w <? v) /\ dt_ge_128 a b = (w <=? v) /\ dt_le_128 a b = (v <=? w) /\
  (v + w < 2 ^ 128 -> rep (dt_add_128 a b) (v + w)) /\
  (w <= v -> rep (dt_subtract_128 a b) (v - w)) /\
  rep (dt_multiply_128 a.1 b.1) (a.1 * b.1) /\
  (forall k, 0 <= k < 128 -> v * 2 ^ k < 2 ^ 128 -> rep (dt_shift_128 a k) (v * 2 ^ k)) /\
  (forall k, 0 <= k <= 32 \/ 64 <= k < 128 -> rep (dt_shift_128 a (- k)) (v `div` 2 ^ k)) /\
  dt_nbits_128 a = Some (Z.log2 v).
Proof.
  repeat match goal with |- _ /\ _ => split end; eauto using gt_rep, ge_rep, le_rep, nbits_rep with u128.
  destruct Ha as (? & _), Hb as (? & _). auto with u128.
Qed.

Lemma dt_arith_128_correct_witness :
  rep (5, 3) (val (5, 3)) /\ rep (dt_shift_128 (5, 3) (- (64))) (val (5, 3) `div` 2 ^ 64).
Proof.
  assert (rep (5, 3) (val (5, 3))) as H by (unfold rep; simpl; lia).
  split; [exact H|]. apply (dt_arith_128_correct (5, 3) (5, 3) _ _ H H). lia.
Defined.

(** The long division returns, for every 128-bit dividend and every
    64-bit divisor that is not 0, the floor of the quotient: its two loops end
    within the 65 and 129 rounds they are given.  A divisor of 0 fails the
    assertion. *)
Theorem dt_divide_128_correct a n d (Ha : rep a n) (Hd : 0 < d < 2 ^ 64) :
  (exists q, dt_divide_128 a d = Some q /\ rep q (n `div` d)) /\ dt_divide_128 a 0 = None.
Proof. split; [by apply divide_rep|done]. Qed.

Lemma dt_divide_128_correct_witness :
  exists q, dt_divide_128 (7, 2 ^ 63) 10 = Some q /\ rep q ((7 + 2 ^ 64 * 2 ^ 63) `div` 10).
Proof.
  destruct (dt_divide_128_correct (7, 2 ^ 63) (7 + 2 ^ 64 * 2 ^ 63) 10) as [H _]; [by unfold rep|lia|exact H].
Defined.

(** C40: dt_sqrt_128() returns the integer square root of every 128-bit
    number: its loop ends, its assertion holds, and the bits that the shifts by
    more than 32 lose do not matter. *)
Theorem dt_sqrt_128_correct a v (Ha : rep a v) : dt_sqrt_128 a = Some (Z.sqrt v).
Proof. by apply sqrt_rep. Qed.

Lemma dt_sqrt_128_correct_witness : dt_sqrt_128 (0, 2 ^ 62) = Some (2 ^ 63).
Proof. rewrite (dt_sqrt_128_correct (0, 2 ^ 62) (2 ^ 126)); [reflexivity|by unfold rep]. Defined.

(** C29: For the data that a stddev() aggregation keeps of a list of values,
    dt_stddev returns the integer square root of the average of the squares
    minus the square of the average, each divided by the normalization factor:
    the subtraction does not go below zero, and nothing traps.  The sum must
    fit in a signed 64-bit word, the sum of squares in 128 bits. *)
Theorem dt_stddev_correct xs normal (Hne : xs <> []) (Hlen : Z.of_nat (length xs) < 2 ^ 63)
    (Hsum : - 2 ^ 63 <= sum_list xs < 2 ^ 63) (Hsq : squares xs < 2 ^ 128) (Hn : 0 < normal < 2 ^ 63) :
  let d := normal * Z.of_nat (length xs) in
  dt_stddev (stddev_data xs) normal =
    Some (Z.sqrt (squares xs `div` d - (sum_list xs `quot` d) * (sum_list xs `quot` d))).
Proof. by apply stddev_of_values. Qed.

Lemma dt_stddev_correct_witness : dt_stddev (stddev_data [3; -4; 12]) 1 = Some 6.
Proof. rewrite (dt_stddev_correct [3; -4; 12] 1) by (done || (simpl; lia)). reflexivity. Defined.

(** The normalization divides the average of the squares once, not twice: equal
    values have a normalized deviation that is not 0. *)
Lemma dt_stddev_normalized : dt_stddev (stddev_data [100; 100]) 10 = Some 30.
Proof. vm_compute. reflexivity. Qed.
