(* ===== verification/BpfMap.v ===== *)
(** * BPF maps

    The BPF programs and the consumer share state through the kernel's BPF maps.
    The maps are not part of this program: [BpfMap] is the interface of the
    helpers that the code calls (bpf_map_lookup_elem, bpf_map_update_elem,
    bpf_map_delete_elem, and stores through the pointer that a lookup returns),
    [BpfMapLaws] the documented behaviour that the theorems rely on.  [slots] is
    an implementation with a fixed number of slots, as the kernel's preallocated
    hash maps have, that discharges the laws. *)

From stdpp Require Import base list numbers option.
From S2P Require Import Prelude.

(** The flags of bpf_map_update_elem (include/uapi/linux/bpf.h). *)
Definition BPF_ANY : Z := 0.
Definition BPF_NOEXIST : Z := 1.

Class BpfMap (M K V : Type) := {
  bm_lookup : K -> M -> option V;           (** bpf_map_lookup_elem: the value *)
  bm_update : K -> V -> Z -> M -> option M; (** bpf_map_update_elem: None is an error *)
  bm_delete : K -> M -> M;                  (** bpf_map_delete_elem *)
  bm_write : K -> V -> M -> M;              (** a store through the pointer of a lookup *)
  bm_addr : K -> M -> Z                     (** the pointer that a lookup returns *)
}.
#[global] Hint Mode BpfMap + - - : typeclass_instances.

(** The element [k] is the same in both maps: its value and its address. *)
Definition same_elem `{BpfMap M K V} (k : K) (m m' : M) : Prop :=
  bm_lookup k m' = bm_lookup k m /\ (is_Some (bm_lookup k m) -> bm_addr k m' = bm_addr k m).

Class BpfMapLaws (M K V : Type) `{BpfMap M K V} := {
  bm_ok : M -> Prop;
  bm_update_ok k v fl m m' : bm_ok m -> bm_update k v fl m = Some m' ->
    bm_ok m' /\ bm_lookup k m' = Some v /\ forall k', k' <> k -> same_elem k' m m';
  bm_update_noexist k v m : bm_ok m -> is_Some (bm_lookup k m) -> bm_update k v BPF_NOEXIST m = None;
  bm_delete_ok k m : bm_ok m ->
    bm_ok (bm_delete k m) /\ bm_lookup k (bm_delete k m) = None /\
    forall k', k' <> k -> same_elem k' m (bm_delete k m);
  bm_write_ok k v m : bm_ok m -> is_Some (bm_lookup k m) ->
    bm_ok (bm_write k v m) /\ bm_lookup k (bm_write k v m) = Some v /\ bm_addr k (bm_write k v m) = bm_addr k m /\
    forall k', k' <> k -> same_elem k' m (bm_write k v m);
  bm_addr_kernel k m : bm_ok m -> is_Some (bm_lookup k m) -> 2 ^ 63 <= bm_addr k m < 2 ^ 64;
  bm_addr_inj k k' m : bm_ok m -> is_Some (bm_lookup k m) -> is_Some (bm_lookup k' m) ->
    bm_addr k m = bm_addr k' m -> k = k'
}.

(** BPF_ANY replaces the value of a key that is there, for which a preallocated
    hash map always has room. *)
Class BpfMapReplaces (M K V : Type) `{BpfMapLaws M K V} :=
  bm_update_any k v m : bm_ok m -> is_Some (bm_lookup k m) -> is_Some (bm_update k v BPF_ANY m).

#[export] Instance same_elem_preorder `{BpfMap M K V} k : PreOrder (same_elem (M := M) (K := K) k).
Proof.
  split; [done|]. intros m1 m2 m3 [E1 A1] [E2 A2]. split; [congruence|].
  intros Hk. rewrite A2 by (by rewrite E1). by apply A1.
Qed.

(** ** Maps with a fixed number of slots *)

Section Slots.
Context {K V : Type} `{EqDecision K}.

Abbreviation slots := (list (option (K * V))).
Implicit Types m : slots.

Definition holds (k : K) (s : option (K * V)) : Prop := fst <$> s = Some k.
#[local] Instance holds_dec k s : Decision (holds k s).
Proof. unfold holds. apply _. Defined.

Definition slot_of (k : K) m : option nat := fst <$> list_find (holds k) m.
#[local] Instance free_dec (s : option (K * V)) : Decision (s = None).
Proof. destruct s; [right|left]; done. Defined.
Definition free_slot m : option nat := fst <$> list_find (λ s, s = None) m.

#[export] Instance slots_map : BpfMap (list (option (K * V))) K V := {|
  bm_lookup k m := i ← slot_of k m; s ← m !! i; snd <$> s;
  bm_update k v fl m :=
    match slot_of k m with
    | Some i => if fl =? BPF_NOEXIST then None else Some (<[i := Some (k, v)]> m)
    | None => i ← free_slot m; Some (<[i := Some (k, v)]> m)
    end;
  bm_delete k m := match slot_of k m with Some i => <[i := None]> m | None => m end;
  bm_write k v m := match slot_of k m with Some i => <[i := Some (k, v)]> m | None => m end;
  bm_addr k m := 2 ^ 63 + 8 * Z.of_nat (default O (slot_of k m))
|}.

(** A key is in one slot, and the slots are in the kernel's address space. *)
Definition slots_ok m : Prop :=
  Z.of_nat (length m) <= 2 ^ 59 /\
  forall i j k v w, m !! i = Some (Some (k, v)) -> m !! j = Some (Some (k, w)) -> i = j.

Lemma slot_of_Some k m i : slots_ok m -> slot_of k m = Some i <-> exists v, m !! i = Some (Some (k, v)).
Proof.
  intros [_ Hok]. unfold slot_of. split.
  - intros ([j s] & Hf & ->)%fmap_Some. apply list_find_Some in Hf as (E & Hk & _). simpl.
    unfold holds in Hk. destruct s as [[k' v]|]; [|done]. injection Hk as ->. by exists v.
  - intros [v E]. destruct (list_find (holds k) m) as [[j s]|] eqn:Hf.
    + apply list_find_Some in Hf as (Ej & Hk & _). unfold holds in Hk. destruct s as [[k' w]|]; [|done].
      injection Hk as ->. simpl. f_equal. by apply (Hok j i k w v).
    + apply list_find_None in Hf. by destruct (Forall_lookup_1 _ _ _ _ Hf E).
Qed.

Lemma slot_of_None k m : slots_ok m -> slot_of k m = None <-> forall i v, m !! i <> Some (Some (k, v)).
Proof.
  intros Hok. rewrite eq_None_not_Some. split.
  - intros Hn i v E. apply Hn. exists i. apply slot_of_Some; [done|]. by exists v.
  - intros Hn [i [v E]%slot_of_Some]; [|done]. by apply (Hn i v).
Qed.

Lemma slots_lookup k v m : slots_ok m ->
  bm_lookup k m = Some v <-> exists i, slot_of k m = Some i /\ m !! i = Some (Some (k, v)).
Proof.
  intros Hok. simpl. split.
  - intros (i & Hi & (s & Hs & E)%bind_Some)%bind_Some. exists i. split; [done|].
    apply slot_of_Some in Hi as [w Hw]; [|done]. rewrite Hs in Hw. injection Hw as ->. injection E as ->. done.
  - intros (i & -> & E). simpl. by rewrite E.
Qed.

(** A change of a slot that holds [k], or that is free and [k] is in none, is
    seen at [k] only. *)
Lemma slots_insert k m i (s : option (K * V)) : slots_ok m ->
  slot_of k m = Some i \/ (slot_of k m = None /\ m !! i = Some None) ->
  s = None \/ fst <$> s = Some k ->
  slots_ok (<[i := s]> m) /\ bm_lookup k (<[i := s]> m) = snd <$> s /\
  slot_of k (<[i := s]> m) = (if s is Some _ then Some i else None) /\
  forall k', k' <> k -> same_elem k' m (<[i := s]> m).
Proof.
  intros Hok Hi Hs.
  assert (exists s0, m !! i = Some s0 /\ (s0 = None \/ fst <$> s0 = Some k)) as (s0 & E0 & Hs0).
  { destruct Hi as [[v E]%slot_of_Some|[_ E]]; [by eexists; split; [done|right]|done|by eexists; split; [done|left]]. }
  pose proof (lookup_lt_Some _ _ _ E0) as Hlt.
  assert (forall j, j <> i -> forall w, m !! j <> Some (Some (k, w))) as Hother.
  { intros j Hj w E. destruct Hi as [[v E']%slot_of_Some|[Hn _]]; [|done|].
    - apply Hj. destruct Hok as [_ Hok]. by apply (Hok j i k w v).
    - by apply (proj1 (slot_of_None k m Hok) Hn j w). }
  assert (forall j k' v, <[i := s]> m !! j = Some (Some (k', v)) <->
            (k' = k /\ j = i /\ s = Some (k, v)) \/ (k' <> k /\ m !! j = Some (Some (k', v)))) as Hl.
  { intros j k' v. destruct (decide (j = i)) as [-> |Hj].
    - rewrite list_lookup_insert_eq by done. split.
      + intros [= ->]. destruct Hs as [|Hk]; [done|]. injection Hk as ->. by left.
      + intros [(-> & _ & ->)|[Hne E]]; [done|]. rewrite E0 in E. injection E as ->.
        destruct Hs0 as [|Hk]; [done|]. by injection Hk.
    - rewrite list_lookup_insert_ne by done. split.
      + intros E. right. split; [intros ->; by apply (Hother j Hj v)|done].
      + intros [(_ & -> & _)|[_ E]]; done. }
  assert (slots_ok (<[i := s]> m)) as Hok'.
  { destruct Hok as [Hlen Hok]. split; [by rewrite length_insert|]. intros j j' k' v w H1 H2.
    apply Hl in H1 as [(-> & -> & _)|[Hne E1]]; apply Hl in H2 as [(? & ? & _)|[? E2]]; try done.
    by apply (Hok j j' k' v w). }
  assert (forall k' j, k' <> k -> slot_of k' (<[i := s]> m) = Some j <-> slot_of k' m = Some j) as Hsl.
  { intros k' j Hne. rewrite !slot_of_Some by done. split; intros [v E]; exists v.
    - apply Hl in E as [(-> & _)|[_ E]]; done.
    - apply Hl. by right. }
  split; [done|]. assert (slot_of k (<[i := s]> m) = (if s is Some _ then Some i else None)) as Hsk.
  { destruct s as [[k1 v]|].
    - destruct Hs as [|[= ->]]; [done|]. apply slot_of_Some; [done|]. exists v. apply Hl. by left.
    - apply (proj2 (slot_of_None _ _ Hok')). intros j w E. apply Hl in E as [(_ & _ & ?)|[? _]]; done. }
  split; [|split; [done|]].
  - cbn [bm_lookup slots_map]. rewrite Hsk. destruct s as [[k1 v]|]; [|done]. simpl.
    by rewrite list_lookup_insert_eq by done.
  - intros k' Hne. assert (slot_of k' (<[i := s]> m) = slot_of k' m) as Es.
    { apply option_eq. intros j. by apply Hsl. }
    split; [|intros _; cbn [bm_addr slots_map]; by rewrite Es].
    cbn [bm_lookup slots_map]. rewrite Es. destruct (slot_of k' m) as [j|] eqn:Ej; [|done]. simpl.
    destruct (decide (j = i)) as [-> |]; [|by rewrite list_lookup_insert_ne].
    apply slot_of_Some in Ej as [v Ev]; [|done]. rewrite E0 in Ev. injection Ev as ->.
    destruct Hs0 as [|Hk]; [done|]. by injection Hk.
Qed.

Lemma free_slot_Some m i : free_slot m = Some i -> m !! i = Some None.
Proof. intros ([j s] & Hf & ->)%fmap_Some. by apply list_find_Some in Hf as (E & -> & _). Qed.

Lemma slots_same k m : same_elem k m m.
Proof. done. Qed.

Lemma slots_exist k m : slots_ok m -> is_Some (bm_lookup k m) -> exists i v, slot_of k m = Some i /\ m !! i = Some (Some (k, v)).
Proof. intros Hok [v (i & Hi & E)%slots_lookup]; [by exists i, v|done]. Qed.

#[export] Program Instance slots_laws : BpfMapLaws (list (option (K * V))) K V := {| bm_ok := slots_ok |}.
Next Obligation.
  intros k v fl m m' Hok E. cbn [bm_update slots_map] in E. destruct (slot_of k m) as [i|] eqn:Hi.
  - destruct (fl =? BPF_NOEXIST); [done|]. injection E as <-.
    destruct (slots_insert k m i (Some (k, v))) as (? & ? & _ & ?); [done|by left|by right|done].
  - apply bind_Some in E as (i & Hf%free_slot_Some & [= <-]).
    destruct (slots_insert k m i (Some (k, v))) as (? & ? & _ & ?); [done|by right|by right|done].
Qed.
Next Obligation. intros k v m Hok (i & w & Hi & _)%slots_exist; [|done]. cbn [bm_update slots_map]. by rewrite Hi. Qed.
Next Obligation.
  intros k m Hok. cbn [bm_delete slots_map]. destruct (slot_of k m) as [i|] eqn:Hi.
  - destruct (slots_insert k m i None) as (? & ? & _ & ?); [done|by left|by left|done].
  - split; [done|]. split; [|done]. cbn [bm_lookup slots_map]. by rewrite Hi.
Qed.
Next Obligation.
  intros k v m Hok (i & w & Hi & _)%slots_exist; [|done]. cbn [bm_write slots_map]. rewrite Hi.
  destruct (slots_insert k m i (Some (k, v))) as (? & ? & Hs & ?); [done|by left|by right|].
  split; [done|]. split; [done|]. split; [|done]. cbn [bm_addr slots_map]. by rewrite Hs, Hi.
Qed.
Next Obligation.
  intros k m Hok (i & w & Hi & E)%slots_exist; [|done]. cbn [bm_addr slots_map]. rewrite Hi. simpl default.
  apply lookup_lt_Some in E. destruct Hok as [Hlen _]. lia.
Qed.
Next Obligation.
  intros k k' m Hok (i & w & Hi & E)%slots_exist (j & w' & Hj & E')%slots_exist; [|done..]. cbn [bm_addr slots_map].
  rewrite Hi, Hj. simpl default. intros Ea. assert (i = j) as -> by lia. congruence.
Qed.
#[export] Instance slots_replaces : BpfMapReplaces (list (option (K * V))) K V.
Proof. intros k v m Hok (i & w & Hi & _)%slots_exist; [|done]. cbn [bm_update slots_map]. rewrite Hi. by eexists. Qed.
End Slots.
