(* ===== verification/Dvar.v ===== *)
(** * Dynamic variables (bpf/get_dvar.c)

    The BPF runtime keeps thread-local variables and associative array elements
    in one map, dvars, under 64-bit keys: a key made of the thread and the
    variable for the former, the address of the element's tuple in the map
    tuples for the latter.  The model takes the maps by their interface
    ([BpfMap]); the theorem is that the keys keep the variables apart, so the
    two maps implement a store of variables. *)

From stdpp Require Import base list numbers option.
From S2P Require Import Prelude BpfMap.

(** The element of the map state that counts dropped dynamic variables. *)
Definition DT_STATE_DYNVAR_DROPS : Z := 6.

(** *** TLS keys *)

(** [pid_tgid] and [cpu] are the results of bpf_get_current_pid_tgid and
    bpf_get_smp_processor_id; [NCPUS] is the constant the loader fills in. *)
Definition dt_tlskey (NCPUS pid_tgid cpu id : Z) : Z :=
  let key := Z.land pid_tgid 0xffffffff in
  let key := if key =? 0 then cpu else u64 (key + NCPUS) in
  let key := u64 (key + 1) in
  Z.lor (u64 (Z.shiftl (Z.land key 0x7fffffff) 32)) id.

Section Dvar.
(** The maps dvars, tuples and state.  A value of dvars is the bytes of the
    variable; a key of tuples is the variable's id and the rest of the tuple. *)
Context {D T S : Type} `{BpfMap D Z (list Z), BpfMap T (Z * list Z) Z, BpfMap S Z Z}.

Record dv := Dv { dvars : D; tuples : T; dstate : S }.

(** The functions return the address of a value of dvars, given by its key, or
    the null pointer. *)
Definition dt_no_dvar (s : dv) : option Z * dv :=
  match bm_lookup DT_STATE_DYNVAR_DROPS (dstate s) with
  | None => (None, s)
  | Some v => (None, Dv (dvars s) (tuples s) (bm_write DT_STATE_DYNVAR_DROPS (u32 (v + 1)) (dstate s)))
  end.

Definition dt_get_dvar (key store nval : Z) (dflt : list Z) (s : dv) : option Z * dv :=
  if c_true store && negb (c_true nval) then (None, Dv (bm_delete key (dvars s)) (tuples s) (dstate s))
  else
    match bm_lookup key (dvars s) with
    | Some _ => (Some key, s)
    | None =>
        if negb (c_true store) then (None, s)
        else
          match bm_update key dflt BPF_ANY (dvars s) with
          | None => dt_no_dvar s
          | Some d =>
              let s := Dv d (tuples s) (dstate s) in
              match bm_lookup key (dvars s) with
              | Some _ => (Some key, s)
              | None => dt_no_dvar s
              end
          end
    end.

Definition dt_get_tvar (NCPUS pid_tgid cpu id store nval : Z) (dflt : list Z) (s : dv) : option Z * dv :=
  dt_get_dvar (dt_tlskey NCPUS pid_tgid cpu id) store nval dflt s.

(** [tuple] is the tuple behind the word for the variable id. *)
Definition dt_get_assoc (id : Z) (tuple : list Z) (store nval : Z) (dflt : list Z) (s : dv) : option Z * dv :=
  let tuple := (id, tuple) in
  match bm_lookup tuple (tuples s) with
  | None =>
      if negb (c_true store) || negb (c_true nval) then (None, s)
      else
        match bm_update tuple 0 BPF_ANY (tuples s) with
        | None => dt_no_dvar s
        | Some t =>
            let s := Dv (dvars s) t (dstate s) in
            match bm_lookup tuple (tuples s) with
            | None => dt_no_dvar s
            | Some _ =>
                let s := Dv (dvars s) (bm_write tuple (bm_addr tuple (tuples s)) (tuples s)) (dstate s) in
                let val := default 0 (bm_lookup tuple (tuples s)) in
                dt_get_dvar val store nval dflt s
            end
        end
  | Some val =>
      let s := if c_true store && negb (c_true nval)
               then Dv (dvars s) (bm_delete tuple (tuples s)) (dstate s) else s in
      dt_get_dvar val store nval dflt s
  end.
End Dvar.
Arguments dv : clear implicits.

(** A thread: the idle task of a CPU, or a task with an id. *)
Inductive thread := Idle (cpu : Z) | Task (tid : Z).
(** A variable: thread-local, or an element of an associative array. *)
Inductive var := Tls (th : thread) (id : Z) | Elem (id : Z) (tuple : list Z).

(** ** TLS keys *)

Definition current_thread (pid_tgid cpu : Z) : thread :=
  let tid := pid_tgid `mod` 2 ^ 32 in if tid =? 0 then Idle cpu else Task tid.

Section Keys.
Context (NCPUS : Z).

(** Task ids are limited to 22 bits by the kernel, far below what is needed. *)
Definition valid_thread (th : thread) : Prop :=
  match th with
  | Idle cpu => 0 <= cpu < NCPUS /\ NCPUS < 2 ^ 31
  | Task tid => 0 < tid /\ 0 <= NCPUS /\ tid + NCPUS + 1 < 2 ^ 31
  end.

Definition thread_no (th : thread) : Z := match th with Idle cpu => cpu + 1 | Task tid => tid + NCPUS + 1 end.

Definition tls_key (th : thread) (id : Z) : Z := thread_no th * 2 ^ 32 + id.

Lemma thread_no_inj th th' : valid_thread th -> valid_thread th' -> thread_no th = thread_no th' -> th = th'.
Proof. destruct th, th'; simpl; intros; f_equal; lia. Qed.

Lemma thread_no_range th : valid_thread th -> 0 < thread_no th < 2 ^ 31.
Proof. destruct th; simpl; lia. Qed.

Lemma tls_key_eq pid_tgid cpu id : 0 <= id < 2 ^ 32 -> valid_thread (current_thread pid_tgid cpu) ->
  dt_tlskey NCPUS pid_tgid cpu id = tls_key (current_thread pid_tgid cpu) id.
Proof.
  intros Hid Hv. unfold dt_tlskey. change 0xffffffff with (Z.ones 32). change 0x7fffffff with (Z.ones 31).
  rewrite !Z.land_ones by lia. pose proof (thread_no_range _ Hv) as Hr. unfold tls_key, current_thread in *.
  set (tid := pid_tgid `mod` 2 ^ 32) in *.
  assert (u64 ((if tid =? 0 then cpu else u64 (tid + NCPUS)) + 1) = thread_no (if tid =? 0 then Idle cpu else Task tid)) as ->.
  { destruct (tid =? 0); simpl in *; rewrite !wrapu_small by (rewrite ?wrapu_small by lia; lia); done. }
  set (n := thread_no _) in *. rewrite (Z.mod_small n), Z.shiftl_mul_pow2, wrapu_small by lia.
  rewrite Z.lor_comm. rewrite <- Z.add_nocarry_lor; [lia|].
  rewrite <- Z.shiftl_mul_pow2 by lia. apply Z.bits_inj'. intros i Hi. rewrite Z.land_spec, Z.bits_0.
  destruct (Z.lt_ge_cases i 32); [rewrite Z.shiftl_spec_low by lia; apply andb_false_r|].
  by rewrite (testbit_high 32 id) by lia.
Qed.

Lemma tls_key_range th id : valid_thread th -> 0 <= id < 2 ^ 32 -> 0 < tls_key th id < 2 ^ 63.
Proof. intros Hv Hid. pose proof (thread_no_range _ Hv). unfold tls_key. lia. Qed.

Lemma tls_key_inj th th' id id' : valid_thread th -> valid_thread th' -> 0 <= id < 2 ^ 32 -> 0 <= id' < 2 ^ 32 ->
  tls_key th id = tls_key th' id' -> th = th' /\ id = id'.
Proof.
  intros Hv Hv' Hid Hid'. unfold tls_key. intros E. assert (thread_no th = thread_no th' /\ id = id') as [Et ->] by lia.
  split; [by apply thread_no_inj|done].
Qed.
End Keys.

(** ** The store of variables *)

Section Store.
Context {D T S : Type} `{BpfMapLaws D Z (list Z), BpfMapLaws T (Z * list Z) Z, BpfMapLaws S Z Z}.
Context (NCPUS : Z).
Implicit Types s : dv D T S.

Definition valid_var (v : var) : Prop :=
  match v with Tls th id => valid_thread NCPUS th /\ 0 <= id < 2 ^ 32 | Elem _ _ => True end.

(** The key of a variable in dvars, if it can have one, and its value. *)
Definition var_key s (v : var) : option Z :=
  match v with Tls th id => Some (tls_key NCPUS th id) | Elem id tuple => bm_lookup (id, tuple) (tuples s) end.
Definition value s (v : var) : option (list Z) := k ← var_key s v; bm_lookup k (dvars s).

(** A tuple's value is its address, and every key of dvars that is an address
    is that of a tuple. *)
Record inv s : Prop := {
  inv_dvars : bm_ok (dvars s);
  inv_tuples : bm_ok (tuples s);
  inv_state : bm_ok (dstate s);
  inv_addr t k : bm_lookup t (tuples s) = Some k -> k = bm_addr t (tuples s);
  inv_used k : is_Some (bm_lookup k (dvars s)) -> 2 ^ 63 <= k -> exists t, bm_lookup t (tuples s) = Some k
}.

(** Different variables have different keys. *)
Lemma var_key_inj s v v' k : inv s -> valid_var v -> valid_var v' ->
  var_key s v = Some k -> var_key s v' = Some k -> v = v'.
Proof.
  intros Hi Hv Hv'. destruct v as [th id|id tup], v' as [th' id'|id' tup']; simpl in *.
  - intros [= <-] [= E]. destruct Hv, Hv'. by destruct (tls_key_inj NCPUS th th' id id') as [-> ->].
  - intros [= <-] E. destruct Hv as [Hv Hid]. pose proof (tls_key_range NCPUS th id Hv Hid).
    pose proof (inv_addr s Hi _ _ E). pose proof (bm_addr_kernel (id', tup') (tuples s) (inv_tuples s Hi) ltac:(by eexists)). lia.
  - intros E [= <-]. destruct Hv' as [Hv' Hid]. pose proof (tls_key_range NCPUS th' id' Hv' Hid).
    pose proof (inv_addr s Hi _ _ E). pose proof (bm_addr_kernel (id, tup) (tuples s) (inv_tuples s Hi) ltac:(by eexists)). lia.
  - intros E E'. pose proof (inv_addr s Hi _ _ E) as Ek. pose proof (inv_addr s Hi _ _ E') as Ek'.
    assert ((id, tup) = (id', tup')) as [= -> ->]; [|done].
    apply (bm_addr_inj _ _ (tuples s)); [apply Hi|by eexists|by eexists|congruence].
Qed.

(** What a lookup may do to the drop counter. *)
Definition dropped s s' : Prop :=
  dvars s' = dvars s /\ tuples s' = tuples s /\ bm_ok (dstate s') /\
  bm_lookup DT_STATE_DYNVAR_DROPS (dstate s') = (λ n, u32 (n + 1)) <$> bm_lookup DT_STATE_DYNVAR_DROPS (dstate s).

Lemma no_dvar_spec s : bm_ok (dstate s) -> exists s', dt_no_dvar s = (None, s') /\ dropped s s'.
Proof.
  intros Hok. unfold dt_no_dvar, dropped. destruct (bm_lookup DT_STATE_DYNVAR_DROPS (dstate s)) as [n|] eqn:E.
  - eexists. split; [done|]. cbn [dvars tuples dstate]. destruct (bm_write_ok DT_STATE_DYNVAR_DROPS (u32 (n + 1)) (dstate s))
      as (? & El & _); [done|by eexists|]. by rewrite El.
  - by exists s.
Qed.

(** The three uses of a key: to load, to remove and to store. *)
Definition load_key (r : option Z) (key : Z) s s' : Prop :=
  s' = s /\ r = (if bm_lookup key (dvars s) is Some _ then Some key else None).
Definition remove_key (r : option Z) (key : Z) s s' : Prop :=
  r = None /\ bm_lookup key (dvars s') = None /\ tuples s' = tuples s /\ dstate s' = dstate s.
Definition store_key (r : option Z) (key : Z) (dflt : list Z) s s' : Prop :=
  (r = Some key /\ bm_lookup key (dvars s') = Some (default dflt (bm_lookup key (dvars s))) /\
   tuples s' = tuples s /\ dstate s' = dstate s) \/
  (r = None /\ bm_lookup key (dvars s) = None /\ dropped s s').

Lemma get_dvar_spec key store nval dflt s : bm_ok (dvars s) -> bm_ok (dstate s) ->
  exists r s', dt_get_dvar key store nval dflt s = (r, s') /\ bm_ok (dvars s') /\ bm_ok (dstate s') /\
    (forall k, k <> key -> bm_lookup k (dvars s') = bm_lookup k (dvars s)) /\
    (if negb (c_true store) then load_key r key s s'
     else if negb (c_true nval) then remove_key r key s s' else store_key r key dflt s s').
Proof.
  intros Hd Hs. unfold dt_get_dvar. destruct (c_true store), (c_true nval); cbn [negb andb].
  2: { destruct (bm_delete_ok key (dvars s) Hd) as (? & ? & Ho). do 2 eexists. split; [done|]. split; [done|].
       split; [done|]. split; [intros k Hk; apply Ho, Hk|done]. }
  2,3: exists (if bm_lookup key (dvars s) is Some _ then Some key else None), s; unfold load_key;
       by destruct (bm_lookup key (dvars s)).
  unfold store_key. destruct (bm_lookup key (dvars s)) as [v|] eqn:El.
  { exists (Some key), s. repeat split; try done. left. done. }
  destruct (bm_update key dflt BPF_ANY (dvars s)) as [d|] eqn:Eu.
  - destruct (bm_update_ok _ _ _ _ _ Hd Eu) as (Hok & Hl & Ho). cbn [dvars]. rewrite Hl.
    do 2 eexists. split; [done|]. split; [done|]. split; [done|]. split; [intros k Hk; by apply Ho|]. by left.
  - destruct (no_dvar_spec s Hs) as (s' & -> & Hdr). exists None, s'. pose proof Hdr as (-> & _ & ? & _).
    repeat split; try done. by right.
Qed.

(** A change of dvars at the key of [v] is a change of [v] alone. *)
Lemma var_frame s s' v k : inv s -> valid_var v -> var_key s v = Some k ->
  tuples s' = tuples s -> (forall k', k' <> k -> bm_lookup k' (dvars s') = bm_lookup k' (dvars s)) ->
  forall v', valid_var v' -> v' <> v -> value s' v' = value s v'.
Proof.
  intros Hi Hv Hk Ht Ho v' Hv' Hne. unfold value.
  assert (var_key s' v' = var_key s v') as -> by (destruct v'; simpl; by rewrite ?Ht).
  destruct (var_key s v') as [k'|] eqn:Hk'; [|done]. simpl. apply Ho. intros ->.
  by apply Hne, (var_key_inj s v' v k).
Qed.

Lemma inv_key s s' v k : inv s -> valid_var v -> var_key s v = Some k ->
  tuples s' = tuples s -> bm_ok (dvars s') -> bm_ok (dstate s') ->
  (forall k', k' <> k -> bm_lookup k' (dvars s') = bm_lookup k' (dvars s)) -> inv s'.
Proof.
  intros Hi Hv Hk Ht Hd Hs Ho. split; [done|rewrite Ht; apply Hi|done|rewrite Ht; apply Hi|].
  intros k' Hk' Hhi. rewrite Ht. destruct (decide (k' = k)) as [-> |Hne].
  - destruct v as [th id|id tup]; simpl in *; [|by exists (id, tup)].
    injection Hk as <-. pose proof (tls_key_range NCPUS th id ltac:(apply Hv) ltac:(apply Hv)). lia.
  - rewrite Ho in Hk' by done. by apply (inv_used s Hi).
Qed.

(** The value behind the pointer that was returned, and a store through it. *)
Definition pointee (r : option Z) s : option (list Z) := k ← r; bm_lookup k (dvars s).
Definition poke (r : option Z) (x : list Z) s : dv D T S :=
  match r with None => s | Some k => Dv (bm_write k x (dvars s)) (tuples s) (dstate s) end.

(** *** What an access does *)

Definition others_kept (v : var) s s' : Prop := forall v', valid_var v' -> v' <> v -> value s' v' = value s v'.

Definition stored (v : var) (r : option Z) (dflt : list Z) s s' : Prop :=
  pointee r s' = Some (default dflt (value s v)) /\
  forall x, inv (poke r x s') /\ value (poke r x s') v = Some x /\ others_kept v s (poke r x s').

Definition drops s : option Z := bm_lookup DT_STATE_DYNVAR_DROPS (dstate s).

Definition accessed (v : var) (store nval : Z) (dflt : list Z) s (r : option Z) s' : Prop :=
  inv s' /\ others_kept v s s' /\
  if negb (c_true store) then s' = s /\ pointee r s' = value s v
  else if negb (c_true nval) then r = None /\ value s' v = None
  else stored v r dflt s s' \/
       (r = None /\ value s v = None /\ value s' v = None /\ drops s' = (λ n, u32 (n + 1)) <$> drops s).

(** An access to a variable that has a key. *)
Lemma get_dvar_var s v k store nval dflt : inv s -> valid_var v -> var_key s v = Some k ->
  exists r s', dt_get_dvar k store nval dflt s = (r, s') /\ accessed v store nval dflt s r s'.
Proof.
  intros Hi Hv Hk. destruct (get_dvar_spec k store nval dflt s (inv_dvars s Hi) (inv_state s Hi))
    as (r & s' & E & Hd & Hs & Ho & Hc).
  exists r, s'. split; [done|].
  assert (value s v = bm_lookup k (dvars s)) as Ev by (unfold value; by rewrite Hk).
  assert (tuples s' = tuples s) as Ht.
  { destruct (c_true store), (c_true nval); simpl in Hc; try (by destruct Hc as [-> _]); try (by destruct Hc as (_ & _ & ? & _)).
    by destruct Hc as [(_ & _ & ? & _)|(_ & _ & _ & ? & _)]. }
  assert (var_key s' v = Some k) as Hk' by (destruct v; simpl in *; by rewrite ?Ht).
  assert (inv s') as Hi' by (by apply (inv_key s s' v k)).
  assert (others_kept v s s') as Hoth by (intros v'; by apply (var_frame s s' v k)).
  split; [done|]. split; [done|]. destruct (c_true store), (c_true nval); simpl in *.
  - destruct Hc as [(-> & El & _ & _)|(-> & El & Edr)].
    + left. unfold stored. rewrite Ev. split; [exact El|]. intros x.
      destruct (bm_write_ok k x (dvars s') Hd) as (Hwok & Hwl & _ & Hwo); [by eexists|].
      assert (forall k', k' <> k -> bm_lookup k' (dvars (poke (Some k) x s')) = bm_lookup k' (dvars s')) as Hpo
        by (intros k' Hne; by apply Hwo).
      split; [by apply (inv_key s' _ v k)|]. split.
      * unfold value. replace (var_key (poke (Some k) x s') v) with (var_key s' v) by (by destruct v).
        rewrite Hk'. exact Hwl.
      * intros v' Hv' Hne. rewrite <- (Hoth v' Hv' Hne). by apply (var_frame s' _ v k).
    + right. split; [done|]. rewrite Ev. split; [done|]. destruct Edr as (Edv & _ & _ & Edr).
      split; [|exact Edr]. unfold value. rewrite Hk'. simpl. by rewrite Edv.
  - destruct Hc as (-> & El & _). split; [done|]. unfold value. by rewrite Hk'.
  - destruct Hc as [-> ->]. split; [done|]. rewrite Ev. unfold pointee. by destruct (bm_lookup k (dvars s)) eqn:E'.
  - destruct Hc as [-> ->]. split; [done|]. rewrite Ev. unfold pointee. by destruct (bm_lookup k (dvars s)) eqn:E'.
Qed.

(** *** Elements of associative arrays *)

(** Adding a tuple, with its address as its value, adds no variable. *)
Lemma new_tuple_ok s t t1 : inv s -> bm_lookup t (tuples s) = None -> bm_update t 0 BPF_ANY (tuples s) = Some t1 ->
  let a := bm_addr t t1 in
  let s' := Dv (dvars s) (bm_write t a t1) (dstate s) in
  inv s' /\ bm_lookup t (tuples s') = Some a /\ bm_lookup a (dvars s) = None /\
  (forall v, value s' v = value s v).
Proof.
  intros Hi Hn Hu a s'. destruct (bm_update_ok _ _ _ _ _ (inv_tuples s Hi) Hu) as (Hok1 & Hl1 & Ho1).
  destruct (bm_write_ok t a t1 Hok1 ltac:(by eexists)) as (Hok2 & Hl2 & Ha2 & Ho2).
  assert (forall t', t' <> t -> same_elem t' (tuples s) (tuples s')) as Ho.
  { intros t' Hne. transitivity t1; [by apply Ho1|by apply Ho2]. }
  assert (forall t' k, bm_lookup t' (tuples s') = Some k -> k = bm_addr t' (tuples s')) as Haddr.
  { intros t' k E. destruct (decide (t' = t)) as [-> |Hne].
    - simpl in *. rewrite Hl2 in E. injection E as <-. by rewrite Ha2.
    - destruct (Ho t' Hne) as [El Ea]. rewrite El in E. rewrite Ea by (by eexists). by apply Hi. }
  assert (bm_lookup a (dvars s) = None) as Hna.
  { destruct (bm_lookup a (dvars s)) as [x|] eqn:E; [exfalso|done].
    pose proof (bm_addr_kernel t t1 Hok1 ltac:(by eexists)) as Hk.
    destruct (inv_used s Hi a) as [t' Et]; [by eexists|fold a in Hk; lia|].
    assert (t' <> t) as Hne by (intros ->; congruence).
    destruct (Ho t' Hne) as [El Ea]. rewrite Et in El. apply Haddr in El as Ea'.
    apply Hne, (bm_addr_inj t' t (tuples s')); [done|by eexists|by eexists|]. rewrite <- Ea'. simpl. by rewrite Ha2. }
  split; [|split; [done|split; [done|]]].
  - split; [apply Hi|done|apply Hi|done|]. intros k Hk Hhi. destruct (inv_used s Hi k Hk Hhi) as [t' Et].
    exists t'. assert (t' <> t) as Hne by (intros ->; congruence). by rewrite (proj1 (Ho t' Hne)).
  - intros v. unfold value. destruct v as [th id|id tup]; [done|]. simpl var_key.
    destruct (decide ((id, tup) = t)) as [-> |Hne].
    + simpl. rewrite Hl2, Hn. exact Hna.
    + pose proof (proj1 (Ho _ Hne)) as E. simpl in E |- *. by rewrite E.
Qed.

Lemma accessed_proper v store nval dflt s s1 r s' : (forall v, value s1 v = value s v) -> drops s1 = drops s ->
  c_true store = true -> accessed v store nval dflt s1 r s' -> accessed v store nval dflt s r s'.
Proof.
  intros Hval Hdr Hst (Hi & Ho & Hc). split; [done|]. split; [intros v' ??; rewrite Ho by done; apply Hval|].
  rewrite Hst in *. simpl in *. destruct (c_true nval); [|done]. destruct Hc as [[Hp Hw]|Hc].
  - left. split; [by rewrite <- Hval|]. intros x. destruct (Hw x) as (? & ? & Hwo). split; [done|]. split; [done|].
    intros v' ??. rewrite Hwo by done. apply Hval.
  - right. by rewrite <- Hval, <- Hdr.
Qed.

Lemma get_assoc_var s id tup store nval dflt : inv s ->
  exists r s', dt_get_assoc id tup store nval dflt s = (r, s') /\ accessed (Elem id tup) store nval dflt s r s'.
Proof.
  intros Hi. unfold dt_get_assoc. cbv zeta.
  assert (others_kept (Elem id tup) s s) as Hrefl by done.
  destruct (bm_lookup (id, tup) (tuples s)) as [k|] eqn:El.
  - destruct (c_true store && negb (c_true nval)) eqn:Hdel.
    + apply andb_prop in Hdel as [Hst Hnv]. apply negb_true_iff in Hnv.
      set (s1 := Dv (dvars s) (bm_delete (id, tup) (tuples s)) (dstate s)).
      destruct (bm_delete_ok (id, tup) (tuples s) (inv_tuples s Hi)) as (Hok1 & Hl1 & Ho1).
      destruct (get_dvar_spec k store nval dflt s1 (inv_dvars s Hi) (inv_state s Hi)) as (r & s' & E & Hd & Hs & Ho & Hc).
      exists r, s'. split; [done|]. rewrite Hst, Hnv in Hc. destruct Hc as (-> & Elk & Ht & Hst').
      unfold accessed. rewrite Hst, Hnv. cbn [negb].
      assert (value s' (Elem id tup) = None) as Hvn by (unfold value; simpl; rewrite Ht; simpl; by rewrite Hl1).
      assert (inv s') as Hi'.
      { split; [done|by rewrite Ht|done| |].
        - intros t k' Et. rewrite Ht in *. destruct (decide (t = (id, tup))) as [-> |Hne]; [simpl in *; congruence|].
          destruct (Ho1 t Hne) as [E1 A1]. simpl in *. rewrite E1 in Et. rewrite A1 by (by eexists). by apply Hi.
        - intros k' Hk' Hhi. destruct (decide (k' = k)) as [-> |Hne]; [rewrite Elk in Hk'; by destruct Hk'|].
          rewrite Ho in Hk' by done. destruct (inv_used s Hi k' Hk' Hhi) as [t Et]. exists t. rewrite Ht. simpl.
          rewrite (proj1 (Ho1 t ltac:(intros ->; congruence))). done. }
      split; [done|]. split; [|done]. intros v' Hv' Hne. unfold value.
      assert (var_key s' v' = var_key s v') as ->.
      { destruct v' as [|id' tup']; [done|]. simpl. rewrite Ht. simpl. apply Ho1. intros [= -> ->]. done. }
      destruct (var_key s v') as [k'|] eqn:Hk'; [|done]. simpl. rewrite Ho; [done|]. intros ->.
      by apply Hne, (var_key_inj s v' (Elem id tup) k).
    + by apply get_dvar_var.
  - destruct (negb (c_true store) || negb (c_true nval)) eqn:Hnone.
    { exists None, s. split; [done|]. split; [done|]. split; [done|].
      assert (value s (Elem id tup) = None) as Hv by (unfold value; simpl; by rewrite El).
      destruct (c_true store), (c_true nval); simpl in *; done. }
    apply orb_false_elim in Hnone as [Hst Hnv]. apply negb_false_iff in Hst, Hnv.
    assert (value s (Elem id tup) = None) as Hv by (unfold value; simpl; by rewrite El).
    destruct (bm_update (id, tup) 0 BPF_ANY (tuples s)) as [t1|] eqn:Eu.
    + destruct (new_tuple_ok s (id, tup) t1 Hi El Eu) as (Hi1 & Hl1 & Hna & Hval). cbn [tuples dvars dstate].
      destruct (bm_update_ok _ _ _ _ _ (inv_tuples s Hi) Eu) as (_ & -> & _). cbn [tuples] in Hl1. rewrite Hl1. cbn [default].
      destruct (get_dvar_var _ (Elem id tup) (bm_addr (id, tup) t1) store nval dflt Hi1 I Hl1) as (r & s' & E & Ha).
      exists r, s'. split; [exact E|]. by apply (accessed_proper _ _ _ _ s _ r s' Hval eq_refl Hst).
    + destruct (no_dvar_spec s (inv_state s Hi)) as (s' & E & (Ed & Et & Hso & Hdr)).
      exists None, s'. split; [done|]. unfold accessed. rewrite Hst, Hnv. cbn [negb].
      assert (forall v, value s' v = value s v) as Hval by (intros v; unfold value; destruct v; simpl; by rewrite ?Et, ?Ed).
      split; [|split; [by intros v' _ _|right; by rewrite Hval]].
      split; [rewrite Ed; apply Hi|rewrite Et; apply Hi|done|rewrite Et; apply Hi|rewrite Ed, Et; apply Hi].
Qed.
End Store.

(** ** The theorems *)

(** C24: The maps implement a store of variables.  An access to a thread-local
    variable of the current thread, or to an element of an associative array,
    keeps the invariant and the value of every other variable, of any thread
    and any array.  A load changes nothing and points to the variable's value,
    if it has one.  A store of zero removes the variable.  Any other store
    points to the variable's value, created from the default if there was none,
    where a write through the pointer changes that variable alone; or it fails
    for want of space, which the drop counter records, and the variable still
    has no value. *)
Theorem dt_get_var_correct {D T S} `{BpfMapLaws D Z (list Z), BpfMapLaws T (Z * list Z) Z, BpfMapLaws S Z Z}
    (NCPUS store nval : Z) (dflt : list Z) (s : dv D T S) (Hi : inv s) :
  (forall pid_tgid cpu id, 0 <= id < 2 ^ 32 -> valid_thread NCPUS (current_thread pid_tgid cpu) ->
     exists r s', dt_get_tvar NCPUS pid_tgid cpu id store nval dflt s = (r, s') /\
       accessed NCPUS (Tls (current_thread pid_tgid cpu) id) store nval dflt s r s') /\
  (forall id tuple, exists r s', dt_get_assoc id tuple store nval dflt s = (r, s') /\
     accessed NCPUS (Elem id tuple) store nval dflt s r s').
Proof.
  split; [|intros id tuple; by apply get_assoc_var].
  intros pid_tgid cpu id Hid Hth. unfold dt_get_tvar. rewrite tls_key_eq by done. by apply get_dvar_var.
Qed.

(** Empty maps with four slots, and a drop counter. *)
Definition dv_empty : dv (list (option (Z * list Z))) (list (option (Z * list Z * Z))) (list (option (Z * Z))) :=
  Dv (replicate 4 None) (replicate 4 None) [Some (DT_STATE_DYNVAR_DROPS, 0)].

Lemma dv_empty_inv : inv dv_empty.
Proof.
  assert (forall K V n, Z.of_nat n <= 2 ^ 59 -> slots_ok (replicate n (None : option (K * V)))) as Hr.
  { intros K V n Hn. split; [by rewrite length_replicate|].
    intros i j k v w E. by apply lookup_replicate in E as [E _]. }
  split; [by apply Hr|by apply Hr| | |].
  - split; [done|]. intros i j k v w E E'. destruct i, j; simpl in *; done.
  - intros t k E. vm_compute in E. done.
  - intros k Hk. vm_compute in Hk. by destruct Hk.
Qed.

Lemma dt_get_var_correct_witness :
  exists r s', dt_get_assoc 7 [1; 2] 1 1 [0] dv_empty = (r, s') /\ r = Some (2 ^ 63) /\
    accessed 4 (Elem 7 [1; 2]) 1 1 [0] dv_empty r s'.
Proof.
  destruct (dt_get_var_correct 4 1 1 [0] dv_empty dv_empty_inv) as [_ H].
  destruct (H 7 [1; 2]) as (r & s' & E & Ha). exists r, s'. split; [exact E|]. split; [|exact Ha].
  vm_compute in E. by injection E as <- _.
Defined.

(** The value of a tuple is 0 between its creation and the store of its
    address: accesses on other CPUs to two such tuples use the same variable. *)
Lemma new_tuples_alias :
  let s : dv (list (option (Z * list Z))) (list (option (Z * list Z * Z))) (list (option (Z * Z))) :=
    Dv (replicate 4 None) [Some ((1, [5]), 0); Some ((1, [6]), 0)] [] in
  fst (dt_get_assoc 1 [5] 1 1 [0] s) = Some 0 /\ fst (dt_get_assoc 1 [6] 1 1 [0] s) = Some 0.
Proof. split; vm_compute; reflexivity. Qed.
