(* ===== verification/AggBin.v ===== *)
(** * Bins of quantize() and lquantize() (bpf/agg_qbin.c, bpf/agg_lqbin.c)

    The runtime functions that choose the bin of a value, against the macros of
    actions_defines.h with which the consumer reads the bins back, and
    dt_get_agg, which finds the data of an aggregation and starts it afresh
    after a clear(). *)

From stdpp Require Import base list numbers option.
From S2P Require Import Prelude BpfMap.

(** ** quantize() *)

(** [if (tmp & mask) { off += n; tmp >>= n; }] *)
Definition qstep (mask n : Z) (s : Z * Z) : Z * Z :=
  let '(off, tmp) := s in
  if c_true (Z.land tmp mask) then (s16 (off + n), Z.shiftr tmp n) else (off, tmp).

(** The value is an [int64_t]. *)
Definition dt_agg_qbin (v : Z) : Z :=
  if v =? 0 then 63
  else if u64 v =? 0x8000000000000000 then 0
  else
    let tmp := u64 v in
    let tmp := if v <? 0 then u64 (tmp * u64 (-1)) else tmp in
    let s := qstep 0x7fffffff00000000 32 (1, tmp) in
    let s := qstep 0xffff0000 16 s in
    let s := qstep 0xff00 8 s in
    let s := qstep 0xf0 4 s in
    let s := qstep 0xc 2 s in
    let '(off, tmp) := s in
    let off := if c_true (Z.land tmp 2) then s16 (off + 1) else off in
    let off := if v <? 0 then s16 (off * -1) else off in
    s16 (off + 63).

Definition DTRACE_QUANTIZE_NBUCKETS : Z := (8 * 8 - 1) * 2 + 1.
Definition DTRACE_QUANTIZE_ZEROBUCKET : Z := 8 * 8 - 1.
Definition DTRACE_QUANTIZE_BUCKETVAL (buck : Z) : Z :=
  s64 (if buck <? DTRACE_QUANTIZE_ZEROBUCKET then - (Z.shiftl 1 (DTRACE_QUANTIZE_ZEROBUCKET - 1 - buck))
       else if buck =? DTRACE_QUANTIZE_ZEROBUCKET then 0
       else Z.shiftl 1 (buck - DTRACE_QUANTIZE_ZEROBUCKET - 1)).

(** ** lquantize() *)

(** [val] is an [int64_t], [base] an [int32_t], [levels] and [step] are
    [uint64_t]; the difference is converted to unsigned for the division. *)
Definition dt_agg_lqbin (v base levels step : Z) : Z :=
  if (step =? 0) || (v <? base) then 0
  else
    let level := u64 (s64 (v - base)) `div` step in
    let level := if levels <? level then levels else level in
    u64 (level + 1).

(** ** dt_get_agg *)

Section GetAgg.
(** The maps agggen (generations by aggregation id), aggs (the data of this CPU
    by key: the id and the rest of the tuple) and cpuinfo (the drop counters by
    CPU).  The data is a generation followed by the words of the aggregation. *)
Context {G A C : Type} `{BpfMap G Z Z, BpfMap A (Z * list Z) (list Z), BpfMap C Z Z}.

Record ag := Ag { agggen : G; aggs : A; agg_drops : C }.

Definition dt_no_agg (cpu : Z) (s : ag) : option (Z * list Z) * ag :=
  match bm_lookup cpu (agg_drops s) with
  | None => (None, s)
  | Some n => (None, Ag (agggen s) (aggs s) (bm_write cpu (u64 (n + 1)) (agg_drops s)))
  end.

(** The result is the key of the element whose words behind the generation the
    returned pointer addresses. *)
Definition dt_get_agg (cpu id : Z) (tuple : list Z) (ival : Z) (dflt : list Z) (s : ag)
    : option (Z * list Z) * ag :=
  match bm_lookup id (agggen s) with
  | None => dt_no_agg cpu s
  | Some gen =>
      let key := (id, tuple) in
      let fresh :=
        match bm_lookup key (aggs s) with
        | None => true
        | Some v => default 0 (v !! O) <? gen
        end in
      if fresh then
        match bm_update key dflt BPF_ANY (aggs s) with
        | None => dt_no_agg cpu s
        | Some a =>
            match bm_lookup key a with
            | None => dt_no_agg cpu (Ag (agggen s) a (agg_drops s))
            | Some v =>
                let v := if c_true ival then <[1%nat := ival]> v else v in
                let v := <[O := gen]> v in
                (Some key, Ag (agggen s) (bm_write key v a) (agg_drops s))
            end
        end
      else (Some key, s)
  end.
End GetAgg.
Arguments ag : clear implicits.

(** ** Proofs *)

(** One step of the binary search: with [tmp] below [2 ^ (2 * n)], the mask
    picks the bits from [n] on, and the step moves them down. *)
Lemma qstep_spec off tmp n mask : 0 < tmp < 2 ^ (2 * n) -> 0 < n <= 32 -> 0 <= off <= 64 ->
  (forall i, 0 <= i < 2 * n -> Z.testbit tmp i && Z.testbit mask i = Z.testbit tmp i && (n <=? i)) ->
  exists off' tmp', qstep mask n (off, tmp) = (off', tmp') /\ 0 < tmp' < 2 ^ n /\
    off' + Z.log2 tmp' = off + Z.log2 tmp /\ 0 <= off' <= off + n.
Proof.
  intros Ht Hn Hoff Hm. unfold qstep, c_true. pose proof (pow2_pos n ltac:(lia)).
  assert (2 ^ (2 * n) = 2 ^ n * 2 ^ n) as E2 by (rewrite <- Z.pow_add_r by lia; f_equal; lia).
  assert (Z.land tmp mask = Z.shiftl (Z.shiftr tmp n) n) as ->.
  { apply Z.bits_inj'. intros i Hi. rewrite Z.land_spec. destruct (Z.lt_ge_cases i (2 * n)).
    - rewrite Hm by lia. destruct (Z.leb_spec n i).
      + rewrite andb_true_r, Z.shiftl_spec, Z.shiftr_spec by lia. f_equal. lia.
      + by rewrite andb_false_r, Z.shiftl_spec_low.
    - rewrite (testbit_high (2 * n) tmp) by lia. rewrite Z.shiftl_spec, Z.shiftr_spec, Z.sub_add by lia.
      symmetry. apply (testbit_high (2 * n)); lia. }
  rewrite Z.shiftl_mul_pow2, Z.shiftr_div_pow2 by lia.
  destruct (Z.eqb_spec (tmp `div` 2 ^ n * 2 ^ n) 0) as [E0|E0]; cbn [negb].
  - assert (tmp `div` 2 ^ n = 0) as E by nia. apply Z.div_small_iff in E; [|lia].
    exists off, tmp. repeat split; lia.
  - pose proof (Z.div_pos tmp (2 ^ n) ltac:(lia) ltac:(lia)).
    assert (0 < tmp `div` 2 ^ n < 2 ^ n) by (split; [nia|apply Z.div_lt_upper_bound; lia]).
    assert (2 ^ n <= tmp).
    { destruct (Z.le_gt_cases (2 ^ n) tmp); [done|]. rewrite Z.div_small in E0 by lia. lia. }
    exists (off + n), (tmp `div` 2 ^ n). rewrite wraps_small by lia. split; [done|]. split; [done|].
    assert (n <= Z.log2 tmp) by (apply Z.log2_le_pow2; lia).
    rewrite <- Z.shiftr_div_pow2, Z.log2_shiftr by lia. lia.
Qed.

(** A mask of the [w] bits from [n] on. *)
Lemma mask_testbit n w i : 0 <= n <= i -> 0 <= w -> Z.testbit (Z.shiftl (Z.ones w) n) i = (i <? n + w).
Proof.
  intros Hn Hw. rewrite Z.shiftl_spec by lia. destruct (Z.ltb_spec i (n + w)).
  - apply Z.ones_spec_low. lia.
  - apply Z.ones_spec_high. lia.
Qed.

Lemma qstep_mask off tmp n : 0 < tmp < 2 ^ (2 * n) -> 0 < n <= 32 -> 0 <= off <= 64 ->
  exists off' tmp', qstep (Z.shiftl (Z.ones n) n) n (off, tmp) = (off', tmp') /\ 0 < tmp' < 2 ^ n /\
    off' + Z.log2 tmp' = off + Z.log2 tmp /\ 0 <= off' <= off + n.
Proof.
  intros Ht Hn Hoff. apply qstep_spec; [done..|]. intros i Hi. f_equal. destruct (Z.leb_spec n i).
  - rewrite mask_testbit by lia. apply Z.ltb_lt. lia.
  - apply Z.shiftl_spec_low. lia.
Qed.

(** The first mask leaves out the sign bit, which is not set. *)
Lemma qstep_first off tmp : 0 < tmp < 2 ^ 63 -> 0 <= off <= 64 ->
  exists off' tmp', qstep 0x7fffffff00000000 32 (off, tmp) = (off', tmp') /\ 0 < tmp' < 2 ^ 32 /\
    off' + Z.log2 tmp' = off + Z.log2 tmp /\ 0 <= off' <= off + 32.
Proof.
  intros Ht Hoff. apply qstep_spec; [lia..|]. intros i Hi.
  change 0x7fffffff00000000 with (Z.shiftl (Z.ones 31) 32). destruct (Z.eq_dec i 63) as [-> |].
  - by rewrite (testbit_high 63 tmp) by lia.
  - f_equal. destruct (Z.leb_spec 32 i); [rewrite mask_testbit by lia; apply Z.ltb_lt; lia|apply Z.shiftl_spec_low; lia].
Qed.

Lemma qbin_log v : - 2 ^ 63 < v < 2 ^ 63 -> v <> 0 ->
  dt_agg_qbin v = 63 + Z.sgn v * (Z.log2 (Z.abs v) + 1).
Proof.
  intros Hv Hne. unfold dt_agg_qbin. rewrite (proj2 (Z.eqb_neq v 0)) by done.
  assert (u64 v <> 0x8000000000000000) as Hmin.
  { unfold wrapu. intros E. destruct (Z.le_gt_cases 0 v); [rewrite Z.mod_small in E; lia|].
    assert (v `mod` 2 ^ 64 = v + 2 ^ 64) as E' by (symmetry; apply Z.mod_unique_pos with (-1); lia). lia. }
  rewrite (proj2 (Z.eqb_neq _ _) Hmin).
  assert ((if v <? 0 then u64 (u64 v * u64 (-1)) else u64 v) = Z.abs v) as ->.
  { case_cmp; [|rewrite wrapu_small by lia; lia].
    unfold wrapu. rewrite Zmult_mod_idemp_l, Zmult_mod_idemp_r, Z.mod_small; lia. }
  destruct (qstep_first 1 (Z.abs v) ltac:(lia) ltac:(lia)) as (o1 & t1 & -> & Ht1 & E1 & Ho1).
  destruct (qstep_mask o1 t1 16 ltac:(done) ltac:(lia) ltac:(lia)) as (o2 & t2 & E & Ht2 & E2 & Ho2).
  change (Z.shiftl (Z.ones 16) 16) with 0xffff0000 in E. rewrite E. clear E.
  destruct (qstep_mask o2 t2 8 ltac:(done) ltac:(lia) ltac:(lia)) as (o3 & t3 & E & Ht3 & E3 & Ho3).
  change (Z.shiftl (Z.ones 8) 8) with 0xff00 in E. rewrite E. clear E.
  destruct (qstep_mask o3 t3 4 ltac:(done) ltac:(lia) ltac:(lia)) as (o4 & t4 & E & Ht4 & E4 & Ho4).
  change (Z.shiftl (Z.ones 4) 4) with 0xf0 in E. rewrite E. clear E.
  destruct (qstep_mask o4 t4 2 ltac:(done) ltac:(lia) ltac:(lia)) as (o5 & t5 & E & Ht5 & E5 & Ho5).
  change (Z.shiftl (Z.ones 2) 2) with 0xc in E. rewrite E. clear E.
  assert ((if c_true (Z.land t5 2) then s16 (o5 + 1) else o5) = o5 + Z.log2 t5) as ->.
  { assert (t5 = 1 \/ t5 = 2 \/ t5 = 3) as [-> |[-> | ->]] by lia; simpl; rewrite ?wraps_small by lia; lia. }
  assert (o5 + Z.log2 t5 = Z.log2 (Z.abs v) + 1) as -> by lia.
  pose proof (Z.log2_nonneg (Z.abs v)). pose proof (proj1 (Z.log2_lt_pow2 (Z.abs v) 63 ltac:(lia)) ltac:(lia)).
  case_cmp; rewrite !wraps_small by (rewrite ?wraps_small by lia; lia); [rewrite Z.sgn_neg by lia|rewrite Z.sgn_pos by lia]; lia.
Qed.

Section GetAggSpec.
Context {G A C : Type} `{BpfMap G Z Z, BpfMapLaws A (Z * list Z) (list Z), BpfMapLaws C Z Z}.
Implicit Types s : ag G A C.

Lemma no_agg_spec cpu s : bm_ok (agg_drops s) ->
  exists s', dt_no_agg cpu s = (None, s') /\ agggen s' = agggen s /\ aggs s' = aggs s /\
    bm_lookup cpu (agg_drops s') = (λ n, u64 (n + 1)) <$> bm_lookup cpu (agg_drops s).
Proof.
  intros Hok. unfold dt_no_agg. destruct (bm_lookup cpu (agg_drops s)) as [n|] eqn:E.
  - eexists. split; [done|]. cbn [agggen aggs agg_drops].
    by destruct (bm_write_ok cpu (u64 (n + 1)) (agg_drops s) Hok ltac:(by eexists)) as (_ & -> & _).
  - exists s. by rewrite E.
Qed.
End GetAggSpec.

(** ** The theorems *)

(** C34: quantize() puts every signed 64-bit value in one of its 127 bins, and
    the value that the consumer prints for the bin bounds it: a positive value
    is at least the bin's value and less than twice it, a negative one at most
    the bin's value and, but for the smallest bin, greater than twice it; 0 has
    its own bin. *)
Theorem dt_agg_qbin_correct v (Hv : - 2 ^ 63 <= v < 2 ^ 63) :
  let b := dt_agg_qbin v in
  let lo := DTRACE_QUANTIZE_BUCKETVAL b in
  0 <= b < DTRACE_QUANTIZE_NBUCKETS /\ (v = 0 <-> b = DTRACE_QUANTIZE_ZEROBUCKET) /\
  (0 < v -> lo <= v < 2 * lo) /\ (v < 0 -> v <= lo /\ (0 < b -> 2 * lo < v)).
Proof.
  cbv zeta. destruct (Z.eq_dec v 0) as [-> |Hne]; [vm_compute; intuition congruence|].
  destruct (Z.eq_dec v (- 2 ^ 63)) as [-> |Hmin]; [vm_compute; intuition congruence|].
  rewrite qbin_log by lia. change DTRACE_QUANTIZE_ZEROBUCKET with 63. change DTRACE_QUANTIZE_NBUCKETS with 127.
  pose proof (Z.log2_nonneg (Z.abs v)). pose proof (Z.log2_spec (Z.abs v) ltac:(lia)) as [Hl Hu].
  pose proof (proj1 (Z.log2_lt_pow2 (Z.abs v) 63 ltac:(lia)) ltac:(lia)).
  rewrite Z.pow_succ_r in Hu by lia. set (l := Z.log2 (Z.abs v)) in *. pose proof (pow2_pos l ltac:(lia)).
  assert (2 ^ l <= 2 ^ 62) by (apply Z.pow_le_mono_r; lia).
  unfold DTRACE_QUANTIZE_BUCKETVAL. change DTRACE_QUANTIZE_ZEROBUCKET with 63.
  destruct (Z.lt_ge_cases v 0).
  - rewrite Z.sgn_neg by lia. rewrite (proj2 (Z.ltb_lt (63 + -1 * (l + 1)) 63)) by lia.
    replace (63 - 1 - (63 + -1 * (l + 1))) with l by lia. rewrite Z.shiftl_1_l, wraps_small by lia. lia.
  - rewrite Z.sgn_pos by lia. rewrite (proj2 (Z.ltb_ge (63 + 1 * (l + 1)) 63)), (proj2 (Z.eqb_neq (63 + 1 * (l + 1)) 63)) by lia.
    replace (63 + 1 * (l + 1) - 63 - 1) with l by lia. rewrite Z.shiftl_1_l, wraps_small by lia. lia.
Qed.

Lemma dt_agg_qbin_correct_witness :
  dt_agg_qbin (-1000) = 53 /\ DTRACE_QUANTIZE_BUCKETVAL 53 = -512 /\ -1000 <= -512 /\ 2 * -512 < -1000.
Proof.
  destruct (dt_agg_qbin_correct (-1000) ltac:(lia)) as (_ & _ & _ & H).
  split; [reflexivity|]. split; [reflexivity|]. destruct (H ltac:(lia)) as [H1 H2]. split; [exact H1|]. apply H2. reflexivity.
Defined.

(** lquantize() puts a value below the base in bin 0, a value in the i-th
    step in bin [i + 1], and a value at or above the end of the last level in
    bin [levels + 1], for every signed 64-bit value: the difference to the base
    does not overflow.  A step of 0 gives bin 0. *)
Theorem dt_agg_lqbin_correct v base levels step (Hv : - 2 ^ 63 <= v < 2 ^ 63) (Hb : - 2 ^ 31 <= base < 2 ^ 31)
    (Hl : 0 <= levels < 2 ^ 16) (Hs : 0 <= step < 2 ^ 16) :
  let bin := dt_agg_lqbin v base levels step in
  0 <= bin <= levels + 1 /\ (step = 0 -> bin = 0) /\
  (0 < step ->
     (bin = 0 <-> v < base) /\
     (bin = levels + 1 <-> base + levels * step <= v) /\
     forall i, 0 <= i < levels -> (bin = i + 1 <-> base + i * step <= v < base + (i + 1) * step)).
Proof.
  cbv zeta. unfold dt_agg_lqbin. destruct (Z.eqb_spec step 0) as [-> |]; cbn [orb]; [lia|].
  destruct (Z.ltb_spec v base); cbn [orb].
  { split; [lia|]. split; [lia|]. intros _. split; [lia|]. split; [nia|]. intros i Hi. nia. }
  assert (u64 (s64 (v - base)) = v - base) as -> by (rewrite wrapu_wraps, wrapu_small by lia; lia).
  set (q := (v - base) `div` step).
  assert (0 <= q /\ q * step <= v - base < (q + 1) * step) as (Hq0 & Hq1 & Hq2).
  { split; [apply Z.div_pos; lia|]. pose proof (Z.div_mod (v - base) step ltac:(lia)).
    pose proof (Z.mod_pos_bound (v - base) step ltac:(lia)). fold q in H0. lia. }
  assert (forall i j, i <= j -> i * step <= j * step) as Hmono by (intros; apply Z.mul_le_mono_nonneg_r; lia).
  destruct (Z.ltb_spec levels q) as [Hlq|Hlq]; rewrite wrapu_small by lia.
  - pose proof (Hmono levels q ltac:(lia)). split; [lia|]. split; [lia|]. intros _. split; [lia|]. split; [lia|].
    intros i Hi. pose proof (Hmono (i + 1) levels ltac:(lia)). lia.
  - split; [lia|]. split; [lia|]. intros _. split; [lia|]. split.
    + destruct (Z.eq_dec q levels) as [-> |]; [lia|]. pose proof (Hmono (q + 1) levels ltac:(lia)). lia.
    + intros i Hi. destruct (Z.lt_trichotomy i q) as [Hc|[-> |Hc]]; [|lia|].
      * pose proof (Hmono (i + 1) q ltac:(lia)). lia.
      * pose proof (Hmono (q + 1) i ltac:(lia)). lia.
Qed.

Lemma dt_agg_lqbin_correct_witness : dt_agg_lqbin 57 0 10 10 = 6 /\ 0 + 5 * 10 <= 57 < 0 + (5 + 1) * 10.
Proof.
  split; [reflexivity|].
  destruct (dt_agg_lqbin_correct 57 0 10 10) as (_ & _ & H); [lia..|]. apply (H ltac:(lia)); [lia|reflexivity].
Defined.

(** C35: dt_get_agg returns the data of the key in the current generation: data
    of this generation is left as it is, and older data, or none, is replaced by
    the initial data with the current generation (and the initial value of min()
    and max()).  It drops just if the generation of the aggregation is unknown
    or the key is new and the map refuses it; then the drop is counted (if the
    CPU has a counter) and all data is left alone.  No other element changes.
    The maps are taken by their interface, with the documented behaviour that
    BPF_ANY replaces the value of a key that is there. *)
Theorem dt_get_agg_correct {G A C} `{BpfMap G Z Z, BpfMapReplaces A (Z * list Z) (list Z), BpfMapLaws C Z Z}
    cpu id tuple ival dflt (s : ag G A C) (Ha : bm_ok (aggs s)) (Hc : bm_ok (agg_drops s)) :
  let key := (id, tuple) in
  exists r s', dt_get_agg cpu id tuple ival dflt s = (r, s') /\ agggen s' = agggen s /\
    (r = None <-> bm_lookup id (agggen s) = None \/
                  bm_lookup key (aggs s) = None /\ bm_update key dflt BPF_ANY (aggs s) = None) /\
    (forall k, k <> key -> bm_lookup k (aggs s') = bm_lookup k (aggs s)) /\
    (r = None -> aggs s' = aggs s /\
       bm_lookup cpu (agg_drops s') = (λ n, u64 (n + 1)) <$> bm_lookup cpu (agg_drops s)) /\
    (r <> None -> r = Some key /\ agg_drops s' = agg_drops s /\ exists gen, bm_lookup id (agggen s) = Some gen /\
       bm_lookup key (aggs s') =
         match bm_lookup key (aggs s) with
         | Some v => if gen <=? default 0 (v !! O) then Some v
                     else Some (<[O := gen]> (if c_true ival then <[1%nat := ival]> dflt else dflt))
         | None => Some (<[O := gen]> (if c_true ival then <[1%nat := ival]> dflt else dflt))
         end).
Proof.
  intros key. unfold dt_get_agg. cbv zeta. fold key. destruct (bm_lookup id (agggen s)) as [gen|] eqn:Eg.
  2: { destruct (no_agg_spec cpu s Hc) as (s' & -> & E1 & E2 & E3). exists None, s'.
       rewrite E1, E2. split; [done|]. split; [done|]. split; [split; [by left|done]|]. done. }
  set (init := <[O := gen]> (if c_true ival then <[1%nat := ival]> dflt else dflt)).
  assert (forall v : list Z, (default 0 (v !! O) <? gen) = negb (gen <=? default 0 (v !! O))) as Hneg
    by (intros v; rewrite Z.ltb_antisym; done).
  destruct (match bm_lookup key (aggs s) with None => true | Some v => default 0 (v !! O) <? gen end) eqn:Ef.
  - assert (match bm_lookup key (aggs s) with
            | Some v => if gen <=? default 0 (v !! O) then Some v else Some init
            | None => Some init end = Some init) as Hm.
    { destruct (bm_lookup key (aggs s)) as [v|]; [|done]. rewrite Hneg in Ef. by apply negb_true_iff in Ef as ->. }
    destruct (bm_update key dflt BPF_ANY (aggs s)) as [a|] eqn:Eu.
    + destruct (bm_update_ok _ _ _ _ _ Ha Eu) as (Hoka & -> & Hoa).
      destruct (bm_write_ok key init a Hoka) as (_ & Hl & _ & Hw).
      { destruct (bm_update_ok _ _ _ _ _ Ha Eu) as (_ & -> & _). by eexists. }
      do 2 eexists. split; [reflexivity|]. split; [done|]. split; [naive_solver|]. split.
      * intros k Hk. cbn [aggs]. fold init. rewrite (proj1 (Hw k Hk)). apply Hoa, Hk.
      * split; [done|]. intros _. split; [done|]. split; [done|]. exists gen. split; [done|]. fold init. by rewrite Hm.
    + assert (bm_lookup key (aggs s) = None) as Hnone.
      { destruct (bm_lookup key (aggs s)) eqn:Ek; [|done].
        destruct (bm_update_any key dflt (aggs s) Ha) as [? E]; [by rewrite Ek|congruence]. }
      destruct (no_agg_spec cpu s Hc) as (s' & -> & E1 & E2 & E3). exists None, s'.
      rewrite E1, E2. split; [done|]. split; [done|]. split; [split; [by right|done]|]. done.
  - destruct (bm_lookup key (aggs s)) as [v|] eqn:Ek; [|done]. exists (Some key), s. split; [done|].
    split; [done|]. split; [naive_solver|]. split; [done|]. split; [done|]. intros _. split; [done|]. split; [done|].
    exists gen. split; [done|]. rewrite Ek. rewrite Hneg in Ef. by apply negb_false_iff in Ef as ->.
Qed.

Definition ag_ex : ag (list (option (Z * Z))) (list (option (Z * list Z * list Z))) (list (option (Z * Z))) :=
  Ag [Some (3, 2)] [Some ((3, [7]), [1; 40]); None] [Some (0, 0)].

Lemma dt_get_agg_correct_witness :
  exists s', dt_get_agg 0 3 [7] 0 [0; 0] ag_ex = (Some (3, [7]), s') /\ bm_lookup (3, [7]) (aggs s') = Some [2; 0] /\
    bm_lookup (3, [7]) (aggs ag_ex) = Some [1; 40].
Proof.
  destruct (dt_get_agg_correct 0 3 [7] 0 [0; 0] ag_ex) as (r & s' & E & _ & _ & _ & _ & Hc).
  - split; [done|]. intros i j k v w E E'. destruct i as [|[|i]], j as [|[|j]]; simpl in *; try done;
      by rewrite lookup_nil in *.
  - split; [done|]. intros i j k v w E E'. destruct i, j; simpl in *; done.
  - assert (r = Some (3, [7])) as -> by (vm_compute in E; by injection E as <- _).
    exists s'. split; [exact E|]. destruct (Hc ltac:(discriminate)) as (_ & _ & gen & Eg & El).
    split; [|reflexivity]. rewrite El. injection Eg as <-. reflexivity.
Defined.
