(* ===== verification/Aggregate.v ===== *)
(** * Aggregations in the consumer (libdtrace/dt_aggregate.c)

    The consumer reads the aggregation data of every CPU from the BPF maps and
    merges it in its own hash table: dtrace_aggregate_snap and what it calls,
    the clearing of data by generation, and the walk that can remove entries.
    Entries have identities, so the hash chains and the list of all entries
    share them as the C pointers do.  The theorems say what the table holds
    after a snapshot, whatever the order of CPUs and keys. *)

From stdpp Require Import base gmap list numbers option sets.
From S2P Require Import Prelude.

(** ** Data *)

Definition DT_AGG_BASE : Z := 0x700.
Definition DT_AGG_MAX : Z := DT_AGG_BASE + 4.
Definition DT_AGG_MIN : Z := DT_AGG_BASE + 5.
Definition DTRACE_AGGVARIDNONE : Z := 0.
Definition DTRACE_AGGIDNONE : Z := 0.
Definition DTRACE_A_PERCPU : Z := 1.
Definition DTRACE_A_VALID : Z := 8.
Definition INT64_MAX : Z := 2 ^ 63 - 1.
(** The words are unsigned; this is the one that reads as the smallest number. *)
Definition INT64_MIN : Z := 2 ^ 63.

(** A record of a key: the kind of action, its size and its offset in the key. *)
Record recdesc := Rec { rd_action : Z; rd_size : Z; rd_offset : Z }.

(** The part of dtrace_aggdesc_t in use: the variable id, the size of the key
    in bytes without the id at its start, and the record of the data: its action
    and its number of 64-bit words.  [ad_func] is the id of the aggregating
    function that the aggregation's identifier refers to; [ad_krecs] are the records
    of the key, of which the first is the id, and [ad_sig] is the signature. *)
Record aggdesc := AggDesc {
  ad_varid : Z; ad_ksize : nat; ad_action : Z; ad_words : nat; ad_func : Z; ad_krecs : list recdesc; ad_sig : Z }.

(** A key is the aggregation id and the bytes behind it; data is the generation
    and the words of the record. *)
Abbreviation aggkey := (Z * list Z)%type.
Abbreviation aggdata := (list Z).

Record ahashent := Ent {
  he_hval : Z; he_desc : Z; he_key : aggkey; he_data : aggdata; he_percpu : option (list aggdata) }.

Record ahash := Ahash {
  ah_ents : gmap nat ahashent; ah_hash : list (list nat); ah_all : list nat }.

(** The handle: descriptions by aggregation id, the map of generations, the
    highest CPU id, whether tracing is active, whether the buffer for the data
    was allocated, the aggregation rate, and the time of the last snapshot. *)
Record agg_hdl := Hdl {
  dt_adesc : gmap Z aggdesc; dt_genmap : gmap Z Z; dt_max_cpuid : nat;
  dt_active : bool; dt_buf : bool; dt_aggrate : Z;
  dt_lastagg : Z; dtat_flags : Z; dtat_hash : ahash }.

Definition set_hash (h : agg_hdl) (a : ahash) : agg_hdl :=
  Hdl (dt_adesc h) (dt_genmap h) (dt_max_cpuid h) (dt_active h) (dt_buf h) (dt_aggrate h) (dt_lastagg h) (dtat_flags h) a.

(** ** Operations on the data *)

(** [dvals] and [svals] are the words behind the generation. *)
Definition dt_agg_one_agg (d : aggdesc) (dst src : aggdata) : aggdata :=
  let w l := default 0 (l !! 1%nat) in
  if ad_func d =? DT_AGG_MAX then
    if s64 (w src) >? s64 (w dst) then <[1%nat := w src]> dst else dst
  else if ad_func d =? DT_AGG_MIN then
    if s64 (w src) <? s64 (w dst) then <[1%nat := w src]> dst else dst
  else
    foldl (λ dst i, <[i := u64 (default 0 (dst !! i) + default 0 (src !! i))]> dst) dst (seq 1 (ad_words d)).

(** The words of a record are set to the start value of the action. *)
Definition clear_vals (d : aggdesc) (data : aggdata) : aggdata :=
  if ad_action d =? DT_AGG_MIN then <[1%nat := INT64_MAX]> data
  else if ad_action d =? DT_AGG_MAX then <[1%nat := INT64_MIN]> data
  else foldl (λ data i, <[i := 0]> data) data (seq 1 (ad_words d)).

Definition dt_aggregate_clear_one_percpu (d : aggdesc) (percpu : list aggdata) : list aggdata :=
  map (clear_vals d) percpu.

Definition dt_aggregate_clear_one (genmap : gmap Z Z) (aid : Z) (d : aggdesc) (e : ahashent) : ahashent :=
  if negb (aid =? DTRACE_AGGVARIDNONE) && negb (aid =? ad_varid d) then e
  else
    let agen := default 0 (genmap !! fst (he_key e)) in
    Ent (he_hval e) (he_desc e) (he_key e) (clear_vals d (<[O := agen]> (he_data e)))
        (dt_aggregate_clear_one_percpu d <$> he_percpu e).

(** ** The hash table *)

Definition key_prefix (d : aggdesc) (k : aggkey) : aggkey := (fst k, take (ad_ksize d) (snd k)).

Definition ent_matches (aggid : Z) (k : aggkey) (e : ahashent) : bool :=
  (he_hval e =? aggid) && (he_desc e =? aggid) && bool_decide (he_key e = k).

(** The search of a hash chain. *)
Fixpoint chain_find (ents : gmap nat ahashent) (chain : list nat) (aggid : Z) (k : aggkey) : option (nat * ahashent) :=
  match chain with
  | [] => None
  | id :: chain =>
      match ents !! id with
      | Some e => if ent_matches aggid k e then Some (id, e) else chain_find ents chain aggid k
      | None => chain_find ents chain aggid k
      end
  end.

Definition ah_ndx (a : ahash) (hval : Z) : nat := Z.to_nat (hval `mod` Z.of_nat (length (ah_hash a))).
Definition ah_chain (a : ahash) (hval : Z) : list nat := default [] (ah_hash a !! ah_ndx a hval).
Definition ah_find (a : ahash) (aggid : Z) (k : aggkey) : option (nat * ahashent) :=
  chain_find (ah_ents a) (ah_chain a aggid) aggid k.

(** A new entry goes to the head of its chain and of the list of all. *)
Definition ah_insert (a : ahash) (e : ahashent) : ahash :=
  let id := fresh (dom (ah_ents a)) in
  Ahash (<[id := e]> (ah_ents a)) (<[ah_ndx a (he_hval e) := id :: ah_chain a (he_hval e)]> (ah_hash a)) (id :: ah_all a).

Definition ah_set (a : ahash) (id : nat) (e : ahashent) : ahash :=
  Ahash (<[id := e]> (ah_ents a)) (ah_hash a) (ah_all a).

Definition ah_remove (a : ahash) (id : nat) (e : ahashent) : ahash :=
  Ahash (delete id (ah_ents a)) (<[ah_ndx a (he_hval e) := remove_one id (ah_chain a (he_hval e))]> (ah_hash a))
        (remove_one id (ah_all a)).

(** ** Walking *)

Inductive agg_error := EDT_NOMEM | EDT_BPF | EDT_DIRABORT | EDT_BADRVAL | EINVAL | AGG_ERROR (rval : Z).

(** The results of the function that a walk calls. *)
Definition DTRACE_AGGWALK_ERROR : Z := -1.
Definition DTRACE_AGGWALK_NEXT : Z := 0.
Definition DTRACE_AGGWALK_ABORT : Z := 1.
Definition DTRACE_AGGWALK_REMOVE : Z := 3.

(** The deletion of the key from the map of each CPU is an output: the keys
    removed. *)
Definition dt_aggwalk_rval (a : ahash) (id : nat) (rval : Z) : result agg_error (ahash * list aggkey) :=
  if rval =? DTRACE_AGGWALK_NEXT then Ok (a, [])
  else if rval =? DTRACE_AGGWALK_ERROR then Err (AGG_ERROR (-1))
  else if rval =? DTRACE_AGGWALK_ABORT then Err EDT_DIRABORT
  else if rval =? DTRACE_AGGWALK_REMOVE then
    match ah_ents a !! id with
    | Some e => Ok (ah_remove a id e, [he_key e])
    | None => Ok (a, [])
    end
  else Err EDT_BADRVAL.

(** [func] may change the entry's data, and its own argument. *)
Fixpoint walk_ids {Arg} (func : ahashent -> Arg -> Z * ahashent * Arg) (ids : list nat) (a : ahash) (arg : Arg)
    : result agg_error (ahash * list aggkey * Arg) :=
  match ids with
  | [] => Ok (a, [], arg)
  | id :: ids =>
      match ah_ents a !! id with
      | None => walk_ids func ids a arg
      | Some e =>
          let '(rval, e, arg) := func e arg in
          '(a, ks) ← dt_aggwalk_rval (ah_set a id e) id rval;
          '(a, ks', arg) ← walk_ids func ids a arg;
          Ok (a, ks ++ ks', arg)
      end
  end.

Definition dtrace_aggregate_walk {Arg} (func : ahashent -> Arg -> Z * ahashent * Arg) (a : ahash) (arg : Arg) :=
  walk_ids func (ah_all a) a arg.

(** An entry's description is found by its id; all entries have one. *)
Definition clear_func (h : agg_hdl) (aid : Z) (e : ahashent) (arg : unit) : Z * ahashent * unit :=
  (DTRACE_AGGWALK_NEXT,
   match dt_adesc h !! he_desc e with
   | Some d => dt_aggregate_clear_one (dt_genmap h) aid d e
   | None => e
   end, arg).

Definition dtrace_aggregate_clear (h : agg_hdl) : agg_hdl :=
  match dtrace_aggregate_walk (clear_func h DTRACE_AGGVARIDNONE) (dtat_hash h) () with
  | Ok (a, _, _) => set_hash h a
  | Err _ => h
  end.

(** ** Snapshots *)

Section Snap.
(** [reduce] is the replacement of the addresses in a key by those of the symbol
    or module they belong to (dt_aggregate_usym, _umod, _sym, _mod); [junk] is
    what newly allocated memory holds; [cpudrops] the result of the check for
    drops of a CPU; [now] the time. *)
Context (reduce : aggdesc -> aggkey -> aggkey) (junk : aggdata) (cpudrops : Z -> Z).

(** The copies for each CPU of a new entry. *)
Definition new_percpu (max_cpus : nat) (d : aggdesc) (cpu : nat) (data : aggdata) (m : allocs)
    : result agg_error (list aggdata) * allocs :=
  let '(ok, m) := malloc m in
  if negb ok then (Err EDT_NOMEM, m)
  else
    let '(ok, m) := foldl (λ (s : bool * allocs) (_ : nat), if fst s then malloc (snd s) else s) (true, m) (seq 0 max_cpus) in
    if negb ok then (Err EDT_NOMEM, m)
    else (Ok (<[cpu := data]> (dt_aggregate_clear_one_percpu d (replicate max_cpus junk))), m).

(** The functions return an error, if any, and the handle as they leave it. *)
Abbreviation snap_res := (option agg_error * agg_hdl * allocs)%type.

Definition dt_aggregate_snap_one (aggid : Z) (cpu : nat) (key : aggkey) (data : aggdata) (h : agg_hdl) (m : allocs)
    : snap_res :=
  let dgen := default 0 (data !! O) in
  if dgen =? 0 then (None, h, m)
  else
    match dt_adesc h !! aggid with
    | None => (Some (AGG_ERROR (-1)), h, m)
    | Some d =>
        let k := key_prefix d (reduce d key) in
        match ah_find (dtat_hash h) aggid k with
        | Some (id, e) =>
            let e := if default 0 (he_data e !! O) <? dgen
                     then dt_aggregate_clear_one (dt_genmap h) DTRACE_AGGVARIDNONE d e else e in
            let a := ah_set (dtat_hash h) id e in
            if dgen <? default 0 (he_data e !! O) then (None, set_hash h a, m)
            else
              let e := Ent (he_hval e) (he_desc e) (he_key e) (dt_agg_one_agg d (he_data e) data)
                           ((λ pc, alter (λ dst, dt_agg_one_agg d dst data) cpu pc) <$> he_percpu e) in
              (None, set_hash h (ah_set a id e), m)
        | None =>
            let '(ok, m) := malloc m in
            if negb ok then (Some EDT_NOMEM, h, m)
            else
              let '(ok, m) := malloc m in
              if negb ok then (Some EDT_NOMEM, h, m)
              else
                let '(ok, m) := malloc m in
                if negb ok then (Some EDT_NOMEM, h, m)
                else
                  let copy := take (S (ad_words d)) data in
                  let '(percpu, m) :=
                    if flag (dtat_flags h) DTRACE_A_PERCPU then
                      let '(r, m) := new_percpu (S (dt_max_cpuid h)) d cpu copy m in
                      (match r with Ok pc => Ok (Some pc) | Err e => Err e end, m)
                    else (Ok None, m) in
                  match percpu with
                  | Err e => (Some e, h, m)
                  | Ok pc => (None, set_hash h (ah_insert (dtat_hash h) (Ent aggid aggid k copy pc)), m)
                  end
        end
    end.

(** The map of a CPU, in the order of its keys; a lookup can fail. *)
Abbreviation aggmap := (list (aggkey * option aggdata)).

(** BPF_MAP_GET_NEXT_KEY: the key after [key], or the first one if [key] is not
    in the map. *)
Fixpoint key_after (m : aggmap) (key : aggkey) : option (option aggkey) :=
  match m with
  | [] => None
  | (k, _) :: m => if decide (k = key) then Some (fst <$> head m) else key_after m key
  end.
Definition next_key (m : aggmap) (key : aggkey) : option aggkey :=
  match key_after m key with Some r => r | None => fst <$> head m end.
Definition map_get (m : aggmap) (key : aggkey) : option aggdata :=
  '(_, p) ← list_find (λ p : aggkey * option aggdata, fst p = key) m; snd p.

Fixpoint snap_cpu_loop (fuel : nat) (mp : aggmap) (cpu : nat) (key : aggkey) (h : agg_hdl) (m : allocs)
    : option snap_res :=
  match fuel with
  | O => None
  | S fuel =>
      match next_key mp key with
      | None => Some (None, h, m)
      | Some nxt =>
          let rval := cpudrops (Z.of_nat cpu) in
          if negb (rval =? 0) then Some (Some (AGG_ERROR rval), h, m)
          else
            match map_get mp nxt with
            | None => Some (Some EDT_BPF, h, m)
            | Some data =>
                match dt_aggregate_snap_one (fst nxt) cpu nxt data h m with
                | (Some e, h, m) => Some (Some e, h, m)
                | (None, h, m) => snap_cpu_loop fuel mp cpu nxt h m
                end
            end
      end
  end.

(** [left] is what the key buffer holds behind the id. *)
Definition dt_aggregate_snap_cpu (mp : aggmap) (cpu : nat) (left : list Z) (h : agg_hdl) (m : allocs) :=
  snap_cpu_loop (S (length mp)) mp cpu (DTRACE_AGGIDNONE, left) h m.

(** The maps of the online CPUs; [None] is a map that cannot be opened. [left]
    gives what the key buffer holds when a CPU is started. *)
Fixpoint snap_cpus (cpus : list (nat * option aggmap)) (left : nat -> list Z) (h : agg_hdl) (m : allocs)
    : option snap_res :=
  match cpus with
  | [] => Some (None, h, m)
  | (_, None) :: _ => Some (Some (AGG_ERROR (-1)), h, m)
  | (cpu, Some mp) :: cpus =>
      match dt_aggregate_snap_cpu mp cpu (left cpu) h m with
      | Some (None, h, m) => snap_cpus cpus left h m
      | r => r
      end
  end.

Definition set_lastagg (h : agg_hdl) (t : Z) : agg_hdl :=
  Hdl (dt_adesc h) (dt_genmap h) (dt_max_cpuid h) (dt_active h) (dt_buf h) (dt_aggrate h) t (dtat_flags h) (dtat_hash h).
Definition set_flags (h : agg_hdl) (f : Z) : agg_hdl :=
  Hdl (dt_adesc h) (dt_genmap h) (dt_max_cpuid h) (dt_active h) (dt_buf h) (dt_aggrate h) (dt_lastagg h) f (dtat_hash h).

Definition dtrace_aggregate_snap (now : Z) (cpus : list (nat * option aggmap)) (left : nat -> list Z) (h : agg_hdl) (m : allocs)
    : option snap_res :=
  if negb (dt_active h) then Some (Some EINVAL, h, m)
  else if negb (dt_buf h) then Some (None, h, m)
  else
    let wait := (0 <? dt_aggrate h) && negb (dt_lastagg h =? 0) && (now - dt_lastagg h <? dt_aggrate h) in
    if wait then Some (None, h, m)
    else
      let h := if 0 <? dt_aggrate h
               then set_lastagg h (if negb (dt_lastagg h =? 0) then dt_lastagg h + dt_aggrate h else now) else h in
      if flag (dtat_flags h) DTRACE_A_VALID then Some (None, h, m)
      else
        let h := set_flags h (Z.lor (dtat_flags h) DTRACE_A_VALID) in
        snap_cpus cpus left (dtrace_aggregate_clear h) m.
End Snap.

(** ** Merging *)

(** What the words of a record mean: two lists of words, the words of both, and
    the words of nothing. *)
Definition vals_merge (d : aggdesc) (xs ys : list Z) : list Z :=
  let pick (c : bool) := if c then ys else xs in
  let w l := default 0 (head l) in
  if ad_action d =? DT_AGG_MAX then pick (s64 (w xs) <? s64 (w ys))
  else if ad_action d =? DT_AGG_MIN then pick (s64 (w ys) <? s64 (w xs))
  else zip_with (λ x y, u64 (x + y)) xs ys.

Definition vals_unit (d : aggdesc) : list Z :=
  if ad_action d =? DT_AGG_MIN then [INT64_MAX]
  else if ad_action d =? DT_AGG_MAX then [INT64_MIN] else replicate (ad_words d) 0.

(** The description comes from one identifier, and min() and max() have one
    word (dt_map.c, dt_cg.c). *)
Definition desc_ok (d : aggdesc) : Prop :=
  ad_func d = ad_action d /\ (ad_action d = DT_AGG_MIN \/ ad_action d = DT_AGG_MAX -> ad_words d = 1%nat).

Definition vals_ok (d : aggdesc) (xs : list Z) : Prop := length xs = ad_words d /\ Forall (λ x, in64 x) xs.

Lemma s64_inj x y : in64 x -> in64 y -> s64 x = s64 y -> x = y.
Proof. intros Hx Hy E. rewrite <- (wrapu_small 64 x), <- (wrapu_small 64 y) by done. by rewrite <- (wrapu_wraps 64 x), E, wrapu_wraps by lia. Qed.

Section Merge.
Context (d : aggdesc) (Hd : desc_ok d).

(** One word: min() and max(). *)
Lemma vals_one xs : ad_action d = DT_AGG_MIN \/ ad_action d = DT_AGG_MAX -> vals_ok d xs -> exists x, xs = [x] /\ in64 x.
Proof.
  intros Ha [Hl Hf]. rewrite (proj2 Hd Ha) in Hl. destruct xs as [|x [|]]; [done| |done].
  exists x. split; [done|]. exact (Forall_inv Hf).
Qed.

Inductive agg_kind : Prop :=
  | KMax : ad_action d = DT_AGG_MAX -> agg_kind
  | KMin : ad_action d = DT_AGG_MIN -> agg_kind
  | KSum : (ad_action d =? DT_AGG_MAX) = false -> (ad_action d =? DT_AGG_MIN) = false -> agg_kind.

Lemma agg_cases : agg_kind.
Proof.
  destruct (ad_action d =? DT_AGG_MAX) eqn:E1; [apply KMax; by apply Z.eqb_eq|].
  destruct (ad_action d =? DT_AGG_MIN) eqn:E2; [apply KMin; by apply Z.eqb_eq|by apply KSum].
Qed.

Lemma vals_merge_comm xs ys : vals_ok d xs -> vals_ok d ys -> vals_merge d xs ys = vals_merge d ys xs.
Proof.
  intros Hx Hy. unfold vals_merge. destruct agg_cases as [E|E|E1 E2].
  1,2: destruct (vals_one xs) as (x & -> & ?), (vals_one ys) as (y & -> & ?); auto; rewrite E; simpl;
       repeat case_cmp; try lia; try done; f_equal; apply s64_inj; [done|done|lia].
  rewrite E1, E2. apply list_eq. intros i. rewrite !lookup_zip_with.
  destruct (xs !! i), (ys !! i); simpl; try done. f_equal. f_equal. lia.
Qed.

Lemma vals_merge_assoc xs ys zs : vals_ok d xs -> vals_ok d ys -> vals_ok d zs ->
  vals_merge d xs (vals_merge d ys zs) = vals_merge d (vals_merge d xs ys) zs.
Proof.
  intros Hx Hy Hz. unfold vals_merge. destruct agg_cases as [E|E|E1 E2].
  1,2: destruct (vals_one xs) as (x & -> & ?), (vals_one ys) as (y & -> & ?), (vals_one zs) as (z & -> & ?); auto; rewrite E; simpl.
  1: destruct (s64 x <? s64 y) eqn:A, (s64 y <? s64 z) eqn:B, (s64 x <? s64 z) eqn:C;
     simpl; rewrite ?A, ?B, ?C; b2p; try done; exfalso; lia.
  1: destruct (s64 y <? s64 x) eqn:A, (s64 z <? s64 y) eqn:B, (s64 z <? s64 x) eqn:C;
     simpl; rewrite ?A, ?B, ?C; b2p; try done; exfalso; lia.
  rewrite E1, E2. apply list_eq. intros i. rewrite !lookup_zip_with.
  destruct (xs !! i), (ys !! i), (zs !! i); simpl; try done. f_equal. rewrite wrapu_add_l, wrapu_add_r. f_equal. lia.
Qed.

Lemma vals_unit_ok : vals_ok d (vals_unit d).
Proof.
  unfold vals_ok, vals_unit. destruct agg_cases as [E|E|E1 E2].
  - rewrite E. simpl. rewrite (proj2 Hd) by auto. split; [done|]. repeat constructor; unfold INT64_MIN; lia.
  - rewrite E. simpl. rewrite (proj2 Hd) by auto. split; [done|]. repeat constructor; unfold INT64_MAX; lia.
  - rewrite E1, E2. rewrite length_replicate. split; [done|]. by apply Forall_replicate.
Qed.

Lemma vals_unit_l xs : vals_ok d xs -> vals_merge d (vals_unit d) xs = xs.
Proof.
  intros Hx. unfold vals_merge, vals_unit. destruct agg_cases as [E|E|E1 E2].
  1,2: destruct (vals_one xs) as (x & -> & ?); auto; rewrite E; simpl;
       pose proof (wraps_range 64 x ltac:(lia)); case_cmp; [done|]; f_equal; apply s64_inj; [unfold INT64_MAX, INT64_MIN; lia|done|].
  - change (s64 INT64_MIN) with (- 2 ^ 63) in *. lia.
  - change (s64 INT64_MAX) with (2 ^ 63 - 1) in *. lia.
  - rewrite E1, E2. destruct Hx as [Hl Hf]. apply list_eq. intros i. rewrite lookup_zip_with.
    destruct (xs !! i) as [x|] eqn:Ex; [|by rewrite option_bind_comm || destruct (replicate _ _ !! i)].
    rewrite lookup_replicate_2 by (rewrite <- Hl; by apply lookup_lt_Some in Ex). simpl. f_equal.
    apply wrapu_small. by apply (Forall_lookup_1 _ _ _ _ Hf Ex).
Qed.

Lemma vals_merge_ok xs ys : vals_ok d xs -> vals_ok d ys -> vals_ok d (vals_merge d xs ys).
Proof.
  intros Hx Hy. unfold vals_merge. destruct agg_cases as [E|E|E1 E2].
  - rewrite E. simpl. by case_cmp.
  - rewrite E. simpl. by case_cmp.
  - rewrite E1, E2. destruct Hx as [Lx _], Hy as [Ly _]. split; [rewrite length_zip_with; lia|].
    apply Forall_lookup. intros i z. rewrite lookup_zip_with.
    destruct (xs !! i); [|done]. destruct (ys !! i); [|done]. simpl. intros [= <-]. auto with cint.
Qed.
End Merge.

(** A loop that updates the words from [s] on, one after the other. *)
Lemma foldl_update (f : nat -> Z -> Z) (l : list Z) s n j :
  foldl (λ l i, <[i := f i (default 0 (l !! i))]> l) l (seq s n) !! j =
  if decide (s <= j < s + n)%nat then f j <$> (l !! j) else l !! j.
Proof.
  revert j. induction n as [|n IH]; intros j; [simpl; case_decide; [lia|done]|].
  rewrite seq_S, foldl_app. simpl. set (l' := foldl _ l (seq s n)) in *. destruct (decide (j = s + n)%nat) as [-> |Hne].
  - rewrite decide_True by lia. pose proof (IH (s + n)%nat) as Hl. rewrite decide_False in Hl by lia.
    destruct (l !! (s + n)%nat) as [x|] eqn:Ex.
    + rewrite list_lookup_insert_eq by (by apply lookup_lt_Some in Hl). by rewrite Hl.
    + apply lookup_ge_None. rewrite length_insert. by apply lookup_ge_None.
  - rewrite list_lookup_insert_ne, IH by done. repeat case_decide; try lia; done.
Qed.

Section Ops.
Context (d : aggdesc) (Hd : desc_ok d).

(** The loops of the code, against the functions on words. *)
Lemma one_agg_merge g g' xs ys : vals_ok d xs -> vals_ok d ys ->
  dt_agg_one_agg d (g :: xs) (g' :: ys) = g :: vals_merge d xs ys.
Proof.
  intros Hx Hy. unfold dt_agg_one_agg, vals_merge. rewrite (proj1 Hd). destruct (agg_cases d) as [E|E|E1 E2].
  1,2: destruct (vals_one d Hd xs) as (x & -> & ?), (vals_one d Hd ys) as (y & -> & ?); auto; rewrite E; simpl;
       rewrite ?Z.gtb_ltb; by case_cmp.
  rewrite E1, E2. destruct Hx as [Lx _], Hy as [Ly _].
  apply list_eq. intros j. rewrite (foldl_update (λ i x, u64 (x + default 0 ((g' :: ys) !! i)))).
  destruct j as [|j]; [by rewrite decide_False by lia|]. rewrite !lookup_cons. rewrite lookup_zip_with.
  destruct (decide (1 <= S j < 1 + ad_words d)%nat).
  - destruct (lookup_lt_is_Some_2 xs j ltac:(lia)) as [x ->]. destruct (lookup_lt_is_Some_2 ys j ltac:(lia)) as [y ->]. done.
  - by rewrite (lookup_ge_None_2 xs j) by lia.
Qed.

Lemma clear_vals_unit g xs : length xs = ad_words d -> clear_vals d (g :: xs) = g :: vals_unit d.
Proof.
  intros Lx. unfold clear_vals, vals_unit. destruct (agg_cases d) as [E|E|E1 E2].
  1,2: rewrite E; simpl; rewrite (proj2 Hd) in Lx by auto; by destruct xs as [|x [|]].
  rewrite E1, E2. apply list_eq. intros j. rewrite (foldl_update (λ _ _, 0)).
  destruct j as [|j]; [by rewrite decide_False by lia|]. rewrite !lookup_cons.
  destruct (decide (1 <= S j < 1 + ad_words d)%nat).
  - destruct (lookup_lt_is_Some_2 xs j ltac:(lia)) as [x ->]. by rewrite lookup_replicate_2 by lia.
  - rewrite !lookup_ge_None_2; [done| |]; rewrite ?length_replicate; lia.
Qed.
End Ops.

(** ** One entry *)

(** Data is well formed: its generation, and the words of its record. *)
Definition data_ok (d : aggdesc) (agen : Z) (l : aggdata) : Prop :=
  exists g xs, l = g :: xs /\ vals_ok d xs /\ 0 < g <= agen.
Definition gen_of (l : aggdata) : Z := default 0 (head l).
Definition vals_of (l : aggdata) : list Z := tail l.

(** What the snapshot does to the data of an entry with the data of a CPU. *)
Definition absorb (d : aggdesc) (agen : Z) (o : option aggdata) (l : aggdata) : option aggdata :=
  match o with
  | None => Some l
  | Some e =>
      let e := if gen_of e <? gen_of l then agen :: vals_unit d else e in
      Some (if gen_of l <? gen_of e then e else gen_of e :: vals_merge d (vals_of e) (vals_of l))
  end.

(** The merge of the data of one generation. *)
Definition merge_all (d : aggdesc) (ls : list aggdata) : list Z := foldr (vals_merge d) (vals_unit d) (map vals_of ls).
Definition current (agen : Z) (ls : list aggdata) : list aggdata := filter (λ l, gen_of l = agen) ls.

Section Absorb.
Context (d : aggdesc) (Hd : desc_ok d) (agen : Z).

Lemma merge_all_ok ls : Forall (data_ok d agen) ls -> vals_ok d (merge_all d ls).
Proof.
  induction 1 as [|l ls (g & xs & -> & Hx & _) _ IH]; [by apply vals_unit_ok|]. simpl. by apply vals_merge_ok.
Qed.

Lemma current_ok ls : Forall (data_ok d agen) ls -> Forall (data_ok d agen) (current agen ls).
Proof. unfold current. induction 1; [constructor|]. rewrite filter_cons. case_decide; by try constructor. Qed.

(** From data of the current generation on, the current data is merged. *)
Lemma absorb_current ls xs : Forall (data_ok d agen) ls -> vals_ok d xs ->
  foldl (absorb d agen) (Some (agen :: xs)) ls = Some (agen :: vals_merge d xs (merge_all d (current agen ls))).
Proof.
  intros Hls. revert xs. induction Hls as [|l ls (g & ys & -> & Hy & Hg) Hls IH]; intros xs Hx.
  - simpl. unfold merge_all. simpl. by rewrite vals_merge_comm, vals_unit_l by (done || by apply vals_unit_ok).
  - assert (absorb d agen (Some (agen :: xs)) (g :: ys) =
            Some (agen :: if decide (g = agen) then vals_merge d xs ys else xs)) as E.
    { simpl. unfold gen_of. simpl. rewrite (proj2 (Z.ltb_ge agen g)) by lia. simpl.
      destruct (decide (g = agen)) as [-> |]; [by rewrite Z.ltb_irrefl|by rewrite (proj2 (Z.ltb_lt g agen)) by lia]. }
    cbn [foldl]. rewrite E, IH by (case_decide; [by apply vals_merge_ok|done]). f_equal. f_equal.
    unfold current. rewrite filter_cons. change (gen_of (g :: ys)) with g. case_decide; [|done].
    unfold merge_all at 2. simpl. rewrite vals_merge_assoc; [done|done|done|done|].
    by apply merge_all_ok, current_ok.
Qed.

(** From older data, the first newer data starts afresh. *)
Lemma absorb_stale ls g xs : Forall (data_ok d agen) ls -> g < agen -> vals_ok d xs -> current agen ls <> [] ->
  foldl (absorb d agen) (Some (g :: xs)) ls = Some (agen :: merge_all d (current agen ls)).
Proof.
  intros Hls Hg. revert xs. induction Hls as [|l ls (g' & ys & -> & Hy & Hg') Hls IH]; intros xs Hx Hne; [done|].
  pose proof (merge_all_ok _ (current_ok ls Hls)) as Hm.
  unfold current in Hne |- *. rewrite filter_cons in Hne |- *. change (gen_of (g' :: ys)) with g' in *.
  fold (current agen ls) in Hne |- *. cbn [foldl]. unfold absorb at 2, gen_of. simpl head. simpl default. simpl tail.
  destruct (Z.ltb_spec g g').
  - simpl. destruct (decide (g' = agen)) as [-> |].
    + rewrite Z.ltb_irrefl, vals_unit_l by done. by rewrite absorb_current.
    + rewrite (proj2 (Z.ltb_lt g' agen)) by lia. rewrite absorb_current by (done || by apply vals_unit_ok).
      by rewrite vals_unit_l.
  - rewrite decide_False in Hne |- * by lia. simpl. destruct (Z.ltb_spec g' g); [by apply IH|].
    apply IH; [by apply vals_merge_ok|done].
Qed.

(** A new entry. *)
Lemma absorb_new ls : Forall (data_ok d agen) ls -> current agen ls <> [] ->
  foldl (absorb d agen) None ls = Some (agen :: merge_all d (current agen ls)).
Proof.
  intros Hls. destruct Hls as [|l ls (g & ys & -> & Hy & Hg) Hls]; intros Hne; [done|]. cbn [foldl].
  unfold current in Hne |- *. rewrite filter_cons in Hne |- *. change (gen_of (g :: ys)) with g in *.
  change (absorb d agen None (g :: ys)) with (Some (g :: ys)). case_decide as Hc.
  - subst g. by rewrite absorb_current.
  - apply absorb_stale; [done|lia|done|done].
Qed.
End Absorb.

(** The merge does not depend on the order. *)
Lemma merge_all_perm d agen ls ls' : desc_ok d -> ls ≡ₚ ls' -> Forall (data_ok d agen) ls ->
  merge_all d ls = merge_all d ls'.
Proof.
  intros Hd Hp. induction Hp as [|l ls ls' Hp IH|l l' ls|ls ls' ls'' Hp IH Hp' IH']; intros Hls; [done| | |].
  - apply Forall_cons in Hls as [_ Hls]. unfold merge_all in *. simpl. by rewrite IH.
  - apply Forall_cons in Hls as [(g & xs & -> & Hx & _) [(g' & ys & -> & Hy & _) Hls]%Forall_cons].
    pose proof (merge_all_ok d Hd agen ls Hls) as Hm. unfold merge_all in *. simpl.
    rewrite !vals_merge_assoc by done. f_equal. by apply vals_merge_comm.
  - rewrite IH by done. apply IH'. by rewrite <- Hp.
Qed.

(** ** The table *)

Section Table.
Implicit Types a : ahash.

(** The chains and the list of all hold the entries, each in its chain, and no
    two entries have the same description and key. *)
Record ah_wf a : Prop := {
  wf_size : (0 < length (ah_hash a))%nat;
  wf_chain hval id : id ∈ ah_chain a hval ->
    exists e, ah_ents a !! id = Some e /\ ah_ndx a (he_hval e) = ah_ndx a hval;
  wf_ent id e : ah_ents a !! id = Some e -> he_hval e = he_desc e /\ id ∈ ah_chain a (he_hval e);
  wf_uniq id id' e e' : ah_ents a !! id = Some e -> ah_ents a !! id' = Some e' ->
    he_desc e = he_desc e' -> he_key e = he_key e' -> id = id';
  wf_all id : id ∈ ah_all a <-> is_Some (ah_ents a !! id);
  wf_nodup : NoDup (ah_all a);
  wf_chain_nodup hval : NoDup (ah_chain a hval)
}.

Lemma ent_matches_true aggid k e : ent_matches aggid k e = true <-> he_hval e = aggid /\ he_desc e = aggid /\ he_key e = k.
Proof.
  unfold ent_matches. rewrite !andb_true_iff, !Z.eqb_eq, bool_decide_eq_true. tauto.
Qed.

Lemma chain_find_Some ents chain aggid k id e : chain_find ents chain aggid k = Some (id, e) ->
  id ∈ chain /\ ents !! id = Some e /\ ent_matches aggid k e = true.
Proof.
  induction chain as [|id' chain IH]; simpl; [done|].
  destruct (ents !! id') as [e'|] eqn:E; [destruct (ent_matches aggid k e') eqn:Em|].
  - intros [= -> ->]. split; [by left|done].
  - intros (? & ? & ?)%IH. split; [by right|done].
  - intros (? & ? & ?)%IH. split; [by right|done].
Qed.

Lemma chain_find_None ents chain aggid k : chain_find ents chain aggid k = None ->
  forall id e, id ∈ chain -> ents !! id = Some e -> ent_matches aggid k e = false.
Proof.
  induction chain as [|id' chain IH]; simpl; intros Hf id e; [by intros ?%not_elem_of_nil|].
  intros [-> |Hin]%elem_of_cons E.
  - rewrite E in Hf. by destruct (ent_matches aggid k e).
  - destruct (ents !! id') as [e'|]; [destruct (ent_matches aggid k e'); [done|]|]; by apply (IH Hf id e).
Qed.

(** The search finds the entry, if there is one. *)
Lemma ah_find_Some a aggid k id e : ah_wf a ->
  ah_find a aggid k = Some (id, e) <-> ah_ents a !! id = Some e /\ he_desc e = aggid /\ he_key e = k.
Proof.
  intros Hwf. split.
  - intros (_ & E & (_ & ? & ?)%ent_matches_true)%chain_find_Some. done.
  - intros (E & Hdesc & Hkey). destruct (wf_ent a Hwf id e E) as [Hh Hin]. unfold ah_find.
    destruct (chain_find _ _ aggid k) as [[id' e']|] eqn:Hf.
    + apply chain_find_Some in Hf as (_ & E' & (_ & ? & ?)%ent_matches_true).
      assert (id' = id) as -> by (apply (wf_uniq a Hwf id' id e' e); congruence). congruence.
    + exfalso. rewrite Hh, Hdesc in Hin. pose proof (chain_find_None _ _ _ _ Hf id e Hin E) as Hm.
      assert (ent_matches aggid k e = true) as Hm' by (apply ent_matches_true; intuition congruence). congruence.
Qed.

(** The data of an entry, by aggregation and key. *)
Definition ah_data a (aggid : Z) (k : aggkey) : option aggdata := he_data ∘ snd <$> ah_find a aggid k.

Lemma ah_data_Some a aggid k l : ah_wf a ->
  ah_data a aggid k = Some l <-> exists id e, ah_ents a !! id = Some e /\ he_desc e = aggid /\ he_key e = k /\ he_data e = l.
Proof.
  intros Hwf. unfold ah_data. rewrite fmap_Some. split.
  - intros ([id e] & Hf & ->). apply ah_find_Some in Hf as (? & ? & ?); [|done]. by exists id, e.
  - intros (id & e & ? & ? & ? & <-). exists (id, e). split; [by apply ah_find_Some|done].
Qed.

(** Entries with the same place. *)
Definition same_place (e e' : ahashent) : Prop := he_hval e' = he_hval e /\ he_desc e' = he_desc e /\ he_key e' = he_key e.

Lemma ah_set_wf a id e e' : ah_wf a -> ah_ents a !! id = Some e -> same_place e e' -> ah_wf (ah_set a id e').
Proof.
  intros Hwf E (Hh & Hds & Hk). destruct Hwf as [Hsz Hch Hen Huq Hall Hnd Hcn].
  assert (forall i x, <[id := e']> (ah_ents a) !! i = Some x ->
    exists x0, ah_ents a !! i = Some x0 /\ he_hval x = he_hval x0 /\ he_desc x = he_desc x0 /\ he_key x = he_key x0) as Hl.
  { intros i x [[-> ->]|[Hne ?]]%lookup_insert_Some; [by exists e|by exists x]. }
  split; cbn [ah_ents ah_set ah_hash ah_all]; [done| | | | |done|exact Hcn].
  - intros hval i Hin. destruct (Hch hval i Hin) as (x & Ex & Hx). destruct (decide (i = id)) as [-> |].
    + exists e'. rewrite lookup_insert_eq. split; [done|]. rewrite Hh. simplify_eq. exact Hx.
    + exists x. by rewrite lookup_insert_ne.
  - intros i x Hx. apply Hl in Hx as (x0 & E0 & E1 & E2 & _). rewrite E1, E2. exact (Hen i x0 E0).
  - intros i j x y Hx Hy. apply Hl in Hx as (x0 & E0 & _ & Ed & Ek), Hy as (y0 & F0 & _ & Fd & Fk).
    rewrite Ed, Fd, Ek, Fk. by apply Huq.
  - intros i. rewrite Hall. destruct (decide (i = id)) as [-> |]; [|by rewrite lookup_insert_ne].
    rewrite lookup_insert_eq, E. split; by eexists.
Qed.

Lemma ah_set_data a id e e' aggid k : ah_wf a -> ah_ents a !! id = Some e -> same_place e e' ->
  ah_data (ah_set a id e') aggid k =
  if decide (he_desc e = aggid /\ he_key e = k) then Some (he_data e') else ah_data a aggid k.
Proof.
  intros Hwf E Hs. pose proof (ah_set_wf a id e e' Hwf E Hs) as Hwf'. destruct Hs as (Hh & Hds & Hk).
  destruct (decide (he_desc e = aggid /\ he_key e = k)) as [[Hd' Hk']|Hne].
  - apply ah_data_Some; [done|]. exists id, e'. simpl. rewrite lookup_insert_eq. repeat split; congruence.
  - apply option_eq. intros l. rewrite !ah_data_Some by done. split; intros (i & x & Ex & Hdx & Hkx & Hx); exists i, x.
    + simpl in Ex. apply lookup_insert_Some in Ex as [[-> ->]|[Hni Ex]]; [|done].
      exfalso. apply Hne. split; congruence.
    + simpl. rewrite lookup_insert_ne; [done|]. intros ->. apply Hne. simplify_eq. done.
Qed.

Lemma ah_insert_data a e aggid k : ah_wf a -> ah_find a (he_desc e) (he_key e) = None -> he_hval e = he_desc e ->
  ah_wf (ah_insert a e) /\
  ah_data (ah_insert a e) aggid k =
    if decide (he_desc e = aggid /\ he_key e = k) then Some (he_data e) else ah_data a aggid k.
Proof.
  intros Hwf Hnone Hh. set (id := fresh (dom (ah_ents a))).
  assert (ah_ents a !! id = None) as Hid by (apply not_elem_of_dom, is_fresh).
  assert (forall hval, ah_ndx (ah_insert a e) hval = ah_ndx a hval) as Hndx
    by (intros hval; unfold ah_ndx; simpl; by rewrite length_insert).
  assert (ah_ndx a (he_hval e) < length (ah_hash a))%nat as Hlt.
  { unfold ah_ndx. pose proof (wf_size a Hwf). pose proof (Z.mod_pos_bound (he_hval e) (Z.of_nat (length (ah_hash a))) ltac:(lia)). lia. }
  assert (forall hval, ah_chain (ah_insert a e) hval =
    if decide (ah_ndx a hval = ah_ndx a (he_hval e)) then id :: ah_chain a hval else ah_chain a hval) as Hchain.
  { intros hval. unfold ah_chain at 1. rewrite Hndx. simpl. case_decide as Hc.
    - rewrite Hc, list_lookup_insert_eq by done. simpl. unfold ah_chain. by rewrite Hc.
    - by rewrite list_lookup_insert_ne. }
  assert (ah_wf (ah_insert a e)) as Hwf'.
  { pose proof Hwf as [Hsz Hch Hen Huq Hall Hnd Hcn]. split.
    - simpl. by rewrite length_insert.
    - intros hval i. rewrite Hchain. intros Hin. setoid_rewrite Hndx. change (ah_ents (ah_insert a e)) with (<[id := e]> (ah_ents a)).
      assert ((i = id /\ ah_ndx a hval = ah_ndx a (he_hval e)) \/ i ∈ ah_chain a hval) as [[-> Hn]|Hin'].
      { case_decide; [|by right]. apply elem_of_cons in Hin as [-> |]; [by left|by right]. }
      + exists e. by rewrite lookup_insert_eq.
      + destruct (Hch hval i Hin') as (x & Ex & Hx). exists x. rewrite lookup_insert_ne; [done|]. intros <-. congruence.
    - intros i x Hx. rewrite Hchain. change (ah_ents (ah_insert a e)) with (<[id := e]> (ah_ents a)) in Hx.
      apply lookup_insert_Some in Hx as [[<- <-]|[Hne Hx]].
      + split; [done|]. rewrite decide_True by done. by left.
      + destruct (Hen i x Hx) as [? ?]. split; [done|]. case_decide; [by right|done].
    - intros i j x y Hx Hy Hd' Hk'. change (ah_ents (ah_insert a e)) with (<[id := e]> (ah_ents a)) in Hx, Hy.
      assert (forall i' x', ah_ents a !! i' = Some x' -> he_desc x' = he_desc e -> he_key x' = he_key e -> False) as Hno.
      { intros i' x' E' Ed Ek. assert (ah_find a (he_desc e) (he_key e) = Some (i', x')); [|congruence].
        by apply ah_find_Some. }
      apply lookup_insert_Some in Hx as [[<- <-]|[? Hx]], Hy as [[<- <-]|[? Hy]]; [done| | |].
      + exfalso. by apply (Hno j y).
      + exfalso. by apply (Hno i x).
      + by apply (Huq i j x y).
    - intros i. change (ah_all (ah_insert a e)) with (id :: ah_all a).
      change (ah_ents (ah_insert a e)) with (<[id := e]> (ah_ents a)).
      rewrite elem_of_cons, Hall. destruct (decide (i = id)) as [-> |Hne].
      + rewrite lookup_insert_eq. split; [by eexists|by left].
      + rewrite lookup_insert_ne by done. split; [intros [|]; done|by right].
    - change (ah_all (ah_insert a e)) with (id :: ah_all a). constructor; [|done]. rewrite Hall. rewrite Hid. by intros [].
    - intros hval. rewrite Hchain. case_decide; [|apply Hcn]. constructor; [|apply Hcn].
      intros (x & Ex & _)%Hch. congruence. }
  split; [done|]. destruct (decide (he_desc e = aggid /\ he_key e = k)) as [[Hd' Hk']|Hne].
  - apply ah_data_Some; [done|]. exists id, e. simpl. by rewrite lookup_insert_eq.
  - apply option_eq. intros l. rewrite !ah_data_Some by done.
    change (ah_ents (ah_insert a e)) with (<[id := e]> (ah_ents a)).
    split; intros (i & x & Ex & Hdx & Hkx & Hx); exists i, x.
    + apply lookup_insert_Some in Ex as [[<- <-]|[Hni Ex]]; [|done]. exfalso. by apply Hne.
    + rewrite lookup_insert_ne; [done|]. intros <-. congruence.
Qed.

Lemma elem_of_remove_one (x y : nat) l : NoDup l -> x ∈ remove_one y l <-> x ∈ l /\ x <> y.
Proof.
  induction 1 as [|z l Hz Hnd IH]; simpl; [set_solver|]. case_decide as Hc; [subst z|]; set_solver.
Qed.

Lemma NoDup_remove_one (y : nat) l : NoDup l -> NoDup (remove_one y l).
Proof.
  induction 1 as [|z l Hz Hnd IH]; simpl; [constructor|]. case_decide; [done|]. constructor; [|done].
  rewrite elem_of_remove_one by done. tauto.
Qed.

(** Removing an entry keeps the table and removes that entry's data alone. *)
Lemma ah_remove_data a id e aggid k : ah_wf a -> ah_ents a !! id = Some e ->
  ah_wf (ah_remove a id e) /\
  ah_data (ah_remove a id e) aggid k = if decide (he_desc e = aggid /\ he_key e = k) then None else ah_data a aggid k.
Proof.
  intros Hwf E. pose proof Hwf as [Hsz Hch Hen Huq Hall Hnd Hcn].
  assert (forall hval, ah_ndx (ah_remove a id e) hval = ah_ndx a hval) as Hndx
    by (intros hval; unfold ah_ndx; simpl; by rewrite length_insert).
  assert (ah_ndx a (he_hval e) < length (ah_hash a))%nat as Hlt.
  { unfold ah_ndx. pose proof (Z.mod_pos_bound (he_hval e) (Z.of_nat (length (ah_hash a))) ltac:(lia)). lia. }
  assert (forall hval, ah_chain (ah_remove a id e) hval =
    if decide (ah_ndx a hval = ah_ndx a (he_hval e)) then remove_one id (ah_chain a hval) else ah_chain a hval) as Hchain.
  { intros hval. unfold ah_chain at 1. rewrite Hndx. simpl. case_decide as Hc.
    - rewrite Hc, list_lookup_insert_eq by done. simpl. unfold ah_chain. by rewrite Hc.
    - by rewrite list_lookup_insert_ne. }
  assert (forall hval i, i ∈ ah_chain (ah_remove a id e) hval <-> i ∈ ah_chain a hval /\ i <> id) as Hin.
  { intros hval i. rewrite Hchain. case_decide as Hc; [by rewrite elem_of_remove_one|]. split; [|tauto].
    intros Hi. split; [done|]. intros ->. destruct (Hch hval id Hi) as (e' & E' & Hn). rewrite E in E'. injection E' as <-. by apply Hc. }
  assert (forall i x, ah_ents (ah_remove a id e) !! i = Some x <-> i <> id /\ ah_ents a !! i = Some x) as Hl.
  { intros i x. simpl. rewrite lookup_delete_Some. split; intros [? ?]; split; congruence. }
  assert (ah_wf (ah_remove a id e)) as Hwf'.
  { split.
    - simpl. by rewrite length_insert.
    - intros hval i [Hi Hne]%Hin. destruct (Hch hval i Hi) as (x & Ex & Hx). exists x. rewrite !Hndx. split; [by apply Hl|done].
    - intros i x [Hne Ex]%Hl. rewrite Hin. destruct (Hen i x Ex). done.
    - intros i j x y [_ Ex]%Hl [_ Ey]%Hl. by apply Huq.
    - intros i. change (ah_all (ah_remove a id e)) with (remove_one id (ah_all a)). rewrite elem_of_remove_one, Hall by done.
      split; [intros [[x Ex] Hne]; exists x; by apply Hl|intros [x [Hne Ex]%Hl]; split; [by exists x|done]].
    - by apply NoDup_remove_one.
    - intros hval. rewrite Hchain. case_decide; [by apply NoDup_remove_one|done]. }
  split; [done|]. destruct (decide (he_desc e = aggid /\ he_key e = k)) as [[Hd Hk]|Hne].
  - apply eq_None_not_Some. intros [l (i & x & [Hne Ex]%Hl & Hdx & Hkx & _)%ah_data_Some]; [|done].
    apply Hne. apply (Huq i id x e); congruence.
  - apply option_eq. intros l. rewrite !ah_data_Some by done. split; intros (i & x & Ex & Hdx & Hkx & Hx); exists i, x.
    + by apply Hl in Ex as [_ Ex].
    + split; [|done]. apply Hl. split; [|done]. intros ->. simplify_eq. by apply Hne.
Qed.
End Table.

(** ** The handle *)

Section Handle.
Implicit Types (h : agg_hdl) (a : ahash).

(** A change of the data of every entry. *)
Lemma ah_map_data a a' (f : ahashent -> ahashent) : ah_wf a -> ah_hash a' = ah_hash a -> ah_all a' = ah_all a ->
  (forall i, ah_ents a' !! i = f <$> ah_ents a !! i) -> (forall e, same_place e (f e)) ->
  ah_wf a' /\ forall aggid k, ah_data a' aggid k = (λ p, he_data (f (snd p))) <$> ah_find a aggid k.
Proof.
  intros Hwf Eh Ea He Hs.
  assert (forall i x, ah_ents a' !! i = Some x <-> exists e, ah_ents a !! i = Some e /\ x = f e) as Hl
    by (intros i x; rewrite He, fmap_Some; done).
  assert (forall hv, ah_ndx a' hv = ah_ndx a hv) as Hndx by (intros; unfold ah_ndx; by rewrite Eh).
  assert (forall hv, ah_chain a' hv = ah_chain a hv) as Hch by (intros; unfold ah_chain; by rewrite Eh, Hndx).
  assert (ah_wf a') as Hwf'.
  { pose proof Hwf as [Hsz Hc Hen Huq Hall Hnd Hcn]. split.
    - by rewrite Eh.
    - intros hv i. rewrite Hch. intros (e & E & Hn)%Hc. exists (f e). rewrite !Hndx, (proj1 (Hs e)). split; [|done].
      apply Hl. by exists e.
    - intros i x (e & E & ->)%Hl. destruct (Hs e) as (-> & -> & _). rewrite Hch. by apply Hen.
    - intros i j x y (e & E & ->)%Hl (e' & E' & ->)%Hl. destruct (Hs e) as (_ & -> & ->), (Hs e') as (_ & -> & ->). by apply Huq.
    - intros i. rewrite Ea, Hall, He. by rewrite fmap_is_Some.
    - by rewrite Ea.
    - intros hv. rewrite Hch. apply Hcn. }
  split; [done|]. intros aggid k. apply option_eq. intros l. rewrite ah_data_Some by done. rewrite fmap_Some. split.
  - intros (i & x & (e & E & ->)%Hl & Hd & Hk & <-). exists (i, e). split; [|done].
    apply ah_find_Some; [done|]. destruct (Hs e) as (_ & <- & <-). done.
  - intros ([i e] & (E & Hd & Hk)%ah_find_Some & ->); [|done]. exists i, (f e). destruct (Hs e) as (_ & -> & ->).
    split; [apply Hl; by exists e|done].
Qed.

(** The walk that clears. *)
Definition cleared h (aid : Z) (e : ahashent) : ahashent := snd (fst (clear_func h aid e ())).

Lemma cleared_place h aid e : same_place e (cleared h aid e).
Proof.
  unfold cleared, clear_func. simpl. destruct (dt_adesc h !! he_desc e); [|done].
  unfold dt_aggregate_clear_one. by destruct (_ && _).
Qed.

Lemma walk_clear h aid ids a : NoDup ids ->
  exists a', walk_ids (clear_func h aid) ids a () = Ok (a', [], ()) /\ ah_hash a' = ah_hash a /\ ah_all a' = ah_all a /\
    forall i, ah_ents a' !! i = (if decide (i ∈ ids) then cleared h aid else id) <$> ah_ents a !! i.
Proof.
  intros Hnd. revert a. induction Hnd as [|i ids Hi Hnd IH]; intros a.
  - exists a. split; [done|]. split; [done|]. split; [done|]. intros i. by rewrite decide_False, option_fmap_id by apply not_elem_of_nil.
  - cbn [walk_ids]. destruct (ah_ents a !! i) as [e|] eqn:E.
    + destruct (IH (ah_set a i (cleared h aid e))) as (a' & Hw & Eh & Ea & He). exists a'.
      split; [|split; [done|split; [done|]]].
      * simpl. unfold cleared in Hw. simpl in Hw. by rewrite Hw.
      * intros j. rewrite He. cbn [ah_ents ah_set]. destruct (decide (j = i)) as [-> |Hne].
        -- rewrite lookup_insert_eq, E. rewrite decide_False, decide_True by (done || by left). done.
        -- rewrite lookup_insert_ne by done. destruct (decide (j ∈ ids)).
           ++ by rewrite decide_True by (by right).
           ++ rewrite decide_False; [done|]. by intros [|]%elem_of_cons.
    + destruct (IH a) as (a' & Hw & Eh & Ea & He). exists a'. split; [done|]. split; [done|]. split; [done|].
      intros j. rewrite He. destruct (decide (j = i)) as [-> |Hne]; [by rewrite E|].
      destruct (decide (j ∈ ids)); [by rewrite decide_True by (by right)|].
      rewrite decide_False; [done|]. by intros [|]%elem_of_cons.
Qed.

(** Every entry belongs to a description and its data has its shape. *)
Definition ent_ok h (e : ahashent) : Prop :=
  fst (he_key e) = he_desc e /\
  exists d g xs, dt_adesc h !! he_desc e = Some d /\ he_data e = g :: xs /\ vals_ok d xs.

Record hdl_ok h : Prop := {
  ok_wf : ah_wf (dtat_hash h);
  ok_ents id e : ah_ents (dtat_hash h) !! id = Some e -> ent_ok h e;
  ok_desc aggid d : dt_adesc h !! aggid = Some d -> desc_ok d
}.

Definition gen_now h (aggid : Z) : Z := default 0 (dt_genmap h !! aggid).

(** Everything but the table. *)
Definition same_env h h' : Prop := h' = set_hash h (dtat_hash h').

(** The entries start a snapshot with no data of the current generation. *)
Lemma clear_ok h : hdl_ok h ->
  let h' := dtrace_aggregate_clear h in
  hdl_ok h' /\ same_env h h' /\
  forall aggid k d, dt_adesc h !! aggid = Some d ->
    ah_data (dtat_hash h') aggid k = (λ _, gen_now h aggid :: vals_unit d) <$> ah_data (dtat_hash h) aggid k.
Proof.
  intros [Hwf Hents Hdesc]. unfold dtrace_aggregate_clear, dtrace_aggregate_walk.
  destruct (walk_clear h DTRACE_AGGVARIDNONE (ah_all (dtat_hash h)) (dtat_hash h) (wf_nodup _ Hwf)) as (a' & -> & Eh & Ea & He).
  cbv zeta. cbn [dtat_hash set_hash].
  assert (forall i, ah_ents a' !! i = cleared h 0 <$> ah_ents (dtat_hash h) !! i) as He'.
  { intros i. rewrite He. destruct (ah_ents (dtat_hash h) !! i) as [e|] eqn:E; [|done].
    rewrite decide_True; [done|]. apply (wf_all _ Hwf). by eexists. }
  destruct (ah_map_data _ a' _ Hwf Eh Ea He' (cleared_place h 0)) as [Hwf' Hd].
  assert (forall e, ent_ok h e -> forall d, dt_adesc h !! he_desc e = Some d ->
    he_data (cleared h 0 e) = gen_now h (he_desc e) :: vals_unit d) as Hdata.
  { intros e (Hk & d & g & xs & Ed & El & Hv) d' Ed'. unfold cleared, clear_func. simpl. rewrite Ed' in *.
    injection Ed as ->. unfold dt_aggregate_clear_one. simpl. rewrite Hk, El. simpl.
    apply clear_vals_unit; [by apply (Hdesc (he_desc e))|apply Hv]. }
  split; [split|split; [done|]].
  - done.
  - intros id e Ex. cbn [dtat_hash set_hash] in Ex. rewrite He' in Ex. apply fmap_Some in Ex as (e0 & E0 & ->).
    pose proof (Hents id e0 E0) as Hok. pose proof Hok as (Hk & d & g & xs & Ed & El & Hv).
    destruct (cleared_place h 0 e0) as (_ & Hp1 & Hp2). split; [by rewrite Hp1, Hp2|].
    exists d, (gen_now h (he_desc e0)), (vals_unit d). rewrite Hp1. split; [done|]. split; [by apply Hdata|].
    apply vals_unit_ok. by apply (Hdesc (he_desc e0)).
  - done.
  - intros aggid k d Ed. rewrite Hd. unfold ah_data. rewrite <- option_fmap_compose.
    destruct (ah_find (dtat_hash h) aggid k) as [[i e]|] eqn:Hf; [|done]. simpl. f_equal.
    apply ah_find_Some in Hf as (E & <- & _); [|done]. apply Hdata; [by apply (Hents i)|done].
Qed.
End Handle.

(** ** The snapshot, step by step *)

Lemma plenty_more m n k : plenty m (n + k) -> exists m', foldl (λ (s : bool * allocs) (_ : nat), if fst s then malloc (snd s) else s)
    (true, m) (seq 0 n) = (true, m') /\ plenty m' k.
Proof.
  generalize 0%nat. revert m. induction n as [|n IH]; intros m s0 Hp; [by exists m|].
  destruct (plenty_malloc m (n + k) Hp) as (m' & Em & Hp'). simpl. rewrite Em. by apply IH.
Qed.

Lemma gen_of_lookup (l : aggdata) : default 0 (l !! O) = gen_of l.
Proof. by destruct l. Qed.

(** The fields of the handle that the snapshot only reads. *)
Lemma same_env_refl h : same_env h h.
Proof. by destruct h. Qed.
Lemma same_env_trans h1 h2 h3 : same_env h1 h2 -> same_env h2 h3 -> same_env h1 h3.
Proof. unfold same_env. intros E1 E2. rewrite E2. by rewrite E1. Qed.
Lemma same_env_set h h' a : same_env h h' -> same_env h (set_hash h' a).
Proof. unfold same_env. intros E. by rewrite E. Qed.
Lemma same_env_adesc h h' : same_env h h' -> dt_adesc h' = dt_adesc h.
Proof. intros ->. done. Qed.
Lemma same_env_gen h h' aggid : same_env h h' -> gen_now h' aggid = gen_now h aggid.
Proof. intros ->. done. Qed.
Lemma same_env_max h h' : same_env h h' -> dt_max_cpuid h' = dt_max_cpuid h.
Proof. intros ->. done. Qed.
#[local] Hint Resolve same_env_refl same_env_set : core.

Section SnapSpec.
Context (reduce : aggdesc -> aggkey -> aggkey) (junk : aggdata) (cpudrops : Z -> Z).
Hypothesis reduce_id : forall d k, fst (reduce d k) = fst k.

(** Allocations that adding one datum may need. *)
Definition need h : nat := 5 + dt_max_cpuid h.

(** The data of a CPU has no generation, or the shape of its description. *)
Definition item_ok h (key : aggkey) (data : aggdata) : Prop :=
  gen_of data = 0 \/ exists d, dt_adesc h !! fst key = Some d /\ data_ok d (gen_now h (fst key)) data.

(** Whether the datum counts for the entry of [aggid] and [k]. *)
Definition counts h (aggid : Z) (k : aggkey) (key : aggkey) (data : aggdata) : bool :=
  negb (gen_of data =? 0) && (fst key =? aggid) &&
  match dt_adesc h !! aggid with Some d => bool_decide (key_prefix d (reduce d key) = k) | None => false end.

Definition absorb_at h (aggid : Z) (o : option aggdata) (l : aggdata) : option aggdata :=
  match dt_adesc h !! aggid with Some d => absorb d (gen_now h aggid) o l | None => o end.

Lemma percpu_ok h d cpu data m k : plenty m (2 + dt_max_cpuid h + k) ->
  exists r m', (if flag (dtat_flags h) DTRACE_A_PERCPU then
     let '(r, m) := new_percpu junk (S (dt_max_cpuid h)) d cpu data m in
     (match r with Ok pc => Ok (Some pc) | Err e => Err e end, m) else (Ok None, m)) = (Ok (E := agg_error) r, m')
   /\ plenty m' k.
Proof.
  intros Hp. destruct (flag _ _).
  - unfold new_percpu. destruct (plenty_malloc m _ Hp) as (m1 & -> & Hp1). cbn [negb].
    destruct (plenty_more m1 (S (dt_max_cpuid h)) k) as (m2 & -> & ?); [exact Hp1|]. by eexists _, _.
  - eexists _, _. split; [done|]. apply (plenty_le m _ k Hp). lia.
Qed.

(** The data of an entry that was found. *)
Lemma absorb_found h d e data : hdl_ok h -> ent_ok h e -> dt_adesc h !! he_desc e = Some d ->
  data_ok d (gen_now h (he_desc e)) data ->
  let e1 := if default 0 (he_data e !! O) <? gen_of data
            then dt_aggregate_clear_one (dt_genmap h) DTRACE_AGGVARIDNONE d e else e in
  same_place e e1 /\ exists l, absorb d (gen_now h (he_desc e)) (Some (he_data e)) data = Some l /\
    l = (if gen_of data <? default 0 (he_data e1 !! O) then he_data e1 else dt_agg_one_agg d (he_data e1) data) /\
    exists g xs, l = g :: xs /\ vals_ok d xs.
Proof.
  intros Hok (Hk & d' & g & xs & Ed & El & Hv) Ed' (g' & ys & -> & Hy & Hg). rewrite Ed' in Ed. injection Ed as <-.
  pose proof (ok_desc h Hok _ _ Ed') as Hd. rewrite !gen_of_lookup, El. change (gen_of (g :: xs)) with g.
  change (gen_of (g' :: ys)) with g'. cbn [absorb]. change (gen_of (g :: xs)) with g. change (gen_of (g' :: ys)) with g'.
  assert (exists ex, (if g <? g' then dt_aggregate_clear_one (dt_genmap h) DTRACE_AGGVARIDNONE d e else e) = ex /\
     same_place e ex /\ exists g1 xs1, he_data ex = g1 :: xs1 /\ vals_ok d xs1 /\
       (if g <? g' then gen_now h (he_desc e) :: vals_unit d else g :: xs) = g1 :: xs1) as (ex & -> & Hs & g1 & xs1 & E1 & Hv1 & ->).
  { eexists. split; [reflexivity|]. destruct (g <? g').
    - unfold dt_aggregate_clear_one. simpl. split; [done|]. exists (gen_now h (he_desc e)), (vals_unit d).
      rewrite Hk, El. simpl. split; [by apply clear_vals_unit; [|apply Hv]|]. split; [by apply vals_unit_ok|done].
    - split; [done|]. by exists g, xs. }
  split; [done|]. rewrite !gen_of_lookup, E1. change (gen_of (g1 :: xs1)) with g1. change (vals_of (g1 :: xs1)) with xs1.
  change (vals_of (g' :: ys)) with ys. eexists. split; [reflexivity|]. destruct (g' <? g1).
  - split; [done|]. by exists g1, xs1.
  - rewrite one_agg_merge by done. split; [done|]. eexists _, _. split; [reflexivity|]. by apply vals_merge_ok.
Qed.

Lemma set_hash_ok h a : hdl_ok h -> ah_wf a -> (forall id e, ah_ents a !! id = Some e -> ent_ok h e) -> hdl_ok (set_hash h a).
Proof. intros [_ _ Hd] Hwf He. split; [done| |done]. intros id e E. by apply (He id e E). Qed.

Lemma ah_set_set a id e e' : ah_set (ah_set a id e) id e' = ah_set a id e'.
Proof. unfold ah_set. simpl. by rewrite insert_insert_eq. Qed.

Lemma snap_one_ok h key data cpu m n : hdl_ok h -> item_ok h key data -> plenty m (need h + n) ->
  exists h' m', dt_aggregate_snap_one reduce junk (fst key) cpu key data h m = (None, h', m') /\ plenty m' n /\
    hdl_ok h' /\ same_env h h' /\
    forall aggid k, ah_data (dtat_hash h') aggid k =
      if counts h aggid k key data then absorb_at h aggid (ah_data (dtat_hash h) aggid k) data
      else ah_data (dtat_hash h) aggid k.
Proof.
  intros Hok Hitem Hm. pose proof (ok_wf h Hok) as Hwf. unfold dt_aggregate_snap_one. rewrite gen_of_lookup. unfold counts.
  destruct Hitem as [E0|(d & Ed & Hdata)].
  { rewrite E0. exists h, m. split; [done|]. split; [apply (plenty_le m _ n Hm); lia|]. done. }
  assert (gen_of data <> 0) as Hg by (destruct Hdata as (g & xs & -> & _ & ?); unfold gen_of; simpl; lia).
  rewrite (proj2 (Z.eqb_neq _ _) Hg), Ed. cbn [negb andb].
  set (k0 := key_prefix d (reduce d key)).
  assert (fst k0 = fst key) as Hk0 by (unfold k0, key_prefix; simpl; apply reduce_id).
  assert (forall aggid k (x y : option aggdata),
    (if (fst key =? aggid) && match dt_adesc h !! aggid with Some d => bool_decide (key_prefix d (reduce d key) = k) | None => false end
     then x else y) = if decide (fst key = aggid /\ k0 = k) then x else y) as Hif.
  { intros aggid k x y. destruct (Z.eqb_spec (fst key) aggid) as [<- |]; cbn [andb].
    - rewrite Ed. fold k0. unfold bool_decide. repeat case_decide; try done; tauto.
    - rewrite decide_False; [done|]. tauto. }
  destruct (ah_find (dtat_hash h) (fst key) k0) as [[id e]|] eqn:Hf.
  - pose proof Hf as (E & Hdesc & Hkey)%ah_find_Some; [|done]. pose proof (ok_ents h Hok id e E) as Hent.
    destruct (absorb_found h d e data Hok Hent) as (Hs & l & Habs & El & g' & xs' & Eg & Hv); [by rewrite Hdesc|by rewrite Hdesc|].
    set (e1 := if default 0 (he_data e !! O) <? gen_of data then _ else e) in *. rewrite gen_of_lookup in *.
    assert (exists e2 m', (if gen_of data <? gen_of (he_data e1) then (None, set_hash h (ah_set (dtat_hash h) id e1), m)
      else (None, set_hash h (ah_set (ah_set (dtat_hash h) id e1) id (Ent (he_hval e1) (he_desc e1) (he_key e1)
            (dt_agg_one_agg d (he_data e1) data) ((λ pc, alter (λ dst, dt_agg_one_agg d dst data) cpu pc) <$> he_percpu e1))), m))
      = (None : option agg_error, set_hash h (ah_set (dtat_hash h) id e2), m') /\ m' = m /\ same_place e e2 /\ he_data e2 = l)
      as (e2 & m' & -> & -> & Hs2 & El2).
    { destruct Hs as (? & ? & ?). destruct (gen_of data <? gen_of (he_data e1)).
      - by exists e1, m.
      - rewrite ah_set_set. by eexists _, m. }
    eexists _, m. split; [reflexivity|]. split; [apply (plenty_le m _ n Hm); lia|].
    pose proof (ah_set_wf _ id e e2 Hwf E Hs2) as Hwf2.
    split; [|split; [by apply same_env_set|]].
    + apply set_hash_ok; [done|done|]. intros i x Hx. cbn [ah_ents ah_set] in Hx.
      apply lookup_insert_Some in Hx as [[<- <-]|[_ Hx]]; [|by apply (ok_ents h Hok i)].
      destruct Hs2 as (_ & Hs2d & Hs2k). destruct Hent as [Hk _]. split; [by rewrite Hs2d, Hs2k|].
      exists d, g', xs'. rewrite Hs2d, Hdesc. split; [done|]. split; [by rewrite El2|done].
    + intros aggid k. cbn [dtat_hash set_hash]. rewrite (ah_set_data _ id e e2) by done. rewrite Hif, Hdesc, Hkey.
      destruct (decide (fst key = aggid /\ k0 = k)) as [[<- <-]|]; [|done].
      unfold absorb_at. rewrite Ed. unfold ah_data. rewrite Hf. rewrite Hdesc in Habs. cbn [fmap option_fmap option_map compose snd]. by rewrite Habs, El2.
  - replace (need h + n)%nat with (S (S (S (2 + dt_max_cpuid h + n)))) in Hm by (unfold need; lia).
    destruct (plenty_malloc m _ Hm) as (m1 & -> & H1). cbn [negb].
    destruct (plenty_malloc m1 _ H1) as (m2 & -> & H2). cbn [negb].
    destruct (plenty_malloc m2 _ H2) as (m3 & -> & H3). cbn [negb].
    assert (take (S (ad_words d)) data = data) as ->.
    { destruct Hdata as (g & xs & -> & [Hl _] & _). simpl. by rewrite <- Hl, firstn_all. }
    destruct (percpu_ok h d cpu data m3 n) as (pc & m4 & -> & H4); [exact H3|].
    eexists _, m4. split; [reflexivity|]. split; [done|].
    set (e := Ent (fst key) (fst key) k0 data pc).
    assert (forall aggid k, ah_wf (ah_insert (dtat_hash h) e) /\ ah_data (ah_insert (dtat_hash h) e) aggid k =
      if decide (fst key = aggid /\ k0 = k) then Some data else ah_data (dtat_hash h) aggid k) as Hins
      by (intros aggid k; by apply (ah_insert_data (dtat_hash h) e)).
    split; [|split; [by apply same_env_set|]].
    + apply set_hash_ok; [done|by destruct (Hins 0 k0)|]. intros i x Hx.
      change (ah_ents (ah_insert (dtat_hash h) e)) with (<[fresh (dom (ah_ents (dtat_hash h))) := e]> (ah_ents (dtat_hash h))) in Hx.
      apply lookup_insert_Some in Hx as [[_ <-]|[_ Hx]]; [|by apply (ok_ents h Hok i)].
      destruct Hdata as (g & xs & -> & Hv & _). split; [done|]. by exists d, g, xs.
    + intros aggid k. cbn [dtat_hash set_hash]. destruct (Hins aggid k) as [_ ->]. rewrite Hif.
      destruct (decide (fst key = aggid /\ k0 = k)) as [[<- <-]|]; [|done].
      unfold absorb_at. rewrite Ed. unfold ah_data. by rewrite Hf.
Qed.

(** *** The map of a CPU *)

Lemma key_after_split (pre suf : list (aggkey * option aggdata)) k v :
  k ∉ map fst pre -> key_after (pre ++ (k, v) :: suf) k = Some (fst <$> head suf).
Proof.
  induction pre as [|[k' v'] pre IH]; simpl; intros Hk; [by rewrite decide_True|].
  apply not_elem_of_cons in Hk as [Hne Hk]. rewrite decide_False by done. by apply IH.
Qed.

Lemma key_after_none (mp : list (aggkey * option aggdata)) k : k ∉ map fst mp -> key_after mp k = None.
Proof.
  induction mp as [|[k' v'] mp IH]; simpl; intros Hk; [done|].
  apply not_elem_of_cons in Hk as [Hne Hk]. rewrite decide_False by done. by apply IH.
Qed.

Lemma map_get_split (pre suf : list (aggkey * option aggdata)) k v :
  k ∉ map fst pre -> map_get (pre ++ (k, v) :: suf) k = v.
Proof.
  unfold map_get. induction pre as [|[k' v'] pre IH]; simpl; intros Hk; [by rewrite decide_True|].
  apply not_elem_of_cons in Hk as [Hne Hk]. rewrite decide_False by done. specialize (IH Hk).
  destruct (list_find _ (pre ++ (k, v) :: suf)) as [[i p]|]; simpl in *; done.
Qed.

(** What the data of the items does to an entry. *)
Definition fold_items h (aggid : Z) (k : aggkey) (o : option aggdata) (items : list (aggkey * aggdata)) : option aggdata :=
  foldl (absorb_at h aggid) o (map snd (filter (λ p, counts h aggid k (fst p) (snd p) = true) items)).

Lemma fold_items_cons h aggid k o key data items :
  fold_items h aggid k o ((key, data) :: items) =
  fold_items h aggid k (if counts h aggid k key data then absorb_at h aggid o data else o) items.
Proof.
  unfold fold_items. rewrite filter_cons. cbn [fst snd].
  destruct (counts h aggid k key data) eqn:E; [by rewrite decide_True|by rewrite decide_False].
Qed.

Lemma fold_items_env h h' aggid k o items : same_env h h' -> fold_items h' aggid k o items = fold_items h aggid k o items.
Proof. intros ->. done. Qed.

Lemma item_ok_env h h' key data : same_env h h' -> item_ok h key data -> item_ok h' key data.
Proof. intros ->. done. Qed.

(** A map that can be read, with the keys of aggregations. *)
Record map_ok h (mp : list (aggkey * option aggdata)) (items : list (aggkey * aggdata)) : Prop := {
  map_items : mp = map (λ p, (fst p, Some (snd p))) items;
  map_nodup : NoDup (map fst mp);
  map_ids : Forall (λ p, fst (fst p) <> DTRACE_AGGIDNONE) items;
  map_data : Forall (λ p, item_ok h (fst p) (snd p)) items
}.

Lemma loop_ok cpu mp items n : cpudrops (Z.of_nat cpu) = 0 -> NoDup (map fst mp) ->
  forall suf pre key h m, mp = pre ++ map (λ p, (fst p, Some (snd p))) suf ->
    next_key mp key = fst <$> head suf -> Forall (λ p, item_ok h (fst p) (snd p)) suf -> hdl_ok h ->
    plenty m (length suf * need h + n) -> (length suf <= items)%nat ->
    exists h' m', snap_cpu_loop reduce junk cpudrops (S items) mp cpu key h m = Some (None, h', m') /\ plenty m' n /\
      hdl_ok h' /\ same_env h h' /\
      forall aggid k, ah_data (dtat_hash h') aggid k = fold_items h aggid k (ah_data (dtat_hash h) aggid k) suf.
Proof.
  intros Hdrops Hnd. revert items. intros fuel suf. revert fuel.
  induction suf as [|[key' data] suf IH]; intros fuel pre key h m Hmp Hnext Hall Hok Hm Hlen.
  - cbn [snap_cpu_loop]. rewrite Hnext. exists h, m. split; [done|]. split; [done|]. split; [done|]. split; [apply same_env_refl|done].
  - destruct fuel as [|fuel]; [simpl in Hlen; lia|]. set (f1 := S fuel). cbn [snap_cpu_loop]. rewrite Hnext.
    cbn [fmap option_fmap option_map head fst]. rewrite Hdrops. cbn [negb Z.eqb].
    assert (key' ∉ map fst pre) as Hpre.
    { rewrite Hmp, map_app, NoDup_app in Hnd. destruct Hnd as (_ & Hd & _). intros Hin. apply (Hd key' Hin). left. }
    assert (map_get mp key' = Some data) as -> by (rewrite Hmp; by apply map_get_split).
    apply Forall_cons in Hall as [Hitem Hall]. cbn [fst snd] in Hitem.
    destruct (snap_one_ok h key' data cpu m (length suf * need h + n) Hok Hitem) as (h1 & m1 & E & Hm1 & Hok1 & Henv1 & Hd1).
    { eapply plenty_le; [exact Hm|]. simpl. lia. }
    rewrite E. unfold f1.
    destruct (IH fuel (pre ++ [(key', Some data)]) key' h1 m1) as (h2 & m2 & E2 & Hm2 & Hok2 & Henv2 & Hd2).
    + by rewrite Hmp, <- app_assoc.
    + unfold next_key. rewrite Hmp, map_cons. cbn [fst snd]. rewrite key_after_split by done. by destruct suf.
    + eapply Forall_impl; [exact Hall|]. intros p. by apply item_ok_env.
    + done.
    + eapply plenty_le; [exact Hm1|]. unfold need. rewrite (same_env_max h h1) by done. done.
    + simpl in Hlen. lia.
    + exists h2, m2. split; [exact E2|]. split; [done|]. split; [done|]. split; [by apply (same_env_trans h h1)|].
      intros aggid k. rewrite Hd2, Hd1, fold_items_cons. by apply fold_items_env.
Qed.

Lemma snap_cpu_ok h mp items cpu left m n : cpudrops (Z.of_nat cpu) = 0 -> map_ok h mp items -> hdl_ok h ->
  plenty m (length items * need h + n) ->
  exists h' m', dt_aggregate_snap_cpu reduce junk cpudrops mp cpu left h m = Some (None, h', m') /\ plenty m' n /\
    hdl_ok h' /\ same_env h h' /\
    forall aggid k, ah_data (dtat_hash h') aggid k = fold_items h aggid k (ah_data (dtat_hash h) aggid k) items.
Proof.
  intros Hdrops [Hmp Hnd Hids Hdata] Hok Hm. unfold dt_aggregate_snap_cpu.
  apply (loop_ok cpu mp (length mp) n Hdrops Hnd items [] _ h m); [done| |done|done|done|by rewrite Hmp, length_map].
  unfold next_key. rewrite key_after_none; [rewrite Hmp; by destruct items as [|[]]|].
  rewrite Hmp, map_map. cbn [fst]. intros (p & E & Hin)%list_elem_of_fmap.
  apply list_elem_of_lookup in Hin as [i Hi]. apply (Forall_lookup_1 _ _ _ _ Hids Hi). by rewrite <- E.
Qed.

(** *** All CPUs *)

Lemma snap_cpus_ok left cpus itemss n : Forall (λ cpu, cpudrops (Z.of_nat cpu) = 0) (map fst cpus) ->
  forall h m, hdl_ok h -> Forall2 (λ p items, exists mp, snd p = Some mp /\ map_ok h mp items) cpus itemss ->
    plenty m (length (concat itemss) * need h + n) ->
    exists h' m', snap_cpus reduce junk cpudrops cpus left h m = Some (None, h', m') /\ plenty m' n /\
      hdl_ok h' /\ same_env h h' /\
      forall aggid k, ah_data (dtat_hash h') aggid k = fold_items h aggid k (ah_data (dtat_hash h) aggid k) (concat itemss).
Proof.
  intros Hdrops h m Hok Hall. revert Hdrops m. revert h Hok Hall.
  revert itemss. induction cpus as [|[cpu o] cpus IH]; intros itemss h Hok Hall Hdrops m Hm; inversion Hall as [|? items ? itemss' (mp & Ho & Hmap) Hall']; subst.
  - exists h, m. split; [done|]. split; [done|]. split; [done|]. split; [apply same_env_refl|done].
  - simpl in Ho. subst o. apply Forall_cons in Hdrops as [Hd Hdrops]. cbn [fst] in Hd.
    cbn [concat] in *. rewrite length_app in Hm.
    destruct (snap_cpu_ok h mp items cpu (left cpu) m (length (concat itemss') * need h + n) Hd Hmap Hok)
      as (h1 & m1 & E & Hm1 & Hok1 & Henv1 & Hd1).
    { eapply plenty_le; [exact Hm|]. lia. }
    cbn [snap_cpus]. rewrite E.
    destruct (IH itemss' h1 Hok1) with (m := m1) as (h2 & m2 & E2 & Hm2 & Hok2 & Henv2 & Hd2); [|done| |].
    + eapply Forall2_impl; [exact Hall'|]. intros p its (mp' & Ep & [Ha Hb Hc He]). exists mp'. split; [done|].
      split; [done|done|done|]. eapply Forall_impl; [exact He|]. intros q. by apply item_ok_env.
    + eapply plenty_le; [exact Hm1|]. unfold need. by rewrite (same_env_max h h1).
    + exists h2, m2. split; [exact E2|]. split; [done|]. split; [done|]. split; [by apply (same_env_trans h h1)|].
      intros aggid k. rewrite Hd2, Hd1, (fold_items_env h h1) by done. unfold fold_items.
      by rewrite filter_app, map_app, foldl_app.
Qed.
End SnapSpec.

(** ** The theorems *)

(** The data of all CPUs that belongs to an aggregation and a key. *)
Definition data_for (reduce : aggdesc -> aggkey -> aggkey) h (aggid : Z) (k : aggkey) (items : list (aggkey * aggdata))
    : list aggdata :=
  map snd (filter (λ p, counts reduce h aggid k (fst p) (snd p) = true) items).

Lemma data_for_ok reduce h aggid k d items : dt_adesc h !! aggid = Some d ->
  Forall (λ p, item_ok h (fst p) (snd p)) items ->
  Forall (data_ok d (gen_now h aggid)) (data_for reduce h aggid k items).
Proof.
  intros Ed. unfold data_for. induction 1 as [|[key data] items Hitem Hall IH]; [constructor|].
  rewrite filter_cons. cbn [fst snd] in *. destruct (decide (counts reduce h aggid k key data = true)) as [Hc|]; [|done].
  simpl. constructor; [|done]. unfold counts in Hc. rewrite !andb_true_iff in Hc. destruct Hc as [[Hg Hid] _].
  apply negb_true_iff, Z.eqb_neq in Hg. apply Z.eqb_eq in Hid. destruct Hitem as [|(d' & Ed' & Hd)]; [done|].
  rewrite Hid in *. by simplify_eq.
Qed.

Lemma fold_items_data reduce h aggid k d o items : dt_adesc h !! aggid = Some d ->
  fold_items reduce h aggid k o items = foldl (absorb d (gen_now h aggid)) o (data_for reduce h aggid k items).
Proof. intros Ed. unfold fold_items, data_for, absorb_at. by rewrite Ed. Qed.

(** When a snapshot is due: tracing is active, there is a buffer, the last
    snapshot is old enough, and the data has not been read since. *)
Definition snap_due (now : Z) h : Prop :=
  dt_active h = true /\ dt_buf h = true /\ flag (dtat_flags h) DTRACE_A_VALID = false /\
  (0 < dt_aggrate h -> dt_lastagg h <> 0 -> dt_aggrate h <= now - dt_lastagg h).

(** C13: A snapshot that is due reads the maps of all CPUs to their ends without
    an error, and keeps the table well formed.  For every aggregation and key,
    an entry that was there, or that has data of the current generation on some
    CPU, then holds the merge of exactly the data of the current generation of
    all CPUs and keys: the sum of each word, the minimum or the maximum.  Data
    of an older generation, from before a clear(), is left out.  An entry for
    which there is no data has the start value, and none is created. *)
Theorem dtrace_aggregate_snap_correct reduce junk cpudrops now (cpus : list (nat * option (list (aggkey * option aggdata))))
    left h m itemss
    (Hreduce : forall d k, fst (reduce d k) = fst k) (Hok : hdl_ok h) (Hdue : snap_due now h)
    (Hdrops : Forall (λ cpu, cpudrops (Z.of_nat cpu) = 0) (map fst cpus))
    (Hmaps : Forall2 (λ p items, exists mp, snd p = Some mp /\ map_ok h mp items) cpus itemss)
    (Hm : plenty m (length (concat itemss) * need h)) :
  exists h' m', dtrace_aggregate_snap reduce junk cpudrops now cpus left h m = Some (None, h', m') /\
    hdl_ok h' /\ flag (dtat_flags h') DTRACE_A_VALID = true /\
    forall aggid k d, dt_adesc h !! aggid = Some d ->
      let before := ah_data (dtat_hash h) aggid k in
      let after := ah_data (dtat_hash h') aggid k in
      let all := data_for reduce h aggid k (concat itemss) in
      let cur := current (gen_now h aggid) all in
      (is_Some before \/ cur <> [] -> after = Some (gen_now h aggid :: merge_all d cur)) /\
      (all = [] -> after = (λ _, gen_now h aggid :: vals_unit d) <$> before).
Proof.
  destruct Hdue as (Hact & Hbuf & Hval & Hrate). unfold dtrace_aggregate_snap. rewrite Hact, Hbuf. cbn [negb].
  assert ((0 <? dt_aggrate h) && negb (dt_lastagg h =? 0) && (now - dt_lastagg h <? dt_aggrate h) = false) as ->.
  { destruct (Z.ltb_spec 0 (dt_aggrate h)); [|done]. destruct (Z.eqb_spec (dt_lastagg h) 0); [done|].
    cbn [negb andb]. apply Z.ltb_ge. by apply Hrate. }
  set (h1 := if 0 <? dt_aggrate h then _ else h).
  assert (dtat_flags h1 = dtat_flags h /\ dtat_hash h1 = dtat_hash h /\ dt_adesc h1 = dt_adesc h /\
          dt_genmap h1 = dt_genmap h /\ dt_max_cpuid h1 = dt_max_cpuid h) as (Ef & Eh & Ea & Eg & Em)
    by (subst h1; by destruct (0 <? dt_aggrate h)).
  rewrite Ef, Hval. set (h2 := set_flags h1 _).
  assert (hdl_ok h2) as Hok2.
  { destruct Hok as [Hw He Hd]. split; [by rewrite <- Eh in Hw| |by rewrite <- Ea in Hd].
    intros id e E. simpl in E. rewrite Eh in E. destruct (He id e E) as (? & d & g & xs & Ed & ? & ?).
    split; [done|]. exists d, g, xs. simpl. by rewrite Ea. }
  destruct (clear_ok h2 Hok2) as (Hok3 & Henv3 & Hd3). set (h3 := dtrace_aggregate_clear h2) in *.
  assert (forall key data, item_ok h key data -> item_ok h3 key data) as Hitem.
  { intros key data Hi. apply (item_ok_env h2 h3 key data Henv3). unfold item_ok, gen_now in *. simpl. by rewrite Ea, Eg. }
  destruct (snap_cpus_ok reduce junk cpudrops Hreduce left cpus itemss 0 Hdrops h3 m Hok3) as (h4 & m4 & E & _ & Hok4 & Henv4 & Hd4).
  { eapply Forall2_impl; [exact Hmaps|]. intros p items (mp & Ep & [H1 H2 H3 H4]). exists mp. split; [done|].
    split; [done|done|done|]. eapply Forall_impl; [exact H4|]. intros q. apply Hitem. }
  { eapply plenty_le; [exact Hm|]. unfold need. rewrite (same_env_max h2 h3 Henv3). simpl. rewrite Em. lia. }
  exists h4, m4. split; [exact E|]. split; [done|]. split.
  { rewrite Henv4. cbn [dtat_flags set_hash]. rewrite Henv3. cbn [dtat_flags set_hash]. subst h2. cbn [dtat_flags set_flags].
    unfold flag, c_true. rewrite Z.land_lor_distr_l. apply negb_true_iff, Z.eqb_neq. intros [_ E8]%Z.lor_eq_0_iff. done. }
  intros aggid k d Ed. cbv zeta.
  assert (forall key data, counts reduce h3 aggid k key data = counts reduce h aggid k key data) as Hc.
  { intros. unfold counts. rewrite (same_env_adesc h2 h3 Henv3). simpl. by rewrite Ea. }
  assert (data_for reduce h3 aggid k (concat itemss) = data_for reduce h aggid k (concat itemss)) as Edf.
  { unfold data_for. f_equal. apply list_filter_iff. intros [key data]. cbn [fst snd]. by rewrite Hc. }
  assert (gen_now h3 aggid = gen_now h aggid) as Egn
    by (rewrite (same_env_gen h2 h3 aggid Henv3); unfold gen_now; simpl; by rewrite Eg).
  assert (dt_adesc h3 !! aggid = Some d) as Ed3 by (rewrite (same_env_adesc h2 h3 Henv3); simpl; by rewrite Ea).
  assert (dt_adesc h2 !! aggid = Some d) as Ed2 by (simpl; by rewrite Ea).
  rewrite Hd4, (fold_items_data reduce h3 aggid k d) by done. rewrite Edf, Egn, (Hd3 aggid k d Ed2).
  assert (gen_now h2 aggid = gen_now h aggid) as -> by (unfold gen_now; simpl; by rewrite Eg).
  change (dtat_hash h2) with (dtat_hash h1). rewrite Eh.
  pose proof (ok_desc h Hok aggid d Ed) as Hdesc.
  assert (Forall (data_ok d (gen_now h aggid)) (data_for reduce h aggid k (concat itemss))) as Hall.
  { apply data_for_ok; [done|]. clear - Hmaps. induction Hmaps as [|p items cpus itemss (mp & _ & [_ _ _ H4]) _ IH]; simpl; [constructor|].
    by apply Forall_app. }
  split; [|by intros ->].
  destruct (ah_data (dtat_hash h) aggid k) as [l|]; cbn [fmap option_fmap option_map].
  - intros _. rewrite absorb_current by (done || by apply vals_unit_ok).
    by rewrite vals_unit_l by (done || by apply (merge_all_ok d Hdesc (gen_now h aggid)), current_ok).
  - intros [[? ?]|Hne]; [done|]. by apply absorb_new.
Qed.

(** A sum() with one key, and an empty table. *)
Definition snap_ex_desc : aggdesc := AggDesc 1 1 (DT_AGG_BASE + 8) 1 (DT_AGG_BASE + 8) [Rec 1 4 0; Rec 1 1 4] 0.
Definition snap_ex (gen : Z) : agg_hdl :=
  Hdl {[ 1 := snap_ex_desc ]} {[ 1 := gen ]} 1 true true 0 0 0 (Ahash ∅ (replicate 4 []) []).

Lemma snap_ex_ok gen : hdl_ok (snap_ex gen).
Proof.
  split.
  - split; simpl.
    + lia.
    + intros hval id Hin. exfalso. unfold ah_chain in Hin. simpl in Hin.
      revert Hin. generalize (ah_ndx {| ah_ents := ∅; ah_hash := [[]; []; []; []]; ah_all := [] |} hval).
      intros [|[|[|[|i]]]]; simpl; rewrite ?lookup_nil; by intros ?%not_elem_of_nil.
    + intros id e E. by rewrite lookup_empty in E.
    + intros id id' e e' E. by rewrite lookup_empty in E.
    + intros id. rewrite lookup_empty. split; [by intros ?%not_elem_of_nil|by intros [? ?]].
    + constructor.
    + intros hval. unfold ah_chain. cbn [ah_hash]. generalize (ah_ndx {| ah_ents := ∅; ah_hash := [[]; []; []; []]; ah_all := [] |} hval).
      intros [|[|[|[|i]]]]; simpl; rewrite ?lookup_nil; constructor.
  - intros id e E. cbn in E. by rewrite lookup_empty in E.
  - intros aggid d E. cbn [dt_adesc snap_ex] in E. apply lookup_singleton_Some in E as [_ <-]. split; [done|]. by intros [|].
Qed.

Definition snap_ex_items : list (list (aggkey * aggdata)) :=
  [[((1, [7]), [2; 40])]; [((1, [7]), [2; 2]); ((1, [9]), [1; 100])]].

Lemma dtrace_aggregate_snap_correct_witness :
  let cpus := [(0%nat, Some [((1, [7]), Some [2; 40])]);
               (1%nat, Some [((1, [7]), Some [2; 2]); ((1, [9]), Some [1; 100])])] in
  exists h' m', dtrace_aggregate_snap (λ _ k, k) [] (λ _, 0) 0 cpus (λ _, []) (snap_ex 2) (replicate 18 true) =
    Some (None, h', m') /\ ah_data (dtat_hash h') 1 (1, [7]) = Some [2; 42].
Proof.
  intros cpus.
  destruct (dtrace_aggregate_snap_correct (λ _ k, k) [] (λ _, 0) 0 cpus (λ _, []) (snap_ex 2) (replicate 18 true) snap_ex_items)
    as (h' & m' & E & _ & _ & H).
  - done.
  - apply snap_ex_ok.
  - split; [done|]. split; [done|]. split; [done|]. simpl. lia.
  - repeat constructor.
  - assert (forall key g v, fst key = 1 -> 0 < g <= 2 -> in64 v -> item_ok (snap_ex 2) key [g; v]) as Hi.
    { intros key g v Hk Hg Hv. right. exists snap_ex_desc. rewrite Hk. split; [done|]. exists g, [v].
      split; [done|]. split; [split; [done|constructor; [exact Hv|constructor]]|exact Hg]. }
    assert (forall k items, NoDup (map fst items) -> Forall (λ p, fst (fst p) = 1 /\ exists g v, snd p = [g; v] /\ 0 < g <= 2 /\ in64 v) items ->
      exists mp, snd (k : nat, Some (map (λ p, (fst p, Some (snd p))) items)) = Some mp /\ map_ok (snap_ex 2) mp items) as Hmap.
    { intros k items Hn Hf. eexists. split; [reflexivity|]. split; [done| | |].
      - rewrite map_map. exact Hn.
      - eapply Forall_impl; [exact Hf|]. intros p [-> _]. done.
      - eapply Forall_impl; [exact Hf|]. intros p (Hk & g & v & -> & Hg & Hv). by apply Hi. }
    apply Forall2_cons; split; [|apply Forall2_cons; split; [|constructor]].
    + apply (Hmap 0%nat [((1, [7]), [2; 40])]); [apply NoDup_singleton|].
      constructor; [|constructor]. split; [done|]. exists 2, 40. split; [done|]. lia.
    + apply (Hmap 1%nat [((1, [7]), [2; 2]); ((1, [9]), [1; 100])]).
      * apply (bool_decide_unpack _). vm_compute. exact I.
      * constructor; [|constructor; [|constructor]].
        -- split; [done|]. exists 2, 2. split; [done|]. lia.
        -- split; [done|]. exists 1, 100. split; [done|]. lia.
  - exists []. reflexivity.
  - exists h', m'. split; [exact E|]. destruct (H 1 (1, [7]) snap_ex_desc) as [Hc _]; [reflexivity|].
    rewrite Hc; [vm_compute; reflexivity|]. right. vm_compute. discriminate.
Defined.

(** An entry that is new and has only data of an older generation keeps it. *)
Lemma snap_shows_stale_data :
  match dtrace_aggregate_snap (λ _ k, k) [] (λ _, 0) 0 [(0%nat, Some [((1, [7]), Some [1; 40])])] (λ _, []) (snap_ex 2)
          (replicate 10 true) with
  | Some (None, h', _) => ah_data (dtat_hash h') 1 (1, [7]) = Some [1; 40] /\ gen_now h' 1 = 2
  | _ => False
  end.
Proof. vm_compute. split; reflexivity. Qed.
