(* ===== verification/AggCmp.v ===== *)
(** * Comparison of aggregations (libdtrace/dt_aggregate.c)

    The functions that sort the entries of the consumer's table by variable, by key and
    by value.  They depend on static variables ([sort]).  A comparison that fails an
    assertion or divides by zero is [None].

    The theorem: on entries that are [sane] each of the functions is a total preorder,
    as qsort() requires, and never [None]. *)

From Stdlib Require Import QArith.
From stdpp Require Import base gmap list numbers option sorting sets.
From S2P Require Import Prelude AggBin Int128 Aggregate.

(** ** Floating point *)

(** The long doubles that are not NaN. *)
Class LongDouble (ld : Type) := {
  ld_of : Z -> ld; ld_add : ld -> ld -> ld; ld_mul : ld -> ld -> ld; ld_div : ld -> ld -> ld;
  powl : Z -> Z -> ld; ld_lt : ld -> ld -> bool }.

(** [<] is a strict weak order. *)
Class LongDoubleOrder (ld : Type) `{LongDouble ld} : Prop := {
  ld_asym (x y : ld) : ld_lt x y = true -> ld_lt y x = false;
  ld_negtrans (x y z : ld) : ld_lt x z = true -> ld_lt x y = true \/ ld_lt y z = true }.

(** ** Values *)

(** dt_revsort, dt_keysort and dt_keypos *)
Record sort := Sort { dt_revsort : bool; dt_keysort : bool; dt_keypos : Z }.

Definition DT_LESSTHAN (g : sort) : Z := if dt_revsort g then 1 else -1.
Definition DT_GREATERTHAN (g : sort) : Z := if dt_revsort g then -1 else 1.

(** if (l < r) return DT_LESSTHAN; if (l > r) return DT_GREATERTHAN; 0 otherwise. *)
Definition three_way (g : sort) (l r : Z) : Z :=
  if l <? r then DT_LESSTHAN g else if l >? r then DT_GREATERTHAN g else 0.

(** if ((rval = c1(lhs, rhs)) != 0) return rval; return c2(lhs, rhs); *)
Definition lex {A} (c1 c2 : A -> A -> option Z) (x y : A) : option Z :=
  r ← c1 x y; if negb (r =? 0) then Some r else c2 x y.

(** An entry with its description. *)
Abbreviation aggent := (aggdesc * ahashent)%type.

(** The words of the record: [int64_t *]. *)
Definition quanta (x : aggent) (i : Z) : Z := s64 (default 0 (he_data (snd x) !! S (Z.to_nat i))).

Definition DTRACE_LQUANTIZE_STEP (x : Z) : Z := Z.land (Z.shiftr x 48) 0xffff.
Definition DTRACE_LQUANTIZE_LEVELS (x : Z) : Z := Z.land (Z.shiftr x 32) 0xffff.
Definition DTRACE_LQUANTIZE_BASE (x : Z) : Z := s32 (Z.land x 0xffffffff).
Definition DTRACE_LLQUANTIZE_STEPS (x : Z) : Z := Z.land (Z.shiftr x 48) 0xffff.
Definition DTRACE_LLQUANTIZE_HMAG (x : Z) : Z := Z.land (Z.shiftr x 32) 0xffff.
Definition DTRACE_LLQUANTIZE_LMAG (x : Z) : Z := Z.land (Z.shiftr x 16) 0xffff.
Definition DTRACE_LLQUANTIZE_FACTOR (x : Z) : Z := Z.land x 0xffff.

(** [n] rounds of a loop with a counter. *)
Fixpoint rounds {S} (n : nat) (i : Z) (body : Z -> S -> S) (s : S) : S :=
  match n with O => s | Datatypes.S n => rounds n (i + 1) body (body i s) end.

Section Values.
Context {ld : Type} `{LongDouble ld}.

Definition three_way_ld (g : sort) (l r : ld) : Z :=
  if ld_lt l r then DT_LESSTHAN g else if ld_lt r l then DT_GREATERTHAN g else 0.

Definition dt_aggregate_countcmp (g : sort) (x y : aggent) : option Z := Some (three_way g (quanta x 0) (quanta y 0)).

(** [lhs[0] ? (lhs[1] / lhs[0]) : 0] *)
Definition average (x : aggent) : option Z := if quanta x 0 =? 0 then Some 0 else s64_div (quanta x 1) (quanta x 0).

Definition dt_aggregate_averagecmp (g : sort) (x y : aggent) : option Z :=
  lavg ← average x; ravg ← average y; Some (three_way g lavg ravg).

(** dt_stddev() of the four words. *)
Definition stddev_of (x : aggent) : option Z := dt_stddev (take 4 (drop 1 (he_data (snd x)))) 1.

Definition dt_aggregate_stddevcmp (g : sort) (x y : aggent) : option Z :=
  lsd ← stddev_of x; rsd ← stddev_of y; Some (three_way g lsd rsd).

Definition dt_aggregate_lquantizedsum (x : aggent) (sig : Z) : ld :=
  let base := DTRACE_LQUANTIZE_BASE sig in
  let step := DTRACE_LQUANTIZE_STEP sig in
  let levels := DTRACE_LQUANTIZE_LEVELS sig in
  let total := ld_mul (ld_of (quanta x 0)) (ld_of (s32 (base - 1))) in
  let '(base, total) := rounds (Z.to_nat levels) 0
    (λ i '(base, total), (s32 (base + step), ld_add total (ld_mul (ld_of (quanta x (i + 1))) (ld_of base)))) (base, total) in
  ld_add total (ld_mul (ld_of (quanta x (levels + 1))) (ld_of (s32 (base + 1)))).

(** The search for the level whose base is 0. *)
Fixpoint lquantized_level (n : nat) (i base step : Z) : Z + Z :=
  match n with
  | O => inr base
  | S n => if negb (base =? 0) then lquantized_level n (i + 1) (s32 (base + step)) step else inl i
  end.

Definition dt_aggregate_lquantizedzero (x : aggent) (sig : Z) : Z :=
  let base := DTRACE_LQUANTIZE_BASE sig in
  let step := DTRACE_LQUANTIZE_STEP sig in
  let levels := DTRACE_LQUANTIZE_LEVELS sig in
  if s32 (base - 1) =? 0 then quanta x 0
  else
    match lquantized_level (Z.to_nat levels) 0 base step with
    | inl i => quanta x (i + 1)
    | inr base => if s32 (base + 1) =? 0 then quanta x (levels + 1) else 0
    end.

(** By the sums, then by the weights at zero. *)
Definition sum_then_zero (g : sort) (lsum rsum : ld) (lzero rzero : Z) : Z :=
  let r := three_way_ld g lsum rsum in
  if negb (r =? 0) then r else three_way g lzero rzero.

Definition dt_aggregate_lquantizedcmp (g : sort) (x y : aggent) : option Z :=
  let lsig := ad_sig (fst x) in
  let rsig := ad_sig (fst y) in
  Some (sum_then_zero g (dt_aggregate_lquantizedsum x lsig) (dt_aggregate_lquantizedsum y rsig)
    (dt_aggregate_lquantizedzero x lsig) (dt_aggregate_lquantizedzero y rsig)).

Definition dt_aggregate_llquantizedsum (x : aggent) (sig : Z) : ld :=
  let factor := DTRACE_LLQUANTIZE_FACTOR sig in
  let lmag := DTRACE_LLQUANTIZE_LMAG sig in
  let hmag := DTRACE_LLQUANTIZE_HMAG sig in
  let steps := DTRACE_LLQUANTIZE_STEPS sig in
  let steps_factor := steps `quot` factor in
  let bin0 := 1 + (hmag - lmag + 1) * (steps - steps_factor) in
  let diff i := s64 (quanta x (bin0 + i) - quanta x (bin0 - i)) in
  let total := ld_mul (powl factor lmag) (ld_of (diff 1)) in
  let '(i, total, lmag) :=
    if (lmag =? 0) && (steps >? factor) then
      let '(i, total) := rounds (Z.to_nat (factor - 1)) 2
        (λ step '(i, total), let i := i + steps_factor in (i, ld_add total (ld_of (s64 (step * diff i))))) (1, total) in
      (i, total, 1)
    else (1, total, lmag) in
  let scale := ld_div (powl factor (lmag + 1)) (ld_of steps) in
  let '(_, total, _) := rounds (Z.to_nat (hmag - lmag + 1)) lmag
    (λ _ '(i, total, scale),
      let '(i, total) := rounds (Z.to_nat (steps - steps_factor)) (steps_factor + 1)
        (λ step '(i, total), let i := i + 1 in
          (i, ld_add total (ld_mul (ld_mul (ld_of step) scale) (ld_of (diff i))))) (i, total) in
      (i, total, ld_mul scale (ld_of factor))) (i, total, scale) in
  total.

Definition dt_aggregate_llquantizedzero (x : aggent) (sig : Z) : Z :=
  let factor := DTRACE_LLQUANTIZE_FACTOR sig in
  let lmag := DTRACE_LLQUANTIZE_LMAG sig in
  let hmag := DTRACE_LLQUANTIZE_HMAG sig in
  let steps := DTRACE_LLQUANTIZE_STEPS sig in
  quanta x (u16 (1 + (hmag - lmag + 1) * (steps - steps `quot` factor))).

Definition dt_aggregate_llquantizedcmp (g : sort) (x y : aggent) : option Z :=
  let lsig := ad_sig (fst x) in
  let rsig := ad_sig (fst y) in
  if (DTRACE_LLQUANTIZE_FACTOR lsig =? 0) || (DTRACE_LLQUANTIZE_FACTOR rsig =? 0) then None
  else Some (sum_then_zero g (dt_aggregate_llquantizedsum x lsig) (dt_aggregate_llquantizedsum y rsig)
    (dt_aggregate_llquantizedzero x lsig) (dt_aggregate_llquantizedzero y rsig)).

(** The total of one side, and the weight of the bucket for 0. *)
Definition quantized_total (x : aggent) : ld * Z :=
  rounds (Z.to_nat DTRACE_QUANTIZE_NBUCKETS) 0
    (λ i '(total, zero),
      let bucketval := DTRACE_QUANTIZE_BUCKETVAL i in
      (ld_add total (ld_mul (ld_of bucketval) (ld_of (quanta x i))), if bucketval =? 0 then quanta x i else zero))
    (ld_of 0, 0).

Definition dt_aggregate_quantizedcmp (g : sort) (x y : aggent) : option Z :=
  let '(ltotal, lzero) := quantized_total x in
  let '(rtotal, rzero) := quantized_total y in
  Some (sum_then_zero g ltotal rtotal lzero rzero).

(** ** Entries *)

Definition DT_AGG_AVG : Z := DT_AGG_BASE.
Definition DT_AGG_COUNT : Z := DT_AGG_BASE + 1.
Definition DT_AGG_LLQUANTIZE : Z := DT_AGG_BASE + 2.
Definition DT_AGG_LQUANTIZE : Z := DT_AGG_BASE + 3.
Definition DT_AGG_QUANTIZE : Z := DT_AGG_BASE + 6.
Definition DT_AGG_STDDEV : Z := DT_AGG_BASE + 7.
Definition DT_AGG_SUM : Z := DT_AGG_BASE + 8.

Definition DTRACEACT_USYM : Z := 0x103.
Definition DTRACEACT_UMOD : Z := 0x104.
Definition DTRACEACT_UADDR : Z := 0x105.

Definition nkrecs (x : aggent) : nat := length (ad_krecs (fst x)).

(** The bytes of the key: the id and what is behind it. *)
Definition key_bytes (k : aggkey) : list Z := le_bytes 4 (fst k) ++ snd k.

(** The id that is in the key is the one of the description, which is never without one
    (dt_aggid_add()); so keeping it in the description makes no difference. *)
Definition dt_aggregate_aggid (x : aggent) : Z :=
  if negb (ad_varid (fst x) =? DTRACE_AGGVARIDNONE) then ad_varid (fst x)
  else match head (ad_krecs (fst x)) with
       | Some rec => load 4 (Z.to_nat (rd_offset rec)) (key_bytes (he_key (snd x)))
       | None => 0
       end.

Definition dt_aggregate_hashcmp (g : sort) (x y : aggent) : option Z :=
  Some (three_way g (Z.of_nat (nkrecs x)) (Z.of_nat (nkrecs y))).

Definition dt_aggregate_varcmp (g : sort) (x y : aggent) : option Z :=
  Some (three_way g (dt_aggregate_aggid x) (dt_aggregate_aggid y)).

(** Values that are compared one after the other. *)
Fixpoint cmp_vals (g : sort) (xs ys : list Z) : Z :=
  match xs, ys with
  | l :: xs, r :: ys => let v := three_way g l r in if negb (v =? 0) then v else cmp_vals g xs ys
  | _, _ => 0
  end.

Definition is_uaddr (action : Z) : bool :=
  (action =? DTRACEACT_UMOD) || (action =? DTRACEACT_UADDR) || (action =? DTRACEACT_USYM).

Definition is_number (size : Z) : bool := (size =? 8) || (size =? 4) || (size =? 2) || (size =? 1).

(** The values of a record that are compared: one number, two words, or all bytes. *)
Definition rec_vals (size action : Z) (off : Z) (key : list Z) : list Z :=
  let data := drop (Z.to_nat off) key in
  if is_number size then [load (Z.to_nat size) 0 data]
  else if is_uaddr action then [load 8 0 data; load 8 8 data]
  else (λ j, default 0 (data !! j)) <$> seq 0 (Z.to_nat size).

Definition krec (x : aggent) (ndx : Z) : option recdesc := if ndx <? 0 then None else ad_krecs (fst x) !! Z.to_nat ndx.

Definition rec_cmp (g : sort) (ndx : Z) (x y : aggent) : option Z :=
  lrec ← krec x ndx;
  rrec ← krec y ndx;
  let v := three_way g (rd_size lrec) (rd_size rrec) in
  if negb (v =? 0) then Some v
  else
    let vals rec e := rec_vals (rd_size lrec) (rd_action lrec) (rd_offset rec) (key_bytes (he_key e)) in
    Some (cmp_vals g (vals lrec (snd x)) (vals rrec (snd y))).

(** The records 1 to [n - 1], from the one at [keypos] on. *)
Definition key_order (keypos : Z) (n : nat) : list Z :=
  let keypos := if s32 (keypos + 1) >=? Z.of_nat n then 0 else keypos in
  (λ i, let ndx := s32 (Z.of_nat i + keypos) in
        if ndx >=? Z.of_nat n then ndx - Z.of_nat n + 1 else ndx) <$> seq 1 (n - 1).

Definition dt_aggregate_keycmp (g : sort) : aggent -> aggent -> option Z :=
  lex (dt_aggregate_hashcmp g)
    (λ x y, foldr (λ ndx c, lex (rec_cmp g ndx) c) (λ _ _, Some 0) (key_order (dt_keypos g) (nkrecs x)) x y).

(** The offsets and sizes of the records. *)
Definition layout (x : aggent) : list Z := concat ((λ r, [rd_offset r; rd_size r]) <$> ad_krecs (fst x)).

Definition value_cmp (g : sort) (x y : aggent) : option Z :=
  let action := ad_action (fst x) in
  if action =? DT_AGG_AVG then dt_aggregate_averagecmp g x y
  else if action =? DT_AGG_STDDEV then dt_aggregate_stddevcmp g x y
  else if action =? DT_AGG_QUANTIZE then dt_aggregate_quantizedcmp g x y
  else if action =? DT_AGG_LQUANTIZE then dt_aggregate_lquantizedcmp g x y
  else if action =? DT_AGG_LLQUANTIZE then dt_aggregate_llquantizedcmp g x y
  else if (action =? DT_AGG_COUNT) || (action =? DT_AGG_SUM) || (action =? DT_AGG_MIN) || (action =? DT_AGG_MAX)
  then dt_aggregate_countcmp g x y
  else None.

Definition dt_aggregate_valcmp (g : sort) (x y : aggent) : option Z :=
  if (nkrecs x =? 0)%nat || (nkrecs y =? 0)%nat then None
  else
    lex (dt_aggregate_hashcmp g)
      (lex (λ x y, Some (cmp_vals g (layout x) (layout y)))
        (lex (λ x y, Some (three_way g (ad_action (fst x)) (ad_action (fst y)))) (value_cmp g))) x y.

Definition dt_aggregate_valkeycmp (g : sort) := lex (dt_aggregate_valcmp g) (dt_aggregate_keycmp g).
Definition dt_aggregate_keyvarcmp (g : sort) := lex (dt_aggregate_keycmp g) (dt_aggregate_varcmp g).
Definition dt_aggregate_varkeycmp (g : sort) := lex (dt_aggregate_varcmp g) (dt_aggregate_keycmp g).
Definition dt_aggregate_valvarcmp (g : sort) := lex (dt_aggregate_valkeycmp g) (dt_aggregate_varcmp g).
Definition dt_aggregate_varvalcmp (g : sort) := lex (dt_aggregate_varcmp g) (dt_aggregate_valkeycmp g).
Definition dt_aggregate_keyvarrevcmp (g : sort) := flip (dt_aggregate_keyvarcmp g).
Definition dt_aggregate_varkeyrevcmp (g : sort) := flip (dt_aggregate_varkeycmp g).
Definition dt_aggregate_valvarrevcmp (g : sort) := flip (dt_aggregate_valvarcmp g).
Definition dt_aggregate_varvalrevcmp (g : sort) := flip (dt_aggregate_varvalcmp g).
End Values.

(** ** Preorders *)

(** A comparison that is defined and a total preorder on the elements with [P]. *)
Record sorts {A} (P : A -> Prop) (c : A -> A -> option Z) : Prop := {
  sorts_def x y : P x -> P y -> is_Some (c x y);
  sorts_cmp : compares P (λ x y, default 0 (c x y)) }.

Lemma sorts_mono {A} (P Q : A -> Prop) c : sorts P c -> (forall x, Q x -> P x) -> sorts Q c.
Proof.
  intros [D [F T]] H. split; [intros; apply D; by apply H|]. split; [intros; apply F; by apply H|].
  intros x y z ???. apply T; by apply H.
Qed.

Lemma sorts_ext {A} (P : A -> Prop) c c' : sorts P c -> (forall x y, P x -> P y -> c' x y = c x y) -> sorts P c'.
Proof.
  intros [D [F T]] H. split; [intros x y Hx Hy; rewrite H by done; by apply D|]. split.
  - intros x y Hx Hy. rewrite !H by done. by apply F.
  - intros x y z Hx Hy Hz. rewrite !H by done. by apply T.
Qed.

Lemma sorts_flip {A} (P : A -> Prop) c : sorts P c -> sorts P (flip c).
Proof.
  intros [D [F T]]. split; [intros x y Hx Hy; by apply D|]. unfold flip. split.
  - intros x y Hx Hy. by apply F.
  - intros x y z Hx Hy Hz H1 H2. by apply (T z y x).
Qed.

Lemma sorts_refl {A} (P : A -> Prop) c x : sorts P c -> P x -> c x x = Some 0.
Proof.
  intros [D [F _]] Hx. destruct (D x x Hx Hx) as [r E]. pose proof (F x x Hx Hx) as Hf. rewrite E in *. cbn in Hf. f_equal. lia.
Qed.

Lemma sorts_sym {A} (P : A -> Prop) c x y : sorts P c -> P x -> P y -> c x y = Some 0 -> c y x = Some 0.
Proof.
  intros [D [F _]] Hx Hy E. destruct (D y x Hy Hx) as [r E']. pose proof (F x y Hx Hy) as H1. pose proof (F y x Hy Hx) as H2.
  rewrite E, E' in H1, H2. cbn in H1, H2. rewrite E'. f_equal. lia.
Qed.

(** One comparison after another, which only has to be one among those that the first does not tell apart. *)
Lemma sorts_lex {A} (P : A -> Prop) c1 c2 : sorts P c1 -> (forall z, P z -> sorts (λ x, P x /\ c1 x z = Some 0) c2) ->
  sorts P (lex c1 c2).
Proof.
  intros S1 S2. pose proof S1 as [D [F T]]. set (d x y := default 0 (c1 x y)).
  change (forall x y, P x -> P y -> d x y <= 0 <-> 0 <= d y x) in F.
  change (forall x y z, P x -> P y -> P z -> d x y <= 0 -> d y z <= 0 -> d x z <= 0) in T.
  assert (forall x y, P x -> P y -> c1 x y = Some (d x y) /\
    (d x y <> 0 /\ lex c1 c2 x y = Some (d x y) \/ d x y = 0 /\ lex c1 c2 x y = c2 x y)) as L.
  { intros x y Hx Hy. destruct (D x y Hx Hy) as [r E]. unfold lex, d. rewrite E. split; [done|]. cbn.
    destruct (Z.eqb_spec r 0); [by right|by left]. }
  split.
  - intros x y Hx Hy. destruct (L x y Hx Hy) as [E [[Hr ->]|[Hr ->]]]; [done|]. destruct (S2 y Hy) as [D2 _]. rewrite Hr in E.
    apply D2; split; [done|done|done|by apply (sorts_refl P)].
  - split.
    + intros x y Hx Hy. pose proof (F x y Hx Hy). pose proof (F y x Hy Hx).
      destruct (L x y Hx Hy) as [E [[Hr ->]|[Hr ->]]], (L y x Hy Hx) as [E' [[Hr' ->]|[Hr' ->]]]; cbn [from_option id]; try lia.
      destruct (S2 y Hy) as [_ [F2 _]]. rewrite Hr in E. apply F2; split; [done|done|done|by apply (sorts_refl P)].
    + intros x y z Hx Hy Hz. pose proof (T x y z Hx Hy Hz). pose proof (T y z x Hy Hz Hx). pose proof (T z x y Hz Hx Hy).
      pose proof (F x y Hx Hy). pose proof (F y z Hy Hz). pose proof (F z x Hz Hx).
      pose proof (F y x Hy Hx). pose proof (F z y Hz Hy). pose proof (F x z Hx Hz).
      destruct (L x y Hx Hy) as [Ea [[Ha ->]|[Ha ->]]], (L y z Hy Hz) as [Eb [[Hb ->]|[Hb ->]]], (L x z Hx Hz) as [Ec [[Hc ->]|[Hc ->]]];
        cbn [from_option id]; try lia.
      destruct (S2 z Hz) as [_ [_ T2]]. rewrite Ha in Ea. rewrite Hb in Eb. rewrite Hc in Ec.
      apply T2; split; try done. by apply (sorts_refl P).
Qed.

(** By a value. *)
Lemma sorts_by {A K} (P : A -> Prop) (Q : K -> Prop) (cmp : K -> K -> Z) (f : A -> option K) c :
  compares Q cmp -> (forall x, P x -> exists k, f x = Some k /\ Q k) ->
  (forall x y k k', f x = Some k -> f y = Some k' -> c x y = Some (cmp k k')) -> sorts P c.
Proof.
  intros [F T] Hf Hc. split.
  - intros x y (k & Ex & _)%Hf (k' & Ey & _)%Hf. by rewrite (Hc x y k k').
  - split.
    + intros x y (k & Ex & ?)%Hf (k' & Ey & ?)%Hf. rewrite (Hc x y k k'), (Hc y x k' k) by done. by apply F.
    + intros x y z (k & Ex & ?)%Hf (k' & Ey & ?)%Hf (k'' & Ez & ?)%Hf.
      rewrite (Hc x y k k'), (Hc y z k' k''), (Hc x z k k'') by done. by apply T.
Qed.

Lemma compares_three_way g (P : Z -> Prop) : compares P (three_way g).
Proof.
  unfold three_way, DT_LESSTHAN, DT_GREATERTHAN. split; intros x y; intros; repeat case_bool_decide;
    destruct (dt_revsort g); repeat match goal with |- context [?a <? ?b] => destruct (Z.ltb_spec a b)
      | H : context [?a <? ?b] |- _ => destruct (Z.ltb_spec a b) | |- context [?a >? ?b] => destruct (Z.gtb_spec a b)
      | H : context [?a >? ?b] |- _ => destruct (Z.gtb_spec a b) end; lia.
Qed.

Lemma three_way_0 g a b : three_way g a b = 0 -> a = b.
Proof. unfold three_way, DT_LESSTHAN, DT_GREATERTHAN. destruct (Z.ltb_spec a b), (Z.gtb_spec a b), (dt_revsort g); lia. Qed.

Lemma sorts_three_way {A} (P : A -> Prop) g (f : A -> Z) : sorts P (λ x y, Some (three_way g (f x) (f y))).
Proof.
  eapply (sorts_by P (λ _, True) (three_way g) (Some ∘ f)); [apply compares_three_way|eauto|].
  intros x y k k' [= <-] [= <-]. done.
Qed.

Lemma compares_vals g n : compares (λ l, length l = n) (cmp_vals g).
Proof.
  induction n as [|n [F T]]; (split; [intros [|x xs] [|y ys]|intros [|x xs] [|y ys] [|z zs]]); cbn [length cmp_vals]; try done.
  - intros [= Hx] [= Hy]. pose proof (F xs ys Hx Hy). destruct (compares_three_way g (λ _, True)) as [F1 _].
    pose proof (F1 x y I I). pose proof (F1 y x I I).
    destruct (Z.eqb_spec (three_way g x y) 0), (Z.eqb_spec (three_way g y x) 0); cbn [negb]; lia.
  - intros [= Hx] [= Hy] [= Hz]. pose proof (T xs ys zs Hx Hy Hz). destruct (compares_three_way g (λ _, True)) as [F1 T1].
    pose proof (T1 x y z I I I). pose proof (F1 x y I I). pose proof (F1 y x I I).
    destruct (Z.eqb_spec (three_way g x y) 0) as [E1%three_way_0|], (Z.eqb_spec (three_way g y z) 0) as [E2%three_way_0|],
      (Z.eqb_spec (three_way g x z) 0) as [E3%three_way_0|]; subst; cbn [negb]; lia.
Qed.

Section Orders.
Context {ld : Type} `{LongDoubleOrder ld} (g : sort).

Lemma compares_ld : compares (λ _, True) (three_way_ld g).
Proof.
  unfold three_way_ld, DT_LESSTHAN, DT_GREATERTHAN. split.
  - intros x y _ _. pose proof (ld_asym x y). destruct (ld_lt x y), (ld_lt y x), (dt_revsort g); intuition (lia || congruence).
  - intros x y z _ _ _. pose proof (ld_asym x y). pose proof (ld_asym y z). pose proof (ld_asym x z).
    pose proof (ld_negtrans x y z). pose proof (ld_negtrans z y x).
    destruct (dt_revsort g), (ld_lt x y), (ld_lt y x), (ld_lt y z), (ld_lt z y), (ld_lt x z), (ld_lt z x); intros; try lia; intuition congruence.
Qed.

Lemma compares_sum : compares (λ _, True) (λ p q : ld * Z, sum_then_zero g (fst p) (fst q) (snd p) (snd q)).
Proof.
  assert (sorts (λ _, True) (lex (λ p q : ld * Z, Some (three_way_ld g (fst p) (fst q))) (λ p q, Some (three_way g (snd p) (snd q))))) as S.
  { apply sorts_lex; [|intros; apply sorts_three_way].
    eapply (sorts_by _ (λ _, True) (three_way_ld g) (Some ∘ fst)); [apply compares_ld|eauto|]. by intros x y k k' [= <-] [= <-]. }
  assert (forall p q : ld * Z, default 0 (lex (λ p q : ld * Z, Some (three_way_ld g (fst p) (fst q))) (λ p q, Some (three_way g (snd p) (snd q))) p q)
    = sum_then_zero g (fst p) (fst q) (snd p) (snd q)) as E.
  { intros p q. unfold lex, sum_then_zero. cbn. by destruct (negb _). }
  destruct S as [_ [F T]]. split.
  - intros x y ??. rewrite <- !E. by apply F.
  - intros x y z ???. rewrite <- !E. by apply T.
Qed.

(** ** Entries that can be compared *)

(** The value can be computed. *)
Definition value_ok (x : aggent) : Prop :=
  let action := ad_action (fst x) in
  (action = DT_AGG_AVG /\ is_Some (average x)) \/ (action = DT_AGG_STDDEV /\ is_Some (stddev_of x)) \/
  (action = DT_AGG_LLQUANTIZE /\ DTRACE_LLQUANTIZE_FACTOR (ad_sig (fst x)) <> 0) \/
  action = DT_AGG_QUANTIZE \/ action = DT_AGG_LQUANTIZE \/ action = DT_AGG_COUNT \/ action = DT_AGG_SUM \/ action = DT_AGG_MIN \/
  action = DT_AGG_MAX.

(** Records of the same size that are not numbers are all user addresses, or none is: [u] says which. *)
Definition keys_ok (u : Z -> bool) (x : aggent) : Prop :=
  0 < Z.of_nat (nkrecs x) < 2 ^ 30 /\
  Forall (λ r, is_number (rd_size r) = false -> is_uaddr (rd_action r) = u (rd_size r)) (ad_krecs (fst x)).

Definition sane (u : Z -> bool) (x : aggent) : Prop := keys_ok u x /\ value_ok x.

(** The option aggsortkeypos *)
Definition keypos_ok : Prop := 0 <= dt_keypos g < 2 ^ 31 - 1.

Lemma key_order_range n ndx : keypos_ok -> Z.of_nat n < 2 ^ 30 -> ndx ∈ key_order (dt_keypos g) n -> 0 <= ndx < Z.of_nat n.
Proof.
  intros Hk Hn. unfold key_order. set (kp := if _ >=? _ then 0 else _).
  assert (0 <= kp /\ (n = 0%nat \/ kp < Z.of_nat n)) as Hkp.
  { subst kp. assert (s32 (dt_keypos g + 1) = dt_keypos g + 1) as -> by (apply wraps_small; [lia|]; unfold keypos_ok in Hk; lia).
    destruct (Z.geb_spec (dt_keypos g + 1) (Z.of_nat n)); unfold keypos_ok in Hk; lia. }
  clearbody kp. intros (i & -> & Hi)%list_elem_of_fmap. apply elem_of_seq in Hi.
  assert (s32 (Z.of_nat i + kp) = Z.of_nat i + kp) as -> by (apply wraps_small; lia).
  destruct (Z.geb_spec (Z.of_nat i + kp) (Z.of_nat n)); lia.
Qed.

(** ** By keys *)

Lemma sorts_const {A} (P : A -> Prop) : sorts P (λ _ _, Some 0).
Proof. split; [done|]. by split. Qed.

Lemma sorts_foldr {A B} (P : A -> Prop) (c : B -> A -> A -> option Z) l : (forall b, b ∈ l -> sorts P (c b)) ->
  sorts P (foldr (λ b c', lex (c b) c') (λ _ _, Some 0) l).
Proof.
  induction l as [|b l IH]; intros Hl; cbn [foldr]; [apply sorts_const|].
  apply sorts_lex; [apply Hl; by constructor|]. intros z Hz.
  apply (sorts_mono P); [apply IH; intros b' Hb; apply Hl; by constructor|]. by intros x [Hx _].
Qed.

Lemma length_rec_vals size action off key :
  length (rec_vals size action off key) = if is_number size then 1%nat else if is_uaddr action then 2%nat else Z.to_nat size.
Proof. unfold rec_vals. destruct (is_number size), (is_uaddr action); try done. by rewrite length_fmap, length_seq. Qed.

(** The action makes a difference only if it is a user address. *)
Lemma rec_vals_action size a a' off key : (is_number size = false -> is_uaddr a = is_uaddr a') -> rec_vals size a off key = rec_vals size a' off key.
Proof. intros E. unfold rec_vals. destruct (is_number size); [done|]. by rewrite E. Qed.

Definition rec_at (ndx : Z) (x : aggent) : recdesc := default (Rec 0 0 0) (krec x ndx).

Lemma krec_at n ndx x : nkrecs x = n -> 0 <= ndx < Z.of_nat n -> krec x ndx = Some (rec_at ndx x) /\ rec_at ndx x ∈ ad_krecs (fst x).
Proof.
  intros Hn Hr. unfold rec_at, krec, nkrecs in *. destruct (Z.ltb_spec ndx 0); [lia|].
  destruct (lookup_lt_is_Some_2 (ad_krecs (fst x)) (Z.to_nat ndx)) as [r E]; [lia|]. rewrite E. split; [done|].
  by eapply list_elem_of_lookup_2.
Qed.

Lemma sorts_rec u n ndx : 0 <= ndx < Z.of_nat n -> sorts (λ x, keys_ok u x /\ nkrecs x = n) (rec_cmp g ndx).
Proof.
  intros Hr. set (r := rec_at ndx). set (vals x := rec_vals (rd_size (r x)) (rd_action (r x)) (rd_offset (r x)) (key_bytes (he_key (snd x)))).
  assert (forall x y, keys_ok u x -> keys_ok u y -> nkrecs x = n -> nkrecs y = n -> rd_size (r x) = rd_size (r y) ->
    is_number (rd_size (r x)) = false -> is_uaddr (rd_action (r x)) = is_uaddr (rd_action (r y))) as Hact.
  { intros x y [_ Kx] [_ Ky] Hx Hy E N. destruct (krec_at n ndx x Hx Hr) as [_ Ex], (krec_at n ndx y Hy Hr) as [_ Ey].
    rewrite Forall_forall in Kx, Ky. fold r in Ex, Ey. rewrite (Kx _ Ex), (Ky _ Ey); [by rewrite E|by rewrite <- E|done]. }
  apply (sorts_ext _ (lex (λ x y, Some (three_way g (rd_size (r x)) (rd_size (r y)))) (λ x y, Some (cmp_vals g (vals x) (vals y))))).
  - apply sorts_lex; [apply sorts_three_way|]. intros z [Kz Hz].
    apply (sorts_by _ (λ l, length l = length (vals z)) (cmp_vals g) (Some ∘ vals)); [apply compares_vals| |by intros x y k k' [= <-] [= <-]].
    intros x [[Kx Hx] E]. injection E as E%three_way_0. exists (vals x). split; [done|]. unfold vals. rewrite !length_rec_vals, E.
    destruct (is_number (rd_size (r z))) eqn:N; [done|].
    assert (is_uaddr (rd_action (r x)) = is_uaddr (rd_action (r z))) as Ha by (apply Hact; try done; by rewrite E). by rewrite Ha.
  - intros x y [Kx Hx] [Ky Hy]. unfold rec_cmp. destruct (krec_at n ndx x Hx Hr) as [-> _], (krec_at n ndx y Hy Hr) as [-> _].
    unfold lex. fold r. cbn [mbind option_bind]. destruct (Z.eqb_spec (three_way g (rd_size (r x)) (rd_size (r y))) 0) as [E%three_way_0|]; [|done].
    cbn [negb]. do 2 f_equal. unfold vals. rewrite <- E. apply rec_vals_action. by apply Hact.
Qed.

Lemma hashcmp_0 x y : dt_aggregate_hashcmp g x y = Some 0 -> nkrecs x = nkrecs y.
Proof. intros E. injection E as E%three_way_0. lia. Qed.

Lemma sorts_key u : keypos_ok -> sorts (keys_ok u) (dt_aggregate_keycmp g).
Proof.
  intros Hk. apply sorts_lex; [apply sorts_three_way|]. intros z Kz.
  apply (sorts_ext _ (foldr (λ ndx c, lex (rec_cmp g ndx) c) (λ _ _, Some 0) (key_order (dt_keypos g) (nkrecs z)))).
  - apply sorts_foldr. intros ndx Hndx%key_order_range; [|done|apply Kz].
    apply (sorts_mono _ _ _ (sorts_rec u (nkrecs z) ndx Hndx)). intros x [Kx E]. split; [done|]. by apply hashcmp_0.
  - intros x y [_ Ex] _. by rewrite (hashcmp_0 x z Ex).
Qed.

(** ** By values *)

Lemma length_layout x : length (layout x) = (2 * nkrecs x)%nat.
Proof.
  unfold layout, nkrecs. induction (ad_krecs (fst x)) as [|r l IH]; [done|]. cbn [fmap list_fmap concat]. rewrite length_app, IH.
  cbn [length]. lia.
Qed.

Lemma sorts_by_int (P : aggent -> Prop) f c : (forall x, P x -> is_Some (f x)) ->
  (forall x y k k', f x = Some k -> f y = Some k' -> c x y = Some (three_way g k k')) -> sorts P c.
Proof.
  intros Hf. apply (sorts_by P (λ _, True)); [apply compares_three_way|]. intros x Hx. destruct (Hf x Hx) as [k Hk]. eauto.
Qed.

Lemma sorts_by_sum (P : aggent -> Prop) (f : aggent -> ld * Z) c :
  (forall x y, P x -> P y -> c x y = Some (sum_then_zero g (fst (f x)) (fst (f y)) (snd (f x)) (snd (f y)))) -> sorts P c.
Proof.
  intros Hc. apply (sorts_ext P (λ x y, Some (sum_then_zero g (fst (f x)) (fst (f y)) (snd (f x)) (snd (f y))))); [|done].
  apply (sorts_by P (λ _, True) (λ p q, sum_then_zero g (fst p) (fst q) (snd p) (snd q)) (Some ∘ f)); [apply compares_sum|eauto|].
  by intros x y k k' [= <-] [= <-].
Qed.

(** The cases of [value_ok] for a known action. *)
Ltac by_action V E := unfold value_ok in V; rewrite E in V;
  destruct V as [[? ?]|[[? ?]|[[? ?]|V]]]; [..|repeat destruct V as [V|V]]; (done || congruence).

Lemma llquantize_factor x : value_ok x -> ad_action (fst x) = DT_AGG_LLQUANTIZE -> DTRACE_LLQUANTIZE_FACTOR (ad_sig (fst x)) <> 0.
Proof. intros V E. by_action V E. Qed.

Lemma sorts_value a : sorts (λ x, value_ok x /\ ad_action (fst x) = a) (value_cmp g).
Proof.
  destruct (decide (a = DT_AGG_AVG)) as [->|N1].
  { apply (sorts_ext _ (dt_aggregate_averagecmp g)); [|by intros x y [_ E] _; unfold value_cmp; rewrite E].
    apply (sorts_by_int _ average); [|by intros x y k k' E1 E2; unfold dt_aggregate_averagecmp; rewrite E1, E2].
    intros x [V E]. by_action V E. }
  destruct (decide (a = DT_AGG_STDDEV)) as [->|N2].
  { apply (sorts_ext _ (dt_aggregate_stddevcmp g)); [|by intros x y [_ E] _; unfold value_cmp; rewrite E].
    apply (sorts_by_int _ stddev_of); [|by intros x y k k' E1 E2; unfold dt_aggregate_stddevcmp; rewrite E1, E2].
    intros x [V E]. by_action V E. }
  destruct (decide (a = DT_AGG_QUANTIZE)) as [->|N3].
  { apply (sorts_by_sum _ quantized_total). intros x y [_ E] _. unfold value_cmp. rewrite E. cbn -[quantized_total sum_then_zero]. unfold dt_aggregate_quantizedcmp.
    by destruct (quantized_total x), (quantized_total y). }
  destruct (decide (a = DT_AGG_LQUANTIZE)) as [->|N4].
  { apply (sorts_by_sum _ (λ x, (dt_aggregate_lquantizedsum x (ad_sig (fst x)), dt_aggregate_lquantizedzero x (ad_sig (fst x))))).
    intros x y [_ E] _. unfold value_cmp. by rewrite E. }
  destruct (decide (a = DT_AGG_LLQUANTIZE)) as [->|N5].
  { apply (sorts_by_sum _ (λ x, (dt_aggregate_llquantizedsum x (ad_sig (fst x)), dt_aggregate_llquantizedzero x (ad_sig (fst x))))).
    intros x y [Vx Ex] [Vy Ey]. unfold value_cmp. rewrite Ex.
    transitivity (dt_aggregate_llquantizedcmp g x y); [done|]. unfold dt_aggregate_llquantizedcmp. cbv zeta.
    destruct (Z.eqb_spec (DTRACE_LLQUANTIZE_FACTOR (ad_sig (fst x))) 0); [by apply llquantize_factor in Vx|].
    destruct (Z.eqb_spec (DTRACE_LLQUANTIZE_FACTOR (ad_sig (fst y))) 0); [by apply llquantize_factor in Vy|]. done. }
  apply (sorts_ext _ (dt_aggregate_countcmp g)); [apply sorts_three_way|]. intros x y [V E] _. unfold value_cmp. rewrite E.
  repeat match goal with |- context [a =? ?b] => destruct (Z.eqb_spec a b); [done|] end. cbn [orb]. by_action V E.
Qed.

Lemma sorts_val u : sorts (sane u) (dt_aggregate_valcmp g).
Proof.
  set (c := lex (dt_aggregate_hashcmp g) (lex (λ x y, Some (cmp_vals g (layout x) (layout y)))
        (lex (λ x y, Some (three_way g (ad_action (fst x)) (ad_action (fst y)))) (value_cmp g)))).
  apply (sorts_ext _ c).
  - apply sorts_lex; [apply sorts_three_way|]. intros z Sz. apply sorts_lex.
    + apply (sorts_by _ (λ l, length l = (2 * nkrecs z)%nat) (cmp_vals g) (Some ∘ layout)); [apply compares_vals| |by intros x y k k' [= <-] [= <-]].
      intros x [_ E%hashcmp_0]. exists (layout x). split; [done|]. by rewrite length_layout, E.
    + intros z2 _. apply sorts_lex; [apply sorts_three_way|]. intros z3 _.
      apply (sorts_mono _ _ _ (sorts_value (ad_action (fst z3)))). intros x [[[[_ V] _] _] E]. injection E as E%three_way_0. done.
  - intros x y [[Hx _] _] [[Hy _] _]. unfold dt_aggregate_valcmp.
    destruct (Nat.eqb_spec (nkrecs x) 0), (Nat.eqb_spec (nkrecs y) 0); [lia..|]. done.
Qed.

Lemma sorts_lex_both {A} (P : A -> Prop) c1 c2 : sorts P c1 -> sorts P c2 -> sorts P (lex c1 c2).
Proof. intros S1 S2. apply sorts_lex; [done|]. intros z _. apply (sorts_mono P); [done|]. by intros x [? _]. Qed.
End Orders.
#[export] Hint Resolve sorts_lex_both sorts_flip sorts_val : core.

(** ** Exact arithmetic *)

Module Exact.
#[export] Instance Q_ld : LongDouble Q := {
  ld_of z := inject_Z z; ld_add := Qplus; ld_mul := Qmult; ld_div := Qdiv;
  powl x y := inject_Z (x ^ y); ld_lt x y := match (x ?= y)%Q with Lt => true | _ => false end }.

#[export] Instance Q_ld_order : LongDoubleOrder Q.
Proof.
  assert (forall x y : Q, ld_lt x y = true <-> (x < y)%Q) as E.
  { intros x y. cbn. rewrite Qlt_alt. by destruct (x ?= y)%Q. }
  split.
  - intros x y Hxy%E. apply not_true_is_false. intros Hyx%E. by apply (Qlt_irrefl x), (Qlt_trans _ y).
  - intros x y z Hxz%E. rewrite !E. destruct (Qlt_le_dec x y) as [?|Hyx]; [by left|right]. by apply (Qle_lt_trans _ x).
Qed.
End Exact.
