(* ===== verification/AggOrder.v ===== *)
(** * The order in which aggregations are presented

    The order that the sorted walks promise, stated on the numbers of the
    entries and not on the comparison functions of dt_aggregate.c: by variable,
    by key and by value, each with its ties.  The theorem of this file is that
    on entries that can be compared the functions of [AggCmp] return the sign of
    this order, or of its reverse. *)

From stdpp Require Import base gmap list numbers option sorting sets.
From S2P Require Import Prelude AggBin Int128 Aggregate AggCmp.

(** ** The order *)

(** What is decided first, and what decides among equals. *)
Definition then_by (a b : comparison) : comparison := match a with Eq => b | _ => a end.

Fixpoint list_compare (xs ys : list Z) : comparison :=
  match xs, ys with x :: xs, y :: ys => then_by (x ?= y) (list_compare xs ys) | _, _ => Eq end.

(** A word of the data, signed. *)
Definition word_at (x : aggent) (i : nat) : Z := s64 (default 0 (he_data (snd x) !! S i)).

(** Where the record of a key begins. *)
Definition key_at (r : recdesc) (x : aggent) : list Z := drop (Z.to_nat (rd_offset r)) (key_bytes (he_key (snd x))).

(** The variable. *)
Definition var_of (x : aggent) : Z :=
  if decide (ad_varid (fst x) = DTRACE_AGGVARIDNONE)
  then match ad_krecs (fst x) with r :: _ => le (take 4 (key_at r x)) | [] => 0 end
  else ad_varid (fst x).
Definition var_compare (x y : aggent) : comparison := var_of x ?= var_of y.

(** What a component of the key is compared by: its value if it is an unsigned
    number, process and address if it is an address of a process, its bytes
    otherwise. *)
Definition key_values (r : recdesc) (x : aggent) : list Z :=
  if decide (rd_size r ∈ [1; 2; 4; 8]) then [le (take (Z.to_nat (rd_size r)) (key_at r x))]
  else if decide (rd_action r ∈ [DTRACEACT_USYM; DTRACEACT_UMOD; DTRACEACT_UADDR])
  then [le (take 8 (key_at r x)); le (take 8 (drop 8 (key_at r x)))]
  else (λ j, default 0 (key_at r x !! j)) <$> seq 0 (Z.to_nat (rd_size r)).

(** The components of a key of [n] records, the first of which is the variable,
    beginning with the one at [keypos] if there is such a one. *)
Definition key_positions (keypos : Z) (n : nat) : list nat :=
  let l := seq 1 (n - 1) in
  let k := if decide (keypos < Z.of_nat (n - 1)) then Z.to_nat keypos else 0%nat in
  drop k l ++ take k l.

Definition component_compare (i : nat) (x y : aggent) : comparison :=
  match ad_krecs (fst x) !! i, ad_krecs (fst y) !! i with
  | Some r, Some r' => then_by (rd_size r ?= rd_size r') (list_compare (key_values r x) (key_values r' y))
  | _, _ => Eq
  end.

Definition arity_compare (x y : aggent) : comparison :=
  Z.of_nat (length (ad_krecs (fst x))) ?= Z.of_nat (length (ad_krecs (fst y))).

Definition key_compare (keypos : Z) (x y : aggent) : comparison :=
  then_by (arity_compare x y)
    (foldr (λ i c, then_by (component_compare i x y) c) Eq (key_positions keypos (length (ad_krecs (fst x))))).

(** The average, rounded towards zero, of a number of values that is not 0. *)
Definition average_of (x : aggent) : Z := if decide (word_at x 0 = 0) then 0 else word_at x 1 `quot` word_at x 0.

Section Values.
Context {ld : Type} `{LongDouble ld}.

Definition sum_compare (s s' : ld) (zero zero' : Z) : comparison :=
  if ld_lt s s' then Lt else if ld_lt s' s then Gt else zero ?= zero'.

(** Values of the same aggregating function: counts, sums, minima and maxima by
    the number; averages and standard deviations by what is printed; the
    quantizations by the sum of their values (in the arithmetic of long
    doubles), then by what there is at zero. *)
Definition value_compare (x y : aggent) : comparison :=
  let action := ad_action (fst x) in
  if decide (action = DT_AGG_AVG) then average_of x ?= average_of y
  else if decide (action = DT_AGG_STDDEV) then default 0 (stddev_of x) ?= default 0 (stddev_of y)
  else if decide (action = DT_AGG_QUANTIZE) then
    sum_compare (fst (quantized_total x)) (fst (quantized_total y)) (snd (quantized_total x)) (snd (quantized_total y))
  else if decide (action = DT_AGG_LQUANTIZE) then
    sum_compare (dt_aggregate_lquantizedsum x (ad_sig (fst x))) (dt_aggregate_lquantizedsum y (ad_sig (fst y)))
      (dt_aggregate_lquantizedzero x (ad_sig (fst x))) (dt_aggregate_lquantizedzero y (ad_sig (fst y)))
  else if decide (action = DT_AGG_LLQUANTIZE) then
    sum_compare (dt_aggregate_llquantizedsum x (ad_sig (fst x))) (dt_aggregate_llquantizedsum y (ad_sig (fst y)))
      (dt_aggregate_llquantizedzero x (ad_sig (fst x))) (dt_aggregate_llquantizedzero y (ad_sig (fst y)))
  else word_at x 0 ?= word_at y 0.

(** Values of different shapes or functions are kept apart. *)
Definition val_compare (x y : aggent) : comparison :=
  then_by (arity_compare x y)
    (then_by (list_compare (flat_map (λ r, [rd_offset r; rd_size r]) (ad_krecs (fst x)))
                           (flat_map (λ r, [rd_offset r; rd_size r]) (ad_krecs (fst y))))
      (then_by (ad_action (fst x) ?= ad_action (fst y)) (value_compare x y))).
End Values.

(** ** The comparison functions *)

(** The result of a comparison function. *)
Definition sign (rev : bool) (c : comparison) : Z :=
  match c with Eq => 0 | Lt => if rev then 1 else -1 | Gt => if rev then -1 else 1 end.

(** On the entries with [P], [c] returns the sign of [cmp]. *)
Definition spells {A} (P : A -> Prop) (rev : bool) (c : A -> A -> option Z) (cmp : A -> A -> comparison) : Prop :=
  forall x y, P x -> P y -> c x y = Some (sign rev (cmp x y)).

Lemma sign_0 rev c : sign rev c = 0 <-> c = Eq.
Proof. by destruct rev, c. Qed.

Lemma three_way_sign g a b : three_way g a b = sign (dt_revsort g) (a ?= b).
Proof.
  unfold three_way, DT_LESSTHAN, DT_GREATERTHAN, sign. destruct (Z.compare_spec a b);
    destruct (Z.ltb_spec a b), (Z.gtb_spec a b); try lia; done.
Qed.

Lemma cmp_vals_sign g xs ys : cmp_vals g xs ys = sign (dt_revsort g) (list_compare xs ys).
Proof.
  revert ys. induction xs as [|x xs IH]; intros [|y ys]; try done. cbn [cmp_vals list_compare].
  rewrite three_way_sign, IH. by destruct (x ?= y), (dt_revsort g).
Qed.

Lemma spells_then {A} (P : A -> Prop) rev c1 c2 s1 s2 : spells P rev c1 s1 ->
  (forall x y, P x -> P y -> s1 x y = Eq -> c2 x y = Some (sign rev (s2 x y))) ->
  spells P rev (lex c1 c2) (λ x y, then_by (s1 x y) (s2 x y)).
Proof.
  intros S1 S2 x y Hx Hy. unfold lex. rewrite (S1 x y Hx Hy). cbn [mbind option_bind].
  destruct (s1 x y) eqn:E; cbn [then_by sign]; [by apply S2|by destruct rev..].
Qed.

Lemma spells_lex {A} (P : A -> Prop) rev c1 c2 s1 s2 : spells P rev c1 s1 -> spells P rev c2 s2 ->
  spells P rev (lex c1 c2) (λ x y, then_by (s1 x y) (s2 x y)).
Proof. intros S1 S2. apply spells_then; [done|]. intros x y Hx Hy _. by apply S2. Qed.

Lemma key_positions_order keypos n : 0 <= keypos < 2 ^ 31 - 1 -> Z.of_nat n < 2 ^ 30 ->
  key_order keypos n = Z.of_nat <$> key_positions keypos n.
Proof.
  intros Hk Hn. unfold key_order, key_positions.
  rewrite (wraps_small 32 (keypos + 1)) by lia.
  assert (exists k, (if keypos + 1 >=? Z.of_nat n then 0 else keypos) = Z.of_nat k /\
    (if decide (keypos < Z.of_nat (n - 1)) then Z.to_nat keypos else 0%nat) = k /\ (k = 0 \/ k < n - 1)%nat) as (k & -> & -> & Hkn).
  { destruct (Z.geb_spec (keypos + 1) (Z.of_nat n)), (decide (keypos < Z.of_nat (n - 1))); try lia.
    - exists 0%nat. lia.
    - exists (Z.to_nat keypos). lia. }
  apply list_eq. intros i. rewrite !list_lookup_fmap. destruct (decide (i < n - 1)%nat) as [Hi|Hi].
  - rewrite lookup_seq_lt by lia. cbn [fmap option_fmap option_map].
    rewrite (wraps_small 32 (Z.of_nat (1 + i) + Z.of_nat k)) by lia.
    destruct (decide (i < n - 1 - k)%nat) as [Hl|Hl].
    + rewrite lookup_app_l, lookup_drop, lookup_seq_lt by (rewrite ?length_drop, ?length_seq; lia). cbn [fmap option_fmap option_map].
      f_equal. destruct (Z.geb_spec (Z.of_nat (1 + i) + Z.of_nat k) (Z.of_nat n)); lia.
    + rewrite lookup_app_r by (rewrite length_drop, length_seq; lia). rewrite length_drop, length_seq.
      rewrite lookup_take_lt, lookup_seq_lt by lia. cbn [fmap option_fmap option_map].
      f_equal. destruct (Z.geb_spec (Z.of_nat (1 + i) + Z.of_nat k) (Z.of_nat n)); lia.
  - rewrite !lookup_ge_None_2; [done| |rewrite length_seq; lia].
    rewrite length_app, length_drop, length_take, length_seq. lia.
Qed.

Lemma is_number_spec size : is_number size = bool_decide (size ∈ [1; 2; 4; 8]).
Proof.
  unfold is_number. apply eq_true_iff_eq. rewrite bool_decide_eq_true, !elem_of_cons, !orb_true_iff, !Z.eqb_eq, elem_of_nil. tauto.
Qed.
Lemma is_uaddr_spec a : is_uaddr a = bool_decide (a ∈ [DTRACEACT_USYM; DTRACEACT_UMOD; DTRACEACT_UADDR]).
Proof.
  unfold is_uaddr. apply eq_true_iff_eq. rewrite bool_decide_eq_true, !elem_of_cons, !orb_true_iff, !Z.eqb_eq, elem_of_nil. tauto.
Qed.

Lemma rec_vals_values r x :
  rec_vals (rd_size r) (rd_action r) (rd_offset r) (key_bytes (he_key (snd x))) = key_values r x.
Proof.
  unfold rec_vals, key_values, key_at, load. rewrite is_number_spec, is_uaddr_spec.
  do 2 (case_bool_decide; [rewrite decide_True by done|rewrite decide_False by done]; rewrite ?drop_0; try done).
Qed.

Section Spelling.
Context {ld : Type} `{LongDoubleOrder ld} (u : Z -> bool) (g : sort).
Abbreviation rev := (dt_revsort g).

Lemma varcmp_spells : spells (sane u) rev (dt_aggregate_varcmp g) var_compare.
Proof.
  intros x y _ _. unfold dt_aggregate_varcmp, var_compare. rewrite three_way_sign. do 3 f_equal;
    unfold dt_aggregate_aggid, var_of; case_decide as E; rewrite ?E; try done;
    try (by rewrite (proj2 (Z.eqb_neq _ _)) by done);
    rewrite Z.eqb_refl; cbn [negb]; by destruct (ad_krecs _).
Qed.

Lemma hashcmp_spells (P : aggent -> Prop) : spells P rev (dt_aggregate_hashcmp g) arity_compare.
Proof. intros x y _ _. unfold dt_aggregate_hashcmp. by rewrite three_way_sign. Qed.

Lemma rec_cmp_spells i : spells (λ x, keys_ok u x /\ (i < nkrecs x)%nat) rev (rec_cmp g (Z.of_nat i)) (component_compare i).
Proof.
  intros x y [[_ Kx] Hx] [[_ Ky] Hy]. unfold rec_cmp, krec, component_compare, nkrecs in *.
  destruct (Z.ltb_spec (Z.of_nat i) 0); [lia|]. rewrite !Nat2Z.id.
  destruct (lookup_lt_is_Some_2 _ _ Hx) as [r Er], (lookup_lt_is_Some_2 _ _ Hy) as [r' Er']. rewrite Er, Er'. cbn [mbind option_bind].
  rewrite Forall_lookup in Kx, Ky. specialize (Kx _ _ Er). specialize (Ky _ _ Er').
  rewrite three_way_sign. destruct (Z.compare_spec (rd_size r) (rd_size r')) as [E|E|E]; cbn [then_by sign];
    [|by destruct rev..]. change (negb (0 =? 0)) with false. cbv iota. rewrite cmp_vals_sign, rec_vals_values.
  do 3 f_equal. rewrite E. rewrite <- rec_vals_values. apply rec_vals_action. intros N. rewrite E in *. by rewrite Kx, Ky.
Qed.

Lemma keycmp_spells : keypos_ok g -> spells (keys_ok u) rev (dt_aggregate_keycmp g) (key_compare (dt_keypos g)).
Proof.
  intros Hk. apply spells_then; [apply hashcmp_spells|]. intros x y Hx Hy E%Z.compare_eq.
  change (length (ad_krecs (fst x))) with (nkrecs x).
  assert (Z.of_nat (nkrecs x) < 2 ^ 30) as Hn by apply Hx. pose proof (proj1 Hx) as Hn0.
  rewrite key_positions_order by (unfold keypos_ok in Hk; lia || done).
  assert (forall i, i ∈ key_positions (dt_keypos g) (nkrecs x) -> (i < nkrecs x)%nat) as Hpos.
  { intros i [(j & Hi)%list_elem_of_lookup|(j & Hi)%list_elem_of_lookup]%elem_of_app;
      [rewrite lookup_drop in Hi|apply lookup_take_Some in Hi as [Hi _]]; apply lookup_seq in Hi as [-> ?]; lia. }
  assert (nkrecs y = nkrecs x) as Ey by (unfold nkrecs; lia).
  revert Hpos. generalize (key_positions (dt_keypos g) (nkrecs x)) as l.
  induction l as [|i l IH]; intros Hpos; [done|]. cbn [fmap list_fmap foldr].
  assert (i < nkrecs x)%nat as Hi by (apply Hpos; by left).
  unfold lex at 1. rewrite (rec_cmp_spells i x y) by (split; [done|lia]). cbn [mbind option_bind].
  destruct (component_compare i x y); cbn [then_by sign]; [|by destruct rev..].
  apply IH. intros j Hj. apply Hpos. by right.
Qed.

Lemma sum_sign s s' z z' : sum_then_zero g s s' z z' = sign rev (sum_compare s s' z z').
Proof.
  unfold sum_then_zero, three_way_ld, sum_compare, DT_LESSTHAN, DT_GREATERTHAN. rewrite three_way_sign.
  pose proof (ld_asym s s'). destruct (ld_lt s s'), (ld_lt s' s); by destruct rev.
Qed.

Lemma average_spec x : is_Some (average x) -> average x = Some (average_of x).
Proof.
  unfold average, average_of. change (quanta x 0) with (word_at x 0). change (quanta x 1) with (word_at x 1).
  destruct (Z.eqb_spec (word_at x 0) 0) as [E|E]; [by rewrite decide_True by done|]. rewrite decide_False by done.
  unfold s64_div. rewrite (proj2 (Z.eqb_neq _ _) E). cbn [orb]. intros [v Hv]. by case_match.
Qed.

Lemma stddev_spec x : is_Some (stddev_of x) -> stddev_of x = Some (default 0 (stddev_of x)).
Proof. by intros [v ->]. Qed.

(** Split on whether the action is [b]; the case of [value_ok] for a known one. *)
Ltac one_of a b Ea :=
  destruct (Z.eqb_spec a b) as [Ea|?]; [rewrite (decide_True _ _ Ea)|rewrite (decide_False (P := a = b)) by done].
Ltac by_case Vx Vy Ea :=
  rewrite Ea in Vx, Vy;
  let one V := (destruct V as [[? ?]|[[? ?]|[[? ?]|V]]]; [..|repeat destruct V as [V|V]]; (done || congruence)) in
  split; [one Vx|one Vy].

Lemma value_cmp_spells x y : value_ok x -> value_ok y -> ad_action (fst x) = ad_action (fst y) ->
  value_cmp g x y = Some (sign rev (value_compare x y)).
Proof.
  unfold value_ok. intros Vx Vy E. rewrite <- E in Vy. unfold value_cmp, value_compare.
  set (a := ad_action (fst x)) in *.
  one_of a DT_AGG_AVG Ea; [|one_of a DT_AGG_STDDEV Ea; [|one_of a DT_AGG_QUANTIZE Ea; [|
    one_of a DT_AGG_LQUANTIZE Ea; [|one_of a DT_AGG_LLQUANTIZE Ea]]]].
  - assert (is_Some (average x) /\ is_Some (average y)) as [Hx%average_spec Hy%average_spec] by (by_case Vx Vy Ea).
    unfold dt_aggregate_averagecmp. rewrite Hx, Hy. cbn [mbind option_bind]. by rewrite three_way_sign.
  - assert (is_Some (stddev_of x) /\ is_Some (stddev_of y)) as [Hx%stddev_spec Hy%stddev_spec] by (by_case Vx Vy Ea).
    unfold dt_aggregate_stddevcmp. rewrite Hx, Hy. cbn [mbind option_bind from_option]. by rewrite three_way_sign.
  - unfold dt_aggregate_quantizedcmp. destruct (quantized_total x), (quantized_total y). by rewrite sum_sign.
  - unfold dt_aggregate_lquantizedcmp. by rewrite sum_sign.
  - assert (DTRACE_LLQUANTIZE_FACTOR (ad_sig (fst x)) <> 0 /\ DTRACE_LLQUANTIZE_FACTOR (ad_sig (fst y)) <> 0) as [Fx Fy]
      by (by_case Vx Vy Ea).
    unfold dt_aggregate_llquantizedcmp. rewrite (proj2 (Z.eqb_neq _ _) Fx), (proj2 (Z.eqb_neq _ _) Fy). by rewrite sum_sign.
  - assert ((a =? DT_AGG_COUNT) || (a =? DT_AGG_SUM) || (a =? DT_AGG_MIN) || (a =? DT_AGG_MAX) = true) as ->
      by (rewrite !orb_true_iff, !Z.eqb_eq; tauto).
    unfold dt_aggregate_countcmp. by rewrite three_way_sign.
Qed.

Lemma valcmp_spells : spells (sane u) rev (dt_aggregate_valcmp g) val_compare.
Proof.
  intros x y Hx Hy. unfold dt_aggregate_valcmp. pose proof (proj1 (proj1 Hx)). pose proof (proj1 (proj1 Hy)).
  destruct (Nat.eqb_spec (nkrecs x) 0), (Nat.eqb_spec (nkrecs y) 0); [lia..|]. cbn [orb].
  revert x y Hx Hy H1 H2 n n0. cut (spells (sane u) rev (lex (dt_aggregate_hashcmp g)
    (lex (λ x y, Some (cmp_vals g (layout x) (layout y)))
      (lex (λ x y, Some (three_way g (ad_action (fst x)) (ad_action (fst y)))) (value_cmp g)))) val_compare).
  { intros S x y Hx Hy _ _ _ _. by apply S. }
  apply spells_lex; [apply hashcmp_spells|]. apply spells_lex.
  { intros x y _ _. rewrite cmp_vals_sign. do 3 f_equal; unfold layout; symmetry; apply flat_map_concat_map. }
  apply spells_then; [intros x y _ _; by rewrite three_way_sign|]. intros x y [_ Vx] [_ Vy] E%Z.compare_eq.
  by apply value_cmp_spells.
Qed.
End Spelling.
