(* ===== verification/AggWalk.v ===== *)
(** * Sorted walks over aggregations (libdtrace/dt_aggregate.c)

    The walks that call a function for each entry of the table in sorted order, on the
    comparisons of [AggCmp] and the table of [Aggregate].  The options that choose the
    order are those of the handle.

    The theorem: each entry is visited once, in the order of [AggOrder], and afterwards
    the table holds what the function left and did not remove. *)

From stdpp Require Import base gmap list numbers option sorting sets.
From S2P Require Import Prelude AggBin Int128 Aggregate AggCmp AggOrder.

(** ** Options *)

Definition DTRACEOPT_UNSET : Z := -2.
Definition INT_MAX : Z := 2 ^ 31 - 1.

Record sortopts := SortOpts { aggsortrev : Z; aggsortkey : Z; aggsortkeypos : Z; aggsortpos : Z }.

(** The static variables before any option is used. *)
Definition static_sort : sort := Sort false false 0.

(** What dt_aggregate_qsort() sets them to; they are restored afterwards. *)
Definition opt_sort (o : sortopts) : sort :=
  Sort (negb (aggsortrev o =? DTRACEOPT_UNSET)) (negb (aggsortkey o =? DTRACEOPT_UNSET))
    (if negb (aggsortkeypos o =? DTRACEOPT_UNSET) && (aggsortkeypos o <=? INT_MAX) then s32 (aggsortkeypos o) else 0).

Section Walks.
Context (qsort : forall A, (A -> A -> Z) -> list A -> list A) {ld : Type} `{LongDouble ld}.

(** The comparison that is passed to a walk. *)
Inductive sorter := By_options | Varkey | Varval | Keyvar | Valvar | Varkeyrev | Varvalrev | Keyvarrev | Valvarrev.

Definition sorter_cmp (o : sortopts) (s : sorter) : aggent -> aggent -> option Z :=
  match s with
  | By_options => let g := opt_sort o in if negb (dt_keysort g) then dt_aggregate_varvalcmp g else dt_aggregate_varkeycmp g
  | Varkey => dt_aggregate_varkeycmp static_sort
  | Varval => dt_aggregate_varvalcmp static_sort
  | Keyvar => dt_aggregate_keyvarcmp static_sort
  | Valvar => dt_aggregate_valvarcmp static_sort
  | Varkeyrev => dt_aggregate_varkeyrevcmp static_sort
  | Varvalrev => dt_aggregate_varvalrevcmp static_sort
  | Keyvarrev => dt_aggregate_keyvarrevcmp static_sort
  | Valvarrev => dt_aggregate_valvarrevcmp static_sort
  end.

(** An entry of the table with its description. *)
Definition ent_at (h : agg_hdl) (id : nat) : option aggent :=
  e ← ah_ents (dtat_hash h) !! id; d ← dt_adesc h !! he_desc e; Some (d, e).

(** A comparison on pointers to entries. *)
Definition on_ids (h : agg_hdl) (c : aggent -> aggent -> option Z) (i j : nat) : Z :=
  default 0 (x ← ent_at h i; y ← ent_at h j; c x y).

Definition sorted_ids (o : sortopts) (h : agg_hdl) (s : sorter) : list nat :=
  qsort nat (on_ids h (sorter_cmp o s)) (ah_all (dtat_hash h)).

Definition dt_aggregate_walk_sorted {Arg} (o : sortopts) (func : ahashent -> Arg -> Z * ahashent * Arg) (arg : Arg) (s : sorter)
    (h : agg_hdl) (m : allocs) : result agg_error (ahash * list aggkey * Arg) * allocs :=
  if (length (ah_all (dtat_hash h)) =? 0)%nat then (Ok (dtat_hash h, [], arg), m)
  else
    let '(ok, m) := malloc m in
    if negb ok then (Err EDT_NOMEM, m)
    else (walk_ids func (sorted_ids o h s) (dtat_hash h) arg, m).

Definition dtrace_aggregate_walk_sorted {Arg} o func (arg : Arg) := dt_aggregate_walk_sorted o func arg By_options.
Definition dtrace_aggregate_walk_keysorted {Arg} o func (arg : Arg) := dt_aggregate_walk_sorted o func arg Varkey.
Definition dtrace_aggregate_walk_valsorted {Arg} o func (arg : Arg) := dt_aggregate_walk_sorted o func arg Varval.
Definition dtrace_aggregate_walk_keyvarsorted {Arg} o func (arg : Arg) := dt_aggregate_walk_sorted o func arg Keyvar.
Definition dtrace_aggregate_walk_valvarsorted {Arg} o func (arg : Arg) := dt_aggregate_walk_sorted o func arg Valvar.
Definition dtrace_aggregate_walk_keyrevsorted {Arg} o func (arg : Arg) := dt_aggregate_walk_sorted o func arg Varkeyrev.
Definition dtrace_aggregate_walk_valrevsorted {Arg} o func (arg : Arg) := dt_aggregate_walk_sorted o func arg Varvalrev.
Definition dtrace_aggregate_walk_keyvarrevsorted {Arg} o func (arg : Arg) := dt_aggregate_walk_sorted o func arg Keyvarrev.
Definition dtrace_aggregate_walk_valvarrevsorted {Arg} o func (arg : Arg) := dt_aggregate_walk_sorted o func arg Valvarrev.
End Walks.

(** ** The order that is promised *)

Definition by_var_key {ld} `{LongDouble ld} (keypos : Z) (x y : aggent) : comparison :=
  then_by (var_compare x y) (key_compare keypos x y).
Definition by_var_val {ld} `{LongDouble ld} (keypos : Z) (x y : aggent) : comparison :=
  then_by (var_compare x y) (then_by (val_compare x y) (key_compare keypos x y)).
Definition by_key_var {ld} `{LongDouble ld} (x y : aggent) : comparison :=
  then_by (key_compare 0 x y) (var_compare x y).
Definition by_val_var {ld} `{LongDouble ld} (x y : aggent) : comparison :=
  then_by (then_by (val_compare x y) (key_compare 0 x y)) (var_compare x y).

(** aggsortkeypos, if it is set to a position. *)
Definition opt_keypos (o : sortopts) : Z :=
  if decide (aggsortkeypos o = DTRACEOPT_UNSET \/ INT_MAX < aggsortkeypos o) then 0 else aggsortkeypos o.

(** The order of each walk; aggsortkey chooses keys instead of values, aggsortrev the
    reverse. *)
Definition walk_order {ld} `{LongDouble ld} (o : sortopts) (s : sorter) (x y : aggent) : comparison :=
  match s with
  | By_options =>
      let c := if decide (aggsortkey o = DTRACEOPT_UNSET) then by_var_val (opt_keypos o) x y
               else by_var_key (opt_keypos o) x y in
      if decide (aggsortrev o = DTRACEOPT_UNSET) then c else CompOpp c
  | Varkey => by_var_key 0 x y
  | Varval => by_var_val 0 x y
  | Keyvar => by_key_var x y
  | Valvar => by_val_var x y
  | Varkeyrev => by_var_key 0 y x
  | Varvalrev => by_var_val 0 y x
  | Keyvarrev => by_key_var y x
  | Valvarrev => by_val_var y x
  end.

(** The key position is not negative, and not the largest int. *)
Definition opts_ok (o : sortopts) : Prop :=
  aggsortkeypos o = DTRACEOPT_UNSET \/ 0 <= aggsortkeypos o /\ aggsortkeypos o <> INT_MAX.

Lemma opts_keypos o : opts_ok o -> keypos_ok (opt_sort o) /\ dt_keypos (opt_sort o) = opt_keypos o.
Proof.
  unfold opts_ok, keypos_ok, opt_sort, opt_keypos, INT_MAX. cbn [dt_keypos]. intros Ho.
  destruct (Z.eqb_spec (aggsortkeypos o) DTRACEOPT_UNSET) as [E|E], (Z.leb_spec (aggsortkeypos o) (2 ^ 31 - 1)) as [L|L];
    cbn [negb andb]; case_decide as D; try lia; try (exfalso; tauto); try (exfalso; lia).
  destruct Ho as [?|[? ?]]; [done|]. rewrite (wraps_small 32) by lia. lia.
Qed.

Section Order.
Context {ld : Type} `{LongDoubleOrder ld} (u : Z -> bool).

Lemma key_spells g : keypos_ok g -> spells (sane u) (dt_revsort g) (dt_aggregate_keycmp g) (key_compare (dt_keypos g)).
Proof. intros Hk x y [Hx _] [Hy _]. by apply (keycmp_spells u g Hk). Qed.

Lemma varval_spells g : keypos_ok g -> spells (sane u) (dt_revsort g) (dt_aggregate_varvalcmp g) (by_var_val (dt_keypos g)).
Proof.
  intros Hk. apply spells_lex; [apply varcmp_spells|]. apply spells_lex; [apply valcmp_spells|by apply key_spells].
Qed.

Lemma varkey_spells g : keypos_ok g -> spells (sane u) (dt_revsort g) (dt_aggregate_varkeycmp g) (by_var_key (dt_keypos g)).
Proof. intros Hk. apply spells_lex; [apply varcmp_spells|by apply key_spells]. Qed.

Lemma static_keypos_ok : keypos_ok static_sort.
Proof. unfold keypos_ok, static_sort. cbn. lia. Qed.

Lemma keyvar_spells : spells (sane u) false (dt_aggregate_keyvarcmp static_sort) by_key_var.
Proof.
  apply (spells_lex _ (dt_revsort static_sort)); [apply (key_spells static_sort static_keypos_ok)|apply varcmp_spells].
Qed.

Lemma valvar_spells : spells (sane u) false (dt_aggregate_valvarcmp static_sort) by_val_var.
Proof.
  apply (spells_lex _ (dt_revsort static_sort)); [|apply varcmp_spells].
  apply spells_lex; [apply valcmp_spells|apply (key_spells static_sort static_keypos_ok)].
Qed.

(** A comparison of a walk says that an entry is not larger just if the order does. *)
Lemma sorter_order o s x y r : opts_ok o -> sane u x -> sane u y -> sorter_cmp o s x y = Some r ->
  r <= 0 <-> walk_order o s x y <> Gt.
Proof.
  intros [Hk Ek]%opts_keypos Hx Hy. pose proof static_keypos_ok as Hk0.
  assert (forall rev c, Some (sign rev c) = Some r -> r <= 0 <-> (if rev : bool then CompOpp c else c) <> Gt) as Hs.
  { intros rev c [= <-]. by destruct rev, c. }
  destruct s; cbn [sorter_cmp walk_order].
  - cbv zeta. rewrite <- Ek. set (g := opt_sort o) in *.
    assert (dt_keysort g = negb (aggsortkey o =? DTRACEOPT_UNSET)) as -> by done.
    assert (dt_revsort g = negb (aggsortrev o =? DTRACEOPT_UNSET)) as Er by done.
    destruct (Z.eqb_spec (aggsortkey o) DTRACEOPT_UNSET) as [E|E];
      [rewrite (decide_True (P := aggsortkey o = _)) by done|rewrite (decide_False (P := aggsortkey o = _)) by done]; cbn [negb];
      [rewrite (varval_spells g Hk x y Hx Hy)|rewrite (varkey_spells g Hk x y Hx Hy)]; intros Hr%Hs; rewrite Hr, Er;
      (destruct (Z.eqb_spec (aggsortrev o) DTRACEOPT_UNSET); [by rewrite decide_True|by rewrite decide_False]).
  - rewrite (varkey_spells static_sort Hk0 x y Hx Hy). apply Hs.
  - rewrite (varval_spells static_sort Hk0 x y Hx Hy). apply Hs.
  - rewrite (keyvar_spells x y Hx Hy). apply Hs.
  - rewrite (valvar_spells x y Hx Hy). apply Hs.
  - unfold dt_aggregate_varkeyrevcmp, flip. rewrite (varkey_spells static_sort Hk0 y x Hy Hx). apply Hs.
  - unfold dt_aggregate_varvalrevcmp, flip. rewrite (varval_spells static_sort Hk0 y x Hy Hx). apply Hs.
  - unfold dt_aggregate_keyvarrevcmp, flip. rewrite (keyvar_spells y x Hy Hx). apply Hs.
  - unfold dt_aggregate_valvarrevcmp, flip. rewrite (valvar_spells y x Hy Hx). apply Hs.
Qed.
End Order.

(** ** Visits *)

(** The calls of the function for a list of entries: each with its result, up to the
    first that ends the walk. *)
Definition rval_error (rval : Z) : option agg_error :=
  if (rval =? DTRACE_AGGWALK_NEXT) || (rval =? DTRACE_AGGWALK_REMOVE) then None
  else Some (if rval =? DTRACE_AGGWALK_ERROR then AGG_ERROR (-1) else if rval =? DTRACE_AGGWALK_ABORT then EDT_DIRABORT else EDT_BADRVAL).

Fixpoint visits {Arg} (func : ahashent -> Arg -> Z * ahashent * Arg) (es : list ahashent) (arg : Arg)
    : list (Z * ahashent) * option agg_error * Arg :=
  match es with
  | [] => ([], None, arg)
  | e :: es =>
      let '(rval, e', arg) := func e arg in
      match rval_error rval with
      | Some err => ([(rval, e')], Some err, arg)
      | None => let '(vs, err, arg) := visits func es arg in ((rval, e') :: vs, err, arg)
      end
  end.

(** What becomes of an entry. *)
Definition left_by (v : Z * ahashent) : option ahashent := if fst v =? DTRACE_AGGWALK_REMOVE then None else Some (snd v).

(** The keys of the entries that are removed. *)
Definition removed (vs : list (Z * ahashent)) : list aggkey :=
  (λ v, he_key (snd v)) <$> filter (λ v, fst v = DTRACE_AGGWALK_REMOVE) vs.

(** One call. *)
Lemma rval_step a id rval e' :
  match rval_error rval with
  | Some err => dt_aggwalk_rval (ah_set a id e') id rval = Err err
  | None => exists a1, dt_aggwalk_rval (ah_set a id e') id rval = Ok (a1, removed [(rval, e')]) /\
      ah_ents a1 !! id = left_by (rval, e') /\ forall id', id' <> id -> ah_ents a1 !! id' = ah_ents a !! id'
  end.
Proof.
  unfold rval_error, dt_aggwalk_rval, left_by, removed. cbn [fst snd].
  destruct (Z.eqb_spec rval DTRACE_AGGWALK_NEXT) as [->|N]; cbn [orb].
  - eexists. split; [done|]. cbn [ah_ents ah_set]. split; [by rewrite lookup_insert_eq|]. intros id' Hne. by rewrite lookup_insert_ne.
  - destruct (Z.eqb_spec rval DTRACE_AGGWALK_REMOVE) as [->|N2]; [|by destruct (rval =? DTRACE_AGGWALK_ERROR), (rval =? DTRACE_AGGWALK_ABORT)].
    cbn [ah_ents ah_set]. rewrite lookup_insert_eq. eexists. split; [done|]. cbn [ah_ents ah_set ah_remove].
    split; [by rewrite lookup_delete_eq|]. intros id' Hne. by rewrite lookup_delete_ne, lookup_insert_ne.
Qed.

Lemma walk_ids_visits {Arg} (func : ahashent -> Arg -> Z * ahashent * Arg) ids es a arg : NoDup ids ->
  Forall2 (λ id e, ah_ents a !! id = Some e) ids es ->
  match visits func es arg with
  | (vs, None, arg') => exists a', walk_ids func ids a arg = Ok (a', removed vs, arg') /\ length vs = length ids /\
      (forall i id v, ids !! i = Some id -> vs !! i = Some v -> ah_ents a' !! id = left_by v) /\
      (forall id, id ∉ ids -> ah_ents a' !! id = ah_ents a !! id)
  | (_, Some err, _) => walk_ids func ids a arg = Err err
  end.
Proof.
  intros Hnd. revert es a arg. induction Hnd as [|id ids Hid Hnd IH]; intros es a arg HF.
  - apply Forall2_nil_inv_l in HF as ->. cbn. exists a. split; [done|]. split; [done|]. split; [|done]. intros i id v [=].
  - apply Forall2_cons_inv_l in HF as (e & es' & He & HF & ->). cbn [visits walk_ids]. rewrite He.
    destruct (func e arg) as [[rval e'] arg1] eqn:Ef. pose proof (rval_step a id rval e') as Hr.
    destruct (rval_error rval) as [err|]; [by rewrite Hr|]. destruct Hr as (a1 & -> & E1 & E2). cbn [mbind result_bind].
    assert (Forall2 (λ id e, ah_ents a1 !! id = Some e) ids es') as HF1.
    { apply Forall2_same_length_lookup. apply Forall2_same_length_lookup in HF as [Hl HF]. split; [done|]. intros i j y Ej Ey.
      rewrite E2; [by eapply HF|]. intros ->. apply Hid. by eapply list_elem_of_lookup_2. }
    specialize (IH es' a1 arg1 HF1). destruct (visits func es' arg1) as [[vs [err|]] arg2]; [by rewrite IH|].
    destruct IH as (a' & -> & Hl & Hin & Hout). cbn [mbind result_bind]. exists a'. split; [|split; [cbn; lia|split]].
    + do 3 f_equal. unfold removed. rewrite <- fmap_app, <- filter_app. done.
    + intros [|i] id0 v E Ev; cbn in E, Ev; simplify_eq; [by rewrite Hout|by eapply Hin].
    + intros id' [Hne Hn]%not_elem_of_cons. rewrite Hout by done. by apply E2.
Qed.

(** The function does not change the id and the key of an entry. *)
Definition keeps_place {Arg} (func : ahashent -> Arg -> Z * ahashent * Arg) : Prop :=
  forall e arg, same_place e (snd (fst (func e arg))).

Lemma walk_ids_wf {Arg} (func : ahashent -> Arg -> Z * ahashent * Arg) ids a arg a' ks arg' : keeps_place func ->
  ah_wf a -> walk_ids func ids a arg = Ok (a', ks, arg') -> ah_wf a'.
Proof.
  intros Hf. revert a arg a' ks arg'. induction ids as [|id ids IH]; intros a arg a' ks arg' W; cbn [walk_ids].
  - by intros [= <- <- <-].
  - destruct (ah_ents a !! id) as [e|] eqn:E; [|by apply IH]. pose proof (Hf e arg) as Hp.
    destruct (func e arg) as [[rval e'] arg1]. cbn [fst snd] in Hp.
    pose proof (ah_set_wf a id e e' W E Hp) as W1. unfold dt_aggwalk_rval.
    destruct (rval =? DTRACE_AGGWALK_NEXT); [|destruct (rval =? DTRACE_AGGWALK_ERROR); [done|];
      destruct (rval =? DTRACE_AGGWALK_ABORT); [done|]; destruct (rval =? DTRACE_AGGWALK_REMOVE); [|done]].
    + cbn [mbind result_bind]. destruct (walk_ids func ids (ah_set a id e') arg1) as [[[a2 ks2] arg2]|] eqn:Ew; [|done].
      intros [= <- <- <-]. by eapply IH.
    + assert (ah_ents (ah_set a id e') !! id = Some e') as El by apply lookup_insert_eq. rewrite El. cbn [mbind result_bind].
      destruct (walk_ids func ids (ah_remove (ah_set a id e') id e') arg1) as [[[a2 ks2] arg2]|] eqn:Ew; [|done].
      intros [= <- <- <-]. eapply IH; [|exact Ew]. by apply (ah_remove_data _ _ _ 0 (0, []) W1 El).
Qed.

(** ** Comparing entries *)

(** Every entry has a description, and can be compared. *)
Definition comparable (u : Z -> bool) (h : agg_hdl) : Prop :=
  forall id e, ah_ents (dtat_hash h) !! id = Some e -> exists d, dt_adesc h !! he_desc e = Some d /\ sane u (d, e).

Lemma comparable_at u h id : ah_wf (dtat_hash h) -> comparable u h -> id ∈ ah_all (dtat_hash h) -> exists x, ent_at h id = Some x /\ sane u x.
Proof.
  intros W C [e E]%(wf_all _ W). destruct (C id e E) as (d & Ed & S). exists (d, e). unfold ent_at. rewrite E. cbn. rewrite Ed. done.
Qed.

Lemma sorter_sorts {ld} `{LongDoubleOrder ld} u o s : keypos_ok (opt_sort o) -> sorts (sane u) (sorter_cmp o s).
Proof.
  intros Hk. assert (keypos_ok static_sort) as Hk0 by (unfold keypos_ok, static_sort; cbn; lia).
  assert (forall g, keypos_ok g -> sorts (sane u) (dt_aggregate_keycmp g)) as K
    by (intros g Hg; apply (sorts_mono (keys_ok u)); [by apply sorts_key|by intros x [? _]]).
  assert (forall g, sorts (sane u) (dt_aggregate_varcmp g)) as V by (intros g; apply sorts_three_way).
  destruct s; cbn [sorter_cmp]; [cbv zeta; destruct (negb _)|..];
    unfold dt_aggregate_varkeyrevcmp, dt_aggregate_varvalrevcmp, dt_aggregate_keyvarrevcmp, dt_aggregate_valvarrevcmp;
    unfold dt_aggregate_varvalcmp, dt_aggregate_varkeycmp, dt_aggregate_keyvarcmp, dt_aggregate_valvarcmp, dt_aggregate_valkeycmp;
    auto 6.
Qed.

(** A comparison of entries sorts pointers to them. *)
Lemma on_ids_compares (P : aggent -> Prop) c h : sorts P c -> compares (λ id, exists x, ent_at h id = Some x /\ P x) (on_ids h c).
Proof.
  intros [D [F T]]. split.
  - intros i j (x & Ei & Px) (y & Ej & Py). unfold on_ids. rewrite Ei, Ej. by apply F.
  - intros i j k (x & Ei & Px) (y & Ej & Py) (z & Ek & Pz). unfold on_ids. rewrite Ei, Ej, Ek. by apply T.
Qed.

Lemma sorted_ids_ok qsort `{Qsort qsort} {ld} `{LongDoubleOrder ld} u o s h :
  ah_wf (dtat_hash h) -> comparable u h -> keypos_ok (opt_sort o) ->
  sorted_ids qsort o h s ≡ₚ ah_all (dtat_hash h) /\
  StronglySorted (λ i j, exists x y r, ent_at h i = Some x /\ ent_at h j = Some y /\ sorter_cmp o s x y = Some r /\ r <= 0) (sorted_ids qsort o h s).
Proof.
  intros W C Hk. assert (sorted_ids qsort o h s ≡ₚ ah_all (dtat_hash h)) as Hp by (unfold sorted_ids; apply qsort_perm). split; [done|].
  pose proof (sorter_sorts u o s Hk) as S. assert (Forall (λ id, exists x, ent_at h id = Some x /\ sane u x) (sorted_ids qsort o h s)) as HF.
  { rewrite Hp. apply Forall_forall. intros id. by apply comparable_at. }
  assert (StronglySorted (λ i j, on_ids h (sorter_cmp o s) i j <= 0) (sorted_ids qsort o h s)) as HS.
  { unfold sorted_ids. apply (qsort_sorted_on nat (λ id, exists x, ent_at h id = Some x /\ sane u x)); [by unfold sorted_ids in Hp; rewrite <- Hp|by apply on_ids_compares]. }
  clear Hp. induction HS as [|i ids HS IH Hi]; [constructor|]. apply Forall_cons_1 in HF as [(x & Ei & Px) HF]. constructor; [by apply IH|].
  rewrite Forall_forall in *. intros j Hj. destruct (HF j Hj) as (y & Ej & Py). destruct (sorts_def _ _ S x y Px Py) as [r Er].
  exists x, y, r. do 3 (split; [done|]). pose proof (Hi j Hj) as Hle. unfold on_ids in Hle. rewrite Ei, Ej in Hle. cbn in Hle. by rewrite Er in Hle.
Qed.

Lemma sorted_order {ld} `{LongDoubleOrder ld} u o s h ids : ah_wf (dtat_hash h) -> comparable u h -> opts_ok o ->
  ids ≡ₚ ah_all (dtat_hash h) ->
  StronglySorted (λ i j, exists x y r, ent_at h i = Some x /\ ent_at h j = Some y /\ sorter_cmp o s x y = Some r /\ r <= 0) ids ->
  StronglySorted (λ i j, exists x y, ent_at h i = Some x /\ ent_at h j = Some y /\ walk_order o s x y <> Gt) ids.
Proof.
  intros W C Ho Hp HS. assert (Forall (λ id, id ∈ ah_all (dtat_hash h)) ids) as HF by (rewrite Hp; by apply Forall_forall).
  clear Hp. induction HS as [|i ids HS IH Hi]; [constructor|]. apply Forall_cons_1 in HF as [Hin HF]. constructor; [by apply IH|].
  rewrite Forall_forall in *. intros j Hj. destruct (Hi j Hj) as (x & y & r & Ex & Ey & Er & Hr). exists x, y. do 2 (split; [done|]).
  destruct (comparable_at u h i W C Hin) as (x' & Ex' & Sx), (comparable_at u h j W C (HF j Hj)) as (y' & Ey' & Sy). simplify_eq.
  by apply (sorter_order u o s x y r).
Qed.

Lemma entries_of h ids : ah_wf (dtat_hash h) -> ids ≡ₚ ah_all (dtat_hash h) ->
  exists es, Forall2 (λ id e, ah_ents (dtat_hash h) !! id = Some e) ids es.
Proof.
  intros W Hp. assert (Forall (λ id, is_Some (ah_ents (dtat_hash h) !! id)) ids) as HF.
  { rewrite Hp. apply Forall_forall. intros id. by apply wf_all. }
  clear Hp. induction HF as [|id ids [e E] _ [es IH]]; [by exists []|]. exists (e :: es). by constructor.
Qed.

(** C14: The sorted walks.  Assumed: the table is in order, every entry has a
    description and can be compared (its value can be computed without a failed assertion
    or a division by zero, keys of one size are all addresses or none, keys of fewer than
    2^30 components), a set aggsortkeypos is neither negative nor INT_MAX, the allocation
    succeeds, qsort() sorts by a total preorder, the order of long doubles is a strict
    weak order, and the function leaves id and key of the entries alone.  Then the
    function is called once for each entry of the table, until it ends the walk, in the
    order that the walk promises: by variable, key components (from aggsortkeypos on) and
    value, the value of counts, sums, minima and maxima being the signed number, of avg()
    the truncated quotient, of stddev() the standard deviation, of quantizations the sum
    that the code computes in long double arithmetic and then the count at zero; reversed
    if the walk or aggsortrev says so.  Afterwards the table is in order (its chains and
    its list hold its entries and nothing else) and holds what the function left of each
    entry, without those it removed; the keys of these are deleted from the maps. *)
Theorem dt_aggregate_walk_sorted_correct qsort {ld} `{LongDoubleOrder ld} {Arg} u o (func : ahashent -> Arg -> Z * ahashent * Arg) arg s h m :
  Qsort qsort -> ah_wf (dtat_hash h) -> comparable u h -> opts_ok o -> keeps_place func -> plenty m 1 ->
  exists ids es m', ids ≡ₚ ah_all (dtat_hash h) /\ Forall2 (λ id e, ah_ents (dtat_hash h) !! id = Some e) ids es /\
    StronglySorted (λ i j, exists x y, ent_at h i = Some x /\ ent_at h j = Some y /\ walk_order o s x y <> Gt) ids /\
    match visits func es arg with
    | (vs, None, arg') => exists a', dt_aggregate_walk_sorted qsort o func arg s h m = (Ok (a', removed vs, arg'), m') /\ length vs = length ids /\
        ah_wf a' /\ forall i id v, ids !! i = Some id -> vs !! i = Some v -> ah_ents a' !! id = left_by v
    | (_, Some err, _) => dt_aggregate_walk_sorted qsort o func arg s h m = (Err err, m')
    end.
Proof.
  intros Q W C Ho Hfn P. pose proof (proj1 (opts_keypos o Ho)) as Hk. destruct (sorted_ids_ok qsort u o s h W C Hk) as [Hp HS].
  destruct (entries_of h _ W Hp) as [es HF]. destruct (plenty_malloc m 0 P) as (m1 & Em & _).
  exists (sorted_ids qsort o h s), es, (if (length (ah_all (dtat_hash h)) =? 0)%nat then m else m1). do 2 (split; [done|]).
  split; [by eapply sorted_order|]. unfold dt_aggregate_walk_sorted. rewrite Em. cbn [negb].
  assert (NoDup (sorted_ids qsort o h s)) as Hnd by (rewrite Hp; apply W).
  pose proof (walk_ids_visits func _ es (dtat_hash h) arg Hnd HF) as HW.
  destruct (Nat.eqb_spec (length (ah_all (dtat_hash h))) 0) as [E0|N0].
  - assert (sorted_ids qsort o h s = []) as En by (apply length_zero_iff_nil; by rewrite (Permutation_length Hp)).
    rewrite En in *. apply Forall2_nil_inv_l in HF as ->. cbn in *. eexists. do 3 (split; [done|]). intros i id v [=].
  - destruct (visits func es arg) as [[vs [err|]] arg']; [by rewrite HW|]. destruct HW as (a' & Ew & Hl & Hin & _).
    exists a'. rewrite Ew. do 2 (split; [done|]). split; [by eapply walk_ids_wf|done].
Qed.

(** ** Examples *)

Module Table.
Import Exact.

(** Aggregations with a key of four bytes: two sums, avg() and stddev(). *)
Definition desc (v action : Z) (words : nat) : aggdesc := AggDesc v 4 action words action [Rec 1 4 0; Rec 1 4 4] 0.
Definition ent (v k : Z) (data : list Z) : ahashent := Ent v v (v, le_bytes 4 k) (1 :: data) None.
Definition descs : gmap Z aggdesc :=
  {[ 1 := desc 1 DT_AGG_SUM 1; 2 := desc 2 DT_AGG_COUNT 1; 3 := desc 3 DT_AGG_AVG 2; 4 := desc 4 DT_AGG_STDDEV 4 ]}.
Definition hdl (es : list ahashent) : agg_hdl :=
  Hdl descs ∅ 1 true true 0 0 0 (Ahash (list_to_map (zip (seq 0 (length es)) es)) [seq 0 (length es)] (seq 0 (length es))).

Definition entries : list ahashent := [ent 1 7 [10]; ent 1 8 [20]; ent 2 8 [5]; ent 2 9 [4]].

(** The table of these entries is in order. *)
Lemma ent_cases id e : ah_ents (dtat_hash (hdl entries)) !! id = Some e ->
  (id = 0%nat /\ e = ent 1 7 [10]) \/ (id = 1%nat /\ e = ent 1 8 [20]) \/ (id = 2%nat /\ e = ent 2 8 [5]) \/ (id = 3%nat /\ e = ent 2 9 [4]).
Proof.
  intros E%elem_of_list_to_map_2. cbn in E. repeat (apply elem_of_cons in E as [[= -> ->]|E]; [tauto|]). by apply not_elem_of_nil in E.
Qed.

Ltac ent_cases := repeat match goal with
  | E : ah_ents (dtat_hash (hdl entries)) !! _ = Some _ |- _ => apply ent_cases in E as [[-> ->]|[[-> ->]|[[-> ->]|[-> ->]]]] end.

Lemma entries_wf : ah_wf (dtat_hash (hdl entries)).
Proof.
  assert (forall hv, ah_ndx (dtat_hash (hdl entries)) hv = O) as Hn by (intros hv; unfold ah_ndx; cbn -[Z.modulo]; by rewrite Z.mod_1_r).
  assert (forall hv, ah_chain (dtat_hash (hdl entries)) hv = [0; 1; 2; 3]%nat) as Hc by (intros hv; unfold ah_chain; by rewrite Hn).
  assert (forall id, id ∈ [0; 1; 2; 3]%nat -> is_Some (ah_ents (dtat_hash (hdl entries)) !! id)) as Hs.
  { intros id Hin. repeat (apply elem_of_cons in Hin as [->|Hin]; [by eexists|]). by apply not_elem_of_nil in Hin. }
  split.
  - cbn. lia.
  - intros hv id. rewrite Hc. intros [e E]%Hs. exists e. by rewrite !Hn.
  - intros id e E. rewrite Hc. ent_cases; (split; [done|]); set_solver.
  - intros id id' e e' E E'. ent_cases; done.
  - intros id. split; [apply Hs|]. intros [e E]. ent_cases; cbn; set_solver.
  - apply NoDup_seq.
  - intros hv. rewrite Hc. exact (NoDup_seq 0 4).
Qed.

Lemma entries_comparable : comparable (λ _, false) (hdl entries).
Proof.
  assert (forall v action words e, action = DT_AGG_SUM \/ action = DT_AGG_COUNT -> sane (λ _, false) (desc v action words, e)) as S.
  { intros v action words e Ha. split; [split; [cbn; lia|by repeat constructor]|]. unfold value_ok. cbn. tauto. }
  intros id e E. ent_cases; eexists; (split; [reflexivity|]); apply S; tauto.
Qed.

Lemma dt_aggregate_walk_sorted_correct_witness : exists ids es m', ids ≡ₚ [0; 1; 2; 3]%nat /\
  Forall2 (λ id e, ah_ents (dtat_hash (hdl entries)) !! id = Some e) ids es /\
  match visits (λ e l, (3, e, l ++ [he_key e])) es [] with
  | (vs, None, arg') => exists a', dt_aggregate_walk_sorted insertion_qsort (SortOpts 0 (-2) (-2) (-2)) (λ e l, (3, e, l ++ [he_key e])) [] By_options
      (hdl entries) [true] = (Ok (a', removed vs, arg'), m') /\ ah_wf a'
  | _ => False
  end.
Proof.
  destruct (dt_aggregate_walk_sorted_correct insertion_qsort (λ _, false) (SortOpts 0 (-2) (-2) (-2)) (λ e l, (3, e, l ++ [he_key e])) [] By_options
    (hdl entries) [true]) as (ids & es & m' & Hp & HF & _ & HV).
  - exact insertion_qsort_ok.
  - exact entries_wf.
  - exact entries_comparable.
  - by left.
  - intros e arg. by repeat split.
  - by exists [].
  - exists ids, es, m'. split; [exact Hp|]. split; [exact HF|].
    assert (forall es l, snd (fst (visits (λ e l, (3, e, l ++ [he_key e])) es l)) = None) as E.
    { clear. induction es as [|e es IH]; intros l; [done|]. specialize (IH (l ++ [he_key e])).
      cbn [visits]. change (rval_error 3) with (@None agg_error). destruct (visits _ es _) as [[? ?] ?]. exact IH. }
    specialize (E es []).
    destruct (visits _ es _) as [[vs [err|]] arg']; [done|]. destruct HV as (a' & HV & _ & Hw & _). by exists a'.
Defined.
End Table.
