(* ===== verification/AggJoin.v ===== *)
(** * Joined walks over aggregations (libdtrace/dt_aggregate.c)

    dtrace_aggregate_walk_joined(), which printa() uses for several aggregations: for
    each key that any of them has, the function is called with the data of all, zero
    where an aggregation does not have the key.  The walk sorts the entries by key, cuts
    them into bundles of one key, and sorts the bundles by value.

    A failed assertion or a null pointer is [None]. *)

From stdpp Require Import base gmap list numbers option sorting sets.
From S2P Require Import Prelude AggBin Int128 Aggregate AggCmp AggOrder AggWalk.

(** ** Definitions *)

(** An element of zaggdata: the description, and the data that was copied from an entry. *)
Record zagg := ZAgg { z_desc : aggdesc; z_ent : option ahashent }.

(** An element of a bundle points to an entry or into zaggdata. *)
Inductive cell := Real (id : nat) | Zero (j : nat).

(** The elements in sorting order, and the entry with the representative key. *)
Record bundle := Bundle { b_cells : list cell; b_repr : nat }.

(** The data is zero; without an entry there is no key (here an empty one). *)
Definition zero_ent (z : zagg) : aggent :=
  let zdata := replicate (S (ad_words (z_desc z))) 0 in
  (z_desc z, match z_ent z with
             | Some e => Ent 0 (he_desc e) (he_key e) zdata (he_percpu e)
             | None => Ent 0 (ad_varid (z_desc z)) (0, []) zdata None
             end).

Section Join.
Context (qsort : forall A, (A -> A -> Z) -> list A -> list A) {ld : Type} `{LongDouble ld}.
Context (aggvars : list Z) (sortpos : nat).
Let n := length aggvars.

(** The variable at a position in sorting order. *)
Definition rot (i : nat) : Z :=
  let ndx := (i + sortpos)%nat in
  let ndx := if (n <=? ndx)%nat then (ndx - n)%nat else ndx in
  default 0 (aggvars !! ndx).

(** [mp]: the position of a variable (map[] less 1, without the zeroes); [remap] likewise,
    if it was allocated. *)
Fixpoint build_map (ps : list nat) (mp : gmap Z nat) (remap : option (gmap nat nat)) (m : allocs)
    : option (result agg_error (gmap Z nat * option (gmap nat nat)) * allocs) :=
  match ps with
  | [] => Some (Ok (mp, remap), m)
  | i :: ps =>
      let aggvar := rot i in
      match mp !! aggvar with
      | Some k =>
          let '(ok, m) := match remap with None => malloc m | Some _ => (true, m) end in
          if negb ok then Some (Err EDT_NOMEM, m)
          else if negb (default 0 (aggvars !! ((k + sortpos) mod n)%nat) =? aggvar) then None
          else build_map ps mp (Some (<[i := k]> (default ∅ remap))) m
      | None => build_map ps (<[aggvar := i]> mp) remap m
      end
  end.

Section Entries.
Context (h : agg_hdl) (mp : gmap Z nat) (remap : gmap nat nat).

(** The position of an entry's variable, if it is one of [aggvars]. *)
Definition pos_of (id : nat) : option nat := x ← ent_at h id; mp !! dt_aggregate_aggid x.
Definition selected : list nat := filter (λ id, is_Some (pos_of id)) (ah_all (dtat_hash h)).

(** The first pass: the first entry of each variable. *)
Definition first_step (z : list (option zagg)) (id : nat) : list (option zagg) :=
  match ent_at h id, pos_of id with
  | Some x, Some k => match z !! k with Some None => <[k := Some (ZAgg (fst x) (Some (snd x)))]> z | _ => z end
  | _, _ => z
  end.
Definition first_pass (z : list (option zagg)) : list (option zagg) := foldl first_step z (ah_all (dtat_hash h)).

(** The search for the description of a variable, by ids from 1 on. *)
Fixpoint find_desc (fuel : nat) (j : Z) (aggvar : Z) : option aggdesc :=
  match fuel with
  | O => None
  | S fuel =>
      match dt_adesc h !! j with
      | None => None
      | Some agg => if negb (ad_varid agg =? aggvar) then find_desc fuel (j + 1) aggvar else Some agg
      end
  end.

(** Without a description the first element is copied, which must have data. *)
Fixpoint fill_holes (ps : list nat) (z : list (option zagg)) : option (list (option zagg)) :=
  match ps with
  | [] => Some z
  | i :: ps =>
      match z !! i with
      | Some None =>
          let aggvar := default 0 (aggvars !! ((i + n - sortpos) mod n)%nat) in
          match find_desc (S (size (dt_adesc h))) (DTRACE_AGGIDNONE + 1) aggvar with
          | Some agg => fill_holes ps (<[i := Some (ZAgg agg None)]> z)
          | None =>
              match z with
              | Some zj :: _ => match z_ent zj with Some _ => fill_holes ps (<[i := Some zj]> z) | None => None end
              | _ => None
              end
          end
      | _ => fill_holes ps z
      end
  end.

(** Entries next to each other with the same key. *)
Fixpoint groups (l : list nat) : list (list nat) :=
  match l with
  | [] => []
  | x :: l =>
      match groups l with
      | (y :: grp) :: gs =>
          if on_ids h (dt_aggregate_keycmp static_sort) y x =? 0 then (x :: y :: grp) :: gs else [x] :: (y :: grp) :: gs
      | gs => [x] :: gs
      end
  end.

Fixpoint fill_slots (grp : list nat) (b : list (option cell)) : option (list (option cell)) :=
  match grp with
  | [] => Some b
  | id :: grp =>
      k ← pos_of id;
      match b !! k with Some None => fill_slots grp (<[k := Some (Real id)]> b) | _ => None end
  end.

Fixpoint fill_rest (js : list nat) (b : list (option cell)) : option (list (option cell)) :=
  match js with
  | [] => Some b
  | j :: js =>
      match b !! j with
      | Some None =>
          match remap !! j with
          | Some k =>
              if (j <=? k)%nat then None
              else match b !! k with Some (Some c) => fill_rest js (<[j := Some c]> b) | _ => None end
          | None => fill_rest js (<[j := Some (Zero j)]> b)
          end
      | _ => fill_rest js b
      end
  end.

Definition make_bundle (grp : list nat) : option bundle :=
  if (n <? length grp)%nat then None
  else
    b ← fill_slots grp (replicate n None);
    b ← fill_rest (seq 0 n) b;
    cells ← mapM id b;
    repr ← head grp;
    Some (Bundle cells repr).

(** One bundle is allocated after the other. *)
Fixpoint make_bundles (gs : list (list nat)) (m : allocs) : option (result agg_error (list bundle) * allocs) :=
  match gs with
  | [] => Some (Ok [], m)
  | grp :: gs =>
      if (n <? length grp)%nat then None
      else
        let '(ok, m) := malloc m in
        if negb ok then Some (Err EDT_NOMEM, m)
        else
          b ← make_bundle grp;
          '(r, m) ← make_bundles gs m;
          Some (match r with Ok bs => Ok (b :: bs) | Err e => Err e end, m)
  end.

Context (z : list zagg).

Definition cell_ent (c : cell) : option aggent :=
  match c with Real id => ent_at h id | Zero j => zero_ent <$> z !! j end.

Definition on_cells (c : aggent -> aggent -> option Z) (x y : cell) : option Z :=
  x ← cell_ent x; y ← cell_ent y; c x y.

(** The comparison of two bundles: the values one after the other, then or before the keys. *)
Fixpoint cells_cmp (g : sort) (xs ys : list cell) : option Z :=
  match xs, ys with
  | x :: xs, y :: ys => r ← on_cells (dt_aggregate_valcmp g) x y; if negb (r =? 0) then Some r else cells_cmp g xs ys
  | [], [] => Some 0
  | _, _ => None
  end.

Definition keys_cmp (g : sort) (x y : bundle) : option Z := on_cells (dt_aggregate_keycmp g) (Real (b_repr x)) (Real (b_repr y)).

Definition dt_aggregate_bundlecmp (g : sort) (x y : bundle) : option Z :=
  if (length (b_cells x) =? 0)%nat then None
  else if dt_keysort g then lex (keys_cmp g) (λ x y, cells_cmp g (b_cells x) (b_cells y)) x y
  else lex (λ x y, cells_cmp g (b_cells x) (b_cells y)) (keys_cmp g) x y.

(** data[]: the representative key, and the data in the order of [aggvars]. *)
Definition row_of (b : bundle) : option (list aggent) :=
  key ← ent_at h (b_repr b);
  row ← mapM (λ j, c ← b_cells b !! (if (j <? sortpos)%nat then j + n - sortpos else j - sortpos)%nat; cell_ent c) (seq 0 n);
  Some (key :: row).

Fixpoint join_walk {Arg} (func : list aggent -> Arg -> Z * Arg) (bs : list bundle) (a : ahash) (arg : Arg)
    : option (result agg_error (ahash * list aggkey * Arg)) :=
  match bs with
  | [] => Some (Ok (a, [], arg))
  | b :: bs =>
      row ← row_of b;
      let '(rval, arg) := func row arg in
      match dt_aggwalk_rval a (b_repr b) rval with
      | Err e => Some (Err e)
      | Ok (a, ks) =>
          r ← join_walk func bs a arg;
          Some (match r with Ok (a, ks', arg) => Ok (a, ks ++ ks', arg) | Err e => Err e end)
      end
  end.
End Entries.

(** [k] allocations. *)
Fixpoint mallocs (k : nat) (m : allocs) : bool * allocs :=
  match k with O => (true, m) | S k => let '(ok, m) := malloc m in if ok then mallocs k m else (false, m) end.

(** After the variables have been checked. *)
Definition walk_joined {Arg} (o : sortopts) (func : list aggent -> Arg -> Z * Arg) (arg : Arg) (h : agg_hdl) (m : allocs)
    : option (result agg_error (ahash * list aggkey * Arg) * allocs) :=
  let '(ok, m) := mallocs 2 m in
  if negb ok || (n =? 0)%nat then Some (Err EDT_NOMEM, m)
  else
    '(r, m) ← build_map (seq 0 n) ∅ None m;
    match r with
    | Err e => Some (Err e, m)
    | Ok (mp, remap) =>
        let sel := selected h mp in
        if (length sel =? 0)%nat then Some (Ok (dtat_hash h, [], arg), m)
        else
          z ← fill_holes h (seq 0 n) (first_pass h mp (replicate n None));
          z ← mapM id z;
          let '(ok, m) := mallocs (S n) m in
          if negb ok then Some (Err EDT_NOMEM, m)
          else
            let sorted := qsort nat (on_ids h (dt_aggregate_keyvarcmp static_sort)) sel in
            '(r, m) ← make_bundles h mp (default ∅ remap) (groups h sorted) m;
            match r with
            | Err e => Some (Err e, m)
            | Ok bs =>
                let bs := qsort bundle (λ x y, default 0 (dt_aggregate_bundlecmp h z (opt_sort o) x y)) bs in
                r ← join_walk h z func bs (dtat_hash h) arg;
                Some (r, m)
            end
    end.
End Join.

Inductive join_error := EDT_BADAGGVAR | Walk (e : agg_error).

(** The option aggsortpos, or 0 if there are not that many variables. *)
Definition sort_position (o : sortopts) (naggvars : nat) : Z :=
  if (aggsortpos o =? DTRACEOPT_UNSET) || (aggsortpos o >=? Z.of_nat naggvars) then 0 else aggsortpos o.

Definition dtrace_aggregate_walk_joined qsort {ld} `{LongDouble ld} {Arg} (o : sortopts) (aggvars : list Z)
    (func : list aggent -> Arg -> Z * Arg) (arg : Arg) (h : agg_hdl) (m : allocs)
    : option (result join_error (ahash * list aggkey * Arg) * allocs) :=
  let sortpos := sort_position o (length aggvars) in
  if existsb (λ v, v =? DTRACE_AGGVARIDNONE) aggvars then Some (Err EDT_BADAGGVAR, m)
  else
    '(r, m) ← walk_joined qsort aggvars (Z.to_nat sortpos) o func arg h m;
    Some (match r with Ok x => Ok x | Err e => Err (Walk e) end, m).

(** ** Positions *)

Section Positions.
Context (aggvars : list Z) (sortpos : nat) (Hsp : (sortpos < length aggvars)%nat).
Let n := length aggvars.

Lemma rot_mod i : (i < n)%nat -> rot aggvars sortpos i = default 0 (aggvars !! ((i + sortpos) mod n)%nat).
Proof.
  intros Hi. unfold rot. fold n. destruct (Nat.leb_spec n (i + sortpos)); [|by rewrite Nat.mod_small by lia].
  do 2 f_equal. apply (Nat.mod_unique _ _ 1); lia.
Qed.

(** The variable in column [j] is at this position. *)
Definition col (j : nat) : nat := if (j <? sortpos)%nat then (j + n - sortpos)%nat else (j - sortpos)%nat.

Lemma col_lt j : (j < n)%nat -> (col j < n)%nat.
Proof. intros Hj. unfold col. destruct (Nat.ltb_spec j sortpos); lia. Qed.

Lemma rot_col j : (j < n)%nat -> Some (rot aggvars sortpos (col j)) = aggvars !! j.
Proof.
  intros Hj. destruct (lookup_lt_is_Some_2 aggvars j Hj) as [v E]. unfold rot. fold n.
  assert ((if (n <=? col j + sortpos)%nat then (col j + sortpos - n)%nat else (col j + sortpos)%nat) = j) as ->.
  { unfold col. destruct (Nat.ltb_spec j sortpos), (Nat.leb_spec n (j + n - sortpos + sortpos)), (Nat.leb_spec n (j - sortpos + sortpos)); lia. }
  by rewrite E.
Qed.

Lemma rot_in i : (i < n)%nat -> rot aggvars sortpos i ∈ aggvars.
Proof.
  intros Hi. rewrite rot_mod by done. destruct (lookup_lt_is_Some_2 aggvars ((i + sortpos) mod n)) as [v E].
  - apply Nat.mod_upper_bound. fold n. lia.
  - rewrite E. by eapply list_elem_of_lookup_2.
Qed.

(** [k] is the first position of a variable. *)
Definition first_at (v : Z) (k : nat) : Prop := rot aggvars sortpos k = v /\ forall k', (k' < k)%nat -> rot aggvars sortpos k' <> v.

Lemma first_at_inj v k k' : first_at v k -> first_at v k' -> k = k'.
Proof.
  intros [E F] [E' F']. destruct (lt_eq_lt_dec k k') as [[Hlt|?]|Hgt]; [|done|]; exfalso; [by apply (F' k)|by apply (F k')].
Qed.

Lemma first_at_ex i : (i < n)%nat -> exists k, (k <= i)%nat /\ first_at (rot aggvars sortpos i) k.
Proof.
  induction (lt_wf i) as [i _ IH]. intros Hi.
  destruct (decide (Exists (λ k, rot aggvars sortpos k = rot aggvars sortpos i) (seq 0 i))) as [(k & Hk%elem_of_seq & E)%Exists_exists|N].
  - destruct (IH k) as (k0 & Hle & F); [lia|lia|]. exists k0. split; [lia|]. by rewrite <- E.
  - exists i. split; [done|]. split; [done|]. intros k Hk E. apply N, Exists_exists. exists k. split; [|done]. apply elem_of_seq. lia.
Qed.

(** What the loop over the first [i] positions has found. *)
Definition map_ok_to (i : nat) (mp : gmap Z nat) : Prop := forall v k, mp !! v = Some k <-> (k < i)%nat /\ first_at v k.
Definition remap_ok_to (i : nat) (remap : gmap nat nat) : Prop :=
  forall j k, remap !! j = Some k <-> (j < i)%nat /\ (k < j)%nat /\ first_at (rot aggvars sortpos j) k.

Lemma map_ok_new i mp : (i < n)%nat -> map_ok_to i mp -> mp !! rot aggvars sortpos i = None -> map_ok_to (S i) (<[rot aggvars sortpos i := i]> mp).
Proof.
  intros Hi M N v k. rewrite lookup_insert_Some, (M v k). split.
  - intros [[<- <-]|[Hne [Hk F]]]; (split; [lia|]); [|done]. split; [done|]. intros k' Hk' E.
    destruct (first_at_ex k') as (k0 & Hk0 & F); [lia|]. rewrite E in F.
    assert (mp !! rot aggvars sortpos i = Some k0) by (apply M; split; [lia|done]). congruence.
  - intros [Hk F]. destruct (decide (k = i)) as [->|Hne]; [left; by destruct F|right]. split; [|split; [lia|done]].
    intros Ev. rewrite Ev in N. assert (mp !! v = Some k) by (apply M; split; [lia|done]). congruence.
Qed.

Lemma map_ok_keep i mp k : map_ok_to i mp -> mp !! rot aggvars sortpos i = Some k -> map_ok_to (S i) mp.
Proof.
  intros M [Hk F]%(M _ _) v k'. rewrite (M v k'). split; [intros [? ?]; split; [lia|done]|]. intros [Hk' F'].
  destruct (decide (k' = i)) as [->|]; [|split; [lia|done]]. destruct F' as [Ev F']. rewrite Ev in F.
  pose proof (first_at_inj v k i F (conj Ev F')). lia.
Qed.

Lemma remap_ok_new i mp remap k : map_ok_to i mp -> mp !! rot aggvars sortpos i = Some k -> remap_ok_to i remap -> remap_ok_to (S i) (<[i := k]> remap).
Proof.
  intros M [Hk F]%(M _ _) R j k'. rewrite lookup_insert_Some, (R j k'). split.
  - intros [[<- <-]|[Hne (? & ? & ?)]]; split; [lia|split; [lia|done]|lia|done].
  - intros (Hj & Hk' & F'). destruct (decide (i = j)) as [<-|]; [left; split; [done|by eapply first_at_inj]|right]. split; [done|]. split; [lia|done].
Qed.

Lemma remap_ok_keep i mp remap : map_ok_to i mp -> mp !! rot aggvars sortpos i = None -> remap_ok_to i remap -> remap_ok_to (S i) remap.
Proof.
  intros M N R j k. rewrite (R j k). split; [intros (? & ? & ?); split; [lia|done]|]. intros (Hj & Hk & F). split; [|done].
  destruct (decide (j = i)) as [->|]; [|lia]. by rewrite (proj2 (M _ _) (conj Hk F)) in N.
Qed.

Lemma build_map_ok l i mp remap m c : l = seq i (n - i) -> (i <= n)%nat -> map_ok_to i mp -> remap_ok_to i (default ∅ remap) ->
  plenty m (match remap with None => S c | Some _ => c end) ->
  exists mp' remap' m', build_map aggvars sortpos l mp remap m = Some (Ok (mp', remap'), m') /\
    map_ok_to n mp' /\ remap_ok_to n (default ∅ remap') /\ plenty m' c.
Proof.
  revert i mp remap m. induction l as [|i' l IH]; intros i mp remap m Hl Hi M R P; cbn [build_map].
  - assert (i = n) as -> by (apply (f_equal length) in Hl; rewrite length_seq in Hl; cbn in Hl; lia).
    exists mp, remap, m. split; [done|]. split; [done|]. split; [done|]. eapply plenty_le; [done|]. destruct remap; lia.
  - assert (i < n)%nat as Hlt by (apply (f_equal length) in Hl; rewrite length_seq in Hl; cbn in Hl; lia).
    replace (n - i)%nat with (S (n - S i)) in Hl by lia. cbn [seq] in Hl. injection Hl as -> Hl.
    destruct (mp !! rot aggvars sortpos i) as [k|] eqn:E.
    + assert (exists m', (match remap with None => malloc m | Some _ => (true, m) end) = (true, m') /\ plenty m' c) as (m1 & -> & P1).
      { destruct remap; [by exists m|]. by apply plenty_malloc. }
      destruct (proj1 (M _ _) E) as [Hk F]. cbn [negb]. fold n. rewrite <- rot_mod by lia. rewrite (proj1 F), Z.eqb_refl. cbn [negb].
      apply (IH (S i)); [done|lia|by eapply map_ok_keep|by eapply remap_ok_new|done].
    + apply (IH (S i)); [done|lia|by apply map_ok_new|by eapply remap_ok_keep|done].
Qed.
End Positions.

(** ** Zero data *)

(** Entries with equal keys, in every component. *)
Definition same_key {ld} `{LongDouble ld} (x y : aggent) : Prop := key_compare 0 x y = Eq.

(** What a joined walk relies on: the table is in order, its entries can be compared;
    the ids of aggregations are those of their variables and there is no gap below those
    in [aggvars]; zero data of each of them can be compared; and two entries of one
    variable have different keys. *)
Record join_ok {ld} `{LongDouble ld} (u : Z -> bool) (aggvars : list Z) (h : agg_hdl) : Prop := {
  jo_wf : ah_wf (dtat_hash h);
  jo_cmp : comparable u h;
  jo_ids j d : dt_adesc h !! j = Some d -> ad_varid d = j /\ 0 < j;
  jo_descs v j : v ∈ aggvars -> 1 <= j <= v -> is_Some (dt_adesc h !! j);
  jo_vars v : v ∈ aggvars -> 0 < v;
  jo_zero v d : v ∈ aggvars -> dt_adesc h !! v = Some d -> sane u (zero_ent (ZAgg d None));
  jo_keys id id' x y : ent_at h id = Some x -> ent_at h id' = Some y -> dt_aggregate_aggid x = dt_aggregate_aggid y ->
    same_key x y -> id = id' }.

Section Zeros.
Context {ld : Type} `{LongDoubleOrder ld} (u : Z -> bool) (aggvars : list Z) (sortpos : nat) (h : agg_hdl).
Context (Hsp : (sortpos < length aggvars)%nat) (J : join_ok u aggvars h).
Let n := length aggvars.

Lemma aggid_desc id x : ent_at h id = Some x -> dt_adesc h !! dt_aggregate_aggid x = Some (fst x).
Proof.
  unfold ent_at, dt_aggregate_aggid. intros (e & E & (d & Ed & [= <-])%bind_Some)%bind_Some. cbn [fst].
  destruct (jo_ids _ _ _ J _ _ Ed) as [-> Hp]. unfold DTRACE_AGGVARIDNONE. destruct (Z.eqb_spec (he_desc e) 0); [lia|]. done.
Qed.

Lemma find_desc_ok fuel j v : v ∈ aggvars -> 1 <= j <= v -> v - j < Z.of_nat fuel -> find_desc h fuel j v = dt_adesc h !! v.
Proof.
  intros Hv. revert j. induction fuel as [|fuel IH]; intros j Hj Hf; [lia|]. cbn [find_desc].
  destruct (jo_descs _ _ _ J v j Hv Hj) as [d Ed]. rewrite Ed. destruct (jo_ids _ _ _ J j d Ed) as [-> _].
  destruct (Z.eqb_spec j v) as [->|]; [done|]. cbn [negb]. apply IH; lia.
Qed.

Lemma descs_size v : v ∈ aggvars -> v <= Z.of_nat (size (dt_adesc h)).
Proof.
  intros Hv. pose proof (jo_vars _ _ _ J v Hv) as Hp. set (l := Z.of_nat <$> seq 1 (Z.to_nat v)).
  assert (list_to_set l ⊆ dom (dt_adesc h) (D := gset Z)) as Hs.
  { intros j (k & -> & Hk%elem_of_seq)%elem_of_list_to_set%list_elem_of_fmap. apply elem_of_dom, (jo_descs _ _ _ J v); [done|lia]. }
  apply subseteq_size in Hs. rewrite size_dom in Hs. rewrite size_list_to_set in Hs.
  - subst l. rewrite length_fmap, length_seq in Hs. lia.
  - subst l. apply NoDup_fmap; [apply _|apply NoDup_seq].
Qed.

(** The description that a hole gets. *)
Definition hole_var (i : nat) : Z := default 0 (aggvars !! ((i + n - sortpos) mod n)%nat).

Lemma hole_var_in i : hole_var i ∈ aggvars.
Proof.
  unfold hole_var. destruct (lookup_lt_is_Some_2 aggvars ((i + n - sortpos) mod n)) as [v E].
  - apply Nat.mod_upper_bound. fold n. lia.
  - rewrite E. by eapply list_elem_of_lookup_2.
Qed.

Lemma fill_holes_ok l z : exists z', fill_holes aggvars sortpos h l z = Some z' /\ length z' = length z /\
  (forall k zk, z !! k = Some (Some zk) -> z' !! k = Some (Some zk)) /\
  (forall k, z !! k = Some None -> k ∈ l -> exists d, z' !! k = Some (Some (ZAgg d None)) /\ dt_adesc h !! hole_var k = Some d) /\
  (forall k, z !! k = Some None -> k ∉ l -> z' !! k = Some None).
Proof.
  revert z. induction l as [|i l IH]; intros z; cbn [fill_holes].
  - exists z. split; [done|]. split; [done|]. split; [done|]. split; [|done]. by intros k _ ?%not_elem_of_nil.
  - destruct (z !! i) as [[zi|]|] eqn:E.
    + destruct (IH z) as (z' & Ez & Hl & H1 & H2 & H3). exists z'. do 3 (split; [done|]). split.
      * intros k Hk [->|Hin]%elem_of_cons; [congruence|by apply H2].
      * intros k Hk [? ?]%not_elem_of_cons. by apply H3.
    + fold n. fold (hole_var i). rewrite find_desc_ok; [| |split; [done|]|].
      * destruct (jo_descs _ _ _ J (hole_var i) (hole_var i)) as [d Ed]; [apply hole_var_in| |]; [pose proof (jo_vars _ _ _ J _ (hole_var_in i)); lia|].
        rewrite Ed. destruct (IH (<[i := Some (ZAgg d None)]> z)) as (z' & Ez & Hl & H1 & H2 & H3). exists z'.
        assert (i < length z)%nat as Hi by by eapply lookup_lt_Some.
        split; [done|]. split; [by rewrite Hl, length_insert|]. split; [|split].
        -- intros k zk Hk. apply H1. rewrite list_lookup_insert_ne; [done|congruence].
        -- intros k Hk Hin. destruct (decide (k = i)) as [->|Hne].
           ++ exists d. split; [|done]. apply H1. by rewrite list_lookup_insert_eq.
           ++ apply H2; [by rewrite list_lookup_insert_ne|]. by apply elem_of_cons in Hin as [->|].
        -- intros k Hk [Hne Hn]%not_elem_of_cons. apply H3; [by rewrite list_lookup_insert_ne|done].
      * apply hole_var_in.
      * pose proof (jo_vars _ _ _ J _ (hole_var_in i)). unfold DTRACE_AGGIDNONE. lia.
      * pose proof (descs_size _ (hole_var_in i)). unfold DTRACE_AGGIDNONE. lia.
    + destruct (IH z) as (z' & Ez & Hl & H1 & H2 & H3). exists z'. do 3 (split; [done|]). split.
      * intros k Hk [->|Hin]%elem_of_cons; [congruence|by apply H2].
      * intros k Hk [? ?]%not_elem_of_cons. by apply H3.
Qed.

Context (mp : gmap Z nat) (M : map_ok_to aggvars sortpos n mp).

Lemma first_pos v : v ∈ aggvars -> exists k, (k < n)%nat /\ first_at aggvars sortpos v k.
Proof.
  intros (j & Ej)%list_elem_of_lookup. pose proof (lookup_lt_Some _ _ _ Ej) as Hj.
  pose proof (rot_col aggvars sortpos Hsp j Hj) as E. rewrite Ej in E. injection E as E.
  destruct (first_at_ex aggvars sortpos Hsp (col aggvars sortpos j)) as (k & Hk & F); [by apply col_lt|].
  exists k. pose proof (col_lt aggvars sortpos Hsp j Hj). rewrite E in F. split; [|done]. unfold n. lia.
Qed.

Lemma pos_of_Some id k : pos_of h mp id = Some k <-> exists x, ent_at h id = Some x /\ (k < n)%nat /\ first_at aggvars sortpos (dt_aggregate_aggid x) k.
Proof.
  unfold pos_of. rewrite bind_Some. split; intros (x & E & Hx); exists x; (split; [done|]); by apply M.
Qed.

Lemma selected_spec id : id ∈ selected h mp <-> exists x, ent_at h id = Some x /\ dt_aggregate_aggid x ∈ aggvars.
Proof.
  unfold selected. rewrite list_elem_of_filter. split.
  - intros [[k (x & E & Hk & [F _])%pos_of_Some] _]. exists x. split; [done|]. rewrite <- F. by apply rot_in.
  - intros (x & E & Hv). destruct (first_pos _ Hv) as (k & Hk & F). split; [exists k; apply pos_of_Some; eauto|].
    apply (wf_all _ (jo_wf _ _ _ J)). unfold ent_at in E. apply bind_Some in E as (e & -> & _). done.
Qed.

Lemma first_step_cases z id :
  (first_step h mp z id = z /\ forall k, z !! k = Some None -> pos_of h mp id <> Some k) \/
  exists x k, ent_at h id = Some x /\ pos_of h mp id = Some k /\ z !! k = Some None /\
    first_step h mp z id = <[k := Some (ZAgg (fst x) (Some (snd x)))]> z.
Proof.
  unfold first_step. destruct (pos_of h mp id) as [k|] eqn:Ek; [|left; by destruct (ent_at h id)].
  destruct (proj1 (pos_of_Some id k) Ek) as (x & Ex & _). rewrite Ex.
  destruct (z !! k) as [[zk|]|] eqn:Ez; [left| |left]; [split; [done|congruence]| |split; [done|congruence]].
  right. by exists x, k.
Qed.

Lemma first_pass_ok l z :
  let z' := foldl (first_step h mp) z l in
  length z' = length z /\ (forall k zk, z !! k = Some (Some zk) -> z' !! k = Some (Some zk)) /\
  (forall k, z !! k = Some None ->
    (exists id x, ent_at h id = Some x /\ pos_of h mp id = Some k /\ z' !! k = Some (Some (ZAgg (fst x) (Some (snd x))))) \/
    (z' !! k = Some None /\ forall id, id ∈ l -> pos_of h mp id <> Some k)).
Proof.
  revert z. induction l as [|id l IH]; intros z; cbn [foldl].
  - split; [done|]. split; [done|]. intros k Hk. right. split; [done|]. by intros id ?%not_elem_of_nil.
  - destruct (first_step_cases z id) as [[-> N]|(x & k0 & Ex & Ek & Ez & ->)].
    + destruct (IH z) as (Hl & H1 & H2). split; [done|]. split; [done|]. intros k Hk. destruct (H2 k Hk) as [?|[? Hn]]; [by left|right].
      split; [done|]. intros id' [->|Hin]%elem_of_cons; [by apply N|by apply Hn].
    + destruct (IH (<[k0 := Some (ZAgg (fst x) (Some (snd x)))]> z)) as (Hl & H1 & H2).
      assert (k0 < length z)%nat as Hk0 by by eapply lookup_lt_Some.
      split; [by rewrite Hl, length_insert|]. split; [intros k zk Hk; apply H1; rewrite list_lookup_insert_ne; [done|congruence]|].
      intros k Hk. destruct (decide (k = k0)) as [->|Hne].
      * left. exists id, x. do 2 (split; [done|]). apply H1. by rewrite list_lookup_insert_eq.
      * destruct (H2 k) as [?|[? Hn]]; [by rewrite list_lookup_insert_ne|by left|right]. split; [done|].
        intros id' [->|Hin]%elem_of_cons; [congruence|by apply Hn].
Qed.

(** An element of zaggdata in the end. *)
Definition zero_ok (k : nat) (zk : zagg) : Prop :=
  sane u (zero_ent zk) /\
  ((sortpos = 0%nat \/ exists id, pos_of h mp id = Some k) -> dt_adesc h !! rot aggvars sortpos k = Some (z_desc zk)).

Lemma zeros_ok : exists zz z, fill_holes aggvars sortpos h (seq 0 n) (first_pass h mp (replicate n None)) = Some zz /\
  mapM id zz = Some z /\ length z = n /\ forall k zk, z !! k = Some zk -> zero_ok k zk.
Proof.
  destruct (first_pass_ok (ah_all (dtat_hash h)) (replicate n None)) as (Hl & _ & H1). fold (first_pass h mp (replicate n None)) in *.
  destruct (fill_holes_ok (seq 0 n) (first_pass h mp (replicate n None))) as (zz & Ez & Hl2 & H2 & H3 & _).
  rewrite length_replicate in Hl. exists zz.
  assert (forall k, (k < n)%nat -> exists zk, zz !! k = Some (Some zk) /\ zero_ok k zk) as Hz.
  { intros k Hk. destruct (H1 k) as [(id & x & Ex & Ek & E)|[E Hn]]; [by apply lookup_replicate_2| |].
    - exists (ZAgg (fst x) (Some (snd x))). split; [by apply H2|]. destruct (proj1 (pos_of_Some id k) Ek) as (x' & Ex' & _ & [F _]).
      rewrite Ex in Ex'. injection Ex' as <-. pose proof (aggid_desc id x Ex) as Ed. split.
      + apply (jo_zero _ _ _ J (dt_aggregate_aggid x)); [rewrite <- F; by apply rot_in|done].
      + intros _. by rewrite F.
    - destruct (H3 k E) as (d & E' & Ed); [apply elem_of_seq; lia|]. exists (ZAgg d None). split; [done|]. split.
      + apply (jo_zero _ _ _ J (hole_var k)); [by apply hole_var_in|done].
      + intros [E0|[id Hid]].
        * unfold hole_var in Ed. fold n in Ed. rewrite rot_mod by done. fold n. rewrite E0 in Ed |- *.
          replace ((k + 0) mod n)%nat with ((k + n - 0) mod n)%nat; [done|]. rewrite Nat.add_0_r, Nat.sub_0_r.
          rewrite <- (Nat.mul_1_l n) at 1. by rewrite Nat.Div0.mod_add.
        * exfalso. apply (Hn id); [|done]. apply pos_of_Some in Hid as (x & Ex & _). apply (wf_all _ (jo_wf _ _ _ J)).
          unfold ent_at in Ex. apply bind_Some in Ex as (e & -> & _). done. }
  rewrite Hl in Hl2. clear - Hz Hl2 Ez.
  assert (exists z, mapM id zz = Some z) as [z E].
  { apply mapM_is_Some, Forall_lookup. intros k y Hy. destruct (Hz k) as (zk & E & _); [apply lookup_lt_Some in Hy; lia|].
    rewrite E in Hy. injection Hy as <-. by eexists. }
  exists z. split; [done|]. split; [done|]. apply mapM_Some in E. pose proof (Forall2_length _ _ _ E) as Hlen. split; [lia|].
  intros k zk Hk. destruct (Forall2_lookup_r _ _ _ _ _ E Hk) as (y & Hy & Ey). cbn in Ey. subst y.
  destruct (Hz k) as (zk' & E' & Ok); [apply lookup_lt_Some in Hk; lia|]. rewrite E' in Hy. by injection Hy as ->.
Qed.
End Zeros.

(** ** Bundles *)

Section Groups.
Context {ld : Type} `{LongDouble ld} (h : agg_hdl) (P : nat -> Prop).
Let kc := on_ids h (dt_aggregate_keycmp static_sort).
Context (C : compares P kc).

Lemma kc_sym i j : P i -> P j -> kc i j = 0 -> kc j i = 0.
Proof. destruct C as [F _]. intros Pi Pj E. pose proof (F i j Pi Pj). pose proof (F j i Pj Pi). lia. Qed.

Lemma kc_trans i j k : P i -> P j -> P k -> kc i j <= 0 -> kc j k <= 0 -> (kc i k = 0 <-> kc i j = 0 /\ kc j k = 0).
Proof.
  destruct C as [F T]. intros Pi Pj Pk H1 H2. pose proof (T i j k Pi Pj Pk H1 H2).
  pose proof (F i k Pi Pk). pose proof (F k i Pk Pi). pose proof (F i j Pi Pj). pose proof (F j i Pj Pi). pose proof (F j k Pj Pk). pose proof (F k j Pk Pj).
  pose proof (T k i j Pk Pi Pj). pose proof (T j k i Pj Pk Pi). pose proof (T k j i Pk Pj Pi). lia.
Qed.

(** The groups are the classes of equal keys. *)
Lemma groups_ok l : Forall P l -> StronglySorted (λ i j, kc i j <= 0) l ->
  concat (groups h l) = l /\ Forall (λ g, g <> []) (groups h l) /\
  Forall (λ g, forall i j, i ∈ g -> j ∈ g -> kc i j = 0) (groups h l) /\
  StronglySorted (λ g g', forall i j, i ∈ g -> j ∈ g' -> kc i j <> 0) (groups h l).
Proof.
  intros HP S. induction S as [|x l S IH Hx]; cbn [groups]; [repeat split; constructor|].
  apply Forall_cons_1 in HP as [Px HP]. destruct (IH HP) as (Hc & Hne & Heq & Hs).
  assert (kc x x = 0) as Hxx by (destruct C as [F _]; pose proof (F x x Px Px); lia).
  destruct (groups h l) as [|[|y g] gs] eqn:Eg.
  - cbn in Hc. subst l. split; [done|]. split; [by repeat constructor|]. split; [|by repeat constructor].
    constructor; [|done]. intros i j ->%list_elem_of_singleton ->%list_elem_of_singleton. done.
  - by apply Forall_cons_1 in Hne as [? _].
  - apply Forall_cons_1 in Hne as [_ Hne]. apply Forall_cons_1 in Heq as [Hg Heq]. cbn [concat app] in Hc.
    apply StronglySorted_inv in Hs as [Hs Hgs]. rewrite Forall_forall in HP, Hx.
    assert (forall i, i ∈ y :: g -> i ∈ l) as Hin by (intros i Hi; rewrite <- Hc; change (y :: g ++ concat gs) with ((y :: g) ++ concat gs); apply elem_of_app; by left).
    assert (forall g' i, g' ∈ gs -> i ∈ g' -> i ∈ l) as Hin2.
    { intros g' i Hg' Hi. rewrite <- Hc. right. apply elem_of_app. right. apply list_elem_of_In, in_concat. exists g'. by rewrite <- !list_elem_of_In. }
    assert (y ∈ l) as Hy by (apply Hin; by left).
    assert (forall i, i ∈ l -> kc y i <= 0) as Hyl.
    { intros i Hi. rewrite <- Hc in S, Hi. apply StronglySorted_inv in S as [_ S]. rewrite Forall_forall in S.
      apply elem_of_cons in Hi as [->|Hi]; [|by apply S]. rewrite (Hg y y); [lia|by left|by left]. }
    assert (forall i, i ∈ l -> (kc x i = 0 <-> kc x y = 0 /\ kc y i = 0)) as Hxi
      by (intros i Hi; apply kc_trans; [done|by apply HP|by apply HP|by apply Hx|by apply Hyl]).
    fold kc. destruct (Z.eqb_spec (kc y x) 0) as [E|N].
    + assert (kc x y = 0) as Exy by (apply kc_sym; [by apply HP|done|done]).
      split; [cbn; by rewrite <- Hc|]. split; [by constructor|]. split.
      * constructor; [|done]. intros i j [->|Hi]%elem_of_cons [->|Hj]%elem_of_cons; [done|..].
        -- apply Hxi; [by apply Hin|]. split; [done|]. apply Hg; [by left|done].
        -- apply kc_sym; [done|by apply HP, Hin|]. apply Hxi; [by apply Hin|]. split; [done|]. apply Hg; [by left|done].
        -- by apply Hg.
      * constructor; [done|]. rewrite Forall_forall in Hgs |- *. intros g' Hg' i j [->|Hi]%elem_of_cons Hj; [|by eapply Hgs].
        intros [_ E2]%Hxi; [|by eapply Hin2]. by apply (Hgs g' Hg' y j); [left|..].
    + assert (kc x y <> 0) as Nxy by (intros E; apply N, kc_sym; [done|by apply HP|done]).
      split; [cbn; by rewrite <- Hc|]. split; [by repeat constructor|]. split.
      * constructor; [|by constructor]. intros i j ->%list_elem_of_singleton ->%list_elem_of_singleton. done.
      * constructor; [by constructor|]. apply Forall_cons_2.
        -- intros i j ->%list_elem_of_singleton Hj [? _]%Hxi; [done|by apply Hin].
        -- rewrite Forall_forall. intros g' Hg' i j ->%list_elem_of_singleton Hj [? _]%Hxi; [done|by eapply Hin2].
Qed.
End Groups.

Section Bundles.
Context (aggvars : list Z) (sortpos : nat) (h : agg_hdl) (Hsp : (sortpos < length aggvars)%nat).
Let n := length aggvars.
Context (mp : gmap Z nat) (M : map_ok_to aggvars sortpos n mp) (remap : gmap nat nat) (R : remap_ok_to aggvars sortpos n remap).

(** The entries of a group are at different positions. *)
Definition group_ok (g : list nat) : Prop :=
  NoDup g /\ (forall id, id ∈ g -> exists k, pos_of h mp id = Some k /\ (k < n)%nat) /\
  (forall id id' k, id ∈ g -> id' ∈ g -> pos_of h mp id = Some k -> pos_of h mp id' = Some k -> id = id').

Lemma group_ok_cons id g : group_ok (id :: g) -> group_ok g.
Proof.
  intros (Hn & Hp & Hi). apply NoDup_cons in Hn as [_ Hn]. split; [done|]. split; [intros i ?; apply Hp; by right|].
  intros i j k Hi' Hj. apply Hi; by right.
Qed.

Lemma group_length g : group_ok g -> (length g <= n)%nat.
Proof.
  intros G. assert (exists ks, Forall2 (λ id k, pos_of h mp id = Some k) g ks) as [ks HF].
  { induction g as [|id g IH]; [by exists []|]. destruct (IH (group_ok_cons _ _ G)) as [ks IH'].
    destruct (proj1 (proj2 G) id) as (k & E & _); [by left|]. exists (k :: ks). by constructor. }
  rewrite (Forall2_length _ _ _ HF), <- (length_seq n 0). apply submseteq_length, NoDup_submseteq.
  - apply NoDup_alt. intros i j k Hi Hj.
    destruct (Forall2_lookup_r _ _ _ _ _ HF Hi) as (a & Ha & Ea), (Forall2_lookup_r _ _ _ _ _ HF Hj) as (b & Hb & Eb).
    assert (a = b) as -> by (apply (proj2 (proj2 G) a b k); [by eapply list_elem_of_lookup_2|by eapply list_elem_of_lookup_2|done|done]).
    by apply (proj1 (NoDup_alt g) (proj1 G) i j b).
  - intros k (i & Hi)%list_elem_of_lookup. destruct (Forall2_lookup_r _ _ _ _ _ HF Hi) as (a & Ha & Ea).
    destruct (proj1 (proj2 G) a) as (k' & E & Hk); [by eapply list_elem_of_lookup_2|]. apply elem_of_seq. rewrite Ea in E. injection E as <-. lia.
Qed.

Lemma fill_slots_ok g b : group_ok g -> (forall id k, id ∈ g -> pos_of h mp id = Some k -> b !! k = Some None) ->
  exists b', fill_slots h mp g b = Some b' /\ length b' = length b /\
    (forall id k, id ∈ g -> pos_of h mp id = Some k -> b' !! k = Some (Some (Real id))) /\
    (forall k, (forall id, id ∈ g -> pos_of h mp id <> Some k) -> b' !! k = b !! k).
Proof.
  revert b. induction g as [|id g IH]; intros b G Hb; cbn [fill_slots].
  - exists b. split; [done|]. split; [done|]. split; [|done]. by intros id k ?%not_elem_of_nil.
  - destruct (proj1 (proj2 G) id) as (k & E & _); [by left|]. rewrite E. cbn [mbind option_bind]. rewrite (Hb id k) by (done || by left).
    assert (forall id' k', id' ∈ g -> pos_of h mp id' = Some k' -> k' <> k) as Hne.
    { intros id' k' Hin E' ->. destruct G as (Hn & _ & Hi). apply NoDup_cons in Hn as [Hn _]. apply Hn.
      by rewrite (Hi id id' k) by (done || by left || by right). }
    destruct (IH (<[k := Some (Real id)]> b)) as (b' & Eb & Hl & H1 & H2); [by eapply group_ok_cons| |].
    { intros id' k' Hin E'. rewrite list_lookup_insert_ne; [apply (Hb id'); [by right|done]|]. by pose proof (Hne id' k' Hin E'). }
    exists b'. split; [done|]. split; [by rewrite Hl, length_insert|]. split.
    + intros id' k' [->|Hin]%elem_of_cons E'; [|by apply H1]. rewrite E in E'. injection E' as <-. rewrite H2.
      * rewrite list_lookup_insert_eq; [done|]. eapply lookup_lt_Some. apply (Hb id); [by left|done].
      * intros id' Hin E'. by apply (Hne id' k).
    + intros k' Hk'. rewrite H2 by (intros id' Hin; apply Hk'; by right). rewrite list_lookup_insert_ne; [done|]. intros <-.
      by apply (Hk' id); [left|].
Qed.

(** What is at a position in the end: the entry of the variable, or the zero data at its first position. *)
Definition cell_ok (g : list nat) (j : nat) (c : cell) : Prop :=
  exists f, first_at aggvars sortpos (rot aggvars sortpos j) f /\ (f < n)%nat /\
    ((exists id, id ∈ g /\ pos_of h mp id = Some f /\ c = Real id) \/ ((forall id, id ∈ g -> pos_of h mp id <> Some f) /\ c = Zero f)).

Lemma fill_rest_ok g i l b : l = seq i (n - i) -> (i <= n)%nat -> length b = n ->
  (forall j, (j < i)%nat -> exists c, b !! j = Some (Some c) /\ cell_ok g j c) ->
  (forall j, (i <= j < n)%nat -> (exists id, id ∈ g /\ pos_of h mp id = Some j /\ b !! j = Some (Some (Real id))) \/
    ((forall id, id ∈ g -> pos_of h mp id <> Some j) /\ b !! j = Some None)) ->
  exists b', fill_rest remap l b = Some b' /\ length b' = n /\ forall j, (j < n)%nat -> exists c, b' !! j = Some (Some c) /\ cell_ok g j c.
Proof.
  revert i b. induction l as [|i' l IH]; intros i b Hl Hi Hb Hd Ht; cbn [fill_rest].
  - assert (i = n) as -> by (apply (f_equal length) in Hl; rewrite length_seq in Hl; cbn in Hl; lia). by exists b.
  - assert (i < n)%nat as Hlt by (apply (f_equal length) in Hl; rewrite length_seq in Hl; cbn in Hl; lia).
    replace (n - i)%nat with (S (n - S i)) in Hl by lia. cbn [seq] in Hl. injection Hl as -> Hl.
    assert (forall c, cell_ok g i c -> exists b', fill_rest remap l (<[i := Some c]> b) = Some b' /\ length b' = n /\
      forall j, (j < n)%nat -> exists c, b' !! j = Some (Some c) /\ cell_ok g j c) as Step.
    { intros c Hc. apply (IH (S i)); [done|lia|by rewrite length_insert| |].
      - intros j Hj. destruct (decide (j = i)) as [->|]; [exists c; split; [apply list_lookup_insert_eq; lia|done]|].
        rewrite list_lookup_insert_ne by done. apply Hd. lia.
      - intros j Hj. rewrite list_lookup_insert_ne by lia. apply Ht. lia. }
    destruct (Ht i) as [(id & Hin & E & Eb)|[N Eb]]; [lia| |]; rewrite Eb.
    + rewrite <- (list_insert_id b i (Some (Real id))) by done. apply Step.
      assert (first_at aggvars sortpos (rot aggvars sortpos i) i) as F.
      { unfold pos_of in E. apply bind_Some in E as (x & _ & [_ F]%(M _ _)). destruct F as [F1 F2]. by rewrite F1. }
      exists i. split; [done|]. split; [lia|]. left. by exists id.
    + destruct (remap !! i) as [k|] eqn:Er.
      * destruct (proj1 (R i k) Er) as (_ & Hk & F). destruct (Nat.leb_spec i k); [lia|].
        destruct (Hd k Hk) as (c & -> & (f & Ff & Hf & Hc)). apply Step. exists f. rewrite <- (proj1 F). done.
      * apply Step. destruct (first_at_ex aggvars sortpos Hsp i) as (k & Hk & F); [fold n; lia|].
        assert (k = i) as ->.
        { destruct (decide (k = i)); [done|]. assert (remap !! i = Some k) by (apply R; split; [lia|split; [lia|done]]). congruence. }
        exists i. split; [done|]. split; [lia|]. by right.
Qed.

Definition bundle_ok (g : list nat) (b : bundle) : Prop :=
  length (b_cells b) = n /\ Some (b_repr b) = head g /\ forall j c, b_cells b !! j = Some c -> cell_ok g j c.

Lemma make_bundle_ok g : group_ok g -> g <> [] -> exists b, make_bundle aggvars h mp remap g = Some b /\ bundle_ok g b.
Proof.
  intros G Hne. unfold make_bundle. fold n. pose proof (group_length g G) as Hg. destruct (Nat.ltb_spec n (length g)); [lia|].
  destruct (fill_slots_ok g (replicate n None) G) as (b1 & -> & Hl & H1 & H2).
  { intros id k Hin E. destruct (proj1 (proj2 G) id Hin) as (k' & E' & Hk). rewrite E in E'. injection E' as <-. by apply lookup_replicate_2. }
  rewrite length_replicate in Hl. cbn [mbind option_bind].
  destruct (fill_rest_ok g 0 (seq 0 n) b1) as (b2 & -> & Hl2 & H3); [by rewrite Nat.sub_0_r|lia|done|lia| |].
  { intros j Hj. destruct (decide (Exists (λ id, pos_of h mp id = Some j) g)) as [(id & Hin & E)%Exists_exists|N].
    - left. exists id. split; [done|]. split; [done|]. by apply H1.
    - right. assert (forall id, id ∈ g -> pos_of h mp id <> Some j) as N' by (intros id Hin E; apply N, Exists_exists; by exists id).
      split; [done|]. rewrite H2 by done. apply lookup_replicate_2. lia. }
  cbn [mbind option_bind]. assert (exists cells, mapM id b2 = Some cells) as [cells Ec].
  { apply mapM_is_Some, Forall_lookup. intros j y Hy. destruct (H3 j) as (c & E & _); [apply lookup_lt_Some in Hy; lia|].
    rewrite E in Hy. injection Hy as <-. by eexists. }
  rewrite Ec. cbn [mbind option_bind]. destruct g as [|r g]; [done|]. cbn [head mbind option_bind]. eexists. split; [done|].
  apply mapM_Some in Ec. pose proof (Forall2_length _ _ _ Ec). split; [cbn; lia|]. split; [done|]. cbn [b_cells].
  intros j c Hj. destruct (Forall2_lookup_r _ _ _ _ _ Ec Hj) as (y & Hy & Ey). cbn in Ey. subst y.
  destruct (H3 j) as (c' & E & Ok); [apply lookup_lt_Some in Hj; lia|]. rewrite E in Hy. by injection Hy as ->.
Qed.

Lemma make_bundles_ok gs m c : Forall group_ok gs -> Forall (λ g, g <> []) gs -> plenty m (length gs + c) ->
  exists bs m', make_bundles aggvars h mp remap gs m = Some (Ok bs, m') /\ Forall2 bundle_ok gs bs /\ plenty m' c.
Proof.
  intros HG. revert m. induction HG as [|g gs Hg _ IH]; intros m HN P; cbn [make_bundles].
  - exists [], m. done.
  - apply Forall_cons_1 in HN as [Hne HN]. fold n. pose proof (group_length g Hg). destruct (Nat.ltb_spec n (length g)); [lia|].
    destruct (plenty_malloc m (length gs + c) P) as (m1 & -> & P1). cbn [negb].
    destruct (make_bundle_ok g Hg Hne) as (b & -> & Hb). cbn [mbind option_bind].
    destruct (IH m1 HN P1) as (bs & m' & -> & HF & P'). exists (b :: bs), m'. split; [done|]. split; [by constructor|done].
Qed.
End Bundles.

(** ** The order of the rows *)

Lemma sorts_via {A B} (P : A -> Prop) c (f : B -> option A) : sorts P c ->
  sorts (λ b, exists a, f b = Some a /\ P a) (λ b b', a ← f b; a' ← f b'; c a a').
Proof.
  intros [D [F T]]. split.
  - intros x y (a & Ea & Pa) (b & Eb & Pb). rewrite Ea, Eb. by apply D.
  - split.
    + intros x y (a & Ea & Pa) (b & Eb & Pb). rewrite Ea, Eb. by apply F.
    + intros x y z (a & Ea & Pa) (b & Eb & Pb) (d & Ed & Pd). rewrite Ea, Eb, Ed. by apply T.
Qed.

Section Rows.
Context {ld : Type} `{LongDoubleOrder ld} (u : Z -> bool) (g : sort).

(** The values of two rows, one after the other. *)
Fixpoint vals_cmp (xs ys : list aggent) : option Z :=
  match xs, ys with
  | x :: xs, y :: ys => r ← dt_aggregate_valcmp g x y; if negb (r =? 0) then Some r else vals_cmp xs ys
  | [], [] => Some 0
  | _, _ => None
  end.

Abbreviation keycmp_rows := (λ x y : aggent * list aggent, dt_aggregate_keycmp g (fst x) (fst y)).
Abbreviation valcmp_rows := (λ x y : aggent * list aggent, vals_cmp (snd x) (snd y)).

(** A row is a key and the values in sorting order. *)
Definition row_cmp (x y : aggent * list aggent) : option Z :=
  if dt_keysort g then lex keycmp_rows valcmp_rows x y else lex valcmp_rows keycmp_rows x y.

Lemma sorts_vals n : sorts (λ xs, length xs = n /\ Forall (sane u) xs) vals_cmp.
Proof.
  induction n as [|n IH].
  - apply (sorts_ext _ (λ _ _, Some 0)); [apply sorts_const|]. by intros [|] [|] [[=] _] [[=] _].
  - apply (sorts_ext _ (lex (λ xs ys, x ← head xs; y ← head ys; dt_aggregate_valcmp g x y) (λ xs ys, vals_cmp (tail xs) (tail ys)))).
    + apply sorts_lex.
      * apply (sorts_mono (λ xs, exists x, head xs = Some x /\ sane u x)); [apply sorts_via, sorts_val|].
        intros [|x xs] [[=] Hs]. apply Forall_cons_1 in Hs as [? _]. by exists x.
      * intros z _. apply (sorts_mono (λ xs, exists t, Some (tail xs) = Some t /\ length t = n /\ Forall (sane u) t)).
        -- apply (sorts_via _ _ (λ xs, Some (tail xs)) IH).
        -- intros [|x xs] [[[= Hl] Hs] _]. apply Forall_cons_1 in Hs as [_ Hs]. by exists xs.
    + intros [|x xs] [|y ys] [[= Hx] _] [[= Hy] _]. done.
Qed.

Lemma sorts_rows n : keypos_ok g -> sorts (λ r : aggent * list aggent, sane u (fst r) /\ length (snd r) = n /\ Forall (sane u) (snd r)) row_cmp.
Proof.
  intros Hk. assert (sorts (λ r : aggent * list aggent, sane u (fst r) /\ length (snd r) = n /\ Forall (sane u) (snd r)) keycmp_rows) as K.
  { apply (sorts_mono (λ r, exists x, Some (fst r) = Some x /\ keys_ok u x)); [apply (sorts_via _ _ (λ r, Some (fst r)) (sorts_key g u Hk))|].
    intros [k xs] [[Hs _] _]. by exists k. }
  assert (sorts (λ r : aggent * list aggent, sane u (fst r) /\ length (snd r) = n /\ Forall (sane u) (snd r)) valcmp_rows) as V.
  { apply (sorts_mono (λ r, exists x, Some (snd r) = Some x /\ length x = n /\ Forall (sane u) x)); [apply (sorts_via _ _ (λ r, Some (snd r)) (sorts_vals n))|].
    intros [k xs] [_ Hs]. by exists xs. }
  unfold row_cmp. destruct (dt_keysort g); by apply sorts_lex_both.
Qed.

(** The order of rows: by keys, with equal keys by values, or by values, with
    equal values by keys. *)
Fixpoint values_compare (xs ys : list aggent) : comparison :=
  match xs, ys with x :: xs, y :: ys => then_by (val_compare x y) (values_compare xs ys) | _, _ => Eq end.
Definition row_compare (keysort : bool) (keypos : Z) (x y : aggent * list aggent) : comparison :=
  if keysort then then_by (key_compare keypos (fst x) (fst y)) (values_compare (snd x) (snd y))
  else then_by (values_compare (snd x) (snd y)) (key_compare keypos (fst x) (fst y)).

Lemma rows_spell n : keypos_ok g ->
  spells (λ r : aggent * list aggent, sane u (fst r) /\ length (snd r) = n /\ Forall (sane u) (snd r)) (dt_revsort g)
    row_cmp (row_compare (dt_keysort g) (dt_keypos g)).
Proof.
  intros Hk. assert (forall xs ys, length xs = length ys -> Forall (sane u) xs -> Forall (sane u) ys ->
    vals_cmp xs ys = Some (sign (dt_revsort g) (values_compare xs ys))) as V.
  { induction xs as [|x xs IH]; intros [|y ys] Hl Hx Hy; try done. cbn [vals_cmp values_compare].
    apply Forall_cons_1 in Hx as [Sx Hx], Hy as [Sy Hy]. rewrite (valcmp_spells u g x y Sx Sy). cbn [mbind option_bind].
    destruct (val_compare x y); cbn [then_by sign]; [|by destruct (dt_revsort g)..]. apply IH; [cbn in Hl; lia|done..]. }
  unfold row_cmp, row_compare. destruct (dt_keysort g); apply spells_lex;
    intros [k xs] [k' ys] (Sk & Hl & Hs) (Sk' & Hl' & Hs'); cbn [fst snd] in *;
    first [apply V; [lia|done..]|apply (keycmp_spells u g Hk); [apply Sk|apply Sk']].
Qed.

(** The key and the values of a bundle. *)
Definition bundle_row (h : agg_hdl) (z : list zagg) (b : bundle) : option (aggent * list aggent) :=
  key ← ent_at h (b_repr b); xs ← mapM (cell_ent h z) (b_cells b); Some (key, xs).

Lemma cells_cmp_vals h z cs cs' xs xs' : mapM (cell_ent h z) cs = Some xs -> mapM (cell_ent h z) cs' = Some xs' ->
  length cs = length cs' -> cells_cmp h z g cs cs' = vals_cmp xs xs'.
Proof.
  intros E E'. apply mapM_Some in E, E'. revert cs' xs' E'. induction E as [|c x cs xs Ec E IH]; intros cs' xs' E' Hl.
  - destruct cs'; [|done]. by apply Forall2_nil_inv_l in E' as ->.
  - destruct E' as [|c' x' cs' xs' Ec' E']; [done|]. cbn [cells_cmp vals_cmp]. unfold on_cells. rewrite Ec, Ec'. cbn [mbind option_bind].
    destruct (dt_aggregate_valcmp g x x') as [r|]; [|done]. cbn. destruct (negb (r =? 0)); [done|]. apply IH; [done|]. cbn in Hl. lia.
Qed.

Lemma bundlecmp_row h z n b b' r r' : bundle_row h z b = Some r -> bundle_row h z b' = Some r' ->
  length (b_cells b) = n -> length (b_cells b') = n -> n <> 0%nat -> dt_aggregate_bundlecmp h z g b b' = row_cmp r r'.
Proof.
  unfold bundle_row. intros (k & Ek & (xs & Ex & [= <-])%bind_Some)%bind_Some (k' & Ek' & (xs' & Ex' & [= <-])%bind_Some)%bind_Some Hb Hb' Hn.
  unfold dt_aggregate_bundlecmp, row_cmp. destruct (Nat.eqb_spec (length (b_cells b)) 0); [lia|].
  unfold lex, keys_cmp, on_cells. cbn [cell_ent]. rewrite Ek, Ek'. cbn [mbind option_bind fst snd].
  rewrite (cells_cmp_vals h z _ _ xs xs') by (done || lia). done.
Qed.
End Rows.

(** ** What a joined walk does *)


(** The data of a variable in the row of a key: that of the entry with this key, or else
    zero.  The zero data has the variable's description if there is any entry of the
    variable, or no other sorting position. *)
Definition column_ok {ld} `{LongDouble ld} (sortpos : nat) (h : agg_hdl) (key : aggent) (v : Z) (x : aggent) : Prop :=
  (exists id, ent_at h id = Some x /\ dt_aggregate_aggid x = v /\ same_key x key) \/
  ((forall id y, ent_at h id = Some y -> dt_aggregate_aggid y = v -> ~ same_key y key) /\
   he_data (snd x) = replicate (S (ad_words (fst x))) 0 /\
   ((sortpos = 0%nat \/ exists id y, ent_at h id = Some y /\ dt_aggregate_aggid y = v) -> dt_adesc h !! v = Some (fst x))).

Lemma static_keypos : keypos_ok static_sort.
Proof. unfold keypos_ok. cbn. lia. Qed.

Section Assemble.
Context {ld : Type} `{LongDoubleOrder ld} (u : Z -> bool) (aggvars : list Z) (sortpos : nat) (h : agg_hdl).
Context (Hsp : (sortpos < length aggvars)%nat) (J : join_ok u aggvars h).
Let n := length aggvars.
Context (mp : gmap Z nat) (M : map_ok_to aggvars sortpos n mp).
Context (z : list zagg) (Hz : length z = n) (Zok : forall k zk, z !! k = Some zk -> zero_ok u aggvars sortpos h mp k zk).
Let kc := on_ids h (dt_aggregate_keycmp static_sort).

Lemma ent_sane id x : ent_at h id = Some x -> sane u x.
Proof.
  unfold ent_at. intros (e & E & (d & Ed & [= <-])%bind_Some)%bind_Some. destruct (jo_cmp _ _ _ J id e E) as (d' & Ed' & S). congruence.
Qed.

Lemma kc_same i j x y : ent_at h i = Some x -> ent_at h j = Some y -> kc i j = 0 <-> same_key x y.
Proof.
  intros Ei Ej. unfold kc, on_ids, same_key. rewrite Ei, Ej. cbn [mbind option_bind].
  pose proof (ent_sane i x Ei) as [Hx _]. pose proof (ent_sane j y Ej) as [Hy _].
  rewrite (keycmp_spells u static_sort static_keypos x y Hx Hy). apply sign_0.
Qed.

(** A group of one key, with all entries of that key. *)
Definition class_ok (g : list nat) : Prop :=
  g ⊆ selected h mp /\ (forall i j, i ∈ g -> j ∈ g -> kc i j = 0) /\ (forall i j, i ∈ g -> j ∈ selected h mp -> kc j i = 0 -> j ∈ g).

Lemma class_group g : NoDup g -> class_ok g -> group_ok aggvars h mp g.
Proof.
  intros Hn (Hs & He & _). split; [done|]. split.
  - intros id Hin. pose proof (Hs id Hin) as Hsel. unfold selected in Hsel. apply list_elem_of_filter in Hsel as [[k E] _]. exists k.
    split; [done|]. by apply (pos_of_Some aggvars sortpos h mp M) in E as (x & _ & ? & _).
  - intros id id' k Hin Hin' (x & Ex & _ & [F _])%(pos_of_Some aggvars sortpos h mp M) (y & Ey & _ & [F' _])%(pos_of_Some aggvars sortpos h mp M).
    apply (jo_keys _ _ _ J id id' x y Ex Ey); [congruence|]. apply (kc_same id id'); [done|done|by apply He].
Qed.

Lemma cell_ent_ok g j c key : class_ok g -> (forall i, i ∈ g -> kc i key = 0) -> key ∈ g -> cell_ok aggvars sortpos h mp g j c ->
  exists x y, cell_ent h z c = Some x /\ sane u x /\ ent_at h key = Some y /\ column_ok sortpos h y (rot aggvars sortpos j) x.
Proof.
  intros (Hs & He & Hall) Hkey Hin (f & F & Hf & Hc).
  destruct (proj1 (selected_spec u aggvars sortpos h Hsp J mp M key) (Hs key Hin)) as (y & Ey & _).
  destruct Hc as [(id & Hid & Ep & ->)|[N ->]].
  - destruct (proj1 (pos_of_Some aggvars sortpos h mp M id f) Ep) as (x & Ex & _ & [F' _]). exists x, y. cbn [cell_ent].
    split; [done|]. split; [by apply (ent_sane id)|]. split; [done|]. left. exists id. split; [done|]. split; [destruct F; congruence|].
    apply (kc_same id key); [done|done|by apply Hkey].
  - destruct (lookup_lt_is_Some_2 z f) as [zf Ez]; [by rewrite Hz|]. destruct (Zok f zf Ez) as [Sz Dz]. exists (zero_ent zf), y.
    cbn [cell_ent]. rewrite Ez. split; [done|]. split; [done|]. split; [done|]. right.
    assert (forall id y', ent_at h id = Some y' -> dt_aggregate_aggid y' = rot aggvars sortpos j -> pos_of h mp id = Some f) as Hp.
    { intros id y' E Ev. apply (pos_of_Some aggvars sortpos h mp M). exists y'. split; [done|]. split; [done|]. by rewrite Ev. }
    split; [|split].
    + intros id y' E Ev Sk. apply (N id); [|by eapply Hp]. apply (Hall key); [done| |by apply (kc_same id key y' y)].
      apply (selected_spec u aggvars sortpos h Hsp J mp M). exists y'. split; [done|]. rewrite Ev, <- (proj1 F). by apply rot_in.
    + by destruct zf as [d [e|]].
    + intros Hd. rewrite <- (proj1 F). change (fst (zero_ent zf)) with (z_desc zf). apply Dz.
      destruct Hd as [?|(id & y' & E & Ev)]; [by left|right]. exists id. by eapply Hp.
Qed.

(** A bundle is a row. *)
Definition row_ok (p : nat * list aggent) : Prop :=
  exists key cols, snd p = key :: cols /\ ent_at h (fst p) = Some key /\ dt_aggregate_aggid key ∈ aggvars /\ length cols = n /\
    forall j v, aggvars !! j = Some v -> exists x, cols !! j = Some x /\ column_ok sortpos h key v x.

(** The columns from the sorting position on, and then those before it. *)
Lemma sorting_order {A} (cols xs : list A) : length cols = n -> length xs = n ->
  (forall j, (j < n)%nat -> cols !! j = xs !! col aggvars sortpos j) -> xs = drop sortpos cols ++ take sortpos cols.
Proof.
  intros Hc Hx E. apply list_eq. intros i. destruct (decide (i < n)%nat) as [Hi|Hi].
  - destruct (decide (i < n - sortpos)%nat) as [Hlt|Hge].
    + rewrite lookup_app_l by (rewrite length_drop; lia). rewrite lookup_drop, E by lia. unfold col. fold n.
      destruct (Nat.ltb_spec (sortpos + i) sortpos); [lia|]. f_equal. lia.
    + rewrite lookup_app_r by (rewrite length_drop; lia). rewrite length_drop, Hc, lookup_take_lt, E by lia. unfold col. fold n.
      destruct (Nat.ltb_spec (i - (n - sortpos)) sortpos); [|lia]. f_equal. lia.
  - rewrite !lookup_ge_None_2; [done| |lia]. rewrite length_app, length_drop, length_take. lia.
Qed.

Lemma mapM_total {A B} (f : A -> option B) l : (forall i a, l !! i = Some a -> is_Some (f a)) ->
  exists k, mapM f l = Some k /\ length k = length l /\ forall i a, l !! i = Some a -> k !! i = f a.
Proof.
  intros Hf. assert (is_Some (mapM f l)) as [k E] by (apply mapM_is_Some, Forall_lookup; exact Hf). exists k. split; [done|].
  apply mapM_Some in E. split; [symmetry; by eapply Forall2_length|]. intros i a Ha. destruct (Forall2_lookup_l _ _ _ _ _ E Ha) as (b & -> & Eb). done.
Qed.

Lemma bundle_row_ok g b : class_ok g -> bundle_ok aggvars sortpos h mp g b ->
  exists key cols, row_of aggvars sortpos h z b = Some (key :: cols) /\ row_ok (b_repr b, key :: cols) /\
    bundle_row h z b = Some (key, drop sortpos cols ++ take sortpos cols) /\ ent_at h (b_repr b) = Some key /\
    sane u key /\ length (drop sortpos cols ++ take sortpos cols) = n /\ Forall (sane u) (drop sortpos cols ++ take sortpos cols).
Proof.
  intros Cl (Hl & Hr & Hc). destruct g as [|r g]; [done|]. injection Hr as Hr.
  assert (b_repr b ∈ r :: g) as Hin by (rewrite Hr; by left).
  destruct (proj1 (selected_spec u aggvars sortpos h Hsp J mp M (b_repr b)) (proj1 Cl _ Hin)) as (key & Ek & Hv).
  assert (forall j c, b_cells b !! j = Some c -> exists x, cell_ent h z c = Some x /\ sane u x /\
    column_ok sortpos h key (rot aggvars sortpos j) x) as Hcell.
  { intros j c Ej. destruct (cell_ent_ok (r :: g) j c (b_repr b)) as (x & y & ? & ? & Ey & ?); [done| |done|by apply Hc|].
    - intros i Hi. by apply Cl.
    - exists x. by simplify_eq. }
  destruct (mapM_total (cell_ent h z) (b_cells b)) as (xs & Ex & Hlx & Hxs).
  { intros j c Ej. destruct (Hcell j c Ej) as (x & E & _). by exists x. }
  destruct (mapM_total (λ j, c ← b_cells b !! col aggvars sortpos j; cell_ent h z c) (seq 0 n)) as (cols & Ec & Hlc & Hcols).
  { intros i j [-> Hj]%lookup_seq. destruct (lookup_lt_is_Some_2 (b_cells b) (col aggvars sortpos i)) as [c E]; [rewrite Hl; by apply col_lt|].
    destruct (Hcell _ _ E) as (x & E' & _). exists x. cbn [plus]. by rewrite E. }
  rewrite length_seq in Hlc. assert (forall j, (j < n)%nat -> cols !! j = xs !! col aggvars sortpos j) as Hcx.
  { intros j Hj. rewrite (Hcols j j) by (by apply lookup_seq_lt).
    destruct (lookup_lt_is_Some_2 (b_cells b) (col aggvars sortpos j)) as [c E]; [rewrite Hl; by apply col_lt|]. by rewrite E, (Hxs _ _ E). }
  exists key, cols. rewrite <- (sorting_order cols xs) by (done || unfold n; lia). unfold row_of, bundle_row. rewrite Ek, Ex. cbn [mbind option_bind].
  unfold col in Ec. fold n in Ec |- *. rewrite Ec. split; [done|]. split; [|split; [done|split; [done|split; [by eapply ent_sane|]]]].
  - exists key, cols. do 4 (split; [done|]). intros j v Ej. pose proof (lookup_lt_Some _ _ _ Ej) as Hj.
    pose proof (rot_col aggvars sortpos Hsp j Hj) as Er. rewrite Ej in Er. injection Er as Er.
    destruct (lookup_lt_is_Some_2 (b_cells b) (col aggvars sortpos j)) as [c E]; [rewrite Hl; by apply col_lt|].
    destruct (Hcell _ _ E) as (x & Ec' & _ & Hcol). exists x. rewrite <- Er in *. split; [|done]. by rewrite Hcx, (Hxs _ _ E).
  - split; [unfold n; lia|]. apply Forall_lookup. intros i x Hi.
    destruct (lookup_lt_is_Some_2 (b_cells b) i) as [c E]; [apply lookup_lt_Some in Hi; lia|].
    destruct (Hcell _ _ E) as (x' & E' & Sx & _). rewrite (Hxs _ _ E) in Hi. congruence.
Qed.
End Assemble.

(** The calls for the rows, each with the id of the entry that is removed if the function says so. *)
Fixpoint call_rows {Arg} (func : list aggent -> Arg -> Z * Arg) (rows : list (nat * list aggent)) (a : ahash) (arg : Arg)
    : result agg_error (ahash * list aggkey * Arg) :=
  match rows with
  | [] => Ok (a, [], arg)
  | (id, row) :: rows =>
      let '(rval, arg) := func row arg in
      '(a, ks) ← dt_aggwalk_rval a id rval;
      '(a, ks', arg) ← call_rows func rows a arg;
      Ok (a, ks ++ ks', arg)
  end.

Lemma sorted_lookup {A} (R : A -> A -> Prop) l i j x y : StronglySorted R l -> l !! i = Some x -> l !! j = Some y -> (i < j)%nat -> R x y.
Proof.
  intros S. revert i j. induction S as [|a l S IH Ha]; intros [|i] [|j] Ei Ej Hij; try done; try lia; cbn in Ei, Ej.
  - injection Ei as <-. rewrite Forall_forall in Ha. apply Ha. by eapply list_elem_of_lookup_2.
  - eapply (IH i j); [done|done|lia].
Qed.

Lemma elem_of_concat {A} (x : A) ll : x ∈ concat ll <-> exists l, l ∈ ll /\ x ∈ l.
Proof. rewrite list_elem_of_In, in_concat. split; intros (l & ? & ?); exists l; by rewrite !list_elem_of_In in *. Qed.

Section Main.
Context (qsort : forall A, (A -> A -> Z) -> list A -> list A) {Q : Qsort qsort} {ld : Type} `{LongDoubleOrder ld}.
Context (u : Z -> bool) (aggvars : list Z) (sortpos : nat) (h : agg_hdl).
Context (Hsp : (sortpos < length aggvars)%nat) (J : join_ok u aggvars h).
Let n := length aggvars.
Context (mp : gmap Z nat) (M : map_ok_to aggvars sortpos n mp).
Let kc := on_ids h (dt_aggregate_keycmp static_sort).
Let by_key := qsort nat (on_ids h (dt_aggregate_keyvarcmp static_sort)) (selected h mp).
Let is_ent id := exists x, ent_at h id = Some x /\ sane u x.

Lemma kc_compares : compares is_ent kc.
Proof. apply on_ids_compares. apply (sorts_mono (keys_ok u)); [apply sorts_key, static_keypos|by intros x [? _]]. Qed.

Lemma selected_ent id : id ∈ selected h mp -> is_ent id.
Proof.
  intros (x & E & _)%(selected_spec u aggvars sortpos h Hsp J mp M). exists x. split; [done|]. by eapply ent_sane.
Qed.

Lemma by_key_perm : by_key ≡ₚ selected h mp.
Proof. unfold by_key. apply qsort_perm. Qed.

Lemma by_key_ents : Forall is_ent by_key.
Proof. rewrite by_key_perm. apply Forall_forall, selected_ent. Qed.

Lemma by_key_sorted : StronglySorted (λ i j, kc i j <= 0) by_key.
Proof.
  assert (StronglySorted (λ i j, on_ids h (dt_aggregate_keyvarcmp static_sort) i j <= 0) by_key) as S.
  { unfold by_key. apply (qsort_sorted_on nat is_ent); [apply Forall_forall, selected_ent|]. apply on_ids_compares.
    apply sorts_lex_both; [|apply sorts_three_way]. apply (sorts_mono (keys_ok u)); [apply sorts_key, static_keypos|by intros x [? _]]. }
  pose proof by_key_ents as HF. clearbody by_key. induction S as [|i l S IH Hi]; [constructor|]. apply Forall_cons_1 in HF as [(x & Ex & Sx) HF].
  constructor; [by apply IH|]. rewrite Forall_forall in *. intros j Hj. destruct (HF j Hj) as (y & Ey & Sy). specialize (Hi j Hj).
  unfold on_ids in Hi. unfold kc, on_ids. rewrite Ex, Ey in *. cbn [mbind option_bind] in *. unfold dt_aggregate_keyvarcmp, lex in Hi.
  destruct (dt_aggregate_keycmp static_sort x y) as [r|]; [|done]. cbn in *. destruct (Z.eqb_spec r 0); cbn in Hi; lia.
Qed.

Lemma classes_ok : Forall (class_ok h mp) (groups h by_key) /\ Forall (λ g, g <> []) (groups h by_key) /\
  Forall (@NoDup nat) (groups h by_key) /\ (length (groups h by_key) <= length (selected h mp))%nat /\
  (forall i j g g' a b, groups h by_key !! i = Some g -> groups h by_key !! j = Some g' -> a ∈ g -> b ∈ g' -> kc a b = 0 -> i = j) /\
  (forall id, id ∈ selected h mp -> exists g, g ∈ groups h by_key /\ id ∈ g).
Proof.
  destruct (groups_ok h is_ent kc_compares by_key by_key_ents by_key_sorted) as (Hc & Hne & Heq & Hs).
  pose proof by_key_perm as Hp. assert (NoDup by_key) as Hnd by (rewrite Hp; apply NoDup_filter, (wf_nodup _ (jo_wf _ _ _ J))).
  assert (forall id, id ∈ selected h mp <-> exists g, g ∈ groups h by_key /\ id ∈ g) as Hin by (intros id; rewrite <- Hp, <- Hc at 1; apply elem_of_concat).
  assert (forall i j g g' a b, groups h by_key !! i = Some g -> groups h by_key !! j = Some g' -> a ∈ g -> b ∈ g' -> kc a b = 0 -> i = j) as Hij.
  { intros i j g g' a b Ei Ej Ha Hb E.
    assert (kc b a = 0) as E' by (apply (kc_sym h is_ent kc_compares); [apply selected_ent, Hin; exists g|apply selected_ent, Hin; exists g'|done];
      (split; [by eapply list_elem_of_lookup_2|done])).
    destruct (lt_eq_lt_dec i j) as [[Hlt|?]|Hgt]; [|done|]; exfalso.
    - by apply (sorted_lookup _ _ i j g g' Hs Ei Ej Hlt a b).
    - by apply (sorted_lookup _ _ j i g' g Hs Ej Ei Hgt b a). }
  split; [|split; [done|split; [|split; [|split; [done|by intros id ?%Hin]]]]].
  - rewrite Forall_forall in *. intros g Hg. split; [intros id Hid; apply Hin; by exists g|]. split; [by apply Heq|].
    intros i j Hi (g' & Hg' & Hj)%Hin E. apply list_elem_of_lookup in Hg as [a Ea], Hg' as [b Eb].
    assert (b = a) as -> by (by apply (Hij b a g' g j i)). congruence.
  - apply Forall_forall. intros g (l1 & l2 & E)%list_elem_of_split. rewrite <- Hc, E, concat_app in Hnd. cbn [concat] in Hnd.
    by apply NoDup_app in Hnd as (_ & _ & (Hg & _)%NoDup_app).
  - rewrite <- (Permutation_length Hp). rewrite <- Hc at 2. clear - Hne.
    induction Hne as [|g gs Hg _ IH]; cbn; [lia|]. rewrite length_app. destruct g; [done|]. cbn. lia.
Qed.

Context (z : list zagg) (Hz : length z = n) (Zok : forall k zk, z !! k = Some zk -> zero_ok u aggvars sortpos h mp k zk).
Context (bs : list bundle) (Hbs : Forall2 (bundle_ok aggvars sortpos h mp) (groups h by_key) bs) (g : sort) (Hk : keypos_ok g).
Let sorted_bs := qsort bundle (λ x y, default 0 (dt_aggregate_bundlecmp h z g x y)) bs.

(** The rows of the bundles. *)
Definition bundle_fine (b : bundle) : Prop :=
  exists key cols, row_of aggvars sortpos h z b = Some (key :: cols) /\ row_ok aggvars sortpos h (b_repr b, key :: cols) /\
    bundle_row h z b = Some (key, drop sortpos cols ++ take sortpos cols) /\ length (b_cells b) = n /\
    sane u key /\ length (drop sortpos cols ++ take sortpos cols) = n /\ Forall (sane u) (drop sortpos cols ++ take sortpos cols).

Lemma bundle_group b : b ∈ bs -> exists i gr, groups h by_key !! i = Some gr /\ bs !! i = Some b /\ class_ok h mp gr /\
  bundle_ok aggvars sortpos h mp gr b /\ b_repr b ∈ gr.
Proof.
  intros (i & Hi)%list_elem_of_lookup. destruct (Forall2_lookup_r _ _ _ _ _ Hbs Hi) as (gr & Hg & Hb). exists i, gr.
  destruct classes_ok as (Hcl & _). do 2 (split; [done|]). split; [by eapply (Forall_lookup_1 _ _ _ _ Hcl)|]. split; [done|].
  destruct Hb as (_ & Hr & _). by apply head_Some_elem_of.
Qed.

Lemma bundles_fine b : b ∈ bs -> bundle_fine b.
Proof.
  intros (i & gr & _ & _ & Cl & Hb & _)%bundle_group.
  destruct (bundle_row_ok u aggvars sortpos h Hsp J mp M z Hz Zok gr b Cl Hb) as (key & cols & ? & ? & ? & ? & ? & ? & ?).
  exists key, cols. do 3 (split; [done|]). split; [apply Hb|done].
Qed.

Lemma sorted_bs_perm : sorted_bs ≡ₚ bs.
Proof. unfold sorted_bs. apply qsort_perm. Qed.

(** The rows in order. *)
Definition rows_le (p q : nat * list aggent) : Prop :=
  exists k cols k' cols' r, snd p = k :: cols /\ snd q = k' :: cols' /\
    row_cmp g (k, drop sortpos cols ++ take sortpos cols) (k', drop sortpos cols' ++ take sortpos cols') = Some r /\ r <= 0 /\
    (sane u k /\ length (drop sortpos cols ++ take sortpos cols) = n /\ Forall (sane u) (drop sortpos cols ++ take sortpos cols)) /\
    (sane u k' /\ length (drop sortpos cols' ++ take sortpos cols') = n /\ Forall (sane u) (drop sortpos cols' ++ take sortpos cols')).

Lemma sorted_bs_sorted : StronglySorted (λ b b', default 0 (dt_aggregate_bundlecmp h z g b b') <= 0) sorted_bs.
Proof.
  unfold sorted_bs. apply (qsort_sorted_on bundle bundle_fine); [apply Forall_forall, bundles_fine|].
  assert (sorts bundle_fine (dt_aggregate_bundlecmp h z g)) as [_ S]; [|exact S].
  apply (sorts_ext _ (λ b b', r ← bundle_row h z b; r' ← bundle_row h z b'; row_cmp g r r')).
  - apply (sorts_mono _ _ _ (sorts_via _ _ (bundle_row h z) (sorts_rows u g n Hk))).
    intros b (key & cols & _ & _ & E & _ & ? & ? & ?). eexists. split; [exact E|]. done.
  - intros b b' (key & cols & _ & _ & E & Hl & _) (key' & cols' & _ & _ & E' & Hl' & _). rewrite E, E'.
    apply (bundlecmp_row g h z n); try done. unfold n. lia.
Qed.

Lemma join_walk_rows {Arg} (func : list aggent -> Arg -> Z * Arg) l a arg : Forall bundle_fine l ->
  StronglySorted (λ b b', default 0 (dt_aggregate_bundlecmp h z g b b') <= 0) l ->
  exists rows, fst <$> rows = b_repr <$> l /\ Forall (row_ok aggvars sortpos h) rows /\ StronglySorted rows_le rows /\
    join_walk aggvars sortpos h z func l a arg = Some (call_rows func rows a arg).
Proof.
  intros HF S. cut (exists rows, Forall2 (λ b p, fst p = b_repr b /\ row_of aggvars sortpos h z b = Some (snd p) /\
    row_ok aggvars sortpos h p) l rows /\ StronglySorted rows_le rows).
  - intros (rows & H2 & HS). exists rows. split; [|split; [|split; [done|]]].
    + clear - H2. induction H2 as [|b p l rows [E _] _ IH]; [done|]. cbn. by rewrite E, IH.
    + clear - H2. induction H2 as [|b p l rows (_ & _ & ?) _ IH]; by constructor.
    + clear - H2. revert a arg. induction H2 as [|b [id row] l rows (E & Er & _) _ IH]; intros a arg; [done|]. cbn in E. subst id.
      cbn [join_walk call_rows]. rewrite Er. cbn [mbind option_bind snd]. destruct (func row arg) as [rval arg'].
      destruct (dt_aggwalk_rval a (b_repr b) rval) as [[a' ks]|e]; [|done]. cbn [mbind result_bind]. rewrite IH. cbn.
      by destruct (call_rows func rows a' arg') as [[[? ?] ?]|].
  - induction S as [|b l S IH Hb]; [by exists []; repeat constructor|]. apply Forall_cons_1 in HF as [Fb HF].
    destruct (IH HF) as (rows & H2 & HS). destruct Fb as (key & cols & Er & Ok & Eb & Hl & Sk & Hlx & Sx).
    exists ((b_repr b, key :: cols) :: rows). split; [by constructor|]. constructor; [done|].
    apply Forall_forall. intros q (i & Hi)%list_elem_of_lookup. destruct (Forall2_lookup_r _ _ _ _ _ H2 Hi) as (b' & Hb' & E' & Er' & _).
    rewrite Forall_lookup in HF, Hb. destruct (HF _ _ Hb') as (key' & cols' & Er2 & _ & Eb' & Hl' & Sk' & Hlx' & Sx').
    rewrite Er' in Er2. injection Er2 as Eq. pose proof (Hb _ _ Hb') as Hle.
    rewrite (bundlecmp_row g h z n b b' _ _ Eb Eb') in Hle by (done || unfold n; lia).
    destruct (sorts_def _ _ (sorts_rows u g n Hk) (key, drop sortpos cols ++ take sortpos cols) (key', drop sortpos cols' ++ take sortpos cols')) as [r Rr];
      [done|done|]. rewrite Rr in Hle. exists key, cols, key', cols', r. done.
Qed.

(** Every key has one row. *)
Lemma bundles_distinct : NoDup (b_repr <$> bs) /\
  (forall b b', b ∈ bs -> b' ∈ bs -> kc (b_repr b) (b_repr b') = 0 -> b_repr b = b_repr b') /\
  (forall id, id ∈ selected h mp -> exists b, b ∈ bs /\ kc id (b_repr b) = 0).
Proof.
  destruct classes_ok as (_ & _ & _ & _ & Hij & Hall).
  assert (forall i j b b', bs !! i = Some b -> bs !! j = Some b' -> kc (b_repr b) (b_repr b') = 0 -> i = j) as Hd.
  { intros i j b b' Hi Hj E. destruct (Forall2_lookup_r _ _ _ _ _ Hbs Hi) as (gr & Hg & _ & Hr & _), (Forall2_lookup_r _ _ _ _ _ Hbs Hj) as (gr' & Hg' & _ & Hr' & _).
    apply (Hij i j gr gr' (b_repr b) (b_repr b')); [done|done|by apply head_Some_elem_of|by apply head_Some_elem_of|done]. }
  assert (forall i b, bs !! i = Some b -> kc (b_repr b) (b_repr b) = 0) as Hrefl.
  { intros i b Hi. destruct (bundle_group b) as (j & gr & _ & _ & Cl & _ & Hin); [by eapply list_elem_of_lookup_2|]. by apply Cl. }
  split; [|split].
  - apply NoDup_alt. intros i j r (b & -> & Hi)%list_lookup_fmap_Some (b' & E & Hj)%list_lookup_fmap_Some.
    apply (Hd i j b b' Hi Hj). rewrite <- E. by eapply Hrefl.
  - intros b b' (i & Hi)%list_elem_of_lookup (j & Hj)%list_elem_of_lookup E. assert (i = j) as -> by by eapply Hd. congruence.
  - intros id (gr & (i & Hi)%list_elem_of_lookup & Hin)%Hall. destruct (Forall2_lookup_l _ _ _ _ _ Hbs Hi) as (b & Hb & _).
    exists b. assert (b ∈ bs) as Hbin by by eapply list_elem_of_lookup_2. split; [done|].
    destruct (bundle_group b Hbin) as (j & gr' & Hj & Hb' & Cl & _ & Hr).
    destruct (Forall2_lookup_l _ _ _ _ _ Hbs Hi) as (b2 & Hb2 & Ok). assert (b2 = b) as -> by congruence.
    destruct Ok as (_ & Hr2 & _). destruct classes_ok as (Hcl & _). apply (Forall_lookup_1 _ _ _ _ Hcl Hi); [done|by apply head_Some_elem_of].
Qed.
End Main.

(** A row may come before another: the columns from the sorting position on, then
    those before it, and the keys. *)
Definition row_precedes {ld} `{LongDouble ld} (o : sortopts) (sortpos : nat) (p q : nat * list aggent) : Prop :=
  exists k cols k' cols', snd p = k :: cols /\ snd q = k' :: cols' /\
    let c := row_compare (bool_decide (aggsortkey o <> DTRACEOPT_UNSET)) (opt_keypos o)
               (k, drop sortpos cols ++ take sortpos cols) (k', drop sortpos cols' ++ take sortpos cols') in
    (if decide (aggsortrev o = DTRACEOPT_UNSET) then c else CompOpp c) <> Gt.

Lemma rows_le_precedes {ld} `{LongDoubleOrder ld} u aggvars sortpos o p q : opts_ok o ->
  rows_le u aggvars sortpos (opt_sort o) p q -> row_precedes o sortpos p q.
Proof.
  intros [Hk Ek]%opts_keypos (k & cols & k' & cols' & r & Ep & Eq & Er & Hr & Sp & Sq). exists k, cols, k', cols'. do 2 (split; [done|]).
  rewrite (rows_spell u (opt_sort o) (length aggvars) Hk (k, _) (k', _) Sp Sq), Ek in Er. cbv zeta.
  replace (bool_decide (aggsortkey o <> DTRACEOPT_UNSET)) with (dt_keysort (opt_sort o))
    by (cbn; destruct (Z.eqb_spec (aggsortkey o) DTRACEOPT_UNSET); case_bool_decide; done).
  set (c := row_compare _ _ _ _) in *. change (dt_revsort (opt_sort o)) with (negb (aggsortrev o =? DTRACEOPT_UNSET)) in Er.
  injection Er as <-.
  destruct (Z.eqb_spec (aggsortrev o) DTRACEOPT_UNSET); [rewrite decide_True by done|rewrite decide_False by done]; by destruct c.
Qed.

Lemma sorted_impl {A} (R S : A -> A -> Prop) l : (forall x y, R x y -> S x y) -> StronglySorted R l -> StronglySorted S l.
Proof.
  intros HRS HS. induction HS as [|x l HS IH Hx]; constructor; [done|]. eapply Forall_impl; [exact Hx|]. intros y. apply HRS.
Qed.

Lemma mallocs_ok k m c : plenty m (k + c) -> exists m', mallocs k m = (true, m') /\ plenty m' c.
Proof.
  revert m. induction k as [|k IH]; intros m P; cbn [mallocs]; [by exists m|].
  destruct (plenty_malloc m (k + c) P) as (m1 & -> & P1). by apply IH.
Qed.

(** What is said of the rows. *)
Record rows_ok {ld} `{LongDouble ld} (o : sortopts) (aggvars : list Z) (sortpos : nat) (h : agg_hdl) (rows : list (nat * list aggent)) : Prop := {
  rows_each : Forall (row_ok aggvars sortpos h) rows;
  rows_nodup : NoDup (fst <$> rows);
  rows_keys id id' x y : id ∈ fst <$> rows -> id' ∈ fst <$> rows -> ent_at h id = Some x -> ent_at h id' = Some y -> same_key x y -> id = id';
  rows_all id x : ent_at h id = Some x -> dt_aggregate_aggid x ∈ aggvars ->
    exists id' y, id' ∈ fst <$> rows /\ ent_at h id' = Some y /\ same_key x y;
  rows_sorted : StronglySorted (row_precedes o sortpos) rows }.

Lemma walk_joined_ok qsort {ld} `{LongDoubleOrder ld} {Arg} u o aggvars sortpos (func : list aggent -> Arg -> Z * Arg) arg h m :
  Qsort qsort -> (sortpos < length aggvars)%nat -> join_ok u aggvars h -> opts_ok o ->
  plenty m (4 + length aggvars + length (ah_all (dtat_hash h))) ->
  exists rows m', walk_joined qsort aggvars sortpos o func arg h m = Some (call_rows func rows (dtat_hash h) arg, m') /\
    rows_ok o aggvars sortpos h rows.
Proof.
  intros Q Hsp J Ho P. pose proof (proj1 (opts_keypos o Ho)) as Hk. unfold walk_joined.
  destruct (mallocs_ok 2 m (S (S (length aggvars + length (ah_all (dtat_hash h)))))) as (m1 & -> & P1); [eapply plenty_le; [done|lia]|].
  destruct (Nat.eqb_spec (length aggvars) 0) as [E0|N0]; [lia|]. cbn [negb orb].
  destruct (build_map_ok aggvars sortpos Hsp (seq 0 (length aggvars)) 0 ∅ None m1 (S (length aggvars + length (ah_all (dtat_hash h))))) as (mp & remap & m2 & -> & M & R & P2).
  { by rewrite Nat.sub_0_r. } { lia. } { intros v k. rewrite lookup_empty. split; [done|]. lia. }
  { intros j k. cbn [from_option id]. rewrite lookup_empty. split; [done|]. lia. } { done. }
  cbn [mbind option_bind].
  destruct (Nat.eqb_spec (length (selected h mp)) 0) as [E|N].
  { exists [], m2. split; [done|]. split; try constructor; try by intros ? ? ? ? ?%not_elem_of_nil.
    intros id x Ex Hv. assert (id ∈ selected h mp) as Hin by (apply (selected_spec u aggvars sortpos h Hsp J mp M); by exists x).
    apply length_zero_iff_nil in E. rewrite E in Hin. by apply not_elem_of_nil in Hin. }
  destruct (zeros_ok u aggvars sortpos h Hsp J mp M) as (zz & z & -> & E & Hz & Zok). cbn [mbind option_bind]. rewrite E.
  destruct (mallocs_ok (S (length aggvars)) m2 (length (ah_all (dtat_hash h)))) as (m3 & -> & P3); [done|]. cbn [negb mbind option_bind].
  destruct (classes_ok qsort u aggvars sortpos h Hsp J mp M) as (Hcl & Hne & Hnd & Hlen & _).
  destruct (make_bundles_ok aggvars sortpos h Hsp mp M (default ∅ remap) R
    (groups h (qsort nat (on_ids h (dt_aggregate_keyvarcmp static_sort)) (selected h mp))) m3 0) as (bs & m4 & -> & Hbs & _).
  { rewrite Forall_forall in *. intros gr Hg. apply (class_group u aggvars sortpos h J mp M); [by apply Hnd|by apply Hcl]. } { done. }
  { eapply plenty_le; [done|]. rewrite Nat.add_0_r. etransitivity; [exact Hlen|]. unfold selected. apply length_filter. }
  cbn [mbind option_bind]. 
  pose proof (sorted_bs_perm qsort h z bs (opt_sort o)) as Hp. set (sbs := qsort bundle _ bs) in *.
  destruct (join_walk_rows u aggvars sortpos h Hsp z Hz (opt_sort o) Hk func sbs (dtat_hash h) arg) as (rows & Ef & Hr & HS & ->).
  { rewrite Hp. apply Forall_forall. by apply (bundles_fine qsort u aggvars sortpos h Hsp J mp M z Hz Zok). }
  { by apply (sorted_bs_sorted qsort u aggvars sortpos h Hsp J mp M z Hz Zok). }
  exists rows, m4. split; [done|]. destruct (bundles_distinct qsort u aggvars sortpos h Hsp J mp M bs Hbs) as (D1 & D2 & D3).
  assert (forall id, id ∈ fst <$> rows <-> exists b, b ∈ bs /\ id = b_repr b) as Hid.
  { intros id. rewrite Ef, Hp, list_elem_of_fmap. split; intros (b & ? & ?); exists b; done. }
  split; [done|by rewrite Ef, Hp| | |by eapply sorted_impl, HS; intros p q; apply rows_le_precedes].
  - intros id id' x y (b & Hb & ->)%Hid (b' & Hb' & ->)%Hid Ex Ey Sk. apply D2; [done|done|]. by apply (kc_same u aggvars h J _ _ x y).
  - intros id x Ex Hv. destruct (D3 id) as (b & Hb & E0); [apply (selected_spec u aggvars sortpos h Hsp J mp M); by exists x|].
    destruct (bundle_group qsort u aggvars sortpos h Hsp J mp M bs Hbs b Hb) as (i & gr & _ & _ & Cl & _ & Hin).
    destruct (proj1 (selected_spec u aggvars sortpos h Hsp J mp M (b_repr b)) (proj1 Cl _ Hin)) as (y & Ey & _).
    exists (b_repr b), y. split; [apply Hid; by exists b|]. split; [done|]. by apply (kc_same u aggvars h J id (b_repr b)).
Qed.

(** C15: A joined walk calls the function with one row for every key of the given
    variables: the first entry with this key, and for each variable the data of its entry
    with this key, or zero data if there is none (with the variable's own description if
    it has any entry or no sorting position is chosen).  Each key has one row, and the
    rows come in the promised order: by the values, those at the sorting position first
    and those before it last, then by the keys; by the keys first if aggsortkey is set;
    reversed if aggsortrev is; values and keys being compared as in the sorted walks.  No
    assertion fails and no null pointer is used.  Assumed: at least one variable; a table
    in order whose entries can be compared; ids without a gap up to those of the
    variables, which are their descriptions' own; different entries of a variable have
    different keys; zero data of each variable can be compared, which excludes stddev()
    columns (comparing zero data of those aborts); aggsortkeypos and aggsortpos, if set,
    are not negative and the former not INT_MAX; the allocations succeed; qsort() and long
    doubles as in the sorted walks. *)
Theorem dtrace_aggregate_walk_joined_correct qsort {ld} `{LongDoubleOrder ld} {Arg} u o aggvars (func : list aggent -> Arg -> Z * Arg) arg h m :
  Qsort qsort -> aggvars <> [] -> join_ok u aggvars h -> opts_ok o ->
  aggsortpos o = DTRACEOPT_UNSET \/ 0 <= aggsortpos o ->
  plenty m (4 + length aggvars + length (ah_all (dtat_hash h))) ->
  exists rows m', dtrace_aggregate_walk_joined qsort o aggvars func arg h m =
      Some (match call_rows func rows (dtat_hash h) arg with Ok x => Ok x | Err e => Err (Walk e) end, m') /\
    rows_ok o aggvars (Z.to_nat (sort_position o (length aggvars))) h rows.
Proof.
  intros Q Hne J Hk Ho P. assert (Z.to_nat (sort_position o (length aggvars)) < length aggvars)%nat as Hsp.
  { assert (0 < length aggvars)%nat by (destruct aggvars; [done|cbn; lia]). unfold sort_position, DTRACEOPT_UNSET in *.
    destruct (Z.eqb_spec (aggsortpos o) (-2)), (Z.geb_spec (aggsortpos o) (Z.of_nat (length aggvars))); cbn [orb]; lia. }
  destruct (walk_joined_ok qsort u o aggvars _ func arg h m Q Hsp J Hk P) as (rows & m' & E & R). exists rows, m'. split; [|done].
  unfold dtrace_aggregate_walk_joined. destruct (existsb _ aggvars) eqn:Ez; [exfalso|by rewrite E].
  apply existsb_exists in Ez as (v & Hv%list_elem_of_In & E0%Z.eqb_eq). pose proof (jo_vars _ _ _ J v Hv). unfold DTRACE_AGGVARIDNONE in E0. lia.
Qed.

(** ** Examples *)

Module Joined.
Import Exact Table.

(** Data that is printed: the variable, the key and the data. *)
Definition shown (x : aggent) : Z * list Z * list Z := (ad_varid (fst x), snd (he_key (snd x)), tail (he_data (snd x))).
Definition walk (sortpos : Z) (aggvars : list Z) (es : list ahashent) : option (list (list (Z * list Z * list Z))) :=
  match dtrace_aggregate_walk_joined insertion_qsort (SortOpts (-2) (-2) (-2) sortpos) aggvars (λ row l, (0, l ++ [shown <$> row])) [] (hdl es)
          (replicate 40 true) with
  | Some (Ok (_, _, l), _) => Some l
  | _ => None
  end.
Lemma entries_join : join_ok (λ _, false) [1; 2] (hdl entries).
Proof.
  assert (forall v, v ∈ [1; 2] -> v = 1 \/ v = 2) as V by (intros v [->| ->%list_elem_of_singleton]%elem_of_cons; lia).
  split.
  - exact entries_wf.
  - exact entries_comparable.
  - intros j d E. cbn [dt_adesc hdl] in E. unfold descs in E. rewrite !lookup_insert_Some, lookup_singleton_Some in E.
    destruct E as [[<- <-]|[_ [[<- <-]|[_ [[<- <-]|[_ [<- <-]]]]]]]; by split.
  - intros v j Hv%V Hj. assert (j = 1 \/ j = 2) as [->| ->] by lia; by eexists.
  - intros v Hv%V. lia.
  - intros v d Hv E. assert (d = desc 1 DT_AGG_SUM 1 \/ d = desc 2 DT_AGG_COUNT 1) as [->| ->].
    { apply V in Hv as [->| ->]; [left|right]; by injection E. }
    all: (split; [split; [cbn; lia|by repeat constructor]|]); unfold value_ok; cbn [fst zero_ent z_desc ad_action desc]; tauto.
  - intros id id' x y Ex Ey Ev Ek. unfold ent_at in Ex, Ey. apply bind_Some in Ex as (e & Ee & Ex), Ey as (e' & Ee' & Ey).
    ent_cases; try reflexivity; injection Ex as <-; injection Ey as <-; vm_compute in Ek, Ev; discriminate.
Qed.

Example join : walk (-2) [1; 2] entries = Some
  [[(2, [9; 0; 0; 0], [4]); (1, [7; 0; 0; 0], [0]); (2, [9; 0; 0; 0], [4])];
   [(1, [7; 0; 0; 0], [10]); (1, [7; 0; 0; 0], [10]); (2, [8; 0; 0; 0], [0])];
   [(1, [8; 0; 0; 0], [20]); (1, [8; 0; 0; 0], [20]); (2, [8; 0; 0; 0], [5])]].
Proof. vm_compute. reflexivity. Qed.

(** Without entries of avg() its column has the format of another variable, when another column is sorted by. *)
Example wrong_description :
  option_map (map (map (λ x, fst (fst x)))) (walk 1 [1; 3; 2] entries) = Some [[1; 1; 2; 2]; [2; 1; 2; 2]; [1; 1; 2; 2]].
Proof. vm_compute. reflexivity. Qed.

(** A key that stddev() does not have: the comparison with zero data aborts. *)
Example stddev_aborts :
  dt_aggregate_valcmp static_sort (zero_ent (ZAgg (desc 4 DT_AGG_STDDEV 4) None)) (desc 4 DT_AGG_STDDEV 4, ent 4 7 [1; 1; 1; 0]) = None /\
  (* so does that of two entries after a clear() *)
  dt_aggregate_valcmp static_sort (desc 4 DT_AGG_STDDEV 4, ent 4 7 [0; 0; 0; 0]) (desc 4 DT_AGG_STDDEV 4, ent 4 8 [0; 0; 0; 0]) = None.
Proof. vm_compute. done. Qed.

Lemma dtrace_aggregate_walk_joined_correct_witness : exists rows m',
  dtrace_aggregate_walk_joined insertion_qsort (SortOpts (-2) (-2) (-2) 1) [1; 2] (λ row l, (0, l ++ [shown <$> row])) [] (hdl entries) (replicate 10 true) =
    Some (match call_rows (λ row l, (0, l ++ [shown <$> row])) rows (dtat_hash (hdl entries)) [] with Ok x => Ok x | Err e => Err (Walk e) end, m') /\
  rows_ok (SortOpts (-2) (-2) (-2) 1) [1; 2] 1 (hdl entries) rows.
Proof.
  apply (dtrace_aggregate_walk_joined_correct insertion_qsort (λ _, false) (SortOpts (-2) (-2) (-2) 1) [1; 2]).
  - exact insertion_qsort_ok.
  - done.
  - exact entries_join.
  - by left.
  - right. cbn. lia.
  - exists []. reflexivity.
Defined.
End Joined.
