(* ===== verification/Ring.v ===== *)
(** * Perf event buffers (libdtrace/dt_peb.c, libdtrace/dt_consume.c)

    The trace data of a CPU arrives in a ring buffer that the kernel fills and
    dt_consume_cpu empties: positions count bytes modulo [2 ^ 64], an event that
    runs over the end of the buffer is first copied to contiguous memory.  The
    theorem is that the consumer sees the events that were written, in order and
    once, wherever the ring's end falls. *)

From stdpp Require Import base list numbers option.
From S2P Require Import Prelude.

(** ** The geometry of the buffers *)

Definition fls64 (n : Z) : Z := if n =? 0 then 0 else Z.log2 n + 1.
Definition roundup_pow2 (n : Z) : Z := u64 (Z.shiftl 1 (fls64 (u64 (n - 1)))).

(** The data size that dt_pebs_init gives the buffers. *)
Definition pebs_data_size (bufsize pagesize : Z) : Z :=
  roundup_pow2 (u64 (bufsize + pagesize - 1) `div` pagesize) * pagesize.

(** ** Events *)

Definition PERF_RECORD_LOST : Z := 2.
Definition PERF_RECORD_SAMPLE : Z := 9.
Definition DTRACE_WORKSTATUS_ERROR : Z := -1.
Definition DTRACE_WORKSTATUS_OKAY : Z := 0.
Definition DTRACE_WORKSTATUS_DONE : Z := 1.
Definition CONSUME_PEEK_START : Z := 1.
Definition CONSUME_PEEK : Z := 2.
Definition CONSUME_PEEK_FINISH : Z := 3.

(** struct perf_event_header *)
Definition perf_header : nat := 8.
Definition hdr_type (ev : list Z) : Z := load 4 0 ev.
Definition hdr_size (ev : list Z) : Z := load 2 6 ev.

(** The members of dt_peb_t and of the page of the kernel that are used. *)
Record peb := Peb { peb_cpu : Z; ring : list Z; data_head : Z; data_tail : Z; last_head : Z }.

Section Consume.
(** [S] is the state of the consumer; [one_probe cpu data] is
    dt_consume_one_probe on the data of an event, [cpudrops] is
    dt_check_cpudrops. *)
Context {S : Type} (one_probe : Z -> list Z -> S -> Z * S) (cpudrops : Z -> S -> Z * S).

(** [ev] is the memory from the event on. *)
Definition dt_consume_one (cpu : Z) (ev : list Z) (s : S) : Z * S :=
  if hdr_type ev =? PERF_RECORD_SAMPLE then
    if hdr_size ev <? Z.of_nat perf_header then (DTRACE_WORKSTATUS_ERROR, s)
    else
      let size := load 4 perf_header ev in
      if negb (Z.of_nat perf_header + (4 + size) =? hdr_size ev) then (DTRACE_WORKSTATUS_ERROR, s)
      else
        let size := u32 (size + 4) in
        one_probe cpu (take (Z.to_nat size) (drop perf_header ev)) s
  else if hdr_type ev =? PERF_RECORD_LOST then (DTRACE_WORKSTATUS_OKAY, s)
  else (DTRACE_WORKSTATUS_ERROR, s).

(** The event in contiguous memory: in the ring, or copied to [tmp], which is
    made larger when it must be.  [None] is a store through a null pointer. *)
Definition contiguous (rg : list Z) (e : nat) (len : nat) (tmp : list Z) (m : allocs) : option (list Z * list Z * allocs) :=
  if (length rg - 1 <? e + len)%nat then
    let '(ok, m) := if (length tmp <? len)%nat then malloc m else (true, m) in
    if negb ok then None
    else
      let tmp := if (length tmp <? len)%nat then replicate len 0 else tmp in
      let num := (length rg - e)%nat in
      let dst := take num (drop e rg) ++ take (len - num) rg ++ drop len tmp in
      Some (dst, dst, m)
  else Some (drop e rg, tmp, m).

(** The loop over the events from [tail] to [head]; the position reached is
    returned with the status. *)
Fixpoint cpu_loop (fuel : nat) (p : peb) (head tail : Z) (tmp : list Z) (m : allocs) (s : S)
    : option (option Z * Z * list Z * allocs * S) :=
  if tail =? head then Some (None, tail, tmp, m, s)
  else
    match fuel with
    | O => None
    | Datatypes.S fuel =>
        let e := Z.to_nat (tail `mod` Z.of_nat (length (ring p))) in
        let size := hdr_size (drop e (ring p)) in
        match contiguous (ring p) e (Z.to_nat size) tmp m with
        | None => None
        | Some (ev, tmp, m) =>
            let '(rval, s) := dt_consume_one (peb_cpu p) ev s in
            if rval =? DTRACE_WORKSTATUS_DONE then Some (Some DTRACE_WORKSTATUS_OKAY, tail, tmp, m, s)
            else if negb (rval =? DTRACE_WORKSTATUS_OKAY) then Some (Some rval, tail, tmp, m, s)
            else cpu_loop fuel p head (u64 (tail + size)) tmp m s
        end
    end.

Definition dt_consume_cpu (fuel : nat) (peekflags : Z) (p : peb) (tmp : list Z) (m : allocs) (s : S)
    : option (Z * peb * list Z * allocs * S) :=
  let '(drops, s) := cpudrops (peb_cpu p) s in
  if negb (drops =? 0) then Some (DTRACE_WORKSTATUS_ERROR, p, tmp, m, s)
  else
    let '(head, p) :=
      if (peekflags =? CONSUME_PEEK) || (peekflags =? CONSUME_PEEK_FINISH) then (last_head p, p)
      else (data_head p, Peb (peb_cpu p) (ring p) (data_head p) (data_tail p) (data_head p)) in
    match cpu_loop fuel p head (data_tail p) tmp m s with
    | None => None
    | Some (Some rval, _, tmp, m, s) => Some (rval, p, tmp, m, s)
    | Some (None, tail, tmp, m, s) =>
        let p :=
          if (peekflags =? 0) || (peekflags =? CONSUME_PEEK_FINISH)
          then Peb (peb_cpu p) (ring p) (data_head p) tail (last_head p) else p in
        Some (DTRACE_WORKSTATUS_OKAY, p, tmp, m, s)
    end.
End Consume.

(** ** What the ring holds *)

(** From position [pos] on, around the end, the ring holds the bytes [bs]. *)
Definition holds (rg : list Z) (pos : Z) (bs : list Z) : Prop :=
  (length bs <= length rg)%nat /\
  forall i : nat, (i < length bs)%nat -> rg !! Z.to_nat ((pos + Z.of_nat i) `mod` Z.of_nat (length rg)) = bs !! i.

(** An event as the kernel writes it: its size is in the header, and is a
    multiple of 8 that holds the header and the first word. *)
Definition wf_event (r : list Z) : Prop :=
  Forall is_byte r /\ hdr_size r = Z.of_nat (length r) /\ (16 <= length r)%nat /\ (8 | Z.of_nat (length r)).

(** The size of the ring: a power of two that is a multiple of 8. *)
Definition wf_ring (rg : list Z) : Prop := exists k, 3 <= k <= 63 /\ Z.of_nat (length rg) = 2 ^ k.

Section Facts.
Context (rg : list Z) (Hrg : wf_ring rg).
Abbreviation n := (Z.of_nat (length rg)).

Lemma ring_size : 8 <= n <= 2 ^ 63 /\ (8 | n) /\ (n | 2 ^ 64).
Proof.
  destruct Hrg as (k & Hk & ->). split; [|split].
  - split; [apply (Z.pow_le_mono_r 2 3); lia|apply Z.pow_le_mono_r; lia].
  - exists (2 ^ (k - 3)). replace 8 with (2 ^ 3) by done. rewrite <- Z.pow_add_r by lia. f_equal. lia.
  - exists (2 ^ (64 - k)). rewrite <- Z.pow_add_r by lia. f_equal. lia.
Qed.

(** Positions may be counted modulo [2 ^ 64]. *)
Lemma pos_wrap p : u64 p `mod` n = p `mod` n.
Proof.
  unfold wrapu. apply Z.mod_mod_divide. apply ring_size.
Qed.

Lemma holds_wrap p bs : holds rg p bs -> holds rg (u64 p) bs.
Proof.
  intros [Hl Hh]. split; [done|]. intros i Hi. rewrite <- (Hh i Hi). do 2 f_equal.
  rewrite <- (Zplus_mod_idemp_l (u64 p)), pos_wrap. apply Zplus_mod_idemp_l.
Qed.

Lemma holds_app p r bs : holds rg p (r ++ bs) -> holds rg p r /\ holds rg (p + Z.of_nat (length r)) bs.
Proof.
  unfold holds. rewrite length_app. intros [Hl Hh]. split; (split; [lia|]); intros i Hi.
  - rewrite Hh by lia. by rewrite lookup_app_l.
  - specialize (Hh (length r + i)%nat ltac:(lia)). rewrite lookup_app_r in Hh by lia.
    replace (length r + i - length r)%nat with i in Hh by lia. rewrite <- Hh. do 3 f_equal. lia.
Qed.

(** The bytes of an event, before and after the end of the ring. *)
Lemma holds_split p r : holds rg p r ->
  let e := Z.to_nat (p `mod` n) in
  take (length r) (take (length rg - e) (drop e rg) ++ take (length r - (length rg - e)) rg) = r.
Proof.
  intros [Hl Hh] e. destruct ring_size as ([Hn _] & _).
  pose proof (Z.mod_pos_bound p n ltac:(lia)) as Hm. assert (e < length rg)%nat by lia.
  apply list_eq. intros i. destruct (decide (i < length r)%nat) as [Hi|Hi].
  - rewrite lookup_take_lt by done. rewrite <- (Hh i Hi).
    assert (length (take (length rg - e) (drop e rg)) = (length rg - e)%nat) as Hlen by (rewrite length_take, length_drop; lia).
    destruct (decide (i < length rg - e)%nat) as [Hlt|Hge].
    + rewrite lookup_app_l by lia. rewrite lookup_take_lt, lookup_drop by done. f_equal.
      rewrite <- Zplus_mod_idemp_l, Z.mod_small by lia. lia.
    + rewrite lookup_app_r by lia. rewrite Hlen, lookup_take_lt by lia. f_equal.
      rewrite <- Zplus_mod_idemp_l. replace (p `mod` n + Z.of_nat i) with (Z.of_nat (i - (length rg - e)) + 1 * n) by lia.
      rewrite Z_mod_plus_full, Z.mod_small by lia. lia.
  - rewrite lookup_take_ge by lia. symmetry. apply lookup_ge_None. lia.
Qed.
End Facts.

(** ** Events in memory *)

Section Events.
Context {S : Type} (one_probe : Z -> list Z -> S -> Z * S) (cpudrops : Z -> S -> Z * S).

(** An event is processed by its own bytes, whatever follows them. *)
Lemma dt_consume_one_prefix cpu ev r s : wf_event r -> take (length r) ev = r ->
  dt_consume_one one_probe cpu ev s = dt_consume_one one_probe cpu r s.
Proof.
  intros (Hb & Hs & Hl & _) Hp. pose proof (load_range 2 6 r Hb) as Hr.
  unfold dt_consume_one, hdr_type, hdr_size in *. rewrite !(load_prefix _ _ ev r) by (done || (unfold perf_header; lia)).
  destruct (_ =? PERF_RECORD_SAMPLE); [|done]. destruct (_ <? Z.of_nat perf_header); [done|].
  destruct (Z.eqb_spec (Z.of_nat perf_header + (4 + load 4 perf_header r)) (load 2 6 r)) as [E|]; [|done]. cbn [negb].
  unfold perf_header in *. pose proof (load_range 4 8 r Hb). rewrite wrapu_small by lia. f_equal.
  assert (drop 8 r = take (length r - 8) (drop 8 ev)) as ->
    by (transitivity (drop 8 (take (length r) ev)); [by rewrite Hp|apply skipn_firstn_comm]).
  rewrite firstn_firstn. f_equal. lia.
Qed.

(** The events, one after the other, until one stops the consumer; the boolean
    tells whether all were processed. *)
Fixpoint deliver (cpu : Z) (evs : list (list Z)) (s : S) : option Z * S :=
  match evs with
  | [] => (None, s)
  | r :: evs =>
      let '(rval, s) := dt_consume_one one_probe cpu r s in
      if rval =? DTRACE_WORKSTATUS_DONE then (Some DTRACE_WORKSTATUS_OKAY, s)
      else if negb (rval =? DTRACE_WORKSTATUS_OKAY) then (Some rval, s)
      else deliver cpu evs s
  end.

Lemma contiguous_ok rg p r tmp m k : wf_ring rg -> wf_event r -> holds rg p r -> plenty m (Datatypes.S k) ->
  exists ev tmp' m', contiguous rg (Z.to_nat (p `mod` Z.of_nat (length rg))) (length r) tmp m = Some (ev, tmp', m') /\
    take (length r) ev = r /\ plenty m' k.
Proof.
  intros Hrg (_ & _ & H16 & _) Hh Hm. pose proof (holds_split rg Hrg p r Hh) as Hs. cbv zeta in Hs.
  destruct (ring_size rg Hrg) as ([Hn _] & _). pose proof (Z.mod_pos_bound p (Z.of_nat (length rg)) ltac:(lia)) as Hmod.
  set (e := Z.to_nat _) in *. destruct Hh as [Hl _]. unfold contiguous.
  destruct (Nat.ltb_spec (length rg - 1) (e + length r)) as [Hw|Hw].
  - destruct (plenty_malloc m k Hm) as (m' & Em & Hm').
    assert (exists m1, (if (length tmp <? length r)%nat then malloc m else (true, m)) = (true, m1) /\ plenty m1 k) as (m1 & -> & Hm1).
    { destruct (length tmp <? length r)%nat; [by exists m'|]. exists m. split; [done|]. apply (plenty_le m (Datatypes.S k)); [done|lia]. }
    cbn [negb]. do 3 eexists. split; [reflexivity|]. split; [|done].
    rewrite app_assoc, take_app_le; [exact Hs|]. rewrite length_app, !length_take, length_drop. lia.
  - exists (drop e rg), tmp, m. split; [done|]. split; [|apply (plenty_le m (Datatypes.S k)); [done|lia]].
    transitivity (take (length r) (take (length rg - e) (drop e rg) ++ take (length r - (length rg - e)) rg)); [|exact Hs].
    rewrite take_app_le by (rewrite length_take, length_drop; lia). rewrite firstn_firstn. f_equal. lia.
Qed.

(** The header of an event does not run over the end of the ring. *)
Lemma holds_header rg p r : wf_ring rg -> wf_event r -> holds rg p r -> (8 | p) ->
  hdr_size (drop (Z.to_nat (p `mod` Z.of_nat (length rg))) rg) = Z.of_nat (length r).
Proof.
  intros Hrg (_ & <- & H16 & _) Hh Hp. pose proof (holds_split rg Hrg p r Hh) as Hs. cbv zeta in Hs.
  destruct (ring_size rg Hrg) as ([Hn _] & H8 & _). set (n := Z.of_nat (length rg)) in *.
  pose proof (Z.mod_pos_bound p n ltac:(lia)) as Hm.
  assert (8 | p `mod` n) as [q Hq].
  { rewrite Z.mod_eq by lia. apply Z.divide_sub_r; [done|]. by apply Z.divide_mul_l. }
  destruct H8 as [q' Hq']. set (e := Z.to_nat (p `mod` n)) in *.
  assert (take 8 (drop e rg) = take 8 r) as E.
  { transitivity (take 8 (take (length r) (take (length rg - e) (drop e rg) ++ take (length r - (length rg - e)) rg))); [|by rewrite Hs].
    rewrite firstn_firstn, take_app_le by (rewrite length_take, length_drop; lia). rewrite firstn_firstn. f_equal. lia. }
  unfold hdr_size. assert (length (take 8 r) = 8%nat) as Hl by (rewrite length_take; lia).
  rewrite (load_prefix 2 6 (drop e rg) (take 8 r)) by (rewrite ?Hl; done || lia).
  by rewrite (load_prefix 2 6 r (take 8 r)) by (rewrite ?Hl; done || lia).
Qed.

(** The loop delivers the events between the two positions. *)
Lemma cpu_loop_ok p evs k : forall fuel tail tmp m s,
  wf_ring (ring p) -> Forall wf_event evs -> in64 tail -> (8 | tail) -> holds (ring p) tail (concat evs) ->
  (length evs <= fuel)%nat -> plenty m (length evs + k) ->
  let head := u64 (tail + Z.of_nat (length (concat evs))) in
  exists tail' tmp' m',
    cpu_loop one_probe fuel p head tail tmp m s =
      Some (fst (deliver (peb_cpu p) evs s), tail', tmp', m', snd (deliver (peb_cpu p) evs s)) /\
    (fst (deliver (peb_cpu p) evs s) = None -> tail' = head) /\ plenty m' k.
Proof.
  induction evs as [|r evs IH]; intros fuel tail tmp m s Hrg Hw Ht H8 Hh Hf Hm head; subst head; cbn [deliver concat length].
  - simpl Z.of_nat. rewrite Z.add_0_r, wrapu_small by done. exists tail, tmp, m.
    destruct fuel; simpl; rewrite Z.eqb_refl; done.
  - apply Forall_cons_1 in Hw as [Hr Hw]. destruct (ring_size _ Hrg) as ([Hn1 Hn2] & Hn8 & _).
    pose proof Hr as (Hb & Hsz & H16 & Hr8). cbn [concat] in Hh. pose proof (proj1 Hh) as Hlen. rewrite length_app in Hlen.
    apply (holds_app (ring p)) in Hh as [Hhr Hh]. destruct fuel as [|fuel]; [simpl in Hf; lia|].
    destruct (contiguous_ok _ tail r tmp m (length evs + k) Hrg Hr Hhr Hm) as (ev & tmp1 & m1 & Ec & Hev & Hm1).
    rewrite length_app, Nat2Z.inj_add, Z.add_assoc. cbn [cpu_loop].
    destruct (Z.eqb_spec tail (u64 (tail + Z.of_nat (length r) + Z.of_nat (length (concat evs))))) as [Ee|_].
    { exfalso. unfold wrapu in Ee. set (x := Z.of_nat (length r) + Z.of_nat (length (concat evs))) in *.
      assert (0 < x <= 2 ^ 63) by (subst x; lia). rewrite <- Z.add_assoc in Ee. fold x in Ee.
      destruct (Z_lt_ge_dec (tail + x) (2 ^ 64)); [rewrite Z.mod_small in Ee by lia; lia|].
      replace (tail + x) with (tail + x - 2 ^ 64 + 1 * 2 ^ 64) in Ee by lia. rewrite Z_mod_plus_full, Z.mod_small in Ee by lia. lia. }
    rewrite (holds_header _ _ r), Nat2Z.id, Ec, (dt_consume_one_prefix _ ev r) by done.
    destruct (dt_consume_one one_probe (peb_cpu p) r s) as [rv s1].
    assert (plenty m1 k) as Hk by (apply (plenty_le m1 (length evs + k)); [done|lia]).
    destruct (rv =? DTRACE_WORKSTATUS_DONE); [by do 3 eexists|].
    destruct (negb (rv =? DTRACE_WORKSTATUS_OKAY)); [by do 3 eexists|].
    destruct (IH fuel (u64 (tail + Z.of_nat (length r))) tmp1 m1 s1) as (tail' & tmp' & m' & El & Et & Hk'); try done.
    + auto with cint.
    + unfold wrapu. rewrite Z.mod_eq by lia. apply Z.divide_sub_r; [by apply Z.divide_add_r|]. apply Z.divide_mul_l. by exists (2 ^ 61).
    + by apply holds_wrap.
    + simpl in Hf. lia.
    + rewrite wrapu_add_l in El, Et. exists tail', tmp', m'. done.
Qed.

(** dt_consume_cpu delivers the events and gives the space back. *)
Lemma consume_cpu_ok (p : peb) (evs : list (list Z)) (fuel k : nat) peekflags tmp m s s1
  (Hring : wf_ring (ring p)) (Hevs : Forall wf_event evs)
  (Htail : in64 (data_tail p)) (Halign : (8 | data_tail p))
  (Hholds : holds (ring p) (data_tail p) (concat evs))
  (Hhead : u64 (data_tail p + Z.of_nat (length (concat evs))) =
    if (peekflags =? CONSUME_PEEK) || (peekflags =? CONSUME_PEEK_FINISH) then last_head p else data_head p)
  (Hfuel : (length evs <= fuel)%nat) (Hmem : plenty m (length evs + k))
  (Hdrops : cpudrops (peb_cpu p) s = (0, s1)) :
  exists p' tmp' m',
    dt_consume_cpu one_probe cpudrops fuel peekflags p tmp m s =
      Some (default DTRACE_WORKSTATUS_OKAY (fst (deliver (peb_cpu p) evs s1)), p', tmp', m', snd (deliver (peb_cpu p) evs s1)) /\
    peb_cpu p' = peb_cpu p /\ ring p' = ring p /\ data_head p' = data_head p /\ plenty m' k /\
    ((peekflags <> CONSUME_PEEK /\ peekflags <> CONSUME_PEEK_FINISH) -> last_head p' = data_head p) /\
    (fst (deliver (peb_cpu p) evs s1) = None -> (peekflags = 0 \/ peekflags = CONSUME_PEEK_FINISH) ->
       data_tail p' = u64 (data_tail p + Z.of_nat (length (concat evs)))) /\
    (fst (deliver (peb_cpu p) evs s1) <> None \/ (peekflags <> 0 /\ peekflags <> CONSUME_PEEK_FINISH) ->
       data_tail p' = data_tail p).
Proof.
  unfold dt_consume_cpu. rewrite Hdrops. cbn [negb Z.eqb].
  pose proof (cpu_loop_ok p evs k fuel (data_tail p) tmp m s1 Hring Hevs Htail Halign Hholds Hfuel Hmem) as Hloop.
  rewrite Hhead in *.
  set (head := if (peekflags =? CONSUME_PEEK) || (peekflags =? CONSUME_PEEK_FINISH) then last_head p else data_head p) in *.
  assert (exists lh, ((peekflags <> CONSUME_PEEK /\ peekflags <> CONSUME_PEEK_FINISH) -> lh = data_head p) /\ (if (peekflags =? CONSUME_PEEK) || (peekflags =? CONSUME_PEEK_FINISH) then (last_head p, p)
    else (data_head p, Peb (peb_cpu p) (ring p) (data_head p) (data_tail p) (data_head p))) =
    (head, Peb (peb_cpu p) (ring p) (data_head p) (data_tail p) lh)) as (lh & Hlh & ->).
  { subst head. exists (if (peekflags =? CONSUME_PEEK) || (peekflags =? CONSUME_PEEK_FINISH) then last_head p else data_head p).
    destruct (Z.eqb_spec peekflags CONSUME_PEEK), (Z.eqb_spec peekflags CONSUME_PEEK_FINISH); simpl;
      (split; [tauto|by destruct p]). }
  set (p1 := Peb _ _ _ _ lh).
  assert (forall f t tp mm ss, cpu_loop one_probe f p1 head t tp mm ss = cpu_loop one_probe f p head t tp mm ss) as Ep.
  { induction f as [|f IHf]; intros; simpl; [done|]. destruct (t =? head); [done|].
    destruct (contiguous _ _ _ _ _) as [[[? ?] ?]|]; [|done]. destruct (dt_consume_one _ _ _ _) as [? ?].
    repeat case_match; done || apply IHf. }
  cbn [data_tail p1]. rewrite Ep. destruct Hloop as (tail' & tmp' & m' & -> & Ht & Hk).
  destruct (deliver (peb_cpu p) evs s1) as [[rv|] s2]; cbn [fst snd default] in *.
  - exists p1, tmp', m'. split; [done|]. split; [done|]. split; [done|]. done.
  - rewrite (Ht eq_refl).
    assert ((peekflags =? 0) || (peekflags =? CONSUME_PEEK_FINISH) = true <-> (peekflags = 0 \/ peekflags = CONSUME_PEEK_FINISH)) as Hpk
      by (rewrite orb_true_iff, !Z.eqb_eq; done).
    destruct ((peekflags =? 0) || (peekflags =? CONSUME_PEEK_FINISH));
      do 3 eexists; (split; [reflexivity|]); do 5 (split; [done|]); split; try done.
    + intros [|[]]; [done|]. destruct Hpk as [Hpk _]. destruct (Hpk eq_refl); done.
    + intros _ Hc. destruct Hpk as [_ Hpk]. by apply Hpk in Hc.
Qed.
End Events.

(** ** The size of the buffers *)

Lemma roundup_pow2_ok n : 1 <= n <= 2 ^ 63 -> exists k, 0 <= k <= 63 /\ roundup_pow2 n = 2 ^ k /\ n <= 2 ^ k < 2 * n.
Proof.
  intros Hn. unfold roundup_pow2, fls64. rewrite (wrapu_small 64 (n - 1)) by lia.
  destruct (Z.eqb_spec (n - 1) 0) as [E|E].
  - exists 0. split; [lia|]. split; [reflexivity|]. simpl. lia.
  - pose proof (Z.log2_spec (n - 1) ltac:(lia)) as [H1 H2]. pose proof (Z.log2_nonneg (n - 1)).
    assert (Z.log2 (n - 1) < 63) by (apply Z.log2_lt_pow2; lia).
    exists (Z.log2 (n - 1) + 1). rewrite Z.shiftl_1_l. rewrite Z.pow_succ_r in H2 by lia. rewrite Z.pow_add_r, Z.pow_1_r by lia.
    assert (2 ^ Z.log2 (n - 1) < 2 ^ 63) by (apply Z.pow_lt_mono_r; lia).
    split; [lia|]. split; [apply wrapu_small; lia|lia].
Qed.

(** The buffers have a size that the theorem on dt_consume_cpu asks for, at least
    the requested one, and less than twice that rounded up to pages. *)
Lemma pebs_data_size_ok bufsize k : 3 <= k <= 16 -> 1 <= bufsize <= 2 ^ 46 ->
  let size := pebs_data_size bufsize (2 ^ k) in
  (forall rg, Z.of_nat (length rg) = size -> wf_ring rg) /\ bufsize <= size < 2 * (bufsize + 2 ^ k).
Proof.
  intros Hk Hb size. subst size. unfold pebs_data_size. assert (8 <= 2 ^ k <= 2 ^ 16) as Hp
    by (split; [apply (Z.pow_le_mono_r 2 3)|apply Z.pow_le_mono_r]; lia).
  rewrite wrapu_small by lia. set (q := (bufsize + 2 ^ k - 1) `div` 2 ^ k).
  assert (bufsize <= q * 2 ^ k < bufsize + 2 ^ k) as Hq.
  { pose proof (Z.div_mod (bufsize + 2 ^ k - 1) (2 ^ k) ltac:(lia)). pose proof (Z.mod_pos_bound (bufsize + 2 ^ k - 1) (2 ^ k) ltac:(lia)).
    fold q in H. lia. }
  destruct (roundup_pow2_ok q) as (j & Hj & -> & Hj2); [nia|].
  split; [|nia]. intros rg Erg. exists (j + k). rewrite Erg, Z.pow_add_r by lia. split; [|lia].
  assert (2 ^ j < 2 ^ 47) as Hlt by nia. apply Z.pow_lt_mono_r_iff in Hlt; lia.
Qed.

Section Claim.
Context {S : Type} (one_probe : Z -> list Z -> S -> Z * S) (cpudrops : Z -> S -> Z * S).

(** C11: On a buffer of the size that dt_pebs_init gives it, dt_consume_cpu hands
    the events that the kernel has written to dt_consume_one, each once and in
    the order they were written, wherever the end of the ring falls and although
    positions wrap at [2 ^ 64], and stops at the first event that is not
    processed, with its status.  It ends after one
    round for each event.  When all events were processed the space is given
    back (the tail becomes the head), unless it only peeks. *)
Theorem dt_consume_cpu_delivers (bufsize pagebits : Z) (p : peb) (evs : list (list Z)) (fuel k : nat) peekflags tmp m s s1
  (Hpage : 3 <= pagebits <= 16) (Hsize : 1 <= bufsize <= 2 ^ 46)
  (Hring : Z.of_nat (length (ring p)) = pebs_data_size bufsize (2 ^ pagebits)) (Hevs : Forall wf_event evs)
  (Htail : in64 (data_tail p)) (Halign : (8 | data_tail p))
  (Hholds : holds (ring p) (data_tail p) (concat evs))
  (Hhead : u64 (data_tail p + Z.of_nat (length (concat evs))) =
    if (peekflags =? CONSUME_PEEK) || (peekflags =? CONSUME_PEEK_FINISH) then last_head p else data_head p)
  (Hfuel : (length evs <= fuel)%nat) (Hmem : plenty m (length evs + k))
  (Hdrops : cpudrops (peb_cpu p) s = (0, s1)) :
  exists p' tmp' m',
    dt_consume_cpu one_probe cpudrops fuel peekflags p tmp m s =
      Some (default DTRACE_WORKSTATUS_OKAY (fst (deliver one_probe (peb_cpu p) evs s1)), p', tmp', m', snd (deliver one_probe (peb_cpu p) evs s1)) /\
    peb_cpu p' = peb_cpu p /\ ring p' = ring p /\ data_head p' = data_head p /\ plenty m' k /\
    ((peekflags <> CONSUME_PEEK /\ peekflags <> CONSUME_PEEK_FINISH) -> last_head p' = data_head p) /\
    (fst (deliver one_probe (peb_cpu p) evs s1) = None -> (peekflags = 0 \/ peekflags = CONSUME_PEEK_FINISH) ->
       data_tail p' = u64 (data_tail p + Z.of_nat (length (concat evs)))) /\
    (fst (deliver one_probe (peb_cpu p) evs s1) <> None \/ (peekflags <> 0 /\ peekflags <> CONSUME_PEEK_FINISH) ->
       data_tail p' = data_tail p).
Proof.
  apply consume_cpu_ok; try done. by apply (pebs_data_size_ok bufsize pagebits).
Qed.
End Claim.

(** Two events, the first of which runs over the end of the ring. *)
Module Wrap.
Definition ev (b : Z) : list Z := [9; 0; 0; 0; 0; 0; 16; 0] ++ [4; 0; 0; 0] ++ [b; 0; 0; 0].
Definition rg : list Z := drop 8 (ev 1) ++ ev 2 ++ take 8 (ev 1).
Definition p : peb := Peb 3 rg (u64 (2 ^ 64 - 8 + 32)) (2 ^ 64 - 8) 0.
Definition collect (cpu : Z) (data : list Z) (s : list (Z * list Z)) : Z * list (Z * list Z) :=
  (DTRACE_WORKSTATUS_OKAY, s ++ [(cpu, data)]).

Lemma dt_consume_cpu_delivers_witness : exists p' tmp' m',
  dt_consume_cpu collect (λ _ s, (0, s)) 2 0 p [] [true; true] [] =
    Some (DTRACE_WORKSTATUS_OKAY, p', tmp', m', [(3, [4; 0; 0; 0; 1; 0; 0; 0]); (3, [4; 0; 0; 0; 2; 0; 0; 0])]) /\
  data_tail p' = 24.
Proof.
  destruct (dt_consume_cpu_delivers collect (λ _ s, (0, s)) 20 4 p [ev 1; ev 2] 2 0 0 [] [true; true] [] [])
    as (p' & tmp' & m' & E & _ & _ & _ & _ & _ & Ht & _).
  - lia.
  - lia.
  - reflexivity.
  - repeat constructor; try (unfold is_byte; lia); try reflexivity; by exists 2.
  - split; [discriminate|reflexivity].
  - by exists (2 ^ 61 - 1).
  - split; [reflexivity|]. intros i Hi. do 32 (destruct i as [|i]; [reflexivity|]). exfalso. simpl in Hi. lia.
  - reflexivity.
  - reflexivity.
  - by exists [].
  - reflexivity.
  - exists p', tmp', m'. split; [exact E|]. rewrite Ht; [reflexivity|reflexivity|by left].
Defined.
End Wrap.
