(* ===== verification/Spec.v ===== *)
(** * Speculations (bpf/speculation.c, libdtrace/dt_consume.c)

    A speculation is shared by three parties: the BPF programs, which hand out
    ids, speculate into them and mark them for draining; the trace buffers,
    which deliver what the programs emit in an order of their own; and the
    consumer, which keeps speculative data until a commit or discard arrives,
    drains it, and frees the id.  The parties are functions on their states;
    [step] interleaves them.  The invariant that every reachable state has says
    that an id is not reused while data of its speculation is under way. *)

From stdpp Require Import base gmap list numbers option sets relations.
From S2P Require Import Prelude BpfMap.

Definition DT_STATE_SPEC_BUSY : Z := 4.
Definition DT_STATE_SPEC_UNAVAIL : Z := 5.

(** dt_bpf_specs_t *)
Record spec := Spec { written : Z; spec_size : Z; draining : Z }.

(** ** The BPF programs *)

Section Producer.
Context {M St : Type} `{BpfMap M Z spec, BpfMap St Z Z} (NSPEC : Z).

Definition dt_no_spec (kind : Z) (st : St) : Z * St :=
  match bm_lookup kind st with
  | None => (0, st)
  | Some v => (0, bm_write kind (u32 (v + 1)) st)
  end.

(** The sequence of SEARCH(n); the break leaves the one macro only. *)
Fixpoint spec_search (ns : list Z) (busy : Z) (m : M) (st : St) : Z * M * St :=
  let no_spec :=
    let '(r, st) := dt_no_spec (if c_true busy then DT_STATE_SPEC_BUSY else DT_STATE_SPEC_UNAVAIL) st in (r, m, st) in
  match ns with
  | [] => no_spec
  | n :: ns =>
      if n >? NSPEC then no_spec
      else
        match bm_update n (Spec 0 0 0) BPF_NOEXIST m with
        | Some m => (n, m, st)
        | None =>
            match bm_lookup n m with
            | Some sp => if draining sp >? 0 then spec_search ns (u32 (busy + 1)) m st else spec_search ns busy m st
            | None => spec_search ns busy m st
            end
        end
  end.

Definition dt_speculation (m : M) (st : St) : Z * M * St :=
  spec_search [1; 2; 3; 4; 5; 6; 7; 8; 9; 10; 11; 12; 13; 14; 15; 16] 0 m st.

(** Whether the program may emit speculative data. *)
Definition dt_speculation_speculate (id : Z) (m : M) : bool * M :=
  match bm_lookup id m with
  | None => (false, m)
  | Some sp =>
      if c_true (draining sp) then (false, m)
      else (true, bm_write id (Spec (u64 (written sp + 1)) (spec_size sp) (draining sp)) m)
  end.

(** The result, and whether an error is reported. *)
Definition dt_speculation_set_drainable (id : Z) (m : M) : Z * bool * M :=
  match bm_lookup id m with
  | None => if id <=? NSPEC then (0, false, m) else (-1, true, m)
  | Some sp => (0, false, bm_write id (Spec (written sp) (spec_size sp) 1) m)
  end.
End Producer.

(** ** The consumer *)

(** Speculative data: the CPU, the bytes, and (not in the code) the number of
    the speculation it was emitted for. *)
Record specdata := SpecData { dsbd_cpu : Z; dsbd_data : list Z; dsbd_of : Z }.

(** dt_spec_buf_t, with the members of dtsb_spec that are used. *)
Record spec_buf := SpecBuf {
  dtsb_size : Z; dtsb_committing : bool; dtsb_written : Z; dtsb_draining : Z; dtsb_dsbd_list : list specdata }.

(** What the buffers deliver: speculative data, a commit or discard, or any
    other record. *)
Inductive msg := MData (id : Z) (d : specdata) | MDrain (id : Z) (commit : bool) | MOther.

Section Consumer.
Context {M : Type} `{BpfMap M Z spec} (specsize : Z).

Record consumer := Cons {
  dt_spec_bufs : gmap Z spec_buf;
  dt_spec_bufs_draining : list (Z * Z); (** the id of the speculation, and dtsd_read *)
  dt_specdrops : Z;
  cons_out : list specdata              (** the data processed as committed *) }.

Definition data_size (d : specdata) : Z := Z.of_nat (length (dsbd_data d)).

(** The part of dt_consume_one_probe that hives off speculative data; [mem] are
    the outcomes of its allocations.  The boolean tells whether the data was
    kept. *)
Definition hive_off (id : Z) (d : specdata) (c : consumer) (m : allocs) : bool * consumer * allocs :=
  let drop (c : consumer) := Cons (dt_spec_bufs c) (dt_spec_bufs_draining c) (dt_specdrops c + 1) (cons_out c) in
  let cursz := match dt_spec_bufs c !! id with Some b => dtsb_size b | None => 0 end in
  if cursz + data_size d >? specsize then (false, drop c, m)
  else
    let '(buf, m) :=
      match dt_spec_bufs c !! id with
      | Some b => (Some b, m)
      | None =>
          let '(ok, m) := malloc m in
          if negb ok then (None, m)
          else let '(ok, m) := malloc m in (if ok then Some (SpecBuf 0 false 0 0 []) else None, m)
      end in
    match buf with
    | None => (false, drop c, m)
    | Some b =>
        let put b := Cons (<[id := b]> (dt_spec_bufs c)) (dt_spec_bufs_draining c) (dt_specdrops c) (cons_out c) in
        let '(ok, m) := malloc m in
        if negb ok then (false, drop (put b), m)
        else
          let '(ok, m) := malloc m in
          if negb ok then (false, drop (put b), m)
          else (true, put (SpecBuf (dtsb_size b + data_size d) (dtsb_committing b) (dtsb_written b) (dtsb_draining b)
                                   (dtsb_dsbd_list b ++ [d])), m)
    end.

(** What becomes of a record: an assertion or an error stops the consumer. *)
Inductive stop := ASSERT | NO_SPEC | NOMEM.

(** The part that acts on a commit or discard. *)
Definition start_draining (id : Z) (commit : bool) (specs : M) (c : consumer) (m : allocs) : result stop consumer * allocs :=
  match dt_spec_bufs c !! id with
  | None => (Ok c, m)
  | Some b =>
      if c_true (dtsb_draining b) then (Ok c, m)
      else
        match bm_lookup id specs with
        | None => (Err NO_SPEC, m)
        | Some sp =>
            if negb (c_true (draining sp)) then (Err ASSERT, m)
            else
              let '(ok, m) := malloc m in
              if negb ok then (Err NOMEM, m)
              else
                let b := SpecBuf (dtsb_size b) commit (written sp) (draining sp) (dtsb_dsbd_list b) in
                (Ok (Cons (<[id := b]> (dt_spec_bufs c)) (dt_spec_bufs_draining c ++ [(id, 0)])
                          (dt_specdrops c) (cons_out c)), m)
        end
  end.

(** The loop over the speculations that are drained: data that is committed is
    processed, and an id whose data was all read is freed, in the consumer and
    in the map. *)
Fixpoint drain_loop (l : list (Z * Z)) (specs : M) (c : consumer) : M * consumer * list (Z * Z) :=
  match l with
  | [] => (specs, c, [])
  | (id, read) :: l =>
      match dt_spec_bufs c !! id with
      | None => let '(specs, c, l) := drain_loop l specs c in (specs, c, (id, read) :: l)
      | Some b =>
          let read := read + Z.of_nat (length (dtsb_dsbd_list b)) in
          let out := if dtsb_committing b then cons_out c ++ dtsb_dsbd_list b else cons_out c in
          if read <? dtsb_written b then
            let b := SpecBuf 0 (dtsb_committing b) (dtsb_written b) (dtsb_draining b) [] in
            let c := Cons (<[id := b]> (dt_spec_bufs c)) (dt_spec_bufs_draining c) (dt_specdrops c) out in
            let '(specs, c, l) := drain_loop l specs c in (specs, c, (id, read) :: l)
          else
            let c := Cons (delete id (dt_spec_bufs c)) (dt_spec_bufs_draining c) (dt_specdrops c) out in
            drain_loop l (bm_delete id specs) c
      end
  end.

Definition drain (specs : M) (c : consumer) : M * consumer :=
  let '(specs, c, l) := drain_loop (dt_spec_bufs_draining c) specs c in
  (specs, Cons (dt_spec_bufs c) l (dt_specdrops c) (cons_out c)).

(** dt_consume_one_probe, as far as speculations are concerned. *)
Definition consume (x : msg) (specs : M) (c : consumer) (m : allocs) : result stop (bool * M * consumer) :=
  match x with
  | MData id d => let '(kept, c, _) := hive_off id d c m in Ok (kept, specs, c)
  | MDrain id commit =>
      match fst (start_draining id commit specs c m) with
      | Err e => Err e
      | Ok c => let '(specs, c) := drain specs c in Ok (true, specs, c)
      end
  | MOther => let '(specs, c) := drain specs c in Ok (true, specs, c)
  end.
End Consumer.
Arguments consumer : clear implicits.

(** ** The system *)

Section System.
Context {M St : Type} `{BpfMapLaws M Z spec, BpfMapLaws St Z Z} (NSPEC specsize : Z).

(** [flight] is what the buffers hold, in any order.  The last three fields are
    for the statements only: speculations are numbered, [owner] is the number of
    the speculation that has an id, [lost] counts the data of an id that was
    announced but not kept, and [marked] are the numbers of the speculations for
    which commit() or discard() was called. *)
Record world := World {
  w_specs : M; w_state : St; w_flight : list msg; w_cons : consumer;
  w_next : Z; w_owner : gmap Z Z; w_lost : gmap Z Z; w_marked : gset Z }.

Definition owner (w : world) (id : Z) : Z := default 0 (w_owner w !! id).
Definition lost (w : world) (id : Z) : Z := default 0 (w_lost w !! id).

Definition lose (w : world) (id : Z) (kept : bool) : gmap Z Z :=
  if kept then w_lost w else <[id := lost w id + 1]> (w_lost w).

Inductive step (w : world) : world -> Prop :=
  (** speculation() *)
  | step_speculation id m st : dt_speculation NSPEC (w_specs w) (w_state w) = (id, m, st) -> id <> 0 ->
      step w (World m st (w_flight w) (w_cons w) (w_next w + 1) (<[id := w_next w]> (w_owner w)) (<[id := 0]> (w_lost w)) (w_marked w))
  | step_no_speculation m st : dt_speculation NSPEC (w_specs w) (w_state w) = (0, m, st) ->
      step w (World m st (w_flight w) (w_cons w) (w_next w) (w_owner w) (w_lost w) (w_marked w))
  (** speculate(), and the data of the clause, which may not get into a buffer *)
  | step_speculate id cpu data m (emitted : bool) : dt_speculation_speculate id (w_specs w) = (true, m) ->
      (forall sp, bm_lookup id (w_specs w) = Some sp -> written sp + 1 < 2 ^ 64) ->
      step w (World m (w_state w)
                (if emitted then w_flight w ++ [MData id (SpecData cpu data (owner w id))] else w_flight w)
                (w_cons w) (w_next w) (w_owner w) (lose w id emitted) (w_marked w))
  (** commit() and discard() *)
  | step_mark id (commit emitted : bool) rc err m : dt_speculation_set_drainable NSPEC id (w_specs w) = (rc, err, m) ->
      step w (World m (w_state w) (if emitted then w_flight w ++ [MDrain id commit] else w_flight w)
                (w_cons w) (w_next w) (w_owner w) (w_lost w) (w_marked w ∪ {[ owner w id ]}))
  (** any other record *)
  | step_record : step w (World (w_specs w) (w_state w) (w_flight w ++ [MOther]) (w_cons w) (w_next w) (w_owner w) (w_lost w) (w_marked w))
  (** the consumer takes a record *)
  | step_consume x l1 l2 mem kept m c : w_flight w = l1 ++ x :: l2 ->
      consume specsize x (w_specs w) (w_cons w) mem = Ok (kept, m, c) ->
      step w (World m (w_state w) (l1 ++ l2) c (w_next w) (w_owner w)
                (match x with MData id _ => lose w id kept | _ => w_lost w end) (w_marked w)).

(** ** The invariant *)

Definition is_data (id : Z) (x : msg) : Prop := match x with MData i _ => i = id | _ => False end.
#[local] Instance is_data_dec id x : Decision (is_data id x).
Proof. destruct x; simpl; apply _. Defined.

Definition in_flight (fl : list msg) (id : Z) : Z := Z.of_nat (length (filter (is_data id) fl)).
Definition stored (bufs : gmap Z spec_buf) (id : Z) : Z :=
  match bufs !! id with Some b => Z.of_nat (length (dtsb_dsbd_list b)) | None => 0 end.

(** The number of data read, by the list of drained speculations. *)
Fixpoint read_of (l : list (Z * Z)) (id : Z) : Z :=
  match l with [] => 0 | (i, r) :: l => if i =? id then r else read_of l id end.

(** The invariant of the map, the consumer's table, its list [dl] and its
    output, given what is under way, the owners, the losses and the marks. *)
Record shared_inv (fl : list msg) (own lst : Z -> Z) (mk : gset Z)
    (specs : M) (bufs : gmap Z spec_buf) (dl : list (Z * Z)) (out : list specdata) : Prop := {
  inv_specs : bm_ok specs;
  (** Everything announced for a speculation is somewhere. *)
  inv_count id sp : bm_lookup id specs = Some sp ->
    written sp = in_flight fl id + stored bufs id + read_of dl id + lst id;
  inv_pos id : is_Some (bm_lookup id specs) -> 0 <= lst id /\ 0 <= read_of dl id;
  (** Data under way and data stored belongs to the speculation with the id. *)
  inv_flight id d : MData id d ∈ fl -> is_Some (bm_lookup id specs) /\ dsbd_of d = own id;
  inv_bufs id b : bufs !! id = Some b ->
    (exists sp, bm_lookup id specs = Some sp /\
       (c_true (dtsb_draining b) = true -> c_true (draining sp) = true /\ dtsb_written b = written sp)) /\
    (c_true (dtsb_draining b) = true <-> id ∈ map fst dl) /\
    Forall (λ d, dsbd_of d = own id) (dtsb_dsbd_list b);
  inv_drain id : id ∈ map fst dl -> is_Some (bufs !! id);
  inv_nodup : NoDup (map fst dl);
  (** What is output belongs to speculations that were committed or discarded. *)
  inv_marked id sp : bm_lookup id specs = Some sp -> c_true (draining sp) = true -> own id ∈ mk;
  inv_out : Forall (λ d, dsbd_of d ∈ mk) out
}.

Definition inv (w : world) : Prop :=
  bm_ok (w_state w) /\
  shared_inv (w_flight w) (owner w) (lost w) (w_marked w) (w_specs w)
    (dt_spec_bufs (w_cons w)) (dt_spec_bufs_draining (w_cons w)) (cons_out (w_cons w)).

(** ** Preservation *)

Lemma in_flight_app fl fl' id : in_flight (fl ++ fl') id = in_flight fl id + in_flight fl' id.
Proof. unfold in_flight. rewrite filter_app, length_app. lia. Qed.

Lemma in_flight_data id d id' : in_flight [MData id d] id' = if decide (id = id') then 1 else 0.
Proof.
  unfold in_flight. rewrite filter_cons, filter_nil. destruct (decide (id = id')) as [e|n].
  - by rewrite decide_True by exact e.
  - by rewrite decide_False by exact n.
Qed.

Lemma in_flight_0 fl id : (forall d, MData id d ∉ fl) -> in_flight fl id = 0.
Proof.
  intros Hn. unfold in_flight. replace (filter (is_data id) fl) with (@nil msg); [done|]. symmetry.
  induction fl as [|x fl IH]; [done|]. rewrite filter_cons.
  rewrite decide_False, IH; [done|intros d Hd; apply (Hn d); by right|].
  intros Hx. destruct x; simpl in Hx; try done. subst. apply (Hn d). by left.
Qed.

Lemma in_flight_nonneg fl id : 0 <= in_flight fl id.
Proof. unfold in_flight. lia. Qed.

Lemma read_of_notin l id : id ∉ map fst l -> read_of l id = 0.
Proof.
  induction l as [|[i r] l IH]; simpl; intros Hn; [done|]. apply not_elem_of_cons in Hn as [Hne Hn].
  rewrite (proj2 (Z.eqb_neq i id)) by done. by apply IH.
Qed.

Lemma read_of_app l l' id : read_of (l ++ l') id = if decide (id ∈ map fst l) then read_of l id else read_of l' id.
Proof.
  induction l as [|[i r] l IH]; simpl; [done|]. destruct (Z.eqb_spec i id) as [-> |Hne].
  - rewrite decide_True; [done|]. by left.
  - rewrite IH. destruct (decide (id ∈ map fst l)).
    + by rewrite decide_True by (by right).
    + rewrite decide_False; [done|]. by intros [|]%elem_of_cons.
Qed.

Lemma stored_insert bufs id b id' :
  stored (<[id := b]> bufs) id' = if decide (id = id') then Z.of_nat (length (dtsb_dsbd_list b)) else stored bufs id'.
Proof.
  unfold stored. case_decide as Hc; [subst; by rewrite lookup_insert_eq|by rewrite lookup_insert_ne].
Qed.

(** *** The BPF programs *)

Lemma no_spec_ok kind (st : St) : bm_ok st -> exists st', dt_no_spec kind st = (0, st') /\ bm_ok st'.
Proof.
  intros Hok. unfold dt_no_spec. destruct (bm_lookup kind st) as [v|] eqn:E; [|by exists st].
  eexists. split; [done|]. by apply bm_write_ok; [|eexists].
Qed.

Lemma search_ok ns busy (m : M) (st : St) : Forall (λ n, 0 < n) ns -> bm_ok m -> bm_ok st ->
  exists id m' st', spec_search NSPEC ns busy m st = (id, m', st') /\ bm_ok st' /\
    ((id = 0 /\ m' = m) \/
     (0 < id <= NSPEC /\ bm_lookup id m = None /\ bm_update id (Spec 0 0 0) BPF_NOEXIST m = Some m')).
Proof.
  intros Hns Hm Hst. revert busy. induction Hns as [|n ns Hn Hns IH]; intros busy; simpl.
  - destruct (no_spec_ok (if c_true busy then DT_STATE_SPEC_BUSY else DT_STATE_SPEC_UNAVAIL) st Hst) as (st' & -> & ?).
    exists 0, m, st'. auto.
  - rewrite Z.gtb_ltb. destruct (Z.ltb_spec NSPEC n).
    + destruct (no_spec_ok (if c_true busy then DT_STATE_SPEC_BUSY else DT_STATE_SPEC_UNAVAIL) st Hst) as (st' & -> & ?).
      exists 0, m, st'. auto.
    + destruct (bm_update n (Spec 0 0 0) BPF_NOEXIST m) as [m'|] eqn:Eu.
      * exists n, m', st. split; [done|]. split; [done|]. right. split; [lia|]. split; [|done].
        destruct (bm_lookup n m) eqn:El; [|done]. by rewrite (bm_update_noexist n _ m Hm) in Eu by (by eexists).
      * destruct (bm_lookup n m) as [sp|]; [destruct (draining sp >? 0)|]; apply IH.
Qed.

Lemma speculation_ok (m : M) (st : St) : bm_ok m -> bm_ok st ->
  exists id m' st', dt_speculation NSPEC m st = (id, m', st') /\ bm_ok st' /\
    ((id = 0 /\ m' = m) \/
     (0 < id <= NSPEC /\ bm_lookup id m = None /\ bm_update id (Spec 0 0 0) BPF_NOEXIST m = Some m')).
Proof. apply search_ok. repeat constructor. Qed.

(** A speculation that is not in the map has left nothing behind. *)
Lemma inv_gone fl own lst mk specs bufs dl out id : shared_inv fl own lst mk specs bufs dl out ->
  bm_lookup id specs = None -> in_flight fl id = 0 /\ bufs !! id = None /\ read_of dl id = 0.
Proof.
  intros Hi Hn.
  assert (bufs !! id = None) as Hb.
  { destruct (bufs !! id) as [b|] eqn:E; [|done]. destruct (inv_bufs _ _ _ _ _ _ _ _ Hi id b E) as [(sp & ? & _) _]. congruence. }
  split; [|split; [done|]].
  - apply in_flight_0. intros d Hd. destruct (inv_flight _ _ _ _ _ _ _ _ Hi id d Hd) as [[sp ?] _]. congruence.
  - apply read_of_notin. intros Hd. destruct (inv_drain _ _ _ _ _ _ _ _ Hi id Hd). congruence.
Qed.

Lemma inv_speculation fl own lst mk specs bufs dl out id m num : shared_inv fl own lst mk specs bufs dl out ->
  bm_lookup id specs = None -> bm_update id (Spec 0 0 0) BPF_NOEXIST specs = Some m ->
  shared_inv fl (λ i, if decide (i = id) then num else own i) (λ i, if decide (i = id) then 0 else lst i) mk m bufs dl out.
Proof.
  intros Hi Hn Hu. destruct (inv_gone _ _ _ _ _ _ _ _ id Hi Hn) as (Hf0 & Hb0 & Hr0).
  destruct (bm_update_ok _ _ _ _ _ (inv_specs _ _ _ _ _ _ _ _ Hi) Hu) as (Hok & Hl & Ho).
  destruct Hi as [_ Hc Hp Hf Hb Hd Hnd Hm Hout].
  assert (forall i, i <> id -> bm_lookup i m = bm_lookup i specs) as Ho' by (intros i Hne; by apply Ho).
  split; try done.
  - intros i sp. destruct (decide (i = id)) as [-> |Hne].
    + rewrite Hl. intros [= <-]. rewrite Hf0, Hr0. unfold stored. rewrite Hb0. simpl. lia.
    + rewrite Ho' by done. apply Hc.
  - intros i Hi. destruct (decide (i = id)) as [-> |Hne]; [lia|]. rewrite Ho' in Hi by done. by apply Hp.
  - intros i d Hin. destruct (Hf i d Hin) as [[sp Hsp] Hof].
    rewrite decide_False by (intros ->; congruence). rewrite Ho' by (intros ->; congruence). split; [by eexists|done].
  - intros i b E. destruct (Hb i b E) as [(sp & Hsp & Hdr) Hrest].
    rewrite decide_False by (intros ->; congruence). split; [|done]. exists sp. split; [|done].
    rewrite Ho'; [done|]. intros ->; congruence.
  - intros i sp. destruct (decide (i = id)) as [-> |Hne]; [rewrite Hl; by intros [= <-]|]. rewrite Ho' by done. apply Hm.
Qed.

(** The owners and losses matter by their values. *)
Lemma shared_inv_ext fl own own' lst lst' mk specs bufs dl out :
  (forall i, own' i = own i) -> (forall i, lst' i = lst i) ->
  shared_inv fl own lst mk specs bufs dl out -> shared_inv fl own' lst' mk specs bufs dl out.
Proof.
  intros Eo El [Hok Hc Hp Hf Hb Hd Hnd Hm Hout]. split; try done; intros *; rewrite ?Eo, ?El; eauto.
Qed.

(** The element [id] is rewritten, and what is under way or lost changes with it. *)
Lemma inv_rewrite fl fl' own lst lst' mk mk' specs bufs dl out id sp sp' :
  shared_inv fl own lst mk specs bufs dl out -> bm_lookup id specs = Some sp ->
  (forall i, i <> id -> in_flight fl' i = in_flight fl i /\ lst' i = lst i) ->
  written sp' - written sp = in_flight fl' id - in_flight fl id + (lst' id - lst id) -> 0 <= lst' id ->
  (forall i d, MData i d ∈ fl' -> MData i d ∈ fl \/ (i = id /\ dsbd_of d = own id)) ->
  (c_true (draining sp) = true -> c_true (draining sp') = true /\ written sp' = written sp) ->
  (c_true (draining sp') = true -> own id ∈ mk') -> mk ⊆ mk' ->
  shared_inv fl' own lst' mk' (bm_write id sp' specs) bufs dl out.
Proof.
  intros [Hok Hc Hp Hf Hb Hd Hnd Hm Hout] Hl Hother Hw Hl' Hin Hdr Hmk Hsub.
  destruct (bm_write_ok id sp' specs Hok ltac:(by eexists)) as (Hok' & Hlid & _ & Ho).
  assert (forall i, i <> id -> bm_lookup i (bm_write id sp' specs) = bm_lookup i specs) as Ho' by (intros i Hne; by apply Ho).
  assert (forall i, is_Some (bm_lookup i (bm_write id sp' specs)) <-> is_Some (bm_lookup i specs)) as Hex.
  { intros i. destruct (decide (i = id)) as [-> |Hne]; [rewrite Hlid, Hl; split; by eexists|by rewrite Ho']. }
  split; try done.
  - intros i x. destruct (decide (i = id)) as [-> |Hne].
    + rewrite Hlid. intros [= <-]. pose proof (Hc id sp Hl). lia.
    + rewrite Ho' by done. destruct (Hother i Hne) as [-> ->]. apply Hc.
  - intros i Hi. apply Hex in Hi. destruct (Hp i Hi). destruct (decide (i = id)) as [-> |Hne]; [done|].
    destruct (Hother i Hne) as [_ ->]. done.
  - intros i d Hd'. rewrite Hex. destruct (Hin i d Hd') as [|[-> Hof]]; [by apply Hf|]. split; [by eexists|done].
  - intros i b E. destruct (Hb i b E) as [(x & Hx & Hdx) Hrest]. split; [|done].
    destruct (decide (i = id)) as [-> |Hne].
    + simplify_eq. exists sp'. split; [done|]. intros Ht. destruct (Hdx Ht) as [Hds Hw']. destruct (Hdr Hds). split; [done|]. congruence.
    + exists x. by rewrite Ho'.
  - intros i x. destruct (decide (i = id)) as [-> |Hne]; [rewrite Hlid; intros [= <-]; done|].
    rewrite Ho' by done. intros Hx Hdx. apply Hsub. by apply (Hm i x).
  - eapply Forall_impl; [exact Hout|]. intros d Hd'. by apply Hsub.
Qed.

(** *** The consumer *)

(** Data is taken from the buffers and kept, or lost. *)
Lemma inv_hive l1 l2 own lst lst' mk specs c id d mem kept c' mem' :
  shared_inv (l1 ++ MData id d :: l2) own lst mk specs (dt_spec_bufs c) (dt_spec_bufs_draining c) (cons_out c) ->
  hive_off specsize id d c mem = (kept, c', mem') ->
  (forall i, lst' i = if kept then lst i else if decide (i = id) then lst i + 1 else lst i) ->
  shared_inv (l1 ++ l2) own lst' mk specs (dt_spec_bufs c') (dt_spec_bufs_draining c') (cons_out c').
Proof.
  intros Hi Hh Hl.
  assert (exists b', dt_spec_bufs_draining c' = dt_spec_bufs_draining c /\ cons_out c' = cons_out c /\
    ((kept = false /\ dt_spec_bufs c' = dt_spec_bufs c) \/
     (dt_spec_bufs c' = <[id := b']> (dt_spec_bufs c) /\
      let b := default (SpecBuf 0 false 0 0 []) (dt_spec_bufs c !! id) in
      dtsb_draining b' = dtsb_draining b /\ dtsb_written b' = dtsb_written b /\
      dtsb_dsbd_list b' = if kept then dtsb_dsbd_list b ++ [d] else dtsb_dsbd_list b))) as (b' & Edl & Eout & Hc').
  { unfold hive_off in Hh. cbv zeta in Hh. revert Hh.
    destruct (_ >? specsize); [intros [= <- <- _]; exists (SpecBuf 0 false 0 0 []); auto|].
    destruct (dt_spec_bufs c !! id) as [b|].
    - destruct (malloc mem) as [[|] m1]; cbn [negb].
      + destruct (malloc m1) as [[|] m2]; cbn [negb]; intros [= <- <- _]; eexists; (split; [done|]); (split; [done|]); right; done.
      + intros [= <- <- _]. eexists. split; [done|]. split; [done|]. right. done.
    - destruct (malloc mem) as [[|] m1]; cbn [negb].
      + destruct (malloc m1) as [[|] m2].
        * destruct (malloc m2) as [[|] m3]; cbn [negb].
          -- destruct (malloc m3) as [[|] m4]; cbn [negb]; intros [= <- <- _]; eexists; (split; [done|]); (split; [done|]); right; done.
          -- intros [= <- <- _]. eexists. split; [done|]. split; [done|]. right. done.
        * intros [= <- <- _]. exists (SpecBuf 0 false 0 0 []). auto.
      + intros [= <- <- _]. exists (SpecBuf 0 false 0 0 []). auto. }
  rewrite Edl, Eout. pose proof Hi as [Hok Hc Hp Hf Hb Hd Hnd Hm Hout].
  assert (forall i, in_flight (l1 ++ MData id d :: l2) i = in_flight (l1 ++ l2) i + (if decide (id = i) then 1 else 0)) as Hfl.
  { intros i. change (MData id d :: l2) with ([MData id d] ++ l2). rewrite !in_flight_app, in_flight_data. lia. }
  destruct (Hf id d) as [[sp Hsp] Hof]; [apply elem_of_app; right; by left|].
  assert (forall i, stored (dt_spec_bufs c') i = stored (dt_spec_bufs c) i + (if kept then if decide (id = i) then 1 else 0 else 0)) as Hst.
  { intros i. destruct Hc' as [[-> ->]|(-> & _ & _ & El)]; [lia|]. rewrite stored_insert.
    destruct (decide (id = i)) as [<- |]; [|destruct kept; lia].
    rewrite El. unfold stored. destruct (dt_spec_bufs c !! id) as [b|]; destruct kept; simpl; rewrite ?length_app; simpl; lia. }
  split; try done.
  - intros i x Hx. rewrite (Hc i x Hx), Hfl, Hst, Hl.
    destruct kept; [lia|]. destruct (decide (id = i)), (decide (i = id)); try congruence; simpl; lia.
  - intros i Hx. destruct (Hp i Hx). rewrite Hl. destruct kept; [done|]. case_decide; lia.
  - intros i x Hx. apply Hf. rewrite elem_of_app, elem_of_cons. apply elem_of_app in Hx as [|]; tauto.
  - intros i b E. destruct Hc' as [[_ Eb]|(Eb & Hdr & Hwr & El)]; rewrite Eb in E; [by apply Hb|].
    destruct (decide (i = id)) as [-> |Hne]; [|rewrite lookup_insert_ne in E by done; by apply Hb].
    rewrite lookup_insert_eq in E. injection E as <-. destruct (dt_spec_bufs c !! id) as [b|] eqn:Eb'; cbn [default] in *.
    + destruct (Hb id b Eb') as ((x & Hx & Hdx) & Hiff & Hall). rewrite Hdr, Hwr, El. split; [by exists x|]. split; [done|].
      destruct kept; [|done]. apply Forall_app. split; [done|]. constructor; [done|constructor].
    + rewrite Hdr, El. simpl. split; [exists sp; split; [done|]; done|]. split.
      * split; [done|]. intros Hin. destruct (Hd id Hin). congruence.
      * destruct kept; [constructor; [done|constructor]|constructor].
  - intros i Hin. destruct Hc' as [[_ Eb]|(Eb & _)]; rewrite Eb; [by apply Hd|].
    destruct (decide (i = id)) as [-> |Hne]; [rewrite lookup_insert_eq; by eexists|rewrite lookup_insert_ne by done; by apply Hd].
Qed.

(** A commit or discard puts a speculation on the list. *)
Lemma inv_start fl own lst mk specs c id commit mem c' mem' :
  shared_inv fl own lst mk specs (dt_spec_bufs c) (dt_spec_bufs_draining c) (cons_out c) ->
  start_draining id commit specs c mem = (Ok c', mem') ->
  shared_inv fl own lst mk specs (dt_spec_bufs c') (dt_spec_bufs_draining c') (cons_out c').
Proof.
  intros Hi. unfold start_draining. destruct (dt_spec_bufs c !! id) as [b|] eqn:Eb; [|by intros [= <- _]].
  destruct (c_true (dtsb_draining b)) eqn:Edr; [by intros [= <- _]|].
  destruct (bm_lookup id specs) as [sp|] eqn:Esp; [|done]. destruct (c_true (draining sp)) eqn:Esd; cbn [negb]; [|done].
  destruct (malloc mem) as [[|] m1]; cbn [negb]; [|done]. intros [= <- _]. cbn [dt_spec_bufs dt_spec_bufs_draining cons_out].
  destruct Hi as [Hok Hc Hp Hf Hb Hd Hnd Hm Hout]. destruct (Hb id b Eb) as (_ & Hiff & Hall).
  assert (id ∉ map fst (dt_spec_bufs_draining c)) as Hnin by (intros Hin; apply Hiff in Hin; congruence).
  assert (forall i, read_of (dt_spec_bufs_draining c ++ [(id, 0)]) i = read_of (dt_spec_bufs_draining c) i) as Hr.
  { intros i. rewrite read_of_app. case_decide as Hc'; [done|]. rewrite (read_of_notin _ i Hc'). simpl. by destruct (id =? i). }
  split; try done.
  - intros i x Hx. rewrite Hr, stored_insert, (Hc i x Hx). cbn [dtsb_dsbd_list].
    destruct (decide (id = i)) as [<- |]; [|done]. unfold stored at 1. by rewrite Eb.
  - intros i Hx. rewrite Hr. by apply Hp.
  - intros i b' E. rewrite map_app, elem_of_app. cbn [map fst]. rewrite list_elem_of_singleton.
    destruct (decide (i = id)) as [-> |Hne].
    + rewrite lookup_insert_eq in E. injection E as <-. cbn [dtsb_draining dtsb_written dtsb_dsbd_list].
      split; [by exists sp|]. split; [|done]. split; [by right|done].
    + rewrite lookup_insert_ne in E by done. destruct (Hb i b' E) as (H1' & H2' & H3'). split; [done|]. split; [|done].
      rewrite H2'. split; [by left|]. by intros [|].
  - intros i. rewrite map_app, elem_of_app. cbn [map fst]. rewrite list_elem_of_singleton. intros Hin.
    destruct (decide (i = id)) as [-> |Hne]; [rewrite lookup_insert_eq; by eexists|].
    rewrite lookup_insert_ne by done. destruct Hin as [Hin|]; [by apply Hd|done].
  - rewrite map_app. apply NoDup_app. split; [done|]. split; [|apply NoDup_singleton].
    intros i Hin. cbn [map fst]. rewrite list_elem_of_singleton. by intros ->.
Qed.

Lemma in_flight_notin fl id d : in_flight fl id = 0 -> MData id d ∉ fl.
Proof.
  unfold in_flight. intros E Hin. assert (MData id d ∈ filter (is_data id) fl) as Hf by (by apply list_elem_of_filter).
  destruct (filter (is_data id) fl); [by apply not_elem_of_nil in Hf|simpl in E; lia].
Qed.

(** One speculation is drained: all its data was read and it is freed, or its
    data is removed and counted. *)
Lemma inv_drain_one fl own lst mk specs bufs acc id read l out b :
  shared_inv fl own lst mk specs bufs (acc ++ (id, read) :: l) out -> bufs !! id = Some b ->
  let read' := read + Z.of_nat (length (dtsb_dsbd_list b)) in
  let out' := if dtsb_committing b then out ++ dtsb_dsbd_list b else out in
  if read' <? dtsb_written b
  then shared_inv fl own lst mk specs (<[id := SpecBuf 0 (dtsb_committing b) (dtsb_written b) (dtsb_draining b) []]> bufs)
         ((acc ++ [(id, read')]) ++ l) out'
  else shared_inv fl own lst mk (bm_delete id specs) (delete id bufs) (acc ++ l) out'.
Proof.
  intros Hi Eb read' out'. pose proof Hi as [Hok Hc Hp Hf Hb Hd Hnd Hm Hout].
  destruct (Hb id b Eb) as ((sp & Hsp & Hdr) & Hiff & Hall).
  assert ((id ∉ map fst acc) /\ (id ∉ map fst l)) as [Hna Hnl].
  { rewrite map_app in Hnd. apply NoDup_app in Hnd as (_ & Hdis & Hn2). cbn [map fst] in *.
    apply NoDup_cons in Hn2 as [Hn2 _]. split; [|done]. intros Hin. apply (Hdis id Hin). by left. }
  assert (c_true (dtsb_draining b) = true) as Ht by (apply Hiff; rewrite map_app, elem_of_app; right; by left).
  destruct (Hdr Ht) as [Hspd Hw].
  assert (read_of (acc ++ (id, read) :: l) id = read) as Er.
  { rewrite read_of_app, decide_False by done. simpl. by rewrite Z.eqb_refl. }
  pose proof (Hc id sp Hsp) as Hcount. rewrite Er in Hcount. unfold stored in Hcount. rewrite Eb in Hcount.
  destruct (Hp id ltac:(by eexists)) as [Hlost _].
  assert (Forall (λ d, dsbd_of d ∈ mk) out') as Hout'.
  { unfold out'. destruct (dtsb_committing b); [|done]. apply Forall_app. split; [done|].
    eapply Forall_impl; [exact Hall|]. intros d ->. by apply (Hm id sp). }
  assert (forall i r l', i <> id -> read_of (acc ++ (id, r) :: l') i = read_of (acc ++ l') i) as Hro.
  { intros i r l' Hne. rewrite !read_of_app. case_decide; [done|]. simpl. by rewrite (proj2 (Z.eqb_neq id i)) by done. }
  destruct (Z.ltb_spec read' (dtsb_written b)) as [Hlt|Hge].
  - rewrite <- app_assoc. cbn [app]. assert (map fst (acc ++ (id, read') :: l) = map fst (acc ++ (id, read) :: l)) as Em
      by (by rewrite !map_app).
    assert (read_of (acc ++ (id, read') :: l) id = read') as Er'
      by (rewrite read_of_app, decide_False by done; simpl; by rewrite Z.eqb_refl).
    split; try done; rewrite ?Em; try done.
    + intros i x Hx. rewrite stored_insert. cbn [dtsb_dsbd_list]. destruct (decide (id = i)) as [<- |Hne].
      * rewrite Er'. rewrite Hsp in Hx. injection Hx as <-. unfold read'. simpl. lia.
      * rewrite Hro by done. rewrite (Hc i x Hx), Hro by done. done.
    + intros i Hx. destruct (Hp i Hx) as [? Hr]. split; [done|]. destruct (decide (i = id)) as [-> |Hne].
      * rewrite Er'. rewrite Er in Hr. unfold read'. lia.
      * rewrite Hro in Hr |- * by done. done.
    + intros i b' E. destruct (decide (i = id)) as [-> |Hne].
      * rewrite lookup_insert_eq in E. injection E as <-. cbn [dtsb_draining dtsb_written dtsb_dsbd_list].
        split; [by exists sp|]. split; [done|constructor].
      * rewrite lookup_insert_ne in E by done. by apply Hb.
    + intros i Hin. destruct (decide (i = id)) as [-> |Hne]; [rewrite lookup_insert_eq; by eexists|].
      rewrite lookup_insert_ne by done. by apply Hd.
  - assert (in_flight fl id = 0) as Hf0 by (pose proof (in_flight_nonneg fl id); unfold read' in Hge; lia).
    destruct (bm_delete_ok id specs Hok) as (Hok' & Hl' & Ho).
    assert (forall i, i <> id -> bm_lookup i (bm_delete id specs) = bm_lookup i specs) as Ho' by (intros i Hne; by apply Ho).
    assert (forall i, i ∈ map fst (acc ++ l) <-> i ∈ map fst (acc ++ (id, read) :: l) /\ i <> id) as Hmem.
    { intros i. rewrite !map_app, !elem_of_app. cbn [map fst]. rewrite elem_of_cons. split.
      - intros [Hin|Hin]; split; try tauto; intros ->; done.
      - intros [[Hin|[-> |Hin]] Hne]; tauto. }
    split; try done.
    + intros i x Hx. destruct (decide (i = id)) as [-> |Hne]; [congruence|]. rewrite Ho' in Hx by done.
      rewrite (Hc i x Hx), Hro by done. unfold stored. by rewrite lookup_delete_ne.
    + intros i Hx. destruct (decide (i = id)) as [-> |Hne]; [rewrite Hl' in Hx; by destruct Hx|]. rewrite Ho' in Hx by done.
      destruct (Hp i Hx) as [? Hr]. rewrite Hro in Hr by done. done.
    + intros i d Hin. destruct (decide (i = id)) as [-> |Hne]; [by destruct (in_flight_notin fl id d Hf0)|].
      rewrite Ho' by done. by apply Hf.
    + intros i b' E. apply lookup_delete_Some in E as [Hne E]. rewrite Ho', Hmem by done. destruct (Hb i b' E) as (? & Hiff' & ?).
      split; [done|]. split; [|done]. rewrite Hiff'. assert (i <> id) by congruence. tauto.
    + intros i [Hin Hne]%Hmem. rewrite lookup_delete_ne by done. by apply Hd.
    + rewrite map_app in Hnd |- *. apply NoDup_app in Hnd as (Hn1 & Hdis & Hn2). cbn [map fst] in *.
      apply NoDup_cons in Hn2 as [_ Hn2]. apply NoDup_app. split; [done|]. split; [|done]. intros i Hin Hin'. apply (Hdis i Hin). by right.
    + intros i x Hx. destruct (decide (i = id)) as [-> |Hne]; [congruence|]. rewrite Ho' in Hx by done. by apply Hm.
Qed.

Lemma inv_drain_loop fl own lst mk l : forall acc (specs : M) c,
  shared_inv fl own lst mk specs (dt_spec_bufs c) (acc ++ l) (cons_out c) ->
  let '(specs', c', l') := drain_loop l specs c in
  shared_inv fl own lst mk specs' (dt_spec_bufs c') (acc ++ l') (cons_out c').
Proof.
  induction l as [|[id read] l IH]; intros acc specs c Hi; [done|]. cbn [drain_loop].
  destruct (inv_drain _ _ _ _ _ _ _ _ Hi id) as [b Eb]; [rewrite map_app, elem_of_app; right; by left|]. rewrite Eb.
  pose proof (inv_drain_one _ _ _ _ _ _ _ _ _ _ _ b Hi Eb) as Hone. cbv zeta in Hone. cbv zeta.
  destruct (_ <? dtsb_written b).
  - set (c1 := Cons (<[id := _]> (dt_spec_bufs c)) _ _ _).
    specialize (IH (acc ++ [(id, read + Z.of_nat (length (dtsb_dsbd_list b)))]) specs c1 Hone).
    destruct (drain_loop l specs c1) as [[specs' c'] l']. by rewrite <- app_assoc in IH.
  - by apply IH.
Qed.

Lemma inv_drain_ok fl own lst mk (specs : M) c specs' c' :
  shared_inv fl own lst mk specs (dt_spec_bufs c) (dt_spec_bufs_draining c) (cons_out c) -> drain specs c = (specs', c') ->
  shared_inv fl own lst mk specs' (dt_spec_bufs c') (dt_spec_bufs_draining c') (cons_out c').
Proof.
  intros Hi. unfold drain. pose proof (inv_drain_loop fl own lst mk (dt_spec_bufs_draining c) [] specs c Hi) as Hl.
  destruct (drain_loop _ specs c) as [[specs1 c1] l1]. intros [= <- <-]. exact Hl.
Qed.

(** *** The steps *)

(** A record that is not speculative data leaves the buffers. *)
Lemma inv_take l1 l2 x own lst mk specs bufs dl out : (forall id d, x <> MData id d) ->
  shared_inv (l1 ++ x :: l2) own lst mk specs bufs dl out -> shared_inv (l1 ++ l2) own lst mk specs bufs dl out.
Proof.
  intros Hx [Hok Hc Hp Hf Hb Hd Hnd Hm Hout].
  assert (forall i, in_flight (l1 ++ x :: l2) i = in_flight (l1 ++ l2) i) as Hfl.
  { intros i. change (x :: l2) with ([x] ++ l2). rewrite !in_flight_app, (in_flight_0 [x]); [lia|].
    intros d Hin%list_elem_of_singleton. by destruct (Hx i d). }
  split; try done.
  - intros i sp. rewrite <- Hfl. apply Hc.
  - intros i d Hin. apply Hf. rewrite elem_of_app, elem_of_cons. apply elem_of_app in Hin as [|]; tauto.
Qed.

(** A record that is not speculative data gets into the buffers, and more
    speculations are marked. *)
Lemma inv_put x own lst fl mk mk' specs bufs dl out : (forall id d, x <> MData id d) -> mk ⊆ mk' ->
  shared_inv fl own lst mk specs bufs dl out -> shared_inv (fl ++ [x]) own lst mk' specs bufs dl out.
Proof.
  intros Hx Hsub [Hok Hc Hp Hf Hb Hd Hnd Hm Hout].
  assert (forall i, in_flight (fl ++ [x]) i = in_flight fl i) as Hfl.
  { intros i. rewrite in_flight_app, (in_flight_0 [x]); [lia|]. intros d Hin%list_elem_of_singleton. by destruct (Hx i d). }
  split; try done.
  - intros i sp. rewrite Hfl. apply Hc.
  - intros i d [Hin|Hin%list_elem_of_singleton]%elem_of_app; [by apply Hf|]. by destruct (Hx i d).
  - intros i sp Hl Hdr. apply Hsub. by apply (Hm i sp).
  - eapply Forall_impl; [exact Hout|]. intros d. apply Hsub.
Qed.

Lemma inv_marks own lst fl mk mk' specs bufs dl out : mk ⊆ mk' ->
  shared_inv fl own lst mk specs bufs dl out -> shared_inv fl own lst mk' specs bufs dl out.
Proof.
  intros Hsub [Hok Hc Hp Hf Hb Hd Hnd Hm Hout]. split; try done.
  - intros i sp Hl Hdr. apply Hsub. by apply (Hm i sp).
  - eapply Forall_impl; [exact Hout|]. intros d. apply Hsub.
Qed.

Lemma lost_lose w id kept i st fl c nx ow mk sp :
  lost (World sp st fl c nx ow (lose w id kept) mk) i =
  if kept then lost w i else if decide (i = id) then lost w i + 1 else lost w i.
Proof.
  unfold lose, lost. simpl. destruct kept; [done|]. case_decide as Hc; [subst; by rewrite lookup_insert_eq|].
  by rewrite lookup_insert_ne.
Qed.

Lemma step_speculate_inv w id cpu data m (emitted : bool) : inv w ->
  dt_speculation_speculate id (w_specs w) = (true, m) ->
  (forall sp, bm_lookup id (w_specs w) = Some sp -> written sp + 1 < 2 ^ 64) ->
  inv (World m (w_state w)
         (if emitted then w_flight w ++ [MData id (SpecData cpu data (owner w id))] else w_flight w)
         (w_cons w) (w_next w) (w_owner w) (lose w id emitted) (w_marked w)).
Proof.
  intros [Hst Hi] Hs Hb. split; [done|]. unfold dt_speculation_speculate in Hs.
  destruct (bm_lookup id (w_specs w)) as [sp|] eqn:Hl; [|done]. destruct (c_true (draining sp)) eqn:Ed; [done|].
  injection Hs as <-. specialize (Hb sp eq_refl).
  pose proof (inv_count _ _ _ _ _ _ _ _ Hi id sp Hl) as Hc.
  destruct (inv_pos _ _ _ _ _ _ _ _ Hi id ltac:(by eexists)) as [Hp1 Hp2].
  assert (0 <= written sp) as Hw by (pose proof (in_flight_nonneg (w_flight w) id); unfold stored in Hc; destruct (_ !! id); lia).
  cbn [w_specs w_flight w_cons w_marked].
  eapply (inv_rewrite (w_flight w) _ _ (lost w) _ (w_marked w)); [exact Hi|exact Hl|..].
  - intros i Hne. rewrite lost_lose. destruct emitted; [|by rewrite decide_False].
    rewrite in_flight_app, in_flight_data, decide_False by done. split; [lia|done].
  - rewrite lost_lose. cbn [written]. rewrite wrapu_small by lia. rewrite decide_True by done.
    destruct emitted; [rewrite in_flight_app, in_flight_data, decide_True by done|]; lia.
  - rewrite lost_lose, decide_True by done. destruct emitted; lia.
  - intros i d. destruct emitted; [|by left].
    intros [Hin|[= -> ->]%list_elem_of_singleton]%elem_of_app; [by left|by right].
  - rewrite Ed. done.
  - simpl. rewrite Ed. done.
  - done.
Qed.

Lemma step_mark_inv w id (commit emitted : bool) rc err m : inv w ->
  dt_speculation_set_drainable NSPEC id (w_specs w) = (rc, err, m) ->
  inv (World m (w_state w) (if emitted then w_flight w ++ [MDrain id commit] else w_flight w)
         (w_cons w) (w_next w) (w_owner w) (w_lost w) (w_marked w ∪ {[ owner w id ]})).
Proof.
  intros [Hst Hi] Hs. split; [done|]. cbn [w_specs w_flight w_cons w_marked].
  assert (shared_inv (w_flight w) (owner w) (lost w) (w_marked w ∪ {[ owner w id ]}) m
    (dt_spec_bufs (w_cons w)) (dt_spec_bufs_draining (w_cons w)) (cons_out (w_cons w))) as Hm.
  { unfold dt_speculation_set_drainable in Hs. destruct (bm_lookup id (w_specs w)) as [sp|] eqn:Hl.
    - injection Hs as <- <- <-. eapply (inv_rewrite (w_flight w) _ _ (lost w) _ (w_marked w)); [exact Hi|exact Hl|..]; try done.
      + simpl. lia.
      + destruct (inv_pos _ _ _ _ _ _ _ _ Hi id ltac:(by eexists)). done.
      + by left.
      + intros _. set_solver.
      + set_solver.
    - eapply inv_marks; [|destruct (id <=? NSPEC); injection Hs as <- <- <-; exact Hi]. set_solver. }
  destruct emitted; [|exact Hm]. by eapply inv_put.
Qed.

Lemma step_inv w w' : inv w -> step w w' -> inv w'.
Proof.
  intros Hw Hs. pose proof Hw as [Hst Hi]. destruct Hs as
    [id m st Hsp Hne|m st Hsp|id cpu data m emitted Hsp Hb|id commit emitted rc err m Hsp| |x l1 l2 mem kept m c Hfl Hc].
  - destruct (speculation_ok _ _ (inv_specs _ _ _ _ _ _ _ _ Hi) Hst) as (id' & m' & st' & E & Hst' & Hcase).
    rewrite Hsp in E. injection E as <- <- <-. destruct Hcase as [[? _]|(_ & Hl & Hu)]; [done|]. split; [done|].
    cbn. eapply shared_inv_ext; [| |exact (inv_speculation _ _ _ _ _ _ _ _ _ _ (w_next w) Hi Hl Hu)].
    + intros i. unfold owner. simpl. destruct (decide (i = id)) as [-> |Hne']; [by rewrite lookup_insert_eq|by rewrite lookup_insert_ne].
    + intros i. unfold lost. simpl. destruct (decide (i = id)) as [-> |Hne']; [by rewrite lookup_insert_eq|by rewrite lookup_insert_ne].
  - destruct (speculation_ok _ _ (inv_specs _ _ _ _ _ _ _ _ Hi) Hst) as (id' & m' & st' & E & Hst' & Hcase).
    rewrite Hsp in E. injection E as <- <- <-. destruct Hcase as [[_ ->]|(? & _)]; [|lia]. split; [done|]. exact Hi.
  - by eapply step_speculate_inv.
  - by eapply step_mark_inv.
  - split; [done|]. by eapply inv_put.
  - split; [done|]. rewrite Hfl in Hi. cbn [w_specs w_flight w_cons w_marked]. destruct x as [id d|id commit|]; cbn [consume] in Hc.
    + destruct (hive_off specsize id d (w_cons w) mem) as [[kept' c'] mem'] eqn:Eh. injection Hc as <- <- <-.
      eapply inv_hive; [exact Hi|exact Eh|]. intros i. by rewrite lost_lose.
    + destruct (start_draining id commit (w_specs w) (w_cons w) mem) as [[c'|e] mem'] eqn:Es; cbn [fst] in Hc; [|done].
      destruct (drain (w_specs w) c') as [specs' c''] eqn:Ed. injection Hc as <- <- <-.
      eapply (inv_drain_ok _ _ (lost w)); [|exact Ed]. eapply inv_start; [|exact Es]. by apply (inv_take _ _ (MDrain id commit)).
    + destruct (drain (w_specs w) (w_cons w)) as [specs' c''] eqn:Ed. injection Hc as <- <- <-.
      eapply (inv_drain_ok _ _ (lost w)); [|exact Ed]. by apply (inv_take _ _ MOther).
Qed.

(** The start: empty maps, buffers and tables. *)
Definition init_cons : consumer := Cons ∅ [] 0 [].
Definition init (specs : M) (st : St) : world := World specs st [] init_cons 1 ∅ ∅ ∅.

Lemma init_inv specs st : bm_ok specs -> bm_ok st -> (forall id, bm_lookup id specs = None) -> inv (init specs st).
Proof.
  intros Hok Hst Hn. split; [done|]. split; simpl; try done.
  - intros id sp. by rewrite Hn.
  - intros id d Hin. by apply not_elem_of_nil in Hin.
  - intros id Hin. by apply not_elem_of_nil in Hin.
  - constructor.
  - intros id sp. by rewrite Hn.
Qed.

Lemma reachable_inv specs st w : bm_ok specs -> bm_ok st -> (forall id, bm_lookup id specs = None) ->
  rtc step (init specs st) w -> inv w.
Proof.
  intros Hok Hst Hn Hr. pose proof (init_inv specs st Hok Hst Hn) as Hi.
  induction Hr as [|w1 w2 w3 Hs _ IH]; [done|]. apply IH. by eapply step_inv.
Qed.

(** ** Draining ends *)

(** What draining the speculations of a list outputs: what is kept of the
    committed ones, nothing of the discarded ones. *)
Definition drain_output (bufs : gmap Z spec_buf) (l : list (Z * Z)) : list specdata :=
  concat (map (λ p, match bufs !! p.1 with
                    | Some b => if dtsb_committing b then dtsb_dsbd_list b else []
                    | None => []
                    end) l).

Lemma drain_output_ext bufs bufs' l :
  (forall id, id ∈ map fst l -> bufs !! id = bufs' !! id) -> drain_output bufs l = drain_output bufs' l.
Proof.
  unfold drain_output. induction l as [|[i r] l IH]; intros He; [done|]. cbn [map concat fst].
  rewrite He by (by left). f_equal. apply IH. intros id Hid. apply He. by right.
Qed.

Lemma drain_output_snoc bufs l id r : drain_output bufs (l ++ [(id, r)]) =
  drain_output bufs l ++
  match bufs !! id with Some b => if dtsb_committing b then dtsb_dsbd_list b else [] | None => [] end.
Proof. unfold drain_output. rewrite map_app, concat_app. cbn [map concat fst]. by rewrite app_nil_r. Qed.

Lemma drain_loop_out l : forall (specs : M) c, NoDup (map fst l) ->
  let '(_, c', _) := drain_loop l specs c in
  cons_out c' = cons_out c ++ drain_output (dt_spec_bufs c) l.
Proof.
  induction l as [|[i read] l IH]; intros specs c Hnd; [symmetry; apply app_nil_r|].
  cbn [drain_loop]. cbn [map fst] in Hnd. apply NoDup_cons in Hnd as [Hn Hnd].
  change (drain_output (dt_spec_bufs c) ((i, read) :: l)) with
    (match dt_spec_bufs c !! i with
     | Some b => if dtsb_committing b then dtsb_dsbd_list b else []
     | None => [] end ++ drain_output (dt_spec_bufs c) l).
  destruct (dt_spec_bufs c !! i) as [b|].
  - cbv zeta. destruct (_ <? dtsb_written b);
      (match goal with |- context [drain_loop l ?m ?c1] =>
         specialize (IH m c1 Hnd); destruct (drain_loop l m c1) as [[specs' c'] l'] end;
       rewrite IH; cbn [cons_out dt_spec_bufs];
       rewrite (drain_output_ext _ (dt_spec_bufs c))
         by (intros id Hid; first [rewrite lookup_insert_ne|rewrite lookup_delete_ne]; congruence);
       destruct (dtsb_committing b); by rewrite <- ?app_assoc).
  - specialize (IH specs c Hnd). by destruct (drain_loop l specs c) as [[specs' c'] l'].
Qed.

(** Only speculations on the list are freed or change. *)
Lemma drain_loop_other fl own lst mk id l : forall acc (specs : M) c,
  shared_inv fl own lst mk specs (dt_spec_bufs c) (acc ++ l) (cons_out c) -> id ∉ map fst l ->
  let '(specs', c', l') := drain_loop l specs c in
  bm_lookup id specs' = bm_lookup id specs /\ dt_spec_bufs c' !! id = dt_spec_bufs c !! id.
Proof.
  induction l as [|[i read] l IH]; intros acc specs c Hi Hn; [done|]. cbn [drain_loop].
  cbn [map fst] in Hn. apply not_elem_of_cons in Hn as [Hne Hn].
  destruct (inv_drain _ _ _ _ _ _ _ _ Hi i) as [b Eb]; [rewrite map_app, elem_of_app; right; by left|]. rewrite Eb.
  pose proof (inv_drain_one _ _ _ _ _ _ _ _ _ _ _ b Hi Eb) as Hone. cbv zeta in Hone. cbv zeta.
  destruct (_ <? dtsb_written b).
  - set (c1 := Cons (<[i := _]> (dt_spec_bufs c)) _ _ _).
    specialize (IH (acc ++ [(i, read + Z.of_nat (length (dtsb_dsbd_list b)))]) specs c1 Hone Hn).
    destruct (drain_loop l specs c1) as [[specs' c'] l']. destruct IH as [IH1 IH2]. split; [done|].
    rewrite IH2. simpl. by rewrite lookup_insert_ne.
  - set (c1 := Cons (delete i (dt_spec_bufs c)) _ _ _). specialize (IH acc (bm_delete i specs) c1 Hone Hn).
    destruct (drain_loop l (bm_delete i specs) c1) as [[specs' c'] l']. destruct IH as [-> IH2].
    split; [|rewrite IH2; simpl; by rewrite lookup_delete_ne].
    destruct (bm_delete_ok i specs (inv_specs _ _ _ _ _ _ _ _ Hi)) as (_ & _ & Ho). by destruct (Ho id Hne).
Qed.

(** A speculation on the list is freed just if none of its data is under way or
    lost; otherwise it stays, emptied, committed or discarded as before. *)
Lemma drain_loop_frees fl own lst mk id b l : forall acc (specs : M) c,
  shared_inv fl own lst mk specs (dt_spec_bufs c) (acc ++ l) (cons_out c) ->
  id ∈ map fst l -> dt_spec_bufs c !! id = Some b ->
  let '(specs', c', l') := drain_loop l specs c in
  (bm_lookup id specs' = None <-> in_flight fl id + lst id = 0) /\
  (forall b', dt_spec_bufs c' !! id = Some b' ->
     dtsb_committing b' = dtsb_committing b /\ dtsb_dsbd_list b' = []).
Proof.
  induction l as [|[i read] l IH]; intros acc specs c Hi Hin Ebid; [by apply not_elem_of_nil in Hin|]. cbn [drain_loop].
  destruct (inv_drain _ _ _ _ _ _ _ _ Hi i) as [bi Eb]; [rewrite map_app, elem_of_app; right; by left|]. rewrite Eb.
  pose proof (inv_drain_one _ _ _ _ _ _ _ _ _ _ _ bi Hi Eb) as Hone. cbv zeta in Hone. cbv zeta.
  destruct (decide (i = id)) as [-> |Hne].
  - rewrite Ebid in Eb. injection Eb as <-.
    destruct (inv_bufs _ _ _ _ _ _ _ _ Hi id b Ebid) as ((sp & Hsp & Hdr) & Hiff & _).
    destruct Hdr as [_ Hw]; [apply Hiff; rewrite map_app, elem_of_app; right; by left|].
    pose proof (inv_count _ _ _ _ _ _ _ _ Hi id sp Hsp) as Hc.
    destruct (inv_pos _ _ _ _ _ _ _ _ Hi id ltac:(by eexists)) as [Hlp _]. pose proof (in_flight_nonneg fl id).
    pose proof (inv_nodup _ _ _ _ _ _ _ _ Hi) as Hnd. rewrite map_app in Hnd. apply NoDup_app in Hnd as (_ & Hdis & Hnd).
    cbn [map fst] in Hnd, Hdis. apply NoDup_cons in Hnd as [Hnl _].
    assert (id ∉ map fst acc) as Hna by (intros Hacc; apply (Hdis id Hacc); by left).
    rewrite read_of_app, decide_False in Hc by done. simpl in Hc. rewrite Z.eqb_refl in Hc. unfold stored in Hc. rewrite Ebid in Hc.
    destruct (Z.ltb_spec (read + Z.of_nat (length (dtsb_dsbd_list b))) (dtsb_written b)).
    + set (c1 := Cons (<[id := _]> (dt_spec_bufs c)) _ _ _) in *.
      pose proof (drain_loop_other _ _ _ _ id l (acc ++ [(id, read + Z.of_nat (length (dtsb_dsbd_list b)))]) specs c1 Hone Hnl) as Ho.
      destruct (drain_loop l specs c1) as [[specs' c'] l']. destruct Ho as [-> ->].
      split; [rewrite Hsp; split; [done|lia]|]. intros b'. simpl. rewrite lookup_insert_eq. by intros [= <-].
    + set (c1 := Cons (delete id (dt_spec_bufs c)) _ _ _) in *.
      pose proof (drain_loop_other _ _ _ _ id l acc (bm_delete id specs) c1 Hone Hnl) as Ho.
      destruct (drain_loop l (bm_delete id specs) c1) as [[specs' c'] l']. destruct Ho as [-> ->].
      destruct (bm_delete_ok id specs (inv_specs _ _ _ _ _ _ _ _ Hi)) as (_ & -> & _).
      split; [split; [lia|done]|]. intros b'. simpl. by rewrite lookup_delete_eq.
  - assert (id ∈ map fst l) as Hin' by (cbn [map fst] in Hin; apply elem_of_cons in Hin as [|]; done).
    destruct (_ <? dtsb_written bi).
    + set (c1 := Cons (<[i := _]> (dt_spec_bufs c)) _ _ _).
      specialize (IH (acc ++ [(i, read + Z.of_nat (length (dtsb_dsbd_list bi)))]) specs c1 Hone Hin').
      destruct (drain_loop l specs c1) as [[specs' c'] l']. apply IH. simpl. by rewrite lookup_insert_ne.
    + apply (IH acc); [exact Hone|done|]. simpl. by rewrite lookup_delete_ne.
Qed.

(** One drain: its output, and what becomes of each speculation on the list. *)
Lemma drain_spec fl own lst mk (specs : M) c m c' :
  shared_inv fl own lst mk specs (dt_spec_bufs c) (dt_spec_bufs_draining c) (cons_out c) ->
  drain specs c = (m, c') ->
  cons_out c' = cons_out c ++ drain_output (dt_spec_bufs c) (dt_spec_bufs_draining c) /\
  forall id b, id ∈ map fst (dt_spec_bufs_draining c) -> dt_spec_bufs c !! id = Some b ->
    (bm_lookup id m = None <-> in_flight fl id + lst id = 0) /\
    (bm_lookup id m = None -> dt_spec_bufs c' !! id = None /\ id ∉ map fst (dt_spec_bufs_draining c')) /\
    (forall b', dt_spec_bufs c' !! id = Some b' ->
       dtsb_committing b' = dtsb_committing b /\ dtsb_dsbd_list b' = []).
Proof.
  intros Hi Ed. pose proof (inv_drain_ok _ _ _ _ _ _ _ _ Hi Ed) as Hi'.
  pose proof (drain_loop_out (dt_spec_bufs_draining c) specs c (inv_nodup _ _ _ _ _ _ _ _ Hi)) as Hout.
  assert (forall id b, id ∈ map fst (dt_spec_bufs_draining c) -> dt_spec_bufs c !! id = Some b ->
    let '(specs', c', l') := drain_loop (dt_spec_bufs_draining c) specs c in
    (bm_lookup id specs' = None <-> in_flight fl id + lst id = 0) /\
    (forall b', dt_spec_bufs c' !! id = Some b' ->
       dtsb_committing b' = dtsb_committing b /\ dtsb_dsbd_list b' = [])) as Hfree
    by (intros id b Hid Eb; exact (drain_loop_frees _ _ _ _ id b _ [] _ _ Hi Hid Eb)).
  unfold drain in Ed. destruct (drain_loop _ _ _) as [[m' c1] l']. injection Ed as <- <-.
  split; [exact Hout|]. intros id b Hid Eb. destruct (Hfree id b Hid Eb) as [Hn Hb]. split; [exact Hn|]. split; [|exact Hb].
  intros Hnone. destruct (inv_gone _ _ _ _ _ _ _ _ id Hi' Hnone) as (_ & Hb' & _). split; [done|].
  intros Hin. destruct (inv_drain _ _ _ _ _ _ _ _ Hi' id Hin). congruence.
Qed.

Lemma hive_off_out id d c mem : forall kept c' mem',
  hive_off specsize id d c mem = (kept, c', mem') -> cons_out c' = cons_out c.
Proof. unfold hive_off. intros kept c' mem'. repeat case_match; intros [= <- <- <-]; done. Qed.

(** How a commit or discard changes what the consumer keeps. *)
Lemma start_draining_out id commit (specs : M) c mem c' mem' :
  start_draining id commit specs c mem = (Ok c', mem') ->
  cons_out c' = cons_out c /\
  match dt_spec_bufs c !! id with
  | Some b =>
      if c_true (dtsb_draining b) then c' = c
      else dt_spec_bufs_draining c' = dt_spec_bufs_draining c ++ [(id, 0)] /\
           (forall i, i <> id -> dt_spec_bufs c' !! i = dt_spec_bufs c !! i) /\
           exists b', dt_spec_bufs c' !! id = Some b' /\ dtsb_committing b' = commit /\
             dtsb_dsbd_list b' = dtsb_dsbd_list b
  | None => c' = c
  end.
Proof.
  unfold start_draining. destruct (dt_spec_bufs c !! id) as [b|] eqn:Eb; [|by intros [= <- <-]].
  destruct (c_true (dtsb_draining b)); [by intros [= <- <-]|].
  destruct (bm_lookup id specs) as [sp|]; [|done]. destruct (negb _); [done|]. destruct (malloc mem) as [ok m].
  destruct ok; [|done]. intros [= <- <-]. simpl. split; [done|]. split; [done|].
  split; [intros i Hi; by rewrite lookup_insert_ne|]. eexists. by rewrite lookup_insert_eq.
Qed.
End System.

(** ** The properties *)

Section Claims.
Context {M St : Type} `{BpfMapLaws M Z spec, BpfMapLaws St Z Z} (NSPEC specsize : Z).


End Claims.

(** ** An execution

    A speculation of two clauses, the second of which the buffers deliver after
    the commit. *)

Module Run.
Definition specs0 : list (option (Z * spec)) := [None; None].
Definition state0 : list (option (Z * Z)) := [Some (4, 0); Some (5, 0)].
Definition data (n : Z) : specdata := SpecData 0 [n] 1.

Definition bufs3 : gmap Z spec_buf := {[ 1 := SpecBuf 1 true 2 1 [data 8] ]}.
Definition w3 : world :=
  World [Some (1, Spec 2 0 1); None] state0 [MOther] (Cons bufs3 [(1, 1)] 0 [data 7]) 2 {[ 1 := 1 ]} {[ 1 := 0 ]} (∅ ∪ {[ 1 ]}).

(** Take a step, and evaluate the state that it leads to. *)
Ltac run :=
  match goal with |- rtc _ ?a _ => let a' := eval vm_compute in a in change a with a' end.

Lemma reach3 : rtc (step 1 100) (init specs0 state0) w3.
Proof.
  eapply rtc_l; [eapply (step_speculation 1 100 _ 1); [vm_compute; reflexivity|done]|]. run.
  eapply rtc_l; [eapply (step_speculate 1 100 _ 1 0 [7] _ true); [vm_compute; reflexivity|]|].
  { intros sp E. vm_compute in E. injection E as <-. cbn [written]. lia. }
  run. eapply rtc_l; [eapply (step_speculate 1 100 _ 1 0 [8] _ true); [vm_compute; reflexivity|]|].
  { intros sp E. vm_compute in E. injection E as <-. cbn [written]. lia. }
  run. eapply rtc_l; [eapply (step_mark 1 100 _ 1 true true); vm_compute; reflexivity|]. run.
  eapply rtc_l; [eapply (step_consume 1 100 _ (MData 1 (data 7)) [] [MData 1 (data 8); MDrain 1 true] (replicate 4 true)); vm_compute; reflexivity|].
  run. eapply rtc_l; [eapply (step_consume 1 100 _ (MDrain 1 true) [MData 1 (data 8)] [] [true]); vm_compute; reflexivity|].
  run. eapply rtc_l; [eapply (step_consume 1 100 _ (MData 1 (data 8)) [] [] (replicate 4 true)); vm_compute; reflexivity|].
  run. eapply rtc_l; [eapply step_record|]. run. apply rtc_refl.
Defined.

Lemma specs0_ok : bm_ok specs0 /\ bm_ok state0 /\ forall id, bm_lookup id specs0 = None.
Proof.
  assert (slots_ok specs0) as Hok.
  { split; [done|]. intros [|[|i]] j k v w; by intros [=]. }
  split; [done|]. split.
  - split; [done|]. by intros [|[|i]] [|[|j]] k v w [= <- <-] [= <-].
  - done.
Qed.



(** A second commit() of a speculation may be delivered after the id was freed
    and handed out again: it is taken for a commit of the new speculation, whose
    id is not marked, and the assertion on dt_bpf_specs_t.draining fails. *)
Lemma stale_commit : exists w,
  rtc (step 1 100) (init specs0 state0) w /\ w_flight w = [MDrain 1 true] /\ owner w 1 = 2 /\ (2 ∉ w_marked w) /\
  consume 100 (MDrain 1 true) (w_specs w) (w_cons w) [true] = Err ASSERT.
Proof.
  eexists. split.
  { eapply rtc_l; [eapply (step_speculation 1 100 _ 1); [vm_compute; reflexivity|done]|]. run.
    eapply rtc_l; [eapply (step_speculate 1 100 _ 1 0 [7] _ true); [vm_compute; reflexivity|]|].
    { intros sp E. vm_compute in E. injection E as <-. cbn [written]. lia. }
    run. eapply rtc_l; [eapply (step_mark 1 100 _ 1 true true); vm_compute; reflexivity|]. run.
    eapply rtc_l; [eapply (step_mark 1 100 _ 1 true true); vm_compute; reflexivity|]. run.
    eapply rtc_l; [eapply (step_consume 1 100 _ (MData 1 (data 7)) [] [MDrain 1 true; MDrain 1 true] (replicate 4 true)); vm_compute; reflexivity|].
    run. eapply rtc_l; [eapply (step_consume 1 100 _ (MDrain 1 true) [] [MDrain 1 true] [true]); vm_compute; reflexivity|].
    run. eapply rtc_l; [eapply (step_speculation 1 100 _ 1); [vm_compute; reflexivity|done]|]. run.
    eapply rtc_l; [eapply (step_speculate 1 100 _ 1 0 [9] _ true); [vm_compute; reflexivity|]|].
    { intros sp E. vm_compute in E. injection E as <-. cbn [written]. lia. }
    run. eapply rtc_l; [eapply (step_consume 1 100 _ (MData 1 (SpecData 0 [9] 2)) [MDrain 1 true] [] (replicate 4 true)); vm_compute; reflexivity|].
    run. apply rtc_refl. }
  split; [reflexivity|]. split; [reflexivity|]. split; [|vm_compute; reflexivity].
  match goal with |- ?P => assert (¬ P -> False) as Hd by (apply (bool_decide_unpack _); vm_compute; exact I) end.
  by apply dec_stable.
Qed.
End Run.
