(* ===== verification/Consume.v ===== *)
(** * The consumer (libdtrace/dt_consume.c)

    dtrace_consume empties the buffers that have data: the data of the BEGIN
    probe first and that of the END probe last, if need be by going over the
    same buffer twice.  An event goes through dt_consume_one_probe, which hives
    off speculative data, calls the callbacks, acts on commit() and discard(),
    and drains speculations.  What a callback or an action does with a record is
    an argument.  The theorem says in which order the callbacks see the events. *)

From stdpp Require Import base gmap list numbers option sets.
From S2P Require Import Prelude BpfMap Ring Spec.

Definition DTRACE_CONSUME_ERROR : Z := -1.
Definition DTRACE_CONSUME_THIS : Z := 0.
Definition DTRACE_CONSUME_NEXT : Z := 1.
Definition DTRACE_CONSUME_DONE : Z := 2.
Definition DTRACE_HANDLE_OK : Z := 0.
Definition DT_ECB_DEFAULT : Z := 0.
Definition DT_ECB_ERROR : Z := 1.
Definition DTRACEACT_COMMIT : Z := 0x602.
Definition DTRACEACT_DISCARD : Z := 0x603.
Definition DBUF_SPECID : nat := 4.
Definition DBUF_PRID : nat := 8.
Definition DBUF_STID : nat := 12.

(** The members of dtrace_probedesc_t, dtrace_recdesc_t, dtrace_datadesc_t and
    dtrace_probedata_t that are used. *)
Record pdesc := PDesc { prv : list Z; prb : list Z }.
Record recdesc := RecDesc { dtrd_action : Z; dtrd_offset : nat }.
Record ddesc := DDesc { dtdd_uarg : Z; dtdd_recs : list recdesc }.
Record probedata := ProbeData {
  dtpda_cpu : Z; dtpda_pdesc : pdesc; dtpda_stid : Z; dtpda_ddesc : ddesc; dtpda_data : list Z }.

(** How processing of an event goes on: an assertion fails, it returns, or it
    reaches the end. *)
Inductive outcome := Crash | Ret (rval : Z) | Go.

Section One.
(** [U] is the state of the callbacks.  [handle_err] is dt_handle_err with the
    handler it calls; [rec_action] is what is done with a record that is not a
    commit or discard, with the number of further records it takes, [None] for
    an error; [rec_end] the call of the record callback that ends an event. *)
Context {M U : Type} `{BpfMap M Z spec} (specsize : Z) (dt_probes : list pdesc) (stids : Z -> option ddesc)
  (handle_err : (pdesc -> U -> Z * U) -> probedata -> U -> Z * U)
  (rec_action : probedata -> recdesc -> list recdesc -> U -> option nat * U)
  (rec_end : probedata -> U -> U).

(** The part of dtrace_hdl_t that one event can change. *)
Record state := State { s_specs : M; s_cons : consumer; s_user : U; s_mem : allocs }.

Definition set_user (s : state) (u : U) : state := State (s_specs s) (s_cons s) u (s_mem s).

(** The callbacks in use: the caller's, or those of dt_consume_begin. *)
Record callbacks := Callbacks { efunc : probedata -> U -> Z * U; errhdlr : pdesc -> U -> Z * U }.

Definition dt_handle (cb : callbacks) (pd : probedata) (u : U) : Z * U :=
  if dtdd_uarg (dtpda_ddesc pd) =? DT_ECB_ERROR then
    let '(rval, u) := handle_err (errhdlr cb) pd u in
    (if rval =? 0 then DTRACE_CONSUME_NEXT else DTRACE_CONSUME_ERROR, u)
  else (DTRACE_CONSUME_THIS, u).

Definition is_commit_discard (r : recdesc) : bool :=
  (dtrd_action r =? DTRACEACT_COMMIT) || (dtrd_action r =? DTRACEACT_DISCARD).

(** Whether the clause records data, from the caller's perspective. *)
Definition data_recording (committing : bool) (recs : list recdesc) : bool :=
  committing || negb (existsb is_commit_discard recs && forallb is_commit_discard recs).

(** The loop over the records of the event; [skip] of them were taken with the
    record before. *)
Fixpoint recs_loop (pd : probedata) (recording : bool) (specid : Z) (skip : nat) (recs : list recdesc) (s : state)
    : outcome * state :=
  match recs with
  | [] => (Go, s)
  | r :: recs =>
      match skip with
      | S skip => recs_loop pd recording specid skip recs s
      | O =>
          if is_commit_discard r then
            if negb (specid =? 0) then (Crash, s)
            else
              let id := load 4 (dtrd_offset r) (dtpda_data pd) in
              let '(res, m) := start_draining id (dtrd_action r =? DTRACEACT_COMMIT) (s_specs s) (s_cons s) (s_mem s) in
              match res with
              | Ok c => recs_loop pd recording specid O recs (State (s_specs s) c (s_user s) m)
              | Err ASSERT => (Crash, s)
              | Err _ => (Ret DTRACE_WORKSTATUS_ERROR, State (s_specs s) (s_cons s) (s_user s) m)
              end
          else if negb recording then (Crash, s)
          else
            let '(n, u) := rec_action pd r recs (s_user s) in
            match n with
            | None => (Ret DTRACE_WORKSTATUS_ERROR, set_user s u)
            | Some n => recs_loop pd recording specid n recs (set_user s u)
            end
      end
  end.

(** dt_consume_one_probe up to the draining of speculations. *)
Definition one_probe_body (cb : callbacks) (peekflags : Z) (committing : bool) (cpu : Z) (data : list Z) (s : state)
    : outcome * state :=
  let specid := load 4 DBUF_SPECID data in
  let prid := load 4 DBUF_PRID data in
  let stid := load 4 DBUF_STID data in
  match (if prid =? 0 then None else dt_probes !! Z.to_nat prid), stids stid with
  | None, _ => (Ret DTRACE_WORKSTATUS_ERROR, s)
  | Some _, None => (Ret DTRACE_WORKSTATUS_ERROR, s)
  | Some pdesc, Some epd =>
      let pd := ProbeData cpu pdesc stid epd data in
      let '(rval, s) :=
        if dtdd_uarg epd =? DT_ECB_DEFAULT then (DTRACE_CONSUME_THIS, s)
        else let '(rval, u) := dt_handle cb pd (s_user s) in (rval, set_user s u) in
      if rval =? DTRACE_CONSUME_NEXT then (Ret DTRACE_WORKSTATUS_OKAY, s)
      else if rval =? DTRACE_CONSUME_ERROR then (Ret DTRACE_WORKSTATUS_ERROR, s)
      else if negb committing && negb (specid =? 0) then
        if (peekflags =? CONSUME_PEEK) || (peekflags =? CONSUME_PEEK_FINISH) then (Ret DTRACE_WORKSTATUS_OKAY, s)
        else
          let '(_, c, m) := hive_off specsize specid (SpecData cpu data 0) (s_cons s) (s_mem s) in
          (Ret DTRACE_WORKSTATUS_OKAY, State (s_specs s) c (s_user s) m)
      else
        let recording := data_recording committing (dtdd_recs epd) in
        let '(rval, s) :=
          if recording then let '(rval, u) := efunc cb pd (s_user s) in (rval, set_user s u)
          else (DTRACE_CONSUME_THIS, s) in
        if rval =? DTRACE_CONSUME_NEXT then (Ret DTRACE_WORKSTATUS_OKAY, s)
        else if rval =? DTRACE_CONSUME_DONE then (Ret DTRACE_WORKSTATUS_DONE, s)
        else if negb (rval =? DTRACE_CONSUME_THIS) then (Ret DTRACE_WORKSTATUS_ERROR, s)
        else
          match recs_loop pd recording specid O (dtdd_recs epd) s with
          | (Go, s) => (Go, if recording then set_user s (rec_end pd (s_user s)) else s)
          | (o, s) => (o, s)
          end
  end.

(** [None] is a failed assertion. *)
Fixpoint dt_commit_one_spec (cb : callbacks) (peekflags : Z) (l : list specdata) (s : state) : option (Z * state) :=
  match l with
  | [] => Some (DTRACE_WORKSTATUS_OKAY, s)
  | d :: l =>
      match one_probe_body cb peekflags true (dsbd_cpu d) (dsbd_data d) s with
      | (Crash, _) => None
      | (Ret ret, s) =>
          if negb (ret =? DTRACE_WORKSTATUS_OKAY) then Some (ret, s) else dt_commit_one_spec cb peekflags l s
      | (Go, s) => dt_commit_one_spec cb peekflags l s
      end
  end.

(** The loop over the speculations that are drained, with the list that is left. *)
Fixpoint drain_specs (cb : callbacks) (peekflags : Z) (l : list (Z * Z)) (s : state) : option (Z * state * list (Z * Z)) :=
  match l with
  | [] => Some (DTRACE_WORKSTATUS_OKAY, s, [])
  | (id, read) :: l =>
      match dt_spec_bufs (s_cons s) !! id with
      | None => '(ret, s, l) ← drain_specs cb peekflags l s; Some (ret, s, (id, read) :: l)
      | Some b =>
          let read := read + Z.of_nat (length (dtsb_dsbd_list b)) in
          '(ret, s) ← (if dtsb_committing b then dt_commit_one_spec cb peekflags (dtsb_dsbd_list b) s
                       else Some (DTRACE_WORKSTATUS_OKAY, s));
          let c := s_cons s in
          let out := if dtsb_committing b then cons_out c ++ dtsb_dsbd_list b else cons_out c in
          let emptied :=
            Cons (<[id := SpecBuf 0 (dtsb_committing b) (dtsb_written b) (dtsb_draining b) []]> (dt_spec_bufs c))
                 (dt_spec_bufs_draining c) (dt_specdrops c) out in
          if negb (ret =? DTRACE_WORKSTATUS_OKAY) then
            Some (ret, State (s_specs s) emptied (s_user s) (s_mem s), (id, read) :: l)
          else if read <? dtsb_written b then
            '(ret, s, l) ← drain_specs cb peekflags l (State (s_specs s) emptied (s_user s) (s_mem s));
            Some (ret, s, (id, read) :: l)
          else
            let freed := Cons (delete id (dt_spec_bufs c)) (dt_spec_bufs_draining c) (dt_specdrops c) out in
            drain_specs cb peekflags l (State (bm_delete id (s_specs s)) freed (s_user s) (s_mem s))
      end
  end.

(** dt_consume_one_probe for an event of a buffer; [None] is the state after a
    failed assertion. *)
Definition dt_consume_one_probe (cb : callbacks) (peekflags : Z) (cpu : Z) (data : list Z) (s : option state)
    : Z * option state :=
  match s with
  | None => (DTRACE_WORKSTATUS_ERROR, None)
  | Some s =>
      match one_probe_body cb peekflags false cpu data s with
      | (Crash, _) => (DTRACE_WORKSTATUS_ERROR, None)
      | (Ret rval, s) => (rval, Some s)
      | (Go, s) =>
          match drain_specs cb peekflags (dt_spec_bufs_draining (s_cons s)) s with
          | None => (DTRACE_WORKSTATUS_ERROR, None)
          | Some (ret, s, l) =>
              let c := s_cons s in
              (ret, Some (State (s_specs s) (Cons (dt_spec_bufs c) l (dt_specdrops c) (cons_out c)) (s_user s) (s_mem s)))
          end
      end
  end.
End One.
Arguments state : clear implicits.
Arguments callbacks : clear implicits.

(** When the data of committed speculations is processed without an error, the
    loop does to the map and the consumer what the loop of file Spec does. *)
Lemma drain_specs_refines {M U : Type} `{BpfMap M Z spec} specsize dt_probes stids handle_err rec_action rec_end (cb : callbacks U) peek l :
  (forall ds (s : state M U), exists u,
     dt_commit_one_spec specsize dt_probes stids handle_err rec_action rec_end cb peek ds s = Some (DTRACE_WORKSTATUS_OKAY, set_user s u)) ->
  forall s : state M U, exists s',
    drain_specs specsize dt_probes stids handle_err rec_action rec_end cb peek l s =
      Some (DTRACE_WORKSTATUS_OKAY, s', snd (drain_loop l (s_specs s) (s_cons s))) /\
    (s_specs s', s_cons s') = fst (drain_loop l (s_specs s) (s_cons s)) /\ s_mem s' = s_mem s.
Proof.
  intros Hc. induction l as [|[id read] l IH]; intros s; cbn [drain_specs drain_loop]; [by exists s|].
  destruct (dt_spec_bufs (s_cons s) !! id) as [b|].
  - assert (exists u, (if dtsb_committing b then dt_commit_one_spec specsize dt_probes stids handle_err rec_action rec_end cb peek (dtsb_dsbd_list b) s
      else Some (DTRACE_WORKSTATUS_OKAY, s)) = Some (DTRACE_WORKSTATUS_OKAY, set_user s u)) as [u ->].
    { destruct (dtsb_committing b); [apply Hc|]. exists (s_user s). by destruct s. }
    unfold set_user. cbv zeta. cbn [mbind option_bind negb Z.eqb s_cons s_specs s_mem s_user]. destruct (_ <? dtsb_written b).
    + destruct (IH (State (s_specs s) (Cons (<[id := SpecBuf 0 (dtsb_committing b) (dtsb_written b) (dtsb_draining b) []]> (dt_spec_bufs (s_cons s)))
        (dt_spec_bufs_draining (s_cons s)) (dt_specdrops (s_cons s))
        (if dtsb_committing b then cons_out (s_cons s) ++ dtsb_dsbd_list b else cons_out (s_cons s))) u (s_mem s))) as (s' & -> & E & Em).
      cbn [mbind option_bind s_specs s_cons s_mem] in *. destruct (drain_loop l _ _) as [[m c] l']. by exists s'.
    + apply (IH (State (bm_delete id (s_specs s)) _ u (s_mem s))).
  - destruct (IH s) as (s' & -> & E & Em). cbn [mbind option_bind]. destruct (drain_loop l _ _) as [[m c] l']. by exists s'.
Qed.

(** ** The buffers of all CPUs *)

Definition str_dtrace : list Z := [100; 116; 114; 97; 99; 101].
Definition str_BEGIN : list Z := [66; 69; 71; 73; 78].

(** The test of dt_consume_begin_probe and dt_consume_begin_error for the BEGIN probe. *)
Definition is_begin (pd : pdesc) : bool := bool_decide (prv pd = str_dtrace) && bool_decide (prb pd = str_BEGIN).

Section All.
Context {M U : Type} `{BpfMap M Z spec} (specsize : Z) (dt_probes : list pdesc) (stids : Z -> option ddesc)
  (handle_err : (pdesc -> U -> Z * U) -> probedata -> U -> Z * U)
  (rec_action : probedata -> recdesc -> list recdesc -> U -> option nat * U)
  (rec_end : probedata -> U -> U) (cpudrops : Z -> U -> Z * U) (fuel : nat).
(** The caller's callbacks. *)
Context (cb : callbacks U).

Definition dt_consume_begin_probe (beginonly : bool) (pd : probedata) (u : U) : Z * U :=
  if beginonly then
    if negb (is_begin (dtpda_pdesc pd)) then (DTRACE_CONSUME_NEXT, u) else efunc cb pd u
  else if is_begin (dtpda_pdesc pd) then (DTRACE_CONSUME_NEXT, u) else efunc cb pd u.

Definition dt_consume_begin_error (beginonly : bool) (pd : pdesc) (u : U) : Z * U :=
  if beginonly then
    if negb (is_begin pd) then (DTRACE_HANDLE_OK, u) else errhdlr cb pd u
  else if is_begin pd then (DTRACE_HANDLE_OK, u) else errhdlr cb pd u.

Definition begin_callbacks (beginonly : bool) : callbacks U :=
  Callbacks (dt_consume_begin_probe beginonly) (dt_consume_begin_error beginonly).

(** The part of dtrace_hdl_t that dtrace_consume can change.  An element of the
    list of events is the index of a buffer, or no buffer. *)
Record handle := Handle {
  h_pebs : list peb; h_tmp : list Z; h_mem : allocs; h_st : option (state M U);
  dt_beganon : Z; dt_endedon : Z; dt_stopped : bool; dt_lastswitch : Z; dt_lastagg : Z }.

Definition check_cpudrops (cpu : Z) (s : option (state M U)) : Z * option (state M U) :=
  match s with
  | None => (0, None)
  | Some s => let '(r, u) := cpudrops cpu (s_user s) in (r, Some (set_user s u))
  end.

(** dt_consume_cpu on the buffer with index [k]; [None] is a crash. *)
Definition consume_cpu (cbs : callbacks U) (peekflags : Z) (k : nat) (h : handle) : option (Z * handle) :=
  p ← h_pebs h !! k;
  '(rval, p, tmp, m, s) ←
    dt_consume_cpu (dt_consume_one_probe specsize dt_probes stids handle_err rec_action rec_end cbs peekflags) check_cpudrops
      fuel peekflags p (h_tmp h) (h_mem h) (h_st h);
  match s with
  | None => None
  | Some _ =>
      Some (rval, Handle (<[k := p]> (h_pebs h)) tmp m s (dt_beganon h) (dt_endedon h) (dt_stopped h)
                         (dt_lastswitch h) (dt_lastagg h))
  end.

Definition cpu_of (h : handle) (k : nat) : option Z := peb_cpu <$> h_pebs h !! k.

(** The buffers of the events for which [skip] does not hold, until one returns
    something else than 0. *)
Fixpoint consume_cpus (cbs : callbacks U) (skip : handle -> nat -> bool) (events : list (option nat)) (h : handle)
    : option (Z * handle) :=
  match events with
  | [] => Some (0, h)
  | None :: events => consume_cpus cbs skip events h
  | Some k :: events =>
      if skip h k then consume_cpus cbs skip events h
      else
        '(rval, h) ← consume_cpu cbs 0 k h;
        if negb (rval =? 0) then Some (rval, h) else consume_cpus cbs skip events h
  end.

(** The loop that looks for the buffer of [cpu]; the result is the last buffer
    looked at. *)
Fixpoint find_begin (cpu : Z) (h : handle) (bpeb : option nat) (events : list (option nat)) : option nat :=
  match events with
  | [] => bpeb
  | None :: events => find_begin cpu h None events
  | Some k :: events => if decide (cpu_of h k = Some cpu) then Some k else find_begin cpu h (Some k) events
  end.

Definition dt_consume_begin (events : list (option nat)) (h : handle) : option (Z * handle) :=
  let cpu := dt_beganon h in
  let h := Handle (h_pebs h) (h_tmp h) (h_mem h) (h_st h) (-1) (dt_endedon h) (dt_stopped h) (dt_lastswitch h) (dt_lastagg h) in
  match find_begin cpu h None events with
  | None => Some (DTRACE_WORKSTATUS_OKAY, h)
  | Some b =>
      if negb (bool_decide (cpu_of h b = Some cpu)) then Some (DTRACE_WORKSTATUS_OKAY, h)
      else if negb (dt_stopped h) || negb (cpu =? dt_endedon h) then consume_cpu cb 0 b h
      else
        '(rval, h) ← consume_cpu (begin_callbacks true) CONSUME_PEEK_START b h;
        if negb (rval =? 0) then Some (rval, h)
        else
          '(rval, h) ← consume_cpus cb (λ _ k, bool_decide (k = b)) events h;
          if negb (rval =? 0) then Some (rval, h)
          else consume_cpu (begin_callbacks false) CONSUME_PEEK_FINISH b h
  end.

(** The buffer of the CPU on which END executed, if it is among the events. *)
Fixpoint consume_end (events : list (option nat)) (h : handle) : option (Z * handle) :=
  match events with
  | [] => Some (DTRACE_WORKSTATUS_OKAY, h)
  | None :: events => consume_end events h
  | Some k :: events =>
      if negb (bool_decide (cpu_of h k = Some (dt_endedon h))) then consume_end events h else consume_cpu cb 0 k h
  end.

Definition ended_here (h : handle) (k : nat) : bool :=
  dt_stopped h && bool_decide (cpu_of h k = Some (dt_endedon h)).

(** The loops over the buffers, the first done again if a speculation is being
    drained after it. *)
Definition consume_rest (events : list (option nat)) (h : handle) : option (Z * handle) :=
  '(rval, h) ← consume_cpus cb ended_here events h;
  if negb (rval =? 0) then Some (rval, h)
  else
    let draining := match h_st h with Some s => dt_spec_bufs_draining (s_cons s) | None => [] end in
    '(rval, h) ← match draining with [] => Some (0, h) | _ => consume_cpus cb ended_here events h end;
    if negb (rval =? 0) then Some (rval, h)
    else if negb (dt_stopped h) then Some (0, h)
    else consume_end events h.

(** [now] is the time, [wait] what epoll_wait() returned, [None] for an error. *)
Definition dtrace_consume (active : bool) (interval now : Z) (wait : option (list (option nat))) (h : handle) : option (Z * handle) :=
  if negb active then Some (-1, h)
  else
    let set_switch h t :=
      Handle (h_pebs h) (h_tmp h) (h_mem h) (h_st h) (dt_beganon h) (dt_endedon h) (dt_stopped h) t (dt_lastagg h) in
    if (interval >? 0) && negb (dt_lastswitch h =? 0) && (now - dt_lastswitch h <? interval) then Some (DTRACE_WORKSTATUS_OKAY, h)
    else
      let h := if interval >? 0
               then set_switch h (if dt_lastswitch h =? 0 then now else dt_lastswitch h + interval) else h in
      match wait with
      | None => Some (DTRACE_WORKSTATUS_ERROR, h)
      | Some events =>
      if negb (dt_beganon h =? -1) then
        '(rval, h) ← dt_consume_begin events h;
        if negb (rval =? 0) then Some (rval, h)
        else consume_rest events
               (Handle (h_pebs h) (h_tmp h) (h_mem h) (h_st h) (dt_beganon h) (dt_endedon h) (dt_stopped h) 0 0)
      else consume_rest events h
      end.
End All.

(** ** What the callbacks see *)

Section Order.
Context {M U : Type} `{BpfMap M Z spec} (specsize : Z) (dt_probes : list pdesc) (stids : Z -> option ddesc)
  (handle_err : (pdesc -> U -> Z * U) -> probedata -> U -> Z * U)
  (rec_action : probedata -> recdesc -> list recdesc -> U -> option nat * U)
  (rec_end : probedata -> U -> U) (cpudrops : Z -> U -> Z * U) (fuel : nat) (cb : callbacks U).

(** The callbacks never stop the consumer, no action fails, nothing was dropped. *)
Context (Hcb : forall pd u, fst (efunc cb pd u) = DTRACE_CONSUME_THIS \/ fst (efunc cb pd u) = DTRACE_CONSUME_NEXT)
  (Hact : forall pd r rs u, is_Some (fst (rec_action pd r rs u)))
  (Hdrops : forall cpu u, cpudrops cpu u = (0, u)).

Definition describe (data : list Z) : option (pdesc * ddesc) :=
  let prid := load 4 DBUF_PRID data in
  pd ← (if prid =? 0 then None else dt_probes !! Z.to_nat prid); epd ← stids (load 4 DBUF_STID data); Some (pd, epd).

(** The actions of the records of an event. *)
Fixpoint actions (pd : probedata) (skip : nat) (recs : list recdesc) (u : U) : U :=
  match recs with
  | [] => u
  | r :: recs =>
      match skip with
      | S skip => actions pd skip recs u
      | O => let '(n, u) := rec_action pd r recs u in actions pd (default O n) recs u
      end
  end.

(** What the callbacks see of an event of a known probe. *)
Definition visit (cpu : Z) (data : list Z) (u : U) : U :=
  match describe data with
  | None => u
  | Some (pdesc, epd) =>
      let pd := ProbeData cpu pdesc (load 4 DBUF_STID data) epd data in
      let '(rval, u) := efunc cb pd u in
      if rval =? DTRACE_CONSUME_NEXT then u else rec_end pd (actions pd O (dtdd_recs epd) u)
  end.

Definition data_of (ev : list Z) : list Z := drop perf_header ev.
Definition of_begin (ev : list Z) : bool := match describe (data_of ev) with Some (pd, _) => is_begin pd | None => false end.

(** An event of a clause without speculative actions. *)
Definition plain (ev : list Z) : Prop :=
  wf_event ev /\ hdr_type ev = PERF_RECORD_SAMPLE /\ Z.of_nat perf_header + (4 + load 4 perf_header ev) = hdr_size ev /\
  load 4 DBUF_SPECID (data_of ev) = 0 /\
  exists pd epd, describe (data_of ev) = Some (pd, epd) /\ dtdd_uarg epd = DT_ECB_DEFAULT /\
    Forall (λ r, is_commit_discard r = false) (dtdd_recs epd).

Abbreviation one_probe := (dt_consume_one_probe specsize dt_probes stids handle_err rec_action rec_end).

Lemma recs_loop_ok pd recs : forall skip (s : state M U), Forall (λ r, is_commit_discard r = false) recs ->
  recs_loop rec_action pd true 0 skip recs s = (Go, set_user s (actions pd skip recs (s_user s))).
Proof.
  induction recs as [|r recs IH]; intros skip s Hr; cbn [recs_loop actions]; [by destruct s|].
  apply Forall_cons_1 in Hr as [Hr Hrs]. destruct skip as [|skip]; [|by apply IH].
  rewrite Hr. cbn [negb]. destruct (rec_action pd r recs (s_user s)) as [n u] eqn:E.
  destruct (Hact pd r recs (s_user s)) as [k Hk]. rewrite E in Hk. cbn [fst] in Hk. subst n. by rewrite IH.
Qed.

Lemma recording_plain recs : Forall (λ r, is_commit_discard r = false) recs -> data_recording false recs = true.
Proof.
  intros Hr. unfold data_recording. simpl. replace (existsb is_commit_discard recs) with false; [done|]. symmetry.
  apply Is_true_false. rewrite Is_true_true, existsb_exists. intros (r & Hin & Hc).
  apply list_elem_of_In in Hin. rewrite list_elem_of_lookup in Hin. destruct Hin as [i Hi].
  rewrite (Forall_lookup_1 _ _ _ _ Hr Hi) in Hc. done.
Qed.

(** [sel] are the probes whose events [cbs] passes on to [cb]. *)
Definition selects (cbs : callbacks U) (sel : pdesc -> bool) : Prop :=
  forall pd u, efunc cbs pd u = if sel (dtpda_pdesc pd) then efunc cb pd u else (DTRACE_CONSUME_NEXT, u).

Definition selected (sel : pdesc -> bool) (ev : list Z) : bool :=
  match describe (data_of ev) with Some (pd, _) => sel pd | None => false end.

Lemma one_probe_ok cbs sel peek cpu ev (s : state M U) : selects cbs sel -> plain ev -> dt_spec_bufs_draining (s_cons s) = [] ->
  one_probe cbs peek cpu (data_of ev) (Some s) =
    (DTRACE_WORKSTATUS_OKAY, Some (if selected sel ev then set_user s (visit cpu (data_of ev) (s_user s)) else s)).
Proof.
  intros Hsel (_ & _ & _ & Hid & pd & epd & Hd & Hu & Hr) Hdr.
  unfold dt_consume_one_probe, one_probe_body, visit, selected. rewrite Hd, Hid. unfold describe in Hd.
  destruct (if load 4 DBUF_PRID (data_of ev) =? 0 then None else _) as [pd'|]; [|done]. simpl in Hd.
  destruct (stids (load 4 DBUF_STID (data_of ev))) as [epd'|]; [|done]. injection Hd as -> ->.
  rewrite Hu. cbn -[set_user load data_recording recs_loop actions drain_specs]. rewrite recording_plain by done. rewrite Hsel. cbn [dtpda_pdesc].
  destruct (sel pd); [|by destruct s].
  set (pd1 := ProbeData _ _ _ _ _). destruct (efunc cb pd1 (s_user s)) as [rv u] eqn:Ee.
  destruct (Hcb pd1 (s_user s)) as [E|E]; rewrite Ee in E; cbn [fst] in E; subst rv; [|done].
  cbn -[set_user load recs_loop actions drain_specs]. rewrite recs_loop_ok by done. cbn -[drain_specs actions]. rewrite Hdr. destruct s as [sp [bufs dl dr out] us mm]. cbn in Hdr. by subst dl.
Qed.

Lemma set_user_same (s : state M U) : set_user s (s_user s) = s.
Proof. by destruct s. Qed.

Definition see (sel : pdesc -> bool) (u : U) (x : Z * list Z) : U :=
  if selected sel (snd x) then visit (fst x) (data_of (snd x)) u else u.

Lemma dt_consume_one_plain {S} (f : Z -> list Z -> S -> Z * S) cpu ev s : plain ev ->
  dt_consume_one f cpu ev s = f cpu (data_of ev) s.
Proof.
  intros ((Hb & Hs & _) & Ht & Hsz & _). unfold dt_consume_one. rewrite Ht, Z.eqb_refl.
  pose proof (load_range 4 perf_header ev Hb). pose proof (load_range 2 6 ev Hb). unfold hdr_size in *.
  destruct (Z.ltb_spec (load 2 6 ev) (Z.of_nat perf_header)); [lia|]. rewrite Hsz, Z.eqb_refl. cbn [negb].
  f_equal. unfold data_of. apply take_ge. rewrite length_drop. unfold perf_header in *. rewrite wrapu_small by lia. lia.
Qed.

Lemma deliver_plain cbs sel peek cpu q : forall s : state M U, selects cbs sel -> Forall plain q ->
  dt_spec_bufs_draining (s_cons s) = [] ->
  deliver (one_probe cbs peek) cpu q (Some s) =
    (None, Some (set_user s (foldl (see sel) (s_user s) (pair cpu <$> q)))).
Proof.
  induction q as [|ev q IH]; intros s Hsel Hq Hd; [by rewrite set_user_same|].
  apply Forall_cons_1 in Hq as [Hev Hq]. cbn [deliver fmap list_fmap foldl].
  rewrite dt_consume_one_plain by done. rewrite (one_probe_ok cbs sel) by done. cbn [Z.eqb negb].
  unfold see at 2. cbn [fst snd]. destruct (selected sel ev); [|by apply IH].
  by rewrite IH.
Qed.

(** ** Buffers as queues of events *)

Record rep (p : peb) (q : list (list Z)) : Prop := {
  rep_ring : wf_ring (ring p);
  rep_plain : Forall plain q;
  rep_tail : in64 (data_tail p);
  rep_align : (8 | data_tail p);
  rep_holds : holds (ring p) (data_tail p) (concat q);
  rep_head : data_head p = u64 (data_tail p + Z.of_nat (length (concat q)))
}.

Lemma rep_empty p p' q : rep p q -> ring p' = ring p -> data_head p' = data_head p ->
  data_tail p' = u64 (data_tail p + Z.of_nat (length (concat q))) -> rep p' [].
Proof.
  intros [Hr Hp Ht Ha Hh Hd] Er Eh Et. split; rewrite ?Er; try done.
  - rewrite Et. auto with cint.
  - rewrite Et. unfold wrapu. rewrite Z.mod_eq by lia. apply Z.divide_sub_r; [|apply Z.divide_mul_l; by exists (2 ^ 61)].
    apply Z.divide_add_r; [done|]. clear -Hp. induction Hp as [|ev q Hev _ IH]; [by exists 0|].
    cbn [concat]. rewrite length_app, Nat2Z.inj_add. apply Z.divide_add_r; [|done]. apply Hev.
  - split; [simpl; lia|]. intros i Hi. simpl in Hi. lia.
  - simpl Z.of_nat. rewrite Z.add_0_r, Et, Eh, Hd. rewrite wrapu_idem; [done|lia].
Qed.

(** The buffers of [h] hold the queues [qs], and belong to the CPUs [cpus]. *)
Definition hrep (h : handle (M := M) (U := U)) (cpus : nat -> Z) (qs : nat -> list (list Z)) : Prop :=
  forall k p, h_pebs h !! k = Some p -> rep p (qs k) /\ peb_cpu p = cpus k.

Definition emptied (k : nat) (qs : nat -> list (list Z)) : nat -> list (list Z) := λ j, if decide (j = k) then [] else qs j.

(** [h'] is [h] with other buffers and the user's state [u]. *)
Definition moved (h h' : handle (M := M) (U := U)) (s : state M U) (u : U) : Prop :=
  h_st h' = Some (set_user s u) /\ length (h_pebs h') = length (h_pebs h) /\
  dt_beganon h' = dt_beganon h /\ dt_endedon h' = dt_endedon h /\ dt_stopped h' = dt_stopped h.

Abbreviation cpu_step := (consume_cpu specsize dt_probes stids handle_err rec_action rec_end cpudrops fuel).

Lemma consume_cpu_rep cbs sel peek k n h cpus qs (s : state M U) : selects cbs sel -> hrep h cpus qs ->
  h_st h = Some s -> dt_spec_bufs_draining (s_cons s) = [] -> (k < length (h_pebs h))%nat ->
  (length (qs k) <= fuel)%nat -> plenty (h_mem h) (length (qs k) + n) ->
  (peek = CONSUME_PEEK_FINISH -> exists p, h_pebs h !! k = Some p /\ last_head p = data_head p) ->
  peek = 0 \/ peek = CONSUME_PEEK_START \/ peek = CONSUME_PEEK_FINISH ->
  exists h', cpu_step cbs peek k h = Some (0, h') /\
    hrep h' cpus (if decide (peek = CONSUME_PEEK_START) then qs else emptied k qs) /\
    moved h h' s (foldl (see sel) (s_user s) (pair (cpus k) <$> qs k)) /\ plenty (h_mem h') n /\
    (peek = CONSUME_PEEK_START -> exists p, h_pebs h' !! k = Some p /\ last_head p = data_head p) /\
    (forall j p, j <> k -> h_pebs h !! j = Some p -> h_pebs h' !! j = Some p).
Proof.
  intros Hsel Hh Hs Hd Hk Hf Hm Hlast Hpeek. destruct (lookup_lt_is_Some_2 _ _ Hk) as [p Hp].
  destruct (Hh k p Hp) as [Hrep Hcpu]. pose proof Hrep as [Hr Hpl Ht Ha Hhd Hhead].
  assert (check_cpudrops cpudrops (peb_cpu p) (Some s) = (0, Some s)) as Hcd
    by (unfold check_cpudrops; by rewrite Hdrops, set_user_same).
  assert (u64 (data_tail p + Z.of_nat (length (concat (qs k)))) =
    if (peek =? CONSUME_PEEK) || (peek =? CONSUME_PEEK_FINISH) then last_head p else data_head p) as Hhe.
  { destruct Hpeek as [-> |[-> | ->]]; [done|done|]. simpl. destruct (Hlast eq_refl) as (p' & Hp' & E).
    rewrite Hp in Hp'. injection Hp' as <-. congruence. }
  assert (Forall wf_event (qs k)) as Hw by (eapply Forall_impl; [exact Hpl|]; by intros ev [Hev _]).
  destruct (consume_cpu_ok (one_probe cbs peek) (check_cpudrops cpudrops) p (qs k) fuel n peek (h_tmp h) (h_mem h)
    (Some s) (Some s) Hr Hw Ht Ha Hhd Hhe Hf Hm Hcd) as (p' & tmp' & m' & E & Ec & Er & Eh & Hn & Hl & Et1 & Et2).
  rewrite (deliver_plain cbs sel) in E, Et1, Et2 by done. cbn [fst snd default] in E, Et1, Et2.
  unfold consume_cpu. rewrite Hp, Hs. cbn [mbind option_bind]. rewrite E. cbn [mbind option_bind]. rewrite Hcpu.
  eexists. split; [reflexivity|]. split; [|split; [|split; [exact Hn|split]]]; cbn [h_pebs h_mem].
  - intros j p1 Hj. cbn [h_pebs] in Hj. destruct (decide (j = k)) as [-> |Hne].
    + rewrite list_lookup_insert_eq in Hj by done. injection Hj as <-. split; [|congruence].
      destruct Hpeek as [-> |[-> | ->]]; simpl.
      * unfold emptied. rewrite decide_True by done. apply (rep_empty p p' (qs k)); try done. apply Et1; [done|by left].
      * rewrite Et2 in * by (by right). destruct Hrep. split; rewrite ?Er, ?Eh, ?Et2; done || by right.
      * unfold emptied. rewrite decide_True by done. apply (rep_empty p p' (qs k)); try done. apply Et1; [done|by right].
    + rewrite list_lookup_insert_ne in Hj by done. destruct (decide (peek = CONSUME_PEEK_START)); [by apply Hh|].
      unfold emptied. rewrite decide_False by done. by apply Hh.
  - split; [done|]. split; [cbn [h_pebs]; by rewrite length_insert|]. done.
  - intros ->. exists p'. rewrite list_lookup_insert_eq by done. split; [done|]. rewrite Hl, Eh; done.
  - intros j p1 Hne. by rewrite list_lookup_insert_ne.
Qed.

Lemma hrep_ext h cpus qs qs' : (forall k, (k < length (h_pebs h))%nat -> qs' k = qs k) -> hrep h cpus qs -> hrep h cpus qs'.
Proof. intros E Hh k p Hp. rewrite E by (by eapply lookup_lt_Some). by apply Hh. Qed.

Lemma hrep_cpu h cpus qs k c : hrep h cpus qs -> (k < length (h_pebs h))%nat ->
  bool_decide (cpu_of h k = Some c) = bool_decide (cpus k = c).
Proof.
  intros Hh Hk. destruct (lookup_lt_is_Some_2 _ _ Hk) as [p Hp]. destruct (Hh k p Hp) as [_ Hc].
  unfold cpu_of. rewrite Hp. cbn [fmap option_fmap option_map]. rewrite Hc.
  apply bool_decide_ext. split; [by intros [= ->]|by intros ->].
Qed.

(** The events of the buffers [ks], one buffer after the other. *)
Definition events_of (cpus : nat -> Z) (qs : nat -> list (list Z)) (ks : list nat) : list (Z * list Z) :=
  ks ≫= λ k, pair (cpus k) <$> qs k.

Definition emptied_all (ks : list nat) (qs : nat -> list (list Z)) : nat -> list (list Z) := λ j, if decide (j ∈ ks) then [] else qs j.

Lemma events_of_ext cpus qs qs' ks : (forall k, k ∈ ks -> qs' k = qs k) -> events_of cpus qs' ks = events_of cpus qs ks.
Proof.
  intros E. unfold events_of. induction ks as [|k ks IH]; [done|]. cbn. rewrite E by (by left). f_equal.
  apply IH. intros j Hj. apply E. by right.
Qed.

Lemma selects_cb : selects cb (λ _, true).
Proof. done. Qed.

Definition pending (events : list (option nat)) : list nat := omap id events.
Definition kept (sk : nat -> bool) (ks : list nat) : list nat := filter (λ k, sk k = false) ks.

Lemma consume_cpus_rep cpus sk skip events : forall n h qs (s : state M U),
  hrep h cpus qs -> h_st h = Some s -> dt_spec_bufs_draining (s_cons s) = [] ->
  NoDup (pending events) -> Forall (λ k, (k < length (h_pebs h))%nat /\ (length (qs k) <= fuel)%nat) (pending events) ->
  (forall h' qs' k, hrep h' cpus qs' -> length (h_pebs h') = length (h_pebs h) -> dt_endedon h' = dt_endedon h ->
     dt_stopped h' = dt_stopped h -> (k < length (h_pebs h))%nat -> skip h' k = sk k) ->
  plenty (h_mem h) (length (events_of cpus qs (kept sk (pending events))) + n) ->
  exists h', consume_cpus specsize dt_probes stids handle_err rec_action rec_end cpudrops fuel cb skip events h = Some (0, h') /\
    hrep h' cpus (emptied_all (kept sk (pending events)) qs) /\
    moved h h' s (foldl (see (λ _, true)) (s_user s) (events_of cpus qs (kept sk (pending events)))) /\ plenty (h_mem h') n /\
    (forall j p, j ∉ kept sk (pending events) -> h_pebs h !! j = Some p -> h_pebs h' !! j = Some p).
Proof.
  induction events as [|[k|] events IH]; intros n h qs s Hh Hs Hd Hnd Hok Hsk Hm; cbn [consume_cpus].
  - exists h. split; [done|]. split; [|split; [|done]].
    + eapply hrep_ext; [|exact Hh]. intros k _. unfold emptied_all. rewrite decide_False; [done|]. apply not_elem_of_nil.
    + split; [|done]. by rewrite Hs, set_user_same.
  - change (pending (Some k :: events)) with (k :: pending events) in *.
    apply NoDup_cons in Hnd as [Hnk Hnd]. apply Forall_cons_1 in Hok as [[Hk Hf] Hok].
    rewrite (Hsk h qs k) by done. unfold kept in *. rewrite filter_cons in *. destruct (sk k) eqn:Ek.
    + rewrite decide_False in * by done. by apply IH.
    + rewrite decide_True in * by done. cbn [events_of] in *. unfold events_of in Hm |- *. cbn [mbind list_bind] in Hm |- *.
      fold (events_of cpus qs (filter (λ k, sk k = false) (pending events))) in Hm |- *.
      rewrite length_app, length_fmap, <- Nat.add_assoc in Hm.
      destruct (consume_cpu_rep cb (λ _, true) 0 k _ h cpus qs s selects_cb Hh Hs Hd Hk Hf Hm) as (h1 & -> & Hh1 & Hmv & Hm1 & _ & Hsame);
        [done|by left|]. cbn [mbind option_bind negb Z.eqb]. rewrite decide_False in Hh1 by done.
      destruct Hmv as (Hs1 & Hl1 & Hb1 & He1 & Hst1).
      assert (forall j, j ∈ pending events -> emptied k qs j = qs j) as Hqs.
      { intros j Hj. unfold emptied. rewrite decide_False; [done|]. intros ->. done. }
      assert (events_of cpus (emptied k qs) (filter (λ k, sk k = false) (pending events)) =
              events_of cpus qs (filter (λ k, sk k = false) (pending events))) as Hev.
      { apply events_of_ext. intros j [_ Hj]%list_elem_of_filter. by apply Hqs. }
      destruct (IH n h1 (emptied k qs) (set_user s (foldl (see (λ _, true)) (s_user s) (pair (cpus k) <$> qs k))))
        as (h2 & E2 & Hh2 & (Hs2 & Hl2 & Hb2 & He2 & Hst2) & Hm2 & Hsame2); try done.
      * rewrite Hl1. apply Forall_lookup. intros i j Hj. pose proof (Forall_lookup_1 _ _ _ _ Hok Hj) as [Hjl Hjf].
        split; [done|]. rewrite Hqs; [done|]. by eapply list_elem_of_lookup_2.
      * intros h' qs' j Hh' Hl' He' Hst' Hj. apply (Hsk h' qs'); congruence || done.
      * by rewrite Hev.
      * exists h2. rewrite E2. split; [done|]. split; [|split; [|split; [done|]]].
        -- eapply hrep_ext; [|exact Hh2]. intros j _. unfold emptied_all, emptied.
           destruct (decide (j = k)) as [-> |Hne]; [rewrite decide_True by (by left); by destruct (decide _)|].
           destruct (decide (j ∈ filter _ (pending events))); [by rewrite decide_True by (by right)|].
           rewrite decide_False; [done|]. by intros [|]%elem_of_cons.
        -- rewrite Hev in Hs2. cbn [s_user set_user] in Hs2. split; [|split; [congruence|]; split; [congruence|]; split; congruence].
           rewrite Hs2, foldl_app. done.
        -- intros j p [Hne Hnj]%not_elem_of_cons Hj. apply Hsame2; [done|]. by apply Hsame.
  - change (pending (None :: events)) with (pending events) in *. by apply IH.
Qed.

(** *** The loops of dtrace_consume *)

(** What can be assumed of the list of events: a buffer is listed once, no two
    belong to the same CPU, and [fuel] rounds are enough. *)
Definition listed (h : handle (M := M) (U := U)) (cpus : nat -> Z) (qs : nat -> list (list Z)) (ks : list nat) : Prop :=
  NoDup (cpus <$> ks) /\ Forall (λ k, (k < length (h_pebs h))%nat /\ (length (qs k) <= fuel)%nat) ks.

Lemma listed_nodup h cpus qs ks : listed h cpus qs ks -> NoDup ks.
Proof. intros [Hnd _]. by eapply NoDup_fmap_1. Qed.

(** At most one of the buffers belongs to a CPU. *)
Lemma listed_one h cpus qs k ks c : listed h cpus qs (k :: ks) -> cpus k = c -> filter (λ j, cpus j = c) ks = [].
Proof.
  intros [Hnd _] <-. cbn in Hnd. apply NoDup_cons in Hnd as [Hn _]. apply filter_none.
  intros j Hj E. apply Hn. rewrite <- E. by apply list_elem_of_fmap_2.
Qed.

Lemma consume_end_rep cpus events : forall n h qs (s : state M U),
  hrep h cpus qs -> h_st h = Some s -> dt_spec_bufs_draining (s_cons s) = [] -> listed h cpus qs (pending events) ->
  let ks := filter (λ k, cpus k = dt_endedon h) (pending events) in
  plenty (h_mem h) (length (events_of cpus qs ks) + n) ->
  exists h', consume_end specsize dt_probes stids handle_err rec_action rec_end cpudrops fuel cb events h = Some (0, h') /\
    hrep h' cpus (emptied_all ks qs) /\
    moved h h' s (foldl (see (λ _, true)) (s_user s) (events_of cpus qs ks)) /\ plenty (h_mem h') n.
Proof.
  induction events as [|[k|] events IH]; intros n h qs s Hh Hs Hd Hl ks Hm; cbn [consume_end]; subst ks.
  - exists h. split; [done|]. split; [|split; [|done]].
    + eapply hrep_ext; [|exact Hh]. intros k _. unfold emptied_all. rewrite decide_False; [done|]. apply not_elem_of_nil.
    + split; [|done]. by rewrite Hs, set_user_same.
  - change (pending (Some k :: events)) with (k :: pending events) in *.
    pose proof Hl as [Hnd Hok]. apply Forall_cons_1 in Hok as [[Hk Hf] Hok]. cbn in Hnd. apply NoDup_cons in Hnd as [_ Hnd].
    rewrite (hrep_cpu h cpus qs) by done. rewrite filter_cons in *. destruct (decide (cpus k = dt_endedon h)) as [Ek|Ek].
    + rewrite bool_decide_eq_true_2 by done. cbn [negb]. rewrite (listed_one h cpus qs k (pending events)) in * by done.
      unfold events_of in Hm |- *. cbn [mbind list_bind] in Hm |- *. rewrite app_nil_r in *. rewrite length_fmap in Hm.
      destruct (consume_cpu_rep cb (λ _, true) 0 k n h cpus qs s selects_cb Hh Hs Hd Hk Hf Hm) as (h1 & E1 & Hh1 & Hmv & Hm1 & _ & _);
        [done|by left|]. rewrite decide_False in Hh1 by done. exists h1. split; [done|]. split; [|done].
      eapply hrep_ext; [|exact Hh1]. intros j _. unfold emptied, emptied_all.
      destruct (decide (j = k)) as [-> |Hne]; [by rewrite decide_True by (by left)|].
      rewrite decide_False; [done|]. by intros ->%list_elem_of_singleton.
    + rewrite bool_decide_eq_false_2 by done. cbn [negb]. by apply IH.
  - change (pending (None :: events)) with (pending events) in *. by apply IH.
Qed.

(** The buffers of the CPUs other than that of END, then that of END. *)
Definition end_last (endedon : Z) (stopped : bool) (cpus : nat -> Z) (ks : list nat) : list nat :=
  if stopped then filter (λ k, cpus k <> endedon) ks ++ filter (λ k, cpus k = endedon) ks else ks.

Lemma events_of_app cpus qs ks ks' : events_of cpus qs (ks ++ ks') = events_of cpus qs ks ++ events_of cpus qs ks'.
Proof. apply bind_app. Qed.

Lemma emptied_all_app ks ks' qs j : emptied_all (ks ++ ks') qs j = emptied_all ks' (emptied_all ks qs) j.
Proof.
  unfold emptied_all. destruct (decide (j ∈ ks')) as [H1|H1]; [rewrite decide_True; [done|]; apply elem_of_app; by right|].
  destruct (decide (j ∈ ks)) as [H2|H2]; [rewrite decide_True; [done|]; apply elem_of_app; by left|].
  rewrite decide_False; [done|]. by intros [|]%elem_of_app.
Qed.

Lemma consume_rest_rep cpus events n h qs (s : state M U) :
  hrep h cpus qs -> h_st h = Some s -> dt_spec_bufs_draining (s_cons s) = [] -> listed h cpus qs (pending events) ->
  let ks := end_last (dt_endedon h) (dt_stopped h) cpus (pending events) in
  plenty (h_mem h) (length (events_of cpus qs ks) + n) ->
  exists h', consume_rest specsize dt_probes stids handle_err rec_action rec_end cpudrops fuel cb events h = Some (0, h') /\
    hrep h' cpus (emptied_all ks qs) /\
    moved h h' s (foldl (see (λ _, true)) (s_user s) (events_of cpus qs ks)) /\ plenty (h_mem h') n.
Proof.
  intros Hh Hs Hd Hl ks Hm. unfold consume_rest. subst ks.
  set (sk := λ k, dt_stopped h && bool_decide (cpus k = dt_endedon h)).
  assert (exists n', plenty (h_mem h) (length (events_of cpus qs (kept sk (pending events))) + n') /\
    end_last (dt_endedon h) (dt_stopped h) cpus (pending events) =
      kept sk (pending events) ++ (if dt_stopped h then filter (λ k, cpus k = dt_endedon h) (pending events) else []) /\
    n' = (length (events_of cpus qs (if dt_stopped h then filter (λ k, cpus k = dt_endedon h) (pending events) else [])) + n)%nat)
    as (n' & Hm' & -> & Hn').
  { unfold end_last in *. unfold kept, sk. destruct (dt_stopped h); cbn [andb].
    - assert (filter (λ k, bool_decide (cpus k = dt_endedon h) = false) (pending events) =
              filter (λ k, cpus k ≠ dt_endedon h) (pending events)) as ->
        by (apply list_filter_iff; intros k; apply bool_decide_eq_false).
      rewrite events_of_app, length_app, <- Nat.add_assoc in Hm. by eexists.
    - assert (filter (λ _, false = false) (pending events) = pending events) as ->
        by (by apply filter_all).
      exists n. rewrite app_nil_r. split; [done|]. split; [done|]. done. }
  destruct (consume_cpus_rep cpus sk ended_here events n' h qs s) as (h1 & -> & Hh1 & (Hs1 & Hl1 & Hb1 & He1 & Hst1) & Hm1 & _); try done.
  { by eapply listed_nodup. } { apply Hl. }
  { intros h' qs' k Hh' Hlen' He' Hst' Hk. unfold ended_here, sk. rewrite Hst', He', (hrep_cpu h' cpus qs') by (done || congruence). done. }
  cbn [mbind option_bind negb Z.eqb]. rewrite Hs1. cbn [s_cons set_user]. rewrite Hd. cbn [mbind option_bind negb Z.eqb]. rewrite Hst1.
  subst n'. destruct (dt_stopped h) eqn:Est; cbn [negb].
  - assert (forall k, cpus k = dt_endedon h -> emptied_all (kept sk (pending events)) qs k = qs k) as Hq.
    { intros k Hk. unfold emptied_all. rewrite decide_False; [done|]. unfold kept, sk. intros [Hc _]%list_elem_of_filter.
      rewrite bool_decide_eq_true_2 in Hc by done. done. }
    assert (events_of cpus (emptied_all (kept sk (pending events)) qs) (filter (λ k, cpus k = dt_endedon h) (pending events)) =
            events_of cpus qs (filter (λ k, cpus k = dt_endedon h) (pending events))) as Hev.
    { apply events_of_ext. intros k [Hk _]%list_elem_of_filter. by apply Hq. }
    destruct (consume_end_rep cpus events n h1 (emptied_all (kept sk (pending events)) qs) _ Hh1 Hs1 Hd)
      as (h2 & -> & Hh2 & (Hs2 & Hl2 & Hb2 & He2 & Hst2) & Hm2).
    { destruct Hl as [Hnd Hok]. split; [done|]. rewrite Hl1. eapply Forall_impl; [exact Hok|]. intros k [? Hkf]. split; [done|].
      unfold emptied_all. destruct (decide _); simpl; lia || done. }
    { rewrite He1, Hev. done. }
    rewrite He1, Hev in *. exists h2. split; [done|]. split; [|split; [|done]].
    + eapply hrep_ext; [|exact Hh2]. intros k _. by rewrite emptied_all_app.
    + rewrite events_of_app, foldl_app. split; [done|]. repeat split; congruence.
  - rewrite app_nil_r. exists h1. split; [done|]. split; [done|]. split; [|done]. repeat split; congruence || done.
Qed.

(** *** BEGIN first *)

Lemma find_begin_ok c h cpus qs events : forall bp, hrep h cpus qs -> listed h cpus qs (pending events) ->
  (forall k, bp = Some k -> (k < length (h_pebs h))%nat /\ cpus k <> c) ->
  match filter (λ k, cpus k = c) (pending events) with
  | [] => forall k, find_begin c h bp events = Some k -> (k < length (h_pebs h))%nat /\ cpus k <> c
  | b :: _ => find_begin c h bp events = Some b
  end.
Proof.
  induction events as [|[k|] events IH]; intros bp Hh Hl Hbp; [exact Hbp| |].
  - change (pending (Some k :: events)) with (k :: pending events) in *. cbn [find_begin].
    destruct Hl as [Hnd Hok]. apply Forall_cons_1 in Hok as [[Hk Hf] Hok]. cbn in Hnd. apply NoDup_cons in Hnd as [_ Hnd].
    pose proof (hrep_cpu h cpus qs k c Hh Hk) as Hb. rewrite filter_cons.
    destruct (decide (cpus k = c)) as [Ec|Ec].
    + rewrite decide_True; [done|]. apply (bool_decide_eq_true (cpu_of h k = Some c)). rewrite Hb. by apply bool_decide_eq_true.
    + rewrite decide_False; [|apply (bool_decide_eq_false (cpu_of h k = Some c)); rewrite Hb; by apply bool_decide_eq_false].
      apply IH; [done|done|]. by intros j [= <-].
  - apply IH; done.
Qed.

Lemma selects_begin b : selects (begin_callbacks cb b) (λ pd, bool_decide (is_begin pd = b)).
Proof.
  intros pd u. cbn [efunc begin_callbacks]. unfold dt_consume_begin_probe. destruct b, (is_begin (dtpda_pdesc pd)); done.
Qed.

Definition seen (u : U) (l : list (Z * list Z)) : U := foldl (λ u x, visit (fst x) (data_of (snd x)) u) u l.

Lemma see_all u l : foldl (see (λ _, true)) u l = seen u l.
Proof.
  revert u. induction l as [|x l IH]; intros u; [done|]. cbn [foldl]. rewrite IH.
  assert (see (λ _, true) u x = visit (fst x) (data_of (snd x)) u) as ->; [|done]. unfold see, selected, visit.
  by destruct (describe (data_of (snd x))) as [[pd epd]|].
Qed.

Lemma see_begin b u l : foldl (see (λ pd, bool_decide (is_begin pd = b))) u l = seen u (filter (λ x, of_begin (snd x) = b) l).
Proof.
  revert u. induction l as [|x l IH]; intros u; [done|]. cbn [foldl]. rewrite IH, filter_cons. unfold see, selected, of_begin.
  destruct (describe (data_of (snd x))) as [[pd epd]|] eqn:E.
  - destruct (decide (is_begin pd = b)); [by rewrite bool_decide_eq_true_2|by rewrite bool_decide_eq_false_2].
  - destruct (decide (false = b)); [|done]. unfold seen. cbn [foldl].
    assert (visit (fst x) (data_of (snd x)) u = u) as ->; [|done]. unfold visit. by rewrite E.
Qed.

Lemma seen_app u l l' : seen u (l ++ l') = seen (seen u l) l'.
Proof. apply foldl_app. Qed.

(** The buffers of the CPU on which BEGIN ran, at most one, and the others. *)
Definition on_cpu (c : Z) (cpus : nat -> Z) (ks : list nat) : list nat := filter (λ k, cpus k = c) ks.
Definition off_cpu (c : Z) (cpus : nat -> Z) (ks : list nat) : list nat := filter (λ k, cpus k <> c) ks.

(** The events that dt_consume_begin processes, in their order, and the buffers
    it empties. *)
Definition begin_events (c endedon : Z) (stopped : bool) cpus qs ks : list (Z * list Z) :=
  if stopped && (c =? endedon) then
    match on_cpu c cpus ks with
    | [] => []
    | b :: _ =>
        filter (λ x, of_begin (snd x) = true) (events_of cpus qs [b]) ++ events_of cpus qs (off_cpu c cpus ks) ++
        filter (λ x, of_begin (snd x) = false) (events_of cpus qs [b])
    end
  else events_of cpus qs (on_cpu c cpus ks).

Definition begin_buffers (c endedon : Z) (stopped : bool) cpus ks : list nat :=
  if stopped && (c =? endedon) then match on_cpu c cpus ks with [] => [] | b :: _ => b :: off_cpu c cpus ks end
  else on_cpu c cpus ks.

Lemma off_cpu_kept c cpus b ks : NoDup (cpus <$> ks) -> b ∈ ks -> cpus b = c ->
  kept (λ k, bool_decide (k = b)) ks = off_cpu c cpus ks.
Proof.
  intros Hnd Hb <-. unfold kept, off_cpu. apply filter_ext. intros k Hk. rewrite bool_decide_eq_false.
  split; [|by intros Hc ->]. intros Hne E. apply Hne.
  apply list_elem_of_lookup in Hk as [i Hi]. apply list_elem_of_lookup in Hb as [j Hj].
  assert (i = j) as ->; [|congruence]. eapply (NoDup_lookup (cpus <$> ks)); [done|..]; rewrite list_lookup_fmap, ?Hi, ?Hj; [done|].
  simpl. by rewrite E.
Qed.

Lemma on_cpu_one c cpus ks b bs : NoDup (cpus <$> ks) -> on_cpu c cpus ks = b :: bs -> bs = [].
Proof.
  induction ks as [|k ks IH]; intros Hnd E; [done|]. cbn in Hnd. apply NoDup_cons in Hnd as [Hn Hnd].
  unfold on_cpu in *. rewrite filter_cons in E. destruct (decide (cpus k = c)) as [Ec|]; [|by apply IH].
  injection E as _ <-. apply filter_none. intros j Hj Ej. apply Hn. rewrite Ec, <- Ej. by apply list_elem_of_fmap_2.
Qed.

Lemma events_of_one cpus qs b : events_of cpus qs [b] = pair (cpus b) <$> qs b.
Proof. unfold events_of. cbn [mbind list_bind]. apply app_nil_r. Qed.

(** BEGIN and END ran on the same CPU, whose buffer is [b]: three passes. *)
Lemma begin_passes cpus events b n h qs (s : state M U) :
  hrep h cpus qs -> h_st h = Some s -> dt_spec_bufs_draining (s_cons s) = [] -> listed h cpus qs (pending events) ->
  b ∈ pending events -> let off := off_cpu (cpus b) cpus (pending events) in
  plenty (h_mem h) (length (qs b) + (length (events_of cpus qs off) + (length (qs b) + n))) ->
  exists h1 h2 h3,
    cpu_step (begin_callbacks cb true) CONSUME_PEEK_START b h = Some (0, h1) /\
    consume_cpus specsize dt_probes stids handle_err rec_action rec_end cpudrops fuel cb
      (λ _ k, bool_decide (k = b)) events h1 = Some (0, h2) /\
    cpu_step (begin_callbacks cb false) CONSUME_PEEK_FINISH b h2 = Some (0, h3) /\
    hrep h3 cpus (emptied_all (b :: off) qs) /\
    moved h h3 s (seen (s_user s)
      (filter (λ x, of_begin (snd x) = true) (events_of cpus qs [b]) ++ events_of cpus qs off ++
       filter (λ x, of_begin (snd x) = false) (events_of cpus qs [b]))) /\ plenty (h_mem h3) n.
Proof.
  intros Hh Hs Hd Hl Hb off Hm. pose proof Hl as [Hnd Hok].
  assert ((b < length (h_pebs h))%nat /\ (length (qs b) <= fuel)%nat) as [Hbl Hbf].
  { apply list_elem_of_lookup in Hb as [i Hi]. exact (Forall_lookup_1 _ _ _ _ Hok Hi). }
  destruct (consume_cpu_rep _ _ CONSUME_PEEK_START b _ h cpus qs s (selects_begin true) Hh Hs Hd Hbl Hbf Hm)
    as (h1 & E1 & Hh1 & (Hs1 & Hl1 & Hb1 & He1 & Hst1) & Hm1 & Hlast & _); [done|by right; left|].
  rewrite decide_True in Hh1 by done. destruct (Hlast eq_refl) as (p & Hp & Hlh).
  pose proof (off_cpu_kept (cpus b) cpus b (pending events) Hnd Hb eq_refl) as Hkept. fold off in Hkept.
  destruct (consume_cpus_rep cpus (λ k, bool_decide (k = b)) (λ _ k, bool_decide (k = b)) events (length (qs b) + n) h1 qs _ Hh1 Hs1)
    as (h2 & E2 & Hh2 & (Hs2 & Hl2 & Hb2 & He2 & Hst2) & Hm2 & Hsame); try done.
  { by eapply listed_nodup. } { by rewrite Hl1. } { by rewrite Hkept. }
  rewrite Hkept in *.
  assert (b ∉ off) as Hnb by (unfold off, off_cpu; intros [Hc _]%list_elem_of_filter; done).
  assert (emptied_all off qs b = qs b) as Hqb by (unfold emptied_all; by rewrite decide_False).
  destruct (consume_cpu_rep _ _ CONSUME_PEEK_FINISH b n h2 cpus (emptied_all off qs) _ (selects_begin false) Hh2 Hs2)
    as (h3 & E3 & Hh3 & (Hs3 & Hl3 & Hb3 & He3 & Hst3) & Hm3 & _); try done.
  { by rewrite Hl2, Hl1. } { by rewrite Hqb. } { by rewrite Hqb. } { intros _. exists p. split; [by apply Hsame|done]. } { by right; right. }
  rewrite decide_False in Hh3 by done. rewrite Hqb in Hs3.
  exists h1, h2, h3. split; [done|]. split; [done|]. split; [done|]. split; [|split; [|done]].
  - eapply hrep_ext; [|exact Hh3]. intros j _. unfold emptied. unfold emptied_all at 1. destruct (decide (j = b)) as [-> |Hne].
    + by rewrite decide_True by (by left).
    + unfold emptied_all. destruct (decide (j ∈ off)); [by rewrite decide_True by (by right)|].
      rewrite decide_False; [done|]. by intros [|]%elem_of_cons.
  - split; [|split; [congruence|]; split; [congruence|]; split; congruence].
    rewrite Hs3. cbn [s_user set_user]. rewrite see_all, !see_begin, !seen_app, events_of_one. done.
Qed.

Lemma dt_consume_begin_rep cpus events n h qs (s : state M U) :
  hrep h cpus qs -> h_st h = Some s -> dt_spec_bufs_draining (s_cons s) = [] -> listed h cpus qs (pending events) ->
  let ks := begin_buffers (dt_beganon h) (dt_endedon h) (dt_stopped h) cpus (pending events) in
  plenty (h_mem h) (2 * length (events_of cpus qs ks) + n) ->
  exists h', dt_consume_begin specsize dt_probes stids handle_err rec_action rec_end cpudrops fuel cb events h = Some (0, h') /\
    hrep h' cpus (emptied_all ks qs) /\
    h_st h' = Some (set_user s (seen (s_user s)
      (begin_events (dt_beganon h) (dt_endedon h) (dt_stopped h) cpus qs (pending events)))) /\
    length (h_pebs h') = length (h_pebs h) /\ dt_endedon h' = dt_endedon h /\ dt_stopped h' = dt_stopped h /\ plenty (h_mem h') n.
Proof.
  intros Hh Hs Hd Hl ks Hm. subst ks. unfold dt_consume_begin. set (h0 := Handle _ _ _ _ (-1) _ _ _ _).
  assert (hrep h0 cpus qs) as Hh0 by exact Hh. assert (listed h0 cpus qs (pending events)) as Hl0 by exact Hl.
  pose proof (find_begin_ok (dt_beganon h) h0 cpus qs events None Hh0 Hl0 ltac:(done)) as Hfind.
  unfold begin_events, begin_buffers in *. fold (on_cpu (dt_beganon h) cpus (pending events)) in Hfind.
  destruct (on_cpu (dt_beganon h) cpus (pending events)) as [|b bs] eqn:Eon.
  - exists h0.
    assert ((if dt_stopped h && (dt_beganon h =? dt_endedon h) then [] else []) = @nil nat) as -> by (by destruct (_ && _)).
    assert ((if dt_stopped h && (dt_beganon h =? dt_endedon h) then [] else events_of cpus qs []) = []) as -> by (by destruct (_ && _)).
    split; [|split; [|split; [|do 3 (split; [done|]); eapply plenty_le; [exact Hm|lia]]]].
    + destruct (find_begin (dt_beganon h) h0 None events) as [k|]; [|done]. destruct (Hfind k eq_refl) as [Hk Hc].
      rewrite (hrep_cpu h0 cpus qs), bool_decide_eq_false_2 by done. done.
    + eapply hrep_ext; [|exact Hh]. intros k _. unfold emptied_all. rewrite decide_False; [done|]. apply not_elem_of_nil.
    + cbn [h_st h0]. by rewrite Hs, set_user_same.
  - rewrite Hfind. assert (b ∈ on_cpu (dt_beganon h) cpus (pending events)) as Hb by (rewrite Eon; by left).
    apply list_elem_of_filter in Hb as [Hcpub Hb].
    assert ((b < length (h_pebs h))%nat /\ (length (qs b) <= fuel)%nat) as [Hbl Hbf].
    { destruct Hl as [_ Hok]. apply list_elem_of_lookup in Hb as [i Hi]. exact (Forall_lookup_1 _ _ _ _ Hok Hi). }
    rewrite (hrep_cpu h0 cpus qs), bool_decide_eq_true_2 by done. cbn [negb h_pebs dt_stopped dt_endedon h0].
    rewrite <- negb_andb. destruct (dt_stopped h && (dt_beganon h =? dt_endedon h)) eqn:Esp; cbn [negb].
    + rewrite <- Hcpub in *. destruct (begin_passes cpus events b n h0 qs s Hh0 Hs Hd Hl0 Hb)
        as (h1 & h2 & h3 & E1 & E2 & E3 & Hh3 & (Hs3 & Hl3 & _ & He3 & Hst3) & Hm3).
      { eapply plenty_le; [exact Hm|]. change (b :: ?l) with ([b] ++ l). rewrite events_of_app, length_app, events_of_one, length_fmap. lia. }
      rewrite E1. cbn [mbind option_bind negb Z.eqb]. rewrite E2. cbn [mbind option_bind negb Z.eqb]. rewrite E3.
      exists h3. done.
    + assert (bs = []) as -> by (destruct Hl as [Hnd _]; by eapply on_cpu_one).
      rewrite events_of_one in *. rewrite length_fmap in Hm.
      destruct (consume_cpu_rep cb (λ _, true) 0 b n h0 cpus qs s selects_cb Hh0 Hs Hd Hbl Hbf) as (h1 & E1 & Hh1 & (Hs1 & Hl1 & _ & He1 & Hst1) & Hm1 & _).
      { eapply plenty_le; [exact Hm|]. lia. } { done. } { by left. }
      rewrite decide_False in Hh1 by done. exists h1. split; [done|]. split; [|by rewrite <- see_all].
      eapply hrep_ext; [|exact Hh1]. intros j _. unfold emptied, emptied_all. destruct (decide (j = b)) as [-> |Hne].
      * by rewrite decide_True by (by left).
      * rewrite decide_False; [done|]. by intros ->%list_elem_of_singleton.
Qed.

(** *** The order *)

(** The events in the order in which the callbacks see them: those of BEGIN
    first, those of the CPU on which END ran last, the buffers in the order of
    the list otherwise. *)
Definition order (beganon endedon : Z) (stopped : bool) cpus qs ks : list (Z * list Z) :=
  let bs := events_of cpus qs (on_cpu beganon cpus ks) in
  let others := off_cpu beganon cpus ks in
  if stopped && (beganon =? endedon) then
    filter (λ x, of_begin (snd x) = true) bs ++ events_of cpus qs others ++ filter (λ x, of_begin (snd x) = false) bs
  else bs ++ events_of cpus qs (end_last endedon stopped cpus others).

Lemma on_off_perm c cpus ks : on_cpu c cpus ks ++ off_cpu c cpus ks ≡ₚ ks.
Proof.
  unfold on_cpu, off_cpu. induction ks as [|k ks IH]; [done|]. rewrite !filter_cons.
  destruct (decide (cpus k = c)), (decide (cpus k <> c)); try done; cbn [app]; [by rewrite IH|].
  by rewrite <- Permutation_middle, IH.
Qed.

Lemma end_last_perm e stopped cpus ks : end_last e stopped cpus ks ≡ₚ ks.
Proof.
  unfold end_last. destruct stopped; [|done]. rewrite (Permutation_app_comm (filter _ _)). apply (on_off_perm e).
Qed.

Lemma events_of_perm cpus qs ks ks' : ks ≡ₚ ks' -> events_of cpus qs ks ≡ₚ events_of cpus qs ks'.
Proof. intros Hp. unfold events_of. by rewrite Hp. Qed.

(** No event is lost or seen twice. *)
Lemma order_perm c e stopped cpus qs ks : order c e stopped cpus qs ks ≡ₚ events_of cpus qs ks.
Proof.
  unfold order. rewrite <- (events_of_perm cpus qs _ _ (on_off_perm c cpus ks)), events_of_app.
  destruct (stopped && (c =? e)).
  - set (bs := events_of cpus qs (on_cpu c cpus ks)). rewrite (Permutation_app_comm (events_of cpus qs _)), app_assoc.
    f_equiv. clear. induction bs as [|x bs IH]; [done|]. rewrite !filter_cons.
    destruct (of_begin (snd x)); cbn [decide]; (destruct (decide _), (decide _); try done); cbn [app]; [by rewrite IH|].
    by rewrite <- Permutation_middle, IH.
  - f_equiv. apply events_of_perm, end_last_perm.
Qed.

Lemma events_of_emptied cpus X qs ks : events_of cpus (emptied_all X qs) ks = events_of cpus qs (filter (λ k, k ∉ X) ks).
Proof.
  unfold events_of. induction ks as [|k ks IH]; [done|]. rewrite filter_cons. cbn [mbind list_bind] in *. rewrite IH.
  unfold emptied_all. destruct (decide (k ∈ X)), (decide (k ∉ X)); done.
Qed.

(** The two parts of dtrace_consume give this order. *)
Lemma order_eq c e stopped cpus qs ks : NoDup (cpus <$> ks) ->
  begin_events c e stopped cpus qs ks ++
    events_of cpus (emptied_all (begin_buffers c e stopped cpus ks) qs) (end_last e stopped cpus ks) =
  order c e stopped cpus qs ks.
Proof.
  intros Hnd. rewrite events_of_emptied. unfold begin_events, begin_buffers, order, end_last.
  destruct stopped; cbn [andb]; [destruct (Z.eqb_spec c e) as [<- |Hne]|].
  - destruct (on_cpu c cpus ks) as [|b bs] eqn:Eon.
    + rewrite filter_all by (intros k _; apply not_elem_of_nil). rewrite events_of_app. cbn [app].
      unfold on_cpu in Eon. rewrite Eon. done.
    + assert (bs = []) as -> by (by eapply on_cpu_one). unfold on_cpu in Eon. rewrite Eon.
      rewrite (filter_none (λ k, k ∉ b :: off_cpu c cpus ks)); [apply app_nil_r|]. intros k Hk Hn. apply Hn.
      apply elem_of_app in Hk as [Hk|Hk]; [by right|]. apply list_elem_of_singleton in Hk as ->. by left.
  - f_equal. f_equal. rewrite filter_app, !list_filter_filter. unfold off_cpu. rewrite !list_filter_filter.
    f_equal; apply filter_ext; intros k Hk; unfold on_cpu; rewrite list_elem_of_filter; tauto.
  - f_equal. f_equal. apply filter_ext. intros k Hk. unfold on_cpu. rewrite list_elem_of_filter. tauto.
Qed.

Lemma begin_buffers_sub c e stopped cpus ks : exists r, begin_buffers c e stopped cpus ks ++ r ≡ₚ ks.
Proof.
  unfold begin_buffers. pose proof (on_off_perm c cpus ks) as Hp. destruct (stopped && (c =? e)); [|by eexists].
  destruct (on_cpu c cpus ks) as [|b bs]; [by exists ks|]. exists bs. etrans; [|exact Hp]. cbn [app].
  constructor. apply Permutation_app_comm.
Qed.

Lemma order_memory c e stopped cpus qs ks :
  (2 * length (events_of cpus qs (begin_buffers c e stopped cpus ks)) +
   length (events_of cpus (emptied_all (begin_buffers c e stopped cpus ks) qs) (end_last e stopped cpus ks)) <=
   3 * length (events_of cpus qs ks))%nat.
Proof.
  destruct (begin_buffers_sub c e stopped cpus ks) as [r Hr]. pose proof (Permutation_length (events_of_perm cpus qs _ _ Hr)) as H1.
  pose proof (Permutation_length (events_of_perm cpus qs _ _ (end_last_perm e stopped cpus ks))) as H2.
  rewrite events_of_app, length_app in H1.
  assert (length (events_of cpus (emptied_all (begin_buffers c e stopped cpus ks) qs) (end_last e stopped cpus ks)) <=
          length (events_of cpus qs (end_last e stopped cpus ks)))%nat; [|lia].
  rewrite events_of_emptied. clear. induction (end_last e stopped cpus ks) as [|k l IH]; [done|].
  rewrite filter_cons. unfold events_of in *. cbn [mbind list_bind] in *. rewrite length_app.
  destruct (decide _); cbn [mbind list_bind]; rewrite ?length_app; lia.
Qed.

(** The first part of dtrace_consume, once it is due: the data of BEGIN, if it
    was not processed before; [h1] is the state with which it goes on. *)
Lemma begin_stage cpus qs events n h (s : state M U) :
  hrep h cpus qs -> h_st h = Some s -> dt_spec_bufs_draining (s_cons s) = [] -> listed h cpus qs (pending events) ->
  (forall k, cpus k <> -1) ->
  let ks := begin_buffers (dt_beganon h) (dt_endedon h) (dt_stopped h) cpus (pending events) in
  plenty (h_mem h) (2 * length (events_of cpus qs ks) + n) ->
  let rest := consume_rest specsize dt_probes stids handle_err rec_action rec_end cpudrops fuel cb events in
  exists h1,
    (if negb (dt_beganon h =? -1) then
       '(rval, h) ← dt_consume_begin specsize dt_probes stids handle_err rec_action rec_end cpudrops fuel cb events h;
       if negb (rval =? 0) then Some (rval, h)
       else rest (Handle (h_pebs h) (h_tmp h) (h_mem h) (h_st h) (dt_beganon h) (dt_endedon h) (dt_stopped h) 0 0)
     else rest h) = rest h1 /\
    hrep h1 cpus (emptied_all ks qs) /\
    h_st h1 = Some (set_user s (seen (s_user s)
      (begin_events (dt_beganon h) (dt_endedon h) (dt_stopped h) cpus qs (pending events)))) /\
    length (h_pebs h1) = length (h_pebs h) /\ dt_endedon h1 = dt_endedon h /\ dt_stopped h1 = dt_stopped h /\ plenty (h_mem h1) n.
Proof.
  intros Hh Hs Hd Hl Hcpus ks Hm rest. destruct (Z.eqb_spec (dt_beganon h) (-1)) as [Eb|Eb]; cbn [negb].
  - exists h. split; [done|].
    assert (on_cpu (dt_beganon h) cpus (pending events) = []) as Eon by (apply filter_none; intros k _; rewrite Eb; apply Hcpus).
    assert (ks = []) as Eks by (subst ks; unfold begin_buffers; rewrite Eon; by destruct (_ && _)).
    split; [|split; [|do 3 (split; [done|]); eapply plenty_le; [exact Hm|lia]]].
    + rewrite Eks. intros k p Hp. unfold emptied_all. rewrite decide_False by apply not_elem_of_nil. by apply Hh.
    + unfold begin_events. rewrite Eon. rewrite Hs. destruct (_ && _); cbn; by rewrite set_user_same.
  - destruct (dt_consume_begin_rep cpus events n h qs s Hh Hs Hd Hl Hm) as (h1 & -> & Hh1 & Hs1 & Hl1 & He1 & Hst1 & Hm1).
    cbn [mbind option_bind negb Z.eqb]. eexists. split; [reflexivity|]. done.
Qed.

(** C10: When tracing is active and the switch interval has passed, epoll_wait()
    succeeds and the callbacks and actions do not stop it, dtrace_consume processes
    every event of the buffers that have data exactly once, leaves the buffers
    empty, and calls the callbacks in this order: the events of the BEGIN probe come
    before all others, even when BEGIN and END ran on the same CPU and their events
    are in one buffer, and once tracing has stopped the buffer of the CPU on which
    END ran comes last; events of one CPU stay in order.  (The events are those of
    clauses without speculations, no speculation is being drained, nothing was
    dropped, and there is memory.) *)
Theorem dtrace_consume_order (cpus : nat -> Z) (qs : nat -> list (list Z)) (events : list (option nat)) interval now h (s : state M U)
  (Hh : hrep h cpus qs) (Hs : h_st h = Some s) (Hd : dt_spec_bufs_draining (s_cons s) = [])
  (Hl : listed h cpus qs (pending events)) (Hcpus : forall k, cpus k <> -1)
  (Hdue : interval <= 0 \/ dt_lastswitch h = 0 \/ interval <= now - dt_lastswitch h)
  (Hm : plenty (h_mem h) (3 * length (events_of cpus qs (pending events)))) :
  let l := order (dt_beganon h) (dt_endedon h) (dt_stopped h) cpus qs (pending events) in
  exists h', dtrace_consume specsize dt_probes stids handle_err rec_action rec_end cpudrops fuel cb true interval now (Some events) h = Some (0, h') /\
    hrep h' cpus (emptied_all (pending events) qs) /\
    h_st h' = Some (set_user s (seen (s_user s) l)) /\
    l ≡ₚ events_of cpus qs (pending events).
Proof.
  intros l. unfold dtrace_consume. cbn [negb].
  assert ((interval >? 0) && negb (dt_lastswitch h =? 0) && (now - dt_lastswitch h <? interval) = false) as ->.
  { rewrite Z.gtb_ltb. destruct (Z.ltb_spec 0 interval), (Z.eqb_spec (dt_lastswitch h) 0),
      (Z.ltb_spec (now - dt_lastswitch h) interval); cbn; done || lia. }
  set (h0 := if interval >? 0 then _ else h).
  assert (exists ls, h0 = Handle (h_pebs h) (h_tmp h) (h_mem h) (h_st h) (dt_beganon h) (dt_endedon h) (dt_stopped h) ls (dt_lastagg h))
    as [ls Eh0] by (subst h0; destruct (interval >? 0); [by eexists|exists (dt_lastswitch h); by destruct h]).
  clearbody h0. subst h0. set (h0 := Handle _ _ _ _ _ _ _ ls _).
  pose proof (order_memory (dt_beganon h) (dt_endedon h) (dt_stopped h) cpus qs (pending events)) as Hmem.
  pose proof (order_eq (dt_beganon h) (dt_endedon h) (dt_stopped h) cpus qs (pending events) (proj1 Hl)) as Hord. fold l in Hord.
  set (bb := begin_buffers (dt_beganon h) (dt_endedon h) (dt_stopped h) cpus (pending events)) in *.
  set (n := length (events_of cpus (emptied_all bb qs) _)) in *.
  destruct (begin_stage cpus qs events n h0 s Hh Hs Hd Hl Hcpus) as (h1 & -> & Hh1 & Hs1 & Hl1 & He1 & Hst1 & Hm1).
  { eapply plenty_le; [exact Hm|]. cbn [dt_beganon dt_endedon dt_stopped h0]. fold bb. lia. }
  cbn [dt_beganon dt_endedon dt_stopped h0 h_pebs] in *. fold bb in Hh1.
  destruct (consume_rest_rep cpus events 0 h1 (emptied_all bb qs) _ Hh1 Hs1 Hd) as (h2 & -> & Hh2 & (Hs2 & _) & _).
  { destruct Hl as [Hnd Hok]. split; [done|]. rewrite Hl1. eapply Forall_impl; [exact Hok|]. intros k [? Hkf]. split; [done|].
    unfold emptied_all. destruct (decide _); simpl; lia || done. }
  { rewrite He1, Hst1. fold n. by rewrite Nat.add_0_r. }
  rewrite He1, Hst1 in *. exists h2. split; [done|]. split; [|split; [|apply order_perm]].
  - eapply hrep_ext; [|exact Hh2]. intros k _. unfold emptied_all at 1 2.
    pose proof (end_last_perm (dt_endedon h) (dt_stopped h) cpus (pending events)) as Hp.
    destruct (decide (k ∈ pending events)) as [Hk|Hk]; [by rewrite decide_True by (by rewrite Hp)|].
    rewrite decide_False by (by rewrite Hp). unfold emptied_all. rewrite decide_False; [done|]. intros Hb. apply Hk.
    destruct (begin_buffers_sub (dt_beganon h) (dt_endedon h) (dt_stopped h) cpus (pending events)) as [r Hr].
    rewrite <- Hr. apply elem_of_app. by left.
  - rewrite Hs2, see_all, <- Hord, seen_app. done.
Qed.
End Order.

(** ** A session

    BEGIN and END ran on CPU 0, another probe on CPU 1; the callback notes the
    CPU and the name of the probe. *)

Module Session.
Definition name (n : Z) : list Z := [n].
Definition probes : list pdesc :=
  [PDesc [] []; PDesc str_dtrace str_BEGIN; PDesc (name 112) (name 116); PDesc str_dtrace (name 69)].
Definition note (pd : probedata) (u : list (Z * list Z)) : Z * list (Z * list Z) :=
  (DTRACE_CONSUME_THIS, u ++ [(dtpda_cpu pd, prb (dtpda_pdesc pd))]).
Definition cbs : callbacks (list (Z * list Z)) := Callbacks note (λ _ u, (0, u)).

(** An event of a probe, with a speculation and the description of its data. *)
Definition ev (specid prid stid : Z) (more : list Z) : list Z :=
  let size := 12 + Z.of_nat (length more) in
  [9; 0; 0; 0; 0; 0; size + 12; 0] ++ [size; 0; 0; 0] ++ [specid; 0; 0; 0] ++ [prid; 0; 0; 0] ++ [stid; 0; 0; 0] ++ more.

Definition stids (stid : Z) : option ddesc :=
  if stid =? 1 then Some (DDesc DT_ECB_DEFAULT [])
  else if stid =? 2 then Some (DDesc DT_ECB_DEFAULT [RecDesc DTRACEACT_COMMIT 16]) else None.

(** A buffer of 128 bytes that holds the events. *)
Definition buffer (cpu : Z) (evs : list (list Z)) : peb :=
  Peb cpu (resize 128 0 (concat evs)) (Z.of_nat (length (concat evs))) 0 0.

Definition queues (k : nat) : list (list Z) :=
  match k with O => [ev 0 1 1 []; ev 0 3 1 []] | 1%nat => [ev 0 2 1 []] | _ => [] end.

Definition start (evs0 evs1 : list (list Z)) (specs : list (option (Z * spec)))
    : handle (M := list (option (Z * spec))) (U := list (Z * list Z)) :=
  Handle [buffer 0 evs0; buffer 1 evs1] [] (replicate 20 true)
    (Some (State specs (Cons ∅ [] 0 []) [] (replicate 20 true))) 0 0 true 0 0.

Definition run := dtrace_consume (M := list (option (Z * spec))) 100 probes stids (λ _ _ u, (0, u)) (λ _ _ _ u, (Some O, u)) (λ _ u, u) (λ _ u, (0, u)) 10 cbs true 0 0.

Lemma buffer_rep cpu evs : Forall (plain probes stids) evs -> (length (concat evs) <= 128)%nat -> rep probes stids (buffer cpu evs) evs.
Proof.
  intros Hp Hl. unfold buffer. split; cbn [ring data_tail data_head]; try done.
  - exists 7. rewrite length_resize. done.
  - by exists 0.
  - split; [by rewrite length_resize|]. intros i Hi. rewrite length_resize, Z.add_0_l, Z.mod_small by lia. rewrite Nat2Z.id.
    by rewrite lookup_resize by lia.
  - rewrite Z.add_0_l, wrapu_small by lia. done.
Qed.

Lemma ev_plain prid pd : probes !! Z.to_nat prid = Some pd -> 0 < prid < 10 -> plain probes stids (ev 0 prid 1 []).
Proof.
  intros Hpd Hr. unfold plain, wf_event. assert (load 4 DBUF_PRID (data_of (ev 0 prid 1 [])) = prid) as E.
  { cbn. lia. }
  split; [|split; [done|split; [done|split; [done|]]]].
  - split; [|split; [done|split; [cbn; lia|by exists 3]]].
    unfold ev. repeat constructor; unfold is_byte; cbn; lia.
  - exists pd, (DDesc DT_ECB_DEFAULT []). split; [|done]. unfold describe. rewrite E.
    destruct (Z.eqb_spec prid 0); [lia|]. by rewrite Hpd.
Qed.

Lemma dtrace_consume_order_witness : exists h',
  run (Some [Some 0%nat; Some 1%nat]) (start (queues 0) (queues 1) [None]) = Some (0, h') /\
  (s_user <$> h_st h') = Some [(0, str_BEGIN); (1, name 116); (0, name 69)].
Proof.
  destruct (dtrace_consume_order (M := list (option (Z * spec))) 100 probes stids (λ _ _ u, (0, u)) (λ _ _ _ u, (Some O, u)) (λ _ u, u) (λ _ u, (0, u)) 10 cbs
    (λ _ _, or_introl eq_refl) (λ _ _ _ _, ex_intro _ O eq_refl) (λ _ _, eq_refl) Z.of_nat queues [Some 0%nat; Some 1%nat] 0 0
    (start (queues 0) (queues 1) [None]) (State [None] (Cons ∅ [] 0 []) [] (replicate 20 true))) as (h' & E & _ & Hs & _).
  - intros [|[|k]] p [= <-]; (split; [apply buffer_rep; [|cbn; lia]|done]); repeat (apply Forall_cons_2; [by eapply ev_plain|]); apply Forall_nil_2.
  - reflexivity.
  - reflexivity.
  - split; [|repeat constructor; cbn; lia]. cbn. apply NoDup_cons. split; [by rewrite list_elem_of_singleton|apply NoDup_singleton].
  - lia.
  - by left.
  - by exists (replicate 11 true).
  - exists h'. split; [exact E|]. rewrite Hs. reflexivity.
Defined.

(** Speculative data of another probe on the CPU of BEGIN and END that is
    committed is lost: the commit is processed in the pass for BEGIN, whose
    callback does not pass events of other probes on, and the data is freed. *)
Lemma committed_data_lost :
  let h := start [ev 0 1 1 []; ev 1 2 1 []; ev 0 3 2 [1; 0; 0; 0; 0; 0; 0; 0]; ev 0 3 1 []] [] [Some (1, Spec 1 0 1)] in
  exists h', run (Some [Some 0%nat; Some 1%nat]) h = Some (0, h') /\
    (s_user <$> h_st h') = Some [(0, str_BEGIN); (0, name 69)] /\
    (s_specs <$> h_st h') = Some [None] /\ (dt_spec_bufs ∘ s_cons <$> h_st h') = Some ∅.
Proof. eexists. split; [vm_compute; reflexivity|]. split; [vm_compute; reflexivity|]. split; vm_compute; reflexivity. Qed.
End Session.
