(* ===== verification/Fold.v ===== *)
(** * Integer constants and constant folding (libdtrace/dt_parser.c)

    The construction of expression nodes: the type of an integer constant
    ([dt_node_int]), the folding of operators applied to constants
    ([dt_node_op1], [dt_node_op2] with casts, [dt_node_op3]), and the types that
    the cook pass gives to the operators that are left.  The theorems compare a
    folded constant with the value the generated code would compute. *)

From stdpp Require Import base list numbers sets.
From S2P Require Import Prelude Bpf Cg.

Inductive fold_err :=
  | D_INT_OFLOW
  | D_DIV_ZERO
  (** Undefined in C: a shift by 64 or more, and the most negative number
      divided by -1, which traps. *)
  | C_UNDEF.
Abbreviation fold_res := (result fold_err).

(** ** Integer constants *)

Definition chr_u : Z := 117.
Definition chr_U : Z := 85.
Definition chr_l : Z := 108.
Definition chr_L : Z := 76.
Definition chr_plus : Z := 43.
Definition chr_minus : Z := 45.

Section Fold.
(** [dtp->dt_ints] for LP64: the CTF ids of the six types, and [DT_INT_TYPE]. *)
Variable ids : nat -> Z.

Definition dt_ints : list (ity * Z) :=
  [ (Ity 32 true (ids 0), 2147483647); (Ity 32 false (ids 1), 4294967295);
    (Ity 64 true (ids 2), 9223372036854775807); (Ity 64 false (ids 3), 18446744073709551615);
    (Ity 64 true (ids 4), 9223372036854775807); (Ity 64 false (ids 5), 18446744073709551615) ].
Definition DT_INT_TYPE : ity := Ity 32 true (ids 0).

(** A node before it is cooked has no type yet. *)
Definition uncooked : ity := Ity 0 false 0.

(** [size_t] is at most 8, so the shift count of the mask is not negative. *)
Definition dt_node_op1 (op : op1) (cp : dt_node) : dt_node :=
  match cp with
  | NInt t v =>
      match op with
      | DT_TOK_INEG =>
          let v := u64 (- v) in
          NInt t (if ty_signed t then v else Z.land v (Z.shiftr (2 ^ 64 - 1) (64 - ty_size t * 8)))
      | DT_TOK_IPOS => NInt t v
      | DT_TOK_BNEG => NInt t (Z.lxor v (2 ^ 64 - 1))
      | DT_TOK_LNEG => NInt t (c_bool (v =? 0))
      end
  | _ => NOp1 op uncooked cp
  end.

(** The starting index and the increment of the search. *)
Definition suffix_index (yyintsuffix : list Z) : nat :=
  foldl (λ i c, if (c =? chr_U) || (c =? chr_u) then (i + 1)%nat
                else if (c =? chr_L) || (c =? chr_l) then (i + 2)%nat else i) O yyintsuffix.
Definition int_step (yyintdecimal : bool) (yyintsuffix : list Z) : nat :=
  if yyintdecimal || bool_decide (head yyintsuffix = Some chr_u) then 2 else 1.

(** The loop runs at most as often as there are types left; [fuel] counts them. *)
Fixpoint int_search (value : Z) (n fuel i : nat) : option ity :=
  match fuel with
  | O => None
  | S fuel =>
      match dt_ints !! i with
      | None => None
      | Some (t, limit) => if value <=? limit then Some t else int_search value n fuel (i + n)
      end
  end.

Definition dt_node_int (yyintdecimal : bool) (yyintsuffix : list Z) (yyintprefix value : Z) : fold_res dt_node :=
  let n := int_step yyintdecimal yyintsuffix in
  match int_search value n (S (length dt_ints)) (suffix_index yyintsuffix) with
  | None => Err D_INT_OFLOW
  | Some t =>
      let dnp := NInt t value in
      Ok (if yyintprefix =? chr_plus then dt_node_op1 DT_TOK_IPOS dnp
          else if yyintprefix =? chr_minus then dt_node_op1 DT_TOK_INEG dnp
          else dnp)
  end.

(** ** Operators *)

Definition sdiv (l r : Z) : fold_res Z :=
  if (s64 l =? - 2 ^ 63) && (s64 r =? -1) then Err C_UNDEF else Ok (u64 (Z.quot (s64 l) (s64 r))).
Definition smod (l r : Z) : fold_res Z :=
  if (s64 l =? - 2 ^ 63) && (s64 r =? -1) then Err C_UNDEF else Ok (u64 (Z.rem (s64 l) (s64 r))).

(** Both operands are constants, of types [tl] and [tr]; [None] leaves the
    operator to the code generator. *)
Definition fold_op2 (op : op2) (tl : ity) (l : Z) (tr : ity) (r : Z) : option (fold_res dt_node) :=
  let tp := dt_type_promote tl tr in
  let cmp (s u : bool) := NInt DT_INT_TYPE (c_bool (if ty_signed tp then s else u)) in
  match op with
  | DT_TOK_LOR => Some (Ok (NInt DT_INT_TYPE (c_bool (c_true l || c_true r))))
  | DT_TOK_LXOR => Some (Ok (NInt DT_INT_TYPE (Z.lxor (c_bool (c_true l)) (c_bool (c_true r)))))
  | DT_TOK_LAND => Some (Ok (NInt DT_INT_TYPE (c_bool (c_true l && c_true r))))
  | DT_TOK_BOR => Some (Ok (NInt tp (Z.lor l r)))
  | DT_TOK_XOR => Some (Ok (NInt tp (Z.lxor l r)))
  | DT_TOK_BAND => Some (Ok (NInt tp (Z.land l r)))
  | DT_TOK_EQU => Some (Ok (NInt DT_INT_TYPE (c_bool (l =? r))))
  | DT_TOK_NEQ => Some (Ok (NInt DT_INT_TYPE (c_bool (negb (l =? r)))))
  | DT_TOK_LT => Some (Ok (cmp (s64 l <? s64 r) (l <? r)))
  | DT_TOK_LE => Some (Ok (cmp (s64 l <=? s64 r) (l <=? r)))
  | DT_TOK_GT => Some (Ok (cmp (s64 r <? s64 l) (r <? l)))
  | DT_TOK_GE => Some (Ok (cmp (s64 r <=? s64 l) (r <=? l)))
  | DT_TOK_LSH => Some (if 64 <=? r then Err C_UNDEF else Ok (NInt tl (u64 (Z.shiftl l r))))
  | DT_TOK_RSH => Some (if 64 <=? r then Err C_UNDEF else Ok (NInt tl (Z.shiftr l r)))
  | DT_TOK_ADD => Some (Ok (NInt tp (u64 (l + r))))
  | DT_TOK_SUB => Some (Ok (NInt tp (u64 (l - r))))
  | DT_TOK_MUL => Some (Ok (NInt tp (u64 (l * r))))
  | DT_TOK_DIV => Some (if ty_signed tp then (v ← sdiv l r; Ok (NInt tp v)) else Ok (NInt tp (l `div` r)))
  | DT_TOK_MOD => Some (if ty_signed tp then (v ← smod l r; Ok (NInt tp v)) else Ok (NInt tp (l `mod` r)))
  | DT_TOK_COMMA => None
  end.

(** Of the operators that [op2] has: the check for a zero divisor also names the compound
    assignments DT_TOK_DIV_EQ and DT_TOK_MOD_EQ, whose nodes are not part of the model. *)
Definition is_divmod (op : op2) : bool := match op with DT_TOK_DIV | DT_TOK_MOD => true | _ => false end.

Definition dt_node_op2 (op : op2) (lp rp : dt_node) : fold_res dt_node :=
  if match rp with NInt _ r => (r =? 0) && is_divmod op | _ => false end then Err D_DIV_ZERO
  else
    let dnp := NOp2 op uncooked lp rp in
    match lp, rp with
    | NInt tl l, NInt tr r => default (Ok dnp) (fold_op2 op tl l tr r)
    | _, _ => Ok dnp
    end.

(** [op == DT_TOK_LPAR] with an integer type on the left. *)
Definition dt_node_cast (dst : ity) (rp : dt_node) : dt_node :=
  match rp with
  | NInt src v =>
      let n := (8 - ty_size dst) * 8 in
      let cast :=
        if n =? 0 then false
        else if ty_size src <? ty_size dst then negb (ty_signed dst || negb (ty_signed src))
        else if ty_size dst =? ty_size src then negb (eqb (ty_signed dst) (ty_signed src))
        else true in
      NInt dst (if cast then
                  let v := u64 (Z.shiftl v n) in
                  if ty_signed dst then u64 (Z.shiftr (s64 v) n) else Z.shiftr v n
                else v)
  | _ => NCast dst rp
  end.

Definition dt_node_op3 (expr lp rp : dt_node) : dt_node :=
  match expr with
  | NInt _ v => if negb (v =? 0) then lp else rp
  | _ => NOp3 uncooked expr lp rp
  end.

(** ** The types of operators on integers, given by the cook pass *)

Definition cook_op1_type (op : op1) (c : ity) : ity :=
  match op with DT_TOK_LNEG => DT_INT_TYPE | _ => c end.

Definition cook_op2_type (op : op2) (l r : ity) : ity :=
  match op with
  | DT_TOK_BAND | DT_TOK_XOR | DT_TOK_BOR | DT_TOK_MOD | DT_TOK_MUL | DT_TOK_DIV
  | DT_TOK_ADD | DT_TOK_SUB => dt_type_promote l r
  | DT_TOK_LSH | DT_TOK_RSH => l
  | DT_TOK_COMMA => r
  | _ => DT_INT_TYPE
  end.

(** [compat] is [ctf_type_compat]. *)
Variable compat : ity -> ity -> bool.
Definition cook_op3_type (l r : ity) : ity := if compat l r then l else dt_type_promote l r.

Fixpoint dt_node_cook (dnp : dt_node) : dt_node :=
  match dnp with
  | NInt _ _ | NVar _ _ _ => dnp
  | NOp1 op _ c => let c := dt_node_cook c in NOp1 op (cook_op1_type op (dn_type c)) c
  | NOp2 op _ l r =>
      let l := dt_node_cook l in let r := dt_node_cook r in
      NOp2 op (cook_op2_type op (dn_type l) (dn_type r)) l r
  | NOp3 _ e l r =>
      let e := dt_node_cook e in let l := dt_node_cook l in let r := dt_node_cook r in
      NOp3 (cook_op3_type (dn_type l) (dn_type r)) e l r
  | NCast t c => NCast t (dt_node_cook c)
  end.
End Fold.

(** ** Folding against evaluation *)

(** The two cases in which folding and the generated code disagree: a right
    shift of a negative constant, and a remainder by a negative constant. *)
Definition fold_exception (op : op2) (tl : ity) (l : Z) (tr : ity) (r : Z) : bool :=
  match op with
  | DT_TOK_RSH => ty_signed tl && (s64 l <? 0) && (0 <? r)
  | DT_TOK_MOD => ty_signed (dt_type_promote tl tr) && (s64 r <? 0) && negb (Z.rem (s64 l) (s64 r) =? 0)
  | _ => false
  end.

Lemma s64_nonzero r : in64 r -> r <> 0 -> s64 r <> 0.
Proof.
  intros Hr H E. apply H. rewrite <- (wrapu_small 64 r), <- wrapu_wraps, E by lia. done.
Qed.

Lemma s64_cases a : in64 a -> (s64 a = a /\ a < 2 ^ 63) \/ (s64 a = a - 2 ^ 64 /\ 2 ^ 63 <= a).
Proof.
  intros Ha. unfold wraps. rewrite wrapu_small by lia. change (2 ^ (64 - 1)) with (2 ^ 63). case_cmp; lia.
Qed.

Lemma u64_inj_s a b : - 2 ^ 63 <= a < 2 ^ 63 -> - 2 ^ 63 <= b < 2 ^ 63 -> u64 a = u64 b -> a = b.
Proof.
  unfold wrapu. intros Ha Hb H.
  pose proof (Z.div_mod a (2 ^ 64)). pose proof (Z.div_mod b (2 ^ 64)). nia.
Qed.

(** The remainder of C and the one of the generated code. *)
Lemma rem_signed_mod a b : b <> 0 -> - 2 ^ 63 <= a < 2 ^ 63 -> - 2 ^ 63 <= b < 2 ^ 63 ->
  (u64 (Z.rem a b) = u64 (signed_mod a b)) <-> ~ (b < 0 /\ Z.rem a b <> 0).
Proof.
  intros Hb Ra Rb. unfold signed_mod.
  assert (Z.rem a b = Z.sgn a * (Z.abs a `mod` Z.abs b)) as Hrem by (by apply Z.rem_mod).
  pose proof (Z.mod_pos_bound (Z.abs a) (Z.abs b) ltac:(lia)) as Hm.
  destruct (Z.ltb_spec a 0), (Z.ltb_spec b 0); simpl; rewrite Hrem;
    first [rewrite (Z.sgn_neg a) by lia
          |destruct (Z.eq_dec a 0) as [-> |]; [|rewrite (Z.sgn_pos a) by lia]].
  all: split; [intros H1|intros H1; f_equal; nia].
  all: try (apply u64_inj_s in H1; [|nia..]; nia).
Qed.

Section Spec.
Variables (ids : nat -> Z) (compat : ity -> ity -> bool) (env : bool -> Z -> Z -> Z).
Abbreviation cook := (dt_node_cook ids compat).

(** The value of an operator on constants that is left to the code generator. *)
Definition code_value (op : op2) (tl : ity) (l : Z) (tr : ity) (r : Z) : option Z :=
  eval env (cook (NOp2 op uncooked (NInt tl l) (NInt tr r))).

Lemma code_value_eq op tl l tr r : in64 l -> in64 r -> code_value op tl l tr r =
  match op with
  | DT_TOK_COMMA => Some r
  | DT_TOK_LOR => Some (c_bool (c_true l || c_true r))
  | DT_TOK_LAND => Some (c_bool (c_true l && c_true r))
  | DT_TOK_LXOR => Some (c_bool (xorb (c_true l) (c_true r)))
  | _ =>
      match arith_op op (cook_op2_type ids op tl tr) with
      | Some o => eval_arith (cook_op2_type ids op tl tr) o l r
      | None => Some (c_bool (eval_cmp op (ty_signed (dt_type_promote tl tr)) l r))
      end
  end.
Proof.
  intros Hl Hr. unfold code_value. cbn [dt_node_cook eval dn_type]. rewrite !wrapu_small by lia.
  unfold c_true. destruct op; try done; cbn; by destruct (l =? 0), (r =? 0).
Qed.

Lemma code_value_arith op tl l tr r o :
  arith_op op (cook_op2_type ids op tl tr) = Some o -> in64 l -> in64 r ->
  code_value op tl l tr r = eval_arith (cook_op2_type ids op tl tr) o l r.
Proof.
  intros Ho Hl Hr. rewrite code_value_eq by done. destruct op; try done; cbn in *; by simplify_eq.
Qed.

Lemma eval_arith_plain t o a b :
  ((o =? BPF_MOD) || (o =? BPF_DIV)) && ty_signed t = false -> eval_arith t o a b = alu o a b.
Proof. intros H. unfold eval_arith. by rewrite H. Qed.

(** What the fold gives against the code, for a constant in range. *)
Definition fold_matches (t : ity) (v : Z) (code : option Z) (exn : bool) : Prop :=
  in64 v /\ (code = Some v <-> exn = false).

Lemma fold_plain t v code : in64 v -> code = Some v -> fold_matches t v code false.
Proof. by split. Qed.

Lemma fold_shr_ok tl l tr r : in64 l -> in64 r -> r < 64 ->
  fold_matches tl (Z.shiftr l r) (code_value DT_TOK_RSH tl l tr r) (fold_exception DT_TOK_RSH tl l tr r).
Proof.
  intros Hl Hr Hr64. pose proof (pow2_pos r ltac:(lia)) as Hp.
  assert (in64 (Z.shiftr l r)) as Hin.
  { rewrite Z.shiftr_div_pow2 by lia. split; [apply Z.div_pos; lia|]. apply Z.div_lt_upper_bound; nia. }
  split; [done|]. rewrite (code_value_arith _ _ _ _ _ (if ty_signed tl then BPF_ARSH else BPF_RSH)) by done.
  cbn [cook_op2_type fold_exception].
  destruct (ty_signed tl) eqn:Ht; rewrite eval_arith_plain by (by rewrite Ht, andb_true_r || done).
  2: { split; [done|]. intros _. change (Some (Z.shiftr l (r `mod` 64)) = Some (Z.shiftr l r)). by rewrite Z.mod_small by lia. }
  change (Some (u64 (Z.shiftr (s64 l) (r `mod` 64))) = Some (Z.shiftr l r) <-> true && (s64 l <? 0) && (0 <? r) = false).
  rewrite Z.mod_small by lia. cbn [andb].
  destruct (s64_cases l Hl) as [[E Hlt]|[E Hge]]; rewrite E.
  - rewrite wrapu_small by done. destruct (Z.ltb_spec l 0); [lia|]. done.
  - destruct (Z.ltb_spec (l - 2 ^ 64) 0); [|lia]. cbn [andb]. destruct (Z.ltb_spec 0 r) as [Hr0|].
    + split; [|done]. intros [= H0]. exfalso. rewrite !Z.shiftr_div_pow2 in H0 by lia.
      assert (2 ^ 64 = 2 ^ (64 - r) * 2 ^ r) as E64 by (rewrite <- Z.pow_add_r by lia; f_equal; lia).
      rewrite E64 in H0 at 1. replace (l - 2 ^ (64 - r) * 2 ^ r) with (l + - 2 ^ (64 - r) * 2 ^ r) in H0 by lia.
      rewrite Z.div_add in H0 by lia.
      assert (0 <= l `div` 2 ^ r < 2 ^ (64 - r)).
      { split; [apply Z.div_pos; lia|]. apply Z.div_lt_upper_bound; nia. }
      pose proof (pow2_pos (64 - r) ltac:(lia)). pose proof (Z.pow_lt_mono_r 2 (64 - r) 64 ltac:(lia) ltac:(lia) ltac:(lia)).
      unfold wrapu in H0. rewrite <- (Z.mod_add _ 1), Z.mod_small in H0 by lia. lia.
    + assert (r = 0) as -> by lia. rewrite !Z.shiftr_0_r. split; [done|]. intros _. f_equal.
      unfold wrapu. rewrite <- (Z.mod_add _ 1), Z.mod_small by lia. lia.
Qed.

Lemma fold_mod_ok tl l tr r v : in64 l -> in64 r -> r <> 0 ->
  ty_signed (dt_type_promote tl tr) = true -> smod l r = Ok v ->
  fold_matches (dt_type_promote tl tr) v (code_value DT_TOK_MOD tl l tr r) (fold_exception DT_TOK_MOD tl l tr r).
Proof.
  intros Hl Hr Hr0 Ht Hv. unfold smod in Hv. destruct (_ && _); [done|]. injection Hv as <-.
  split; [by auto with cint|]. rewrite (code_value_arith _ _ _ _ _ BPF_MOD) by done.
  cbn [cook_op2_type fold_exception]. unfold eval_arith. rewrite Ht, (proj2 (Z.eqb_neq r 0) Hr0). cbn [andb].
  change (Some (u64 (signed_mod (s64 l) (s64 r))) = Some (u64 (Z.rem (s64 l) (s64 r))) <->
    (s64 r <? 0) && negb (Z.rem (s64 l) (s64 r) =? 0) = false).
  pose proof (rem_signed_mod (s64 l) (s64 r) (s64_nonzero r Hr Hr0) (wraps_range 64 l ltac:(lia)) (wraps_range 64 r ltac:(lia))) as H.
  destruct (Z.ltb_spec (s64 r) 0), (Z.eqb_spec (Z.rem (s64 l) (s64 r)) 0); cbn [andb negb];
    (split; [intros [= H1]|intros H1]); try done; try (f_equal; symmetry; apply H; lia).
  symmetry in H1. apply H in H1. lia.
Qed.

Lemma fold_div_ok tl l tr r v : in64 l -> in64 r -> r <> 0 ->
  ty_signed (dt_type_promote tl tr) = true -> sdiv l r = Ok v ->
  fold_matches (dt_type_promote tl tr) v (code_value DT_TOK_DIV tl l tr r) false.
Proof.
  intros Hl Hr Hr0 Ht Hv. unfold sdiv in Hv. destruct (_ && _); [done|]. injection Hv as <-.
  apply fold_plain; [by auto with cint|]. rewrite (code_value_arith _ _ _ _ _ BPF_DIV) by done.
  cbn [cook_op2_type]. unfold eval_arith. rewrite Ht, (proj2 (Z.eqb_neq r 0) Hr0). done.
Qed.

Lemma c_bool_range b : in64 (c_bool b).
Proof. by destruct b. Qed.

Lemma fold_op2_ok op tl l tr r res : in64 l -> in64 r -> (is_divmod op = true -> r <> 0) ->
  fold_op2 ids op tl l tr r = Some res ->
  match res with
  | Ok (NInt t v) => t = cook_op2_type ids op tl tr /\
      fold_matches t v (code_value op tl l tr r) (fold_exception op tl l tr r)
  | Err C_UNDEF =>
      ((op = DT_TOK_LSH \/ op = DT_TOK_RSH) /\ 64 <= r) \/
      (is_divmod op = true /\ ty_signed (dt_type_promote tl tr) = true /\ s64 l = - 2 ^ 63 /\ s64 r = -1)
  | _ => False
  end.
Proof.
  intros Hl Hr Hd H.
  assert (forall t v op', in64 v -> code_value op' tl l tr r = Some v -> t = cook_op2_type ids op' tl tr ->
    fold_exception op' tl l tr r = false ->
    t = cook_op2_type ids op' tl tr /\ fold_matches t v (code_value op' tl l tr r) (fold_exception op' tl l tr r)) as Hplain.
  { intros t v op' Hv Hc -> ->. split; [done|]. by apply fold_plain. }
  destruct op; cbn [fold_op2] in H; try done; injection H as <-;
    try (by apply Hplain; [apply c_bool_range|rewrite code_value_eq by done|..]);
    try (by apply Hplain; [apply wrapu_range|rewrite code_value_eq by done|..]).
  - apply Hplain; [by destruct (c_true l), (c_true r)|rewrite code_value_eq by done|done..].
    by destruct (c_true l), (c_true r).
  - apply Hplain; [by auto with cint|by rewrite code_value_eq|done..].
  - apply Hplain; [by apply lxor_range|by rewrite code_value_eq|done..].
  - apply Hplain; [by auto with cint|by rewrite code_value_eq|done..].
  - apply Hplain; [apply c_bool_range|rewrite code_value_eq by done; cbn; by destruct (ty_signed _)|done..].
  - apply Hplain; [apply c_bool_range|rewrite code_value_eq by done; cbn; by destruct (ty_signed _)|done..].
  - apply Hplain; [apply c_bool_range|rewrite code_value_eq by done; cbn; by destruct (ty_signed _)|done..].
  - apply Hplain; [apply c_bool_range|rewrite code_value_eq by done; cbn; by destruct (ty_signed _)|done..].
  - destruct (Z.leb_spec 64 r); [left; auto|]. apply Hplain; [by auto with cint| |done..].
    rewrite (code_value_arith _ _ _ _ _ BPF_LSH), eval_arith_plain by done.
    change (Some (u64 (Z.shiftl l (r `mod` 64))) = Some (u64 (Z.shiftl l r))). by rewrite Z.mod_small by lia.
  - destruct (Z.leb_spec 64 r); [left; auto|]. split; [done|]. by apply fold_shr_ok.
  - specialize (Hd eq_refl). destruct (ty_signed (dt_type_promote tl tr)) eqn:Ht.
    + destruct (sdiv l r) as [v|e] eqn:Hv; cbn [mbind result_bind].
      * split; [done|]. by apply fold_div_ok.
      * unfold sdiv in Hv. destruct (_ && _) eqn:E; [|done]. injection Hv as <-. b2p. by right.
    + apply Hplain; [| |done..].
      * split; [apply Z.div_pos; lia|]. apply Z.div_lt_upper_bound; nia.
      * rewrite (code_value_arith _ _ _ _ _ BPF_DIV), eval_arith_plain by (cbn; by rewrite ?Ht).
        change (Some (if r =? 0 then 0 else l `div` r) = Some (l `div` r)). by rewrite (proj2 (Z.eqb_neq r 0)).
  - specialize (Hd eq_refl). destruct (ty_signed (dt_type_promote tl tr)) eqn:Ht.
    + destruct (smod l r) as [v|e] eqn:Hv; cbn [mbind result_bind].
      * split; [done|]. by apply fold_mod_ok.
      * unfold smod in Hv. destruct (_ && _) eqn:E; [|done]. injection Hv as <-. b2p. by right.
    + apply Hplain; [| |done|cbn; by rewrite Ht].
      * pose proof (Z.mod_pos_bound l r). lia.
      * rewrite (code_value_arith _ _ _ _ _ BPF_MOD), eval_arith_plain by (cbn; by rewrite ?Ht).
        change (Some (if r =? 0 then l else l `mod` r) = Some (l `mod` r)). by rewrite (proj2 (Z.eqb_neq r 0)).
Qed.
End Spec.

(** ** The results *)

Definition const_ok (e : dt_node) : Prop := match e with NInt _ v => in64 v | _ => True end.

(** C27: folding of binary operators.  [dt_node_op2] rejects exactly the
    divisions and remainders by a constant zero; it folds exactly when both
    operands are constants (the comma operator apart), into a constant of the
    type the cook pass would give the operator, and leaves the other operators
    alone.  The constant is the value the generated code would compute if and
    only if the operation is not a right shift of a negative signed constant by
    a nonzero count, nor a signed remainder by a negative constant that is not
    exact.  The cases C leaves undefined are shifts by 64 or more and
    INT64_MIN divided by -1. *)
Theorem dt_node_op2_folds ids compat env op lp rp :
  const_ok lp -> const_ok rp ->
  match dt_node_op2 ids op lp rp with
  | Err D_INT_OFLOW => False
  | Err D_DIV_ZERO => is_divmod op = true /\ exists t, rp = NInt t 0
  | Err C_UNDEF => exists tl l tr r, lp = NInt tl l /\ rp = NInt tr r /\
      ((op = DT_TOK_LSH \/ op = DT_TOK_RSH) /\ 64 <= r \/
       is_divmod op = true /\ ty_signed (dt_type_promote tl tr) = true /\ s64 l = - 2 ^ 63 /\ s64 r = -1)
  | Ok e =>
      (is_divmod op = true -> forall t, rp <> NInt t 0) /\
      match lp, rp with
      | NInt tl l, NInt tr r =>
          op = DT_TOK_COMMA /\ e = NOp2 op uncooked lp rp \/
          exists v, e = NInt (cook_op2_type ids op tl tr) v /\ in64 v /\
            (eval env (dt_node_cook ids compat e) = eval env (dt_node_cook ids compat (NOp2 op uncooked lp rp))
             <-> fold_exception op tl l tr r = false)
      | _, _ => e = NOp2 op uncooked lp rp
      end
  end.
Proof.
  intros Hl Hr. unfold dt_node_op2.
  destruct (match rp with NInt _ r => _ | _ => _ end) eqn:Hz.
  { destruct rp; try done. b2p. subst. split; [done|]. by eexists. }
  assert (is_divmod op = true -> forall t, rp <> NInt t 0) as Hnz.
  { intros Hd t ->. by rewrite Hd in Hz. }
  destruct lp as [tl l| | | | |]; [|by split..]. destruct rp as [tr r| | | | |]; [|by split..].
  destruct (fold_op2 ids op tl l tr r) as [res|] eqn:Hf; simpl.
  2: { destruct op; try done. split; [done|]. by left. }
  assert (is_divmod op = true -> r <> 0) as Hd by (intros Hd ->; by destruct (Hnz Hd tr)).
  pose proof (fold_op2_ok ids compat env op tl l tr r res Hl Hr Hd Hf) as H.
  destruct res as [e|[]]; [|done|done|by exists tl, l, tr, r].
  split; [done|]. destruct e as [t v| | | | |]; try done. destruct H as [-> [Hv H]].
  right. exists v. split; [done|]. split; [done|]. rewrite <- H.
  change (eval env (dt_node_cook ids compat (NInt (cook_op2_type ids op tl tr) v))) with (Some (u64 v)).
  rewrite (wrapu_small 64 v) by lia. unfold code_value. by split; symmetry.
Qed.

(** The folded negation, and when it is the negation of the machine. *)
Lemma fold_neg_ok t v : in64 v -> 0 < ty_size t <= 8 ->
  let v' := if ty_signed t then u64 (- v)
            else Z.land (u64 (- v)) (Z.shiftr (2 ^ 64 - 1) (64 - ty_size t * 8)) in
  in64 v' /\
  (v' = u64 (- v) <-> ~ (DT_TOK_INEG = DT_TOK_INEG /\ ty_signed t = false /\ 2 ^ (8 * ty_size t) <= u64 (- v))).
Proof.
  intros Hv Ht. cbn zeta. pose proof (wrapu_range 64 (- v) ltac:(lia)) as Hn.
  destruct (ty_signed t); [split; [done|]; split; [by intros _ (_ & ? & _)|done]|].
  assert (Z.shiftr (2 ^ 64 - 1) (64 - ty_size t * 8) = Z.ones (8 * ty_size t)) as Em.
  { change (2 ^ 64 - 1) with (Z.ones 64). rewrite Z.shiftr_div_pow2, Z.ones_div_pow2 by lia. f_equal. lia. }
  rewrite Em, Z.land_ones by lia.
  pose proof (Z.mod_pos_bound (u64 (- v)) (2 ^ (8 * ty_size t)) (pow2_pos (8 * ty_size t) ltac:(lia))) as Hm.
  pose proof (Z.pow_le_mono_r 2 (8 * ty_size t) 64 ltac:(lia) ltac:(lia)).
  split; [lia|]. split.
  - intros E (_ & _ & H1). lia.
  - intros H1. apply Z.mod_small. split; [lia|].
    destruct (Z.lt_ge_cases (u64 (- v)) (2 ^ (8 * ty_size t))); [done|]. by destruct H1.
Qed.

(** C37: folding of unary operators, casts and the ternary operator.  A folded
    unary operator has the value the generated code would compute, except the
    negation of an unsigned constant, which is truncated to the size of its
    type; it keeps the type of its operand, so a folded logical negation is not
    an int.  A folded cast has the type and the value of the generated cast.  A
    ternary operator with a constant condition is replaced by the operand it
    selects. *)
Theorem dt_node_unary_folds ids compat env op t v dst e lp rp :
  in64 v -> 0 < ty_size t <= 8 -> 0 < ty_size dst <= 8 ->
  (exists v', dt_node_op1 op (NInt t v) = NInt t v' /\ in64 v' /\
     (eval env (NInt t v') = eval env (dt_node_cook ids compat (NOp1 op uncooked (NInt t v))) <->
      ~ (op = DT_TOK_INEG /\ ty_signed t = false /\ 2 ^ (8 * ty_size t) <= u64 (- v)))) /\
  dn_type (dt_node_cast dst (NInt t v)) = dst /\
  eval env (dt_node_cast dst (NInt t v)) = eval env (NCast dst (NInt t v)) /\
  eval env (dt_node_op3 (NInt t v) lp rp) = eval env (NOp3 e (NInt t v) lp rp).
Proof.
  intros Hv Ht Hd. split; [|split; [done|split]].
  - destruct op; cbn [dt_node_op1]; eexists; (split; [done|]).
    + split; [by destruct (v =? 0)|]. cbn. rewrite !(wrapu_small 64) by (try lia; by destruct (v =? 0)).
      split; [by intros _ [? _]|]. by destruct (v =? 0).
    + assert (in64 (Z.lxor v (2 ^ 64 - 1))) by (apply lxor_range; lia). split; [done|].
      cbn [dt_node_cook eval cook_op1_type mbind option_bind]. rewrite !(wrapu_small 64) by lia.
      split; [by intros _ [? _]|done].
    + split; [done|]. cbn. split; [by intros _ [? _]|done].
    + destruct (fold_neg_ok t v Hv Ht) as [Hr Hiff]. split; [exact Hr|].
      cbn [dt_node_cook eval cook_op1_type mbind option_bind]. rewrite (wrapu_small 64 v) by lia.
      rewrite (wrapu_small _ _ Hr), <- Hiff. split; [by intros [= E]|intros E; by f_equal].
  - cbn [dt_node_cast eval dn_type mbind option_bind]. unfold eval_cast. rewrite (wrapu_small 64 v) by lia.
    set (k := (8 - ty_size dst) * 8). destruct (if k =? 0 then _ else _); [|by rewrite wrapu_small by lia].
    destruct (ty_signed dst); rewrite ?shift_sext, ?shift_zext, ?wrapu_idem by lia; [done|].
    pose proof (wrapu_range (64 - k) v ltac:(lia)). pose proof (Z.pow_le_mono_r 2 (64 - k) 64).
    by rewrite wrapu_small by lia.
  - cbn [dt_node_op3 eval mbind option_bind]. rewrite (wrapu_small 64 v) by lia. by destruct (v =? 0).
Qed.

(** ** The types of integer constants *)

(** A suffix the lexer accepts: an optional [u] or [U], then up to two of [l] and [L]. *)
Definition suffix_ok (u : option Z) (ls : list Z) : Prop :=
  match u with None => True | Some c => c = chr_u \/ c = chr_U end /\
  (length ls <= 2)%nat /\ Forall (λ c, c = chr_l \/ c = chr_L) ls.

(** The list of candidate types, in the order of the comment of [dt_node_int]:
    indices of int, unsigned, long, unsigned long, long long, unsigned long long. *)
Definition int_candidates (decimal : bool) (u : bool) (nl : nat) : list nat :=
  match nl, u, decimal with
  | O, false, true => [0; 2; 4]
  | O, false, false => [0; 1; 2; 3; 4; 5]
  | O, true, _ => [1; 3; 5]
  | 1, false, true => [2; 4]
  | 1, false, false => [2; 3; 4; 5]
  | 1, true, _ => [3; 5]
  | _, false, true => [4]
  | _, false, false => [4; 5]
  | _, true, _ => [5]
  end%nat.

Definition int_type_spec (ids : nat -> Z) (cands : list nat) (value : Z) : option ity :=
  '(t, _) ← list_find (λ tl, value <= tl.2) (omap (λ i, dt_ints ids !! i) cands) ≫= λ x, Some x.2; Some t.

Lemma suffix_ok_cases u ls : suffix_ok u ls ->
  (u = None \/ u = Some chr_u \/ u = Some chr_U) /\
  (ls = [] \/ (exists a, (a = chr_l \/ a = chr_L) /\ ls = [a]) \/
   exists a b, (a = chr_l \/ a = chr_L) /\ (b = chr_l \/ b = chr_L) /\ ls = [a; b]).
Proof.
  intros (Hu & Hlen & Hall). split; [destruct u; naive_solver|].
  destruct ls as [|a [|b [|]]]; simpl in Hlen; [by left| | |lia].
  - right; left. apply Forall_cons in Hall as [Ha _]. by exists a; split.
  - right; right. apply Forall_cons in Hall as [Ha Hall]. apply Forall_cons in Hall as [Hb _]. by exists a, b; repeat split.
Qed.

(** Evaluate what depends on the suffix alone. *)
Ltac compute_suffix :=
  repeat match goal with
  | |- context [int_step ?d ?s] => let n := eval vm_compute in (int_step d s) in change (int_step d s) with n
  | |- context [suffix_index ?s] => let n := eval vm_compute in (suffix_index s) in change (suffix_index s) with n
  | |- context [bool_decide ?P] => let b := eval vm_compute in (bool_decide P) in change (bool_decide P) with b
  end.


(** ** Examples *)

Definition ex_ids (n : nat) : Z := Z.of_nat n.
Definition c_int (v : Z) : dt_node := NInt (DT_INT_TYPE ex_ids) v.
Definition no_env : bool -> Z -> Z -> Z := λ _ _ _, 0.
Definition same_id (a b : ity) : bool := ty_id a =? ty_id b.

(** [19 / 5] folds to 3; [19 % -5] folds to 4 and the code computes -4. *)
Lemma dt_node_op2_folds_witness :
  dt_node_op2 ex_ids DT_TOK_DIV (c_int 19) (c_int 5) = Ok (c_int 3) /\
  (dt_node_op2 ex_ids DT_TOK_MOD (c_int 19) (c_int (2 ^ 64 - 5)) = Ok (c_int 4) /\
   eval no_env (dt_node_cook ex_ids same_id (c_int 4)) <>
   eval no_env (dt_node_cook ex_ids same_id (NOp2 DT_TOK_MOD uncooked (c_int 19) (c_int (2 ^ 64 - 5))))).
Proof.
  pose proof (dt_node_op2_folds ex_ids same_id no_env DT_TOK_MOD (c_int 19) (c_int (2 ^ 64 - 5))
    ltac:(simpl; lia) ltac:(simpl; lia)) as H.
  split; [vm_compute; reflexivity|].
  assert (dt_node_op2 ex_ids DT_TOK_MOD (c_int 19) (c_int (2 ^ 64 - 5)) = Ok (c_int 4)) as E
    by (vm_compute; reflexivity).
  split; [exact E|]. rewrite E in H. destruct H as [_ [[H _]|(v & [= <-] & _ & H)]]; [discriminate|].
  intros He. apply H in He. vm_compute in He. discriminate.
Defined.

Lemma dt_node_unary_folds_witness :
  dt_node_op1 DT_TOK_INEG (NInt (Ity 32 false 1) 1) = NInt (Ity 32 false 1) (2 ^ 32 - 1) /\
  eval no_env (dt_node_cast (Ity 8 true 2) (c_int 300)) = eval no_env (NCast (Ity 8 true 2) (c_int 300)).
Proof.
  destruct (dt_node_unary_folds ex_ids same_id no_env DT_TOK_INEG (DT_INT_TYPE ex_ids) 300 (Ity 8 true 2)
    (DT_INT_TYPE ex_ids) (c_int 1) (c_int 2) ltac:(lia) ltac:(vm_compute; split; congruence)
    ltac:(vm_compute; split; congruence)) as (_ & _ & H & _).
  split; [vm_compute; reflexivity|exact H].
Defined.

