(* ===== verification/Dof.v ===== *)
(** * The parser of DOF (libcommon/usdt_parser_dof.c)

    dtprobed gets the probes of a program as DOF, a format of sections that the
    program itself provides: the parser must not trust it.  The model reads and
    writes the bytes of the data; an access outside them is the outcome [Oob].
    Pointers into the data are offsets.  The theorems say which data the parser
    handles without such an access, and the examples what it does not check. *)

From stdpp Require Import base list numbers option sorting sets.
From S2P Require Import Prelude.

(** ** Memory and messages *)

(** The messages that are written to the pipe (dof_parsed_t).  A tracepoint of DOF is
    written with its padding and no arguments, one of an ELF note ends with the sources
    of its arguments. *)
Inductive msg :=
  | DIT_PROVIDER (nprobes : Z) (name : list Z)
  | DIT_PROBE (ntp nargc xargc : Z) (mod_ func name : list Z)
  | DIT_TRACEPOINT (addr is_enabled : Z)
  | DIT_TRACEPOINT_ARGS (addr is_enabled : Z) (args : list Z)
  | DIT_ERR (err_no : Z)
  | DIT_ARGS_NATIVE (args : list Z)
  | DIT_ARGS_XLAT (args : list Z)
  | DIT_ARGS_MAP (argmap : list Z).

Definition EINVAL : Z := 22.
Definition ENOMEM : Z := 12.

Record dst := Dst { img : list Z; out : list msg; mem : allocs }.

(** An access outside the data (or a loop whose bound the data changed while it
    ran), a return of -1, or a result. *)
Inductive res (A : Type) := Oob | Fail (s : dst) | Done (a : A) (s : dst).
Arguments Oob {A}.
Arguments Fail {A} s.
Arguments Done {A} a s.

Definition D (A : Type) := dst -> res A.

#[export] Instance D_ret : MRet D := λ A a s, Done a s.
#[export] Instance D_bind : MBind D := λ A B f m s,
  match m s with Oob => Oob | Fail s => Fail s | Done a s => f a s end.

(** [n] bytes at an offset, as a number. *)
Definition rd (n : nat) (off : Z) : D Z := λ s,
  if (0 <=? off) && (off + Z.of_nat n <=? Z.of_nat (length (img s)))
  then Done (load n (Z.to_nat off) (img s)) s else Oob.

(** The image with the bytes [bs] stored at an offset. *)
Definition store (bs : list Z) (off : nat) (l : list Z) : list Z := take off l ++ bs ++ drop (off + length bs) l.

Definition wr (n : nat) (off v : Z) : D unit := λ s,
  if (0 <=? off) && (off + Z.of_nat n <=? Z.of_nat (length (img s)))
  then Done tt (Dst (store (le_bytes n v) (Z.to_nat off) (img s)) (out s) (mem s)) else Oob.

Definition put (x : msg) : D unit := λ s, Done tt (Dst (img s) (out s ++ [x]) (mem s)).
Definition dmalloc : D bool := λ s, let '(ok, m) := malloc (mem s) in Done ok (Dst (img s) (out s) m).

Definition usdt_error (e : Z) : D unit := put (DIT_ERR e).
Definition return_1 {A} : D A := λ s, Fail s.
(** usdt_error(), then return -1. *)
Definition fail {A} : D A := usdt_error EINVAL;; return_1.
(** An error if [b] holds. *)
Definition fail_if (b : bool) : D unit := if b then fail else mret tt.

(** strlen(): the offset of the first NUL byte from [off] on. *)
Definition strlen (off : Z) : D Z := λ s,
  if 0 <=? off then
    match list_find (λ b, b = 0) (drop (Z.to_nat off) (img s)) with
    | Some (n, _) => Done (Z.of_nat n) s
    | None => Oob
    end
  else Oob.

(** [n] bytes at an offset. *)
Definition rdbytes (n off : Z) : D (list Z) := λ s,
  if (0 <=? n) && (0 <=? off) && (off + n <=? Z.of_nat (length (img s)))
  then Done (take (Z.to_nat n) (drop (Z.to_nat off) (img s))) s else Oob.

Definition rdstr (off : Z) : D (list Z) := n ← strlen off; rdbytes n off.

Definition oob {A} : D A := λ _, Oob.

(** for (i = 0; i < n; i++) *)
Fixpoint for_ (n : nat) (i : Z) (body : Z -> D unit) : D unit :=
  match n with O => mret tt | S n => body i;; for_ n (i + 1) body end.

(** ** The structures *)

Definition DOF_MAG_STRING : list Z := [127; 68; 79; 70].
Definition DOF_ENCODE_NATIVE : Z := 1.
Definition sizeof_dof_hdr : Z := 64.
Definition dofh_ident (k : Z) : D Z := rd 1 k.
Definition dofh_version : D Z := dofh_ident 6.
Definition dofh_flags : D Z := rd 4 16.
Definition dofh_secsize : D Z := rd 4 24.
Definition dofh_secnum : D Z := rd 4 28.
Definition dofh_secoff : D Z := rd 8 32.
Definition dofh_loadsz : D Z := rd 8 40.

Definition sizeof_dof_sec : Z := 32.
Definition dofs_type (sec : Z) : D Z := rd 4 sec.
Definition dofs_align (sec : Z) : D Z := rd 4 (sec + 4).
Definition dofs_flags (sec : Z) : D Z := rd 4 (sec + 8).
Definition dofs_entsize (sec : Z) : D Z := rd 4 (sec + 12).
Definition dofs_offset (sec : Z) : D Z := rd 8 (sec + 16).
Definition dofs_size (sec : Z) : D Z := rd 8 (sec + 24).

Definition DOF_SECF_LOAD : Z := 1.
Definition DOF_SECT_NONE : Z := 0.
Definition DOF_SECT_STRTAB : Z := 8.
Definition DOF_SECT_RELTAB : Z := 10.
Definition DOF_SECT_URELHDR : Z := 12.
Definition DOF_SECT_PROVIDER : Z := 15.
Definition DOF_SECT_PROBES : Z := 16.
Definition DOF_SECT_PRARGS : Z := 17.
Definition DOF_SECT_PROFFS : Z := 18.
Definition DOF_SECT_PRENOFFS : Z := 26.
Definition DOF_SEC_ISLOADABLE (x : Z) : bool :=
  bool_decide (x ∈ [3; 4; 5; 6; 7; 8; 9; 10; 11; 12; 13; 14; 15; 16; 17; 18; 19; 21; 22; 23; 24; 25; 26]).
Definition DOF_RELO_NONE : Z := 0.
Definition DOF_RELO_SETX : Z := 1.

(** dof_relohdr_t and dof_relodesc_t *)
Definition sizeof_dof_relohdr : Z := 12.
Definition dofr_strtab (p : Z) : D Z := rd 4 p.
Definition dofr_relsec (p : Z) : D Z := rd 4 (p + 4).
Definition dofr_tgtsec (p : Z) : D Z := rd 4 (p + 8).
Definition sizeof_dof_relodesc : Z := 24.
Definition dofr_type (p : Z) : D Z := rd 4 (p + 4).
Definition dofr_offset (p : Z) : D Z := rd 8 (p + 8).

(** dof_provider_t; the member dofpv_prenoffs is at offset 40. *)
Definition sizeof_dof_provider : Z := 44.
Definition offsetof_prenoffs : Z := 40.
Definition dofpv_strtab (p : Z) : D Z := rd 4 p.
Definition dofpv_probes (p : Z) : D Z := rd 4 (p + 4).
Definition dofpv_prargs (p : Z) : D Z := rd 4 (p + 8).
Definition dofpv_proffs (p : Z) : D Z := rd 4 (p + 12).
Definition dofpv_name (p : Z) : D Z := rd 4 (p + 16).
Definition dofpv_prenoffs (p : Z) : D Z := rd 4 (p + 40).

(** dof_probe_t *)
Definition sizeof_dof_probe : Z := 48.
Definition dofpr_addr (p : Z) : D Z := rd 8 p.
Definition dofpr_func (p : Z) : D Z := rd 4 (p + 8).
Definition dofpr_name (p : Z) : D Z := rd 4 (p + 12).
Definition dofpr_nargv (p : Z) : D Z := rd 4 (p + 16).
Definition dofpr_xargv (p : Z) : D Z := rd 4 (p + 20).
Definition dofpr_argidx (p : Z) : D Z := rd 4 (p + 24).
Definition dofpr_offidx (p : Z) : D Z := rd 4 (p + 28).
Definition dofpr_nargc (p : Z) : D Z := rd 1 (p + 32).
Definition dofpr_xargc (p : Z) : D Z := rd 1 (p + 33).
Definition dofpr_noffs (p : Z) : D Z := rd 2 (p + 34).
Definition dofpr_enoffidx (p : Z) : D Z := rd 4 (p + 36).
Definition dofpr_nenoffs (p : Z) : D Z := rd 2 (p + 40).

Definition DTRACE_PROVNAMELEN : Z := 64.
Definition DTRACE_FUNCNAMELEN : Z := 128.
Definition DTRACE_NAMELEN : Z := 64.
Definition DTRACE_ARGTYPELEN : Z := 128.
Definition IS_ALIGNED (x a : Z) : bool := Z.land x (a - 1) =? 0.

(** ** Sections and relocations *)

(** The address of a section header. *)
Definition sec_addr (i : Z) : D Z := secoff ← dofh_secoff; secsize ← dofh_secsize; mret (secoff + u32 (i * secsize)).

(** for (i = 0; i < dof->dofh_secnum; i++): the bound is read each time. *)
Fixpoint for_sections (n : nat) (i : Z) (body : Z -> D unit) : D unit :=
  secnum ← dofh_secnum;
  if i >=? secnum then mret tt
  else match n with O => oob | S n => body i;; for_sections n (i + 1) body end.

(** [None] is NULL; the error was reported. *)
Definition dof_sect (sectype i : Z) : D (option Z) :=
  sec ← sec_addr i;
  secnum ← dofh_secnum;
  if i >=? secnum then usdt_error EINVAL;; mret None
  else
    flags ← dofs_flags sec;
    if Z.land flags DOF_SECF_LOAD =? 0 then usdt_error EINVAL;; mret None
    else
      type ← dofs_type sec;
      if negb (sectype =? DOF_SECT_NONE) && negb (sectype =? type) then usdt_error EINVAL;; mret None
      else mret (Some sec).

(** The body of the loop over the relocations: [r] is the relocation, [ts] the
    section it applies to. *)
Definition relocate_one (ts r ubase : Z) : D unit :=
  tsoff ← dofs_offset ts;
  roff ← dofr_offset r;
  let taddr := tsoff + roff in
  type ← dofr_type r;
  if type =? DOF_RELO_NONE then mret tt
  else if type =? DOF_RELO_SETX then
    tssize ← dofs_size ts;
    fail_if ((roff >=? tssize) || (u64 (roff + 8) >? tssize));;
    fail_if (negb (IS_ALIGNED taddr 8));;
    v ← rd 8 taddr;
    if v >? ubase then mret tt else wr 8 taddr (u64 (v + ubase))
  else fail.

Fixpoint relocate_loop (n : nat) (rs ts r ubase : Z) : D unit :=
  match n with
  | O => mret tt
  | S n => relocate_one ts r ubase;; entsize ← dofs_entsize rs; relocate_loop n rs ts (r + entsize) ubase
  end.

Definition dof_relocate (sec ubase : Z) : D unit :=
  dofr ← dofs_offset sec;
  size ← dofs_size sec;
  align ← dofs_align sec;
  fail_if ((size <? sizeof_dof_relohdr) || negb (align =? 4));;
  i ← dofr_strtab dofr; ss ← dof_sect DOF_SECT_STRTAB i;
  i ← dofr_relsec dofr; rs ← dof_sect DOF_SECT_RELTAB i;
  i ← dofr_tgtsec dofr; ts ← dof_sect DOF_SECT_NONE i;
  match ss, rs, ts with
  | Some _, Some rs, Some ts =>
      entsize ← dofs_entsize rs;
      align ← dofs_align rs;
      fail_if ((entsize <? sizeof_dof_relodesc) || negb (align =? 8));;
      r ← dofs_offset rs;
      size ← dofs_size rs;
      relocate_loop (Z.to_nat (u32 (size `div` entsize))) rs ts r ubase
  | _, _, _ => return_1
  end.

(** The checks of the identification bytes. *)
Definition check_ident : D unit :=
  mag ← rdbytes 4 0;
  fail_if (negb (bool_decide (mag = DOF_MAG_STRING)));;
  model ← dofh_ident 4;
  fail_if (negb (model =? 1) && negb (model =? 2));;
  enc ← dofh_ident 5;
  fail_if (negb (enc =? DOF_ENCODE_NATIVE));;
  version ← dofh_version;
  fail_if (negb (version =? 1) && negb (version =? 2) && negb (version =? 3));;
  difvers ← dofh_ident 7;
  fail_if (negb (difvers =? 2));;
  ireg ← dofh_ident 8;
  fail_if (ireg >? 8);;
  treg ← dofh_ident 9;
  fail_if (treg >? 8);;
  for_ 6 10 (λ i, b ← dofh_ident i; fail_if (negb (b =? 0))).

(** The first pass over the section headers. *)
Definition check_section (len i : Z) : D unit :=
  sec ← sec_addr i;
  type ← dofs_type sec;
  flags ← dofs_flags sec;
  let load := negb (Z.land flags DOF_SECF_LOAD =? 0) in
  fail_if (DOF_SEC_ISLOADABLE type && negb load);;
  if negb load then mret tt
  else
    align ← dofs_align sec;
    fail_if (negb (Z.land align (u32 (align - 1)) =? 0));;
    offset ← dofs_offset sec;
    fail_if (negb (Z.land offset (u32 (align - 1)) =? 0));;
    size ← dofs_size sec;
    fail_if ((offset >? len) || (size >? len) || (u64 (offset + size) >? len));;
    if type =? DOF_SECT_STRTAB then
      b ← rd 1 (offset + size - 1);
      fail_if (negb (b =? 0))
    else mret tt.

(** The second pass. *)
Definition relocate_section (ubase i : Z) : D unit :=
  sec ← sec_addr i;
  flags ← dofs_flags sec;
  if Z.land flags DOF_SECF_LOAD =? 0 then mret tt
  else
    type ← dofs_type sec;
    if type =? DOF_SECT_URELHDR then dof_relocate sec ubase else mret tt.

Definition dof_slurp (ubase : Z) : D unit :=
  len ← dofh_loadsz;
  fail_if (len <? sizeof_dof_hdr);;
  check_ident;;
  flags ← dofh_flags;
  fail_if (negb (flags =? 0));;
  secsize ← dofh_secsize;
  fail_if (secsize =? 0);;
  secnum ← dofh_secnum;
  secoff ← dofh_secoff;
  let seclen := u64 (secnum * secsize) in
  fail_if ((secoff >? len) || (seclen >? len) || (u64 (secoff + seclen) >? len));;
  fail_if (negb (IS_ALIGNED secoff 8));;
  fail_if (negb (IS_ALIGNED secsize 8));;
  for_sections (Z.to_nat secnum) 0 (check_section len);;
  for_sections (Z.to_nat secnum) 0 (relocate_section ubase).

(** ** Providers *)

(** The string at [str] is shorter than [max]; [idx] is its offset in a string
    table of [size] bytes. *)
Definition check_name (idx size str max : Z) : D unit :=
  fail_if (idx >=? size);;
  n ← strlen str;
  fail_if (n >=? max).

(** [count] type names from [typestr] on; [pre] is checked before each. *)
Fixpoint check_types (count : nat) (k : Z) (pre : Z -> D unit) (strsize typeidx typestr : Z) : D unit :=
  match count with
  | O => mret tt
  | S count =>
      pre k;;
      fail_if (typeidx >=? strsize);;
      n ← strlen typestr;
      let typesz := n + 1 in
      fail_if (typesz >? DTRACE_ARGTYPELEN);;
      check_types count (k + 1) pre strsize (u32 (typeidx + typesz)) (typestr + typesz)
  end.

(** [n] entries from [idx] on fit in [size] bytes of entries of [entsize]. *)
Definition check_entries (idx n entsize size : Z) : D unit :=
  fail_if ((u32 (idx + n) <? idx) || (u32 (u32 (idx + n) * entsize) >? size)).

Definition validate_probe_desc (version : Z) (str_sec arg_sec off_sec : Z) (enoff_sec : option Z) (strtab arg prb : Z) : D unit :=
  strsize ← dofs_size str_sec;
  func ← dofpr_func prb;
  check_name func strsize (strtab + func) DTRACE_FUNCNAMELEN;;
  name ← dofpr_name prb;
  check_name name strsize (strtab + name) DTRACE_NAMELEN;;
  offidx ← dofpr_offidx prb;
  noffs ← dofpr_noffs prb;
  offent ← dofs_entsize off_sec;
  offsize ← dofs_size off_sec;
  check_entries offidx noffs offent offsize;;
  (if negb (version =? 1) then
     enoffidx ← dofpr_enoffidx prb;
     nenoffs ← dofpr_nenoffs prb;
     match enoff_sec with
     | None => fail_if (negb (enoffidx =? 0) || negb (nenoffs =? 0))
     | Some enoff_sec =>
         enent ← dofs_entsize enoff_sec;
         ensize ← dofs_size enoff_sec;
         check_entries enoffidx nenoffs enent ensize
     end;;
     fail_if (noffs + nenoffs =? 0)
   else fail_if (noffs =? 0));;
  argidx ← dofpr_argidx prb;
  xargc ← dofpr_xargc prb;
  argent ← dofs_entsize arg_sec;
  argsize ← dofs_size arg_sec;
  check_entries argidx xargc argent argsize;;
  nargv ← dofpr_nargv prb;
  nargc ← dofpr_nargc prb;
  check_types (Z.to_nat nargc) 0 (λ _, mret tt) strsize nargv (strtab + nargv);;
  xargv ← dofpr_xargv prb;
  check_types (Z.to_nat xargc) 0 (λ k, b ← rd 1 (arg + u32 (argidx + k)); fail_if (b >? nargc)) strsize xargv (strtab + xargv).

Definition validate_provider (sec : Z) : D unit :=
  type ← dofs_type sec;
  fail_if (negb (type =? DOF_SECT_PROVIDER));;
  offset ← dofs_offset sec;
  fail_if (negb (Z.land offset 3 =? 0));;
  version ← dofh_version;
  size ← dofs_size sec;
  fail_if (size <? (if version =? 1 then offsetof_prenoffs else sizeof_dof_provider));;
  let prov := offset in
  i ← dofpv_strtab prov; str_sec ← dof_sect DOF_SECT_STRTAB i;
  i ← dofpv_probes prov; prb_sec ← dof_sect DOF_SECT_PROBES i;
  i ← dofpv_prargs prov; arg_sec ← dof_sect DOF_SECT_PRARGS i;
  i ← dofpv_proffs prov; off_sec ← dof_sect DOF_SECT_PROFFS i;
  match str_sec, prb_sec, arg_sec, off_sec with
  | Some str_sec, Some prb_sec, Some arg_sec, Some off_sec =>
      enoff_sec ←
        (if negb (version =? 1) then
           i ← dofpv_prenoffs prov;
           if negb (i =? DOF_SECT_NONE) then
             enoff_sec ← dof_sect DOF_SECT_PRENOFFS i;
             match enoff_sec with None => return_1 | Some e => mret (Some e) end
           else mret None
         else mret None);
      strtab ← dofs_offset str_sec;
      strsize ← dofs_size str_sec;
      name ← dofpv_name prov;
      check_name name strsize (strtab + name) DTRACE_PROVNAMELEN;;
      entsize ← dofs_entsize prb_sec;
      prbsize ← dofs_size prb_sec;
      fail_if ((entsize =? 0) || (entsize >? prbsize));;
      fail_if (negb (Z.land entsize 7 =? 0));;
      offent ← dofs_entsize off_sec;
      fail_if (negb (offent =? 4));;
      offoff ← dofs_offset off_sec;
      fail_if (negb (Z.land offoff 3 =? 0));;
      argent ← dofs_entsize arg_sec;
      fail_if (negb (argent =? 1));;
      arg ← dofs_offset arg_sec;
      for_ (Z.to_nat (u32 (prbsize `div` entsize))) 0 (λ j,
        prboff ← dofs_offset prb_sec;
        entsize ← dofs_entsize prb_sec;
        validate_probe_desc version str_sec arg_sec off_sec enoff_sec strtab arg (prboff + u32 (j * entsize)))
  | _, _, _, _ => return_1
  end.

(** ** Emission *)

Section Emit.
Context (qsort : forall A, (A -> A -> Z) -> list A -> list A).

Definition uint32_cmp (a b : Z) : Z := s32 (a - b).

(** An array of 32-bit numbers. *)
Fixpoint rdarray (n : nat) (off : Z) : D (list Z) :=
  match n with O => mret [] | S n => x ← rd 4 off; l ← rdarray n (off + 4); mret (x :: l) end.
Fixpoint wrarray (l : list Z) (off : Z) : D unit :=
  match l with [] => mret tt | x :: l => wr 4 off x;; wrarray l (off + 4) end.

(** qsort() of an array in the data. *)
Definition sort_array (n : nat) (off : Z) : D (list Z) :=
  l ← rdarray n off;
  let l := qsort Z uint32_cmp l in
  wrarray l off;; mret l.

(** The loop that looks for offsets that do not increase. *)
Fixpoint increasing (base : Z) (l : list Z) : bool :=
  match l with
  | x :: ((y :: _) as l) => negb (u64 (base + y) <=? u64 (base + x)) && increasing base l
  | _ => true
  end.

(** Both arrays are sorted in place; [false] after an error. *)
Definition validate_probe (base offs noffs enoffs nenoffs : Z) : D bool :=
  l ← sort_array (Z.to_nat noffs) offs;
  if negb (increasing base l) then usdt_error EINVAL;; mret false
  else
    l' ← sort_array (Z.to_nat nenoffs) enoffs;
    if negb (increasing base l') then usdt_error EINVAL;; mret false
    else if (noffs =? 0) && (nenoffs =? 0) then usdt_error EINVAL;; mret false
    else mret true.

Fixpoint strings_len (count : nat) (strtab : Z) : D Z :=
  match count with
  | O => mret 0
  | S count => n ← strlen strtab; len ← strings_len count (strtab + (n + 1)); mret (n + 1 + len)
  end.

(** Allocate a message, or report that there is no memory. *)
Definition with_memory (m : D unit) : D unit := ok ← dmalloc; if (ok : bool) then m else usdt_error ENOMEM.

(** The tracepoints of an array of offsets, as they are read from the data. *)
Fixpoint emit_tps (base : Z) (n : nat) (off is_enabled : Z) : D unit :=
  match n with
  | O => mret tt
  | S n => x ← rd 4 off; put (DIT_TRACEPOINT (u64 (base + x)) is_enabled);; emit_tps base n (off + 4) is_enabled
  end.

(** dtrace_helper_probedesc_t, without the provider's name *)
Record probedesc := ProbeDesc {
  dthpb_mod : list Z; dthpb_func : Z; dthpb_name : Z; dthpb_base : Z; dthpb_offs : Z; dthpb_enoffs : Z;
  dthpb_noffs : Z; dthpb_nenoffs : Z; dthpb_args : Z; dthpb_xargc : Z; dthpb_nargc : Z; dthpb_xtypes : Z; dthpb_ntypes : Z }.

Definition emit_probe (p : probedesc) : D unit :=
  v ← validate_probe (dthpb_base p) (dthpb_offs p) (dthpb_noffs p) (dthpb_enoffs p) (dthpb_nenoffs p);
  if negb v then mret tt else
      let tps := emit_tps (dthpb_base p) (Z.to_nat (dthpb_noffs p)) (dthpb_offs p) 0;;
                 emit_tps (dthpb_base p) (Z.to_nat (dthpb_nenoffs p)) (dthpb_enoffs p) 1 in
      func ← rdstr (dthpb_func p);
      name ← rdstr (dthpb_name p);
      with_memory
        (put (DIT_PROBE (dthpb_noffs p + dthpb_nenoffs p) (dthpb_nargc p) (dthpb_xargc p) (dthpb_mod p) func name);;
         if dthpb_nargc p >? 0 then
           n ← strings_len (Z.to_nat (dthpb_nargc p)) (dthpb_ntypes p);
           with_memory
             (b ← rdbytes n (dthpb_ntypes p);
              put (DIT_ARGS_NATIVE b);;
              if dthpb_xargc p >? 0 then
                n ← strings_len (Z.to_nat (dthpb_xargc p)) (dthpb_xtypes p);
                with_memory
                  (b ← rdbytes n (dthpb_xtypes p);
                   put (DIT_ARGS_XLAT b);;
                   with_memory
                     (b ← rdbytes (dthpb_xargc p) (dthpb_args p);
                      put (DIT_ARGS_MAP b);; tps))
              else tps)
         else tps).

Definition emit_provider (mod_ : list Z) (sec : Z) : D unit :=
  prov ← dofs_offset sec;
  i ← dofpv_strtab prov; str_sec ← sec_addr i;
  i ← dofpv_probes prov; prb_sec ← sec_addr i;
  i ← dofpv_prargs prov; arg_sec ← sec_addr i;
  i ← dofpv_proffs prov; off_sec ← sec_addr i;
  strtab ← dofs_offset str_sec;
  off ← dofs_offset off_sec;
  arg ← dofs_offset arg_sec;
  version ← dofh_version;
  enoff ←
    (if version >=? 3 then
       i ← dofpv_prenoffs prov;
       if negb (i =? DOF_SECT_NONE) then enoff_sec ← sec_addr i; e ← dofs_offset enoff_sec; mret (Some e) else mret None
     else mret None);
  nameidx ← dofpv_name prov;
  name ← rdstr (strtab + nameidx);
  with_memory
    (prbsize ← dofs_size prb_sec;
     entsize ← dofs_entsize prb_sec;
     put (DIT_PROVIDER (prbsize `div` entsize) name);;
     for_ (Z.to_nat (prbsize `div` entsize)) 0 (λ i,
       prboff ← dofs_offset prb_sec;
       entsize ← dofs_entsize prb_sec;
       let probe := prboff + u32 (i * entsize) in
       func ← dofpr_func probe;
       name ← dofpr_name probe;
       base ← dofpr_addr probe;
       offidx ← dofpr_offidx probe;
       noffs ← dofpr_noffs probe;
       en ← match enoff with
            | Some e => enoffidx ← dofpr_enoffidx probe; nenoffs ← dofpr_nenoffs probe; mret (e + 4 * enoffidx, nenoffs)
            | None => mret (0, 0)
            end;
       argidx ← dofpr_argidx probe;
       nargc ← dofpr_nargc probe;
       xargc ← dofpr_xargc probe;
       nargv ← dofpr_nargv probe;
       xargv ← dofpr_xargv probe;
       emit_probe (ProbeDesc mod_ (strtab + func) (strtab + name) base (off + 4 * offidx) (fst en) noffs (snd en)
                             (arg + argidx) xargc nargc (strtab + xargv) (strtab + nargv)))).

Definition usdt_parse_dof (mod_ : list Z) (ubase : Z) : D unit :=
  len ← dofh_loadsz;
  fail_if (len <? sizeof_dof_hdr);;
  dof_slurp ubase;;
  secnum ← dofh_secnum;
  for_sections (Z.to_nat secnum) 0 (λ i,
    sec ← sec_addr i;
    type ← dofs_type sec;
    if negb (type =? DOF_SECT_PROVIDER) then mret tt
    else validate_provider sec;; emit_provider mod_ sec).
End Emit.
