(* ===== verification/DofSafe.v ===== *)
(** * The DOF parser stays within the data (libcommon/usdt_parser_dof.c)

    The proof that usdt_parse_dof() never accesses a byte outside the data it is
    given, for data whose layout is sane ([tidy], [offsets_ok]): a weakest
    precondition for the monad of Dof.v, the parts of the data that stay as they
    are while the parser writes, and the facts that each check establishes for the
    code behind it.  The conditions are what the parser relies on without checking
    it: for each one an example shows the access that happens when it fails. *)

From stdpp Require Import base list numbers option sorting sets.
From S2P Require Import Prelude Dof.

(** ** Reasoning about the monad *)

(** [m] does not go out of bounds, and [Q] holds of what it returns. *)
Definition wp {A} (m : D A) (Q : A -> dst -> Prop) (s : dst) : Prop :=
  match m s with Oob => False | Fail _ => True | Done a s' => Q a s' end.

Section Rules.
Context {A B : Type}.
Implicit Types (s : dst) (Q : A -> dst -> Prop).

Lemma wp_bind (m : D A) (f : A -> D B) (Q : B -> dst -> Prop) s : wp m (λ a, wp (f a) Q) s -> wp (m ≫= f) Q s.
Proof. unfold wp, mbind, D_bind. by destruct (m s). Qed.
Lemma wp_ret (a : A) Q s : Q a s -> wp (mret a) Q s.
Proof. done. Qed.
Lemma wp_mono (m : D A) Q Q' s : wp m Q s -> (forall a s', Q a s' -> Q' a s') -> wp m Q' s.
Proof. unfold wp. destruct (m s); naive_solver. Qed.
Lemma wp_fail Q s : wp (fail (A:=A)) Q s.
Proof. done. Qed.
Lemma wp_return_1 Q s : wp (return_1 (A:=A)) Q s.
Proof. done. Qed.
End Rules.

Lemma wp_seq {A} (m : D unit) (k : D A) (Q : A -> dst -> Prop) s : wp m (λ _, wp k Q) s -> wp (m;; k) Q s.
Proof. apply wp_bind. Qed.

Lemma wp_fail_if b (Q : unit -> dst -> Prop) s : (b = false -> Q tt s) -> wp (fail_if b) Q s.
Proof. destruct b; [done|]. intros H. by apply H. Qed.

Lemma wp_rd n off (Q : Z -> dst -> Prop) s :
  0 <= off -> off + Z.of_nat n <= Z.of_nat (length (img s)) -> Q (load n (Z.to_nat off) (img s)) s -> wp (rd n off) Q s.
Proof. intros H1 H2 HQ. unfold wp, rd. rewrite (proj2 (Z.leb_le _ _) H1), (proj2 (Z.leb_le _ _) H2). exact HQ. Qed.

Lemma wp_wr n off v (Q : unit -> dst -> Prop) s :
  0 <= off -> off + Z.of_nat n <= Z.of_nat (length (img s)) ->
  Q tt (Dst (store (le_bytes n v) (Z.to_nat off) (img s)) (out s) (mem s)) -> wp (wr n off v) Q s.
Proof. intros H1 H2 HQ. unfold wp, wr. rewrite (proj2 (Z.leb_le _ _) H1), (proj2 (Z.leb_le _ _) H2). exact HQ. Qed.

Lemma wp_put x (Q : unit -> dst -> Prop) s : (forall s', img s' = img s -> Q tt s') -> wp (put x) Q s.
Proof. intros H. by apply H. Qed.

Lemma wp_rdbytes n off (Q : list Z -> dst -> Prop) s :
  0 <= n -> 0 <= off -> off + n <= Z.of_nat (length (img s)) ->
  Q (take (Z.to_nat n) (drop (Z.to_nat off) (img s))) s -> wp (rdbytes n off) Q s.
Proof.
  intros H1 H2 H3 HQ. unfold wp, rdbytes.
  by rewrite (proj2 (Z.leb_le _ _) H1), (proj2 (Z.leb_le _ _) H2), (proj2 (Z.leb_le _ _) H3).
Qed.

Lemma wp_with_memory (m : D unit) (Q : unit -> dst -> Prop) s :
  (forall s', img s' = img s -> wp m Q s') -> (forall s', img s' = img s -> Q tt s') -> wp (with_memory m) Q s.
Proof.
  intros Hm HQ. unfold with_memory. apply wp_bind. unfold wp at 1, dmalloc. destruct (malloc (mem s)) as [[] m'].
  - by apply Hm.
  - apply wp_put. intros s' Es. by apply HQ.
Qed.

(** Loops, with an invariant of the counter. *)
Lemma wp_for (I : Z -> dst -> Prop) body n i s :
  I i s -> (forall j t, i <= j < i + Z.of_nat n -> I j t -> wp (body j) (λ _, I (j + 1)) t) ->
  wp (for_ n i body) (λ _, I (i + Z.of_nat n)) s.
Proof.
  revert i s. induction n as [|n IH]; intros i s Hi Hb.
  - replace (i + Z.of_nat 0) with i by lia. exact Hi.
  - cbn [for_]. apply wp_seq. eapply wp_mono; [apply Hb; [lia|done]|]. intros [] t Ht. cbn beta.
    replace (i + Z.of_nat (S n)) with (i + 1 + Z.of_nat n) by lia.
    apply IH; [done|]. intros j t' Hj. apply Hb. lia.
Qed.

(** A tactic for the next step of a program. *)
Ltac wp1 :=
  lazymatch goal with
  | |- wp (mbind _ (fail_if _)) _ _ => apply wp_bind, wp_fail_if; let H := fresh "C" in intros H
  | |- wp (fail_if _) _ _ => apply wp_fail_if; let H := fresh "C" in intros H
  | |- wp fail _ _ => apply wp_fail
  | |- wp return_1 _ _ => apply wp_return_1
  | |- wp (mret _) _ _ => apply wp_ret
  | |- wp (mbind _ _) _ _ => apply wp_bind
  end.

(** Checks that did not fail, as propositions. *)
Ltac checks :=
  repeat match goal with
  | H : (_ || _) = false |- _ => apply orb_false_iff in H; destruct H
  | H : (_ && _) = false |- _ => apply andb_false_iff in H
  | H : (_ >? _) = false |- _ => rewrite Z.gtb_ltb in H
  | H : (_ >? _) = true |- _ => rewrite Z.gtb_ltb in H
  | H : (_ >=? _) = false |- _ => rewrite Z.geb_leb in H
  | H : (_ >=? _) = true |- _ => rewrite Z.geb_leb in H
  end; b2p.

(** ** Memory *)

Abbreviation ld n off l := (load n (Z.to_nat off) l) (only parsing).

(** The byte at an offset. *)
Definition byte_at (l : list Z) (a : Z) : Z := l !!! Z.to_nat a.

(** The images agree on the bytes that satisfy [P]. *)
Definition agree (P : Z -> Prop) (l l' : list Z) : Prop :=
  length l = length l' /\ forall a, 0 <= a -> P a -> l !! Z.to_nat a = l' !! Z.to_nat a.

#[export] Instance agree_equivalence P : Equivalence (agree P).
Proof.
  split.
  - done.
  - intros l l' [E H]. split; [done|]. intros a Ha HP. by rewrite H.
  - intros l l' l'' [E H] [E' H']. split; [congruence|]. intros a Ha HP. by rewrite H, H'.
Qed.

Lemma agree_mono (P Q : Z -> Prop) l l' : agree P l l' -> (forall a, Q a -> P a) -> agree Q l l'.
Proof. intros [E H] HQ. split; [done|]. intros a Ha HP. auto. Qed.

Lemma take_drop_agree n i (l l' : list Z) :
  (forall k, (i <= k < i + n)%nat -> l !! k = l' !! k) -> take n (drop i l) = take n (drop i l').
Proof.
  intros H. apply list_eq. intros k. destruct (decide (k < n)%nat) as [Hk|Hk].
  - rewrite !lookup_take_lt, !lookup_drop by lia. apply H. lia.
  - by rewrite !lookup_take_ge by lia.
Qed.

Lemma agree_bytes P l l' n off : agree P l l' -> 0 <= off -> (forall a, off <= a < off + Z.of_nat n -> P a) ->
  take n (drop (Z.to_nat off) l) = take n (drop (Z.to_nat off) l').
Proof.
  intros [_ H] Ho HP. apply take_drop_agree. intros k Hk. rewrite <- (Nat2Z.id k). apply H; [lia|]. apply HP. lia.
Qed.

Lemma agree_load P l l' n off : agree P l l' -> 0 <= off -> (forall a, off <= a < off + Z.of_nat n -> P a) ->
  ld n off l = ld n off l'.
Proof. intros H Ho HP. unfold load. f_equal. by eapply agree_bytes. Qed.

Lemma le_bytes_byte n v : Forall is_byte (le_bytes n v).
Proof.
  revert v. induction n as [|n IH]; intros v; simpl; constructor; [|done]. unfold is_byte. apply Z.mod_pos_bound. lia.
Qed.

Lemma lookup_le_bytes n v k : (k < n)%nat -> le_bytes n v !! k = Some ((v `div` 256 ^ Z.of_nat k) `mod` 256).
Proof.
  revert v k. induction n as [|n IH]; intros v [|k] Hk; try lia; cbn [le_bytes lookup list_lookup].
  - by rewrite Z.div_1_r.
  - rewrite IH by lia. rewrite Z.div_div by lia. do 3 f_equal. rewrite Nat2Z.inj_succ, Z.pow_succ_r by lia. lia.
Qed.

Lemma length_store bs off l : (off + length bs <= length l)%nat -> length (store bs off l) = length l.
Proof. intros H. unfold store. rewrite !length_app, length_take, length_drop. lia. Qed.

Lemma store_byte bs off l : Forall is_byte bs -> Forall is_byte l -> Forall is_byte (store bs off l).
Proof. intros Hb Hl. unfold store. apply Forall_app_2; [by apply Forall_take|]. apply Forall_app_2; [done|by apply Forall_drop]. Qed.

Lemma lookup_store_ne bs off l k :
  (off + length bs <= length l)%nat -> (k < off \/ off + length bs <= k)%nat -> store bs off l !! k = l !! k.
Proof.
  intros H Hk. unfold store. destruct Hk as [Hk|Hk].
  - rewrite lookup_app_l by (rewrite length_take; lia). apply lookup_take_lt. lia.
  - rewrite lookup_app_r, length_take by (rewrite length_take; lia). rewrite lookup_app_r by lia. rewrite lookup_drop.
    f_equal. lia.
Qed.

Lemma lookup_store_eq bs off l k :
  (off + length bs <= length l)%nat -> (off <= k < off + length bs)%nat -> store bs off l !! k = bs !! (k - off)%nat.
Proof.
  intros H Hk. unfold store. rewrite lookup_app_r, length_take by (rewrite length_take; lia).
  rewrite lookup_app_l by lia. f_equal. lia.
Qed.

(** A store outside [P]. *)
Lemma agree_store P l bs off :
  0 <= off -> off + Z.of_nat (length bs) <= Z.of_nat (length l) ->
  (forall a, off <= a < off + Z.of_nat (length bs) -> ~ P a) -> agree P (store bs (Z.to_nat off) l) l.
Proof.
  intros Ho Hl HP. split; [apply length_store; lia|]. intros a Ha Hpa. apply lookup_store_ne; [lia|].
  destruct (decide (a < off)); [lia|]. destruct (decide (off + Z.of_nat (length bs) <= a)); [lia|].
  exfalso. apply (HP a); [lia|done].
Qed.

(** ** Strings *)

(** The length of the string at an offset. *)
Definition slen (l : list Z) (off : Z) : Z :=
  match list_find (λ b, b = 0) (drop (Z.to_nat off) l) with Some (n, _) => Z.of_nat n | None => 0 end.

Lemma find_nul (l : list Z) off e : 0 <= off <= e -> l !! Z.to_nat e = Some 0 ->
  exists n, list_find (λ b, b = 0) (drop (Z.to_nat off) l) = Some (n, 0) /\ off + Z.of_nat n <= e /\
    l !! Z.to_nat (off + Z.of_nat n) = Some 0 /\ forall k, (k < n)%nat -> l !! (Z.to_nat off + k)%nat <> Some 0.
Proof.
  intros Ho He.
  destruct (list_find (λ b, b = 0) (drop (Z.to_nat off) l)) as [[n b]|] eqn:E.
  - apply list_find_Some in E as (Hn & -> & Hk). exists n. rewrite lookup_drop in Hn. split; [done|].
    assert (forall k, (k < n)%nat -> l !! (Z.to_nat off + k)%nat <> Some 0) as Hk'.
    { intros k Hlt E. by apply (Hk k 0); [rewrite lookup_drop|..]. }
    split; [|split; [by replace (Z.to_nat (off + Z.of_nat n)) with (Z.to_nat off + n)%nat by lia|done]].
    apply Z.nlt_ge. intros Hlt. apply (Hk' (Z.to_nat (e - off))); [lia|].
    by replace (Z.to_nat off + Z.to_nat (e - off))%nat with (Z.to_nat e) by lia.
  - apply list_find_None in E. rewrite Forall_lookup in E. exfalso. apply (E (Z.to_nat (e - off)) 0); [|done].
    rewrite lookup_drop. by replace (Z.to_nat off + Z.to_nat (e - off))%nat with (Z.to_nat e) by lia.
Qed.

Lemma slen_bound l off e : 0 <= off <= e -> l !! Z.to_nat e = Some 0 -> 0 <= slen l off /\ off + slen l off <= e.
Proof. intros Ho He. unfold slen. destruct (find_nul l off e Ho He) as (n & -> & ? & _). lia. Qed.

Lemma wp_strlen off e (Q : Z -> dst -> Prop) s :
  0 <= off <= e -> img s !! Z.to_nat e = Some 0 -> Q (slen (img s) off) s -> wp (strlen off) Q s.
Proof.
  intros Ho He HQ. unfold wp, strlen. rewrite (proj2 (Z.leb_le 0 off)) by lia.
  unfold slen in HQ. by destruct (find_nul (img s) off e Ho He) as (n & E & _); rewrite E in *.
Qed.

Lemma slen_agree P l l' off e : agree P l l' -> 0 <= off <= e -> l' !! Z.to_nat e = Some 0 ->
  (forall a, off <= a <= e -> P a) -> slen l off = slen l' off.
Proof.
  intros [_ H] Ho He HP.
  assert (l !! Z.to_nat e = Some 0) as He' by (rewrite H; [done|lia|apply HP; lia]).
  destruct (find_nul l off e Ho He') as (n & E & Hb & Hz & Hn), (find_nul l' off e Ho He) as (n' & E' & Hb' & Hz' & Hn').
  unfold slen. rewrite E, E'. f_equal.
  assert (forall k, (k <= Z.to_nat (e - off))%nat -> l !! (Z.to_nat off + k)%nat = l' !! (Z.to_nat off + k)%nat) as Hk.
  { intros k Hk. replace (Z.to_nat off + k)%nat with (Z.to_nat (off + Z.of_nat k)) by lia. apply H; [lia|]. apply HP. lia. }
  replace (Z.to_nat (off + Z.of_nat n)) with (Z.to_nat off + n)%nat in Hz by lia.
  replace (Z.to_nat (off + Z.of_nat n')) with (Z.to_nat off + n')%nat in Hz' by lia.
  destruct (lt_eq_lt_dec n n') as [[Hlt|]|Hlt]; [|done|].
  - destruct (Hn' n Hlt). rewrite <- Hk by lia. done.
  - destruct (Hn n' Hlt). rewrite Hk by lia. done.
Qed.

(** [count] strings one after the other, each beginning at or before [e]. *)
Fixpoint strings_in (l : list Z) (e : Z) (count : nat) (off : Z) : Prop :=
  match count with
  | O => True
  | S count => 0 <= off <= e /\ strings_in l e count (off + (slen l off + 1))
  end.

Lemma wp_rdstr off e (Q : list Z -> dst -> Prop) s :
  0 <= off <= e -> img s !! Z.to_nat e = Some 0 -> (forall b, Q b s) -> wp (rdstr off) Q s.
Proof.
  intros Ho He HQ. unfold rdstr. apply wp_bind, (wp_strlen off e); [done..|].
  destruct (slen_bound _ _ _ Ho He). apply lookup_lt_Some in He. apply wp_rdbytes; [lia..|auto].
Qed.

Lemma wp_strings_len e count off (Q : Z -> dst -> Prop) s :
  strings_in (img s) e count off -> img s !! Z.to_nat e = Some 0 ->
  (forall n, 0 <= n -> (0 < count)%nat -> off + n <= e + 1 -> Q n s) -> (count = O -> Q 0 s) -> wp (strings_len count off) Q s.
Proof.
  intros Hs He. revert off Q Hs. induction count as [|count IH]; intros off Q Hs HQ H0; [by apply H0|].
  destruct Hs as [Ho Hs]. cbn [strings_len]. apply wp_bind, (wp_strlen off e); [done..|].
  destruct (slen_bound _ _ _ Ho He). apply wp_bind, IH; [done|intros n Hn Hc Hb|intros Hc]; apply wp_ret, HQ; lia.
Qed.

(** ** The layout of the data *)

Definition loadsz (l : list Z) : Z := ld 8 40 l.
Definition secsize (l : list Z) : Z := ld 4 24 l.
Definition secnum (l : list Z) : Z := ld 4 28 l.
Definition secoff (l : list Z) : Z := ld 8 32 l.
Definition version (l : list Z) : Z := ld 1 6 l.

(** The members of section header [i]. *)
Definition sh (l : list Z) (i : Z) : Z := secoff l + i * secsize l.
Definition s_type (l : list Z) (i : Z) : Z := ld 4 (sh l i) l.
Definition s_align (l : list Z) (i : Z) : Z := ld 4 (sh l i + 4) l.
Definition s_flags (l : list Z) (i : Z) : Z := ld 4 (sh l i + 8) l.
Definition s_entsize (l : list Z) (i : Z) : Z := ld 4 (sh l i + 12) l.
Definition s_off (l : list Z) (i : Z) : Z := ld 8 (sh l i + 16) l.
Definition s_size (l : list Z) (i : Z) : Z := ld 8 (sh l i + 24) l.
Definition loaded (l : list Z) (i : Z) : Prop := Z.land (s_flags l i) DOF_SECF_LOAD <> 0.
Definition sections (l : list Z) : list Z := filter (loaded l) (seqZ 0 (secnum l)).

(** The bytes of a section; those of the header and the section headers. *)
Definition in_sec (l : list Z) (i a : Z) : Prop := s_off l i <= a < s_off l i + s_size l i.
Definition fixed (l : list Z) (a : Z) : Prop := 0 <= a < sizeof_dof_hdr \/ secoff l <= a < secoff l + secnum l * secsize l.

(** The ranges [[a, a + n)] and [[b, b + m)] have no byte in common. *)
Definition apart (a n b m : Z) : Prop := n <= 0 \/ m <= 0 \/ a + n <= b \/ b + m <= a.

(** What the parser relies on and does not check. *)
Record tidy (l : list Z) : Prop := {
  tidy_bytes : Forall is_byte l;
  (** The data is as long as its header says, and of a sane size. *)
  tidy_size : sizeof_dof_hdr <= Z.of_nat (length l) < 2 ^ 28;
  tidy_loadsz : loadsz l <= Z.of_nat (length l);
  (** Section headers and entries have at least their structure's size. *)
  tidy_secsize : sizeof_dof_sec <= secsize l;
  tidy_probes : Forall (λ i, s_type l i = DOF_SECT_PROBES -> sizeof_dof_probe <= s_entsize l i) (sections l);
  tidy_prenoffs : Forall (λ i, s_type l i = DOF_SECT_PRENOFFS -> s_entsize l i = 4) (sections l);
  tidy_strtab : Forall (λ i, s_type l i = DOF_SECT_STRTAB -> 0 < s_size l i) (sections l);
  (** The sections overlap neither the headers nor each other. *)
  tidy_hdr : Forall (λ i, apart 0 sizeof_dof_hdr (s_off l i) (s_size l i)) (sections l);
  tidy_table : Forall (λ i, apart (secoff l) (secnum l * secsize l) (s_off l i) (s_size l i)) (sections l);
  tidy_apart : Forall (λ i, Forall (λ j, i <> j -> apart (s_off l i) (s_size l i) (s_off l j) (s_size l j)) (sections l)) (sections l);
}.

#[export] Instance apart_dec a n b m : Decision (apart a n b m).
Proof. unfold apart. apply _. Defined.
#[export] Instance is_byte_dec b : Decision (is_byte b).
Proof. unfold is_byte. apply _. Defined.
#[export] Instance loaded_dec l i : Decision (loaded l i).
Proof. unfold loaded. apply _. Defined.

Lemma elem_sections l i : i ∈ sections l <-> loaded l i /\ 0 <= i < secnum l.
Proof. unfold sections. rewrite list_elem_of_filter, elem_of_seqZ. intuition lia. Qed.

Section Tidy.
Context (l : list Z) (T : tidy l).

Lemma tidy_get (P : Z -> Prop) i : Forall P (sections l) -> 0 <= i < secnum l -> loaded l i -> P i.
Proof. intros H Hi Hl. rewrite Forall_forall in H. apply H. by apply elem_sections. Qed.

Lemma tidy_not_fixed i a : 0 <= i < secnum l -> loaded l i -> in_sec l i a -> ~ fixed l a.
Proof.
  intros Hi Hl Ha Hf. pose proof (tidy_get _ i (tidy_hdr l T) Hi Hl). pose proof (tidy_get _ i (tidy_table l T) Hi Hl).
  unfold apart, fixed, in_sec in *. lia.
Qed.

Lemma tidy_same i j a :
  0 <= i < secnum l -> loaded l i -> in_sec l i a -> 0 <= j < secnum l -> loaded l j -> in_sec l j a -> i = j.
Proof.
  intros Hi Li Ai Hj Lj Aj. pose proof (tidy_get _ j (tidy_get _ i (tidy_apart l T) Hi Li) Hj Lj) as H. cbn beta in H.
  unfold apart, in_sec in *. destruct (decide (i = j)); [done|]. lia.
Qed.

Lemma ld_range n off : 0 <= ld n off l < 256 ^ Z.of_nat n.
Proof. apply load_range, tidy_bytes, T. Qed.
End Tidy.

(** ** Reading the headers *)

(** The section headers are within the data. *)
Definition table_ok (l : list Z) : Prop := secoff l + secnum l * secsize l <= loadsz l.

(** The image [l] of a run that began with [l0]. *)
Record runs (l0 l : list Z) : Prop := {
  runs_bytes : Forall is_byte l;
  runs_fixed : agree (fixed l0) l l0;
}.

Section Headers.
Context (l0 : list Z) (T : tidy l0).

Lemma runs_refl : runs l0 l0.
Proof. split; [apply T|done]. Qed.

Lemma runs_length l : runs l0 l -> length l = length l0.
Proof. by intros [_ [E _]]. Qed.

Lemma wp_hdr n off (Q : Z -> dst -> Prop) s :
  runs l0 (img s) -> 0 <= off -> off + Z.of_nat n <= 64 -> Q (ld n off l0) s -> wp (rd n off) Q s.
Proof.
  intros R Ho Hn HQ. pose proof (tidy_size l0 T) as Hs. rewrite <- (runs_length _ R) in Hs. unfold sizeof_dof_hdr in Hs.
  apply wp_rd; [done|lia|]. rewrite (agree_load (fixed l0) _ l0); [done|apply R|done|].
  intros a Ha. left. unfold sizeof_dof_hdr. lia.
Qed.

Lemma wp_sec_addr_any i (Q : Z -> dst -> Prop) s :
  runs l0 (img s) -> Q (secoff l0 + u32 (i * secsize l0)) s -> wp (sec_addr i) Q s.
Proof.
  intros R HQ. unfold sec_addr, dofh_secoff, dofh_secsize. wp1. apply wp_hdr; [done|lia..|]. wp1. by apply wp_hdr; [done|lia..|].
Qed.

Context (Tab : table_ok l0).

Lemma sec_small i : 0 <= i < secnum l0 -> 0 <= i * secsize l0 /\ (i + 1) * secsize l0 <= secnum l0 * secsize l0 < 2 ^ 28.
Proof.
  intros Hi. pose proof (tidy_secsize l0 T) as H1. pose proof (tidy_loadsz l0 T). pose proof (tidy_size l0 T).
  pose proof (ld_range l0 T 8 32) as H4. fold (secoff l0) in H4. unfold table_ok, sizeof_dof_sec in *.
  repeat split; [nia|nia|lia].
Qed.

Lemma u32_sec i : 0 <= i < secnum l0 -> u32 (i * secsize l0) = i * secsize l0.
Proof. intros Hi. apply wrapu_small. pose proof (sec_small i Hi). pose proof (tidy_secsize l0 T). unfold sizeof_dof_sec in *. nia. Qed.

Lemma wp_sec_addr i (Q : Z -> dst -> Prop) s :
  runs l0 (img s) -> 0 <= i < secnum l0 -> Q (sh l0 i) s -> wp (sec_addr i) Q s.
Proof. intros R Hi HQ. apply wp_sec_addr_any; [done|]. by rewrite u32_sec. Qed.

Lemma wp_sec n k i (Q : Z -> dst -> Prop) s :
  runs l0 (img s) -> 0 <= i < secnum l0 -> 0 <= k -> k + Z.of_nat n <= 32 ->
  Q (ld n (sh l0 i + k) l0) s -> wp (rd n (sh l0 i + k)) Q s.
Proof.
  intros R Hi Hk Hn HQ. pose proof (sec_small i Hi). pose proof (tidy_secsize l0 T). pose proof (tidy_loadsz l0 T).
  pose proof (ld_range l0 T 8 32) as H4. fold (secoff l0) in H4. unfold table_ok, sizeof_dof_sec in *.
  assert (sh l0 i + 32 <= secoff l0 + secnum l0 * secsize l0) by (unfold sh; nia).
  assert (secoff l0 <= sh l0 i) by (unfold sh; lia).
  apply wp_rd; [lia|rewrite (runs_length _ R); lia|].
  rewrite (agree_load (fixed l0) _ l0); [done|apply R|lia|]. intros a Ha. right. lia.
Qed.

Lemma wp_type i (Q : Z -> dst -> Prop) s :
  runs l0 (img s) -> 0 <= i < secnum l0 -> Q (s_type l0 i) s -> wp (dofs_type (sh l0 i)) Q s.
Proof.
  intros R Hi HQ. unfold dofs_type. replace (sh l0 i) with (sh l0 i + 0) by lia. apply wp_sec; [done..|lia|].
  by rewrite Z.add_0_r.
Qed.
Lemma wp_align i (Q : Z -> dst -> Prop) s :
  runs l0 (img s) -> 0 <= i < secnum l0 -> Q (s_align l0 i) s -> wp (dofs_align (sh l0 i)) Q s.
Proof. intros. by apply wp_sec. Qed.
Lemma wp_flags i (Q : Z -> dst -> Prop) s :
  runs l0 (img s) -> 0 <= i < secnum l0 -> Q (s_flags l0 i) s -> wp (dofs_flags (sh l0 i)) Q s.
Proof. intros. by apply wp_sec. Qed.
Lemma wp_entsize i (Q : Z -> dst -> Prop) s :
  runs l0 (img s) -> 0 <= i < secnum l0 -> Q (s_entsize l0 i) s -> wp (dofs_entsize (sh l0 i)) Q s.
Proof. intros. by apply wp_sec. Qed.
Lemma wp_offset i (Q : Z -> dst -> Prop) s :
  runs l0 (img s) -> 0 <= i < secnum l0 -> Q (s_off l0 i) s -> wp (dofs_offset (sh l0 i)) Q s.
Proof. intros. by apply wp_sec. Qed.
Lemma wp_size i (Q : Z -> dst -> Prop) s :
  runs l0 (img s) -> 0 <= i < secnum l0 -> Q (s_size l0 i) s -> wp (dofs_size (sh l0 i)) Q s.
Proof. intros. by apply wp_sec. Qed.

(** The loop over the sections, with an invariant. *)
Lemma wp_for_sections (I : Z -> dst -> Prop) body s :
  I 0 s -> (forall i t, I i t -> runs l0 (img t)) ->
  (forall i t, 0 <= i < secnum l0 -> I i t -> wp (body i) (λ _, I (i + 1)) t) ->
  wp (for_sections (Z.to_nat (secnum l0)) 0 body) (λ _, I (secnum l0)) s.
Proof.
  intros H0 HR Hb. pose proof (ld_range l0 T 4 28) as Hn. fold (secnum l0) in Hn.
  cut (forall n i s, 0 <= i -> i + Z.of_nat n = secnum l0 -> I i s -> wp (for_sections n i body) (λ _, I (secnum l0)) s).
  { intros H. apply H; [lia..|done]. }
  clear s H0. induction n as [|n IH]; intros i s Hi He HI; cbn [for_sections]; wp1;
    (apply wp_hdr; [by eapply HR|lia..|]; fold (secnum l0)).
  - rewrite (proj2 (Z.geb_le _ _)) by lia. apply wp_ret. by replace (secnum l0) with i by lia.
  - destruct (Z.geb_spec i (secnum l0)); [lia|]. apply wp_seq. eapply wp_mono; [apply Hb; [lia|done]|].
    intros [] t Ht. apply IH; [lia..|done].
Qed.

(** What a pointer that dof_sect() returns is. *)
Definition sect_ok (sectype i : Z) (r : option Z) : Prop :=
  match r with
  | None => True
  | Some p => p = sh l0 i /\ 0 <= i < secnum l0 /\ loaded l0 i /\ (sectype = DOF_SECT_NONE \/ s_type l0 i = sectype)
  end.

Lemma sect_ok_some sectype i p : sect_ok sectype i (Some p) -> exists k, p = sh l0 k /\ 0 <= k < secnum l0 /\ loaded l0 k.
Proof. intros (-> & Hi & Hl & _). by exists i. Qed.

Lemma wp_dof_sect sectype i (Q : option Z -> dst -> Prop) s :
  runs l0 (img s) -> 0 <= i -> (forall r s', img s' = img s -> sect_ok sectype i r -> Q r s') -> wp (dof_sect sectype i) Q s.
Proof.
  intros R Hi HQ. unfold dof_sect. wp1. apply wp_sec_addr_any; [done|]. wp1. apply wp_hdr; [done|lia..|]. fold (secnum l0).
  assert (wp (usdt_error EINVAL;; mret None) Q s) as Herr by (apply wp_seq, wp_put; intros s' E; by apply HQ).
  destruct (Z.geb_spec i (secnum l0)) as [|Hlt]; [done|]. rewrite u32_sec by lia. fold (sh l0 i).
  wp1. apply wp_flags; [done|lia|]. destruct (Z.eqb_spec (Z.land (s_flags l0 i) DOF_SECF_LOAD) 0) as [|Hld]; [done|].
  wp1. apply wp_type; [done|lia|].
  destruct (Z.eqb_spec sectype DOF_SECT_NONE); [|destruct (Z.eqb_spec sectype (s_type l0 i))]; cbn [negb andb]; [..|done];
    (apply wp_ret, HQ; [done|]); split_and!; auto with lia.
Qed.
End Headers.

(** Reads a member of a header that stays as it is. *)
Ltac hdr l0 T Tab :=
  lazymatch goal with
  | |- wp (sec_addr _) _ _ => apply (wp_sec_addr l0 T Tab); [done|first [done|lia]|]
  | |- wp (dofs_type _) _ _ => apply (wp_type l0 T Tab); [done|first [done|lia]|]
  | |- wp (dofs_align _) _ _ => apply (wp_align l0 T Tab); [done|first [done|lia]|]
  | |- wp (dofs_flags _) _ _ => apply (wp_flags l0 T Tab); [done|first [done|lia]|]
  | |- wp (dofs_entsize _) _ _ => apply (wp_entsize l0 T Tab); [done|first [done|lia]|]
  | |- wp (dofs_offset _) _ _ => apply (wp_offset l0 T Tab); [done|first [done|lia]|]
  | |- wp (dofs_size _) _ _ => apply (wp_size l0 T Tab); [done|first [done|lia]|]
  | |- wp dofh_loadsz _ _ => apply (wp_hdr l0 T); [done|lia|lia|]; fold (loadsz l0)
  | |- wp dofh_secnum _ _ => apply (wp_hdr l0 T); [done|lia|lia|]; fold (secnum l0)
  | |- wp dofh_secsize _ _ => apply (wp_hdr l0 T); [done|lia|lia|]; fold (secsize l0)
  | |- wp dofh_secoff _ _ => apply (wp_hdr l0 T); [done|lia|lia|]; fold (secoff l0)
  | |- wp dofh_version _ _ => apply (wp_hdr l0 T); [done|lia|lia|]; fold (version l0)
  | |- wp (mbind _ _) _ _ => apply wp_bind; hdr l0 T Tab
  end.

(** ** The first pass *)

(** The last byte of a section. *)
Definition s_last (l : list Z) (i : Z) : Z := s_off l i + s_size l i - 1.

(** What the first pass checks of a section. *)
Record checked (l : list Z) (i : Z) : Prop := {
  ck_load : DOF_SEC_ISLOADABLE (s_type l i) = true -> loaded l i;
  ck_in : loaded l i -> s_off l i + s_size l i <= loadsz l;
  ck_str : loaded l i -> s_type l i = DOF_SECT_STRTAB -> l !! Z.to_nat (s_last l i) = Some 0;
}.

Lemma load1 (l : list Z) a v : ld 1 a l = v -> 0 <= a < Z.of_nat (length l) -> l !! Z.to_nat a = Some v.
Proof.
  intros E Ha. destruct (lookup_lt_is_Some_2 l (Z.to_nat a)) as [b Hb]; [lia|]. rewrite Hb. f_equal. rewrite <- E.
  unfold load. rewrite (drop_S l b (Z.to_nat a) Hb). simpl. lia.
Qed.

Section Slurp.
Context (l0 : list Z) (T : tidy l0) (Tab : table_ok l0).
Ltac hd := hdr l0 T Tab.

Lemma s_off_range i : 0 <= s_off l0 i < 2 ^ 64.
Proof. exact (ld_range l0 T 8 _). Qed.
Lemma s_size_range i : 0 <= s_size l0 i < 2 ^ 64.
Proof. exact (ld_range l0 T 8 _). Qed.
Lemma s_entsize_range i : 0 <= s_entsize l0 i < 2 ^ 32.
Proof. exact (ld_range l0 T 4 _). Qed.
Lemma loadsz_small : 0 <= loadsz l0 <= Z.of_nat (length l0) /\ Z.of_nat (length l0) < 2 ^ 28.
Proof. pose proof (ld_range l0 T 8 40) as H. fold (loadsz l0) in H. pose proof (tidy_loadsz l0 T). pose proof (tidy_size l0 T). lia. Qed.

Lemma wp_check_section i s : img s = l0 -> 0 <= i < secnum l0 ->
  wp (check_section (loadsz l0) i) (λ _ s', img s' = l0 /\ checked l0 i) s.
Proof.
  intros E Hi. assert (runs l0 (img s)) as R by (rewrite E; by apply runs_refl).
  unfold check_section. hd. hd. hd.
  wp1. destruct (Z.eqb_spec (Z.land (s_flags l0 i) DOF_SECF_LOAD) 0) as [Hz|Hl]; cbn [negb] in *.
  { wp1. split; [done|]. rewrite andb_true_r in C.
    split; [congruence|intros H; by destruct (H Hz)..]. }
  hd. wp1. hd. wp1. hd. wp1.
  pose proof loadsz_small. pose proof (s_off_range i). pose proof (s_size_range i).
  assert (s_off l0 i + s_size l0 i <= loadsz l0) as Hin.
  { checks. assert (u64 (s_off l0 i + s_size l0 i) = s_off l0 i + s_size l0 i) as E64 by (apply wrapu_small; lia). lia. }
  destruct (Z.eqb_spec (s_type l0 i) DOF_SECT_STRTAB) as [Ht|Ht].
  - pose proof (tidy_get _ _ i (tidy_strtab l0 T) Hi Hl Ht). wp1. rewrite <- E in *. apply wp_rd; [lia..|]. rewrite E in *. wp1.
    split; [done|]. split; [done..|]. intros _ _. apply load1; [checks; unfold s_last; lia|unfold s_last; lia].
  - wp1. split; [done|]. by split.
Qed.

Lemma wp_pass1 s : img s = l0 ->
  wp (for_sections (Z.to_nat (secnum l0)) 0 (check_section (loadsz l0)))
     (λ _ s', img s' = l0 /\ forall i, 0 <= i < secnum l0 -> checked l0 i) s.
Proof.
  intros E. apply (wp_for_sections l0 T (λ n s, img s = l0 /\ forall i, 0 <= i < n -> checked l0 i)).
  - split; [done|lia].
  - intros i t [-> _]. by apply runs_refl.
  - intros i t Hi [Et Hc]. eapply wp_mono; [by apply wp_check_section|]. intros [] t' [Et' Hi']. split; [done|].
    intros j Hj. destruct (decide (j = i)) as [->|]; [done|]. apply Hc. lia.
Qed.

(** ** The second pass *)

Context (Ck : forall i, 0 <= i < secnum l0 -> checked l0 i).

(** The string tables end with a NUL byte. *)
Record good (l : list Z) : Prop := {
  good_runs :> runs l0 l;
  good_str i : 0 <= i < secnum l0 -> loaded l0 i -> s_type l0 i = DOF_SECT_STRTAB -> l !! Z.to_nat (s_last l0 i) = Some 0;
}.

Lemma good_refl : good l0.
Proof. split; [by apply runs_refl|]. intros i Hi. apply Ck, Hi. Qed.

(** A store within a section whose last byte stays 0 if it is written. *)
Lemma good_store l j bs off :
  good l -> 0 <= j < secnum l0 -> loaded l0 j -> Forall is_byte bs ->
  s_off l0 j <= off -> off + Z.of_nat (length bs) <= s_off l0 j + s_size l0 j ->
  (s_type l0 j = DOF_SECT_STRTAB -> last bs = Some 0) -> good (store bs (Z.to_nat off) l).
Proof.
  intros G Hj Lj Hb Ho Hn Hlast. pose proof (runs_length l0 l G) as El. pose proof loadsz_small. pose proof (s_off_range j).
  pose proof (ck_in _ _ (Ck j Hj) Lj) as Hin.
  split; [split|].
  - apply store_byte; [done|apply G].
  - etransitivity; [|apply G]. apply agree_store; [lia..|].
    intros a Ha. apply (tidy_not_fixed l0 T j a Hj Lj). unfold in_sec. lia.
  - intros i Hi Li Ti. pose proof (tidy_get _ _ i (tidy_strtab l0 T) Hi Li Ti). pose proof (s_off_range i).
    assert (0 <= s_last l0 i) by (unfold s_last; lia).
    destruct (decide (s_last l0 i < off)); [rewrite lookup_store_ne by lia; by apply G|].
    destruct (decide (off + Z.of_nat (length bs) <= s_last l0 i)); [rewrite lookup_store_ne by lia; by apply G|].
    assert (i = j) as -> by (apply (tidy_same l0 T i j (s_last l0 i)); try done; unfold in_sec, s_last in *; lia).
    rewrite lookup_store_eq by lia. rewrite <- (Hlast Ti), last_lookup. f_equal. unfold s_last in *. lia.
Qed.

Context (ubase : Z) (Hub : 0 <= ubase < 2 ^ 55).

Lemma wp_relocate_one j r s :
  good (img s) -> 0 <= j < secnum l0 -> loaded l0 j -> 0 <= r -> r + sizeof_dof_relodesc <= Z.of_nat (length l0) ->
  wp (relocate_one (sh l0 j) r ubase) (λ _ s', good (img s')) s.
Proof.
  intros G Hj Lj Hr Hr'. assert (runs l0 (img s)) as R by apply G. pose proof (runs_length l0 _ R) as El.
  unfold sizeof_dof_relodesc in Hr'. unfold relocate_one. hd. wp1. apply wp_rd; [lia..|]. wp1. apply wp_rd; [lia..|].
  pose proof (load_range 8 (Z.to_nat (r + 8)) (img s) (runs_bytes _ _ R)) as Hro. set (ro := load 8 _ _) in *.
  destruct (_ =? DOF_RELO_NONE); [by wp1|]. destruct (_ =? DOF_RELO_SETX); [|wp1].
  hd. wp1. wp1. pose proof loadsz_small. pose proof (s_off_range j). pose proof (s_size_range j).
  pose proof (ck_in _ _ (Ck j Hj) Lj) as Hin. checks.
  assert (u64 (ro + 8) = ro + 8) as E64 by (apply wrapu_small; lia).
  wp1. apply wp_rd; [lia..|]. destruct (_ >? ubase) eqn:Hv; [by wp1|].
  apply wp_wr; [lia..|]. pose proof (load_range 8 (Z.to_nat (s_off l0 j + ro)) (img s) (runs_bytes _ _ R)) as Hvr.
  set (v := load 8 (Z.to_nat (s_off l0 j + ro)) (img s)) in *. checks. cbn [img].
  apply (good_store _ j); try done; rewrite ?length_le_bytes; [apply le_bytes_byte|lia|lia|].
  intros _. rewrite last_lookup, length_le_bytes, lookup_le_bytes by lia. f_equal.
  assert (u64 (v + ubase) = v + ubase) as -> by (apply wrapu_small; lia).
  change (256 ^ Z.of_nat (Nat.pred 8)) with (2 ^ 56). by rewrite Z.div_small by lia.
Qed.

Lemma wp_relocate_loop k j n r s :
  good (img s) -> 0 <= k < secnum l0 -> 0 <= j < secnum l0 -> loaded l0 j ->
  sizeof_dof_relodesc <= s_entsize l0 k -> 0 <= r -> r + Z.of_nat n * s_entsize l0 k <= Z.of_nat (length l0) ->
  wp (relocate_loop n (sh l0 k) (sh l0 j) r ubase) (λ _ s', good (img s')) s.
Proof.
  intros G Hk Hj Lj He. revert r s G. induction n as [|n IH]; intros r s G Hr Hn; cbn [relocate_loop]; [by wp1|].
  wp1. eapply wp_mono; [apply wp_relocate_one; try done; unfold sizeof_dof_relodesc in *; lia|].
  intros [] t Gt. assert (runs l0 (img t)) by apply Gt. hd. apply IH; [done|unfold sizeof_dof_relodesc in *; lia..].
Qed.

Lemma wp_dof_relocate i s : good (img s) -> 0 <= i < secnum l0 -> loaded l0 i ->
  wp (dof_relocate (sh l0 i) ubase) (λ _ s', good (img s')) s.
Proof.
  intros G Hi Li. assert (runs l0 (img s)) as R by apply G. pose proof (runs_length l0 _ R) as El.
  pose proof (ck_in _ _ (Ck i Hi) Li) as Hin. pose proof loadsz_small. pose proof (s_off_range i).
  unfold dof_relocate. hd. hd. hd. wp1. unfold sizeof_dof_relohdr in *. checks.
  wp1. apply wp_rd; [lia..|]. wp1. apply (wp_dof_sect l0 T Tab); [done|apply load_range, R|]. intros ss s1 E1 _.
  wp1. apply wp_rd; [rewrite ?E1; lia..|]. wp1. apply (wp_dof_sect l0 T Tab); [by rewrite E1|rewrite E1; apply load_range, R|].
  intros rs s2 E2 Hrs. rewrite E1 in E2.
  wp1. apply wp_rd; [rewrite ?E2; lia..|]. wp1. apply (wp_dof_sect l0 T Tab); [by rewrite E2|rewrite E2; apply load_range, R|].
  intros ts s3 E3 Hts. rewrite E2 in E3. rewrite <- E3 in R.
  destruct ss as [ss|]; [|wp1]. destruct rs as [rs|]; [|wp1]. destruct ts as [ts|]; [|wp1].
  apply sect_ok_some in Hrs as (k & -> & Hk & Lk), Hts as (j & -> & Hj & Lj).
  hd. hd. wp1. hd. hd. unfold sizeof_dof_relodesc in *. checks.
  pose proof (ck_in _ _ (Ck k Hk) Lk) as Hin'. pose proof (s_off_range k). pose proof (s_size_range k). pose proof (s_entsize_range k).
  apply wp_relocate_loop; unfold sizeof_dof_relodesc; try done; [by rewrite E3|lia|].
  assert (0 <= s_size l0 k `div` s_entsize l0 k) by (apply Z.div_pos; lia).
  assert (s_size l0 k `div` s_entsize l0 k * s_entsize l0 k <= s_size l0 k) by (rewrite Z.mul_comm; apply Z.mul_div_le; lia).
  assert (u32 (s_size l0 k `div` s_entsize l0 k) = s_size l0 k `div` s_entsize l0 k) as -> by (apply wrapu_small; nia).
  rewrite Z2Nat.id by done. lia.
Qed.

Lemma wp_pass2 s : good (img s) ->
  wp (for_sections (Z.to_nat (secnum l0)) 0 (relocate_section ubase)) (λ _ s', good (img s')) s.
Proof.
  intros G. apply (wp_for_sections l0 T (λ _ s, good (img s))); [done|by intros i t []|]. clear s G.
  intros i s Hi G. assert (runs l0 (img s)) by apply G. unfold relocate_section. hd. hd.
  destruct (Z.eqb_spec (Z.land (s_flags l0 i) DOF_SECF_LOAD) 0) as [|Li]; [by wp1|]. hd.
  destruct (_ =? DOF_SECT_URELHDR); [by apply wp_dof_relocate|by wp1].
Qed.
End Slurp.

(** What a successful dof_slurp() leaves. *)
Record slurped (l0 l : list Z) : Prop := {
  sl_tab : table_ok l0;
  sl_checked i : 0 <= i < secnum l0 -> checked l0 i;
  sl_good : good l0 l;
}.

Lemma wp_check_ident l0 s : tidy l0 -> img s = l0 -> wp check_ident (λ _ s', img s' = l0) s.
Proof.
  intros T E. assert (runs l0 (img s)) as R by (rewrite E; by apply runs_refl).
  pose proof (tidy_size l0 T) as Hs. unfold sizeof_dof_hdr in Hs.
  unfold check_ident, dofh_ident, dofh_version. wp1. apply wp_rdbytes; [lia..|rewrite E; lia|]. wp1.
  do 6 (wp1; apply (wp_hdr l0 T); [done|lia..|]; wp1).
  apply (wp_mono _ (λ _ s, img s = l0)); [|done]. apply (wp_for (λ _ s, img s = l0)); [done|].
  intros j t Hj Et. wp1. apply (wp_hdr l0 T); [rewrite Et; by apply runs_refl|lia..|]. by wp1.
Qed.

Lemma wp_dof_slurp l0 ubase s : tidy l0 -> 0 <= ubase < 2 ^ 55 -> img s = l0 ->
  wp (dof_slurp ubase) (λ _ s', slurped l0 (img s')) s.
Proof.
  intros T Hub E. assert (runs l0 (img s)) as R by (rewrite E; by apply runs_refl).
  pose proof (loadsz_small l0 T). unfold dof_slurp, dofh_flags.
  wp1. apply (wp_hdr l0 T); [done|lia..|]. fold (loadsz l0). wp1. wp1.
  eapply wp_mono; [by apply (wp_check_ident l0)|]. clear s E R. intros [] s E. cbn beta in E.
  assert (runs l0 (img s)) as R by (rewrite E; by apply runs_refl).
  wp1. apply (wp_hdr l0 T); [done|lia..|]. wp1.
  wp1. apply (wp_hdr l0 T); [done|lia..|]. fold (secsize l0). wp1.
  wp1. apply (wp_hdr l0 T); [done|lia..|]. fold (secnum l0).
  wp1. apply (wp_hdr l0 T); [done|lia..|]. fold (secoff l0). wp1. wp1. wp1.
  assert (table_ok l0) as Tab.
  { unfold table_ok. checks.
    pose proof (ld_range l0 T 4 28) as Hn. pose proof (ld_range l0 T 4 24) as Hz. pose proof (ld_range l0 T 8 32) as Ho.
    fold (secnum l0) in Hn. fold (secsize l0) in Hz. fold (secoff l0) in Ho. change (256 ^ Z.of_nat 4) with (2 ^ 32) in *.
    assert (0 <= secnum l0 * secsize l0 <= (2 ^ 32 - 1) * (2 ^ 32 - 1)) by nia.
    assert (u64 (secnum l0 * secsize l0) = secnum l0 * secsize l0) as E64 by (apply wrapu_small; lia). rewrite E64 in *.
    assert (u64 (secoff l0 + secnum l0 * secsize l0) = secoff l0 + secnum l0 * secsize l0) as E64' by (apply wrapu_small; lia). lia. }
  wp1. eapply wp_mono; [by apply (wp_pass1 l0 T Tab)|]. intros [] t [Et Ck]. cbn beta.
  eapply wp_mono; [apply (wp_pass2 l0 T Tab Ck ubase Hub); rewrite Et; by apply good_refl|]. intros [] t' G. by split.
Qed.

(** ** Providers *)

(** The offset counts of the probes do not wrap in 32 bits; [l] is the image, [l0]
    one with the same headers. *)
Definition offsets_ok (l0 l : list Z) : Prop :=
  Forall (λ i, s_type l0 i = DOF_SECT_PROBES ->
    Forall (λ j, let p := s_off l0 i + j * s_entsize l0 i in
      ld 4 (p + 28) l + ld 2 (p + 34) l < 2 ^ 30 /\ ld 4 (p + 36) l + ld 2 (p + 40) l < 2 ^ 30)
      (seqZ 0 (s_size l0 i `div` s_entsize l0 i))) (sections l0).

Section Providers.
Context (l0 : list Z) (T : tidy l0) (Tab : table_ok l0) (Ck : forall i, 0 <= i < secnum l0 -> checked l0 i).
Ltac hd := hdr l0 T Tab.

(** A section that dof_sect() accepts. *)
Record sect (ty i : Z) : Prop := { sc_in : 0 <= i < secnum l0; sc_loaded : loaded l0 i; sc_type : s_type l0 i = ty }.

Lemma sect_bounds ty i : sect ty i ->
  0 <= s_off l0 i /\ 0 <= s_size l0 i /\ s_off l0 i + s_size l0 i <= Z.of_nat (length l0) < 2 ^ 28.
Proof.
  intros S. pose proof (ck_in _ _ (Ck i (sc_in _ _ S)) (sc_loaded _ _ S)). pose proof (loadsz_small l0 T).
  pose proof (s_off_range l0 T i). pose proof (s_size_range l0 T i). lia.
Qed.

Lemma wp_rd_in ty i n a (Q : Z -> dst -> Prop) s :
  sect ty i -> runs l0 (img s) -> s_off l0 i <= a -> a + Z.of_nat n <= s_off l0 i + s_size l0 i ->
  Q (ld n a (img s)) s -> wp (rd n a) Q s.
Proof.
  intros S R Ha Hn HQ. pose proof (sect_bounds ty i S). apply wp_rd; [lia|rewrite (runs_length l0 _ R); lia|done].
Qed.

Lemma strtab_nul i l : sect DOF_SECT_STRTAB i -> good l0 l -> l !! Z.to_nat (s_last l0 i) = Some 0.
Proof. intros [Hi Li Ti] G. by apply G. Qed.

Section Validate.
Context (l : list Z) (G : good l0 l).
Context (str : Z) (Sstr : sect DOF_SECT_STRTAB str).

(** A name: the string at an offset of the string table ends within it. *)
Lemma wp_check_name idx max s (Q : unit -> dst -> Prop) : img s = l -> 0 <= idx ->
  (s_off l0 str + idx <= s_last l0 str -> slen l (s_off l0 str + idx) < max -> Q tt s) ->
  wp (check_name idx (s_size l0 str) (s_off l0 str + idx) max) Q s.
Proof.
  intros E Hidx HQ. pose proof (sect_bounds _ _ Sstr). unfold check_name. wp1. checks.
  wp1. apply (wp_strlen _ (s_last l0 str)); [unfold s_last; lia|rewrite E; by apply strtab_nul|]. rewrite E. wp1. checks.
  apply HQ; [unfold s_last; lia|lia].
Qed.

Lemma wp_check_types count k pre idx s : img s = l -> 0 <= idx ->
  (forall k' t, k <= k' < k + Z.of_nat count -> img t = l -> wp (pre k') (λ _ t', img t' = l) t) ->
  wp (check_types count k pre (s_size l0 str) idx (s_off l0 str + idx))
     (λ _ s', img s' = l /\ strings_in l (s_last l0 str) count (s_off l0 str + idx)) s.
Proof.
  pose proof (sect_bounds _ _ Sstr).
  revert k idx s. induction count as [|count IH]; intros k idx s E Hidx Hpre; cbn [check_types strings_in]; [by wp1|].
  wp1. eapply wp_mono; [apply Hpre; [lia|done]|]. clear s E. intros [] s E. cbn beta in E. wp1. checks.
  assert (0 <= s_off l0 str + idx <= s_last l0 str) as Hin by (unfold s_last; lia).
  pose proof (strtab_nul str l Sstr G) as Hnul. destruct (slen_bound l _ _ Hin Hnul).
  wp1. apply (wp_strlen _ (s_last l0 str)); [done|by rewrite E|]. rewrite E. wp1. unfold s_last in *.
  assert (u32 (idx + (slen l (s_off l0 str + idx) + 1)) = idx + (slen l (s_off l0 str + idx) + 1)) as -> by (apply wrapu_small; lia).
  rewrite <- Z.add_assoc. eapply wp_mono; [apply IH; [done|lia|]|].
  - intros k' t Hk Et. apply Hpre; [lia|done].
  - intros [] t [Et Hs]. done.
Qed.

(** The entries [idx], ... [idx + n - 1] are within a section. *)
Lemma wp_check_entries idx n ent size s (Q : unit -> dst -> Prop) :
  0 <= idx < 2 ^ 32 -> 0 <= n < 2 ^ 16 -> 0 < ent -> (idx + n < 2 ^ 32 -> (idx + n) * ent < 2 ^ 32) ->
  ((idx + n) * ent <= size -> Q tt s) -> wp (check_entries idx n ent size) Q s.
Proof.
  intros Hi Hn He Hw HQ. unfold check_entries. wp1. checks.
  assert (idx + n < 2 ^ 32) as Hlt.
  { apply Z.nle_gt. intros Hge. assert (u32 (idx + n) = idx + n - 2 ^ 32) as Eu; [|lia].
    unfold u32, wrapu. symmetry. apply (Z.mod_unique _ _ 1); lia. }
  assert (u32 (idx + n) = idx + n) as Eu by (apply wrapu_small; lia). rewrite Eu in *.
  assert (u32 ((idx + n) * ent) = (idx + n) * ent) as Em by (apply wrapu_small; nia). rewrite Em in *.
  apply HQ. lia.
Qed.
(** What validate_provider() has checked of the probe at [p]. *)
Record probe_ok (ver arg off : Z) (en : option Z) (p : Z) : Prop := {
  po_func : s_off l0 str + ld 4 (p + 8) l <= s_last l0 str;
  po_name : s_off l0 str + ld 4 (p + 12) l <= s_last l0 str;
  po_offs : (ld 4 (p + 28) l + ld 2 (p + 34) l) * 4 <= s_size l0 off;
  po_enoffs e : en = Some e -> ver <> 1 -> (ld 4 (p + 36) l + ld 2 (p + 40) l) * 4 <= s_size l0 e;
  po_args : ld 4 (p + 24) l + ld 1 (p + 33) l <= s_size l0 arg;
  po_ntypes : strings_in l (s_last l0 str) (Z.to_nat (ld 1 (p + 32) l)) (s_off l0 str + ld 4 (p + 16) l);
  po_xtypes : strings_in l (s_last l0 str) (Z.to_nat (ld 1 (p + 33) l)) (s_off l0 str + ld 4 (p + 20) l);
}.

Section Probe.
Context (prb arg off p : Z) (en : option Z).
Context (Sprb : sect DOF_SECT_PROBES prb) (Sarg : sect DOF_SECT_PRARGS arg) (Soff : sect DOF_SECT_PROFFS off).
Context (Sen : forall e, en = Some e -> sect DOF_SECT_PRENOFFS e).
Context (Hent : s_entsize l0 off = 4) (Harg : s_entsize l0 arg = 1).
Context (Hp : s_off l0 prb <= p) (Hp' : p + sizeof_dof_probe <= s_off l0 prb + s_size l0 prb).
Context (Hoffs : ld 4 (p + 28) l + ld 2 (p + 34) l < 2 ^ 30 /\ ld 4 (p + 36) l + ld 2 (p + 40) l < 2 ^ 30).

Lemma ld_bound n a : 0 <= ld n a l < 256 ^ Z.of_nat n.
Proof. apply load_range, G. Qed.

(** The checks of the is-enabled offsets. *)
Lemma wp_check_enabled ver noffs s : img s = l ->
  wp (if negb (ver =? 1) then
        enoffidx ← dofpr_enoffidx p;
        nenoffs ← dofpr_nenoffs p;
        match sh l0 <$> en with
        | None => fail_if (negb (enoffidx =? 0) || negb (nenoffs =? 0))
        | Some enoff_sec =>
            enent ← dofs_entsize enoff_sec;
            ensize ← dofs_size enoff_sec;
            check_entries enoffidx nenoffs enent ensize
        end;;
        fail_if (noffs + nenoffs =? 0)
      else fail_if (noffs =? 0))
     (λ _ s', img s' = l /\ forall e, en = Some e -> ver <> 1 -> (ld 4 (p + 36) l + ld 2 (p + 40) l) * 4 <= s_size l0 e) s.
Proof.
  intros E. assert (runs l0 (img s)) as R by (rewrite E; apply G). unfold sizeof_dof_probe in *.
  destruct (Z.eqb_spec ver 1) as [->|Hv]; cbn [negb]; [by wp1|]. unfold dofpr_enoffidx, dofpr_nenoffs.
  wp1. eapply (wp_rd_in _ prb); [done..|lia|lia|]. wp1. eapply (wp_rd_in _ prb); [done..|lia|lia|]. rewrite E.
  wp1. destruct en as [e|]; cbn [fmap option_fmap option_map].
  - destruct (Sen e eq_refl) as [He Le Te]. pose proof (tidy_get _ _ e (tidy_prenoffs l0 T) He Le Te) as Ee. hd. hd. rewrite Ee.
    pose proof (ld_bound 4 (p + 36)). pose proof (ld_bound 2 (p + 40)).
    apply wp_check_entries; [done..|lia|lia|]. intros Hs. wp1. split; [done|]. intros e' [= <-] _. done.
  - wp1. wp1. done.
Qed.

Lemma wp_validate_probe_desc ver s : img s = l ->
  wp (validate_probe_desc ver (sh l0 str) (sh l0 arg) (sh l0 off) (sh l0 <$> en) (s_off l0 str) (s_off l0 arg) p)
     (λ _ s', img s' = l /\ probe_ok ver arg off en p) s.
Proof.
  intros E. assert (runs l0 (img s)) as R by (rewrite E; apply G).
  assert (0 <= str < secnum l0 /\ 0 <= arg < secnum l0 /\ 0 <= off < secnum l0) as (Hstr & Harg' & Hoff).
  { split_and!; first [apply Sstr|apply Sarg|apply Soff]. }
  assert (p + 48 <= s_off l0 prb + s_size l0 prb) as Hp48 by exact Hp'.
  pose proof (sect_bounds _ _ Sarg).
  unfold validate_probe_desc. unfold dofpr_func at 1, dofpr_name at 1, dofpr_offidx at 1, dofpr_noffs at 1.
  hd. wp1. eapply (wp_rd_in _ prb); [done..|lia|lia|]. rewrite E. pose proof (ld_bound 4 (p + 8)).
  wp1. apply wp_check_name; [done|lia|]. intros Hfunc _.
  wp1. eapply (wp_rd_in _ prb); [done..|lia|lia|]. rewrite E. pose proof (ld_bound 4 (p + 12)).
  wp1. apply wp_check_name; [done|lia|]. intros Hname _.
  wp1. eapply (wp_rd_in _ prb); [done..|lia|lia|]. wp1. eapply (wp_rd_in _ prb); [done..|lia|lia|]. rewrite E.
  hd. hd. rewrite Hent. wp1. pose proof (ld_bound 4 (p + 28)). pose proof (ld_bound 2 (p + 34)).
  apply wp_check_entries; [done..|lia|lia|]. intros Hof.
  wp1. eapply wp_mono; [by apply wp_check_enabled|]. clear s E R. intros [] s [E Hen]. cbn beta.
  assert (runs l0 (img s)) as R by (rewrite E; apply G).
  unfold dofpr_argidx, dofpr_xargc, dofpr_nargv, dofpr_nargc, dofpr_xargv.
  wp1. eapply (wp_rd_in _ prb); [done..|lia|lia|]. wp1. eapply (wp_rd_in _ prb); [done..|lia|lia|]. rewrite E.
  hd. hd. rewrite Harg. wp1. pose proof (ld_bound 4 (p + 24)). pose proof (ld_bound 1 (p + 33)). cbn in *.
  apply wp_check_entries; [lia..|]. intros Hargs.
  wp1. eapply (wp_rd_in _ prb); [done..|lia|lia|]. wp1. eapply (wp_rd_in _ prb); [done..|lia|lia|]. rewrite E.
  wp1. pose proof (ld_bound 4 (p + 16)). eapply wp_mono; [apply wp_check_types; [done|lia|done]|].
  clear s E R. intros [] s [E Hnt]. assert (runs l0 (img s)) as R by (rewrite E; apply G).
  wp1. eapply (wp_rd_in _ prb); [done..|lia|lia|]. rewrite E. pose proof (ld_bound 4 (p + 20)).
  eapply wp_mono; [apply wp_check_types; [done|lia|]|].
  - intros k t Hk Et. wp1. rewrite wrapu_small by (cbn; lia). eapply (wp_rd_in _ arg); [done|rewrite Et; apply G|lia|lia|]. by wp1.
  - intros [] t [Et Hxt]. split; [done|]. split; try done. lia.
Qed.
End Probe.
End Validate.

(** The sections a provider names, in the image [l]. *)
Definition pv_str (l : list Z) (i : Z) : Z := ld 4 (s_off l0 i) l.
Definition pv_prb (l : list Z) (i : Z) : Z := ld 4 (s_off l0 i + 4) l.
Definition pv_arg (l : list Z) (i : Z) : Z := ld 4 (s_off l0 i + 8) l.
Definition pv_off (l : list Z) (i : Z) : Z := ld 4 (s_off l0 i + 12) l.
Definition pv_name (l : list Z) (i : Z) : Z := ld 4 (s_off l0 i + 16) l.
Definition pv_enidx (l : list Z) (i : Z) : Z := ld 4 (s_off l0 i + 40) l.
Definition pv_en (l : list Z) (i : Z) : option Z :=
  if (version l0 =? 1) || (pv_enidx l i =? DOF_SECT_NONE) then None else Some (pv_enidx l i).

(** What validate_provider() has checked. *)
Record provider_ok (l : list Z) (i : Z) : Prop := {
  pk_size : (if version l0 =? 1 then offsetof_prenoffs else sizeof_dof_provider) <= s_size l0 i;
  pk_str : sect DOF_SECT_STRTAB (pv_str l i);
  pk_prb : sect DOF_SECT_PROBES (pv_prb l i);
  pk_arg : sect DOF_SECT_PRARGS (pv_arg l i);
  pk_off : sect DOF_SECT_PROFFS (pv_off l i);
  pk_en e : pv_en l i = Some e -> sect DOF_SECT_PRENOFFS e;
  pk_name : s_off l0 (pv_str l i) + pv_name l i <= s_last l0 (pv_str l i);
  pk_probes j : 0 <= j < s_size l0 (pv_prb l i) `div` s_entsize l0 (pv_prb l i) ->
    probe_ok l (pv_str l i) (version l0) (pv_arg l i) (pv_off l i) (pv_en l i)
             (s_off l0 (pv_prb l i) + j * s_entsize l0 (pv_prb l i));
}.

(** Probe [j] is within its section. *)
Lemma probe_in prb j : sect DOF_SECT_PROBES prb -> 0 <= j < s_size l0 prb `div` s_entsize l0 prb ->
  sizeof_dof_probe <= s_entsize l0 prb /\ 0 <= j * s_entsize l0 prb /\ u32 (j * s_entsize l0 prb) = j * s_entsize l0 prb /\
  j * s_entsize l0 prb + sizeof_dof_probe <= s_size l0 prb.
Proof.
  intros S Hj. destruct S as [Hi Li Ti]. pose proof (tidy_get _ _ prb (tidy_probes l0 T) Hi Li Ti) as He.
  pose proof (sect_bounds DOF_SECT_PROBES prb ltac:(by split)) as Hb. unfold sizeof_dof_probe in *.
  pose proof (Z.mul_div_le (s_size l0 prb) (s_entsize l0 prb) ltac:(lia)) as Hm.
  assert ((j + 1) * s_entsize l0 prb <= s_size l0 prb) by nia.
  assert (0 <= j * s_entsize l0 prb) by nia. split_and!; [lia..| |lia]. apply wrapu_small. lia.
Qed.

Lemma probe_count prb : sect DOF_SECT_PROBES prb ->
  0 <= s_size l0 prb `div` s_entsize l0 prb < 2 ^ 28.
Proof.
  intros S. destruct S as [Hi Li Ti]. pose proof (tidy_get _ _ prb (tidy_probes l0 T) Hi Li Ti) as He.
  pose proof (sect_bounds DOF_SECT_PROBES prb ltac:(by split)) as Hb. unfold sizeof_dof_probe in *.
  split; [apply Z.div_pos; lia|]. apply Z.div_lt_upper_bound; nia.
Qed.

Lemma offsets_ok_get l prb j : offsets_ok l0 l -> sect DOF_SECT_PROBES prb -> 0 <= j < s_size l0 prb `div` s_entsize l0 prb ->
  let p := s_off l0 prb + j * s_entsize l0 prb in
  ld 4 (p + 28) l + ld 2 (p + 34) l < 2 ^ 30 /\ ld 4 (p + 36) l + ld 2 (p + 40) l < 2 ^ 30.
Proof.
  intros H [Hi Li Ti] Hj. pose proof (tidy_get _ _ prb H Hi Li Ti) as HF. cbn beta in HF. rewrite Forall_forall in HF.
  apply HF. apply elem_of_seqZ. lia.
Qed.

Lemma sect_ok_sect ty i p : ty <> DOF_SECT_NONE -> sect_ok l0 ty i (Some p) -> p = sh l0 i /\ sect ty i.
Proof. intros Hty (-> & Hi & Hl & [->|Ht]); [done|]. by split. Qed.

(** dof_sect() of an index in the data. *)
Lemma wp_sect_at {A} l ty a s (k : option Z -> D A) (Q : A -> dst -> Prop) : good l0 l -> ty <> DOF_SECT_NONE -> img s = l ->
  0 <= a -> a + 4 <= Z.of_nat (length l0) ->
  (forall r s', img s' = l -> (forall p, r = Some p -> p = sh l0 (ld 4 a l) /\ sect ty (ld 4 a l)) -> wp (k r) Q s') ->
  wp (i ← rd 4 a; r ← dof_sect ty i; k r) Q s.
Proof.
  intros G Hty E Ha Hb HQ. assert (runs l0 (img s)) as R by (rewrite E; apply G). pose proof (runs_length l0 _ R).
  wp1. apply wp_rd; [lia..|]. wp1. apply (wp_dof_sect l0 T Tab); [done|apply load_range, R|]. rewrite E. intros r s' E' Hr.
  apply HQ; [congruence|]. intros p ->. by apply sect_ok_sect.
Qed.

(** The section of the is-enabled offsets, if there is one. *)
Lemma wp_enoff_sec {A} l i s (k : option Z -> D A) (Q : A -> dst -> Prop) : good l0 l -> img s = l ->
  0 <= s_off l0 i -> (version l0 <> 1 -> s_off l0 i + 44 <= Z.of_nat (length l0)) ->
  (forall s', img s' = l -> (forall e, pv_en l i = Some e -> sect DOF_SECT_PRENOFFS e) -> wp (k (sh l0 <$> pv_en l i)) Q s') ->
  wp (enoff_sec ←
        (if negb (version l0 =? 1) then
           i ← dofpv_prenoffs (s_off l0 i);
           if negb (i =? DOF_SECT_NONE) then
             enoff_sec ← dof_sect DOF_SECT_PRENOFFS i;
             match enoff_sec with None => return_1 | Some e => mret (Some e) end
           else mret None
         else mret None); k enoff_sec) Q s.
Proof.
  intros G E Ha Hb HQ. assert (runs l0 (img s)) as R by (rewrite E; apply G). pose proof (runs_length l0 _ R).
  unfold pv_en in HQ. wp1. destruct (Z.eqb_spec (version l0) 1) as [Hv|Hv]; cbn [negb orb] in *; [wp1; by apply HQ|].
  unfold dofpv_prenoffs. wp1. apply wp_rd; [lia..|]. rewrite E. fold (pv_enidx l i). specialize (Hb Hv).
  destruct (Z.eqb_spec (pv_enidx l i) DOF_SECT_NONE) as [Hn|Hn]; cbn [negb] in *; [wp1; by apply HQ|].
  wp1. apply (wp_dof_sect l0 T Tab); [done|apply load_range, G|]. rewrite E. intros [p|] s' E' Hr; [|wp1].
  apply sect_ok_sect in Hr as [-> Hs]; [|done]. wp1. apply HQ; [done|]. intros e [= <-]. done.
Qed.

Lemma wp_validate_provider l i s : good l0 l -> offsets_ok l0 l -> sect DOF_SECT_PROVIDER i -> img s = l ->
  wp (validate_provider (sh l0 i)) (λ _ s', img s' = l /\ provider_ok l i) s.
Proof.
  intros G Hoffs S E. assert (runs l0 (img s)) as R by (rewrite E; apply G). pose proof (sc_in _ _ S) as Hi.
  pose proof (sect_bounds _ _ S). unfold validate_provider. hd. wp1. hd. wp1. hd. hd. wp1. apply Z.ltb_ge in C1.
  assert (offsetof_prenoffs <= s_size l0 i) by (revert C1; destruct (_ =? 1); unfold sizeof_dof_provider, offsetof_prenoffs; lia).
  unfold offsetof_prenoffs in *.
  apply (wp_sect_at l); [done..|lia|lia|]. clear s E R. intros r1 s E H1.
  apply (wp_sect_at l); [done..|lia|lia|]. clear s E. intros r2 s E H2.
  apply (wp_sect_at l); [done..|lia|lia|]. clear s E. intros r3 s E H3.
  apply (wp_sect_at l); [done..|lia|lia|]. clear s E. intros r4 s E H4.
  destruct r1 as [r1|]; [|wp1]. destruct r2 as [r2|]; [|wp1]. destruct r3 as [r3|]; [|wp1]. destruct r4 as [r4|]; [|wp1].
  destruct (H1 _ eq_refl) as [-> Sstr], (H2 _ eq_refl) as [-> Sprb], (H3 _ eq_refl) as [-> Sarg], (H4 _ eq_refl) as [-> Soff].
  fold (pv_str l i) (pv_prb l i) (pv_arg l i) (pv_off l i) in *.
  apply (wp_enoff_sec l); [done..|lia| |].
  { intros Hv. destruct (Z.eqb_spec (version l0) 1); [done|]. unfold sizeof_dof_provider in *. lia. }
  clear s E. intros s E Hen. assert (runs l0 (img s)) as R by (rewrite E; apply G).
  pose proof (sc_in _ _ Sstr). pose proof (sc_in _ _ Sprb). pose proof (sc_in _ _ Sarg). pose proof (sc_in _ _ Soff).
  hd. hd. unfold dofpv_name. wp1. eapply (wp_rd_in _ i); [done..|lia|lia|]. rewrite E. fold (pv_name l i).
  wp1. apply (wp_check_name l G _ Sstr); [done|apply load_range, G|]. intros Hname _.
  hd. hd. wp1. wp1. hd. wp1. hd. wp1. hd. wp1. hd. checks.
  assert (u32 (s_size l0 (pv_prb l i) `div` s_entsize l0 (pv_prb l i)) = s_size l0 (pv_prb l i) `div` s_entsize l0 (pv_prb l i)) as ->.
  { apply wrapu_small. pose proof (probe_count _ Sprb). lia. }
  pose proof (probe_count _ Sprb).
  eapply wp_mono.
  - apply (wp_for (λ n s, img s = l /\ forall j, 0 <= j < n -> probe_ok l (pv_str l i) (version l0) (pv_arg l i) (pv_off l i) (pv_en l i)
             (s_off l0 (pv_prb l i) + j * s_entsize l0 (pv_prb l i)))); [split; [done|lia]|].
    intros j t Hj [Et Hpo]. assert (runs l0 (img t)) as Rt by (rewrite Et; apply G). hd. hd.
    destruct (probe_in _ j Sprb ltac:(lia)) as (Hp1 & Hp2 & -> & Hp3). unfold sizeof_dof_probe in *.
    eapply wp_mono; [apply (wp_validate_probe_desc l G _ Sstr (pv_prb l i)); try done|].
    + lia.
    + unfold sizeof_dof_probe. lia.
    + apply offsets_ok_get; [done..|lia].
    + intros [] t' [Et' Hpj]. split; [done|]. intros j' Hj'. destruct (decide (j' = j)) as [->|]; [done|]. apply Hpo. lia.
  - intros [] t [Et Hpo]. split; [done|]. split; try done. intros j Hj. apply Hpo. lia.
Qed.

(** ** Emission *)

(** A section of offsets: emission sorts them in place. *)
Definition offsets_type (ty : Z) : Prop := ty = DOF_SECT_PROFFS \/ ty = DOF_SECT_PRENOFFS.
(** The bytes that emission leaves alone. *)
Definition steady (a : Z) : Prop := forall i, 0 <= i < secnum l0 -> loaded l0 i -> offsets_type (s_type l0 i) -> ~ in_sec l0 i a.

Lemma sect_steady ty i a : sect ty i -> ~ offsets_type ty -> in_sec l0 i a -> steady a.
Proof. intros [Hi Li Ti] Hty Ha j Hj Lj Tj Ha'. assert (i = j) as <- by by eapply (tidy_same l0 T). congruence. Qed.

Section Emission.
Context (qsort : forall A, (A -> A -> Z) -> list A -> list A) (QS : Qsort qsort).
Context (l1 : list Z) (G1 : good l0 l1).

Record emits (l : list Z) : Prop := { em_good :> good l0 l; em_steady : agree steady l l1 }.

Lemma emits_refl : emits l1.
Proof. by split. Qed.

Lemma wp_rd_steady ty i n a (Q : Z -> dst -> Prop) s :
  emits (img s) -> sect ty i -> ~ offsets_type ty -> s_off l0 i <= a -> a + Z.of_nat n <= s_off l0 i + s_size l0 i ->
  Q (ld n a l1) s -> wp (rd n a) Q s.
Proof.
  intros M S Hty Ha Hn HQ. eapply wp_rd_in; [done|apply M|done..|]. pose proof (sect_bounds _ _ S).
  rewrite (agree_load steady _ l1); [done|apply M|lia|]. intros b Hb. eapply sect_steady; [done..|]. unfold in_sec. lia.
Qed.

Lemma slen_steady l str off : emits l -> sect DOF_SECT_STRTAB str -> s_off l0 str <= off -> off <= s_last l0 str ->
  slen l off = slen l1 off.
Proof.
  intros M S Ho He. pose proof (sect_bounds _ _ S). apply (slen_agree steady _ _ _ (s_last l0 str)); [apply M|lia|by apply strtab_nul|].
  intros a Ha. eapply sect_steady; [done|by intros [[=]|[=]]|]. unfold in_sec, s_last in *. lia.
Qed.

Lemma strings_steady l str count off : emits l -> sect DOF_SECT_STRTAB str -> s_off l0 str <= off ->
  strings_in l1 (s_last l0 str) count off -> strings_in l (s_last l0 str) count off.
Proof.
  intros M S. revert off. induction count as [|count IH]; intros off Ho; [done|]. intros [He Hs]. split; [done|].
  rewrite (slen_steady l str off) by (done || lia). apply IH; [|done].
  destruct (slen_bound l1 off (s_last l0 str)); [done|by apply strtab_nul|lia].
Qed.

(** A store to a section of offsets. *)
Lemma emits_store l k ty bs off : emits l -> sect ty k -> offsets_type ty -> Forall is_byte bs ->
  s_off l0 k <= off -> off + Z.of_nat (length bs) <= s_off l0 k + s_size l0 k -> emits (store bs (Z.to_nat off) l).
Proof.
  intros M S Hty Hb Ho Hn. pose proof (sect_bounds _ _ S). destruct S as [Hk Lk Tk].
  split.
  - apply (good_store l0 T Ck _ k); try done; [apply M|]. intros Es. rewrite <- Tk, Es in Hty. by destruct Hty.
  - etransitivity; [|apply M]. apply agree_store; [lia|rewrite (runs_length l0 _ (em_good _ M)); lia|].
    intros a Ha Hs. apply (Hs k); [done..|by rewrite Tk|]. unfold in_sec. lia.
Qed.

Lemma wp_rdarray k ty n off s (Q : list Z -> dst -> Prop) : emits (img s) -> sect ty k ->
  s_off l0 k <= off -> off + 4 * Z.of_nat n <= s_off l0 k + s_size l0 k ->
  (forall r, length r = n -> Q r s) -> wp (rdarray n off) Q s.
Proof.
  intros M S. revert off Q. induction n as [|n IH]; intros off Q Ho Hn HQ; cbn [rdarray]; [wp1; by apply HQ|].
  wp1. eapply wp_rd_in; [done|apply M|lia|lia|]. wp1. apply IH; [lia..|]. intros r Hr. wp1. apply HQ. cbn [length]. lia.
Qed.

Lemma wp_wrarray k ty r off s : emits (img s) -> sect ty k -> offsets_type ty ->
  s_off l0 k <= off -> off + 4 * Z.of_nat (length r) <= s_off l0 k + s_size l0 k ->
  wp (wrarray r off) (λ _ s', emits (img s')) s.
Proof.
  intros M S Hty. pose proof (sect_bounds _ _ S). revert off s M. induction r as [|x r IH]; intros off s M Ho Hn; cbn [wrarray length] in *; [by wp1|].
  pose proof (runs_length l0 _ (em_good _ M)).
  wp1. apply wp_wr; [lia..|]. apply IH; [|lia..]. cbn [img].
  eapply emits_store; [done..|apply le_bytes_byte|lia|rewrite length_le_bytes; lia].
Qed.

(** An array of offsets is empty or within a section of offsets. *)
Definition array_ok (n off : Z) : Prop :=
  n = 0 \/ exists k ty, sect ty k /\ offsets_type ty /\ s_off l0 k <= off /\ off + 4 * n <= s_off l0 k + s_size l0 k.

Lemma wp_sort_array n off s (Q : list Z -> dst -> Prop) : emits (img s) -> 0 <= n -> array_ok n off ->
  (forall r s', emits (img s') -> Q r s') -> wp (sort_array qsort (Z.to_nat n) off) Q s.
Proof.
  intros M Hn [->|(k & ty & S & Hty & Ho & He)] HQ; unfold sort_array.
  - change (Z.to_nat 0) with O. cbn [rdarray].
    wp1. wp1. cbv zeta. rewrite (proj1 (Permutation_nil_r _) (qsort_perm (qsort:=qsort) _ uint32_cmp [])). cbn [wrarray]. wp1. wp1. wp1. by apply HQ.
  - wp1. eapply (wp_rdarray k); [done..|lia|]. intros r Hr. wp1. eapply wp_mono; [eapply (wp_wrarray k); try done|].
    + rewrite (Permutation_length (qsort_perm _ _ r)). lia.
    + intros [] s' M'. wp1. by apply HQ.
Qed.

Lemma wp_emit_tps base n off en s : emits (img s) -> 0 <= n -> array_ok n off -> wp (emit_tps base (Z.to_nat n) off en) (λ _ s', emits (img s')) s.
Proof.
  intros M Hn [->|(k & ty & S & _ & Ho & He)]; [done|]. rewrite <- (Z2Nat.id n) in He by done. clear Hn.
  revert off s M Ho He. induction (Z.to_nat n) as [|m IH]; intros off s M Ho He; cbn [emit_tps]; [by wp1|].
  wp1. eapply wp_rd_in; [done|apply M|lia|lia|]. wp1. apply wp_put. intros s' E. apply IH; [by rewrite E|lia..].
Qed.

Lemma wp_validate_probe base offs noffs enoffs nenoffs s (Q : bool -> dst -> Prop) :
  emits (img s) -> 0 <= noffs -> 0 <= nenoffs -> array_ok noffs offs -> array_ok nenoffs enoffs ->
  (forall r s', emits (img s') -> Q r s') -> wp (validate_probe qsort base offs noffs enoffs nenoffs) Q s.
Proof.
  intros M Hn Hn' Ha Ha' HQ. unfold validate_probe.
  assert (forall t, emits (img t) -> wp (usdt_error EINVAL;; mret false) Q t) as Herr.
  { intros t Mt. wp1. apply wp_put. intros t' Et. wp1. apply HQ. by rewrite Et. }
  wp1. apply wp_sort_array; [done..|]. clear s M. intros r s M. destruct (negb _); [by apply Herr|].
  wp1. apply wp_sort_array; [done..|]. clear s M. intros r' s M. destruct (negb _); [by apply Herr|].
  destruct (_ && _); [by apply Herr|]. wp1. by apply HQ.
Qed.

(** What emit_probe() is given. *)
Record probedesc_ok (str : Z) (p : probedesc) : Prop := {
  pd_noffs : 0 <= dthpb_noffs p; pd_nenoffs : 0 <= dthpb_nenoffs p;
  pd_offs : array_ok (dthpb_noffs p) (dthpb_offs p);
  pd_enoffs : array_ok (dthpb_nenoffs p) (dthpb_enoffs p);
  pd_func : s_off l0 str <= dthpb_func p <= s_last l0 str;
  pd_name : s_off l0 str <= dthpb_name p <= s_last l0 str;
  pd_args : 0 <= dthpb_args p /\ 0 <= dthpb_xargc p /\ dthpb_args p + dthpb_xargc p <= Z.of_nat (length l0);
  pd_ntypes : s_off l0 str <= dthpb_ntypes p /\ strings_in l1 (s_last l0 str) (Z.to_nat (dthpb_nargc p)) (dthpb_ntypes p);
  pd_xtypes : s_off l0 str <= dthpb_xtypes p /\ strings_in l1 (s_last l0 str) (Z.to_nat (dthpb_xargc p)) (dthpb_xtypes p);
}.

(** The strings of argument types. *)
Lemma wp_types str count off (k : list Z -> D unit) s : emits (img s) -> sect DOF_SECT_STRTAB str ->
  s_off l0 str <= off -> strings_in l1 (s_last l0 str) count off -> (0 < count)%nat ->
  (forall b s', emits (img s') -> wp (k b) (λ _ t, emits (img t)) s') ->
  wp (n ← strings_len count off; with_memory (b ← rdbytes n off; k b)) (λ _ t, emits (img t)) s.
Proof.
  intros M S Ho Hs Hc Hk. pose proof (sect_bounds _ _ S). pose proof (runs_length l0 _ (em_good _ M)).
  wp1. apply (wp_strings_len (s_last l0 str)); [by apply strings_steady|apply strtab_nul; [done|apply M]| |lia].
  intros n Hn _ He. unfold s_last in *. apply wp_with_memory; intros s' E; [|by rewrite E].
  wp1. apply wp_rdbytes; [lia..|rewrite E; lia|]. apply Hk. by rewrite E.
Qed.

Lemma wp_emit_probe str p s : emits (img s) -> sect DOF_SECT_STRTAB str -> probedesc_ok str p ->
  wp (emit_probe qsort p) (λ _ s', emits (img s')) s.
Proof.
  intros M S P. pose proof (sect_bounds _ _ S). unfold emit_probe.
  wp1. apply wp_validate_probe; [done|apply P..|]. clear s M. intros [] s M; cbn [negb]; [|by wp1].
  assert (forall t, emits (img t) -> wp (emit_tps (dthpb_base p) (Z.to_nat (dthpb_noffs p)) (dthpb_offs p) 0;;
      emit_tps (dthpb_base p) (Z.to_nat (dthpb_nenoffs p)) (dthpb_enoffs p) 1) (λ _ t', emits (img t')) t) as Htps.
  { intros t Mt. wp1. eapply wp_mono; [apply wp_emit_tps; [done|apply P..]|]. intros [] t' Mt'. apply wp_emit_tps; [done|apply P..]. }
  pose proof (pd_func _ _ P). pose proof (pd_name _ _ P). pose proof (pd_args _ _ P). pose proof (pd_ntypes _ _ P). pose proof (pd_xtypes _ _ P).
  pose proof (strtab_nul str _ S (em_good _ M)) as Hnul.
  wp1. apply (wp_rdstr _ (s_last l0 str)); [lia|done|]. intros func. wp1. apply (wp_rdstr _ (s_last l0 str)); [lia|done|]. intros name.
  apply wp_with_memory; intros s' E; [|by rewrite E]. wp1. apply wp_put. intros t Et.
  rewrite <- E, <- Et in M. clear s s' E Et Hnul. rename t into s.
  destruct (Z.gtb_spec (dthpb_nargc p) 0); [|by apply Htps].
  apply (wp_types str); [done|done|apply P|apply P|lia|]. clear s M. intros b s M. wp1. apply wp_put. intros s' E. rewrite <- E in M. clear s E.
  destruct (Z.gtb_spec (dthpb_xargc p) 0); [|by apply Htps].
  apply (wp_types str); [done|done|apply P|apply P|lia|]. clear s' M. intros b' s M. wp1. apply wp_put. intros s' E. rewrite <- E in M. clear s E.
  apply wp_with_memory; intros s E; [|by rewrite E].
  pose proof (runs_length l0 _ (em_good _ M)). wp1. apply wp_rdbytes; [lia..|rewrite E; lia|].
  wp1. apply wp_put. intros t Et. apply Htps. by rewrite Et, E.
Qed.

(** The is-enabled offsets that emission uses. *)
Definition em_en (i : Z) : option Z := if version l0 >=? 3 then pv_en l1 i else None.

Lemma wp_enoff {A} i s (k : option Z -> D A) (Q : A -> dst -> Prop) : img s = l1 -> provider_ok l1 i -> 0 <= s_off l0 i ->
  s_off l0 i + s_size l0 i <= Z.of_nat (length l0) -> wp (k (s_off l0 <$> em_en i)) Q s ->
  wp (enoff ←
        (if version l0 >=? 3 then
           i ← dofpv_prenoffs (s_off l0 i);
           if negb (i =? DOF_SECT_NONE) then enoff_sec ← sec_addr i; e ← dofs_offset enoff_sec; mret (Some e) else mret None
         else mret None); k enoff) Q s.
Proof.
  intros E P Ho Hs Hk. assert (runs l0 (img s)) as R by (rewrite E; apply G1). pose proof (runs_length l0 _ R).
  unfold em_en in Hk. wp1. destruct (Z.geb_spec (version l0) 3) as [Hv|Hv]; [|by wp1].
  pose proof (pk_size _ _ P) as Hsz. pose proof (pk_en _ _ P) as Hen. unfold pv_en in Hen, Hk.
  destruct (Z.eqb_spec (version l0) 1) as [|_]; [lia|]. cbn [orb] in *. unfold sizeof_dof_provider in Hsz.
  unfold dofpv_prenoffs. wp1. apply wp_rd; [lia..|]. rewrite E. fold (pv_enidx l1 i).
  destruct (Z.eqb_spec (pv_enidx l1 i) DOF_SECT_NONE) as [Hn|Hn]; cbn [negb] in *; [by wp1|].
  pose proof (sc_in _ _ (Hen _ eq_refl)). hd. hd. by wp1.
Qed.

Section Probes.
Context (i : Z) (S : sect DOF_SECT_PROVIDER i) (P : provider_ok l1 i).
Local Abbreviation prb := (pv_prb l1 i).
Local Abbreviation str := (pv_str l1 i).

(** The description of probe [p] that emit_provider() builds. *)
Definition desc_of (mod_ : list Z) (p : Z) : probedesc :=
  let en := match em_en i with Some e => (s_off l0 e + 4 * ld 4 (p + 36) l1, ld 2 (p + 40) l1) | None => (0, 0) end in
  ProbeDesc mod_ (s_off l0 str + ld 4 (p + 8) l1) (s_off l0 str + ld 4 (p + 12) l1) (ld 8 p l1)
    (s_off l0 (pv_off l1 i) + 4 * ld 4 (p + 28) l1) (fst en) (ld 2 (p + 34) l1) (snd en)
    (s_off l0 (pv_arg l1 i) + ld 4 (p + 24) l1) (ld 1 (p + 33) l1) (ld 1 (p + 32) l1)
    (s_off l0 str + ld 4 (p + 20) l1) (s_off l0 str + ld 4 (p + 16) l1).

Lemma desc_of_ok mod_ p : probe_ok l1 str (version l0) (pv_arg l1 i) (pv_off l1 i) (pv_en l1 i) p -> probedesc_ok str (desc_of mod_ p).
Proof.
  intros O. pose proof (sect_bounds _ _ (pk_str _ _ P)). pose proof (sect_bounds _ _ (pk_arg _ _ P)).
  pose proof (sect_bounds _ _ (pk_off _ _ P)).
  assert (forall n a, 0 <= load n a l1) as Hpos by (intros; apply load_range, G1).
  unfold desc_of. split; cbn [dthpb_noffs dthpb_nenoffs dthpb_offs dthpb_enoffs dthpb_func dthpb_name dthpb_args dthpb_xargc dthpb_ntypes dthpb_xtypes dthpb_nargc].
  - done.
  - destruct (em_en i); cbn; [done|lia].
  - right. exists (pv_off l1 i), DOF_SECT_PROFFS. pose proof (po_offs _ _ _ _ _ _ _ O).
    pose proof (Hpos 4%nat (Z.to_nat (p + 28))). split_and!; [apply P|by left|lia|lia].
  - unfold em_en. destruct (Z.geb_spec (version l0) 3); [|by left]. destruct (pv_en l1 i) as [e|] eqn:Ee; [|by left].
    right. exists e, DOF_SECT_PRENOFFS. cbn [fst snd]. pose proof (po_enoffs _ _ _ _ _ _ _ O e eq_refl ltac:(lia)).
    pose proof (Hpos 4%nat (Z.to_nat (p + 36))). split_and!; [by apply P|by right|lia|lia].
  - pose proof (po_func _ _ _ _ _ _ _ O). pose proof (Hpos 4%nat (Z.to_nat (p + 8))). lia.
  - pose proof (po_name _ _ _ _ _ _ _ O). pose proof (Hpos 4%nat (Z.to_nat (p + 12))). lia.
  - pose proof (po_args _ _ _ _ _ _ _ O). pose proof (Hpos 4%nat (Z.to_nat (p + 24))). pose proof (Hpos 1%nat (Z.to_nat (p + 33))). lia.
  - pose proof (Hpos 4%nat (Z.to_nat (p + 16))). split; [lia|apply O].
  - pose proof (Hpos 4%nat (Z.to_nat (p + 20))). split; [lia|apply O].
Qed.

Lemma wp_emit_provider mod_ s : img s = l1 -> wp (emit_provider qsort mod_ (sh l0 i)) (λ _ s', emits (img s')) s.
Proof.
  intros E. assert (runs l0 (img s)) as R by (rewrite E; apply G1). pose proof (sc_in _ _ S) as Hi. pose proof (sect_bounds _ _ S).
  pose proof (sc_in _ _ (pk_str _ _ P)). pose proof (sc_in _ _ (pk_prb _ _ P)). pose proof (sc_in _ _ (pk_arg _ _ P)).
  pose proof (sc_in _ _ (pk_off _ _ P)).
  assert (40 <= s_size l0 i) by (pose proof (pk_size _ _ P) as Hs; revert Hs; destruct (_ =? 1); unfold sizeof_dof_provider, offsetof_prenoffs; lia).
  unfold emit_provider, dofpv_strtab, dofpv_probes, dofpv_prargs, dofpv_proffs. hd.
  wp1. eapply (wp_rd_in _ i); [done..|lia|lia|]. rewrite E. fold (pv_str l1 i). hd.
  wp1. eapply (wp_rd_in _ i); [done..|lia|lia|]. rewrite E. fold (pv_prb l1 i). hd.
  wp1. eapply (wp_rd_in _ i); [done..|lia|lia|]. rewrite E. fold (pv_arg l1 i). hd.
  wp1. eapply (wp_rd_in _ i); [done..|lia|lia|]. rewrite E. fold (pv_off l1 i). hd. hd. hd. hd. hd.
  apply wp_enoff; [done..|lia|lia|].
  unfold dofpv_name. wp1. eapply (wp_rd_in _ i); [done..|lia|lia|]. rewrite E. fold (pv_name l1 i).
  pose proof (pk_name _ _ P). assert (0 <= pv_name l1 i) by apply load_range, G1. pose proof (sect_bounds _ _ (pk_str _ _ P)).
  wp1. apply (wp_rdstr _ (s_last l0 str)); [lia|rewrite E; apply strtab_nul; [apply P|done]|]. intros name.
  apply wp_with_memory; intros s' Es; rewrite E in Es; [|rewrite Es; by apply emits_refl].
  clear s E R. rename s' into s. assert (runs l0 (img s)) as R by (rewrite Es; apply G1). hd. hd. wp1. apply wp_put. intros t Et.
  apply (wp_mono _ (λ _ t, emits (img t))); [|done]. apply (wp_for (λ _ t, emits (img t))); [rewrite Et, Es; by apply emits_refl|].
  clear t Et s Es R. intros j s Hj M. assert (runs l0 (img s)) as R by apply M. hd. hd.
  pose proof (probe_count prb (pk_prb _ _ P)).
  destruct (probe_in prb j (pk_prb _ _ P) ltac:(lia)) as (Hp1 & Hp2 & -> & Hp3). unfold sizeof_dof_probe in *.
  pose proof (pk_probes _ _ P j ltac:(lia)) as O. set (p := s_off l0 prb + j * s_entsize l0 prb) in *.
  assert (forall n a (Q : Z -> dst -> Prop), p <= a -> a + Z.of_nat n <= p + 48 -> Q (ld n a l1) s -> wp (rd n a) Q s) as Hrd.
  { intros n a Q Ha Hb HQ. eapply (wp_rd_steady _ prb); [done|apply P|by intros [[=]|[=]]|lia|lia|done]. }
  unfold dofpr_func, dofpr_name, dofpr_addr, dofpr_offidx, dofpr_noffs.
  do 5 (wp1; apply Hrd; [lia..|]).
  wp1. apply (wp_mono _ (λ r t, t = s /\ r = match em_en i with Some e => (s_off l0 e + 4 * ld 4 (p + 36) l1, ld 2 (p + 40) l1) | None => (0, 0) end)).
  { destruct (em_en i); cbn [fmap option_fmap option_map]; [|by wp1]. unfold dofpr_enoffidx, dofpr_nenoffs.
    wp1. apply Hrd; [lia..|]. wp1. apply Hrd; [lia..|]. by wp1. }
  intros r t [-> ->]. unfold dofpr_argidx, dofpr_nargc, dofpr_xargc, dofpr_nargv, dofpr_xargv.
  do 5 (wp1; apply Hrd; [lia..|]). eapply wp_emit_probe; [done|apply P|]. by apply (desc_of_ok mod_ p).
Qed.
End Probes.
End Emission.

Lemma offsets_ok_emits l1 l : emits l1 l -> offsets_ok l0 l1 -> offsets_ok l0 l.
Proof.
  intros M H. apply Forall_forall. intros i Hi%elem_sections Ti. apply Forall_forall. intros j Hj%elem_of_seqZ.
  assert (sect DOF_SECT_PROBES i) as S by (destruct Hi; by split). pose proof (offsets_ok_get l1 i j H S ltac:(lia)) as Hl.
  destruct (probe_in i j S ltac:(lia)) as (Hp1 & Hp2 & _ & Hp3). unfold sizeof_dof_probe in *.
  pose proof (sect_bounds _ _ S). cbv zeta in *. set (p := s_off l0 i + j * s_entsize l0 i) in *.
  assert (forall n a, p <= a -> a + Z.of_nat n <= p + 48 -> ld n a l = ld n a l1) as E.
  { intros n a Ha Hn. apply (agree_load steady); [apply M|lia|]. intros b Hb.
    eapply (sect_steady _ i); [done|by intros [[=]|[=]]|]. unfold in_sec. lia. }
  by rewrite !E by lia.
Qed.

Lemma wp_providers qsort mod_ s : Qsort qsort -> good l0 (img s) -> offsets_ok l0 (img s) ->
  wp (for_sections (Z.to_nat (secnum l0)) 0 (λ i,
        sec ← sec_addr i;
        type ← dofs_type sec;
        if negb (type =? DOF_SECT_PROVIDER) then mret tt
        else validate_provider sec;; emit_provider qsort mod_ sec)) (λ _ s', good l0 (img s')) s.
Proof.
  intros QS G O. eapply wp_mono.
  - apply (wp_for_sections l0 T (λ _ s, good l0 (img s) /\ offsets_ok l0 (img s))); [done|by intros i t [[] _]|].
    clear s G O. intros i s Hi [G O]. assert (runs l0 (img s)) as R by apply G. hd. hd.
    destruct (Z.eqb_spec (s_type l0 i) DOF_SECT_PROVIDER) as [Ti|]; cbn [negb]; [|by wp1].
    assert (sect DOF_SECT_PROVIDER i) as S.
    { split; [done| |done]. apply Ck; [done|]. by rewrite Ti. }
    wp1. eapply wp_mono; [by apply (wp_validate_provider (img s))|]. intros [] t [Et P]. cbn beta.
    eapply wp_mono; [by apply (wp_emit_provider qsort QS (img s) G i S P)|]. intros [] t' M.
    split; [apply M|by eapply offsets_ok_emits].
  - by intros [] t [].
Qed.
End Providers.

Lemma wp_eq {A} (m : D A) (Q : A -> dst -> Prop) s : wp m Q s -> wp m (λ a s', m s = Done a s' /\ Q a s') s.
Proof. unfold wp. by destruct (m s). Qed.

(** C30: On tidy data (as long as its header says and below 2^28 bytes, section
    headers and probe entries of at least their structure's size, is-enabled offsets
    of 4 bytes, no empty string table, sections that overlap neither the headers nor
    each other) and for a base address below 2^55, dof_slurp() does not access a
    byte outside the data, and when it succeeds the headers are as they were, every
    loaded section is within the data, and the string tables still end with a NUL
    byte after the relocations. *)
Theorem dof_slurp_safe ubase s : tidy (img s) -> 0 <= ubase < 2 ^ 55 ->
  match dof_slurp ubase s with Oob => False | Fail _ => True | Done _ s' => slurped (img s) (img s') end.
Proof. intros T Hub. exact (wp_dof_slurp (img s) ubase s T Hub eq_refl). Qed.

(** C2: usdt_parse_dof() never accesses a byte outside the data, nor does the data
    change the bound of a loop under way, on data for which what the parser relies
    on and does not check holds: the data is tidy (as long as its header says and
    below 2^28 bytes; section headers and probe entries of at least their
    structure's size, is-enabled offsets of 4 bytes; no empty string table; sections
    that overlap neither the headers nor each other), the base address is below
    2^55, qsort() permutes what it sorts, and once the data is relocated the ends of
    the ranges of offsets of the probes are below 2^30 (their sum does not wrap in
    32 bits). *)
Theorem usdt_parse_dof_safe qsort mod_ ubase s : Qsort qsort -> tidy (img s) -> 0 <= ubase < 2 ^ 55 ->
  (forall s', dof_slurp ubase s = Done tt s' -> offsets_ok (img s) (img s')) ->
  usdt_parse_dof qsort mod_ ubase s <> Oob.
Proof.
  intros QS T Hub O. cut (wp (usdt_parse_dof qsort mod_ ubase) (λ _ s', good (img s) (img s')) s).
  { unfold wp. intros H E. by rewrite E in H. }
  pose proof (runs_refl (img s) T) as R. unfold usdt_parse_dof, dofh_loadsz, dofh_secnum.
  wp1. apply (wp_hdr (img s) T); [done|lia..|]. wp1. wp1.
  eapply wp_mono; [apply wp_eq; by apply (wp_dof_slurp (img s))|]. intros [] t [E [Tab Ck G]]. cbn beta.
  wp1. apply (wp_hdr (img s) T); [apply G|lia..|]. fold (secnum (img s)).
  apply (wp_providers (img s) T Tab Ck); [done..|]. by apply O.
Qed.

(** ** Examples *)

Module Sample.
(** Builders: the header, section headers, and data with the sections one after the other. *)
Definition hdr (secsize secnum secoff loadsz : Z) : list Z :=
  DOF_MAG_STRING ++ [2; 1; 3; 2; 8; 8] ++ replicate 6 0 ++ le_bytes 4 0 ++ le_bytes 4 64 ++ le_bytes 4 secsize ++
  le_bytes 4 secnum ++ le_bytes 8 secoff ++ le_bytes 8 loadsz ++ le_bytes 8 loadsz ++ le_bytes 8 0.
Definition sec (type align entsize off size : Z) : list Z :=
  le_bytes 4 type ++ le_bytes 4 align ++ le_bytes 4 1 ++ le_bytes 4 entsize ++ le_bytes 8 off ++ le_bytes 8 size.
Definition probe (addr func name nargv xargv argidx offidx nargc xargc noffs enoffidx nenoffs : Z) : list Z :=
  le_bytes 8 addr ++ le_bytes 4 func ++ le_bytes 4 name ++ le_bytes 4 nargv ++ le_bytes 4 xargv ++ le_bytes 4 argidx ++
  le_bytes 4 offidx ++ [nargc; xargc] ++ le_bytes 2 noffs ++ le_bytes 4 enoffidx ++ le_bytes 2 nenoffs ++ replicate 6 0.

(** A provider "pv" with a probe "fn:nm" of one argument of type "int" and two
    tracepoints, and a relocation of its address.  The parameters are the headers of
    the sections, the probe, the index of the section of is-enabled offsets, and the
    section and offset that are relocated. *)
Definition image (secs : list (list Z)) (prb : list Z) (prenoffs tgt roff : Z) : list Z :=
  hdr 32 7 64 444 ++ mjoin secs ++
  [0; 112; 118; 0; 102; 110; 0; 110; 109; 0; 105; 110; 116; 0; 0; 0] ++
  prb ++ [0; 0; 0; 0] ++ le_bytes 4 8 ++ le_bytes 4 4 ++
  (le_bytes 4 0 ++ le_bytes 4 1 ++ le_bytes 4 2 ++ le_bytes 4 3 ++ le_bytes 4 1 ++ replicate 20 0 ++ le_bytes 4 prenoffs) ++
  (le_bytes 4 0 ++ le_bytes 4 1 ++ le_bytes 8 roff ++ le_bytes 8 0) ++ (le_bytes 4 0 ++ le_bytes 4 5 ++ le_bytes 4 tgt).

Definition secs : list (list Z) :=
  [sec 8 1 0 288 14; sec 16 8 48 304 48; sec 17 1 1 352 1; sec 18 4 4 356 8;
   sec 15 4 0 364 44; sec 10 8 24 408 24; sec 12 4 0 432 12].
Definition prb (offidx nenoffs : Z) : list Z := probe 16 4 7 10 10 0 offidx 1 1 2 0 nenoffs.

Definition start (l : list Z) : dst := Dst l [] (replicate 10 true).
Definition parse (l : list Z) : res unit := usdt_parse_dof insertion_qsort [109] 4096 (start l).
Definition good_image : list Z := Eval vm_compute in image secs (prb 0 0) 0 1 0.

(** The messages for it: the address is relocated, the offsets are sorted. *)
Example good_image_messages : (out <$> match parse good_image with Done _ s => Some s | _ => None end) =
  Some [DIT_PROVIDER 1 [112; 118]; DIT_PROBE 2 1 1 [109] [102; 110] [110; 109];
        DIT_ARGS_NATIVE [105; 110; 116; 0]; DIT_ARGS_XLAT [105; 110; 116; 0]; DIT_ARGS_MAP [0];
        DIT_TRACEPOINT 4116 0; DIT_TRACEPOINT 4120 0].
Proof. vm_compute. reflexivity. Qed.

Lemma good_image_tidy : tidy good_image.
Proof. split; first [by vm_compute | apply (bool_decide_unpack _); vm_compute; exact I]. Qed.

Definition slurped_image : list Z := Eval vm_compute in
  match dof_slurp 4096 (start good_image) with Done _ s => img s | _ => [] end.

Lemma good_image_offsets : offsets_ok good_image slurped_image.
Proof. unfold offsets_ok. apply (bool_decide_unpack _). vm_compute. exact I. Qed.

Lemma dof_slurp_safe_witness : tidy (img (start good_image)) /\ slurped good_image slurped_image.
Proof.
  split; [exact good_image_tidy|].
  pose proof (dof_slurp_safe 4096 (start good_image) good_image_tidy ltac:(lia)) as H.
  replace (dof_slurp 4096 (start good_image)) with (Done tt (Dst slurped_image [] (replicate 10 true))) in H by (vm_compute; reflexivity).
  exact H.
Defined.

Lemma usdt_parse_dof_safe_witness : parse good_image <> Oob.
Proof.
  apply usdt_parse_dof_safe; [exact insertion_qsort_ok|exact good_image_tidy|lia|].
  intros s' E. assert (dof_slurp 4096 (start good_image) = Done tt (Dst slurped_image [] (replicate 10 true))) as E' by (vm_compute; reflexivity).
  rewrite E' in E. injection E as <-. exact good_image_offsets.
Defined.
End Sample.

(** What the parser does not check: it leaves the data when the data is shorter than
    dofh_loadsz; when section headers are smaller than the structure; when a string
    table is empty; when a relocation moves a section that was already checked; when
    probes are smaller than the structure; when the end of the offsets wraps in 32
    bits; and when is-enabled offsets have an entry size of 0. *)
Example usdt_parse_dof_unchecked :
  Sample.parse (take 400 Sample.good_image) = Oob /\
  Sample.parse (Sample.hdr 8 1 64 72 ++ replicate 8 0) = Oob /\
  Sample.parse (Sample.image (<[0%nat := Sample.sec 8 1 0 0 0]> Sample.secs) (Sample.prb 0 0) 0 1 0) = Oob /\
  Sample.parse (Sample.image (<[2%nat := Sample.sec 17 1 1 64 224]> Sample.secs) (Sample.prb 0 0) 0 2 16) = Oob /\
  Sample.parse (Sample.image (<[1%nat := Sample.sec 16 8 8 432 8]> Sample.secs) (Sample.prb 0 0) 0 1 0) = Oob /\
  Sample.parse (Sample.image Sample.secs (Sample.prb (2 ^ 30 - 2) 0) 0 1 0) = Oob /\
  Sample.parse (Sample.image (<[6%nat := Sample.sec 26 4 0 432 12]> Sample.secs) (Sample.prb 0 100) 6 1 0) = Oob.
Proof. vm_compute. by split_and!. Qed.

(** A relocation by a base of 2^63 overwrites the NUL byte at the end of a string table: the
    base is an address that the traced process gives. *)
Example string_table_unterminated :
  match dof_slurp (2 ^ 63) (Sample.start (Sample.image (<[0%nat := Sample.sec 8 1 0 288 16]> Sample.secs) (Sample.prb 0 0) 0 0 8)) with
  | Done _ s => ld 1 303 (img s) = 128
  | _ => False
  end.
Proof. vm_compute. reflexivity. Qed.
