(* ===== verification/Probe.v ===== *)
(** * Probes (libdtrace/dt_probe.c)

    The handle keeps its probes in an array by id and in five hash tables, by each
    of the four names and by all of them.  A probe is its description, which its id
    makes unique; a pointer to the list of probes that a hash table returns is the
    list (see Htab.v).  The outcome [None] of an operation is an access to an array
    that is not there, or to a NULL name.

    The theorems: the array and the tables always hold the same probes, whatever is
    inserted and deleted; looking a probe up, and iterating over the probes that a
    description with wildcards matches, find exactly the matching ones, whichever
    table the code chooses to search. *)

From stdpp Require Import base list numbers option sorting sets.
From S2P Require Import Prelude Str Htab.

(** dtrace_probedesc_t.  The description that dt_probe_gmatch() gets has NULL for
    the names that are not to be compared. *)
Record dtrace_probedesc := ProbeDesc { id : Z; prv : bytes; mod_ : bytes; fun_ : bytes; prb : bytes }.
Record match_desc := MatchDesc { md_id : Z; md_prv : option bytes; md_mod : option bytes; md_fun : option bytes; md_prb : option bytes }.
#[export] Instance probedesc_eq : EqDecision dtrace_probedesc.
Proof. solve_decision. Defined.

(** dt_probe_t: [tmpl.desc = pdp] makes a template of a description. *)
Abbreviation probe := dtrace_probedesc.
Definition DTRACE_IDNONE : Z := 0.

Section Probes.
Context (chr : Z -> Z).

(** DEFINE_HE_FUNCS *)
Definition prv_htab_ops : htab_ops probe := HtabOps (λ p, str2hval chr (prv p) 0) (λ p q, strcmp (prv p) (prv q)) he_add he_del.
Definition mod_htab_ops : htab_ops probe := HtabOps (λ p, str2hval chr (mod_ p) 0) (λ p q, strcmp (mod_ p) (mod_ q)) he_add he_del.
Definition fun_htab_ops : htab_ops probe := HtabOps (λ p, str2hval chr (fun_ p) 0) (λ p q, strcmp (fun_ p) (fun_ q)) he_add he_del.
Definition prb_htab_ops : htab_ops probe := HtabOps (λ p, str2hval chr (prb p) 0) (λ p q, strcmp (prb p) (prb q)) he_add he_del.

Definition chr_colon : Z := 58.
Definition fqn_hval (p : probe) : Z :=
  let hval := 0 in
  let hval := str2hval chr (prv p) hval in
  let hval := str2hval chr [chr_colon] hval in
  let hval := str2hval chr (mod_ p) hval in
  let hval := str2hval chr [chr_colon] hval in
  let hval := str2hval chr (fun_ p) hval in
  let hval := str2hval chr [chr_colon] hval in
  str2hval chr (prb p) hval.

Definition fqn_cmp (p q : probe) : Z :=
  let rc := strcmp (prv p) (prv q) in
  if c_true rc then rc
  else
    let rc := strcmp (mod_ p) (mod_ q) in
    if c_true rc then rc
    else
      let rc := strcmp (fun_ p) (fun_ q) in
      if c_true rc then rc
      else
        let rc := strcmp (prb p) (prb q) in
        if c_true rc then rc else 0.

Definition fqn_htab_ops : htab_ops probe := HtabOps fqn_hval fqn_cmp he_add he_del.

(** The part of dtrace_hdl_t that holds the probes. *)
Record hdl := Hdl {
  dt_probes : list (option probe);
  dt_probes_sz : Z;
  dt_probe_id : Z;
  dt_byprv : dt_htab probe;
  dt_bymod : dt_htab probe;
  dt_byfun : dt_htab probe;
  dt_byprb : dt_htab probe;
  dt_byfqn : dt_htab probe;
}.

(** The tables are created; [None] if there is no memory (the pointers are not checked). *)
Definition dt_probe_init : option hdl :=
  h1 ← dt_htab_create true true; h2 ← dt_htab_create true true; h3 ← dt_htab_create true true;
  h4 ← dt_htab_create true true; h5 ← dt_htab_create true true;
  Some (Hdl [] 0 1 h1 h2 h3 h4 h5).

(** dt_htab_insert(), whose result is ignored. *)
Definition htab_add (ops : htab_ops probe) (t : dt_htab probe) (p : probe) (m : allocs) : option (dt_htab probe * allocs) :=
  let '(ok_resize, m) := malloc m in
  let '(ok_bucket, m) := malloc m in
  '(rc, t) ← dt_htab_insert ops (λ _, ok_resize) ok_bucket t p;
  Some (t, m).

(** strdup() four times, the results of which are not checked either. *)
Fixpoint strdups (n : nat) (m : allocs) : option allocs :=
  match n with O => Some m | S n => let '(ok, m) := malloc m in if (ok : bool) then strdups n m else None end.

(** Grow the array, if necessary; [false] on an error. *)
Definition grow_probes (h : hdl) (m : allocs) : bool * hdl * allocs :=
  if u32 (dt_probe_id h + 1) >? dt_probes_sz h then
    let nprobes_sz := u32 (dt_probes_sz h + 1024) in
    if nprobes_sz <? dt_probes_sz h then (false, h, m)
    else
      let '(ok, m) := malloc m in
      if negb ok then (false, h, m)
      else (true, Hdl (dt_probes h ++ replicate (Z.to_nat (nprobes_sz - dt_probes_sz h)) None) nprobes_sz (dt_probe_id h)
                      (dt_byprv h) (dt_bymod h) (dt_byfun h) (dt_byprb h) (dt_byfqn h), m)
  else (true, h, m).

(** [Some (None, h, m)]: the error was set and NULL returned. *)
Definition dt_probe_insert (h : hdl) (prv mod_ fun_ prb : bytes) (m : allocs) : option (option probe * hdl * allocs) :=
  let '(ok, h, m) := grow_probes h m in
  if negb ok then Some (None, h, m)
  else
    let '(ok, m) := malloc m in
    if negb ok then Some (None, h, m)
    else
      let '(ok, m) := malloc m in
      if negb ok then Some (None, h, m)
      else
        let id := dt_probe_id h in
        let dt_probe_id := u32 (id + 1) in
        m ← strdups 4 m;
        let prp := ProbeDesc id prv mod_ fun_ prb in
        '(byprv, m) ← htab_add prv_htab_ops (dt_byprv h) prp m;
        '(bymod, m) ← htab_add mod_htab_ops (dt_bymod h) prp m;
        '(byfun, m) ← htab_add fun_htab_ops (dt_byfun h) prp m;
        '(byprb, m) ← htab_add prb_htab_ops (dt_byprb h) prp m;
        '(byfqn, m) ← htab_add fqn_htab_ops (dt_byfqn h) prp m;
        let i := Z.to_nat (u32 (dt_probe_id - 1)) in
        if (i <? length (dt_probes h))%nat
        then Some (Some prp, Hdl (<[i := Some prp]> (dt_probes h)) (dt_probes_sz h) dt_probe_id byprv bymod byfun byprb byfqn, m)
        else None.

Definition dt_probe_delete (h : hdl) (prp : probe) : option hdl :=
  let '(_, byprv) := dt_htab_delete prv_htab_ops (dt_byprv h) prp in
  let '(_, bymod) := dt_htab_delete mod_htab_ops (dt_bymod h) prp in
  let '(_, byfun) := dt_htab_delete fun_htab_ops (dt_byfun h) prp in
  let '(_, byprb) := dt_htab_delete prb_htab_ops (dt_byprb h) prp in
  let '(_, byfqn) := dt_htab_delete fqn_htab_ops (dt_byfqn h) prp in
  if (Z.to_nat (id prp) <? length (dt_probes h))%nat
  then Some (Hdl (<[Z.to_nat (id prp) := None]> (dt_probes h)) (dt_probes_sz h) (dt_probe_id h) byprv bymod byfun byprb byfqn)
  else None.

(** dtrace_id2desc(): [Some None] is EDT_BADID. *)
Definition dtrace_id2desc (h : hdl) (i : Z) : option (option probe) :=
  if i >=? dt_probe_id h then Some None else dt_probes h !! Z.to_nat i.

(** ** Matching *)

(** fnmatch() of the C library: does the string match the pattern? *)
Context (fnmatch : bytes -> bytes -> bool).

Definition gmatch (s p : bytes) : bool := fnmatch p s.
Definition dt_gmatch (s : bytes) (p : option bytes) : bool :=
  match p with None => true | Some [] => true | Some p => gmatch s p end.

(** MATCH_ONE *)
Definition match_one (nam : bytes) (pat : option bytes) (bits n : Z) : bool :=
  match pat with
  | None => true
  | Some pat => if c_true (Z.land bits (Z.shiftl 1 n)) then dt_gmatch nam (Some pat) else strcmp nam pat =? 0
  end.

Definition dt_probe_gmatch (prp : probe) (pdp : match_desc) : bool :=
  match_one (prv prp) (md_prv pdp) (md_id pdp) 3 && match_one (mod_ prp) (md_mod pdp) (md_id pdp) 2 &&
  match_one (fun_ prp) (md_fun pdp) (md_id pdp) 1 && match_one (prb prp) (md_prb pdp) (md_id pdp) 0.

(** pdp->nam[0] == '\0' || strisglob(pdp->nam) *)
Definition is_glob (nam : bytes) : bool := match nam with [] => true | _ => c_true (strisglob nam) end.

(** The copy of a description, with the bits of the names that are patterns as its id. *)
Definition glob_desc (pdp : dtrace_probedesc) : match_desc :=
  MatchDesc (Z.lor (Z.lor (Z.lor (Z.shiftl (c_bool (is_glob (prv pdp))) 3) (Z.shiftl (c_bool (is_glob (mod_ pdp))) 2))
                          (Z.shiftl (c_bool (is_glob (fun_ pdp))) 1)) (c_bool (is_glob (prb pdp))))
            (Some (prv pdp)) (Some (mod_ pdp)) (Some (fun_ pdp)) (Some (prb pdp)).

(** The probes of the array, in order: for (i = 0; i < dtp->dt_probe_id; i++). *)
Definition all_probes (h : hdl) : option (list probe) :=
  l ← mapM (λ i, dt_probes h !! i) (seq 0 (Z.to_nat (dt_probe_id h)));
  Some (omap (λ p : option probe, p) l).

Definition dt_probe_lookup (h : hdl) (pdp : dtrace_probedesc) : option (option probe) :=
  if negb (id pdp =? DTRACE_IDNONE) then
    if id pdp >=? dt_probe_id h then Some None else dt_probes h !! Z.to_nat (id pdp)
  else
    let desc := glob_desc pdp in
    if negb (is_glob (prv pdp)) && negb (is_glob (mod_ pdp)) && negb (is_glob (fun_ pdp)) && negb (is_glob (prb pdp))
    then Some (head (dt_htab_lookup fqn_htab_ops (dt_byfqn h) pdp))
    else if negb (is_glob (fun_ pdp)) then Some (dt_htab_find fun_htab_ops (dt_byfun h) pdp (λ p, dt_probe_gmatch p desc))
    else if negb (is_glob (prb pdp)) then Some (dt_htab_find prb_htab_ops (dt_byprb h) pdp (λ p, dt_probe_gmatch p desc))
    else if negb (is_glob (mod_ pdp)) then Some (dt_htab_find mod_htab_ops (dt_bymod h) pdp (λ p, dt_probe_gmatch p desc))
    else if negb (is_glob (prv pdp)) then Some (dt_htab_find prv_htab_ops (dt_byprv h) pdp (λ p, dt_probe_gmatch p desc))
    else l ← all_probes h; Some (htab_find_walk (λ p, dt_probe_gmatch p desc) l).

(** ** Iteration *)

Section Iter.
Context {A : Type} (func : A -> probe -> A * Z).

(** The loops: [func] (pfunc, or dfunc with the description) is called for the probes
    that [cond] accepts, until it returns something other than 0 ([inl]); otherwise
    the number of matches. *)
Fixpoint iter_list (cond : probe -> bool) (l : list probe) (arg : A) (matches : Z) : A * Z + A * Z :=
  match l with
  | [] => inr (arg, matches)
  | prp :: l =>
      if negb (cond prp) then iter_list cond l arg matches
      else
        let '(arg, rv) := func arg prp in
        if negb (rv =? 0) then inl (arg, rv) else iter_list cond l arg (matches + 1)
  end.

(** return rv, or the label done: dt_set_errno() returns -1. *)
Definition iter_done (r : A * Z + A * Z) : A * Z :=
  match r with inl (arg, rv) => (arg, rv) | inr (arg, matches) => (arg, if c_true matches then 0 else -1) end.

(** The providers, in the order in which dt_htab_next() returns them: the name, and the
    function that lets the provider create probes for a description (NULL for some). *)
Definition providers : Type := list (bytes * option (hdl -> dtrace_probedesc -> hdl)).
Definition provide_all (provs : providers) (h : hdl) (pdp : dtrace_probedesc) : hdl :=
  foldl (λ h '(name, provide),
    match provide with
    | None => h
    | Some provide =>
        if dt_gmatch name (Some (prv pdp)) then provide h (ProbeDesc (id pdp) name (mod_ pdp) (fun_ pdp) (prb pdp)) else h
    end) h provs.

Definition drop_fun (d : match_desc) := MatchDesc (md_id d) (md_prv d) (md_mod d) None (md_prb d).
Definition drop_prb (d : match_desc) := MatchDesc (md_id d) (md_prv d) (md_mod d) (md_fun d) None.
Definition drop_mod (d : match_desc) := MatchDesc (md_id d) (md_prv d) None (md_fun d) (md_prb d).
Definition drop_prv (d : match_desc) := MatchDesc (md_id d) None (md_mod d) (md_fun d) (md_prb d).

(** HTAB_GMATCH *)
Definition htab_gmatch (l : list probe) (desc : match_desc) (arg : A) : A * Z :=
  match l with
  | [] => iter_done (inr (arg, 0))
  | _ => iter_done (iter_list (λ p, dt_probe_gmatch p desc) l arg 0)
  end.

Definition dt_probe_iter (provs : providers) (h : hdl) (pdp : option dtrace_probedesc) (arg : A) : option (hdl * (A * Z)) :=
  match pdp with
  | None => l ← all_probes h; Some (h, iter_done (iter_list (λ _, true) l arg 0))
  | Some pdp =>
      if negb (id pdp =? DTRACE_IDNONE) then
        if id pdp >=? dt_probe_id h then Some (h, iter_done (inr (arg, 0)))
        else
          prp ← dt_probes h !! Z.to_nat (id pdp);
          Some (h, iter_done (match prp with None => inr (arg, 0) | Some prp => iter_list (λ _, true) [prp] arg 0 end))
      else
        let h := provide_all provs h pdp in
        let desc := glob_desc pdp in
        if negb (is_glob (prv pdp)) && negb (is_glob (mod_ pdp)) && negb (is_glob (fun_ pdp)) && negb (is_glob (prb pdp))
        then
          Some (h, iter_done (match dt_htab_lookup fqn_htab_ops (dt_byfqn h) pdp with
                              | [] => inr (arg, 0)
                              | prp :: _ => iter_list (λ _, true) [prp] arg 0
                              end))
        else if negb (is_glob (fun_ pdp)) then Some (h, htab_gmatch (dt_htab_lookup fun_htab_ops (dt_byfun h) pdp) (drop_fun desc) arg)
        else if negb (is_glob (prb pdp)) then Some (h, htab_gmatch (dt_htab_lookup prb_htab_ops (dt_byprb h) pdp) (drop_prb desc) arg)
        else if negb (is_glob (mod_ pdp)) then Some (h, htab_gmatch (dt_htab_lookup mod_htab_ops (dt_bymod h) pdp) (drop_mod desc) arg)
        else if negb (is_glob (prv pdp)) then Some (h, htab_gmatch (dt_htab_lookup prv_htab_ops (dt_byprv h) pdp) (drop_prv desc) arg)
        else l ← all_probes h; Some (h, iter_done (iter_list (λ p, dt_probe_gmatch p desc) l arg 0))
  end.
End Iter.

(** dt_probe_info() looks for the first match, and whether there is another. *)
Definition dt_probe_first_match (prpp : option probe) (prp : probe) : option probe * Z :=
  match prpp with None => (Some prp, 0) | Some _ => (prpp, 1) end.
End Probes.

(** ** The tables *)

Section Tables.
Context (chr : Z -> Z).

(** The five tables have the same form. *)
Lemma name_ops_ok (f : probe -> bytes) :
  HtabOpsOk (HtabOps (λ p, str2hval chr (f p) 0) (λ p q, strcmp (f p) (f q)) he_add he_del).
Proof.
  split; simpl; intros.
  - apply str2hval_range. lia.
  - by apply strcmp_eq.
  - by apply strcmp_sym.
  - rewrite strcmp_eq in *. congruence.
  - rewrite strcmp_eq in *. congruence.
  - done.
  - by apply remove_one_perm.
Qed.
Lemma name_ops_keyed (f : probe -> bytes) :
  KeyedOps (HtabOps (λ p, str2hval chr (f p) 0) (λ p q, strcmp (f p) (f q)) he_add he_del) f.
Proof. split; [|done..]. intros x y. apply strcmp_eq. Qed.

#[export] Instance prv_ops_ok : HtabOpsOk (prv_htab_ops chr) := name_ops_ok prv.
#[export] Instance mod_ops_ok : HtabOpsOk (mod_htab_ops chr) := name_ops_ok mod_.
#[export] Instance fun_ops_ok : HtabOpsOk (fun_htab_ops chr) := name_ops_ok fun_.
#[export] Instance prb_ops_ok : HtabOpsOk (prb_htab_ops chr) := name_ops_ok prb.
#[export] Instance prv_ops_keyed : KeyedOps (prv_htab_ops chr) prv := name_ops_keyed prv.
#[export] Instance mod_ops_keyed : KeyedOps (mod_htab_ops chr) mod_ := name_ops_keyed mod_.
#[export] Instance fun_ops_keyed : KeyedOps (fun_htab_ops chr) fun_ := name_ops_keyed fun_.
#[export] Instance prb_ops_keyed : KeyedOps (prb_htab_ops chr) prb := name_ops_keyed prb.

(** The fully qualified name. *)
Definition fqn (p : probe) : bytes * bytes * bytes * bytes := (prv p, mod_ p, fun_ p, prb p).

Lemma lex_zero a b : (if c_true a then a else b) = 0 <-> a = 0 /\ b = 0.
Proof. unfold c_true. destruct (Z.eqb_spec a 0); cbn [negb]; intuition congruence. Qed.

Lemma fqn_cmp_eq p q : fqn_cmp p q = 0 <-> fqn p = fqn q.
Proof.
  unfold fqn_cmp, fqn. cbv zeta. rewrite !lex_zero, !strcmp_eq. split.
  - intros (-> & -> & -> & -> & _). done.
  - intros [= -> -> -> ->]. done.
Qed.

Lemma fqn_hval_eq p q : fqn p = fqn q -> fqn_hval chr p = fqn_hval chr q.
Proof. unfold fqn, fqn_hval. by intros [= -> -> -> ->]. Qed.

#[export] Instance fqn_ops_ok : HtabOpsOk (fqn_htab_ops chr).
Proof.
  split; simpl; intros; rewrite ?fqn_cmp_eq in *; try congruence.
  - unfold fqn_hval. repeat apply str2hval_range. lia.
  - by apply fqn_hval_eq.
  - done.
  - by apply remove_one_perm.
Qed.
#[export] Instance fqn_ops_keyed : KeyedOps (fqn_htab_ops chr) fqn.
Proof. split; [|done..]. intros x y. apply fqn_cmp_eq. Qed.

(** ** What the handle holds *)

(** The probe with an id. *)
Definition with_id (i : Z) (ps : list probe) : option probe := head (filter (λ p, id p = i) ps).

(** The probes in the order of their insertion. *)
Record rep (h : hdl) (ps : list probe) : Prop := {
  rep_prv : holds (prv_htab_ops chr) prv (dt_byprv h) ps;
  rep_mod : holds (mod_htab_ops chr) mod_ (dt_bymod h) ps;
  rep_fun : holds (fun_htab_ops chr) fun_ (dt_byfun h) ps;
  rep_prb : holds (prb_htab_ops chr) prb (dt_byprb h) ps;
  rep_fqn : holds (fqn_htab_ops chr) fqn (dt_byfqn h) ps;
  rep_ids : StronglySorted (λ p q, id p < id q) ps;
  rep_range : Forall (λ p, 1 <= id p < dt_probe_id h) ps;
  rep_arr i : 0 <= i < dt_probe_id h -> 0 < dt_probes_sz h -> dt_probes h !! Z.to_nat i = Some (with_id i ps);
  rep_len : Z.of_nat (length (dt_probes h)) = dt_probes_sz h;
  rep_sz : exists k, dt_probes_sz h = 1024 * k /\ 0 <= k < 2 ^ 22;
  rep_next : (dt_probes_sz h = 0 /\ dt_probe_id h = 1) \/ 1 <= dt_probe_id h <= dt_probes_sz h;
}.

Lemma rep_nodup h ps : rep h ps -> NoDup ps.
Proof.
  intros R. pose proof (rep_ids h ps R) as Hs. clear R. induction Hs as [|p ps _ IH Hp]; constructor; [|done].
  intros Hin. rewrite Forall_forall in Hp. specialize (Hp p Hin). lia.
Qed.

Lemma with_id_none i ps : Forall (λ p, id p <> i) ps -> with_id i ps = None.
Proof. intros H. unfold with_id. rewrite filter_none; [done|]. by rewrite Forall_forall in H. Qed.

Lemma with_id_elem i ps p : with_id i ps = Some p -> p ∈ ps /\ id p = i.
Proof.
  unfold with_id. intros H. assert (p ∈ filter (λ p, id p = i) ps) as Hp.
  { destruct (filter _ ps); [done|]. injection H as ->. apply elem_of_cons. by left. }
  apply list_elem_of_filter in Hp. tauto.
Qed.

Lemma with_id_cons i p ps : with_id i (p :: ps) = if decide (id p = i) then Some p else with_id i ps.
Proof. unfold with_id. rewrite filter_cons. by case_decide. Qed.

Lemma with_id_find ps p : StronglySorted (λ p q, id p < id q) ps -> p ∈ ps -> with_id (id p) ps = Some p.
Proof.
  induction 1 as [|q ps _ IH Hq]; [by intros ?%not_elem_of_nil|]. rewrite with_id_cons.
  intros [->|Hp]%elem_of_cons; [by rewrite decide_True|]. rewrite Forall_forall in Hq. specialize (Hq p Hp).
  rewrite decide_False by lia. by apply IH.
Qed.

Lemma with_id_app i ps p : with_id i (ps ++ [p]) = match with_id i ps with Some q => Some q | None => if decide (id p = i) then Some p else None end.
Proof. induction ps as [|q ps IH]; cbn [app]; rewrite !with_id_cons; [by case_decide|].
  destruct (decide (id q = i)); [done|]. apply IH. Qed.

Lemma with_id_delete i ps p : StronglySorted (λ p q, id p < id q) ps -> p ∈ ps ->
  with_id i (filter (λ q, q <> p) ps) = if decide (i = id p) then None else with_id i ps.
Proof.
  intros Hs Hp. case_decide as Hi.
  - apply with_id_none. apply Forall_forall. intros q [Hne Hq]%list_elem_of_filter Hid. apply Hne.
    pose proof (with_id_find ps p Hs Hp) as E. pose proof (with_id_find ps q Hs Hq) as E'. congruence.
  - unfold with_id. rewrite filter_comm. f_equal. apply filter_all. intros q [Hq _]%list_elem_of_filter ->. congruence.
Qed.

(** The array in order is the list. *)
Lemma omap_with_id ps n a : StronglySorted (λ p q, id p < id q) ps ->
  Forall (λ p, Z.of_nat a <= id p < Z.of_nat (a + n)) ps ->
  omap (λ i, with_id (Z.of_nat i) ps) (seq a n) = ps.
Proof.
  revert a ps. induction n as [|n IH]; intros a ps Hs Hr; cbn [seq omap list_omap].
  - destruct ps as [|p ps]; [done|]. apply Forall_cons_1 in Hr as [Hp _]. lia.
  - destruct ps as [|p ps].
    + cbn. apply (IH (S a) []); constructor.
    + pose proof Hs as [Hs' Hp]%StronglySorted_inv. pose proof Hr as [Hpr Hr']%Forall_cons_1. rewrite with_id_cons. case_decide as Hid.
      * f_equal. etransitivity; [|apply (IH (S a) ps); [done|]].
        -- apply list_omap_ext. apply Forall_Forall2_diag, Forall_forall. intros i Hi%elem_of_seq. rewrite with_id_cons. by rewrite decide_False by lia.
        -- apply Forall_forall. intros q Hq. rewrite Forall_forall in Hp, Hr'. specialize (Hp q Hq). specialize (Hr' q Hq). lia.
      * rewrite with_id_none.
        -- apply (IH (S a) (p :: ps) Hs). apply Forall_forall. intros q Hq. rewrite Forall_forall in Hr. specialize (Hr q Hq).
           apply elem_of_cons in Hq as [->|Hq]; [lia|]. rewrite Forall_forall in Hp. specialize (Hp q Hq). lia.
        -- apply Forall_forall. intros q Hq. rewrite Forall_forall in Hp. specialize (Hp q Hq). lia.
Qed.

Lemma omap_id_fmap {A B} (f : A -> option B) (l : list A) : omap (λ x : option B, x) (f <$> l) = omap f l.
Proof. induction l as [|x l IH]; [done|]. cbn. destruct (f x); by rewrite IH. Qed.

Lemma all_probes_rep h ps : rep h ps -> 0 < dt_probes_sz h -> all_probes h = Some ps.
Proof.
  intros R Hsz. unfold all_probes.
  rewrite (mapM_Some_2 (λ i, dt_probes h !! i) _ ((λ i, with_id (Z.of_nat i) ps) <$> seq 0 (Z.to_nat (dt_probe_id h)))).
  - cbn. f_equal. rewrite omap_id_fmap. apply omap_with_id; [apply R|]. pose proof (rep_range h ps R) as Hr. eapply Forall_impl; [exact Hr|].
    cbn. intros p Hp. lia.
  - apply Forall2_fmap_r, Forall_Forall2_diag, Forall_forall. intros i Hi%elem_of_seq.
    pose proof (rep_arr h ps R (Z.of_nat i)) as Ha. rewrite Nat2Z.id in Ha. apply Ha; [|done]. pose proof (rep_next h ps R). lia.
Qed.
(** ** Insertion and deletion *)

Lemma rep_init : exists h, dt_probe_init = Some h /\ rep h [].
Proof.
  eexists. split; [reflexivity|]. split; cbn [dt_probes dt_probes_sz dt_probe_id dt_byprv dt_bymod dt_byfun dt_byprb dt_byfqn]; try done; try lia;
    try (apply holds_create; [apply _|reflexivity]).
  - constructor.
  - exists 0. lia.
Qed.

(** The array has room for one more probe. *)
Lemma grow_probes_rep h ps m ok h' m' : rep h ps -> grow_probes h m = (ok, h', m') ->
  rep h' ps /\ dt_probe_id h' = dt_probe_id h /\ (ok = true -> dt_probe_id h' < dt_probes_sz h') /\
  (dt_probe_id h < 2 ^ 32 - 1024 -> forall n, plenty m (S n) -> ok = true /\ plenty m' n).
Proof.
  intros R. unfold grow_probes. destruct (rep_sz h ps R) as (k & Hk & Hk'). pose proof (rep_next h ps R) as Hn.
  assert (u32 (dt_probe_id h + 1) = dt_probe_id h + 1) as -> by (apply wrapu_small; lia).
  destruct (Z.gtb_spec (dt_probe_id h + 1) (dt_probes_sz h)) as [Hgt|Hle].
  2: { intros [= <- <- <-]. split_and!; [done..|lia|]. intros _ n Hp. split; [done|]. eapply plenty_le; [done|lia]. }
  destruct (decide (dt_probes_sz h + 1024 < 2 ^ 32)) as [Hlt|Hge].
  - assert (u32 (dt_probes_sz h + 1024) = dt_probes_sz h + 1024) as -> by (apply wrapu_small; lia).
    destruct (Z.ltb_spec (dt_probes_sz h + 1024) (dt_probes_sz h)); [lia|].
    destruct (malloc m) as [ok1 m1] eqn:Em. destruct ok1; cbn [negb]; intros [= <- <- <-].
    2: { split_and!; [done..|]. intros _ n Hp. destruct (plenty_malloc m n Hp) as (m2 & E2 & _). congruence. }
    split_and!; [|done|cbn; lia|].
    + split; cbn; try apply R.
      * intros i Hi _. destruct (decide (dt_probes_sz h = 0)) as [Hz|Hz].
        -- assert (i = 0) as -> by lia. assert (dt_probes h = []) as -> by (apply length_zero_iff_nil; pose proof (rep_len h ps R); lia).
           rewrite with_id_none; [|eapply Forall_impl; [apply R|]; cbn; lia].
           cbn [app]. apply lookup_replicate. split; [done|]. lia.
        -- rewrite lookup_app_l by (pose proof (rep_len h ps R); lia). apply R; lia.
      * rewrite length_app, length_replicate. pose proof (rep_len h ps R). lia.
      * exists (k + 1). lia.
      * lia.
    + intros _ n Hp. destruct (plenty_malloc m n Hp) as (m2 & E2 & Hp2). split; [done|]. congruence.
  - destruct (Z.ltb_spec (u32 (dt_probes_sz h + 1024)) (dt_probes_sz h)) as [Hu|Hu].
    + intros [= <- <- <-]. split_and!; [done..|]. lia.
    + exfalso. assert (u32 (dt_probes_sz h + 1024) = 0) as E; [|lia].
      replace (dt_probes_sz h + 1024) with (2 ^ 32) by lia. done.
Qed.

(** One of the tables gets the probe. *)
Lemma htab_add_ok {K} `{EqDecision K} (ops : htab_ops probe) `{!HtabOpsOk ops} (key : probe -> K) `{!KeyedOps ops key} t ps p m n :
  holds ops key t ps -> plenty m (S (S n)) ->
  exists t' m', htab_add ops t p m = Some (t', m') /\ holds ops key t' (ps ++ [p]) /\ plenty m' n.
Proof.
  intros Ht Hm. unfold htab_add. destruct (plenty_malloc m _ Hm) as (m1 & -> & Hm1). destruct (plenty_malloc m1 _ Hm1) as (m2 & -> & Hm2).
  destruct (holds_insert ops key (λ _, true) true t ps p Ht) as (rc & t' & -> & [[-> Ht']|(_ & [?|[? ?]] & _)]); [|done..].
  cbn. by exists t', m2.
Qed.

Lemma dt_probe_insert_rep h ps a b c d m : rep h ps -> dt_probe_id h < 2 ^ 32 - 1024 -> plenty m 17 ->
  exists h' m', dt_probe_insert chr h a b c d m = Some (Some (ProbeDesc (dt_probe_id h) a b c d), h', m') /\
    rep h' (ps ++ [ProbeDesc (dt_probe_id h) a b c d]) /\ dt_probe_id h' = dt_probe_id h + 1 /\ 0 < dt_probes_sz h'.
Proof.
  intros R0 Hid Hm. unfold dt_probe_insert. destruct (grow_probes h m) as [[ok h1] m1] eqn:Eg.
  destruct (grow_probes_rep h ps m ok h1 m1 R0 Eg) as (R & Ei & Hroom & Hok). destruct (Hok Hid _ Hm) as [-> Hm1].
  specialize (Hroom eq_refl). rewrite <- Ei in *. clear h R0 Eg Hok Ei Hm m. rename h1 into h, m1 into m. cbn [negb].
  destruct (plenty_malloc m _ Hm1) as (m2 & -> & Hm2). destruct (plenty_malloc m2 _ Hm2) as (m3 & -> & Hm3). cbn [negb strdups].
  destruct (plenty_malloc m3 _ Hm3) as (m4 & -> & Hm4). destruct (plenty_malloc m4 _ Hm4) as (m5 & -> & Hm5).
  destruct (plenty_malloc m5 _ Hm5) as (m6 & -> & Hm6). destruct (plenty_malloc m6 _ Hm6) as (m7 & -> & Hm7).
  cbn [mbind option_bind]. set (p := ProbeDesc (dt_probe_id h) a b c d).
  destruct (htab_add_ok _ prv _ _ p _ _ (rep_prv h ps R) Hm7) as (t1 & q1 & -> & H1 & Hq1). cbn [mbind option_bind].
  destruct (htab_add_ok _ mod_ _ _ p _ _ (rep_mod h ps R) Hq1) as (t2 & q2 & -> & H2 & Hq2). cbn [mbind option_bind].
  destruct (htab_add_ok _ fun_ _ _ p _ _ (rep_fun h ps R) Hq2) as (t3 & q3 & -> & H3 & Hq3). cbn [mbind option_bind].
  destruct (htab_add_ok _ prb _ _ p _ _ (rep_prb h ps R) Hq3) as (t4 & q4 & -> & H4 & Hq4). cbn [mbind option_bind].
  destruct (htab_add_ok _ fqn _ _ p _ _ (rep_fqn h ps R) Hq4) as (t5 & q5 & -> & H5 & Hq5). cbn [mbind option_bind].
  destruct (rep_sz h ps R) as (k & Hk & Hk'). pose proof (rep_next h ps R) as Hn. pose proof (rep_len h ps R) as Hl.
  assert (u32 (dt_probe_id h + 1) = dt_probe_id h + 1) as -> by (apply wrapu_small; lia).
  assert (u32 (dt_probe_id h + 1 - 1) = dt_probe_id h) as -> by (rewrite wrapu_small; lia).
  rewrite (proj2 (Nat.ltb_lt _ _)) by lia. do 2 eexists. split; [reflexivity|]. split; [|cbn; lia].
  pose proof (rep_range h ps R) as Hr. split; cbn [dt_probes dt_probes_sz dt_probe_id dt_byprv dt_bymod dt_byfun dt_byprb dt_byfqn]; try done.
  - apply StronglySorted_app. split_and!; [|apply R|repeat constructor].
    intros x y Hx ->%list_elem_of_singleton. rewrite Forall_forall in Hr. specialize (Hr x Hx). cbn. lia.
  - apply Forall_app_2; [eapply Forall_impl; [exact Hr|]; cbn; lia|]. constructor; [cbn; lia|constructor].
  - intros i Hi _. rewrite with_id_app. destruct (decide (i = dt_probe_id h)) as [->|Hne].
    + rewrite list_lookup_insert_eq by lia. rewrite with_id_none; [|eapply Forall_impl; [exact Hr|]; cbn; lia].
      by rewrite decide_True.
    + rewrite list_lookup_insert_ne by lia. rewrite (rep_arr h ps R) by lia. f_equal.
      destruct (with_id i ps); [done|]. by rewrite decide_False by (cbn; lia).
  - rewrite length_insert. done.
  - by exists k.
  - right. lia.
Qed.

Lemma dt_probe_delete_rep h ps p : rep h ps -> p ∈ ps ->
  exists h', dt_probe_delete chr h p = Some h' /\ rep h' (filter (λ q, q <> p) ps) /\ dt_probe_id h' = dt_probe_id h.
Proof.
  intros R Hp. unfold dt_probe_delete. pose proof (rep_nodup h ps R) as Hnd.
  destruct (holds_delete _ prv _ _ p (rep_prv h ps R) Hnd Hp) as (t1 & -> & H1).
  destruct (holds_delete _ mod_ _ _ p (rep_mod h ps R) Hnd Hp) as (t2 & -> & H2).
  destruct (holds_delete _ fun_ _ _ p (rep_fun h ps R) Hnd Hp) as (t3 & -> & H3).
  destruct (holds_delete _ prb _ _ p (rep_prb h ps R) Hnd Hp) as (t4 & -> & H4).
  destruct (holds_delete _ fqn _ _ p (rep_fqn h ps R) Hnd Hp) as (t5 & -> & H5).
  pose proof (rep_range h ps R) as Hr. pose proof Hr as Hrp. rewrite Forall_forall in Hrp. specialize (Hrp p Hp). cbn beta in Hrp.
  pose proof (rep_len h ps R) as Hl. pose proof (rep_next h ps R) as Hn.
  rewrite (proj2 (Nat.ltb_lt _ _)) by lia. eexists. split; [reflexivity|]. split; [|done].
  split; cbn [dt_probes dt_probes_sz dt_probe_id dt_byprv dt_bymod dt_byfun dt_byprb dt_byfqn]; try done; try apply R.
  - pose proof (rep_ids h ps R) as Hs. clear -Hs. induction Hs as [|x l _ IH Hx]; [constructor|]. rewrite filter_cons. case_decide; [|done].
    constructor; [done|]. apply Forall_forall. intros y [_ Hy]%list_elem_of_filter. rewrite Forall_forall in Hx. by apply Hx.
  - apply Forall_forall. intros q [_ Hq]%list_elem_of_filter. rewrite Forall_forall in Hr. by apply Hr.
  - intros i Hi Hz. rewrite with_id_delete by (done || apply R). case_decide as Hc.
    + subst i. by rewrite list_lookup_insert_eq by lia.
    + rewrite list_lookup_insert_ne by lia. by apply R.
  - by rewrite length_insert.
Qed.
End Tables.

(** ** Matching *)

(** A pattern without special characters matches itself only (fnmatch(3)). *)
Class Fnmatch (fnmatch : bytes -> bytes -> bool) : Prop := {
  fnmatch_plain p s : strisglob p = 0 -> fnmatch p s = bool_decide (s = p);
}.

Section Matching.
Context (chr : Z -> Z) (fnmatch : bytes -> bytes -> bool) `{!Fnmatch fnmatch}.

(** Every name of the probe matches: an empty pattern matches everything. *)
Definition matches (pdp : dtrace_probedesc) (p : probe) : Prop :=
  dt_gmatch fnmatch (prv p) (Some (prv pdp)) = true /\ dt_gmatch fnmatch (mod_ p) (Some (mod_ pdp)) = true /\
  dt_gmatch fnmatch (fun_ p) (Some (fun_ pdp)) = true /\ dt_gmatch fnmatch (prb p) (Some (prb pdp)) = true.
#[export] Instance matches_dec pdp p : Decision (matches pdp p).
Proof. unfold matches. apply _. Defined.

(** A name that is not a pattern is compared exactly. *)
Lemma gmatch_plain nam pat : is_glob pat = false -> dt_gmatch fnmatch nam (Some pat) = bool_decide (nam = pat).
Proof.
  unfold is_glob, dt_gmatch, gmatch. destruct pat as [|c pat]; [done|]. intros H. apply fnmatch_plain.
  unfold c_true in H. by apply negb_false_iff, Z.eqb_eq in H.
Qed.

Lemma match_one_eq nam pat bits n : c_true (Z.land bits (Z.shiftl 1 n)) = is_glob pat ->
  match_one fnmatch nam (Some pat) bits n = dt_gmatch fnmatch nam (Some pat).
Proof.
  intros E. unfold match_one. rewrite E. destruct (is_glob pat) eqn:Eg; [done|]. rewrite gmatch_plain by done.
  destruct (Z.eqb_spec (strcmp nam pat) 0) as [Hs|Hs]; rewrite strcmp_eq in Hs; [by rewrite bool_decide_eq_true_2|by rewrite bool_decide_eq_false_2].
Qed.

(** The bits of the description say which names are patterns. *)
Lemma glob_bits pdp :
  c_true (Z.land (md_id (glob_desc pdp)) (Z.shiftl 1 3)) = is_glob (prv pdp) /\
  c_true (Z.land (md_id (glob_desc pdp)) (Z.shiftl 1 2)) = is_glob (mod_ pdp) /\
  c_true (Z.land (md_id (glob_desc pdp)) (Z.shiftl 1 1)) = is_glob (fun_ pdp) /\
  c_true (Z.land (md_id (glob_desc pdp)) (Z.shiftl 1 0)) = is_glob (prb pdp).
Proof. unfold glob_desc. cbn [md_id]. by destruct (is_glob (prv pdp)), (is_glob (mod_ pdp)), (is_glob (fun_ pdp)), (is_glob (prb pdp)). Qed.

Lemma dt_probe_gmatch_eq pdp p : dt_probe_gmatch fnmatch p (glob_desc pdp) = bool_decide (matches pdp p).
Proof.
  destruct (glob_bits pdp) as (H3 & H2 & H1 & H0). unfold dt_probe_gmatch.
  cbn [glob_desc md_prv md_mod md_fun md_prb]. rewrite !match_one_eq by assumption.
  case_bool_decide as Hm; unfold matches in Hm; [by destruct Hm as (-> & -> & -> & ->)|].
  repeat destruct (dt_gmatch fnmatch _ _); try done. by destruct Hm.
Qed.
(** A probe that matches has the names of the description that are not patterns. *)
Lemma matches_names pdp p : matches pdp p ->
  (is_glob (prv pdp) = false -> prv p = prv pdp) /\ (is_glob (mod_ pdp) = false -> mod_ p = mod_ pdp) /\
  (is_glob (fun_ pdp) = false -> fun_ p = fun_ pdp) /\ (is_glob (prb pdp) = false -> prb p = prb pdp).
Proof.
  intros (H1 & H2 & H3 & H4). split_and!; intros Hg; rewrite gmatch_plain in * by done; by eapply bool_decide_eq_true_1.
Qed.

(** Names that are known to be equal need not be compared. *)
Lemma gmatch_drop pdp p :
  (is_glob (prv pdp) = false -> prv p = prv pdp -> dt_probe_gmatch fnmatch p (drop_prv (glob_desc pdp)) = bool_decide (matches pdp p)) /\
  (is_glob (mod_ pdp) = false -> mod_ p = mod_ pdp -> dt_probe_gmatch fnmatch p (drop_mod (glob_desc pdp)) = bool_decide (matches pdp p)) /\
  (is_glob (fun_ pdp) = false -> fun_ p = fun_ pdp -> dt_probe_gmatch fnmatch p (drop_fun (glob_desc pdp)) = bool_decide (matches pdp p)) /\
  (is_glob (prb pdp) = false -> prb p = prb pdp -> dt_probe_gmatch fnmatch p (drop_prb (glob_desc pdp)) = bool_decide (matches pdp p)).
Proof.
  destruct (glob_bits pdp) as (H3 & H2 & H1 & H0). rewrite <- dt_probe_gmatch_eq. unfold dt_probe_gmatch.
  cbn [glob_desc drop_prv drop_mod drop_fun drop_prb md_id md_prv md_mod md_fun md_prb] in *. rewrite !match_one_eq by assumption.
  split_and!; intros Hg ->; unfold match_one; rewrite (gmatch_plain _ _ Hg), bool_decide_eq_true_2 by done;
    by rewrite ?andb_true_r.
Qed.

Lemma find_walk_spec c (l : list probe) :
  match htab_find_walk c l with Some p => p ∈ l /\ c p = true | None => forall p, p ∈ l -> c p = false end.
Proof.
  induction l as [|x l IH]; simpl; [by intros p ?%not_elem_of_nil|]. destruct (c x) eqn:Ex.
  - split; [apply elem_of_cons; by left|done].
  - destruct (htab_find_walk c l); [|intros p [->|Hp]%elem_of_cons; auto]. destruct IH. split; [apply elem_of_cons; by right|done].
Qed.

(** The result of a lookup. *)
Definition found (ps : list probe) (pdp : dtrace_probedesc) (r : option probe) : Prop :=
  match r with Some p => p ∈ ps /\ matches pdp p | None => forall p, p ∈ ps -> ~ matches pdp p end.

Lemma find_keyed {K} `{EqDecision K} (ops : htab_ops probe) `{!HtabOpsOk ops} (key : probe -> K) t ps pdp :
  holds ops key t ps -> (forall p, matches pdp p -> key p = key pdp) ->
  found ps pdp (dt_htab_find ops t pdp (λ p, dt_probe_gmatch fnmatch p (glob_desc pdp))).
Proof.
  intros [_ Hl] Hk. unfold dt_htab_find. rewrite Hl. set (c := λ p, dt_probe_gmatch fnmatch p (glob_desc pdp)).
  assert (forall p, c p = bool_decide (matches pdp p)) as Hc by (intros; apply dt_probe_gmatch_eq).
  pose proof (find_walk_spec c (reverse (filter (λ e, key e = key pdp) ps))) as Hf. unfold found.
  destruct (htab_find_walk c _) as [p|].
  - destruct Hf as [Hp Hcp]. rewrite Hc in Hcp. rewrite reverse_Permutation in Hp. apply list_elem_of_filter in Hp as [_ Hp].
    split; [done|]. by eapply bool_decide_eq_true_1.
  - intros p Hp Hm. specialize (Hf p). rewrite Hc, bool_decide_eq_true_2 in Hf by done. discriminate Hf.
    rewrite reverse_Permutation. apply list_elem_of_filter. auto.
Qed.

(** All four names are exact. *)
Lemma exact_fqn pdp p :
  negb (is_glob (prv pdp)) && negb (is_glob (mod_ pdp)) && negb (is_glob (fun_ pdp)) && negb (is_glob (prb pdp)) = true ->
  matches pdp p <-> fqn p = fqn pdp.
Proof.
  intros H. b2p. split.
  - intros Hm. destruct (matches_names pdp p Hm) as (E1 & E2 & E3 & E4). unfold fqn. by rewrite E1, E2, E3, E4.
  - unfold fqn, matches. intros [= -> -> -> ->]. rewrite !gmatch_plain by done. by rewrite !bool_decide_eq_true_2.
Qed.

Lemma lookup_by_name h ps pdp : rep chr h ps -> 0 < dt_probes_sz h -> id pdp = DTRACE_IDNONE ->
  exists r, dt_probe_lookup chr fnmatch h pdp = Some r /\ found ps pdp r.
Proof.
  intros R Hsz Hid. unfold dt_probe_lookup. rewrite Hid. cbn [Z.eqb negb DTRACE_IDNONE].
  assert (forall p, matches pdp p -> _) as Hn by (intros p; apply matches_names).
  destruct (negb _ && negb _ && negb _ && negb _) eqn:Ex.
  { eexists. split; [reflexivity|]. destruct (rep_fqn chr h ps R) as [_ Hl]. rewrite Hl.
    pose proof (exact_fqn pdp) as He. unfold found.
    destruct (reverse (filter (λ e, fqn e = fqn pdp) ps)) as [|p l] eqn:El; cbn [head].
    - intros p Hp Hm. apply He in Hm; [|done]. assert (p ∈ reverse (filter (λ e, fqn e = fqn pdp) ps)) as Hin.
      { rewrite reverse_Permutation. by apply list_elem_of_filter. }
      rewrite El in Hin. by apply not_elem_of_nil in Hin.
    - assert (p ∈ reverse (filter (λ e, fqn e = fqn pdp) ps)) as Hin by (rewrite El; apply elem_of_cons; by left).
      rewrite reverse_Permutation in Hin. apply list_elem_of_filter in Hin as [Hf Hin]. split; [done|]. by apply He. }
  destruct (is_glob (fun_ pdp)) eqn:Ef; cbn [negb].
  2: { eexists. split; [reflexivity|]. apply (find_keyed _ fun_); [apply R|]. intros p Hm. by apply (Hn p Hm). }
  destruct (is_glob (prb pdp)) eqn:Eb; cbn [negb].
  2: { eexists. split; [reflexivity|]. apply (find_keyed _ prb); [apply R|]. intros p Hm. by apply (Hn p Hm). }
  destruct (is_glob (mod_ pdp)) eqn:Em; cbn [negb].
  2: { eexists. split; [reflexivity|]. apply (find_keyed _ mod_); [apply R|]. intros p Hm. by apply (Hn p Hm). }
  destruct (is_glob (prv pdp)) eqn:Ep; cbn [negb].
  2: { eexists. split; [reflexivity|]. apply (find_keyed _ prv); [apply R|]. intros p Hm. by apply (Hn p Hm). }
  rewrite (all_probes_rep chr h ps R Hsz). cbn [mbind option_bind]. eexists. split; [reflexivity|].
  pose proof (find_walk_spec (λ p, dt_probe_gmatch fnmatch p (glob_desc pdp)) ps) as Hf. unfold found.
  destruct (htab_find_walk _ ps) as [p|].
  - destruct Hf as [Hp Hc]. rewrite dt_probe_gmatch_eq in Hc. split; [done|]. by eapply bool_decide_eq_true_1.
  - intros p Hp. specialize (Hf p Hp). cbn beta in Hf. rewrite dt_probe_gmatch_eq in Hf. by eapply bool_decide_eq_false_1.
Qed.
(** ** Iteration *)

Section Iteration.
Context {A : Type} (func : A -> probe -> A * Z).

(** The callback is called for the probes of a list, in order, until it returns
    something other than 0: that is the result; otherwise 0, or -1 for an empty list. *)
Fixpoint call_all (l : list probe) (arg : A) : A * Z :=
  match l with
  | [] => (arg, 0)
  | p :: l => let '(arg, rv) := func arg p in if rv =? 0 then call_all l arg else (arg, rv)
  end.
Definition iter_spec (l : list probe) (arg : A) : A * Z := match l with [] => (arg, -1) | _ => call_all l arg end.

Lemma iter_list_eq c l arg m : 0 <= m ->
  iter_done (iter_list func c l arg m) =
  match filter (λ p, c p = true) l with [] => (arg, if c_true m then 0 else -1) | l => call_all l arg end.
Proof.
  revert arg m. induction l as [|p l IH]; intros arg m Hm; [done|]. cbn [iter_list]. rewrite filter_cons.
  destruct (c p); cbn [negb]; [rewrite decide_True by done|by rewrite decide_False by done; apply IH].
  cbn [call_all]. destruct (func arg p) as [arg' rv]. destruct (rv =? 0); cbn [negb]; [|done]. rewrite IH by lia.
  destruct (filter (λ p, c p = true) l); [|done]. unfold c_true. destruct (Z.eqb_spec (m + 1) 0); [lia|done].
Qed.

Lemma iter_list_spec c l arg : iter_done (iter_list func c l arg 0) = iter_spec (filter (λ p, c p = true) l) arg.
Proof. rewrite iter_list_eq by lia. by destruct (filter (λ p, c p = true) l). Qed.

Lemma htab_gmatch_spec l d arg : htab_gmatch fnmatch func l d arg = iter_spec (filter (λ p, dt_probe_gmatch fnmatch p d = true) l) arg.
Proof. rewrite <- iter_list_spec. by destruct l. Qed.

(** The probes of one bucket that match. *)
Lemma keyed_matches {K} `{EqDecision K} (key : probe -> K) (c : probe -> bool) ps pdp :
  (forall p, matches pdp p -> key p = key pdp) -> (forall p, key p = key pdp -> c p = bool_decide (matches pdp p)) ->
  filter (λ p, c p = true) (reverse (filter (λ e, key e = key pdp) ps)) ≡ₚ filter (matches pdp) ps.
Proof.
  intros Hk Hc. rewrite filter_reverse, reverse_Permutation, list_filter_filter.
  rewrite (filter_ext (λ p, c p = true /\ key p = key pdp) (matches pdp)); [done|]. intros p _. split.
  - intros [Hp E]. rewrite Hc in Hp by done. by eapply bool_decide_eq_true_1.
  - intros Hm. split; [rewrite Hc by auto; by apply bool_decide_eq_true_2|auto].
Qed.

Lemma fqn_unique ps x : NoDup (fqn <$> ps) -> (length (filter (λ p, fqn p = x) ps) <= 1)%nat.
Proof.
  induction ps as [|p ps IH]; [cbn; lia|]. rewrite fmap_cons. intros [Hp Hnd]%NoDup_cons. rewrite filter_cons. case_decide as E; [|by apply IH].
  rewrite filter_none; [cbn; lia|]. intros q Hq E'. apply Hp. rewrite E, <- E'. by apply list_elem_of_fmap_2.
Qed.

Lemma iter_by_name provs h ps pdp arg : rep chr (provide_all fnmatch provs h pdp) ps -> 0 < dt_probes_sz (provide_all fnmatch provs h pdp) ->
  NoDup (fqn <$> ps) -> id pdp = DTRACE_IDNONE ->
  exists l, l ≡ₚ filter (matches pdp) ps /\
    dt_probe_iter chr fnmatch func provs h (Some pdp) arg = Some (provide_all fnmatch provs h pdp, iter_spec l arg).
Proof.
  intros R Hsz Hu Hid. unfold dt_probe_iter. rewrite Hid. cbn [Z.eqb negb DTRACE_IDNONE]. set (h' := provide_all fnmatch provs h pdp) in *.
  assert (forall p, matches pdp p -> _) as Hn by (intros p; apply matches_names).
  destruct (negb _ && negb _ && negb _ && negb _) eqn:Ex.
  { destruct (rep_fqn chr h' ps R) as [_ Hl]. rewrite Hl. pose proof (fqn_unique ps (fqn pdp) Hu) as Hlen.
    exists (filter (matches pdp) ps). split; [done|]. rewrite (filter_ext (matches pdp) (λ p, fqn p = fqn pdp) ps) by (intros; by apply exact_fqn).
    destruct (filter (λ p, fqn p = fqn pdp) ps) as [|p [|q l]] eqn:Ef; [done| |cbn in Hlen; lia].
    cbn [reverse rev_append]. by rewrite iter_list_spec. }
  destruct (is_glob (fun_ pdp)) eqn:Ef; cbn [negb].
  2: { eexists. split; [|by rewrite htab_gmatch_spec]. destruct (rep_fun chr h' ps R) as [_ Hl]. rewrite Hl.
       apply (keyed_matches fun_); [intros p Hm; by apply (Hn p Hm)|]. intros p Hp. by apply gmatch_drop. }
  destruct (is_glob (prb pdp)) eqn:Eb; cbn [negb].
  2: { eexists. split; [|by rewrite htab_gmatch_spec]. destruct (rep_prb chr h' ps R) as [_ Hl]. rewrite Hl.
       apply (keyed_matches prb); [intros p Hm; by apply (Hn p Hm)|]. intros p Hp. by apply gmatch_drop. }
  destruct (is_glob (mod_ pdp)) eqn:Em; cbn [negb].
  2: { eexists. split; [|by rewrite htab_gmatch_spec]. destruct (rep_mod chr h' ps R) as [_ Hl]. rewrite Hl.
       apply (keyed_matches mod_); [intros p Hm; by apply (Hn p Hm)|]. intros p Hp. by apply gmatch_drop. }
  destruct (is_glob (prv pdp)) eqn:Ep; cbn [negb].
  2: { eexists. split; [|by rewrite htab_gmatch_spec]. destruct (rep_prv chr h' ps R) as [_ Hl]. rewrite Hl.
       apply (keyed_matches prv); [intros p Hm; by apply (Hn p Hm)|]. intros p Hp. by apply gmatch_drop. }
  rewrite (all_probes_rep chr h' ps R Hsz). cbn [mbind option_bind]. rewrite iter_list_spec. eexists. split; [|reflexivity].
  rewrite (filter_ext _ (matches pdp)); [done|]. intros p _. rewrite dt_probe_gmatch_eq. apply bool_decide_eq_true.
Qed.
End Iteration.
End Matching.

(** ** Theorems *)

Section Sequences.
Context (chr : Z -> Z).

Inductive probe_op := PInsert (prv mod_ fun_ prb : bytes) | PDelete (p : probe).

(** The next id and the probes. *)
Definition spec_op (st : Z * list probe) (op : probe_op) : option (Z * list probe) :=
  let '(n, ps) := st in
  match op with
  | PInsert a b c d => Some (n + 1, ps ++ [ProbeDesc n a b c d])
  | PDelete p => if decide (p ∈ ps) then Some (n, filter (λ q, q <> p) ps) else None
  end.

Definition run_op (h : hdl) (op : probe_op) : option hdl :=
  match op with
  | PInsert a b c d => '(r, h, _) ← dt_probe_insert chr h a b c d (replicate 17 true); _ ← r; Some h
  | PDelete p => dt_probe_delete chr h p
  end.

Definition run_seq {S O} (f : S -> O -> option S) (s : option S) (l : list O) : option S := foldl (λ s o, s ≫= λ s, f s o) s l.

Lemma run_seq_none {S O} (f : S -> O -> option S) l : run_seq f None l = None.
Proof. by induction l. Qed.

Lemma run_probe_ops_rep ops h ps n ps' : rep chr h ps -> dt_probe_id h + Z.of_nat (length ops) < 2 ^ 32 - 1024 ->
  run_seq spec_op (Some (dt_probe_id h, ps)) ops = Some (n, ps') ->
  exists h', run_seq run_op (Some h) ops = Some h' /\ rep chr h' ps' /\ dt_probe_id h' = n.
Proof.
  revert h ps. induction ops as [|o ops IH]; intros h ps R Hn E.
  - cbn in E. injection E as <- <-. by exists h.
  - cbn [length] in Hn. cbn [run_seq foldl mbind option_bind] in *. destruct o as [a b c d|p]; cbn [spec_op run_op] in *.
    + destruct (dt_probe_insert_rep chr h ps a b c d (replicate 17 true) R) as (h' & m' & Ei & R' & Hid & _); [lia|by exists []|].
      rewrite Ei. cbn. apply (IH h' _ R'); [lia|]. rewrite Hid. exact E.
    + case_decide as Hp; [|exfalso; fold (run_seq spec_op None ops) in E; by rewrite run_seq_none in E].
      destruct (dt_probe_delete_rep chr h ps p R Hp) as (h' & Ed & R' & Hid). rewrite Ed. rewrite <- Hid in *. apply (IH h' _ R'); [lia|done].
Qed.



(** What a provider may do when it is asked for probes: add some, whose names are new. *)
Definition provides_ok (provs : providers) : Prop :=
  forall name f, (name, Some f) ∈ provs -> forall h ps d, rep chr h ps -> 0 < dt_probes_sz h -> NoDup (fqn <$> ps) ->
    exists ps', rep chr (f h d) (ps ++ ps') /\ 0 < dt_probes_sz (f h d) /\ NoDup (fqn <$> ps ++ ps').

Lemma provide_all_rep fnmatch provs h ps pdp : provides_ok provs -> rep chr h ps -> 0 < dt_probes_sz h -> NoDup (fqn <$> ps) ->
  exists ps', rep chr (provide_all fnmatch provs h pdp) (ps ++ ps') /\ 0 < dt_probes_sz (provide_all fnmatch provs h pdp) /\ NoDup (fqn <$> ps ++ ps').
Proof.
  unfold provide_all. revert h ps. induction provs as [|[name [f|]] provs IH]; intros h ps Hok R Hsz Hu; cbn [foldl].
  - exists []. by rewrite app_nil_r.
  - assert (provides_ok provs) as Hok' by (intros nm g Hg; apply (Hok nm g); apply elem_of_cons; by right).
    destruct (dt_gmatch fnmatch name (Some (prv pdp))); [|by apply IH].
    destruct (Hok name f ltac:(apply elem_of_cons; by left) h ps (ProbeDesc (id pdp) name (mod_ pdp) (fun_ pdp) (prb pdp)) R Hsz Hu) as (ps1 & R1 & Hs1 & Hu1).
    destruct (IH _ _ Hok' R1 Hs1 Hu1) as (ps2 & R2 & Hs2 & Hu2). exists (ps1 ++ ps2). by rewrite app_assoc.
  - apply IH; try done. intros nm g Hg; apply (Hok nm g); apply elem_of_cons; by right.
Qed.

(** C20: On a handle whose array and tables hold probes of different full names,
    with providers that keep it so (those they add have new full names) and a
    description without an id, dt_probe_iter() first lets the providers add probes,
    and then calls the function once for each probe that matches the description and
    for no other, whichever table it walks, until the function returns something
    other than 0; it fails when no probe matches.  Without a description it visits
    all probes, in the order of their ids.  (Of several probes with one full name, a
    description without patterns visits only the last one: the premise on full names
    is needed.) *)
Theorem dt_probe_iter_correct {A} fnmatch (func : A -> probe -> A * Z) provs h ps pdp arg :
  Fnmatch fnmatch -> provides_ok provs -> rep chr h ps -> 0 < dt_probes_sz h -> NoDup (fqn <$> ps) -> id pdp = DTRACE_IDNONE ->
  dt_probe_iter chr fnmatch func provs h None arg = Some (h, iter_spec func ps arg) /\
  exists ps' h' l, rep chr h' (ps ++ ps') /\ l ≡ₚ filter (matches fnmatch pdp) (ps ++ ps') /\
    dt_probe_iter chr fnmatch func provs h (Some pdp) arg = Some (h', iter_spec func l arg).
Proof.
  intros F Hok R Hsz Hu Hid. split.
  - unfold dt_probe_iter. rewrite (all_probes_rep chr h ps R Hsz). cbn [mbind option_bind].
    rewrite iter_list_spec. by rewrite filter_all.
  - destruct (provide_all_rep fnmatch provs h ps pdp Hok R Hsz Hu) as (ps' & R' & Hsz' & Hu').
    destruct (iter_by_name chr fnmatch func provs h _ pdp arg R' Hsz' Hu' Hid) as (l & Hl & E). by exists ps', (provide_all fnmatch provs h pdp), l.
Qed.
End Sequences.

(** dt_probe_info() learns whether one or several probes match. *)
Lemma first_match_counts l : iter_spec dt_probe_first_match l None =
  match l with [] => (None, -1) | [p] => (Some p, 0) | p :: _ => (Some p, 1) end.
Proof. by destruct l as [|p [|q l]]. Qed.

(** ** Examples *)

Module Inst.
(** Patterns with * and ?, as an instance of fnmatch(). *)
Fixpoint glob (p s : bytes) : bool :=
  match p with
  | [] => match s with [] => true | _ => false end
  | c :: p =>
      if c =? 42 then
        (fix star (s : bytes) : bool := glob p s || match s with [] => false | _ :: s => star s end) s
      else match s with [] => false | d :: s => ((c =? 63) || (c =? d)) && glob p s end
  end.

#[export] Instance glob_fnmatch : Fnmatch glob.
Proof.
  split. induction p as [|c p IH]; intros s H; cbn [glob strisglob] in *.
  - destruct s; [done|]. by rewrite bool_decide_eq_false_2.
  - destruct ((c =? 91) || (c =? 63) || (c =? 42) || (c =? 92)) eqn:E; [done|]. rewrite !orb_false_iff in E.
    destruct E as [[[_ ->] ->] _]. destruct s as [|d s]; [by rewrite bool_decide_eq_false_2|]. cbn [orb]. rewrite IH by done.
    destruct (Z.eqb_spec c d) as [->|Hne]; cbn [andb].
    + apply bool_decide_ext. split; congruence.
    + rewrite bool_decide_eq_false_2; [done|]. congruence.
Qed.

(** syscall::read:entry, syscall::read:return and fbt:vmlinux:vfs_read:entry, of which
    the second is deleted again, and then io:::start. *)
Definition ops : list probe_op :=
  [PInsert [115] [118] [114] [101]; PInsert [115] [118] [114] [120]; PInsert [102] [118] [118; 114] [101];
   PDelete (ProbeDesc 2 [115] [118] [114] [120]); PInsert [105] [] [] [103]].
Definition live : list probe :=
  [ProbeDesc 1 [115] [118] [114] [101]; ProbeDesc 3 [102] [118] [118; 114] [101]; ProbeDesc 4 [105] [] [] [103]].
Definition start : hdl := default (Hdl [] 0 0 (Htab [] 0 0 0 0) (Htab [] 0 0 0 0) (Htab [] 0 0 0 0) (Htab [] 0 0 0 0) (Htab [] 0 0 0 0)) dt_probe_init.
Definition h : hdl := default start (run_seq (run_op char_signed) (Some start) ops).

Lemma h_rep : rep char_signed h live.
Proof.
  destruct (rep_init char_signed) as (h0 & E0 & R0). assert (h0 = start) as -> by (injection E0 as <-; reflexivity).
  destruct (run_probe_ops_rep char_signed ops start [] 5 live R0) as (h' & Eh & R & _); [vm_compute; reflexivity|vm_compute; reflexivity|].
  unfold h. rewrite Eh. exact R.
Qed.


(** The probes of function *r* named e: the table by probe name is searched. *)
Definition pattern : dtrace_probedesc := ProbeDesc 0 [] [118] [42; 114; 42] [101].


(** A provider whose probes all exist already. *)
Definition provs : providers := [([115], Some (λ h _, h)); ([102], None)].
Definition collect (n : list Z) (p : probe) : list Z * Z := (n ++ [id p], 0).

Lemma dt_probe_iter_correct_witness :
  (snd <$> dt_probe_iter char_signed glob collect provs h (Some pattern) []) = Some ([3; 1], 0) /\
  exists ps' h' l, rep char_signed h' (live ++ ps') /\ l ≡ₚ filter (matches glob pattern) (live ++ ps') /\
    dt_probe_iter char_signed glob collect provs h (Some pattern) [] = Some (h', iter_spec collect l []).
Proof.
  split; [vm_compute; reflexivity|].
  apply (dt_probe_iter_correct char_signed glob collect provs h live pattern [] glob_fnmatch).
  - intros name f Hf h0 ps d R Hs Hu. apply elem_of_cons in Hf as [[= -> ->]|Hf]; [exists []; by rewrite app_nil_r|].
    by apply list_elem_of_singleton in Hf.
  - exact h_rep.
  - vm_compute; reflexivity.
  - apply (bool_decide_unpack _). vm_compute. exact I.
  - reflexivity.
Defined.

(** Probes with the same four names: a description without patterns visits only the last one. *)
Example exact_name_visits_one :
  let h := default start (run_seq (run_op char_signed) (Some start) [PInsert [1] [2] [3] [4]; PInsert [1] [2] [3] [4]]) in
  (snd <$> dt_probe_iter char_signed glob collect [] h (Some (ProbeDesc 0 [1] [2] [3] [4])) []) = Some ([2], 0) /\
  (snd <$> dt_probe_iter char_signed glob collect [] h (Some (ProbeDesc 0 [] [2] [3] [4])) []) = Some ([2; 1], 0).
Proof. vm_compute. done. Qed.

(** A table whose insertion fails for lack of memory does not know the probe, which exists nonetheless. *)
Example insert_error_ignored :
  match dt_probe_insert char_signed start [1] [2] [3] [4] (replicate 10 true ++ [false; false] ++ replicate 5 true) with
  | Some (Some p, h, _) =>
      dtrace_id2desc h 1 = Some (Some p) /\ dt_probe_lookup char_signed glob h (ProbeDesc 0 [1] [2] [3] [4]) = Some (Some p) /\
      dt_probe_lookup char_signed glob h (ProbeDesc 0 [] [2] [] []) = Some None
  | _ => False
  end.
Proof. vm_compute. done. Qed.
End Inst.
