(* ===== verification/Usdt.v ===== *)
(** * The pipes between dtprobed and its parser (libcommon/usdt_parser.c, usdt_parser_host.c)

    dtprobed hands the data of a program to a jailed parser over a pipe, and reads
    messages back over another.  read() and write() may transfer any part of what
    they are asked for, and may fail; the outcomes are given by a list.  The bytes of
    the messages are those of dof_parsed_t.

    The theorems: without failures, what is written is read again, however the system
    calls divide it, and each message is read by itself. *)

From stdpp Require Import base list numbers option sorting sets.
From S2P Require Import Prelude Str Dof.

(** ** System calls *)

(** At most [n + 1] bytes, or -1. *)
Inductive io := Moved (n : nat) | Fails.

(** The loop waits for ever, or aborts, or accesses memory it must not; or it returns. *)
Inductive io_res (A : Type) := Blocked | Abort | Crash | Ret (a : A).
Arguments Blocked {A}.
Arguments Abort {A}.
Arguments Crash {A}.
Arguments Ret {A} a.

#[export] Instance io_ret : MRet io_res := λ A a, Ret a.
#[export] Instance io_bind : MBind io_res := λ A B f r,
  match r with Blocked => Blocked | Abort => Abort | Crash => Crash | Ret a => f a end.

(** -1 as a size_t *)
Definition SIZE_MAX : Z := 2 ^ 64 - 1.

(** ** Writing *)

(** The loop of usdt_parser_write_one(): [ret < 0] never holds, since [ret] is a size_t. *)
Fixpoint write_loop (ev : list io) (buf : list Z) (i : Z) (out : list Z) : io_res (list Z * list io) :=
  if i >=? Z.of_nat (length buf) then Ret (out, ev)
  else
    match ev with
    | [] => Blocked
    | Fails :: ev => write_loop ev buf (u64 (i + SIZE_MAX)) out
    | Moved n :: ev =>
        let ret := Z.min (Z.of_nat (S n)) (Z.of_nat (length buf) - i) in
        write_loop ev buf (u64 (i + ret)) (out ++ take (Z.to_nat ret) (drop (Z.to_nat i) buf))
    end.

(** Always returns 0. *)
Definition usdt_parser_write_one (ev : list io) (buf out : list Z) : io_res (list Z * list io) := write_loop ev buf 0 out.

(** usdt_data_t, the list of blocks being linked through [next]. *)
Record usdt_data := UsdtData { base : Z; size : Z; buf : list Z }.

Fixpoint write_blocks (ev : list io) (data : list usdt_data) (out : list Z) : io_res (list Z * list io) :=
  match data with
  | [] => mret (out, ev)
  | blk :: data =>
      '(out, ev) ← usdt_parser_write_one ev (le_bytes 8 (base blk)) out;
      '(out, ev) ← usdt_parser_write_one ev (le_bytes 8 (size blk)) out;
      '(out, ev) ← usdt_parser_write_one ev (take (Z.to_nat (size blk)) (buf blk)) out;
      write_blocks ev data out
  end.

(** [dh]: the bytes of the dof_helper_t. *)
Definition usdt_parser_host_write (ev : list io) (dh : list Z) (data : list usdt_data) (out : list Z) : io_res (list Z * list io) :=
  '(out, ev) ← usdt_parser_write_one ev dh out;
  '(out, ev) ← usdt_parser_write_one ev (le_bytes 8 (Z.of_nat (length data))) out;
  write_blocks ev data out.

(** ** Reading *)

Definition sizeof_dof_helper : Z := 80.
Definition usdt_maxcount : Z := 2.
Definition usdt_maxsize : Z := 256 * 1024 * 1024.

(** The loop of usdt_copyin(); [None] is NULL.  A read at the end of the input returns 0. *)
Fixpoint copyin_loop (ev : list io) (buf : list Z) (i : Z) (inp : list Z) : io_res (option (list Z) * list Z * list io) :=
  if i >=? Z.of_nat (length buf) then Ret (Some buf, inp, ev)
  else
    match ev with
    | [] => Blocked
    | Fails :: ev => copyin_loop ev buf (u64 (i + SIZE_MAX)) inp
    | Moved n :: ev =>
        let ret := Z.min (Z.of_nat (S n)) (Z.min (Z.of_nat (length inp)) (Z.of_nat (length buf) - i)) in
        if ret =? 0 then Ret (None, inp, ev)
        else copyin_loop ev (store (take (Z.to_nat ret) inp) (Z.to_nat i) buf) (u64 (i + ret)) (drop (Z.to_nat ret) inp)
    end.

(** abort() if there is no memory. *)
Definition must_malloc (m : allocs) : io_res allocs := let '(ok, m) := malloc m in if (ok : bool) then Ret m else Abort.

(** [fresh]: [buf_] is NULL, and the buffer is allocated. *)
Definition usdt_copyin (ev : list io) (m : allocs) (fresh : bool) (sz : Z) (inp : list Z)
  : io_res (option (list Z) * list Z * list io * allocs) :=
  m ← (if fresh then must_malloc m else mret m);
  '(r, inp, ev) ← copyin_loop ev (replicate (Z.to_nat sz) 0) 0 inp;
  mret (r, inp, ev, m).

Definition usdt_copyin_helper (ev : list io) (m : allocs) (inp : list Z) := usdt_copyin ev m true sizeof_dof_helper inp.

(** A number; abort() if it cannot be read. *)
Definition copyin_num (ev : list io) (m : allocs) (inp : list Z) : io_res (Z * list Z * list io * allocs) :=
  '(r, inp, ev, m) ← usdt_copyin ev m false 8 inp;
  match r with None => Abort | Some b => mret (le b, inp, ev, m) end.

(** usdt_error(out, E2BIG, ...): the text and the message are allocated; the result has the
    numbers of the errors that are written to [out]. *)
Definition E2BIG : Z := 7.
Definition copyin_error {A} (a : A) (m : allocs) : io_res (A * list Z * allocs) :=
  m ← must_malloc m; m ← must_malloc m; mret (a, [E2BIG], m).

(** The block, or [None], with the new value of [*ok] and the errors. *)
Definition usdt_copyin_block (ev : list io) (m : allocs) (inp : list Z)
  : io_res (option usdt_data * bool * list Z * list Z * list io * allocs) :=
  m ← must_malloc m;
  '(base, inp, ev, m) ← copyin_num ev m inp;
  '(size, inp, ev, m) ← copyin_num ev m inp;
  if size >=? usdt_maxsize then '(r, errs, m) ← copyin_error None m; mret (r, true, errs, inp, ev, m)
  else
    '(r, inp, ev, m) ← usdt_copyin ev m true size inp;
    match r with
    | None => mret (None, false, [], inp, ev, m)
    | Some b => mret (Some (UsdtData base size b), true, [], inp, ev, m)
    end.

Fixpoint copyin_blocks (cnt : nat) (ev : list io) (m : allocs) (inp : list Z)
  : io_res (option (list usdt_data) * bool * list Z * list Z * list io * allocs) :=
  match cnt with
  | O => mret (Some [], true, [], inp, ev, m)
  | S cnt =>
      '(blk, ok, errs, inp, ev, m) ← usdt_copyin_block ev m inp;
      match blk with
      | None => mret (None, ok, errs, inp, ev, m)
      | Some blk =>
          '(l, ok, errs, inp, ev, m) ← copyin_blocks cnt ev m inp;
          mret ((λ l, blk :: l) <$> l, ok, errs, inp, ev, m)
      end
  end.

(** [None] is NULL after an error; no blocks at all are also NULL, here [Some []]. *)
Definition usdt_copyin_data (ev : list io) (m : allocs) (inp : list Z)
  : io_res (option (list usdt_data) * bool * list Z * list Z * list io * allocs) :=
  '(cnt, inp, ev, m) ← copyin_num ev m inp;
  if cnt >? usdt_maxcount then '(r, errs, m) ← copyin_error None m; mret (r, true, errs, inp, ev, m)
  else copyin_blocks (Z.to_nat cnt) ev m inp.

(** ** Messages *)

Definition sizeof_dof_parsed : Z := 48.
(** offsetof(dof_parsed_t, type) *)
Definition offsetof_type : Z := 8.

(** The loop of usdt_parser_host_read().  The result of poll() makes no difference: it is
    kept in a size_t and only compared with 0 in [ret < 0]. *)
Fixpoint host_read_loop (ev : list io) (m : allocs) (reply : list Z) (i sz : Z) (inp : list Z)
  : io_res (option (list Z) * list Z * list io * allocs) :=
  if i >=? sz then Ret (Some reply, inp, ev, m)
  else
    match ev with
    | [] => Blocked
    | e :: ev =>
        let moved := match e with Fails => 0 | Moved n => Z.min (Z.of_nat (S n)) (Z.min (Z.of_nat (length inp)) (sz - i)) end in
        let ret := match e with Fails => SIZE_MAX | Moved _ => moved end in
        let reply := store (take (Z.to_nat moved) inp) (Z.to_nat i) reply in
        let inp := drop (Z.to_nat moved) inp in
        if ret =? 0 then Ret (None, inp, ev, m)
        else
          let size := le (take 8 reply) in
          let sz := if (i <? offsetof_type) && (u64 (i + ret) >=? offsetof_type) then size else sz in
          let end_ := u64 (i + ret) in
          if sz >? sizeof_dof_parsed then
            let '(ok, m) := malloc m in
            if negb ok then Ret (None, inp, ev, m)
            else if end_ >? size then Crash
            else host_read_loop ev m (take (Z.to_nat end_) reply ++ replicate (Z.to_nat (size - end_)) 0) end_ sz inp
          else host_read_loop ev m reply end_ sz inp
    end.

Definition usdt_parser_host_read (ev : list io) (m : allocs) (inp : list Z) : io_res (option (list Z) * list Z * list io * allocs) :=
  let '(ok, m) := malloc m in
  if negb ok then Ret (None, inp, ev, m)
  else host_read_loop ev m (replicate (Z.to_nat sizeof_dof_parsed) 0) 0 offsetof_type inp.

(** The messages of the parser as dof_parsed_t; [txt] is the text of an error. *)
Definition header (size type : Z) : list Z := le_bytes 8 size ++ le_bytes 4 type ++ replicate 4 0.
Definition framed (type : Z) (body : list Z) : list Z := header (16 + Z.of_nat (length body)) type ++ body.
Definition cstring (s : list Z) : list Z := s ++ [0].

Definition encode (txt : bytes) (x : msg) : list Z :=
  match x with
  | DIT_PROVIDER nprobes name => framed 0 (le_bytes 8 nprobes ++ cstring name)
  | DIT_PROBE ntp nargc xargc mod_ func name =>
      framed 1 (le_bytes 8 ntp ++ le_bytes 8 nargc ++ le_bytes 8 xargc ++ cstring mod_ ++ cstring func ++ cstring name)
  | DIT_TRACEPOINT addr is_enabled => framed 2 (le_bytes 8 addr ++ le_bytes 4 is_enabled ++ replicate 20 0)
  | DIT_TRACEPOINT_ARGS addr is_enabled args => framed 2 (le_bytes 8 addr ++ le_bytes 4 is_enabled ++ cstring args)
  | DIT_ERR err_no => framed 3 (le_bytes 4 err_no ++ cstring txt)
  | DIT_ARGS_NATIVE args => framed 5 args
  | DIT_ARGS_XLAT args => framed 6 args
  | DIT_ARGS_MAP argmap => framed 7 argmap
  end.
Definition encode_eof : list Z := framed 4 [].

(** ** One round of the parser *)

Section Parse.
(** qsort(), usdt_parse_notes() (see Notes.v) for a module and an address, and the texts of
    the errors. *)
Variable qsort : forall A, (A -> A -> Z) -> list A -> list A.
Variable notes : list Z -> Z -> list usdt_data -> D unit.
Variable txt : msg -> bytes.

(** What usdt_parse() writes: the messages of the parser, and DIT_EOF if it succeeds.
    [dofhp_addr], [dofhp_dof]: words of the dof_helper_t; [None]: an access outside the
    data.  For DOF the data is the first block. *)
Definition usdt_parse (dh : list Z) (data : list usdt_data) (m : allocs) : option (list (list Z)) :=
  let dofhp_addr := load 8 64 dh in
  let dofhp_dof := load 8 72 dh in
  let run :=
    match data with
    | blk :: _ =>
        if negb (dofhp_dof =? 0)
        then usdt_parse_dof qsort (cstr dh) dofhp_addr (Dst (buf blk) [] m)
        else notes (cstr dh) dofhp_addr data (Dst [] [] m)
    | [] => if negb (dofhp_dof =? 0) then Oob else notes (cstr dh) dofhp_addr [] (Dst [] [] m)
    end in
  match run with
  | Oob => None
  | Fail s => Some ((λ x, encode (txt x) x) <$> out s)
  | Done _ s => Some (((λ x, encode (txt x) x) <$> out s) ++ [encode_eof])
  end.
End Parse.

(** ** Loops that do not fail *)

(** The next [n] system calls transfer something, and none ever fails. *)
Definition goes_on (ev : list io) (n : Z) : Prop := Forall (λ e, e <> Fails) ev /\ n <= Z.of_nat (length ev).

Lemma goes_on_le ev n k : goes_on ev n -> k <= n -> goes_on ev k.
Proof. intros [H Hn] Hk. split; [done|lia]. Qed.

Lemma goes_on_cons ev n : 0 < n -> goes_on ev n -> exists k ev', ev = Moved k :: ev' /\ goes_on ev' (n - 1).
Proof.
  intros Hn [H Hl]. destruct ev as [|e ev]; [cbn in Hl; lia|]. apply Forall_cons_1 in H as [He H].
  destruct e as [k|]; [|done]. exists k, ev. split; [done|]. split; [done|]. cbn [length] in Hl. lia.
Qed.

Lemma write_loop_ok ev buf i out k : 0 <= i <= Z.of_nat (length buf) -> Z.of_nat (length buf) < 2 ^ 64 -> 0 <= k ->
  goes_on ev (Z.of_nat (length buf) - i + k) ->
  exists ev', write_loop ev buf i out = Ret (out ++ drop (Z.to_nat i) buf, ev') /\ goes_on ev' k.
Proof.
  intros Hi Hl Hk. revert i out Hi. induction ev as [|e ev IH]; intros i out Hi G; cbn [write_loop];
    (destruct (Z.geb_spec i (Z.of_nat (length buf))) as [Hge|Hlt];
     [eexists; split; [rewrite drop_ge, app_nil_r by lia; reflexivity|eapply goes_on_le; [done|lia]]|]).
  - destruct G as [_ G]. cbn [length] in G. lia.
  - destruct (goes_on_cons (e :: ev) (Z.of_nat (length buf) - i + k)) as (n & ev' & Ee & G'); [lia|done|]. injection Ee as -> <-. cbv zeta.
    set (ret := Z.min _ _). assert (u64 (i + ret) = i + ret) as -> by (apply wrapu_small; lia).
    destruct (IH (i + ret) (out ++ take (Z.to_nat ret) (drop (Z.to_nat i) buf))) as (ev' & E & G2); [lia|eapply goes_on_le; [done|lia]|].
    exists ev'. split; [|done]. rewrite E. do 2 f_equal. rewrite <- app_assoc. f_equal.
    replace (Z.to_nat (i + ret)) with (Z.to_nat i + Z.to_nat ret)%nat by lia. rewrite <- drop_drop. apply take_drop.
Qed.

Lemma write_one_ok ev buf out k : Z.of_nat (length buf) < 2 ^ 64 -> 0 <= k -> goes_on ev (Z.of_nat (length buf) + k) ->
  exists ev', usdt_parser_write_one ev buf out = Ret (out ++ buf, ev') /\ goes_on ev' k.
Proof.
  intros Hl Hk G. destruct (write_loop_ok ev buf 0 out k) as (ev' & E & G'); [lia..|by rewrite Z.sub_0_r|]. by exists ev'.
Qed.

(** The first bytes of the input, in the buffer. *)
Lemma store_extend (got inp rest : list Z) n : (n <= length inp)%nat -> (n <= length rest)%nat ->
  store (take n inp) (length got) (got ++ rest) = (got ++ take n inp) ++ drop n rest.
Proof.
  intros H1 H2. unfold store. rewrite take_app_length, length_take, Nat.min_l by done. rewrite <- app_assoc. do 2 f_equal.
  rewrite drop_app_ge by lia. f_equal. lia.
Qed.

Lemma copyin_loop_ok ev got rest inp k : (length rest <= length inp)%nat -> Z.of_nat (length got + length rest) < 2 ^ 64 -> 0 <= k ->
  goes_on ev (Z.of_nat (length rest) + k) ->
  exists ev', copyin_loop ev (got ++ rest) (Z.of_nat (length got)) inp =
    Ret (Some (got ++ take (length rest) inp), drop (length rest) inp, ev') /\ goes_on ev' k.
Proof.
  intros Hr Hl Hk. revert got rest inp Hr Hl. induction ev as [|e ev IH]; intros got rest inp Hr Hl G; cbn [copyin_loop];
    rewrite length_app;
    (destruct (Z.geb_spec (Z.of_nat (length got)) (Z.of_nat (length got + length rest))) as [Hge|Hlt];
     [assert (rest = []) as -> by (apply length_zero_iff_nil; lia); cbn [length]; rewrite take_0, !app_nil_r, drop_0; eexists; split; [reflexivity|eapply goes_on_le; [done|cbn; lia]]|]).
  - destruct G as [_ G]. cbn [length] in G. lia.
  - destruct (goes_on_cons (e :: ev) (Z.of_nat (length rest) + k)) as (n & ev' & Ee & G'); [lia|done|]. injection Ee as -> <-. cbv zeta.
    set (ret := Z.min _ _). destruct (Z.eqb_spec ret 0); [lia|].
    assert (u64 (Z.of_nat (length got) + ret) = Z.of_nat (length got) + ret) as -> by (apply wrapu_small; lia).
    rewrite Nat2Z.id, store_extend by lia.
    destruct (IH (got ++ take (Z.to_nat ret) inp) (drop (Z.to_nat ret) rest) (drop (Z.to_nat ret) inp)) as (ev' & E & G2).
    + rewrite !length_drop. lia.
    + rewrite length_app, length_take, length_drop. lia.
    + rewrite length_drop. eapply goes_on_le; [done|lia].
    + exists ev'. split; [|done]. replace (Z.of_nat (length got) + ret) with (Z.of_nat (length (got ++ take (Z.to_nat ret) inp)))
        by (rewrite length_app, length_take; lia).
      rewrite E. rewrite length_drop, drop_drop, <- app_assoc. repeat f_equal; [|lia].
      rewrite <- (take_drop (Z.to_nat ret) (take (length rest) inp)). rewrite take_take, Nat.min_l by lia. f_equal.
      rewrite skipn_firstn_comm. done.
Qed.

Lemma must_malloc_ok m n : plenty m (S n) -> exists m', must_malloc m = Ret m' /\ plenty m' n.
Proof. intros (m' & E & P)%plenty_malloc. exists m'. unfold must_malloc. by rewrite E. Qed.

Lemma copyin_ok ev m m' (fresh : bool) (b inp : list Z) k : Z.of_nat (length b) < 2 ^ 64 -> 0 <= k -> goes_on ev (Z.of_nat (length b) + k) ->
  (if fresh then must_malloc m else Ret m) = Ret m' ->
  exists ev', usdt_copyin ev m fresh (Z.of_nat (length b)) (b ++ inp) = Ret (Some b, inp, ev', m') /\ goes_on ev' k.
Proof.
  intros Hl Hk G Em. unfold usdt_copyin. change (mret m) with (@Ret allocs m). rewrite Em. cbn [mbind io_bind]. rewrite Nat2Z.id.
  destruct (copyin_loop_ok ev [] (replicate (length b) 0) (b ++ inp) k) as (ev' & E & G').
  - rewrite length_replicate, length_app. lia.
  - cbn. rewrite length_replicate. lia.
  - done.
  - by rewrite length_replicate.
  - exists ev'. split; [|done]. change (Z.of_nat (length (@nil Z))) with 0 in E. cbn [app] in E. rewrite E. cbn [mbind io_bind].
    rewrite length_replicate, take_app_length, drop_app_length. done.
Qed.

Lemma copyin_num_ok ev m v inp k : 0 <= v < 2 ^ 64 -> 0 <= k -> goes_on ev (8 + k) ->
  exists ev', copyin_num ev m (le_bytes 8 v ++ inp) = Ret (v, inp, ev', m) /\ goes_on ev' k.
Proof.
  intros Hv Hk G. destruct (copyin_ok ev m m false (le_bytes 8 v) inp k) as (ev' & E & G'); rewrite ?length_le_bytes; [lia|done|done|done|].
  rewrite length_le_bytes in E. exists ev'. split; [|done]. unfold copyin_num. change 8 with (Z.of_nat 8). rewrite E. cbn.
  do 4 f_equal. by apply (le_le_bytes 8).
Qed.

(** ** The data of a program is read as it was written *)

(** What the parser accepts as a block. *)
Definition block_ok (blk : usdt_data) : Prop :=
  0 <= base blk < 2 ^ 64 /\ size blk = Z.of_nat (length (buf blk)) /\ size blk < usdt_maxsize.

Definition block_bytes (blk : usdt_data) : list Z := le_bytes 8 (base blk) ++ le_bytes 8 (size blk) ++ buf blk.
Definition pipe_bytes (dh : list Z) (data : list usdt_data) : list Z :=
  dh ++ le_bytes 8 (Z.of_nat (length data)) ++ concat (block_bytes <$> data).

Lemma length_block_bytes blk : length (block_bytes blk) = (16 + length (buf blk))%nat.
Proof. unfold block_bytes. rewrite !length_app, !length_le_bytes. lia. Qed.

Ltac next_write := match goal with |- context [usdt_parser_write_one ?ev ?b ?o] =>
  match goal with G : goes_on ev ?n |- _ =>
    destruct (write_one_ok ev b o (n - Z.of_nat (length b))) as (? & -> & ?);
    rewrite ?length_le_bytes in *; [lia|lia|eapply goes_on_le; [exact G|lia]|clear G; cbn [mbind io_bind]] end end.

Lemma write_blocks_ok data ev out k : Forall block_ok data -> 0 <= k ->
  goes_on ev (Z.of_nat (length (concat (block_bytes <$> data))) + k) ->
  exists ev', write_blocks ev data out = Ret (out ++ concat (block_bytes <$> data), ev') /\ goes_on ev' k.
Proof.
  intros HF Hk. revert ev out. induction HF as [|blk data [Hb [Hs Hm]] _ IH]; intros ev out G; cbn [write_blocks fmap list_fmap concat].
  - rewrite app_nil_r. exists ev. split; [done|]. eapply goes_on_le; [exact G|cbn; lia].
  - cbn [fmap list_fmap concat] in G. rewrite length_app, length_block_bytes in G. unfold usdt_maxsize in Hm.
    rewrite Hs, Nat2Z.id, take_ge by lia. do 3 next_write.
    destruct (IH x1 (((out ++ le_bytes 8 (base blk)) ++ le_bytes 8 (Z.of_nat (length (buf blk)))) ++ buf blk)) as (ev' & E & G');
      [eapply goes_on_le; [done|lia]|].
    exists ev'. split; [|done]. rewrite E. unfold block_bytes. rewrite Hs, <- !app_assoc. done.
Qed.

Lemma copyin_block_ok blk ev m n inp k : block_ok blk -> 0 <= k -> goes_on ev (Z.of_nat (length (block_bytes blk)) + k) -> plenty m (2 + n) ->
  exists ev' m', usdt_copyin_block ev m (block_bytes blk ++ inp) = Ret (Some blk, true, [], inp, ev', m') /\ goes_on ev' k /\ plenty m' n.
Proof.
  intros (Hb & Hs & Hm) Hk G (m1 & E1 & P1)%must_malloc_ok. destruct (must_malloc_ok m1 n P1) as (m2 & E2 & P2). rewrite length_block_bytes in G. unfold usdt_copyin_block, block_bytes. unfold usdt_maxsize in Hm. rewrite E1. cbn [mbind io_bind].
  rewrite <- !app_assoc. destruct blk as [b s bf]; cbn [base size buf] in *.
  destruct (copyin_num_ok ev m1 b (le_bytes 8 s ++ bf ++ inp) (8 + Z.of_nat (length bf) + k)) as (e1 & -> & G1);
    [lia|lia|eapply goes_on_le; [done|lia]|]. cbn [mbind io_bind].
  destruct (copyin_num_ok e1 m1 s (bf ++ inp) (Z.of_nat (length bf) + k)) as (e2 & -> & G2);
    [lia|lia|eapply goes_on_le; [done|lia]|]. cbn [mbind io_bind].
  unfold usdt_maxsize. destruct (Z.geb_spec s (256 * 1024 * 1024)); [lia|].
  destruct (copyin_ok e2 m1 m2 true bf inp k) as (e3 & E & G3); [lia|lia|done|done|]. rewrite Hs, E. by exists e3, m2.
Qed.

Lemma copyin_blocks_ok data ev m inp k : Forall block_ok data -> 0 <= k ->
  goes_on ev (Z.of_nat (length (concat (block_bytes <$> data))) + k) -> plenty m (2 * length data) ->
  exists ev' m', copyin_blocks (length data) ev m (concat (block_bytes <$> data) ++ inp) = Ret (Some data, true, [], inp, ev', m') /\ goes_on ev' k.
Proof.
  intros HF Hk. revert ev m inp. induction HF as [|blk data Hb _ IH]; intros ev m inp G P; cbn [length copyin_blocks fmap list_fmap concat].
  - exists ev, m. split; [done|]. eapply goes_on_le; [exact G|cbn; lia].
  - cbn [fmap list_fmap concat] in G. rewrite length_app in G. rewrite <- app_assoc.
    destruct (copyin_block_ok blk ev m (2 * length data) (concat (block_bytes <$> data) ++ inp) (Z.of_nat (length (concat (block_bytes <$> data))) + k))
      as (e1 & m1 & -> & G1 & P1); [done|lia|eapply goes_on_le; [done|lia]|eapply plenty_le; [exact P|cbn [length]; lia]|]. cbn [mbind io_bind].
    destruct (IH e1 m1 inp G1 P1) as (e2 & m2 & -> & G2). by exists e2, m2.
Qed.

(** C21: However the system calls divide the data, as long as none fails and there
    is memory (the parser aborts without), what usdt_parser_host_write() puts into
    the pipe is what the parser takes out of it: the dof_helper_t, then at most two
    blocks of less than 256 MB, leaving what follows in the pipe and reporting no
    error. *)
Theorem usdt_pipe_roundtrip wev rev m dh data rest :
  length dh = 80%nat -> (length data <= 2)%nat -> Forall block_ok data ->
  goes_on wev (Z.of_nat (length (pipe_bytes dh data))) -> goes_on rev (Z.of_nat (length (pipe_bytes dh data))) ->
  plenty m (1 + 2 * length data) ->
  exists pipe wev' inp rev1 rev2 m1 m2,
    usdt_parser_host_write wev dh data [] = Ret (pipe, wev') /\
    usdt_copyin_helper rev m (pipe ++ rest) = Ret (Some dh, inp, rev1, m1) /\
    usdt_copyin_data rev1 m1 inp = Ret (Some data, true, [], rest, rev2, m2).
Proof.
  intros Hdh Hd HF Gw Gr (m1 & Em & P1)%must_malloc_ok. unfold pipe_bytes in *. rewrite !length_app, length_le_bytes in *.
  unfold usdt_parser_host_write. do 2 next_write.
  destruct (write_blocks_ok data x0 (([] ++ dh) ++ le_bytes 8 (Z.of_nat (length data))) 0) as (wev' & -> & _);
    [done|lia|eapply goes_on_le; [done|lia]|].
  destruct (copyin_ok rev m m1 true dh (le_bytes 8 (Z.of_nat (length data)) ++ concat (block_bytes <$> data) ++ rest)
    (8 + Z.of_nat (length (concat (block_bytes <$> data))))) as (r1 & E1 & G1); [lia|lia|eapply goes_on_le; [done|lia]|done|].
  destruct (copyin_num_ok r1 m1 (Z.of_nat (length data)) (concat (block_bytes <$> data) ++ rest)
    (Z.of_nat (length (concat (block_bytes <$> data))))) as (r2 & E2 & G2); [lia|lia|done|].
  destruct (copyin_blocks_ok data r2 m1 rest 0) as (r3 & m3 & E3 & _); [done|lia|by rewrite Z.add_0_r|done|].
  eexists _, _, _, r1, r3, m1, m3. split; [done|]. split.
  - unfold usdt_copyin_helper, sizeof_dof_helper. rewrite <- !app_assoc, <- E1, Hdh. done.
  - unfold usdt_copyin_data. rewrite E2. cbn [mbind io_bind]. unfold usdt_maxcount.
    destruct (Z.gtb_spec (Z.of_nat (length data)) 2); [lia|]. by rewrite Nat2Z.id.
Qed.

(** ** Messages are read one by one *)

(** What usdt_parser_host_read() has read: [got] of the message [got ++ rest]. *)
Definition reading (got : list Z) (len : nat) : list Z * Z :=
  if (length got <? 8)%nat then (got ++ replicate (48 - length got) 0, 8)
  else (got ++ replicate (Nat.max 48 len - length got) 0, Z.of_nat len).

(** The message starts with its own size. *)
Definition sized (msg : list Z) : Prop := (8 <= length msg)%nat /\ le (take 8 msg) = Z.of_nat (length msg) /\ Z.of_nat (length msg) < 2 ^ 64.

Lemma extend_zeros (a : list Z) n b i : i = length a -> (n <= length b)%nat -> forall z, (n <= z)%nat ->
  store (take n b) i (a ++ replicate z 0) = (a ++ take n b) ++ replicate (z - n) 0.
Proof.
  intros -> Hn z Hz. rewrite store_extend by (rewrite ?length_replicate; lia). by rewrite drop_replicate.
Qed.

(** One read of something. *)
Lemma host_read_step n ev m got rest inp j : sized (got ++ rest) -> rest <> [] -> plenty m (S j) ->
  exists r m', (0 < r <= length rest)%nat /\ plenty m' j /\
    host_read_loop (Moved n :: ev) m (reading got (length (got ++ rest))).1 (Z.of_nat (length got)) (reading got (length (got ++ rest))).2
      (rest ++ inp) =
    host_read_loop ev m' (reading (got ++ take r rest) (length (got ++ rest))).1 (Z.of_nat (length (got ++ take r rest)))
      (reading (got ++ take r rest) (length (got ++ rest))).2 (drop r rest ++ inp).
Proof.
  intros (S8 & Sv & Sl) Hr P. set (L := length (got ++ rest)) in *.
  assert (0 < length rest)%nat as H0 by (destruct rest; [done|cbn; lia]).
  assert (L = length got + length rest)%nat as HL by (unfold L; apply length_app).
  set (lim := if (length got <? 8)%nat then (8 - length got)%nat else length rest).
  assert (0 < lim <= length rest)%nat as Hlim by (unfold lim; destruct (Nat.ltb_spec (length got) 8); lia).
  assert ((reading got L).2 = Z.of_nat (length got + lim)) as E2
    by (unfold reading, lim; destruct (Nat.ltb_spec (length got) 8); cbn [snd]; lia).
  set (r := Nat.min (S n) lim). exists r.
  cbn [host_read_loop]. rewrite E2. destruct (Z.geb_spec (Z.of_nat (length got)) (Z.of_nat (length got + lim))); [lia|].
  assert (Z.of_nat (S n) `min` (Z.of_nat (length (rest ++ inp)) `min` (Z.of_nat (length got + lim) - Z.of_nat (length got))) = Z.of_nat r)
    as -> by (rewrite length_app; lia).
  rewrite !Nat2Z.id. destruct (Z.eqb_spec (Z.of_nat r) 0); [lia|].
  rewrite take_app_le, drop_app_le by lia.
  set (g := got ++ take r rest).
  assert (length g = length got + r)%nat as Lg by (unfold g; rewrite length_app, length_take; lia).
  assert (exists z, store (take r rest) (length got) (reading got L).1 = g ++ replicate z 0 /\
      (z + length g = if (length got <? 8)%nat then 48 else Nat.max 48 L)%nat) as (z & -> & Hz).
  { unfold reading, lim in *. destruct (Nat.ltb_spec (length got) 8); cbn [fst];
      (eexists; split; [apply extend_zeros; lia|rewrite Lg; lia]). }
  assert (u64 (Z.of_nat (length got) + Z.of_nat r) = Z.of_nat (length g)) as -> by (rewrite Lg, <- Nat2Z.inj_add; apply wrapu_small; lia).
  assert ((8 <= length g)%nat -> le (take 8 (g ++ replicate z 0)) = Z.of_nat L) as Hle.
  { intros H8. rewrite take_app_le by lia. rewrite <- Sv. f_equal.
    transitivity (take 8 (g ++ drop r rest)); [by rewrite take_app_le by lia|]. unfold g. by rewrite <- app_assoc, take_drop. }
  assert ((if (Z.of_nat (length got) <? offsetof_type) && (Z.of_nat (length g) >=? offsetof_type)
     then le (take 8 (g ++ replicate z 0)) else Z.of_nat (length got + lim)) = (reading g L).2) as ->.
  { unfold reading, lim, offsetof_type in *. destruct (Z.ltb_spec (Z.of_nat (length got)) 8), (Z.geb_spec (Z.of_nat (length g)) 8),
      (Nat.ltb_spec (length got) 8), (Nat.ltb_spec (length g) 8); cbn [andb snd]; try lia; apply Hle; lia. }
  destruct (plenty_malloc m j P) as (m1 & -> & P1). cbn [negb].
  unfold sizeof_dof_parsed. destruct (Z.gtb_spec (reading g L).2 48) as [Hgt|Hle48].
  - exists m1. split; [lia|]. split; [done|]. unfold reading in *. destruct (Nat.ltb_spec (length g) 8); cbn [fst snd] in *; [lia|].
    rewrite Hle by lia. destruct (Z.gtb_spec (Z.of_nat (length g)) (Z.of_nat L)); [lia|].
    rewrite Nat2Z.id, take_app_length. f_equal. f_equal. f_equal. lia.
  - exists m. split; [lia|]. split; [eapply plenty_le; [done|lia]|]. f_equal. unfold reading in *.
    destruct (Nat.ltb_spec (length g) 8), (Nat.ltb_spec (length got) 8); cbn [fst snd] in *; f_equal; f_equal; lia.
Qed.

Lemma host_read_end ev m got inp : (8 <= length got)%nat ->
  host_read_loop ev m (reading got (length got)).1 (Z.of_nat (length got)) (reading got (length got)).2 inp =
  Ret (Some (got ++ replicate (48 - length got) 0), inp, ev, m).
Proof.
  intros H. unfold reading. destruct (Nat.ltb_spec (length got) 8); [lia|]. cbn [fst snd].
  replace (Nat.max 48 (length got) - length got)%nat with (48 - length got)%nat by lia.
  destruct ev; cbn [host_read_loop]; (destruct (Z.geb_spec (Z.of_nat (length got)) (Z.of_nat (length got))); [done|lia]).
Qed.

Lemma host_read_loop_ok ev m got rest inp k j : sized (got ++ rest) -> 0 <= k -> 
  goes_on ev (Z.of_nat (length rest) + k) -> plenty m (length rest + j) ->
  exists ev' m', host_read_loop ev m (reading got (length (got ++ rest))).1 (Z.of_nat (length got))
      (reading got (length (got ++ rest))).2 (rest ++ inp) =
    Ret (Some ((got ++ rest) ++ replicate (48 - length (got ++ rest)) 0), inp, ev', m') /\ goes_on ev' k /\ plenty m' j.
Proof.
  intros S Hk. revert m got rest S. induction ev as [|e ev IH]; intros m got rest S G P;
   (destruct (decide (rest = [])) as [->|Hne];
    [rewrite app_nil_r in *; eexists _, m; split; [apply host_read_end, S|]; by split; [eapply goes_on_le; [exact G|cbn; lia]|]|];
    assert (0 < length rest)%nat as H0 by (destruct rest; [done|cbn; lia])).
  - destruct G as [_ G]. cbn [length] in G. lia.
  - destruct (goes_on_cons (e :: ev) (Z.of_nat (length rest) + k)) as (n & ev' & Ee & G'); [lia|done|]. injection Ee as -> <-.
    destruct (host_read_step n ev m got rest inp (length rest - 1 + j)) as (r & m' & Hr & P' & ->); [done|done|eapply plenty_le; [done|lia]|].
    pose proof (IH m' (got ++ take r rest) (drop r rest)) as IH'. rewrite <- app_assoc, take_drop in IH'.
    apply IH'; [done|..].
    + rewrite length_drop. eapply goes_on_le; [done|lia].
    + rewrite length_drop. eapply plenty_le; [done|lia].
Qed.

(** A message, as dof_parsed_t has it: at least 48 bytes. *)
Definition padded (msg : list Z) : list Z := msg ++ replicate (48 - length msg) 0.

Lemma host_read_ok ev m msg inp k j : sized msg -> 0 <= k -> goes_on ev (Z.of_nat (length msg) + k) -> plenty m (S (length msg) + j) ->
  exists ev' m', usdt_parser_host_read ev m (msg ++ inp) = Ret (Some (padded msg), inp, ev', m') /\ goes_on ev' k /\ plenty m' j.
Proof.
  intros S Hk G P. unfold usdt_parser_host_read. destruct (plenty_malloc m (length msg + j) P) as (m1 & -> & P1). cbn [negb].
  exact (host_read_loop_ok ev m1 [] msg inp k j S Hk G P1).
Qed.

Lemma framed_sized type body : Z.of_nat (16 + length body) < 2 ^ 64 -> sized (framed type body).
Proof.
  intros H. unfold framed, header, sized. rewrite !length_app, !length_le_bytes, length_replicate.
  split; [lia|]. split; [|lia]. rewrite <- !app_assoc, take_app_le, take_ge by (rewrite length_le_bytes; lia).
  rewrite (le_le_bytes 8) by lia. lia.
Qed.

Fixpoint write_messages (ev : list io) (msgs : list (list Z)) (out : list Z) : io_res (list Z * list io) :=
  match msgs with
  | [] => mret (out, ev)
  | x :: msgs => '(out, ev) ← usdt_parser_write_one ev x out; write_messages ev msgs out
  end.

(** [n] calls of usdt_parser_host_read(). *)
Fixpoint read_messages (n : nat) (ev : list io) (m : allocs) (inp : list Z) : io_res (list (option (list Z)) * list Z) :=
  match n with
  | O => mret ([], inp)
  | S n =>
      '(r, inp, ev, m) ← usdt_parser_host_read ev m inp;
      '(l, inp) ← read_messages n ev m inp;
      mret (r :: l, inp)
  end.

Lemma write_messages_ok msgs ev out : Forall sized msgs -> goes_on ev (Z.of_nat (length (concat msgs))) ->
  exists ev', write_messages ev msgs out = Ret (out ++ concat msgs, ev').
Proof.
  intros HF. revert ev out. induction HF as [|x msgs (_ & _ & Hx) _ IH]; intros ev out G; cbn [write_messages concat].
  - exists ev. by rewrite app_nil_r.
  - cbn [concat] in G. rewrite length_app in G. next_write.
    destruct (IH x0 (out ++ x)) as (ev' & ->); [eapply goes_on_le; [done|lia]|]. exists ev'. by rewrite <- app_assoc.
Qed.

Lemma read_messages_ok msgs ev m inp : Forall sized msgs -> goes_on ev (Z.of_nat (length (concat msgs))) ->
  plenty m (length msgs + length (concat msgs)) ->
  read_messages (length msgs) ev m (concat msgs ++ inp) = Ret (Some ∘ padded <$> msgs, inp).
Proof.
  intros HF. revert ev m. induction HF as [|x msgs Hx _ IH]; intros ev m G P; cbn [read_messages concat length]; [done|].
  cbn [concat length] in G, P. rewrite length_app in G, P. rewrite <- app_assoc.
  destruct (host_read_ok ev m x (concat msgs ++ inp) (Z.of_nat (length (concat msgs))) (length msgs + length (concat msgs)))
    as (e1 & m1 & -> & G1 & P1); [done|lia|eapply goes_on_le; [done|lia]|eapply plenty_le; [done|lia]|].
  cbn [mbind io_bind]. by rewrite (IH e1 m1).
Qed.

Lemma encode_sized t x : Z.of_nat (length (encode t x)) < 2 ^ 64 -> sized (encode t x).
Proof.
  assert (forall type body, Z.of_nat (length (framed type body)) < 2 ^ 64 -> sized (framed type body)) as H.
  { intros type body Hl. apply framed_sized. unfold framed, header in Hl.
    rewrite !length_app, !length_le_bytes, length_replicate in Hl. lia. }
  destruct x; apply H.
Qed.

Lemma usdt_parse_sized qsort notes txt dh data m msgs : usdt_parse qsort notes txt dh data m = Some msgs ->
  Forall (λ b, Z.of_nat (length b) < 2 ^ 64) msgs -> Forall sized msgs.
Proof.
  assert (forall l : list msg, Forall (λ b, Z.of_nat (length b) < 2 ^ 64) ((λ x, encode (txt x) x) <$> l) ->
    Forall sized ((λ x, encode (txt x) x) <$> l)) as H.
  { intros l. rewrite !Forall_fmap. intros HF. eapply Forall_impl; [exact HF|]. intros x. apply encode_sized. }
  unfold usdt_parse. cbv zeta. destruct (match data with [] => _ | _ => _ end) as [|s|[] s]; intros E; simplify_eq; [apply H|].
  intros [H1 _]%Forall_app. apply Forall_app. split; [by apply H|]. constructor; [|done]. by apply framed_sized.
Qed.

(** C22: However the system calls divide them, as long as none fails and the allocations
    succeed, the messages that usdt_parse() writes, DIT_EOF included, are read by
    usdt_parser_host_read() one by one, each as the dof_parsed_t it was written as, and
    never with a byte of the next one. *)
Theorem usdt_messages_read qsort notes txt dh data m0 msgs wev rev m rest :
  usdt_parse qsort notes txt dh data m0 = Some msgs -> Forall (λ b, Z.of_nat (length b) < 2 ^ 64) msgs ->
  goes_on wev (Z.of_nat (length (concat msgs))) -> goes_on rev (Z.of_nat (length (concat msgs))) ->
  plenty m (length msgs + length (concat msgs)) ->
  exists pipe wev', write_messages wev msgs [] = Ret (pipe, wev') /\
    read_messages (length msgs) rev m (pipe ++ rest) = Ret (Some ∘ padded <$> msgs, rest).
Proof.
  intros E Hl Gw Gr P. pose proof (usdt_parse_sized _ _ _ _ _ _ _ E Hl) as S.
  destruct (write_messages_ok msgs wev [] S Gw) as (wev' & W). exists (concat msgs), wev'. split; [done|]. by apply read_messages_ok.
Qed.

(** ** Examples *)

Module Traffic.
(** One byte at a time, and up to seven. *)
Definition ones (n : nat) : list io := replicate n (Moved 0).
Definition sevens (n : nat) : list io := replicate n (Moved 6).
Definition dh : list Z := replicate 64 97 ++ le_bytes 8 4096 ++ le_bytes 8 1.
Definition blocks : list usdt_data := [UsdtData 4096 3 [1; 2; 3]; UsdtData 8192 0 []].

Lemma goes_on_replicate n k : goes_on (replicate n (Moved k)) (Z.of_nat n).
Proof. split; [by apply Forall_replicate|]. rewrite length_replicate. lia. Qed.

Lemma usdt_pipe_roundtrip_witness : exists pipe wev' inp rev1 rev2 m1 m2,
  usdt_parser_host_write (ones 123) dh blocks [] = Ret (pipe, wev') /\
  usdt_copyin_helper (sevens 123) (replicate 5 true) (pipe ++ [9; 9]) = Ret (Some dh, inp, rev1, m1) /\
  usdt_copyin_data rev1 m1 inp = Ret (Some blocks, true, [], [9; 9], rev2, m2).
Proof.
  apply usdt_pipe_roundtrip; [done|cbn; lia| |exact (goes_on_replicate 123 0)|exact (goes_on_replicate 123 6)|by exists []].
  unfold block_ok, usdt_maxsize. repeat constructor; cbn; lia.
Defined.

(** A parser of notes that finds a provider, and one that fails. *)
Definition notes (_ : list Z) (_ : Z) (_ : list usdt_data) : D unit := put (DIT_PROVIDER 1 [112]).
Definition no_notes (_ : list Z) (_ : Z) (_ : list usdt_data) : D unit := fail.
Definition dh0 : list Z := replicate 80 0.
Definition text (_ : msg) : bytes := replicate 60 120.

Lemma usdt_messages_read_witness :
  exists msgs, usdt_parse insertion_qsort notes text dh0 blocks [] = Some msgs /\
  exists pipe wev', write_messages (sevens 60) msgs [] = Ret (pipe, wev') /\
    read_messages (length msgs) (ones 60) (replicate 60 true) (pipe ++ [1]) = Ret (Some ∘ padded <$> msgs, [1]).
Proof.
  eexists. split; [vm_compute; reflexivity|].
  apply (usdt_messages_read insertion_qsort notes text dh0 blocks []); [vm_compute; reflexivity|repeat constructor; cbn; lia| | |].
  - eapply goes_on_le; [exact (goes_on_replicate 60 6)|cbn; lia].
  - eapply goes_on_le; [exact (goes_on_replicate 60 0)|cbn; lia].
  - exists (replicate 16 true). reflexivity.
Defined.

(** A failing write: nothing is written and nothing reported; later, a byte is written again. *)
Example write_fails : usdt_parser_write_one [Fails] [1; 2; 3] [] = Ret ([], []) /\
  usdt_parser_write_one [Moved 1; Fails; Moved 5] [1; 2; 3] [] = Ret ([1; 2; 2; 3], []).
Proof. done. Qed.

(** A failing read: zeroes instead of the data, or instead of the message. *)
Example read_fails : usdt_copyin [Fails] [] false 3 [1; 2; 3] = Ret (Some [0; 0; 0], [1; 2; 3], [], []) /\
  usdt_parser_host_read [Fails] [true] encode_eof = Ret (Some (replicate 48 0), encode_eof, [], []).
Proof. done. Qed.

(** After a block that is too large its data is still in the pipe, and is taken for what follows. *)
Example too_large_is_left : usdt_copyin_data (ones 24) (replicate 3 true) (le_bytes 8 1 ++ le_bytes 8 0 ++ le_bytes 8 usdt_maxsize ++ [1; 2; 3]) =
  Ret (None, true, [E2BIG], [1; 2; 3], [], []).
Proof. vm_compute. reflexivity. Qed.

(** The end of the input aborts the parser in the middle of a message, but not between two. *)
Example ends : usdt_copyin_helper (ones 1) [true] [] = Ret (None, [], [], []) /\ usdt_copyin_data (ones 9) [] [1; 0; 0] = Abort.
Proof. done. Qed.
End Traffic.
