(* ===== verification/Notes.v ===== *)
(** * USDT definitions in ELF notes (libdtrace/dt_link.c, libcommon/usdt_parser_notes.c)

    dtrace -G writes the providers of a program and their probes as notes of the
    section .note.usdt; the macros of sys/usdt_gennote.h add a note for every
    tracepoint.  dtprobed reads the section and .rodata (for the names of the
    functions), has them parsed, and keeps the messages of the parser.  The model
    covers the three: the notes that are written, the parser with its hash tables
    and the part of dtprobed that reads the messages.

    The parser works on the bytes of the section as in Dof.v; a string that a
    structure points to is kept as its contents, since nothing changes the bytes
    after the structure refers to them.  A pointer to a structure is its number in
    the order of allocation. *)

From stdpp Require Import base list numbers option sets.
From S2P Require Import Prelude DtList Str Htab Dof Usdt.

(** ** Writing notes *)

Definition ALIGN (x a : Z) : Z := Z.land (x + (a - 1)) (Z.lnot (a - 1)).
(** [l] with zeros up to the next multiple of 4. *)
Definition padded4 (l : list Z) : list Z := l ++ replicate (Z.to_nat (ALIGN (Z.of_nat (length l)) 4 - Z.of_nat (length l))) 0.

Definition EDT_NOMEM : Z := 1008.
Definition EDT_COMPILER : Z := 1005.

(** The header of a note (with its name) and its contents. *)
Definition note_header (name : list Z) (descsz type : Z) : list Z :=
  le_bytes 4 5 ++ le_bytes 4 descsz ++ le_bytes 4 type ++ padded4 (name ++ [0]).
Definition prov_name : list Z := [112; 114; 111; 118]. (* prov *)
Definition usdt_name : list Z := [117; 115; 100; 116]. (* usdt *)
Definition dver_name : list Z := [100; 118; 101; 114]. (* dver *)
Definition utsn_name : list Z := [117; 116; 115; 110]. (* utsn *)

Definition _USDT_TP_NOTE_TYPE : Z := 1.
Definition _USDT_EN_NOTE_TYPE : Z := 2.

(** *** dtrace -G *)

(** dtrace_attribute_t *)
Record attribute := Attribute { dtat_name : Z; dtat_data : Z; dtat_class : Z }.
Definition STORE_ATTR (a : attribute) : Z :=
  u32 (Z.lor (Z.lor (Z.shiftl (dtat_name a) 24) (Z.shiftl (dtat_data a) 16)) (Z.shiftl (dtat_class a) 8)).
Definition note_store_attr (a : attribute) : list Z := le_bytes 4 (STORE_ATTR a).

(** A probe of a provider: the types of its arguments, and those of the translated
    ones with the number of the argument each comes from.  A type is given by its name,
    which ctf_type_name() provides ([None]: NULL). *)
Record link_probe := LinkProbe {
  lp_name : list Z;
  lp_nargs : list (option (list Z));
  lp_xargs : list (option (list Z) * Z) }.

Record link_provider := LinkProvider {
  lv_name : list Z;
  lv_provider : attribute; lv_mod : attribute; lv_func : attribute; lv_attr_name : attribute; lv_args : attribute;
  lv_probes : list link_probe }.

(** The names of the types; [None] is a crash of strcpy(). *)
Fixpoint link_nargs (l : list (option (list Z))) : option (list Z) :=
  match l with [] => Some [] | t :: l => t ← t; r ← link_nargs l; Some (t ++ 0 :: r) end.
Fixpoint link_xargs (l : list (option (list Z) * Z)) : option (list Z) :=
  match l with [] => Some [] | (t, i) :: l => t ← t; r ← link_xargs l; Some (t ++ 0 :: i `mod` 256 :: r) end.

(** The fragment of note_add_probe(): the buffer is zeroed, and its size rounded up. *)
Definition probe_fragment (prp : link_probe) : option (list Z) :=
  nargs ← link_nargs (lp_nargs prp);
  xargs ← link_xargs (lp_xargs prp);
  Some (padded4 (lp_name prp ++ 0 :: Z.of_nat (length (lp_nargs prp)) `mod` 256 :: nargs ++
                 Z.of_nat (length (lp_xargs prp)) `mod` 256 :: xargs)).

(** dt_idhash_iter(pvp->pv_probes, note_add_probe, usdt), whose result is ignored: the
    fragments are linked in front of one another; it stops when there is no memory for a
    buffer.  There is no check of the memory for the link. *)
Fixpoint note_add_probes (l : list link_probe) (notes : list (list Z)) (m : allocs) : option (list (list Z) * allocs) :=
  match l with
  | [] => Some (notes, m)
  | prp :: l =>
      let '(ok, m) := malloc m in
      if negb ok then Some (notes, m)
      else
        frag ← probe_fragment prp;
        let '(ok, m) := malloc m in
        if negb ok then None else note_add_probes l (frag :: notes) m
  end.

(** usdt_elf_t: where the current note starts, its size, and the pieces of the section
    (Elf_Data) with their offsets. *)
Record usdt_elf := UsdtElf { u_base : Z; u_size : Z; u_data : list (Z * list Z) }.

Definition PROV_NOTE_HEADSZ : Z := 20.

(** The pieces of a note, one after the other. *)
Fixpoint add_pieces (l : list (list Z)) (u : usdt_elf) : usdt_elf :=
  match l with
  | [] => u
  | x :: l => add_pieces l (UsdtElf (u_base u) (u_size u + Z.of_nat (length x)) (u_data u ++ [(u_base u + u_size u, x)]))
  end.

Definition prov_desc_head (pvp : link_provider) (nprobes : Z) : list Z :=
  padded4 (lv_name pvp ++ [0]) ++ note_store_attr (lv_provider pvp) ++ note_store_attr (lv_mod pvp) ++
  note_store_attr (lv_func pvp) ++ note_store_attr (lv_attr_name pvp) ++ note_store_attr (lv_args pvp) ++ le_bytes 4 nprobes.

(** [None]: a crash. *)
Definition note_add_provider (pvp : link_provider) (u : usdt_elf) (m : allocs) : option (result Z usdt_elf * allocs) :=
  let nprobes := Z.of_nat (length (lv_probes pvp)) in
  if nprobes =? 0 then Some (Ok u, m)
  else
    let u := UsdtElf (ALIGN (u_base u + u_size u) 4) 0 (u_data u) in
    if Z.of_nat (length (lv_name pvp)) >? DTRACE_PROVNAMELEN - 11 then Some (Err EDT_COMPILER, m)
    else
      let '(ok, m) := malloc m in
      if negb ok then Some (Err EDT_NOMEM, m)
      else
        '(frags, m) ← note_add_probes (lv_probes pvp) [] m;
        let head := prov_desc_head pvp nprobes in
        let size := PROV_NOTE_HEADSZ + Z.of_nat (length head) + Z.of_nat (length (concat frags)) in
        Some (Ok (add_pieces ((note_header prov_name (u32 (size - PROV_NOTE_HEADSZ)) 1 ++ head) :: frags) u), m).

(** The notes of the version and of the system: [data] is _dtrace_version, or the bytes of
    the struct utsname. *)
Definition note_add_data (name data : list Z) (u : usdt_elf) (m : allocs) : result Z usdt_elf * allocs :=
  let u := UsdtElf (ALIGN (u_base u + u_size u) 4) 0 (u_data u) in
  let '(ok, m) := malloc m in
  if negb ok then (Err EDT_NOMEM, m)
  else (Ok (add_pieces [note_header name (Z.of_nat (length (padded4 data))) 1 ++ padded4 data] u), m).
Definition note_add_version (_dtrace_version : list Z) := note_add_data dver_name (_dtrace_version ++ [0]).
Definition note_add_utsname (uts : list Z) := note_add_data utsn_name uts.

(** The bytes of the section: every piece at its offset. *)
Definition section_bytes (l : list (Z * list Z)) : list Z :=
  foldl (λ s '(off, x), s ++ replicate (Z.to_nat off - length s) 0 ++ x) [] l.

(** *** The macros for tracepoints *)

(** A use of _USDT_PROBE or _USDT_PROBE_ENABLED: its address, the address of the name of
    the function, the arguments of the macro, and the sources of the arguments as the
    assembler writes them. *)
Record tracepoint := Tracepoint {
  tp_addr : Z; tp_fn : Z; tp_prv : list Z; tp_prb : list Z; tp_typ : Z; tp_nargs : Z; tp_args : list Z }.

Definition tp_desc (t : tracepoint) : list Z :=
  le_bytes 8 (tp_addr t) ++ le_bytes 8 (tp_fn t) ++ (tp_prv t ++ [0]) ++ (tp_prb t ++ [0]) ++ tp_nargs t :: tp_args t ++ [0].
Definition _USDT_PROBE__ (t : tracepoint) : list Z :=
  note_header usdt_name (Z.of_nat (length (tp_desc t))) (tp_typ t) ++ padded4 (tp_desc t).

(** ** The parser: structures *)

Record usdt_note := UsdtNote { n_type : Z; n_descsz : Z; n_name : Z; n_desc : Z }.

(** The fields of dt_provider_t and dt_probe_t that do not change, with the address
    ([None] for a key on the stack): the entries of the tables. *)
Record prv_ref := PrvRef { pv_ptr : option nat; pv_name : list Z }.
Record prb_ref := PrbRef {
  pr_ptr : option nat; pr_prv : list Z; pr_mod : list Z; pr_fun : option (list Z); pr_prb : list Z; pr_off : Z }.
#[export] Instance prv_ref_eq : EqDecision prv_ref.
Proof. solve_decision. Defined.
#[export] Instance prb_ref_eq : EqDecision prb_ref.
Proof. solve_decision. Defined.

(** The other fields. *)
Record dt_provider := Provider {
  pattr : Z; mattr : Z; fattr : Z; nattr : Z; aattr : Z; probec : Z;
  pmap : option (dt_htab prb_ref) }.

Record dt_probe := Probe {
  next : option nat; ntp : Z; is_enabled : Z; nargc : Z; xargc : Z; sargc : Z;
  nargs : list Z; xargs : list Z; xmap : list Z; sargs : list Z }.

(** prvmap and prbmap ([None] is NULL), and the structures. *)
Record nst := Nst {
  prvmap : option (dt_htab prv_ref);
  prbmap : option (dt_htab prb_ref);
  pvs : list dt_provider;
  prbs : list (prb_ref * dt_probe) }.

(** The operations of the tables; [chr]: how a char is extended to an int. *)
Section Hash.
Variable chr : Z -> Z.

Definition prv_hval (p : prv_ref) : Z := str2hval chr (pv_name p) 0.
Definition prv_cmp (p q : prv_ref) : Z := strcmp (pv_name p) (pv_name q).
Definition prv_htab_ops : htab_ops prv_ref := HtabOps prv_hval prv_cmp he_add he_del.

Definition prb_hval (p : prb_ref) : Z :=
  let hval := str2hval chr (pr_prv p) (u32 (pr_off p)) in
  let hval := str2hval chr (pr_mod p) hval in
  let hval := match pr_fun p with Some f => str2hval chr f hval | None => hval end in
  str2hval chr (pr_prb p) hval.

Definition prb_cmp (p q : prb_ref) : Z :=
  let rc := strcmp (pr_prv p) (pr_prv q) in
  if negb (rc =? 0) then rc
  else
    let rc := match pr_fun p, pr_fun q with
              | Some _, None => 1
              | Some f, Some g => strcmp f g
              | None, Some _ => -1
              | None, None => 0
              end in
    if negb (rc =? 0) then rc
    else
      let rc := strcmp (pr_prb p) (pr_prb q) in
      if negb (rc =? 0) then rc
      else if (pr_off p =? 0) || (pr_off q =? 0) then 0
      else s32 (pr_off p - pr_off q).
(** Also those of a provider's pmap, which differ in what is freed with an entry. *)
Definition prb_htab_ops : htab_ops prb_ref := HtabOps prb_hval prb_cmp he_add he_del.
End Hash.

(** ** The parser: notes *)

Definition EEXIST : Z := 17.
Definition sizeof_Nhdr : Z := 12.

(** usdt_error() with another error, then return -1. *)
Definition fail_with {A} (e : Z) : D A := usdt_error e;; return_1.

(** The note at an offset, and the offset of the next one, 0 for the last. *)
Definition get_note (size off : Z) : D (usdt_note * Z) :=
  fail_if ((off >=? size) || (sizeof_Nhdr >? size - off));;
  fail_if (negb (IS_ALIGNED off 4));;
  namesz ← rd 4 off;
  descsz ← rd 4 (off + 4);
  type ← rd 4 (off + 8);
  let off := off + sizeof_Nhdr in
  fail_if ((off >=? size) || (namesz >? size - off));;
  let name := off in
  let off := off + ALIGN namesz 4 in
  fail_if ((off >=? size) || (descsz >? size - off));;
  let desc := off in
  let off := off + ALIGN descsz 4 in
  mret (UsdtNote type descsz name desc, if off >=? size then 0 else off).

(** strcmp(p, l) == 0 *)
Fixpoint streq (p : Z) (l : list Z) : D bool :=
  c ← rd 1 p;
  match l with
  | [] => mret (c =? 0)
  | x :: l => if c =? x then streq (p + 1) l else mret false
  end.

(** [None]: -1. *)
Fixpoint strarray_size (cnt : nat) (str p end_ skip : Z) : D (option Z) :=
  match cnt with
  | O => mret (Some (p - str))
  | S cnt => if p >=? end_ then mret None else n ← strlen p; strarray_size cnt str (p + (n + 1 + skip)) end_ skip
  end.

(** dt_htab_create(); [None] is NULL. *)
Definition htab_create {E} : D (option (dt_htab E)) :=
  ok1 ← dmalloc; ok2 ← dmalloc; mret (dt_htab_create ok1 ok2).

(** dt_htab_insert(), whose result is ignored.  As in Probe.v each insertion takes two
    outcomes of the allocator, whether it needs them or not. *)
Definition htab_insert {E} (ops : htab_ops E) (t : option (dt_htab E)) (e : E) : D (option (dt_htab E)) :=
  match t with
  | None => oob
  | Some t =>
      ok_resize ← dmalloc; ok_bucket ← dmalloc;
      match dt_htab_insert ops (λ _, ok_resize) ok_bucket t e with Some (_, t) => mret (Some t) | None => oob end
  end.

Definition htab_lookup {E} (ops : htab_ops E) (t : option (dt_htab E)) (e : E) : D (option E) :=
  match t with None => oob | Some t => mret (head (dt_htab_lookup ops t e)) end.

Definition htab_next {E} (t : option (dt_htab E)) (it : option (@dt_htab_next_t E)) : D (option E * option dt_htab_next_t) :=
  match t with
  | None => oob
  | Some t => match it with None => ok ← dmalloc; mret (dt_htab_next ok t None) | Some _ => mret (dt_htab_next true t it) end
  end.

(** Structures: access through a pointer, and a new one. *)
Definition pv_get (st : nst) (p : option nat) : D (nat * dt_provider) :=
  match p with Some i => match pvs st !! i with Some v => mret (i, v) | None => oob end | None => oob end.
Definition prb_get (st : nst) (p : option nat) : D (nat * dt_probe) :=
  match p with Some i => match prbs st !! i with Some (_, v) => mret (i, v) | None => oob end | None => oob end.
Definition set_pv (st : nst) (i : nat) (v : dt_provider) : nst := Nst (prvmap st) (prbmap st) (<[i := v]> (pvs st)) (prbs st).
Definition set_prb (st : nst) (i : nat) (v : dt_probe) : nst :=
  Nst (prvmap st) (prbmap st) (pvs st) (alter (λ '(k, _), (k, v)) i (prbs st)).
Definition add_prb (st : nst) (k : prb_ref) (v : dt_probe) : nst := Nst (prvmap st) (prbmap st) (pvs st) (prbs st ++ [(k, v)]).
Definition zero_probe : dt_probe := Probe None 0 0 0 0 0 [] [] [] [].
Definition set_pmap (v : dt_provider) (t : option (dt_htab prb_ref)) : dt_provider :=
  Provider (pattr v) (mattr v) (fattr v) (nattr v) (aattr v) (probec v) t.

Section Parser.
Variable chr : Z -> Z.
(** dhp->dofhp_mod and dhp->dofhp_addr *)
Variable dofhp_mod : list Z.
Variable dofhp_addr : Z.
Abbreviation prv_ops := (prv_htab_ops chr).
Abbreviation prb_ops := (prb_htab_ops chr).

(** The loop that copies the translated types and their map. *)
Fixpoint copy_xargs (argc : nat) (p : Z) : D (list Z * list Z * Z) :=
  match argc with
  | O => mret ([], [], p)
  | S argc =>
      s ← rdstr p;
      let p := p + (Z.of_nat (length s) + 1) in
      x ← rd 1 p;
      '(xargs, xmap, p) ← copy_xargs argc (p + 1);
      mret (s ++ 0 :: xargs, x :: xmap, p)
  end.

(** One probe of a provider's note: the loop's body. *)
Definition parse_prov_probe (note : usdt_note) (pvp : nat) (name : list Z) (p : Z) (st : nst) : D (Z * nst) :=
  let desc := n_desc note in
  let p := ALIGN p 4 in
  prb ← rdstr p;
  let p := p + (Z.of_nat (length prb) + 1) in
  fail_if (p + 2 - desc >? n_descsz note);;
  '(_, pv) ← pv_get st (Some pvp);
  old ← htab_lookup prb_ops (pmap pv) (PrbRef None name dofhp_mod None prb 0);
  match old with
  | Some _ => fail_with EEXIST
  | None =>
      ok ← dmalloc;
      if negb ok then fail_with ENOMEM
      else
        let prp := length (prbs st) in
        let key := PrbRef (Some prp) name dofhp_mod None prb 0 in
        t ← htab_insert prb_ops (pmap pv) key;
        let st := set_pv st pvp (set_pmap pv t) in
        nargc ← rd 1 p;
        let p := p + 1 in
        len ← strarray_size (Z.to_nat nargc) p p (desc + n_descsz note) 0;
        match len with
        | None => fail
        | Some len =>
            nargs ← rdbytes len p;
            let p := p + len in
            fail_if (p - desc >? n_descsz note);;
            xargc ← rd 1 p;
            let p := p + 1 in
            len ← strarray_size (Z.to_nat xargc) p p (desc + n_descsz note) 1;
            match len with
            | None => fail
            | Some len =>
                if len >? 0 then
                  ok1 ← dmalloc; ok2 ← dmalloc;
                  if negb ok1 || negb ok2 then fail_with ENOMEM
                  else
                    '(xargs, xmap, p) ← copy_xargs (Z.to_nat xargc) p;
                    mret (p, add_prb st key (Probe None 0 0 nargc xargc 0 nargs xargs xmap []))
                else mret (p, add_prb st key (Probe None 0 0 nargc xargc 0 nargs [] [] []))
            end
        end
  end.

Fixpoint parse_prov_probes (n : nat) (note : usdt_note) (pvp : nat) (name : list Z) (p : Z) (st : nst) : D nst :=
  match n with
  | O => mret st
  | S n => '(p, st) ← parse_prov_probe note pvp name p st; parse_prov_probes n note pvp name p st
  end.

Definition parse_prov_note (note : usdt_note) (st : nst) : D nst :=
  let desc := n_desc note in
  name ← rdstr desc;
  let p := desc + ALIGN (Z.of_nat (length name) + 1) 4 in
  fail_if (p + 6 * 4 - desc >? n_descsz note);;
  old ← htab_lookup prv_ops (prvmap st) (PrvRef None name);
  match old with
  | Some _ => fail_with EEXIST
  | None =>
      ok ← dmalloc;
      if negb ok then fail_with ENOMEM
      else
        let pvp := length (pvs st) in
        t ← htab_insert prv_ops (prvmap st) (PrvRef (Some pvp) name);
        pm ← htab_create;
        pattr ← rd 4 p; mattr ← rd 4 (p + 4); fattr ← rd 4 (p + 8); nattr ← rd 4 (p + 12); aattr ← rd 4 (p + 16);
        probec ← rd 4 (p + 20);
        parse_prov_probes (Z.to_nat probec) note pvp name (p + 24)
          (Nst t (prbmap st) (pvs st ++ [Provider pattr mattr fattr nattr aattr 0 pm]) (prbs st))
  end.

(** The string at an offset of .rodata. *)
Definition rodata_str (data : usdt_data) (off : Z) : D (list Z) := λ s,
  match list_find (λ b, b = 0) (drop (Z.to_nat off) (buf data)) with
  | Some (n, _) => Done (take n (drop (Z.to_nat off) (buf data))) s
  | None => Oob
  end.

(** strstr(l, "__") *)
Fixpoint has_hyphens (l : list Z) : bool :=
  match l with
  | c :: ((d :: _) as l') => (c =? 95) && (d =? 95) || has_hyphens l'
  | _ => false
  end.

(** The loop that changes "__" into "-": [s] reads and [q] writes. *)
Fixpoint hyphens (n : nat) (s e q : Z) : D unit :=
  match n with
  | O => mret tt
  | S n =>
      if s <? e then
        c ← rd 1 s;
        two ← (if c =? 95 then d ← rd 1 (s + 1); mret (d =? 95) else mret false);
        if (two : bool) then wr 1 q 45;; hyphens n (s + 2) e (q + 1)
        else (if s >? q then wr 1 q c else mret tt);; hyphens n (s + 1) e (q + 1)
      else mret tt
  end.

Definition parse_usdt_note (rodata : option usdt_data) (note : usdt_note) (st : nst) : D nst :=
  let desc := n_desc note in
  match rodata with
  | None => fail
  | Some data =>
      fail_if (2 * 8 >? n_descsz note);;
      off ← rd 8 desc;
      fno ← rd 8 (desc + 8);
      let p := desc + 16 in
      prv ← rdstr p;
      let p := p + (Z.of_nat (length prv) + 1) in
      fail_if (p - desc >? n_descsz note);;
      fail_if ((fno <? base data) || (fno - base data >=? size data));;
      let prb := p in
      n ← strlen p;
      let p := p + (n + 1) in
      fail_if (p - desc >? n_descsz note);;
      s ← rdstr prb;
      (if has_hyphens s then hyphens (Z.to_nat (p - prb)) prb p prb else mret tt);;
      name ← rdstr prb;
      fun_ ← rodata_str data (fno - base data);
      old ← htab_lookup prb_ops (prbmap st) (PrbRef None prv dofhp_mod (Some fun_) name (u32 off));
      match old with
      | Some _ => fail_with EEXIST
      | None =>
          ok ← dmalloc;
          if negb ok then fail_with ENOMEM
          else
            let prp := length (prbs st) in
            let key := PrbRef (Some prp) prv dofhp_mod (Some fun_) name (u32 off) in
            t ← htab_insert prb_ops (prbmap st) key;
            sargc ← rd 1 p;
            sargs ← rdstr (p + 1);
            fail_if (p + 1 + (Z.of_nat (length sargs) + 1) - desc >? n_descsz note);;
            mret (add_prb (Nst (prvmap st) t (pvs st) (prbs st)) key
              (Probe None 0 (if n_type note =? _USDT_EN_NOTE_TYPE then 1 else 0) 0 0 sargc [] [] [] sargs))
      end
  end.

(** The body of the first loop of usdt_parse_notes(). *)
Definition parse_note (rodata : option usdt_data) (note : usdt_note) (st : nst) : D nst :=
  prov ← streq (n_name note) prov_name;
  if (prov : bool) then parse_prov_note note st
  else
    usdt ← streq (n_name note) usdt_name;
    if (usdt : bool) then parse_usdt_note rodata note st
    else
      dver ← streq (n_name note) dver_name;
      if (dver : bool) then mret st
      else
        utsn ← streq (n_name note) utsn_name;
        if (utsn : bool) then mret st else fail.

(** The loop; every round moves on by at least the size of a header, so that the fuel is
    not used up. *)
Fixpoint parse_notes_loop (fuel : nat) (size : Z) (rodata : option usdt_data) (off : Z) (st : nst) : D nst :=
  match fuel with
  | O => oob
  | S fuel =>
      '(note, off) ← get_note size off;
      st ← parse_note rodata note st;
      if off =? 0 then mret st else parse_notes_loop fuel size rodata off st
  end.

(** ** The parser: tracepoints and providers *)

(** The body of the second loop: the tracepoint [ptp] is moved from prbmap to the provider. *)
Definition validate_tracepoint (ptp : prb_ref) (st : nst) : D nst :=
  pvp ← htab_lookup prv_ops (prvmap st) (PrvRef None (pr_prv ptp));
  match pvp with
  | None => fail_with ENOENT
  | Some pvp =>
      '(pvi, pv) ← pv_get st (pv_ptr pvp);
      prp ← htab_lookup prb_ops (pmap pv) (PrbRef None (pr_prv ptp) (pr_mod ptp) (pr_fun ptp) (pr_prb ptp) 0);
      prp ← match prp with
            | Some prp => mret (Some prp)
            | None => htab_lookup prb_ops (pmap pv) (PrbRef None (pr_prv ptp) (pr_mod ptp) None (pr_prb ptp) 0)
            end;
      match prp with
      | None => fail_with ENOENT
      | Some prp =>
          '(ti, t) ← prb_get st (pr_ptr ptp);
          '(ri, r) ← prb_get st (pr_ptr prp);
          if negb (sargc t =? nargc r) && ((is_enabled t =? 0) || negb (sargc t =? 1)) then fail
          else
            match prbmap st with
            | None => oob
            | Some tab =>
                let '(_, tab) := dt_htab_delete prb_ops tab ptp in
                let st := Nst (prvmap st) (Some tab) (pvs st) (prbs st) in
                match pr_fun prp with
                | Some _ =>
                    let st := set_prb st ti (Probe (next r) (ntp t) (is_enabled t) (nargc r) (xargc r) (sargc t) (nargs r) (xargs r) (xmap r) (sargs t)) in
                    mret (set_prb st ri (Probe (Some ti) (u32 (ntp r + 1)) (is_enabled r) (nargc r) (xargc r) (sargc r) (nargs r) (xargs r) (xmap r) (sargs r)))
                | None =>
                    pm ← htab_insert prb_ops (pmap pv) ptp;
                    let st := set_pv st pvi (Provider (pattr pv) (mattr pv) (fattr pv) (nattr pv) (aattr pv) (u32 (probec pv + 1)) pm) in
                    mret (set_prb st ti (Probe (next t) 1 (is_enabled t) (nargc r) (xargc r) (sargc t) (nargs r) (xargs r) (xmap r) (sargs t)))
                end
            end
      end
  end.

(** Every round takes an entry out of prbmap: the fuel is the number of structures. *)
Fixpoint validate_loop (fuel : nat) (it : option dt_htab_next_t) (st : nst) : D nst :=
  match fuel with
  | O => oob
  | S fuel =>
      '(ptp, it) ← htab_next (prbmap st) it;
      match ptp with
      | None => mret st
      | Some ptp => st ← validate_tracepoint ptp st; validate_loop fuel it st
      end
  end.

(** alloc_msg(), then the message is written. *)
Definition emit (x : msg) : D unit := ok ← dmalloc; if negb ok then fail_with ENOMEM else put x.

Definition emit_tp (k : prb_ref) (prp : dt_probe) : D unit :=
  emit (DIT_TRACEPOINT_ARGS (u64 (pr_off k + dofhp_addr)) (is_enabled prp) (sargs prp)).

(** while (prp != NULL): the fuel is the number of structures. *)
Fixpoint emit_tps (fuel : nat) (st : nst) (prp : option nat) : D unit :=
  match prp with
  | None => mret tt
  | Some i =>
      match fuel with
      | O => oob
      | S fuel => match prbs st !! i with Some (k, v) => emit_tp k v;; emit_tps fuel st (next v) | None => oob end
      end
  end.

Definition emit_probe (st : nst) (k : prb_ref) : D unit :=
  '(i, prp) ← prb_get st (pr_ptr k);
  emit (DIT_PROBE (ntp prp) (nargc prp) (xargc prp) (pr_mod k) (default [] (pr_fun k)) (pr_prb k));;
  (if negb (nargc prp =? 0) then
     emit (DIT_ARGS_NATIVE (nargs prp));;
     if negb (xargc prp =? 0) then emit (DIT_ARGS_XLAT (xargs prp));; emit (DIT_ARGS_MAP (xmap prp)) else mret tt
   else mret tt);;
  emit_tps (S (length (prbs st))) st (Some i).

Fixpoint emit_probes (fuel : nat) (st : nst) (t : option (dt_htab prb_ref)) (it : option dt_htab_next_t) : D unit :=
  match fuel with
  | O => oob
  | S fuel =>
      '(prp, it) ← htab_next t it;
      match prp with
      | None => mret tt
      | Some prp => (match pr_fun prp with None => mret tt | Some _ => emit_probe st prp end);; emit_probes fuel st t it
      end
  end.

Definition emit_provider (st : nst) (name : list Z) (pvp : dt_provider) : D unit :=
  emit (DIT_PROVIDER (probec pvp) name);;
  emit_probes (S (length (prbs st))) st (pmap pvp) None.

Fixpoint emit_providers (fuel : nat) (st : nst) (it : option dt_htab_next_t) : D unit :=
  match fuel with
  | O => oob
  | S fuel =>
      '(pvp, it) ← htab_next (prvmap st) it;
      match pvp with
      | None => mret tt
      | Some k => '(_, pvp) ← pv_get st (pv_ptr k); (if probec pvp >? 0 then emit_provider st (pv_name k) pvp else mret tt);; emit_providers fuel st it
      end
  end.

(** [data]: the notes, and .rodata.  Destroying the tables has no effect that is seen. *)
Definition usdt_parse_notes (data : list usdt_data) : D unit := λ s,
  match data with
  | [] => Oob
  | blk :: rest =>
      (t1 ← htab_create;
       t2 ← htab_create;
       st ← parse_notes_loop (S (length (buf blk))) (size blk) (head rest) 0 (Nst t1 t2 [] []);
       st ← validate_loop (S (length (prbs st))) None st;
       emit_providers (S (length (pvs st))) st None) (Dst (buf blk) (out s) (mem s))
  end.
End Parser.

(** ** dtprobed: the loops of process_dof()

    From the first message to the push of DIT_EOF, with memory for the list; what follows (dof_stash_add() and
    dof_stash_write_parsed(), which fails when a probe is written twice) is not modelled. *)

(** What is read from the pipe; DIT_ERR is read as NULL. *)
Inductive parsed := Parsed (x : msg) | DIT_EOF.

(** The tracepoints of a probe: [None] for an error, or what was kept and what is left. *)
Fixpoint read_tps (j ntp : Z) (l : list parsed) : option (list parsed * list parsed) :=
  match l with
  | [] | DIT_EOF :: _ | Parsed (DIT_PROVIDER _ _) :: _ | Parsed (DIT_PROBE _ _ _ _ _ _) :: _ | Parsed (DIT_ERR _) :: _ => None
  | tp :: l =>
      let j := match tp with Parsed (DIT_TRACEPOINT _ _) | Parsed (DIT_TRACEPOINT_ARGS _ _ _) => j + 1 | _ => j end in
      if j <? ntp then '(kept, l) ← read_tps j ntp l; Some (tp :: kept, l) else Some ([tp], l)
  end.

Fixpoint read_probes (n : nat) (l : list parsed) : option (list parsed * list parsed) :=
  match n with
  | O => Some ([], l)
  | S n =>
      match l with
      | (Parsed (DIT_PROBE ntp _ _ _ _ _) as probe) :: l =>
          '(tps, l) ← read_tps 0 ntp l; '(kept, l) ← read_probes n l; Some (probe :: tps ++ kept, l)
      | _ => None
      end
  end.

(** The loop over the providers.  The code checks the type of the first message only, and
    takes any other one that is not DIT_EOF for a provider; here it is an error. *)
Fixpoint read_providers (fuel : nat) (l : list parsed) : option (list parsed) :=
  match fuel with
  | O => None
  | S fuel =>
      match l with
      | DIT_EOF :: _ => Some [DIT_EOF]
      | (Parsed (DIT_PROVIDER nprobes _) as provider) :: l =>
          '(probes, l) ← read_probes (Z.to_nat nprobes) l; kept ← read_providers fuel l; Some (provider :: probes ++ kept)
      | _ => None
      end
  end.
Definition read_parsed (l : list parsed) : option (list parsed) := read_providers (S (length l)) l.
