(* ===== verification/NotesBytes.v ===== *)
(** * Bytes at an offset (for libcommon/usdt_parser_notes.c)

    What the byte operations of Dof.v return when the bytes at an offset are
    known, and the rounding of sizes: the steps of the proofs about the parser
    of ELF notes. *)

From stdpp Require Import base list numbers option sets.
From S2P Require Import Prelude DtList Str Htab Dof Usdt Notes.

(** ** Rounding *)

Lemma ALIGN_div x : ALIGN x 4 = 4 * ((x + 3) `div` 4).
Proof.
  unfold ALIGN. change (4 - 1) with (Z.ones 2). rewrite <- Z.ldiff_land. rewrite Z.ldiff_ones_r by lia.
  rewrite Z.shiftl_mul_pow2, Z.shiftr_div_pow2 by lia. change (2 ^ 2) with 4. change (Z.ones 2) with 3. lia.
Qed.

Lemma ALIGN_bounds x : x <= ALIGN x 4 < x + 4.
Proof. rewrite ALIGN_div. pose proof (Z.div_mod (x + 3) 4). pose proof (Z.mod_pos_bound (x + 3) 4). lia. Qed.

Lemma ALIGN_divide x : (4 | ALIGN x 4).
Proof. rewrite ALIGN_div. by exists ((x + 3) `div` 4); lia. Qed.

Lemma ALIGN_add a x : (4 | a) -> ALIGN (a + x) 4 = a + ALIGN x 4.
Proof. intros [k ->]. rewrite !ALIGN_div. replace (k * 4 + x + 3) with (x + 3 + k * 4) by lia. rewrite Z.div_add by lia. lia. Qed.

Lemma ALIGN_id x : (4 | x) -> ALIGN x 4 = x.
Proof. intros H. rewrite <- (Z.add_0_r x) at 1. rewrite ALIGN_add by done. rewrite ALIGN_div. change ((0 + 3) `div` 4) with 0. lia. Qed.

Lemma IS_ALIGNED_divide x : (4 | x) -> IS_ALIGNED x 4 = true.
Proof. intros [k ->]. unfold IS_ALIGNED. change (4 - 1) with (Z.ones 2). rewrite Z.land_ones by lia. change (2 ^ 2) with 4. by rewrite Z.mod_mul by lia. Qed.

Abbreviation len l := (Z.of_nat (length l)).

Lemma len_padded4 l : len (padded4 l) = ALIGN (len l) 4.
Proof. unfold padded4. rewrite length_app, length_replicate. pose proof (ALIGN_bounds (len l)). lia. Qed.

Lemma padded4_divide l : (4 | len (padded4 l)).
Proof. rewrite len_padded4. apply ALIGN_divide. Qed.

Lemma padded4_id l : (4 | len l) -> padded4 l = l.
Proof. intros H. unfold padded4. rewrite ALIGN_id by done. rewrite Z.sub_diag. by rewrite app_nil_r. Qed.

(** ** Bytes at an offset *)

(** The bytes at an offset. *)
Record at_off (img : list Z) (off : Z) (bs : list Z) : Prop := AtOff {
  ao_pos : 0 <= off;
  ao_end : off + len bs <= len img;
  ao_take : take (length bs) (drop (Z.to_nat off) img) = bs;
}.

Lemma at_off_intro pre bs post off : off = len pre -> at_off (pre ++ bs ++ post) off bs.
Proof.
  intros ->. split; [lia|rewrite !length_app; lia|]. rewrite Nat2Z.id, drop_app_length. apply take_app_length.
Qed.

Lemma at_off_split img off bs : at_off img off bs -> exists pre post, img = pre ++ bs ++ post /\ off = len pre.
Proof.
  intros [H1 H2 H3]. exists (take (Z.to_nat off) img), (drop (length bs) (drop (Z.to_nat off) img)). split.
  - rewrite <- H3 at 1. by rewrite take_drop, take_drop.
  - rewrite length_take. lia.
Qed.

Lemma at_off_app img off a b : at_off img off (a ++ b) <-> at_off img off a /\ at_off img (off + len a) b.
Proof.
  split.
  - intros (pre & post & -> & ->)%at_off_split. split.
    + rewrite <- app_assoc. by apply at_off_intro.
    + replace (pre ++ (a ++ b) ++ post) with ((pre ++ a) ++ b ++ post) by (by rewrite <- !app_assoc).
      apply at_off_intro. rewrite length_app. lia.
  - intros [[H1 H2 H3] [H4 H5 H6]]. split; [done|rewrite length_app; lia|].
    rewrite length_app. replace (Z.to_nat (off + len a)) with (Z.to_nat off + length a)%nat in H6 by lia.
    rewrite <- drop_drop in H6. rewrite <- H3 at 2. rewrite <- H6 at 2. rewrite <- (take_drop (length a) (drop (Z.to_nat off) img)) at 1.
    rewrite take_app. rewrite length_take, length_drop. f_equal.
    + rewrite take_take. f_equal. lia.
    + f_equal. lia.
Qed.

Lemma at_off_cons img off x b : at_off img off (x :: b) <-> at_off img off [x] /\ at_off img (off + 1) b.
Proof. exact (at_off_app img off [x] b). Qed.

Lemma at_off_eq img off off' bs : at_off img off bs -> off = off' -> at_off img off' bs.
Proof. by intros ? ->. Qed.

(** ** The operations *)

Lemma bind_done {A B} (m : D A) (f : A -> D B) s a s' : m s = Done a s' -> (m ≫= f) s = f a s'.
Proof. intros H. unfold mbind, D_bind. by rewrite H. Qed.

Lemma fail_if_no b s : b = false -> fail_if b s = Done tt s.
Proof. by intros ->. Qed.

Lemma rd_at n off bs im o m : at_off im off bs -> length bs = n -> rd n off (Dst im o m) = Done (le bs) (Dst im o m).
Proof.
  intros [H1 H2 H3] <-. unfold rd. cbn [img]. rewrite (proj2 (Z.leb_le _ _) H1), (proj2 (Z.leb_le _ _) H2). cbn [andb]. unfold load. by rewrite H3.
Qed.

Lemma rd_num n off v im o m : at_off im off (le_bytes n v) -> 0 <= v < 256 ^ Z.of_nat n -> rd n off (Dst im o m) = Done v (Dst im o m).
Proof. intros H Hv. rewrite (rd_at n off _ im o m H) by apply length_le_bytes. by rewrite le_le_bytes. Qed.

Lemma rd_byte off v im o m : at_off im off [v] -> rd 1 off (Dst im o m) = Done v (Dst im o m).
Proof. intros H. rewrite (rd_at 1 off _ im o m H) by done. f_equal. cbn. lia. Qed.

Definition nonul (l : list Z) : Prop := Forall (λ b, b <> 0) l.

Lemma find_nul_note l r : nonul l -> list_find (λ b, b = 0) (l ++ 0 :: r) = Some (length l, 0).
Proof. induction 1 as [|x l Hx _ IH]; [done|]. cbn [app list_find]. rewrite decide_False by done. by rewrite IH. Qed.

Lemma strlen_at off str im o m : at_off im off (str ++ [0]) -> nonul str -> strlen off (Dst im o m) = Done (len str) (Dst im o m).
Proof.
  intros A Hn. destruct (at_off_split _ _ _ A) as (pre & post & E & ->). unfold strlen. cbn [img].
  rewrite (proj2 (Z.leb_le _ _)) by lia. rewrite E, Nat2Z.id, drop_app_length, <- app_assoc. cbn [app]. by rewrite find_nul_note.
Qed.

Lemma rdbytes_at off bs im o m : at_off im off bs -> rdbytes (len bs) off (Dst im o m) = Done bs (Dst im o m).
Proof.
  intros [H1 H2 H3]. unfold rdbytes. cbn [img]. rewrite (proj2 (Z.leb_le _ _) H1), (proj2 (Z.leb_le _ _) H2), (proj2 (Z.leb_le _ _)) by lia.
  cbn [andb]. by rewrite Nat2Z.id, H3.
Qed.

Lemma rdstr_at off str im o m : at_off im off (str ++ [0]) -> nonul str -> rdstr off (Dst im o m) = Done str (Dst im o m).
Proof.
  intros A Hn. unfold rdstr. rewrite (bind_done _ _ _ _ _ (strlen_at _ _ _ o m A Hn)). apply rdbytes_at. by apply at_off_app in A as [? _].
Qed.

Lemma streq_at p nm l im o m : at_off im p (nm ++ [0]) -> nonul nm -> nonul l -> streq p l (Dst im o m) = Done (bool_decide (nm = l)) (Dst im o m).
Proof.
  intros A Hn Hl. revert p nm A Hn. induction Hl as [|x l Hx _ IH]; intros p nm A Hn; destruct nm as [|c nm]; cbn [app] in A;
    apply at_off_cons in A as [A1 A2]; cbn [streq]; rewrite (bind_done _ _ _ _ _ (rd_byte _ _ _ o m A1)); cbn [mret D_ret].
  - done.
  - apply Forall_cons_1 in Hn as [Hc _]. rewrite (proj2 (Z.eqb_neq c 0) Hc). by rewrite bool_decide_eq_false_2.
  - rewrite (proj2 (Z.eqb_neq 0 x)) by done. by rewrite bool_decide_eq_false_2.
  - apply Forall_cons_1 in Hn as [_ Hn]. destruct (Z.eqb_spec c x) as [->|Hc].
    + rewrite (IH _ _ A2 Hn). f_equal. apply bool_decide_ext. split; congruence.
    + rewrite bool_decide_eq_false_2; [done|congruence].
Qed.

Lemma dmalloc_plenty im o m k : plenty m (S k) -> exists m', dmalloc (Dst im o m) = Done true (Dst im o m') /\ plenty m' k.
Proof. intros (m' & E & P)%plenty_malloc. exists m'. unfold dmalloc. cbn [mem img out]. by rewrite E. Qed.
