(* ===== verification/NotesParse.v ===== *)
(** * Parsing the notes that are written (libcommon/usdt_parser_notes.c, libdtrace/dt_link.c)

    The notes of a program as data, their bytes (what dt_link.c and the macros of
    sys/usdt_gennote.h write), and what get_note(), parse_prov_note() and
    parse_usdt_note() make of those bytes: one lemma per function. *)

From stdpp Require Import base list numbers option sets.
From S2P Require Import Prelude DtList Str Htab HtabUniq Dof Usdt Notes NotesBytes.

(** ** The operations of the tables *)

Section Ops.
Variable chr : Z -> Z.
Abbreviation prv_ops := (prv_htab_ops chr).
Abbreviation prb_ops := (prb_htab_ops chr).

Lemma prv_cmp_eq p q : op_cmp prv_ops p q = 0 <-> pv_name p = pv_name q.
Proof. apply strcmp_eq. Qed.

#[export] Instance prv_solo : SoloOps prv_ops.
Proof.
  split; try done.
  - intros e. cbn. unfold prv_hval. apply str2hval_range. lia.
  - intros e. by apply prv_cmp_eq.
  - intros e1 e2. rewrite !prv_cmp_eq. done.
Qed.

(** Two offsets that count as equal. *)
Definition off_match (a b : Z) : Prop := a = 0 \/ b = 0 \/ s32 (a - b) = 0.

Lemma prb_cmp_eq p q : op_cmp prb_ops p q = 0 <->
  pr_prv p = pr_prv q /\ pr_fun p = pr_fun q /\ pr_prb p = pr_prb q /\ off_match (pr_off p) (pr_off q).
Proof.
  cbn. unfold prb_cmp. set (fc := match pr_fun p with Some _ => _ | None => _ end).
  assert (fc = 0 <-> pr_fun p = pr_fun q) as Hfc.
  { unfold fc. destruct (pr_fun p), (pr_fun q); rewrite ?strcmp_eq; split; congruence. }
  destruct (Z.eqb_spec (strcmp (pr_prv p) (pr_prv q)) 0) as [H1|H1]; cbn [negb]; [|split; [done|]; intros (E & _); by rewrite <- strcmp_eq in E].
  destruct (Z.eqb_spec fc 0) as [H2|H2]; cbn [negb]; [|split; [done|]; intros (_ & E & _); tauto].
  destruct (Z.eqb_spec (strcmp (pr_prb p) (pr_prb q)) 0) as [H3|H3]; cbn [negb]; [|split; [done|]; intros (_ & _ & E & _); by rewrite <- strcmp_eq in E].
  rewrite strcmp_eq in H1, H3. apply Hfc in H2. unfold off_match.
  destruct (Z.eqb_spec (pr_off p) 0), (Z.eqb_spec (pr_off q) 0); cbn [orb]; split; (intros; split_and!; tauto || done) || tauto.
Qed.

Lemma s32_zero x : s32 x = 0 <-> x `mod` 2 ^ 32 = 0.
Proof.
  split.
  - intros H. change (wrapu 32 x = 0). rewrite <- wrapu_wraps by lia. by rewrite H.
  - intros H. unfold wraps, wrapu. by rewrite H.
Qed.

Lemma s32_zero_sym x : s32 x = 0 -> s32 (- x) = 0.
Proof. rewrite !s32_zero. apply Z.mod_opp_l_z. lia. Qed.

Lemma off_match_small a b : 0 < a < 2 ^ 32 -> 0 < b < 2 ^ 32 -> off_match a b -> a = b.
Proof.
  intros Ha Hb [?|[?|H%s32_zero]]; [lia..|]. destruct (Z.mod_divide (a - b) (2 ^ 32)) as [[k Hk] _]; [lia|done|]. nia.
Qed.

#[export] Instance prb_solo : SoloOps prb_ops.
Proof.
  split; try done.
  - intros e. cbn. unfold prb_hval. repeat apply str2hval_range || case_match. all: try apply str2hval_range. all: auto with cint.
  - intros e. apply prb_cmp_eq. split_and!; [done..|]. unfold off_match. rewrite Z.sub_diag. by right; right.
  - intros e1 e2. rewrite !prb_cmp_eq. intros (-> & -> & -> & [H|[H|H]]); split_and!; try done; unfold off_match; [tauto..|].
    right. right. apply s32_zero_sym in H. rewrite <- H. f_equal. lia.
Qed.
End Ops.

(** ** Hyphens *)

(** The name of a probe with its hyphens. *)
Fixpoint dehyphen (l : list Z) : list Z :=
  match l with
  | [] => []
  | c :: l' =>
      match l' with
      | d :: l'' => if (c =? 95) && (d =? 95) then 45 :: dehyphen l'' else c :: dehyphen l'
      | [] => [c]
      end
  end.

Lemma dehyphen_id l : has_hyphens l = false -> dehyphen l = l.
Proof.
  induction l as [|c l IH]; [done|]. destruct l as [|d l]; [done|]. cbn [has_hyphens dehyphen].
  destruct ((c =? 95) && (d =? 95)); [done|]. cbn [orb]. intros H. f_equal. by apply IH.
Qed.

Lemma dehyphen_nonul l : nonul l -> nonul (dehyphen l).
Proof.
  intros H. assert (forall n l, (length l < n)%nat -> nonul l -> nonul (dehyphen l)) as G; [|apply (G (S (length l))); [lia|done]].
  clear. induction n as [|n IH]; intros l Hl H; [lia|]. destruct H as [|c l Hc H]; [by constructor|]. destruct H as [|d l Hd H]; [by apply Forall_singleton|].
  cbn [length] in Hl. assert (nonul (dehyphen l) /\ nonul (dehyphen (d :: l))) as [H1 H2] by (split; apply IH; cbn [length]; try lia; [done|by constructor]).
  change (dehyphen (c :: d :: l)) with (if (c =? 95) && (d =? 95) then 45 :: dehyphen l else c :: dehyphen (d :: l)).
  destruct ((c =? 95) && (d =? 95)); by constructor.
Qed.

Lemma wr_at (A : list Z) x B q v o m : q = len A ->
  wr 1 q v (Dst (A ++ x :: B) o m) = Done tt (Dst (A ++ v `mod` 256 :: B) o m).
Proof.
  intros ->. unfold wr. cbn [img out mem]. rewrite (proj2 (Z.leb_le _ _)), (proj2 (Z.leb_le _ _)) by (rewrite ?length_app; cbn [length]; lia).
  cbn [andb]. unfold store. rewrite Nat2Z.id, take_app_length. cbn [le_bytes length]. by rewrite drop_app_add.
Qed.

(** One step that copies a character. *)
Lemma copy_char (A J : list Z) c B o m : is_byte c -> exists J', length J' = length J /\
  (if len A + len J >? len A then wr 1 (len A) c else mret tt) (Dst (A ++ J ++ c :: B) o m) = Done tt (Dst ((A ++ [c]) ++ J' ++ B) o m).
Proof.
  intros Hc. destruct J as [|j J].
  - exists []. split; [done|]. rewrite Z.gtb_ltb, (proj2 (Z.ltb_ge _ _)) by (cbn; lia). cbn [app]. by rewrite <- app_assoc.
  - exists (J ++ [c]). split; [rewrite length_app; cbn; lia|]. rewrite Z.gtb_ltb, (proj2 (Z.ltb_lt _ _)) by (cbn [length]; lia). cbn [app].
    rewrite wr_at by done. rewrite Z.mod_small by apply Hc. by rewrite <- !app_assoc.
Qed.

Lemma hyphens_ok n l : forall (A J B : list Z) o m s q e, nonul l -> Forall is_byte l -> (length l < n)%nat ->
  s = len A + len J -> q = len A -> e = s + len l + 1 ->
  exists J', (length (dehyphen l) + length J' = length J + length l)%nat /\
    hyphens n s e q (Dst (A ++ J ++ (l ++ [0]) ++ B) o m) = Done tt (Dst (A ++ (dehyphen l ++ [0]) ++ J' ++ B) o m).
Proof.
  revert l. induction n as [|n IH]; intros l A J B o m s q e Hn Hb Hl -> -> ->; [lia|]. cbn [hyphens].
  rewrite (proj2 (Z.ltb_lt _ _)) by lia. destruct l as [|c l].
  - cbn [app length]. assert (at_off (A ++ J ++ 0 :: B) (len A + len J) [0]) as H0.
    { rewrite app_assoc. apply (at_off_intro (A ++ J) [0] B). rewrite length_app. lia. }
    rewrite (bind_done _ _ _ _ _ (rd_byte _ _ _ o m H0)). cbn [Z.eqb]. rewrite (bind_done _ _ _ false _ eq_refl).
    destruct (copy_char A J 0 B o m) as (J' & HJ & E); [done|]. rewrite (bind_done _ _ _ _ _ E).
    exists J'. split; [cbn; lia|]. destruct n; cbn [hyphens]; [by rewrite <- app_assoc|].
    rewrite (proj2 (Z.ltb_ge _ _)) by lia. by rewrite <- app_assoc.
  - apply Forall_cons_1 in Hn as [Hc Hn], Hb as [Hbc Hb]. cbn [app].
    assert (at_off (A ++ J ++ c :: (l ++ [0]) ++ B) (len A + len J) [c]) as H0.
    { rewrite app_assoc. apply (at_off_intro (A ++ J) [c]). rewrite length_app. lia. }
    rewrite (bind_done _ _ _ _ _ (rd_byte _ _ _ o m H0)).
    assert (exists two, (if c =? 95 then d ← rd 1 (len A + len J + 1); mret (d =? 95) else mret false) (Dst (A ++ J ++ c :: (l ++ [0]) ++ B) o m) =
      Done two (Dst (A ++ J ++ c :: (l ++ [0]) ++ B) o m) /\ two = match l with d :: _ => (c =? 95) && (d =? 95) | [] => false end) as (two & E2 & Htwo).
    { destruct (Z.eqb_spec c 95) as [->|]; [|exists false; split; [done|by destruct l]].
      assert (at_off (A ++ J ++ 95 :: (l ++ [0]) ++ B) (len A + len J + 1) [default 0 (head l)]) as H1.
      { replace (A ++ J ++ 95 :: (l ++ [0]) ++ B) with ((A ++ J ++ [95]) ++ [default 0 (head l)] ++ tail (l ++ [0]) ++ B)
          by (destruct l; cbn; by rewrite <- !app_assoc).
        apply at_off_intro. rewrite !length_app. cbn [length]. lia. }
      rewrite (bind_done _ _ _ _ _ (rd_byte _ _ _ o m H1)). eexists. split; [done|]. by destruct l. }
    rewrite (bind_done _ _ _ _ _ E2), Htwo.
    assert (forall l', dehyphen (c :: l) = c :: l' -> l' = dehyphen l -> exists J',
      (length (dehyphen (c :: l)) + length J' = length J + length (c :: l))%nat /\
      ((if len A + len J >? len A then wr 1 (len A) c else mret tt);; hyphens n (len A + len J + 1) (len A + len J + len (c :: l) + 1) (len A + 1))
        (Dst (A ++ J ++ c :: (l ++ [0]) ++ B) o m) =
      Done tt (Dst (A ++ (dehyphen (c :: l) ++ [0]) ++ J' ++ B) o m)) as Hcopy.
    { intros l' E ->. destruct (copy_char A J c ((l ++ [0]) ++ B) o m) as (J1 & HJ & E1); [done|]. rewrite (bind_done _ _ _ _ _ E1).
      destruct (IH l (A ++ [c]) J1 B o m (len A + len J + 1) (len A + 1) (len A + len J + len (c :: l) + 1)) as (J' & HJ' & E3);
        [done|done|cbn [length] in Hl; lia|rewrite length_app; cbn [length]; lia|rewrite length_app; cbn [length]; lia|cbn [length]; lia|].
      exists J'. rewrite E. split; [cbn [length]; lia|]. rewrite E3. by rewrite <- !app_assoc. }
    destruct l as [|d l]; [by apply (Hcopy [])|]. destruct ((c =? 95) && (d =? 95)) eqn:Hcd.
    2: { apply (Hcopy (dehyphen (d :: l))); [|done]. cbn [dehyphen]. by rewrite Hcd. }
    apply andb_prop in Hcd as [->%Z.eqb_eq ->%Z.eqb_eq]. clear Hcopy.
    assert (exists J1, length J1 = S (length J) /\ wr 1 (len A) 45 (Dst (A ++ J ++ 95 :: ((95 :: l) ++ [0]) ++ B) o m) =
      Done tt (Dst ((A ++ [45]) ++ J1 ++ (l ++ [0]) ++ B) o m)) as (J1 & HJ1 & E1).
    { destruct J as [|j J]; cbn [app].
      - exists [95]. split; [done|]. rewrite wr_at by done. by rewrite <- !app_assoc.
      - exists (J ++ [95; 95]). split; [rewrite length_app; cbn; lia|]. rewrite wr_at by done. by rewrite <- !app_assoc. }
    rewrite (bind_done _ _ _ _ _ E1). apply Forall_cons_1 in Hn as [_ Hn], Hb as [_ Hb].
    destruct (IH l (A ++ [45]) J1 B o m (len A + len J + 2) (len A + 1) (len A + len J + len (95 :: 95 :: l) + 1)) as (J' & HJ' & E3);
      [done|done|cbn [length] in Hl; lia|rewrite length_app; cbn [length]; lia|rewrite length_app; cbn [length]; lia|cbn [length]; lia|].
    exists J'. change (dehyphen (95 :: 95 :: l)) with (45 :: dehyphen l). split; [cbn [length]; lia|]. rewrite E3. by rewrite <- !app_assoc.
Qed.

(** ** The notes of a program *)

(** A probe, as it is declared: the types of its arguments, and the types of the
    translated ones with the arguments they come from. *)
Record decl := Decl { d_name : list Z; d_nargs : list (list Z); d_xargs : list (list Z * Z) }.
Record pdecl := PDecl {
  p_name : list Z; p_pattr : attribute; p_mattr : attribute; p_fattr : attribute; p_nattr : attribute; p_aattr : attribute;
  p_probes : list decl }.

Definition link_of (d : decl) : link_probe := LinkProbe (d_name d) (Some <$> d_nargs d) ((λ x, (Some x.1, x.2)) <$> d_xargs d).
Definition link_prov (p : pdecl) : link_provider :=
  LinkProvider (p_name p) (p_pattr p) (p_mattr p) (p_fattr p) (p_nattr p) (p_aattr p) (link_of <$> p_probes p).

(** A note is a provider or the other notes of dtrace -G, or a tracepoint. *)
Inductive note := NProv (p : pdecl) | NTp (t : tracepoint) | NVer (version : list Z) | NUts (uts : list Z).

Definition written (r : option (result Z usdt_elf * allocs)) : list Z :=
  match r with Some (Ok u, _) => section_bytes (u_data u) | _ => [] end.
(** The bytes of a note: what the code writes when there is memory. *)
Definition note_bytes (n : note) : list Z :=
  match n with
  | NProv p => written (note_add_provider (link_prov p) (UsdtElf 0 0 []) (replicate (S (2 * length (p_probes p))) true))
  | NTp t => _USDT_PROBE__ t
  | NVer v => written (Some (note_add_version v (UsdtElf 0 0 []) [true]))
  | NUts u => written (Some (note_add_utsname u (UsdtElf 0 0 []) [true]))
  end.

Definition cstrings (l : list (list Z)) : list Z := concat ((λ t, t ++ [0]) <$> l).
Definition xstrings (l : list (list Z * Z)) : list Z := concat ((λ x, x.1 ++ [0; x.2]) <$> l).
Definition decl_body (d : decl) : list Z :=
  (d_name d ++ [0]) ++ [len (d_nargs d)] ++ cstrings (d_nargs d) ++ [len (d_xargs d)] ++ xstrings (d_xargs d).
Definition prov_desc (p : pdecl) : list Z :=
  prov_desc_head (link_prov p) (len (p_probes p)) ++ concat ((λ d, padded4 (decl_body d)) <$> reverse (p_probes p)).

Record wf_decl (d : decl) : Prop := {
  wd_name : nonul (d_name d);
  wd_nargs : Forall nonul (d_nargs d) /\ (length (d_nargs d) < 256)%nat;
  wd_xargs : Forall (λ x, nonul x.1 /\ is_byte x.2) (d_xargs d) /\ (length (d_xargs d) < 256)%nat;
  wd_map : d_nargs d = [] -> d_xargs d = [];
}.

Record wf_pdecl (p : pdecl) : Prop := {
  wp_name : nonul (p_name p);
  wp_short : len (p_name p) <= 53;
  wp_some : p_probes p <> [];
  wp_probes : Forall wf_decl (p_probes p);
  wp_nodup : NoDup (d_name <$> p_probes p);
  wp_size : len (prov_desc p) < 2 ^ 32;
}.

Lemma link_nargs_ok l : link_nargs (Some <$> l) = Some (cstrings l).
Proof. induction l as [|t l IH]; [done|]. cbn. rewrite IH. cbn. by rewrite <- app_assoc. Qed.

Lemma link_xargs_ok l : Forall (λ x : list Z * Z, nonul x.1 /\ is_byte x.2) l -> link_xargs ((λ x, (Some x.1, x.2)) <$> l) = Some (xstrings l).
Proof. induction 1 as [|[t i] l [_ Hi] _ IH]; [done|]. cbn. rewrite IH. cbn. rewrite Z.mod_small by apply Hi. by rewrite <- app_assoc. Qed.

Lemma probe_fragment_ok d : wf_decl d -> probe_fragment (link_of d) = Some (padded4 (decl_body d)).
Proof.
  intros [_ [_ H1] [H2 H3] _]. unfold probe_fragment, link_of. cbn [lp_nargs lp_xargs lp_name]. rewrite link_nargs_ok. cbn [mbind option_bind].
  rewrite link_xargs_ok by done. cbn [mbind option_bind]. rewrite !length_fmap, !Z.mod_small by lia. do 2 f_equal. unfold decl_body. by rewrite <- !app_assoc.
Qed.

Lemma note_add_probes_ok l notes m : Forall wf_decl l -> plenty m (2 * length l) -> exists m',
  note_add_probes (link_of <$> l) notes m = Some (reverse ((λ d, padded4 (decl_body d)) <$> l) ++ notes, m').
Proof.
  intros W. revert notes m. induction W as [|d l Wd _ IH]; intros notes m P; [by exists m|].
  cbn [length] in P. replace (2 * S (length l))%nat with (S (S (2 * length l))) in P by lia. cbn [fmap list_fmap note_add_probes].
  destruct (plenty_malloc _ _ P) as (m1 & -> & P1). cbn [negb]. rewrite probe_fragment_ok by done. cbn [mbind option_bind].
  destruct (plenty_malloc _ _ P1) as (m2 & -> & P2). cbn [negb]. destruct (IH (padded4 (decl_body d) :: notes) m2 P2) as (m3 & E).
  exists m3. etransitivity; [exact E|]. rewrite reverse_cons. by rewrite <- app_assoc.
Qed.

Lemma add_pieces_bytes l u : len (section_bytes (u_data u)) = u_base u + u_size u ->
  section_bytes (u_data (add_pieces l u)) = section_bytes (u_data u) ++ concat l.
Proof.
  revert u. induction l as [|x l IH]; intros u Hu; cbn [add_pieces concat]; [by rewrite app_nil_r|].
  assert (section_bytes (u_data u ++ [(u_base u + u_size u, x)]) = section_bytes (u_data u) ++ x) as E.
  { unfold section_bytes at 1. rewrite foldl_app. cbn [foldl]. fold (section_bytes (u_data u)).
    replace (Z.to_nat (u_base u + u_size u) - length (section_bytes (u_data u)))%nat with 0%nat by lia. done. }
  rewrite IH; cbn [u_data u_base u_size]; rewrite E; [by rewrite app_assoc|]. rewrite length_app. lia.
Qed.

Lemma length_note_header name descsz type : length name = 4%nat -> len (note_header name descsz type) = 20.
Proof. intros H. unfold note_header. rewrite !length_app, !length_le_bytes. pose proof (len_padded4 (name ++ [0])) as E. rewrite length_app, H in E. change (ALIGN (Z.of_nat (4 + length [0])) 4) with 8 in E. lia. Qed.

Lemma written_one x : section_bytes (u_data (add_pieces [x] (UsdtElf (ALIGN (0 + 0) 4) 0 []))) = x.
Proof. rewrite add_pieces_bytes by done. cbn. by rewrite app_nil_r. Qed.

Lemma note_bytes_prov p : wf_pdecl p -> note_bytes (NProv p) = note_header prov_name (len (prov_desc p)) 1 ++ prov_desc p.
Proof.
  intros [_ Hs Hne Hp _ Hz]. unfold note_bytes, note_add_provider. cbn [lv_probes lv_name link_prov]. rewrite length_fmap.
  destruct (p_probes p) as [|d0 l0] eqn:Epr; [done|]. rewrite <- Epr in *. rewrite (proj2 (Z.eqb_neq _ _)) by (rewrite Epr; cbn [length]; lia).
  unfold DTRACE_PROVNAMELEN. rewrite Z.gtb_ltb, (proj2 (Z.ltb_ge _ _)) by lia. cbn [replicate malloc negb].
  destruct (note_add_probes_ok (p_probes p) [] (replicate (2 * length (p_probes p)) true) Hp) as (m' & E); [by exists []; rewrite app_nil_r|].
  rewrite E. cbn [mbind option_bind written]. rewrite app_nil_r, add_pieces_bytes by done. cbn [section_bytes foldl u_data app concat].
  rewrite <- app_assoc, <- fmap_reverse. f_equal. unfold note_header. do 2 f_equal. f_equal. unfold prov_desc in *. rewrite length_app in Hz |- *.
  etransitivity; [apply wrapu_small|]; lia.
Qed.

Lemma note_bytes_ver v : note_bytes (NVer v) = note_header dver_name (len (padded4 (v ++ [0]))) 1 ++ padded4 (v ++ [0]).
Proof. cbn [note_bytes note_add_version note_add_data malloc negb written u_base u_size u_data]. apply written_one. Qed.
Lemma note_bytes_uts u : note_bytes (NUts u) = note_header utsn_name (len (padded4 u)) 1 ++ padded4 u.
Proof. cbn [note_bytes note_add_utsname note_add_data malloc negb written u_base u_size u_data]. apply written_one. Qed.

(** ** Parsing a note *)

(** Carry out a step whose result is known. *)
Ltac run_with H := rewrite (bind_done _ _ _ _ _ H).

(** A check that passes. *)
Ltac passes := erewrite bind_done; [|apply fail_if_no; lia].

Lemma strarray_nargs l str p end_ im o m : at_off im p (cstrings l) -> Forall nonul l -> p + len (cstrings l) <= end_ ->
  strarray_size (length l) str p end_ 0 (Dst im o m) = Done (Some (p + len (cstrings l) - str)) (Dst im o m).
Proof.
  intros A F. revert p A. induction F as [|t l Ht _ IH]; intros p A He; cbn [length strarray_size].
  - unfold cstrings. cbn. by rewrite Z.add_0_r.
  - change (cstrings (t :: l)) with ((t ++ [0]) ++ cstrings l) in *. apply at_off_app in A as [A1 A2]. rewrite !length_app in *. cbn [length] in *.
    rewrite Z.geb_leb, (proj2 (Z.leb_gt _ _)) by lia. run_with (strlen_at _ _ _ o m A1 Ht). rewrite IH; [do 2 f_equal; lia| |lia].
    eapply at_off_eq; [exact A2|]. lia.
Qed.

Lemma strarray_xargs l str p end_ im o m : at_off im p (xstrings l) -> Forall (λ x, nonul x.1 /\ is_byte x.2) l -> p + len (xstrings l) <= end_ ->
  strarray_size (length l) str p end_ 1 (Dst im o m) = Done (Some (p + len (xstrings l) - str)) (Dst im o m).
Proof.
  intros A F. revert p A. induction F as [|[t i] l [Ht Hi] _ IH]; intros p A He; cbn [length strarray_size].
  - unfold xstrings. cbn. by rewrite Z.add_0_r.
  - change (xstrings ((t, i) :: l)) with ((t ++ [0; i]) ++ xstrings l) in *. cbn [fst] in Ht. apply at_off_app in A as [A1 A2].
    change [0; i] with ([0] ++ [i]) in A1. rewrite app_assoc in A1. apply at_off_app in A1 as [A1 _]. rewrite !length_app in *. cbn [length] in *.
    rewrite Z.geb_leb, (proj2 (Z.leb_gt _ _)) by lia. run_with (strlen_at _ _ _ o m A1 Ht). rewrite IH; [do 2 f_equal; lia| |lia].
    eapply at_off_eq; [exact A2|]. lia.
Qed.

Lemma copy_xargs_ok l p im o m : at_off im p (xstrings l) -> Forall (λ x, nonul x.1 /\ is_byte x.2) l ->
  copy_xargs (length l) p (Dst im o m) = Done (cstrings l.*1, l.*2, p + len (xstrings l)) (Dst im o m).
Proof.
  intros A F. revert p A. induction F as [|[t i] l [Ht Hi] _ IH]; intros p A; cbn [length copy_xargs].
  - unfold xstrings. cbn. by rewrite Z.add_0_r.
  - change (xstrings ((t, i) :: l)) with ((t ++ [0; i]) ++ xstrings l) in *. cbn [fst snd] in Ht, Hi. apply at_off_app in A as [A1 A2].
    change [0; i] with ([0] ++ [i]) in A1. rewrite app_assoc in A1. apply at_off_app in A1 as [A1 A3].
    run_with (rdstr_at _ _ _ o m A1 Ht). cbn beta zeta. rewrite !length_app in *. cbn [length] in *.
    assert (at_off im (p + (len t + 1)) [i]) as A4 by (eapply at_off_eq; [exact A3|lia]). run_with (rd_byte _ _ _ o m A4).
    assert (at_off im (p + (len t + 1) + 1) (xstrings l)) as A5 by (eapply at_off_eq; [exact A2|lia]). run_with (IH _ A5).
    cbn. rewrite <- app_assoc. do 2 f_equal. lia.
Qed.

Lemma htab_insert_ok {E} `{EqDecision E} (ops : htab_ops E) `{!SoloOps ops} t es x im o m k :
  uniq ops t es -> x ∉ es -> dt_htab_lookup ops t x = [] -> plenty m (S (S k)) ->
  exists t' m', htab_insert ops (Some t) x (Dst im o m) = Done (Some t') (Dst im o m') /\ uniq ops t' (x :: es) /\ plenty m' k.
Proof.
  intros U Hx Hl P. destruct (dmalloc_plenty im o m _ P) as (m1 & E1 & P1). destruct (dmalloc_plenty im o m1 _ P1) as (m2 & E2 & P2).
  destruct (uniq_insert ops (λ _, true) t es x) as (t' & E3 & U'); [done..|]. exists t', m2. split; [|done].
  unfold htab_insert. run_with E1. run_with E2. by rewrite E3.
Qed.

Lemma htab_create_ok {E} `{EqDecision E} (ops : htab_ops E) im o m k : plenty m (S (S k)) ->
  exists t m', htab_create (Dst im o m) = Done (Some t) (Dst im o m') /\ uniq ops t [] /\ plenty m' k.
Proof.
  intros P. destruct (dmalloc_plenty im o m _ P) as (m1 & E1 & P1). destruct (dmalloc_plenty im o m1 _ P1) as (m2 & E2 & P2).
  eexists _, m2. split; [|split; [|exact P2]].
  - unfold htab_create. run_with E1. run_with E2. reflexivity.
  - by apply uniq_create.
Qed.

Lemma head_nil {A} (l : list A) : head l = None <-> l = [].
Proof. by destruct l. Qed.

Section Parse.
Variable chr : Z -> Z.
Variable mod_ : list Z.
Abbreviation prv_ops := (prv_htab_ops chr).
Abbreviation prb_ops := (prb_htab_ops chr).

(** What a declared probe becomes. *)
Definition decl_key (name : list Z) (ptr : nat) (d : decl) : prb_ref := PrbRef (Some ptr) name mod_ None (d_name d) 0.
Definition decl_data (d : decl) : dt_probe :=
  Probe None 0 0 (len (d_nargs d)) (len (d_xargs d)) 0 (cstrings (d_nargs d)) (cstrings (d_xargs d).*1) (d_xargs d).*2 [].

Lemma parse_prov_probe_ok nt pvi name p0 p d st pv t es im o m k :
  wf_decl d -> ALIGN p0 4 = p -> at_off im p (padded4 (decl_body d)) -> p + len (decl_body d) - n_desc nt <= n_descsz nt ->
  pvs st !! pvi = Some pv -> pmap pv = Some t -> uniq prb_ops t es -> Forall (λ e, pr_prb e <> d_name d) es -> plenty m (5 + k) ->
  exists t' m', parse_prov_probe chr mod_ nt pvi name p0 st (Dst im o m) =
      Done (p + len (decl_body d),
            add_prb (set_pv st pvi (set_pmap pv (Some t'))) (decl_key name (length (prbs st)) d) (decl_data d)) (Dst im o m') /\
    uniq prb_ops t' (decl_key name (length (prbs st)) d :: es) /\ plenty m' k.
Proof.
  intros [Hn [Hna Hnl] [Hxa Hxl] _] Hp A Hd Hpv Hpm U Hes P. unfold padded4 in A. apply at_off_app in A as [A _].
  unfold decl_body in A, Hd |- *. rewrite !length_app in Hd |- *. cbn [length] in Hd |- *.
  apply at_off_app in A as [A1 A]. apply at_off_app in A as [A2 A]. apply at_off_app in A as [A3 A]. apply at_off_app in A as [A4 A5].
  rewrite length_app in A2, A3, A4, A5. cbn [length] in A2, A3, A4, A5.
  unfold parse_prov_probe. cbv zeta. rewrite Hp. run_with (rdstr_at _ _ _ o m A1 Hn).
  passes. rewrite (bind_done _ _ _ (pvi, pv) (Dst im o m)) by (cbn; by rewrite Hpv).
  assert (forall ptr, dt_htab_lookup prb_ops t (PrbRef ptr name mod_ None (d_name d) 0) = []) as Hl.
  { intros ptr. pose proof (uniq_lookup prb_ops t es (PrbRef ptr name mod_ None (d_name d) 0) U) as L.
    destruct (dt_htab_lookup _ _ _) as [|e l]; [done|]. destruct L as (_ & He & _ & (_ & _ & Hc & _)%prb_cmp_eq).
    rewrite Forall_forall in Hes. by destruct (Hes e He). }
  rewrite (bind_done _ _ _ None (Dst im o m)) by (unfold htab_lookup; by rewrite Hpm, Hl).
  destruct (dmalloc_plenty im o m _ P) as (m1 & E1 & P1). run_with E1. cbn [negb]. rewrite Hpm.
  destruct (htab_insert_ok prb_ops t es (decl_key name (length (prbs st)) d) im o m1 (S (S k))) as (t' & m2 & E2 & U' & P2); [done| |apply Hl|done|].
  { intros He. rewrite Forall_forall in Hes. by destruct (Hes _ He). }
  unfold decl_key in E2. run_with E2. exists t'.
  assert (at_off im (p + (len (d_name d) + 1)) [len (d_nargs d)]) as B2 by (eapply at_off_eq; [exact A2|lia]). run_with (rd_byte _ _ _ o m2 B2).
  rewrite Nat2Z.id. assert (at_off im (p + (len (d_name d) + 1) + 1) (cstrings (d_nargs d))) as B3 by (eapply at_off_eq; [exact A3|lia]).
  run_with (strarray_nargs _ (p + (len (d_name d) + 1) + 1) _ (n_desc nt + n_descsz nt) _ o m2 B3 Hna ltac:(lia)).
  replace (p + (len (d_name d) + 1) + 1 + len (cstrings (d_nargs d)) - (p + (len (d_name d) + 1) + 1)) with (len (cstrings (d_nargs d))) by lia.
  run_with (rdbytes_at _ _ _ o m2 B3). passes.
  assert (at_off im (p + (len (d_name d) + 1) + 1 + len (cstrings (d_nargs d))) [len (d_xargs d)]) as B4 by (eapply at_off_eq; [exact A4|lia]).
  run_with (rd_byte _ _ _ o m2 B4). rewrite Nat2Z.id. set (q := p + (len (d_name d) + 1) + 1 + len (cstrings (d_nargs d)) + 1).
  assert (at_off im q (xstrings (d_xargs d))) as B5 by (eapply at_off_eq; [exact A5|unfold q; lia]).
  run_with (strarray_xargs _ q _ (n_desc nt + n_descsz nt) _ o m2 B5 Hxa ltac:(unfold q; lia)).
  replace (q + len (xstrings (d_xargs d)) - q) with (len (xstrings (d_xargs d))) by lia.
  destruct (decide (d_xargs d = [])) as [Ex|Ex].
  - unfold decl_data. rewrite Ex in *. exists m2. rewrite Z.gtb_ltb, (proj2 (Z.ltb_ge _ _)) by (cbn; lia). split_and!; [|done|by eapply plenty_le; [done|lia]].
    cbn [length] in q |- *. unfold mret, D_ret. do 2 f_equal. unfold q. cbn. lia.
  - assert (0 < len (xstrings (d_xargs d))) as Hpos.
    { destruct (d_xargs d) as [|[u i] xs]; [done|]. unfold xstrings. cbn. rewrite !length_app. cbn [length]. lia. }
    rewrite Z.gtb_ltb, (proj2 (Z.ltb_lt _ _)) by done. destruct (dmalloc_plenty im o m2 _ P2) as (m3 & E3 & P3). run_with E3.
    destruct (dmalloc_plenty im o m3 _ P3) as (m4 & E4 & P4). run_with E4. cbn [negb orb]. run_with (copy_xargs_ok _ _ _ o m4 B5 Hxa).
    exists m4. split_and!; [|done|done]. unfold mret, D_ret. do 2 f_equal. unfold q. lia.
Qed.

(** The structures of the declared probes, from the pointer [n] on. *)
Definition new_probes (name : list Z) (n : nat) (ds : list decl) : list (prb_ref * dt_probe) :=
  imap (λ j d, (decl_key name (n + j) d, decl_data d)) ds.

#[local] Arguments new_probes : simpl never.

Lemma new_probes_cons name n d ds : new_probes name n (d :: ds) = (decl_key name n d, decl_data d) :: new_probes name (S n) ds.
Proof.
  unfold new_probes. rewrite imap_cons. f_equal; [by rewrite Nat.add_0_r|]. apply imap_ext. intros j x _. cbn. by rewrite Nat.add_succ_r.
Qed.

Abbreviation fragments ds := (concat ((λ d, padded4 (decl_body d)) <$> ds)).

Lemma parse_prov_probes_ok nt pvi name ds p0 p st pv t es im o m k :
  Forall wf_decl ds -> NoDup (d_name <$> ds) -> ALIGN p0 4 = p -> at_off im p (fragments ds) -> p + len (fragments ds) - n_desc nt <= n_descsz nt ->
  pvs st !! pvi = Some pv -> pmap pv = Some t -> uniq prb_ops t es -> Forall (λ e, pr_prb e ∉ d_name <$> ds) es -> plenty m (5 * length ds + k) ->
  exists t' m', parse_prov_probes chr mod_ (length ds) nt pvi name p0 st (Dst im o m) =
      Done (Nst (prvmap st) (prbmap st) (<[pvi := set_pmap pv (Some t')]> (pvs st)) (prbs st ++ new_probes name (length (prbs st)) ds)) (Dst im o m') /\
    uniq prb_ops t' ((new_probes name (length (prbs st)) ds).*1 ++ es) /\ plenty m' k.
Proof.
  intros W. revert p0 p st pv t es m. induction W as [|d ds Wd _ IH]; intros p0 p st pv t es m Hn Hp A Hd Hpv Hpm U Hes P; cbn [length parse_prov_probes].
  - exists t, m. split_and!; [|done|done]. cbn. rewrite app_nil_r. unfold mret, D_ret. f_equal. destruct st as [a b c d]. cbn in *. f_equal.
    symmetry. apply list_insert_id. rewrite Hpv. f_equal. destruct pv. cbn in *. by subst.
  - cbn [fmap list_fmap concat] in *. apply NoDup_cons in Hn as [Hd1 Hn]. apply at_off_app in A as [A1 A2]. rewrite length_app in Hd.
    replace (5 * length (d :: ds) + k)%nat with (5 + (5 * length ds + k))%nat in P by (cbn [length]; lia).
    assert (p + len (decl_body d) - n_desc nt <= n_descsz nt) as Hd2.
    { pose proof (ALIGN_bounds (len (decl_body d))). pose proof (len_padded4 (decl_body d)). lia. }
    destruct (parse_prov_probe_ok nt pvi name p0 p d st pv t es im o m (5 * length ds + k) Wd Hp A1 Hd2 Hpv Hpm U) as (t1 & m1 & E1 & U1 & P1); [|exact P|].
    { eapply Forall_impl; [exact Hes|]. intros e He Heq. apply He. rewrite Heq. left. }
    run_with E1. set (st1 := add_prb _ _ _).
    destruct (IH (p + len (decl_body d)) (p + len (padded4 (decl_body d))) st1 (set_pmap pv (Some t1)) t1
      (decl_key name (length (prbs st)) d :: es) m1) as (t' & m' & E2 & U2 & P2); [done| |done|lia| |done|done| |done|].
    + rewrite len_padded4. apply ALIGN_add. rewrite <- Hp. apply ALIGN_divide.
    + unfold st1. cbn. by apply list_lookup_insert_eq, lookup_lt_Some with pv.
    + constructor; [done|]. eapply Forall_impl; [exact Hes|]. intros e He Hin. apply He. by right.
    + exists t', m'. split_and!; [|eapply uniq_perm; [|exact U2]|done].
      * etransitivity; [exact E2|]. unfold st1. cbn. rewrite list_insert_insert, decide_True by done. rewrite length_app. cbn [length].
        rewrite new_probes_cons, Nat.add_1_r, <- app_assoc. done.
      * unfold st1. cbn. rewrite length_app. cbn [length]. rewrite new_probes_cons, Nat.add_1_r. cbn. by rewrite Permutation_middle.
Qed.

Lemma fragments_len ds : len ds <= len (fragments ds).
Proof.
  induction ds as [|d ds IH]; [done|]. cbn [fmap list_fmap concat length]. rewrite length_app. pose proof (ALIGN_bounds (len (decl_body d))).
  pose proof (len_padded4 (decl_body d)). assert (1 <= len (decl_body d)) by (unfold decl_body; rewrite !length_app; cbn [length]; lia). lia.
Qed.

Definition prov_data (p : pdecl) (t : dt_htab prb_ref) : dt_provider :=
  Provider (STORE_ATTR (p_pattr p)) (STORE_ATTR (p_mattr p)) (STORE_ATTR (p_fattr p)) (STORE_ATTR (p_nattr p)) (STORE_ATTR (p_aattr p)) 0 (Some t).

Lemma len_attr a : len (note_store_attr a) = 4.
Proof. unfold note_store_attr. by rewrite length_le_bytes. Qed.

Lemma rd_attr a off im o m : at_off im off (note_store_attr a) -> rd 4 off (Dst im o m) = Done (STORE_ATTR a) (Dst im o m).
Proof. intros A. apply rd_num; [done|]. change (256 ^ Z.of_nat 4) with (2 ^ 32). by apply wrapu_range. Qed.

Lemma parse_prov_note_ok nt p st tv vs im o m k :
  wf_pdecl p -> (4 | n_desc nt) -> at_off im (n_desc nt) (prov_desc p) -> n_descsz nt = len (prov_desc p) ->
  prvmap st = Some tv -> uniq prv_ops tv vs -> Forall (λ e, pv_name e <> p_name p) vs -> plenty m (5 + (5 * length (p_probes p) + k)) ->
  exists tv' t' m', parse_prov_note chr mod_ nt st (Dst im o m) =
      Done (Nst (Some tv') (prbmap st) (pvs st ++ [prov_data p t']) (prbs st ++ new_probes (p_name p) (length (prbs st)) (reverse (p_probes p)))) (Dst im o m') /\
    uniq prv_ops tv' (PrvRef (Some (length (pvs st))) (p_name p) :: vs) /\
    uniq prb_ops t' (new_probes (p_name p) (length (prbs st)) (reverse (p_probes p))).*1 /\ plenty m' k.
Proof.
  intros [Hn Hs _ Hp Hnd Hz] [kd Hkd] A Hd Htv U Hvs P. unfold prov_desc, prov_desc_head in A. cbn [link_prov lv_name lv_provider lv_mod lv_func lv_attr_name lv_args] in A.
  assert (len (prov_desc p) = ALIGN (len (p_name p) + 1) 4 + 24 + len (fragments (reverse (p_probes p)))) as Hlen.
  { unfold prov_desc, prov_desc_head, note_store_attr. rewrite !length_app, !length_le_bytes. cbn [link_prov lv_name].
    pose proof (len_padded4 (p_name p ++ [0])) as E. rewrite length_app in E. cbn [length] in E. rewrite !Nat2Z.inj_add, E. 
    replace (Z.of_nat (length (p_name p) + 1)) with (len (p_name p) + 1) by lia. lia. }
  rewrite <- !app_assoc in A. apply at_off_app in A as [A0 A]. rewrite len_padded4, length_app in A. cbn [length] in A.
  replace (Z.of_nat (length (p_name p) + 1)) with (len (p_name p) + 1) in A by lia. unfold padded4 in A0. apply at_off_app in A0 as [A0 _].
  repeat (apply at_off_app in A as [?A A]). rewrite length_le_bytes in A.
  pose proof (len_attr (p_pattr p)). pose proof (len_attr (p_mattr p)). pose proof (len_attr (p_fattr p)). pose proof (len_attr (p_nattr p)). pose proof (len_attr (p_aattr p)). set (q := n_desc nt + ALIGN (len (p_name p) + 1) 4) in *.
  unfold parse_prov_note. cbv zeta. run_with (rdstr_at _ _ _ o m A0 Hn). passes.
  assert (forall ptr, dt_htab_lookup prv_ops tv (PrvRef ptr (p_name p)) = []) as Hl.
  { intros ptr. pose proof (uniq_lookup prv_ops tv vs (PrvRef ptr (p_name p)) U) as L.
    destruct (dt_htab_lookup _ _ _) as [|e l]; [done|]. destruct L as (_ & He & _ & Hc%prv_cmp_eq). rewrite Forall_forall in Hvs. by destruct (Hvs e He). }
  rewrite (bind_done _ _ _ None (Dst im o m)) by (unfold htab_lookup; by rewrite Htv, Hl).
  destruct (dmalloc_plenty im o m _ P) as (m1 & E1 & P1). run_with E1. cbn [negb]. rewrite Htv.
  destruct (htab_insert_ok prv_ops tv vs (PrvRef (Some (length (pvs st))) (p_name p)) im o m1 (S (S (5 * length (p_probes p) + k))) U) as (tv' & m2 & E2 & U2 & P2); [|apply Hl|done|].
  { intros He. rewrite Forall_forall in Hvs. by destruct (Hvs _ He). }
  run_with E2. destruct (htab_create_ok prb_ops im o m2 _ P2) as (t0 & m3 & E3 & U3 & P3). run_with E3. fold q.
  run_with (rd_attr _ _ _ o m3 A1).
  assert (at_off im (q + 4) (note_store_attr (p_mattr p))) as B2 by (eapply at_off_eq; [exact A2|lia]). run_with (rd_attr _ _ _ o m3 B2).
  assert (at_off im (q + 8) (note_store_attr (p_fattr p))) as B3 by (eapply at_off_eq; [exact A3|lia]). run_with (rd_attr _ _ _ o m3 B3).
  assert (at_off im (q + 12) (note_store_attr (p_nattr p))) as B4 by (eapply at_off_eq; [exact A4|lia]). run_with (rd_attr _ _ _ o m3 B4).
  assert (at_off im (q + 16) (note_store_attr (p_aattr p))) as B5 by (eapply at_off_eq; [exact A5|lia]). run_with (rd_attr _ _ _ o m3 B5).
  pose proof (fragments_len (reverse (p_probes p))) as Hfl. rewrite length_reverse in Hfl. pose proof (ALIGN_bounds (len (p_name p) + 1)).
  assert (at_off im (q + 20) (le_bytes 4 (len (p_probes p)))) as B6 by (eapply at_off_eq; [exact A6|lia]).
  run_with (rd_num _ _ _ _ o m3 B6 ltac:(change (256 ^ Z.of_nat 4) with (2 ^ 32); lia)). rewrite Nat2Z.id.
  set (st1 := Nst (Some tv') _ _ _).
  destruct (parse_prov_probes_ok nt (length (pvs st)) (p_name p) (reverse (p_probes p)) (q + 24) (q + 24) st1 (prov_data p t0) t0 [] im o m3 k)
    as (t' & m4 & E4 & U4 & P4); try done.
  - by apply Forall_reverse.
  - by rewrite reverse_Permutation.
  - apply ALIGN_id. apply Z.divide_add_r; [|by exists 6]. unfold q. apply Z.divide_add_r; [by exists kd|apply ALIGN_divide].
  - eapply at_off_eq; [exact A|lia].
  - rewrite Hd, Hlen. unfold q. lia.
  - unfold st1. cbn. by rewrite list_lookup_middle.
  - by rewrite length_reverse.
  - rewrite length_reverse in E4. exists tv', t', m4. split_and!; [|done|by rewrite app_nil_r in U4|done]. rewrite E4. unfold st1. cbn.
    by rewrite insert_app_r_alt, Nat.sub_diag.
Qed.

(** *** Tracepoints *)

Variable ro : usdt_data.

(** The name of the function that a tracepoint refers to. *)
Definition fun_of (t : tracepoint) : list Z := cstr (drop (Z.to_nat (tp_fn t - base ro)) (buf ro)).

Record wf_tp (t : tracepoint) : Prop := {
  wt_addr : 0 < tp_addr t < 2 ^ 32;
  wt_prv : nonul (tp_prv t);
  wt_prb : nonul (tp_prb t) /\ Forall is_byte (tp_prb t);
  wt_args : nonul (tp_args t);
  wt_fn : base ro <= tp_fn t < 2 ^ 64 /\ 0 <= base ro;
  wt_fun : 0 ∈ drop (Z.to_nat (tp_fn t - base ro)) (buf ro);
  wt_size : len (tp_desc t) < 2 ^ 32;
}.

Definition tp_key (n : nat) (t : tracepoint) : prb_ref :=
  PrbRef (Some n) (tp_prv t) mod_ (Some (fun_of t)) (dehyphen (tp_prb t)) (tp_addr t).
Definition tp_enabled (t : tracepoint) : Z := if tp_typ t =? _USDT_EN_NOTE_TYPE then 1 else 0.
Definition tp_data (t : tracepoint) : dt_probe := Probe None 0 (tp_enabled t) 0 0 (tp_nargs t) [] [] [] (tp_args t).

Lemma cstr_take l n b : list_find (λ b, b = 0) l = Some (n, b) -> take n l = cstr l.
Proof.
  revert n. induction l as [|x l IH]; intros n; cbn [list_find]; [done|]. case_decide as H; [intros [= <- <-]; cbn; by rewrite H|].
  destruct (list_find (λ b, b = 0) l) as [[i y]|] eqn:E; cbn; [|done]. intros [= <- <-]. cbn. rewrite (proj2 (Z.eqb_neq x 0)) by done. f_equal. by apply IH.
Qed.

Lemma rodata_str_ok t s : size ro = len (buf ro) -> wf_tp t ->
  rodata_str ro (tp_fn t - base ro) s = Done (fun_of t) s /\ tp_fn t - base ro < size ro.
Proof.
  intros Hs W. unfold rodata_str, fun_of. pose proof (wt_fun _ W) as H. pose proof (wt_fn _ W). split.
  - destruct (list_find (λ b, b = 0) (drop (Z.to_nat (tp_fn t - base ro)) (buf ro))) as [[n b]|] eqn:E.
    + f_equal. by eapply cstr_take.
    + apply list_find_None in E. rewrite Forall_forall in E. by destruct (E 0 H).
  - apply list_elem_of_lookup in H as [i Hi]. rewrite lookup_drop in Hi. apply lookup_lt_Some in Hi. lia.
Qed.

(** The key of a tracepoint, without its address. *)
Definition same_tp (e : prb_ref) (t : tracepoint) : Prop :=
  pr_prv e = tp_prv t /\ pr_fun e = Some (fun_of t) /\ pr_prb e = dehyphen (tp_prb t) /\ pr_off e = tp_addr t.

Lemma parse_hyphens (A B prb : list Z) o m : nonul prb -> Forall is_byte prb -> exists J, (length (dehyphen prb) + length J = length prb)%nat /\
  (if has_hyphens prb then hyphens (Z.to_nat (len A + (len prb + 1) - len A)) (len A) (len A + (len prb + 1)) (len A) else mret tt)
    (Dst (A ++ (prb ++ [0]) ++ B) o m) = Done tt (Dst (A ++ (dehyphen prb ++ [0]) ++ J ++ B) o m).
Proof.
  intros Hn Hb. destruct (has_hyphens prb) eqn:E.
  - destruct (hyphens_ok (Z.to_nat (len A + (len prb + 1) - len A)) prb A [] B o m (len A) (len A) (len A + (len prb + 1))) as (J & HJ & E1);
      [done|done|lia|cbn; lia|done|lia|]. exists J. split; [cbn in HJ; lia|exact E1].
  - exists []. rewrite dehyphen_id by done. split; [cbn; lia|done].
Qed.

Lemma parse_usdt_note_ok nt t st tb es pre post o m k : size ro = len (buf ro) -> wf_tp t ->
  n_desc nt = len pre -> n_descsz nt = len (tp_desc t) -> n_type nt = tp_typ t ->
  prbmap st = Some tb -> uniq prb_ops tb es -> Forall (λ e, 0 < pr_off e < 2 ^ 32 /\ ~ same_tp e t) es -> plenty m (3 + k) ->
  exists tb' D' m', parse_usdt_note chr mod_ (Some ro) nt st (Dst (pre ++ tp_desc t ++ post) o m) =
      Done (Nst (prvmap st) (Some tb') (pvs st) (prbs st ++ [(tp_key (length (prbs st)) t, tp_data t)])) (Dst (pre ++ D' ++ post) o m') /\
    length D' = length (tp_desc t) /\ uniq prb_ops tb' (tp_key (length (prbs st)) t :: es) /\ plenty m' k.
Proof.
  intros Hs W Hd Hsz Hty Htb U Hes P. pose proof (wt_fn _ W) as Hfn. destruct (rodata_str_ok t (Dst [] [] []) Hs W) as [_ Hro].
  assert (len (tp_desc t) = 16 + (len (tp_prv t) + 1) + (len (tp_prb t) + 1) + 1 + (len (tp_args t) + 1)) as Hlen.
  { unfold tp_desc. rewrite !length_app, !length_le_bytes. cbn [length]. rewrite length_app. cbn [length]. lia. }
  set (A := pre ++ le_bytes 8 (tp_addr t) ++ le_bytes 8 (tp_fn t) ++ tp_prv t ++ [0]).
  set (B := [tp_nargs t] ++ (tp_args t ++ [0]) ++ post).
  assert (pre ++ tp_desc t ++ post = A ++ (tp_prb t ++ [0]) ++ B) as Eim.
  { unfold A, B, tp_desc. cbn [app]. rewrite <- !app_assoc. cbn [app]. by rewrite <- !app_assoc. }
  assert (len A = len pre + 16 + (len (tp_prv t) + 1)) as HlA.
  { unfold A. rewrite !length_app, !length_le_bytes. cbn [length]. lia. }
  unfold parse_usdt_note. cbv zeta. rewrite Eim, Hd. set (im := A ++ (tp_prb t ++ [0]) ++ B). passes.
  assert (at_off im (len pre) (le_bytes 8 (tp_addr t))) as A1.
  { unfold im, A. rewrite <- !app_assoc. by apply at_off_intro. }
  pose proof (wt_addr _ W). run_with (rd_num _ _ _ _ o m A1 ltac:(change (256 ^ Z.of_nat 8) with (2 ^ 64); lia)).
  assert (at_off im (len pre + 8) (le_bytes 8 (tp_fn t))) as A2.
  { unfold im, A. rewrite <- !app_assoc, (app_assoc pre). apply at_off_intro. rewrite length_app, length_le_bytes. lia. }
  run_with (rd_num _ _ _ _ o m A2 ltac:(change (256 ^ Z.of_nat 8) with (2 ^ 64); lia)).
  assert (at_off im (len pre + 16) (tp_prv t ++ [0])) as A3.
  { unfold im, A. rewrite <- !app_assoc, (app_assoc pre), (app_assoc (pre ++ _)), (app_assoc (tp_prv t)). apply at_off_intro. rewrite !length_app, !length_le_bytes. lia. }
  run_with (rdstr_at _ _ _ o m A3 (wt_prv _ W)). passes. passes.
  replace (len pre + 16 + (len (tp_prv t) + 1)) with (len A) by lia.
  assert (at_off im (len A) (tp_prb t ++ [0])) as A4 by (by apply at_off_intro). destruct (wt_prb _ W) as [Hn Hb].
  run_with (strlen_at _ _ _ o m A4 Hn). passes. run_with (rdstr_at _ _ _ o m A4 Hn).
  destruct (parse_hyphens A B (tp_prb t) o m Hn Hb) as (J & HJ & EJ). unfold im. run_with EJ. clear A1 A2 A3 A4 im.
  set (im := A ++ (dehyphen (tp_prb t) ++ [0]) ++ J ++ B).
  assert (nonul (dehyphen (tp_prb t))) as Hn' by (by apply dehyphen_nonul).
  assert (at_off im (len A) (dehyphen (tp_prb t) ++ [0])) as A4 by (by apply at_off_intro). run_with (rdstr_at _ _ _ o m A4 Hn').
  run_with (proj1 (rodata_str_ok t (Dst im o m) Hs W)). assert (u32 (tp_addr t) = tp_addr t) as -> by (apply wrapu_small; lia).
  assert (forall ptr, dt_htab_lookup prb_ops tb (PrbRef ptr (tp_prv t) mod_ (Some (fun_of t)) (dehyphen (tp_prb t)) (tp_addr t)) = []) as Hl.
  { intros ptr. match goal with |- dt_htab_lookup _ _ ?x = [] => pose proof (uniq_lookup prb_ops tb es x U) as L end.
    destruct (dt_htab_lookup _ _ _) as [|e l]; [done|]. destruct L as (_ & He & _ & (H1 & H2 & H3 & H4)%prb_cmp_eq).
    rewrite Forall_forall in Hes. destruct (Hes e He) as [Ho Hne]. destruct Hne. split_and!; [done..|]. by apply off_match_small. }
  rewrite (bind_done _ _ _ None (Dst im o m)) by (unfold htab_lookup; by rewrite Htb, Hl).
  destruct (dmalloc_plenty im o m _ P) as (m1 & E1 & P1). run_with E1. cbn [negb]. rewrite Htb.
  destruct (htab_insert_ok prb_ops tb es (tp_key (length (prbs st)) t) im o m1 k U) as (tb' & m2 & E2 & U2 & P2); [|apply Hl|done|].
  { intros He. rewrite Forall_forall in Hes. by destruct (Hes _ He) as [_ []]. }
  unfold tp_key in E2. run_with E2.
  assert (at_off im (len A + (len (tp_prb t) + 1)) [tp_nargs t]) as A5.
  { unfold im, B. rewrite (app_assoc A), (app_assoc (A ++ _)). apply at_off_intro. rewrite !length_app. cbn [length]. lia. }
  run_with (rd_byte _ _ _ o m2 A5).
  assert (at_off im (len A + (len (tp_prb t) + 1) + 1) (tp_args t ++ [0])) as A6.
  { unfold im, B. rewrite (app_assoc A), (app_assoc (A ++ _)), (app_assoc ((A ++ _) ++ _)). apply at_off_intro. rewrite !length_app. cbn [length]. lia. }
  run_with (rdstr_at _ _ _ o m2 A6 (wt_args _ W)). passes. rewrite Hty.
  exists tb', (le_bytes 8 (tp_addr t) ++ le_bytes 8 (tp_fn t) ++ (tp_prv t ++ [0]) ++ (dehyphen (tp_prb t) ++ [0]) ++ J ++ tp_nargs t :: tp_args t ++ [0]), m2.
  split_and!; [|rewrite !length_app, !length_le_bytes; cbn [length]; rewrite !length_app; cbn [length]; lia|done|done].
  unfold mret, D_ret. f_equal. f_equal. unfold im, A, B. cbn [app]. rewrite <- !app_assoc. cbn [app]. by rewrite <- !app_assoc.
Qed.

(** *** All notes *)

Definition provs (ns : list note) : list pdecl := omap (λ n, match n with NProv p => Some p | _ => None end) ns.
Definition tps (ns : list note) : list tracepoint := omap (λ n, match n with NTp t => Some t | _ => None end) ns.

Definition wf_note (n : note) : Prop :=
  match n with
  | NProv p => wf_pdecl p
  | NTp t => wf_tp t /\ (tp_typ t = _USDT_TP_NOTE_TYPE \/ tp_typ t = _USDT_EN_NOTE_TYPE)
  | NVer v => len v < 2 ^ 31
  | NUts u => 0 < len u < 2 ^ 31
  end.

(** What identifies a tracepoint. *)
Definition tp_id (t : tracepoint) := (tp_prv t, fun_of t, dehyphen (tp_prb t), tp_addr t).

(** The declaration of the probe that a tracepoint belongs to. *)
Definition declares (ns : list note) (t : tracepoint) (p : pdecl) (d : decl) : Prop :=
  p ∈ provs ns /\ p_name p = tp_prv t /\ d ∈ p_probes p /\ d_name d = dehyphen (tp_prb t).

Record wf_notes (ns : list note) : Prop := {
  wn_rodata : size ro = len (buf ro);
  wn_notes : Forall wf_note ns;
  wn_provs : NoDup (p_name <$> provs ns);
  wn_tps : NoDup (tp_id <$> tps ns);
  wn_declared t : t ∈ tps ns -> exists p d, declares ns t p d /\
    (tp_nargs t = len (d_nargs d) \/ (tp_typ t = _USDT_EN_NOTE_TYPE /\ tp_nargs t = 1));
  wn_few : len (tps ns) < 2 ^ 32;
}.

Definition nname (n : note) : list Z := match n with NProv _ => prov_name | NTp _ => usdt_name | NVer _ => dver_name | NUts _ => utsn_name end.
Definition ntype (n : note) : Z := match n with NTp t => tp_typ t | _ => 1 end.
Definition ndesc (n : note) : list Z :=
  match n with NProv p => prov_desc p | NTp t => tp_desc t | NVer v => padded4 (v ++ [0]) | NUts u => padded4 u end.

Lemma fragments_divide ds : (4 | len (fragments ds)).
Proof.
  induction ds as [|d ds IH]; [by exists 0|]. cbn [fmap list_fmap concat]. rewrite length_app, Nat2Z.inj_add.
  apply Z.divide_add_r; [apply padded4_divide|done].
Qed.

Lemma prov_desc_divide p : (4 | len (prov_desc p)).
Proof.
  unfold prov_desc, prov_desc_head, note_store_attr. rewrite !length_app, !length_le_bytes, !Nat2Z.inj_add.
  repeat (apply Z.divide_add_r; [|]); first [apply padded4_divide|apply fragments_divide|by exists 1].
Qed.

Lemma note_form n : wf_note n -> note_bytes n = note_header (nname n) (len (ndesc n)) (ntype n) ++ padded4 (ndesc n).
Proof.
  destruct n as [p|t|v|u]; intros W; cbn [nname ntype ndesc].
  - rewrite note_bytes_prov by done. by rewrite (padded4_id (prov_desc p)) by apply prov_desc_divide.
  - done.
  - rewrite note_bytes_ver. by rewrite (padded4_id (padded4 _)) by apply padded4_divide.
  - rewrite note_bytes_uts. by rewrite (padded4_id (padded4 _)) by apply padded4_divide.
Qed.

Lemma ndesc_len n : wf_note n -> 0 < len (ndesc n) < 2 ^ 32.
Proof.
  destruct n as [p|t|v|u]; intros W; cbn [ndesc wf_note] in *.
  - split; [|apply (wp_size _ W)]. unfold prov_desc, prov_desc_head, note_store_attr. rewrite !length_app, !length_le_bytes. lia.
  - split; [|apply (wt_size _ (proj1 W))]. unfold tp_desc. rewrite !length_app, !length_le_bytes. lia.
  - rewrite len_padded4, length_app. cbn [length]. pose proof (ALIGN_bounds (Z.of_nat (length v + 1))). lia.
  - rewrite len_padded4. pose proof (ALIGN_bounds (len u)). lia.
Qed.

Lemma len_note_bytes n : wf_note n -> len (note_bytes n) = 20 + ALIGN (len (ndesc n)) 4.
Proof.
  intros W. rewrite note_form by done. rewrite length_app, Nat2Z.inj_add, len_padded4. rewrite length_note_header; [done|]. by destruct n.
Qed.

(** A note of the section. *)
Lemma get_note_ok n pre post o m : wf_note n -> (4 | len pre) ->
  let im := pre ++ note_bytes n ++ post in
  get_note (len im) (len pre) (Dst im o m) =
    Done (UsdtNote (ntype n) (len (ndesc n)) (len pre + 12) (len pre + 20), match post with [] => 0 | _ => len pre + len (note_bytes n) end) (Dst im o m) /\
  at_off im (len pre + 12) (nname n ++ [0]) /\ 
  exists post', im = (pre ++ note_header (nname n) (len (ndesc n)) (ntype n)) ++ ndesc n ++ post' ++ post /\
    len pre + 20 = len (pre ++ note_header (nname n) (len (ndesc n)) (ntype n)) /\ len (note_bytes n) = 20 + len (ndesc n) + len post'.
Proof.
  intros W Hal im. pose proof (ndesc_len n W) as Hd. pose proof (len_note_bytes n W) as Hnb. pose proof (ALIGN_bounds (len (ndesc n))) as Hab.
  assert (length (nname n) = 4%nat) as Hnn by (by destruct n).
  assert (len im = len pre + (20 + ALIGN (len (ndesc n)) 4) + len post) as Him by (unfold im; rewrite !length_app; lia).
  assert (at_off im (len pre) (note_bytes n)) as A by (by apply at_off_intro). rewrite note_form in A by done. apply at_off_app in A as [A A0].
  unfold note_header in A. apply at_off_app in A as [A1 A]. apply at_off_app in A as [A2 A]. apply at_off_app in A as [A3 A4].
  rewrite !length_le_bytes in A2. rewrite !length_le_bytes in A3. rewrite !length_le_bytes in A4. split_and!.
  - unfold get_note. cbv zeta. unfold sizeof_Nhdr. passes. rewrite IS_ALIGNED_divide by done. cbn [negb]. erewrite bind_done; [|by apply fail_if_no].
    run_with (rd_num _ _ _ _ o m A1 ltac:(done)).
    assert (0 <= len (ndesc n) < 256 ^ Z.of_nat 4) as Hr by (change (256 ^ Z.of_nat 4) with (2 ^ 32); lia). run_with (rd_num _ _ _ _ o m A2 Hr).
    assert (at_off im (len pre + 8) (le_bytes 4 (ntype n))) as B3 by (eapply at_off_eq; [exact A3|lia]).
    assert (0 <= ntype n < 256 ^ Z.of_nat 4) as Ht.
    { destruct n as [p|t|v|u]; try done. destruct W as [_ [E|E]]; cbn [ntype]; by rewrite E. }
    run_with (rd_num _ _ _ _ o m B3 Ht). change (ALIGN 5 4) with 8. passes. passes. unfold mret, D_ret. do 2 f_equal.
    { f_equal. lia. }
    rewrite Him. clearbody im. destruct post as [|b post]; cbn [length].
    + rewrite Z.geb_leb, (proj2 (Z.leb_le _ _)); [done|cbn [length] in *; lia].
    + rewrite Z.geb_leb, (proj2 (Z.leb_gt _ _)) by (cbn [length] in *; lia). lia.
  - unfold padded4 in A4. apply at_off_app in A4 as [A4 _]. eapply at_off_eq; [exact A4|lia].
  - exists (replicate (Z.to_nat (ALIGN (len (ndesc n)) 4 - len (ndesc n))) 0). split_and!.
    + unfold im. rewrite note_form by done. unfold padded4. by rewrite <- !app_assoc.
    + rewrite length_app, Nat2Z.inj_add, length_note_header by done. lia.
    + rewrite Hnb, length_replicate. lia.
Qed.
End Parse.
