(* ===== verification/NotesLoop.v ===== *)
(** * The tables after the notes are parsed (libcommon/usdt_parser_notes.c)

    The first loop of usdt_parse_notes() on the notes of a program: it ends without an
    error, and then every provider, every declared probe and every tracepoint is in its
    table. *)

From stdpp Require Import base list numbers option sets.
From S2P Require Import Prelude DtList Str Htab HtabUniq Dof Usdt Notes NotesBytes NotesParse.

Section Loop.
Variables (chr : Z -> Z) (mod_ : list Z) (ro : usdt_data).
Abbreviation prv_ops := (prv_htab_ops chr).
Abbreviation prb_ops := (prb_htab_ops chr).
Implicit Types (st : nst) (k : prb_ref) (ns : list note).

(** ** After the first loop *)

(** The structure that an entry refers to. *)
Definition refers st k (v : dt_probe) : Prop := exists i, pr_ptr k = Some i /\ prbs st !! i = Some (k, v).

Lemma refers_fun st k v v' : refers st k v -> refers st k v' -> v = v'.
Proof. intros (i & H1 & H2) (j & H3 & H4). congruence. Qed.

Definition decl_ok st (p : pdecl) k (d : decl) : Prop := (exists i, k = decl_key mod_ (p_name p) i d) /\ refers st k (decl_data d).
Definition tp_ok st k (t : tracepoint) : Prop := (exists i, k = tp_key mod_ ro i t) /\ refers st k (tp_data t).
Definition prov_refs (ps : list pdecl) : list prv_ref := imap (λ i p, PrvRef (Some i) (p_name p)) ps.

Record pinv ns st : Prop := {
  pi_prv : exists tv, prvmap st = Some tv /\ uniq prv_ops tv (prov_refs (provs ns));
  pi_pvs : Forall2 (λ p v, exists t ks, v = prov_data p t /\ uniq prb_ops t ks /\ Forall2 (decl_ok st p) ks (p_probes p)) (provs ns) (pvs st);
  pi_prb : exists tb ks, prbmap st = Some tb /\ uniq prb_ops tb ks /\ Forall2 (tp_ok st) ks (tps ns);
}.

(** New structures do not change the old ones. *)
Lemma refers_app st st' l k v : prbs st' = prbs st ++ l -> refers st k v -> refers st' k v.
Proof. intros E (i & H1 & H2). exists i. split; [done|]. rewrite E. by apply lookup_app_l_Some. Qed.

Lemma decl_ok_app st st' l p k d : prbs st' = prbs st ++ l -> decl_ok st p k d -> decl_ok st' p k d.
Proof. intros E [H1 H2]. split; [done|]. by eapply refers_app. Qed.
Lemma tp_ok_app st st' l k t : prbs st' = prbs st ++ l -> tp_ok st k t -> tp_ok st' k t.
Proof. intros E [H1 H2]. split; [done|]. by eapply refers_app. Qed.

Lemma pvs_app st st' l p v :
  (exists t ks, v = prov_data p t /\ uniq prb_ops t ks /\ Forall2 (decl_ok st p) ks (p_probes p)) -> prbs st' = prbs st ++ l ->
  exists t ks, v = prov_data p t /\ uniq prb_ops t ks /\ Forall2 (decl_ok st' p) ks (p_probes p).
Proof. intros (t & ks & H1 & H2 & H3) E. exists t, ks. split_and!; [done..|]. eapply Forall2_impl; [exact H3|]. intros k d. by eapply decl_ok_app. Qed.

Lemma new_probes_ok st p ds l : prbs st = l ++ new_probes mod_ (p_name p) (length l) ds ->
  Forall2 (decl_ok st p) (new_probes mod_ (p_name p) (length l) ds).*1 ds.
Proof.
  intros E. assert (forall l' n, prbs st = l' ++ new_probes mod_ (p_name p) n ds -> n = length l' ->
    Forall2 (decl_ok st p) (new_probes mod_ (p_name p) n ds).*1 ds) as G; [|by eapply G]. clear E l.
  induction ds as [|d ds IH]; intros l n E Hn; [by constructor|]. rewrite new_probes_cons in *. cbn [fmap list_fmap fst]. constructor.
  - split; [by exists n|]. exists n. split; [done|]. rewrite E, Hn. by rewrite list_lookup_middle.
  - apply (IH (l ++ [(decl_key mod_ (p_name p) n d, decl_data d)])); [by rewrite <- app_assoc|]. rewrite length_app. cbn [length]. lia.
Qed.

(** The allocations that a note needs. *)
Definition note_need (n : note) : nat := match n with NProv p => 5 + 5 * length (p_probes p) | NTp _ => 3 | _ => 0 end.

Lemma provs_app a b : provs (a ++ b) = provs a ++ provs b.
Proof. apply omap_app. Qed.
Lemma tps_app a b : tps (a ++ b) = tps a ++ tps b.
Proof. apply omap_app. Qed.

Lemma names_free ns p rest : NoDup (p_name <$> provs (ns ++ NProv p :: rest)) -> Forall (λ e, pv_name e <> p_name p) (prov_refs (provs ns)).
Proof.
  rewrite provs_app, fmap_app. intros (_ & H & _)%NoDup_app. rewrite Forall_forall. intros e He Hn. unfold prov_refs in He.
  apply elem_of_lookup_imap in He as (i & q & -> & Hq). cbn in Hn. apply (H (p_name p)).
  - rewrite <- Hn. apply list_elem_of_fmap. exists q. split; [done|]. by eapply list_elem_of_lookup_2.
  - cbn. left.
Qed.

Lemma tps_free st ns t rest ks : Forall (wf_note ro) (ns ++ NTp t :: rest) -> NoDup (tp_id ro <$> tps (ns ++ NTp t :: rest)) ->
  Forall2 (tp_ok st) ks (tps ns) -> Forall (λ e, 0 < pr_off e < 2 ^ 32 /\ ~ same_tp ro e t) ks.
Proof.
  intros W N F. rewrite tps_app, fmap_app in N. apply NoDup_app in N as (_ & H & _). rewrite Forall_forall. intros e He.
  apply list_elem_of_lookup in He as [i Hi]. destruct (Forall2_lookup_l _ _ _ _ _ F Hi) as (t' & Ht & [[j ->] _]).
  assert (t' ∈ tps ns) as Hin by (by eapply list_elem_of_lookup_2). split.
  - cbn. apply list_elem_of_omap in Hin as (n & Hn & Hn'). destruct n as [|t1| |]; simplify_eq. rewrite Forall_forall in W.
    apply (wt_addr _ _ (proj1 (W (NTp t') (proj2 (elem_of_app _ _ _) (or_introl Hn))))).
  - intros (H1 & H2 & H3 & H4). cbn in *. apply (H (tp_id ro t')).
    + apply list_elem_of_fmap. by exists t'.
    + cbn. replace (tp_id ro t') with (tp_id ro t) by (unfold tp_id; congruence). left.
Qed.

Lemma streq_name (n : note) l p im o m : at_off im p (nname n ++ [0]) -> nonul l -> streq p l (Dst im o m) = Done (bool_decide (nname n = l)) (Dst im o m).
Proof. intros A Hl. apply streq_at; [done| |done]. destruct n; by repeat constructor. Qed.

Lemma parse_note_dispatch n nt st im o m : at_off im (n_name nt) (nname n ++ [0]) ->
  parse_note chr mod_ (Some ro) nt st (Dst im o m) =
    match n with NProv _ => parse_prov_note chr mod_ nt st | NTp _ => parse_usdt_note chr mod_ (Some ro) nt st | _ => mret st end (Dst im o m).
Proof.
  intros A. assert (nonul prov_name /\ nonul usdt_name /\ nonul dver_name /\ nonul utsn_name) as (N1 & N2 & N3 & N4) by (by repeat constructor).
  unfold parse_note. run_with (streq_name n _ _ _ o m A N1). destruct n as [p|t|v|u]; cbn [nname]; [done|..];
    rewrite bool_decide_eq_false_2 by done; (erewrite bind_done; [|by apply streq_name]); cbn [nname]; [done|..];
    rewrite bool_decide_eq_false_2 by done; (erewrite bind_done; [|by apply streq_name]); cbn [nname]; [done|..];
    rewrite bool_decide_eq_false_2 by done; (erewrite bind_done; [|by apply streq_name]); cbn [nname]; done.
Qed.

Lemma prov_refs_snoc ps p : prov_refs (ps ++ [p]) = prov_refs ps ++ [PrvRef (Some (length ps)) (p_name p)].
Proof. unfold prov_refs. rewrite imap_app. cbn. by rewrite Nat.add_0_r. Qed.

(** The note is parsed, and the invariant extends to it. *)
Lemma parse_note_ok ns n rest st pre post o m j : wf_notes ro (ns ++ n :: rest) -> pinv ns st -> (4 | len pre) -> plenty m (note_need n + j) ->
  let im := pre ++ note_bytes n ++ post in
  exists st' pre' m', parse_note chr mod_ (Some ro) (UsdtNote (ntype n) (len (ndesc n)) (len pre + 12) (len pre + 20)) st (Dst im o m) =
      Done st' (Dst (pre' ++ post) o m') /\
    len pre' = len pre + len (note_bytes n) /\ pinv (ns ++ [n]) st' /\ plenty m' j.
Proof.
  intros [Hro Hwn Hnp Hnt _ _] I Hal P im. assert (wf_note ro n) as W by (apply Forall_app in Hwn as [_ H]; by apply Forall_cons_1 in H as [? _]).
  destruct (get_note_ok ro n pre post o m W Hal) as (_ & A & post' & Eim & Hpre & Hnb). fold im in A, Eim.
  rewrite (parse_note_dispatch n) by done. pose proof I as [(tv & Htv & Utv) Hpvs (tb & ks & Htb & Utb & Htps)].
  assert (len (pre ++ note_bytes n) = len pre + len (note_bytes n)) as Hl by (rewrite length_app; lia).
  assert (im = (pre ++ note_bytes n) ++ post) as Eim2 by (unfold im; by rewrite app_assoc).
  destruct n as [p|t|v|u]; cbn [note_need wf_note nname ndesc ntype] in *.
  - set (nt := UsdtNote _ _ _ _).
    destruct (parse_prov_note_ok chr mod_ nt p st tv (prov_refs (provs ns)) im o m j) as (tv' & t' & m' & E & U1 & U2 & P'); try done.
    + cbn. apply Z.divide_add_r; [done|by exists 5].
    + cbn. rewrite Eim, Hpre. by apply at_off_intro.
    + by eapply names_free.
    + rewrite E, Eim2. eexists _, (pre ++ note_bytes (NProv p)), m'. split_and!; [done|done| |done].
      set (st' := Nst _ _ _ _). pose proof (Forall2_length _ _ _ Hpvs) as Hlen. split; rewrite ?provs_app, ?tps_app; cbn [provs tps omap list_omap].
      * exists tv'. split; [done|]. rewrite prov_refs_snoc. eapply uniq_perm; [|exact U1]. rewrite Hlen. by rewrite Permutation_app_comm.
      * apply Forall2_app; [eapply Forall2_impl; [exact Hpvs|]; intros ? ? H; eapply pvs_app; [exact H|reflexivity]|]. constructor; [|constructor].
        exists t', (reverse (new_probes mod_ (p_name p) (length (prbs st)) (reverse (p_probes p))).*1). split_and!; [done| |].
        -- eapply uniq_perm; [|exact U2]. symmetry. apply reverse_Permutation.
        -- rewrite <- (reverse_involutive (p_probes p)) at 2. apply Forall2_reverse. by eapply new_probes_ok.
      * exists tb, ks. rewrite app_nil_r. split_and!; [done|done|]. eapply Forall2_impl; [exact Htps|]. intros k t H. eapply tp_ok_app; [reflexivity|exact H].
  - set (nt := UsdtNote _ _ _ _). set (pre1 := pre ++ note_header _ _ _) in *.
    destruct (parse_usdt_note_ok chr mod_ ro nt t st tb ks pre1 (post' ++ post) o m j) as (tb' & D' & m' & E & HD & U & P'); try done.
    + apply W.
    + by eapply tps_free.
    + rewrite Eim, E. eexists _, (pre1 ++ D' ++ post'), m'. split_and!; [by rewrite <- !app_assoc| | |done].
      * rewrite !length_app, HD. lia.
      * split; rewrite ?provs_app, ?tps_app; cbn [provs tps omap list_omap]; rewrite ?app_nil_r.
        -- by exists tv.
        -- eapply Forall2_impl; [exact Hpvs|]. intros ? ? H. eapply pvs_app; [exact H|reflexivity].
        -- exists tb', (ks ++ [tp_key mod_ ro (length (prbs st)) t]). split_and!; [done|by eapply uniq_perm; [|exact U]; rewrite Permutation_app_comm|].
           apply Forall2_app; [eapply Forall2_impl; [exact Htps|]; intros ? ? H; eapply tp_ok_app; [reflexivity|exact H]|]. constructor; [|constructor].
           split; [by eexists|]. exists (length (prbs st)). split; [done|]. cbn. by rewrite list_lookup_middle.
  - rewrite Eim2. eexists st, (pre ++ note_bytes (NVer v)), m. split_and!; [done|done| |done].
    split; rewrite ?provs_app, ?tps_app; cbn [provs tps omap list_omap]; rewrite ?app_nil_r; [by exists tv|done|by exists tb, ks].
  - rewrite Eim2. eexists st, (pre ++ note_bytes (NUts u)), m. split_and!; [done|done| |done].
    split; rewrite ?provs_app, ?tps_app; cbn [provs tps omap list_omap]; rewrite ?app_nil_r; [by exists tv|done|by exists tb, ks].
Qed.

(** The whole section. *)
Definition notes_need ns : nat := sum_list (note_need <$> ns).
Definition section ns : list Z := concat (note_bytes <$> ns).

Lemma parse_loop_ok rest : forall ns n fuel st pre o m j, wf_notes ro (ns ++ n :: rest) -> pinv ns st -> (4 | len pre) ->
  plenty m (notes_need (n :: rest) + j) -> (length rest < fuel)%nat ->
  let im := pre ++ section (n :: rest) in
  exists st' im' m', parse_notes_loop chr mod_ fuel (len im) (Some ro) (len pre) st (Dst im o m) = Done st' (Dst im' o m') /\
    pinv (ns ++ n :: rest) st' /\ plenty m' j.
Proof.
  induction rest as [|n' rest IH]; intros ns n fuel st pre o m j W I Hal P Hf im; (destruct fuel as [|fuel]; [cbn in Hf; lia|]); cbn [parse_notes_loop];
    (assert (wf_note ro n) as Wn by (pose proof (wn_notes _ _ W) as H; apply Forall_app in H as [_ H]; by apply Forall_cons_1 in H as [? _]));
    unfold notes_need in P; cbn [fmap list_fmap sum_list] in P.
  - unfold im, section. cbn [fmap list_fmap concat]. destruct (get_note_ok ro n pre [] o m Wn Hal) as (E & _). run_with E. cbn zeta.
    destruct (parse_note_ok ns n [] st pre [] o m j W I Hal) as (st' & pre' & m' & E2 & _ & I' & P'); [by rewrite Nat.add_0_r in P|].
    run_with E2. by exists st', (pre' ++ []), m'.
  - unfold im, section. cbn [fmap list_fmap concat]. set (post := note_bytes n' ++ concat (note_bytes <$> rest)).
    destruct (get_note_ok ro n pre post o m Wn Hal) as (E & _). run_with E.
    destruct (parse_note_ok ns n (n' :: rest) st pre post o m (notes_need (n' :: rest) + j) W I Hal) as (st' & pre' & m' & E2 & Hl & I' & P');
      [by rewrite Nat.add_assoc|]. run_with E2.
    assert (wf_note ro n') as Wn' by (pose proof (wn_notes _ _ W) as H; apply Forall_app in H as [_ H]; apply Forall_cons_1 in H as [_ H]; by apply Forall_cons_1 in H as [? _]).
    pose proof (len_note_bytes ro n Wn). pose proof (len_note_bytes ro n' Wn'). pose proof (ALIGN_bounds (len (ndesc n))). pose proof (ALIGN_bounds (len (ndesc n'))).
    destruct post as [|b post'] eqn:Epost.
    { exfalso. unfold post in Epost. apply (f_equal length) in Epost. rewrite length_app in Epost. cbn [length] in Epost. lia. }
    rewrite <- Epost. rewrite (proj2 (Z.eqb_neq _ _)) by lia.
    destruct (IH (ns ++ [n]) n' fuel st' pre' o m' j) as (st2 & im2 & m2 & E3 & I2 & P2); [by rewrite <- app_assoc|done| |done|cbn [length] in Hf; lia|].
    + rewrite Hl, len_note_bytes with (ro := ro) by done. apply Z.divide_add_r; [done|]. apply Z.divide_add_r; [by exists 5|apply ALIGN_divide].
    + rewrite <- app_assoc in I2. exists st2, im2, m2. split_and!; [|done|done]. etransitivity; [|exact E3]. unfold section, post. cbn [fmap list_fmap concat].
      rewrite Hl. f_equal. rewrite !length_app. lia.
Qed.
End Loop.
