(* ===== verification/NotesMove.v ===== *)
(** * Moving the tracepoints to their probes (libcommon/usdt_parser_notes.c)

    The second loop of usdt_parse_notes(): every round takes a tracepoint out of
    prbmap, while that table is walked, and either makes it a new probe of its
    provider or links it to one.  The invariant describes the tables and the linked
    structures by the groups of tracepoints they stand for. *)

From stdpp Require Import base list numbers option sets.
From S2P Require Import Prelude DtList Str Htab HtabUniq Dof Usdt Notes NotesBytes NotesParse NotesLoop.

Section Move.
Variables (chr : Z -> Z) (mod_ : list Z) (ro : usdt_data).
Abbreviation prv_ops := (prv_htab_ops chr).
Abbreviation prb_ops := (prb_htab_ops chr).
Implicit Types (st : nst) (k : prb_ref) (ns : list note).

(** ** Structures *)

Lemma refers_inj st k k' v v' : refers st k v -> refers st k' v' -> pr_ptr k = pr_ptr k' -> k = k'.
Proof. intros (i & H1 & H2) (j & H3 & H4) E. congruence. Qed.

Lemma prb_get_ok st k v s : refers st k v -> exists i, pr_ptr k = Some i /\ prb_get st (pr_ptr k) s = Done (i, v) s.
Proof. intros (i & H1 & H2). exists i. split; [done|]. rewrite H1. cbn. by rewrite H2. Qed.

(** The structures other than those of [K] are the same. *)
Definition agrees (K : list prb_ref) st st' : Prop := forall k v, k ∉ K -> refers st k v -> refers st' k v.

Lemma agrees_trans K K' st1 st2 st3 : agrees K st1 st2 -> agrees K' st2 st3 -> agrees (K ++ K') st1 st3.
Proof. intros H1 H2 k v [H3 H4]%not_elem_of_app H. by apply H2, H1. Qed.

Lemma agrees_prbs st st' : prbs st' = prbs st -> agrees [] st st'.
Proof. intros E k v _ (i & H1 & H2). exists i. by rewrite E. Qed.

Lemma set_prb_agrees st k v i w : refers st k v -> pr_ptr k = Some i -> agrees [k] st (set_prb st i w) /\ refers (set_prb st i w) k w.
Proof.
  intros (j & H1 & H2) E. assert (j = i) as -> by congruence. split.
  - intros k' v' Hne (j & H3 & H4). exists j. split; [done|]. cbn. rewrite list_lookup_alter_ne; [done|]. intros <-.
    rewrite H2 in H4. simplify_eq. by destruct Hne; left.
  - exists i. split; [done|]. cbn. rewrite list_lookup_alter_eq, H2. done.
Qed.

(** ** Groups of tracepoints *)

(** A probe of a function: the structure in the provider's table, and those linked to it. *)
Abbreviation group := (prb_ref * list prb_ref)%type.
Definition members (g : group) : list prb_ref := g.1 :: g.2.

Fixpoint links st (l : list prb_ref) : Prop :=
  match l with
  | [] => True
  | k :: l => (exists v, refers st k v /\ next v = match l with [] => None | k' :: _ => pr_ptr k' end) /\ links st l
  end.

(** The arguments are those of the declaration. *)
Definition args_as (v : dt_probe) (d : decl) : Prop :=
  nargc v = nargc (decl_data d) /\ xargc v = xargc (decl_data d) /\ nargs v = nargs (decl_data d) /\
  xargs v = xargs (decl_data d) /\ xmap v = xmap (decl_data d).
(** The fields that come from the tracepoint. *)
Definition tp_as (v : dt_probe) (t : tracepoint) : Prop :=
  is_enabled v = tp_enabled t /\ sargc v = tp_nargs t /\ sargs v = tp_args t.

Definition member_ok st (p : pdecl) (d : decl) (h : prb_ref) k : Prop :=
  pr_prv k = p_name p /\ pr_mod k = mod_ /\ pr_fun k = pr_fun h /\ pr_fun k <> None /\ pr_prb k = d_name d /\
  exists v, refers st k v /\ args_as v d.

Definition group_ok st (p : pdecl) (g : group) : Prop :=
  exists d, d ∈ p_probes p /\ links st (members g) /\ (exists v, refers st g.1 v /\ ntp v = len (members g)) /\
    Forall (member_ok st p d g.1) (members g).

Definition prov_ok st (p : pdecl) (v : dt_provider) (gs : list group) : Prop :=
  exists t dks, pmap v = Some t /\ probec v = len gs /\ uniq prb_ops t (dks ++ gs.*1) /\
    Forall2 (decl_ok mod_ st p) dks (p_probes p) /\ Forall (group_ok st p) gs.

(** [ks]: all tracepoints; [G]: the groups of each provider; [rem]: those still in prbmap. *)
Record vinv ns (ks : list prb_ref) st (G : list (list group)) (rem : list prb_ref) : Prop := {
  vi_prv : exists tv, prvmap st = Some tv /\ uniq prv_ops tv (prov_refs (provs ns));
  vi_prb : exists tb, prbmap st = Some tb /\ uniq prb_ops tb rem;
  vi_pvs i p : provs ns !! i = Some p -> exists v gs, pvs st !! i = Some v /\ G !! i = Some gs /\ prov_ok st p v gs;
  vi_len : length G = length (provs ns) /\ length (pvs st) = length (provs ns);
  vi_nodup : NoDup ks;
  vi_all : concat (members <$> concat G) ++ rem ≡ₚ ks;
  vi_tps : Forall2 (λ k t, (exists i, k = tp_key mod_ ro i t) /\ exists v, refers st k v /\ tp_as v t) ks (tps ns);
  vi_rem k : k ∈ rem -> exists v, refers st k v /\ next v = None;
}.

Lemma links_agrees K st st' l : agrees K st st' -> Forall (λ k, k ∉ K) l -> links st l -> links st' l.
Proof.
  intros A. induction 1 as [|k l Hk _ IH]; [done|]. cbn [links]. intros [(v & H1 & H2) H3]. split; [|by apply IH]. exists v. split; [by apply A|done].
Qed.

Lemma member_agrees K st st' p d h k : agrees K st st' -> k ∉ K -> member_ok st p d h k -> member_ok st' p d h k.
Proof. intros A Hk (H1 & H2 & H3 & H4 & H5 & v & H6 & H7). split_and!; try done. exists v. split; [by apply A|done]. Qed.

Lemma group_agrees K st st' p g : agrees K st st' -> Forall (λ k, k ∉ K) (members g) -> group_ok st p g -> group_ok st' p g.
Proof.
  intros A F (d & H1 & H2 & (v & H3 & H4) & H5). exists d. split_and!; [done|by eapply links_agrees| |].
  - exists v. split; [|done]. apply A; [|done]. by apply Forall_cons_1 in F as [? _].
  - rewrite Forall_forall in *. intros k Hk. eapply member_agrees; [done|by apply F|by apply H5].
Qed.

Lemma decl_agrees K st st' p k d : agrees K st st' -> k ∉ K -> decl_ok mod_ st p k d -> decl_ok mod_ st' p k d.
Proof. intros A Hk [H1 H2]. split; [done|]. by apply A. Qed.

(** The tracepoints of a list have a function: they are none of the declared probes. *)
Lemma decls_agree K st st' p dks ds : agrees K st st' -> Forall (λ k, pr_fun k <> None) K ->
  Forall2 (decl_ok mod_ st p) dks ds -> Forall2 (decl_ok mod_ st' p) dks ds.
Proof.
  intros A F H0. eapply Forall2_impl; [exact H0|]. intros k d H. eapply decl_agrees; [done| |done]. intros Hk. rewrite Forall_forall in F.
  destruct (F k Hk). by destruct H as [[i ->] _].
Qed.

Lemma prov_agrees K st st' p v gs : agrees K st st' -> Forall (λ k, pr_fun k <> None) K ->
  Forall (λ g, Forall (λ k, k ∉ K) (members g)) gs -> prov_ok st p v gs -> prov_ok st' p v gs.
Proof.
  intros A F Fg (t & dks & H1 & H2 & H3 & H4 & H5). exists t, dks. split_and!; [done..|by eapply decls_agree|].
  rewrite Forall_forall in *. intros g Hg. eapply group_agrees; [done|by apply Fg|by apply H5].
Qed.

(** Members of another provider. *)
Lemma other_prov K st p v gs name : Forall (λ k, pr_prv k = name) K -> p_name p <> name -> prov_ok st p v gs ->
  Forall (λ g, Forall (λ k, k ∉ K) (members g)) gs.
Proof.
  intros F Hne (t & dks & _ & _ & _ & _ & H). apply Forall_forall. intros g Hg. destruct (proj1 (Forall_forall _ _) H g Hg) as (d & _ & _ & _ & Hm).
  rewrite Forall_forall in Hm |- *. intros k Hk Hin. destruct (Hm k Hk) as (E & _). by rewrite (proj1 (Forall_forall _ _) F k Hin) in E.
Qed.

(** ** Lookups *)

Lemma prv_lookup_ok tv ps i p : uniq prv_ops tv (prov_refs ps) -> NoDup (p_name <$> ps) -> ps !! i = Some p ->
  dt_htab_lookup prv_ops tv (PrvRef None (p_name p)) = [PrvRef (Some i) (p_name p)].
Proof.
  intros U Hn Hp. pose proof (uniq_lookup prv_ops tv _ (PrvRef None (p_name p)) U) as L. destruct (dt_htab_lookup _ _ _) as [|e l].
  - exfalso. apply (L (PrvRef (Some i) (p_name p))); [|done|by apply prv_cmp_eq]. unfold prov_refs. apply elem_of_lookup_imap. by exists i, p.
  - destruct L as (-> & He & _ & Hc%prv_cmp_eq). apply elem_of_lookup_imap in He as (j & q & -> & Hq). cbn in Hc.
    rewrite Hc. do 3 f_equal. apply (NoDup_lookup _ _ _ (p_name p) Hn); rewrite list_lookup_fmap; [by rewrite Hq, <- Hc|by rewrite Hp].
Qed.

Lemma decl_name_eq p d d' : NoDup (d_name <$> p_probes p) -> d ∈ p_probes p -> d' ∈ p_probes p -> d_name d = d_name d' -> d = d'.
Proof.
  intros Hn H1 H2 E. apply list_elem_of_lookup in H1 as [i Hi], H2 as [j Hj].
  assert (i = j) as -> by (apply (NoDup_lookup _ _ _ (d_name d) Hn); rewrite list_lookup_fmap; [by rewrite Hi|by rewrite Hj, E]). congruence.
Qed.

(** The lookup with the function's name: the head of a group. *)
Lemma lookup_group st p t dks gs k d ptr : uniq prb_ops t (dks ++ gs.*1) -> Forall2 (decl_ok mod_ st p) dks (p_probes p) ->
  Forall (group_ok st p) gs -> NoDup (d_name <$> p_probes p) -> d ∈ p_probes p -> pr_fun k <> None -> pr_prb k = d_name d ->
  match dt_htab_lookup prb_ops t (PrbRef ptr (pr_prv k) (pr_mod k) (pr_fun k) (pr_prb k) 0) with
  | [] => True
  | h :: _ => pr_fun h = pr_fun k /\ pr_prb h = pr_prb k /\ exists gs1 l gs2 v, gs = gs1 ++ (h, l) :: gs2 /\ refers st h v /\ args_as v d /\ ntp v = len (h :: l)
  end.
Proof.
  intros U F2 F Hn Hd Hf Hb. match goal with |- context [dt_htab_lookup _ _ ?x] => pose proof (uniq_lookup prb_ops t _ x U) as L end.
  destruct (dt_htab_lookup _ _ _) as [|h l]; [done|]. destruct L as (_ & He & _ & (H1 & H2 & H3 & _)%prb_cmp_eq). cbn in H1, H2, H3. split; [done|]. split; [done|].
  apply elem_of_app in He as [He|He].
  - exfalso. apply list_elem_of_lookup in He as [i Hi]. destruct (Forall2_lookup_l _ _ _ _ _ F2 Hi) as (d' & _ & [[j ->] _]). by cbn in H2.
  - apply list_elem_of_fmap in He as ([h' l'] & E & Hg). cbn in E. subst h'. apply list_elem_of_split in Hg as (gs1 & gs2 & ->).
    apply Forall_app in F as [_ F]. apply Forall_cons_1 in F as [(d' & Hd' & _ & (v & Hv & Hntp) & Hm) _]. cbn [fst members snd] in *.
    apply Forall_cons_1 in Hm as [(_ & _ & _ & _ & Hp & v' & Hv' & Ha) _]. cbn [fst] in Hp, Hv'.
    assert (d' = d) as -> by (eapply decl_name_eq; [done..|congruence]).
    rewrite (refers_fun _ _ _ _ Hv' Hv) in Ha. by exists gs1, l', gs2, v.
Qed.

(** The lookup without it: the declaration. *)
Lemma lookup_decl st p t dks gs k d ptr : uniq prb_ops t (dks ++ gs.*1) -> Forall2 (decl_ok mod_ st p) dks (p_probes p) ->
  Forall (group_ok st p) gs -> NoDup (d_name <$> p_probes p) -> d ∈ p_probes p -> pr_prv k = p_name p -> pr_mod k = mod_ -> pr_prb k = d_name d ->
  exists h, dt_htab_lookup prb_ops t (PrbRef ptr (pr_prv k) (pr_mod k) None (pr_prb k) 0) = [h] /\ pr_fun h = None /\ refers st h (decl_data d).
Proof.
  intros U F2 F Hn Hd H1 H2 H3. match goal with |- context [dt_htab_lookup _ _ ?x] => pose proof (uniq_lookup prb_ops t _ x U) as L end.
  destruct (dt_htab_lookup _ _ _) as [|h l].
  - exfalso. apply list_elem_of_lookup in Hd as [i Hi]. destruct (Forall2_lookup_r _ _ _ _ _ F2 Hi) as (e & He & [[j ->] _]).
    apply (L (decl_key mod_ (p_name p) j d)); [apply elem_of_app; left; by eapply list_elem_of_lookup_2| |].
    + unfold slot_of. cbn. unfold prb_hval. cbn. by rewrite H1, H2, H3.
    + apply prb_cmp_eq. cbn. split_and!; [done..|]. by left.
  - destruct L as (-> & He & _ & (H4 & H5 & H6 & _)%prb_cmp_eq). cbn in H4, H5, H6. exists h. split; [done|]. split; [done|].
    apply elem_of_app in He as [He|He].
    + apply list_elem_of_lookup in He as [i Hi]. destruct (Forall2_lookup_l _ _ _ _ _ F2 Hi) as (d' & Hd' & [[j Hj] Hr]). subst h. cbn in H6.
      assert (d' = d) as -> by (eapply decl_name_eq; [done|by eapply list_elem_of_lookup_2|done|congruence]). done.
    + exfalso. apply list_elem_of_fmap in He as ([h' l'] & E & Hg). cbn in E. subst h'. rewrite Forall_forall in F. destruct (F _ Hg) as (d' & _ & _ & _ & Hm).
      apply Forall_cons_1 in Hm as [(_ & _ & _ & Hf & _) _]. by cbn in Hf.
Qed.

(** ** One tracepoint *)

Lemma args_pass (v r : dt_probe) : sargc v = nargc r \/ (is_enabled v = 1 /\ sargc v = 1) ->
  negb (sargc v =? nargc r) && ((is_enabled v =? 0) || negb (sargc v =? 1)) = false.
Proof.
  intros [->|[-> ->]]; [by rewrite Z.eqb_refl|]. cbn. by rewrite andb_false_r.
Qed.

Lemma members_count (gs : list group) : len gs <= len (concat (members <$> gs)).
Proof. induction gs as [|g gs IH]; [done|]. cbn [fmap list_fmap concat length]. rewrite length_app. unfold members at 1. cbn [length]. lia. Qed.

Lemma concat_members_slot (G : list (list group)) i gs : G !! i = Some gs -> exists rest,
  concat (members <$> concat G) ≡ₚ concat (members <$> gs) ++ rest /\
  forall gs', concat (members <$> concat (<[i := gs']> G)) ≡ₚ concat (members <$> gs') ++ rest.
Proof.
  intros H. destruct (concat_slot _ _ _ H) as (rest & P1 & P2). exists (concat (members <$> rest)). split.
  - rewrite P1. by rewrite fmap_app, concat_app.
  - intros gs'. rewrite P2. by rewrite fmap_app, concat_app.
Qed.

(** The rest of the state, when the tracepoint [k] joins the groups of a provider and only the
    structures of [K] change, in what does not come from their tracepoints. *)
Lemma vinv_update ns ks st G k rem K st' tb' pi p v' gs gs' :
  NoDup (p_name <$> provs ns) -> vinv ns ks st G (k :: rem) -> agrees K st st' ->
  Forall (λ x, pr_prv x = p_name p /\ pr_fun x <> None /\ (x ∉ rem) /\ (exists vx vx', refers st x vx /\ refers st' x vx' /\
    is_enabled vx' = is_enabled vx /\ sargc vx' = sargc vx /\ sargs vx' = sargs vx)) K ->
  prvmap st' = prvmap st -> prbmap st' = Some tb' -> uniq prb_ops tb' rem ->
  provs ns !! pi = Some p -> G !! pi = Some gs -> pvs st' = <[pi := v']> (pvs st) -> prov_ok st' p v' gs' ->
  concat (members <$> gs') ≡ₚ k :: concat (members <$> gs) -> vinv ns ks st' (<[pi := gs']> G) rem.
Proof.
  intros Hnd [V1 V2 V3 [V4 V4'] V5 V6 V7 V8] A FK E1 E2 U Hp HG Epv Hok HP. rewrite Forall_forall in FK. split.
  - by rewrite E1.
  - by exists tb'.
  - intros i q Hq. destruct (V3 i q Hq) as (v & gq & H1 & H2 & H3). destruct (decide (i = pi)) as [->|Hne].
    + exists v', gs'. assert (q = p) as -> by congruence. rewrite Epv. split_and!; [|by apply list_lookup_insert_eq, lookup_lt_Some with gq|done].
      by apply list_lookup_insert_eq, lookup_lt_Some with v.
    + exists v, gq. rewrite Epv. rewrite !list_lookup_insert_ne by done. split_and!; [done..|]. eapply prov_agrees; [done| | |done].
      * apply Forall_forall. intros x Hx. by destruct (FK x Hx) as (_ & ? & _).
      * eapply (other_prov K st q v gq (p_name p)); [|intros Hn|done].
        -- apply Forall_forall. intros x Hx. by destruct (FK x Hx) as (? & _).
        -- apply Hne. apply (NoDup_lookup _ _ _ (p_name p) Hnd); rewrite list_lookup_fmap; [by rewrite Hq, <- Hn|by rewrite Hp].
  - rewrite length_insert, Epv, length_insert. done.
  - done.
  - destruct (concat_members_slot G pi gs HG) as (rest & P1 & P2). rewrite P2, HP. rewrite P1 in V6. rewrite <- V6.
    rewrite <- app_assoc. cbn. rewrite app_assoc. apply Permutation_middle.
  - eapply Forall2_impl; [exact V7|]. intros x t [Hx (v & Hv & H1 & H2 & H3)]. split; [done|]. destruct (decide (x ∈ K)) as [HK|HK].
    + destruct (FK x HK) as (_ & _ & _ & vx & vx' & R1 & R2 & E3 & E4 & E5). exists vx'. split; [done|].
      rewrite (refers_fun _ _ _ _ Hv R1) in *. unfold tp_as. rewrite E3, E4, E5. done.
    + exists v. split; [by apply A|done].
  - intros x Hx. destruct (V8 x) as (v & Hv & Hn); [by right|]. exists v. split; [|done]. apply A; [|done]. intros HK. by destruct (FK x HK) as (_ & _ & ? & _).
Qed.

(** What is known of the next tracepoint. *)
Lemma vinv_head ns ks st G k rem : wf_notes ro ns -> vinv ns ks st G (k :: rem) ->
  exists pi p d v, provs ns !! pi = Some p /\ p_name p = pr_prv k /\ d ∈ p_probes p /\ d_name d = pr_prb k /\ wf_pdecl p /\
    refers st k v /\ next v = None /\ (sargc v = nargc (decl_data d) \/ (is_enabled v = 1 /\ sargc v = 1)) /\
    pr_fun k <> None /\ pr_mod k = mod_ /\ 0 < pr_off k < 2 ^ 32.
Proof.
  intros W V. pose proof (vi_all _ _ _ _ _ V) as HP. assert (k ∈ ks) as Hk by (rewrite <- HP; apply elem_of_app; right; left).
  apply list_elem_of_lookup in Hk as [i Hi]. destruct (Forall2_lookup_l _ _ _ _ _ (vi_tps _ _ _ _ _ V) Hi) as (t & Ht & [[j Hj] (v & Hv & H1 & H2 & H3)]).
  apply list_elem_of_lookup_2 in Ht. destruct (wn_declared _ _ W t Ht) as (p & d & (D1 & D2 & D3 & D4) & Hargs).
  apply list_elem_of_lookup in D1 as [pi Hpi]. pose proof (wn_notes _ _ W) as Hn. rewrite Forall_forall in Hn.
  destruct (vi_rem _ _ _ _ _ V k) as (v' & Hv' & Hnx); [left|]. rewrite (refers_fun _ _ _ _ Hv' Hv) in Hnx.
  exists pi, p, d, v. rewrite Hj. cbn. split_and!; try done.
  - apply list_elem_of_lookup_2 in Hpi. unfold provs in Hpi. apply list_elem_of_omap in Hpi as (n & Hn1 & Hn2). destruct n; simplify_eq. by apply (Hn _ Hn1).
  - by rewrite <- Hj.
  - rewrite H1, H2. destruct Hargs as [->|[E1 ->]]; [by left|right]. unfold tp_enabled. by rewrite E1.
  - unfold tps in Ht. apply list_elem_of_omap in Ht as (n & Hn1 & Hn2). destruct n; simplify_eq. by apply (wt_addr _ _ (proj1 (Hn _ Hn1))).
  - unfold tps in Ht. apply list_elem_of_omap in Ht as (n & Hn1 & Hn2). destruct n; simplify_eq. by apply (wt_addr _ _ (proj1 (Hn _ Hn1))).
Qed.

Lemma vinv_disjoint ns ks st G k rem pi gs : vinv ns ks st G (k :: rem) -> G !! pi = Some gs ->
  NoDup (concat (members <$> gs)) /\ (k ∉ concat (members <$> gs)) /\ (forall x, x ∈ concat (members <$> gs) -> x ∉ rem) /\ (k ∉ rem) /\
  len (concat (members <$> gs)) < len ks /\ (forall x, x ∈ concat (members <$> gs) -> x ∈ ks).
Proof.
  intros V HG. pose proof (vi_all _ _ _ _ _ V) as HP. pose proof (vi_nodup _ _ _ _ _ V) as N. destruct (concat_members_slot G pi gs HG) as (rest & P1 & _).
  rewrite P1 in HP. rewrite <- HP in N. apply NoDup_app in N as (N1 & N2 & N3). apply NoDup_app in N1 as (N4 & _ & _). apply NoDup_cons in N3 as [N5 _].
  split_and!; try done.
  - intros Hin. apply (N2 k); [apply elem_of_app; by left|left].
  - intros x Hx Hr. apply (N2 x); [apply elem_of_app; by left|by right].
  - rewrite <- HP. rewrite !length_app. cbn [length]. lia.
  - intros x Hx. rewrite <- HP. rewrite !elem_of_app. tauto.
Qed.

(** The tracepoint joins the group of [h]. *)
Lemma prov_ok_link st st' p v gs1 h l gs2 k d r vt vr : prov_ok st p v (gs1 ++ (h, l) :: gs2) ->
  NoDup (concat (members <$> gs1 ++ (h, l) :: gs2)) -> k ∉ concat (members <$> gs1 ++ (h, l) :: gs2) ->
  NoDup (d_name <$> p_probes p) -> d ∈ p_probes p -> d_name d = pr_prb k -> p_name p = pr_prv k -> pr_mod k = mod_ -> pr_fun k <> None -> pr_fun h = pr_fun k -> pr_prb h = pr_prb k ->
  refers st h r -> args_as r d -> ntp r = len (h :: l) -> agrees [k; h] st st' -> refers st' k vt -> refers st' h vr ->
  args_as vt d -> args_as vr d -> next vt = next r -> next vr = pr_ptr k -> ntp vr = ntp r + 1 ->
  prov_ok st' p v (gs1 ++ (h, k :: l) :: gs2).
Proof.
  intros (t & dks & H1 & H2 & H3 & H4 & H5) Nd Hk Hnp Hd D1 D2 D3 D4 D5 D6 Hr Har Hnr A Hvt Hvr At Ar Nt Nr Nn. exists t, dks.
  assert (Forall (λ x, pr_fun x <> None) [k; h]) as FK by (repeat constructor; by rewrite ?D5).
  rewrite fmap_app, concat_app in Nd, Hk. cbn [fmap list_fmap concat members fst snd app] in Nd, Hk.
  apply not_elem_of_app in Hk as [Hk1 Hk]. apply not_elem_of_cons in Hk as [Hkh Hk]. apply not_elem_of_app in Hk as [Hkl Hk2].
  apply NoDup_app in Nd as (_ & N2 & N3). apply NoDup_cons in N3 as [N4 N5]. apply not_elem_of_app in N4 as [N4 N6].
  assert (h ∉ concat (members <$> gs1)) as N7 by (intros Hin; apply (N2 h Hin); left).
  apply Forall_app in H5 as [F1 F2]. apply Forall_cons_1 in F2 as [F0 F2].
  assert (forall gs, Forall (group_ok st p) gs -> k ∉ concat (members <$> gs) -> h ∉ concat (members <$> gs) -> Forall (group_ok st' p) gs) as Hrest.
  { intros gs F Hk' Hh'. apply Forall_forall. intros g Hg. eapply group_agrees; [exact A| |by apply (proj1 (Forall_forall _ _) F)].
    apply Forall_forall. intros x Hx. assert (x ∈ concat (members <$> gs)) as Hx'.
    { apply list_elem_of_In, in_concat. exists (members g). split; apply list_elem_of_In; [|done]. apply list_elem_of_fmap. by exists g. }
    rewrite !not_elem_of_cons. split_and!; [by intros ->..|]. apply not_elem_of_nil. }
  split_and!; [done| | |by eapply decls_agree|].
  - rewrite H2, !length_app. done.
  - rewrite fmap_app in *. exact H3.
  - apply Forall_app. split; [by apply Hrest|]. constructor; [|by apply Hrest].
    destruct F0 as (d' & Hd' & HL & (v0 & Hv0 & Hn0) & Hm). cbn [fst snd members] in *. apply Forall_cons_1 in Hm as [Hmh Hml].
    assert (d' = d) as ->.
    { eapply decl_name_eq; [done..|]. destruct Hmh as (_ & _ & _ & _ & Hb & _). cbn [fst] in Hb. congruence. }
    assert (Forall (λ x, x ∉ [k; h]) l) as Fl.
    { apply Forall_forall. intros x Hx. rewrite !not_elem_of_cons. split_and!; [by intros ->..|]. apply not_elem_of_nil. }
    exists d. cbn [fst snd members]. split_and!; [done| | |].
    + unfold members in HL |- *. cbn [fst snd links] in HL |- *. destruct HL as [(v1 & Hv1 & Hn1) HL]. split_and!; [by exists vr| |by eapply links_agrees].
      exists vt. split; [done|]. rewrite Nt. by rewrite (refers_fun _ _ _ _ Hr Hv1).
    + exists vr. split; [done|]. rewrite Nn, Hnr. unfold members. cbn [fst snd length]. lia.
    + constructor; [|constructor].
      * destruct Hmh as (M1 & M2 & M3 & M4 & M5 & _). split_and!; try done. by exists vr.
      * split_and!; try done. by exists vt.
      * apply Forall_forall. intros x Hx. eapply member_agrees; [exact A|by apply (proj1 (Forall_forall _ _) Fl)|]. by apply (proj1 (Forall_forall _ _) Hml).
Qed.

(** The tracepoint becomes a probe of the provider. *)
Lemma prov_ok_new st st' p v gs k d vt t' v' : prov_ok st p v gs -> k ∉ concat (members <$> gs) ->
  d ∈ p_probes p -> d_name d = pr_prb k -> p_name p = pr_prv k -> pr_mod k = mod_ -> pr_fun k <> None ->
  agrees [k] st st' -> refers st' k vt -> args_as vt d -> next vt = None -> ntp vt = 1 ->
  (forall t dks, pmap v = Some t -> uniq prb_ops t (dks ++ gs.*1) -> Forall2 (decl_ok mod_ st p) dks (p_probes p) -> uniq prb_ops t' (k :: dks ++ gs.*1)) ->
  pmap v' = Some t' -> probec v' = probec v + 1 -> prov_ok st' p v' ((k, []) :: gs).
Proof.
  intros (t & dks & H1 & H2 & H3 & H4 & H5) Hk Hd D1 D2 D3 D4 A Hvt At Nt Nn HU E1 E2. exists t', dks.
  split_and!; [done| | | |].
  - rewrite E2, H2. cbn [length]. lia.
  - eapply uniq_perm; [|by eapply HU]. cbn. apply Permutation_middle.
  - eapply decls_agree; [exact A| |done]. by constructor.
  - constructor.
    + exists d. cbn [members fst snd]. split_and!; [done|split; [by exists vt|done]|by exists vt|]. constructor; [|constructor]. split_and!; try done. by exists vt.
    + apply Forall_forall. intros g Hg. eapply group_agrees; [exact A| |by apply (proj1 (Forall_forall _ _) H5)].
      apply Forall_forall. intros x Hx. rewrite not_elem_of_cons. split; [|apply not_elem_of_nil]. intros ->. apply Hk.
      apply list_elem_of_In, in_concat. exists (members g). split; apply list_elem_of_In; [|done]. apply list_elem_of_fmap. by exists g.
Qed.

Lemma keys_inj ns ks st G rem x y : NoDup (tp_id ro <$> tps ns) -> vinv ns ks st G rem -> x ∈ ks -> y ∈ ks ->
  pr_prv x = pr_prv y -> pr_fun x = pr_fun y -> pr_prb x = pr_prb y -> pr_off x = pr_off y -> x = y.
Proof.
  intros N V Hx Hy E1 E2 E3 E4. apply list_elem_of_lookup in Hx as [i Hi], Hy as [j Hj].
  destruct (Forall2_lookup_l _ _ _ _ _ (vi_tps _ _ _ _ _ V) Hi) as (t & Ht & [[a ->] _]).
  destruct (Forall2_lookup_l _ _ _ _ _ (vi_tps _ _ _ _ _ V) Hj) as (u & Hu & [[b ->] _]). cbn in *.
  assert (i = j) as -> by (apply (NoDup_lookup _ _ _ (tp_id ro t) N); rewrite list_lookup_fmap;
    [by rewrite Ht|rewrite Hu; cbn; f_equal; unfold tp_id; congruence]). congruence.
Qed.

Lemma keys_off ns ks st G rem x : wf_notes ro ns -> vinv ns ks st G rem -> x ∈ ks -> 0 < pr_off x < 2 ^ 32.
Proof.
  intros W V Hx. apply list_elem_of_lookup in Hx as [i Hi]. destruct (Forall2_lookup_l _ _ _ _ _ (vi_tps _ _ _ _ _ V) Hi) as (t & Ht & [[a ->] _]).
  apply list_elem_of_lookup_2 in Ht. unfold tps in Ht. apply list_elem_of_omap in Ht as (n & Hn1 & Hn2). destruct n; simplify_eq.
  pose proof (wn_notes _ _ W) as Hn. rewrite Forall_forall in Hn. by apply (wt_addr _ _ (proj1 (Hn _ Hn1))).
Qed.

(** No probe of the provider's table is the tracepoint. *)
Lemma lookup_fresh ns ks st G k rem pi p gs t dks : wf_notes ro ns -> vinv ns ks st G (k :: rem) -> G !! pi = Some gs ->
  uniq prb_ops t (dks ++ gs.*1) -> Forall2 (decl_ok mod_ st p) dks (p_probes p) -> pr_fun k <> None ->
  (k ∉ dks ++ gs.*1) /\ dt_htab_lookup prb_ops t k = [].
Proof.
  intros W V HG U F Hf. destruct (vinv_disjoint _ _ _ _ _ _ _ _ V HG) as (_ & Hk & _ & _ & _ & Hin).
  assert (forall h, h ∈ gs.*1 -> h ∈ concat (members <$> gs)) as Hh.
  { intros h (g & -> & Hg)%list_elem_of_fmap. apply list_elem_of_In, in_concat. exists (members g). split; apply list_elem_of_In;
      [apply list_elem_of_fmap; by exists g|left]. }
  assert (forall e, e ∈ dks -> pr_fun e = None) as Hd.
  { intros e [i Hi]%list_elem_of_lookup. destruct (Forall2_lookup_l _ _ _ _ _ F Hi) as (d & _ & [[j ->] _]). done. }
  assert (k ∈ ks) as Hks by (rewrite <- (vi_all _ _ _ _ _ V); apply elem_of_app; right; left). split.
  - intros [He|He]%elem_of_app; [by apply Hf, Hd|by apply Hk, Hh].
  - pose proof (uniq_lookup prb_ops t _ k U) as L. destruct (dt_htab_lookup _ _ _) as [|e l]; [done|].
    destruct L as (_ & He & _ & (H1 & H2 & H3 & H4)%prb_cmp_eq). exfalso. apply elem_of_app in He as [He|He]; [by rewrite (Hd e He) in H2|].
    apply Hh in He. pose proof (Hin e He) as Hek. apply off_match_small in H4; [|by eapply keys_off..].
    apply Hk. by rewrite <- (keys_inj ns ks st G (k :: rem) e k (wn_tps _ _ W) V Hek Hks H1 H2 H3 H4).
Qed.

Lemma validate_ok ns ks st G k rem im o m j : wf_notes ro ns -> vinv ns ks st G (k :: rem) -> plenty m (2 + j) ->
  exists st' G' tb tb' m', validate_tracepoint chr k st (Dst im o m) = Done st' (Dst im o m') /\ vinv ns ks st' G' rem /\
    prbmap st = Some tb /\ prbmap st' = Some tb' /\ dt_htab_delete prb_ops tb k = (0, tb') /\
    length (prbs st') = length (prbs st) /\ plenty m' j.
Proof.
  intros W V P. destruct (vinv_head _ _ _ _ _ _ W V) as (pi & p & d & v & Hpi & Hpn & Hd & Hdn & Wp & Hv & Hnx & Hargs & Hf & Hmod & Hoff).
  destruct (vi_prv _ _ _ _ _ V) as (tv & Htv & Utv). destruct (vi_prb _ _ _ _ _ V) as (tb & Htb & Utb).
  destruct (vi_pvs _ _ _ _ _ V pi p Hpi) as (pv & gs & Hpv & HG & Hok). pose proof Hok as (t & dks & Hpm & Hpc & Ut & Fd & Fg).
  destruct (uniq_delete prb_ops tb [] k rem Utb) as (tb' & _ & _ & Edel & Utb' & _ & _).
  destruct (vinv_disjoint _ _ _ _ _ _ _ _ V HG) as (N1 & N2 & N3 & N4 & N5 & _).
  assert (len ks < 2 ^ 32) as Hks by (rewrite (Forall2_length _ _ _ (vi_tps _ _ _ _ _ V)); apply (wn_few _ _ W)).
  unfold validate_tracepoint.
  rewrite (bind_done _ _ _ (Some (PrvRef (Some pi) (p_name p))) (Dst im o m))
    by (unfold htab_lookup; rewrite Htv, <- Hpn; by rewrite (prv_lookup_ok tv _ pi p Utv (wn_provs _ _ W) Hpi)).
  cbn [pv_ptr]. rewrite (bind_done _ _ _ (pi, pv) (Dst im o m)) by (cbn; by rewrite Hpv).
  rewrite (bind_done _ _ _ (head (dt_htab_lookup prb_ops t (PrbRef None (pr_prv k) (pr_mod k) (pr_fun k) (pr_prb k) 0))) (Dst im o m))
    by (unfold htab_lookup; by rewrite Hpm).
  pose proof (lookup_group st p t dks gs k d None Ut Fd Fg (wp_nodup _ Wp) Hd Hf (eq_sym Hdn)) as Lg.
  destruct (dt_htab_lookup prb_ops t (PrbRef None (pr_prv k) (pr_mod k) (pr_fun k) (pr_prb k) 0)) as [|h lh] eqn:Elk; cbn [head].
  - destruct (lookup_decl st p t dks gs k d None Ut Fd Fg (wp_nodup _ Wp) Hd (eq_sym Hpn) Hmod (eq_sym Hdn)) as (h & Eh & Hfh & Hh).
    rewrite (bind_done _ _ _ (Some h) (Dst im o m)) by (unfold htab_lookup; by rewrite Hpm, Eh).
    destruct (prb_get_ok st k v (Dst im o m) Hv) as (ti & Hti & Eti). run_with Eti.
    destruct (prb_get_ok st h _ (Dst im o m) Hh) as (ri & Hri & Eri). run_with Eri.
    rewrite (args_pass _ _ Hargs). rewrite Htb, Edel, Hfh. rewrite Hpm.
    destruct (lookup_fresh _ _ _ _ _ _ pi p gs t dks W V HG Ut Fd Hf) as [Hni Hlk].
    destruct (htab_insert_ok prb_ops t _ k im o m j Ut Hni Hlk P) as (t' & m' & Ei & Ut' & P'). run_with Ei.
    set (v' := Provider _ _ _ _ _ _ _). set (vt := Probe _ _ _ _ _ _ _ _ _ _). set (st1 := set_pv _ _ _).
    assert (refers st1 k v) as Hv1 by (by apply (agrees_prbs st st1 eq_refl k v); [apply not_elem_of_nil|]).
    destruct (set_prb_agrees st1 k v ti vt Hv1 Hti) as [A1 R1].
    assert (agrees [k] st (set_prb st1 ti vt)) as A by exact (agrees_trans [] [k] _ _ _ (agrees_prbs st st1 eq_refl) A1).
    exists (set_prb st1 ti vt), (<[pi := (k, []) :: gs]> G), tb, tb', m'.
    split_and!; [done| |done|done|done|cbn; by rewrite length_alter|done].
    eapply (vinv_update ns ks st G k rem [k]); [apply (wn_provs _ _ W)|done|exact A| |done|done|exact Utb'|exact Hpi|exact HG|done| |].
    + constructor; [|constructor]. split_and!; [done..|]. exists v, vt. split_and!; try done.
    + eapply (prov_ok_new st _ p pv gs k d vt t' v'); try done.
      * intros t0 dks0 E0 U0 _. assert (t0 = t) as -> by congruence. eapply uniq_perm; [|exact Ut']. constructor.
        rewrite <- (u_entries _ _ _ Ut). by rewrite (u_entries _ _ _ U0).
      * cbn. rewrite Hpc. apply wrapu_small. assert (len gs <= len (concat (members <$> gs))) by apply members_count. lia.
    + cbn. done.
  - destruct Lg as (Hfh & Hbh & gs1 & l & gs2 & r & -> & Hr & Har & Hnr).
    rewrite (bind_done _ _ _ (Some h) (Dst im o m)) by done.
    destruct (prb_get_ok st k v (Dst im o m) Hv) as (ti & Hti & Eti). run_with Eti.
    destruct (prb_get_ok st h _ (Dst im o m) Hr) as (ri & Hri & Eri). run_with Eri.
    assert (sargc v = nargc r \/ (is_enabled v = 1 /\ sargc v = 1)) as Hargs' by (by rewrite (proj1 Har)).
    rewrite (args_pass _ _ Hargs'). rewrite Htb, Edel. destruct (pr_fun h) as [fh|] eqn:Ehf; [|by rewrite <- Hfh in Hf].
    set (vt := Probe _ _ _ _ _ _ _ _ _ _). set (vr := Probe (Some ti) _ _ _ _ _ _ _ _ _). set (st1 := Nst _ _ _ _).
    assert (refers st1 k v /\ refers st1 h r) as [Hv1 Hr1] by (split; [by apply (agrees_prbs st st1 eq_refl k v); [apply not_elem_of_nil|]|by apply (agrees_prbs st st1 eq_refl h r); [apply not_elem_of_nil|]]).
    assert (h ∈ concat (members <$> gs1 ++ (h, l) :: gs2)) as Hhin.
    { rewrite fmap_app, concat_app, elem_of_app. right. cbn. left. }
    assert (h <> k) as Hhk by (by intros ->).
    destruct (set_prb_agrees st1 k v ti vt Hv1 Hti) as [A1 R1]. set (st2 := set_prb st1 ti vt) in *.
    assert (refers st2 h r) as Hr2 by (apply A1; [|done]; rewrite not_elem_of_cons; split; [done|apply not_elem_of_nil]).
    destruct (set_prb_agrees st2 h r ri vr Hr2 Hri) as [A2 R2]. set (st3 := set_prb st2 ri vr) in *.
    assert (refers st3 k vt) as R1' by (apply A2; [|done]; rewrite not_elem_of_cons; split; [done|apply not_elem_of_nil]).
    assert (agrees [k; h] st st3) as A by exact (agrees_trans [] [k; h] _ _ _ (agrees_prbs st st1 eq_refl) (agrees_trans [k] [h] _ _ _ A1 A2)).
    exists st3, (<[pi := gs1 ++ (h, k :: l) :: gs2]> G), tb, tb', m.
    split_and!; [done| |done|done|done|cbn; by rewrite !length_alter|by eapply plenty_le; [done|lia]].
    assert (Hmem : len (h :: l) <= len (concat (members <$> gs1 ++ (h, l) :: gs2))).
    { rewrite fmap_app, concat_app. cbn [fmap list_fmap concat]. unfold members at 2. cbn [fst snd]. rewrite !length_app. cbn [length]. lia. }
    assert (u32 (ntp r + 1) = ntp r + 1) as Hw by (apply wrapu_small; lia).
    assert (pr_prv h = p_name p) as Hph.
    { apply Forall_app in Fg as [_ F]. apply Forall_cons_1 in F as [(d' & _ & _ & _ & Hm) _]. by apply Forall_cons_1 in Hm as [(? & _) _]. }
    eapply (vinv_update ns ks st G k rem [k; h] st3 tb' pi p pv); [apply (wn_provs _ _ W)|done|exact A| |done|done|exact Utb'|exact Hpi|exact HG| | |].
    + constructor; [|constructor; [|constructor]].
      * split_and!; [done..|]. exists v, vt. split_and!; try done.
      * split_and!; [done|by rewrite Ehf|by apply N3|]. exists r, vr. split_and!; try done.
    + cbn. symmetry. by apply list_insert_id.
    + eapply (prov_ok_link st st3 p pv gs1 h l gs2 k d r vt vr); try done; [apply (wp_nodup _ Wp)|by rewrite Ehf].
    + rewrite !fmap_app, !concat_app. cbn [fmap list_fmap concat]. unfold members at 2 5. cbn [fst snd app].
      solve_Permutation.
Qed.

(** ** The loop *)

(** A round, once the walk has returned a tracepoint. *)
Lemma validate_round ns ks st G k rem tb i im o m j : wf_notes ro ns -> vinv ns ks st G (k :: rem) -> prbmap st = Some tb ->
  walk prb_ops tb (Some i) rem -> plenty m (2 + j) ->
  exists st' G' tb' m', validate_tracepoint chr k st (Dst im o m) = Done st' (Dst im o m') /\ vinv ns ks st' G' rem /\
    prbmap st' = Some tb' /\ walk prb_ops tb' (Some i) rem /\ plenty m' j.
Proof.
  intros W V Htb Hw P. destruct (validate_ok ns ks st G k rem im o m _ W V P) as (st1 & G1 & tb1 & tb' & m1 & E1 & V1 & H1 & H2 & H3 & H4 & P1).
  rewrite Htb in H1. injection H1 as <-. destruct (vi_prb _ _ _ _ _ V) as (tb0 & E0 & U). rewrite Htb in E0. injection E0 as <-.
  pose proof (u_nodup _ _ _ U) as Nd. apply NoDup_cons in Nd as [Hk _].
  exists st1, G1, tb', m1. split_and!; try done. exact (walk_delete prb_ops tb [] k rem i rem tb' U Hw Hk H3).
Qed.

Lemma validate_loop_from ns ks rem : forall fuel st G tb i im o m j, wf_notes ro ns -> vinv ns ks st G rem -> prbmap st = Some tb ->
  walk prb_ops tb (Some i) rem -> (length rem < fuel)%nat -> plenty m (2 * length rem + j) ->
  exists st' G' m', validate_loop chr fuel (Some i) st (Dst im o m) = Done st' (Dst im o m') /\ vinv ns ks st' G' [] /\ plenty m' j.
Proof.
  induction rem as [|k rem IH]; intros fuel st G tb i im o m j W V Htb Hw Hf P; (destruct fuel as [|fuel]; [cbn in Hf; lia|]);
    cbn [validate_loop]; unfold htab_next; rewrite Htb; destruct (vi_prb _ _ _ _ _ V) as (tb0 & E0 & U);
    rewrite Htb in E0; injection E0 as <-; pose proof (walk_next prb_ops tb _ (Some i) _ U Hw) as N; cbn iota in N.
  - destruct N as (it' & N). rewrite N. by exists st, G, m.
  - destruct N as (i' & N & Hw'). rewrite N. cbn [length] in P. replace (2 * S (length rem) + j)%nat with (2 + (2 * length rem + j))%nat in P by lia.
    erewrite bind_done; [|reflexivity]. destruct (validate_round ns ks st G k rem tb i' im o m _ W V Htb Hw' P) as (st1 & G1 & tb' & m1 & E1 & V1 & H2 & Hw2 & P1).
    run_with E1. apply (IH fuel st1 G1 tb'); try done. cbn in Hf. lia.
Qed.

(** The state after the first loop. *)
Lemma vinv_init ns st : wf_notes ro ns -> pinv chr mod_ ro ns st ->
  exists ks tb, prbmap st = Some tb /\ vinv ns ks st (replicate (length (provs ns)) []) (entries tb).
Proof.
  intros W [(tv & Htv & Utv) Hpvs (tb & ks & Htb & Utb & Htps)]. exists ks, tb. split; [done|]. split.
  - by exists tv.
  - exists tb. split; [done|]. eapply uniq_perm; [|exact Utb]. symmetry. apply (u_entries _ _ _ Utb).
  - intros i p Hp. destruct (Forall2_lookup_l _ _ _ _ _ Hpvs Hp) as (v & Hv & t & dks & -> & U & F). exists (prov_data p t), []. split_and!; [done| |].
    + apply lookup_replicate_2. by eapply lookup_lt_Some.
    + exists t, dks. rewrite app_nil_r. split_and!; done.
  - rewrite length_replicate. split; [done|]. symmetry. by eapply Forall2_length.
  - apply (u_nodup _ _ _ Utb).
  - rewrite concat_replicate_nil. cbn. apply (u_entries _ _ _ Utb).
  - eapply Forall2_impl; [exact Htps|]. intros k t [H1 H2]. split; [done|]. exists (tp_data t). done.
  - intros k Hk. rewrite (u_entries _ _ _ Utb) in Hk. apply list_elem_of_lookup in Hk as [i Hi].
    destruct (Forall2_lookup_l _ _ _ _ _ Htps Hi) as (t & _ & _ & H). by exists (tp_data t).
Qed.

Lemma rem_bounded ns ks st G rem : vinv ns ks st G rem -> (length rem <= length (prbs st))%nat.
Proof.
  intros V. rewrite <- (length_fmap fst (prbs st)). apply submseteq_length, NoDup_submseteq.
  - pose proof (vi_nodup _ _ _ _ _ V) as N. rewrite <- (vi_all _ _ _ _ _ V) in N. by apply NoDup_app in N as (_ & _ & ?).
  - intros k Hk. destruct (vi_rem _ _ _ _ _ V k Hk) as (v & (i & _ & Hi) & _). apply list_elem_of_fmap. exists (k, v). split; [done|].
    by eapply list_elem_of_lookup_2.
Qed.

Lemma validate_loop_ok ns st im o m j : wf_notes ro ns -> pinv chr mod_ ro ns st -> plenty m (1 + 2 * length (tps ns) + j) ->
  exists ks st' G m', validate_loop chr (S (length (prbs st))) None st (Dst im o m) = Done st' (Dst im o m') /\ vinv ns ks st' G [] /\ plenty m' j.
Proof.
  intros W I P. destruct (vinv_init _ _ W I) as (ks & tb & Htb & V). exists ks.
  assert (length (entries tb) = length (tps ns)) as Hlen.
  { rewrite <- (Forall2_length _ _ _ (vi_tps _ _ _ _ _ V)). rewrite <- (vi_all _ _ _ _ _ V). by rewrite concat_replicate_nil. }
  pose proof (rem_bounded _ _ _ _ _ V) as Hle.
  destruct (dmalloc_plenty im o m (2 * length (tps ns) + j) P) as (m1 & E1 & P1). cbn [validate_loop]. unfold htab_next at 1. rewrite Htb.
  destruct (vi_prb _ _ _ _ _ V) as (tb0 & E0 & U). rewrite Htb in E0. injection E0 as <-.
  pose proof (walk_next prb_ops tb _ None _ U (eq_refl : walk prb_ops tb None (entries tb))) as N.
  destruct (entries tb) as [|k rem] eqn:Eent.
  - destruct N as (it' & N). erewrite bind_done; [|run_with E1; by rewrite N]. cbn iota. eexists st, _, m1. split_and!; [done|exact V|].
    eapply plenty_le; [exact P1|lia].
  - destruct N as (i' & N & Hw'). erewrite bind_done; [|run_with E1; by rewrite N]. cbn iota. cbn [length] in Hlen, Hle.
    replace (2 * length (tps ns) + j)%nat with (2 + (2 * length rem + j))%nat in P1 by lia.
    destruct (validate_round ns ks st _ k rem tb i' im o m1 _ W V Htb Hw' P1) as (st1 & G1 & tb' & m2 & E2 & V1 & H2 & Hw2 & P2).
    run_with E2. by apply (validate_loop_from ns ks rem _ st1 G1 tb').
Qed.
End Move.
