(* ===== verification/NotesRound.v ===== *)
(** * From the notes of a program to what dtprobed keeps (theorems about Notes.v)

    The third loop of usdt_parse_notes() writes the providers with their groups of
    tracepoints as messages; the loops of process_dof() read them.  The main theorem follows the notes
    of a program, as dt_link.c and the macros write them, through the parser to what
    dtprobed keeps: every tracepoint once, with its probe and the declared types. *)

From stdpp Require Import base list numbers option sets.
From S2P Require Import Prelude DtList Str Htab HtabUniq Dof Usdt Notes NotesBytes NotesParse NotesLoop NotesMove.

Section Round.
Variables (chr : Z -> Z) (mod_ : list Z) (addr : Z) (ro : usdt_data).
Abbreviation prv_ops := (prv_htab_ops chr).
Abbreviation prb_ops := (prb_htab_ops chr).
Abbreviation group := (prb_ref * list prb_ref)%type.
Implicit Types (st : nst) (k : prb_ref) (ns : list note) (g : group) (gs : list group).

(** ** The messages of a group *)

Definition data st k : dt_probe := default zero_probe (snd <$> (i ← pr_ptr k; prbs st !! i)).

Lemma data_refers st k v : refers st k v -> data st k = v.
Proof. intros (i & H1 & H2). unfold data. rewrite H1. cbn. by rewrite H2. Qed.

Definition tp_msg st k : msg := DIT_TRACEPOINT_ARGS (u64 (pr_off k + addr)) (is_enabled (data st k)) (sargs (data st k)).
Definition arg_msgs (v : dt_probe) : list msg :=
  if nargc v =? 0 then [] else DIT_ARGS_NATIVE (nargs v) :: if xargc v =? 0 then [] else [DIT_ARGS_XLAT (xargs v); DIT_ARGS_MAP (xmap v)].
Definition group_msgs st g : list msg :=
  let v := data st g.1 in
  DIT_PROBE (ntp v) (nargc v) (xargc v) (pr_mod g.1) (default [] (pr_fun g.1)) (pr_prb g.1) :: arg_msgs v ++ (tp_msg st <$> members g).

Lemma emit_ok x im o m j : plenty m (S j) -> exists m', emit x (Dst im o m) = Done tt (Dst im (o ++ [x]) m') /\ plenty m' j.
Proof. intros (m' & E & P)%(dmalloc_plenty im o). exists m'. unfold emit. run_with E. done. Qed.

Lemma emit_tps_ok st l : forall fuel im o m j, links st l -> (length l <= fuel)%nat -> plenty m (length l + j) ->
  exists m', emit_tps addr fuel st (match l with [] => None | k :: _ => pr_ptr k end) (Dst im o m) = Done tt (Dst im (o ++ (tp_msg st <$> l)) m') /\ plenty m' j.
Proof.
  induction l as [|k l IH]; intros fuel im o m j HL Hf P.
  - exists m. split; [|done]. cbn. rewrite app_nil_r. by destruct fuel.
  - cbn [links] in HL. destruct HL as [(v & Hv & Hn) HL]. destruct fuel as [|fuel]; [cbn in Hf; lia|].
    pose proof (data_refers _ _ _ Hv) as Hd. destruct Hv as (i & Hi & Hp). rewrite Hi. cbn [emit_tps]. rewrite Hp.
    cbn [length] in P. destruct (emit_ok (DIT_TRACEPOINT_ARGS (u64 (pr_off k + addr)) (is_enabled v) (sargs v)) im o m (length l + j) P) as (m1 & E1 & P1).
    unfold emit_tp. run_with E1. rewrite Hn. destruct (IH fuel im (o ++ [tp_msg st k]) m1 j HL) as (m2 & E2 & P2); [cbn in Hf; lia|done|].
    exists m2. split; [|done]. unfold tp_msg in E2 at 1. rewrite Hd in E2. etransitivity; [exact E2|]. cbn [fmap list_fmap]. by rewrite <- app_assoc.
Qed.

Lemma links_bounded st l : NoDup l -> links st l -> (length l <= length (prbs st))%nat.
Proof.
  intros N HL. rewrite <- (length_fmap fst (prbs st)). apply submseteq_length, NoDup_submseteq; [done|]. clear N.
  induction l as [|k l IH]; intros x Hx; [by apply elem_of_nil in Hx|]. destruct HL as [(v & (i & _ & Hi) & _) HL].
  apply elem_of_cons in Hx as [->|Hx]; [|by apply IH]. apply list_elem_of_fmap. exists (k, v). split; [done|]. by eapply list_elem_of_lookup_2.
Qed.

Definition group_need g : nat := 4 + length (members g).

Lemma emit_probe_ok st p g im o m j : group_ok mod_ st p g -> NoDup (members g) -> plenty m (group_need g + j) ->
  exists m', emit_probe addr st g.1 (Dst im o m) = Done tt (Dst im (o ++ group_msgs st g) m') /\ plenty m' j.
Proof.
  intros (d & Hd & HL & (v & Hv & Hn) & _) N P. pose proof (links_bounded _ _ N HL) as Hb. pose proof (data_refers _ _ _ Hv) as Edat.
  unfold emit_probe, group_msgs. rewrite Edat. destruct (prb_get_ok st g.1 v (Dst im o m) Hv) as (i & Hi & E0). run_with E0. cbv zeta.
  assert (forall im o m j, plenty m (length (members g) + j) -> exists m',
    emit_tps addr (S (length (prbs st))) st (Some i) (Dst im o m) = Done tt (Dst im (o ++ (tp_msg st <$> members g)) m') /\ plenty m' j) as Htps.
  { intros im' o' m' j' P'. rewrite <- Hi. by apply (emit_tps_ok st (members g) (S (length (prbs st))) im' o' m' j' HL); [lia|]. }
  unfold group_need in P. destruct (emit_ok (DIT_PROBE (ntp v) (nargc v) (xargc v) (pr_mod g.1) (default [] (pr_fun g.1)) (pr_prb g.1)) im o m (3 + length (members g) + j) P) as (m1 & E1 & P1).
  run_with E1. unfold arg_msgs. destruct (nargc v =? 0); cbn [negb].
  - rewrite (bind_done _ _ _ tt (Dst im (o ++ [DIT_PROBE (ntp v) (nargc v) (xargc v) (pr_mod g.1) (default [] (pr_fun g.1)) (pr_prb g.1)]) m1)) by done.
    edestruct Htps as (m2 & E2 & P2); [eapply (plenty_le _ _ (length (members g) + j) P1); lia|]. exists m2. split; [|exact P2].
    rewrite E2. by rewrite <- app_assoc.
  - destruct (emit_ok (DIT_ARGS_NATIVE (nargs v)) im (o ++ [DIT_PROBE (ntp v) (nargc v) (xargc v) (pr_mod g.1) (default [] (pr_fun g.1)) (pr_prb g.1)]) m1 (2 + length (members g) + j) P1) as (m2 & E2 & P2).
    destruct (xargc v =? 0); cbn [negb].
    + erewrite bind_done; [|run_with E2; reflexivity]. edestruct Htps as (m3 & E3 & P3); [eapply (plenty_le _ _ (length (members g) + j) P2); lia|].
      exists m3. split; [|exact P3]. rewrite E3. by rewrite <- !app_assoc.
    + destruct (emit_ok (DIT_ARGS_XLAT (xargs v)) im ((o ++ [DIT_PROBE (ntp v) (nargc v) (xargc v) (pr_mod g.1) (default [] (pr_fun g.1)) (pr_prb g.1)]) ++ [DIT_ARGS_NATIVE (nargs v)]) m2 (1 + length (members g) + j) P2) as (m3 & E3 & P3).
      destruct (emit_ok (DIT_ARGS_MAP (xmap v)) im (((o ++ [DIT_PROBE (ntp v) (nargc v) (xargc v) (pr_mod g.1) (default [] (pr_fun g.1)) (pr_prb g.1)]) ++ [DIT_ARGS_NATIVE (nargs v)]) ++ [DIT_ARGS_XLAT (xargs v)]) m3 (length (members g) + j) P3) as (m4 & E4 & P4).
      erewrite bind_done; [|run_with E2; run_with E3; exact E4]. edestruct Htps as (m5 & E5 & P5); [exact P4|].
      exists m5. split; [|exact P5]. rewrite E5. by rewrite <- !app_assoc.
Qed.

(** ** The probes of a provider *)

Definition groups_need gs : nat := 4 * length gs + length (concat (members <$> gs)).

Lemma groups_need_cons g gs : groups_need (g :: gs) = (group_need g + groups_need gs)%nat.
Proof. unfold groups_need, group_need. cbn [length fmap list_fmap concat]. rewrite length_app. lia. Qed.

Lemma groups_need_perm gs gs' : gs ≡ₚ gs' -> groups_need gs = groups_need gs'.
Proof. intros P. unfold groups_need. by rewrite P. Qed.

Lemma groups_need_app gs gs' : groups_need (gs ++ gs') = (groups_need gs + groups_need gs')%nat.
Proof. unfold groups_need. rewrite fmap_app, concat_app, !length_app. lia. Qed.

Lemma emit_probes_from st p t es L : forall gs fuel i im o m j, uniq prb_ops t es -> walk prb_ops t (Some i) L ->
  gs.*1 = filter (λ k, pr_fun k <> None) L -> Forall (λ g, group_ok mod_ st p g /\ NoDup (members g)) gs -> (length L < fuel)%nat -> plenty m (groups_need gs + j) ->
  exists m', emit_probes addr fuel st (Some t) (Some i) (Dst im o m) = Done tt (Dst im (o ++ concat (group_msgs st <$> gs)) m') /\ plenty m' j.
Proof.
  induction L as [|k L IH]; intros gs fuel i im o m j U Hw Hgs F Hf P; (destruct fuel as [|fuel]; [cbn in Hf; lia|]); cbn [emit_probes];
    unfold htab_next at 1; pose proof (walk_next prb_ops t es (Some i) _ U Hw) as N; cbn iota in N.
  - destruct N as (it' & N). rewrite N. erewrite bind_done; [|reflexivity]. cbn in Hgs. apply fmap_nil_inv in Hgs. subst gs. exists m. cbn. by rewrite app_nil_r.
  - destruct N as (i' & N & Hw'). rewrite N. erewrite bind_done; [|reflexivity]. cbn iota. rewrite filter_cons in Hgs. destruct (pr_fun k) as [f|] eqn:Hk.
    + rewrite decide_True in Hgs by done. destruct gs as [|g gs]; [done|]. cbn in Hgs. injection Hgs as Hg Hgs. apply Forall_cons_1 in F as [[Fg Ng] F].
      rewrite groups_need_cons, <- Nat.add_assoc in P. subst k.
      destruct (emit_probe_ok st p g im o m _ Fg Ng P) as (m1 & E1 & P1). run_with E1.
      destruct (IH gs fuel i' im (o ++ group_msgs st g) m1 j U Hw' Hgs F) as (m2 & E2 & P2); [cbn in Hf; lia|done|]. exists m2. split; [|done].
      etransitivity; [exact E2|]. cbn [fmap list_fmap concat]. by rewrite app_assoc.
    + rewrite decide_False in Hgs by naive_solver. erewrite bind_done; [|reflexivity]. apply IH; try done. cbn in Hf. lia.
Qed.

(** The first call, which allocates the iterator. *)
Lemma emit_probes_ok st p t es gs fuel im o m j : uniq prb_ops t es ->
  gs.*1 = filter (λ k, pr_fun k <> None) (entries t) -> Forall (λ g, group_ok mod_ st p g /\ NoDup (members g)) gs -> (length (entries t) < fuel)%nat -> plenty m (1 + groups_need gs + j) ->
  exists m', emit_probes addr fuel st (Some t) None (Dst im o m) = Done tt (Dst im (o ++ concat (group_msgs st <$> gs)) m') /\ plenty m' j.
Proof.
  intros U Hgs F Hf P. destruct (first_at prb_ops t es U) as (i & E & A). destruct (dmalloc_plenty im o m (groups_need gs + j) P) as (m1 & E1 & P1).
  destruct fuel as [|fuel]; [lia|].
  assert (emit_probes addr (S fuel) st (Some t) None (Dst im o m) = emit_probes addr (S fuel) st (Some t) (Some i) (Dst im o m1)) as ->.
  { cbn [emit_probes]. unfold htab_next. erewrite bind_done; [|run_with E1; rewrite E; reflexivity]. reflexivity. }
  by apply (emit_probes_from st p t es (entries t)).
Qed.

(** The entries of the table that have a function are the heads of the groups, in some order. *)
Lemma heads_order st p t dks gs : uniq prb_ops t (dks ++ gs.*1) -> Forall2 (decl_ok mod_ st p) dks (p_probes p) -> Forall (group_ok mod_ st p) gs ->
  exists gs', gs' ≡ₚ gs /\ gs'.*1 = filter (λ k, pr_fun k <> None) (entries t).
Proof.
  intros U Fd Fg. assert (filter (λ k, pr_fun k <> None) (entries t) ≡ₚ gs.*1) as HP.
  { rewrite (u_entries _ _ _ U), filter_app.
    assert (filter (λ k, pr_fun k <> None) dks = []) as ->.
    { destruct (filter (λ k, pr_fun k <> None) dks) as [|k l] eqn:E; [done|]. exfalso.
      assert (k ∈ filter (λ k, pr_fun k <> None) dks) as [Hf Hk]%list_elem_of_filter by (rewrite E; left). apply list_elem_of_lookup in Hk as [i Hi].
      destruct (Forall2_lookup_l _ _ _ _ _ Fd Hi) as (d & _ & [[j ->] _]). done. }
    cbn. rewrite filter_all; [done|]. intros k (g & -> & Hg)%list_elem_of_fmap. rewrite Forall_forall in Fg.
    destruct (Fg g Hg) as (d & _ & _ & _ & Hm). apply Forall_cons_1 in Hm as [(_ & _ & _ & ? & _) _]. done. }
  apply Permutation_map_inv in HP as (gs' & E & P). exists gs'. split; [done|]. by rewrite E.
Qed.

(** ** All providers *)

Definition block_msgs st (b : pdecl * list group) : list msg := DIT_PROVIDER (len b.2) (p_name b.1) :: concat (group_msgs st <$> b.2).

Lemma entries_refer st p t dks gs : uniq prb_ops t (dks ++ gs.*1) -> Forall2 (decl_ok mod_ st p) dks (p_probes p) -> Forall (group_ok mod_ st p) gs ->
  (length (entries t) <= length (prbs st))%nat.
Proof.
  intros U Fd Fg. rewrite (u_entries _ _ _ U), <- (length_fmap fst (prbs st)). apply submseteq_length, NoDup_submseteq; [apply (u_nodup _ _ _ U)|].
  intros k Hk. assert (exists v, refers st k v) as (v & i & _ & Hi).
  { apply elem_of_app in Hk as [Hk|Hk].
    - apply list_elem_of_lookup in Hk as [i Hi]. destruct (Forall2_lookup_l _ _ _ _ _ Fd Hi) as (d & _ & _ & ?). by eexists.
    - apply list_elem_of_fmap in Hk as (g & -> & Hg). rewrite Forall_forall in Fg. destruct (Fg g Hg) as (d & _ & _ & (v & ? & _) & _). by exists v. }
  apply list_elem_of_fmap. exists (k, v). split; [done|]. by eapply list_elem_of_lookup_2.
Qed.

Lemma emit_provider_ok st p v gs im o m j : prov_ok chr mod_ st p v gs -> NoDup (concat (members <$> gs)) -> plenty m (2 + groups_need gs + j) ->
  exists gs' m', gs' ≡ₚ gs /\ emit_provider addr st (p_name p) v (Dst im o m) = Done tt (Dst im (o ++ block_msgs st (p, gs')) m') /\ plenty m' j.
Proof.
  intros (t & dks & H1 & H2 & H3 & H4 & H5) N P. destruct (heads_order st p t dks gs H3 H4 H5) as (gs' & HP & Hh). exists gs'.
  destruct (emit_ok (DIT_PROVIDER (probec v) (p_name p)) im o m (1 + groups_need gs + j) P) as (m1 & E1 & P1). unfold emit_provider. run_with E1. rewrite H1.
  rewrite <- (groups_need_perm gs' gs HP) in P1.
  destruct (emit_probes_ok st p t _ gs' (S (length (prbs st))) im (o ++ [DIT_PROVIDER (probec v) (p_name p)]) m1 j H3 Hh) as (m2 & E2 & P2).
  - rewrite HP. apply Forall_forall. intros g Hg. split; [by apply (proj1 (Forall_forall _ _) H5)|].
    apply list_elem_of_split in Hg as (l1 & l2 & ->). rewrite fmap_app, concat_app in N. cbn in N. apply NoDup_app in N as (_ & _ & N).
    change (NoDup (members g ++ concat (members <$> l2))) in N. by apply NoDup_app in N as (? & _ & _).
  - pose proof (entries_refer st p t dks gs H3 H4 H5). lia.
  - done.
  - exists m2. split_and!; [done| |done]. rewrite E2. unfold block_msgs. cbn [fst snd]. rewrite H2, (Permutation_length HP). by rewrite <- app_assoc.
Qed.

Definition gsof (G : list (list group)) (e : prv_ref) : list group := default [] (i ← pv_ptr e; G !! i).
Definition block_ok ns st (b : pdecl * list group) : Prop := b.1 ∈ provs ns /\ b.2 <> [] /\ Forall (group_ok mod_ st b.1) b.2.
Definition provs_need (G : list (list group)) (L : list prv_ref) : nat := 2 * length L + groups_need (concat (gsof G <$> L)).

Lemma emit_providers_from ns ks st G tv L : forall fuel i im o m j, vinv chr mod_ ro ns ks st G [] -> uniq prv_ops tv (prov_refs (provs ns)) -> prvmap st = Some tv ->
  walk prv_ops tv (Some i) L -> Forall (λ e, e ∈ prov_refs (provs ns)) L -> (length L < fuel)%nat -> plenty m (provs_need G L + j) ->
  exists bs m', emit_providers addr fuel st (Some i) (Dst im o m) = Done tt (Dst im (o ++ concat (block_msgs st <$> bs)) m') /\
    concat bs.*2 ≡ₚ concat (gsof G <$> L) /\ Forall (block_ok ns st) bs /\ plenty m' j.
Proof.
  induction L as [|e L IH]; intros fuel i im o m j V U Htv Hw F Hf P; (destruct fuel as [|fuel]; [cbn in Hf; lia|]); cbn [emit_providers];
    unfold htab_next at 1; rewrite Htv; pose proof (walk_next prv_ops tv _ (Some i) _ U Hw) as N; cbn iota in N.
  - destruct N as (it' & N). rewrite N. erewrite bind_done; [|reflexivity]. exists [], m. cbn. rewrite app_nil_r. split_and!; [done|done|constructor|done].
  - destruct N as (i' & N & Hw'). rewrite N. erewrite bind_done; [|reflexivity]. cbn iota. apply Forall_cons_1 in F as [He F].
    apply elem_of_lookup_imap in He as (pi & p & -> & Hp). cbn [pv_ptr pv_name]. destruct (vi_pvs _ _ _ _ _ _ _ _ V pi p Hp) as (v & gs & Hv & HG & Hok).
    assert (gsof G (PrvRef (Some pi) (p_name p)) = gs) as Egs by (unfold gsof; cbn; by rewrite HG).
    rewrite (bind_done _ _ _ (pi, v) (Dst im o m)) by (cbn; by rewrite Hv).
    assert (NoDup (concat (members <$> gs))) as Nd.
    { pose proof (vi_nodup _ _ _ _ _ _ _ _ V) as N0. rewrite <- (vi_all _ _ _ _ _ _ _ _ V), app_nil_r in N0.
      destruct (concat_members_slot G pi gs HG) as (rest & P1 & _). rewrite P1 in N0. by apply NoDup_app in N0 as (? & _ & _). }
    unfold provs_need in P. cbn [length fmap list_fmap concat] in P. rewrite Egs, groups_need_app in P.
    assert (probec v = len gs) as Hpc by (by destruct Hok as (? & ? & _ & ? & _)). rewrite Hpc.
    destruct (decide (gs = [])) as [->|Hne].
    + cbn [length Z.of_nat Z.gtb Z.compare]. erewrite bind_done; [|reflexivity].
      destruct (IH fuel i' im o m j V U Htv Hw' F) as (bs & m' & E & HB & HF & P'); [cbn in Hf; lia|eapply plenty_le; [exact P|unfold provs_need; lia]|].
      exists bs, m'. cbn [fmap list_fmap concat]. rewrite Egs. done.
    + rewrite Z.gtb_ltb, (proj2 (Z.ltb_lt _ _)) by (destruct gs; [done|cbn [length]; lia]).
      destruct (emit_provider_ok st p v gs im o m (provs_need G L + j) Hok Nd) as (gs' & m1 & HP & E1 & P1); [eapply plenty_le; [exact P|unfold provs_need; lia]|].
      run_with E1. destruct (IH fuel i' im (o ++ block_msgs st (p, gs')) m1 j V U Htv Hw' F) as (bs & m' & E & HB & HF & P'); [cbn in Hf; lia|done|].
      exists ((p, gs') :: bs), m'. cbn [fmap list_fmap concat fst snd]. rewrite Egs. split_and!; [|by rewrite HP, HB| |done].
      * etransitivity; [exact E|]. by rewrite app_assoc.
      * constructor; [|done]. split_and!; cbn [fst snd].
        -- by eapply list_elem_of_lookup_2.
        -- intros ->. by apply Permutation_nil_l in HP.
        -- rewrite HP. by destruct Hok as (? & ? & _ & _ & _ & _ & ?).
Qed.

Lemma gsof_all G ps : length G = length ps -> concat (gsof G <$> prov_refs ps) = concat G.
Proof.
  intros Hl. f_equal. unfold prov_refs. apply list_eq. intros i. rewrite list_lookup_fmap, list_lookup_imap.
  destruct (ps !! i) as [p|] eqn:Hp; cbn.
  - unfold gsof. cbn. destruct (G !! i) eqn:HG; [done|]. apply lookup_ge_None in HG. apply lookup_lt_Some in Hp. lia.
  - symmetry. apply lookup_ge_None. apply lookup_ge_None in Hp. lia.
Qed.

Lemma emit_providers_ok ns ks st G im o m j : vinv chr mod_ ro ns ks st G [] -> plenty m (1 + 2 * length (provs ns) + 5 * length (tps ns) + j) ->
  exists bs m', emit_providers addr (S (length (pvs st))) st None (Dst im o m) = Done tt (Dst im (o ++ concat (block_msgs st <$> bs)) m') /\
    concat (members <$> concat bs.*2) ≡ₚ ks /\ Forall (block_ok ns st) bs /\ plenty m' j.
Proof.
  intros V P. destruct (vi_prv _ _ _ _ _ _ _ _ V) as (tv & Htv & U). destruct (vi_len _ _ _ _ _ _ _ _ V) as [Hl1 Hl2].
  assert (length (entries tv) = length (provs ns)) as Hle by (rewrite (u_entries _ _ _ U); unfold prov_refs; apply length_imap).
  assert (concat (gsof G <$> entries tv) ≡ₚ concat G) as HG by (rewrite (u_entries _ _ _ U); by rewrite gsof_all).
  assert (concat (members <$> concat G) ≡ₚ ks) as Hks by (pose proof (vi_all _ _ _ _ _ _ _ _ V) as H; by rewrite app_nil_r in H).
  assert (provs_need G (entries tv) <= 2 * length (provs ns) + 5 * length (tps ns))%nat as Hneed.
  { unfold provs_need. rewrite Hle, (groups_need_perm _ _ HG). unfold groups_need. pose proof (members_count (concat G)) as Hc.
    rewrite Hks in Hc |- *. rewrite (Forall2_length _ _ _ (vi_tps _ _ _ _ _ _ _ _ V)) in Hc |- *. lia. }
  destruct (first_at prv_ops tv _ U) as (i & E & A). destruct (dmalloc_plenty im o m (2 * length (provs ns) + 5 * length (tps ns) + j) P) as (m1 & E1 & P1).
  assert (emit_providers addr (S (length (pvs st))) st None (Dst im o m) = emit_providers addr (S (length (pvs st))) st (Some i) (Dst im o m1)) as ->.
  { cbn [emit_providers]. unfold htab_next. rewrite Htv. erewrite bind_done; [|run_with E1; rewrite E; reflexivity]. reflexivity. }
  destruct (emit_providers_from ns ks st G tv (entries tv) (S (length (pvs st))) i im o m1 j V U Htv A) as (bs & m2 & E2 & HB & HF & P2).
  - apply Forall_forall. intros e He. by rewrite (u_entries _ _ _ U) in He.
  - lia.
  - eapply plenty_le; [exact P1|lia].
  - exists bs, m2. split_and!; [done| |done|done]. by rewrite HB, HG.
Qed.

(** ** What the messages say *)

(** A tracepoint, with all that is said of its probe. *)
Record info := Info {
  i_prv : list Z; i_mod : list Z; i_fun : list Z; i_prb : list Z; i_nargc : Z; i_xargc : Z;
  i_nargs : list Z; i_xargs : list Z; i_xmap : list Z; i_addr : Z; i_enabled : Z; i_args : list Z }.
Definition no_info : info := Info [] [] [] [] 0 0 [] [] [] 0 0 [].

(** The tracepoints of a sequence of messages; [c]: what was said so far. *)
Fixpoint collect (c : info) (l : list msg) : list info :=
  match l with
  | [] => []
  | DIT_PROVIDER _ name :: l => collect (Info name [] [] [] 0 0 [] [] [] 0 0 []) l
  | DIT_PROBE _ n x mo fu pr :: l => collect (Info (i_prv c) mo fu pr n x [] [] [] 0 0 []) l
  | DIT_ARGS_NATIVE a :: l => collect (Info (i_prv c) (i_mod c) (i_fun c) (i_prb c) (i_nargc c) (i_xargc c) a (i_xargs c) (i_xmap c) 0 0 []) l
  | DIT_ARGS_XLAT a :: l => collect (Info (i_prv c) (i_mod c) (i_fun c) (i_prb c) (i_nargc c) (i_xargc c) (i_nargs c) a (i_xmap c) 0 0 []) l
  | DIT_ARGS_MAP a :: l => collect (Info (i_prv c) (i_mod c) (i_fun c) (i_prb c) (i_nargc c) (i_xargc c) (i_nargs c) (i_xargs c) a 0 0 []) l
  | DIT_TRACEPOINT_ARGS a e s :: l =>
      Info (i_prv c) (i_mod c) (i_fun c) (i_prb c) (i_nargc c) (i_xargc c) (i_nargs c) (i_xargs c) (i_xmap c) a e s :: collect c l
  | _ :: l => collect c l
  end.

(** What should be said of a tracepoint of the program. *)
Definition info_of ns (t : tracepoint) (i : info) : Prop :=
  exists p d, declares ns t p d /\
    i = Info (tp_prv t) mod_ (fun_of ro t) (d_name d) (len (d_nargs d)) (len (d_xargs d)) (cstrings (d_nargs d)) (cstrings (d_xargs d).*1) (d_xargs d).*2
          (u64 (tp_addr t + addr)) (tp_enabled t) (tp_args t).

Definition kinfo st k : info :=
  let v := data st k in
  Info (pr_prv k) (pr_mod k) (default [] (pr_fun k)) (pr_prb k) (nargc v) (xargc v) (nargs v) (xargs v) (xmap v)
    (u64 (pr_off k + addr)) (is_enabled v) (sargs v).

(** The context of the tracepoints of a group. *)
Definition gctx (name : list Z) k (v : dt_probe) : info :=
  Info name (pr_mod k) (default [] (pr_fun k)) (pr_prb k) (nargc v) (xargc v) (nargs v) (xargs v) (xmap v) 0 0 [].

Lemma args_empty d v : wf_decl d -> args_as v d -> (nargc v = 0 -> nargs v = [] /\ xargs v = [] /\ xmap v = []) /\ (xargc v = 0 -> xargs v = [] /\ xmap v = []).
Proof.
  intros W (H1 & H2 & H3 & H4 & H5). rewrite H1, H2, H3, H4, H5. cbn. split; intros H.
  - assert (d_nargs d = []) as E by (destruct (d_nargs d); [done|cbn in H; lia]). rewrite E, (wd_map _ W E). done.
  - assert (d_xargs d = []) as -> by (destruct (d_xargs d); [done|cbn in H; lia]). done.
Qed.

Lemma collect_head c n mo fu pr v l : (nargc v = 0 -> nargs v = [] /\ xargs v = [] /\ xmap v = []) -> (xargc v = 0 -> xargs v = [] /\ xmap v = []) ->
  collect c (DIT_PROBE n (nargc v) (xargc v) mo fu pr :: arg_msgs v ++ l) =
  match l with
  | DIT_TRACEPOINT_ARGS _ _ _ :: _ => collect (Info (i_prv c) mo fu pr (nargc v) (xargc v) (nargs v) (xargs v) (xmap v) 0 0 []) l
  | _ => collect c (DIT_PROBE n (nargc v) (xargc v) mo fu pr :: arg_msgs v ++ l)
  end.
Proof.
  intros H1 H2. destruct l as [|[] l]; try done. unfold arg_msgs. destruct (Z.eqb_spec (nargc v) 0) as [E|E].
  - destruct (H1 E) as (-> & -> & ->). done.
  - destruct (Z.eqb_spec (xargc v) 0) as [E'|E']; [|done]. destruct (H2 E') as (-> & ->). done.
Qed.

Lemma collect_tps st c l rest : collect c ((tp_msg st <$> l) ++ rest) =
  ((λ k, Info (i_prv c) (i_mod c) (i_fun c) (i_prb c) (i_nargc c) (i_xargc c) (i_nargs c) (i_xargs c) (i_xmap c)
     (u64 (pr_off k + addr)) (is_enabled (data st k)) (sargs (data st k))) <$> l) ++ collect c rest.
Proof. induction l as [|k l IH]; [done|]. cbn. by rewrite IH. Qed.

Lemma collect_group st p g c rest : Forall wf_decl (p_probes p) -> i_prv c = p_name p -> group_ok mod_ st p g ->
  exists c', i_prv c' = p_name p /\ collect c (group_msgs st g ++ rest) = (kinfo st <$> members g) ++ collect c' rest.
Proof.
  intros W Hc (d & Hd & _ & (v & Hv & _) & Hm). pose proof (proj1 (Forall_forall _ _) W d Hd) as Wd. pose proof Hm as Hm'.
  apply Forall_cons_1 in Hm as [(_ & _ & _ & _ & Hb & v' & Hv' & Ha) _]. rewrite (refers_fun _ _ _ _ Hv' Hv) in Ha. clear v' Hv'.
  destruct (args_empty d v Wd Ha) as [H1 H2]. pose proof (data_refers _ _ _ Hv) as Ed. exists (gctx (p_name p) g.1 v). split; [done|].
  unfold group_msgs. rewrite Ed. cbv zeta. rewrite <- app_comm_cons, <- app_assoc. rewrite collect_head by done.
  change (members g) with (g.1 :: g.2) at 1. cbn [fmap list_fmap]. unfold tp_msg at 1. cbn [app].
  change (collect ?x (DIT_TRACEPOINT_ARGS (u64 (pr_off g.1 + addr)) (is_enabled (data st g.1)) (sargs (data st g.1)) :: (tp_msg st <$> g.2) ++ rest))
    with (collect x ((tp_msg st <$> members g) ++ rest)).
  rewrite collect_tps. cbn [i_prv i_mod i_fun i_prb i_nargc i_xargc i_nargs i_xargs i_xmap]. rewrite Hc. f_equal. apply list_fmap_ext.
  intros i k Hk. apply list_elem_of_lookup_2 in Hk. pose proof (proj1 (Forall_forall _ _) Hm' k Hk) as (M1 & M2 & M3 & M4 & M5 & w & Hw & Aw).
  unfold kinfo. rewrite (data_refers _ _ _ Hw). cbv zeta. destruct Ha as (A1 & A2 & A3 & A4 & A5), Aw as (B1 & B2 & B3 & B4 & B5).
  rewrite M1, M3, M5, Hb. rewrite A1, A2, A3, A4, A5, B1, B2, B3, B4, B5. f_equal.
  rewrite M2. apply Forall_cons_1 in Hm' as [(_ & -> & _) _]. done.
Qed.

Lemma collect_groups st p gs : forall c rest, Forall wf_decl (p_probes p) -> i_prv c = p_name p -> Forall (group_ok mod_ st p) gs ->
  exists c', collect c (concat (group_msgs st <$> gs) ++ rest) = (kinfo st <$> concat (members <$> gs)) ++ collect c' rest.
Proof.
  induction gs as [|g gs IH]; intros c rest W Hc F; [by exists c|]. apply Forall_cons_1 in F as [Fg F]. cbn [fmap list_fmap concat].
  rewrite <- app_assoc. destruct (collect_group st p g c (concat (group_msgs st <$> gs) ++ rest) W Hc Fg) as (c1 & Hc1 & ->).
  destruct (IH c1 rest W Hc1 F) as (c2 & ->). exists c2. by rewrite fmap_app, app_assoc.
Qed.

Lemma collect_blocks ns st bs : forall c, Forall (wf_note ro) ns -> Forall (block_ok ns st) bs ->
  collect c (concat (block_msgs st <$> bs)) = kinfo st <$> concat (members <$> concat bs.*2).
Proof.
  intros c W F. revert c. induction F as [|[p gs] bs (Hp & _ & Fg) _ IH]; intros c; [done|]. cbn [fmap list_fmap concat block_msgs fst snd app collect].
  assert (Forall wf_decl (p_probes p)) as Wp.
  { cbn in Hp. unfold provs in Hp. apply list_elem_of_omap in Hp as (n & Hn1 & Hn2). destruct n; simplify_eq. rewrite Forall_forall in W. apply (wp_probes _ (W _ Hn1)). }
  destruct (collect_groups st p gs (Info (p_name p) [] [] [] 0 0 [] [] [] 0 0 []) (concat (block_msgs st <$> bs)) Wp eq_refl Fg) as (c' & ->).
  rewrite IH. by rewrite fmap_app, concat_app, fmap_app.
Qed.

(** ** dtprobed accepts the messages *)

Lemma read_tps_ok st l : forall j n rest, l <> [] -> n = j + len l ->
  read_tps j n ((Parsed <$> (tp_msg st <$> l)) ++ rest) = Some (Parsed <$> (tp_msg st <$> l), rest).
Proof.
  induction l as [|k l IH]; intros j n rest Hl ->; [done|]. cbn [fmap list_fmap app read_tps tp_msg]. destruct l as [|k' l].
  - rewrite (proj2 (Z.ltb_ge _ _)) by (cbn [length]; lia). done.
  - rewrite (proj2 (Z.ltb_lt _ _)) by (cbn [length]; lia). rewrite (IH (j + 1) (j + len (k :: k' :: l)) rest) by (done || cbn [length]; lia). done.
Qed.

Lemma read_args_ok st v l n rest : l <> [] -> n = len l ->
  read_tps 0 n ((Parsed <$> arg_msgs v ++ (tp_msg st <$> l)) ++ rest) = Some (Parsed <$> arg_msgs v ++ (tp_msg st <$> l), rest).
Proof.
  intros Hl Hn. assert ((0 <? n) = true) as H0 by (destruct l; [done|cbn [length] in Hn; lia]).
  pose proof (read_tps_ok st l 0 n rest Hl ltac:(lia)) as E. unfold arg_msgs.
  destruct (nargc v =? 0); [done|]. destruct (xargc v =? 0); cbn [app fmap list_fmap read_tps]; rewrite H0, ?E; done.
Qed.

Lemma read_probes_ok st p gs : forall rest, Forall (group_ok mod_ st p) gs ->
  read_probes (length gs) ((Parsed <$> concat (group_msgs st <$> gs)) ++ rest) = Some (Parsed <$> concat (group_msgs st <$> gs), rest).
Proof.
  induction gs as [|g gs IH]; intros rest F; [done|]. apply Forall_cons_1 in F as [(d & _ & _ & (v & Hv & Hn) & _) F].
  cbn [length fmap list_fmap concat]. unfold group_msgs at 1 3. rewrite (data_refers _ _ _ Hv). cbv zeta. cbn [app fmap list_fmap read_probes].
  rewrite fmap_app, <- app_assoc, read_args_ok by done. cbn [mbind option_bind]. rewrite IH by done. cbn [mbind option_bind]. by rewrite <- fmap_app.
Qed.

Lemma read_providers_ok ns st bs : forall fuel, Forall (block_ok ns st) bs -> (length bs < fuel)%nat ->
  read_providers fuel ((Parsed <$> concat (block_msgs st <$> bs)) ++ [DIT_EOF]) = Some ((Parsed <$> concat (block_msgs st <$> bs)) ++ [DIT_EOF]).
Proof.
  induction bs as [|[p gs] bs IH]; intros fuel F Hf; (destruct fuel as [|fuel]; [cbn in Hf; lia|]); [done|]. apply Forall_cons_1 in F as [(_ & _ & Fg) F].
  cbn [fmap list_fmap concat]. unfold block_msgs at 1 3. cbn [fst snd app fmap list_fmap read_providers]. rewrite Nat2Z.id.
  rewrite fmap_app, <- app_assoc, (read_probes_ok st p) by done. cbn [mbind option_bind]. rewrite IH by (done || cbn in Hf; lia). cbn [mbind option_bind]. done.
Qed.

Lemma blocks_length st (bs : list (pdecl * list group)) : (length bs <= length (concat (block_msgs st <$> bs)))%nat.
Proof. induction bs as [|b bs IH]; [done|]. cbn [length fmap list_fmap concat]. unfold block_msgs at 1. rewrite length_app. cbn [length]. lia. Qed.

(** ** The whole way *)

(** The allocations of a run. *)
Definition run_need ns : nat := 4 + notes_need ns + (1 + 2 * length (tps ns)) + (1 + 2 * length (provs ns) + 5 * length (tps ns)).

Lemma section_length ns : Forall (wf_note ro) ns -> (length ns <= length (section ns))%nat.
Proof.
  induction 1 as [|n ns W _ IH]; [done|]. unfold section in *. cbn [fmap list_fmap concat length]. rewrite length_app.
  pose proof (len_note_bytes ro n W). pose proof (ALIGN_bounds (len (ndesc n))). lia.
Qed.

Lemma kinfo_of ns ks st G bs k t : vinv chr mod_ ro ns ks st G [] -> Forall (block_ok ns st) bs -> concat (members <$> concat bs.*2) ≡ₚ ks -> k ∈ ks ->
  (exists i, k = tp_key mod_ ro i t) -> (exists v, refers st k v /\ tp_as v t) -> info_of ns t (kinfo st k).
Proof.
  intros V F HP Hk [i Hi] (v & Hv & T1 & T2 & T3). rewrite <- HP in Hk.
  apply list_elem_of_In, in_concat in Hk as (l & Hl & Hk). apply list_elem_of_In in Hl, Hk. apply list_elem_of_fmap in Hl as (g & -> & Hg).
  apply list_elem_of_In, in_concat in Hg as (gs & Hgs & Hg). apply list_elem_of_In in Hgs, Hg. apply list_elem_of_fmap in Hgs as ([p gs'] & -> & Hb).
  destruct (proj1 (Forall_forall _ _) F _ Hb) as (Hp & _ & Fg). cbn [fst snd] in *. destruct (proj1 (Forall_forall _ _) Fg g Hg) as (d & Hd & _ & _ & Hm).
  destruct (proj1 (Forall_forall _ _) Hm k Hk) as (M1 & M2 & M3 & M4 & M5 & w & Hw & A1 & A2 & A3 & A4 & A5). rewrite (refers_fun _ _ _ _ Hw Hv) in *.
  exists p, d. unfold kinfo. rewrite (data_refers _ _ _ Hv). cbv zeta. rewrite A1, A2, A3, A4, A5, T1, T3, M5, M2.
  rewrite Hi in M1, M5 |- *. cbn in M1, M5 |- *. split; [|done]. split_and!; done.
Qed.

(** C3: dtrace -G and the macros of sys/usdt_gennote.h write the notes of a program,
    in any order: each provider declared once, with probes of different names and
    fewer than 256 arguments, names without NUL bytes, a provider's name of at most
    53 bytes, at least one probe per provider and translated arguments only of a
    probe with native ones; fewer than 2^32 tracepoints, each of a declared probe
    and with its number of arguments (an is-enabled one may have 1), no two with the
    same provider, function, probe and address, the function's name in the read-only
    data, and addresses between 1 and 2^32 - 1; notes whose sizes fit their 32-bit
    fields (version and utsname notes below 2^31 bytes, the latter not empty). With
    memory, usdt_parse_notes() parses a section of at least one such note without an
    error or an access outside the section, however its hash tables are laid out.
    The loops of process_dof() in dtprobed read its messages to the DIT_EOF after
    them and keep all of them for the stash (what the stash does with them is not
    part of this). The messages describe every tracepoint of the program exactly
    once, with its provider, module, function and probe (with hyphens for "__"), the
    types of the native and translated arguments and their map as declared, its
    address, whether it is an is-enabled tracepoint, and the sources of its
    arguments. *)
Theorem usdt_notes_roundtrip ns b m : wf_notes ro ns -> ns <> [] -> plenty m (run_need ns) ->
  exists s infos, usdt_parse_notes chr mod_ addr [UsdtData b (len (section ns)) (section ns); ro] (Dst [] [] m) = Done tt s /\
    read_parsed ((Parsed <$> out s) ++ [DIT_EOF]) = Some ((Parsed <$> out s) ++ [DIT_EOF]) /\
    collect no_info (out s) ≡ₚ infos /\ Forall2 (info_of ns) (tps ns) infos.
Proof.
  intros W Hne P. destruct ns as [|n rest] eqn:Ens; [done|]. rewrite <- Ens in *. unfold run_need in P. rewrite <- !Nat.add_assoc in P.
  unfold usdt_parse_notes. cbn [buf size head out mem].
  destruct (htab_create_ok prv_ops (section ns) [] m _ P) as (tv & m1 & E1 & U1 & P1). run_with E1.
  destruct (htab_create_ok prb_ops (section ns) [] m1 _ P1) as (tb & m2 & E2 & U2 & P2). run_with E2.
  assert (pinv chr mod_ ro [] (Nst (Some tv) (Some tb) [] [])) as I0.
  { split; cbn; [by exists tv|constructor|]. exists tb, []. split_and!; [done|done|constructor]. }
  destruct (parse_loop_ok chr mod_ ro rest [] n (S (length (section ns))) (Nst (Some tv) (Some tb) [] []) [] [] m2
    (1 + (2 * length (tps ns) + (1 + (2 * length (provs ns) + 5 * length (tps ns)))))) as (st & im & m3 & E3 & I & P3).
  - cbn [app]. by rewrite <- Ens.
  - exact I0.
  - by exists 0.
  - rewrite <- Ens. exact P2.
  - pose proof (section_length ns (wn_notes _ _ W)) as H. rewrite Ens in H at 1. cbn [length] in H. lia.
  - rewrite <- Ens in *. cbn [app length Z.of_nat] in E3, I. run_with E3. replace (1 + (2 * length (tps ns) + (1 + (2 * length (provs ns) + 5 * length (tps ns)))))%nat
      with (1 + 2 * length (tps ns) + (1 + 2 * length (provs ns) + 5 * length (tps ns)))%nat in P3 by lia.
    destruct (validate_loop_ok chr mod_ ro ns st im [] m3 _ W I P3) as (ks & st' & G & m4 & E4 & V & P4). run_with E4.
    destruct (emit_providers_ok ns ks st' G im [] m4 0 V) as (bs & m5 & E5 & HK & FB & _); [by rewrite Nat.add_0_r|]. rewrite E5.
    eexists _, (kinfo st' <$> ks). split; [reflexivity|]. cbn [out app]. split_and!.
    + unfold read_parsed. apply (read_providers_ok ns); [done|]. rewrite length_app, length_fmap. pose proof (blocks_length st' bs). lia.
    + rewrite (collect_blocks ns) by (done || apply (wn_notes _ _ W)). by rewrite HK.
    + apply Forall2_fmap_r. apply Forall2_flip. pose proof (vi_tps _ _ _ _ _ _ _ _ V) as F.
      apply Forall2_same_length_lookup_2; [by eapply Forall2_length|]. intros i k t Hk Ht.
      destruct (Forall2_lookup_lr _ _ _ _ _ _ F Hk Ht) as [H1 H2]. eapply kinfo_of; try done. by eapply list_elem_of_lookup_2.
Qed.
End Round.

(** ** Examples *)

Module AppProgram.
Definition attr : attribute := Attribute 5 5 5.
Definition int_ : list Z := [105; 110; 116].
(** provider app { probe go(int); probe my__p(int, int) : (int x, int y) swapped; }; *)
Definition go : decl := Decl [103; 111] [int_] [].
Definition my_p : decl := Decl [109; 121; 45; 112] [int_; int_] [(int_, 1); (int_, 0)].
Definition app : pdecl := PDecl [97; 112; 112] attr attr attr attr attr [go; my_p].
(** .rodata: the names of two functions *)
Definition rodata : usdt_data := UsdtData 8192 5 [102; 0; 103; 49; 0].
Definition tp_go (a : Z) : tracepoint := Tracepoint a 8192 [97; 112; 112] [103; 111] 1 1 [52; 64].
Definition tp_my (a : Z) : tracepoint := Tracepoint a 8194 [97; 112; 112] [109; 121; 95; 95; 112] 1 2 [52; 64; 32; 56; 64].
Definition tp_en (a : Z) : tracepoint := Tracepoint a 8194 [97; 112; 112] [109; 121; 95; 95; 112] 2 1 [56; 64].
Definition program : list note := [NTp (tp_go 4096); NProv app; NVer [50]; NTp (tp_my 4112); NTp (tp_go 4128); NTp (tp_en 4100); NUts [76; 105]].

Lemma wf_app : wf_pdecl app.
Proof.
  split; try done.
  - by repeat constructor.
  - repeat constructor; cbn; try lia; done.
  - apply (bool_decide_unpack _). by vm_compute.
Qed.

Lemma wf_tps t : t ∈ [tp_go 4096; tp_my 4112; tp_go 4128; tp_en 4100] -> wf_tp rodata t /\ (tp_typ t = _USDT_TP_NOTE_TYPE \/ tp_typ t = _USDT_EN_NOTE_TYPE).
Proof.
  rewrite !elem_of_cons, elem_of_nil. intros [->|[->|[->|[->|[]]]]]; (split; [|by (left + right)]);
    (split; [cbn; lia|by repeat constructor|split; repeat constructor; done|by repeat constructor|cbn; lia|
      apply (bool_decide_unpack _); by vm_compute|by vm_compute]).
Qed.

Lemma wf_program : wf_notes rodata program.
Proof.
  assert (forall t, t ∈ tps program -> t ∈ [tp_go 4096; tp_my 4112; tp_go 4128; tp_en 4100]) as Ht by done. split.
  - done.
  - repeat apply List.Forall_cons; try apply List.Forall_nil; try exact wf_app; try (cbn; lia); apply wf_tps; rewrite !elem_of_cons; tauto.
  - apply (bool_decide_unpack _). by vm_compute.
  - apply (bool_decide_unpack _). by vm_compute.
  - intros t H%Ht. rewrite !elem_of_cons, elem_of_nil in H. destruct H as [->|[->|[->|[->|[]]]]].
    + exists app, go. split; [|by left]. split_and!; try done; left.
    + exists app, my_p. split; [|by left]. split_and!; try done; [left|right; left].
    + exists app, go. split; [|by left]. split_and!; try done; left.
    + exists app, my_p. split; [|by right]. split_and!; try done; [left|right; left].
  - by vm_compute.
Qed.

Definition run (ns : list note) : res unit :=
  usdt_parse_notes char_unsigned [109] 65536 [UsdtData 0 (len (section ns)) (section ns); rodata] (Dst [] [] (replicate 2000 true)).

Lemma usdt_notes_roundtrip_witness : exists s infos, run program = Done tt s /\
  read_parsed ((Parsed <$> out s) ++ [DIT_EOF]) = Some ((Parsed <$> out s) ++ [DIT_EOF]) /\
  collect no_info (out s) ≡ₚ infos /\ Forall2 (info_of [109] 65536 rodata program) (tps program) infos.
Proof.
  apply (usdt_notes_roundtrip char_unsigned [109] 65536 rodata program 0 (replicate 2000 true) wf_program); [done|].
  exists (replicate (2000 - run_need program) true). vm_compute. reflexivity.
Defined.

Example program_messages : exists s, run program = Done tt s /\ out s =
  [DIT_PROVIDER 2 [97; 112; 112];
   DIT_PROBE 2 1 0 [109] [102] [103; 111]; DIT_ARGS_NATIVE [105; 110; 116; 0];
   DIT_TRACEPOINT_ARGS 69664 0 [52; 64]; DIT_TRACEPOINT_ARGS 69632 0 [52; 64];
   DIT_PROBE 2 2 2 [109] [103; 49] [109; 121; 45; 112]; DIT_ARGS_NATIVE [105; 110; 116; 0; 105; 110; 116; 0];
   DIT_ARGS_XLAT [105; 110; 116; 0; 105; 110; 116; 0]; DIT_ARGS_MAP [1; 0];
   DIT_TRACEPOINT_ARGS 69636 1 [56; 64]; DIT_TRACEPOINT_ARGS 69648 0 [52; 64; 32; 56; 64]].
Proof. eexists. split; [vm_compute; reflexivity|]. reflexivity. Qed.

(** The hash of a probe takes its offset in, but the parser looks for a probe with the offset
    0: in a table of 32 slots or more it may not find the one it has.  A provider of 40 probes
    and four tracepoints of one of them, all in the same function: the probe is written twice,
    with one and with three tracepoints. *)
Definition many : pdecl := PDecl [97; 98] attr attr attr attr attr ((λ n, Decl [112; 33 + Z.of_nat n] [] []) <$> seq 0 40).
Definition tp0 (a : Z) : tracepoint := Tracepoint a 8192 [97; 98] [112; 48] 1 0 [].
Example probe_written_twice : exists s, run [NProv many; NTp (tp0 4198400); NTp (tp0 4198500); NTp (tp0 4202600); NTp (tp0 4198416)] = Done tt s /\
  omap (λ x, match x with DIT_PROBE n _ _ mo fu pr => Some (n, mo, fu, pr) | _ => None end) (out s) =
  [(1, [109], [102], [112; 48]); (3, [109], [102], [112; 48])].
Proof. eexists. split; [vm_compute; reflexivity|]. reflexivity. Qed.

(** An address keeps 32 bits. *)
Example address_truncated : exists s, run [NProv app; NTp (tp_go (2 ^ 32 + 4096))] = Done tt s /\ i_addr <$> collect no_info (out s) = [65536 + 4096].
Proof. eexists. split; [vm_compute; reflexivity|]. reflexivity. Qed.

(** Without memory for an iterator the loops end as if the tables were empty: no error, and no probes. *)
Example probes_lost : exists s,
  usdt_parse_notes char_unsigned [109] 65536 [UsdtData 0 (len (section program)) (section program); rodata]
    (Dst [] [] (replicate (4 + notes_need program - 2) true ++ [false; false])) = Done tt s /\ out s = [].
Proof. eexists. split; [vm_compute; reflexivity|]. reflexivity. Qed.

(** Notes that are not what the tools write: the section ends with a type's name, and the
    number of translated arguments is read behind it; and a provider's name that does not end. *)
Definition raw (desc : list Z) : list Z := note_header prov_name (len desc) 1 ++ desc.
Definition run_raw (l : list Z) : res unit := usdt_parse_notes char_unsigned [109] 0 [UsdtData 0 (len l) l; rodata] (Dst [] [] (replicate 100 true)).
Example read_behind_note :
  run_raw (raw ([97; 0; 0; 0] ++ replicate 20 0 ++ le_bytes 4 1 ++ [112; 0; 1; 120; 120; 120; 120; 0])) = Oob /\ run_raw (raw (replicate 32 97)) = Oob.
Proof. by vm_compute. Qed.

(** dtrace -G: when there is no memory for the second probe the note still announces two. *)
Example probes_missing : exists u m, note_add_provider (link_prov app) (UsdtElf 0 0 []) [true; true; true; false] = Some (Ok u, m) /\
  section_bytes (u_data u) = note_header prov_name 40 1 ++ prov_desc_head (link_prov app) 2 ++ padded4 (decl_body go).
Proof. eexists _, _. split; [vm_compute; reflexivity|]. vm_compute. reflexivity. Qed.
End AppProgram.
