(* ===== verification/Printf.v ===== *)
(** * printf() formats (libdtrace/dt_printf.c): the conversion dictionary, reading a
    format string, and writing it again

    A format string is split into argument descriptors ([dt_pfargd_t]): the text before
    a conversion, its flags, width and precision, and the conversion, which is looked up
    by name in a dictionary.  [dtrace_printf_format()] writes the descriptors back as a
    format string, for programs saved as DOF.  What is printed with the descriptors is
    in the file PrintfType.

    The theorems: reading the string that was written gives the descriptors again,
    where no precision is dynamic; and the buffer it is written to is large enough for
    the formats of [dtrace_printf_create()]. *)

From Stdlib Require Import String Ascii.
From stdpp Require Import base list numbers option sets.
From S2P Require Import Prelude Str Htab.

(** The bytes of a string literal. *)
Definition lit (s : string) : bytes := (λ a, Z.of_N (N_of_ascii a)) <$> list_ascii_of_string s.

(** ** The conversions *)

(** The functions of [pfc_check] and [pfc_print], by name. *)
Inductive dt_pfcheck_f :=
  | pfcheck_addr | pfcheck_kaddr | pfcheck_uaddr | pfcheck_stack | pfcheck_time
  | pfcheck_str | pfcheck_wstr | pfcheck_csi | pfcheck_fp | pfcheck_xint | pfcheck_dint
  | pfcheck_xshort | pfcheck_xlong | pfcheck_xlonglong | pfcheck_type.

Inductive dt_pfprint_f :=
  | pfprint_sint | pfprint_uint | pfprint_dint | pfprint_fp | pfprint_addr | pfprint_mod
  | pfprint_umod | pfprint_uaddr | pfprint_stack | pfprint_time | pfprint_time822
  | pfprint_cstr | pfprint_wstr | pfprint_estr | pfprint_echr | pfprint_pct
  | pfprint_average | pfprint_stddev | pfprint_quantize | pfprint_lquantize
  | pfprint_llquantize.

#[export] Instance dt_pfcheck_f_eq : EqDecision dt_pfcheck_f.
Proof. solve_decision. Defined.
#[export] Instance dt_pfprint_f_eq : EqDecision dt_pfprint_f.
Proof. solve_decision. Defined.

(** A type: the CTF container and the id in it. *)
Record ctf_type := CtfType { ct_fp : Z; ct_id : Z }.
#[export] Instance ctf_type_eq : EqDecision ctf_type.
Proof. solve_decision. Defined.
Abbreviation CTF_ERR := (-1).

Record dt_pfconv := PfConv {
  pfc_name : bytes;
  pfc_ofmt : bytes;
  pfc_tstr : bytes;
  pfc_check : dt_pfcheck_f;
  pfc_print : dt_pfprint_f;
  pfc_c : ctf_type;        (* pfc_cctfp, pfc_ctype *)
  pfc_d : ctf_type;        (* pfc_dctfp, pfc_dtype *)
}.
#[export] Instance dt_pfconv_eq : EqDecision dt_pfconv.
Proof. solve_decision. Defined.

Definition no_type : ctf_type := CtfType 0 CTF_ERR.

Definition pfproto_xint := lit "char, short, int, long, or long long".
Definition pfproto_csi := lit "char, short, or int".
Definition pfproto_fp := lit "float, double, or long double".
Definition pfproto_addr := lit "pointer or integer".
Definition pfproto_uaddr := lit "pointer or integer (with -p/-c) or _usymaddr (without -p/-c)".
Definition pfproto_cstr := lit "char [] or string (or use stringof)".
Definition pfproto_wstr := lit "wchar_t []".

Definition conv (name ofmt : string) (tstr : bytes) ck pr : dt_pfconv :=
  PfConv (lit name) (lit ofmt) tstr ck pr no_type no_type.

Definition _dtrace_conversions : list dt_pfconv := [
  conv "a" "s" pfproto_addr pfcheck_kaddr pfprint_addr;
  conv "A" "s" pfproto_uaddr pfcheck_uaddr pfprint_uaddr;
  conv "c" "c" pfproto_csi pfcheck_csi pfprint_sint;
  conv "C" "s" pfproto_csi pfcheck_csi pfprint_echr;
  conv "d" "d" pfproto_xint pfcheck_dint pfprint_dint;
  conv "e" "e" pfproto_fp pfcheck_fp pfprint_fp;
  conv "E" "E" pfproto_fp pfcheck_fp pfprint_fp;
  conv "f" "f" pfproto_fp pfcheck_fp pfprint_fp;
  conv "g" "g" pfproto_fp pfcheck_fp pfprint_fp;
  conv "G" "G" pfproto_fp pfcheck_fp pfprint_fp;
  conv "hd" "d" (lit "short") pfcheck_type pfprint_sint;
  conv "hi" "i" (lit "short") pfcheck_type pfprint_sint;
  conv "ho" "o" (lit "unsigned short") pfcheck_type pfprint_uint;
  conv "hu" "u" (lit "unsigned short") pfcheck_type pfprint_uint;
  conv "hx" "x" (lit "short") pfcheck_xshort pfprint_uint;
  conv "hX" "X" (lit "short") pfcheck_xshort pfprint_uint;
  conv "i" "i" pfproto_xint pfcheck_dint pfprint_dint;
  conv "k" "s" (lit "dt_stack_t") pfcheck_stack pfprint_stack;
  conv "lc" "lc" (lit "int") pfcheck_type pfprint_sint;
  conv "ld" "d" (lit "long") pfcheck_type pfprint_sint;
  conv "li" "i" (lit "long") pfcheck_type pfprint_sint;
  conv "lo" "o" (lit "unsigned long") pfcheck_type pfprint_uint;
  conv "lu" "u" (lit "unsigned long") pfcheck_type pfprint_uint;
  conv "ls" "ls" pfproto_wstr pfcheck_wstr pfprint_wstr;
  conv "lx" "x" (lit "long") pfcheck_xlong pfprint_uint;
  conv "lX" "X" (lit "long") pfcheck_xlong pfprint_uint;
  conv "lld" "d" (lit "long long") pfcheck_type pfprint_sint;
  conv "lli" "i" (lit "long long") pfcheck_type pfprint_sint;
  conv "llo" "o" (lit "unsigned long long") pfcheck_type pfprint_uint;
  conv "llu" "u" (lit "unsigned long long") pfcheck_type pfprint_uint;
  conv "llx" "x" (lit "long long") pfcheck_xlonglong pfprint_uint;
  conv "llX" "X" (lit "long long") pfcheck_xlonglong pfprint_uint;
  conv "Le" "e" (lit "long double") pfcheck_type pfprint_fp;
  conv "LE" "E" (lit "long double") pfcheck_type pfprint_fp;
  conv "Lf" "f" (lit "long double") pfcheck_type pfprint_fp;
  conv "Lg" "g" (lit "long double") pfcheck_type pfprint_fp;
  conv "LG" "G" (lit "long double") pfcheck_type pfprint_fp;
  conv "o" "o" pfproto_xint pfcheck_xint pfprint_uint;
  conv "p" "x" pfproto_addr pfcheck_addr pfprint_uint;
  conv "s" "s" (lit "char [] or string (or use stringof)") pfcheck_str pfprint_cstr;
  conv "S" "s" pfproto_cstr pfcheck_str pfprint_estr;
  conv "T" "s" (lit "int64_t") pfcheck_time pfprint_time822;
  conv "u" "u" pfproto_xint pfcheck_xint pfprint_uint;
  conv "wc" "wc" (lit "int") pfcheck_type pfprint_sint;
  conv "ws" "ws" pfproto_wstr pfcheck_wstr pfprint_wstr;
  conv "x" "x" pfproto_xint pfcheck_xint pfprint_uint;
  conv "X" "X" pfproto_xint pfcheck_xint pfprint_uint;
  conv "Y" "s" (lit "int64_t") pfcheck_time pfprint_time;
  conv "%" "%" (lit "void") pfcheck_type pfprint_pct
].

(** ** The dictionary *)

Inductive pf_error := EDT_NOMEM | EDT_NOCONV | EDT_COMPILER | no_fuel.

Abbreviation dt_pfdict := (list (list dt_pfconv)).
Definition _dtrace_strbuckets : nat := 211.

(** Where a type is looked up: DTRACE_OBJ_DDEFS or DTRACE_OBJ_CDEFS. *)
Inductive type_obj := DDEFS | CDEFS.

Section Dictionary.
(** How a [char] is read as an integer, and what [dtrace_lookup_by_type()] finds. *)
Context (chr : Z -> Z) (dtrace_lookup_by_type : type_obj -> bytes -> option ctf_type).

Definition pf_bucket (n : nat) (name : bytes) : nat :=
  Z.to_nat (str2hval chr name 0 `mod` Z.of_nat n).

(** The types of a conversion that is checked by type. *)
Definition pf_types (pfc : dt_pfconv) : result pf_error dt_pfconv :=
  if decide (pfc_check pfc = pfcheck_type) then
    match dtrace_lookup_by_type DDEFS (pfc_tstr pfc) with
    | None => Err EDT_NOCONV
    | Some d =>
        let c := default d (dtrace_lookup_by_type CDEFS (pfc_tstr pfc)) in
        Ok (PfConv (pfc_name pfc) (pfc_ofmt pfc) (pfc_tstr pfc) (pfc_check pfc) (pfc_print pfc) c d)
    end
  else Ok (PfConv (pfc_name pfc) (pfc_ofmt pfc) (pfc_tstr pfc) (pfc_check pfc) (pfc_print pfc) no_type no_type).

(** The loop over the table.  No entry of the table has a NULL member, so EDT_BADCONV
    is never set. *)
Fixpoint pfdict_fill (m : allocs) (pdi : dt_pfdict) (l : list dt_pfconv) : result pf_error (dt_pfdict * allocs) :=
  match l with
  | [] => Ok (pdi, m)
  | pfd :: l =>
      let '(ok, m) := malloc m in
      if ok then
        pfc ← pf_types pfd;
        let h := pf_bucket (length pdi) (pfc_name pfc) in
        pfdict_fill m (alter (cons pfc) h pdi) l
      else Err EDT_NOMEM
  end.

Definition dt_pfdict_create (m : allocs) : result pf_error (dt_pfdict * allocs) :=
  let '(ok1, m) := malloc m in
  if ok1 then
    let '(ok2, m) := malloc m in
    if ok2 then pfdict_fill m (replicate _dtrace_strbuckets []) _dtrace_conversions
    else Err EDT_NOMEM
  else Err EDT_NOMEM.

Fixpoint pf_find (name : bytes) (l : list dt_pfconv) : option dt_pfconv :=
  match l with
  | [] => None
  | pfc :: l => if strcmp (pfc_name pfc) name =? 0 then Some pfc else pf_find name l
  end.

Definition dt_pfdict_lookup (pdi : dt_pfdict) (name : bytes) : option dt_pfconv :=
  pdi !! pf_bucket (length pdi) name ≫= pf_find name.

End Dictionary.

(** ** Descriptors *)

Abbreviation DT_PFCONV_ALT := 1.
Abbreviation DT_PFCONV_ZPAD := 2.
Abbreviation DT_PFCONV_LEFT := 4.
Abbreviation DT_PFCONV_SPOS := 8.
Abbreviation DT_PFCONV_DYNWIDTH := 16.
Abbreviation DT_PFCONV_DYNPREC := 32.
Abbreviation DT_PFCONV_GROUP := 64.
Abbreviation DT_PFCONV_SPACE := 128.
Abbreviation DT_PFCONV_AGG := 256.
Abbreviation DT_PFCONV_SIGNED := 512.

Abbreviation DT_PRINTF_EXACTLEN := 1.
Abbreviation DT_PRINTF_AGGREGATION := 2.

(** [pfd_preflen] is the length of [pfd_prefix]; the text is NUL-terminated in
    [pfd_fmt]. *)
Record dt_pfargd := PfArgd {
  pfd_prefix : bytes;
  pfd_fmt : bytes;
  pfd_flags : Z;
  pfd_width : Z;
  pfd_dynwidth : Z;
  pfd_prec : Z;
  pfd_conv : option dt_pfconv;
}.
#[export] Instance dt_pfargd_eq : EqDecision dt_pfargd.
Proof. solve_decision. Defined.

(** [pfv_argc] is the length of [pfv_argv]. *)
Record dt_pfargv := PfArgv {
  pfv_format : bytes;
  pfv_argv : list dt_pfargd;
  pfv_flags : Z;
}.

Definition set_fmt (pfd : dt_pfargd) (fmt : bytes) : dt_pfargd :=
  PfArgd (pfd_prefix pfd) fmt (pfd_flags pfd) (pfd_width pfd) (pfd_dynwidth pfd) (pfd_prec pfd) (pfd_conv pfd).
Definition set_flags (pfd : dt_pfargd) (flags : Z) : dt_pfargd :=
  PfArgd (pfd_prefix pfd) (pfd_fmt pfd) flags (pfd_width pfd) (pfd_dynwidth pfd) (pfd_prec pfd) (pfd_conv pfd).
Definition set_dynwidth (pfd : dt_pfargd) (w : Z) : dt_pfargd :=
  PfArgd (pfd_prefix pfd) (pfd_fmt pfd) (pfd_flags pfd) (pfd_width pfd) w (pfd_prec pfd) (pfd_conv pfd).

(** ** Reading a format string *)

Definition isdigit (c : Z) : bool := (48 <=? c) && (c <=? 57).

(** The local variables of the scan of a conversion, with the flags, the width and the
    precision of its descriptor. *)
Record scan := Scan {
  sc_flags : Z;
  sc_width : Z;
  sc_prec : Z;
  sc_digits : Z;
  sc_dot : Z;
  sc_name : bytes;
}.
Definition scan0 : scan := Scan 0 0 0 0 0 [].

Definition or_flag (st : scan) (f : Z) : scan :=
  Scan (Z.lor (sc_flags st) f) (sc_width st) (sc_prec st) (sc_digits st) (sc_dot st) (sc_name st).
Definition clear_flag (st : scan) (f : Z) : scan :=
  Scan (Z.land (sc_flags st) (Z.lnot f)) (sc_width st) (sc_prec st) (sc_digits st) (sc_dot st) (sc_name st).
Definition set_width (st : scan) (n : Z) : scan :=
  Scan (sc_flags st) n (sc_prec st) (sc_digits st) (sc_dot st) (sc_name st).
Definition set_prec (st : scan) (n : Z) : scan :=
  Scan (sc_flags st) (sc_width st) n (sc_digits st) (sc_dot st) (sc_name st).
Definition set_digits (st : scan) (n : Z) : scan :=
  Scan (sc_flags st) (sc_width st) (sc_prec st) n (sc_dot st) (sc_name st).
Definition set_dot (st : scan) (n : Z) : scan :=
  Scan (sc_flags st) (sc_width st) (sc_prec st) (sc_digits st) n (sc_name st).
Definition add_name (st : scan) (c : Z) : scan :=
  Scan (sc_flags st) (sc_width st) (sc_prec st) (sc_digits st) (sc_dot st) (sc_name st ++ [c]).

(** The value of the digits at [p], in an int, and what follows them. *)
Fixpoint scan_number (n : Z) (p : bytes) : Z * bytes :=
  match p with
  | c :: p' => if isdigit c then scan_number (s32 (n * 10 + c - 48)) p' else (n, p)
  | [] => (n, [])
  end.

(** The cases that set a flag. *)
Definition flag_case (c : Z) (st : scan) : option scan :=
  if c =? 35 (* # *) then Some (or_flag st DT_PFCONV_ALT)
  else if c =? 43 (* + *) then Some (or_flag st DT_PFCONV_SPOS)
  else if c =? 45 (* - *) then Some (clear_flag (or_flag st DT_PFCONV_LEFT) DT_PFCONV_ZPAD)
  else if c =? 64 (* @ *) then Some (or_flag st DT_PFCONV_AGG)
  else if c =? 39 (* ' *) then Some (or_flag st DT_PFCONV_GROUP)
  else if c =? 32 (* space *) then Some (or_flag st DT_PFCONV_SPACE)
  else None.

Section Create.
(** Is the data model LP64? *)
Context (lp64 : bool).

(** From [fmt_switch], with [p] the bytes from [p[1]] on, and [prev] the byte [p[0]].
    The result has the name of the conversion and what follows it. *)
Fixpoint fmt_switch (fuel : nat) (prev : Z) (p : bytes) (st : scan) : result pf_error (scan * bytes) :=
  match fuel with
  | O => Err no_fuel
  | S fuel =>
      match p with
      | [] => Err EDT_COMPILER
      | c :: p' =>
          if isdigit c then
            if (sc_dot st =? 0) && (sc_digits st =? 0) && (c =? 48) then
              fmt_switch fuel c p' (clear_flag (or_flag st DT_PFCONV_ZPAD) DT_PFCONV_LEFT)
            else
              (* the last byte read is a digit, as [c] is *)
              let '(n, p') := scan_number 0 p in
              let st := if negb (sc_dot st =? 0) then set_prec st n else set_width st n in
              fmt_switch fuel c p' (set_digits st (sc_digits st + 1))
          else if c =? 42 (* * *) then
            let n := if negb (sc_dot st =? 0) then DT_PFCONV_DYNPREC else DT_PFCONV_DYNWIDTH in
            if flag (sc_flags st) n then Err EDT_COMPILER
            else fmt_switch fuel c p' (or_flag st n)
          else if c =? 46 (* . *) then
            if negb (sc_dot st =? 0) then Err EDT_COMPILER
            else fmt_switch fuel c p' (set_digits (set_dot st 1) 0)
          else if c =? 63 (* ? *) then
            fmt_switch fuel c p' (set_width st (if lp64 then 16 else 8))
          else if c =? 36 (* $ *) then Err EDT_COMPILER
          else if (c =? 37) (* % *) && negb (prev =? 37) then Err EDT_COMPILER
          else if (c =? 104) || (c =? 108) || (c =? 76) || (c =? 119) (* h l L w *) then
            fmt_switch fuel c p' (if Z.of_nat (length (sc_name st)) <? 6 then add_name st c else st)
          else
            match flag_case c st with
            | Some st => fmt_switch fuel c p' st
            | None => Ok (add_name st c, p')
            end
      end
  end.

(** strchr(q, '%'): what precedes it, and what follows it. *)
Fixpoint strchr_pct (q : bytes) : option (bytes * bytes) :=
  match q with
  | [] => None
  | c :: q => if c =? 37 then Some ([], q) else prod_map (cons c) id <$> strchr_pct q
  end.

(** The descriptor of a conversion. *)
Definition scanned (pre : bytes) (st : scan) (pfc : dt_pfconv) : dt_pfargd :=
  PfArgd pre [] (sc_flags st) (sc_width st) 0 (sc_prec st) (Some pfc).

Context (lookup : bytes -> option dt_pfconv).

(** The loop, and what follows it.  [format] is the whole string, and [q] the rest. *)
Fixpoint create_loop (fuel : nat) (m : allocs) (format q : bytes) : result pf_error (list dt_pfargd * allocs) :=
  match fuel with
  | O => Err no_fuel
  | S fuel =>
      match strchr_pct q with
      | Some (pre, p) =>
          let '(ok, m) := malloc m in
          if ok then
            '(st, q) ← fmt_switch (S (length p)) 37 p scan0;
            pfc ← of_option EDT_COMPILER (lookup (sc_name st));
            '(l, m) ← create_loop fuel m format q;
            Ok (scanned pre st pfc :: l, m)
          else Err EDT_NOMEM
      | None =>
          if bool_decide (q <> [] \/ format = []) then
            let '(ok, m) := malloc m in
            if ok then Ok ([PfArgd q [] 0 0 0 0 None], m) else Err EDT_NOMEM
          else Ok ([], m)
      end
  end.

Definition dt_printf_create (m : allocs) (s : bytes) : result pf_error (dt_pfargv * allocs) :=
  let '(ok1, m) := malloc m in
  if ok1 then
    let '(ok2, m) := malloc m in
    if ok2 then
      '(argv, m) ← create_loop (S (length s)) m s s;
      Ok (PfArgv s argv 0, m)
    else Err EDT_NOMEM
  else Err EDT_NOMEM.

(** The format that [dtrace_printf_create()] gives a descriptor. *)
Definition full_fmt (pfd : dt_pfargd) : dt_pfargd :=
  match pfd_conv pfd with
  | None => pfd
  | Some pfc =>
      if negb (strcmp (pfc_ofmt pfc) (lit "s") =? 0) then set_fmt pfd (pfd_fmt pfd ++ pfc_name pfc)
      else set_fmt pfd (pfd_fmt pfd ++ pfc_ofmt pfc)
  end.

Definition dtrace_printf_create (m : allocs) (s : bytes) : result pf_error (dt_pfargv * allocs) :=
  '(pfv, m) ← dt_printf_create m s;
  Ok (PfArgv (pfv_format pfv) (full_fmt <$> pfv_argv pfv) (pfv_flags pfv), m).

Definition dtrace_printa_create (m : allocs) (s : bytes) : result pf_error (dt_pfargv * allocs) :=
  '(pfv, m) ← dtrace_printf_create m s;
  Ok (PfArgv (pfv_format pfv) (pfv_argv pfv) (Z.lor (pfv_flags pfv) DT_PRINTF_AGGREGATION), m).

End Create.

(** ** Writing a format string *)

(** The decimal digits of [n]: at most [k] of them. *)
Fixpoint digits (k : nat) (n : Z) : bytes :=
  match k with
  | O => []
  | S k => (if n <? 10 then [] else digits k (n / 10)) ++ [48 + n `mod` 10]
  end.

(** snprintf("%d") of an int. *)
Definition snprintf_d (n : Z) : bytes := if n <? 0 then 45 :: digits 10 (- n) else digits 10 n.

Definition if_flag (flags f : Z) (s : bytes) : bytes := if flag flags f then s else [].

(** What is written of a descriptor that has a conversion, after its prefix. *)
Definition pickle_conv (pfd : dt_pfargd) (pfc : dt_pfconv) : bytes :=
  let flags := pfd_flags pfd in
  [37] ++
  if_flag flags DT_PFCONV_ALT (lit "#") ++
  if_flag flags DT_PFCONV_ZPAD (lit "0") ++
  if_flag flags DT_PFCONV_LEFT (lit "-") ++
  if_flag flags DT_PFCONV_SPOS (lit "+") ++
  if_flag flags DT_PFCONV_DYNWIDTH (lit "*") ++
  if_flag flags DT_PFCONV_DYNPREC (lit ".*") ++
  if_flag flags DT_PFCONV_GROUP (lit "'") ++
  if_flag flags DT_PFCONV_SPACE (lit " ") ++
  if_flag flags DT_PFCONV_AGG (lit "@") ++
  (if negb (pfd_width pfd =? 0) then snprintf_d (pfd_width pfd) else []) ++
  (if negb (pfd_prec pfd =? 0) then 46 :: snprintf_d (pfd_prec pfd) else []) ++
  (if strcmp (pfc_ofmt pfc) (lit "s") =? 0 then pfc_name pfc else pfd_fmt pfd).

Definition pickle_argd (pfd : dt_pfargd) : bytes :=
  pfd_prefix pfd ++ match pfd_conv pfd with None => [] | Some pfc => pickle_conv pfd pfc end.

(** The loop, were there no end to the buffer. *)
Definition pickle (argv : list dt_pfargd) : bytes := concat (pickle_argd <$> argv).

(** The size of the buffer. *)
Definition formatlen (pfv : dt_pfargv) : nat := (length (pfv_format pfv) + 3 * length (pfv_argv pfv) + 1)%nat.

(** strncpy(): at most [len] bytes, the rest filled with NULs. *)
Definition strncpy (src : bytes) (len : nat) : bytes := take len src ++ replicate (len - length src) 0.

(** What is stored in the [len] bytes at [s], and the result.  [None] when the string
    is too long for the buffer: bytes are stored past its end or the assertion fails. *)
Definition dtrace_printf_format (pfv : dt_pfargv) (len : nat) : option (bytes * nat) :=
  let f := pickle (pfv_argv pfv) in
  if (length f <? formatlen pfv)%nat then Some (strncpy f len, length f) else None.

(** ** The scan of a conversion *)

(** The bytes that end the scan: those with no case of their own, and %. *)
Definition is_mod (c : Z) : bool := (c =? 104) || (c =? 108) || (c =? 76) || (c =? 119).
Definition plain (c : Z) : bool :=
  negb (isdigit c || (c =? 42) || (c =? 46) || (c =? 63) || (c =? 36) || is_mod c ||
        (c =? 35) || (c =? 43) || (c =? 45) || (c =? 64) || (c =? 39) || (c =? 32)).

(** Some of the cases that go on with the next byte: one byte and the state are enough. *)
Definition flag_step (c : Z) (st : scan) : option scan :=
  if c =? 48 then
    if (sc_dot st =? 0) && (sc_digits st =? 0) then
      Some (clear_flag (or_flag st DT_PFCONV_ZPAD) DT_PFCONV_LEFT)
    else None
  else if c =? 42 then
    let n := if negb (sc_dot st =? 0) then DT_PFCONV_DYNPREC else DT_PFCONV_DYNWIDTH in
    if flag (sc_flags st) n then None else Some (or_flag st n)
  else if c =? 46 then if negb (sc_dot st =? 0) then None else Some (set_digits (set_dot st 1) 0)
  else flag_case c st.

Lemma fmt_switch_flag lp64 fuel prev c r st st' : flag_step c st = Some st' ->
  fmt_switch lp64 (S fuel) prev (c :: r) st = fmt_switch lp64 fuel c r st'.
Proof.
  unfold flag_step, flag_case, isdigit. cbn [fmt_switch]. unfold flag_case, isdigit.
  repeat match goal with
  | |- (if ?a =? ?b then _ else _) = Some _ -> _ => destruct (Z.eqb_spec a b) as [->|?]
  end; cbn [Z.eqb Z.leb Z.compare Pos.eqb Pos.compare Pos.compare_cont andb orb negb]; try (intros [= <-]; done); try done.
  - rewrite !andb_true_r. destruct (_ && _); [by intros [= <-]|done].
  - destruct (flag _ _); [done|by intros [= <-]].
  - destruct (negb _); [done|by intros [= <-]].
Qed.

Fixpoint flag_steps (l : bytes) (st : scan) : option scan :=
  match l with [] => Some st | c :: l => flag_step c st ≫= flag_steps l end.

Lemma fmt_switch_flags lp64 fuel l : forall prev r st st', flag_steps l st = Some st' ->
  exists prev', fmt_switch lp64 (length l + fuel) prev (l ++ r) st = fmt_switch lp64 fuel prev' r st' /\
    (prev' = prev /\ l = [] \/ prev' ∈ l).
Proof.
  induction l as [|c l IH]; intros prev r st st' Hl; cbn [flag_steps] in Hl.
  - injection Hl as <-. exists prev. by auto.
  - destruct (flag_step c st) as [st1|] eqn:Hc; [|done]. simpl in Hl.
    destruct (IH c r st1 st' Hl) as (prev' & He & Hp). exists prev'. split.
    + rewrite <- He. cbn [length app Nat.add]. by apply fmt_switch_flag.
    + right. destruct Hp as [[-> _]|Hp]; [left|by right].
Qed.

Lemma fmt_switch_plain lp64 fuel prev c r st : plain c = true -> (c = 37 -> prev = 37) ->
  fmt_switch lp64 (S fuel) prev (c :: r) st = Ok (add_name st c, r).
Proof.
  unfold plain, is_mod. intros Hp H37. cbn [fmt_switch]. unfold flag_case.
  apply negb_true_iff in Hp. rewrite !orb_false_iff in Hp.
  repeat match goal with H : _ /\ _ |- _ => destruct H | H : (_ || _) = false |- _ => apply orb_false_iff in H end.
  repeat match goal with H : _ = false |- _ => rewrite H; clear H end. cbn [orb].
  destruct (Z.eqb_spec c 37) as [->|]; [by rewrite (H37 eq_refl)|done].
Qed.

Lemma fmt_switch_mod lp64 fuel prev c r st : is_mod c = true -> (length (sc_name st) < 6)%nat ->
  fmt_switch lp64 (S fuel) prev (c :: r) st = fmt_switch lp64 fuel c r (add_name st c).
Proof.
  unfold is_mod. intros Hm Hn. cbn [fmt_switch]. rewrite Hm.
  replace (_ <? 6) with true by (symmetry; apply Z.ltb_lt; lia).
  apply orb_prop in Hm as [Hm|Hm]; [apply orb_prop in Hm as [Hm|Hm]; [apply orb_prop in Hm as [Hm|Hm]|]|];
    apply Z.eqb_eq in Hm; subst; done.
Qed.

Lemma fmt_switch_mods lp64 fuel l : forall prev r st, forallb is_mod l = true -> (length (sc_name st) + length l <= 6)%nat ->
  exists prev', fmt_switch lp64 (length l + fuel) prev (l ++ r) st =
    fmt_switch lp64 fuel prev' r (Scan (sc_flags st) (sc_width st) (sc_prec st) (sc_digits st) (sc_dot st) (sc_name st ++ l)) /\
    (prev' = prev /\ l = [] \/ prev' ∈ l).
Proof.
  induction l as [|c l IH]; intros prev r st Hl Hn; cbn [length] in *.
  - exists prev. rewrite app_nil_r. destruct st; by auto.
  - cbn [forallb] in Hl. apply andb_prop in Hl as [Hc Hl].
    destruct (IH c r (add_name st c) Hl) as (prev' & He & Hp).
    { cbn. rewrite length_app. cbn. lia. }
    exists prev'. split.
    + cbn [Nat.add app]. rewrite fmt_switch_mod by (done || lia). rewrite He. cbn. by rewrite <- app_assoc.
    + right. destruct Hp as [[-> _]|Hp]; [left|by right].
Qed.

Lemma fmt_switch_mono lp64 k : forall k' prev p st, fmt_switch lp64 k prev p st <> Err no_fuel -> (k <= k')%nat ->
  fmt_switch lp64 k' prev p st = fmt_switch lp64 k prev p st.
Proof.
  induction k as [|k IH]; intros [|k'] prev p st Hr Hk; try done; [lia|].
  destruct p as [|c p]; [done|]. cbn [fmt_switch] in *.
  repeat case_match; try done; by apply IH; [|lia].
Qed.

Lemma scan_number_length p : forall n n' r, scan_number n p = (n', r) -> (length r <= length p)%nat.
Proof.
  induction p as [|c p IH]; intros n n' r; cbn; [by intros [= <- <-]|].
  case_match; [|by intros [= <- <-]]. intros Hr%IH. lia.
Qed.

(** The fuel of [dt_printf_create] is enough. *)
Lemma fmt_switch_total lp64 k : forall prev p st, (length p < k)%nat -> fmt_switch lp64 k prev p st <> Err no_fuel.
Proof.
  induction k as [|k IH]; intros prev p st Hk; [lia|].
  destruct p as [|c p]; [done|]. cbn [length] in Hk. cbn [fmt_switch].
  destruct (isdigit c) eqn:Hd.
  - case_match; [apply IH; lia|]. destruct (scan_number 0 (c :: p)) as [n r] eqn:Hn.
    apply IH. cbn [scan_number] in Hn. rewrite Hd in Hn. apply scan_number_length in Hn. lia.
  - repeat case_match; try done; apply IH; lia.
Qed.

Lemma fmt_switch_by lp64 k prev p st r : fmt_switch lp64 k prev p st = Ok r ->
  fmt_switch lp64 (S (length p)) prev p st = Ok r.
Proof.
  intros Hk. set (k' := S (length p)).
  assert (fmt_switch lp64 (Nat.max k k') prev p st = Ok r) as Hm by (rewrite (fmt_switch_mono lp64 k); [done|congruence|lia]).
  rewrite (fmt_switch_mono lp64 k') in Hm; [done| |lia]. apply fmt_switch_total. unfold k'. lia.
Qed.

(** ** Decimal numbers *)

Lemma isdigit_of d : 0 <= d < 10 -> isdigit (48 + d) = true.
Proof. intros Hd. unfold isdigit. apply andb_true_intro. split; apply Z.leb_le; lia. Qed.

(** What [scan_number] makes of digits, in unbounded integers. *)
Definition value_of (a : Z) (l : bytes) : Z := foldl (λ n c, n * 10 + c - 48) a l.

Lemma value_of_ge a l : 0 <= a -> forallb isdigit l = true -> a <= value_of a l.
Proof.
  revert a. induction l as [|c l IH]; intros a Ha Hl; cbn [value_of foldl]; [lia|].
  cbn [forallb] in Hl. apply andb_prop in Hl as [Hc Hl]. unfold isdigit in Hc. b2p.
  etrans; [|apply IH; [lia|done]]. lia.
Qed.

Lemma scan_number_value l : forall a r, forallb isdigit l = true -> 0 <= a ->
  match r with c :: _ => isdigit c = false | [] => True end -> value_of a l < 2 ^ 31 ->
  scan_number a (l ++ r) = (value_of a l, r).
Proof.
  induction l as [|c l IH]; intros a r Hl Ha Hr Hv.
  - cbn. destruct r as [|c r]; [done|]. cbn. by rewrite Hr.
  - cbn [forallb] in Hl. apply andb_prop in Hl as [Hc Hl]. cbn [app scan_number]. rewrite Hc.
    cbn [value_of foldl] in Hv. fold (value_of (a * 10 + c - 48) l) in Hv.
    assert (0 <= a * 10 + c - 48) as H0 by (unfold isdigit in Hc; b2p; lia).
    pose proof (value_of_ge _ l H0 Hl) as Hge.
    rewrite (wraps_small 32) by lia. by apply IH.
Qed.

Lemma digits_digits k n : 0 <= n -> forallb isdigit (digits k n) = true.
Proof.
  revert n. induction k as [|k IH]; intros n Hn; [done|]. cbn [digits]. rewrite forallb_app. apply andb_true_intro. split.
  - destruct (_ <? _); [done|]. apply IH. by apply Z.div_pos.
  - cbn [forallb]. rewrite isdigit_of; [done|]. by apply Z.mod_pos_bound.
Qed.

Lemma digits_value k n : 0 <= n < 10 ^ Z.of_nat k -> value_of 0 (digits k n) = n.
Proof.
  revert n. induction k as [|k IH]; intros n Hn; [cbn in Hn; cbn; lia|]. cbn [digits].
  unfold value_of. rewrite foldl_app. cbn [foldl]. fold (value_of 0 (if n <? 10 then [] else digits k (n / 10))).
  pose proof (Z.div_mod n 10 ltac:(lia)) as Hd. destruct (Z.ltb_spec n 10) as [Hs|Hs].
  - cbn. rewrite Z.mod_small by lia. lia.
  - rewrite IH; [lia|]. split; [apply Z.div_pos; lia|]. apply Z.div_lt_upper_bound; [lia|].
    rewrite Nat2Z.inj_succ, Z.pow_succ_r in Hn by lia. lia.
Qed.

Lemma digits_length k j n : 0 <= n < 10 ^ Z.of_nat j -> (0 < j)%nat -> (length (digits k n) <= j)%nat.
Proof.
  revert j n. induction k as [|k IH]; intros j n Hn Hj; [cbn; lia|]. cbn [digits]. rewrite length_app. cbn [length].
  destruct (Z.ltb_spec n 10); [cbn; lia|]. destruct j as [|[|j]]; [lia|cbn in Hn; lia|].
  enough (length (digits k (n / 10)) <= S j)%nat by lia. apply IH; [|lia].
  split; [apply Z.div_pos; lia|]. apply Z.div_lt_upper_bound; [lia|].
  rewrite (Nat2Z.inj_succ (S j)), Z.pow_succ_r in Hn by lia. lia.
Qed.

Lemma digits_head k n : 0 < n < 10 ^ Z.of_nat k -> exists c l, digits k n = c :: l /\ isdigit c = true /\ c <> 48.
Proof.
  revert n. induction k as [|k IH]; intros n Hn; [cbn in Hn; lia|]. cbn [digits].
  destruct (Z.ltb_spec n 10) as [Hs|Hs].
  - eexists _, []. split; [done|]. rewrite Z.mod_small by lia. split; [apply isdigit_of; lia|lia].
  - destruct (IH (n / 10)) as (c & l & -> & Hc & H0).
    { split; [apply Z.div_str_pos; lia|]. apply Z.div_lt_upper_bound; [lia|].
      rewrite Nat2Z.inj_succ, Z.pow_succ_r in Hn by lia. lia. }
    by eexists _, _.
Qed.

(** A number has no more digits than were read. *)
Lemma scan_number_bound p : forall a n r j, scan_number a p = (n, r) -> Z.abs a < 10 ^ Z.of_nat j ->
  Z.abs n < 10 ^ Z.of_nat (j + (length p - length r)).
Proof.
  induction p as [|c p IH]; intros a n r j; cbn [scan_number].
  - intros [= <- <-] Ha. by rewrite Nat.add_0_r.
  - destruct (isdigit c) eqn:Hc.
    + intros Hn Ha. pose proof (scan_number_length _ _ _ _ Hn) as Hl. apply IH with (j := S j) in Hn.
      * cbn [length]. by replace (j + (S (length p) - length r))%nat with (S j + (length p - length r))%nat by lia.
      * rewrite Nat2Z.inj_succ, Z.pow_succ_r by lia. unfold isdigit in Hc. b2p.
        assert (Z.abs (s32 (a * 10 + c - 48)) <= Z.abs (a * 10 + c - 48)) as Hw.
        { pose proof (wraps_range 32 (a * 10 + c - 48) ltac:(lia)) as Hr.
          destruct (Z_lt_le_dec (a * 10 + c - 48) (2 ^ 31)) as [H1|H1]; [destruct (Z_lt_le_dec (a * 10 + c - 48) (- 2 ^ 31)) as [H2|H2]|]; [lia| |lia].
          rewrite (wraps_small 32) by lia. lia. }
        lia.
    + intros [= <- <-] Ha. by rewrite Nat.sub_diag, Nat.add_0_r.
Qed.

(** ** What the scan has read *)

(** Lemmas on the flags, which are nine bits, by their values. *)
Definition all_flags (P : Z -> bool) : bool := forallb P (seqZ 0 512).

Lemma all_flags_spec P f : all_flags P = true -> 0 <= f < 512 -> P f = true.
Proof.
  intros HP Hf. apply (proj1 (forallb_forall _ _) HP). apply list_elem_of_In, elem_of_seqZ. lia.
Qed.

(** No left alignment and padding with zeros at once. *)
Definition flags_wf (f : Z) : bool :=
  (0 <=? f) && (f <? 512) && negb (flag f DT_PFCONV_ZPAD && flag f DT_PFCONV_LEFT).
(** How many flags are set. *)
Definition flag_count (f : Z) : nat :=
  foldr (λ b n, if flag f b then S n else n) O
    [DT_PFCONV_ALT; DT_PFCONV_ZPAD; DT_PFCONV_LEFT; DT_PFCONV_SPOS; DT_PFCONV_DYNWIDTH;
     DT_PFCONV_DYNPREC; DT_PFCONV_GROUP; DT_PFCONV_SPACE; DT_PFCONV_AGG].

Definition flag_update_ok (u : Z -> Z) (f : Z) : bool :=
  negb (flags_wf f) || (flags_wf (u f) && (flag_count (u f) <=? S (flag_count f))%nat).

Lemma flags_wf_range f : flags_wf f = true -> 0 <= f < 512.
Proof. unfold flags_wf. intros H. b2p. lia. Qed.

Lemma flag_update u f : all_flags (flag_update_ok u) = true -> flags_wf f = true ->
  flags_wf (u f) = true /\ (flag_count (u f) <= S (flag_count f))%nat.
Proof.
  intros Hu Hf. pose proof (all_flags_spec _ f Hu (flags_wf_range f Hf)) as H. unfold flag_update_ok in H.
  rewrite Hf in H. cbn in H. apply andb_prop in H as [H1 H2]. split; [done|]. by apply Nat.leb_le.
Qed.

Definition num_length (n : Z) : nat := if n =? 0 then O else length (snprintf_d n).
Definition prec_length (n : Z) : nat := if n =? 0 then O else S (length (snprintf_d n)).

Arguments flag_count : simpl never.
Arguments flags_wf : simpl never.
Arguments num_length : simpl never.
Arguments prec_length : simpl never.

(** [u] bytes have been read: enough for the flags, and all but one byte of the width;
    a width or a precision that overflowed may be negative, and its sign was not read. *)
Record scan_inv (st : scan) (u : nat) : Prop := {
  si_flags : flags_wf (sc_flags st) = true;
  si_mods : forallb is_mod (sc_name st) = true;
  si_short : (length (sc_name st) <= 6)%nat;
  si_int : sc_width st < 2 ^ 31 /\ sc_prec st < 2 ^ 31;
  si_read : exists a b c d, (a + b + c + d <= u)%nat /\ (flag_count (sc_flags st) <= a)%nat /\
    (0 <= sc_width st -> (num_length (sc_width st) <= S b)%nat) /\
    (0 <= sc_prec st -> (prec_length (sc_prec st) <= c)%nat) /\
    (sc_dot st <> 0 -> (1 <= c)%nat) /\ (length (sc_name st) <= d)%nat;
}.

Lemma scan_inv_flags st u g : all_flags (flag_update_ok g) = true -> scan_inv st u ->
  scan_inv (Scan (g (sc_flags st)) (sc_width st) (sc_prec st) (sc_digits st) (sc_dot st) (sc_name st)) (S u).
Proof.
  intros Hg [Hf Hm Hs Hr (a & b & c & d & Hu & Ha & Hb & Hc & Hd & He)].
  destruct (flag_update g _ Hg Hf) as [Hf' Hn]. split; cbn; [done..|]. exists (S a), b, c, d. repeat split; (lia || done).
Qed.

Lemma snprintf_length n j : 0 <= n < 10 ^ Z.of_nat j -> (length (snprintf_d n) <= Nat.max 1 j)%nat.
Proof.
  intros Hn. unfold snprintf_d. destruct (Z.ltb_spec n 0); [lia|]. apply digits_length; [|lia].
  split; [lia|]. eapply Z.lt_le_trans; [apply Hn|]. apply Z.pow_le_mono_r; lia.
Qed.

Lemma scan_inv_number st u n j : scan_inv st u -> Z.abs n < 10 ^ Z.of_nat j -> (0 < j)%nat -> n < 2 ^ 31 ->
  scan_inv (set_digits (if negb (sc_dot st =? 0) then set_prec st n else set_width st n) (sc_digits st + 1)) (u + j).
Proof.
  intros [Hf Hm Hs Hr (a & b & c & d & Hu & Ha & Hb & Hc & Hd & He)] Hn Hj Hn31.
  assert (0 <= n -> (length (snprintf_d n) <= j)%nat) as Hl.
  { intros H0. pose proof (snprintf_length n j ltac:(lia)). lia. }
  destruct (Z.eqb_spec (sc_dot st) 0) as [H0|H0]; cbn [negb]; split; cbn; try (done || lia).
  - exists a, (b + j)%nat, c, d. repeat split; try (done || lia). intros H. specialize (Hl H). unfold num_length. cbn. case_match; lia.
  - exists a, b, (c + j)%nat, d. specialize (Hd H0). repeat split; try (done || lia). intros H. specialize (Hl H). unfold prec_length. cbn. case_match; lia.
Qed.

Lemma scan_inv_misc st u : scan_inv st u ->
  (sc_dot st = 0 -> scan_inv (set_digits (set_dot st 1) 0) (S u)) /\
  (forall n, n = 8 \/ n = 16 -> scan_inv (set_width st n) (S u)) /\
  (forall x, is_mod x = true -> scan_inv (if Z.of_nat (length (sc_name st)) <? 6 then add_name st x else st) (S u)).
Proof.
  intros [Hf Hm Hs Hr (a & b & c & d & Hu & Ha & Hb & Hc & Hd & He)]. split_and!.
  - intros H0. split; try done. exists a, b, (S c), d. cbn. repeat split; (done || lia).
  - intros n Hn. split; try (done || cbn; lia). exists a, (S b), c, d. cbn. repeat split; try (done || lia). intros _.
    assert (num_length 8 = 1%nat /\ num_length 16 = 2%nat) as [? ?] by done. destruct Hn as [-> | ->]; lia.
  - intros x Hx. destruct (Z.ltb_spec (Z.of_nat (length (sc_name st))) 6).
    + split; cbn; try done.
      * by rewrite forallb_app, Hm; cbn; rewrite Hx.
      * rewrite length_app. cbn. lia.
      * exists a, b, c, (S d). rewrite length_app. cbn. repeat split; (done || lia).
    + split; try done. exists a, b, c, d. repeat split; (done || lia).
Qed.

Ltac flags_by_value := vm_compute; reflexivity.

Lemma scan_inv_flag_case c st st' u : scan_inv st u -> flag_case c st = Some st' -> scan_inv st' (S u).
Proof.
  intros Hi. unfold flag_case. repeat case_match; intros [= <-].
  - apply (scan_inv_flags st u (λ f, Z.lor f 1)); [flags_by_value|done].
  - apply (scan_inv_flags st u (λ f, Z.lor f 8)); [flags_by_value|done].
  - apply (scan_inv_flags st u (λ f, Z.land (Z.lor f 4) (Z.lnot 2))); [flags_by_value|done].
  - apply (scan_inv_flags st u (λ f, Z.lor f 256)); [flags_by_value|done].
  - apply (scan_inv_flags st u (λ f, Z.lor f 64)); [flags_by_value|done].
  - apply (scan_inv_flags st u (λ f, Z.lor f 128)); [flags_by_value|done].
Qed.

Lemma flag_case_None c st : flag_case c st = None ->
  (c =? 35) || (c =? 43) || (c =? 45) || (c =? 64) || (c =? 39) || (c =? 32) = false.
Proof. unfold flag_case. by repeat case_match. Qed.

Lemma scan_number_int p : forall a n r, scan_number a p = (n, r) -> a < 2 ^ 31 -> n < 2 ^ 31.
Proof.
  induction p as [|c p IH]; intros a n r; cbn [scan_number]; [by intros [= <- _]|].
  destruct (isdigit c); [|by intros [= <- _]]. intros Hn _. eapply IH; [exact Hn|].
  pose proof (wraps_range 32 (a * 10 + c - 48) ltac:(lia)). lia.
Qed.

Lemma scan_number_split c p n q : isdigit c = true -> scan_number 0 (c :: p) = (n, q) ->
  exists l, c :: p = l ++ q /\ (0 < length l)%nat /\ (length (c :: p) - length q = length l)%nat.
Proof.
  intros Hd. cbn [scan_number]. rewrite Hd. generalize (s32 (0 * 10 + c - 48)). intros a Hn.
  assert (exists l, p = l ++ q) as (l & ->).
  { revert a Hn. induction p as [|x p IHp]; intros a; cbn.
    - intros [= _ <-]. by exists [].
    - case_match; [|intros [= _ <-]; by exists []]. intros Hn. destruct (IHp _ Hn) as [l ->]. by exists (x :: l). }
  exists (c :: l). cbn. rewrite length_app. split_and!; (done || lia).
Qed.

(** The scan ends with a byte that ends it; a second % has nothing before it. *)
Lemma fmt_switch_inv lp64 fuel : forall prev p st u st' r, scan_inv st u -> fmt_switch lp64 fuel prev p st = Ok (st', r) ->
  exists st1 c used, st' = add_name st1 c /\ p = used ++ c :: r /\ scan_inv st1 (u + length used) /\
    plain c = true /\ (c = 37 -> prev = 37 /\ used = [] /\ st1 = st).
Proof.
  induction fuel as [|fuel IH]; intros prev p st u st' r Hi; [done|]. destruct p as [|c p]; [done|]. cbn [fmt_switch].
  (* one more byte, then the rest *)
  assert (forall st2, c <> 37 -> scan_inv st2 (S u) -> fmt_switch lp64 fuel c p st2 = Ok (st', r) ->
    exists st1 c' used, st' = add_name st1 c' /\ c :: p = used ++ c' :: r /\ scan_inv st1 (u + length used) /\
      plain c' = true /\ (c' = 37 -> prev = 37 /\ used = [] /\ st1 = st)) as Hnext.
  { intros st2 Hc Hi2 Hr. destruct (IH _ _ _ _ _ _ Hi2 Hr) as (st1 & c' & used & -> & -> & H1 & H2 & H3).
    exists st1, c', (c :: used). split_and!; [done..| |done|].
    - by replace (u + length (c :: used))%nat with (S u + length used)%nat by (cbn; lia).
    - intros H37. destruct (H3 H37). done. }
  destruct (isdigit c) eqn:Hd.
  { assert (c <> 37) as Hc by (intros ->; done).
    destruct (_ && _).
    - apply Hnext; [done|]. apply (scan_inv_flags st u (λ f, Z.land (Z.lor f 2) (Z.lnot 4))); [flags_by_value|done].
    - destruct (scan_number 0 (c :: p)) as [n q] eqn:Hn. intros Hr.
      pose proof (scan_number_bound _ _ _ _ 0%nat Hn ltac:(done)) as Hb.
      destruct (scan_number_split c p n q Hd Hn) as (l & Hl & Hj0 & Hjl). set (j := length l) in *.
      rewrite Hjl in Hb. cbn [Nat.add] in Hb. pose proof (scan_inv_number st u n j Hi Hb Hj0 (scan_number_int _ _ _ _ Hn ltac:(done))) as Hi2.
      replace (sc_digits (if negb (sc_dot st =? 0) then set_prec st n else set_width st n)) with (sc_digits st) in Hr
        by (by destruct (negb _)).
      destruct (IH _ _ _ _ _ _ Hi2 Hr) as (st1 & c' & used & -> & -> & H1 & H2 & H3).
      exists st1, c', (l ++ used). rewrite Hl, length_app, Nat.add_assoc, <- app_assoc. split_and!; try done.
      intros H37. by destruct (H3 H37). }
  destruct (Z.eqb_spec c 42) as [->|H42].
  { destruct (flag _ _); [done|]. apply Hnext; [done|]. destruct (negb _).
    - apply (scan_inv_flags st u (λ f, Z.lor f 32)); [flags_by_value|done].
    - apply (scan_inv_flags st u (λ f, Z.lor f 16)); [flags_by_value|done]. }
  destruct (scan_inv_misc st u Hi) as (Hdot & Hwid & Hmod).
  destruct (Z.eqb_spec c 46) as [->|H46].
  { destruct (Z.eqb_spec (sc_dot st) 0) as [Hz|]; [|done]. apply Hnext; [done|by apply Hdot]. }
  destruct (Z.eqb_spec c 63) as [->|H63].
  { apply Hnext; [done|]. apply Hwid. destruct lp64; auto. }
  destruct (Z.eqb_spec c 36) as [->|H36]; [done|].
  destruct ((c =? 37) && negb (prev =? 37)) eqn:H37; [done|].
  destruct (_ || _) eqn:Hm.
  { apply Hnext; [by intros ->|by apply Hmod]. }
  destruct (flag_case c st) as [st2|] eqn:Hf.
  { apply Hnext; [by intros ->|by eapply scan_inv_flag_case]. }
  apply flag_case_None in Hf. intros [= <- <-]. exists st, c, []. cbn. rewrite Nat.add_0_r. split_and!; try done.
  - unfold plain, is_mod. rewrite Hd, Hm. destruct (Z.eqb_spec c 42), (Z.eqb_spec c 46), (Z.eqb_spec c 63), (Z.eqb_spec c 36); try done.
    cbn [orb]. by rewrite Hf.
  - intros ->. destruct (Z.eqb_spec prev 37); done.
Qed.

(** ** Reading what was written *)

#[export] Instance scan_eq : EqDecision scan.
Proof. solve_decision. Defined.

Definition flag_text (flags : Z) : bytes :=
  if_flag flags DT_PFCONV_ALT (lit "#") ++ if_flag flags DT_PFCONV_ZPAD (lit "0") ++
  if_flag flags DT_PFCONV_LEFT (lit "-") ++ if_flag flags DT_PFCONV_SPOS (lit "+") ++
  if_flag flags DT_PFCONV_DYNWIDTH (lit "*") ++ if_flag flags DT_PFCONV_DYNPREC (lit ".*") ++
  if_flag flags DT_PFCONV_GROUP (lit "'") ++ if_flag flags DT_PFCONV_SPACE (lit " ") ++
  if_flag flags DT_PFCONV_AGG (lit "@").
Definition width_text (n : Z) : bytes := if negb (n =? 0) then snprintf_d n else [].
Definition prec_text (n : Z) : bytes := if negb (n =? 0) then 46 :: snprintf_d n else [].

Lemma pickle_conv_text pfd pfc : pickle_conv pfd pfc =
  37 :: flag_text (pfd_flags pfd) ++ width_text (pfd_width pfd) ++ prec_text (pfd_prec pfd) ++
  (if strcmp (pfc_ofmt pfc) (lit "s") =? 0 then pfc_name pfc else pfd_fmt pfd).
Proof. unfold pickle_conv, flag_text, width_text, prec_text. cbn [app]. by rewrite <- !app_assoc. Qed.

Definition flag_text_ok (f : Z) : bool := negb (flags_wf f) ||
  bool_decide (flag_steps (flag_text f) scan0 = Some (Scan f 0 0 0 (if flag f DT_PFCONV_DYNPREC then 1 else 0) [])).

Lemma flag_text_steps f : flags_wf f = true ->
  flag_steps (flag_text f) scan0 = Some (Scan f 0 0 0 (if flag f DT_PFCONV_DYNPREC then 1 else 0) []).
Proof.
  intros Hf. pose proof (all_flags_spec flag_text_ok f ltac:(vm_compute; reflexivity) (flags_wf_range f Hf)) as H.
  unfold flag_text_ok in H. rewrite Hf in H. cbn [negb orb] in H. by apply bool_decide_eq_true in H.
Qed.

Lemma flag_text_length f : flags_wf f = true ->
  (length (flag_text f) <= S (flag_count f))%nat.
Proof.
  intros Hf. apply Nat.leb_le.
  apply (all_flags_spec (λ f, length (flag_text f) <=? S (flag_count f))%nat); [vm_compute; reflexivity|by apply flags_wf_range].
Qed.

Definition no_digit (r : bytes) : Prop := match r with c :: _ => isdigit c = false | [] => True end.

Lemma fmt_switch_number lp64 fuel prev n r st : 0 < n < 2 ^ 31 -> no_digit r -> exists prev',
  fmt_switch lp64 (S fuel) prev (snprintf_d n ++ r) st =
  fmt_switch lp64 fuel prev' r (set_digits (if negb (sc_dot st =? 0) then set_prec st n else set_width st n) (sc_digits st + 1)).
Proof.
  intros Hn Hr. assert (0 < n < 10 ^ Z.of_nat 10) as Hn10 by (split; [lia|]; cbn; lia).
  unfold snprintf_d. destruct (Z.ltb_spec n 0); [lia|].
  destruct (digits_head 10 n Hn10) as (c & l & Hl & Hc & H0). exists c.
  assert (scan_number 0 (digits 10 n ++ r) = (n, r)) as Hs.
  { rewrite scan_number_value; [by rewrite digits_value by lia|apply digits_digits; lia|done|done|]. rewrite digits_value; lia. }
  rewrite Hl in *. cbn [app fmt_switch]. rewrite Hc. replace (c =? 48) with false by (symmetry; by apply Z.eqb_neq).
  rewrite andb_false_r. cbn [app] in Hs. rewrite Hs. by destruct (negb _).
Qed.

(** The fields of a scan that the descriptor takes over. *)
Definition same_scan (st st' : scan) : Prop :=
  sc_flags st' = sc_flags st /\ sc_width st' = sc_width st /\ sc_prec st' = sc_prec st /\ sc_name st' = sc_name st.

Definition no_overflow (flags width prec : Z) : Prop :=
  0 <= width /\ 0 <= prec /\ (flag flags DT_PFCONV_DYNPREC = true -> width = 0 /\ prec = 0).

(** The bytes [l] take the scan from [st] to [st'], whatever follows that satisfies [P]. *)
Definition takes (lp64 : bool) (l : bytes) (P : bytes -> Prop) (st st' : scan) : Prop :=
  exists k, forall fuel prev r, P r ->
    exists prev', fmt_switch lp64 (k + fuel) prev (l ++ r) st = fmt_switch lp64 fuel prev' r st'.

Lemma takes_app lp64 l1 l2 (P Q : bytes -> Prop) st st1 st2 : (forall r, Q r -> P (l2 ++ r)) ->
  takes lp64 l1 P st st1 -> takes lp64 l2 Q st1 st2 -> takes lp64 (l1 ++ l2) Q st st2.
Proof.
  intros HP [k1 H1] [k2 H2]. exists (k1 + k2)%nat. intros fuel prev r Hr.
  destruct (H1 (k2 + fuel)%nat prev (l2 ++ r) (HP r Hr)) as [p1 E1].
  destruct (H2 fuel p1 r Hr) as [p2 E2]. exists p2.
  by rewrite <- app_assoc, <- Nat.add_assoc, E1, E2.
Qed.

Lemma takes_flags lp64 l st st' : flag_steps l st = Some st' -> takes lp64 l (λ _, True) st st'.
Proof.
  intros Hl. exists (length l). intros fuel prev r _.
  destruct (fmt_switch_flags lp64 fuel l prev r st st' Hl) as (prev' & He & _). by exists prev'.
Qed.

Lemma takes_mods lp64 l st : forallb is_mod l = true -> sc_name st = [] -> (length l <= 6)%nat ->
  takes lp64 l (λ _, True) st (Scan (sc_flags st) (sc_width st) (sc_prec st) (sc_digits st) (sc_dot st) l).
Proof.
  intros Hl Hn H6. exists (length l). intros fuel prev r _.
  destruct (fmt_switch_mods lp64 fuel l prev r st Hl) as (prev' & He & _); [rewrite Hn; cbn; lia|].
  rewrite Hn in He. by exists prev'.
Qed.

Lemma takes_number lp64 n st : 0 < n < 2 ^ 31 ->
  takes lp64 (snprintf_d n) no_digit st
    (set_digits (if negb (sc_dot st =? 0) then set_prec st n else set_width st n) (sc_digits st + 1)).
Proof.
  intros Hn. exists 1%nat. intros fuel prev r Hr. by apply fmt_switch_number.
Qed.

Lemma takes_width lp64 w f d : 0 <= w < 2 ^ 31 -> (d <> 0 -> w = 0) ->
  exists g, takes lp64 (width_text w) no_digit (Scan f 0 0 0 d []) (Scan f w 0 g d []).
Proof.
  intros Hw Hd. unfold width_text. destruct (Z.eqb_spec w 0) as [->|H0]; cbn [negb].
  - exists 0, 0%nat. intros fuel prev r _. by exists prev.
  - assert (d = 0) as -> by (destruct (Z.eqb_spec d 0); [done|exfalso; auto]). eexists. by apply takes_number; lia.
Qed.

Lemma takes_prec lp64 w n f g d : 0 <= n < 2 ^ 31 -> (d <> 0 -> n = 0) ->
  exists g' d', takes lp64 (prec_text n) no_digit (Scan f w 0 g d []) (Scan f w n g' d' []).
Proof.
  intros Hw Hd. unfold prec_text. destruct (Z.eqb_spec n 0) as [->|H0]; cbn [negb].
  - exists g, d, 0%nat. intros fuel prev r _. by exists prev.
  - assert (d = 0) as -> by (destruct (Z.eqb_spec d 0); [done|exfalso; auto]).
    do 2 eexists. change (46 :: snprintf_d n) with ([46] ++ snprintf_d n).
    eapply (takes_app _ _ _ (λ _, True)); [done|by apply takes_flags|]. by apply takes_number; lia.
Qed.

Lemma is_mod_no_digit c : is_mod c = true -> isdigit c = false.
Proof. unfold is_mod. intros H. repeat apply orb_prop in H as [H|H]; apply Z.eqb_eq in H; by subst. Qed.

Lemma plain_no_digit c : plain c = true -> isdigit c = false.
Proof. unfold plain. by destruct (isdigit c). Qed.

Lemma prec_text_no_digit n r : no_digit r -> no_digit (prec_text n ++ r).
Proof. unfold prec_text. by destruct (negb _). Qed.

(** A second byte % ends the scan, and the others when flags, width and precision are
    written before them. *)
Lemma text_scanned lp64 st c u r : scan_inv st u -> plain c = true -> (c = 37 -> st = scan0) ->
  no_overflow (sc_flags st) (sc_width st) (sc_prec st) ->
  let text := flag_text (sc_flags st) ++ width_text (sc_width st) ++ prec_text (sc_prec st) ++ sc_name st ++ c :: r in
  exists st', fmt_switch lp64 (S (length text)) 37 text scan0 = Ok (st', r) /\ same_scan (add_name st c) st'.
Proof.
  intros [Hf Hm Hs [Hw31 Hp31] _] Hc H37 (Hw & Hp & Hdyn) text.
  destruct (Z.eqb_spec c 37) as [->|Hne].
  { unfold text. rewrite (H37 eq_refl). exists (add_name scan0 37). split; [|done]. by apply (fmt_switch_plain lp64 _ 37 37 r). }
  set (d := if flag (sc_flags st) DT_PFCONV_DYNPREC then 1 else 0).
  assert (d <> 0 -> sc_width st = 0 /\ sc_prec st = 0) as Hd by (unfold d; intros H; apply Hdyn; by destruct (flag _ _)).
  destruct (takes_width lp64 (sc_width st) (sc_flags st) d) as [g Hg]; [lia|intros; by apply Hd|].
  destruct (takes_prec lp64 (sc_width st) (sc_prec st) (sc_flags st) g d) as (g' & d' & Hg'); [lia|intros; by apply Hd|].
  pose proof (takes_flags lp64 _ _ _ (flag_text_steps _ Hf)) as Hft.
  pose proof (takes_mods lp64 (sc_name st) (Scan (sc_flags st) (sc_width st) (sc_prec st) g' d' []) Hm eq_refl Hs) as Hmods.
  assert (takes lp64 (flag_text (sc_flags st) ++ width_text (sc_width st) ++ prec_text (sc_prec st)) no_digit scan0
    (Scan (sc_flags st) (sc_width st) (sc_prec st) g' d' [])) as [k1 H1].
  { eapply takes_app; [|exact Hft|]; [done|]. eapply takes_app; [|exact Hg|exact Hg']. intros r' Hr'. by apply prec_text_no_digit. }
  destruct Hmods as [k2 H2].
  destruct (H1 (k2 + 1)%nat 37 (sc_name st ++ c :: r)) as [p1 E1].
  { destruct (sc_name st) as [|x name]; cbn; [by apply plain_no_digit|]. cbn in Hm. apply andb_prop in Hm as [Hx _]. by apply is_mod_no_digit. }
  destruct (H2 1%nat p1 (c :: r) I) as [p2 E2].
  eexists. split.
  - apply (fmt_switch_by lp64 (k1 + (k2 + 1))). unfold text. rewrite <- !app_assoc in E1.
    rewrite E1, E2. by apply fmt_switch_plain.
  - done.
Qed.

(** ** The whole format *)

Lemma strchr_pct_spec q : match strchr_pct q with
  | Some (pre, p) => q = pre ++ 37 :: p /\ 37 ∉ pre
  | None => 37 ∉ q
  end.
Proof.
  induction q as [|c q IH]; cbn; [apply not_elem_of_nil|].
  destruct (Z.eqb_spec c 37) as [->|Hc]; [split; [done|apply not_elem_of_nil]|].
  destruct (strchr_pct q) as [[pre p]|]; cbn.
  - destruct IH as [-> Hn]. split; [done|]. by apply not_elem_of_cons.
  - by apply not_elem_of_cons.
Qed.

Lemma strchr_pct_app pre p : 37 ∉ pre -> strchr_pct (pre ++ 37 :: p) = Some (pre, p).
Proof.
  induction pre as [|c pre IH]; intros Hn; [done|]. apply not_elem_of_cons in Hn as [Hc Hn].
  cbn. destruct (Z.eqb_spec c 37); [congruence|]. by rewrite IH.
Qed.

Lemma pf_find_name name l pfc : pf_find name l = Some pfc -> pfc_name pfc = name /\ pfc ∈ l.
Proof.
  induction l as [|x l IH]; cbn; [done|]. destruct (Z.eqb_spec (strcmp (pfc_name x) name) 0) as [Hs|].
  - intros [= ->]. split; [by apply strcmp_eq|left].
  - intros [Hn Hl]%IH. split; [done|by right].
Qed.

Lemma pfdict_lookup_name chr pdi name pfc : dt_pfdict_lookup chr pdi name = Some pfc -> pfc_name pfc = name.
Proof. unfold dt_pfdict_lookup. destruct (pdi !! _); [|done]. cbn. by intros [Hn _]%pf_find_name. Qed.

(** The conversions that are read back as they are: no width or precision overflowed,
    and a dynamic precision has neither. *)
Definition rereads (pfd : dt_pfargd) : Prop :=
  match pfd_conv pfd with
  | None => True
  | Some _ => no_overflow (pfd_flags pfd) (pfd_width pfd) (pfd_prec pfd)
  end.
#[export] Instance rereads_dec pfd : Decision (rereads pfd).
Proof.
  unfold rereads, no_overflow. destruct (pfd_conv pfd); [|apply _].
  destruct (flag (pfd_flags pfd) DT_PFCONV_DYNPREC).
  - destruct (decide (0 <= pfd_width pfd /\ 0 <= pfd_prec pfd /\ pfd_width pfd = 0 /\ pfd_prec pfd = 0)) as [H|H]; [left|right]; [tauto|]. intros (? & ? & []); tauto.
  - destruct (decide (0 <= pfd_width pfd /\ 0 <= pfd_prec pfd)) as [H|H]; [left|right]; [by destruct H|]. intros (? & ? & _); tauto.
Defined.

Section Reread.
Context (lp64 : bool) (lookup : bytes -> option dt_pfconv).
Context (lookup_name : forall name pfc, lookup name = Some pfc -> pfc_name pfc = name).

Lemma pickle_scanned pre st pfc : lookup (sc_name st) = Some pfc ->
  pickle_argd (full_fmt (scanned pre st pfc)) =
  pre ++ 37 :: flag_text (sc_flags st) ++ width_text (sc_width st) ++ prec_text (sc_prec st) ++ sc_name st.
Proof.
  intros Hl%lookup_name. unfold pickle_argd, full_fmt. cbn [scanned pfd_conv].
  destruct (Z.eqb_spec (strcmp (pfc_ofmt pfc) (lit "s")) 0) as [E|E]; cbn [negb];
    cbn [set_fmt scanned pfd_conv pfd_prefix pfd_fmt app]; rewrite pickle_conv_text; cbn [set_fmt scanned pfd_flags pfd_width pfd_prec pfd_fmt app].
  - by rewrite E, Hl.
  - apply Z.eqb_neq in E. by rewrite E, Hl.
Qed.

Lemma text_length st u : scan_inv st u -> 0 <= sc_width st -> 0 <= sc_prec st ->
  (length (flag_text (sc_flags st) ++ width_text (sc_width st) ++ prec_text (sc_prec st) ++ sc_name st) <= u + 2)%nat.
Proof.
  intros [Hf _ _ _ (a & b & c & d & Hu & Ha & Hb & Hc & _ & Hd)] Hw Hp.
  specialize (Hb Hw). specialize (Hc Hp). pose proof (flag_text_length _ Hf) as Hl.
  unfold num_length, prec_length in *. rewrite !length_app. unfold width_text, prec_text.
  destruct (sc_width st =? 0), (sc_prec st =? 0); cbn [negb length]; lia.
Qed.

Lemma scan_inv0 : scan_inv scan0 0.
Proof. split; try done; [cbn; lia|]. exists 0%nat, 0%nat, 0%nat, 0%nat. vm_compute. repeat split; try lia; done. Qed.

Lemma create_loop_reread fuel : forall m format q l m', create_loop lp64 lookup fuel m format q = Ok (l, m') ->
  Forall rereads l ->
  (length (pickle (full_fmt <$> l)) <= length q + 3 * length l)%nat /\
  forall k m2 format', (length (pickle (full_fmt <$> l)) < k)%nat -> (format' = [] <-> format = []) -> plenty m2 (length l) ->
    exists m3, create_loop lp64 lookup k m2 format' (pickle (full_fmt <$> l)) = Ok (l, m3).
Proof.
  induction fuel as [|fuel IH]; intros m format q l m'; [done|]. cbn [create_loop].
  pose proof (strchr_pct_spec q) as Hq. destruct (strchr_pct q) as [[pre p]|].
  - destruct Hq as [-> Hpre]. destruct (malloc m) as [[] m0]; [|done]. intros H.
    inv_bind H. destruct r as [st q']. inv_bind H. apply of_option_Ok in Hr0. inv_bind H. destruct r0 as [l0 m1].
    injection H as <- <-. intros [Hre HF]%Forall_cons_1.
    destruct (fmt_switch_inv _ _ _ _ _ _ _ _ scan_inv0 Hr) as (st1 & c & used & -> & -> & Hi & Hc & H37).
    destruct (IH _ _ _ _ _ Hr1 HF) as [Hlen Hread]. rewrite fmap_cons. unfold pickle in *. rewrite fmap_cons. cbn [concat].
    rewrite (pickle_scanned _ _ _ Hr0). cbn [rereads scanned pfd_conv pfd_flags pfd_width pfd_prec] in Hre.
    pose proof (text_length _ _ Hi (proj1 Hre) (proj1 (proj2 Hre))) as Ht. cbn [add_name sc_flags sc_width sc_prec sc_name] in *.
    set (rest := concat _) in *. split.
    + rewrite !length_app in *. cbn [length] in *. rewrite !length_app in *. cbn [length] in *. lia.
    + intros k m2 format' Hk Hf Hm2. destruct k as [|k]; [lia|]. cbn [create_loop length] in *. rewrite <- app_assoc. cbn [app].
      rewrite strchr_pct_app by done. destruct (plenty_malloc _ _ Hm2) as (m3 & -> & Hm3). rewrite <- !app_assoc. cbn [app].
      destruct (text_scanned lp64 st1 c _ rest Hi Hc) as (st' & -> & Hs1 & Hs2 & Hs3 & Hs4); [intros E; by destruct (H37 E) as (_ & _ & ?)|done|].
      cbn [add_name sc_flags sc_width sc_prec sc_name] in *. cbn [mbind result_bind]. rewrite Hs4, Hr0. cbn [of_option].
      destruct (Hread k m3 format') as [m4 ->]; [rewrite !length_app in Hk; cbn [length] in Hk; lia|done|done|].
      exists m4. unfold scanned. cbn. by rewrite Hs1, Hs2, Hs3.
  - case_bool_decide as Hd.
    + destruct (malloc m) as [[] m0]; [|done]. intros [= <- <-] _. cbn. rewrite !app_nil_r. split; [lia|].
      intros k m2 format' Hk Hf Hm2. destruct k as [|k]; [lia|]. cbn [create_loop].
      pose proof (strchr_pct_spec q) as Hq'. destruct (strchr_pct q) as [[pre p]|].
      { destruct Hq' as [-> _]. exfalso. apply Hq, elem_of_app. right. left. }
      rewrite bool_decide_eq_true_2 by (destruct Hd; [by left|right; by apply Hf]). destruct (plenty_malloc _ _ Hm2) as (m3 & -> & _). by eexists.
    + intros [= <- <-] _. cbn. split; [lia|]. intros k m2 format' Hk Hf Hm2. destruct k as [|k]; [lia|].
      cbn. rewrite bool_decide_eq_false_2; [by eexists|]. intros [?|?%Hf]; [done|]. apply Hd. by right.
Qed.

Lemma create_loop_nonempty fuel m format q l m' : create_loop lp64 lookup fuel m format q = Ok (l, m') ->
  q <> [] -> pickle (full_fmt <$> l) <> [].
Proof.
  destruct fuel as [|fuel]; [done|]. cbn [create_loop]. destruct (strchr_pct q) as [[pre p]|].
  - destruct (malloc m) as [[] m0]; [|done]. intros H _. inv_bind H. destruct r as [st q'].
    inv_bind H. apply of_option_Ok in Hr0. inv_bind H. destruct r0 as [l0 m1]. injection H as <- <-.
    unfold pickle. rewrite !fmap_cons. cbn [concat]. rewrite (pickle_scanned _ _ _ Hr0). clear. by destruct pre.
  - intros H Hq. rewrite bool_decide_eq_true_2 in H by auto. destruct (malloc m) as [[] m0]; [|done].
    injection H as <- <-. cbn. by rewrite !app_nil_r.
Qed.

End Reread.

(** ** What the dictionary holds *)

Section DictSpec.
Context (chr : Z -> Z) (dtrace_lookup_by_type : type_obj -> bytes -> option ctf_type).

Lemma pf_types_name pfc pfc' : pf_types dtrace_lookup_by_type pfc = Ok pfc' ->
  pfc_name pfc' = pfc_name pfc /\ pfc_ofmt pfc' = pfc_ofmt pfc /\ pfc_check pfc' = pfc_check pfc /\
  pfc_print pfc' = pfc_print pfc /\ pfc_tstr pfc' = pfc_tstr pfc.
Proof. unfold pf_types. repeat case_match; intros [= <-]; done. Qed.

Lemma pfdict_fill_lookup l : forall m pdi pdi' m', pfdict_fill chr dtrace_lookup_by_type m pdi l = Ok (pdi', m') ->
  (0 < length pdi)%nat ->
  exists l', Forall2 (λ e e', pf_types dtrace_lookup_by_type e = Ok e') l l' /\
    forall name acc, dt_pfdict_lookup chr pdi name = pf_find name acc ->
      dt_pfdict_lookup chr pdi' name = pf_find name (rev_append l' acc).
Proof.
  induction l as [|e l IH]; intros m pdi pdi' m'; cbn [pfdict_fill].
  - intros [= <- <-] _. by exists [].
  - destruct (malloc m) as [[] m0]; [|done]. intros H Hn. inv_bind H.
    destruct (IH _ _ _ _ H) as (l' & Hl' & Hlook); [by rewrite length_alter|].
    exists (r :: l'). split; [by constructor|]. intros name acc Ha. apply Hlook.
    unfold dt_pfdict_lookup in *. rewrite length_alter. cbn [pf_find].
    destruct (decide (pf_bucket chr (length pdi) (pfc_name r) = pf_bucket chr (length pdi) name)) as [E|E].
    + rewrite <- E in *. rewrite list_lookup_alter_eq. 
      destruct (pdi !! pf_bucket chr (length pdi) (pfc_name r)) as [b|] eqn:Hb; cbn in *.
      * by rewrite Ha.
      * exfalso. apply lookup_ge_None in Hb. unfold pf_bucket in Hb.
        pose proof (Z.mod_pos_bound (str2hval chr (pfc_name r) 0) (Z.of_nat (length pdi)) ltac:(lia)). lia.
    + rewrite list_lookup_alter_ne by done. destruct (Z.eqb_spec (strcmp (pfc_name r) name) 0) as [Hs|]; [|done].
      apply strcmp_eq in Hs. by rewrite Hs in E.
Qed.

(** A name is found exactly when it is in the table, whatever buckets the names are in. *)
Lemma dt_pfdict_lookup_table m pdi m' : dt_pfdict_create chr dtrace_lookup_by_type m = Ok (pdi, m') ->
  exists l', Forall2 (λ e e', pf_types dtrace_lookup_by_type e = Ok e') _dtrace_conversions l' /\
    forall name, dt_pfdict_lookup chr pdi name = pf_find name (rev l').
Proof.
  unfold dt_pfdict_create. destruct (malloc m) as [[] m0]; [|done]. destruct (malloc m0) as [[] m1]; [|done]. intros H.
  destruct (pfdict_fill_lookup _ _ _ _ _ H) as (l' & Hl' & Hlook); [rewrite length_replicate; unfold _dtrace_strbuckets; lia|].
  exists l'. split; [done|]. intros name. rewrite rev_alt. apply Hlook. unfold dt_pfdict_lookup.
  destruct (_ !! _) as [b|] eqn:Hb; [|done]. by apply lookup_replicate in Hb as [-> _].
Qed.

(** Whatever is found is an entry of the table, with its types. *)
Lemma dt_pfdict_lookup_entry m pdi m' name pfc : dt_pfdict_create chr dtrace_lookup_by_type m = Ok (pdi, m') ->
  dt_pfdict_lookup chr pdi name = Some pfc ->
  exists e, e ∈ _dtrace_conversions /\ pf_types dtrace_lookup_by_type e = Ok pfc /\ pfc_name e = name.
Proof.
  intros Hd Hl. destruct (dt_pfdict_lookup_table _ _ _ Hd) as (l' & Hl' & Hlook).
  rewrite Hlook in Hl. apply pf_find_name in Hl as [Hn Hin].
  apply list_elem_of_In, in_rev, list_elem_of_In, list_elem_of_lookup in Hin as [i Hi].
  destruct (Forall2_lookup_r _ _ _ _ _ Hl' Hi) as (e & He & Ht). exists e. split_and!; [by eapply list_elem_of_lookup_2|done|].
  destruct (pf_types_name _ _ Ht). congruence.
Qed.
End DictSpec.

(** C25: For every format string [s] that [dtrace_printf_create] accepts, whose widths
    and precisions did not overflow an int and in which a conversion with a dynamic
    precision has no other width or precision, [dtrace_printf_format] writes its
    descriptors as a string without running over its buffer, and reading that string
    gives the same descriptors. *)
Theorem printf_format_roundtrip chr pdi lp64 m s pfv m' :
  dtrace_printf_create lp64 (dt_pfdict_lookup chr pdi) m s = Ok (pfv, m') -> Forall rereads (pfv_argv pfv) ->
  exists str, dtrace_printf_format pfv (S (length str)) = Some (str ++ [0], length str) /\
    forall m2, plenty m2 (2 + length (pfv_argv pfv)) ->
      exists m3, dtrace_printf_create lp64 (dt_pfdict_lookup chr pdi) m2 str = Ok (PfArgv str (pfv_argv pfv) (pfv_flags pfv), m3).
Proof.
  intros H HF. unfold dtrace_printf_create, dt_printf_create in H.
  destruct (malloc m) as [[] m0]; [|done]. destruct (malloc m0) as [[] m1]; [|done].
  inv_bind H. destruct r as [pfv0 m4]. injection H as <- <-. inv_bind Hr. destruct r as [argv m5]. injection Hr as <- <-.
  cbn [pfv_argv pfv_format pfv_flags] in *. rewrite length_fmap.
  assert (Forall rereads argv) as HF'.
  { rewrite Forall_fmap in HF. eapply Forall_impl; [exact HF|]. intros pfd. unfold rereads, full_fmt. cbn.
    destruct (pfd_conv pfd) as [pfc|] eqn:E; [|by rewrite E]. by destruct (negb _); cbn; rewrite E. }
  pose proof (pfdict_lookup_name chr pdi) as Hname.
  destruct (create_loop_reread lp64 _ Hname _ _ _ _ _ _ Hr0 HF') as [Hlen Hread].
  set (str := pickle (full_fmt <$> argv)) in *. exists str. split.
  - unfold dtrace_printf_format. cbn [pfv_argv]. fold str. unfold formatlen. cbn [pfv_argv pfv_format]. rewrite length_fmap.
    replace (_ <? _)%nat with true by (symmetry; apply Nat.ltb_lt; lia). unfold strncpy.
    rewrite take_ge by lia. by replace (S (length str) - length str)%nat with 1%nat by lia.
  - intros m2 Hm2. destruct (plenty_malloc _ _ Hm2) as (m3 & E3 & Hm3). destruct (plenty_malloc _ _ Hm3) as (m6 & E6 & Hm6).
    destruct (Hread (S (length str)) m6 str ltac:(lia)) as [m7 E7]; [|done|].
    { split; [|by intros ->; cbn in Hr0; destruct (malloc m1) as [[] ?]; simplify_eq/=].
      intros Hstr. destruct s; [done|]. exfalso. by eapply create_loop_nonempty in Hr0. }
    exists m7. unfold dtrace_printf_create, dt_printf_create. rewrite E3, E6, E7. done.
Qed.

Module Formats.

(** One type stands for all. *)
Definition lookup_type (o : type_obj) (s : bytes) : option ctf_type := Some (CtfType 1 2).
Definition dict : dt_pfdict :=
  match dt_pfdict_create char_signed lookup_type (replicate 60 true) with Ok (pdi, _) => pdi | Err _ => [] end.
Definition create (s : string) := dtrace_printf_create true (dt_pfdict_lookup char_signed dict) (replicate 20 true) (lit s).
Definition argv (s : string) : list dt_pfargd :=
  match create s with Ok (pfv, _) => pfv_argv pfv | Err _ => [] end.
Definition example : string := "%5d|%-8s %% %#?lx%*.2f @%@'d".

Lemma printf_format_roundtrip_witness :
  Forall rereads (argv example) /\
  exists str, dtrace_printf_format (PfArgv (lit example) (argv example) 0) (S (length str)) = Some (str ++ [0], length str) /\
    forall m2, plenty m2 (2 + length (argv example)) ->
      exists m3, dtrace_printf_create true (dt_pfdict_lookup char_signed dict) m2 str = Ok (PfArgv str (argv example) 0, m3).
Proof.
  assert (Forall rereads (argv example)) as HF by (apply (bool_decide_eq_true_1 _); vm_compute; reflexivity).
  split; [exact HF|].
  exact (printf_format_roundtrip char_signed dict true (replicate 20 true) (lit example)
    (PfArgv (lit example) (argv example) 0) (replicate 12 true) ltac:(vm_compute; reflexivity) HF).
Defined.

(** A width next to a dynamic precision is written after it, and read back as a
    precision. *)
Example dynamic_precision_loses_width :
  pickle (argv "%5.*d") = lit "%.*5d" /\ pfd_width <$> argv "%5.*d" = [5] /\ pfd_width <$> argv "%.*5d" = [0].
Proof. split_and!; vm_compute; reflexivity. Qed.

(** Errors: a second dot, a name that is not in the table, the end of the string, % with
    flags. *)
Example format_errors : create "%.3.4d" = Err EDT_COMPILER /\ create "%hld" = Err EDT_COMPILER /\
  create "100%" = Err EDT_COMPILER /\ create "%5%" = Err EDT_COMPILER /\ create "%1$d" = Err EDT_COMPILER.
Proof. split_and!; vm_compute; reflexivity. Qed.

End Formats.
