(* ===== verification/Ident.v ===== *)
(** * Identifier tables of the D compiler (libdtrace/dt_ident.c, dt_pcb.c, dt_pragma.c)

    The tables the compiler keeps its identifiers in, with what the parser does to them:
    variables are looked up, created with a new id, cooked (given a type and a signature), given
    a place in the storage of their table and, when the compilation fails, removed again.

    Identifiers and tables are objects on a heap, named by an address; using one that was
    freed ends in [Crash], like a failing assertion or a NULL dereference.  A chain of
    [di_next] pointers is the list of the identifiers on it.  The memory that the
    destructors of the ops vectors release (signatures, parse trees) is not part of the
    state: of a signature there is the address in [di_data]. *)

From stdpp Require Import base gmap list numbers strings sets.
From S2P Require Import Prelude Str Htab Notes Printf.

(** ** Data *)

Definition DT_IDENT_ARRAY : Z := 0.
Definition DT_IDENT_SCALAR : Z := 1.
Definition DT_IDENT_FUNC : Z := 3.
Definition DT_IDENT_AGG : Z := 4.
Definition DT_IDENT_AGGFUNC : Z := 5.
Definition DT_IDENT_ACTFUNC : Z := 6.
Definition DT_IDENT_PRAGAT : Z := 11.
Definition DT_IDENT_PRAGBN : Z := 12.

Definition DT_IDFLG_TLS : Z := 1.
Definition DT_IDFLG_LOCAL : Z := 2.
Definition DT_IDFLG_WRITE : Z := 4.
Definition DT_IDFLG_INLINE : Z := 8.
Definition DT_IDFLG_REF : Z := 16.
Definition DT_IDFLG_MOD : Z := 32.
Definition DT_IDFLG_DIFR : Z := 64.
Definition DT_IDFLG_DIFW : Z := 128.
Definition DT_IDFLG_USER : Z := 512.
Definition DT_IDFLG_DECL : Z := 1024.
Definition DT_IDFLG_ORPHAN : Z := 2048.

Definition UINT_MAX : Z := 4294967295.
Definition CTF_ERR : Z := -1.
Definition EDT_NOMEM : Z := 1008.
Definition EDT_COMPILER : Z := 1005.

(** The ops vectors. *)
Inductive dt_idops :=
  | dt_idops_assc | dt_idops_func | dt_idops_args | dt_idops_regs | dt_idops_type
  | dt_idops_thaw | dt_idops_inline | dt_idops_probe | dt_idops_difo.

Record dt_ident := Ident {
  di_name : option (list Z);
  di_kind : Z;
  di_flags : Z;
  di_id : Z;
  di_attr : attribute;
  di_vers : Z;
  di_ops : option dt_idops;
  di_iarg : Z;
  di_data : Z;
  di_ctfp : Z;
  di_type : Z;
  di_offset : Z;
  di_size : Z;
  di_gen : Z;
  di_lineno : Z;
  di_hash : option nat;
}.

(** [dh_defer] is NULL or dt_pragma_apply(), the one callback there is; [dh_tmpl] the
    entries of the template before the one without a name. *)
Record dt_idhash := IdHash {
  dh_name : list Z;
  dh_defer : bool;
  dh_tmpl : option (list dt_ident);
  dh_nextid : Z;
  dh_minid : Z;
  dh_maxid : Z;
  dh_nextoff : Z;
  dh_nelems : Z;
  dh_hashsz : Z;
  dh_hash : list (list nat);
}.

(** The part of a parsing control block that names tables. *)
Record dt_pcb := Pcb {
  pcb_globals : list nat;
  pcb_pragmas : option nat;
  pcb_locals : option nat;
  pcb_idents : option nat;
}.

(** The handle, with the heap ([brk] is above every address in use), the outcomes of the
    coming allocations and the stack of the control blocks, yypcb first. *)
Record hdl := Hdl {
  ids : gmap nat dt_ident;
  hashes : gmap nat dt_idhash;
  brk : nat;
  mem : allocs;
  dt_gen : Z;
  dt_vmax : Z;
  dt_maxdvarsize : Z;
  dt_maxlvaralloc : Z;
  dt_macros : nat;
  dt_aggs : nat;
  dt_globals : nat;
  dt_tls : nat;
  pcbs : list dt_pcb;
  yylineno : Z;
}.

Definition set_ids f s := Hdl (f (ids s)) (hashes s) (brk s) (mem s) (dt_gen s) (dt_vmax s) (dt_maxdvarsize s)
  (dt_maxlvaralloc s) (dt_macros s) (dt_aggs s) (dt_globals s) (dt_tls s) (pcbs s) (yylineno s).
Definition set_hashes f s := Hdl (ids s) (f (hashes s)) (brk s) (mem s) (dt_gen s) (dt_vmax s) (dt_maxdvarsize s)
  (dt_maxlvaralloc s) (dt_macros s) (dt_aggs s) (dt_globals s) (dt_tls s) (pcbs s) (yylineno s).
Definition set_brk b s := Hdl (ids s) (hashes s) b (mem s) (dt_gen s) (dt_vmax s) (dt_maxdvarsize s)
  (dt_maxlvaralloc s) (dt_macros s) (dt_aggs s) (dt_globals s) (dt_tls s) (pcbs s) (yylineno s).
Definition set_mem m s := Hdl (ids s) (hashes s) (brk s) m (dt_gen s) (dt_vmax s) (dt_maxdvarsize s)
  (dt_maxlvaralloc s) (dt_macros s) (dt_aggs s) (dt_globals s) (dt_tls s) (pcbs s) (yylineno s).
Definition set_gen g s := Hdl (ids s) (hashes s) (brk s) (mem s) g (dt_vmax s) (dt_maxdvarsize s)
  (dt_maxlvaralloc s) (dt_macros s) (dt_aggs s) (dt_globals s) (dt_tls s) (pcbs s) (yylineno s).
Definition set_maxdvarsize z s := Hdl (ids s) (hashes s) (brk s) (mem s) (dt_gen s) (dt_vmax s) z
  (dt_maxlvaralloc s) (dt_macros s) (dt_aggs s) (dt_globals s) (dt_tls s) (pcbs s) (yylineno s).
Definition set_maxlvaralloc z s := Hdl (ids s) (hashes s) (brk s) (mem s) (dt_gen s) (dt_vmax s) (dt_maxdvarsize s)
  z (dt_macros s) (dt_aggs s) (dt_globals s) (dt_tls s) (pcbs s) (yylineno s).
Definition set_yylineno n s := Hdl (ids s) (hashes s) (brk s) (mem s) (dt_gen s) (dt_vmax s) (dt_maxdvarsize s)
  (dt_maxlvaralloc s) (dt_macros s) (dt_aggs s) (dt_globals s) (dt_tls s) (pcbs s) n.
Definition set_pcbs p s := Hdl (ids s) (hashes s) (brk s) (mem s) (dt_gen s) (dt_vmax s) (dt_maxdvarsize s)
  (dt_maxlvaralloc s) (dt_macros s) (dt_aggs s) (dt_globals s) (dt_tls s) p (yylineno s).

Definition with_flags f i := Ident (di_name i) (di_kind i) f (di_id i) (di_attr i) (di_vers i) (di_ops i) (di_iarg i)
  (di_data i) (di_ctfp i) (di_type i) (di_offset i) (di_size i) (di_gen i) (di_lineno i) (di_hash i).
Definition with_attr a i := Ident (di_name i) (di_kind i) (di_flags i) (di_id i) a (di_vers i) (di_ops i) (di_iarg i)
  (di_data i) (di_ctfp i) (di_type i) (di_offset i) (di_size i) (di_gen i) (di_lineno i) (di_hash i).
Definition with_vers v i := Ident (di_name i) (di_kind i) (di_flags i) (di_id i) (di_attr i) v (di_ops i) (di_iarg i)
  (di_data i) (di_ctfp i) (di_type i) (di_offset i) (di_size i) (di_gen i) (di_lineno i) (di_hash i).
Definition with_ctype c t i := Ident (di_name i) (di_kind i) (di_flags i) (di_id i) (di_attr i) (di_vers i) (di_ops i) (di_iarg i)
  (di_data i) c t (di_offset i) (di_size i) (di_gen i) (di_lineno i) (di_hash i).
Definition with_data d i := Ident (di_name i) (di_kind i) (di_flags i) (di_id i) (di_attr i) (di_vers i) (di_ops i) (di_iarg i)
  d (di_ctfp i) (di_type i) (di_offset i) (di_size i) (di_gen i) (di_lineno i) (di_hash i).
Definition with_offset o i := Ident (di_name i) (di_kind i) (di_flags i) (di_id i) (di_attr i) (di_vers i) (di_ops i) (di_iarg i)
  (di_data i) (di_ctfp i) (di_type i) o (di_size i) (di_gen i) (di_lineno i) (di_hash i).
Definition with_size z i := Ident (di_name i) (di_kind i) (di_flags i) (di_id i) (di_attr i) (di_vers i) (di_ops i) (di_iarg i)
  (di_data i) (di_ctfp i) (di_type i) (di_offset i) z (di_gen i) (di_lineno i) (di_hash i).
Definition with_hash h i := Ident (di_name i) (di_kind i) (di_flags i) (di_id i) (di_attr i) (di_vers i) (di_ops i) (di_iarg i)
  (di_data i) (di_ctfp i) (di_type i) (di_offset i) (di_size i) (di_gen i) (di_lineno i) h.
Definition morphed k o a i := Ident (di_name i) k (di_flags i) (di_id i) (di_attr i) (di_vers i) o a
  0 (di_ctfp i) (di_type i) (di_offset i) (di_size i) (di_gen i) (di_lineno i) (di_hash i).

Definition with_tmpl t H := IdHash (dh_name H) (dh_defer H) t (dh_nextid H) (dh_minid H) (dh_maxid H) (dh_nextoff H)
  (dh_nelems H) (dh_hashsz H) (dh_hash H).
Definition with_defer d H := IdHash (dh_name H) d (dh_tmpl H) (dh_nextid H) (dh_minid H) (dh_maxid H) (dh_nextoff H)
  (dh_nelems H) (dh_hashsz H) (dh_hash H).
Definition with_nextid n H := IdHash (dh_name H) (dh_defer H) (dh_tmpl H) n (dh_minid H) (dh_maxid H) (dh_nextoff H)
  (dh_nelems H) (dh_hashsz H) (dh_hash H).
Definition with_nextoff o H := IdHash (dh_name H) (dh_defer H) (dh_tmpl H) (dh_nextid H) (dh_minid H) (dh_maxid H) o
  (dh_nelems H) (dh_hashsz H) (dh_hash H).
Definition with_chain n i c H := IdHash (dh_name H) (dh_defer H) (dh_tmpl H) (dh_nextid H) (dh_minid H) (dh_maxid H) (dh_nextoff H)
  n (dh_hashsz H) (<[i := c]> (dh_hash H)).

(** ** Effects *)

(** An operation returns, or jumps to the [setjmp] of yypcb with an error, or ends the
    process ([Crash]).  [Deep] is the result when the bound on the nesting of
    dt_idhash_populate() is used up. *)
Inductive outcome (A : Type) := Ret (a : A) (s : hdl) | Jmp (e : Z) (s : hdl) | Crash | Deep.
Arguments Ret {A}.
Arguments Jmp {A}.
Arguments Crash {A}.
Arguments Deep {A}.

Definition M (A : Type) : Type := hdl -> outcome A.
#[export] Instance M_ret : MRet M := λ A a s, Ret a s.
#[export] Instance M_bind : MBind M := λ A B f m s,
  match m s with Ret a s => f a s | Jmp e s => Jmp e s | Crash => Crash | Deep => Deep end.

Definition crash {A} : M A := λ s, Crash.
Definition gets {A} (f : hdl -> A) : M A := λ s, Ret (f s) s.
Definition modify (f : hdl -> hdl) : M () := λ s, Ret () (f s).
Definition assert (b : bool) : M () := if b then mret () else crash.

(** longjmp(yypcb->pcb_jmpbuf, e): without a yypcb, a NULL dereference. *)
Definition longjmp {A} (e : Z) : M A := λ s, match pcbs s with [] => Crash | _ :: _ => Jmp e s end.

(** The error of xyerror() and dnerror(). *)
Definition xyerror {A} : M A := longjmp EDT_COMPILER.

Definition yypcb : M dt_pcb := λ s, match pcbs s with [] => Crash | p :: _ => Ret p s end.
Definition upd_pcb (f : dt_pcb -> dt_pcb) : M () :=
  λ s, match pcbs s with [] => Crash | p :: ps => Ret () (set_pcbs (f p :: ps) s) end.

Definition ident (p : nat) : M dt_ident := λ s, match ids s !! p with Some i => Ret i s | None => Crash end.
Definition upd_ident (p : nat) (f : dt_ident -> dt_ident) : M () :=
  λ s, match ids s !! p with Some i => Ret () (set_ids (<[p := f i]>) s) | None => Crash end.
Definition free_ident (p : nat) : M () :=
  λ s, match ids s !! p with Some _ => Ret () (set_ids (delete p) s) | None => Crash end.
Definition idhash (h : nat) : M dt_idhash := λ s, match hashes s !! h with Some H => Ret H s | None => Crash end.
Definition upd_idhash (h : nat) (f : dt_idhash -> dt_idhash) : M () :=
  λ s, match hashes s !! h with Some H => Ret () (set_hashes (<[h := f H]>) s) | None => Crash end.
Definition free_idhash (h : nat) : M () :=
  λ s, match hashes s !! h with Some _ => Ret () (set_hashes (delete h) s) | None => Crash end.

(** malloc() also fails when there is no address left. *)
Definition alloc : M bool :=
  λ s, let '(ok, m) := malloc (mem s) in Ret (ok && (Z.of_nat (brk s) <? 2 ^ 64 - 1)) (set_mem m s).
Definition new_ident (i : dt_ident) : M nat :=
  λ s, Ret (brk s) (set_brk (S (brk s)) (set_ids (<[brk s := i]>) s)).
Definition new_idhash (H : dt_idhash) : M nat :=
  λ s, Ret (brk s) (set_brk (S (brk s)) (set_hashes (<[brk s := H]>) s)).

(** A block that nothing but an address is kept of. *)
Definition new_block : M Z := λ s, Ret (Z.of_nat (brk s)) (set_brk (S (brk s)) s).

(** A string that must not be NULL. *)
Definition str (o : option (list Z)) : M (list Z) := match o with Some n => mret n | None => crash end.

Fixpoint each {A} (f : A -> M ()) (l : list A) : M () :=
  match l with [] => mret () | x :: l => f x ;; each f l end.

(** ** Operations *)

Section Operations.
Context (chr : Z -> Z) (qsort : forall A, (A -> A -> Z) -> list A -> list A).

(** str2hval(name, 0) % hashsz *)
Definition slot (name : list Z) (H : dt_idhash) : nat := Z.to_nat (str2hval chr name 0 `mod` dh_hashsz H).
Definition chain (H : dt_idhash) (i : nat) : list nat := default [] (dh_hash H !! i).

(** *** Identifiers *)

Definition dt_ident_create (name : option (list Z)) (kind flags id : Z) (attr : attribute) (vers : Z)
    (ops : option dt_idops) (iarg gen : Z) : M (option nat) :=
  dup ← match name with Some _ => alloc | None => mret true end;
  if negb dup then mret None else
  ok ← alloc;
  if negb ok then mret None else
  line ← gets yylineno;
  p ← new_ident (Ident name kind flags id attr vers ops iarg 0 0 CTF_ERR (-1) 0 gen line None);
  mret (Some p).

Definition dt_ident_destroy (idp : nat) : M () := free_ident idp.

Definition dt_ident_morph (idp : nat) (kind : Z) (ops : option dt_idops) (iarg : Z) : M () :=
  upd_ident idp (morphed kind ops iarg).

Definition dt_ident_type_assign (idp : nat) (fp type : Z) : M () := upd_ident idp (with_ctype fp type).

(** The offset for a variable of the given alignment in a table whose storage is used up to
    [nextoff]. *)
Definition place (nextoff alignment : Z) : Z :=
  Z.land (u32 (nextoff + u32 (alignment - 1))) (u32 (Z.lnot (u32 (alignment - 1)))).

Definition dt_ident_set_storage (idp : nat) (alignment size : Z) : M () :=
  i ← ident idp;
  dhp ← match di_hash i with Some h => mret h | None => crash end;
  H ← idhash dhp;
  (if negb (di_kind i =? DT_IDENT_AGG) && negb (flag (di_flags i) DT_IDFLG_TLS)
   then
     upd_ident idp (with_offset (s32 (place (dh_nextoff H) alignment))) ;;
     upd_idhash dhp (with_nextoff (u32 (s32 (place (dh_nextoff H) alignment) + size)))
   else upd_ident idp (with_offset 0)) ;;
  upd_ident idp (with_size (s32 size)) ;;
  max ← gets dt_maxdvarsize;
  if ((di_kind i =? DT_IDENT_ARRAY) || flag (di_flags i) DT_IDFLG_TLS) && (max <? size)
  then modify (set_maxdvarsize size) else mret ().

Definition dt_ident_unref (idp : nat) : M bool :=
  i ← ident idp;
  gen ← gets dt_gen;
  mret ((di_gen i =? gen) && negb (flag (di_flags i) (Z.lor (Z.lor DT_IDFLG_REF DT_IDFLG_MOD) DT_IDFLG_DECL))).

Definition or_flags (idp : nat) (f : Z) : M () := upd_ident idp (λ i, with_flags (u16 (Z.lor (di_flags i) f)) i).

(** *** Cooking *)

(** What the cooking of an identifier depends on besides the identifier: the number of
    arguments, and whether they are of types that can be keys or that agree with the
    signature; the type <DYN>; what dt_type_lookup() finds for the type that [di_iarg] names
    (for args[], whether its type is known and can be translated); and, unless the prototype
    of a function is malformed, whether the types of its parameters are found. *)
Record cooking := Cooking {
  ck_argc : Z;
  ck_fits : bool;
  ck_dyn : Z * Z;
  ck_type : option (Z * Z);
  ck_params : option (list bool);
}.

(** An identifier gets a signature with [argc] arguments. *)
Definition new_sig (idp : nat) (argc : Z) : M () :=
  isp ← alloc;
  if negb isp then longjmp EDT_NOMEM else
  d ← new_block;
  upd_ident idp (with_data d) ;;
  args ← (if argc =? 0 then mret true else alloc);
  if negb args then upd_ident idp (with_data 0) ;; longjmp EDT_NOMEM else mret ().

(** dt_idcook_sign(): the arguments are checked against the signature. *)
Definition dt_idcook_sign (c : cooking) : M () := if ck_fits c then mret () else xyerror.

Definition dt_idcook_assc (idp : nat) (c : cooking) : M () :=
  i ← ident idp;
  if di_data i =? 0 then
    new_sig idp (ck_argc c) ;;
    (if flag (di_flags i) DT_IDFLG_DECL then mret () else upd_ident idp (with_ctype (ck_dyn c).1 (ck_dyn c).2)) ;;
    if ck_fits c then mret () else xyerror
  else dt_idcook_sign c.

Definition dt_idcook_func (idp : nat) (c : cooking) : M () :=
  i ← ident idp;
  (if di_data i =? 0 then
     assert (negb (di_iarg i =? 0)) ;;
     match ck_params c with
     | None => xyerror
     | Some params =>
         new_sig idp (Z.of_nat (length params)) ;;
         match ck_type c with
         | None => xyerror
         | Some dtt =>
             (if di_kind i =? DT_IDENT_AGGFUNC then upd_ident idp (with_ctype (ck_dyn c).1 (ck_dyn c).2)
              else upd_ident idp (with_ctype dtt.1 dtt.2)) ;;
             if forallb id params then mret () else xyerror
         end
     end
   else mret ()) ;;
  dt_idcook_sign c.

(** The identifier that is made for the node belongs to the parse tree. *)
Definition dt_idcook_args (idp : nat) (c : cooking) : M () :=
  i ← ident idp;
  if negb (ck_fits c) then xyerror else
  (if di_type i =? CTF_ERR then upd_ident idp (with_ctype (ck_dyn c).1 (ck_dyn c).2) else mret ()) ;;
  match ck_type c with
  | None => xyerror
  | Some _ => ok ← alloc; if negb ok then longjmp EDT_NOMEM else mret ()
  end.

Definition dt_idcook_regs (idp : nat) (c : cooking) : M () :=
  if negb (ck_fits c) then xyerror else
  match ck_type c with
  | None => xyerror
  | Some dtt => upd_ident idp (with_ctype dtt.1 dtt.2)
  end.

Definition dt_idcook_type (idp : nat) (c : cooking) : M () :=
  i ← ident idp;
  if di_type i =? CTF_ERR then
    assert (negb (di_iarg i =? 0)) ;;
    match ck_type c with
    | None => xyerror
    | Some dtt => upd_ident idp (with_ctype dtt.1 dtt.2)
    end
  else mret ().

Definition dt_idcook_inline (idp : nat) (c : cooking) : M () :=
  i ← ident idp;
  if di_kind i =? DT_IDENT_ARRAY then dt_idcook_assc idp c else mret ().

(** What dt_ident_cook() does to the identifier. *)
Definition dt_ident_cook (idp : nat) (c : cooking) : M () :=
  i ← ident idp;
  match di_ops i with
  | None => crash
  | Some dt_idops_assc => dt_idcook_assc idp c
  | Some dt_idops_func => dt_idcook_func idp c
  | Some dt_idops_args => dt_idcook_args idp c
  | Some dt_idops_regs => dt_idcook_regs idp c
  | Some dt_idops_type => dt_idcook_type idp c
  | Some dt_idops_inline => dt_idcook_inline idp c
  | Some (dt_idops_thaw | dt_idops_probe | dt_idops_difo) => mret ()
  end.

(** *** Tables *)

Definition dt_strbuckets : Z := 211.

Definition dt_idhash_create (name : list Z) (tmpl : option (list dt_ident)) (min max : Z) : M (option nat) :=
  assert (min <=? max) ;;
  ok ← alloc;
  if negb ok then mret None else
  p ← new_idhash (IdHash name false tmpl min min max 0 0 dt_strbuckets (replicate (Z.to_nat dt_strbuckets) []));
  mret (Some p).

Definition dt_idhash_destroy (dhp : option nat) : M () :=
  match dhp with
  | None => mret ()
  | Some h =>
      H ← idhash h;
      each (λ p, ident p ;; mret ()) (concat (dh_hash H)) ;;
      each free_ident (concat (dh_hash H)) ;;
      free_idhash h
  end.

Definition is_var (kind : Z) : bool :=
  (kind =? DT_IDENT_ARRAY) || (kind =? DT_IDENT_SCALAR) || (kind =? DT_IDENT_AGG).

Fixpoint update_loop (l : list nat) (nextid : Z) : M Z :=
  match l with
  | [] => mret nextid
  | p :: l =>
      i ← ident p;
      update_loop l (if is_var (di_kind i) then Z.max nextid (u32 (di_id i + 1)) else nextid)
  end.
Definition dt_idhash_update (dhp : nat) : M () :=
  H ← idhash dhp;
  nextid ← update_loop (concat (dh_hash H)) (dh_minid H);
  upd_idhash dhp (with_nextid nextid).

(** The loop over a chain in dt_idhash_lookup(). *)
Fixpoint find_name (name : list Z) (l : list nat) : M (option nat) :=
  match l with
  | [] => mret None
  | p :: l =>
      i ← ident p;
      n ← str (di_name i);
      if decide (n = name) then mret (Some p) else find_name name l
  end.

Definition lookup_with (populate : nat -> M ()) (dhp : nat) (name : list Z) : M (option nat) :=
  H ← idhash dhp;
  (if decide (is_Some (dh_tmpl H)) then populate dhp else mret ()) ;;
  H ← idhash dhp;
  find_name name (chain H (slot name H)).

Definition dt_idhash_nextid (dhp : nat) : M (option Z) :=
  H ← idhash dhp;
  if dh_maxid H <=? dh_nextid H then mret None else
  upd_idhash dhp (with_nextid (u32 (dh_nextid H + 1))) ;;
  mret (Some (dh_nextid H)).

Definition dt_idhash_peekid (H : dt_idhash) : Z := dh_nextid H.
Definition dt_idhash_datasize (H : dt_idhash) : Z := dh_nextoff H.
Definition dt_idhash_size (H : dt_idhash) : Z := dh_nelems H.

Definition dt_idhash_delete (dhp key : nat) : M () :=
  k ← ident key;
  name ← str (di_name k);
  H ← idhash dhp;
  assert (bool_decide (key ∈ chain H (slot name H))) ;;
  assert (negb (dh_nelems H =? 0)) ;;
  upd_idhash dhp (with_chain (u64 (dh_nelems H - 1)) (slot name H) (remove_one key (chain H (slot name H)))) ;;
  if negb (flag (di_flags k) DT_IDFLG_ORPHAN) then dt_ident_destroy key else mret ().

(** dt_pragma_apply(): each turn of the loop removes an identifier from the chain that is
    searched, whose length bounds the loop. *)
Fixpoint pragma_loop (fuel : nat) (lookup : nat -> list Z -> M (option nat)) (php idp : nat) : M () :=
  match fuel with
  | O => crash
  | S fuel =>
      i ← ident idp;
      name ← str (di_name i);
      pdp ← lookup php name;
      match pdp with
      | None => mret ()
      | Some pdp =>
          p ← ident pdp;
          (if di_kind p =? DT_IDENT_PRAGAT then upd_ident idp (with_attr (di_attr p))
           else if di_kind p =? DT_IDENT_PRAGBN then upd_ident idp (with_vers (di_vers p))
           else mret ()) ;;
          dt_idhash_delete php pdp ;;
          pragma_loop fuel lookup php idp
      end
  end.
Definition dt_pragma_apply (lookup : nat -> list Z -> M (option nat)) (idp : nat) : M () :=
  pcb ← yypcb;
  match pcb_pragmas pcb with
  | None => mret ()
  | Some php =>
      P ← idhash php;
      i ← ident idp;
      name ← str (di_name i);
      pragma_loop (S (length (chain P (slot name P)))) lookup php idp
  end.

(** What dt_idhash_insert() and dt_idhash_xinsert() do with the identifier. *)
Definition link (populate : nat -> M ()) (dhp : nat) (name : list Z) (idp : nat) : M () :=
  H ← idhash dhp;
  upd_ident idp (with_hash (Some dhp)) ;;
  upd_idhash dhp (with_chain (u64 (dh_nelems H + 1)) (slot name H) (idp :: chain H (slot name H))) ;;
  if dh_defer H then dt_pragma_apply (lookup_with populate) idp else mret ().

Definition insert_with (populate : nat -> M ()) (dhp : nat) (name : list Z) (kind flags id : Z) (attr : attribute)
    (vers : Z) (ops : option dt_idops) (iarg gen : Z) : M (option nat) :=
  H ← idhash dhp;
  (if decide (is_Some (dh_tmpl H)) then populate dhp else mret ()) ;;
  idp ← dt_ident_create (Some name) kind flags id attr vers ops iarg gen;
  match idp with
  | None => mret None
  | Some p => link populate dhp name p ;; mret (Some p)
  end.

(** A table is populated once, and its template is cleared before the entries are inserted:
    the calls nest at most as deep as there are tables with a template. *)
Fixpoint populate_at (depth : nat) (dhp : nat) : M () :=
  match depth with
  | O => λ s, Deep
  | S depth =>
      H ← idhash dhp;
      upd_idhash dhp (with_tmpl None) ;;
      each (λ i : dt_ident,
              name ← str (di_name i);
              r ← insert_with (populate_at depth) dhp name (di_kind i) (di_flags i) (di_id i) (di_attr i) (di_vers i)
                    (Some (default dt_idops_thaw (di_ops i))) (di_iarg i) 0;
              match r with None => longjmp EDT_NOMEM | Some _ => mret () end)
        (default [] (dh_tmpl H))
  end.
Definition dt_idhash_populate : nat -> M () := populate_at 2.

Definition dt_idhash_lookup := lookup_with dt_idhash_populate.
Definition dt_idhash_insert := insert_with dt_idhash_populate.

Definition dt_idhash_xinsert (dhp idp : nat) : M () :=
  H ← idhash dhp;
  (if decide (is_Some (dh_tmpl H)) then dt_idhash_populate dhp else mret ()) ;;
  i ← ident idp;
  name ← str (di_name i);
  upd_ident idp (λ i, with_flags (Z.land (di_flags i) (Z.lnot DT_IDFLG_ORPHAN)) i) ;;
  link dt_idhash_populate dhp name idp.

Definition dt_idhash_comp (lhs rhs : nat * dt_ident) : Z :=
  if negb (di_id lhs.2 =? di_id rhs.2) then s32 (u32 (di_id lhs.2 - di_id rhs.2))
  else strcmp (default [] (di_name lhs.2)) (default [] (di_name rhs.2)).

(** The calls of dt_idhash_iter(), up to the first that does not return 0. *)
Fixpoint visit (func : nat -> nat -> M Z) (dhp : nat) (l : list nat) : M Z :=
  match l with
  | [] => mret 0
  | p :: l => rv ← func dhp p; if negb (rv =? 0) then mret rv else visit func dhp l
  end.
Fixpoint idents (l : list nat) : M (list (nat * dt_ident)) :=
  match l with [] => mret [] | p :: l => i ← ident p; r ← idents l; mret ((p, i) :: r) end.
Definition dt_idhash_iter (dhp : nat) (func : nat -> nat -> M Z) : M Z :=
  H ← idhash dhp;
  (if decide (is_Some (dh_tmpl H)) then dt_idhash_populate dhp else mret ()) ;;
  H ← idhash dhp;
  assert (Z.of_nat (length (concat (dh_hash H))) =? dh_nelems H) ;;
  l ← idents (concat (dh_hash H));
  visit func dhp ((qsort _ dt_idhash_comp l).*1).

(** *** The stack of tables that a global name is searched in *)

Fixpoint stack_lookup (name : list Z) (l : list nat) : M (option nat) :=
  match l with
  | [] => mret None
  | dhp :: l =>
      r ← dt_idhash_lookup dhp name;
      match r with Some p => mret (Some p) | None => stack_lookup name l end
  end.
Definition dt_idstack_lookup (sp : list nat) (name : list Z) : M (option nat) := stack_lookup name (rev sp).
Definition dt_idstack_push (sp : list nat) (dhp : nat) : list nat := sp ++ [dhp].
Definition dt_idstack_pop (sp : list nat) (dhp : nat) : M (list nat) :=
  assert (bool_decide (last sp = Some dhp)) ;; mret (remove_one dhp sp).

(** *** What the compiler does to the tables *)

(** The flags of the last pass are forgotten. *)
Definition dt_idreset (dhp idp : nat) : M Z :=
  upd_ident idp (λ i, with_flags (Z.land (di_flags i)
    (Z.lnot (Z.lor (Z.lor DT_IDFLG_REF DT_IDFLG_MOD) (Z.lor DT_IDFLG_DIFR DT_IDFLG_DIFW)))) i) ;;
  mret 0.

(** An identifier of a later version of the interface goes. *)
Definition dt_reduceid (dhp idp : nat) : M Z :=
  i ← ident idp;
  vmax ← gets dt_vmax;
  (if negb (di_vers i =? 0) && (vmax <? di_vers i) then dt_idhash_delete dhp idp else mret ()) ;;
  mret 0.

(** An identifier of the pass that failed goes. *)
Definition dt_pcb_pop_ident (dhp idp : nat) : M Z :=
  i ← ident idp;
  gen ← gets dt_gen;
  (if di_gen i =? gen then dt_idhash_delete dhp idp else mret ()) ;;
  mret 0.

(** A pragma that was kept for an identifier and not used is an error. *)
Definition dt_idpragma (dhp idp : nat) : M Z :=
  i ← ident idp;
  modify (set_yylineno (di_lineno i)) ;;
  xyerror.

Definition dt_pcb_push : M () :=
  g ← gets dt_globals;
  modify (λ s, set_pcbs (Pcb (dt_idstack_push [] g) None None None :: pcbs s) s) ;;
  modify (λ s, set_gen (u64 (dt_gen s + 1)) s).

(** The identifiers of a pass that failed are removed and the ids given back. *)
Definition roll_back (dhp : nat) : M () :=
  dt_idhash_iter dhp dt_pcb_pop_ident ;; dt_idhash_update dhp.

Definition dt_pcb_pop (err : Z) : M () :=
  pcb ← yypcb;
  (if negb (err =? 0)
   then
     h ← gets dt_aggs; roll_back h ;;
     h ← gets dt_globals; roll_back h ;;
     h ← gets dt_tls; roll_back h
   else mret ()) ;;
  locals ← match pcb_locals pcb with Some h => mret h | None => crash end;
  L ← idhash locals;
  max ← gets dt_maxlvaralloc;
  (if max <? dh_nextoff L then modify (set_maxlvaralloc (dh_nextoff L)) else mret ()) ;;
  dt_idhash_destroy (pcb_pragmas pcb) ;;
  dt_idhash_destroy (pcb_locals pcb) ;;
  dt_idhash_destroy (pcb_idents pcb) ;;
  modify (λ s, set_pcbs (tail (pcbs s)) s).

(** *** What the parser does to the tables *)

Definition _dtrace_defattr : attribute := Attribute 6 6 5.

(** Where a variable lives: plain, self->, this-> and @ ones. *)
Inductive table := Globals | Tls | Locals | Aggs.
#[global] Instance table_eq_dec : EqDecision table.
Proof. solve_decision. Defined.

Definition table_of (t : table) : M nat :=
  match t with
  | Globals => gets dt_globals
  | Tls => gets dt_tls
  | Locals => pcb ← yypcb; match pcb_locals pcb with Some h => mret h | None => crash end
  | Aggs => gets dt_aggs
  end.

(** A name is searched in its table, a global one in the stack of tables. *)
Definition find (t : table) (name : list Z) : M (option nat) :=
  match t with
  | Globals => pcb ← yypcb; dt_idstack_lookup (pcb_globals pcb) name
  | _ => dhp ← table_of t; dt_idhash_lookup dhp name
  end.

(** A new identifier with the next id of its table. *)
Definition new_var (t : table) (name : list Z) (kind flags : Z) (ops : dt_idops) : M nat :=
  dhp ← table_of t;
  id ← dt_idhash_nextid dhp;
  match id with
  | None => xyerror
  | Some id =>
      gen ← gets dt_gen;
      idp ← dt_idhash_insert dhp name kind flags id _dtrace_defattr 0 (Some ops) 0 gen;
      match idp with None => longjmp EDT_NOMEM | Some p => mret p end
  end.

Definition storage_flags (t : table) : Z :=
  match t with Locals => DT_IDFLG_LOCAL | Tls => DT_IDFLG_TLS | _ => 0 end.

(** An identifier that dt_xcook_ident() has found or made is cooked, without arguments, if it
    is not an array or an aggregation. *)
Definition cook_scalar (p : nat) (c : cooking) : M () :=
  i ← ident p;
  if (di_kind i =? DT_IDENT_ARRAY) || (di_kind i =? DT_IDENT_AGG) then mret () else dt_ident_cook p c.

(** dt_xcook_ident() of a name without a scoping mark. *)
Definition dt_xcook_ident (t : table) (name : list Z) (idkind : Z) (create : bool) (c : cooking) : M nat :=
  r ← find t name;
  match r with
  | Some p =>
      i ← ident p;
      if negb (di_kind i =? idkind) && bool_decide (t = Globals) then xyerror else
      cook_scalar p c ;; mret p
  | None =>
      if create then
        p ← new_var t name idkind (Z.lor DT_IDFLG_WRITE (storage_flags t))
              (if (idkind =? DT_IDENT_ARRAY) || (idkind =? DT_IDENT_AGG) then dt_idops_assc else dt_idops_thaw);
        cook_scalar p c ;; mret p
      else xyerror
  end.

(** The flags of a reference that reads or writes. *)
Definition ref_flags (reads writes : bool) : Z :=
  Z.lor (if reads then DT_IDFLG_REF else 0) (if writes then DT_IDFLG_MOD else 0).

(** dt_node_cook() of a variable: dt_cook_var(), and the flags of the reference. *)
Definition dt_cook_var (p : nat) (reads writes : bool) (c : cooking) : M () :=
  virgin ← dt_ident_unref p;
  if reads && virgin then xyerror else
  dt_ident_cook p c ;;
  or_flags p (ref_flags reads writes).

(** dt_node_cook() of an aggregation: it is cooked with its keys when it is assigned to. *)
Definition dt_cook_aggregation (p : nat) (assigned reads : bool) (c : cooking) : M () :=
  (if assigned then dt_ident_cook p c else mret ()) ;;
  or_flags p (ref_flags reads assigned).

(** A function call: dt_node_func(), then dt_cook_func(). *)
Definition is_func (kind : Z) : bool :=
  (kind =? DT_IDENT_FUNC) || (kind =? DT_IDENT_AGGFUNC) || (kind =? DT_IDENT_ACTFUNC).
Definition dt_node_func (name : list Z) : M nat :=
  r ← find Globals name;
  match r with
  | None => xyerror
  | Some p => i ← ident p; if is_func (di_kind i) then mret p else xyerror
  end.

(** The declaration of a variable in dt_node_decl(): [same] tells whether the type (and
    signature) is the one of an identifier with the name; [attr] is the stability of an array
    whose keys are cooked. *)
Definition dt_node_decl (t : table) (name : list Z) (assc same : bool) (ctfp type alignment size : Z)
    (attr : attribute) (c : cooking) : M () :=
  r ← find t name;
  let idkind := if assc then DT_IDENT_ARRAY else DT_IDENT_SCALAR in
  match r with
  | Some p =>
      i ← ident p;
      if di_gen i =? 0 then xyerror else
      (if di_type i =? CTF_ERR then dt_ident_cook p c else mret ()) ;;
      if assc && bool_decide (t = Locals) then xyerror else
      if negb (di_kind i =? idkind) || negb same then xyerror else mret ()
  | None =>
      if assc && bool_decide (t = Locals) then xyerror else
      p ← new_var t name idkind (Z.lor (storage_flags t) (Z.lor DT_IDFLG_WRITE DT_IDFLG_DECL))
            (if assc then dt_idops_assc else dt_idops_thaw);
      dt_ident_type_assign p ctfp type ;;
      dt_ident_set_storage p alignment size ;;
      if assc then dt_ident_cook p c ;; upd_ident p (with_attr attr) else mret ()
  end.

(** The left-hand side of an assignment in dt_cook_op2(): a variable that this pass made and
    has not used takes the type of the right-hand side. *)
Definition cook_asgn (p : nat) (scalar string user : bool) (ctfp type size : Z) : M () :=
  virgin ← dt_ident_unref p;
  (if virgin : bool then
     dt_ident_type_assign p ctfp type ;;
     dt_ident_set_storage p (if scalar then size else if string then 1 else 8) size ;;
     (if user then or_flags p DT_IDFLG_USER else mret ())
   else mret ()) ;;
  or_flags p DT_IDFLG_MOD.

(** The operand of a unary operator in dt_cook_op1(): such a variable becomes an int64_t. *)
Definition cook_op1 (p : nat) (modifies : bool) (ctfp type : Z) : M () :=
  virgin ← dt_ident_unref p;
  (if virgin : bool then
     dt_ident_type_assign p ctfp type ;;
     dt_ident_set_storage p 8 8
   else mret ()) ;;
  or_flags p (if modifies then Z.lor DT_IDFLG_REF DT_IDFLG_MOD else DT_IDFLG_REF).

(** The operand of [] in dt_cook_op2(): a new self-> variable becomes an array. *)
Definition cook_lbrac (p : nat) : M () :=
  i ← ident p;
  virgin ← dt_ident_unref p;
  (if (di_kind i =? DT_IDENT_SCALAR) && virgin && flag (di_flags i) (Z.lor DT_IDFLG_LOCAL DT_IDFLG_TLS)
   then if flag (di_flags i) DT_IDFLG_LOCAL then xyerror
        else dt_ident_morph p DT_IDENT_ARRAY (Some dt_idops_assc) 0
   else mret ()) ;;
  i ← ident p;
  if negb (di_kind i =? DT_IDENT_ARRAY) then xyerror else mret ().

(** The identifier of a scalar inline definition: [flags] are those of the definition's
    identifier, [attr] its stability. *)
Definition dt_node_inline (name : list Z) (ctfp type flags : Z) (attr : attribute) : M () :=
  r ← find Globals name;
  match r with
  | Some _ => xyerror
  | None =>
      ok ← alloc;
      if negb ok then longjmp EDT_NOMEM else
      gen ← gets dt_gen;
      idp ← dt_ident_create (Some name) DT_IDENT_SCALAR
              (Z.lor (Z.lor DT_IDFLG_INLINE DT_IDFLG_REF) (Z.lor DT_IDFLG_DECL DT_IDFLG_ORPHAN)) 0
              _dtrace_defattr 0 (Some dt_idops_inline) 0 gen;
      match idp with
      | None => longjmp EDT_NOMEM
      | Some p =>
          or_flags p (Z.land flags (Z.lor DT_IDFLG_WRITE DT_IDFLG_USER)) ;;
          upd_ident p (with_attr attr) ;;
          dt_ident_type_assign p ctfp type ;;
          g ← gets dt_globals;
          dt_idhash_xinsert g p
      end
  end.

(** The pragmas on an identifier: done now, or kept for when it is defined. *)
Definition pragma_defer (name : list Z) (kind : Z) (attr : attribute) (vers : Z) : M () :=
  pcb ← yypcb;
  php ← match pcb_pragmas pcb with
        | Some h => mret h
        | None =>
            r ← dt_idhash_create (lit "pragma"%string) None 0 0;
            match r with
            | None => longjmp EDT_NOMEM
            | Some h => upd_pcb (λ p, Pcb (pcb_globals p) (Some h) (pcb_locals p) (pcb_idents p)) ;; mret h
            end
        end;
  gen ← gets dt_gen;
  idp ← dt_idhash_insert php name kind 0 0 attr vers (Some dt_idops_thaw) 0 gen;
  match idp with
  | None => longjmp EDT_NOMEM
  | Some _ => g ← gets dt_globals; upd_idhash g (with_defer true)
  end.
Definition dt_pragma_attributes (name : list Z) (attr : attribute) : M () :=
  r ← find Globals name;
  match r with
  | Some p =>
      i ← ident p; gen ← gets dt_gen;
      if negb (di_gen i =? gen) then xyerror else upd_ident p (with_attr attr)
  | None => pragma_defer name DT_IDENT_PRAGAT attr 0
  end.
Definition dt_pragma_binding (name : list Z) (vers : Z) : M () :=
  r ← find Globals name;
  match r with
  | Some p =>
      i ← ident p; gen ← gets dt_gen;
      if negb (di_gen i =? gen) then xyerror else upd_ident p (with_vers vers)
  | None => pragma_defer name DT_IDENT_PRAGBN _dtrace_defattr vers
  end.

(** What a program makes the parser do, in the order it is met: a use of a variable names
    it, and is cooked when the name has been resolved. *)
Inductive action :=
  | Decl (t : table) (name : list Z) (assc same : bool) (ctfp type alignment size : Z) (attr : attribute) (c : cooking)
  | Assign (t : table) (name : list Z) (kind : Z) (scalar string user : bool) (ctfp type size : Z) (c : cooking)
  | Unary (t : table) (name : list Z) (modifies : bool) (ctfp type : Z) (c : cooking)
  | Subscript (t : table) (name : list Z) (kind : Z) (create reads writes : bool) (c : cooking)
  | Ref (t : table) (name : list Z) (writes : bool) (c : cooking)
  | Call (name : list Z) (c : cooking)
  | Inline (name : list Z) (ctfp type flags : Z) (attr : attribute)
  | Attributes (name : list Z) (attr : attribute)
  | Binding (name : list Z) (vers : Z)
  | Reject.

(** The name in an expression: cooked without arguments. *)
Definition no_args (c : cooking) : cooking := Cooking 0 (ck_fits c) (ck_dyn c) (ck_type c) (ck_params c).

Definition exec (a : action) : M () :=
  match a with
  | Decl t name assc same ctfp type alignment size attr c => dt_node_decl t name assc same ctfp type alignment size attr c
  | Assign t name kind scalar string user ctfp type size c =>
      p ← dt_xcook_ident t name kind true (no_args c);
      if bool_decide (t = Aggs) then dt_cook_aggregation p true false c
      else cook_asgn p scalar string user ctfp type size
  | Unary t name modifies ctfp type c =>
      p ← dt_xcook_ident t name DT_IDENT_SCALAR modifies (no_args c);
      if bool_decide (t = Aggs) then mret () else cook_op1 p modifies ctfp type
  | Subscript t name kind create reads writes c =>
      p ← dt_xcook_ident t name kind create (no_args c);
      if bool_decide (t = Aggs) then dt_cook_aggregation p false reads c
      else cook_lbrac p ;; dt_cook_var p reads writes c
  | Ref t name writes c =>
      p ← dt_xcook_ident t name (if bool_decide (t = Aggs) then DT_IDENT_AGG else DT_IDENT_SCALAR) false (no_args c);
      if bool_decide (t = Aggs) then dt_cook_aggregation p false true c else dt_cook_var p true writes (no_args c)
  | Call name c => p ← dt_node_func name; dt_ident_cook p c
  | Inline name ctfp type flags attr => dt_node_inline name ctfp type flags attr
  | Attributes name attr => dt_pragma_attributes name attr
  | Binding name vers => dt_pragma_binding name vers
  | Reject => xyerror
  end.

(** [setjmp]: the error is the value. *)
Definition setjmp (body : M ()) : M Z :=
  λ s, match body s with Ret _ s => Ret 0 s | Jmp e s => Ret e s | Crash => Crash | Deep => Deep end.

(** [acts] is what the parser does, [clauses] what the compilation of the clauses that it
    has parsed does; in between, no pragma may be left over. *)
Definition compile_body (acts clauses : list action) : M () :=
  i ← dt_idhash_create (lit "ambiguous"%string) None 0 0;
  upd_pcb (λ p, Pcb (pcb_globals p) (pcb_pragmas p) (pcb_locals p) i) ;;
  l ← dt_idhash_create (lit "clause local"%string) None 0 UINT_MAX;
  upd_pcb (λ p, Pcb (pcb_globals p) (pcb_pragmas p) l (pcb_idents p)) ;;
  match i, l with
  | Some _, Some _ =>
      each exec acts ;;
      pcb ← yypcb;
      match pcb_pragmas pcb with
      | Some php => dt_idhash_iter php dt_idpragma ;; mret ()
      | None => mret ()
      end ;;
      each exec clauses
  | _, _ => longjmp EDT_NOMEM
  end.

Definition dt_compile (acts clauses : list action) : M Z :=
  g ← gets dt_globals; dt_idhash_iter g dt_idreset ;;
  t ← gets dt_tls; dt_idhash_iter t dt_idreset ;;
  dt_pcb_push ;;
  err ← setjmp (compile_body acts clauses);
  dt_pcb_pop err ;;
  mret err.

(** The tables that dtrace_open() makes; [tmpl] is the table of the built-in variables and
    functions. *)
Definition open_tables (tmpl : option (list dt_ident)) : M (option (nat * nat * nat * nat)) :=
  m ← dt_idhash_create (lit "macro"%string) None 0 UINT_MAX;
  a ← dt_idhash_create (lit "aggregation"%string) None 1 UINT_MAX;
  g ← dt_idhash_create (lit "global"%string) tmpl 1280 65535;
  t ← dt_idhash_create (lit "thread local"%string) None 1280 65535;
  mret (match m, a, g, t with Some m, Some a, Some g, Some t => Some (m, a, g, t) | _, _, _, _ => None end).

End Operations.
