(* ===== verification/IdentInv.v ===== *)
(** * Identifier tables: the invariant

    What holds of the tables and the identifiers in them between any two steps of the
    compiler ([inv]), what a compilation leaves as it was ([frame]), and the few kinds of
    change of the state that the operations are made of. *)

From stdpp Require Import base gmap list numbers strings sets.
From S2P Require Import Prelude Str Htab Notes Printf Ident.

(** ** Triples *)

(** [m] does not end the process, and returns in a state with [Q] or jumps in one with [E]. *)
Definition wp {A} (m : M A) (Q : A -> hdl -> Prop) (E : Z -> hdl -> Prop) (s : hdl) : Prop :=
  match m s with Ret a s => Q a s | Jmp e s => E e s | Crash | Deep => False end.

Lemma triple_bind {A B} (m : M A) (f : A -> M B) Q E s :
  wp m (λ a, wp (f a) Q E) E s -> wp (m ≫= f) Q E s.
Proof. unfold wp, mbind, M_bind. by destruct (m s). Qed.

Lemma triple_mono {A} (m : M A) (Q Q' : A -> hdl -> Prop) (E E' : Z -> hdl -> Prop) s :
  (forall a s, Q a s -> Q' a s) -> (forall e s, E e s -> E' e s) -> wp m Q E s -> wp m Q' E' s.
Proof. unfold wp. destruct (m s); eauto. Qed.

Lemma triple_ret {A} (a : A) (Q : A -> hdl -> Prop) E s : Q a s -> wp (mret a) Q E s.
Proof. done. Qed.

(** ** Lists of chains *)

Definition members (H : dt_idhash) : list nat := concat (dh_hash H).

Lemma elem_of_members p H : p ∈ members H <-> exists k, p ∈ chain H k.
Proof.
  unfold members, chain. rewrite list_elem_of_In, in_concat. split.
  - intros (l & Hl & Hp). apply list_elem_of_In, list_elem_of_lookup in Hl as [k Hk]. exists k. rewrite Hk. by apply list_elem_of_In.
  - intros [k Hk]. destruct (dh_hash H !! k) as [l|] eqn:E; [|by apply elem_of_nil in Hk].
    exists l. split; apply list_elem_of_In; [by eapply list_elem_of_lookup_2|done].
Qed.

Lemma concat_insert (l : list (list nat)) k c0 : l !! k = Some c0 ->
  exists rest, concat l ≡ₚ c0 ++ rest /\ (forall c, concat (<[k := c]> l) ≡ₚ c ++ rest).
Proof.
  intros E. exists (concat (take k l) ++ concat (drop (S k) l)).
  pose proof (lookup_lt_Some _ _ _ E). split.
  - rewrite <- (take_drop_middle _ _ _ E) at 1. rewrite concat_app. cbn [concat]. solve_Permutation.
  - intros c. rewrite insert_take_drop by done. rewrite concat_app. cbn [concat]. solve_Permutation.
Qed.

Lemma chain_with_chain H n k c j : (k < length (dh_hash H))%nat ->
  chain (with_chain n k c H) j = if decide (j = k) then c else chain H j.
Proof.
  intros Hk. unfold chain, with_chain. simpl. destruct (decide (j = k)) as [->|D].
  - by rewrite list_lookup_insert_eq.
  - by rewrite list_lookup_insert_ne by done.
Qed.

(** The members of a table when a chain changes. *)
Lemma members_with_chain H n k c : (k < length (dh_hash H))%nat ->
  exists rest, members H ≡ₚ chain H k ++ rest /\ members (with_chain n k c H) ≡ₚ c ++ rest.
Proof.
  intros Hk. destruct (lookup_lt_is_Some_2 _ _ Hk) as [c0 E]. destruct (concat_insert _ _ _ E) as (rest & P & P').
  exists rest. unfold members, chain. rewrite E. split; [done|apply P'].
Qed.

Lemma remove_one_elem (q p : nat) l : q ∈ remove_one p l -> q ∈ l.
Proof.
  induction l as [|x l IH]; simpl; [done|]. case_decide; [by right|]. intros [->|?]%elem_of_cons; [by left|right; auto].
Qed.

Section Inv.
Context (chr : Z -> Z).
Abbreviation slot := (slot chr).

(** ** The invariant of a table *)

(** Aggregations and self-> variables have their storage elsewhere. *)
Definition elsewhere (i : dt_ident) : bool := (di_kind i =? DT_IDENT_AGG) || flag (di_flags i) DT_IDFLG_TLS.

(** What the invariant of a table depends on. *)
Definition core (i : dt_ident) :=
  (di_name i, is_var (di_kind i), flag (di_flags i) DT_IDFLG_TLS, di_id i, di_hash i,
   if elsewhere i then None else Some (di_offset i, di_size i)).

(** The identifier has a place in the storage of its table. *)
Definition placed (i : dt_ident) : Prop :=
  di_kind i <> DT_IDENT_AGG /\ flag (di_flags i) DT_IDFLG_TLS = false /\ di_offset i <> -1.

Definition apart (i j : dt_ident) : Prop :=
  di_offset i + di_size i <= di_offset j \/ di_offset j + di_size j <= di_offset i.

(** In table [h] with the identifiers [m], of which at most [b] bytes of storage are used;
    the id [r] is taken from its table for an identifier that is not there yet. *)
Record tab_ok (m : gmap nat dt_ident) (b : Z) (r : option (nat * Z)) (h : nat) (H : dt_idhash) : Prop := {
  t_size : 0 < dh_hashsz H /\ length (dh_hash H) = Z.to_nat (dh_hashsz H);
  t_chain k p : p ∈ chain H k -> exists i n, m !! p = Some i /\ di_name i = Some n /\ slot n H = k /\ di_hash i = Some h;
  t_nodup : NoDup (members H);
  t_nelems : dh_nelems H = u64 (Z.of_nat (length (members H)));
  t_tmpl : dh_tmpl H = None;
  t_off : 0 <= dh_nextoff H <= b;
  t_in p i : p ∈ members H -> m !! p = Some i -> placed i ->
    0 <= di_offset i /\ 0 <= di_size i /\ di_offset i + di_size i <= dh_nextoff H;
  t_apart p q i j : p ∈ members H -> q ∈ members H -> p <> q -> m !! p = Some i -> m !! q = Some j ->
    placed i -> placed j -> apart i j;
  t_ids : 0 <= dh_minid H <= dh_nextid H /\ dh_nextid H <= dh_maxid H < 2 ^ 32;
  t_id p i : p ∈ members H -> m !! p = Some i -> is_var (di_kind i) = true ->
    0 <= di_id i < 2 ^ 32 /\ (dh_minid H <= di_id i -> di_id i < dh_nextid H /\ r <> Some (h, di_id i));
  t_unique p q i j : p ∈ members H -> q ∈ members H -> p <> q -> m !! p = Some i -> m !! q = Some j ->
    is_var (di_kind i) = true -> is_var (di_kind j) = true -> dh_minid H <= di_id i -> di_id i <> di_id j;
  t_taken id : r = Some (h, id) -> dh_minid H <= id < dh_nextid H;
}.

Lemma slot_lt n H : 0 < dh_hashsz H -> length (dh_hash H) = Z.to_nat (dh_hashsz H) -> (slot n H < length (dh_hash H))%nat.
Proof. intros P ->. unfold Ident.slot. pose proof (Z.mod_pos_bound (str2hval chr n 0) _ P). lia. Qed.

(** The members are live. *)
Lemma t_live m b r h H p : tab_ok m b r h H -> p ∈ members H ->
  exists i n, m !! p = Some i /\ di_name i = Some n /\ p ∈ chain H (slot n H) /\ di_hash i = Some h.
Proof.
  intros T [k Hk]%elem_of_members. destruct (t_chain _ _ _ _ _ T k p Hk) as (i & n & E & En & <- & Eh). by exists i, n.
Qed.

Lemma core_facts i j : core i = core j ->
  di_name i = di_name j /\ is_var (di_kind i) = is_var (di_kind j) /\ flag (di_flags i) DT_IDFLG_TLS = flag (di_flags j) DT_IDFLG_TLS /\
  di_id i = di_id j /\ (elsewhere i = false -> di_offset i = di_offset j) /\ (elsewhere i = false -> di_size i = di_size j) /\
  di_hash i = di_hash j.
Proof.
  unfold core. intros E. injection E as E1 E2 E3 E4 E5 E6. repeat (split; [done|]).
  destruct (elsewhere i), (elsewhere j); try done. injection E6 as E6 E7. by repeat split.
Qed.

Lemma placed_spec i : placed i <-> elsewhere i = false /\ di_offset i <> -1.
Proof.
  unfold placed, elsewhere. rewrite orb_false_iff, Z.eqb_neq. tauto.
Qed.

Lemma placed_here i : placed i -> elsewhere i = false.
Proof. by intros [? _]%placed_spec. Qed.

Lemma placed_core i j : core i = core j -> placed i -> placed j.
Proof.
  intros C [H O]%placed_spec. apply placed_spec. pose proof (core_facts _ _ C) as (_ & _ & _ & _ & Eo & _). rewrite <- (Eo H).
  split; [|done]. unfold core in C. injection C as _ _ _ _ _ C. rewrite H in C. by destruct (elsewhere j).
Qed.

(** The invariant does not see a change of the identifiers that keeps the core of the members. *)
Lemma tab_core m m' b r h H : tab_ok m b r h H ->
  (forall p i, p ∈ members H -> m !! p = Some i -> exists i', m' !! p = Some i' /\ core i' = core i) ->
  tab_ok m' b r h H.
Proof.
  intros T K.
  assert (forall p i', p ∈ members H -> m' !! p = Some i' -> exists i, m !! p = Some i /\ core i' = core i) as B.
  { intros p i' Hp E. destruct (t_live _ _ _ _ _ _ T Hp) as (i & n & Ei & _). exists i. split; [done|].
    destruct (K p i Hp Ei) as (i'' & E' & C). congruence. }
  destruct T as [Ts Tc Tn Te Tt To Ti Ta Td Tid Tu Tk]. split; try done.
  - intros k p Hp. destruct (Tc k p Hp) as (i & n & Ei & En & Ek & Eh).
    destruct (K p i) as (i' & Ei' & C); [apply elem_of_members; by exists k|done|]. apply core_facts in C.
    exists i', n. intuition congruence.
  - intros p i' Hp E P. destruct (B p i' Hp E) as (i & Ei & C). pose proof (Ti p i Hp Ei (placed_core _ _ C P)).
    apply core_facts in C as (_ & _ & _ & _ & Eo & Es & _). by rewrite (Eo (placed_here _ P)), (Es (placed_here _ P)).
  - intros p q i' j' Hp Hq D Ei Ej Pi Pj. destruct (B p i' Hp Ei) as (i & Ei' & C), (B q j' Hq Ej) as (j & Ej' & C').
    pose proof (Ta p q i j Hp Hq D Ei' Ej' (placed_core _ _ C Pi) (placed_core _ _ C' Pj)) as A.
    apply core_facts in C as (_ & _ & _ & _ & Eo & Es & _), C' as (_ & _ & _ & _ & Eo' & Es' & _). unfold apart.
    by rewrite (Eo (placed_here _ Pi)), (Es (placed_here _ Pi)), (Eo' (placed_here _ Pj)), (Es' (placed_here _ Pj)).
  - intros p i' Hp E V. destruct (B p i' Hp E) as (i & Ei & C). apply core_facts in C as (? & Ek & ? & Eid & ?).
    rewrite Ek in V. rewrite Eid. by apply Tid with p.
  - intros p q i' j' Hp Hq D Ei Ej Vi Vj. destruct (B p i' Hp Ei) as (i & Ei' & C), (B q j' Hq Ej) as (j & Ej' & C').
    apply core_facts in C as (? & Ek & ? & Eid & ?), C' as (? & Ek' & ? & Eid' & ?).
    rewrite Ek in Vi. rewrite Ek' in Vj. rewrite Eid, Eid'. by apply Tu with p q.
Qed.

Lemma tab_budget m b b' r h H : tab_ok m b r h H -> b <= b' -> tab_ok m b' r h H.
Proof. intros [] L. split; try done. lia. Qed.

(** No id is taken any more. *)
Lemma tab_drop m b r h H : tab_ok m b r h H -> tab_ok m b None h H.
Proof. intros []. split; try done. intros p i Hp E V. destruct (t_id0 p i Hp E V) as [? K]. split; [done|]. intros L. by split; [apply K|]. Qed.

(** *** Changes of a table *)

(** An identifier is linked in. *)
Lemma tab_push m b r r' h H p i n :
  tab_ok m b r h H -> m !! p = Some i -> di_name i = Some n -> di_hash i = Some h -> p ∉ members H ->
  di_offset i = -1 -> r' = None \/ r' = r ->
  (is_var (di_kind i) = true -> 0 <= di_id i < 2 ^ 32 /\ (di_id i < dh_minid H \/ (r = Some (h, di_id i) /\ r' = None))) ->
  tab_ok m b r' h (with_chain (u64 (dh_nelems H + 1)) (slot n H) (p :: chain H (slot n H)) H).
Proof.
  intros T Ei En Eh Np Eo Hr Hid. destruct T as [[Ts Tl] Tc Tn Te Tt To Ti Ta [Td Td'] Tid Tu Tk].
  pose proof (slot_lt n H Ts Tl) as L. set (H' := with_chain _ _ _ _).
  destruct (members_with_chain H (u64 (dh_nelems H + 1)) (slot n H) (p :: chain H (slot n H)) L) as (rest & P & P').
  assert (members H' ≡ₚ p :: members H) as PM. { unfold H'. rewrite P', P. done. }
  assert (forall q, q ∈ members H' -> q = p \/ (q <> p /\ q ∈ members H)) as In.
  { intros q Hq. rewrite PM in Hq. apply elem_of_cons in Hq as [->|Hq]; [by left|]. right. split; [congruence|done]. }
  assert (~ placed i) as NP. { intros (_ & _ & ?). done. }
  split; try done.
  - split; [done|]. unfold H', with_chain. simpl. by rewrite length_insert.
  - intros k q Hq. unfold H' in Hq. rewrite chain_with_chain in Hq by done. destruct (decide (k = slot n H)) as [->|D].
    + apply elem_of_cons in Hq as [->|Hq]; [|by apply Tc]. by exists i, n.
    + by apply Tc.
  - rewrite PM. by constructor.
  - rewrite PM. unfold H', with_chain. simpl. rewrite Te. rewrite wrapu_add_l. f_equal. lia.
  - intros q j Hq Ej Pj. destruct (In q Hq) as [->|[D Hq']]; [congruence|]. by apply Ti with q.
  - intros q1 q2 j1 j2 H1 H2 D E1 E2 P1 P2. destruct (In q1 H1) as [->|[D1 H1']]; [congruence|].
    destruct (In q2 H2) as [->|[D2 H2']]; [congruence|]. by apply Ta with q1 q2.
  - intros q j Hq Ej V. destruct (In q Hq) as [->|[D Hq']].
    + replace j with i in * by congruence. destruct (Hid V) as [R C]. split; [done|]. intros M.
      destruct C as [C|[C ->]]; [change (dh_minid H') with (dh_minid H) in M; lia|]. split; [by apply Tk|done].
    + destruct (Tid q j Hq' Ej V) as [R C]. split; [done|]. intros M. destruct (C M) as [C1 C2]. split; [done|].
      destruct Hr as [-> | ->]; [done|done].
  - intros q1 q2 j1 j2 H1 H2 D E1 E2 V1 V2 M. change (dh_minid H') with (dh_minid H) in M.
    destruct (In q1 H1) as [->|[D1 H1']], (In q2 H2) as [->|[D2 H2']]; [done| | |by apply Tu with q1 q2].
    + replace j1 with i in * by congruence. destruct (Hid V1) as [_ [C|[C _]]]; [lia|]. intros E.
      destruct (Tid q2 j2 H2' E2 V2) as [_ C']. rewrite E in *. by destruct (C' M).
    + replace j2 with i in * by congruence. destruct (Tid q1 j1 H1' E1 V1) as [_ C']. destruct (C' M) as [C1 C2].
      destruct (Hid V2) as [_ [C|[C _]]]; [lia|]. intros E. rewrite E in *. done.
  - intros id E. apply Tk. destruct Hr as [-> | ->]; done.
Qed.

(** A subset of the members, in the same slots. *)
Lemma tab_pull m b r h H p n : tab_ok m b r h H -> p ∈ chain H (slot n H) ->
  tab_ok m b r h (with_chain (u64 (dh_nelems H - 1)) (slot n H) (remove_one p (chain H (slot n H))) H).
Proof.
  intros T Hp. destruct T as [[Ts Tl] Tc Tn Te Tt To Ti Ta Td Tid Tu Tk].
  pose proof (slot_lt n H Ts Tl) as L. set (H' := with_chain _ _ _ _).
  destruct (members_with_chain H (u64 (dh_nelems H - 1)) (slot n H) (remove_one p (chain H (slot n H))) L) as (rest & P & P').
  assert (members H ≡ₚ p :: members H') as PM. { unfold H'. rewrite P', P. etransitivity; [apply Permutation_app_tail, (remove_one_perm p _ Hp)|done]. }
  assert (forall q, q ∈ members H' -> q ∈ members H) as In. { intros q Hq. rewrite PM. by right. }
  split; try done.
  - split; [done|]. unfold H', with_chain. simpl. by rewrite length_insert.
  - intros k q Hq. apply Tc. unfold H' in Hq. rewrite chain_with_chain in Hq by done. destruct (decide (k = slot n H)) as [->|D]; [|done].
    by apply remove_one_elem in Hq.
  - rewrite PM in Tn. by apply NoDup_cons in Tn as [_ ?].
  - assert (Z.of_nat (length (members H)) = Z.of_nat (length (members H')) + 1) as E by (rewrite PM; cbn [length]; lia).
    unfold H' at 1, with_chain. simpl. rewrite Te, E. unfold wrapu. rewrite Zminus_mod_idemp_l. f_equal. lia.
  - intros q j Hq. by apply Ti with (p := q), In.
  - intros q1 q2 j1 j2 H1 H2. by apply Ta; apply In.
  - intros q j Hq. by apply Tid with (p := q), In.
  - intros q1 q2 j1 j2 H1 H2. by apply Tu; apply In.
Qed.

(** The next id is taken. *)
Lemma tab_nextid m b h h' H : tab_ok m b None h' H -> dh_nextid H < dh_maxid H ->
  tab_ok m b (Some (h, dh_nextid H)) h' (if decide (h' = h) then with_nextid (u32 (dh_nextid H + 1)) H else H).
Proof.
  intros T L. destruct T as [Ts Tc Tn Te Tt To Ti Ta [Td Td'] Tid Tu Tk].
  assert (u32 (dh_nextid H + 1) = dh_nextid H + 1) as W by (apply wrapu_small; lia).
  destruct (decide (h' = h)) as [->|D].
  - rewrite W. split; try done; simpl; [lia| |intros id [= <-]; lia].
    intros p i Hp E V. destruct (Tid p i Hp E V) as [R C]. split; [done|]. intros M. destruct (C M) as [C1 _].
    split; [lia|]. intros [= Q]. lia.
  - split; try done; [|intros id [= -> _]; done].
    intros p i Hp E V. destruct (Tid p i Hp E V) as [R C]. split; [done|]. intros M. destruct (C M) as [C1 _].
    split; [done|]. intros [= Q]. done.
Qed.

(** Another next id that is above those in use. *)
Lemma tab_update m b h H nextid : tab_ok m b None h H -> dh_minid H <= nextid <= dh_maxid H ->
  (forall p i, p ∈ members H -> m !! p = Some i -> is_var (di_kind i) = true -> dh_minid H <= di_id i -> di_id i < nextid) ->
  tab_ok m b None h (with_nextid nextid H).
Proof.
  intros T L C. destruct T as [Ts Tc Tn Te Tt To Ti Ta [Td Td'] Tid Tu Tk]. split; try done; simpl; [lia|].
  intros p i Hp E V. destruct (Tid p i Hp E V) as [R C']. split; [done|]. intros M. split; [by apply (C p i)|done].
Qed.

Lemma ldiff_land y k : y = Z.ldiff y k + Z.land y k.
Proof.
  rewrite <- Z.add_lor_land, Z.lor_ldiff_and. assert (Z.land (Z.ldiff y k) (Z.land y k) = 0) as ->; [|lia].
  apply Z.bits_inj'. intros j Hj. rewrite !Z.land_spec, Z.ldiff_spec, Z.bits_0. by destruct (Z.testbit y j), (Z.testbit k j).
Qed.

(** A place in the storage: above what is used, and no more than the alignment above it. *)
Lemma place_range n a : 0 <= n -> 0 < a -> n + a <= 2 ^ 31 -> n <= place n a <= n + a - 1.
Proof.
  intros Hn Ha L. unfold place. change (2 ^ 31) with 2147483648 in L.
  rewrite (wrapu_small 32 (a - 1)) by lia. rewrite (wrapu_small 32 (n + (a - 1))) by lia.
  set (y := n + (a - 1)). set (k := a - 1).
  assert (0 <= y < 2 ^ 32) as Hy by (unfold y; lia). assert (0 <= k) as Hk by (unfold k; lia).
  assert (Z.land y (u32 (Z.lnot k)) = Z.ldiff y k) as ->.
  { apply Z.bits_inj'. intros j Hj. rewrite Z.land_spec, Z.ldiff_spec. unfold wrapu.
    destruct (decide (j < 32)) as [J|J].
    - rewrite Z.mod_pow2_bits_low by lia. by rewrite Z.lnot_spec by lia.
    - rewrite (testbit_high 32 y j) by lia. done. }
  pose proof (ldiff_land y k). pose proof (ldiff_land k y). assert (0 <= Z.ldiff k y) by (apply Z.ldiff_nonneg; lia).
  rewrite (Z.land_comm k y) in *. assert (0 <= Z.land y k) by (apply Z.land_nonneg; lia). unfold y, k in *. lia.
Qed.

(** An aligned place, if the alignment is a power of two. *)
Lemma place_aligned n k : 0 <= n -> 0 <= k -> n + 2 ^ k <= 2 ^ 31 -> place n (2 ^ k) `mod` 2 ^ k = 0.
Proof.
  intros Hn Hk L. unfold place. pose proof (pow2_pos k Hk) as Pk. change (2 ^ 31) with 2147483648 in L.
  rewrite (wrapu_small 32 (2 ^ k - 1)) by lia.
  assert (2 ^ k - 1 = Z.ones k) as -> by (rewrite Z.ones_equiv; lia).
  rewrite <- Z.land_ones by done. rewrite <- Z.land_assoc.
  assert (Z.land (u32 (Z.lnot (Z.ones k))) (Z.ones k) = 0) as ->; [|apply Z.land_0_r].
  apply Z.bits_inj'. intros j Hj. rewrite Z.land_spec, Z.bits_0. destruct (decide (j < k)) as [J|J].
  - unfold wrapu. assert (k <= 31). { destruct (decide (k <= 31)); [done|]. assert (2 ^ 32 <= 2 ^ k) by (apply Z.pow_le_mono_r; lia). lia. }
    rewrite Z.mod_pow2_bits_low by lia. rewrite Z.lnot_spec by lia. rewrite Z.ones_spec_low by lia. done.
  - rewrite (Z.ones_spec_high k j) by lia. apply andb_false_r.
Qed.

(** An identifier gets a place. *)
Lemma tab_storage m b r h H p i a z : tab_ok m b r h H -> p ∈ members H -> m !! p = Some i ->
  0 < a -> 0 <= z -> b + a + z < 2 ^ 31 ->
  let i' := with_size (s32 z) (with_offset (s32 (place (dh_nextoff H) a)) i) in
  tab_ok (<[p := i']> m) (b + a + z) r h (with_nextoff (u32 (s32 (place (dh_nextoff H) a) + z)) H).
Proof.
  intros T Hp Ei Pa Pz L i'. destruct T as [Ts Tc Tn Te Tt To Ti Ta Td Tid Tu Tk].
  pose proof (place_range (dh_nextoff H) a ltac:(lia) Pa ltac:(lia)) as R. set (o := place (dh_nextoff H) a) in *.
  assert (s32 o = o) as So by (apply wraps_small; lia). assert (s32 z = z) as Sz by (apply wraps_small; lia).
  assert (u32 (o + z) = o + z) as Uo by (apply wrapu_small; lia). unfold i' in *. rewrite So, Sz, Uo in *.
  assert (forall q j, <[p := with_size z (with_offset o i)]> m !! q = Some j ->
    (q = p /\ j = with_size z (with_offset o i)) \/ (q <> p /\ m !! q = Some j)) as Split.
  { intros q j. destruct (decide (q = p)) as [->|D]; [rewrite lookup_insert_eq; intros [= <-]; by left|].
    rewrite lookup_insert_ne by done. by right. }
  split; try done.
  - intros k q Hq. destruct (Tc k q Hq) as (j & n & Ej & En & Ek & Eh). destruct (decide (q = p)) as [->|D].
    + exists (with_size z (with_offset o i)), n. rewrite lookup_insert_eq. replace j with i in * by congruence. done.
    + exists j, n. by rewrite lookup_insert_ne by done.
  - simpl. lia.
  - intros q j Hq Ej Pj. simpl. destruct (Split q j Ej) as [[-> ->]|[D Ej']]; [simpl; lia|].
    destruct (Ti q j Hq Ej' Pj) as (? & ? & ?). lia.
  - intros q1 q2 j1 j2 H1 H2 D E1 E2 P1 P2. unfold apart.
    destruct (Split q1 j1 E1) as [[-> ->]|[D1 E1']], (Split q2 j2 E2) as [[-> ->]|[D2 E2']]; [done| | |by apply Ta with q1 q2].
    + destruct (Ti q2 j2 H2 E2' P2) as (? & ? & ?). simpl. lia.
    + destruct (Ti q1 j1 H1 E1' P1) as (? & ? & ?). simpl. lia.
  - intros q j Hq Ej V. destruct (Split q j Ej) as [[-> ->]|[D Ej']]; [by apply (Tid p i)|by apply (Tid q j)].
  - intros q1 q2 j1 j2 H1 H2 D E1 E2 V1 V2.
    destruct (Split q1 j1 E1) as [[-> ->]|[D1 E1']], (Split q2 j2 E2) as [[-> ->]|[D2 E2']]; [done| | |by apply Tu with q1 q2].
    + by apply (Tu p q2 i j2).
    + by apply (Tu q1 p j1 i).
Qed.

(** ** The invariant of the handle *)

(** What a compilation may change of an identifier that was there before is left out: its
    flags, and the type and the signature that cooking gives it. *)
Definition lasting (i : dt_ident) : dt_ident := with_data 0 (with_ctype 0 0 (with_flags 0 i)).

(** The identifier has an ops vector, and a string where its cooking needs one. *)
Definition cookable (i : dt_ident) : Prop :=
  match di_ops i with
  | None => False
  | Some (dt_idops_func | dt_idops_type) => di_iarg i <> 0
  | Some _ => True
  end.


Definition three (s : hdl) : list nat := [dt_aggs s; dt_globals s; dt_tls s].
Definition pcb_tabs (s : hdl) : list nat :=
  match pcbs s with
  | [] => []
  | p :: _ => option_list (pcb_pragmas p) ++ option_list (pcb_locals p) ++ option_list (pcb_idents p)
  end.
Definition tabs (s : hdl) : list nat := three s ++ pcb_tabs s.

Record inv (b : Z) (r : option (nat * Z)) (s : hdl) : Prop := {
  v_brk : Z.of_nat (brk s) < 2 ^ 64;
  v_ids p i : ids s !! p = Some i -> (p < brk s)%nat /\ (forall h, di_hash i = Some h -> (h < brk s)%nat) /\ di_gen i <= dt_gen s /\ cookable i;
  v_hashes h H : hashes s !! h = Some H -> (h < brk s)%nat /\ tab_ok (ids s) b r h H;
  v_tabs : NoDup (tabs s) /\ (forall h, h ∈ tabs s -> is_Some (hashes s !! h));
  v_glob h H : hashes s !! h = Some H -> (h = dt_globals s -> 0 < dh_minid H) /\ (dh_defer H = true -> h = dt_globals s);
  v_pcb p ps : pcbs s = p :: ps -> pcb_globals p = [dt_globals s] /\ ps = [];
}.

(** What is left as it was in [s0]: the identifiers that were there, but for what cooking and
    references change, and their order on the chains of the three tables of the handle.  The identifiers that were
    not there have the generation [g]. *)
Record frame (s0 : hdl) (g : Z) (s : hdl) : Prop := {
  f_three : three s = three s0;
  f_gen : dt_gen s = dt_gen s0;
  f_brk : (brk s0 <= brk s)%nat;
  f_old p i0 : ids s0 !! p = Some i0 -> exists i, ids s !! p = Some i /\ lasting i = lasting i0;
  f_back p i : (p < brk s0)%nat -> ids s !! p = Some i -> is_Some (ids s0 !! p);
  f_new p i : (brk s0 <= p)%nat -> ids s !! p = Some i -> di_gen i = g;
  f_chain h H0 : h ∈ three s0 -> hashes s0 !! h = Some H0 -> exists H, hashes s !! h = Some H /\
    dh_minid H = dh_minid H0 /\ dh_maxid H = dh_maxid H0 /\ dh_hashsz H = dh_hashsz H0 /\
    forall k, filter (λ p, (p < brk s0)%nat) (chain H k) = chain H0 k;
  f_pcb h : h ∈ pcb_tabs s -> (brk s0 <= h)%nat;
}.

Context (s0 : hdl) (g b0 : Z) (I0 : inv b0 None s0) (G0 : g <= dt_gen s0).

Definition Inv (b : Z) (r : option (nat * Z)) (s : hdl) : Prop := inv b r s /\ frame s0 g s.

Lemma inv_budget b b' r s : b <= b' -> Inv b r s -> Inv b' r s.
Proof.
  intros L [[V1 V2 V3 V4 V5 V6] F]. split; [|done]. split; try done. intros h H E. destruct (V3 h H E). split; [done|].
  by eapply tab_budget.
Qed.

Lemma inv_release b r s : Inv b r s -> Inv b None s.
Proof.
  intros [[V1 V2 V3 V4 V5 V6] F]. split; [|done]. split; try done. intros h H E. destruct (V3 h H E). split; [done|].
  by eapply tab_drop.
Qed.

(** An identifier on the chain of a table is not on that of another. *)
Lemma inv_one_table b r s h H h' H' p : inv b r s -> hashes s !! h = Some H -> hashes s !! h' = Some H' ->
  p ∈ members H -> p ∈ members H' -> h = h'.
Proof.
  intros V E E' Hp Hp'. destruct (v_hashes _ _ _ V h H E) as [_ T], (v_hashes _ _ _ V h' H' E') as [_ T'].
  destruct (t_live _ _ _ _ _ _ T Hp) as (i & n & Ei & _ & _ & Eh), (t_live _ _ _ _ _ _ T' Hp') as (i' & n' & Ei' & _ & _ & Eh').
  congruence.
Qed.

Lemma inv_no_hash b r s p i h H : inv b r s -> ids s !! p = Some i -> di_hash i = None -> hashes s !! h = Some H -> p ∉ members H.
Proof.
  intros V Ei N E Hp. destruct (v_hashes _ _ _ V h H E) as [_ T]. destruct (t_live _ _ _ _ _ _ T Hp) as (i' & n & Ei' & _ & _ & Eh). congruence.
Qed.

(** The tables of the control block hold no identifier that was there before. *)
Lemma inv_pcb_new b r s p i h : Inv b r s -> ids s !! p = Some i -> di_hash i = Some h -> (brk s0 <= h)%nat -> (brk s0 <= p)%nat.
Proof.
  intros [V F] Ei Eh L. destruct (decide (brk s0 <= p)%nat) as [?|N]; [done|]. exfalso.
  destruct (ids s0 !! p) as [i0|] eqn:E0.
  - destruct (f_old _ _ _ F p i0 E0) as (i' & Ei' & S). replace i' with i in * by congruence.
    assert (di_hash i = di_hash i0) as Q by (change (di_hash (lasting i) = di_hash (lasting i0)); by rewrite S).
    destruct (v_ids _ _ _ I0 p i0 E0) as (_ & B & _). rewrite Eh in Q. specialize (B h (eq_sym Q)). lia.
  - destruct (f_back _ _ _ F p i ltac:(lia) Ei). congruence.
Qed.

(** *** Changes of the handle *)

(** A table of the handle is replaced: what the invariant and the frame say of the tables
    by their names. *)
Section Swap.
Context (s : hdl) (h : nat) (H H' : dt_idhash) (E : hashes s !! h = Some H).
Context (M1 : dh_minid H' = dh_minid H) (M2 : dh_maxid H' = dh_maxid H) (M3 : dh_hashsz H' = dh_hashsz H).

Lemma tabs_swap : NoDup (tabs s) /\ (forall x, x ∈ tabs s -> is_Some (hashes s !! x)) ->
  NoDup (tabs s) /\ (forall x, x ∈ tabs s -> is_Some (<[h := H']> (hashes s) !! x)).
Proof.
  intros [ND T]. split; [done|]. intros x Hx. destruct (decide (x = h)) as [->|D]; [rewrite lookup_insert_eq; by eexists|].
  rewrite lookup_insert_ne by done. by apply T.
Qed.

Lemma glob_swap : (dh_defer H' = true -> dh_defer H = true \/ h = dt_globals s) ->
  (forall x H1, hashes s !! x = Some H1 -> (x = dt_globals s -> 0 < dh_minid H1) /\ (dh_defer H1 = true -> x = dt_globals s)) ->
  forall x H1, <[h := H']> (hashes s) !! x = Some H1 -> (x = dt_globals s -> 0 < dh_minid H1) /\ (dh_defer H1 = true -> x = dt_globals s).
Proof.
  intros D V x H1. destruct (decide (x = h)) as [->|N]; [|rewrite lookup_insert_ne by done; apply V].
  rewrite lookup_insert_eq. intros [= <-]. rewrite M1. destruct (V h H E) as [V1 V2]. split; [done|]. intros Q. destruct (D Q); auto.
Qed.

Lemma chain_swap : (forall k, filter (λ p, (p < brk s0)%nat) (chain H' k) = filter (λ p, (p < brk s0)%nat) (chain H k)) ->
  frame s0 g s -> forall x H0, x ∈ three s0 -> hashes s0 !! x = Some H0 -> exists H1, <[h := H']> (hashes s) !! x = Some H1 /\
    dh_minid H1 = dh_minid H0 /\ dh_maxid H1 = dh_maxid H0 /\ dh_hashsz H1 = dh_hashsz H0 /\
    forall k, filter (λ p, (p < brk s0)%nat) (chain H1 k) = chain H0 k.
Proof.
  intros C F x H0 Hx E0. destruct (f_chain _ _ _ F x H0 Hx E0) as (H1 & E1 & Q1 & Q2 & Q3 & CC).
  destruct (decide (x = h)) as [->|D]; [|exists H1; by rewrite lookup_insert_ne by done].
  rewrite lookup_insert_eq. replace H1 with H in * by congruence. exists H'. repeat (split; [congruence|]). intros k. by rewrite C, CC.
Qed.
End Swap.

(** A change of an identifier that the invariant does not see; of one that was there before,
    only what does not last changes. *)
Lemma inv_ident b r s p i i' : Inv b r s -> ids s !! p = Some i -> core i' = core i -> di_gen i' = di_gen i -> (cookable i -> cookable i') ->
  (brk s0 <= p)%nat \/ lasting i' = lasting i -> Inv b r (set_ids (<[p := i']>) s).
Proof.
  intros [[V1 V2 V3 V4 V5 V6] [F1 F2 F3 F4 F5 F6 F7 F8]] Ei C G K O. split; split; try done; simpl.
  - intros q j. destruct (decide (q = p)) as [->|D]; [|rewrite lookup_insert_ne by done; apply V2].
    rewrite lookup_insert_eq. intros [= <-]. apply core_facts in C as (_ & _ & _ & _ & _ & _ & Ch). rewrite Ch, G. destruct (V2 p i Ei) as (? & ? & ? & ?). auto.
  - intros h H E. destruct (V3 h H E) as [L T]. split; [done|]. apply (tab_core _ _ _ _ _ _ T). intros q j Hq Ej.
    destruct (decide (q = p)) as [->|D]; [|exists j; by rewrite lookup_insert_ne by done].
    exists i'. rewrite lookup_insert_eq. split; [done|]. congruence.
  - intros q i0 E0. destruct (F4 q i0 E0) as (j & Ej & S). destruct (decide (q = p)) as [->|D]; [|exists j; by rewrite lookup_insert_ne by done].
    exists i'. rewrite lookup_insert_eq. split; [done|]. destruct O as [O|O]; [|congruence].
    destruct (v_ids _ _ _ I0 p i0 E0). lia.
  - intros q j L. destruct (decide (q = p)) as [->|D]; [|rewrite lookup_insert_ne by done; by apply F5]. intros _. by apply F5 with i.
  - intros q j L. destruct (decide (q = p)) as [->|D]; [|rewrite lookup_insert_ne by done; by apply F6].
    rewrite lookup_insert_eq. intros [= <-]. rewrite G. by apply F6 with p.
Qed.

(** A new identifier, in no table. *)
Lemma inv_new b r s i : Inv b r s -> Z.of_nat (brk s) < 2 ^ 64 - 1 -> di_hash i = None -> di_gen i = g -> cookable i ->
  Inv b r (set_brk (S (brk s)) (set_ids (<[brk s := i]>) s)).
Proof.
  intros [[V1 V2 V3 V4 V5 V6] [F1 F2 F3 F4 F5 F6 F7 F8]] B N G K.
  assert (ids s !! brk s = None) as Fresh. { destruct (ids s !! brk s) as [j|] eqn:E; [|done]. destruct (V2 _ _ E). lia. }
  split; split; try done; simpl.
  - lia.
  - intros q j. destruct (decide (q = brk s)) as [->|D].
    + rewrite lookup_insert_eq. intros [= <-]. rewrite N, G. split; [lia|]. split; [done|]. split; [lia|done].
    + rewrite lookup_insert_ne by done. intros E. destruct (V2 q j E) as (? & L & ?). split; [lia|]. split; [|done].
      intros h Eh. specialize (L h Eh). lia.
  - intros h H E. destruct (V3 h H E) as [L T]. split; [lia|]. apply (tab_core _ _ _ _ _ _ T). intros q j Hq Ej. exists j.
    rewrite lookup_insert_ne by congruence. done.
  - lia.
  - intros q i0 E0. destruct (F4 q i0 E0) as (j & Ej & S). exists j. rewrite lookup_insert_ne by congruence. done.
  - intros q j L. rewrite lookup_insert_ne by lia. by apply F5.
  - intros q j L. destruct (decide (q = brk s)) as [->|D]; [rewrite lookup_insert_eq; by intros [= <-]|].
    rewrite lookup_insert_ne by done. by apply F6.
Qed.

(** It is linked into a table. *)
Lemma inv_link b r r' s p i n h H : Inv b r s -> ids s !! p = Some i -> di_name i = Some n -> di_hash i = None ->
  di_offset i = -1 -> (brk s0 <= p)%nat -> hashes s !! h = Some H -> r' = None \/ r' = r ->
  (is_var (di_kind i) = true -> 0 <= di_id i < 2 ^ 32 /\ (di_id i < dh_minid H \/ (r = Some (h, di_id i) /\ r' = None))) ->
  Inv b r' (set_hashes (<[h := with_chain (u64 (dh_nelems H + 1)) (slot n H) (p :: chain H (slot n H)) H]>)
             (set_ids (<[p := with_hash (Some h) i]>) s)).
Proof.
  intros [V F] Ei En N Eo O E Hr Hid.
  assert (forall h' H', hashes s !! h' = Some H' -> tab_ok (<[p := with_hash (Some h) i]> (ids s)) b r h' H') as Keep.
  { intros h' H' E'. destruct (v_hashes _ _ _ V h' H' E') as [_ T]. apply (tab_core _ _ _ _ _ _ T). intros q j Hq Ej. exists j.
    rewrite lookup_insert_ne; [done|]. intros <-. by destruct (inv_no_hash _ _ _ _ _ _ _ V Ei N E'). }
  pose proof (inv_no_hash _ _ _ _ _ _ _ V Ei N E) as NM.
  destruct V as [V1 V2 V3 V4 V5 V6]. destruct (V3 h H E) as [Lh [[Ts Tl] _ _ _ _ _ _ _ _ _ _ _]].
  pose proof (slot_lt n H Ts Tl) as L. pose proof F as [F1 F2 F3 F4 F5 F6 F7 F8].
  split; split; try done; simpl.
  - intros q j. destruct (decide (q = p)) as [->|D]; [|rewrite lookup_insert_ne by done; apply V2].
    rewrite lookup_insert_eq. intros [= <-]. simpl. destruct (V2 p i Ei) as (? & _ & ?). split; [done|]. split; [|done]. by intros h' [= <-].
  - intros h' H'. destruct (decide (h' = h)) as [->|D].
    + rewrite lookup_insert_eq. intros [= <-]. split; [done|]. apply (tab_push _ _ r _ _ _ _ (with_hash (Some h) i)); try done.
      * by apply Keep.
      * apply lookup_insert_eq.
    + rewrite lookup_insert_ne by done. intros E'. split; [by apply (V3 h' H')|].
      destruct Hr as [-> | ->]; [eapply tab_drop|]; by apply Keep.
  - by apply (tabs_swap s).
  - apply (glob_swap s h H); auto.
  - intros q i0 E0. destruct (F4 q i0 E0) as (j & Ej & S). exists j. rewrite lookup_insert_ne; [done|].
    intros <-. destruct (v_ids _ _ _ I0 p i0 E0). lia.
  - intros q j Lq. rewrite lookup_insert_ne by lia. by apply F5.
  - intros q j Lq. destruct (decide (q = p)) as [->|D]; [|rewrite lookup_insert_ne by done; by apply F6].
    rewrite lookup_insert_eq. intros [= <-]. simpl. by apply F6 with p.
  - apply (chain_swap s h H); try done. intros k. rewrite chain_with_chain by done. case_decide; [subst k|done].
    by rewrite filter_cons_False by lia.
Qed.

(** A change of a table that keeps the identifiers that were there before in their places. *)
Lemma inv_table b r s h H H' : Inv b r s -> hashes s !! h = Some H -> tab_ok (ids s) b r h H' ->
  dh_minid H' = dh_minid H -> dh_maxid H' = dh_maxid H -> dh_hashsz H' = dh_hashsz H ->
  (dh_defer H' = true -> dh_defer H = true \/ h = dt_globals s) ->
  (forall k, filter (λ p, (p < brk s0)%nat) (chain H' k) = filter (λ p, (p < brk s0)%nat) (chain H k)) ->
  Inv b r (set_hashes (<[h := H']>) s).
Proof.
  intros [[V1 V2 V3 V4 V5 V6] F] E T M1 M2 M3 M4 C. pose proof F as [F1 F2 F3 F4 F5 F6 F7 F8]. split; split; try done; simpl.
  - intros h' H1. destruct (decide (h' = h)) as [->|D]; [|rewrite lookup_insert_ne by done; apply V3].
    rewrite lookup_insert_eq. intros [= <-]. split; [by apply (V3 h H)|done].
  - by apply (tabs_swap s).
  - apply (glob_swap s h H); auto.
  - by apply (chain_swap s h H).
Qed.

Lemma filter_remove_one (P : nat -> Prop) `{forall x, Decision (P x)} p l : ~ P p -> filter P (remove_one p l) = filter P l.
Proof.
  intros N. induction l as [|x l IH]; simpl; [done|]. case_decide; [subst x; by rewrite filter_cons_False|].
  rewrite !filter_cons. by rewrite IH.
Qed.

(** A new identifier is taken off its chain. *)
Lemma inv_unlink b r s h H p n : Inv b r s -> hashes s !! h = Some H -> p ∈ chain H (slot n H) -> (brk s0 <= p)%nat ->
  let s' := set_hashes (<[h := with_chain (u64 (dh_nelems H - 1)) (slot n H) (remove_one p (chain H (slot n H))) H]>) s in
  Inv b r s' /\ (forall h' H', hashes s' !! h' = Some H' -> p ∉ members H').
Proof.
  intros I E Hp O s'. destruct I as [V F]. destruct (v_hashes _ _ _ V h H E) as [_ T].
  pose proof (t_size _ _ _ _ _ T) as [Ts Tl]. pose proof (slot_lt n H Ts Tl) as L. split.
  - apply (inv_table b r s h H); [by split|done|by apply tab_pull|done|done|done|by left|]. intros k.
    rewrite chain_with_chain by done. case_decide; [subst k|done]. by rewrite filter_remove_one by lia.
  - intros h' H' E' Hp'. unfold s' in E'. simpl in E'.
    assert (p ∈ members H) as HpH by (apply elem_of_members; by eexists). destruct (decide (h' = h)) as [->|D].
    + rewrite lookup_insert_eq in E'. injection E' as <-.
      destruct (members_with_chain H (u64 (dh_nelems H - 1)) (slot n H) (remove_one p (chain H (slot n H))) L) as (rest & P & P').
      rewrite P' in Hp'. pose proof (t_nodup _ _ _ _ _ T) as ND. rewrite P in ND.
      assert (NoDup (p :: (remove_one p (chain H (slot n H)) ++ rest))) as ND'.
      { assert (chain H (slot n H) ++ rest ≡ₚ p :: (remove_one p (chain H (slot n H)) ++ rest)) as Q;
          [etransitivity; [apply Permutation_app_tail, (remove_one_perm p _ Hp)|done]|]. by rewrite Q in ND. }
      by apply NoDup_cons in ND' as [? _].
    + rewrite lookup_insert_ne in E' by done. by destruct (D (inv_one_table _ _ _ _ _ _ _ _ V E' E Hp' HpH)).
Qed.

(** An identifier that is in no table is freed. *)
Lemma inv_free b r s p : Inv b r s -> (brk s0 <= p)%nat -> (forall h H, hashes s !! h = Some H -> p ∉ members H) ->
  Inv b r (set_ids (delete p) s).
Proof.
  intros [[V1 V2 V3 V4 V5 V6] [F1 F2 F3 F4 F5 F6 F7 F8]] O N. split; split; try done; simpl.
  - intros q j [_ Ej]%lookup_delete_Some. by apply V2.
  - intros h H E. destruct (V3 h H E) as [L T]. split; [done|]. apply (tab_core _ _ _ _ _ _ T). intros q j Hq Ej. exists j.
    rewrite lookup_delete_ne; [done|]. intros <-. by apply (N h H).
  - intros q i0 E0. destruct (F4 q i0 E0) as (j & Ej & S). exists j. rewrite lookup_delete_ne; [done|].
    intros <-. destruct (v_ids _ _ _ I0 p i0 E0). lia.
  - intros q j L [_ Ej]%lookup_delete_Some. by apply F5 with j.
  - intros q j L [_ Ej]%lookup_delete_Some. by apply F6 with q.
Qed.

(** A new identifier gets a place in the storage of its table. *)
Lemma inv_storage b r s h H p i a z : Inv b r s -> hashes s !! h = Some H -> p ∈ members H -> ids s !! p = Some i ->
  (brk s0 <= p)%nat -> 0 < a -> 0 <= z -> b + a + z < 2 ^ 31 ->
  Inv (b + a + z) r
    (set_hashes (<[h := with_nextoff (u32 (s32 (place (dh_nextoff H) a) + z)) H]>)
      (set_ids (<[p := with_size (s32 z) (with_offset (s32 (place (dh_nextoff H) a)) i)]>) s)).
Proof.
  intros [V F] E Hp Ei O Pa Pz L. set (i' := with_size _ _).
  assert (forall h' H', h' <> h -> hashes s !! h' = Some H' -> tab_ok (<[p := i']> (ids s)) (b + a + z) r h' H') as Keep.
  { intros h' H' D E'. destruct (v_hashes _ _ _ V h' H' E') as [_ T]. apply (tab_budget _ b); [|lia].
    apply (tab_core _ _ _ _ _ _ T). intros q j Hq Ej. exists j. rewrite lookup_insert_ne; [done|].
    intros <-. by destruct (D (inv_one_table _ _ _ _ _ _ _ _ V E' E Hq Hp)). }
  destruct (v_hashes _ _ _ V h H E) as [Lh T]. pose proof (tab_storage _ _ _ _ _ _ _ a z T Hp Ei Pa Pz L) as T'.
  destruct V as [V1 V2 V3 V4 V5 V6]. pose proof F as [F1 F2 F3 F4 F5 F6 F7 F8]. split; split; try done; simpl.
  - intros q j. destruct (decide (q = p)) as [->|D]; [|rewrite lookup_insert_ne by done; apply V2].
    rewrite lookup_insert_eq. intros [= <-]. by apply (V2 p i).
  - intros h' H'. destruct (decide (h' = h)) as [->|D].
    + rewrite lookup_insert_eq. intros [= <-]. by split.
    + rewrite lookup_insert_ne by done. intros E'. split; [by apply (V3 h' H')|by apply Keep].
  - by apply (tabs_swap s).
  - apply (glob_swap s h H); auto.
  - intros q i0 E0. destruct (F4 q i0 E0) as (j & Ej & S). exists j. rewrite lookup_insert_ne; [done|].
    intros <-. destruct (v_ids _ _ _ I0 p i0 E0). lia.
  - intros q j Lq. rewrite lookup_insert_ne by lia. by apply F5.
  - intros q j Lq. destruct (decide (q = p)) as [->|D]; [|rewrite lookup_insert_ne by done; by apply F6].
    rewrite lookup_insert_eq. intros [= <-]. simpl. by apply (F6 p i).
  - by apply (chain_swap s h H).
Qed.

(** An id is taken. *)
Lemma inv_nextid b s h H : Inv b None s -> hashes s !! h = Some H -> dh_nextid H < dh_maxid H ->
  Inv b (Some (h, dh_nextid H)) (set_hashes (<[h := with_nextid (u32 (dh_nextid H + 1)) H]>) s).
Proof.
  intros [[V1 V2 V3 V4 V5 V6] F] E L. pose proof F as [F1 F2 F3 F4 F5 F6 F7 F8]. split; split; try done; simpl.
  - intros h' H'. destruct (decide (h' = h)) as [->|D].
    + rewrite lookup_insert_eq. intros [= <-]. destruct (V3 h H E) as [Lh T]. split; [done|].
      pose proof (tab_nextid _ _ h h _ T L) as T'. by rewrite decide_True in T'.
    + rewrite lookup_insert_ne by done. intros E'. destruct (V3 h' H' E') as [Lh T]. split; [done|].
      destruct T as [Ts Tc Tn Te Tt To Ti Ta Td Tid Tu Tk]. split; try done; [|by intros id [= -> _]].
      intros p i Hp Ep Vp. destruct (Tid p i Hp Ep Vp) as [? Q]. split; [done|]. intros M. split; [by apply Q|]. by intros [= ->].
  - by apply (tabs_swap s).
  - apply (glob_swap s h H); auto.
  - by apply (chain_swap s h H).
Qed.

(** A block is allocated. *)
Lemma inv_block b r s : Inv b r s -> Z.of_nat (brk s) < 2 ^ 64 - 1 -> Inv b r (set_brk (S (brk s)) s).
Proof.
  intros [[V1 V2 V3 V4 V5 V6] [F1 F2 F3 F4 F5 F6 F7 F8]] L. split; split; try done; simpl; try lia.
  - intros p i E. destruct (V2 p i E) as (? & K & ?). split; [lia|]. split; [|done]. intros h Eh. specialize (K h Eh). lia.
  - intros h H E. destruct (V3 h H E). split; [lia|done].
Qed.

(** Fields that the invariant does not look at. *)
Lemma inv_mem b r s m : Inv b r s -> Inv b r (set_mem m s).
Proof. intros [[] []]. by split; split. Qed.
Lemma inv_maxdvarsize b r s z : Inv b r s -> Inv b r (set_maxdvarsize z s).
Proof. intros [[] []]. by split; split. Qed.

Lemma inv_budget_pos b r s : Inv b r s -> 0 <= b.
Proof.
  intros [V F]. destruct (v_tabs _ _ _ V) as [_ T]. destruct (T (dt_aggs s)) as [H E]; [by left|].
  destruct (v_hashes _ _ _ V _ _ E) as [_ K]. pose proof (t_off _ _ _ _ _ K). lia.
Qed.

Definition fresh_tab (name : list Z) (min max : Z) : dt_idhash :=
  IdHash name false None min min max 0 0 dt_strbuckets (replicate (Z.to_nat dt_strbuckets) []).

Lemma chain_fresh name min max k : chain (fresh_tab name min max) k = [].
Proof. unfold chain, fresh_tab. cbn [dh_hash]. destruct (replicate (Z.to_nat dt_strbuckets) ([] : list nat) !! k) eqn:E; [|done]. by apply lookup_replicate in E as [-> _]. Qed.

Lemma members_fresh name min max : members (fresh_tab name min max) = [].
Proof. reflexivity. Qed.

Lemma tab_fresh m b h name min max : 0 <= b -> 0 <= min <= max -> max < 2 ^ 32 -> tab_ok m b None h (fresh_tab name min max).
Proof.
  intros B M L. split; try done; try (rewrite members_fresh; done); try (simpl; lia); simpl dh_hash.
  - intros k p. rewrite chain_fresh. by intros ?%elem_of_nil.
  - rewrite members_fresh. constructor.
  - rewrite members_fresh. by intros p i ?%elem_of_nil.
  - rewrite members_fresh. by intros p q i j ?%elem_of_nil.
  - rewrite members_fresh. by intros p i ?%elem_of_nil.
  - rewrite members_fresh. by intros p q i j ?%elem_of_nil.
Qed.

Definition tabs_of (p : dt_pcb) : list nat :=
  option_list (pcb_pragmas p) ++ option_list (pcb_locals p) ++ option_list (pcb_idents p).

(** A table is made and entered in the control block. *)
Lemma inv_new_table b s p p' name min max : Inv b None s -> pcbs s = [p] -> Z.of_nat (brk s) < 2 ^ 64 - 1 ->
  0 <= min <= max -> max < 2 ^ 32 -> pcb_globals p' = pcb_globals p -> tabs_of p' ≡ₚ brk s :: tabs_of p ->
  Inv b None (set_pcbs [p'] (set_brk (S (brk s)) (set_hashes (<[brk s := fresh_tab name min max]>) s))).
Proof.
  intros I Ep B M L Eg P. pose proof (inv_budget_pos _ _ _ I) as Pb.
  destruct I as [[V1 V2 V3 V4 V5 V6] [F1 F2 F3 F4 F5 F6 F7 F8]].
  assert (hashes s !! brk s = None) as Fresh. { destruct (hashes s !! brk s) as [H|] eqn:E; [|done]. destruct (V3 _ _ E). lia. }
  assert (forall x H, hashes s !! x = Some H -> <[brk s := fresh_tab name min max]> (hashes s) !! x = Some H) as Keep.
  { intros x H E. rewrite lookup_insert_ne; [done|congruence]. }
  assert (tabs (set_pcbs [p'] (set_brk (S (brk s)) (set_hashes (<[brk s := fresh_tab name min max]>) s))) ≡ₚ brk s :: tabs s) as PT.
  { unfold tabs, pcb_tabs. rewrite Ep. change (three s ++ tabs_of p' ≡ₚ brk s :: three s ++ tabs_of p). rewrite P. solve_Permutation. }
  split; split; try done; simpl.
  - lia.
  - intros q j E. destruct (V2 q j E) as (? & K & ?). split; [lia|]. split; [|done]. intros h Eh. specialize (K h Eh). lia.
  - intros h H. destruct (decide (h = brk s)) as [->|D].
    + rewrite lookup_insert_eq. intros [= <-]. split; [lia|]. by apply tab_fresh.
    + rewrite lookup_insert_ne by done. intros E. destruct (V3 h H E). split; [lia|done].
  - rewrite PT. split.
    + constructor; [|apply V4]. intros Hin. destruct V4 as [_ T]. destruct (T _ Hin). congruence.
    + intros h Hh. rewrite PT in Hh. apply elem_of_cons in Hh as [->|Hh]; [rewrite lookup_insert_eq; by eexists|].
      destruct V4 as [_ T]. destruct (T h Hh) as [H E]. exists H. by apply Keep.
  - intros h H. destruct (decide (h = brk s)) as [->|D]; [|rewrite lookup_insert_ne by done; apply V5].
    rewrite lookup_insert_eq. intros [= <-]. split; [|done]. intros Q. destruct V4 as [_ T].
    destruct (T (brk s)) as [H' E']; [right; rewrite Q; by left|]. congruence.
  - intros q qs [= <- <-]. rewrite Eg. by destruct (V6 p [] Ep).
  - lia.
  - intros h H0 Hh E0. destruct (F7 h H0 Hh E0) as (H1 & E1 & R). exists H1. split; [by apply Keep|done].
  - intros h Hh. unfold pcb_tabs in *. rewrite Ep in F8. simpl in Hh. change (h ∈ tabs_of p') in Hh. rewrite P in Hh.
    apply elem_of_cons in Hh as [->|Hh]; [done|by apply F8].
Qed.

(** ** The operations *)

Lemma inv_length b r s h H : inv b r s -> hashes s !! h = Some H -> Z.of_nat (length (members H)) < 2 ^ 64.
Proof.
  intros V E. destruct (v_hashes _ _ _ V h H E) as [_ T]. pose proof (v_brk _ _ _ V).
  assert (length (members H) <= length (seq 0 (brk s)))%nat as L.
  { apply submseteq_length, NoDup_submseteq; [by eapply t_nodup|]. intros p Hp.
    destruct (t_live _ _ _ _ _ _ T Hp) as (i & n & Ei & _). apply elem_of_seq. pose proof (v_ids _ _ _ V p i Ei). lia. }
  rewrite length_seq in L. lia.
Qed.

Lemma wp_ident p i (Q : dt_ident -> hdl -> Prop) E s : ids s !! p = Some i -> Q i s -> wp (ident p) Q E s.
Proof. intros Ei. unfold wp, ident. by rewrite Ei. Qed.
Lemma wp_upd_ident p i f (Q : () -> hdl -> Prop) E s : ids s !! p = Some i -> Q () (set_ids (<[p := f i]>) s) -> wp (upd_ident p f) Q E s.
Proof. intros Ei. unfold wp, upd_ident. by rewrite Ei. Qed.
Lemma wp_idhash h H (Q : dt_idhash -> hdl -> Prop) E s : hashes s !! h = Some H -> Q H s -> wp (idhash h) Q E s.
Proof. intros Eh. unfold wp, idhash. by rewrite Eh. Qed.
Lemma wp_upd_idhash h H f (Q : () -> hdl -> Prop) E s : hashes s !! h = Some H -> Q () (set_hashes (<[h := f H]>) s) -> wp (upd_idhash h f) Q E s.
Proof. intros Eh. unfold wp, upd_idhash. by rewrite Eh. Qed.

(** The loop of a lookup finds the first identifier with the name. *)
Lemma wp_find_name name l (Q : option nat -> hdl -> Prop) E s :
  (forall p, p ∈ l -> exists i n, ids s !! p = Some i /\ di_name i = Some n) ->
  Q (head (filter (λ p, (ids s !! p) ≫= di_name = Some name) l)) s ->
  wp (find_name name l) Q E s.
Proof.
  induction l as [|p l IH]; intros L HQ; [done|]. cbn [find_name].
  destruct (L p) as (i & n & Ei & En); [by left|].
  apply triple_bind, (wp_ident p i); [done|]. rewrite En. cbn [str]. apply triple_bind, triple_ret.
  rewrite filter_cons in HQ. rewrite Ei in HQ. cbn [mbind option_bind] in HQ. rewrite En in HQ. destruct (decide (n = name)) as [D|D].
  - subst n. rewrite decide_True in HQ by done. done.
  - rewrite decide_False in HQ by congruence. apply IH; [|done]. intros q Hq. apply L. by right.
Qed.

(** The identifiers that a table has for a name, the innermost first. *)
Definition entries (m : gmap nat dt_ident) (H : dt_idhash) (name : list Z) : list nat :=
  filter (λ p, (m !! p) ≫= di_name = Some name) (chain H (slot name H)).

Lemma wp_lookup b r s h H name populate Q E : Inv b r s -> hashes s !! h = Some H ->
  Q (head (entries (ids s) H name)) s -> wp (lookup_with chr populate h name) Q E s.
Proof.
  intros [V F] Eh HQ. destruct (v_hashes _ _ _ V h H Eh) as [_ T]. unfold lookup_with.
  apply triple_bind, (wp_idhash h H); [done|]. rewrite decide_False by (rewrite (t_tmpl _ _ _ _ _ T); by intros []).
  apply triple_bind, triple_ret, triple_bind, (wp_idhash h H); [done|]. apply wp_find_name; [|done].
  intros p Hp. destruct (t_chain _ _ _ _ _ T _ p Hp) as (i & n & Ei & En & _). by exists i, n.
Qed.

Lemma head_entries m H name p : head (entries m H name) = Some p -> p ∈ chain H (slot name H) /\ exists i, m !! p = Some i /\ di_name i = Some name.
Proof.
  intros E. assert (p ∈ entries m H name) as [Hn Hp]%list_elem_of_filter by (destruct (entries m H name); [done|]; injection E as ->; by left).
  split; [done|]. destruct (m !! p) as [i|]; [|done]. by exists i.
Qed.

Lemma wp_alloc b r s (Q : bool -> hdl -> Prop) E : Inv b r s ->
  (forall ok m, (ok = true -> Z.of_nat (brk s) < 2 ^ 64 - 1) -> Q ok (set_mem m s)) -> wp alloc Q E s.
Proof.
  intros I HQ. unfold wp, alloc. destruct (malloc (mem s)) as [ok m]. apply HQ. intros [_ L]%andb_true_iff. by apply Z.ltb_lt.
Qed.

(** A new identifier, or none if there is no memory. *)
Lemma wp_create b r s n kind flags id attr vers ops iarg (Q : option nat -> hdl -> Prop) E : Inv b r s ->
  (forall s', Inv b r s' -> hashes s' = hashes s -> pcbs s' = pcbs s -> Q None s') ->
  cookable (Ident (Some n) kind flags id attr vers ops iarg 0 0 CTF_ERR (-1) 0 g 0 None) ->
  (forall s' p line, Inv b r s' -> hashes s' = hashes s -> pcbs s' = pcbs s -> (brk s0 <= p)%nat ->
     ids s' !! p = Some (Ident (Some n) kind flags id attr vers ops iarg 0 0 CTF_ERR (-1) 0 g line None) -> Q (Some p) s') ->
  wp (dt_ident_create (Some n) kind flags id attr vers ops iarg g) Q E s.
Proof.
  intros I QN K QS. unfold dt_ident_create. apply triple_bind, (wp_alloc b r); [done|]. intros dup m _.
  pose proof (inv_mem _ _ _ m I) as I1. destruct dup; cbn [negb]; [|by apply triple_ret, QN].
  apply triple_bind, (wp_alloc b r); [done|]. intros ok m' B. pose proof (inv_mem _ _ _ m' I1) as I2.
  destruct ok; cbn [negb]; [|by apply triple_ret, QN]. specialize (B eq_refl).
  unfold wp, gets, new_ident, mbind, M_bind, mret, M_ret. eapply QS.
  - apply inv_new; [exact I2|exact B|done|done|done].
  - done.
  - done.
  - destruct I2 as [_ F]. apply (f_brk _ _ _ F).
  - apply lookup_insert_eq.
Qed.

(** An identifier of this pass is deleted. *)
Lemma wp_delete b r s h H p (Q : () -> hdl -> Prop) E : Inv b r s -> hashes s !! h = Some H -> p ∈ members H -> (brk s0 <= p)%nat ->
  (forall s' n, Inv b r s' -> pcbs s' = pcbs s -> (forall q, q <> p -> ids s' !! q = ids s !! q) ->
     (ids s !! p) ≫= di_name = Some n ->
     hashes s' = <[h := with_chain (u64 (dh_nelems H - 1)) (slot n H) (remove_one p (chain H (slot n H))) H]> (hashes s) -> Q () s') ->
  wp (dt_idhash_delete chr h p) Q E s.
Proof.
  intros I Eh Hp O HQ. destruct I as [V F]. destruct (v_hashes _ _ _ V h H Eh) as [_ T].
  destruct (t_live _ _ _ _ _ _ T Hp) as (i & n & Ei & En & Hc & _). unfold dt_idhash_delete.
  apply triple_bind, (wp_ident p i); [done|]. rewrite En. cbn [str]. apply triple_bind, triple_ret, triple_bind, (wp_idhash h H); [done|].
  rewrite bool_decide_true by done. apply triple_bind, triple_ret.
  assert (dh_nelems H <> 0) as NZ.
  { rewrite (t_nelems _ _ _ _ _ T). pose proof (inv_length _ _ _ _ _ V Eh). rewrite wrapu_small by lia.
    destruct (members H); [by apply elem_of_nil in Hp|]. cbn [length]. lia. }
  rewrite (proj2 (Z.eqb_neq _ _) NZ). cbn [negb assert]. apply triple_bind, triple_ret, triple_bind, (wp_upd_idhash h H); [done|].
  destruct (inv_unlink b r s h H p n (conj V F) Eh Hc O) as [I1 N1]. unfold dt_ident_destroy.
  destruct (flag (di_flags i) DT_IDFLG_ORPHAN); cbn [negb].
  - apply triple_ret. eapply HQ; [exact I1|done|done| |done]. rewrite Ei. done.
  - unfold wp, free_ident. cbn [set_hashes ids]. rewrite Ei. eapply HQ; [by apply inv_free|done| | |done].
    + intros q D. simpl. by rewrite lookup_delete_ne by done.
    + rewrite Ei. done.
Qed.

(** *** Deferred pragmas *)

(** The pragma table, if there is one, is a table of the control block. *)
Lemma inv_pragmas b r s pcb php : Inv b r s -> pcbs s = [pcb] -> pcb_pragmas pcb = Some php ->
  (brk s0 <= php)%nat /\ (php ∉ three s) /\ exists P, hashes s !! php = Some P.
Proof.
  intros [V F] Ep Eq. assert (php ∈ pcb_tabs s) as Hin by (unfold pcb_tabs; rewrite Ep, Eq; by left).
  destruct (v_tabs _ _ _ V) as [ND T]. split; [by apply (f_pcb _ _ _ F)|]. split.
  - apply NoDup_app in ND as (_ & D & _). intros Hin'. by destruct (D php).
  - destruct (T php) as [P E]; [apply elem_of_app; by right|]. by exists P.
Qed.

(** The loop ends, having applied the pragmas of the name to a new identifier of a table of
    the handle. *)
Lemma wp_pragma_loop fuel b r s pcb php P idp i n populate (Q : () -> hdl -> Prop) E :
  Inv b r s -> pcbs s = [pcb] -> pcb_pragmas pcb = Some php -> hashes s !! php = Some P ->
  ids s !! idp = Some i -> di_name i = Some n -> di_hash i <> Some php -> (brk s0 <= idp)%nat ->
  (length (chain P (slot n P)) < fuel)%nat ->
  (forall s' i', Inv b r s' -> pcbs s' = [pcb] -> ids s' !! idp = Some i' -> core i' = core i -> di_flags i' = di_flags i -> di_gen i' = di_gen i ->
     (forall h, h <> php -> hashes s' !! h = hashes s !! h) -> Q () s') ->
  wp (pragma_loop chr fuel (lookup_with chr populate) php idp) Q E s.
Proof.
  revert s P i. induction fuel as [|fuel IH]; intros s P i I Ep Eq EP Ei En Eh O L HQ; [lia|]. cbn [pragma_loop].
  apply triple_bind, (wp_ident idp i); [done|]. rewrite En. cbn [str]. apply triple_bind, triple_ret.
  apply triple_bind, (wp_lookup b r s php P); [done|done|].
  destruct (head (entries (ids s) P n)) as [pdp|] eqn:Ehd; [|apply triple_ret; by apply (HQ s i)].
  apply head_entries in Ehd as (Hc & pi & Epi & Enp). apply triple_bind, (wp_ident pdp pi); [done|].
  assert (pdp ∈ members P) as Hm by (apply elem_of_members; by eexists).
  destruct (proj1 I) as [_ _ VH _ _ _]. destruct (VH php P EP) as [_ T].
  destruct (t_live _ _ _ _ _ _ T Hm) as (pi' & n' & Epi' & _ & _ & Ehp). replace pi' with pi in * by congruence.
  destruct (inv_pragmas b r s pcb php I Ep Eq) as (Op & _ & _).
  pose proof (inv_pcb_new b r s pdp pi php I Epi Ehp Op) as Opd. assert (pdp <> idp) as D by congruence.
  assert (exists f, wp (if di_kind pi =? DT_IDENT_PRAGAT then upd_ident idp (with_attr (di_attr pi))
           else if di_kind pi =? DT_IDENT_PRAGBN then upd_ident idp (with_vers (di_vers pi)) else mret ())
           (λ _ s', s' = set_ids (<[idp := f i]>) s) E s /\ core (f i) = core i /\ di_flags (f i) = di_flags i /\ di_gen (f i) = di_gen i /\
    (cookable i -> cookable (f i))) as (f & W & Cf & Ff & Gf & Kf).
  { destruct (di_kind pi =? DT_IDENT_PRAGAT).
    { exists (with_attr (di_attr pi)). split; [|done]. by apply (wp_upd_ident idp i). }
    destruct (di_kind pi =? DT_IDENT_PRAGBN).
    { exists (with_vers (di_vers pi)). split; [|done]. by apply (wp_upd_ident idp i). }
    exists (λ x, x). split; [|done]. apply triple_ret. destruct s. unfold set_ids. simpl in *. by rewrite insert_id by done. }
  apply triple_bind. eapply triple_mono; [|intros e s' X; exact X|exact W]. cbn beta. intros _ s1 ->. clear W.
  pose proof (inv_ident b r s idp i (f i) I Ei Cf Gf Kf (or_introl O)) as I1.
  apply triple_bind, (wp_delete b r _ php P pdp); [done|done|done|done|].
  intros s2 m I2 Ep2 K2 Em E2. simpl in Em, E2, K2. rewrite lookup_insert_ne in Em by done. rewrite Epi in Em. cbn in Em.
  replace m with n in * by congruence. pose proof (t_size _ _ _ _ _ T) as [Ts Tl].
  assert (di_name (f i) = Some n) as Enf by (apply core_facts in Cf as (-> & _); done).
  assert (di_hash (f i) = di_hash i) as Ehf by (apply core_facts in Cf as (_ & _ & _ & _ & _ & _ & ->); done).
  eapply (IH s2 _ (f i)); [done|by rewrite Ep2|done|by rewrite E2, lookup_insert_eq| |done|congruence|done| |].
  - rewrite K2 by done. apply lookup_insert_eq.
  - change (slot n (with_chain _ _ _ P)) with (slot n P). rewrite chain_with_chain by (by apply slot_lt). rewrite decide_True by done.
    pose proof (Permutation_length (remove_one_perm pdp _ Hc)) as PL. cbn [length] in PL. lia.
  - intros s' i' I' Ep' Ei' C' F' Gg' K'. apply (HQ s' i'); [done|done|done|congruence|congruence|congruence|].
    intros h Dh. rewrite K', E2, lookup_insert_ne by done. done.
Qed.

(** *** Insertion *)

Lemma three_globals s : dt_globals s ∈ three s.
Proof. right. by left. Qed.

(** A new identifier is linked into a table, and deferred pragmas are applied to it. *)
Lemma wp_link b r r' s p i n h H populate (Q : () -> hdl -> Prop) E : Inv b r s -> ids s !! p = Some i -> di_name i = Some n ->
  di_hash i = None -> di_offset i = -1 -> (brk s0 <= p)%nat -> hashes s !! h = Some H -> r' = None \/ r' = r ->
  (is_var (di_kind i) = true -> 0 <= di_id i < 2 ^ 32 /\ (di_id i < dh_minid H \/ (r = Some (h, di_id i) /\ r' = None))) ->
  (dh_defer H = true -> exists pcb, pcbs s = [pcb]) ->
  (forall s' i' H', Inv b r' s' -> pcbs s' = pcbs s -> ids s' !! p = Some i' -> core i' = core (with_hash (Some h) i) ->
     di_flags i' = di_flags i -> di_gen i' = di_gen i -> hashes s' !! h = Some H' -> p ∈ members H' -> Q () s') ->
  wp (link chr populate h n p) Q E s.
Proof.
  intros I Ei En N Eo O Eh Hr Hid Hd HQ. unfold link. apply triple_bind, (wp_idhash h H); [done|].
  apply triple_bind, (wp_upd_ident p i); [done|]. apply triple_bind, (wp_upd_idhash h H); [done|].
  pose proof (inv_link b r r' s p i n h H I Ei En N Eo O Eh Hr Hid) as I1.
  set (s1 := set_hashes _ _) in *. set (H' := with_chain _ _ _ H) in *.
  assert (hashes s1 !! h = Some H') as Eh1 by apply lookup_insert_eq.
  assert (ids s1 !! p = Some (with_hash (Some h) i)) as Ei1 by apply lookup_insert_eq.
  destruct (v_hashes _ _ _ (proj1 I) h H Eh) as [_ T]. destruct (t_size _ _ _ _ _ T) as [Ts Tl].
  assert (p ∈ members H') as Hp.
  { apply elem_of_members. exists (slot n H). unfold H'. rewrite chain_with_chain by (by apply slot_lt). rewrite decide_True by done. by left. }
  destruct (dh_defer H) eqn:Ed; [|apply triple_ret; by eapply HQ]. destruct (Hd eq_refl) as [pcb Ep].
  assert (h = dt_globals s) as Eg by (by apply (v_glob _ _ _ (proj1 I) h H Eh)).
  unfold dt_pragma_apply, yypcb. apply triple_bind. unfold wp at 1. change (pcbs s1) with (pcbs s). rewrite Ep.
  destruct (pcb_pragmas pcb) as [php|] eqn:Eq; [|apply triple_ret; by eapply HQ].
  destruct (inv_pragmas b r' s1 pcb php I1 Ep Eq) as (_ & Nt & P & EP).
  assert (php <> h) as D. { intros ->. apply Nt. change (three s1) with (three s). rewrite Eg. apply three_globals. }
  apply triple_bind, (wp_idhash php P); [done|]. apply triple_bind, (wp_ident p (with_hash (Some h) i)); [done|].
  cbn [with_hash di_name]. rewrite En. cbn [str]. apply triple_bind, triple_ret.
  apply (wp_pragma_loop _ b r' s1 pcb php P p (with_hash (Some h) i) n); try done; [simpl; congruence|lia|].
  intros s' i' I' Ep' Ei' C F Gg K. apply (HQ s' i' H'); try done; [congruence|]. rewrite K by done. done.
Qed.

(** dt_idhash_insert(): without memory nothing happens. *)
Lemma wp_insert b r r' s n kind flags id attr vers ops iarg h H populate (Q : option nat -> hdl -> Prop) E :
  Inv b r s -> hashes s !! h = Some H -> r' = None \/ r' = r ->
  (is_var kind = true -> 0 <= id < 2 ^ 32 /\ (id < dh_minid H \/ (r = Some (h, id) /\ r' = None))) ->
  (dh_defer H = true -> exists pcb, pcbs s = [pcb]) -> cookable (Ident (Some n) kind flags id attr vers ops iarg 0 0 CTF_ERR (-1) 0 g 0 None) ->
  (forall s', Inv b r s' -> pcbs s' = pcbs s -> hashes s' = hashes s -> Q None s') ->
  (forall s' p i H', Inv b r' s' -> pcbs s' = pcbs s -> (brk s0 <= p)%nat -> ids s' !! p = Some i -> di_name i = Some n ->
     di_flags i = flags -> di_gen i = g -> di_hash i = Some h ->
     hashes s' !! h = Some H' -> p ∈ members H' -> Q (Some p) s') ->
  wp (insert_with chr populate h n kind flags id attr vers ops iarg g) Q E s.
Proof.
  intros I Eh Hr Hid Hd K QN QS. unfold insert_with. apply triple_bind, (wp_idhash h H); [done|].
  destruct (v_hashes _ _ _ (proj1 I) h H Eh) as [_ T].
  rewrite decide_False by (rewrite (t_tmpl _ _ _ _ _ T); by intros []). apply triple_bind, triple_ret.
  apply triple_bind, (wp_create b r); [done| |done|].
  - intros s' I' E' Ep'. apply triple_ret. by apply QN.
  - intros s' p line I' E' Ep' O Ei. apply triple_bind.
    eapply (wp_link b r r' s'); [done|exact Ei|done|done|done|done|by rewrite E'|done|done|by rewrite Ep'|].
    intros s2 i' H' I2 Ep2 Ei2 C F Gg Eh2 Hp. apply core_facts in C as (Cn & _ & _ & _ & _ & _ & Ch).
    apply triple_ret. apply (QS s2 p i' H'); try done; congruence.
Qed.

Lemma wp_nextid b s h H (Q : option Z -> hdl -> Prop) E : Inv b None s -> hashes s !! h = Some H ->
  (dh_maxid H <= dh_nextid H -> Q None s) ->
  (forall s', Inv b (Some (h, dh_nextid H)) s' -> pcbs s' = pcbs s -> 0 <= dh_nextid H < 2 ^ 32 ->
     hashes s' !! h = Some (with_nextid (u32 (dh_nextid H + 1)) H) -> Q (Some (dh_nextid H)) s') ->
  wp (dt_idhash_nextid h) Q E s.
Proof.
  intros I Eh QN QS. unfold dt_idhash_nextid. apply triple_bind, (wp_idhash h H); [done|].
  destruct (dh_maxid H <=? dh_nextid H) eqn:L; [apply Z.leb_le in L; by apply triple_ret, QN|]. apply Z.leb_gt in L.
  apply triple_bind, (wp_upd_idhash h H); [done|]. apply triple_ret, QS; [by apply inv_nextid|done| |apply lookup_insert_eq].
  destruct (v_hashes _ _ _ (proj1 I) h H Eh) as [_ T]. pose proof (t_ids _ _ _ _ _ T). lia.
Qed.

(** *** Variables *)

Lemma flag_tls f : flag f DT_IDFLG_TLS = Z.testbit f 0.
Proof.
  unfold flag, c_true, DT_IDFLG_TLS. change 1 with (Z.ones 1). rewrite Z.land_ones by lia. change (2 ^ 1) with 2. rewrite Zmod_odd, Z.bit0_odd. by destruct (Z.odd f).
Qed.

Lemma flag_tls_local f : flag f (Z.lor DT_IDFLG_LOCAL DT_IDFLG_TLS) = true -> flag f DT_IDFLG_LOCAL = false -> flag f DT_IDFLG_TLS = true.
Proof.
  unfold flag, c_true. rewrite Z.land_lor_distr_r, !negb_true_iff, negb_false_iff, !Z.eqb_neq, Z.eqb_eq. intros N E. by rewrite E in N.
Qed.

Lemma tls_or f m : Z.testbit m 0 = false -> flag (u16 (Z.lor f m)) DT_IDFLG_TLS = flag f DT_IDFLG_TLS.
Proof. intros E. rewrite !flag_tls. unfold wrapu. rewrite Z.mod_pow2_bits_low by lia. by rewrite Z.lor_spec, E, orb_false_r. Qed.

Lemma core_or_flags i m : Z.testbit m 0 = false -> core (with_flags (u16 (Z.lor (di_flags i) m)) i) = core i.
Proof. intros E. unfold core, elsewhere. simpl. by rewrite tls_or. Qed.

Context (Hg : g = dt_gen s0).

(** A pass is under way. *)
Definition Busy (b : Z) (r : option (nat * Z)) (s : hdl) : Prop :=
  Inv b r s /\ exists pcb l, pcbs s = [pcb] /\ pcb_locals pcb = Some l.

(** The state at a jump. *)
Definition Jumped (b : Z) (e : Z) (s : hdl) : Prop := e <> 0 /\ Busy b None s.

(** [p] is in a table. *)
Definition Var (p : nat) (i : dt_ident) (s : hdl) : Prop :=
  ids s !! p = Some i /\ exists h H, hashes s !! h = Some H /\ p ∈ members H.

Lemma busy_drop b r s : Busy b r s -> Busy b None s.
Proof. intros [I P]. split; [by eapply inv_release|done]. Qed.
Lemma busy_budget b b' r s : b <= b' -> Busy b r s -> Busy b' r s.
Proof. intros L [I P]. split; [by eapply inv_budget|done]. Qed.
Lemma jumped_budget b b' e s : b <= b' -> Jumped b e s -> Jumped b' e s.
Proof. intros L [N P]. split; [done|by eapply busy_budget]. Qed.
Lemma busy_pcb b r r' s s' : Busy b r s -> Inv b r' s' -> pcbs s' = pcbs s -> Busy b r' s'.
Proof. intros [_ (pcb & l & Ep & El)] I E. split; [done|]. exists pcb, l. by rewrite E. Qed.

Lemma wp_longjmp {A} b r s e (Q : A -> hdl -> Prop) : Busy b r s -> e <> 0 -> wp (longjmp e) Q (Jumped b) s.
Proof.
  intros B N. destruct (busy_drop _ _ _ B) as [I (pcb & l & Ep & El)]. unfold wp, longjmp. rewrite Ep. split; [done|]. split; [done|]. by exists pcb, l.
Qed.
Lemma wp_xyerror {A} b r s (Q : A -> hdl -> Prop) : Busy b r s -> wp xyerror Q (Jumped b) s.
Proof. intros B. by eapply wp_longjmp. Qed.

Lemma wp_yypcb b r s (Q : dt_pcb -> hdl -> Prop) E : Busy b r s ->
  (forall pcb l, pcbs s = [pcb] -> pcb_locals pcb = Some l -> pcb_globals pcb = [dt_globals s] -> Q pcb s) -> wp yypcb Q E s.
Proof.
  intros [I (pcb & l & Ep & El)] HQ. unfold wp, yypcb. rewrite Ep. eapply HQ; [done|done|]. by destruct (v_pcb _ _ _ (proj1 I) pcb [] Ep).
Qed.

Lemma wp_table b r s t (Q : nat -> hdl -> Prop) E : Busy b r s ->
  (forall h H, hashes s !! h = Some H -> Q h s) -> wp (table_of t) Q E s.
Proof.
  intros B HQ. destruct (v_tabs _ _ _ (proj1 (proj1 B))) as [_ T].
  assert (forall h, h ∈ tabs s -> Q h s) as K. { intros h Hh. destruct (T h Hh) as [H Eh]. by eapply HQ. }
  destruct t; cbn [table_of].
  - apply K, elem_of_app. left. apply three_globals.
  - apply K, elem_of_app. left. do 2 right. by left.
  - apply triple_bind, (wp_yypcb b r); [done|]. intros pcb l Ep El _. rewrite El. apply triple_ret, K, elem_of_app. right.
    unfold pcb_tabs. rewrite Ep, El. apply elem_of_app. right. by left.
  - apply K, elem_of_app. left. by left.
Qed.

Lemma head_var b r s h H n p : Inv b r s -> hashes s !! h = Some H -> head (entries (ids s) H n) = Some p -> exists i, Var p i s.
Proof.
  intros I Eh (Hc & i & Ei & _)%head_entries. exists i. split; [done|]. exists h, H. split; [done|]. apply elem_of_members. by eexists.
Qed.

Lemma wp_find b r s t n (Q : option nat -> hdl -> Prop) E : Busy b r s ->
  Q None s -> (forall p i, Var p i s -> Q (Some p) s) -> wp (find chr t n) Q E s.
Proof.
  intros B QN QS.
  assert (forall h H, hashes s !! h = Some H -> wp (dt_idhash_lookup chr h n) Q E s) as K.
  { intros h H Eh. apply (wp_lookup b r s h H); [apply B|done|]. destruct (head _) as [p|] eqn:Ep; [|done].
    destruct (head_var b r s h H n p (proj1 B) Eh Ep) as [i V]. by eapply QS. }
  destruct t; cbn [find].
  - apply triple_bind, (wp_yypcb b r); [done|]. intros pcb l Ep El ->. unfold dt_idstack_lookup. cbn [rev app stack_lookup].
    destruct (v_tabs _ _ _ (proj1 (proj1 B))) as [_ T]. destruct (T (dt_globals s)) as [H Eh]; [apply elem_of_app; left; apply three_globals|].
    apply triple_bind. eapply triple_mono; [|intros e s' X; exact X|exact (K _ H Eh)]. intros [p|] s' X; by apply triple_ret.
  - apply triple_bind, (wp_table b r); [done|]. intros h H Eh. by apply (K h H).
  - apply triple_bind, (wp_table b r); [done|]. intros h H Eh. by apply (K h H).
  - apply triple_bind, (wp_table b r); [done|]. intros h H Eh. by apply (K h H).
Qed.

Lemma gen_now b r s : Inv b r s -> dt_gen s = g.
Proof. intros [_ F]. by rewrite (f_gen _ _ _ F). Qed.

Lemma wp_new_var b s t n kind flags ops (Q : nat -> hdl -> Prop) : Busy b None s ->
  ops = dt_idops_assc \/ ops = dt_idops_thaw ->
  (forall s' p i, Busy b None s' -> (brk s0 <= p)%nat -> Var p i s' -> di_gen i = g -> Q p s') ->
  wp (new_var chr t n kind flags ops) Q (Jumped b) s.
Proof.
  intros B K HQ. unfold new_var. apply triple_bind, (wp_table b None); [done|]. intros h H Eh.
  apply triple_bind, (wp_nextid b s h H); [apply B|done|by intros _; eapply wp_xyerror|].
  intros s1 I1 Ep1 R Eh1. pose proof (busy_pcb _ _ _ _ _ B I1 Ep1) as B1. apply triple_bind. unfold wp at 1, gets.
  rewrite (gen_now _ _ _ I1). apply triple_bind. destruct B1 as [_ (pcb & l & Epc & El)].
  eapply (wp_insert b _ None s1); [done|exact Eh1|by left|by intros _; split; [done|right]|by intros _; exists pcb|by destruct K as [-> | ->]| |].
  - intros s2 I2 Ep2 _. eapply wp_longjmp; [|done]. eapply busy_pcb; [exact B|exact I2|congruence].
  - intros s2 p i H' I2 Ep2 O Ei _ _ Gi _ Eh2 Hp. apply triple_ret, (HQ s2 p i); [|done| |done].
    + eapply busy_pcb; [exact B|done|congruence].
    + split; [done|]. by exists h, H'.
Qed.

Context (Old : forall p i0, ids s0 !! p = Some i0 -> di_gen i0 < g).

(** An identifier of this generation was not there before. *)
Lemma gen_new b r s p i : Inv b r s -> ids s !! p = Some i -> di_gen i = g -> (brk s0 <= p)%nat.
Proof.
  intros [V F] Ei Gi. destruct (decide (brk s0 <= p)%nat) as [?|N]; [done|]. exfalso.
  destruct (f_back _ _ _ F p i ltac:(lia) Ei) as [i0 E0]. destruct (f_old _ _ _ F p i0 E0) as (i' & Ei' & S).
  replace i' with i in * by congruence. specialize (Old p i0 E0).
  assert (di_gen (lasting i) = di_gen (lasting i0)) as Q by (by rewrite S). simpl in Q. lia.
Qed.

(** A change of an identifier in a table that the invariant does not see. *)
Lemma wp_upd b s p i f (Q : () -> hdl -> Prop) E : Busy b None s -> Var p i s -> core (f i) = core i -> di_gen (f i) = di_gen i -> (cookable i -> cookable (f i)) ->
  (brk s0 <= p)%nat \/ lasting (f i) = lasting i ->
  (forall s', Busy b None s' -> Var p (f i) s' -> Q () s') -> wp (upd_ident p f) Q E s.
Proof.
  intros B [Ei (h & H & Eh & Hp)] C Gi K O HQ. apply (wp_upd_ident p i); [done|]. apply HQ.
  - eapply busy_pcb; [exact B|by apply (inv_ident b None s p i); [apply B|..]|done].
  - split; [apply lookup_insert_eq|]. by exists h, H.
Qed.

Lemma wp_or_flags b s p i m (Q : () -> hdl -> Prop) E : Busy b None s -> Var p i s -> Z.testbit m 0 = false ->
  (forall s' i', Busy b None s' -> Var p i' s' -> Q () s') -> wp (or_flags p m) Q E s.
Proof.
  intros B V T HQ. apply (wp_upd b s p i); [done|done|by apply core_or_flags|done|done|by right|]. intros s' B' V'. by eapply HQ.
Qed.

Lemma wp_type_assign b s p i c t (Q : () -> hdl -> Prop) E : Busy b None s -> Var p i s -> (brk s0 <= p)%nat ->
  (forall s' i', Busy b None s' -> Var p i' s' -> Q () s') -> wp (dt_ident_type_assign p c t) Q E s.
Proof. intros B V O HQ. apply (wp_upd b s p i); [done|done|done|done|done|by left|]. intros s' B' V'. by eapply HQ. Qed.

(** *** Cooking *)

(** A change of an identifier that does not last. *)
Lemma wp_touch b s p i f (Q : () -> hdl -> Prop) E : Busy b None s -> Var p i s -> core (f i) = core i -> di_gen (f i) = di_gen i ->
  (cookable i -> cookable (f i)) -> lasting (f i) = lasting i -> (forall s', Busy b None s' -> Var p (f i) s' -> Q () s') -> wp (upd_ident p f) Q E s.
Proof. intros B V C G K L HQ. apply (wp_upd b s p i); auto. Qed.

Lemma wp_new_sig b s p i argc (Q : () -> hdl -> Prop) : Busy b None s -> Var p i s ->
  (forall s' d, Busy b None s' -> Var p (with_data d i) s' -> Q () s') -> wp (new_sig p argc) Q (Jumped b) s.
Proof.
  intros B V HQ. unfold new_sig. apply triple_bind, (wp_alloc b None); [apply B|]. intros ok m L.
  pose proof (busy_pcb _ _ _ _ _ B (inv_mem _ _ _ m (proj1 B)) eq_refl) as B1. destruct ok; cbn [negb]; [|by eapply wp_longjmp]. specialize (L eq_refl).
  apply triple_bind. unfold wp at 1, new_block. set (s1 := set_brk _ _).
  assert (Busy b None s1) as B2 by (eapply busy_pcb; [exact B1|by apply inv_block; [apply B1|]|done]).
  apply triple_bind, (wp_touch b s1 p i); [done|done|done|done|done|done|]. intros s2 B3 V3. apply triple_bind.
  assert (forall m (args : bool), wp (if negb args then upd_ident p (with_data 0) ;; longjmp EDT_NOMEM else mret ()) Q (Jumped b) (set_mem m s2)) as Rest.
  { intros m' args. assert (Busy b None (set_mem m' s2)) as B4 by (eapply busy_pcb; [exact B3|apply inv_mem, B3|done]).
    destruct args; cbn [negb]; [apply triple_ret; by eapply HQ|]. apply triple_bind. eapply wp_touch; [exact B4|exact V3|done|done|done|done|].
    intros s3 B5 _. by eapply wp_longjmp. }
  destruct (argc =? 0).
  - apply triple_ret. specialize (Rest (mem s2) true). by destruct s2.
  - apply (wp_alloc b None); [apply B3|]. intros args m' _. apply Rest.
Qed.

Definition Cooks (m : M ()) (p : nat) (i : dt_ident) : Prop := forall b s (Q : () -> hdl -> Prop), Busy b None s -> Var p i s ->
  (forall s' i', Busy b None s' -> Var p i' s' -> Q () s') -> wp m Q (Jumped b) s.

Lemma cooks_type p i c t : Cooks (upd_ident p (with_ctype c t)) p i.
Proof. intros b s Q B V HQ. apply (wp_touch b s p i); [done..|]. intros s' B' V'. by eapply HQ. Qed.
Lemma cooks_fits p i (ok : bool) : Cooks (if ok then mret () else xyerror) p i.
Proof. intros b s Q B V HQ. destruct ok; [apply triple_ret; by eapply HQ|by eapply wp_xyerror]. Qed.

Lemma cooks_assc p i c : Cooks (dt_idcook_assc p c) p i.
Proof.
  intros b s Q B V HQ. unfold dt_idcook_assc. apply triple_bind, (wp_ident p i); [apply V|].
  destruct (di_data i =? 0); [|by eapply cooks_fits]. apply triple_bind, (wp_new_sig b s p i); [done|done|]. intros s1 d B1 V1. apply triple_bind.
  destruct (flag _ _); [apply triple_ret; by eapply cooks_fits|].
  eapply cooks_type; [done|exact V1|]. intros s2 i2 B2 V2. by eapply cooks_fits.
Qed.

Lemma cooks_func p i c : di_iarg i <> 0 -> Cooks (dt_idcook_func p c) p i.
Proof.
  intros Ni b s Q B V HQ. unfold dt_idcook_func. apply triple_bind, (wp_ident p i); [apply V|]. apply triple_bind.
  assert (forall s1 i1, Busy b None s1 -> Var p i1 s1 -> wp (dt_idcook_sign c) Q (Jumped b) s1) as Sign by (intros s1 i1 B1 V1; by eapply cooks_fits).
  destruct (di_data i =? 0); [|apply triple_ret; by eapply Sign].
  rewrite (proj2 (Z.eqb_neq _ _) Ni). cbn [negb assert]. apply triple_bind, triple_ret. destruct (ck_params c) as [params|]; [|by eapply wp_xyerror].
  apply triple_bind, (wp_new_sig b s p i); [done|done|]. intros s1 d B1 V1. destruct (ck_type c) as [dtt|]; [|by eapply wp_xyerror]. apply triple_bind.
  destruct (di_kind i =? DT_IDENT_AGGFUNC); (eapply cooks_type; [done|exact V1|]); intros s2 i2 B2 V2; eapply cooks_fits; eauto.
Qed.

Lemma cooks_args p i c : Cooks (dt_idcook_args p c) p i.
Proof.
  intros b s Q B V HQ. unfold dt_idcook_args. apply triple_bind, (wp_ident p i); [apply V|].
  destruct (ck_fits c); cbn [negb]; [|by eapply wp_xyerror]. apply triple_bind.
  assert (forall s1 i1, Busy b None s1 -> Var p i1 s1 -> wp (match ck_type c with None => xyerror
    | Some _ => ok ← alloc; if negb ok then longjmp EDT_NOMEM else mret () end) Q (Jumped b) s1) as Rest.
  { intros s1 i1 B1 V1. destruct (ck_type c); [|by eapply wp_xyerror]. apply triple_bind, (wp_alloc b None); [apply B1|]. intros ok m _.
    assert (Busy b None (set_mem m s1)) as B2 by (eapply busy_pcb; [exact B1|apply inv_mem, B1|done]).
    destruct ok; cbn [negb]; [apply triple_ret; by eapply HQ|by eapply wp_longjmp]. }
  destruct (di_type i =? CTF_ERR); [|apply triple_ret; by eapply Rest]. eapply cooks_type; [done|exact V|]. intros s1 i1 B1 V1. by eapply Rest.
Qed.

Lemma cooks_lookup p i (o : option (Z * Z)) : Cooks (match o with None => xyerror | Some dtt => upd_ident p (with_ctype dtt.1 dtt.2) end) p i.
Proof. intros b s Q B V HQ. destruct o; [by eapply cooks_type|by eapply wp_xyerror]. Qed.

(** dt_ident_cook() of an identifier in a table: it returns or jumps, and changes only what
    does not last. *)
Lemma wp_cook b s p i c (Q : () -> hdl -> Prop) : Busy b None s -> Var p i s ->
  (forall s' i', Busy b None s' -> Var p i' s' -> Q () s') -> wp (dt_ident_cook p c) Q (Jumped b) s.
Proof.
  intros B V HQ. destruct (v_ids _ _ _ (proj1 (proj1 B)) p i (proj1 V)) as (_ & _ & _ & K). unfold cookable in K.
  unfold dt_ident_cook. apply triple_bind, (wp_ident p i); [apply V|].
  destruct (di_ops i) as [[]|]; [by eapply cooks_assc|by eapply cooks_func|by eapply cooks_args| | |apply triple_ret; by eapply HQ| |apply triple_ret; by eapply HQ..|done].
  - unfold dt_idcook_regs. destruct (ck_fits c); cbn [negb]; [by eapply cooks_lookup|by eapply wp_xyerror].
  - unfold dt_idcook_type. apply triple_bind, (wp_ident p i); [apply V|]. destruct (di_type i =? CTF_ERR); [|apply triple_ret; by eapply HQ].
    rewrite (proj2 (Z.eqb_neq _ _) K). cbn [negb assert]. apply triple_bind, triple_ret. by eapply cooks_lookup.
  - unfold dt_idcook_inline. apply triple_bind, (wp_ident p i); [apply V|]. destruct (di_kind i =? DT_IDENT_ARRAY); [by eapply cooks_assc|apply triple_ret; by eapply HQ].
Qed.

Lemma wp_xcook b s t n kind create c (Q : nat -> hdl -> Prop) : Busy b None s ->
  (forall s' p i, Busy b None s' -> Var p i s' -> Q p s') -> wp (dt_xcook_ident chr t n kind create c) Q (Jumped b) s.
Proof.
  intros B HQ. unfold dt_xcook_ident.
  assert (forall s1 p i, Busy b None s1 -> Var p i s1 -> wp (cook_scalar p c ;; mret p) Q (Jumped b) s1) as Cook.
  { intros s1 p i B1 V1. unfold cook_scalar. apply triple_bind, triple_bind, (wp_ident p i); [apply V1|].
    destruct (_ || _); [apply triple_ret, triple_ret; by eapply HQ|]. apply (wp_cook b s1 p i); [done|done|]. intros s2 i2 B2 V2. apply triple_ret. by eapply HQ. }
  apply triple_bind, (wp_find b None); [done| |].
  - destruct create; [|by eapply wp_xyerror]. apply triple_bind, wp_new_var; [done|destruct (_ || _); auto|]. intros s' p i B' _ V _. by eapply Cook.
  - intros p i V. apply triple_bind, (wp_ident p i); [apply V|]. destruct (_ && _); [by eapply wp_xyerror|]. by eapply Cook.
Qed.

(** A place for a variable of this pass: in the storage of its table, or none for one whose
    storage is elsewhere. *)
Lemma wp_set_storage b s p i a z (Q : () -> hdl -> Prop) E : Busy b None s -> Var p i s -> (brk s0 <= p)%nat ->
  0 < a -> 0 <= z -> b + a + z < 2 ^ 31 ->
  (forall s' i', Busy (b + a + z) None s' -> Var p i' s' -> Q () s') -> wp (dt_ident_set_storage p a z) Q E s.
Proof.
  intros B [Ei (h & H & Eh & Hp)] O Pa Pz L HQ. destruct (v_hashes _ _ _ (proj1 (proj1 B)) h H Eh) as [_ T].
  destruct (t_live _ _ _ _ _ _ T Hp) as (i' & n & Ei' & _ & _ & Ehi). replace i' with i in * by congruence.
  assert (forall s1, wp (max ← gets dt_maxdvarsize;
     if ((di_kind i =? DT_IDENT_ARRAY) || flag (di_flags i) DT_IDFLG_TLS) && (max <? z) then modify (set_maxdvarsize z) else mret ()) Q E s1
     <-> Q () (if ((di_kind i =? DT_IDENT_ARRAY) || flag (di_flags i) DT_IDFLG_TLS) && (dt_maxdvarsize s1 <? z) then set_maxdvarsize z s1 else s1)) as Max.
  { intros s1. unfold wp, gets, modify, mbind, M_bind. destruct (_ && _); done. }
  assert (forall s1, Inv (b + a + z) None s1 -> pcbs s1 = pcbs s -> (exists j, Var p j s1) ->
     Q () (if ((di_kind i =? DT_IDENT_ARRAY) || flag (di_flags i) DT_IDFLG_TLS) && (dt_maxdvarsize s1 <? z) then set_maxdvarsize z s1 else s1)) as Done.
  { intros s1 I1 Ep1 [j V1]. destruct B as [_ (pcb & l & Ep & El)]. destruct (_ && _); eapply HQ; try exact V1; split;
      try (by apply inv_maxdvarsize); try done; exists pcb, l; simpl; by rewrite Ep1. }
  unfold dt_ident_set_storage. apply triple_bind, (wp_ident p i); [done|]. rewrite Ehi. apply triple_bind, triple_ret, triple_bind, (wp_idhash h H); [done|].
  apply triple_bind. destruct (negb (di_kind i =? DT_IDENT_AGG) && negb (flag (di_flags i) DT_IDFLG_TLS)) eqn:Here.
  - apply triple_bind, (wp_upd_ident p i); [done|]. apply (wp_upd_idhash h H); [done|]. apply triple_bind.
    eapply (wp_upd_ident p); [apply lookup_insert_eq|]. apply Max, Done.
    + pose proof (inv_storage b None s h H p i a z (proj1 B) Eh Hp Ei O Pa Pz L) as I1. destruct s. unfold set_ids, set_hashes in *. simpl in *.
      by rewrite insert_insert_eq.
    + done.
    + eexists. split; [simpl; apply lookup_insert_eq|]. exists h. eexists. split; [simpl; apply lookup_insert_eq|]. done.
  - apply (wp_upd_ident p i); [done|]. apply triple_bind. eapply (wp_upd_ident p); [apply lookup_insert_eq|]. apply Max, Done.
    + assert (elsewhere i = true) as El. { unfold elsewhere. apply andb_false_iff in Here as [X|X]; apply negb_false_iff in X; rewrite X; [done|by rewrite orb_true_r]. }
      pose proof (inv_ident b None s p i (with_size (s32 z) (with_offset 0 i)) (proj1 B) Ei) as I1.
      apply inv_budget with (b' := b + a + z) in I1; [|lia| |done|done|by left].
      * destruct s. unfold set_ids in *. simpl in *. by rewrite insert_insert_eq.
      * unfold core, elsewhere in *. simpl. by rewrite El.
    + done.
    + eexists. split; [simpl; apply lookup_insert_eq|]. by exists h, H.
Qed.

(** *** The parser *)

Lemma wp_unref b s p i (Q : bool -> hdl -> Prop) E : Busy b None s -> Var p i s ->
  Q false s -> ((brk s0 <= p)%nat -> Q true s) -> wp (dt_ident_unref p) Q E s.
Proof.
  intros B V QF QT. unfold dt_ident_unref. apply triple_bind, (wp_ident p i); [apply V|]. apply triple_bind. unfold wp at 1, gets. apply triple_ret.
  destruct (di_gen i =? dt_gen s) eqn:Gi; [|done]. apply Z.eqb_eq in Gi. rewrite (gen_now b None s) in Gi by apply B. cbn [andb].
  destruct (negb _); [|done]. apply QT. eapply gen_new; [apply B|apply V|done].
Qed.

Lemma wp_asgn b s p i (scalar string user : bool) c t z : Busy b None s -> Var p i s -> 0 <= z -> (scalar = true -> 0 < z) ->
  let a := if scalar then z else if string then 1 else 8 in
  b + a + z < 2 ^ 31 -> wp (cook_asgn p scalar string user c t z) (λ _ s', Busy (b + a + z) None s') (Jumped (b + a + z)) s.
Proof.
  intros B V Pz Ps a L. unfold cook_asgn. assert (0 < a) as Pa. { unfold a. destruct scalar; [by apply Ps|]. destruct string; lia. }
  assert (forall s1 i1, Busy (b + a + z) None s1 -> Var p i1 s1 -> wp (or_flags p DT_IDFLG_MOD) (λ _ s', Busy (b + a + z) None s') (Jumped (b + a + z)) s1) as Last.
  { intros s1 i1 B1 V1. by apply (wp_or_flags (b + a + z) s1 p i1). }
  apply triple_bind, (wp_unref b s p i); [done|done| |].
  - apply triple_bind, triple_ret, (Last s i); [apply (busy_budget b); [lia|done]|done].
  - intros O. apply triple_bind, triple_bind, (wp_type_assign b s p i); [done|done|done|]. intros s1 i1 B1 V1.
    apply triple_bind, (wp_set_storage b s1 p i1); [done|done|done|done|done|done|]. intros s2 i2 B2 V2.
    destruct user; [|by apply triple_ret, (Last s2 i2)]. apply (wp_or_flags (b + a + z) s2 p i2); [done|done|done|]. intros s3 i3 B3 V3. by apply (Last s3 i3).
Qed.

Lemma wp_op1 b s p i (modifies : bool) c t : Busy b None s -> Var p i s -> b + 16 < 2 ^ 31 ->
  wp (cook_op1 p modifies c t) (λ _ s', Busy (b + 16) None s') (Jumped (b + 16)) s.
Proof.
  intros B V L. unfold cook_op1. replace (b + 16) with (b + 8 + 8) in * by lia.
  assert (forall s1 i1, Busy (b + 8 + 8) None s1 -> Var p i1 s1 ->
    wp (or_flags p (if modifies then Z.lor DT_IDFLG_REF DT_IDFLG_MOD else DT_IDFLG_REF)) (λ _ s', Busy (b + 8 + 8) None s') (Jumped (b + 8 + 8)) s1) as Last.
  { intros s1 i1 B1 V1. apply (wp_or_flags (b + 8 + 8) s1 p i1); [done|done|by destruct modifies|done]. }
  apply triple_bind, (wp_unref b s p i); [done|done| |].
  - apply triple_bind, triple_ret, (Last s i); [apply (busy_budget b); [lia|done]|done].
  - intros O. apply triple_bind, triple_bind, (wp_type_assign b s p i); [done|done|done|]. intros s1 i1 B1 V1.
    apply (wp_set_storage b s1 p i1); [done|done|done|lia|lia|lia|]. intros s2 i2 B2 V2. by apply (Last s2 i2).
Qed.

Lemma wp_lbrac b s p i (Q : () -> hdl -> Prop) : Busy b None s -> Var p i s ->
  (forall s' i', Busy b None s' -> Var p i' s' -> Q () s') -> wp (cook_lbrac p) Q (Jumped b) s.
Proof.
  intros B V HQ. unfold cook_lbrac. apply triple_bind, (wp_ident p i); [apply V|].
  assert (forall s1 i1, Busy b None s1 -> Var p i1 s1 ->
    wp (i ← ident p; if negb (di_kind i =? DT_IDENT_ARRAY) then xyerror else mret ()) Q (Jumped b) s1) as Last.
  { intros s1 i1 B1 V1. apply triple_bind, (wp_ident p i1); [apply V1|]. destruct (negb _); [by eapply wp_xyerror|apply triple_ret; by eapply HQ]. }
  apply triple_bind, (wp_unref b s p i); [done|done| |].
  - rewrite andb_false_r. apply triple_bind, triple_ret, (Last s i); done.
  - intros O. rewrite andb_true_r. apply triple_bind. destruct (_ && _) eqn:C; [|by apply triple_ret, (Last s i)].
    destruct (flag (di_flags i) DT_IDFLG_LOCAL) eqn:Lo; [by eapply wp_xyerror|].
    apply andb_true_iff in C as [Ck Cf]. apply Z.eqb_eq in Ck.
    assert (flag (di_flags i) DT_IDFLG_TLS = true) as Tls by (by apply flag_tls_local).
    apply (wp_upd b s p i); [done|done| |done|done|by left|intros s1 B1 V1; by eapply (Last s1)].
    unfold core, elsewhere, morphed. cbn [di_name di_kind di_flags di_id di_hash di_offset di_size]. by rewrite Ck, Tls.
Qed.

Lemma wp_decl b s t n assc same c ty a z attr ck : Busy b None s -> 0 < a -> 0 <= z -> b + a + z < 2 ^ 31 ->
  wp (dt_node_decl chr t n assc same c ty a z attr ck) (λ _ s', Busy (b + a + z) None s') (Jumped (b + a + z)) s.
Proof.
  intros B Pa Pz L. assert (Busy (b + a + z) None s) as B' by (apply (busy_budget b); [lia|done]).
  unfold dt_node_decl. apply triple_bind, (wp_find b None); [done| |].
  - destruct (assc && _); [by eapply wp_xyerror|]. apply triple_bind.
    eapply triple_mono; [intros p s' X; exact X|intros e s' X; apply (jumped_budget b); [lia|exact X]|].
    apply wp_new_var; [done|destruct assc; auto|]. intros s1 p i B1 O V _. apply triple_bind, (wp_type_assign b s1 p i); [done|done|done|].
    intros s2 i2 B2 V2. apply triple_bind, (wp_set_storage b s2 p i2); [done..|]. intros s3 i3 B3 V3. destruct assc; [|by apply triple_ret].
    apply triple_bind, (wp_cook (b + a + z) s3 p i3); [done|done|]. intros s4 i4 B4 V4. apply (wp_upd (b + a + z) s4 p i4); [done|done|done|done|done|by left|done].
  - intros p i V. apply triple_bind, (wp_ident p i); [apply V|]. destruct (di_gen i =? 0); [by eapply wp_xyerror|]. apply triple_bind.
    assert (forall s1, Busy (b + a + z) None s1 -> wp (if assc && bool_decide (t = Locals) then xyerror else
      if negb (di_kind i =? (if assc then DT_IDENT_ARRAY else DT_IDENT_SCALAR)) || negb same then xyerror else mret ())
      (λ (_ : ()) s', Busy (b + a + z) None s') (Jumped (b + a + z)) s1) as Rest.
    { intros s1 B1. destruct (assc && _); [by eapply wp_xyerror|]. destruct (_ || _); [by eapply wp_xyerror|by apply triple_ret]. }
    destruct (di_type i =? CTF_ERR); [|by apply triple_ret, Rest]. apply (wp_cook (b + a + z) s p i); [done|done|]. intros s1 i1 B1 _. by apply Rest.
Qed.

Lemma ref_flags_tls reads writes : Z.testbit (ref_flags reads writes) 0 = false.
Proof. by destruct reads, writes. Qed.

Lemma wp_cook_var b s p i reads writes c : Busy b None s -> Var p i s ->
  wp (dt_cook_var p reads writes c) (λ _ s', Busy b None s') (Jumped b) s.
Proof.
  intros B V. unfold dt_cook_var.
  assert (forall virgin : bool, wp (if reads && virgin then xyerror else dt_ident_cook p c ;; or_flags p (ref_flags reads writes))
    (λ (_ : ()) s', Busy b None s') (Jumped b) s) as Rest.
  { intros virgin. destruct (reads && virgin); [by eapply wp_xyerror|]. apply triple_bind, (wp_cook b s p i); [done|done|]. intros s1 i1 B1 V1.
    apply (wp_or_flags b s1 p i1); [done|done|apply ref_flags_tls|done]. }
  apply triple_bind, (wp_unref b s p i); auto.
Qed.

Lemma wp_aggregation b s p i assigned reads c : Busy b None s -> Var p i s ->
  wp (dt_cook_aggregation p assigned reads c) (λ _ s', Busy b None s') (Jumped b) s.
Proof.
  intros B V. unfold dt_cook_aggregation. apply triple_bind.
  assert (forall s1 i1, Busy b None s1 -> Var p i1 s1 -> wp (or_flags p (ref_flags reads assigned)) (λ _ s', Busy b None s') (Jumped b) s1) as Last.
  { intros s1 i1 B1 V1. apply (wp_or_flags b s1 p i1); [done|done|apply ref_flags_tls|done]. }
  destruct assigned; [|apply triple_ret; by eapply Last]. by apply (wp_cook b s p i).
Qed.

Lemma wp_call b s n c : Busy b None s -> wp (p ← dt_node_func chr n; dt_ident_cook p c) (λ _ s', Busy b None s') (Jumped b) s.
Proof.
  intros B. unfold dt_node_func. apply triple_bind, triple_bind, (wp_find b None); [done|by eapply wp_xyerror|]. intros p i V.
  apply triple_bind, (wp_ident p i); [apply V|]. destruct (is_func (di_kind i)); [|by eapply wp_xyerror]. apply triple_ret. by apply (wp_cook b s p i).
Qed.

Lemma core_with_attr a i : core (with_attr a i) = core i.
Proof. done. Qed.

(** The identifier of an inline definition: it has no id of its own. *)
Lemma wp_xinsert b s p i n (Q : () -> hdl -> Prop) E : Busy b None s -> ids s !! p = Some i -> di_name i = Some n -> di_hash i = None ->
  di_offset i = -1 -> di_id i = 0 -> (brk s0 <= p)%nat ->
  (forall s', Busy b None s' -> Q () s') -> wp (dt_idhash_xinsert chr (dt_globals s) p) Q E s.
Proof.
  intros B Ei En N Eo Eid O HQ. destruct (v_tabs _ _ _ (proj1 (proj1 B))) as [_ T].
  destruct (T (dt_globals s)) as [H Eh]; [apply elem_of_app; left; apply three_globals|].
  destruct (v_hashes _ _ _ (proj1 (proj1 B)) _ H Eh) as [_ TO]. destruct (v_glob _ _ _ (proj1 (proj1 B)) _ H Eh) as [Pm _].
  unfold dt_idhash_xinsert. apply triple_bind, (wp_idhash _ H); [done|].
  rewrite decide_False by (rewrite (t_tmpl _ _ _ _ _ TO); by intros []). apply triple_bind, triple_ret.
  apply triple_bind, (wp_ident p i); [done|]. rewrite En. cbn [str]. apply triple_bind, triple_ret. apply triple_bind, (wp_upd_ident p i); [done|].
  set (f := Z.land (di_flags i) (Z.lnot DT_IDFLG_ORPHAN)).
  assert (core (with_flags f i) = core i) as C.
  { assert (flag f DT_IDFLG_TLS = flag (di_flags i) DT_IDFLG_TLS) as Q'.
    { unfold f. rewrite !flag_tls, Z.land_spec. change (Z.testbit (Z.lnot DT_IDFLG_ORPHAN) 0) with true. by rewrite andb_true_r. }
    unfold core, elsewhere. cbn [with_flags di_name di_kind di_flags di_id di_hash di_offset di_size]. by rewrite Q'. }
  pose proof (inv_ident b None s p i (with_flags f i) (proj1 B) Ei C eq_refl (λ X, X) (or_introl O)) as I1. destruct B as [I (pcb & l & Ep & El)].
  eapply (wp_link b None None _ p (with_flags f i) n (dt_globals s) H);
    [exact I1|apply lookup_insert_eq|done|done|done|done|done|by left| |by intros _; exists pcb|].
  - intros _. cbn [with_flags di_id]. rewrite Eid. split; [lia|]. left. by apply Pm.
  - intros s' i' H' I' Ep' _ _ _ _ _ _. apply HQ. split; [done|]. exists pcb, l. rewrite Ep'. done.
Qed.

Lemma wp_inline b s n c ty flags attr : Busy b None s ->
  wp (dt_node_inline chr n c ty flags attr) (λ _ s', Busy b None s') (Jumped b) s.
Proof.
  intros B. unfold dt_node_inline. apply triple_bind, (wp_find b None); [done| |intros p i V; by eapply wp_xyerror].
  apply triple_bind, (wp_alloc b None); [apply B|]. intros ok m _.
  pose proof (busy_pcb _ _ _ _ _ B (inv_mem _ _ _ m (proj1 B)) eq_refl) as B1.
  destruct ok; cbn [negb]; [|by eapply wp_longjmp]. apply triple_bind. unfold wp at 1, gets. rewrite (gen_now b None) by apply B1.
  apply triple_bind, (wp_create b None); [apply B1| |done|].
  - intros s' I' _ Ep'. eapply wp_longjmp; [|done]. by eapply busy_pcb.
  - intros s' p line I' _ Ep' O Ei. set (i := Ident _ _ _ _ _ _ _ _ _ _ _ _ _ _ _ _) in *.
    assert (Busy b None s') as B2 by (by eapply busy_pcb).
    set (f := Z.land flags (Z.lor DT_IDFLG_WRITE DT_IDFLG_USER)).
    assert (Z.testbit f 0 = false) as Tf by (unfold f; by rewrite Z.land_spec, andb_false_r).
    apply triple_bind, (wp_upd_ident p i); [done|].
    pose proof (inv_ident b None s' p i _ I' Ei (core_or_flags i f Tf) eq_refl (λ X, X) (or_introl O)) as I3. set (i3 := with_flags _ i) in *.
    apply triple_bind, (wp_upd_ident p i3); [apply lookup_insert_eq|].
    pose proof (inv_ident b None _ p i3 (with_attr attr i3) I3 (lookup_insert_eq _ _ _) eq_refl eq_refl (λ X, X) (or_introl O)) as I4.
    apply triple_bind, (wp_upd_ident p (with_attr attr i3)); [apply lookup_insert_eq|].
    pose proof (inv_ident b None _ p _ (with_ctype c ty (with_attr attr i3)) I4 (lookup_insert_eq _ _ _) eq_refl eq_refl (λ X, X) (or_introl O)) as I5.
    apply triple_bind. unfold wp at 1, gets. eapply (wp_xinsert b _ p (with_ctype c ty (with_attr attr i3)) n); try done.
    + eapply busy_pcb; [exact B2|exact I5|done].
    + apply lookup_insert_eq.
Qed.

(** A new table, for the control block to hold. *)
Lemma wp_new_tab s name min max (Q : option nat -> hdl -> Prop) E : min <= max ->
  (forall m, Q None (set_mem m s)) ->
  (forall m, Z.of_nat (brk s) < 2 ^ 64 - 1 ->
     Q (Some (brk s)) (set_brk (S (brk s)) (set_hashes (<[brk s := fresh_tab name min max]>) (set_mem m s)))) ->
  wp (dt_idhash_create name None min max) Q E s.
Proof.
  intros L QN QS. unfold dt_idhash_create. rewrite (proj2 (Z.leb_le _ _) L). cbn [assert]. apply triple_bind, triple_ret, triple_bind.
  unfold wp at 1, alloc. destruct (malloc (mem s)) as [ok m]. destruct ok; [|apply QN]. cbn [andb].
  destruct (Z.of_nat (brk s) <? 2 ^ 64 - 1) eqn:B; [|apply QN]. apply Z.ltb_lt in B. by apply QS.
Qed.

Lemma inv_defer b r s H : Inv b r s -> hashes s !! dt_globals s = Some H -> Inv b r (set_hashes (<[dt_globals s := with_defer true H]>) s).
Proof.
  intros I Eh. destruct (v_hashes _ _ _ (proj1 I) _ H Eh) as [_ T].
  apply (inv_table b r s (dt_globals s) H); [done|done| |done|done|done|by right|done]. by destruct T.
Qed.

Lemma wp_pragma_defer b s n kind attr vers : Busy b None s -> is_var kind = false ->
  wp (pragma_defer chr n kind attr vers) (λ _ s', Busy b None s') (Jumped b) s.
Proof.
  intros B NV. unfold pragma_defer. apply triple_bind, (wp_yypcb b None); [done|]. intros pcb l Ep El _.
  assert (forall s1 pcb1 php P, Inv b None s1 -> pcbs s1 = [pcb1] -> pcb_locals pcb1 = Some l -> hashes s1 !! php = Some P ->
    wp (gen ← gets dt_gen;
        idp ← dt_idhash_insert chr php n kind 0 0 attr vers (Some dt_idops_thaw) 0 gen;
        match idp with None => longjmp EDT_NOMEM | Some _ => g ← gets dt_globals; upd_idhash g (with_defer true) end)
      (λ (_ : ()) s', Busy b None s') (Jumped b) s1) as Rest.
  { intros s1 pcb1 php P I1 Ep1 El1 EP. apply triple_bind. unfold wp at 1, gets. rewrite (gen_now _ _ _ I1). apply triple_bind.
    assert (forall s2, Inv b None s2 -> pcbs s2 = pcbs s1 -> Busy b None s2) as Bz.
    { intros s2 I2 E2. split; [done|]. exists pcb1, l. by rewrite E2. }
    eapply (wp_insert b None None s1); [done|exact EP|by left|by rewrite NV|by intros _; exists pcb1|done| |].
    - intros s2 I2 Ep2 _. eapply wp_longjmp; [by apply Bz|done].
    - intros s2 p i H' I2 Ep2 _ _ _ _ _ _ _ _. apply triple_bind. unfold wp at 1, gets.
      destruct (v_tabs _ _ _ (proj1 I2)) as [_ T]. destruct (T (dt_globals s2)) as [H Eh]; [apply elem_of_app; left; apply three_globals|].
      apply (wp_upd_idhash _ H); [done|]. apply Bz; [by apply inv_defer|done]. }
  apply triple_bind. destruct (pcb_pragmas pcb) as [php|] eqn:Eq.
  - apply triple_ret. destruct (inv_pragmas b None s pcb php (proj1 B) Ep Eq) as (_ & _ & P & EP). by apply (Rest s pcb php P (proj1 B)).
  - apply triple_bind, wp_new_tab; [done| |].
    + intros m. eapply wp_longjmp; [|done]. eapply busy_pcb; [exact B|by apply inv_mem, B|done].
    + intros m Lb. apply triple_bind. unfold wp at 1, upd_pcb. cbn [set_brk set_hashes set_mem pcbs]. rewrite Ep. cbn iota beta. apply triple_ret.
      set (p' := Pcb _ _ _ _). eapply (Rest _ p' (brk s)); [|done|done|apply lookup_insert_eq].
      apply (inv_new_table b (set_mem m s) pcb p' (lit "pragma") 0 0); [by apply inv_mem, B|done|done|lia|lia|done|].
      unfold tabs_of, p'. rewrite Eq. done.
Qed.

Lemma wp_attributes b s n attr : Busy b None s -> wp (dt_pragma_attributes chr n attr) (λ _ s', Busy b None s') (Jumped b) s.
Proof.
  intros B. unfold dt_pragma_attributes. apply triple_bind, (wp_find b None); [done|by apply wp_pragma_defer|].
  intros p i V. apply triple_bind, (wp_ident p i); [apply V|]. apply triple_bind. unfold wp at 1, gets.
  destruct (di_gen i =? dt_gen s) eqn:Gi; cbn [negb]; [|by eapply wp_xyerror]. apply Z.eqb_eq in Gi.
  rewrite (gen_now b None) in Gi by apply B. apply (wp_upd b s p i); [done|done|done|done|done| |done].
  left. eapply gen_new; [apply B|apply V|done].
Qed.

Lemma wp_binding b s n vers : Busy b None s -> wp (dt_pragma_binding chr n vers) (λ _ s', Busy b None s') (Jumped b) s.
Proof.
  intros B. unfold dt_pragma_binding. apply triple_bind, (wp_find b None); [done|by apply wp_pragma_defer|].
  intros p i V. apply triple_bind, (wp_ident p i); [apply V|]. apply triple_bind. unfold wp at 1, gets.
  destruct (di_gen i =? dt_gen s) eqn:Gi; cbn [negb]; [|by eapply wp_xyerror]. apply Z.eqb_eq in Gi.
  rewrite (gen_now b None) in Gi by apply B. apply (wp_upd b s p i); [done|done|done|done|done| |done].
  left. eapply gen_new; [apply B|apply V|done].
Qed.

(** The storage an action may use up, and what is asked of its sizes. *)
Definition cost (a : action) : Z :=
  match a with
  | Decl _ _ _ _ _ _ alignment size _ _ => alignment + size
  | Assign _ _ _ scalar string _ _ _ size _ => (if scalar then size else if string then 1 else 8) + size
  | Unary _ _ _ _ _ _ => 16
  | _ => 0
  end.
Definition sized (a : action) : Prop :=
  match a with
  | Decl _ _ _ _ _ _ alignment size _ _ => 0 < alignment /\ 0 <= size
  | Assign _ _ _ scalar _ _ _ _ size _ => 0 <= size /\ (scalar = true -> 0 < size)
  | _ => True
  end.
Definition costs (acts : list action) : Z := foldr (λ a z, cost a + z) 0 acts.

Lemma cost_pos a : sized a -> 0 <= cost a.
Proof. destruct a; simpl; try lia. destruct scalar, string; lia. Qed.

Lemma wp_exec b s a : Busy b None s -> sized a -> b + cost a < 2 ^ 31 ->
  wp (exec chr a) (λ _ s', Busy (b + cost a) None s') (Jumped (b + cost a)) s.
Proof.
  intros B S L. pose proof (cost_pos a S) as P. assert (Busy (b + cost a) None s) as B' by (apply (busy_budget b); [lia|done]).
  assert (forall s1, Busy b None s1 -> Busy (b + cost a) None s1) as Up by (intros s1; apply busy_budget; lia).
  assert (forall e s1, Jumped b e s1 -> Jumped (b + cost a) e s1) as UpJ by (intros e s1; apply jumped_budget; lia).
  destruct a; cbn [exec cost sized] in *.
  - replace (b + (alignment + size)) with (b + alignment + size) in * by lia. apply wp_decl; [done|lia|lia|lia].
  - apply triple_bind. eapply triple_mono; [intros p s' X; exact X|exact UpJ|]. apply wp_xcook; [done|]. intros s1 p i B1 V1.
    case_bool_decide; [eapply triple_mono; [|exact UpJ|by apply (wp_aggregation b s1 p i)]; auto|].
    replace (b + (_ + size)) with (b + (if scalar then size else if string then 1 else 8) + size) in * by lia.
    apply (wp_asgn b s1 p i); [done|done|lia|apply S|lia].
  - apply triple_bind. eapply triple_mono; [intros p s' X; exact X|exact UpJ|]. apply wp_xcook; [done|]. intros s1 p i B1 V1.
    case_bool_decide; [by apply triple_ret, Up|]. by apply (wp_op1 b s1 p i).
  - rewrite Z.add_0_r in *. apply triple_bind, wp_xcook; [done|]. intros s1 p i B1 V1. case_bool_decide; [by apply (wp_aggregation b s1 p i)|].
    apply triple_bind, (wp_lbrac b s1 p i); [done|done|]. intros s2 i2 B2 V2. by apply (wp_cook_var b s2 p i2).
  - rewrite Z.add_0_r in *. apply triple_bind, wp_xcook; [done|]. intros s1 p i B1 V1.
    case_bool_decide; [by apply (wp_aggregation b s1 p i)|by apply (wp_cook_var b s1 p i)].
  - rewrite Z.add_0_r in *. by apply wp_call.
  - rewrite Z.add_0_r in *. by apply wp_inline.
  - rewrite Z.add_0_r in *. by apply wp_attributes.
  - rewrite Z.add_0_r in *. by apply wp_binding.
  - rewrite Z.add_0_r in *. by eapply wp_xyerror.
Qed.

Lemma costs_pos acts : Forall sized acts -> 0 <= costs acts.
Proof. induction 1 as [|a acts S _ IH]; cbn [costs foldr]; [lia|]. pose proof (cost_pos a S). unfold costs in IH. lia. Qed.

Lemma wp_acts acts b s : Busy b None s -> Forall sized acts -> b + costs acts < 2 ^ 31 ->
  wp (each (exec chr) acts) (λ _ s', Busy (b + costs acts) None s') (Jumped (b + costs acts)) s.
Proof.
  revert b s. induction acts as [|a acts IH]; intros b s B F L.
  - cbn [each costs foldr]. apply triple_ret. by rewrite Z.add_0_r.
  - apply Forall_cons_1 in F as [Fa F]. pose proof (costs_pos acts F) as P. change (costs (a :: acts)) with (cost a + costs acts) in *. cbn [each].
    rewrite Z.add_assoc in *. apply triple_bind. eapply triple_mono; [| |apply wp_exec; [exact B|done|lia]].
    + cbn beta. intros _ s1 B1. by apply IH.
    + intros e s1. apply jumped_budget. lia.
Qed.

(** ** Walks over a table *)

Context (qsort : forall A, (A -> A -> Z) -> list A -> list A) {QS : Qsort qsort}.

Lemma wp_idents l (Q : list (nat * dt_ident) -> hdl -> Prop) E s : (forall p, p ∈ l -> is_Some (ids s !! p)) ->
  (forall r, r.*1 = l -> Q r s) -> wp (idents l) Q E s.
Proof.
  revert Q. induction l as [|p l IH]; intros Q L HQ; [by apply triple_ret, HQ|]. cbn [idents]. destruct (L p) as [i Ei]; [by left|].
  apply triple_bind, (wp_ident p i); [done|]. apply triple_bind, IH; [intros q Hq; apply L; by right|].
  intros r <-. apply triple_ret, HQ. done.
Qed.

(** dt_idhash_iter() calls the function on the identifiers of the table, each once. *)
Lemma wp_iter b s h H func (Q : Z -> hdl -> Prop) E : Inv b None s -> hashes s !! h = Some H ->
  (forall l, l ≡ₚ members H -> wp (visit func h l) Q E s) -> wp (dt_idhash_iter chr qsort h func) Q E s.
Proof.
  intros [V F] Eh HQ. destruct (v_hashes _ _ _ V h H Eh) as [_ T]. unfold dt_idhash_iter.
  apply triple_bind, (wp_idhash h H); [done|]. rewrite decide_False by (rewrite (t_tmpl _ _ _ _ _ T); by intros []).
  apply triple_bind, triple_ret, triple_bind, (wp_idhash h H); [done|]. fold (members H).
  rewrite (t_nelems _ _ _ _ _ T). rewrite wrapu_small by (split; [lia|by eapply inv_length]). rewrite Z.eqb_refl. cbn [assert]. apply triple_bind, triple_ret.
  apply triple_bind, wp_idents; [|intros r Hr; apply HQ].
  - intros p Hp. destruct (t_live _ _ _ _ _ _ T Hp) as (i & n & Ei & _). by exists i.
  - rewrite <- Hr. apply fmap_Permutation, qsort_perm.
Qed.

(** dt_idreset() on identifiers: only flags change. *)
Lemma wp_idreset b h l s (Q : Z -> hdl -> Prop) E : Inv b None s -> (forall p, p ∈ l -> is_Some (ids s !! p)) ->
  (forall s', Inv b None s' -> hashes s' = hashes s -> brk s' = brk s -> pcbs s' = pcbs s -> mem s' = mem s -> Q 0 s') -> wp (visit dt_idreset h l) Q E s.
Proof.
  revert s. induction l as [|p l IH]; intros s I L HQ; [by apply triple_ret, HQ|]. cbn [visit]. destruct (L p) as [i Ei]; [by left|].
  unfold dt_idreset at 1. apply triple_bind, triple_bind, (wp_upd_ident p i); [done|]. apply triple_ret. cbn [Z.eqb negb].
  set (f := Z.land (di_flags i) _).
  assert (core (with_flags f i) = core i) as C.
  { assert (flag f DT_IDFLG_TLS = flag (di_flags i) DT_IDFLG_TLS) as Q'.
    { unfold f. rewrite !flag_tls, Z.land_spec.
      match goal with |- context [Z.testbit (Z.lnot ?m) 0] => change (Z.testbit (Z.lnot m) 0) with true end. by rewrite andb_true_r. }
    unfold core, elsewhere. cbn [with_flags di_name di_kind di_flags di_id di_hash di_offset di_size]. by rewrite Q'. }
  pose proof (inv_ident b None s p i (with_flags f i) I Ei C eq_refl (λ X, X) (or_intror eq_refl)) as I1.
  apply IH; [done| |].
  - intros q Hq. simpl. destruct (decide (q = p)) as [->|D]; [rewrite lookup_insert_eq; by eexists|].
    rewrite lookup_insert_ne by done. apply L. by right.
  - intros s' I' E1 E2 E3 E4. by apply HQ.
Qed.

(** *** Undoing a pass *)

(** The identifiers of the pass go. *)
Lemma wp_pop_idents b h l s H (Q : Z -> hdl -> Prop) E : Inv b None s -> hashes s !! h = Some H -> NoDup l -> (forall p, p ∈ l -> p ∈ members H) ->
  (forall s' H', Inv b None s' -> pcbs s' = pcbs s -> (forall x, x <> h -> hashes s' !! x = hashes s !! x) -> hashes s' !! h = Some H' ->
     (forall q, q ∈ members H' -> q ∈ members H /\ (q ∈ l -> (q < brk s0)%nat)) -> Q 0 s') ->
  wp (visit (dt_pcb_pop_ident chr) h l) Q E s.
Proof.
  revert s H. induction l as [|p l IH]; intros s H I Eh ND L HQ.
  { apply triple_ret, (HQ s H); try done. intros q Hq. split; [done|]. by intros ?%elem_of_nil. }
  apply NoDup_cons in ND as [Np ND]. cbn [visit]. unfold dt_pcb_pop_ident at 1.
  assert (p ∈ members H) as Hp by (apply L; by left). destruct (v_hashes _ _ _ (proj1 I) h H Eh) as [_ T].
  destruct (t_live _ _ _ _ _ _ T Hp) as (i & n & Ei & En & Hc & Ehi).
  apply triple_bind, triple_bind, (wp_ident p i); [done|]. apply triple_bind. unfold wp at 1, gets. rewrite (gen_now _ _ _ I).
  destruct (di_gen i =? g) eqn:Gi.
  - apply Z.eqb_eq in Gi. pose proof (gen_new _ _ _ _ _ I Ei Gi) as O.
    apply triple_bind, (wp_delete b None s h H p); [done|done|done|done|]. intros s1 m I1 Ep1 K1 Em E1.
    apply triple_ret. cbn [Z.eqb negb]. rewrite Ei in Em. cbn in Em. replace m with n in * by congruence.
    set (H1 := with_chain _ _ _ H) in *. destruct (t_size _ _ _ _ _ T) as [Ts Tl]. pose proof (slot_lt n H Ts Tl) as Ls.
    destruct (members_with_chain H (u64 (dh_nelems H - 1)) (slot n H) (remove_one p (chain H (slot n H))) Ls) as (rest & P & P').
    assert (members H ≡ₚ p :: members H1) as PM.
    { unfold H1. rewrite P', P. etransitivity; [apply Permutation_app_tail, (remove_one_perm p _ Hc)|done]. }
    assert (p ∉ members H1) as Np1. { pose proof (t_nodup _ _ _ _ _ T) as N'. rewrite PM in N'. by apply NoDup_cons in N' as [? _]. }
    eapply (IH s1 H1); [done|by rewrite E1, lookup_insert_eq|done| |].
    + intros q Hq. assert (q ∈ members H) as Hm by (apply L; by right). rewrite PM in Hm. apply elem_of_cons in Hm as [->|Hm]; [done|done].
    + intros s' H' I' Ep' K' E' C'. apply (HQ s' H'); [done|congruence| |done|].
      * intros x Dx. rewrite K', E1, lookup_insert_ne by done. done.
      * intros q Hq. destruct (C' q Hq) as [Hm Hl]. split; [rewrite PM; by right|]. intros [->|Hq']%elem_of_cons; [done|by apply Hl].
  - apply Z.eqb_neq in Gi. apply triple_bind, triple_ret, triple_ret. cbn [Z.eqb negb].
    apply (IH s H); [done|done|done|intros q Hq; apply L; by right|]. intros s' H' I' Ep' K' E' C'. apply (HQ s' H'); try done.
    intros q Hq. destruct (C' q Hq) as [Hm Hl]. split; [done|]. intros [->|Hq']%elem_of_cons; [|by apply Hl].
    destruct (decide (p < brk s0)%nat) as [?|N]; [done|]. destruct Gi. by apply (f_new _ _ _ (proj2 I) p); [lia|].
Qed.

(** The loop of dt_idhash_update(). *)
Lemma wp_update_loop b s h H l acc (Q : Z -> hdl -> Prop) E : Inv b None s -> hashes s !! h = Some H -> (forall p, p ∈ l -> p ∈ members H) ->
  dh_minid H <= acc <= dh_maxid H ->
  (forall n, acc <= n <= dh_maxid H -> (forall p i, p ∈ l -> ids s !! p = Some i -> is_var (di_kind i) = true -> dh_minid H <= di_id i -> di_id i < n) -> Q n s) ->
  wp (update_loop l acc) Q E s.
Proof.
  intros I Eh. revert acc. destruct (v_hashes _ _ _ (proj1 I) h H Eh) as [_ T]. pose proof (t_ids _ _ _ _ _ T) as R.
  induction l as [|p l IH]; intros acc L A HQ.
  { apply triple_ret, HQ; [lia|]. by intros p i ?%elem_of_nil. }
  cbn [update_loop]. destruct (t_live _ _ _ _ _ _ T (L p ltac:(by left))) as (i & n & Ei & _).
  apply triple_bind, (wp_ident p i); [done|]. set (acc' := if is_var (di_kind i) then _ else _).
  assert (acc <= acc' <= dh_maxid H /\ (is_var (di_kind i) = true -> dh_minid H <= di_id i -> di_id i < acc')) as [A' C].
  { unfold acc'. destruct (is_var (di_kind i)) eqn:V; [|by split; [lia|]].
    destruct (t_id _ _ _ _ _ T p i (L p ltac:(by left)) Ei V) as [Ri Ci].
    destruct (decide (dh_minid H <= di_id i)) as [M|M].
    - destruct (Ci M) as [Ci' _]. rewrite wrapu_small by lia. split; [lia|]. intros _ _. lia.
    - rewrite wrapu_small by lia. split; [lia|]. intros _ ?. lia. }
  apply IH; [intros q Hq; apply L; by right|lia|]. intros m Rm Cm. apply HQ; [lia|].
  intros q j [->|Hq]%elem_of_cons Ej Vj M; [|by apply (Cm q j)]. replace j with i in * by congruence. specialize (C Vj M). lia.
Qed.

(** After roll_back() the table has the identifiers that were there before. *)
Lemma wp_roll_back b s h H (Q : () -> hdl -> Prop) E : Inv b None s -> hashes s !! h = Some H ->
  (forall s' H', Inv b None s' -> pcbs s' = pcbs s -> (forall x, x <> h -> hashes s' !! x = hashes s !! x) -> hashes s' !! h = Some H' ->
     (forall q, q ∈ members H' -> (q < brk s0)%nat) -> Q () s') -> wp (roll_back chr qsort h) Q E s.
Proof.
  intros I Eh HQ. unfold roll_back. apply triple_bind, (wp_iter b s h H); [done|done|]. intros l P.
  destruct (v_hashes _ _ _ (proj1 I) h H Eh) as [_ T].
  apply (wp_pop_idents b h l s H); [done|done|rewrite P; by eapply t_nodup|intros p; by rewrite P|].
  intros s1 H1 I1 Ep1 K1 E1 C1. unfold dt_idhash_update. apply triple_bind, (wp_idhash h H1); [done|]. fold (members H1).
  destruct (v_hashes _ _ _ (proj1 I1) h H1 E1) as [_ T1]. pose proof (t_ids _ _ _ _ _ T1) as R.
  apply triple_bind, (wp_update_loop b s1 h H1); [done|done|done|lia|]. intros n Rn Cn. apply (wp_upd_idhash h H1); [done|].
  apply (HQ _ (with_nextid n H1)).
  - apply (inv_table b None s1 h H1); [done|done| |done|done|done|by left|done]. by apply tab_update.
  - done.
  - intros x Dx. simpl. rewrite lookup_insert_ne by done. by apply K1.
  - apply lookup_insert_eq.
  - intros q Hq. destruct (C1 q Hq) as [Hm Hl]. apply Hl. by rewrite P.
Qed.

(** *** The end of a pass *)

Lemma inv_no_pcb b r s : Inv b r s -> Inv b r (set_pcbs [] s).
Proof.
  intros [[V1 V2 V3 V4 V5 V6] [F1 F2 F3 F4 F5 F6 F7 F8]]. split; split; try done.
  - destruct V4 as [ND T]. change (tabs (set_pcbs [] s)) with (three s ++ []). rewrite app_nil_r. split.
    + apply NoDup_app in ND as (ND & _). done.
    + intros h Hh. apply T, elem_of_app. by left.
  - intros h Hh. change (h ∈ @nil nat) in Hh. by apply elem_of_nil in Hh.
Qed.

Lemma wp_each_live l (Q : () -> hdl -> Prop) E s : (forall p, p ∈ l -> is_Some (ids s !! p)) -> Q () s -> wp (each (λ p, ident p ;; mret ()) l) Q E s.
Proof.
  intros L HQ. induction l as [|p l IH]; [done|]. cbn [each]. destruct (L p) as [i Ei]; [by left|].
  apply triple_bind, triple_bind, (wp_ident p i); [done|]. apply triple_ret, IH. intros q Hq. apply L. by right.
Qed.

Lemma wp_each_free l (Q : () -> hdl -> Prop) E s : NoDup l -> (forall p, p ∈ l -> is_Some (ids s !! p)) ->
  (forall m, (forall q, m !! q = if decide (q ∈ l) then None else ids s !! q) -> Q () (set_ids (λ _, m) s)) -> wp (each free_ident l) Q E s.
Proof.
  revert s. induction l as [|p l IH]; intros s ND L HQ.
  { apply triple_ret. specialize (HQ (ids s)). destruct s. apply HQ. intros q. rewrite decide_False by apply not_elem_of_nil. done. }
  apply NoDup_cons in ND as [Np ND]. cbn [each]. destruct (L p) as [i Ei]; [by left|].
  apply triple_bind. unfold wp at 1, free_ident. rewrite Ei. apply IH; [done| |].
  - intros q Hq. simpl. rewrite lookup_delete_ne by congruence. apply L. by right.
  - intros m Hm. assert (set_ids (λ _, m) (set_ids (delete p) s) = set_ids (λ _, m) s) as -> by done. apply HQ. intros q. rewrite Hm. simpl.
    destruct (decide (q = p)) as [->|D].
    + rewrite lookup_delete_eq. rewrite (decide_True (P := p ∈ p :: l)) by (by left). by destruct (decide (p ∈ l)).
    + rewrite lookup_delete_ne by done. destruct (decide (q ∈ l)) as [Hq|Hq].
      * by rewrite decide_True by (by right).
      * rewrite decide_False; [done|]. by intros [->|?]%elem_of_cons.
Qed.

(** A table that is not one of the handle is destroyed with its identifiers. *)
Lemma wp_destroy b s h H (Q : () -> hdl -> Prop) E : Inv b None (set_pcbs [] s) -> hashes s !! h = Some H -> h ∉ three s -> (brk s0 <= h)%nat ->
  (forall s', Inv b None (set_pcbs [] s') -> pcbs s' = pcbs s -> three s' = three s -> (forall x, x <> h -> hashes s' !! x = hashes s !! x) -> Q () s') ->
  wp (dt_idhash_destroy (Some h)) Q E s.
Proof.
  intros I Eh Nt O HQ. destruct (v_hashes _ _ _ (proj1 I) h H Eh) as [_ T].
  assert (forall p, p ∈ members H -> is_Some (ids s !! p)) as Live.
  { intros p Hp. destruct (t_live _ _ _ _ _ _ T Hp) as (i & n & Ei & _). by exists i. }
  assert (forall p, p ∈ members H -> (brk s0 <= p)%nat) as New.
  { intros p Hp. destruct (t_live _ _ _ _ _ _ T Hp) as (i & n & Ei & _ & _ & Ehi). by apply (inv_pcb_new _ _ _ p i h I). }
  unfold dt_idhash_destroy. apply triple_bind, (wp_idhash h H); [done|]. fold (members H).
  apply triple_bind, wp_each_live; [done|]. apply triple_bind, wp_each_free; [by eapply t_nodup|done|].
  intros m Hm. unfold wp, free_idhash. cbn [set_ids hashes]. rewrite Eh. apply HQ; [|done|done|intros x Dx; simpl; by rewrite lookup_delete_ne by done].
  assert (forall x H' p, x <> h -> hashes s !! x = Some H' -> p ∈ members H' -> m !! p = ids s !! p) as Keep.
  { intros x H' p Dx Ex Hp. rewrite Hm. rewrite decide_False; [done|]. intros Hp'. by destruct (Dx (inv_one_table _ _ _ _ _ _ _ _ (proj1 I) Ex Eh Hp Hp')). }
  assert (forall q j, m !! q = Some j -> ids s !! q = Some j) as Sub. { intros q j. rewrite Hm. by destruct (decide (q ∈ members H)). }
  destruct I as [[V1 V2 V3 V4 V5 V6] [F1 F2 F3 F4 F5 F6 F7 F8]]. split; split; try done; simpl.
  - intros q j Ej. apply V2. by apply Sub.
  - intros x H' [Dx Ex]%lookup_delete_Some. destruct (V3 x H' Ex) as [Lx Tx]. split; [done|]. apply (tab_core _ _ _ _ _ _ Tx).
    intros q j Hq Ej. exists j. by rewrite (Keep x H') by done.
  - split; [apply V4|]. intros x Hx. rewrite lookup_delete_ne; [by apply V4|]. intros <-. by apply Nt.
  - intros x H' [_ Ex]%lookup_delete_Some. by apply V5.
  - intros q i0 E0. destruct (F4 q i0 E0) as (j & Ej & S). exists j. split; [|done]. rewrite Hm. rewrite decide_False; [done|].
    intros Hq. specialize (New q Hq). destruct (v_ids _ _ _ I0 q i0 E0). lia.
  - intros q j Lq Ej. apply (F5 q j Lq). by apply Sub.
  - intros q j Lq Ej. apply (F6 q j Lq). by apply Sub.
  - intros x H0 Hx E0. destruct (F7 x H0 Hx E0) as (H1 & E1 & R). exists H1. split; [|done]. rewrite lookup_delete_ne; [done|].
    intros <-. apply Nt. change (three s) with (three (set_pcbs [] s)). by rewrite F1.
Qed.

Lemma wp_destroy_opt b s o (Q : () -> hdl -> Prop) E : Inv b None (set_pcbs [] s) ->
  (forall h, o = Some h -> is_Some (hashes s !! h) /\ (h ∉ three s) /\ (brk s0 <= h)%nat) ->
  (forall s', Inv b None (set_pcbs [] s') -> pcbs s' = pcbs s -> three s' = three s -> (forall x, o <> Some x -> hashes s' !! x = hashes s !! x) -> Q () s') ->
  wp (dt_idhash_destroy o) Q E s.
Proof.
  intros I L HQ. destruct o as [h|]; [|by apply triple_ret, HQ]. destruct (L h eq_refl) as ([H Eh] & Nt & O).
  apply (wp_destroy b s h H); [done|done|done|done|]. intros s' I' Ep Et K. apply HQ; try done. intros x Dx. apply K. congruence.
Qed.

(** The tables of the control block are destroyed, and it goes. *)
Lemma wp_destroy_pcb b s pcb (Q : () -> hdl -> Prop) E : Inv b None (set_pcbs [] s) -> pcbs s = [pcb] -> NoDup (tabs_of pcb) ->
  (forall h, h ∈ tabs_of pcb -> is_Some (hashes s !! h) /\ (h ∉ three s) /\ (brk s0 <= h)%nat) ->
  (forall s', Inv b None s' -> pcbs s' = [] -> (forall x, x ∉ tabs_of pcb -> hashes s' !! x = hashes s !! x) -> Q () s') ->
  wp (dt_idhash_destroy (pcb_pragmas pcb) ;; dt_idhash_destroy (pcb_locals pcb) ;; dt_idhash_destroy (pcb_idents pcb) ;;
      modify (λ s, set_pcbs (tail (pcbs s)) s)) Q E s.
Proof.
  intros I Ep ND Mine HQ. unfold tabs_of in ND. apply NoDup_app in ND as (_ & D1 & ND). apply NoDup_app in ND as (_ & D2 & _).
  assert (forall (o : option nat) h, o = Some h -> h ∈ option_list o) as In by (intros o h ->; by left).
  apply triple_bind, (wp_destroy_opt b s); [done| |].
  { intros h Eq. apply Mine, elem_of_app. left. by apply In. }
  intros s3 I3 Ep3 Et3 K3. apply triple_bind, (wp_destroy_opt b s3); [done| |].
  { intros h Eq. rewrite K3, Et3 by (intros Eq'; apply (D1 h); [by apply In|apply elem_of_app; left; by apply In]).
    apply Mine, elem_of_app. right. apply elem_of_app. left. by apply In. }
  intros s4 I4 Ep4 Et4 K4. apply triple_bind, (wp_destroy_opt b s4); [done| |].
  { intros h Eq. rewrite K4, K3, Et4, Et3.
    - apply Mine, elem_of_app. right. apply elem_of_app. right. by apply In.
    - intros Eq'. apply (D1 h); [by apply In|apply elem_of_app; right; by apply In].
    - intros Eq'. apply (D2 h); by apply In. }
  intros s5 I5 Ep5 Et5 K5. unfold wp, modify. rewrite Ep5, Ep4, Ep3, Ep. apply HQ; [done|done|].
  intros x Nx. simpl. unfold tabs_of in Nx. rewrite !elem_of_app in Nx.
  rewrite K5, K4, K3; [done|..]; intros Eq; apply Nx; auto.
Qed.

(** A pass that failed is undone in the three tables. *)
Lemma wp_roll_back_all b s (Q : () -> hdl -> Prop) E : Inv b None s ->
  (forall s', Inv b None s' -> pcbs s' = pcbs s -> (forall h H, h ∈ three s0 -> hashes s' !! h = Some H -> forall q, q ∈ members H -> (q < brk s0)%nat) -> Q () s') ->
  wp (h ← gets dt_aggs; roll_back chr qsort h ;; h ← gets dt_globals; roll_back chr qsort h ;; h ← gets dt_tls; roll_back chr qsort h) Q E s.
Proof.
  intros I HQ.
  assert (forall s1 h, Inv b None s1 -> h ∈ three s1 -> is_Some (hashes s1 !! h)) as T3.
  { intros s1 h I1 Hh. apply (v_tabs _ _ _ (proj1 I1)), elem_of_app. by left. }
  pose proof (proj1 (v_tabs _ _ _ (proj1 I))) as ND. apply NoDup_app in ND as (ND & _ & _).
  assert (forall s1, Inv b None s1 -> three s1 = three s) as E3 by (intros s1 I1; rewrite (f_three _ _ _ (proj2 I1)); symmetry; apply (proj2 I)).
  apply triple_bind. unfold wp at 1, gets. destruct (T3 s (dt_aggs s) I) as [HA EA]; [by left|].
  apply triple_bind, (wp_roll_back b s _ HA); [done|done|]. intros s1 H1 I1 Ep1 K1 E1 C1.
  pose proof (E3 s1 I1) as [= Ea1 Eg1 Et1].
  apply triple_bind. unfold wp at 1, gets. destruct (T3 s1 (dt_globals s1) I1) as [HG EG]; [right; by left|].
  apply triple_bind, (wp_roll_back b s1 _ HG); [done|done|]. intros s2 H2 I2 Ep2 K2 E2 C2.
  pose proof (E3 s2 I2) as [= Ea2 Eg2 Et2].
  apply triple_bind. unfold wp at 1, gets. destruct (T3 s2 (dt_tls s2) I2) as [HT ET]; [do 2 right; by left|].
  apply (wp_roll_back b s2 _ HT); [done|done|]. intros s3 H3 I3 Ep3 K3 E3' C3. apply HQ; [done|congruence|].
  intros h H Hh Eh. rewrite <- (f_three _ _ _ (proj2 I)) in Hh. unfold three in Hh, ND.
  apply NoDup_cons in ND as [Da ND]. apply NoDup_cons in ND as [Dg _].
  rewrite Eg1 in *. rewrite Et2 in *.
  apply elem_of_cons in Hh as [->|Hh]; [|apply elem_of_cons in Hh as [->|Hh]; [|apply list_elem_of_singleton in Hh as ->]].
  - rewrite K3, K2 in Eh.
    + rewrite E1 in Eh. by injection Eh as <-.
    + intros Q'. apply Da. rewrite Q'. by left.
    + intros Q'. apply Da. rewrite Q'. right. by left.
  - rewrite K3 in Eh; [rewrite E2 in Eh; by injection Eh as <-|]. intros Q'. apply Dg. rewrite Q'. by left.
  - rewrite E3' in Eh. by injection Eh as <-.
Qed.

(** dt_pcb_pop(): no identifier of a pass that failed is left in the tables of the handle. *)
Lemma wp_pcb_pop b s err (Q : () -> hdl -> Prop) E : Busy b None s ->
  (forall s', Inv b None s' -> pcbs s' = [] -> (err <> 0 -> forall h H, h ∈ three s0 -> hashes s' !! h = Some H -> forall q, q ∈ members H -> (q < brk s0)%nat) -> Q () s') ->
  wp (dt_pcb_pop chr qsort err) Q E s.
Proof.
  intros B HQ. unfold dt_pcb_pop. apply triple_bind, (wp_yypcb b None); [done|]. intros pcb l Ep El _.
  set (clean s1 := err <> 0 -> forall h H, h ∈ three s0 -> hashes s1 !! h = Some H -> forall q, q ∈ members H -> (q < brk s0)%nat).
  apply triple_bind.
  assert (wp (if negb (err =? 0) then h ← gets dt_aggs; roll_back chr qsort h ;; h ← gets dt_globals; roll_back chr qsort h ;;
              h ← gets dt_tls; roll_back chr qsort h else mret ()) (λ _ s1, Inv b None s1 /\ pcbs s1 = pcbs s /\ clean s1) E s) as W.
  { destruct (err =? 0) eqn:Ee; cbn [negb].
    - apply Z.eqb_eq in Ee. apply triple_ret. split; [apply B|]. split; [done|]. by intros ?.
    - apply (wp_roll_back_all b s); [apply B|]. intros s1 I1 Ep1 C1. split; [done|]. split; [done|]. by intros _. }
  eapply triple_mono; [|intros e s' X; exact X|exact W]. cbn beta. intros _ s1 (I1 & Ep1 & C1). clear W. rewrite Ep in Ep1. rewrite El at 1.
  apply triple_bind, triple_ret. destruct (v_tabs _ _ _ (proj1 I1)) as [ND TT]. unfold tabs in ND, TT.
  assert (pcb_tabs s1 = tabs_of pcb) as Et by (unfold pcb_tabs; by rewrite Ep1). rewrite Et in ND, TT. apply NoDup_app in ND as (_ & D & ND).
  assert (forall h, h ∈ tabs_of pcb -> is_Some (hashes s1 !! h) /\ (h ∉ three s1) /\ (brk s0 <= h)%nat) as Mine.
  { intros h Hh. split; [apply TT, elem_of_app; by right|]. split; [intros Hh'; by apply (D h)|]. apply (f_pcb _ _ _ (proj2 I1)). by rewrite Et. }
  destruct (Mine l) as ([L Hl] & _ & _); [unfold tabs_of; rewrite El; apply elem_of_app; right; by left|].
  apply triple_bind, (wp_idhash l L); [done|]. apply triple_bind. unfold wp at 1, gets. apply triple_bind.
  assert (forall s2, Inv b None (set_pcbs [] s2) -> pcbs s2 = pcbs s1 -> three s2 = three s1 -> hashes s2 = hashes s1 ->
      wp (dt_idhash_destroy (pcb_pragmas pcb) ;; dt_idhash_destroy (pcb_locals pcb) ;; dt_idhash_destroy (pcb_idents pcb) ;;
          modify (λ s, set_pcbs (tail (pcbs s)) s)) Q E s2) as Destroy.
  { intros s2 I2 Ep2 Et2 Eh2. apply (wp_destroy_pcb b s2 pcb); [done|congruence|done|by rewrite Eh2, Et2|].
    intros s' I' Ep' K. apply HQ; [done|done|]. intros Ne h H Hh Eh. apply (C1 Ne h H Hh). rewrite <- Eh2, <- K; [done|].
    intros Hin. destruct (Mine h Hin) as (_ & Nt & _). apply Nt. by rewrite (f_three _ _ _ (proj2 I1)). }
  destruct (dt_maxlvaralloc s1 <? dh_nextoff L); [|apply triple_ret; by apply Destroy; [apply inv_no_pcb|..]]. unfold wp at 1, modify.
  apply Destroy; try done. pose proof (inv_no_pcb _ _ _ I1) as [[] []]. by split; split.
Qed.

(** *** A pass *)

(** There is memory for the two tables of a pass. *)
Definition room (s : hdl) : Prop := Z.of_nat (brk s) + 2 < 2 ^ 64 /\ exists m, mem s = true :: true :: m.

Lemma wp_room s name min max (Q : option nat -> hdl -> Prop) E m : min <= max -> Z.of_nat (brk s) < 2 ^ 64 - 1 -> mem s = true :: m ->
  Q (Some (brk s)) (set_brk (S (brk s)) (set_hashes (<[brk s := fresh_tab name min max]>) (set_mem m s))) ->
  wp (dt_idhash_create name None min max) Q E s.
Proof.
  intros L B Em HQ. unfold dt_idhash_create. rewrite (proj2 (Z.leb_le _ _) L). cbn [assert]. apply triple_bind, triple_ret, triple_bind.
  unfold wp at 1, alloc. rewrite Em. cbn [malloc]. rewrite (proj2 (Z.ltb_lt _ _) B). done.
Qed.

Lemma costs_app l k : costs (l ++ k) = costs l + costs k.
Proof. induction l as [|a l IH]; [done|]. change (cost a + costs (l ++ k) = cost a + costs l + costs k). lia. Qed.

Lemma inv_lineno b r s n : Inv b r s -> Inv b r (set_yylineno n s).
Proof. intros [[] []]. by split; split. Qed.

(** A pragma that is left over is an error. *)
Lemma wp_idpragma b s h H (Q : Z -> hdl -> Prop) : Busy b None s -> hashes s !! h = Some H -> Q 0 s -> wp (dt_idhash_iter chr qsort h dt_idpragma) Q (Jumped b) s.
Proof.
  intros B Eh HQ. apply (wp_iter b s h H); [apply B|done|]. intros l P. destruct l as [|p l]; [by apply triple_ret|]. cbn [visit].
  destruct (v_hashes _ _ _ (proj1 (proj1 B)) h H Eh) as [_ T]. assert (p ∈ members H) as Hp by (rewrite <- P; by left). destruct (t_live _ _ _ _ _ _ T Hp) as (i & n & Ei & _).
  unfold dt_idpragma at 1. apply triple_bind, triple_bind, (wp_ident p i); [done|]. apply triple_bind. unfold wp at 1, modify.
  eapply wp_xyerror, busy_pcb; [exact B|by apply inv_lineno, B|done].
Qed.

Lemma wp_compile_body b acts clauses s : Inv b None s -> pcbs s = [Pcb [dt_globals s] None None None] -> room s ->
  Forall sized (acts ++ clauses) -> b + costs (acts ++ clauses) < 2 ^ 31 ->
  wp (compile_body chr qsort acts clauses) (λ _ s', Busy (b + costs (acts ++ clauses)) None s') (Jumped (b + costs (acts ++ clauses))) s.
Proof.
  intros I Ep [Bk [m Em]] Sz L. unfold compile_body. apply triple_bind. apply (wp_room s _ _ _ _ _ (true :: m)); [lia|lia|done|].
  apply triple_bind. unfold wp at 1, upd_pcb. cbn [set_brk set_hashes set_mem pcbs]. rewrite Ep. cbn [pcb_globals pcb_pragmas pcb_locals].
  set (p1 := Pcb _ _ _ (Some _)).
  pose proof (inv_new_table b (set_mem (true :: m) s) _ p1 (lit "ambiguous") 0 0 (inv_mem _ _ _ _ I) Ep ltac:(simpl; lia) ltac:(lia) ltac:(lia)
    eq_refl ltac:(done)) as I1.
  set (s1 := set_pcbs _ _) in *. change (set_pcbs [p1] _) with s1.
  apply triple_bind. apply (wp_room s1 _ _ _ _ _ m); [done|simpl; lia|done|].
  apply triple_bind. unfold wp at 1, upd_pcb. cbn [set_brk set_hashes set_mem pcbs s1 set_pcbs p1 pcb_globals pcb_pragmas pcb_idents].
  set (p2 := Pcb _ _ (Some _) _).
  pose proof (inv_new_table b (set_mem m s1) p1 p2 (lit "clause local") 0 UINT_MAX (inv_mem _ _ _ _ I1) eq_refl ltac:(simpl; lia)
    ltac:(unfold UINT_MAX; lia) ltac:(unfold UINT_MAX; lia) eq_refl ltac:(done)) as I2.
  set (s2 := set_pcbs _ _) in I2. change (set_pcbs [p2] _) with s2. apply Forall_app in Sz as [Sa Sc]. rewrite costs_app, Z.add_assoc in *.
  pose proof (costs_pos acts Sa). pose proof (costs_pos clauses Sc).
  apply triple_bind. eapply triple_mono; [|intros e s' X; apply (jumped_budget (b + costs acts)); [lia|exact X]|].
  2: { apply (wp_acts acts b); [|done|lia]. split; [exact I2|]. exists p2. by eexists. }
  cbn beta. intros _ s3 B3. apply triple_bind, (wp_yypcb (b + costs acts) None); [done|]. intros pcb l Ep3 _ _. apply triple_bind.
  destruct (pcb_pragmas pcb) as [php|] eqn:Eq; [|by apply triple_ret, wp_acts].
  destruct (inv_pragmas (b + costs acts) None s3 pcb php (proj1 B3) Ep3 Eq) as (_ & _ & P & EP). apply triple_bind.
  eapply triple_mono; [|intros e s' X; apply (jumped_budget (b + costs acts)); [lia|exact X]|].
  2: { eapply (wp_idpragma (b + costs acts) s3 php P (λ _ s', s' = s3)); done. }
  cbn beta. intros _ s4 ->. by apply triple_ret, wp_acts.
Qed.

End Inv.
