(* ===== verification/IdentSafe.v ===== *)
(** * Identifier tables: what a compilation does to them

    A compilation returns, whatever the program makes the parser do; the variables of a
    table have different ids and storage that does not overlap; a compilation that fails
    leaves in the tables the identifiers that were there. *)

From stdpp Require Import base gmap list numbers strings sets.
From S2P Require Import Prelude Str Htab Notes Printf Ident IdentInv.

Section Compile.
Context (chr : Z -> Z) (qsort : forall A, (A -> A -> Z) -> list A -> list A) {QS : Qsort qsort}.

(** Between compilations: the tables are in order, no pass is under way. *)
Definition ready (b : Z) (s : hdl) : Prop := inv chr b None s /\ pcbs s = [].

(** The identifiers of [s] are there in [s'], the same but for their flags and for the types
    and signatures that cooking gave them, and the tables of the handle have the identifiers of
    before in the order of before. *)
Definition unchanged (s s' : hdl) : Prop :=
  three s' = three s /\
  (forall p i, ids s !! p = Some i -> exists i', ids s' !! p = Some i' /\ lasting i' = lasting i) /\
  (forall h H, h ∈ three s -> hashes s !! h = Some H -> exists H', hashes s' !! h = Some H' /\ dh_hashsz H' = dh_hashsz H /\
     forall k, chain H' k = chain H k).

Lemma filter_members (P : nat -> Prop) {D : forall x, Decision (P x)} H k : (forall p, p ∈ members H -> P p) -> filter P (chain H k) = chain H k.
Proof. intros L. apply filter_all. intros p Hp. apply L, elem_of_members. by exists k. Qed.

Lemma frame_start b r s : inv chr b r s -> pcb_tabs s = [] -> frame s (dt_gen s) s.
Proof.
  intros V E. split; try done.
  - intros p i0 E0. by exists i0.
  - intros p i L Ei. destruct (v_ids _ _ _ _ V p i Ei). lia.
  - intros h H0 _ E0. exists H0. repeat (split; [done|]). intros k. apply filter_members. intros p Hp.
    destruct (v_hashes _ _ _ _ V h H0 E0) as [_ T]. destruct (t_live _ _ _ _ _ _ _ T Hp) as (i & n & Ei & _). by destruct (v_ids _ _ _ _ V p i Ei).
  - rewrite E. by intros h ?%elem_of_nil.
Qed.

(** The flags of the last pass are forgotten, then the control block is pushed. *)
Lemma wp_reset b s h H (Q : Z -> hdl -> Prop) E : ready b s -> hashes s !! h = Some H ->
  (forall s' rv, ready b s' -> frame s (dt_gen s) s' -> hashes s' = hashes s -> brk s' = brk s -> mem s' = mem s -> Q rv s') ->
  wp (dt_idhash_iter chr qsort h dt_idreset) Q E s.
Proof.
  intros [V Ep] Eh HQ. assert (frame s (dt_gen s) s) as F by (eapply frame_start; [done|by unfold pcb_tabs; rewrite Ep]).
  apply (wp_iter chr s (dt_gen s) qsort b s h H); [by split|done|]. intros l P. destruct (v_hashes _ _ _ _ V h H Eh) as [_ T].
  apply (wp_idreset chr s (dt_gen s) b V b h l s); [by split| |].
  - intros p Hp. rewrite P in Hp. destruct (t_live _ _ _ _ _ _ _ T Hp) as (i & n & Ei & _). by exists i.
  - intros s' [V' F'] E1 E2 E3 E4. apply HQ; try done. split; [done|congruence].
Qed.

(** A compilation returns; what it leaves of the tables. *)
Lemma wp_compile b s acts clauses (E : Z -> hdl -> Prop) : ready b s -> room s -> dt_gen s + 1 < 2 ^ 64 -> 0 <= dt_gen s ->
  Forall sized (acts ++ clauses) -> b + costs (acts ++ clauses) < 2 ^ 31 ->
  wp (dt_compile chr qsort acts clauses)
    (λ err s', ready (b + costs (acts ++ clauses)) s' /\ dt_gen s' = dt_gen s + 1 /\ (err <> 0 -> unchanged s s')) E s.
Proof.
  intros R Rm G Gp Sz L. unfold dt_compile.
  assert (forall s1, ready b s1 -> forall h, h ∈ three s1 -> is_Some (hashes s1 !! h)) as T3.
  { intros s1 [V1 _] h Hh. apply (v_tabs _ _ _ _ V1), elem_of_app. by left. }
  apply triple_bind. unfold wp at 1, gets. destruct (T3 s R (dt_globals s)) as [H Eh]; [apply three_globals|].
  apply triple_bind, (wp_reset b s _ H); [done|done|]. intros s1 _ R1 F1 Eh1 Eb1 Em1.
  apply triple_bind. unfold wp at 1, gets. destruct (T3 s1 R1 (dt_tls s1)) as [H1 Eh1']; [do 2 right; by left|].
  apply triple_bind, (wp_reset b s1 _ H1); [done|done|]. intros s2 _ R2 F2 Eh2 Eb2 Em2. destruct R2 as [V2 Ep2].
  pose proof (f_gen _ _ _ F1) as Eg1. pose proof (f_gen _ _ _ F2) as Eg2.
  apply triple_bind. unfold wp at 1, dt_pcb_push, gets, modify, mbind, M_bind. unfold dt_idstack_push. rewrite Ep2. cbn [app].
  set (s3 := set_gen _ _). assert (dt_gen s3 = dt_gen s + 1) as Eg3. { unfold s3. simpl. rewrite Eg2, Eg1. apply wrapu_small. lia. }
  assert (inv chr b None s3) as V3.
  { destruct V2 as [X1 X2 X3 X4 X5 X6]. split; try done.
    - intros p i Ei. destruct (X2 p i Ei) as (? & ? & ? & ?). split; [done|]. split; [done|]. rewrite Eg3. split; [lia|done].
    - unfold tabs, pcb_tabs in *. rewrite Ep2 in X4. simpl in *. done.
    - by intros p ps [= <- <-]. }
  assert (frame s3 (dt_gen s3) s3) as F3 by (by eapply frame_start).
  assert (forall p i0, ids s3 !! p = Some i0 -> di_gen i0 < dt_gen s3) as Old.
  { intros p i0 E0. destruct (v_ids _ _ _ _ V2 p i0 E0) as (_ & _ & ?). lia. }
  apply triple_bind. unfold setjmp, wp at 1.
  assert (room s3) as Rm3. { destruct Rm as [Lb [m Em]]. split; [unfold s3; simpl; lia|]. exists m. unfold s3. simpl. congruence. }
  pose proof (wp_compile_body chr s3 (dt_gen s3) b V3 ltac:(lia) eq_refl Old qsort b acts clauses s3 (conj V3 F3) eq_refl Rm3 Sz L) as W. unfold wp in W.
  assert (forall err s4, Busy chr s3 (dt_gen s3) (b + costs (acts ++ clauses)) None s4 ->
    wp (dt_pcb_pop chr qsort err ;; mret err)
      (λ err s', ready (b + costs (acts ++ clauses)) s' /\ dt_gen s' = dt_gen s + 1 /\ (err <> 0 -> unchanged s s')) E s4) as Pop.
  { intros err s4 B4. apply triple_bind. apply (wp_pcb_pop chr s3 (dt_gen s3) b V3 eq_refl Old qsort _ s4 err _ _ B4).
    intros s5 [V5 F5] Ep5 C5. apply triple_ret. split; [by split|]. split; [rewrite (f_gen _ _ _ F5); done|]. intros Ne.
    pose proof (f_three _ _ _ F1) as T1. pose proof (f_three _ _ _ F2) as T2. pose proof (f_three _ _ _ F5) as T5.
    assert (three s3 = three s) as T03 by (unfold s3; unfold three in *; simpl; congruence).
    split; [congruence|]. split.
    - intros p i Ei. destruct (f_old _ _ _ F1 p i Ei) as (i1 & Ei1 & S1). destruct (f_old _ _ _ F2 p i1 Ei1) as (i2 & Ei2 & S2).
      destruct (f_old _ _ _ F5 p i2 Ei2) as (i5 & Ei5 & S5). exists i5. split; [done|congruence].
    - intros h K Hh EK. assert (hashes s3 !! h = Some K) as EK3 by (unfold s3; simpl; congruence).
      rewrite <- T03 in Hh. destruct (f_chain _ _ _ F5 h K Hh EK3) as (K5 & EK5 & _ & _ & Z5 & C). exists K5. split; [done|]. split; [done|].
      intros k. rewrite <- C. symmetry. apply filter_members. by apply (C5 Ne h). }
  destruct (compile_body chr qsort acts clauses s3) as [[] s4|e s4| |]; [by apply Pop|by apply Pop, W|done|done].
Qed.

(** ** Sessions *)

(** A number [k] of compilations, one after the other, whose programs ask for [n] bytes of
    storage; the outcomes of the allocations are any in which the two tables of a pass can
    be made. *)
Inductive session (s : hdl) : nat -> Z -> hdl -> Prop :=
  | session_start : session s 0 0 s
  | session_compile k n s1 m acts clauses err s2 :
      session s k n s1 -> Forall sized (acts ++ clauses) -> room (set_mem m s1) ->
      dt_compile chr qsort acts clauses (set_mem m s1) = Ret err s2 -> session s (S k) (n + costs (acts ++ clauses)) s2.

Lemma ready_mem b s m : ready b s -> ready b (set_mem m s).
Proof. intros [[] Ep]. by split; [split|]. Qed.

Lemma session_pos s k n s' : session s k n s' -> 0 <= n.
Proof. induction 1 as [|k n s1 m acts clauses err s2 _ IH Sz _ _]; [lia|]. pose proof (costs_pos (acts ++ clauses) Sz). lia. Qed.

Lemma session_ready b s k n s' : ready b s -> 0 <= dt_gen s -> session s k n s' -> b + n < 2 ^ 31 -> dt_gen s + Z.of_nat k < 2 ^ 64 ->
  ready (b + n) s' /\ dt_gen s' = dt_gen s + Z.of_nat k.
Proof.
  intros R G Se. induction Se as [|k n s1 m acts clauses err s2 Se IH Sz Rm E]; intros L K; [split; [by rewrite Z.add_0_r|lia]|].
  pose proof (costs_pos (acts ++ clauses) Sz) as Pc. destruct IH as [R1 G1]; [lia|lia|].
  pose proof (wp_compile (b + n) (set_mem m s1) acts clauses (λ _ _, False) (ready_mem _ _ m R1) Rm) as W. unfold wp in W. rewrite E in W.
  destruct W as (R2 & G2 & _); [simpl; lia|simpl; lia|done|lia|]. rewrite Z.add_assoc. split; [done|]. rewrite G2. simpl. lia.
Qed.

(** Two variables of a table: their storage, if it is in the table, and their ids. *)
Definition distinct_vars (H : dt_idhash) (i j : dt_ident) : Prop :=
  (placed i -> 0 <= di_offset i /\ 0 <= di_size i /\ di_offset i + di_size i <= dt_idhash_datasize H /\ (placed j -> apart i j)) /\
  (is_var (di_kind i) = true -> is_var (di_kind j) = true -> dh_minid H <= di_id i -> di_id i < dh_maxid H /\ di_id i <> di_id j).

(** C5: From tables in order (those of dtrace_open() once the built-in identifiers
    are entered, see populate_ready), after any number of compilations, that succeed
    or fail, of programs that declare, assign, increment, subscript and reference
    variables, call functions, define inlines and give pragmas in any order: two
    variables of a table of identifiers have storage in the table that does not
    overlap and lies within the size that dt_idhash_datasize() gives for it, and the
    ids they got from the table are different and below its limit. Each compilation
    has memory for the two tables of its pass; storage is asked for with an
    alignment above 0 and a size that is not negative (alignment_zero shows what
    else happens), alignments and sizes add up to less than 2^31 over all
    compilations, the generation counter stays below 2^64, and qsort() permutes what
    it sorts. *)
Theorem variables_apart b s k n s' h H p q i j :
  ready b s -> 0 <= dt_gen s -> session s k n s' -> b + n < 2 ^ 31 -> dt_gen s + Z.of_nat k < 2 ^ 64 ->
  hashes s' !! h = Some H -> p ∈ members H -> q ∈ members H -> p <> q -> ids s' !! p = Some i -> ids s' !! q = Some j ->
  distinct_vars H i j.
Proof.
  intros R G Se L K Eh Hp Hq D Ei Ej. destruct (session_ready _ _ _ _ _ R G Se L K) as [[V _] _].
  destruct (v_hashes _ _ _ _ V h H Eh) as [_ T]. split.
  - intros P. destruct (t_in _ _ _ _ _ _ T p i Hp Ei P) as (? & ? & ?). repeat (split; [done|]). intros P'. by apply (t_apart _ _ _ _ _ _ T p q).
  - intros Vi Vj M. destruct (t_id _ _ _ _ _ _ T p i Hp Ei Vi) as [_ C]. destruct (C M) as [C' _]. pose proof (t_ids _ _ _ _ _ _ T).
    split; [lia|]. by apply (t_unique _ _ _ _ _ _ T p q).
Qed.


(** ** Lookups *)

Lemma lookup_ret b s h H name : ready b s -> hashes s !! h = Some H ->
  dt_idhash_lookup chr h name s = Ret (head (entries chr (ids s) H name)) s.
Proof.
  intros [V Ep] Eh. assert (frame s (dt_gen s) s) as F by (eapply frame_start; [done|by unfold pcb_tabs; rewrite Ep]).
  pose proof (wp_lookup chr s (dt_gen s) b None s h H name (dt_idhash_populate chr) (λ r s1, r = head (entries chr (ids s) H name) /\ s1 = s)
    (λ _ _, False) (conj V F) Eh (conj eq_refl eq_refl)) as W. unfold wp in W. unfold dt_idhash_lookup.
  destruct (lookup_with chr (dt_idhash_populate chr) h name s); [|done|done|done]. by destruct W as [-> ->].
Qed.

(** C6: A compilation that fails leaves no identifier in the tables of the handle
    and takes none away: every name is found or not as before, with the same
    identifier, whose name, kind, id, stability, version, ops, argument, storage,
    generation and table are as before. What may have changed of it are its flags,
    and the type and signature that cooking it in the pass gave it
    (cooked_type_stays); the storage used up by the pass is not given back either.
    This holds from tables in order with the built-in identifiers entered, with
    memory for the two tables of the pass, for storage asked for with an alignment
    above 0 and a size that is not negative, in all less than 2^31 bytes, a
    generation counter below 2^64 and a qsort() that permutes what it sorts. *)
Theorem failed_compile_undone b s acts clauses err s' h name :
  ready b s -> room s -> 0 <= dt_gen s -> dt_gen s + 1 < 2 ^ 64 -> Forall sized (acts ++ clauses) -> b + costs (acts ++ clauses) < 2 ^ 31 ->
  dt_compile chr qsort acts clauses s = Ret err s' -> err <> 0 -> h ∈ three s ->
  exists r, dt_idhash_lookup chr h name s = Ret r s /\ dt_idhash_lookup chr h name s' = Ret r s' /\
    forall p, r = Some p -> exists i i', ids s !! p = Some i /\ ids s' !! p = Some i' /\ lasting i' = lasting i.
Proof.
  intros R Rm G G' Sz L E Ne Hh. pose proof (wp_compile b s acts clauses (λ _ _, False) R Rm G' G Sz L) as W. unfold wp in W. rewrite E in W.
  destruct W as (R' & _ & U). destruct (U Ne) as (T3 & Uo & Uc). destruct (v_tabs _ _ _ _ (proj1 R)) as [_ TT].
  destruct (TT h) as [H Eh]; [apply elem_of_app; by left|]. destruct (Uc h H Hh Eh) as (H' & Eh' & Z' & C).
  exists (head (entries chr (ids s) H name)). split; [by eapply lookup_ret|].
  assert (entries chr (ids s') H' name = entries chr (ids s) H name) as Q.
  { unfold entries, slot. rewrite Z', C. apply filter_ext. intros p Hp.
    destruct (v_hashes _ _ _ _ (proj1 R) h H Eh) as [_ T]. destruct (t_chain _ _ _ _ _ _ T _ p Hp) as (i & n & Ei & En & _).
    destruct (Uo p i Ei) as (i' & Ei' & S). rewrite Ei, Ei'. cbn. assert (di_name i' = di_name i) as ->; [|done].
    change (di_name (lasting i') = di_name (lasting i)). by rewrite S. }
  split; [rewrite (lookup_ret _ _ _ _ name R' Eh'); by rewrite Q|]. intros p (_ & i & Ei & _)%head_entries.
  destruct (Uo p i Ei) as (i' & Ei' & S). by exists i, i'.
Qed.

(** ** The start *)

(** The handle when dtrace_open() has made its tables. *)
Definition opened (tmpl : list dt_ident) (m : allocs) (vmax : Z) : hdl :=
  Hdl ∅ (<[1%nat := fresh_tab (lit "macro") 0 UINT_MAX]> (<[2%nat := fresh_tab (lit "aggregation") 1 UINT_MAX]>
    (<[3%nat := with_tmpl (Some tmpl) (fresh_tab (lit "global") 1280 65535)]> (<[4%nat := fresh_tab (lit "thread local") 1280 65535]> ∅))))
    5 m 0 vmax 0 1 1 2 3 4 [] 0.

Lemma open_tables_opened tmpl m vmax :
  match open_tables (Some tmpl) (Hdl ∅ ∅ 1 (true :: true :: true :: true :: m) 0 vmax 0 1 1 2 3 4 [] 0) with
  | Ret r s => (r, ids s, hashes s, brk s, mem s) = (Some (1, 2, 3, 4)%nat, ∅, hashes (opened tmpl m vmax), 5%nat, m)
  | _ => False
  end.
Proof. vm_compute. reflexivity. Qed.

(** The template once it is cleared. *)
Definition started (m : allocs) (vmax : Z) : hdl :=
  set_hashes (<[3%nat := fresh_tab (lit "global") 1280 65535]>) (opened [] m vmax).

Lemma started_inv m vmax : inv chr 0 None (started m vmax).
Proof.
  assert (forall h H, hashes (started m vmax) !! h = Some H -> (h < 5)%nat /\ exists name min max, H = fresh_tab name min max /\ 0 <= min <= max /\ max < 2 ^ 32 /\
    (h = 3%nat -> 0 < min)) as Tabs.
  { intros h H. unfold started. simpl. rewrite !lookup_insert_Some, lookup_empty.
    intros [[<- <-]|[? [[<- <-]|[? [[<- <-]|[? [[<- <-]|[? [[<- <-]|[? ?]]]]]]]]]]; try done; (split; [lia|]); do 3 eexists;
      (split; [reflexivity|unfold UINT_MAX; lia]). }
  split; try done.
  - intros h H E. destruct (Tabs h H E) as (L & name & min & max & -> & M & M' & _). split; [done|]. by apply tab_fresh.
  - split; [repeat constructor; rewrite ?elem_of_cons, ?elem_of_nil; simpl; intuition discriminate|].
    intros h [->|[->|[->|[]%elem_of_nil]%elem_of_cons]%elem_of_cons]%elem_of_cons; by eexists.
  - intros h H E. destruct (Tabs h H E) as (L & name & min & max & -> & M & M' & P). split; [done|]. done.
Qed.

Lemma bind_Ret {A B} (f : M A) (k : A -> M B) s a s1 o : f s = Ret a s1 -> k a s1 = o -> (f ≫= k) s = o.
Proof. intros E <-. unfold mbind, M_bind. by rewrite E. Qed.

Section Populate.
Context (s0 : hdl) (b0 : Z) (I0 : inv chr b0 None s0) (G0 : 0 <= dt_gen s0) (h : nat).

(** An entry of a template: a function has a prototype, a variable of this kind a type. *)
Definition entry_ok (t : dt_ident) : Prop :=
  match di_ops t with Some (dt_idops_func | dt_idops_type) => di_iarg t <> 0 | _ => True end.

Lemma populate_step b s H t n m populate : Inv chr s0 0 b None s -> hashes s !! h = Some H -> dh_defer H = false -> di_name t = Some n ->
  (is_var (di_kind t) = true -> 0 <= di_id t < dh_minid H) -> entry_ok t -> mem s = true :: true :: m -> Z.of_nat (brk s) + 1 < 2 ^ 64 ->
  let H' := with_chain (u64 (dh_nelems H + 1)) (slot chr n H) (brk s :: chain H (slot chr n H)) H in
  exists s' i, insert_with chr populate h n (di_kind t) (di_flags t) (di_id t) (di_attr t) (di_vers t)
      (Some (default dt_idops_thaw (di_ops t))) (di_iarg t) 0 s = Ret (Some (brk s)) s' /\
    Inv chr s0 0 b None s' /\ mem s' = m /\ brk s' = S (brk s) /\ pcbs s' = pcbs s /\ hashes s' !! h = Some H' /\
    ids s' !! brk s = Some i /\ di_name i = Some n /\ (forall q j, ids s !! q = Some j -> ids s' !! q = Some j).
Proof.
  intros I Eh Ed En Hv Ok Em B H'. destruct (v_hashes _ _ _ _ (proj1 I) h H Eh) as [_ T].
  set (i := Ident (Some n) (di_kind t) (di_flags t) (di_id t) (di_attr t) (di_vers t) (Some (default dt_idops_thaw (di_ops t))) (di_iarg t)
    0 0 CTF_ERR (-1) 0 0 (yylineno s) None).
  set (s1 := set_brk (S (brk s)) (set_ids (<[brk s := i]>) (set_mem m s))).
  assert (Inv chr s0 0 b None s1) as I1.
  { apply (inv_new chr s0 0 G0 b None (set_mem m s) i); [by apply inv_mem|simpl; lia|done|done|]. unfold cookable, i. simpl. unfold entry_ok in Ok. by destruct (di_ops t) as [[]|]. }
  assert (ids s1 !! brk s = Some i) as Ei by apply lookup_insert_eq.
  assert (is_var (di_kind i) = true -> 0 <= di_id i < 2 ^ 32 /\ (di_id i < dh_minid H \/ (None = Some (h, di_id i) /\ @None (nat * Z) = None))) as Hv'.
  { intros V. specialize (Hv V). pose proof (t_ids _ _ _ _ _ _ T). simpl. split; [lia|]. left. lia. }
  pose proof (inv_link chr s0 0 b0 I0 b None None s1 (brk s) i n h H I1 Ei eq_refl eq_refl eq_refl
    (f_brk _ _ _ (proj2 I)) Eh (or_introl eq_refl) Hv') as I2.
  eexists _, _. split; [|split; [exact I2|split; [done|split; [done|split; [done|split; [apply lookup_insert_eq|split; [apply lookup_insert_eq|]]]]]]].
  - unfold insert_with, mbind, M_bind, idhash. rewrite Eh. rewrite decide_False by (rewrite (t_tmpl _ _ _ _ _ _ T); by intros []).
    unfold mret, M_ret, dt_ident_create, mbind, M_bind, alloc. rewrite Em. cbn [malloc]. rewrite (proj2 (Z.ltb_lt _ _)) by lia.
    cbn [andb negb set_mem mem malloc brk]. rewrite (proj2 (Z.ltb_lt _ _)) by lia. cbn [andb negb]. unfold gets, new_ident, mret, M_ret.
    unfold link, mbind, M_bind, idhash. cbn [set_mem set_brk set_ids hashes]. rewrite Eh. unfold upd_ident. cbn [set_brk set_ids ids brk yylineno].
    rewrite lookup_insert_eq. unfold upd_idhash. cbn [set_brk set_ids set_mem hashes]. rewrite Eh. rewrite Ed. done.
  - split; [done|]. intros q j Ej. simpl. pose proof (v_ids _ _ _ _ (proj1 I) q j Ej) as [Lq _]. rewrite !lookup_insert_ne by lia. done.
Qed.

(** The name is in the table. *)
Definition known (s : hdl) (n : list Z) : Prop :=
  exists H p i, hashes s !! h = Some H /\ p ∈ chain H (slot chr n H) /\ ids s !! p = Some i /\ di_name i = Some n.

Lemma populate_loop b l s H m populate : Inv chr s0 0 b None s -> hashes s !! h = Some H -> dh_defer H = false ->
  (forall t, t ∈ l -> exists n, di_name t = Some n /\ (is_var (di_kind t) = true -> 0 <= di_id t < dh_minid H) /\ entry_ok t) ->
  mem s = replicate (2 * length l) true ++ m -> Z.of_nat (brk s) + Z.of_nat (length l) < 2 ^ 64 ->
  exists s', each (λ t, name ← str (di_name t);
       r ← insert_with chr populate h name (di_kind t) (di_flags t) (di_id t) (di_attr t) (di_vers t)
             (Some (default dt_idops_thaw (di_ops t))) (di_iarg t) 0;
       match r with None => longjmp EDT_NOMEM | Some _ => mret () end) l s = Ret () s' /\
    Inv chr s0 0 b None s' /\ pcbs s' = pcbs s /\ (forall n, known s n -> known s' n) /\
    (forall t n, t ∈ l -> di_name t = Some n -> known s' n).
Proof.
  revert s H. induction l as [|t l IH]; intros s H I Eh Ed Hl Em B.
  { exists s. repeat (split; [done|]). by intros t n ?%elem_of_nil. }
  destruct (Hl t) as (n & En & Hv & Ok); [by left|]. cbn [length] in *. replace (2 * S (length l))%nat with (S (S (2 * length l))) in Em by lia.
  destruct (populate_step b s H t n _ populate I Eh Ed En Hv Ok Em ltac:(lia)) as (s1 & i & E1 & I1 & Em1 & Eb1 & Ep1 & Eh1 & Ei1 & En1 & K1).
  destruct (v_hashes _ _ _ _ (proj1 I) h H Eh) as [_ T]. destruct (t_size _ _ _ _ _ _ T) as [Ts Tl].
  set (H1 := with_chain _ _ _ H) in *.
  destruct (IH s1 H1) as (s2 & E2 & I2 & Ep2 & Kn & Kl); [done|done|done| |done|lia|].
  { intros t' Ht. apply Hl. by right. }
  assert (forall k, known s k -> known s1 k) as K.
  { intros k (H' & p & j & Eh' & Hp & Ej & Enj). replace H' with H in * by congruence. exists H1, p, j. split; [done|]. split; [|split; [by apply K1|done]].
    change (slot chr k H1) with (slot chr k H). unfold H1. rewrite chain_with_chain by (by apply slot_lt). case_decide as D; [|done]. right. by rewrite D in Hp. }
  exists s2. split; [|split; [done|split; [congruence|split; [by auto|]]]].
  - cbn [each]. eapply bind_Ret; [|exact E2]. rewrite En. eapply bind_Ret; [done|]. eapply bind_Ret; [exact E1|done].
  - intros t' n' [->|Ht]%elem_of_cons En'; [|by apply (Kl t')]. replace n' with n in * by congruence. apply Kn.
    exists H1, (brk s), i. split; [done|]. split; [|done]. change (slot chr n H1) with (slot chr n H). unfold H1.
    rewrite chain_with_chain by (by apply slot_lt). rewrite decide_True by done. by left.
Qed.
End Populate.

(** The table of global identifiers that dtrace_open() makes is filled from the table of the built-in identifiers the first time it is used: with memory for them, dt_idhash_populate() enters all of them, after which every name of that table is found, and the tables are ready for a compilation. *)
Theorem populate_ready tmpl m vmax :
  (forall t, t ∈ tmpl -> exists n, di_name t = Some n /\ (is_var (di_kind t) = true -> 0 <= di_id t < 1280) /\ entry_ok t) ->
  Z.of_nat (length tmpl) + 5 < 2 ^ 64 ->
  exists s', dt_idhash_populate chr 3 (opened tmpl (replicate (2 * length tmpl) true ++ m) vmax) = Ret () s' /\ ready 0 s' /\
    forall t n, t ∈ tmpl -> di_name t = Some n -> exists p, dt_idhash_lookup chr 3 n s' = Ret (Some p) s'.
Proof.
  intros Ht B. set (a := replicate (2 * length tmpl) true ++ m). pose proof (started_inv a vmax) as V.
  assert (frame (started a vmax) (dt_gen (started a vmax)) (started a vmax)) as F by (by eapply frame_start).
  destruct (populate_loop (started a vmax) 0 V ltac:(done) 3 0 tmpl (started a vmax) (fresh_tab (lit "global") 1280 65535) m (populate_at chr 1))
    as (s' & E & I & Ep & _ & K); [by split|done|done|done|done|simpl; lia|].
  assert (ready 0 s') as R by (split; [apply I|done]).
  exists s'. split; [|split; [done|]].
  - unfold dt_idhash_populate. cbn [populate_at]. unfold mbind at 1, M_bind at 1, idhash. unfold mbind at 1, M_bind at 1, upd_idhash.
    change (hashes (opened tmpl a vmax) !! 3%nat) with (Some (with_tmpl (Some tmpl) (fresh_tab (lit "global") 1280 65535))). cbn iota.
    cbn [dh_tmpl with_tmpl default]. rewrite <- E. f_equal.
  - intros t n Hin En. destruct (K t n Hin En) as (H & p & i & Eh & Hp & Ei & Eni).
    rewrite (lookup_ret 0 s' 3 H n R Eh). unfold entries.
    assert (p ∈ filter (λ p, (ids s' !! p) ≫= di_name = Some n) (chain H (slot chr n H))) as Hf.
    { apply list_elem_of_filter. split; [by rewrite Ei|done]. }
    destruct (filter _ _) as [|q l]; [by apply elem_of_nil in Hf|]. by exists q.
Qed.

End Compile.

(** ** Examples *)

Module Tables.

Definition x : list Z := lit "x".
Definition y : list Z := lit "y".
(** Programs without clauses, and with them. *)
Definition compile (acts : list action) := dt_compile char_signed insertion_qsort acts [].
Definition compile_clauses := dt_compile char_signed insertion_qsort.

(** Arguments that fit, types that are found. *)
Definition fits : cooking := Cooking 1 true (1, 99) (Some (1, 5)) (Some [true]).
Definition attrs (n : Z) : attribute := Attribute n n n.
Definition decl (name : list Z) (type alignment size : Z) : action := Decl Globals name false true 1 type alignment size (attrs 1) fits.

(** The state after a compilation. *)
Definition after (o : outcome Z) : hdl := match o with Ret _ s | Jmp _ s => s | _ => started [] 0 end.

(** [x] is declared as an int; the program that uses it assigns the string [y] and fails. *)
Definition start : hdl := started (replicate 20 true) 0.
Definition declared : hdl := after (compile [decl x 2 4 4] start).
Definition failing : list action := [Assign Globals y DT_IDENT_SCALAR false true false 1 3 256 fits; Unary Globals x true 1 2 fits; Reject].
Definition failed : hdl := after (compile failing declared).
Definition again : list action := [Assign Globals y DT_IDENT_SCALAR true false false 1 2 8 fits; Unary Tls x true 1 2 fits].
Definition both : hdl := after (compile again (set_mem (replicate 20 true) failed)).

Lemma start_ready m : ready char_signed 0 (started m 0).
Proof. split; [apply started_inv|done]. Qed.

Lemma session_declared : session char_signed insertion_qsort start 1 8 declared.
Proof.
  apply (session_compile _ _ start 0 0 start (mem start) [decl x 2 4 4] [] 0 declared);
    [constructor|by repeat constructor|by split; [vm_compute|eexists; vm_compute]|vm_compute; reflexivity].
Qed.

Lemma session_both : session char_signed insertion_qsort start 3 (8 + 273 + 32) both.
Proof.
  apply (session_compile _ _ start 2 (8 + 273) failed (replicate 20 true) again [] 0 both);
    [|by repeat constructor|by split; [vm_compute|eexists]|vm_compute; reflexivity].
  apply (session_compile _ _ start 1 8 declared (mem declared) failing [] EDT_COMPILER failed);
    [apply session_declared|by repeat constructor|by split; [vm_compute|eexists; vm_compute]|vm_compute; reflexivity].
Qed.

(** The identifiers [x] and [y] of the table of global ones: [y] of the second pass is gone. *)
Definition the (o : option dt_ident) : dt_ident := default (Ident None 0 0 0 _dtrace_defattr 0 None 0 0 0 0 0 0 0 0 None) o.

Example global_ids : (di_id (the (ids both !! 7%nat)), di_offset (the (ids both !! 7%nat)), di_size (the (ids both !! 7%nat))) = (1280, 0, 4) /\
  (di_id (the (ids both !! 13%nat)), di_offset (the (ids both !! 13%nat)), di_size (the (ids both !! 13%nat))) = (1281, 264, 8).
Proof. vm_compute. done. Qed.

Definition globals (s : hdl) : dt_idhash := default (fresh_tab [] 0 0) (hashes s !! 3%nat).

Lemma variables_apart_witness : distinct_vars (globals both) (the (ids both !! 7%nat)) (the (ids both !! 13%nat)).
Proof.
  apply (variables_apart char_signed insertion_qsort 0 start 3 (8 + 273 + 32) both 3 (globals both) 7 13); try (vm_compute; reflexivity).
  - apply start_ready.
  - vm_compute. discriminate.
  - apply session_both.
  - apply (bool_decide_unpack _). vm_compute. exact I.
  - apply (bool_decide_unpack _). vm_compute. exact I.
  - discriminate.
Defined.


(** Two of the built-in identifiers. *)
Definition builtins : list dt_ident :=
  [ Ident (Some (lit "arg0")) DT_IDENT_SCALAR 0 262 _dtrace_defattr 0 (Some dt_idops_type) 1 0 0 0 0 0 0 0 None;
    Ident (Some (lit "strlen")) 3 0 9 _dtrace_defattr 0 (Some dt_idops_func) 2 0 0 0 0 0 0 0 None ].

Lemma builtins_entered m : exists s', dt_idhash_populate char_signed 3 (opened builtins (replicate 4 true ++ m) 0) = Ret () s' /\ ready char_signed 0 s' /\
  forall t n, t ∈ builtins -> di_name t = Some n -> exists p, dt_idhash_lookup char_signed 3 n s' = Ret (Some p) s'.
Proof.
  apply (populate_ready char_signed builtins m 0); [|vm_compute; reflexivity].
  intros t [->|[->|[]%elem_of_nil]%elem_of_cons]%elem_of_cons; eexists; (split; [reflexivity|]); (split; [|discriminate]); intros V; [split; [vm_compute; discriminate|reflexivity]|discriminate].
Qed.

(** The tables with the built-in identifiers; a program that calls strlen() and then fails. *)
Definition populated : hdl :=
  match dt_idhash_populate char_signed 3 (opened builtins (replicate 24 true) 0) with Ret _ s => s | _ => start end.
Definition strlen : list Z := lit "strlen".
Definition calling : list action := [Call strlen fits; Reject].
Definition called : hdl := after (compile calling populated).

Lemma populated_ready : ready char_signed 0 populated.
Proof.
  destruct (builtins_entered (replicate 20 true)) as (s' & E & R & _). change (replicate 4 true ++ replicate 20 true) with (replicate 24 true) in E.
  unfold populated. by rewrite E.
Qed.

Lemma failed_compile_undone_witness : exists r, dt_idhash_lookup char_signed 3 strlen populated = Ret r populated /\ dt_idhash_lookup char_signed 3 strlen called = Ret r called /\
  forall p, r = Some p -> exists i i', ids populated !! p = Some i /\ ids called !! p = Some i' /\ lasting i' = lasting i.
Proof.
  apply (failed_compile_undone char_signed insertion_qsort 0 populated calling [] EDT_COMPILER called); try (vm_compute; reflexivity).
  - apply populated_ready.
  - split; [vm_compute; reflexivity|]. eexists. vm_compute. reflexivity.
  - vm_compute. discriminate.
  - by repeat constructor.
  - discriminate.
  - apply (bool_decide_unpack _). vm_compute. exact I.
Defined.

(** What is left of the pass: the type and the signature of strlen(). *)
Definition type_of (o : outcome (option nat)) : Z * bool :=
  match o with Ret (Some p) s => (di_type (the (ids s !! p)), di_data (the (ids s !! p)) =? 0) | _ => (0, true) end.
Example cooked_type_stays :
  type_of (dt_idhash_lookup char_signed 3 strlen populated) = (CTF_ERR, true) /\
  type_of (dt_idhash_lookup char_signed 3 strlen called) = (5, false).
Proof. vm_compute. done. Qed.

(** A prototype with a type that is not found is an error the first time only: the signature,
    of which the rest is empty, stays. *)
Definition unfound : cooking := Cooking 1 true (1, 99) (Some (1, 5)) (Some [false]).
Example half_a_signature :
  let o := compile [Call strlen unfound] populated in
  match o, compile [Call strlen unfound] (set_mem (replicate 20 true) (after o)) with
  | Ret e _, Ret e' _ => (e, e') = (EDT_COMPILER, 0)
  | _, _ => False
  end.
Proof. vm_compute. reflexivity. Qed.

(** A pragma on a name that is not defined by the end of the parse is an error, also if a
    clause defines it. *)
Example unused_pragma :
  match compile_clauses [Attributes y (attrs 1)] [Unary Globals y true 1 2 fits] start,
        compile_clauses [Attributes y (attrs 1); decl y 2 4 4] [Unary Globals y true 1 2 fits] start with
  | Ret e _, Ret e' _ => (e, e') = (EDT_COMPILER, 0)
  | _, _ => False
  end.
Proof. vm_compute. reflexivity. Qed.

(** Of two pragmas on a name that is defined later, the first one counts; on a name that is
    defined, the last one. *)
Example first_pragma_counts :
  di_attr (the (ids (after (compile [Attributes x (attrs 1); Attributes x (attrs 2); Inline x 1 2 0 (attrs 6)] start)) !! 10%nat)) = attrs 1.
Proof. vm_compute. reflexivity. Qed.
Example last_pragma_counts :
  di_attr (the (ids (after (compile [Inline x 1 2 0 (attrs 6); Attributes x (attrs 1); Attributes x (attrs 2)] start)) !! 7%nat)) = attrs 2.
Proof. vm_compute. reflexivity. Qed.

(** A variable of alignment 0, an array of empty structs, starts the storage anew: the next
    variable shares that of the first. *)
Example alignment_zero :
  let s := after (compile [decl x 2 8 8; decl y 5 0 0; decl (lit "z") 2 8 8] start) in
  (di_offset (the (ids s !! 7%nat)), di_offset (the (ids s !! 9%nat))) = (0, 0).
Proof. vm_compute. reflexivity. Qed.

(** Without memory for the tables of a pass, or for the built-in identifiers when they are
    first needed, the process ends. *)
Example no_memory_for_locals : compile [] (started [true; false] 0) = Crash.
Proof. vm_compute. reflexivity. Qed.
Example no_memory_for_builtins : compile [] (opened builtins [true; true; false] 0) = Crash.
Proof. vm_compute. reflexivity. Qed.

(** The highest id is one below the limit. *)
Example last_id : match dt_idhash_nextid 3 (set_hashes (<[3%nat := with_nextid 65535 (globals start)]>) start) with
  Ret r _ => r = None | _ => False end.
Proof. vm_compute. reflexivity. Qed.
End Tables.
