(* ===== verification/Node.v ===== *)
(** * Types of parse tree nodes (libdtrace/dt_parser.c)

    What the parser asks about the type of a node: integer, pointer, string, and which
    types can be assigned to each other.  The types are held in CTF containers, which
    libctf reads; what libctf answers is given by the class [Ctf], and what its manual
    promises of the answers by the class [CtfLaws].

    The theorems: the loop that strips bit-fields of their slices ends; a node never has
    two of the type classes; whether two arguments match does not depend on their
    order. *)

From Stdlib Require Import String.
From stdpp Require Import base list numbers option sets.
From S2P Require Import Prelude Str Printf.

(** ** libctf *)

Inductive ctf_kind :=
  | CTF_K_UNKNOWN | CTF_K_INTEGER | CTF_K_FLOAT | CTF_K_POINTER | CTF_K_ARRAY | CTF_K_FUNCTION
  | CTF_K_STRUCT | CTF_K_UNION | CTF_K_ENUM | CTF_K_FORWARD | CTF_K_TYPEDEF | CTF_K_VOLATILE
  | CTF_K_CONST | CTF_K_RESTRICT | CTF_K_SLICE.
#[export] Instance ctf_kind_eq : EqDecision ctf_kind.
Proof. solve_decision. Defined.

Record ctf_encoding := CtfEncoding { cte_format : Z; cte_offset : Z; cte_bits : Z }.

Abbreviation CTF_INT_SIGNED := 1.
Abbreviation CTF_INT_CHAR := 2.
Abbreviation CTF_FP_SINGLE := 1.
Abbreviation CTF_FP_DOUBLE := 2.
Abbreviation CTF_FP_LDOUBLE := 6.

Definition IS_CHAR (e : ctf_encoding) : bool := (Z.land (cte_format e) CTF_INT_CHAR =? CTF_INT_CHAR) && (cte_bits e =? 8).
Definition IS_VOID (e : ctf_encoding) : bool := (cte_offset e =? 0) && (cte_bits e =? 0).

(** The functions of libctf, on a container and an id in it; [None] is an error, and
    CTF_ERR where they return an id.  The types of the handle are those of the D
    container. *)
Class Ctf := {
  ctf_type_resolve : Z -> Z -> Z;
  ctf_type_kind : Z -> Z -> ctf_kind;
  ctf_type_encoding : Z -> Z -> option ctf_encoding;
  ctf_array_info : Z -> Z -> option Z;        (* ctr_contents *)
  ctf_type_reference : Z -> Z -> Z;
  ctf_type_name : Z -> Z -> option bytes;
  ctf_type_size : Z -> Z -> Z;
  ctf_type_align : Z -> Z -> Z;
  ctf_type_compat : Z -> Z -> Z -> Z -> bool;
  ctf_types : Z -> nat;                       (* how many types a container has *)
  DT_STR : ctf_type;
  DT_DYN : ctf_type;
  DT_STACK : ctf_type;
  DT_SYMADDR : ctf_type;
  DT_USYMADDR : ctf_type;
}.

(** ** Nodes *)

Abbreviation DT_NODE_INT := 1.
Abbreviation DT_NODE_STRING := 2.
Abbreviation DT_NODE_VAR := 4.
Abbreviation DT_NODE_AGG := 13.

Abbreviation DT_NF_SIGNED := 1.
Abbreviation DT_NF_COOKED := 2.
Abbreviation DT_NF_REF := 4.
Abbreviation DT_NF_BITFIELD := 32.
Abbreviation DT_NF_USERLAND := 64.

#[local] Set Warnings "-register-all".

(** The members of [dt_node_t] that the predicates look at.  [dn_inline] is [Some root]
    for a variable whose identifier is an inline, with the node of its definition;
    [dn_ident] is the size of the identifier, when there is one. *)
Inductive node := Node {
  dn_kind : Z;
  dn_flags : Z;
  dn_ctfp : Z;
  dn_type : Z;
  dn_value : Z;
  dn_string : bytes;
  dn_inline : option (option node);
  dn_ident : option Z;
}.

Section Predicates.
Context `{Ctf}.

Definition is_type (n : node) (t : ctf_type) : bool := (dn_ctfp n =? ct_fp t) && (dn_type n =? ct_id t).

Fixpoint dt_node_is_dynamic (n : node) : bool :=
  match n with
  | Node kind _ fp t _ _ root _ =>
      match kind =? DT_NODE_VAR, root with
      | true, Some (Some n) => dt_node_is_dynamic n
      | true, Some None => false
      | _, _ => (fp =? ct_fp DT_DYN) && (t =? ct_id DT_DYN)
      end
  end.

Definition dt_node_is_string (n : node) : bool := is_type n DT_STR.
Definition dt_node_is_stack (n : node) : bool := is_type n DT_STACK.
Definition dt_node_is_symaddr (n : node) : bool := is_type n DT_SYMADDR.
Definition dt_node_is_usymaddr (n : node) : bool := is_type n DT_USYMADDR.

Definition has_base (k : ctf_kind) : bool :=
  match k with CTF_K_INTEGER | CTF_K_ENUM | CTF_K_FLOAT | CTF_K_TYPEDEF => true | _ => false end.

(** The loop of [dt_type_basetype()]. *)
Fixpoint basetype_loop (fuel : nat) (fp type : Z) : Z :=
  match fuel with
  | O => type
  | S fuel =>
      let newtype := ctf_type_reference fp type in
      if has_base (ctf_type_kind fp type) && negb (newtype =? CTF_ERR)
      then basetype_loop fuel fp (ctf_type_resolve fp newtype)
      else type
  end.
Definition dt_type_basetype (fp type : Z) : Z := basetype_loop (ctf_types fp) fp (ctf_type_resolve fp type).
Definition dt_node_basetype (n : node) : Z := dt_type_basetype (dn_ctfp n) (dn_type n).

(** The kind of the base type, and whether the encoding of the resolved type is void. *)
Definition base_kind (n : node) : ctf_kind := ctf_type_kind (dn_ctfp n) (dt_node_basetype n).
Definition encoding_of (n : node) : option ctf_encoding :=
  ctf_type_encoding (dn_ctfp n) (ctf_type_resolve (dn_ctfp n) (dn_type n)).
Definition void_encoding (n : node) : bool := match encoding_of n with Some e => IS_VOID e | None => false end.
Definition kind_of (n : node) : ctf_kind := ctf_type_kind (dn_ctfp n) (ctf_type_resolve (dn_ctfp n) (dn_type n)).
Definition is_kind (k k' : ctf_kind) : bool := bool_decide (k = k').

Definition dt_node_type_size (n : node) : Z :=
  if dn_kind n =? DT_NODE_STRING then Z.of_nat (length (dn_string n)) + 1
  else match dt_node_is_dynamic n, dn_ident n with
       | true, Some size => size
       | _, _ => ctf_type_size (dn_ctfp n) (dn_type n)
       end.

Definition dt_node_is_integer (n : node) : bool :=
  if is_kind (base_kind n) CTF_K_INTEGER && void_encoding n then false
  else is_kind (base_kind n) CTF_K_INTEGER || is_kind (base_kind n) CTF_K_ENUM.

Definition dt_node_is_float (n : node) : bool :=
  is_kind (base_kind n) CTF_K_FLOAT &&
  match encoding_of n with
  | Some e => (cte_format e =? CTF_FP_SINGLE) || (cte_format e =? CTF_FP_DOUBLE) || (cte_format e =? CTF_FP_LDOUBLE)
  | None => false
  end.

Definition dt_node_is_scalar (n : node) : bool :=
  if is_kind (base_kind n) CTF_K_INTEGER && void_encoding n then false
  else is_kind (base_kind n) CTF_K_INTEGER || is_kind (base_kind n) CTF_K_ENUM || is_kind (base_kind n) CTF_K_POINTER.

Definition dt_node_is_arith (n : node) : bool :=
  if is_kind (base_kind n) CTF_K_INTEGER then match encoding_of n with Some e => negb (IS_VOID e) | None => false end
  else is_kind (base_kind n) CTF_K_ENUM.

Definition dt_node_is_vfptr (n : node) : bool :=
  let fp := dn_ctfp n in
  let type := ctf_type_resolve fp (dn_type n) in
  if negb (is_kind (ctf_type_kind fp type) CTF_K_POINTER) then false
  else
    let type := ctf_type_resolve fp (ctf_type_reference fp type) in
    let kind := ctf_type_kind fp (dt_type_basetype fp type) in
    is_kind kind CTF_K_FUNCTION ||
    (is_kind kind CTF_K_INTEGER && match ctf_type_encoding fp type with Some e => IS_VOID e | None => false end).

(** A type that resolves to characters. *)
Definition is_char_type (fp base : Z) : bool :=
  negb (base =? CTF_ERR) && match ctf_type_encoding fp base with Some e => IS_CHAR e | None => false end.

Definition char_array (fp base : Z) : bool :=
  is_kind (ctf_type_kind fp base) CTF_K_ARRAY &&
  match ctf_array_info fp base with Some c => is_char_type fp (ctf_type_resolve fp c) | None => false end.

Definition dt_node_is_strcompat (n : node) : bool :=
  let fp := dn_ctfp n in
  let base := ctf_type_resolve fp (dn_type n) in
  if is_kind (ctf_type_kind fp base) CTF_K_POINTER && negb (ctf_type_reference fp base =? CTF_ERR) &&
     is_char_type fp (ctf_type_resolve fp (ctf_type_reference fp base)) then true
  else char_array fp base.

Definition is_pointer_kind (k : ctf_kind) : bool := is_kind k CTF_K_POINTER || is_kind k CTF_K_ARRAY.

Definition dt_node_is_pointer (n : node) : bool :=
  if dt_node_is_string n then false else is_pointer_kind (kind_of n).

Definition dt_node_is_void (n : node) : bool :=
  if dt_node_is_dynamic n then false
  else if dt_node_is_stack n then false
  else if dt_node_is_symaddr n || dt_node_is_usymaddr n then false
  else is_kind (base_kind n) CTF_K_INTEGER && void_encoding n.

(** ** Compatible types *)

(** The type that a pointer or an array refers to. *)
Definition ref_of (n : node) : Z :=
  let fp := dn_ctfp n in
  let base := ctf_type_resolve fp (dn_type n) in
  if is_kind (ctf_type_kind fp base) CTF_K_POINTER then ctf_type_resolve fp (ctf_type_reference fp base)
  else if is_kind (ctf_type_kind fp base) CTF_K_ARRAY then
    match ctf_array_info fp base with Some c => ctf_type_resolve fp c | None => CTF_ERR end
  else CTF_ERR.

Definition is_void_type (fp t : Z) : bool := match ctf_type_encoding fp t with Some e => IS_VOID e | None => false end.

(** The result, and the type stored through [fpp] and [tp]. *)
Definition dt_node_is_ptrcompat (lp rp : node) : bool * option ctf_type :=
  let base n := ctf_type_resolve (dn_ctfp n) (dn_type n) in
  if dt_node_is_dynamic lp || dt_node_is_dynamic rp then (false, None)
  else
    let lp_is_int := dt_node_is_integer lp in
    let rp_is_int := dt_node_is_integer rp in
    let not_zero n := negb (dn_kind n =? DT_NODE_INT) || negb (dn_value n =? 0) in
    if lp_is_int && rp_is_int then (false, None)
    else if lp_is_int && not_zero lp then (false, None)
    else if rp_is_int && not_zero rp then (false, None)
    else if negb lp_is_int && negb rp_is_int &&
            c_true (Z.lxor (Z.land (dn_flags lp) DT_NF_USERLAND) (Z.land (dn_flags rp) DT_NF_USERLAND)) then (false, None)
    else
      (* a zero constant takes the type of the other side *)
      let l := if lp_is_int then rp else lp in
      let r := if rp_is_int then lp else rp in
      let lp_is_void := is_void_type (dn_ctfp l) (ref_of l) in
      let rp_is_void := is_void_type (dn_ctfp r) (ref_of r) in
      let compat := is_pointer_kind (kind_of l) && is_pointer_kind (kind_of r) &&
        (lp_is_void || rp_is_void || ctf_type_compat (dn_ctfp l) (ref_of l) (dn_ctfp r) (ref_of r)) in
      (compat, if compat then Some (if rp_is_void then CtfType (dn_ctfp l) (base l) else CtfType (dn_ctfp r) (base r)) else None).

Definition dt_node_is_argcompat (lp rp : node) : bool :=
  if dt_node_is_integer lp && dt_node_is_integer rp then true
  else if dt_node_is_strcompat lp && dt_node_is_strcompat rp then true
  else if dt_node_is_stack lp && dt_node_is_stack rp then true
  else if dt_node_is_symaddr lp && dt_node_is_symaddr rp then true
  else if dt_node_is_usymaddr lp && dt_node_is_usymaddr rp then true
  else match kind_of lp with
       | CTF_K_FUNCTION | CTF_K_STRUCT | CTF_K_UNION =>
           ctf_type_compat (dn_ctfp lp) (dn_type lp) (dn_ctfp rp) (dn_type rp)
       | _ => fst (dt_node_is_ptrcompat lp rp)
       end.

Definition dt_node_is_posconst (n : node) : bool :=
  (dn_kind n =? DT_NODE_INT) && negb (dn_value n =? 0) &&
  (negb (flag (dn_flags n) DT_NF_SIGNED) || (0 <? s64 (dn_value n))).

(** ** Assigning a type to a node *)

(** Does an integer of [bits] bits have to be read as a bit-field? *)
Definition odd_size (bits : Z) : bool :=
  let size := bits / 8 in
  (8 <? size) || negb (bits `mod` 8 =? 0) || c_true (Z.land size (size - 1)).

(** [pcb] tells whether a program is being compiled. *)
Definition type_flags (pcb : bool) (flags fp type : Z) : Z :=
  let base := ctf_type_resolve fp type in
  let kind := ctf_type_kind fp (dt_type_basetype fp base) in
  let flags := Z.land flags (Z.lnot 101) (* SIGNED, REF, BITFIELD, USERLAND *) in
  let flags :=
    match kind, ctf_type_encoding fp base with
    | CTF_K_INTEGER, Some e =>
        let flags := if odd_size (cte_bits e) then Z.lor flags DT_NF_BITFIELD else flags in
        if flag (cte_format e) CTF_INT_SIGNED then Z.lor flags DT_NF_SIGNED else flags
    | CTF_K_FLOAT, Some e => if 8 <? cte_bits e / 8 then Z.lor flags DT_NF_REF else flags
    | _, _ => flags
    end in
  let flags :=
    match kind with
    | CTF_K_STRUCT | CTF_K_UNION | CTF_K_FORWARD | CTF_K_ARRAY | CTF_K_FUNCTION => Z.lor flags DT_NF_REF
    | _ => if pcb && (fp =? ct_fp DT_DYN) && (type =? ct_id DT_DYN) then Z.lor flags DT_NF_REF else flags
    end in
  Z.lor flags DT_NF_COOKED.

Definition dt_node_type_assign (pcb : bool) (n : node) (fp type : Z) : node :=
  Node (dn_kind n) (type_flags pcb (dn_flags n) fp type) fp type (dn_value n) (dn_string n) (dn_inline n) (dn_ident n).

End Predicates.

(** ** What libctf promises *)

(** A reference leads to a type that was defined before it, so that following
    references ends; compatible types have the same kind and size, and are compatible
    in both directions; resolving a type does not change its size. *)
Class CtfLaws `{Ctf} := {
  ctf_rank : Z -> Z -> nat;
  ctf_rank_types : forall fp t, (ctf_rank fp t < ctf_types fp)%nat;
  ctf_reference_rank : forall fp t, has_base (ctf_type_kind fp t) = true -> ctf_type_reference fp t <> CTF_ERR ->
    (ctf_rank fp (ctf_type_resolve fp (ctf_type_reference fp t)) < ctf_rank fp t)%nat;
  ctf_compat_sym : forall fp t fp' t', ctf_type_compat fp t fp' t' = ctf_type_compat fp' t' fp t;
  ctf_compat_kind : forall fp t fp' t', ctf_type_compat fp t fp' t' = true ->
    ctf_type_kind fp (ctf_type_resolve fp t) = ctf_type_kind fp' (ctf_type_resolve fp' t');
  ctf_compat_size : forall fp t fp' t', ctf_type_compat fp t fp' t' = true ->
    ctf_type_size fp t = ctf_type_size fp' t';
  ctf_resolve_idem : forall fp t, ctf_type_resolve fp (ctf_type_resolve fp t) = ctf_type_resolve fp t;
  ctf_resolve_size : forall fp t, ctf_type_size fp (ctf_type_resolve fp t) = ctf_type_size fp t;
}.

Section Laws.
Context `{CtfLaws}.

Lemma basetype_loop_done fuel : forall fp t, (ctf_rank fp t < fuel)%nat ->
  let b := basetype_loop fuel fp t in
  has_base (ctf_type_kind fp b) = false \/ ctf_type_reference fp b = CTF_ERR.
Proof.
  induction fuel as [|fuel IH]; intros fp t Hr; [lia|]. cbn [basetype_loop].
  destruct (has_base (ctf_type_kind fp t)) eqn:Hb; cbn [andb]; [|by left].
  destruct (Z.eqb_spec (ctf_type_reference fp t) CTF_ERR) as [He|He]; cbn [negb]; [by right|].
  apply IH. pose proof (ctf_reference_rank fp t Hb He). lia.
Qed.

(** The loop ends at a type that has no base, or no reference to it. *)
Lemma dt_type_basetype_done fp t :
  has_base (ctf_type_kind fp (dt_type_basetype fp t)) = false \/ ctf_type_reference fp (dt_type_basetype fp t) = CTF_ERR.
Proof. apply basetype_loop_done, ctf_rank_types. Qed.

Lemma is_kind_true k k' : is_kind k k' = true <-> k = k'.
Proof. apply bool_decide_eq_true. Qed.

Lemma base_kind_other n : has_base (kind_of n) = false -> base_kind n = kind_of n.
Proof.
  unfold base_kind, dt_node_basetype, dt_type_basetype, kind_of. intros Hb.
  destruct (ctf_types (dn_ctfp n)); [done|]. cbn [basetype_loop]. by rewrite Hb.
Qed.

Lemma pointer_base_kind n : is_pointer_kind (kind_of n) = true -> base_kind n = kind_of n.
Proof. intros Hp. apply base_kind_other. by destruct (kind_of n). Qed.

(** An integer is not a pointer, an array, a structure or a floating point number. *)
Lemma integer_kinds n : dt_node_is_integer n = true ->
  dt_node_is_pointer n = false /\ dt_node_is_float n = false /\ dt_node_is_void n = false /\
  (forall k, k ∈ [CTF_K_POINTER; CTF_K_ARRAY; CTF_K_STRUCT; CTF_K_UNION; CTF_K_FUNCTION] -> kind_of n <> k).
Proof.
  unfold dt_node_is_integer. destruct (is_kind (base_kind n) CTF_K_INTEGER && void_encoding n) eqn:Hv; [done|].
  intros Hi. assert (base_kind n = CTF_K_INTEGER \/ base_kind n = CTF_K_ENUM) as Hk.
  { apply orb_prop in Hi as [Hi|Hi]; apply is_kind_true in Hi; auto. }
  assert (forall k, k ∈ [CTF_K_POINTER; CTF_K_ARRAY; CTF_K_STRUCT; CTF_K_UNION; CTF_K_FUNCTION] -> kind_of n <> k) as Hn.
  { intros k Hin Hkn. assert (has_base (kind_of n) = false) as Hb by (rewrite Hkn; by repeat (apply elem_of_cons in Hin as [->|Hin]; [done|]); apply elem_of_nil in Hin).
    apply base_kind_other in Hb. rewrite Hkn in Hb. rewrite Hb in Hk.
    by repeat (apply elem_of_cons in Hin as [->|Hin]; [by destruct Hk|]); apply elem_of_nil in Hin. }
  split_and!; [| | |done].
  - unfold dt_node_is_pointer. destruct (dt_node_is_string n); [done|].
    destruct (is_pointer_kind (kind_of n)) eqn:E; [|done]. exfalso.
    unfold is_pointer_kind in E. apply orb_prop in E as [E|E]; apply is_kind_true in E; revert E; apply Hn; by repeat constructor.
  - unfold dt_node_is_float. by destruct Hk as [-> | ->].
  - unfold dt_node_is_void. rewrite Hv. by repeat case_match.
Qed.

Lemma ptrcompat_sym lp rp : fst (dt_node_is_ptrcompat lp rp) = fst (dt_node_is_ptrcompat rp lp).
Proof.
  unfold dt_node_is_ptrcompat. rewrite (orb_comm (dt_node_is_dynamic lp)). destruct (_ || _); [done|].
  rewrite (Z.lxor_comm (Z.land (dn_flags lp) _)), (andb_comm (negb (dt_node_is_integer lp))), (andb_comm (dt_node_is_integer lp) (dt_node_is_integer rp)).
  destruct (dt_node_is_integer lp), (dt_node_is_integer rp); cbn [andb negb]; try done.
  destruct (c_true _); [done|]. cbn [fst]. rewrite (ctf_compat_sym (dn_ctfp lp)). f_equal; [apply andb_comm|].
  f_equal. apply orb_comm.
Qed.

(** The kinds that [dt_node_is_argcompat()] compares as they are. *)
Definition compound (k : ctf_kind) : bool :=
  match k with CTF_K_FUNCTION | CTF_K_STRUCT | CTF_K_UNION => true | _ => false end.

Lemma ptrcompat_not_compound lp rp : fst (dt_node_is_ptrcompat lp rp) = true -> compound (kind_of lp) = false.
Proof.
  unfold dt_node_is_ptrcompat. destruct (_ || _); [done|]. destruct (dt_node_is_integer lp) eqn:Hl.
  - intros _. destruct (integer_kinds lp Hl) as (_ & _ & _ & Hk).
    destruct (compound (kind_of lp)) eqn:E; [|done]. exfalso. apply (Hk (kind_of lp)); [|done].
    destruct (kind_of lp); try done; by repeat constructor.
  - cbn [andb negb]. destruct (_ && _); [done|]. destruct (_ && _); [done|]. cbn [fst]. intros Hp.
    apply andb_prop in Hp as [Hp _]. apply andb_prop in Hp as [Hp _]. by destruct (kind_of lp).
Qed.

(** Whether two arguments match does not depend on which of them comes first. *)
Lemma argcompat_sym lp rp : dt_node_is_argcompat lp rp = dt_node_is_argcompat rp lp.
Proof.
  unfold dt_node_is_argcompat.
  rewrite (andb_comm (dt_node_is_integer lp)), (andb_comm (dt_node_is_strcompat lp)), (andb_comm (dt_node_is_stack lp)),
    (andb_comm (dt_node_is_symaddr lp)), (andb_comm (dt_node_is_usymaddr lp)).
  repeat (destruct (_ && _); [done|]).
  rewrite (ctf_compat_sym (dn_ctfp rp)).
  set (compat := ctf_type_compat _ _ _ _).
  assert (compat = true -> kind_of lp = kind_of rp) as Hk by apply ctf_compat_kind.
  assert (forall n (x y : bool), match kind_of n with CTF_K_FUNCTION | CTF_K_STRUCT | CTF_K_UNION => x | _ => y end =
    if compound (kind_of n) then x else y) as Hc by (intros n x y; by destruct (kind_of n)).
  rewrite !Hc. pose proof (ptrcompat_not_compound lp rp) as Hl. pose proof (ptrcompat_not_compound rp lp) as Hr.
  rewrite (ptrcompat_sym rp lp) in *. destruct (fst (dt_node_is_ptrcompat lp rp)).
  - by rewrite Hl, Hr.
  - destruct compat; [by rewrite Hk|]. by destruct (compound _), (compound _).
Qed.

End Laws.
