(* ===== verification/PrintfCheck.v ===== *)
(** * Checking a printf() format against its arguments (libdtrace/dt_printf.c, dt_cg.c)

    [dt_printf_validate()] goes through the descriptors of a format and the arguments:
    each conversion takes an argument, and more of them for a dynamic width or
    precision, and its check function decides whether the type of the argument fits.  It
    also decides the format that printf(3) will be given.  [dt_cg_act_printf()] compiles
    the action: it reads and checks the format, and stores each argument in a record of
    the trace buffer. *)

From Stdlib Require Import String.
From stdpp Require Import base list numbers option sets.
From S2P Require Import Prelude Str Printf Node.

(** ** The check functions *)

Section Checks.
Context `{Ctf}.
(** The value of the macro variable "target" (-p or -c), if it is defined. *)
Context (target : option Z).

Definition strings (l : list string) : list bytes := lit <$> l.
Definition named (o : option bytes) (l : list string) : bool :=
  match o with Some n => existsb (λ s, strcmp n s =? 0) (strings l) | None => false end.

Definition check_addr (n : node) : bool :=
  (dt_node_is_pointer n && negb (dt_node_is_stack n)) || dt_node_is_integer n.

Definition check_kaddr (n : node) : bool :=
  dt_node_is_pointer n || dt_node_is_integer n || dt_node_is_symaddr n.

Definition check_uaddr (n : node) : bool :=
  if dt_node_is_usymaddr n then true
  else match target with
       | None => false
       | Some id => if id =? 0 then false else dt_node_is_pointer n || dt_node_is_integer n
       end.

Definition check_time (n : node) : bool := dt_node_is_integer n && (dt_node_type_size n =? 8).

Definition check_str (n : node) : bool :=
  if dt_node_is_string n then true else char_array (dn_ctfp n) (ctf_type_resolve (dn_ctfp n) (dn_type n)).

Definition check_wstr (n : node) : bool :=
  let fp := dn_ctfp n in
  let base := ctf_type_resolve fp (dn_type n) in
  is_kind (ctf_type_kind fp base) CTF_K_ARRAY &&
  match ctf_array_info fp base with
  | Some c =>
      let base := ctf_type_resolve fp c in
      negb (base =? CTF_ERR) && is_kind (ctf_type_kind fp base) CTF_K_INTEGER &&
      match ctf_type_encoding fp base with Some e => cte_bits e =? 32 | None => false end
  | None => false
  end.

Definition check_csi (n : node) : bool := dt_node_is_integer n && (dt_node_type_size n <=? 4).

Definition resolved_name (n : node) : option bytes :=
  ctf_type_name (dn_ctfp n) (ctf_type_resolve (dn_ctfp n) (dn_type n)).

Definition check_xshort (n : node) : bool := named (resolved_name n) ["short"; "signed short"; "unsigned short"]%string.
Definition check_xlong (n : node) : bool := named (resolved_name n) ["long"; "signed long"; "unsigned long"]%string.

(** The loop over typedefs. *)
Fixpoint int64_typedef (fuel : nat) (fp type : Z) : bool :=
  match fuel with
  | O => false
  | S fuel =>
      if is_kind (ctf_type_kind fp type) CTF_K_TYPEDEF then
        if named (ctf_type_name fp type) ["int64_t"; "uint64_t"]%string then true
        else int64_typedef fuel fp (ctf_type_reference fp type)
      else false
  end.

Definition check_xlonglong (n : node) : bool :=
  if named (resolved_name n) ["long long"; "signed long long"; "unsigned long long"]%string then true
  else int64_typedef (ctf_types (dn_ctfp n)) (dn_ctfp n) (dn_type n).

Definition check_type (pfd : dt_pfargd) (n : node) : bool :=
  match pfd_conv pfd with
  | Some pfc => ctf_type_compat (dn_ctfp n) (ctf_type_resolve (dn_ctfp n) (dn_type n)) (ct_fp (pfc_d pfc)) (ct_id (pfc_d pfc))
  | None => false
  end.

(** The last byte of the format replaced by 'u'. *)
Definition unsigned_fmt (fmt : bytes) : bytes := take (length fmt - 1) fmt ++ [117].

(** [pfcheck_dint] changes the descriptor. *)
Definition check_dint (pfd : dt_pfargd) (n : node) : dt_pfargd :=
  if flag (dn_flags n) DT_NF_SIGNED then set_flags pfd (Z.lor (pfd_flags pfd) DT_PFCONV_SIGNED)
  else set_fmt pfd (unsigned_fmt (pfd_fmt pfd)).

Definition pfc_check_run (ck : dt_pfcheck_f) (pfd : dt_pfargd) (n : node) : bool * dt_pfargd :=
  match ck with
  | pfcheck_addr => (check_addr n, pfd)
  | pfcheck_kaddr => (check_kaddr n, pfd)
  | pfcheck_uaddr => (check_uaddr n, pfd)
  | pfcheck_stack => (dt_node_is_stack n, pfd)
  | pfcheck_time => (check_time n, pfd)
  | pfcheck_str => (check_str n, pfd)
  | pfcheck_wstr => (check_wstr n, pfd)
  | pfcheck_csi => (check_csi n, pfd)
  | pfcheck_fp => (dt_node_is_float n, pfd)
  | pfcheck_xint => (dt_node_is_integer n, pfd)
  | pfcheck_dint => (dt_node_is_integer n, check_dint pfd n)
  | pfcheck_xshort => (check_xshort n, pfd)
  | pfcheck_xlong => (check_xlong n, pfd)
  | pfcheck_xlonglong => (check_xlonglong n, pfd)
  | pfcheck_type => (check_type pfd n, pfd)
  end.

(** ** Validation *)

(** The tags of [xyerror()] and [dnerror()]. *)
Inductive d_error :=
  | D_PRINTF_FMT_EMPTY | D_TYPE_ERR | D_PRINTF_DYN_PROTO | D_PRINTF_DYN_TYPE | D_PRINTF_AGG_CONV
  | D_PRINTF_ARG_PROTO | D_PRINTF_ARG_TYPE | D_PRINTF_ARG_EXTRA | D_PRINTA_AGGKEY | D_PRINTA_AGGPROTO
  | D_PRINTF_ARG_FMT | D_FREOPEN_INVALID | edt (e : pf_error).

(** The arguments of a dynamic width and precision. *)
Fixpoint dyn_args (dync : nat) (dnp : list node) : result d_error (list node) :=
  match dync with
  | O => Ok dnp
  | S dync =>
      match dnp with
      | [] => Err D_PRINTF_DYN_PROTO
      | n :: dnp => if dt_node_is_integer n then dyn_args dync dnp else Err D_PRINTF_DYN_TYPE
      end
  end.

Definition dync (pfd : dt_pfargd) : nat :=
  (if flag (pfd_flags pfd) DT_PFCONV_DYNPREC then 1 else 0) + (if flag (pfd_flags pfd) DT_PFCONV_DYNWIDTH then 1 else 0).

(** The size prefixes and the format of the conversion. *)
Definition proposed_fmt (pfd : dt_pfargd) (pfc : dt_pfconv) (vnp : node) : bytes :=
  (if bool_decide (pfc_print pfc = pfprint_sint \/ pfc_print pfc = pfprint_uint \/ pfc_print pfc = pfprint_dint) then
     if dt_node_type_size vnp =? 8 then lit "ll" else pfd_fmt pfd
   else if bool_decide (pfc_print pfc = pfprint_fp) then
     if dt_node_type_size vnp =? 16 then lit "L" else pfd_fmt pfd
   else pfd_fmt pfd) ++ pfc_ofmt pfc.

(** One iteration of the loop: the descriptor, and the arguments left. *)
Definition validate_one (flags : Z) (aggnode : node) (pfd : dt_pfargd) (dnp : list node) : result d_error (dt_pfargd * list node) :=
  match pfd_conv pfd with
  | None => Ok (pfd, dnp)
  | Some pfc =>
      if bool_decide (pfc_print pfc = pfprint_pct) then Ok (set_fmt pfd (pfd_fmt pfd ++ pfc_ofmt pfc), dnp)
      else
        dnp ← dyn_args (dync pfd) dnp;
        '(vnp, dnp) ←
          (if flag (pfd_flags pfd) DT_PFCONV_AGG then
             if negb (flag flags DT_PRINTF_AGGREGATION) then Err D_PRINTF_AGG_CONV else Ok (aggnode, dnp)
           else match dnp with [] => Err D_PRINTF_ARG_PROTO | n :: dnp => Ok (n, dnp) end);
        let pfd := set_fmt pfd (proposed_fmt pfd pfc vnp) in
        let '(ok, pfd) := pfc_check_run (pfc_check pfc) pfd vnp in
        if ok then Ok (pfd, dnp) else Err D_PRINTF_ARG_TYPE
  end.

Fixpoint validate_loop (flags : Z) (aggnode : node) (argv : list dt_pfargd) (dnp : list node)
    : result d_error (list dt_pfargd * list node) :=
  match argv with
  | [] => Ok ([], dnp)
  | pfd :: argv =>
      '(pfd, dnp) ← validate_one flags aggnode pfd dnp;
      '(argv, dnp) ← validate_loop flags aggnode argv dnp;
      Ok (pfd :: argv, dnp)
  end.

(** A node that is all zeros. *)
Definition zero_node : node := Node 0 0 0 0 0 [] None None.

Definition DT_AGG_COUNT : Z := 0x701.

(** [dt_type_lookup] finds a type by name. *)
Definition dt_printf_validate (dt_type_lookup : bytes -> option ctf_type)
    (pfv : dt_pfargv) (flags kind : Z) (dnp : list node) : result d_error dt_pfargv :=
  match pfv_format pfv with
  | [] => Err D_PRINTF_FMT_EMPTY
  | _ =>
      aggnode ←
        (if flag flags DT_PRINTF_AGGREGATION then
           let aggtype := if negb (kind =? DT_AGG_COUNT) then lit "int64_t" else lit "uint64_t" in
           match dt_type_lookup aggtype with
           | None => Err D_TYPE_ERR
           | Some t => Ok (dt_node_type_assign true zero_node (ct_fp t) (ct_id t))
           end
         else Ok zero_node);
      '(argv, dnp) ← validate_loop flags aggnode (pfv_argv pfv) dnp;
      if flag flags DT_PRINTF_EXACTLEN && negb (bool_decide (dnp = [])) then Err D_PRINTF_ARG_EXTRA
      else Ok (PfArgv (pfv_format pfv) argv flags)
  end.

(** The keys of two aggregations must match. *)
Fixpoint protos_match (l r : list node) : result d_error () :=
  match l, r with
  | n1 :: l, n2 :: r => if dt_node_is_argcompat n1 n2 then protos_match l r else Err D_PRINTA_AGGPROTO
  | _, _ => Ok ()
  end.

Definition dt_printa_validate (lproto rproto : list node) : result d_error () :=
  if negb (Z.of_nat (length lproto) =? Z.of_nat (length rproto)) then Err D_PRINTA_AGGKEY
  else protos_match lproto rproto.

(** Two aggregations match whichever is given first. *)
Lemma dt_printa_validate_sym `{!CtfLaws} l r : dt_printa_validate l r = dt_printa_validate r l.
Proof.
  unfold dt_printa_validate. rewrite (Z.eqb_sym (Z.of_nat (length l))). destruct (negb _); [done|].
  revert r. induction l as [|n1 l IH]; intros [|n2 r]; cbn [protos_match]; try done.
  rewrite argcompat_sym. destruct (dt_node_is_argcompat n2 n1); [apply IH|done].
Qed.

(** ** Records *)

(** [dtrd_format] is the format of the first record of an action; it is not used
    here. *)
Record recdesc := RecDesc {
  dtrd_action : Z;
  dtrd_size : Z;
  dtrd_offset : Z;
  dtrd_alignment : Z;
  dtrd_arg : Z;
}.

(** What [dt_rec_add()] changes of the state of the compiler: the records, how many
    there is room for, and the offset in the buffer. *)
Record pcb := Pcb { pcb_recs : list recdesc; pcb_maxrecs : Z; pcb_bufoff : Z }.

(** The gap before the record is filled by the function [gapf], with code that does
    not concern the records.  [None] when there is no memory. *)
Definition dt_rec_add (m : allocs) (p : pcb) (kind size alignment arg : Z) : option (pcb * allocs) :=
  let cnt := Z.of_nat (length (pcb_recs p)) + 1 in
  let max := pcb_maxrecs p in
  '(nmax, m) ←
    (if cnt >=? max then
       let nmax := if negb (max =? 0) then Z.shiftl max 1 else cnt in
       let '(ok, m) := malloc m in
       if ok then Some (nmax, m) else None
     else Some (max, m));
  let off := Z.land (u32 (pcb_bufoff p + (alignment - 1))) (u32 (Z.lnot (alignment - 1))) in
  Some (Pcb (pcb_recs p ++ [RecDesc kind size off alignment arg]) nmax (u32 (off + size)), m).

(** The size and the alignment of a value ([dt_node_diftype()]). *)
Definition dtdt_size (n : node) : Z := u32 (ctf_type_size (dn_ctfp n) (dn_type n)).
Definition dtdt_align (n : node) : Z := wrapu 8 (ctf_type_align (dn_ctfp n) (dn_type n)).

(** The record that [dt_cg_store_val()] adds for a value, if any; [kind] is neither of
    the actions that store a process id. *)
Definition store_val_rec (m : allocs) (p : pcb) (n : node) (kind : Z) : option (pcb * allocs) :=
  if dt_node_is_scalar n || dt_node_is_float n then dt_rec_add m p kind (dtdt_size n) (dtdt_align n) 0
  else if dt_node_is_string n then dt_rec_add m p kind (dtdt_size n) 1 0
  else if flag (dn_flags n) DT_NF_REF then dt_rec_add m p kind (dtdt_size n) (dtdt_align n) 0
  else Some (p, m).

Fixpoint store_args (m : allocs) (p : pcb) (kind : Z) (args : list node) : option (pcb * allocs) :=
  match args with
  | [] => Some (p, m)
  | n :: args => '(p, m) ← store_val_rec m p n kind; store_args m p kind args
  end.

Definition DTRACEACT_FREOPEN : Z := 0x204.
Definition DT_FREOPEN_RESTORE : bytes := lit "."%string.

(** printf(), freopen() and system(): [fmt] is the first argument, [args] are those
    behind it. *)
Definition dt_cg_act_printf (lp64 : bool) (lookup : bytes -> option dt_pfconv) (dt_type_lookup : bytes -> option ctf_type)
    (m : allocs) (p : pcb) (kind : Z) (fmt : node) (args : list node) : result d_error (dt_pfargv * pcb * allocs) :=
  if negb (dn_kind fmt =? DT_NODE_STRING) then Err D_PRINTF_ARG_FMT
  else
    let str := dn_string fmt in
    if (kind =? DTRACEACT_FREOPEN) && (strcmp str DT_FREOPEN_RESTORE =? 0) then Err D_FREOPEN_INVALID
    else
      let str := if (kind =? DTRACEACT_FREOPEN) && bool_decide (str = []) then DT_FREOPEN_RESTORE else str in
      match dt_printf_create lp64 lookup m str with
      | Err e => Err (edt e)
      | Ok (pfv, m) =>
          pfv ← dt_printf_validate dt_type_lookup pfv DT_PRINTF_EXACTLEN 0 args;
          '(p, m) ← of_option (edt EDT_NOMEM)
            (if bool_decide (args = []) then dt_rec_add m p kind 0 1 0 else store_args m p kind args);
          Ok (pfv, p, m)
      end.

End Checks.
