(* ===== verification/PrintfType.v ===== *)
(** * Printing with a format (libdtrace/dt_printf.c), and why it is type-safe

    [dt_printf_format()] prints the records of an action with the descriptors of its
    format: for each conversion it builds the format for printf(3), takes the next
    record, checks that the record is in the buffer and aligned, and calls the print
    function of the conversion.  What is printed is a list of calls of printf(3), each
    with its format and its argument, and of the functions that print what takes more
    than one call.

    The theorem: with a format that was checked against the arguments, and the records
    that were compiled for them, no conversion fails for the type, the size, the position
    or the number of the records, and printf(3) is never given an argument of another
    type than its format says. *)

From Stdlib Require Import String.
From stdpp Require Import base list numbers option sets.
From S2P Require Import Prelude Str Htab Int128 Printf Node PrintfCheck.

(** ** What is printed *)

(** The argument after the format.  An address and a time are printed as strings, which
    [dtrace_addr2str()], [dtrace_uaddr2str()], ctime_r() and strftime() make. *)
Inductive vararg :=
  | AInt (w v : Z)                             (* an integer of [w] bits *)
  | AFloat (size : Z) (data : bytes) (normal : Z)  (* a floating point number / normal *)
  | AStr (s : bytes)
  | AWstr (data : bytes)
  | AAddr (v : Z)
  | AUaddr (tgid v : Z)
  | ATime (ns : Z)
  | ATime822 (ns : Z).

Inductive output :=
  | OText (s : bytes)                          (* dt_printf("%s"), "%%" or "\n" *)
  | OPrintf (format : bytes) (arg : vararg)
  | OStack (user : bool) (format : bytes) (width depth strsz : Z)
  | OMod (format data : bytes)
  | OUmod (format data : bytes)
  | OQuantize (data : bytes) (normal : Z)
  | OLquantize (data : bytes) (normal sig : Z)
  | OLlquantize (data : bytes) (normal sig : Z)
  | OFlush (flags : Z).                        (* dt_buffered_flush() *)

Inductive pf_fault :=
  | EDT_DMISMATCH | EDT_DOFFSET | EDT_DALIGN | EDT_DSIZE
  | EDT_OUTPUT          (* dt_printf() or the like failed *)
  | EDT_ESC             (* no memory for strchr2esc() *)
  | trap.               (* division by zero or overflow of a division *)

(** The outcomes of the coming calls that print, the allocation of [strchr2esc()]
    among them; the calls so far. *)
Record world := World { w_ok : allocs; w_out : list output }.
Definition pf (A : Type) : Type := world -> result pf_fault A * world.

#[export] Instance pf_ret : MRet pf := λ A a w, (Ok a, w).
#[export] Instance pf_bind : MBind pf := λ A B f c w,
  match c w with (Ok a, w) => f a w | (Err e, w) => (Err e, w) end.

Definition fail {A} (e : pf_fault) : pf A := λ w, (Err e, w).
Definition emit (o : output) : pf () := λ w,
  let '(ok, m) := malloc (w_ok w) in
  ((if ok then Ok () else Err EDT_OUTPUT), World m (w_out w ++ [o])).
Definition try_malloc : pf bool := λ w, let '(ok, m) := malloc (w_ok w) in (Ok ok, World m (w_out w)).

(** ** The print functions *)

(** Division of int32_t or int64_t, and of unsigned numbers. *)
Definition sdiv (w a b : Z) : pf Z :=
  if b =? 0 then fail trap else if (a =? - 2 ^ (w - 1)) && (b =? -1) then fail trap else mret (Z.quot a b).
Definition udiv (a b : Z) : pf Z := if b =? 0 then fail trap else mret (a / b).

Section Print.
(** The option maxframes; [dt_vector] is NULL, and the value of the macro "target". *)
Context (maxframes : Z) (no_vector : bool) (target : option Z).

(** [data] are the bytes at [addr], [size] of which belong to the record. *)
Definition print_sint (format data : bytes) (size unormal : Z) : pf () :=
  let normal := s64 unormal in
  let n := s32 normal in
  if size =? 1 then v ← sdiv 32 (wraps 8 (load 1 0 data)) n; emit (OPrintf format (AInt 32 v))
  else if size =? 2 then v ← sdiv 32 (wraps 16 (load 2 0 data)) n; emit (OPrintf format (AInt 32 v))
  else if size =? 4 then v ← sdiv 32 (wraps 32 (load 4 0 data)) n; emit (OPrintf format (AInt 32 v))
  else if size =? 8 then v ← sdiv 64 (s64 (load 8 0 data)) normal; emit (OPrintf format (AInt 64 v))
  else fail EDT_DMISMATCH.

Definition print_uint (format data : bytes) (size normal : Z) : pf () :=
  let n := u32 normal in
  if size =? 1 then v ← udiv (load 1 0 data) n; emit (OPrintf format (AInt 32 v))
  else if size =? 2 then v ← udiv (load 2 0 data) n; emit (OPrintf format (AInt 32 v))
  else if size =? 4 then v ← udiv (load 4 0 data) n; emit (OPrintf format (AInt 32 v))
  else if size =? 8 then v ← udiv (load 8 0 data) normal; emit (OPrintf format (AInt 64 v))
  else fail EDT_DMISMATCH.

Definition print_dint (format : bytes) (pfd : dt_pfargd) (data : bytes) (size normal : Z) : pf () :=
  if flag (pfd_flags pfd) DT_PFCONV_SIGNED then print_sint format data size normal
  else print_uint format data size normal.

Definition print_fp (format data : bytes) (size normal : Z) : pf () :=
  if (size =? 4) || (size =? 8) || (size =? 16) then emit (OPrintf format (AFloat size (take (Z.to_nat size) data) normal))
  else fail EDT_DMISMATCH.

Definition print_addr (format data : bytes) (size : Z) : pf () :=
  if size =? 4 then emit (OPrintf format (AAddr (load 4 0 data)))
  else if size =? 8 then emit (OPrintf format (AAddr (load 8 0 data)))
  else fail EDT_DMISMATCH.

Definition print_uaddr (format data : bytes) (size : Z) : pf () :=
  let print tgid val :=
    let tgid := if (tgid =? 0) && no_vector then default 0 target else tgid in
    emit (OPrintf format (AUaddr tgid val)) in
  if size =? 4 then print 0 (load 4 0 data)
  else if size =? 8 then print 0 (load 8 0 data)
  else if size =? 24 then print (load 8 8 data) (load 8 16 data)
  else fail EDT_DMISMATCH.

Definition print_stack (format : bytes) (pfd : dt_pfargd) (data : bytes) : pf () :=
  let depth := load 4 0 data in
  let strsz := load 4 4 data in
  let is_user := load 4 8 data in
  if maxframes <? depth then fail EDT_DSIZE
  else if depth =? 0 then mret ()
  else
    let width :=
      if pfd_dynwidth pfd <? 0 then s32 (- pfd_dynwidth pfd)
      else if flag (pfd_flags pfd) DT_PFCONV_LEFT then
        if negb (pfd_dynwidth pfd =? 0) then pfd_dynwidth pfd else pfd_width pfd
      else 0 in
    emit (OText (lit "
"));; emit (OStack (c_true is_user) format width depth strsz).

Definition print_estr (format s : bytes) : pf () :=
  ok ← try_malloc;
  match strchr2esc (λ _, ok) s with
  | None => fail EDT_ESC
  | Some s => emit (OPrintf format (AStr s))
  end.

Definition print_echr (format data : bytes) (size : Z) : pf () :=
  if (size =? 1) || (size =? 2) || (size =? 4) then print_estr format [wrapu 8 (load (Z.to_nat size) 0 data)]
  else fail EDT_DMISMATCH.

Definition print_average (format data : bytes) (size normal : Z) : pf () :=
  if negb (size =? 16) then fail EDT_DMISMATCH
  else if negb (load 8 0 data =? 0) then
    v ← udiv (load 8 8 data) normal; v ← udiv v (load 8 0 data); emit (OPrintf format (AInt 64 v))
  else emit (OPrintf format (AInt 64 0)).

Definition print_stddev (format data : bytes) (size normal : Z) : pf () :=
  if negb (size =? 32) then fail EDT_DMISMATCH
  else match dt_stddev [load 8 0 data; load 8 8 data; load 8 16 data; load 8 24 data] normal with
       | None => fail trap
       | Some v => emit (OPrintf format (AInt 64 v))
       end.

Definition pfc_print_run (pr : dt_pfprint_f) (format : bytes) (pfd : dt_pfargd) (data : bytes) (size normal sig : Z) : pf () :=
  let rec := take (Z.to_nat size) data in
  match pr with
  | pfprint_sint => print_sint format data size normal
  | pfprint_uint => print_uint format data size normal
  | pfprint_dint => print_dint format pfd data size normal
  | pfprint_fp => print_fp format data size normal
  | pfprint_addr => print_addr format data size
  | pfprint_mod => emit (OMod format data)
  | pfprint_umod => emit (OUmod format data)
  | pfprint_uaddr => print_uaddr format data size
  | pfprint_stack => print_stack format pfd data
  | pfprint_time => emit (OPrintf format (ATime (load 8 0 data)))
  | pfprint_time822 => emit (OPrintf format (ATime822 (load 8 0 data)))
  | pfprint_cstr => emit (OPrintf format (AStr (cstr rec)))
  | pfprint_wstr => emit (OPrintf format (AWstr rec))
  | pfprint_estr => print_estr format rec
  | pfprint_echr => print_echr format data size
  | pfprint_pct => emit (OText (lit "%"))
  | pfprint_average => print_average format data size normal
  | pfprint_stddev => print_stddev format data size normal
  | pfprint_quantize => emit (OQuantize rec normal)
  | pfprint_lquantize => emit (OLquantize rec normal sig)
  | pfprint_llquantize => emit (OLlquantize rec normal sig)
  end.

(** ** Printing the records of an action *)

(** A buffer at an address. *)
Record buffer := Buffer { b_addr : Z; b_data : bytes }.

(** The data of an aggregation: the description of its value, its normalization and
    signature, the value and the key. *)
Record aggval := AggVal { av_rec : recdesc; av_normal : Z; av_sig : Z; av_data : buffer; av_key : buffer }.

Definition misaligned (addr alignment : Z) : bool := negb (Z.land addr (alignment - 1) =? 0).

Definition dt_printf_getint (recs : list recdesc) (buf : buffer) : pf (Z * list recdesc) :=
  match recs with
  | [] => fail EDT_DMISMATCH
  | rec :: recs =>
      let off := dtrd_offset rec in
      let size := dtrd_size rec in
      if Z.of_nat (length (b_data buf)) <? off + size then fail EDT_DOFFSET
      else if misaligned (b_addr buf + off) (dtrd_alignment rec) then fail EDT_DALIGN
      else
        let data := drop (Z.to_nat off) (b_data buf) in
        if size =? 1 then mret (wraps 8 (load 1 0 data), recs)
        else if size =? 2 then mret (wraps 16 (load 2 0 data), recs)
        else if size =? 4 then mret (wraps 32 (load 4 0 data), recs)
        else if size =? 8 then mret (s32 (s64 (load 8 0 data)), recs)
        else fail EDT_DMISMATCH
  end.

Definition DT_AGG_AVG : Z := 0x700.
Definition DT_AGG_LLQUANTIZE : Z := 0x702.
Definition DT_AGG_LQUANTIZE : Z := 0x703.
Definition DT_AGG_QUANTIZE : Z := 0x706.
Definition DT_AGG_STDDEV : Z := 0x707.
Definition DTRACEACT_UMOD : Z := 0x104.
Definition DTRACEACT_MOD : Z := 0x403.

Definition print_func (action : Z) (pfc : dt_pfconv) : dt_pfprint_f :=
  if action =? DT_AGG_AVG then pfprint_average
  else if action =? DT_AGG_STDDEV then pfprint_stddev
  else if action =? DT_AGG_QUANTIZE then pfprint_quantize
  else if action =? DT_AGG_LQUANTIZE then pfprint_lquantize
  else if action =? DT_AGG_LLQUANTIZE then pfprint_llquantize
  else if action =? DTRACEACT_MOD then pfprint_mod
  else if action =? DTRACEACT_UMOD then pfprint_umod
  else pfc_print pfc.

(** ABS() of an int. *)
Definition abs32 (n : Z) : Z := if n <? 0 then s32 (- n) else n.

(** The format for printf(3). *)
Definition out_format (pfd : dt_pfargd) (func : dt_pfprint_f) (width prec : Z) : bytes :=
  let flags := pfd_flags pfd in
  let width' := if bool_decide (func = pfprint_stack) && flag flags DT_PFCONV_LEFT then 0 else width in
  [37] ++
  if_flag flags DT_PFCONV_ALT (lit "#") ++
  if_flag flags DT_PFCONV_ZPAD (lit "0") ++
  (if (width <? 0) || flag flags DT_PFCONV_LEFT then lit "-" else []) ++
  if_flag flags DT_PFCONV_SPOS (lit "+") ++
  if_flag flags DT_PFCONV_GROUP (lit "'") ++
  if_flag flags DT_PFCONV_SPACE (lit " ") ++
  (if negb (width' =? 0) then snprintf_d (abs32 width') else []) ++
  (if 0 <? prec then 46 :: snprintf_d prec else []) ++
  pfd_fmt pfd.

Abbreviation DTRACE_BUFDATA_AGGKEY := 1.
Abbreviation DTRACE_BUFDATA_AGGVAL := 2.
Abbreviation DTRACE_BUFDATA_AGGFORMAT := 4.
Abbreviation DTRACE_BUFDATA_AGGLAST := 8.

(** The records that are left, and [curagg]. *)
Record cursor := Cursor { cu_recs : list recdesc; cu_agg : nat }.

Section Format.
Context (pfv : dt_pfargv) (buf : buffer) (aggsdata : option (list aggval)).

Definition is_printa : bool := flag (pfv_flags pfv) DT_PRINTF_AGGREGATION.

Definition print_prefix (last : bool) (pfd : dt_pfargd) : pf () :=
  match pfd_prefix pfd with
  | [] => mret ()
  | prefix =>
      emit (OText prefix);;
      if is_printa then
        emit (OFlush (Z.lor DTRACE_BUFDATA_AGGFORMAT
          (if bool_decide (pfd_conv pfd = None) && last then DTRACE_BUFDATA_AGGLAST else 0)))
      else mret ()
  end.

(** The dynamic width and precision. *)
Definition dyn_width (pfd : dt_pfargd) (recs : list recdesc) : pf (Z * Z * list recdesc) :=
  if flag (pfd_flags pfd) DT_PFCONV_DYNWIDTH then
    '(width, recs) ← dt_printf_getint recs buf; mret (width, width, recs)
  else mret (pfd_width pfd, 0, recs).
Definition dyn_prec (pfd : dt_pfargd) (recs : list recdesc) : pf (Z * list recdesc) :=
  if flag (pfd_flags pfd) DT_PFCONV_DYNPREC then dt_printf_getint recs buf
  else mret (pfd_prec pfd, recs).

(** The record that a conversion prints: its description, the buffer it is in and
    whether the end of the buffer is known, its normalization and signature, and the
    flags for [dt_buffered_flush()]. *)
Record selected := Selected {
  se_rec : recdesc; se_buf : buffer; se_limit : bool; se_normal : Z; se_sig : Z; se_flags : Z; se_next : cursor }.

Definition select_record (pfd : dt_pfargd) (c : cursor) : pf selected :=
  if flag (pfd_flags pfd) DT_PFCONV_AGG then
    match aggsdata with
    | None => fail EDT_DMISMATCH
    | Some l =>
        match l !! cu_agg c with
        | None => fail trap
        | Some av =>
            let curagg := if (cu_agg c <? length l - 1)%nat then S (cu_agg c) else cu_agg c in
            mret (Selected (av_rec av) (av_data av) false (av_normal av) (av_sig av)
              DTRACE_BUFDATA_AGGVAL (Cursor (cu_recs c) curagg))
        end
    end
  else
    match cu_recs c with
    | [] => fail EDT_DMISMATCH
    | rec :: recs =>
        if is_printa then
          match aggsdata ≫= head with
          | None => fail trap
          | Some av => mret (Selected rec (av_key av) false 1 0 DTRACE_BUFDATA_AGGKEY (Cursor recs (cu_agg c)))
          end
        else mret (Selected rec buf true 1 0 0 (Cursor recs (cu_agg c)))
    end.

(** The next record, printed with a width and a precision. *)
Definition print_record (last : bool) (pfd : dt_pfargd) (pfc : dt_pfconv) (width dynwidth prec : Z) (c : cursor) : pf cursor :=
  s ← select_record pfd c;
  let rec := se_rec s in
  let size := dtrd_size rec in
  let off := dtrd_offset rec in
  if se_limit s && (Z.of_nat (length (b_data (se_buf s))) <? off + size) then fail EDT_DOFFSET
  else if negb (dtrd_alignment rec =? 0) && misaligned (b_addr (se_buf s) + off) (dtrd_alignment rec) then fail EDT_DALIGN
  else
    let func := print_func (dtrd_action rec) pfc in
    let format := out_format pfd func width prec in
    pfc_print_run func format (set_dynwidth pfd dynwidth) (drop (Z.to_nat off) (b_data (se_buf s))) size (se_normal s) (se_sig s);;
    (if is_printa then emit (OFlush (Z.lor (se_flags s) (if last then DTRACE_BUFDATA_AGGLAST else 0))) else mret ());;
    mret (se_next s).

(** The conversion of a descriptor. *)
Definition print_conv (last : bool) (pfd : dt_pfargd) (pfc : dt_pfconv) (c : cursor) : pf cursor :=
  '(width, dynwidth, recs) ← dyn_width pfd (cu_recs c);
  '(prec, recs) ← dyn_prec pfd recs;
  print_record last pfd pfc width dynwidth prec (Cursor recs (cu_agg c)).

(** The loop; [inl] is an early return. *)
Fixpoint format_loop (argv : list dt_pfargd) (c : cursor) : pf (Z + cursor) :=
  match argv with
  | [] => mret (inr c)
  | pfd :: argv =>
      let last := bool_decide (argv = []) in
      print_prefix last pfd;;
      match pfd_conv pfd with
      | None =>
          if (Z.of_nat (length (pfv_argv pfv)) =? 1) then mret (inl (c_bool (negb (bool_decide (cu_recs c = [])))))
          else format_loop argv c
      | Some pfc =>
          if bool_decide (pfc_print pfc = pfprint_pct) then
            pfc_print_run pfprint_pct [] pfd [] 0 1 0;; format_loop argv c
          else c ← print_conv last pfd pfc c; format_loop argv c
      end
  end.

Definition dt_printf_format (recs : list recdesc) : pf Z :=
  let curagg := if is_printa then match aggsdata with Some l => if (1 <? length l)%nat then 1%nat else 0%nat | None => 0%nat end else 0%nat in
  r ← format_loop (pfv_argv pfv) (Cursor recs curagg);
  match r with
  | inl n => mret n
  | inr c => mret (Z.of_nat (length recs - length (cu_recs c)))
  end.

End Format.

Definition dtrace_fprintf (pfv : dt_pfargv) (recs : list recdesc) (buf : buffer) : pf Z :=
  dt_printf_format pfv buf None recs.

End Print.

(** ** The types that printf(3) expects *)

Inductive ctype := TInt | TLongLong | TDouble | TLongDouble | TStr | TWstr.
#[export] Instance ctype_eq : EqDecision ctype.
Proof. solve_decision. Defined.

(** The length modifiers and conversions of printf(3) that the formats use; int and
    unsigned int are passed alike, and %lc takes a wint_t, which is an unsigned int. *)
Definition conv_type (s : bytes) : option ctype :=
  let among l := existsb (λ x, strcmp x s =? 0) (strings l) in
  if among ["d"; "i"; "o"; "u"; "x"; "X"; "c"; "lc"]%string then Some TInt
  else if among ["lld"; "lli"; "llo"; "llu"; "llx"; "llX"]%string then Some TLongLong
  else if among ["e"; "E"; "f"; "g"; "G"]%string then Some TDouble
  else if among ["Le"; "LE"; "Lf"; "Lg"; "LG"]%string then Some TLongDouble
  else if among ["s"]%string then Some TStr
  else if among ["ls"]%string then Some TWstr
  else None.

Fixpoint skip (f : Z -> bool) (s : bytes) : bytes :=
  match s with c :: s' => if f c then skip f s' else s | [] => [] end.

Definition is_flag (c : Z) : bool := existsb (Z.eqb c) (lit "#0-+' ").

(** % flags width .precision conversion *)
Definition printf_type (format : bytes) : option ctype :=
  match format with
  | [] => None
  | c :: s =>
      if c =? 37 then
        let s := skip isdigit (skip is_flag s) in
        conv_type (match s with c :: s' => if c =? 46 then skip isdigit s' else s | [] => [] end)
      else None
  end.

Definition arg_type (a : vararg) : option ctype :=
  match a with
  | AInt w _ => if w =? 64 then Some TLongLong else if w =? 32 then Some TInt else None
  | AFloat size _ _ => if size =? 16 then Some TLongDouble else Some TDouble
  | AStr _ | AAddr _ | AUaddr _ _ | ATime _ | ATime822 _ => Some TStr
  | AWstr _ => Some TWstr
  end.

(** The functions that print stacks and modules give printf(3) strings. *)
Definition typed (o : output) : Prop :=
  match o with
  | OPrintf format a => exists t, printf_type format = Some t /\ arg_type a = Some t
  | OStack _ format _ _ _ | OMod format _ | OUmod format _ => printf_type format = Some TStr
  | _ => True
  end.

Lemma skip_all f l r : forallb f l = true -> skip f (l ++ r) = skip f r.
Proof.
  induction l as [|c l IH]; [done|]. cbn. intros [Hc Hl]%andb_prop. rewrite Hc. by apply IH.
Qed.

Lemma skip_stop f c r : f c = false -> skip f (c :: r) = c :: r.
Proof. cbn. by intros ->. Qed.

(** Flags before digits: the zeros may be taken for flags. *)
Lemma skip_flags_digits fl ds r : forallb is_flag fl = true -> forallb isdigit ds = true ->
  match r with c :: _ => is_flag c = false /\ isdigit c = false | [] => True end ->
  skip isdigit (skip is_flag (fl ++ ds ++ r)) = r.
Proof.
  intros Hf Hd Hr. rewrite skip_all by done. clear fl Hf. induction ds as [|c ds IH]; cbn [app].
  - destruct r as [|c r]; [done|]. destruct Hr as [H1 H2]. rewrite (skip_stop is_flag) by done. by apply skip_stop.
  - cbn [forallb] in Hd. apply andb_prop in Hd as [Hc Hd]. cbn [skip]. destruct (is_flag c); [by apply IH|].
    change (c :: ds ++ r) with ([c] ++ ds ++ r). rewrite skip_all by (cbn; by rewrite Hc). rewrite skip_all by done.
    destruct r as [|x r]; [done|]. apply skip_stop, Hr.
Qed.

(** A format that starts with a letter is what follows the precision. *)
Definition starts_plain (fmt : bytes) : bool :=
  match fmt with c :: _ => negb (is_flag c) && negb (isdigit c) && negb (c =? 46) | [] => false end.

Lemma snprintf_digits n : 0 <= n -> forallb isdigit (snprintf_d n) = true.
Proof. intros Hn. unfold snprintf_d. destruct (Z.ltb_spec n 0); [lia|]. by apply digits_digits. Qed.

Lemma if_flag_flags flags f s : forallb is_flag s = true -> forallb is_flag (if_flag flags f s) = true.
Proof. unfold if_flag. by destruct (flag _ _). Qed.

(** The digits of the width, with the sign that the least int keeps. *)
Lemma width_split w : exists fl ds, (if negb (w =? 0) then snprintf_d (abs32 w) else []) = fl ++ ds /\
  forallb is_flag fl = true /\ forallb isdigit ds = true.
Proof.
  destruct (negb _); [|by exists [], []]. unfold snprintf_d. set (n := abs32 w).
  destruct (Z.ltb_spec n 0) as [Hn|Hn].
  - exists [45], (digits 10 (- n)). split_and!; [done..|]. apply digits_digits. lia.
  - exists [], (digits 10 n). split_and!; [done..|]. by apply digits_digits.
Qed.

Lemma printf_type_out_format pfd func width prec : starts_plain (pfd_fmt pfd) = true ->
  printf_type (out_format pfd func width prec) = conv_type (pfd_fmt pfd).
Proof.
  intros Hs. unfold out_format. set (w := if _ && _ then 0 else width).
  destruct (width_split w) as (fl & ds & -> & Hfl & Hds). cbn [app]. unfold printf_type.
  set (f1 := if_flag _ DT_PFCONV_ALT _). set (f2 := if_flag _ DT_PFCONV_ZPAD _).
  set (f3 := if (width <? 0) || _ then _ else _). set (f4 := if_flag _ DT_PFCONV_SPOS _).
  set (f5 := if_flag _ DT_PFCONV_GROUP _). set (f6 := if_flag _ DT_PFCONV_SPACE _).
  set (tail := (if 0 <? prec then _ else _) ++ pfd_fmt pfd).
  replace (f1 ++ f2 ++ f3 ++ f4 ++ f5 ++ f6 ++ (fl ++ ds) ++ tail) with ((f1 ++ f2 ++ f3 ++ f4 ++ f5 ++ f6 ++ fl) ++ ds ++ tail)
    by (by rewrite <- !app_assoc).
  unfold starts_plain in Hs. destruct (pfd_fmt pfd) as [|c fmt] eqn:Hfmt; [done|]. b2p.
  assert (forallb is_flag (f1 ++ f2 ++ f3 ++ f4 ++ f5 ++ f6 ++ fl) = true) as Hall.
  { rewrite !forallb_app, Hfl. repeat (apply andb_true_intro; split); try done; try by apply if_flag_flags.
    unfold f3. by destruct (_ || _). }
  rewrite skip_flags_digits; [|done|done|].
  - unfold tail. destruct (Z.ltb_spec 0 prec) as [Hp|Hp]; cbn [app].
    + rewrite skip_all by (apply snprintf_digits; lia). by rewrite skip_stop.
    + by destruct (Z.eqb_spec c 46).
  - unfold tail. by destruct (0 <? prec).
Qed.

(** ** What the check of a conversion settles *)

Definition prints_int (pr : dt_pfprint_f) : bool := bool_decide (pr = pfprint_sint \/ pr = pfprint_uint \/ pr = pfprint_dint).

(** The format of a conversion for an argument of a size. *)
Definition final_fmt (pfc : dt_pfconv) (size : Z) (signed : bool) : bytes :=
  let fmt := (if prints_int (pfc_print pfc) then if size =? 8 then lit "ll" else []
    else if bool_decide (pfc_print pfc = pfprint_fp) then if size =? 16 then lit "L" else [] else []) ++ pfc_ofmt pfc in
  if bool_decide (pfc_check pfc = pfcheck_dint) && negb signed then unsigned_fmt fmt else fmt.

(** The type of what a print function gives printf(3) for a record of a size. *)
Definition print_type (pr : dt_pfprint_f) (size : Z) : option ctype :=
  if prints_int pr then Some (if size =? 8 then TLongLong else TInt)
  else if bool_decide (pr = pfprint_fp) then Some (if size =? 16 then TLongDouble else TDouble)
  else if bool_decide (pr = pfprint_wstr) then Some TWstr
  else Some TStr.

(** The names of the D types, with their sizes and kinds. *)
Definition d_types : list (string * (Z * ctf_kind)) := [
  ("short", (2, CTF_K_INTEGER)); ("unsigned short", (2, CTF_K_INTEGER)); ("int", (4, CTF_K_INTEGER));
  ("long", (8, CTF_K_INTEGER)); ("unsigned long", (8, CTF_K_INTEGER)); ("long long", (8, CTF_K_INTEGER));
  ("unsigned long long", (8, CTF_K_INTEGER)); ("long double", (16, CTF_K_FLOAT))]%string.

(** %wc and %ws are not conversions of printf(3). *)
Definition wide (pfc : dt_pfconv) : bool := existsb (λ x, strcmp x (pfc_name pfc) =? 0) (strings ["wc"; "ws"]%string).
Definition narrow (pfc : dt_pfconv) : bool := existsb (λ x, strcmp x (pfc_name pfc) =? 0) (strings ["c"; "lc"]%string).

(** All this holds of an entry of the table, by looking at each. *)
Definition entry_ok (pfc : dt_pfconv) : bool :=
  wide pfc || bool_decide (pfc_print pfc = pfprint_pct) ||
  (forallb (λ size, forallb (λ signed,
      (narrow pfc && (size =? 8)) ||
      (bool_decide (conv_type (final_fmt pfc size signed) = print_type (pfc_print pfc) size) &&
       starts_plain (final_fmt pfc size signed))) [true; false]) [0; 8; 16] &&
   (* the checks of the conversions that print integers and floating point numbers *)
   (if prints_int (pfc_print pfc) then
      bool_decide (pfc_check pfc ∈ [pfcheck_csi; pfcheck_dint; pfcheck_xint; pfcheck_addr; pfcheck_xshort;
        pfcheck_xlong; pfcheck_xlonglong]) ||
      (bool_decide (pfc_check pfc = pfcheck_type) &&
       existsb (λ t, bool_decide (lit (fst t) = pfc_tstr pfc /\ snd (snd t) = CTF_K_INTEGER) && (negb (narrow pfc) || (fst (snd t) =? 4))) d_types)
    else true) &&
   (if bool_decide (pfc_print pfc = pfprint_fp) then
      bool_decide (pfc_check pfc = pfcheck_fp) ||
      (bool_decide (pfc_check pfc = pfcheck_type) && existsb (λ t, bool_decide (lit (fst t) = pfc_tstr pfc /\ snd t = (16, CTF_K_FLOAT))) d_types)
    else true) &&
   (* the others *)
   (negb (narrow pfc) || (prints_int (pfc_print pfc) && (bool_decide (pfc_check pfc = pfcheck_csi) || bool_decide (pfc_check pfc = pfcheck_type)))) &&
   (if bool_decide (pfc_print pfc = pfprint_echr) then bool_decide (pfc_check pfc = pfcheck_csi) else true) &&
   negb (existsb (λ p, bool_decide (pfc_print pfc = p))
     [pfprint_mod; pfprint_umod; pfprint_average; pfprint_stddev; pfprint_quantize; pfprint_lquantize; pfprint_llquantize])).

Lemma table_ok : forallb entry_ok _dtrace_conversions = true.
Proof. vm_compute. reflexivity. Qed.

(** What it says. *)
Record entry_spec (pfc : dt_pfconv) : Prop := {
  en_format : forall size signed, (narrow pfc = true -> size <> 8) ->
    conv_type (final_fmt pfc size signed) = print_type (pfc_print pfc) size /\ starts_plain (final_fmt pfc size signed) = true;
  en_int : prints_int (pfc_print pfc) = true ->
    pfc_check pfc ∈ [pfcheck_csi; pfcheck_dint; pfcheck_xint; pfcheck_addr; pfcheck_xshort; pfcheck_xlong; pfcheck_xlonglong] \/
    (pfc_check pfc = pfcheck_type /\
     exists name size, (name, (size, CTF_K_INTEGER)) ∈ d_types /\ lit name = pfc_tstr pfc /\ (narrow pfc = true -> size = 4));
  en_fp : pfc_print pfc = pfprint_fp ->
    pfc_check pfc = pfcheck_fp \/
    (pfc_check pfc = pfcheck_type /\ exists name, (name, (16, CTF_K_FLOAT)) ∈ d_types /\ lit name = pfc_tstr pfc);
  en_narrow : narrow pfc = true -> prints_int (pfc_print pfc) = true /\ (pfc_check pfc = pfcheck_csi \/ pfc_check pfc = pfcheck_type);
  en_echr : pfc_print pfc = pfprint_echr -> pfc_check pfc = pfcheck_csi;
  en_plain : pfc_print pfc ∉ [pfprint_mod; pfprint_umod; pfprint_average; pfprint_stddev; pfprint_quantize; pfprint_lquantize; pfprint_llquantize];
}.

Lemma final_fmt_size pfc size signed : exists size', size' ∈ [0; 8; 16] /\ (size' = 8 <-> size = 8) /\
  final_fmt pfc size signed = final_fmt pfc size' signed /\ print_type (pfc_print pfc) size = print_type (pfc_print pfc) size'.
Proof.
  unfold final_fmt, print_type. destruct (Z.eqb_spec size 8) as [->|H8]; [by exists 8; split_and!; [repeat constructor|..]|].
  destruct (Z.eqb_spec size 16) as [->|H16]; [by exists 16; split_and!; [repeat constructor|..]|].
  exists 0. split_and!; [by repeat constructor|lia|done|done].
Qed.

Lemma entry_spec_of pfc : entry_ok pfc = true -> wide pfc = false -> pfc_print pfc <> pfprint_pct -> entry_spec pfc.
Proof.
  unfold entry_ok. intros He Hw Hp. rewrite Hw, bool_decide_eq_false_2 in He by done. cbn [orb] in He.
  apply andb_prop in He as [He H6]. apply andb_prop in He as [He H5]. apply andb_prop in He as [He H4].
  apply andb_prop in He as [He H3]. apply andb_prop in He as [H1 H2]. split.
  - intros size signed Hn. destruct (final_fmt_size pfc size signed) as (size' & Hin & H8 & -> & ->).
    apply forallb_forall with (x := size') in H1; [|by apply list_elem_of_In].
    apply forallb_forall with (x := signed) in H1; [|by destruct signed; [left|right; left]].
    apply orb_prop in H1 as [H1|H1].
    + apply andb_prop in H1 as [Hnar E%Z.eqb_eq]. exfalso. apply (Hn Hnar). by apply H8.
    + apply andb_prop in H1 as [E H1]. split; [by apply bool_decide_eq_true in E|done].
  - intros Hi. rewrite Hi in H2. apply orb_prop in H2 as [H2|H2]; [left; by apply bool_decide_eq_true in H2|right].
    apply andb_prop in H2 as [Ht Hx]. apply bool_decide_eq_true in Ht. split; [done|].
    apply existsb_exists in Hx as ((name & size & kind) & Hin & Hx). apply andb_prop in Hx as [E Hn].
    apply bool_decide_eq_true in E as [E1 E2]. cbn in *. subst kind. exists name, size. split_and!; [by apply list_elem_of_In|done|].
    intros Hnar. rewrite Hnar in Hn. by apply Z.eqb_eq in Hn.
  - intros Hi. rewrite bool_decide_eq_true_2 in H3 by done. apply orb_prop in H3 as [H3|H3]; [left; by apply bool_decide_eq_true in H3|right].
    apply andb_prop in H3 as [Ht Hx]. apply bool_decide_eq_true in Ht. split; [done|].
    apply existsb_exists in Hx as ((name & t) & Hin & Hx). apply bool_decide_eq_true in Hx as [E1 E2]. cbn in *. subst t.
    exists name. split; [by apply list_elem_of_In|done].
  - intros Hn. rewrite Hn in H4. cbn [negb orb] in H4. apply andb_prop in H4 as [Hi H4]. split; [done|]. apply orb_prop in H4 as [H4|H4]; apply bool_decide_eq_true in H4; auto.
  - intros Hi. rewrite bool_decide_eq_true_2 in H5 by done. by apply bool_decide_eq_true in H5.
  - intros Hin. apply negb_true_iff in H6. apply Bool.not_true_iff_false in H6. apply H6.
    apply existsb_exists. exists (pfc_print pfc). split; [by apply list_elem_of_In|by apply bool_decide_eq_true].
Qed.

Lemma entry_of lookup e pfc : e ∈ _dtrace_conversions -> pf_types lookup e = Ok pfc -> entry_ok pfc = true.
Proof.
  intros Hin (H1 & H2 & H3 & H4 & H5)%pf_types_name.
  pose proof (proj1 (forallb_forall _ _) table_ok e ltac:(by apply list_elem_of_In)) as He.
  unfold entry_ok, wide, narrow, final_fmt in *. rewrite H1, H2, H3, H4, H5. exact He.
Qed.

(** ** Printing goes wrong only outside of the format *)

(** The output or memory failed, or a stack has more frames than maxframes. *)
Definition external (e : pf_fault) : Prop := e = EDT_OUTPUT \/ e = EDT_ESC \/ e = EDT_DSIZE.

(** [c] gives printf(3) what its formats say, fails for no other reason, and has a
    result in [Q]. *)
Definition prints {A} (c : pf A) (Q : A -> Prop) : Prop :=
  forall w, Forall typed (w_out w) ->
    Forall typed (w_out (snd (c w))) /\ match fst (c w) with Ok a => Q a | Err e => external e end.

Section Safe.
Context {A B : Type}.
Implicit Types (Q : A -> Prop) (R : B -> Prop).

Lemma prints_ret a Q : Q a -> prints (mret a) Q.
Proof. by intros HQ w Hw. Qed.

Lemma prints_bind (c : pf A) (f : A -> pf B) Q R : prints c Q -> (forall a, Q a -> prints (f a) R) -> prints (c ≫= f) R.
Proof.
  intros Hc Hf w Hw. unfold mbind, pf_bind. destruct (Hc w Hw) as [H1 H2].
  destruct (c w) as [[a|e] w']; cbn in *; [by apply Hf|done].
Qed.

Lemma prints_fail Q e : external e -> prints (fail e) Q.
Proof. by intros He w Hw. Qed.

Lemma prints_weaken (c : pf A) Q Q' : prints c Q -> (forall a, Q a -> Q' a) -> prints c Q'.
Proof. intros Hc HQ w Hw. destruct (Hc w Hw) as [H1 H2]. split; [done|]. case_match; [by apply HQ|done]. Qed.
End Safe.

Lemma prints_emit o : typed o -> prints (emit o) (λ _, True).
Proof.
  intros Ho w Hw. unfold emit. destruct (malloc (w_ok w)) as [ok m]. cbn. split.
  - apply Forall_app. split; [done|]. by apply Forall_singleton.
  - destruct ok; [done|by left].
Qed.

Lemma sdiv_1 w a : sdiv w a 1 = mret a.
Proof. unfold sdiv. cbn. by rewrite andb_false_r, Z.quot_1_r. Qed.
Lemma udiv_1 a : udiv a 1 = mret a.
Proof. unfold udiv. cbn. by rewrite Z.div_1_r. Qed.

(** The sizes that a print function takes. *)
Definition size_ok (pr : dt_pfprint_f) (size : Z) : Prop :=
  match pr with
  | pfprint_sint | pfprint_uint | pfprint_dint => size ∈ [1; 2; 4; 8]
  | pfprint_fp => size ∈ [4; 8; 16]
  | pfprint_addr => size ∈ [4; 8]
  | pfprint_uaddr => size ∈ [4; 8; 24]
  | pfprint_echr => size ∈ [1; 2; 4]
  | pfprint_average | pfprint_stddev | pfprint_mod | pfprint_umod | pfprint_quantize
  | pfprint_lquantize | pfprint_llquantize => False
  | _ => True
  end.

Ltac sizes H := repeat (apply elem_of_cons in H as [->|H]); [..|by apply elem_of_nil in H].

Lemma print_safe maxframes no_vector target pr format pfd data size : size_ok pr size -> printf_type format = print_type pr size ->
  prints (pfc_print_run maxframes no_vector target pr format pfd data size 1 0) (λ _, True).
Proof.
  intros Hs Ht.
  assert (forall s, print_type pr size = Some TStr -> prints (print_estr format s) (λ _, True)) as Hestr.
  { intros s Hty. unfold print_estr, try_malloc. intros w Hw. unfold mbind, pf_bind. destruct (malloc (w_ok w)) as [ok m].
    unfold strchr2esc. destruct ok.
    - apply prints_emit; [|done]. exists TStr. split; [by rewrite Ht|done].
    - split; [done|]. right. by left. }
  assert (forall w v, print_type pr size = arg_type (AInt w v) -> w = 32 \/ w = 64 -> prints (emit (OPrintf format (AInt w v))) (λ _, True)) as Hint.
  { intros w v Hty Hw. apply prints_emit. cbn [typed]. rewrite Ht, Hty. destruct Hw as [-> | ->]; by eexists. }
  assert (forall data, size ∈ [1; 2; 4; 8] -> pr ∈ [pfprint_sint; pfprint_uint; pfprint_dint] ->
    prints (print_sint format data size 1) (λ _, True) /\ prints (print_uint format data size 1) (λ _, True)) as Hints.
  { intros d Hsz Hpr. unfold print_sint, print_uint.
    sizes Hsz; cbn [Z.eqb Pos.eqb]; change (s32 (s64 1)) with 1; change (s64 1) with 1; change (u32 1) with 1;
      rewrite sdiv_1, udiv_1; split; (eapply (prints_bind _ _ (λ _, True)); [by apply prints_ret|]); intros v _; apply Hint; auto; sizes Hpr; done. }
  destruct pr; cbn [pfc_print_run size_ok] in *; try done; try (apply prints_emit; exists TStr; split; [by rewrite Ht|done]).
  - apply Hints; [done|by repeat constructor].
  - apply Hints; [done|by repeat constructor].
  - unfold print_dint. destruct (flag _ _); apply Hints; try done; by repeat constructor.
  - unfold print_fp. sizes Hs; cbn [Z.eqb Pos.eqb orb]; apply prints_emit; cbn [typed]; rewrite Ht; by eexists.
  - unfold print_addr. sizes Hs; cbn [Z.eqb Pos.eqb]; apply prints_emit; exists TStr; by rewrite Ht.
  - unfold print_uaddr. sizes Hs; cbn [Z.eqb Pos.eqb]; apply prints_emit; exists TStr; by rewrite Ht.
  - unfold print_stack. destruct (_ <? _); [apply prints_fail; by right; right|]. destruct (_ =? 0); [by apply prints_ret|].
    eapply (prints_bind _ _ (λ _, True)); [by apply prints_emit|]. intros _ _. apply prints_emit. cbn [typed]. by rewrite Ht.
  - apply prints_emit. exists TWstr. by rewrite Ht.
  - by apply Hestr.
  - unfold print_echr. sizes Hs; cbn [Z.eqb Pos.eqb orb]; by apply Hestr.
  - by apply prints_emit.
Qed.

(** ** Arguments *)

(** The C types by name. *)
Definition c_size (name : bytes) : option Z :=
  if named (Some name) ["short"; "signed short"; "unsigned short"]%string then Some 2
  else if named (Some name) ["long"; "signed long"; "unsigned long"; "long long"; "signed long long"; "unsigned long long"]%string
  then Some 8 else None.

(** The sizes of the types of a 64-bit program, and what a typedef is. *)
Class CTypes `{Ctf} := {
  c_named : forall fp t name size, ctf_type_name fp (ctf_type_resolve fp t) = Some name -> c_size name = Some size ->
    ctf_type_size fp t = size /\ ctf_type_kind fp (ctf_type_resolve fp t) = CTF_K_INTEGER;
  c_int64 : forall fp t, ctf_type_kind fp t = CTF_K_TYPEDEF -> named (ctf_type_name fp t) ["int64_t"; "uint64_t"]%string = true ->
    ctf_type_size fp t = 8 /\ ctf_type_kind fp (ctf_type_resolve fp t) = CTF_K_INTEGER;
  c_typedef : forall fp t, ctf_type_kind fp t = CTF_K_TYPEDEF ->
    ctf_type_size fp t = ctf_type_size fp (ctf_type_reference fp t) /\
    ctf_type_resolve fp t = ctf_type_resolve fp (ctf_type_reference fp t);
}.

Section Args.
Context `{!Ctf, !CtfLaws, !CTypes} (target : option Z).

Definition tsize (n : node) : Z := ctf_type_size (dn_ctfp n) (dn_type n).

(** An argument of printf(): a value that can be stored, and whose numbers have a size
    that the hardware has. *)
Record arg_wf (n : node) : Prop := {
  wf_static : dt_node_is_dynamic n = false;
  wf_const : dn_kind n = DT_NODE_STRING -> dt_node_is_string n = true;
  wf_string : dt_node_is_string n = true -> kind_of n = CTF_K_ARRAY;
  wf_int : dt_node_is_integer n = true -> tsize n ∈ [1; 2; 4; 8];
  wf_float : dt_node_is_float n = true -> tsize n ∈ [4; 8; 16];
  wf_pointer : kind_of n = CTF_K_POINTER -> tsize n = 8;
  wf_size : 0 <= tsize n < 2 ^ 32;
  wf_align : ctf_type_align (dn_ctfp n) (dn_type n) ∈ [1; 2; 4; 8];
  wf_stored : dt_node_is_scalar n || dt_node_is_float n || dt_node_is_string n || flag (dn_flags n) DT_NF_REF = true;
}.

(** The conversions that the checks admit although they cannot be printed: %a of what is
    not 4 or 8 bytes long and %A of what is not 4, 8 or 24 (small integers, arrays), %p of
    an array; and the two that are not conversions of printf(3). *)
Definition conv_arg_ok (pfc : dt_pfconv) (n : node) : Prop :=
  wide pfc = false /\
  (pfc_print pfc = pfprint_addr -> tsize n ∈ [4; 8]) /\
  (pfc_print pfc = pfprint_uaddr -> tsize n ∈ [4; 8; 24]) /\
  (pfc_check pfc = pfcheck_addr -> kind_of n <> CTF_K_ARRAY).

Lemma type_size_plain n : arg_wf n -> kind_of n <> CTF_K_ARRAY -> dt_node_type_size n = tsize n.
Proof.
  intros Hn Hk. unfold dt_node_type_size. destruct (Z.eqb_spec (dn_kind n) DT_NODE_STRING) as [E|E].
  - exfalso. by apply Hk, Hn, Hn.
  - by rewrite (wf_static n Hn).
Qed.

Lemma integer_not_array n : dt_node_is_integer n = true -> kind_of n <> CTF_K_ARRAY.
Proof. intros Hi. destruct (integer_kinds n Hi) as (_ & _ & _ & Hk). apply Hk. by repeat constructor. Qed.

Lemma float_not_array n : dt_node_is_float n = true -> kind_of n <> CTF_K_ARRAY.
Proof.
  unfold dt_node_is_float. intros [Hf%is_kind_true _]%andb_prop Hk.
  rewrite base_kind_other in Hf by (by rewrite Hk). congruence.
Qed.

Lemma named_short n : check_xshort n = true -> arg_wf n -> tsize n = 2 /\ kind_of n = CTF_K_INTEGER.
Proof.
  unfold check_xshort. destruct (resolved_name n) as [nm|] eqn:E; [|done]. intros Hn _.
  eapply c_named; [exact E|]. unfold c_size. by rewrite Hn.
Qed.

Lemma c_size_long nm l : named (Some nm) l = true ->
  l ⊆ ["long"; "signed long"; "unsigned long"; "long long"; "signed long long"; "unsigned long long"]%string ->
  exists size, c_size nm = Some size /\ size ∈ [2; 8].
Proof.
  intros Hn Hl. unfold c_size. destruct (named (Some nm) ["short"; _; _]%string); [exists 2; split; [done|by repeat constructor]|].
  assert (named (Some nm) ["long"; "signed long"; "unsigned long"; "long long"; "signed long long"; "unsigned long long"]%string = true) as ->.
  { unfold named in *. apply existsb_exists in Hn as (s & Hs & He). apply existsb_exists. exists s. split; [|done].
    unfold strings in *. apply in_map_iff in Hs as (x & <- & Hx). apply in_map_iff. exists x. split; [done|].
    apply list_elem_of_In, Hl. by apply list_elem_of_In. }
  exists 8. split; [done|by repeat constructor].
Qed.

Lemma named_long n l : named (resolved_name n) l = true ->
  l ⊆ ["long"; "signed long"; "unsigned long"; "long long"; "signed long long"; "unsigned long long"]%string ->
  tsize n ∈ [2; 8] /\ kind_of n = CTF_K_INTEGER.
Proof.
  destruct (resolved_name n) as [nm|] eqn:E; [|done]. intros Hn Hl.
  destruct (c_size_long nm l Hn Hl) as (size & Hs & Hin). unfold tsize. by destruct (c_named _ _ _ _ E Hs) as [-> ?].
Qed.

Lemma int64_typedef_size fuel : forall fp t, int64_typedef fuel fp t = true ->
  ctf_type_size fp t = 8 /\ ctf_type_kind fp (ctf_type_resolve fp t) = CTF_K_INTEGER.
Proof.
  induction fuel as [|fuel IH]; intros fp t; [done|]. cbn [int64_typedef].
  destruct (is_kind _ _) eqn:Hk; [|done]. apply is_kind_true in Hk. destruct (named _ _) eqn:Hn; [by intros; apply c_int64|].
  intros Hr%IH. destruct (c_typedef fp t Hk) as [-> ->]. done.
Qed.

Lemma named_longlong n : check_xlonglong n = true -> tsize n ∈ [2; 8] /\ kind_of n = CTF_K_INTEGER.
Proof.
  unfold check_xlonglong. destruct (named _ _) eqn:E.
  - intros _. eapply named_long; [exact E|]. intros x Hx. sizes Hx; by repeat constructor.
  - intros [Hs Hk]%int64_typedef_size. unfold tsize. rewrite Hs. split; [by repeat constructor|done].
Qed.

(** [pfc] is an entry of the table with its types. *)
Context (dtrace_lookup_by_type : type_obj -> bytes -> option ctf_type).
(** The D types have their sizes. *)
Definition d_types_ok : Prop := forall name size kind t, (name, (size, kind)) ∈ d_types ->
  dtrace_lookup_by_type DDEFS (lit name) = Some t ->
  ctf_type_size (ct_fp t) (ct_id t) = size /\ ctf_type_kind (ct_fp t) (ctf_type_resolve (ct_fp t) (ct_id t)) = kind.

Lemma compat_type pfd pfc e n name size kind : d_types_ok -> pf_types dtrace_lookup_by_type e = Ok pfc ->
  pfd_conv pfd = Some pfc -> pfc_check e = pfcheck_type -> lit name = pfc_tstr e -> (name, (size, kind)) ∈ d_types ->
  check_type pfd n = true -> tsize n = size /\ kind_of n = kind.
Proof.
  intros Hd Ht Hc Hck Hname Hin. unfold check_type. rewrite Hc. unfold pf_types in Ht. rewrite decide_True in Ht by done.
  destruct (dtrace_lookup_by_type DDEFS (pfc_tstr e)) as [t|] eqn:El; [|done]. injection Ht as <-. cbn [pfc_d].
  rewrite <- Hname in El. destruct (Hd _ _ _ _ Hin El) as [<- <-]. intros Hcomp. split.
  - apply ctf_compat_size in Hcomp. by rewrite ctf_resolve_size in Hcomp.
  - apply ctf_compat_kind in Hcomp. by rewrite ctf_resolve_idem in Hcomp.
Qed.


(** The fields that the checks leave alone. *)
Definition same_argd (pfd pfd' : dt_pfargd) : Prop :=
  pfd_prefix pfd' = pfd_prefix pfd /\ pfd_conv pfd' = pfd_conv pfd /\ pfd_width pfd' = pfd_width pfd /\ pfd_prec pfd' = pfd_prec pfd /\
  forall f, f ∈ [DT_PFCONV_DYNWIDTH; DT_PFCONV_DYNPREC; DT_PFCONV_AGG] -> flag (pfd_flags pfd') f = flag (pfd_flags pfd) f.

Lemma check_run_same ck pfd n ok pfd' : pfc_check_run target ck pfd n = (ok, pfd') -> same_argd pfd pfd'.
Proof.
  assert (same_argd pfd pfd) as Hs by done.
  assert (same_argd pfd (check_dint pfd n)) as Hd.
  { unfold check_dint. destruct (flag (dn_flags n) _); [|done]. split_and!; try done. intros f Hf. cbn [set_flags pfd_flags].
    unfold flag. rewrite Z.land_lor_distr_l. by sizes Hf; rewrite Z.lor_0_r. }
  destruct ck; cbn; by intros [= _ <-].
Qed.

Lemma check_run_fmt pfd pfc n ok pfd' : pfd_conv pfd = Some pfc ->
  pfc_check_run target (pfc_check pfc) pfd n = (ok, pfd') ->
  pfd_fmt pfd' = if bool_decide (pfc_check pfc = pfcheck_dint) && negb (flag (dn_flags n) DT_NF_SIGNED)
                 then unsigned_fmt (pfd_fmt pfd) else pfd_fmt pfd.
Proof.
  intros _. destruct (pfc_check pfc) eqn:E; cbn; intros [= _ <-]; try done.
  unfold check_dint. by destruct (flag _ _).
Qed.

(** The size of an argument whose integer is printed. *)
Lemma int_arg pfd pfc e n pfd' : d_types_ok -> pf_types dtrace_lookup_by_type e = Ok pfc -> entry_spec pfc ->
  pfd_conv pfd = Some pfc -> arg_wf n -> conv_arg_ok pfc n -> prints_int (pfc_print pfc) = true ->
  pfc_check_run target (pfc_check pfc) pfd n = (true, pfd') ->
  tsize n ∈ [1; 2; 4; 8] /\ kind_of n <> CTF_K_ARRAY /\ (narrow pfc = true -> tsize n <> 8).
Proof.
  intros Hd Ht Hs Hc Hn (_ & _ & _ & Harr) Hi.
  assert (dt_node_is_integer n = true -> tsize n ∈ [1; 2; 4; 8] /\ kind_of n <> CTF_K_ARRAY) as Hint.
  { intros Hint. split; [by apply Hn|by apply integer_not_array]. }
  assert (tsize n ∈ [2; 8] /\ kind_of n = CTF_K_INTEGER -> tsize n ∈ [1; 2; 4; 8] /\ kind_of n <> CTF_K_ARRAY) as H28.
  { intros [Hz ->]. split; [|done]. revert Hz. generalize (tsize n). intros z Hz. sizes Hz; by repeat constructor. }
  assert (pfc_check pfc <> pfcheck_csi -> pfc_check pfc <> pfcheck_type -> narrow pfc = true -> tsize n <> 8) as Hnar.
  { intros N1 N2 Hw. by destruct (en_narrow _ Hs Hw) as [_ []]. }
  intros Hrun. destruct (en_int _ Hs Hi) as [Hck|(Hck & name & size & Hin & Hname & H4)].
  - destruct (pfc_check pfc) eqn:E; try (exfalso; revert Hck; apply (bool_decide_eq_false_1 _); reflexivity);
      cbn in Hrun; injection Hrun as Hrun _.
    + (* %p *) unfold check_addr in Hrun. apply orb_prop in Hrun as [[Hp _]%andb_prop|Hrun]; [|by destruct (Hint Hrun); split_and!; auto].
      unfold dt_node_is_pointer in Hp. destruct (dt_node_is_string n); [done|]. specialize (Harr eq_refl).
      unfold is_pointer_kind in Hp. apply orb_prop in Hp as [Hp%is_kind_true|Hp%is_kind_true]; [|done].
      rewrite (wf_pointer n Hn Hp). split_and!; [by repeat constructor|done|].
      intros Hw. destruct (en_narrow _ Hs Hw) as [_ [?|?]]; congruence.
    + (* %c *) unfold check_csi in Hrun. apply andb_prop in Hrun as [HA HB]. destruct (Hint HA) as [Hz Ha]. split_and!; [done..|].
      rewrite type_size_plain in HB by done. b2p. lia.
    + by destruct (Hint Hrun); split_and!; auto.
    + by destruct (Hint Hrun); split_and!; auto.
    + destruct (named_short n Hrun Hn) as [Hz Hk]. destruct H28; [rewrite Hz; split; [by repeat constructor|done]|]. split_and!; auto.
    + destruct H28; [eapply named_long; [exact Hrun|]; intros x Hx; sizes Hx; by repeat constructor|]. split_and!; auto.
    + destruct H28; [by apply named_longlong|]. split_and!; auto.
  - rewrite Hck in Hrun. cbn in Hrun. injection Hrun as Hrun _.
    destruct (pf_types_name _ _ _ Ht) as (_ & _ & Eck & _ & Ets).
    destruct (compat_type pfd pfc e n name size CTF_K_INTEGER) as [Hz Hk]; try done; [congruence..|].
    rewrite Hz, Hk. split_and!; [|done|].
    + clear -Hin. unfold d_types in Hin.
      repeat (apply elem_of_cons in Hin as [Hin|Hin]; [simplify_eq; by repeat constructor|]). by apply elem_of_nil in Hin.
    + intros Hw. rewrite (H4 Hw). done.
Qed.

(** The argument fits what the print function takes, and the format fits what it gives
    printf(3). *)
Lemma conv_checked pfd pfc e n pfd' : d_types_ok -> e ∈ _dtrace_conversions -> pf_types dtrace_lookup_by_type e = Ok pfc ->
  pfd_conv pfd = Some pfc -> pfd_fmt pfd = [] -> pfc_print pfc <> pfprint_pct -> arg_wf n -> conv_arg_ok pfc n ->
  pfc_check_run target (pfc_check pfc) (set_fmt pfd (proposed_fmt pfd pfc n)) n = (true, pfd') ->
  size_ok (pfc_print pfc) (tsize n) /\ conv_type (pfd_fmt pfd') = print_type (pfc_print pfc) (tsize n) /\
  starts_plain (pfd_fmt pfd') = true /\ same_argd pfd pfd'.
Proof.
  intros Hd Hin Ht Hc Hfmt Hpct Hn Hok Hrun.
  pose proof (entry_spec_of pfc (entry_of _ _ _ Hin Ht) (proj1 Hok) Hpct) as Hs.
  pose proof (check_run_same _ _ _ _ _ Hrun) as Hsame.
  pose proof (check_run_fmt _ _ _ _ _ (Hc : pfd_conv (set_fmt pfd _) = Some pfc) Hrun) as Hf.
  assert (prints_int (pfc_print pfc) = true -> tsize n ∈ [1; 2; 4; 8] /\ kind_of n <> CTF_K_ARRAY /\ (narrow pfc = true -> tsize n <> 8)) as Hint.
  { intros Hi. exact (int_arg (set_fmt pfd (proposed_fmt pfd pfc n)) pfc e n pfd' Hd Ht Hs Hc Hn Hok Hi Hrun). }
  assert (pfc_print pfc = pfprint_fp -> tsize n ∈ [4; 8; 16] /\ kind_of n <> CTF_K_ARRAY) as Hfp.
  { intros Hfp. destruct (en_fp _ Hs Hfp) as [Hck|(Hck & name & Hnm & Hname)]; rewrite Hck in Hrun; cbn in Hrun; injection Hrun as Hrun _.
    - split; [by apply Hn|by apply float_not_array].
    - destruct (pf_types_name _ _ _ Ht) as (_ & _ & Eck & _ & Ets).
      destruct (compat_type (set_fmt pfd (proposed_fmt pfd pfc n)) pfc e n name 16 CTF_K_FLOAT) as [-> ->]; try done; [congruence..|].
      split; [by repeat constructor|done]. }
  assert (pfc_print pfc = pfprint_echr -> tsize n ∈ [1; 2; 4]) as Hechr.
  { intros He. rewrite (en_echr _ Hs He) in Hrun. cbn in Hrun. injection Hrun as Hrun _. unfold check_csi in Hrun.
    apply andb_prop in Hrun as [HA HB]. rewrite type_size_plain in HB by (done || by apply integer_not_array).
    pose proof (wf_int n Hn HA) as Hz. revert Hz HB. generalize (tsize n). intros z Hz HB. sizes Hz; try by repeat constructor. }
  assert (pfd_fmt pfd' = final_fmt pfc (tsize n) (flag (dn_flags n) DT_NF_SIGNED)) as Hfinal.
  { rewrite Hf. unfold final_fmt. cbn [set_fmt pfd_fmt]. unfold proposed_fmt. rewrite Hfmt. fold (prints_int (pfc_print pfc)).
    destruct (prints_int (pfc_print pfc)) eqn:Hi; [by rewrite type_size_plain by (done || by apply Hint)|].
    destruct (bool_decide (pfc_print pfc = pfprint_fp)) eqn:Hp; [|done]. apply bool_decide_eq_true in Hp.
    by rewrite type_size_plain by (done || by apply Hfp). }
  assert (narrow pfc = true -> tsize n <> 8) as Hnar.
  { intros Hw. destruct (en_narrow _ Hs Hw) as [Hi _]. by apply Hint. }
  destruct (en_format _ Hs (tsize n) (flag (dn_flags n) DT_NF_SIGNED) Hnar) as [Hty Hst].
  rewrite Hfinal. split_and!; [|done|done|].
  - pose proof (en_plain _ Hs) as Hpl. destruct Hok as (_ & Ha & Hu & _).
    destruct (pfc_print pfc); cbn [size_ok] in *;
      first [done | (by apply Hint) | (by apply Hfp) | (by apply Ha) | (by apply Hu) | (by apply Hechr) |
             exfalso; apply Hpl; by repeat constructor].
  - destruct Hsame as (S1 & S2 & S3 & S4 & S5). by split_and!.
Qed.

End Args.

(** ** Records *)

Lemma align_down k x : 0 <= k -> 0 <= x < 2 ^ 32 ->
  Z.land x (u32 (Z.lnot (2 ^ k - 1))) = x - x `mod` 2 ^ k.
Proof.
  intros Hk Hx. unfold wrapu. rewrite <- Z.land_ones by lia. rewrite (Z.land_comm (Z.lnot _)), Z.land_assoc.
  rewrite Z.land_ones, Z.mod_small by lia. replace (2 ^ k - 1) with (Z.ones k) by (rewrite Z.ones_equiv; lia).
  fold (Z.ldiff x (Z.ones k)). rewrite <- Z.ldiff_land, Z.ldiff_ones_r, Z.shiftl_mul_pow2, Z.shiftr_div_pow2 by lia.
  pose proof (Z.div_mod x (2 ^ k) ltac:(lia)). lia.
Qed.

Lemma align_pow a : a ∈ [1; 2; 4; 8] -> exists k, 0 <= k <= 3 /\ a = 2 ^ k.
Proof. intros Ha. sizes Ha; [exists 0|exists 1|exists 2|exists 3]; (split; [lia|done]). Qed.

Lemma dt_rec_add_ok m p kind size al arg p' m' : dt_rec_add m p kind size al arg = Some (p', m') ->
  al ∈ [1; 2; 4; 8] -> 0 <= size -> 0 <= pcb_bufoff p -> pcb_bufoff p + size + 8 < 2 ^ 32 ->
  exists off, pcb_recs p' = pcb_recs p ++ [RecDesc kind size off al arg] /\ pcb_bufoff p' = off + size /\
    pcb_bufoff p <= off < pcb_bufoff p + 8 /\ off `mod` al = 0.
Proof.
  unfold dt_rec_add. intros H Ha Hs Hb Hf. destruct (align_pow al Ha) as (k & Hk & ->).
  assert (1 <= 2 ^ k <= 8) as Hp by (destruct (decide (k = 0)) as [->|]; [lia|]; destruct (decide (k = 1)) as [->|]; [lia|]; destruct (decide (k = 2)) as [->|]; [lia|]; replace k with 3 by lia; lia).
  match type of H with (?x ≫= _) = _ => destruct x as [[nmax m1]|]; [|done] end. cbn in H. injection H as <- <-.
  rewrite (wrapu_small 32 (pcb_bufoff p + (2 ^ k - 1))) by lia. rewrite align_down by lia.
  set (x := pcb_bufoff p + (2 ^ k - 1)). pose proof (Z.mod_pos_bound x (2 ^ k) ltac:(lia)) as Hm. pose proof (Z.div_mod x (2 ^ k) ltac:(lia)) as Hd.
  exists (x - x `mod` 2 ^ k). cbn [pcb_recs pcb_bufoff]. split_and!; [done|rewrite wrapu_small; lia|lia|lia|].
  replace (x - x `mod` 2 ^ k) with (x / 2 ^ k * 2 ^ k) by lia. apply Z.mod_mul. lia.
Qed.

Section Stored.
Context `{!Ctf, !CtfLaws, !CTypes}.

(** The record of an argument, in the first [lim] bytes of the buffer. *)
Record rec_for (kind lim : Z) (n : node) (r : recdesc) : Prop := {
  rf_action : dtrd_action r = kind;
  rf_size : dtrd_size r = tsize n;
  rf_align : dtrd_alignment r ∈ [1; 2; 4; 8];
  rf_aligned : dtrd_offset r `mod` dtrd_alignment r = 0;
  rf_in : 0 <= dtrd_offset r /\ dtrd_offset r + dtrd_size r <= lim;
}.

Definition total_size (args : list node) : Z := foldr (λ n s, tsize n + 8 + s) 0 args.

Lemma store_val_ok m p n kind p' m' : arg_wf n -> store_val_rec m p n kind = Some (p', m') ->
  0 <= pcb_bufoff p -> pcb_bufoff p + tsize n + 8 < 2 ^ 32 ->
  exists r, pcb_recs p' = pcb_recs p ++ [r] /\ rec_for kind (pcb_bufoff p') n r /\
    pcb_bufoff p <= pcb_bufoff p' < pcb_bufoff p + tsize n + 8.
Proof.
  intros Hn Hst Hb Hf. pose proof (wf_size n Hn) as Hz.
  assert (dtdt_size n = tsize n) as Es by (apply wrapu_small; exact Hz).
  assert (dtdt_align n ∈ [1; 2; 4; 8]) as Ha.
  { unfold dtdt_align. pose proof (wf_align n Hn) as Hal. revert Hal. generalize (ctf_type_align (dn_ctfp n) (dn_type n)).
    intros z Hal. sizes Hal; by repeat constructor. }
  assert (exists al, al ∈ [1; 2; 4; 8] /\ dt_rec_add m p kind (tsize n) al 0 = Some (p', m')) as (al & Hal & Hadd).
  { unfold store_val_rec in Hst. pose proof (wf_stored n Hn) as Hw. rewrite Es in Hst.
    destruct (dt_node_is_scalar n || dt_node_is_float n); [by eexists|]. cbn [orb] in Hw.
    destruct (dt_node_is_string n); [exists 1; split; [by repeat constructor|done]|]. cbn [orb] in Hw. rewrite Hw in Hst. by eexists. }
  destruct (dt_rec_add_ok _ _ _ _ _ _ _ _ Hadd Hal) as (off & Hr & Hbo & Hof & Hmod); [lia..|].
  eexists. split; [exact Hr|]. split; [|lia]. split; cbn; [done..|lia].
Qed.

Lemma rec_for_mono kind lim lim' n r : rec_for kind lim n r -> lim <= lim' -> rec_for kind lim' n r.
Proof. intros [? ? ? ? ?] Hl. split; try done. lia. Qed.

Lemma store_args_ok kind args : forall m p p' m', Forall arg_wf args -> store_args m p kind args = Some (p', m') ->
  0 <= pcb_bufoff p -> pcb_bufoff p + total_size args < 2 ^ 32 ->
  exists rl, pcb_recs p' = pcb_recs p ++ rl /\ Forall2 (rec_for kind (pcb_bufoff p')) args rl /\ pcb_bufoff p <= pcb_bufoff p'.
Proof.
  induction args as [|n args IH]; intros m p p' m' Hwf Hst Hb Hf; cbn [store_args total_size foldr] in *.
  - injection Hst as <- <-. exists []. rewrite app_nil_r. done.
  - apply Forall_cons_1 in Hwf as [Hn Hwf]. fold (total_size args) in Hf.
    destruct (store_val_rec m p n kind) as [[p1 m1]|] eqn:E; [|done]. cbn in Hst.
    assert (0 <= total_size args) as Ht.
    { clear -Hwf. induction Hwf as [|x l Hx _ IHl]; cbn; [lia|]. fold (total_size l). pose proof (wf_size x Hx). lia. }
    pose proof (wf_size n Hn). destruct (store_val_ok _ _ _ _ _ _ Hn E) as (r & Hr & Hrf & Hb1); [lia..|].
    destruct (IH _ _ _ _ Hwf Hst) as (rl & Hrl & Hall & Hb2); [lia..|].
    exists (r :: rl). split_and!; [by rewrite Hrl, Hr, <- app_assoc| |lia]. constructor; [|done]. eapply rec_for_mono; [exact Hrf|lia].
Qed.

End Stored.

(** ** The loop *)

(** The arguments that the conversions print. *)
Fixpoint conv_args (argv : list dt_pfargd) (args : list node) : list (dt_pfconv * node) :=
  match argv with
  | [] => []
  | pfd :: argv =>
      match pfd_conv pfd with
      | None => conv_args argv args
      | Some pfc =>
          if bool_decide (pfc_print pfc = pfprint_pct) then conv_args argv args
          else match drop (dync pfd) args with
               | n :: args => (pfc, n) :: conv_args argv args
               | [] => []
               end
      end
  end.

Section Loop.
Context `{!Ctf, !CtfLaws, !CTypes}.
Context (maxframes : Z) (no_vector : bool) (target : option Z).
Context (dtrace_lookup_by_type : type_obj -> bytes -> option ctf_type).
Context (kind : Z) (Hkind : kind ∈ [3; 0x203; 0x204]).
Context (pfv : dt_pfargv) (Hflags : pfv_flags pfv = DT_PRINTF_EXACTLEN).
Context (buf : buffer) (lim : Z) (Hlim : lim <= Z.of_nat (length (b_data buf))) (Hbase : b_addr buf `mod` 8 = 0).

Lemma not_printa : is_printa pfv = false.
Proof. unfold is_printa. by rewrite Hflags. Qed.

Lemma in_place n r : rec_for kind lim n r ->
  (Z.of_nat (length (b_data buf)) <? dtrd_offset r + dtrd_size r) = false /\
  misaligned (b_addr buf + dtrd_offset r) (dtrd_alignment r) = false.
Proof.
  intros Hr. split; [apply Z.ltb_ge; destruct (rf_in _ _ _ _ Hr); lia|].
  unfold misaligned. destruct (align_pow _ (rf_align _ _ _ _ Hr)) as (k & Hk & Ek). pose proof (rf_aligned _ _ _ _ Hr) as Hm. rewrite Ek in *.
  replace (2 ^ k - 1) with (Z.ones k) by (rewrite Z.ones_equiv; lia). rewrite Z.land_ones by lia.
  assert ((b_addr buf) `mod` 2 ^ k = 0) as Hb.
  { apply Z.mod_divide in Hbase as [q Hq]; [|lia]. rewrite Hq. replace 8 with (2 ^ (3 - k) * 2 ^ k) by (rewrite <- Z.pow_add_r by lia; by replace (3 - k + k) with 3 by lia).
    rewrite Z.mul_assoc. apply Z.mod_mul. lia. }
  rewrite Z.add_mod, Hb, Hm by lia. by rewrite Z.mod_0_l by lia.
Qed.

Lemma getint_safe n r rl : arg_wf n -> dt_node_is_integer n = true -> rec_for kind lim n r ->
  prints (dt_printf_getint (r :: rl) buf) (λ x, snd x = rl).
Proof.
  intros Hn Hi Hr. destruct (in_place n r Hr) as [E1 E2]. unfold dt_printf_getint. rewrite E1, E2.
  rewrite (rf_size _ _ _ _ Hr). pose proof (wf_int n Hn Hi) as Hz. revert Hz. generalize (tsize n). intros z Hz.
  sizes Hz; cbn [Z.eqb Pos.eqb]; by apply prints_ret.
Qed.

(** The arguments of a conversion, and what is left of the records. *)
Lemma validate_one_spec aggnode pfd pfc args pfd' rest : pfd_conv pfd = Some pfc -> pfc_print pfc <> pfprint_pct ->
  validate_one target DT_PRINTF_EXACTLEN aggnode pfd args = Ok (pfd', rest) ->
  flag (pfd_flags pfd) DT_PFCONV_AGG = false /\
  exists dyn n, args = dyn ++ n :: rest /\ length dyn = dync pfd /\ Forall (λ n, dt_node_is_integer n = true) dyn /\
    pfc_check_run target (pfc_check pfc) (set_fmt pfd (proposed_fmt pfd pfc n)) n = (true, pfd').
Proof.
  intros Hc Hp. unfold validate_one. rewrite Hc, bool_decide_eq_false_2 by done. intros Hv. inv_bind Hv.
  assert (forall k l l', dyn_args k l = Ok l' -> exists dyn, l = dyn ++ l' /\ length dyn = k /\ Forall (λ n, dt_node_is_integer n = true) dyn) as Hdyn.
  { induction k as [|k IH]; intros l l'; cbn [dyn_args]; [intros [= ->]; by exists []|].
    destruct l as [|x l]; [done|]. destruct (dt_node_is_integer x) eqn:Ex; [|done]. intros (dyn & -> & <- & Hd)%IH.
    exists (x :: dyn). split_and!; [done..|]. by constructor. }
  destruct (Hdyn _ _ _ Hr) as (dyn & -> & Hl & Hint). inv_bind Hv. destruct r0 as [n rest'].
  destruct (flag (pfd_flags pfd) DT_PFCONV_AGG); [done|]. split; [done|].
  destruct r as [|x r]; [done|]. injection Hr0 as <- <-.
  destruct (pfc_check_run _ _ _ _) as [ok pfd1] eqn:E. destruct ok; [|done]. injection Hv as <- <-. by exists dyn, x.
Qed.

(** The record of a checked argument. *)
Lemma print_record_safe last pfd pfd' pfc n r rl ca width dynwidth prec : same_argd pfd pfd' -> flag (pfd_flags pfd) DT_PFCONV_AGG = false ->
  size_ok (pfc_print pfc) (tsize n) -> conv_type (pfd_fmt pfd') = print_type (pfc_print pfc) (tsize n) -> starts_plain (pfd_fmt pfd') = true ->
  rec_for kind lim n r ->
  prints (print_record maxframes no_vector target pfv buf None last pfd' pfc width dynwidth prec (Cursor (r :: rl) ca)) (λ c, cu_recs c = rl).
Proof.
  intros (_ & _ & _ & _ & Hfl) Hagg Hsize Hty Hpl Hr. destruct (in_place n r Hr) as [Hlt Hal]. unfold print_record, select_record.
  rewrite Hfl by (by repeat constructor). rewrite Hagg, not_printa. cbn [cu_recs cu_agg].
  eapply (prints_bind _ _ (λ s, s = Selected r buf true 1 0 0 (Cursor rl ca))); [by apply prints_ret|]. intros s ->.
  cbn [se_limit se_buf se_rec se_normal se_sig se_next]. rewrite Hlt, Hal, !andb_false_r.
  assert (print_func (dtrd_action r) pfc = pfc_print pfc) as ->.
  { rewrite (rf_action _ _ _ _ Hr). clear -Hkind. revert Hkind. generalize kind. intros k Hk. by sizes Hk. }
  rewrite (rf_size _ _ _ _ Hr). eapply (prints_bind _ _ (λ _, True)).
  - apply print_safe; [done|]. rewrite printf_type_out_format by done. done.
  - intros _ _. eapply (prints_bind _ _ (λ _, True)); [by apply prints_ret|]. intros _ _. by apply prints_ret.
Qed.

(** The integers of the dynamic width and precision come first. *)
Lemma dyn_safe pfd pfd' dyn rd rl (Q : cursor -> Prop) (c : Z -> Z -> Z -> list recdesc -> pf cursor) : same_argd pfd pfd' ->
  length dyn = dync pfd -> Forall arg_wf dyn -> Forall (λ n, dt_node_is_integer n = true) dyn -> Forall2 (rec_for kind lim) dyn rd ->
  (forall width dynwidth prec, prints (c width dynwidth prec rl) Q) ->
  prints ('(width, dynwidth, recs) ← dyn_width buf pfd' (rd ++ rl); '(prec, recs) ← dyn_prec buf pfd' recs; c width dynwidth prec recs) Q.
Proof.
  intros (_ & _ & _ & _ & Hfl) Hlen Hwf Hint Hrd Hc. unfold dyn_width, dyn_prec. rewrite !Hfl by (by repeat constructor).
  unfold dync in Hlen.
  assert (forall prec_dyn dyn rd width dynwidth, length dyn = (if prec_dyn : bool then 1 else 0)%nat -> Forall arg_wf dyn -> Forall (λ n, dt_node_is_integer n = true) dyn ->
    Forall2 (rec_for kind lim) dyn rd -> prints ('(prec, recs) ← (if prec_dyn then dt_printf_getint (rd ++ rl) buf else mret (pfd_prec pfd', rd ++ rl)); c width dynwidth prec recs) Q) as Hprec.
  { intros [] d r' w dw Hl Hw Hi Hrr.
    - destruct d as [|n [|]]; try done. apply Forall2_cons_inv_l in Hrr as (r & ? & Hr & ->%Forall2_nil_inv_l & ->).
      eapply prints_bind; [eapply getint_safe; [by eapply Forall_inv|by eapply (Forall_inv Hi)|done]|]. intros [p rs] E. cbn in E. by subst rs.
    - destruct d; [|done]. apply Forall2_nil_inv_l in Hrr as ->. eapply (prints_bind _ _ (λ x, snd x = rl)); [by apply prints_ret|]. intros [p rs] E. cbn in E. by subst rs. }
  destruct (flag (pfd_flags pfd) DT_PFCONV_DYNWIDTH).
  - destruct dyn as [|n dyn]; [by destruct (flag _ _)|]. apply Forall2_cons_inv_l in Hrd as (r & rd' & Hr & Hrd & ->). cbn [app].
    apply Forall_cons_1 in Hwf as [Hn Hwf]. apply Forall_cons_1 in Hint as [Hi Hint].
    eapply (prints_bind _ _ (λ x, snd x = rd' ++ rl)).
    + eapply prints_bind; [by eapply getint_safe|]. intros [w rs] E. cbn in E. subst rs. by apply prints_ret.
    + intros [[w dw] rs] E. cbn in E. subst rs. apply (Hprec _ dyn rd'); try done. cbn in Hlen. by destruct (flag _ _); lia.
  - eapply (prints_bind _ _ (λ x, snd x = rd ++ rl)); [by apply prints_ret|]. intros [[w dw] rs] E. cbn in E. subst rs.
    apply (Hprec _ dyn rd); try done. by destruct (flag _ _); lia.
Qed.

Lemma print_conv_safe aggnode last pfd pfc e args pfd' rest rl : d_types_ok dtrace_lookup_by_type ->
  e ∈ _dtrace_conversions -> pf_types dtrace_lookup_by_type e = Ok pfc -> pfd_conv pfd = Some pfc -> pfd_fmt pfd = [] ->
  pfc_print pfc <> pfprint_pct -> validate_one target DT_PRINTF_EXACTLEN aggnode pfd args = Ok (pfd', rest) ->
  Forall arg_wf args -> Forall2 (rec_for kind lim) args rl -> (forall n, head (drop (dync pfd) args) = Some n -> conv_arg_ok pfc n) ->
  exists rl', Forall2 (rec_for kind lim) rest rl' /\ forall extra ca,
    prints (print_conv maxframes no_vector target pfv buf None last pfd' pfc (Cursor (rl ++ extra) ca)) (λ c, cu_recs c = rl' ++ extra).
Proof.
  intros Hd Hin Ht Hc Hfmt Hp Hv Hwf Hrl Hok.
  destruct (validate_one_spec _ _ _ _ _ _ Hc Hp Hv) as (Hagg & dyn & n & -> & Hlen & Hint & Hrun).
  rewrite <- Hlen, drop_app_length in Hok. specialize (Hok n eq_refl).
  apply Forall_app in Hwf as [Hwd Hwf]. apply Forall_cons_1 in Hwf as [Hn Hwr].
  apply Forall2_app_inv_l in Hrl as (rd & rn & Hrd & Hrn & ->).
  apply Forall2_cons_inv_l in Hrn as (r & rl' & Hr & Hrr & ->). exists rl'. split; [done|]. intros extra ca.
  destruct (conv_checked target _ _ _ _ _ _ Hd Hin Ht Hc Hfmt Hp Hn Hok Hrun) as (Hsize & Hty & Hpl & Hsame).
  rewrite <- app_assoc. unfold print_conv. cbn [cu_recs cu_agg app].
  apply (dyn_safe pfd pfd' dyn rd (r :: rl' ++ extra) _ (λ w dw p recs, print_record maxframes no_vector target pfv buf None last pfd' pfc w dw p (Cursor recs ca))); try done.
  intros w dw pr. by eapply print_record_safe.
Qed.

(** A descriptor as it was read: its conversion is an entry of the table. *)
Definition argd_wf (pfd : dt_pfargd) : Prop :=
  pfd_fmt pfd = [] /\ forall pfc, pfd_conv pfd = Some pfc ->
    exists e, e ∈ _dtrace_conversions /\ pf_types dtrace_lookup_by_type e = Ok pfc.

Lemma prefix_safe last pfd : prints (print_prefix pfv last pfd) (λ _, True).
Proof.
  unfold print_prefix. rewrite not_printa. destruct (pfd_prefix pfd); [by apply prints_ret|].
  eapply (prints_bind _ _ (λ _, True)); [by apply prints_emit|]. intros _ _. by apply prints_ret.
Qed.

Lemma validate_one_same aggnode pfd args pfd' rest : validate_one target DT_PRINTF_EXACTLEN aggnode pfd args = Ok (pfd', rest) ->
  same_argd pfd pfd' /\
  match pfd_conv pfd with
  | Some pfc => pfc_print pfc = pfprint_pct -> rest = args
  | None => rest = args
  end.
Proof.
  intros Hv. destruct (pfd_conv pfd) as [pfc|] eqn:E; [|unfold validate_one in Hv; rewrite E in Hv; by injection Hv as <- <-].
  destruct (decide (pfc_print pfc = pfprint_pct)) as [Hp|Hp].
  - unfold validate_one in Hv. rewrite E, bool_decide_eq_true_2 in Hv by done. by injection Hv as <- <-.
  - destruct (validate_one_spec _ _ _ _ _ _ E Hp Hv) as (_ & dyn & n & _ & _ & _ & Hrun).
    split; [|done]. pose proof (check_run_same _ _ _ _ _ _ Hrun) as (E1 & E2 & E3 & E4 & E5). by split_and!.
Qed.

Lemma loop_safe aggnode argv : d_types_ok dtrace_lookup_by_type -> Forall argd_wf argv ->
  (length (pfv_argv pfv) = 1%nat -> Forall (λ pfd, pfd_conv pfd <> None) argv) -> forall args argv' rest rl,
  validate_loop target DT_PRINTF_EXACTLEN aggnode argv args = Ok (argv', rest) -> Forall arg_wf args ->
  Forall2 (rec_for kind lim) args rl -> Forall (uncurry conv_arg_ok) (conv_args argv' args) ->
  exists rl', Forall2 (rec_for kind lim) rest rl' /\ forall extra ca,
    prints (format_loop maxframes no_vector target pfv buf None argv' (Cursor (rl ++ extra) ca))
      (λ r, match r with inl _ => False | inr c => cu_recs c = rl' ++ extra end).
Proof.
  intros Hd Hargv. induction Hargv as [|pfd argv [Hfmt Hentry] Hargv IH]; intros Hone args argv' rest rl Hv Hwf Hrl Hok; cbn [validate_loop] in Hv.
  { injection Hv as <- <-. exists rl. split; [done|]. intros extra ca. by apply prints_ret. }
  inv_bind Hv. destruct r as [pfd' mid]. inv_bind Hv. destruct r as [argv1 rest1]. injection Hv as <- <-.
  destruct (validate_one_same _ _ _ _ _ Hr) as [Hsame Hmid]. pose proof Hsame as (_ & Ec & _ & _ & Hfl).
  assert (dync pfd' = dync pfd) as Edync by (unfold dync; by rewrite !Hfl by (by repeat constructor)).
  assert (length (pfv_argv pfv) = 1%nat -> Forall (λ pfd, pfd_conv pfd <> None) argv) as Hone'.
  { intros E. specialize (Hone E). by apply Forall_cons_1 in Hone as [_ ?]. }
  cbn [format_loop conv_args] in *. rewrite Ec in *. rewrite Edync in Hok.
  assert (forall (c : pf (Z + cursor)) Q, prints c Q -> prints (print_prefix pfv (bool_decide (argv1 = [])) pfd';; c) Q) as Hpre.
  { intros c Q Hc. eapply prints_bind; [apply prefix_safe|]. by intros _ _. }
  destruct (pfd_conv pfd) as [pfc|] eqn:Epfc.
  - destruct (bool_decide (pfc_print pfc = pfprint_pct)) eqn:Hp; [apply bool_decide_eq_true in Hp|apply bool_decide_eq_false in Hp].
    + rewrite (Hmid Hp) in *. destruct (IH Hone' _ _ _ _ Hr0 Hwf Hrl Hok) as (rl' & Hrl' & Hsafe).
      exists rl'. split; [done|]. intros extra ca. apply Hpre. eapply (prints_bind _ _ (λ _, True)); [by apply prints_emit|]. by intros _ _.
    + destruct (Hentry pfc eq_refl) as (e & Hin & Ht).
      destruct (print_conv_safe aggnode (bool_decide (argv1 = [])) pfd pfc e args pfd' mid rl) as (rm & Hrm & Hconv); try done.
      { intros n Hn. destruct (drop (dync pfd) args); [done|]. injection Hn as ->. by apply Forall_cons_1 in Hok as [? _]. }
      destruct (validate_one_spec _ _ _ _ _ _ Epfc Hp Hr) as (_ & dyn & n & -> & Hlen & _ & _).
      rewrite <- Hlen, drop_app_length in Hok. apply Forall_cons_1 in Hok as [_ Hok].
      apply Forall_app in Hwf as [_ Hwf]. apply Forall_cons_1 in Hwf as [_ Hwf].
      destruct (IH Hone' _ _ _ _ Hr0 Hwf Hrm Hok) as (rl' & Hrl' & Hsafe). exists rl'. split; [done|]. intros extra ca.
      apply Hpre. eapply prints_bind; [apply Hconv|]. intros [crecs cagg] Hcu. cbn in Hcu. subst crecs. apply Hsafe.
  - rewrite Hmid in *. destruct (IH Hone' _ _ _ _ Hr0 Hwf Hrl Hok) as (rl' & Hrl' & Hsafe).
    exists rl'. split; [done|]. intros extra ca. apply Hpre. destruct (Z.eqb_spec (Z.of_nat (length (pfv_argv pfv))) 1) as [E|E]; [|apply Hsafe].
    exfalso. assert (length (pfv_argv pfv) = 1%nat) as E1 by lia. specialize (Hone E1). by apply Forall_cons_1 in Hone as [? _].
Qed.

End Loop.

(** ** The action *)

Lemma create_argd_wf chr lookup_type m0 pdi m0' lp64 fuel : dt_pfdict_create chr lookup_type m0 = Ok (pdi, m0') ->
  forall m format q l m', create_loop lp64 (dt_pfdict_lookup chr pdi) fuel m format q = Ok (l, m') -> Forall (argd_wf lookup_type) l.
Proof.
  intros Hd. induction fuel as [|fuel IH]; intros m format q l m'; [done|]. cbn [create_loop].
  destruct (strchr_pct q) as [[pre p]|].
  - destruct (malloc m) as [[] m1]; [|done]. intros Hc. inv_bind Hc. destruct r as [st q']. inv_bind Hc. apply of_option_Ok in Hr0.
    inv_bind Hc. destruct r0 as [l0 m2]. injection Hc as <- <-. constructor; [|by eapply IH].
    split; [done|]. intros pfc [= <-]. by destruct (dt_pfdict_lookup_entry _ _ _ _ _ _ _ Hd Hr0) as (e & Hin & Ht & _); exists e.
  - case_bool_decide; [|by intros [= <- <-]]. destruct (malloc m) as [[] m1]; [|done]. intros [= <- <-]. by repeat constructor.
Qed.

Lemma validate_loop_single `{!Ctf} target aggnode argv args pfd' rest :
  validate_loop target DT_PRINTF_EXACTLEN aggnode argv args = Ok ([pfd'], rest) -> pfd_conv pfd' = None -> args = rest.
Proof.
  destruct argv as [|pfd argv]; [done|]. cbn [validate_loop]. intros Hv Hn. inv_bind Hv. destruct r as [pfd1 mid].
  inv_bind Hv. destruct r as [argv1 rest1]. injection Hv as <- -> <-.
  destruct argv; [|cbn [validate_loop] in Hr0; inv_bind Hr0; destruct r; inv_bind Hr0; by destruct r].
  injection Hr0 as <-. destruct (validate_one_same target aggnode pfd args pfd1 mid Hr) as [(_ & Ec & _) Hm].
  rewrite Ec in Hn. by rewrite Hn in Hm.
Qed.

Lemma validate_loop_convs `{!Ctf} target aggnode argv : forall args argv' rest,
  validate_loop target DT_PRINTF_EXACTLEN aggnode argv args = Ok (argv', rest) -> (pfd_conv <$> argv') = (pfd_conv <$> argv).
Proof.
  induction argv as [|pfd argv IH]; intros args argv' rest; cbn [validate_loop]; [by intros [= <- <-]|].
  intros Hv. inv_bind Hv. destruct r as [pfd1 mid]. inv_bind Hv. destruct r as [argv1 rest1]. injection Hv as <- <-.
  destruct (validate_one_same target aggnode pfd args pfd1 mid Hr) as [(_ & Ec & _) _].
  rewrite !fmap_cons. by rewrite Ec, (IH _ _ _ Hr0).
Qed.

Section Action.
Context `{!Ctf, !CtfLaws, !CTypes}.

(** The records of the arguments; an action without arguments has a record of its own. *)
Lemma action_records m p kind args p' m' : Forall arg_wf args ->
  (if bool_decide (args = []) then dt_rec_add m p kind 0 1 0 else store_args m p kind args) = Some (p', m') ->
  0 <= pcb_bufoff p -> pcb_bufoff p + total_size args + 8 < 2 ^ 32 ->
  exists rl own, drop (length (pcb_recs p)) (pcb_recs p') = rl ++ own /\ Forall2 (rec_for kind (pcb_bufoff p')) args rl /\
    (args = [] -> own <> []).
Proof.
  intros Hwf Hst Hb Hf. case_bool_decide as He.
  - subst args. destruct (dt_rec_add_ok _ _ _ _ _ _ _ _ Hst) as (off & -> & _); [by repeat constructor|cbn in Hf; lia..|].
    exists [], [RecDesc kind 0 off 1 0]. by rewrite drop_app_length.
  - destruct (store_args_ok _ _ _ _ _ _ Hwf Hst Hb) as (rl & -> & Hrl & _); [lia|].
    exists rl, []. by rewrite drop_app_length, app_nil_r.
Qed.

(** A format that is only text prints it, and takes the record of the action. *)
Lemma text_safe maxframes no_vector target pfv pfd recs buf : pfv_flags pfv = DT_PRINTF_EXACTLEN -> pfv_argv pfv = [pfd] ->
  pfd_conv pfd = None -> recs <> [] -> prints (dtrace_fprintf maxframes no_vector target pfv recs buf) (λ n, n = 1).
Proof.
  intros Hfl Ha Hc Hr. unfold dtrace_fprintf, dt_printf_format. rewrite Ha. cbn [format_loop]. rewrite Hc.
  assert (prints (print_prefix pfv true pfd) (λ _, True)) as Hp by (by apply prefix_safe).
  eapply (prints_bind _ _ (λ r, r = inl 1)); [|intros r ->; by apply prints_ret].
  eapply prints_bind; [exact Hp|]. intros _ _. rewrite Ha. apply prints_ret. by destruct recs.
Qed.

(** C18: Let printf() (or system() or freopen()) be compiled successfully from a
    format and its arguments: the format is read, it is checked against the types of
    the arguments, and a record is added to the trace buffer for each.  When the
    records that were compiled are printed from a buffer that holds them and is
    aligned to 8, printf(3) is never given an argument of another type than its
    format says; printing takes exactly the records of this action, whatever follows
    them; and it fails only if the output fails, or there is no memory to escape a
    string, or a stack is longer than maxframes.  Of the arguments it is assumed
    that they have a static type whose numbers are of sizes that the hardware has,
    and that they are scalars, floats, strings or passed by reference, so that a
    record is stored (for a _symaddr, which %a admits, none is); the D types named
    in the table of conversions have their C sizes, and the records stay below 2^32.
    Left out are the conversions that the check admits but that cannot be printed:
    %a of what is not 4 or 8 bytes long (integers of one or two bytes, arrays), %A
    of what is not 4, 8 or 24 bytes long, %p of an array, and %wc and %ws. *)
Theorem printf_type_safe maxframes no_vector target chr lookup_type m0 pdi m0' lp64 type_lookup m p kind fmt args pfv p' m' buf extra :
  dt_pfdict_create chr lookup_type m0 = Ok (pdi, m0') -> d_types_ok lookup_type -> kind ∈ [3; 0x203; 0x204] ->
  dt_cg_act_printf target lp64 (dt_pfdict_lookup chr pdi) type_lookup m p kind fmt args = Ok (pfv, p', m') ->
  Forall arg_wf args -> Forall (uncurry conv_arg_ok) (conv_args (pfv_argv pfv) args) ->
  0 <= pcb_bufoff p -> pcb_bufoff p + total_size args + 8 < 2 ^ 32 ->
  pcb_bufoff p' <= Z.of_nat (length (b_data buf)) -> b_addr buf `mod` 8 = 0 ->
  prints (dtrace_fprintf maxframes no_vector target pfv (drop (length (pcb_recs p)) (pcb_recs p') ++ extra) buf)
    (λ n, n = Z.of_nat (length args) \/ (args = [] /\ n = 1)).
Proof.
  intros Hdict Hd Hkind Hact Hwf Hok Hb Hf Hlim Hbase. unfold dt_cg_act_printf in Hact.
  destruct (negb _); [done|]. destruct (_ && _); [done|]. set (str := if _ && _ then _ else _) in Hact.
  destruct (dt_printf_create lp64 _ m str) as [[pfv0 m1]|] eqn:Hcreate; [|done]. inv_bind Hact. rename r into pfv1. inv_bind Hact.
  destruct r as [p1 m2]. injection Hact as <- <- <-. apply of_option_Ok in Hr0.
  (* the format *)
  unfold dt_printf_create in Hcreate. destruct (malloc m) as [[] m3]; [|done]. destruct (malloc m3) as [[] m4]; [|done].
  inv_bind Hcreate. destruct r as [argv m5]. injection Hcreate as <- <-.
  unfold dt_printf_validate in Hr. cbn [pfv_format pfv_argv] in Hr. destruct str as [|s0 str]; [done|].
  inv_bind Hr. rename r into aggnode. inv_bind Hr. destruct r as [argv' rest]. cbn [flag] in Hr.
  destruct (flag DT_PRINTF_EXACTLEN DT_PRINTF_EXACTLEN && negb (bool_decide (rest = []))) eqn:Hex; [done|]. injection Hr as <-.
  assert (rest = []) as -> by (destruct rest; [done|by vm_compute in Hex]).
  pose proof (create_argd_wf _ _ _ _ _ lp64 _ Hdict _ _ _ _ _ Hr1) as Hargd. cbn [pfv_argv] in Hok.
  destruct (action_records _ _ _ _ _ _ Hwf Hr0 Hb Hf) as (rl & own & -> & Hrl & Hown).
  set (pfv := PfArgv (s0 :: str) argv' DT_PRINTF_EXACTLEN).
  assert ((exists pfd, argv' = [pfd] /\ pfd_conv pfd = None) \/ (length argv' = 1%nat -> Forall (λ pfd, pfd_conv pfd <> None) argv)) as [(pfd & -> & Hn)|Hone].
  { pose proof (validate_loop_convs _ _ _ _ _ _ Hr3) as Econv. destruct argv' as [|pfd [|pfd2 argv']]; [by right|..|by right].
    destruct (pfd_conv pfd) as [pfc|] eqn:E; [right; intros _|left; by exists pfd].
    destruct argv as [|x [|]]; try done. injection Econv as Ex. repeat constructor. congruence. }
  - pose proof (validate_loop_single _ _ _ _ _ _ Hr3 Hn) as ->. apply Forall2_nil_inv_l in Hrl as ->.
    eapply prints_weaken; [eapply (text_safe _ _ _ pfv pfd); try done; cbn; specialize (Hown eq_refl); by destruct own|]. intros n ->. by right.
  - destruct (loop_safe maxframes no_vector target lookup_type kind Hkind pfv eq_refl buf (pcb_bufoff p1) Hlim Hbase aggnode argv Hd Hargd Hone
      _ _ _ _ Hr3 Hwf Hrl Hok) as (rl' & ->%Forall2_nil_inv_l & Hsafe).
    unfold dtrace_fprintf, dt_printf_format. rewrite <- app_assoc. eapply prints_bind; [apply Hsafe|].
    intros [?|c]; [done|]. intros Hc. cbn [app] in Hc. apply prints_ret. left. rewrite Hc, (Forall2_length _ _ _ Hrl), !length_app. lia.
Qed.

End Action.

(** ** An example *)

Module Session.

(** A container with the types of a 64-bit program: name, kind, the type it refers to or
    its elements, format, bits, alignment. *)
Record ty := Ty { ty_name : string; ty_kind : ctf_kind; ty_ref : Z; ty_format : Z; ty_bits : Z; ty_align : Z }.
Definition types : list ty := [
  Ty "" CTF_K_UNKNOWN (-1) 0 0 1;                        (* 0 *)
  Ty "int" CTF_K_INTEGER (-1) 1 32 4;                    (* 1 *)
  Ty "short" CTF_K_INTEGER (-1) 1 16 2;                  (* 2 *)
  Ty "unsigned short" CTF_K_INTEGER (-1) 0 16 2;         (* 3 *)
  Ty "long" CTF_K_INTEGER (-1) 1 64 8;                   (* 4 *)
  Ty "unsigned long" CTF_K_INTEGER (-1) 0 64 8;          (* 5 *)
  Ty "long long" CTF_K_INTEGER (-1) 1 64 8;              (* 6 *)
  Ty "unsigned long long" CTF_K_INTEGER (-1) 0 64 8;     (* 7 *)
  Ty "long double" CTF_K_FLOAT (-1) 6 128 8;             (* 8 *)
  Ty "char" CTF_K_INTEGER (-1) 3 8 1;                    (* 9 *)
  Ty "char [256]" CTF_K_ARRAY 9 0 2048 1;                (* 10 *)
  Ty "string" CTF_K_TYPEDEF 10 0 2048 1;                 (* 11 *)
  Ty "void" CTF_K_INTEGER (-1) 1 0 1;                    (* 12 *)
  Ty "<DYN>" CTF_K_TYPEDEF 12 0 0 1;                     (* 13 *)
  Ty "uint64_t" CTF_K_TYPEDEF 5 0 64 8;                  (* 14 *)
  Ty "char *" CTF_K_POINTER 9 0 64 8;                    (* 15 *)
  Ty "int64_t" CTF_K_TYPEDEF 4 0 64 8                    (* 16 *)
]%string.

Definition ty_of (t : Z) : ty := if 0 <=? t then default (Ty "" CTF_K_UNKNOWN (-1) 0 0 1) (types !! Z.to_nat t) else Ty "" CTF_K_UNKNOWN (-1) 0 0 1.
Definition is_typedef (t : Z) : bool := is_kind (ty_kind (ty_of t)) CTF_K_TYPEDEF.
Definition resolve (t : Z) : Z := if is_typedef t then ty_ref (ty_of t) else t.
Definition has_reference (t : Z) : bool := match ty_kind (ty_of t) with CTF_K_TYPEDEF | CTF_K_POINTER => true | _ => false end.

#[export] Instance ctf : Ctf := {|
  ctf_type_resolve := λ _ t, resolve t;
  ctf_type_kind := λ _ t, ty_kind (ty_of t);
  ctf_type_encoding := λ _ t,
    match ty_kind (ty_of t) with
    | CTF_K_INTEGER | CTF_K_FLOAT => Some (CtfEncoding (ty_format (ty_of t)) 0 (ty_bits (ty_of t)))
    | _ => None
    end;
  ctf_array_info := λ _ t, if is_kind (ty_kind (ty_of t)) CTF_K_ARRAY then Some (ty_ref (ty_of t)) else None;
  ctf_type_reference := λ _ t, if has_reference t then ty_ref (ty_of t) else CTF_ERR;
  ctf_type_name := λ _ t, Some (lit (ty_name (ty_of t)));
  ctf_type_size := λ _ t, ty_bits (ty_of t) / 8;
  ctf_type_align := λ _ t, ty_align (ty_of t);
  ctf_type_compat := λ _ t _ t', resolve t =? resolve t';
  ctf_types := λ _, 20%nat;
  DT_STR := CtfType 1 11;
  DT_DYN := CtfType 1 13;
  DT_STACK := CtfType 1 100;
  DT_SYMADDR := CtfType 1 101;
  DT_USYMADDR := CtfType 1 102;
|}.

(** A type is one of the list, or it is unknown. *)
Lemma ty_cases (P : Z -> Prop) t : Forall P (seqZ 0 17) -> (ty_of t = Ty "" CTF_K_UNKNOWN (-1) 0 0 1 -> P t) -> P t.
Proof.
  intros Hl Hu. destruct (decide (0 <= t < 17)) as [Ht|Ht].
  - rewrite Forall_forall in Hl. apply Hl, elem_of_seqZ. lia.
  - apply Hu. unfold ty_of. destruct (Z.leb_spec 0 t); [|done]. rewrite lookup_ge_None_2; [done|]. unfold types. cbn [length]. lia.
Qed.

Lemma resolve_unknown t : ty_of t = Ty "" CTF_K_UNKNOWN (-1) 0 0 1 -> resolve t = t.
Proof. intros E. unfold resolve, is_typedef. by rewrite E. Qed.

Ltac each_type := repeat (apply Forall_cons_2; [vm_compute; try (intros; done); try lia; try (intros [=])|]); try apply Forall_nil_2.

#[export] Instance ctf_laws : CtfLaws.
Proof.
  assert (forall t, resolve (resolve t) = resolve t) as Hidem.
  { intros t. pattern t. apply ty_cases; [each_type|]. intros E. by rewrite !(resolve_unknown t). }
  assert (forall t, ty_bits (ty_of (resolve t)) / 8 = ty_bits (ty_of t) / 8) as Hsize.
  { intros t. pattern t. apply ty_cases; [each_type|]. intros E. by rewrite !(resolve_unknown t). }
  refine {| ctf_rank := λ _ t, if decide (0 <= t < 17) then Z.to_nat t else 0%nat |}; cbn.
  - intros _ t. case_decide; lia.
  - intros _ t. pattern t. apply ty_cases; [each_type|]. intros E. unfold has_reference. by rewrite E.
  - intros _ t _ t'. apply Z.eqb_sym.
  - intros _ t _ t' E%Z.eqb_eq. by rewrite E.
  - intros _ t _ t' E%Z.eqb_eq. by rewrite <- Hsize, E, Hsize.
  - intros _ t. apply Hidem.
  - intros _ t. apply Hsize.
Qed.

#[export] Instance c_types : CTypes.
Proof.
  assert (forall t size, c_size (lit (ty_name (ty_of (resolve t)))) = Some size ->
    ty_bits (ty_of t) / 8 = size /\ ty_kind (ty_of (resolve t)) = CTF_K_INTEGER) as Hnamed.
  { intros t. pattern t. apply ty_cases; [each_type; by intros size [= <-]|]. intros E. by rewrite (resolve_unknown t), E by done. }
  split; cbn.
  - intros _ t name size [= <-]. apply Hnamed.
  - intros _ t. pattern t. apply ty_cases; [each_type|]. intros E. by rewrite E.
  - intros _ t. pattern t. apply ty_cases; [each_type|]. intros E. by rewrite E.
Qed.

Definition lookup_type (o : type_obj) (s : bytes) : option ctf_type :=
  (λ p, CtfType 1 (Z.of_nat (fst p))) <$> list_find (λ t, lit (ty_name t) = s) types.

Lemma d_types_found : d_types_ok lookup_type.
Proof.
  intros name size kind t Hin. unfold d_types in Hin.
  repeat (apply elem_of_cons in Hin as [Hin|Hin]; [injection Hin as -> -> ->; vm_compute; by intros [= <-]|]). by apply elem_of_nil in Hin.
Qed.

Definition dict : dt_pfdict :=
  match dt_pfdict_create char_signed lookup_type (replicate 60 true) with Ok (pdi, _) => pdi | Err _ => [] end.

Definition var (t flags : Z) : node := Node DT_NODE_VAR (Z.lor flags DT_NF_COOKED) 1 t 0 [] None None.
Definition constant (s : string) : node := Node DT_NODE_STRING (Z.lor DT_NF_REF DT_NF_COOKED) 1 11 0 (lit s) None None.

(** printf("%-5d|%s %llx %*u %lX%%", i, "abc", x, w, u, l) *)
Definition fmt : node := constant "%-5d|%s %llx %*u %lX%%".
Definition args : list node := [var 1 1; constant "abc"; var 14 0; var 1 1; var 3 0; var 4 1].

Definition compile (fmt : node) (args : list node) :=
  dt_cg_act_printf (Some 0) true (dt_pfdict_lookup char_signed dict) (lookup_type DDEFS) (replicate 40 true) (Pcb [] 0 0) 3 fmt args.
Definition compiled : dt_pfargv * pcb * allocs :=
  match compile fmt args with Ok r => r | Err _ => (PfArgv [] [] 0, Pcb [] 0 0, []) end.
Definition pfv : dt_pfargv := fst (fst compiled).
Definition final : pcb := snd (fst compiled).

Lemma args_wf : Forall arg_wf args.
Proof.
  unfold args. repeat (apply Forall_cons_2; [split; first [done | vm_compute; intros; (done || lia || by repeat constructor)]|]).
  apply Forall_nil_2.
Qed.

Definition data : bytes :=
  le_bytes 4 (2 ^ 32 - 7) ++ lit "abc" ++ replicate 257 0 ++ le_bytes 8 255 ++ le_bytes 4 6 ++ le_bytes 2 65535 ++ [0; 0] ++ le_bytes 8 10.
Definition buf : buffer := Buffer 4096 data.

Lemma printf_type_safe_witness :
  prints (dtrace_fprintf 100 true (Some 0) pfv (pcb_recs final ++ [RecDesc 2 4 288 4 0]) buf) (λ n, n = 6 \/ (args = [] /\ n = 1)).
Proof.
  apply (printf_type_safe 100 true (Some 0) char_signed lookup_type (replicate 60 true) dict (replicate 9 true) true (lookup_type DDEFS)
    (replicate 40 true) (Pcb [] 0 0) 3 fmt args pfv final (replicate 28 true) buf [RecDesc 2 4 288 4 0]).
  - vm_compute. reflexivity.
  - exact d_types_found.
  - by repeat constructor.
  - vm_compute. reflexivity.
  - exact args_wf.
  - vm_compute. repeat (apply Forall_cons_2; [split_and!; intros; (done || by repeat constructor)|]). apply Forall_nil_2.
  - done.
  - vm_compute. done.
  - vm_compute. done.
  - done.
Defined.

(** What it prints. *)
Example printed : dtrace_fprintf 100 true (Some 0) pfv (pcb_recs final) buf (World (replicate 10 true) []) =
  (Ok 6, World [] [OPrintf (lit "%-5d") (AInt 32 (-7)); OText (lit "|"); OPrintf (lit "%s") (AStr (lit "abc")); OText (lit " ");
    OPrintf (lit "%llx") (AInt 64 255); OText (lit " "); OPrintf (lit "%6u") (AInt 32 65535); OText (lit " ");
    OPrintf (lit "%llX") (AInt 64 10); OText (lit "%")]).
Proof. vm_compute. reflexivity. Qed.

(** The format of DOF for printf("%?.*5d", p, l) has ten bytes, and its buffer too: the
    NUL is stored behind it. *)
Example format_overrun :
  match compile (constant "%?.*5d") [var 1 1; var 4 1] with
  | Ok (pfv, _, _) => pickle (pfv_argv pfv) = lit "%.*16.5lld" /\ formatlen pfv = 10%nat /\ dtrace_printf_format pfv 100 = None
  | Err _ => False
  end.
Proof. vm_compute. done. Qed.

(** %a of a short passes the check and is not printed; nor are %a and %p of an array. *)
Example small_address :
  match compile (constant "%a") [var 2 1], compile (constant "%p") [var 10 4], compile (constant "%a") [var 10 4] with
  | Ok (pfv, p, _), Ok (pfv', p', _), Ok (pfv2, p2, _) =>
      fst (dtrace_fprintf 100 true None pfv (pcb_recs p) buf (World [true] [])) = Err EDT_DMISMATCH /\
      fst (dtrace_fprintf 100 true None pfv' (pcb_recs p') buf (World [true] [])) = Err EDT_DMISMATCH /\
      fst (dtrace_fprintf 100 true None pfv2 (pcb_recs p2) buf (World [true] [])) = Err EDT_DMISMATCH
  | _, _, _ => False
  end.
Proof. vm_compute. done. Qed.

(** %wc passes the check, and printf(3) has no such conversion. *)
Example wide_char :
  match compile (constant "%wc") [var 1 1] with
  | Ok (pfv, p, _) => w_out (snd (dtrace_fprintf 100 true None pfv (pcb_recs p) buf (World [true] []))) = [OPrintf (lit "%wc") (AInt 32 (-7))]
  | Err _ => False
  end /\ printf_type (lit "%wc") = None.
Proof. vm_compute. done. Qed.

(** printa("%@a", @avg): the check takes the value for an integer that is printed as an
    address, that is, with %s; but the value of avg() is printed as a number with the
    same format: printf(3) takes the average for the address of a string. *)
Definition average : aggval := AggVal (RecDesc DT_AGG_AVG 16 8 8 0) 1 0 (Buffer 0 (replicate 8 0 ++ le_bytes 8 2 ++ le_bytes 8 10)) (Buffer 0 []).

Example average_as_string :
  match dt_printf_create true (dt_pfdict_lookup char_signed dict) (replicate 9 true) (lit "%@a") with
  | Ok (pfv, _) =>
      match dt_printf_validate None (lookup_type DDEFS) pfv DT_PRINTF_AGGREGATION DT_AGG_AVG [] with
      | Ok pfv => w_out (snd (dt_printf_format 100 true None pfv (Buffer 0 []) (Some [average]) [] (World (replicate 9 true) []))) =
          [OPrintf (lit "%s") (AInt 64 5); OFlush 10]
      | Err _ => False
      end
  | Err _ => False
  end.
Proof. vm_compute. done. Qed.

End Session.
